(* ===== verification/_CoqProject ===== *)
-Q . S2P
Prelude.v
Extern.v
Instances.v
Extra.v
Validation.v
ChainSpec.v
Consensus.v
Tpke.v
Wire.v
Payload.v
Recovery.v
Cache.v
Protocol.v
DkgParams.v
Lagrange.v
Dkg.v
Pvss.v
Threshold.v
ModelThreshold.v
DkgState.v
Storage.v
DkgStorage.v
DkgReplay.v
ModelDkg.v
DkgSettled.v
DkgTask.v
DkgExecutor.v
DkgMaterial.v
Round.v
RoundProgress.v
Sealing.v
Journal.v
Signer.v
DkgTransaction.v
Agreement.v
Finality.v
FutureMessages.v
Timer.v
AntiMev.v
StaticPool.v
DkgRuntime.v
DkgService.v
DkgWork.v
ModelRuntime.v
Execution.v
Reconstruction.v
TxSync.v
ProposalRecovery.v
Driver.v
Proposal.v
Pool.v
Candidates.v
Producer.v
Rebuild.v
Chain.v
ModelChain.v
ModelProducer.v
DriverSafety.v
Node.v
