(* ===== verification/Prelude.v ===== *)
(** * Neo X dBFT: a verification library for the consensus code of neox-rs

    neox-rs (src/) is a Reth fork whose own logic is in src/crates/neox: the Neo X
    chain is sealed by a committee of validators running dBFT, with threshold
    encryption (Anti-MEV) keyed by a distributed key generation. A validator reads the
    committee from the Governance contract, opens a round for the next height,
    exchanges signed messages over the [dbft/0] capability, and seals the block when a
    quorum has committed; every node checks the seal in header validation. This
    library models that path and proves what makes it correct.

    ** Files and the code they model

    - [Prelude] (this file): results and their binds, machine integers with checked,
      saturating and wrapping operations, byte strings, sorting.
    - [Extern]: the interfaces of code that is not in src/. [AlloyRlp] is alloy-rlp
      with [AlloyRlpLaws] (what is encoded decodes, decoding is bounded by its input),
      [Crypto] is Keccak and ECDSA recovery, [Blst] is the BLS12-381 library,
      [Symmetric] is SHA-256 and AES, [Secp256k1] is ECDSA signing (what is signed
      recovers to the signer). Other interfaces stand beside their users:
      [SignedTransactions] in [AntiMev] (decoding and signers of Ethereum
      transactions), [PooledTransactions] in [TxSync], [BlockContents] in
      [ProposalRecovery] (bodies and execution results, carried and never inspected),
      [BlobSchedule] and [EthConstants] in [ChainSpec] and [Consensus] (the Ethereum
      specification), [TransactionDetails] and [Revm] in [StaticPool] (transaction
      fields, forks and intrinsic gas), [EthExecutor] in [Execution] (alloy's block
      executor over a database), [BlockRoots] and [BlobSidecars] in [Proposal] (trie
      roots and KZG), [Ecies] in [Dkg] (k256, SHA-3 and AES-GCM), [SolAbi] and
      [ProverHost] in [DkgMaterial] (ABI encoding and the proving helper), [DkgHost] in
      [DkgRuntime] (the chain, the pool, the prover jobs, the file and the entropy, each
      call answered by its time), [EthTransactionValidator] in [Pool] (Reth's own admission
      checks), [BlockProduction] and [TransactionPool] in [Producer] (alloy's environment of
      the next block, Reth's pool and blob store). [FieldLaws],
      [GroupLaws] and [SignatureLaws] in [Lagrange] are the laws of blst: a prime field, two
      cyclic groups with unique encodings and a bilinear pairing, BLS signatures. No law
      gives a property by itself.
    - [Instances]: concrete instances of those interfaces, RLP in full and stand-ins
      for cryptography, on which the witnesses compute. [alloy_rlp_laws] proves the
      RLP laws of the instance.
    - [Extra]: crates/neox/consensus/src/extra.rs, the header's [extraData].
    - [Validation]: crates/neox/consensus/src/validation.rs, seal hashes and header
      validation against the parent.
    - [ChainSpec]: crates/neox/chainspec, the fork schedule and the genesis checks.
    - [Consensus]: crates/neox/consensus-engine, the header checks of every node, with
      the Reth checks they call (crates/consensus/common, crates/ethereum/consensus).
    - [Tpke]: crates/neox/antimev/src/tpke.rs, threshold signatures and decryption.
    - [Wire]: the message layer of crates/neox/network/src/dbft.rs.
    - [Payload], [Recovery]: crates/neox/network/src/dbft_payload.rs, typed payloads
      and recovery messages.
    - [Cache], [Protocol]: the message cache and the network service of
      crates/neox/network/src/dbft.rs, with a step relation [sys_step] for the whole
      service.
    - [DkgParams], [Dkg], [Pvss]: crates/neox/antimev/src/dkg.rs, the committee parameters,
      the polynomials, announcements and checks of distributed key generation, and what
      its secret sharing promises.
    - [Lagrange], [Threshold]: polynomials and interpolation over the scalar field, and the
      composition of key generation with threshold signatures and decryption.
    - [ModelThreshold]: a field of 17 elements with every law of [Lagrange], and a committee
      of four on which those theorems run.
    - [DkgState]: crates/neox/antimev/src/dkg_state.rs, the key store of a validator, with a
      step relation [store_step].
    - [DkgStorage], [DkgReplay]: crates/neox/node/src/dkg_storage.rs, dkg_contract_state.rs
      and dkg_replay.rs, the readers of the KeyManagement contract and the application of
      a canonical round to the key store.
    - [DkgTask], [DkgExecutor], [DkgMaterial], [DkgTransaction]: crates/neox/node/src/dkg_task.rs,
      dkg_executor.rs, dkg_material.rs with dkg_prover.rs and dkg_call.rs, and
      dkg_transaction.rs: which contract calls become due, the queue that runs them, the
      secret material and call data of each, and its transaction.
    - [DkgSettled], [DkgRuntime]: bin/neox-rs/src/dkg_runtime.rs with crates/neox/node/src/dkg_submit.rs, the
      settled round and the service that drives the pipeline. [DkgService] and [DkgWork] are
      its theorems, for the signer's shares and for the work in progress.
    - [ModelDkg], [ModelRuntime]: a member of the committee of [ModelThreshold] on which the
      theorems of key generation and of its service run.
    - [Storage]: crates/neox/evm/src/system_contracts.rs, the Governance readers of
      crates/neox/node/src/validator.rs and crates/neox/node/src/dkg.rs.
    - [Round]: [DbftRoundState] of crates/neox/node/src/validator.rs, with a step
      relation [round_step] and reachability [round_reachable].
    - [RoundProgress]: what a round keeps and answers from step to step, for its
      clients.
    - [Sealing]: the composition of the round with header validation and with the
      Governance readers.
    - [Journal], [Signer]: the duty journal, as bytes of a file with failed writes and
      restarts, and [DbftSigner], of crates/neox/node/src/signer.rs.
    - [Agreement], [Finality]: the composition of the signer with header validation, for
      two headers and for two whole chains.
    - [FutureMessages], [Timer]: crates/neox/node/src/sync/future_messages.rs and
      timer.rs, the cache of early messages and the view timer.
    - [AntiMev]: crates/neox/antimev/src/envelope.rs and precommit.rs, and Envelope
      discovery and resolution of crates/neox/node/src/antimev.rs.
    - [StaticPool], [Reconstruction], [Rebuild]: crates/neox/node/src/reconstruction.rs, the
      scratch pool, the replay of a block with its decrypted transactions and the rebuilt
      header.
    - [Execution]: crates/neox/evm/src/executor.rs and config.rs, and the execution of a
      block (crates/evm/evm/src/execute.rs).
    - [Proposal]: [verify_proposal] of crates/neox/node/src/proposal.rs with Reth's body and
      post-execution checks, and the commitments to the next consensus of producer.rs.
    - [Pool]: crates/neox/node/src/pool.rs, admission to the transaction pool of the node.
    - [Candidates]: the pool's iterator over executable transactions
      (crates/transaction-pool/src/pool/best.rs, with the orders of pool/pending.rs and
      ordering.rs).
    - [Producer]: [build_primary_proposal] of crates/neox/node/src/producer.rs, on the block
      builder of crates/evm/evm/src/execute.rs and crates/ethereum/evm/src/build.rs.
    - [ModelProducer]: a primary with a pool on which proposals are built, with the witnesses
      of [Pool] and [Producer].
    - [Chain]: the composition of a parent's commitments, the round opened from them and
      the header checks of the sealed child.
    - [ModelChain]: a small chain on which the block-level definitions run, with the
      witnesses of their theorems.
    - [TxSync], [ProposalRecovery]: the recovery of proposal transactions
      ([ProposalTransactionSync] of crates/neox/node/src/proposal.rs, and
      sync/proposal_recovery.rs), and the scheduling of reconstructions
      (sync/anti_mev.rs).
    - [Driver]: the handlers of crates/neox/node/src/sync.rs that move the round, and
      the event loop that composes them ([driver_start], [driver_step]). The state is
      the local variables of [run_beacon_sync]; background tasks are recorded when
      started and their results are events.
    - [DriverSafety]: the invariant of the driver and the step relation [moves] that
      every handler refines.
    - [Node]: a whole validator: the driver with the network service and the journaled
      signer through restarts ([node_reachable]).

    ** Correspondence

    Definitions keep the names of the source, with a prefix where two types have a
    method of one name ([cache_insert], [round_new]). Unsigned integers are [N] with
    their width written out where it matters; byte strings are lists of bytes;
    [Result] is [result] with [let?] for the question mark; an error the source renders
    as text is a structured value. A panic of the source (an [expect], an index, an
    [unreachable!]) is a constructor or a [None] of its own, proved unreachable.
    Operations on [&mut self] return the new state with the result, errors included.
    [HashMap]s are finite maps; where iteration order can show it is an argument.
    Locks: each critical section is one step. The inbound path reads the admission
    state more than once, so the model takes each read as a separate argument and
    the theorems hold for any stale values. Clocks, iteration orders, journal writes
    and the answers of the pool, the provider and the beacon connections are arguments
    of each event.

    ** What is shown

    - The node: [node_seals_certified] (every seal it ever gives out is for a certified
      proposal, one per height, through restarts), [node_imports_certified] (what it
      imports is certified and validly sealed), [node_total] (every event is handled to
      the end), [node_publishes_accepted] (the service admits what the round accepts).
    - The signer: [signer_refines_journal], [signer_no_equivocation],
      [signed_message_authentic]; with header validation, [no_ecdsa_fork].
    - Agreement: [prepared_agreement] (two prepared proposals in one view expose more
      than f equivocators), [ecdsa_fork_accountability] (so do two valid sealed
      children of one parent), [progress_certified], [view_change_certified],
      [vote_once].
    - Chains: [chain_agreement] (two validated chains are one chain, up to the last seal),
      [genesis_sound].
    - From quorum to block: [ecdsa_commit_sealed] and [threshold_commit_sealed] (what
      the round seals verifies), [ecdsa_block_imports] and [threshold_block_imports] (and
      is imported by every node as a child of the block that committed to the committee),
      [seal_hash_ignores_seal], [verify_ecdsa_signatures_iff_certifies],
      [proposal_primary_difficulty].
    - Blocks: [static_pool_sound], [block_keeps_policy], [sequence_sound] (the decisions of
      reconstruction and the block they make), [reconstruction_reexecutes] (the rebuilt
      block executes to what its header says), [reconstruction_finalizes] (and the round
      accepts it for the proposal).
    - Proposals: [produced_proposal_verifies] (what a primary builds, every backup with the
      parent accepts, under the same or another witness of the parent), [proposal_contents]
      (senders, nonces, ciphertexts, blobs and sidecars), [build_terminates],
      [policy_checks_agree] (pool, scratch pool and executor apply one Policy),
      [batch_on_one_state].
    - Anti-MEV: [antimev_discovery], [antimev_resolution] (a decrypted transaction
      replaces an Envelope only if it is the one committed to), [envelope_decode_iff],
      [share_decoders_agree], [reconstruction_bounded].
    - Proposal transactions, timer and early messages: [txsync_ready_exact],
      [txsync_never_panics], [timer_latest_only], [timeout_policy],
      [future_cache_replay], [future_cache_budget].
    - Termination and panics: [process_total], [lifecycle_never_panics],
      [extra_codec_never_panics], [take_rlp_item_total].
    - Network service: [inbound_cached_iff_delivered], [system_cache_admitted],
      [system_queue_bounds], [cache_budget].
    - Codecs: [decode_iff_try_encode], [genesis_v0_roundtrip], [message_hash_binds],
      [from_data_iff_pack], [prepare_request_roundtrip], [recovery_message_roundtrip],
      [recovery_roundtrip], [recovery_expansion_authentic], [ciphertext_roundtrip],
      [decrypt_message_roundtrip], [solidity_bytes_roundtrip].
    - Threshold keys: [threshold_signature] and [threshold_decryption] (a committee with a
      threshold of honest members signs and decrypts under the key its transcript settles,
      with one result whatever the other members send), [pvss_complete], [pvss_recovers],
      [aggregated_share_settles], [aggregate_signature_search], [aggregate_decrypt_keys_search],
      [collect_combinations_exhaustive], [interpolation_scaler_least],
      [dkg_parameters_total], [dkg_schedule_phases].
    - Key generation: [key_store_sound] (every reachable store is well formed),
      [replay_converges] and [rebuilt_store_settles] (canonical replay is idempotent and
      absorbs a partial one), [planner_exact], [executor_refines_log], [executor_progress],
      [task_material_proves], [builder_sound], [bump_replaces].
    - The key-generation service: [signer_follows_canonical] (the signer's shares are those of
      the settled round of a canonical head), [service_work_sound] (the queue, the prover
      job and the pool agree after any events).
    - Committee: [governance_validator_set_exact], [governance_round_ready],
      [primary_rotation].
    - Defects shown by example: [faulty_votes_block_recovery],
      [drop_removes_newer_registration], [torn_tail_loses_next_duty],
      [change_view_then_commit_stalls], [overflow_drops_height],
      [blob_proposal_never_finalizes], [untipped_proposal_refused],
      [settled_round_unrebuildable], [settled_recovery_unreadable], [head_change_strands].

    ** Fuel

    [Cache.evict] takes as many turns as there are cached messages, each of which
    removes one. [DkgParams.gcd_loop] takes two turns per bit of its second argument.
    [Dkg.predictable_scalar] takes its turns as an argument, one for each hash that is zero or
    the modulus; the source loops until one is neither, and no theorem assumes it ends.
    [Dkg.secret_random] ends with the list of draws. [DkgTransaction.free_nonce] takes a turn per
    taken nonce, and [builder_sound] shows that as many turns as there are nonces are
    enough; [DkgHost.search_fuel] hands the turns of both searches to the service.
    [Candidates.next_tx_and_priority] and [next_paying] take [best_fuel], one turn more than
    there are transactions, each of which removes one, and so does
    [Producer.select_transactions]; [build_terminates] shows that this is enough.
    [Round.process_fuel] recurses twice, since a recovered message is never a recovery
    ([process_fuel_stable]). [Journal.decimal_digits] takes a turn per bit, and
    [Signer.search_base] a turn per halving of the range. The loops of
    [FutureMessages.make_room] and [prune_through] take a turn per cached height, each of
    which removes one. [TxSync.allocate_loop] takes a turn per open request and one more,
    and [ProposalRecovery.dispatch] a turn per candidate peer not yet tried.
    [Driver.process_pending] takes [loop_turns]: a turn per pending message and, for every
    view still to come, one per slot of the early-message cache; [node_total] shows that
    this is enough and that more turns change nothing. All other recursion is structural.

    ** Not modelled

    The upstream Reth crates, the checks and the block builder named above apart, and the
    node wiring (command line, tasks, metrics, RPC); cryptographic primitives and the
    circuits, which are parameters or left out; the process of the proving helper, its
    confinement and limits; key files on disk; the opcode, precompile and journal rules of the
    EVM factory. Building and verifying a proposal and rebuilding a block are modelled by
    themselves ([Producer], [Proposal], [Rebuild]); they are background tasks of the
    driver, so their results are its events. Of the transaction pool, the sub-pools that
    make the iterator of candidates are left out. Of sync.rs, block gossip and import,
    descendant synchronisation, blob sidecars and the total-difficulty checkpoint do not
    touch the round and are left out. The key-generation service reaches the driver's
    signer only through the shares it installs ([put_shares]). *)

From stdpp Require Export base numbers option list gmap sorting strings.
From Stdlib Require Export Strings.Byte.

Open Scope N_scope.

(** ** Results

    Rust's [Result<T, E>] and the [?] operator. *)

Inductive result (E A : Type) : Type :=
| Ok (a : A)
| Err (e : E).
Arguments Ok {E A} a.
Arguments Err {E A} e.

Definition result_bind {E A B} (r : result E A) (k : A -> result E B) : result E B :=
  match r with Ok a => k a | Err e => Err e end.

Definition map_err {E F A} (f : E -> F) (r : result E A) : result F A :=
  match r with Ok a => Ok a | Err e => Err (f e) end.

Definition is_ok {E A} (r : result E A) : bool :=
  match r with Ok _ => true | Err _ => false end.

Definition ok_or {E A} (o : option A) (e : E) : result E A :=
  match o with Some a => Ok a | None => Err e end.

Definition result_ok {E A} (r : result E A) : option A :=
  match r with Ok a => Some a | Err _ => None end.

Declare Scope neox_scope.
Delimit Scope neox_scope with neox.
Open Scope neox_scope.

Notation "'let?' x ':=' c 'in' k" := (result_bind c (fun x => k))
  (at level 200, x pattern, c at level 100, k at level 200,
   format "'[v' 'let?'  x  ':='  c  'in' '/' k ']'") : neox_scope.

(** [iter().map(f).collect::<Result<Vec<_>, _>>()]: stops at the first error. *)
Fixpoint collect_result {E A B} (f : A -> result E B) (l : list A) : result E (list B) :=
  match l with
  | [] => Ok []
  | x :: t => let? y := f x in let? ys := collect_result f t in Ok (y :: ys)
  end.

#[export] Instance result_eq_dec {E A} `{EqDecision E, EqDecision A} : EqDecision (result E A).
Proof. solve_decision. Defined.

(** An equation whose sides evaluate to one value, left to the kernel's machine. *)
Ltac by_vm := match goal with |- _ = ?r => vm_cast_no_check (eq_refl r) end.

(** Inversion of [?] chains: every [let?] in a hypothesis that ends in [Ok] or
    [Err] is split into the step that produced it. *)
Lemma result_bind_Ok {E A B} (r : result E A) (k : A -> result E B) b :
  result_bind r k = Ok b -> exists a, r = Ok a /\ k a = Ok b.
Proof. destruct r; simpl; naive_solver. Qed.

Lemma map_err_Ok {E F A} (f : E -> F) (r : result E A) a : map_err f r = Ok a -> r = Ok a.
Proof. destruct r; naive_solver. Qed.

Lemma ok_or_Ok {E A} (o : option A) (e : E) a : ok_or o e = Ok a -> o = Some a.
Proof. destruct o; naive_solver. Qed.

Ltac bind_inv :=
  repeat match goal with
  | H : map_err _ _ = Ok _ |- _ => apply map_err_Ok in H
  | H : ok_or _ _ = Ok _ |- _ => apply ok_or_Ok in H
  | H : result_bind _ _ = Ok _ |- _ =>
      apply result_bind_Ok in H; destruct H as (? & ? & H)
  | H : Ok _ = Ok _ |- _ => injection H as H; subst
  | H : Err _ = Ok _ |- _ => discriminate H
  | H : Ok _ = Err _ |- _ => discriminate H
  end.

(** Case analysis on the innermost scrutinee of the goal or of a hypothesis. *)
Ltac case_in H :=
  repeat match type of H with
  | context [match ?x with _ => _ end] =>
      lazymatch x with
      | context [match _ with _ => _ end] => fail
      | _ => destruct x eqn:?; simplify_eq/=
      end
  end.

Lemma collect_result_Ok {E A B} (f : A -> result E B) l l' :
  collect_result f l = Ok l' <-> Forall2 (fun x y => f x = Ok y) l l'.
Proof.
  revert l'. induction l as [|x l IH]; intros l'; simpl.
  - split; [intros [= <-]; constructor | by inversion 1].
  - split.
    + intros H. bind_inv. constructor; [done|]. by apply IH.
    + inversion 1 as [|? y ? ys Hxy Hl]; subst. rewrite Hxy. simpl.
      apply IH in Hl. by rewrite Hl.
Qed.

Lemma collect_result_total {E A B} (f : A -> result E B) l :
  (forall x, x ∈ l -> exists y, f x = Ok y) -> exists l', collect_result f l = Ok l'.
Proof.
  induction l as [|x l IH]; intros H; [by eexists|]. destruct (H x ltac:(left)) as [y Hy].
  destruct IH as [ys Hys]; [by intros z Hz; apply H; right|]. exists (y :: ys). simpl. by rewrite Hy, Hys.
Qed.

(** ** Unsigned machine integers

    Every unsigned Rust integer is an [N]; the width only appears where the
    source makes it matter. *)

Definition U8_MAX : N := 255.
Definition U32_MAX : N := 2 ^ 32 - 1.
Definition U64_MAX : N := 2 ^ 64 - 1.
Definition U128_MAX : N := 2 ^ 128 - 1.
(** Targets are 64-bit: [usize] is [u64]. *)
Definition USIZE_MAX : N := U64_MAX.

Definition checked_add (max a b : N) : option N :=
  if a + b <=? max then Some (a + b) else None.
Definition checked_mul (max a b : N) : option N :=
  if a * b <=? max then Some (a * b) else None.
Definition checked_sub (a b : N) : option N :=
  if b <=? a then Some (a - b) else None.
Definition saturating_add (max a b : N) : N := N.min (a + b) max.
(** [N.sub] truncates at zero, which is [saturating_sub]. *)
Definition saturating_sub (a b : N) : N := a - b.
Definition wrapping_add (max a b : N) : N := (a + b) mod (max + 1).
(** [x as u32] and [x as u8]. *)
Definition as_u32 (n : N) : N := n mod 2 ^ 32.
Definition as_u8 (n : N) : N := n mod 256.

Lemma checked_add_Some max a b c :
  checked_add max a b = Some c <-> c = a + b /\ a + b <= max.
Proof. unfold checked_add. destruct (N.leb_spec (a + b) max); naive_solver lia. Qed.

Lemma checked_mul_Some max a b c :
  checked_mul max a b = Some c <-> c = a * b /\ a * b <= max.
Proof. unfold checked_mul. destruct (N.leb_spec (a * b) max); naive_solver lia. Qed.

(** A checked operation followed by [?] continues exactly when it fits. *)
Lemma checked_add_bind_Ok {E A} max a b (e : E) (k : N -> result E A) r :
  result_bind (ok_or (checked_add max a b) e) k = Ok r <-> a + b <= max /\ k (a + b) = Ok r.
Proof. unfold checked_add. destruct (N.leb_spec (a + b) max); naive_solver lia. Qed.

Lemma checked_mul_bind_Ok {E A} max a b (e : E) (k : N -> result E A) r :
  result_bind (ok_or (checked_mul max a b) e) k = Ok r <-> a * b <= max /\ k (a * b) = Ok r.
Proof. unfold checked_mul. destruct (N.leb_spec (a * b) max); naive_solver lia. Qed.

(** Names the quotient and remainder of [a] by the literal [b] for [lia]. *)
Ltac div_facts a b :=
  let q := fresh "q" in let r := fresh "r" in
  pose proof (N.Div0.div_mod a b);
  pose proof (N.mod_lt a b ltac:(lia));
  set (q := a / b) in *; set (r := a mod b) in *; clearbody q r.

Definition lenN {A} (l : list A) : N := N.of_nat (length l).

Lemma lenN_app {A} (l k : list A) : lenN (l ++ k) = lenN l + lenN k.
Proof. unfold lenN. rewrite length_app. lia. Qed.

Lemma lenN_nil {A} : lenN (@nil A) = 0.
Proof. reflexivity. Qed.

(** ** Bytes *)

Notation bytes := (list byte).

#[export] Instance byte_eq_dec : EqDecision byte := Byte.byte_eq_dec.

#[export] Program Instance byte_countable : Countable byte :=
  {| encode b := encode (Byte.to_N b); decode p := decode p ≫= Byte.of_N |}.
Next Obligation. intros b. simpl. by rewrite decode_encode, <- Byte.of_to_N. Qed.

Definition byte_of (n : N) : byte := default x00 (Byte.of_N n).

Lemma to_N_bound b : Byte.to_N b < 256.
Proof. pose proof (Byte.to_N_bounded b). lia. Qed.

Lemma to_N_inj a b : Byte.to_N a = Byte.to_N b -> a = b.
Proof.
  intros H. pose proof (Byte.of_to_N a) as Ha. rewrite H, Byte.of_to_N in Ha. congruence.
Qed.

Lemma to_N_byte_of n : n < 256 -> Byte.to_N (byte_of n) = n.
Proof.
  intros H. unfold byte_of. destruct (Byte.of_N n) as [b|] eqn:E; simpl.
  - by apply Byte.to_of_N.
  - apply Byte.of_N_None_iff in E. lia.
Qed.

Lemma byte_of_to_N b : byte_of (Byte.to_N b) = b.
Proof. unfold byte_of. by rewrite Byte.of_to_N. Qed.

(** Integers as little- and big-endian byte strings of [n] bytes. *)
Fixpoint N_of_le (l : bytes) : N :=
  match l with [] => 0 | b :: t => Byte.to_N b + 256 * N_of_le t end.
Definition N_of_be (l : bytes) : N := N_of_le (rev l).
Fixpoint le_bytes (n : nat) (v : N) : bytes :=
  match n with O => [] | S n' => byte_of (v mod 256) :: le_bytes n' (v / 256) end.
Definition be_bytes (n : nat) (v : N) : bytes := rev (le_bytes n v).

Lemma length_le_bytes n v : length (le_bytes n v) = n.
Proof. revert v. induction n; simpl; auto. Qed.

Lemma length_be_bytes n v : length (be_bytes n v) = n.
Proof. unfold be_bytes. by rewrite length_rev, length_le_bytes. Qed.

Lemma N_of_le_bytes n v : v < 256 ^ N.of_nat n -> N_of_le (le_bytes n v) = v.
Proof.
  revert v. induction n as [|n IH]; intros v; simpl.
  - rewrite N.pow_0_r. lia.
  - rewrite Nat2N.inj_succ, N.pow_succ_r'. intros H.
    rewrite to_N_byte_of by (apply N.mod_lt; lia).
    rewrite IH by (apply N.Div0.div_lt_upper_bound; lia).
    pose proof (N.div_mod v 256). lia.
Qed.

Lemma le_bytes_of_le l : le_bytes (length l) (N_of_le l) = l.
Proof.
  induction l as [|b l IH]; simpl; [done|].
  pose proof (to_N_bound b) as Hb.
  assert (Hm : (Byte.to_N b + 256 * N_of_le l) mod 256 = Byte.to_N b).
  { rewrite (N.mul_comm 256), N.Div0.mod_add. by apply N.mod_small. }
  assert (Hd : (Byte.to_N b + 256 * N_of_le l) / 256 = N_of_le l).
  { rewrite (N.mul_comm 256), N.div_add by lia. rewrite N.div_small; lia. }
  by rewrite Hm, Hd, IH, byte_of_to_N.
Qed.

Lemma N_of_le_bound l : N_of_le l < 256 ^ lenN l.
Proof.
  unfold lenN. induction l as [|b l IH]; simpl; [done|].
  change (Npos (Pos.of_succ_nat (length l))) with (N.of_nat (S (length l))).
  rewrite Nat2N.inj_succ, N.pow_succ_r'. pose proof (to_N_bound b). lia.
Qed.

Lemma N_of_be_bytes n v : v < 256 ^ N.of_nat n -> N_of_be (be_bytes n v) = v.
Proof. intros H. unfold N_of_be, be_bytes. rewrite rev_involutive. by apply N_of_le_bytes. Qed.

Lemma be_bytes_of_be l : be_bytes (length l) (N_of_be l) = l.
Proof.
  unfold N_of_be, be_bytes. rewrite <- (length_rev l), le_bytes_of_le. apply rev_involutive.
Qed.

(** [l[a..b]]; the source guards every use by a length check. *)
Definition slice {A} (a b : nat) (l : list A) : list A := take (b - a) (drop a l).

Lemma slice_app_after {A} (a b : nat) (l k : list A) :
  (length l <= a)%nat -> slice a b (l ++ k) = slice (a - length l) (b - length l) k.
Proof. intros H. unfold slice. rewrite drop_app_ge by done. f_equal. lia. Qed.

Lemma slice_app_here {A} (l k : list A) n : length l = n -> slice 0 n (l ++ k) = l.
Proof. intros <-. unfold slice. by rewrite drop_0, Nat.sub_0_r, take_app_length. Qed.

Lemma slice_all {A} (l : list A) n : length l = n -> slice 0 n l = l.
Proof. intros <-. unfold slice. rewrite drop_0, Nat.sub_0_r. by apply take_ge. Qed.

Lemma slice_length {A} (a b : nat) (l : list A) : (a <= b <= length l)%nat -> length (slice a b l) = (b - a)%nat.
Proof. intros H. unfold slice. rewrite length_take, length_drop. lia. Qed.

(** [l.as_chunks::<n>().0]: the complete [n]-element chunks of [l]. *)
Fixpoint chunks {A} (k n : nat) (l : list A) : list (list A) :=
  match k with O => [] | S k' => take n l :: chunks k' n (drop n l) end.
Definition as_chunks {A} (n : nat) (l : list A) : list (list A) := chunks (length l / n) n l.

Lemma length_chunks {A} k n (l : list A) : length (chunks k n l) = k.
Proof. revert l. induction k; simpl; auto. Qed.

Lemma length_concat_const {A} n (ls : list (list A)) :
  Forall (fun l => length l = n) ls -> length (concat ls) = (length ls * n)%nat.
Proof. induction 1 as [|l ls Hl Hls IH]; simpl; [done|]. rewrite length_app, Hl, IH. lia. Qed.

Lemma chunks_concat {A} n (ls : list (list A)) :
  Forall (fun l => length l = n) ls -> chunks (length ls) n (concat ls) = ls.
Proof.
  induction 1 as [|l ls Hl Hls IH]; simpl; [done|].
  by rewrite take_app_length', drop_app_length', IH.
Qed.

Lemma as_chunks_concat {A} n (ls : list (list A)) :
  n ≠ O -> Forall (fun l => length l = n) ls -> as_chunks n (concat ls) = ls.
Proof.
  intros Hn H. unfold as_chunks. rewrite (length_concat_const n ls H), Nat.div_mul by done.
  by apply chunks_concat.
Qed.

Lemma concat_chunks {A} k n (l : list A) :
  length l = (k * n)%nat -> concat (chunks k n l) = l.
Proof.
  revert l. induction k as [|k IH]; intros l Hl; simpl in *.
  - by apply nil_length_inv in Hl.
  - rewrite IH; [by rewrite take_drop|]. rewrite length_drop. lia.
Qed.

Lemma chunks_sizes {A} k n (l : list A) :
  length l = (k * n)%nat -> Forall (fun c => length c = n) (chunks k n l).
Proof.
  revert l. induction k as [|k IH]; intros l Hl; simpl in *; constructor.
  - rewrite length_take. lia.
  - apply IH. rewrite length_drop. lia.
Qed.

Lemma concat_as_chunks {A} k n (l : list A) :
  n ≠ O -> length l = (k * n)%nat -> concat (as_chunks n l) = l.
Proof.
  intros Hn Hl. unfold as_chunks. rewrite Hl, Nat.div_mul by done. by apply concat_chunks.
Qed.

Lemma as_chunks_sizes {A} k n (l : list A) :
  n ≠ O -> length l = (k * n)%nat ->
  length (as_chunks n l) = k /\ Forall (fun c => length c = n) (as_chunks n l).
Proof.
  intros Hn Hl. unfold as_chunks. rewrite Hl, Nat.div_mul by done.
  split; [apply length_chunks|by apply chunks_sizes].
Qed.

(** Rust's [Ord] for byte arrays: lexicographic. *)
Fixpoint bytes_leb (a b : bytes) : bool :=
  match a, b with
  | [], _ => true
  | _ :: _, [] => false
  | x :: a', y :: b' =>
      if Byte.to_N x <? Byte.to_N y then true
      else if Byte.to_N y <? Byte.to_N x then false
      else bytes_leb a' b'
  end.

Definition bytes_le (a b : bytes) : Prop := bytes_leb a b = true.

#[export] Instance bytes_le_dec : RelDecision bytes_le.
Proof. intros a b. unfold bytes_le. apply _. Defined.

#[export] Instance bytes_le_refl : Reflexive bytes_le.
Proof.
  intros a. unfold bytes_le. induction a as [|x a IH]; simpl; [done|].
  by rewrite N.ltb_irrefl.
Qed.

#[export] Instance bytes_le_total : Total bytes_le.
Proof.
  intros a. unfold bytes_le. induction a as [|x a IH]; intros [|y b]; simpl; auto.
  destruct (N.ltb_spec (Byte.to_N x) (Byte.to_N y)); auto.
  destruct (N.ltb_spec (Byte.to_N y) (Byte.to_N x)); auto.
Qed.

#[export] Instance bytes_le_trans : Transitive bytes_le.
Proof.
  intros a b c. unfold bytes_le. revert b c.
  induction a as [|x a IH]; intros [|y b] [|z c]; simpl; try done.
  intros H1 H2.
  destruct (N.ltb_spec (Byte.to_N x) (Byte.to_N y)),
           (N.ltb_spec (Byte.to_N y) (Byte.to_N z)),
           (N.ltb_spec (Byte.to_N x) (Byte.to_N z)); try done; try lia;
    repeat match goal with
    | H : context [if ?c then _ else _] |- _ => destruct c eqn:?
    | |- context [if ?c then _ else _] => destruct c eqn:?
    end; rewrite ?N.ltb_lt, ?N.ltb_ge in *; try done; try lia; eauto.
Qed.

#[export] Instance bytes_le_antisymm : AntiSymm (=) bytes_le.
Proof.
  intros a. unfold bytes_le. induction a as [|x a IH]; intros [|y b]; simpl; try done.
  destruct (N.ltb_spec (Byte.to_N x) (Byte.to_N y)),
           (N.ltb_spec (Byte.to_N y) (Byte.to_N x)); try done; try lia.
  intros Ha Hb. f_equal; [|by apply IH]. apply to_N_inj. lia.
Qed.

(** ** Sorting

    [sort_unstable] on byte strings: equal elements are indistinguishable, so
    any sorting algorithm returns the same list. *)

Definition sort_bytes (l : list bytes) : list bytes := merge_sort bytes_le l.

Lemma sort_bytes_perm l : sort_bytes l ≡ₚ l.
Proof. apply merge_sort_Permutation. Qed.

Lemma sort_bytes_sorted l : StronglySorted bytes_le (sort_bytes l).
Proof. apply StronglySorted_merge_sort; apply _. Qed.

Lemma sort_bytes_elem x l : x ∈ sort_bytes l <-> x ∈ l.
Proof. by rewrite sort_bytes_perm. Qed.

Lemma length_sort_bytes l : length (sort_bytes l) = length l.
Proof. by rewrite sort_bytes_perm. Qed.

Lemma sort_bytes_NoDup l : NoDup (sort_bytes l) <-> NoDup l.
Proof. by rewrite sort_bytes_perm. Qed.

Lemma sort_bytes_id l : StronglySorted bytes_le l -> sort_bytes l = l.
Proof.
  intros H. apply (StronglySorted_unique bytes_le); auto using sort_bytes_sorted, sort_bytes_perm.
Qed.

(** [l.windows(2).find(|pair| pair[0] == pair[1])]: the first adjacent repeat. *)
Fixpoint adjacent_repeat {A} `{EqDecision A} (l : list A) : option A :=
  match l with
  | x :: ((y :: _) as t) => if decide (x = y) then Some x else adjacent_repeat t
  | _ => None
  end.

Lemma adjacent_repeat_Some {A} `{EqDecision A} (l : list A) x :
  adjacent_repeat l = Some x -> ¬ NoDup l /\ x ∈ l.
Proof.
  induction l as [|a [|b l] IH]; simpl; try done.
  case_decide as Hab.
  - intros [= <-]. subst. split; [|set_solver].
    rewrite NoDup_cons. set_solver.
  - intros H. destruct (IH H) as [Hn Hx]. split; [|set_solver].
    rewrite NoDup_cons. tauto.
Qed.

Lemma adjacent_repeat_None {A} `{EqDecision A} (R : relation A) (l : list A) :
  AntiSymm (=) R -> StronglySorted R l -> adjacent_repeat l = None -> NoDup l.
Proof.
  intros HA. induction l as [|a [|b l] IH]; intros Hs Hn.
  - constructor.
  - repeat constructor. set_solver.
  - simpl in Hn. case_decide as Hab; [done|].
    apply StronglySorted_inv in Hs as [Hs Hf].
    specialize (IH Hs Hn). constructor; [|done].
    intros [Hc|Hin]%elem_of_cons; [congruence|].
    apply StronglySorted_inv in Hs as [_ Hb].
    rewrite Forall_cons in Hf. destruct Hf as [Rab Hf].
    rewrite Forall_forall in Hb. specialize (Hb a Hin).
    by apply Hab, (HA a b).
Qed.

Lemma adjacent_repeat_sort_None (l : list bytes) :
  adjacent_repeat (sort_bytes l) = None <-> NoDup l.
Proof.
  rewrite <- sort_bytes_NoDup. split.
  - apply (adjacent_repeat_None bytes_le); [apply _|apply sort_bytes_sorted].
  - intros Hn. destruct (adjacent_repeat _) eqn:E; [|done]. by apply adjacent_repeat_Some in E as [? _].
Qed.

(** ** Quorums

    [N - floor((N-1)/3)] always exceeds two thirds, so two quorums of one
    committee overlap in more members than may be faulty. *)

Lemma NoDup_incl_overlap {A} `{EqDecision A} (vs l k : list A) :
  NoDup l -> NoDup k -> l ⊆ vs -> k ⊆ vs -> NoDup vs ->
  (length l + length k <= length vs + length (filter (.∈ k) l))%nat.
Proof.
  intros Hl Hk Hlv Hkv Hv.
  assert (Hsub : filter (.∉ k) l ++ k ⊆+ vs).
  { apply NoDup_submseteq.
    - apply NoDup_app; split_and!; [by apply NoDup_filter| |done].
      intros x [Hx _]%list_elem_of_filter. done.
    - intros x [[_ Hx]%list_elem_of_filter|Hx]%elem_of_app; auto. }
  apply submseteq_length in Hsub. rewrite length_app in Hsub.
  assert (Hp : (length (filter (.∈ k) l) + length (filter (.∉ k) l))%nat = length l).
  { clear. induction l as [|x l IH]; simpl; [done|].
    rewrite !filter_cons. repeat case_decide; simpl; try lia; done. }
  lia.
Qed.

(** ** Finite maps *)

(** The sum of [f] over the values of a map. *)
Definition map_sum {K} `{Countable K} {A} (f : A -> N) (m : gmap K A) : N :=
  map_fold (fun _ a acc => f a + acc) 0 m.

Lemma map_sum_empty {K} `{Countable K} {A} (f : A -> N) : map_sum f (∅ : gmap K A) = 0.
Proof. apply map_fold_empty. Qed.

Lemma map_sum_insert {K} `{Countable K} {A} (f : A -> N) (m : gmap K A) k a :
  m !! k = None -> map_sum f (<[k := a]> m) = f a + map_sum f m.
Proof.
  intros Hk. unfold map_sum. rewrite map_fold_insert_L; [done| |done]. intros. lia.
Qed.

Lemma map_sum_delete {K} `{Countable K} {A} (f : A -> N) (m : gmap K A) k a :
  m !! k = Some a -> map_sum f m = f a + map_sum f (delete k m).
Proof.
  intros Hk. rewrite <- (insert_delete_id m k a) at 1 by done.
  apply map_sum_insert. apply lookup_delete_eq.
Qed.

(** ** Filters *)

Lemma filter_all {A} (P : A -> Prop) `{forall x, Decision (P x)} (l : list A) :
  Forall P l -> filter P l = l.
Proof. induction 1 as [|x l Hx Hl IH]; [done|]. rewrite filter_cons_True by done. by rewrite IH. Qed.

Lemma filter_ext_in {A} (P Q : A -> Prop) `{forall x, Decision (P x), forall x, Decision (Q x)}
    (l : list A) :
  (forall x, x ∈ l -> P x <-> Q x) -> filter P l = filter Q l.
Proof.
  induction l as [|x l IH]; intros Hpq; [done|]. rewrite !filter_cons.
  rewrite IH by (intros y Hy; apply Hpq; by right).
  specialize (Hpq x ltac:(by left)). repeat case_decide; tauto || done.
Qed.

Lemma filter_none {A} (P : A -> Prop) `{forall x, Decision (P x)} (l : list A) :
  Forall (fun x => ~ P x) l -> filter P l = [].
Proof. induction 1 as [|x l Hx Hl IH]; [done|]. by rewrite filter_cons_False. Qed.

(** ** Automation *)

Create HintDb neox.
#[export] Hint Resolve sort_bytes_sorted sort_bytes_perm length_sort_bytes : neox.
#[export] Hint Resolve to_N_bound : neox.
