(* ===== verification/Extern.v ===== *)
(** The code the Neo X crates call and do not contain: the Ethereum header
    (alloy-consensus), Keccak and secp256k1 recovery (alloy-primitives), the
    BLS12-381 operations (blst) and the RLP codec (alloy-rlp, with its derive
    macros).  Each is a class of operations; the behaviour the Neo X code relies
    on is stated as a separate class of laws. *)

From S2P Require Import Prelude.

(** ** Fixed-width byte strings

    [B256], [Address] and the signature arrays are byte strings; their widths
    are well-formedness conditions. *)

Notation B256 := bytes (only parsing).
Notation Address := bytes (only parsing).

Definition B256_LEN : nat := 32.
Definition ADDRESS_LEN : nat := 20.
Definition ZERO_ADDRESS : Address := repeat x00 ADDRESS_LEN.
Definition ZERO_B256 : B256 := repeat x00 B256_LEN.

(** ** [alloy_consensus::Header] *)

Record Header : Type := mkHeader {
  parent_hash : B256;
  ommers_hash : B256;
  beneficiary : Address;
  state_root : B256;
  transactions_root : B256;
  receipts_root : B256;
  logs_bloom : bytes;
  difficulty : N;
  number : N;
  gas_limit : N;
  gas_used : N;
  timestamp : N;
  extra_data : bytes;
  mix_hash : B256;
  nonce : bytes;
  base_fee_per_gas : option N;
  withdrawals_root : option B256;
  blob_gas_used : option N;
  excess_blob_gas : option N;
  parent_beacon_block_root : option B256;
  requests_hash : option B256;
  block_access_list_hash : option B256;
  slot_number : option N;
}.

#[export] Instance header_eq_dec : EqDecision Header.
Proof. solve_decision. Defined.

(** The field widths of the Rust type. *)
Definition header_ok (h : Header) : Prop :=
  Forall (fun b => length b = 32%nat)
    [parent_hash h; ommers_hash h; state_root h; transactions_root h; receipts_root h; mix_hash h] /\
  length (beneficiary h) = ADDRESS_LEN /\ length (logs_bloom h) = 256%nat /\
  length (nonce h) = 8%nat /\ difficulty h < 2 ^ 256 /\
  Forall (fun n => n <= U64_MAX) [number h; gas_limit h; gas_used h; timestamp h] /\
  Forall (fun o => forall n, o = Some n -> n <= U64_MAX)
    [base_fee_per_gas h; blob_gas_used h; excess_blob_gas h; slot_number h] /\
  Forall (fun o => forall b, o = Some b -> length b = 32%nat)
    [withdrawals_root h; parent_beacon_block_root h; requests_hash h; block_access_list_hash h].

(** [header.extra_data = x] *)
Definition with_extra_data (h : Header) (x : bytes) : Header :=
  {| parent_hash := parent_hash h; ommers_hash := ommers_hash h;
     beneficiary := beneficiary h; state_root := state_root h;
     transactions_root := transactions_root h; receipts_root := receipts_root h;
     logs_bloom := logs_bloom h; difficulty := difficulty h; number := number h;
     gas_limit := gas_limit h; gas_used := gas_used h; timestamp := timestamp h;
     extra_data := x; mix_hash := mix_hash h; nonce := nonce h;
     base_fee_per_gas := base_fee_per_gas h; withdrawals_root := withdrawals_root h;
     blob_gas_used := blob_gas_used h; excess_blob_gas := excess_blob_gas h;
     parent_beacon_block_root := parent_beacon_block_root h;
     requests_hash := requests_hash h;
     block_access_list_hash := block_access_list_hash h; slot_number := slot_number h |}.

(** ** RLP *)

Inductive rlp_error : Type :=
| Overflow
| LeadingZero
| InputTooShort
| NonCanonicalSingleByte
| NonCanonicalSize
| UnexpectedLength
| UnexpectedString
| UnexpectedList
| ListLengthMismatch (expected got : N)
| Custom (message : string).

#[export] Instance rlp_error_eq_dec : EqDecision rlp_error.
Proof. solve_decision. Defined.

(** An [Encodable + Decodable] type: decoding consumes a prefix of the buffer
    and returns the rest. *)
Record codec (A : Type) : Type := mkCodec {
  enc : A -> bytes;
  dec : bytes -> result rlp_error (A * bytes);
}.
Arguments mkCodec {A} enc dec.
Arguments enc {A} c a.
Arguments dec {A} c b.

(** Fields one after the other, and a record in place of the tuple of its
    fields: how the derive macros lay out a struct. *)
Definition codec_pair {A B} (a : codec A) (b : codec B) : codec (A * B) :=
  mkCodec
    (fun p => enc a p.1 ++ enc b p.2)
    (fun buf =>
       let? (x, buf) := dec a buf in
       let? (y, buf) := dec b buf in
       Ok ((x, y), buf)).

Definition codec_iso {A B} (f : A -> B) (g : B -> A) (c : codec A) : codec B :=
  mkCodec (fun b => enc c (g b)) (fun buf => let? (a, buf) := dec c buf in Ok (f a, buf)).

Class AlloyRlp : Type := {
  (** [Header { list, payload_length }.encode(out)] *)
  rlp_header_encode : bool -> N -> bytes;
  (** [Header::decode(buf)]: [list], [payload_length] and the advanced buffer *)
  rlp_header_decode : bytes -> result rlp_error (bool * N * bytes);
  (** [Header::decode_bytes(buf, list)]: the payload and the advanced buffer *)
  rlp_decode_bytes : bool -> bytes -> result rlp_error (bytes * bytes);
  rlp_u8 : codec N;
  rlp_u64 : codec N;
  rlp_b256 : codec B256;
  rlp_address : codec Address;
  rlp_bytes : codec bytes;
  (** [Vec<T>] *)
  rlp_vec : forall {A}, codec A -> codec (list A);
  (** [#[derive(RlpEncodable, RlpDecodable)]] on a struct with these fields *)
  rlp_derive : forall {A}, codec A -> codec A;
  (** [alloy_consensus::Header] *)
  rlp_header : codec Header;
}.

(** [c] reads back what it wrote, whatever follows, for the values in [P] whose
    encoding fits in memory. *)
Definition codec_ok {A} (c : codec A) (P : A -> Prop) : Prop :=
  forall a rest, P a -> lenN (enc c a) <= USIZE_MAX -> dec c (enc c a ++ rest) = Ok (a, rest).

Class AlloyRlpLaws (R : AlloyRlp) : Prop := {
  rlp_decode_bytes_encode p rest :
    lenN p <= USIZE_MAX ->
    rlp_decode_bytes true (rlp_header_encode true (lenN p) ++ p ++ rest) = Ok (p, rest);
  (** a declared payload never exceeds what is left, and decoding advances *)
  rlp_header_decode_bound buf list n rest :
    rlp_header_decode buf = Ok (list, n, rest) ->
    n <= lenN rest /\ exists skipped, buf = skipped ++ rest;
  rlp_header_decode_nil : rlp_header_decode [] = Err InputTooShort;
  rlp_header_decode_list p rest :
    lenN p <= USIZE_MAX ->
    rlp_header_decode (rlp_header_encode true (lenN p) ++ p ++ rest) = Ok (true, lenN p, p ++ rest);
  rlp_u8_ok : codec_ok rlp_u8 (fun n => n <= U8_MAX);
  rlp_u8_bound buf n rest : dec rlp_u8 buf = Ok (n, rest) -> n <= U8_MAX;
  rlp_u64_ok : codec_ok rlp_u64 (fun n => n <= U64_MAX);
  rlp_u64_bound buf n rest : dec rlp_u64 buf = Ok (n, rest) -> n <= U64_MAX;
  rlp_b256_ok : codec_ok rlp_b256 (fun h => length h = B256_LEN);
  rlp_b256_len buf h rest : dec rlp_b256 buf = Ok (h, rest) -> length h = B256_LEN;
  rlp_address_ok : codec_ok rlp_address (fun a => length a = ADDRESS_LEN);
  rlp_bytes_ok : codec_ok rlp_bytes (fun _ => True);
  rlp_vec_enc {A} (c : codec A) l :
    enc (rlp_vec c) l =
    rlp_header_encode true (lenN (concat (map (enc c) l))) ++ concat (map (enc c) l);
  rlp_vec_ok {A} (c : codec A) P :
    (forall a, P a -> enc c a <> []) -> codec_ok c P -> codec_ok (rlp_vec c) (Forall P);
  rlp_derive_enc {A} (c : codec A) a :
    enc (rlp_derive c) a = rlp_header_encode true (lenN (enc c a)) ++ enc c a;
  rlp_derive_ok {A} (c : codec A) P : codec_ok c P -> codec_ok (rlp_derive c) P;
  (** a derived decoder reads its fields with their own decoders *)
  rlp_derive_dec {A} (c : codec A) buf a rest :
    dec (rlp_derive c) buf = Ok (a, rest) -> exists p rest', dec c p = Ok (a, rest');
  rlp_header_ok : codec_ok rlp_header header_ok;
  (** the empty string and the empty list are the single bytes 0x80 and 0xc0,
      and nothing else starts with them *)
  rlp_bytes_nonempty b : enc rlp_bytes b <> [];
  rlp_bytes_empty : enc rlp_bytes [] = [x80];
  rlp_list_empty : rlp_header_encode true 0 = [xc0];
  rlp_b256_head h : length h = B256_LEN -> exists b t, enc rlp_b256 h = b :: t /\ b ≠ x80 /\ b ≠ xc0;
  rlp_list_head n : n ≠ 0 ->
    exists b t, rlp_header_encode true n = b :: t /\ b ≠ x80 /\ b ≠ xc0;
}.

Lemma codec_pair_ok {A B} (a : codec A) (b : codec B) P Q :
  codec_ok a P -> codec_ok b Q -> codec_ok (codec_pair a b) (fun p => P p.1 /\ Q p.2).
Proof.
  intros Ha Hb [x y] rest [Hx Hy] Hlen. simpl in *. rewrite lenN_app in Hlen.
  rewrite <- app_assoc, Ha by (done || lia). simpl. rewrite Hb by (done || lia). done.
Qed.

Lemma codec_iso_ok {A B} (f : A -> B) (g : B -> A) (c : codec A) P :
  (forall b, f (g b) = b) -> codec_ok c P -> codec_ok (codec_iso f g c) (fun b => P (g b)).
Proof. intros Hfg Hc b rest Hb Hlen. simpl in *. rewrite Hc by done. simpl. by rewrite Hfg. Qed.

Lemma codec_pair_dec {A B} (a : codec A) (b : codec B) buf x y rest :
  dec (codec_pair a b) buf = Ok ((x, y), rest) ->
  exists mid, dec a buf = Ok (x, mid) /\ dec b mid = Ok (y, rest).
Proof.
  simpl. intros Hd. apply result_bind_Ok in Hd as ([x' mid] & Ha & Hd).
  apply result_bind_Ok in Hd as ([y' rest'] & Hb & Hd). simplify_eq. eauto.
Qed.

Lemma codec_iso_dec {A B} (f : A -> B) (g : B -> A) (c : codec A) buf b rest :
  dec (codec_iso f g c) buf = Ok (b, rest) -> exists a, b = f a /\ dec c buf = Ok (a, rest).
Proof. simpl. intros Hd. apply result_bind_Ok in Hd as ([a r] & Ha & Hd). simplify_eq. eauto. Qed.

Lemma codec_ok_weaken {A} (c : codec A) (P Q : A -> Prop) :
  (forall a, Q a -> P a) -> codec_ok c P -> codec_ok c Q.
Proof. intros HPQ Hc a rest Ha. apply Hc, HPQ, Ha. Qed.

#[export] Hint Resolve rlp_u8_ok rlp_u64_ok rlp_b256_ok rlp_address_ok rlp_bytes_ok : neox.

(** ** Keccak-256 and secp256k1 recovery *)

Class Crypto : Type := {
  keccak256 : bytes -> B256;
  (** [Signature::from_bytes_and_parity(raw, parity).recover_address_from_prehash(hash)] *)
  recover_address_from_prehash : bytes -> bool -> B256 -> option Address;
}.

Class CryptoLaws (C : Crypto) : Prop := {
  keccak256_len b : length (keccak256 b) = B256_LEN;
}.

(** [Header::hash_slow]: Keccak of the header's RLP. *)
Definition hash_slow `{AlloyRlp, Crypto} (h : Header) : B256 := keccak256 (enc rlp_header h).

(** ** secp256k1 signing ([k256]) *)

Class Secp256k1 : Type := {
  signing_key : Type;
  (** [Address::from_public_key(key.verifying_key())] *)
  key_account : signing_key -> Address;
  (** [SigningKey::sign_prehash_recoverable]: the 64 signature bytes and the recovery byte. *)
  sign_prehash_recoverable : signing_key -> bytes -> option (bytes * N);
}.

(** A signature recovers to the key that made it; the recovery byte is the parity of a
    point whose coordinate was not reduced. *)
Class Secp256k1Laws (C : Crypto) (K : Secp256k1) : Prop := {
  key_account_len k : length (key_account k) = ADDRESS_LEN;
  sign_recovers k hash signature id :
    sign_prehash_recoverable k hash = Some (signature, id) ->
    length signature = 64%nat /\ id <= 1 /\
    recover_address_from_prehash (signature ++ [byte_of id]) (id =? 1) hash = Some (key_account k);
}.

(** ** BLS12-381 ([blst]) *)

Class Blst : Type := {
  bls_public_key : Type;
  bls_signature : Type;
  (** [min_pk::PublicKey::key_validate], [min_pk::Signature::sig_validate(_, true)] *)
  bls_key_validate : bytes -> option bls_public_key;
  bls_sig_validate : bytes -> option bls_signature;
  (** [signature.verify(true, message, dst, &[], public_key, true) == BLST_SUCCESS] *)
  bls_verify : bls_signature -> bytes -> bytes -> bls_public_key -> bool;
  pk_to_bytes : bls_public_key -> bytes;
  sig_to_bytes : bls_signature -> bytes;
  (** [min_pk::SecretKey] *)
  secret_key : Type;
  sk_from_bytes : bytes -> option secret_key;
  sk_sign : secret_key -> bytes -> bytes -> bls_signature;
  sk_to_pk : secret_key -> bls_public_key;
  (** scalars: [blst_fr_*] and [blst_scalar] *)
  fr : Type;
  fr_from_u64 : N -> fr;
  fr_add : fr -> fr -> fr;
  fr_mul : fr -> fr -> fr;
  fr_sub : fr -> fr -> fr;
  fr_cneg : fr -> fr;
  fr_inverse : fr -> fr;
  scalar : Type;
  scalar_from_fr : fr -> scalar;
  fr_from_scalar : scalar -> fr;
  scalar_from_bendian : bytes -> scalar;
  bendian_from_scalar : scalar -> bytes;
  sk_check : scalar -> bool;
  (** G1 *)
  p1_affine : Type;
  p1 : Type;
  p1_uncompress : bytes -> option p1_affine;
  p1_deserialize : bytes -> option p1_affine;
  p1_serialize : p1 -> bytes;
  p1_affine_in_g1 : p1_affine -> bool;
  p1_affine_is_inf : p1_affine -> bool;
  p1_affine_is_equal : p1_affine -> p1_affine -> bool;
  p1_from_affine : p1_affine -> p1;
  p1_to_affine : p1 -> p1_affine;
  p1_affine_compress : p1_affine -> bytes;
  p1_add_or_double : p1 -> p1 -> p1;
  p1_cneg : p1 -> p1;
  p1_mult : p1 -> scalar -> p1;
  p1_affine_generator : p1_affine;
  p1_generator : p1;
  (** G2 *)
  p2_affine : Type;
  p2 : Type;
  p2_uncompress : bytes -> option p2_affine;
  p2_deserialize : bytes -> option p2_affine;
  p2_serialize : p2 -> bytes;
  p2_affine_in_g2 : p2_affine -> bool;
  p2_affine_is_inf : p2_affine -> bool;
  p2_from_affine : p2_affine -> p2;
  p2_to_affine : p2 -> p2_affine;
  p2_affine_compress : p2_affine -> bytes;
  p2_add_or_double : p2 -> p2 -> p2;
  p2_cneg : p2 -> p2;
  p2_mult : p2 -> scalar -> p2;
  p2_affine_generator : p2_affine;
  p2_generator : p2;
  (** [blst_fp12::miller_loop_n(ps, qs).final_exp() == blst_fp12::default()] *)
  pairing_is_one : list p2_affine -> list p1_affine -> bool;
}.

(** ** SHA-256 and the AES-256 block cipher ([sha2], [aes]) *)

Class Symmetric : Type := {
  sha256 : bytes -> bytes;
  aes256 : Type;
  aes256_new_from_slice : bytes -> option aes256;
  aes256_decrypt_block : aes256 -> bytes -> bytes;
}.
