(* ===== verification/Instances.v ===== *)
(** Concrete instances of the external interfaces, on which witnesses run: the
    RLP format itself (short and long forms), and simple stand-ins for the
    cryptography that are enough to build headers and messages that verify. *)

From S2P Require Import Prelude Extern.

(** ** RLP *)

Module Rlp.

(** Big-endian without leading zeros. *)
Fixpoint strip (l : bytes) : bytes :=
  match l with x00 :: t => strip t | _ => l end.
Definition trim_be (width : nat) (n : N) : bytes := strip (be_bytes width n).

Definition header_encode (list : bool) (n : N) : bytes :=
  let base := if list then 192 else 128 in
  if n <? 56 then [byte_of (base + n)]
  else byte_of (base + 55 + lenN (trim_be 8 n)) :: trim_be 8 n.

Definition take_payload (list : bool) (n : N) (rest : bytes) : result rlp_error (bool * N * bytes) :=
  if n <=? lenN rest then Ok (list, n, rest) else Err InputTooShort.

Definition long_form (list : bool) (k : N) (t : bytes) : result rlp_error (bool * N * bytes) :=
  take_payload list (N_of_be (take (N.to_nat k) t)) (drop (N.to_nat k) t).

Definition header_decode (buf : bytes) : result rlp_error (bool * N * bytes) :=
  match buf with
  | [] => Err InputTooShort
  | b :: t =>
      let n := Byte.to_N b in
      if n <? 128 then Ok (false, 1, buf)
      else if n <? 184 then take_payload false (n - 128) t
      else if n <? 192 then long_form false (n - 183) t
      else if n <? 248 then take_payload true (n - 192) t
      else long_form true (n - 247) t
  end.

Definition decode_bytes (list : bool) (buf : bytes) : result rlp_error (bytes * bytes) :=
  let? (l, n, rest) := header_decode buf in
  if Bool.eqb l list then Ok (take (N.to_nat n) rest, drop (N.to_nat n) rest)
  else Err (if l then UnexpectedList else UnexpectedString).

Definition string_encode (b : bytes) : bytes :=
  match b with
  | [x] => if Byte.to_N x <? 128 then [x] else header_encode false 1 ++ [x]
  | _ => header_encode false (lenN b) ++ b
  end.

Definition string_codec {A} (f : A -> bytes) (g : bytes -> result rlp_error A) : codec A :=
  mkCodec (fun a => string_encode (f a))
    (fun buf => let? (p, rest) := decode_bytes false buf in let? a := g p in Ok (a, rest)).

Definition uint (max : N) : codec N :=
  string_codec (trim_be 8) (fun p => if N_of_be p <=? max then Ok (N_of_be p) else Err Overflow).
Definition fixed (len : nat) : codec bytes :=
  string_codec (fun b => b)
    (fun p => if bool_decide (length p = len) then Ok p else Err UnexpectedLength).
Definition byte_string : codec bytes := string_codec (fun b => b) Ok.

(** [fuel] is the payload length: every item takes at least one byte. *)
Fixpoint items {A} (c : codec A) (fuel : nat) (buf : bytes) : result rlp_error (list A) :=
  match buf, fuel with
  | [], _ => Ok []
  | _, O => Err InputTooShort
  | _, S fuel =>
      let? (a, buf) := dec c buf in let? rest := items c fuel buf in Ok (a :: rest)
  end.

Definition vec {A} (c : codec A) : codec (list A) :=
  mkCodec
    (fun l => let p := concat (map (enc c) l) in header_encode true (lenN p) ++ p)
    (fun buf => let? (p, rest) := decode_bytes true buf in
                let? l := items c (length p) p in Ok (l, rest)).

Definition struct {A} (c : codec A) : codec A :=
  mkCodec
    (fun a => header_encode true (lenN (enc c a)) ++ enc c a)
    (fun buf => let? (p, rest) := decode_bytes true buf in
                let? (a, extra) := dec c p in
                if bool_decide (extra = []) then Ok (a, rest) else Err UnexpectedLength).

Definition opt {A} (c : codec A) : codec (option A) :=
  mkCodec (fun o => enc (vec c) (match o with Some a => [a] | None => [] end))
    (fun buf => let? (l, rest) := dec (vec c) buf in Ok (head l, rest)).

(** A header as the list of its fields, absent optional fields as empty lists. *)
Definition u256 : codec N :=
  string_codec (trim_be 32) (fun p => Ok (N_of_be p)).
Definition header_fields : codec Header :=
  let d := uint U64_MAX in let h := byte_string in
  codec_iso
    (fun '(ph, (oh, (be, (sr, (tr, (rr, (lb, (di, (nu, (gl, (gu, (ti, (ex, (mi, (no, (bf, (wr, (bg,
          (eb, (pb, (rh, (bl, sn)))))))))))))))))))))) =>
       mkHeader ph oh be sr tr rr lb di nu gl gu ti ex mi no bf wr bg eb pb rh bl sn)
    (fun x => (parent_hash x, (ommers_hash x, (beneficiary x, (state_root x, (transactions_root x,
       (receipts_root x, (logs_bloom x, (difficulty x, (number x, (gas_limit x, (gas_used x,
       (timestamp x, (extra_data x, (mix_hash x, (nonce x, (base_fee_per_gas x,
       (withdrawals_root x, (blob_gas_used x, (excess_blob_gas x, (parent_beacon_block_root x,
       (requests_hash x, (block_access_list_hash x, slot_number x)))))))))))))))))))))))
    (codec_pair h (codec_pair h (codec_pair h (codec_pair h (codec_pair h (codec_pair h
    (codec_pair h (codec_pair u256 (codec_pair d (codec_pair d (codec_pair d (codec_pair d
    (codec_pair h (codec_pair h (codec_pair h (codec_pair (opt d) (codec_pair (opt h)
    (codec_pair (opt d) (codec_pair (opt d) (codec_pair (opt h) (codec_pair (opt h)
    (codec_pair (opt h) (opt d))))))))))))))))))))))).
Definition header : codec Header := struct header_fields.

End Rlp.

Definition alloy_rlp : AlloyRlp := {|
  rlp_header_encode := Rlp.header_encode;
  rlp_header_decode := Rlp.header_decode;
  rlp_decode_bytes := Rlp.decode_bytes;
  rlp_u8 := Rlp.uint U8_MAX;
  rlp_u64 := Rlp.uint U64_MAX;
  rlp_b256 := Rlp.fixed B256_LEN;
  rlp_address := Rlp.fixed ADDRESS_LEN;
  rlp_bytes := Rlp.byte_string;
  rlp_vec := @Rlp.vec;
  rlp_derive := @Rlp.struct;
  rlp_header := Rlp.header;
|}.

(** ** The laws hold of it *)

Module RlpLaws.
Import Rlp.

Lemma strip_spec l :
  N_of_be (strip l) = N_of_be l /\ (length (strip l) <= length l)%nat.
Proof.
  induction l as [|b l [IH1 IH2]]; [done|].
  assert (Hz : N_of_be (x00 :: l) = N_of_be l).
  { unfold N_of_be. simpl. generalize (rev l) as k. induction k as [|c k IHk]; simpl; [done|lia]. }
  destruct b; simpl; try done. rewrite Hz. split; [done|lia].
Qed.

Lemma trim_be_spec k n :
  n < 256 ^ N.of_nat k -> N_of_be (trim_be k n) = n /\ (length (trim_be k n) <= k)%nat.
Proof.
  intros Hn. unfold trim_be. destruct (strip_spec (be_bytes k n)) as [-> Hl].
  rewrite length_be_bytes in Hl. split; [by apply N_of_be_bytes|done].
Qed.

Lemma trim_be_nonempty k n : n < 256 ^ N.of_nat k -> n <> 0 -> trim_be k n <> [].
Proof.
  intros Hn Hz Hs. destruct (trim_be_spec k n Hn) as [Hv _]. rewrite Hs in Hv. by apply Hz.
Qed.

Lemma usize_256 n : n <= USIZE_MAX -> n < 256 ^ N.of_nat 8.
Proof. unfold USIZE_MAX, U64_MAX. change (256 ^ N.of_nat 8) with (2 ^ 64). lia. Qed.

Lemma header_encode_decode list (p rest : bytes) :
  lenN p <= USIZE_MAX ->
  header_decode (header_encode list (lenN p) ++ p ++ rest) = Ok (list, lenN p, p ++ rest).
Proof.
  intros Hp. unfold header_encode. destruct (N.ltb_spec (lenN p) 56) as [Hs|Hs].
  - cbn [app header_decode]. rewrite to_N_byte_of by (destruct list; lia).
    destruct list;
      repeat (match goal with |- context [?a <? ?b] =>
        destruct (N.ltb_spec a b); try lia end);
      unfold take_payload; rewrite lenN_app, (proj2 (N.leb_le _ _)) by lia; do 2 f_equal; f_equal; lia.
  - apply usize_256 in Hp. destruct (trim_be_spec 8 (lenN p) Hp) as [Hv Hl].
    pose proof (trim_be_nonempty 8 (lenN p) Hp ltac:(lia)) as Hne.
    assert (Hk : 1 <= lenN (trim_be 8 (lenN p)) <= 8).
    { unfold lenN at 1 3. destruct (trim_be 8 (lenN p)); [done|]. simpl in *. lia. }
    cbn [app header_decode]. rewrite to_N_byte_of by (destruct list; lia).
    assert (Hlf : forall k, k = lenN (trim_be 8 (lenN p)) ->
      long_form list k (trim_be 8 (lenN p) ++ p ++ rest) = Ok (list, lenN p, p ++ rest)).
    { intros k ->. unfold long_form, take_payload.
      rewrite take_app_length', drop_app_length', Hv, lenN_app by (unfold lenN at 1; lia).
      by rewrite (proj2 (N.leb_le _ _)) by lia. }
    destruct list;
      repeat (match goal with |- context [?a <? ?b] =>
        destruct (N.ltb_spec a b); try lia end); apply Hlf; lia.
Qed.

Lemma decode_bytes_encode list (p rest : bytes) :
  lenN p <= USIZE_MAX ->
  decode_bytes list (header_encode list (lenN p) ++ p ++ rest) = Ok (p, rest).
Proof.
  intros Hp. unfold decode_bytes. rewrite header_encode_decode by done. simpl.
  rewrite Bool.eqb_reflx, take_app_length', drop_app_length' by (unfold lenN; lia). done.
Qed.

Lemma take_payload_bound l n rest l' n' rest' :
  take_payload l n rest = Ok (l', n', rest') -> rest' = rest /\ n' <= lenN rest.
Proof. unfold take_payload. destruct (N.leb_spec n (lenN rest)); naive_solver. Qed.

Lemma header_decode_bound buf l n rest :
  header_decode buf = Ok (l, n, rest) -> n <= lenN rest /\ exists skipped, buf = skipped ++ rest.
Proof.
  destruct buf as [|b t]; [done|]. unfold header_decode, long_form. cbv zeta.
  repeat case_match; intros Hd;
    try (apply take_payload_bound in Hd as [-> ?]; split; [done|]).
  - injection Hd as <- <- <-. split; [unfold lenN; simpl; lia|by exists []].
  - by exists [b].
  - exists (b :: take (N.to_nat (Byte.to_N b - 183)) t). simpl. by rewrite take_drop.
  - by exists [b].
  - exists (b :: take (N.to_nat (Byte.to_N b - 247)) t). simpl. by rewrite take_drop.
Qed.

Lemma string_decode p rest :
  lenN p <= USIZE_MAX -> decode_bytes false (string_encode p ++ rest) = Ok (p, rest).
Proof.
  intros Hp. destruct p as [|x [|y p]]; unfold string_encode.
  - apply (decode_bytes_encode false []). done.
  - destruct (N.ltb_spec (Byte.to_N x) 128) as [Hx|Hx].
    + unfold decode_bytes, header_decode. simpl. rewrite (proj2 (N.ltb_lt _ _) Hx). simpl.
      by rewrite drop_0.
    + apply (decode_bytes_encode false [x]). done.
  - rewrite <- app_assoc. by apply decode_bytes_encode.
Qed.

Lemma lenN_string_encode p : lenN p <= lenN (string_encode p).
Proof.
  destruct p as [|x [|y p]]; unfold string_encode; try case_match; rewrite ?lenN_app; lia.
Qed.

Lemma string_codec_ok {A} (f : A -> bytes) g (P : A -> Prop) :
  (forall a, P a -> g (f a) = Ok a) -> codec_ok (string_codec f g) P.
Proof.
  intros Hg a rest Ha Hl. simpl in *. pose proof (lenN_string_encode (f a)).
  rewrite string_decode by lia. simpl. by rewrite Hg.
Qed.

Lemma uint_ok max : max <= U64_MAX -> codec_ok (uint max) (fun n => n <= max).
Proof.
  intros Hm. apply string_codec_ok. intros n Hn.
  destruct (trim_be_spec 8 n) as [-> _]; [apply usize_256; unfold USIZE_MAX; lia|].
  by rewrite (proj2 (N.leb_le _ _) Hn).
Qed.

Lemma uint_bound max buf n rest : dec (uint max) buf = Ok (n, rest) -> n <= max.
Proof.
  simpl. intros Hd. bind_inv. destruct x as [p r]. bind_inv.
  destruct (N.leb_spec (N_of_be p) max); naive_solver.
Qed.

Lemma u256_ok : codec_ok u256 (fun n => n < 2 ^ 256).
Proof.
  apply string_codec_ok. intros n Hn. destruct (trim_be_spec 32 n) as [-> _]; [|done]. exact Hn.
Qed.

Lemma fixed_ok len : codec_ok (fixed len) (fun b => length b = len).
Proof. apply string_codec_ok. intros b Hb. by rewrite bool_decide_eq_true_2. Qed.

Lemma fixed_len len buf h rest : dec (fixed len) buf = Ok (h, rest) -> length h = len.
Proof.
  simpl. intros Hd. bind_inv. destruct x as [p r]. bind_inv. case_bool_decide; naive_solver.
Qed.

Lemma byte_string_ok : codec_ok byte_string (fun _ => True).
Proof. by apply string_codec_ok. Qed.

Lemma items_ok {A} (c : codec A) P l fuel :
  (forall a, P a -> enc c a <> []) -> codec_ok c P -> Forall P l ->
  lenN (concat (map (enc c) l)) <= USIZE_MAX ->
  (length (concat (map (enc c) l)) <= fuel)%nat ->
  items c fuel (concat (map (enc c) l)) = Ok l.
Proof.
  intros Hne Hc Hl. revert fuel. induction Hl as [|a l Ha Hl IH]; intros fuel Hmax Hf.
  { by destruct fuel. }
  simpl in *. rewrite lenN_app in Hmax. rewrite length_app in Hf.
  specialize (Hne a Ha) as Hnea. specialize (Hc a (concat (map (enc c) l)) Ha).
  destruct (enc c a) as [|b t] eqn:E; [done|]. rewrite <- E in *.
  destruct fuel as [|fuel]; [rewrite E in Hf; simpl in Hf; lia|].
  destruct (enc c a ++ _) eqn:Eb; [rewrite E in Eb; done|]. cbn [items].
  rewrite Hc by lia. cbn [result_bind]. rewrite IH; [done|lia|]. rewrite E in Hf. simpl in Hf. lia.
Qed.

Lemma vec_ok {A} (c : codec A) P :
  (forall a, P a -> enc c a <> []) -> codec_ok c P -> codec_ok (vec c) (Forall P).
Proof.
  intros Hne Hc l rest Hl Hmax. cbn [vec enc dec] in *. rewrite lenN_app in Hmax.
  rewrite <- app_assoc, decode_bytes_encode by lia. cbn [result_bind].
  rewrite (items_ok _ P) by (done || lia). done.
Qed.

Lemma struct_ok {A} (c : codec A) P : codec_ok c P -> codec_ok (struct c) P.
Proof.
  intros Hc a rest Ha Hmax. cbn [struct enc dec] in *. rewrite lenN_app in Hmax.
  rewrite <- app_assoc, decode_bytes_encode by lia. cbn [result_bind].
  rewrite <- (app_nil_r (enc c a)) at 1. rewrite Hc by (done || lia). done.
Qed.

Lemma struct_dec {A} (c : codec A) buf a rest :
  dec (struct c) buf = Ok (a, rest) -> exists p rest', dec c p = Ok (a, rest').
Proof.
  simpl. intros Hd. bind_inv. destruct x as [p r]. bind_inv. destruct x as [a' left].
  case_bool_decide; [|done]. bind_inv. eauto.
Qed.

Lemma string_codec_nonempty {A} (f : A -> bytes) g a : enc (string_codec f g) a <> [].
Proof.
  simpl. destruct (f a) as [|x [|y p]]; unfold string_encode; try case_match; try done;
    unfold header_encode; case_match; done.
Qed.

Lemma opt_ok {A} (c : codec A) P :
  (forall a, P a -> enc c a <> []) -> codec_ok c P ->
  codec_ok (opt c) (fun o => forall a, o = Some a -> P a).
Proof.
  intros Hne Hc o rest Ho Hmax. cbn [opt enc dec] in *.
  rewrite (vec_ok c P Hne Hc _ rest); [by destruct o|destruct o; auto|done].
Qed.
End RlpLaws.

Module RlpInstance.
Import Rlp RlpLaws.
#[local] Existing Instance alloy_rlp.

Lemma opt_uint_ok : codec_ok (opt (uint U64_MAX)) (fun o => forall n, o = Some n -> n <= U64_MAX).
Proof.
  apply (opt_ok (uint U64_MAX) (fun n => n <= U64_MAX)); [|by apply uint_ok].
  intros n _. apply string_codec_nonempty.
Qed.

Lemma opt_bytes_ok : codec_ok (opt byte_string) (fun _ => True).
Proof.
  eapply codec_ok_weaken; [|apply (opt_ok byte_string (fun _ => True)), byte_string_ok]; [done|].
  intros b _. apply string_codec_nonempty.
Qed.

Lemma header_codec_ok : codec_ok header header_ok.
Proof.
  apply struct_ok. unfold header_fields. cbv zeta.
  eapply codec_ok_weaken; cycle 1.
  - apply codec_iso_ok; [by intros []|].
    repeat apply codec_pair_ok;
      first [apply byte_string_ok | apply u256_ok | by apply uint_ok
            | apply opt_uint_ok | apply opt_bytes_ok].
  - intros h (_ & _ & _ & _ & Hd & Hn & Ho & _). simpl.
    rewrite !Forall_cons in Hn. rewrite !Forall_cons in Ho. destruct_and!. split_and!; done.
Qed.

Lemma list_header_head n :
  n <> 0 -> exists b t, header_encode true n = b :: t /\ b <> x80 /\ b <> xc0.
Proof.
  intros Hn. unfold header_encode.
  assert (Hb : forall m, 192 < m < 256 -> byte_of m <> x80 /\ byte_of m <> xc0).
  { intros m Hm. split; intros E; apply (f_equal Byte.to_N) in E;
      rewrite to_N_byte_of in E by lia; simpl in E; lia. }
  destruct (N.ltb_spec n 56); eexists _, _; (split; [reflexivity|]).
  - apply Hb. lia.
  - apply Hb. unfold lenN, trim_be.
    destruct (strip_spec (be_bytes 8 n)) as [_ Hl]. rewrite length_be_bytes in Hl. lia.
Qed.

Lemma b256_head (h : bytes) :
  length h = B256_LEN -> exists b t, enc (fixed B256_LEN) h = b :: t /\ b <> x80 /\ b <> xc0.
Proof.
  intros Hh. simpl. destruct h as [|x [|y h]]; [done..|].
  unfold string_encode, lenN. rewrite Hh. by eexists _, _.
Qed.

Lemma alloy_rlp_laws : AlloyRlpLaws alloy_rlp.
Proof.
  constructor; simpl.
  - intros p rest. apply decode_bytes_encode.
  - apply header_decode_bound.
  - done.
  - intros p rest. apply header_encode_decode.
  - by apply uint_ok.
  - intros buf n rest. apply uint_bound.
  - by apply uint_ok.
  - intros buf n rest. apply uint_bound.
  - apply fixed_ok.
  - intros buf h rest. apply fixed_len.
  - apply fixed_ok.
  - apply byte_string_ok.
  - done.
  - intros A. apply vec_ok.
  - done.
  - intros A. apply struct_ok.
  - intros A. apply struct_dec.
  - apply header_codec_ok.
  - intros b. apply (string_codec_nonempty (fun b => b) Ok).
  - done.
  - done.
  - apply b256_head.
  - apply list_header_head.
Qed.
End RlpInstance.

(** ** Cryptography stand-ins

    A 32-byte polynomial digest; a signature carries the address of its signer
    in its first 20 bytes and is valid for every message. *)

Definition model_digest (b : bytes) : B256 :=
  be_bytes 32 (foldl (fun acc x => N.land (acc * 257 + Byte.to_N x + 1) (N.ones 40)) 0 b).

Definition model_crypto : Crypto := {|
  keccak256 := model_digest;
  recover_address_from_prehash raw _ _ := Some (take ADDRESS_LEN raw);
|}.

Lemma model_crypto_laws : CryptoLaws model_crypto.
Proof. constructor. intros b. apply length_be_bytes. Qed.

(** A key is a number, its account the number's 20 bytes; a signature starts with the account. *)
Definition model_secp256k1 : Secp256k1 := {|
  signing_key := N;
  key_account := be_bytes ADDRESS_LEN;
  sign_prehash_recoverable k _ := Some (be_bytes ADDRESS_LEN k ++ repeat x00 44, 0);
|}.

Lemma model_secp256k1_laws : Secp256k1Laws model_crypto model_secp256k1.
Proof.
  constructor.
  - intros k. apply length_be_bytes.
  - intros k hash signature id H.
    assert (signature = be_bytes ADDRESS_LEN k ++ repeat x00 44 /\ id = 0) as [-> ->]
      by (change (Some (be_bytes ADDRESS_LEN k ++ repeat x00 44, 0) = Some (signature, id)) in H;
          split; congruence).
    split_and!; [|done|].
    + by rewrite length_app, length_be_bytes.
    + cbn [recover_address_from_prehash model_crypto key_account model_secp256k1].
      rewrite <- app_assoc, take_app_length'; [done|symmetry; apply length_be_bytes].
Qed.

(** Points are their encodings, compressed ones at their size; a signature verifies when it starts with 0x01,
    and every pairing equation holds. *)
Definition model_blst : Blst := {|
  bls_public_key := bytes;
  bls_signature := bytes;
  bls_key_validate := Some;
  bls_sig_validate := Some;
  bls_verify s _ _ _ := bool_decide (head s = Some x01);
  pk_to_bytes b := b;
  sig_to_bytes b := b;
  secret_key := bytes;
  sk_from_bytes := Some;
  sk_sign k _ _ := k;
  sk_to_pk k := k;
  fr := N;
  fr_from_u64 n := n;
  fr_add := N.add;
  fr_mul := N.mul;
  fr_sub := N.sub;
  fr_cneg n := n;
  fr_inverse n := n;
  scalar := N;
  scalar_from_fr n := n;
  fr_from_scalar n := n;
  scalar_from_bendian := N_of_be;
  bendian_from_scalar := be_bytes 32;
  sk_check _ := true;
  p1_affine := bytes;
  p1 := bytes;
  p1_uncompress := Some;
  p1_deserialize := Some;
  p1_serialize b := b;
  p1_affine_in_g1 _ := true;
  p1_affine_is_inf _ := false;
  p1_affine_is_equal a b := bool_decide (a = b);
  p1_from_affine b := b;
  p1_to_affine b := b;
  p1_affine_compress b := take 48 (b ++ repeat x00 48);
  p1_add_or_double a b := a;
  p1_cneg b := b;
  p1_mult a _ := a;
  p1_affine_generator := [];
  p1_generator := [];
  p2_affine := bytes;
  p2 := bytes;
  p2_uncompress := Some;
  p2_deserialize := Some;
  p2_serialize b := b;
  p2_affine_in_g2 _ := true;
  p2_affine_is_inf _ := false;
  p2_from_affine b := b;
  p2_to_affine b := b;
  p2_affine_compress b := take 96 (b ++ repeat x00 96);
  p2_add_or_double a b := a;
  p2_cneg b := b;
  p2_mult a _ := a;
  p2_affine_generator := [];
  p2_generator := [];
  pairing_is_one _ _ := true;
|}.

(** The identity permutation as a block cipher. *)
Definition model_symmetric : Symmetric := {|
  sha256 := model_digest;
  aes256 := bytes;
  aes256_new_from_slice := Some;
  aes256_decrypt_block _ b := b;
|}.

(** A header with the given number, nonce, difficulty, mix hash and extra data. *)
Definition model_header (n : N) (primary : N) (diff : N) (mix : B256) (extra : bytes) : Header :=
  {| parent_hash := ZERO_B256; ommers_hash := ZERO_B256; beneficiary := ZERO_ADDRESS;
     state_root := ZERO_B256; transactions_root := ZERO_B256; receipts_root := ZERO_B256;
     logs_bloom := repeat x00 256; difficulty := diff; number := n; gas_limit := 0; gas_used := 0;
     timestamp := 0; extra_data := extra; mix_hash := mix; nonce := be_bytes 8 primary;
     base_fee_per_gas := None; withdrawals_root := None; blob_gas_used := None;
     excess_blob_gas := None; parent_beacon_block_root := None; requests_hash := None;
     block_access_list_hash := None; slot_number := None |}.
