(* ===== verification/Extra.v ===== *)
(** The dBFT header [extraData] codec (crates/neox/consensus/src/extra.rs):
    versions, signature schemes, the hashable prefix of an unsealed proposal and
    the full sealed form, with the quorum size the format is built around. *)

From S2P Require Import Prelude Extern.

Definition ECDSA_SIGNATURE_LEN : N := 65.
Definition THRESHOLD_PUBLIC_KEY_LEN : N := 48.
Definition THRESHOLD_SIGNATURE_LEN : N := 96.
Definition HASHABLE_EXTRA_V0_LEN : N := 1.
Definition HASHABLE_EXTRA_V1_LEN : N := 1 + 1 + 32.
(** [Address::len_bytes()] *)
Definition ADDRESS_LEN_BYTES : N := 20.

Inductive ExtraVersion : Type := V0 | V1 | V2.
Inductive SignatureScheme : Type := Ecdsa | Threshold.

#[export] Instance extra_version_eq_dec : EqDecision ExtraVersion.
Proof. solve_decision. Defined.
#[export] Instance signature_scheme_eq_dec : EqDecision SignatureScheme.
Proof. solve_decision. Defined.

(** [Panicked] is not an error of the source: it marks an [expect] that failed,
    and is proved never to be returned. *)
Inductive DbftExtraError : Type :=
| Empty
| UnsupportedVersion (value : byte)
| UnsupportedSignatureScheme (value : byte)
| InvalidPrefixFields
| EmptyValidatorSet
| InvalidSignatureCount (expected actual : N)
| InvalidLength (expected actual : N)
| LengthOverflow (validator_count : N)
| Panicked.

#[export] Instance dbft_extra_error_eq_dec : EqDecision DbftExtraError.
Proof. solve_decision. Defined.

Definition extra_version_try_from (value : byte) : result DbftExtraError ExtraVersion :=
  match value with
  | x00 => Ok V0
  | x01 => Ok V1
  | x02 => Ok V2
  | value => Err (UnsupportedVersion value)
  end.

(** [version as u8] *)
Definition extra_version_as_u8 (v : ExtraVersion) : byte :=
  match v with V0 => x00 | V1 => x01 | V2 => x02 end.

Definition signature_scheme_try_from (value : byte) : result DbftExtraError SignatureScheme :=
  match value with
  | x00 => Ok Ecdsa
  | x01 => Ok Threshold
  | value => Err (UnsupportedSignatureScheme value)
  end.

Definition signature_scheme_as_u8 (s : SignatureScheme) : byte :=
  match s with Ecdsa => x00 | Threshold => x01 end.

(** ** The hashable prefix *)

Module DbftExtraPrefix.

Record t : Type := mk {
  version : ExtraVersion;
  signature_scheme : SignatureScheme;
  fallback_next_consensus : option B256;
}.

#[export] Instance t_eq_dec : EqDecision t.
Proof. solve_decision. Defined.

Definition new (version : ExtraVersion) (scheme : SignatureScheme) (fallback : option B256)
    : result DbftExtraError t :=
  match version with
  | V0 =>
      if negb (bool_decide (scheme = Ecdsa)) || bool_decide (is_Some fallback)
      then Err InvalidPrefixFields
      else Ok (mk version scheme fallback)
  | V1 | V2 =>
      match fallback with
      | None => Err InvalidPrefixFields
      | Some _ => Ok (mk version scheme fallback)
      end
  end.

Definition decode (raw : bytes) : result DbftExtraError t :=
  match raw with
  | [] => Err Empty
  | version :: rest =>
      let? version := extra_version_try_from version in
      match version with
      | V0 => Ok (mk version Ecdsa None)
      | V1 | V2 =>
          if lenN raw <? HASHABLE_EXTRA_V1_LEN
          then Err (InvalidLength HASHABLE_EXTRA_V1_LEN (lenN raw))
          else
            let? scheme := signature_scheme_try_from (nth 1 raw x00) in
            Ok (mk version scheme (Some (slice 2 (N.to_nat HASHABLE_EXTRA_V1_LEN) raw)))
      end
  end.

Definition encode (p : t) : result DbftExtraError bytes :=
  match version p with
  | V0 => Ok [extra_version_as_u8 (version p)]
  | V1 | V2 =>
      let? fallback := ok_or (fallback_next_consensus p) Panicked in
      Ok ([extra_version_as_u8 (version p)]
            ++ [signature_scheme_as_u8 (signature_scheme p)] ++ fallback)
  end.

End DbftExtraPrefix.

(** ** The sealed form *)

Definition bft_honest_node_count (node_count : N) : N :=
  node_count - saturating_sub node_count 1 / 3.

Definition next_consensus_hash `{Crypto} (validators : list bytes) : B256 :=
  keccak256 (concat validators).

Module DbftExtra.

Inductive t : Type :=
| EcdsaSeal (version : ExtraVersion) (fallback_next_consensus : option B256)
    (validators : list Address) (signatures : list bytes)
| ThresholdSeal (version : ExtraVersion) (fallback_next_consensus : B256)
    (public_key : bytes) (signature : bytes).

#[export] Instance extra_eq_dec : EqDecision t.
Proof. solve_decision. Defined.

Definition genesis_v0 (validators : list Address) : t :=
  let validators := sort_bytes validators in
  let signatures :=
    repeat (repeat x00 (N.to_nat ECDSA_SIGNATURE_LEN))
      (N.to_nat (bft_honest_node_count (lenN validators))) in
  EcdsaSeal V0 None validators signatures.

Definition decode_ecdsa (raw : bytes) (version : ExtraVersion) (validator_count : N)
    (fallback : option B256) : result DbftExtraError t :=
  if validator_count =? 0 then Err EmptyValidatorSet
  else
    let prefix_len :=
      match version with V0 => HASHABLE_EXTRA_V0_LEN | V1 | V2 => HASHABLE_EXTRA_V1_LEN end in
    let signature_count := bft_honest_node_count validator_count in
    let? validator_bytes :=
      ok_or (checked_mul USIZE_MAX validator_count ADDRESS_LEN_BYTES)
        (LengthOverflow validator_count) in
    let? signature_bytes :=
      ok_or (checked_mul USIZE_MAX signature_count ECDSA_SIGNATURE_LEN)
        (LengthOverflow validator_count) in
    let? signatures_start :=
      ok_or (checked_add USIZE_MAX prefix_len validator_bytes)
        (LengthOverflow validator_count) in
    let? expected :=
      ok_or (checked_add USIZE_MAX signatures_start signature_bytes)
        (LengthOverflow validator_count) in
    if negb (lenN raw =? expected) then Err (InvalidLength expected (lenN raw))
    else
      let validators :=
        as_chunks (N.to_nat ADDRESS_LEN_BYTES)
          (slice (N.to_nat prefix_len) (N.to_nat signatures_start) raw) in
      let signatures :=
        as_chunks (N.to_nat ECDSA_SIGNATURE_LEN) (drop (N.to_nat signatures_start) raw) in
      Ok (EcdsaSeal version fallback validators signatures).

Definition decode (raw : bytes) (validator_count : N) : result DbftExtraError t :=
  let? prefix := DbftExtraPrefix.decode raw in
  let version := DbftExtraPrefix.version prefix in
  match DbftExtraPrefix.signature_scheme prefix with
  | Ecdsa =>
      decode_ecdsa raw version validator_count (DbftExtraPrefix.fallback_next_consensus prefix)
  | Threshold =>
      let? fallback := ok_or (DbftExtraPrefix.fallback_next_consensus prefix) Panicked in
      let expected :=
        HASHABLE_EXTRA_V1_LEN + THRESHOLD_PUBLIC_KEY_LEN + THRESHOLD_SIGNATURE_LEN in
      if negb (lenN raw =? expected) then Err (InvalidLength expected (lenN raw))
      else
        let public_key :=
          slice (N.to_nat HASHABLE_EXTRA_V1_LEN)
            (N.to_nat (HASHABLE_EXTRA_V1_LEN + THRESHOLD_PUBLIC_KEY_LEN)) raw in
        let signature := drop (N.to_nat (expected - THRESHOLD_SIGNATURE_LEN)) raw in
        Ok (ThresholdSeal version fallback public_key signature)
  end.

Definition try_encode (e : t) : result DbftExtraError bytes :=
  match e with
  | EcdsaSeal version fallback validators signatures =>
      let? _ :=
        match version, fallback with
        | V0, Some _ => Err InvalidPrefixFields
        | V1, None | V2, None => Err InvalidPrefixFields
        | _, _ => Ok tt
        end in
      if bool_decide (validators = []) then Err EmptyValidatorSet
      else
        let expected_signatures := bft_honest_node_count (lenN validators) in
        if negb (lenN signatures =? expected_signatures)
        then Err (InvalidSignatureCount expected_signatures (lenN signatures))
        else
          let? prefix :=
            match version with
            | V0 => Ok [extra_version_as_u8 version]
            | V1 | V2 =>
                let? fallback := ok_or fallback InvalidPrefixFields in
                Ok ([extra_version_as_u8 version] ++ [signature_scheme_as_u8 Ecdsa] ++ fallback)
            end in
          Ok (prefix ++ concat validators ++ concat signatures)
  | ThresholdSeal version fallback public_key signature =>
      match version with
      | V0 => Err InvalidPrefixFields
      | V1 | V2 =>
          Ok ([extra_version_as_u8 version] ++ [signature_scheme_as_u8 Threshold]
                ++ fallback ++ public_key ++ signature)
      end
  end.

Definition hashable_prefix (raw : bytes) : result DbftExtraError bytes :=
  match raw with
  | [] => Err Empty
  | version :: _ =>
      let? version := extra_version_try_from version in
      let expected :=
        match version with V0 => HASHABLE_EXTRA_V0_LEN | V1 | V2 => HASHABLE_EXTRA_V1_LEN end in
      if expected <=? lenN raw then Ok (take (N.to_nat expected) raw)
      else Err (InvalidLength expected (lenN raw))
  end.

Definition validators (e : t) : option (list Address) :=
  match e with EcdsaSeal _ _ vs _ => Some vs | ThresholdSeal _ _ _ _ => None end.
Definition version (e : t) : ExtraVersion :=
  match e with EcdsaSeal v _ _ _ | ThresholdSeal v _ _ _ => v end.
Definition signature_scheme (e : t) : SignatureScheme :=
  match e with EcdsaSeal _ _ _ _ => Ecdsa | ThresholdSeal _ _ _ _ => Threshold end.
Definition fallback_next_consensus (e : t) : option B256 :=
  match e with EcdsaSeal _ f _ _ => f | ThresholdSeal _ f _ _ => Some f end.
Definition signatures (e : t) : option (list bytes) :=
  match e with EcdsaSeal _ _ _ ss => Some ss | ThresholdSeal _ _ _ _ => None end.
Definition threshold_public_key (e : t) : option bytes :=
  match e with EcdsaSeal _ _ _ _ => None | ThresholdSeal _ _ pk _ => Some pk end.
Definition threshold_signature (e : t) : option bytes :=
  match e with EcdsaSeal _ _ _ _ => None | ThresholdSeal _ _ _ s => Some s end.

End DbftExtra.

(** ** Well-formedness

    The widths the Rust types impose on the fields of a [DbftExtra]. *)

Definition widths_ok (e : DbftExtra.t) : Prop :=
  match e with
  | DbftExtra.EcdsaSeal _ fallback validators signatures =>
      (forall h, fallback = Some h -> length h = B256_LEN) /\
      Forall (fun a => length a = N.to_nat ADDRESS_LEN_BYTES) validators /\
      Forall (fun s => length s = N.to_nat ECDSA_SIGNATURE_LEN) signatures
  | DbftExtra.ThresholdSeal _ fallback public_key signature =>
      length fallback = B256_LEN /\
      length public_key = N.to_nat THRESHOLD_PUBLIC_KEY_LEN /\
      length signature = N.to_nat THRESHOLD_SIGNATURE_LEN
  end.

(** The prefix fields an extra was built on. *)
Definition prefix_of (e : DbftExtra.t) : DbftExtraPrefix.t :=
  DbftExtraPrefix.mk (DbftExtra.version e) (DbftExtra.signature_scheme e)
    (DbftExtra.fallback_next_consensus e).

Definition prefix_len (v : ExtraVersion) : N :=
  match v with V0 => HASHABLE_EXTRA_V0_LEN | V1 | V2 => HASHABLE_EXTRA_V1_LEN end.

(** ** Quorum arithmetic *)

Lemma bft_honest_node_count_bounds n :
  n <> 0 -> 1 <= bft_honest_node_count n <= n.
Proof.
  intros Hn. unfold bft_honest_node_count, saturating_sub.
  div_facts (n - 1) 3. lia.
Qed.

Lemma bft_honest_node_count_fault n :
  n <> 0 ->
  let f := (n - 1) / 3 in
  bft_honest_node_count n = n - f /\ 3 * f + 1 <= n /\
  n + f + 1 <= 2 * bft_honest_node_count n.
Proof.
  intros Hn f. subst f. unfold bft_honest_node_count, saturating_sub.
  div_facts (n - 1) 3. lia.
Qed.

(** ** Codec lemmas *)

Lemma extra_version_try_from_as_u8 v : extra_version_try_from (extra_version_as_u8 v) = Ok v.
Proof. by destruct v. Qed.

Lemma extra_version_as_u8_try_from b v :
  extra_version_try_from b = Ok v -> b = extra_version_as_u8 v.
Proof. destruct b; simpl; intros [= <-]; reflexivity. Qed.

Lemma signature_scheme_try_from_as_u8 s :
  signature_scheme_try_from (signature_scheme_as_u8 s) = Ok s.
Proof. by destruct s. Qed.

Lemma signature_scheme_as_u8_try_from b s :
  signature_scheme_try_from b = Ok s -> b = signature_scheme_as_u8 s.
Proof. destruct b; simpl; intros [= <-]; reflexivity. Qed.

Lemma extra_version_no_panic b : extra_version_try_from b <> Err Panicked.
Proof. by destruct b. Qed.

Lemma signature_scheme_no_panic b : signature_scheme_try_from b <> Err Panicked.
Proof. by destruct b. Qed.

(** Everything the prefix decoder accepts starts with the prefix it encodes. *)
Lemma prefix_decode_inv raw p :
  DbftExtraPrefix.decode raw = Ok p ->
  exists pre rest, raw = pre ++ rest /\ DbftExtraPrefix.encode p = Ok pre /\
    lenN pre = prefix_len (DbftExtraPrefix.version p) /\
    match DbftExtraPrefix.version p with
    | V0 => DbftExtraPrefix.signature_scheme p = Ecdsa /\
            DbftExtraPrefix.fallback_next_consensus p = None
    | V1 | V2 => exists h, DbftExtraPrefix.fallback_next_consensus p = Some h /\
                           length h = B256_LEN
    end.
Proof.
  unfold DbftExtraPrefix.decode. destruct raw as [|b raw]; [done|]. intros H. bind_inv.
  match goal with Hv : extra_version_try_from b = Ok ?v |- _ =>
    rename v into ver; apply extra_version_as_u8_try_from in Hv end.
  destruct (decide (ver = V0)) as [->|Hv0].
  { injection H as <-. exists [b], raw. subst b. by simpl. }
  assert (Hlong : (if lenN (b :: raw) <? HASHABLE_EXTRA_V1_LEN
    then Err (InvalidLength HASHABLE_EXTRA_V1_LEN (lenN (b :: raw)))
    else let? scheme := signature_scheme_try_from (nth 1 (b :: raw) x00) in
         Ok (DbftExtraPrefix.mk ver scheme
               (Some (slice 2 (N.to_nat HASHABLE_EXTRA_V1_LEN) (b :: raw))))) = Ok p)
    by (destruct ver; [done|exact H|exact H]).
  clear H. destruct (N.ltb_spec (lenN (b :: raw)) HASHABLE_EXTRA_V1_LEN) as [|Hlen]; [done|].
  bind_inv. destruct raw as [|c raw]; [done|]. simpl in *.
  match goal with Hs : signature_scheme_try_from c = Ok _ |- _ =>
    apply signature_scheme_as_u8_try_from in Hs end.
  assert (Hr : (32 <= length raw)%nat) by (unfold lenN, HASHABLE_EXTRA_V1_LEN in Hlen; simpl in Hlen; lia).
  subst c. change (slice 2 (Pos.to_nat 34) (?b :: ?c :: raw)) with (take 32 raw).
  eexists (extra_version_as_u8 ver :: _ :: take 32 raw), (drop 32 raw).
  split; [simpl; by rewrite take_drop|].
  assert (Ht : length (take 32 raw) = 32%nat) by (rewrite length_take; lia).
  destruct ver; [done| |]; (split; [done|]); (split; [|eauto]);
    unfold lenN; simpl; rewrite Ht; reflexivity.
Qed.

Lemma prefix_v1_decode v s h rest :
  v <> V0 -> length h = B256_LEN ->
  let pre := extra_version_as_u8 v :: signature_scheme_as_u8 s :: h in
  DbftExtraPrefix.decode (pre ++ rest) = Ok (DbftExtraPrefix.mk v s (Some h)) /\
  DbftExtra.hashable_prefix (pre ++ rest) = Ok pre /\
  lenN pre = HASHABLE_EXTRA_V1_LEN.
Proof.
  intros Hv Hh pre.
  assert (Hp : lenN pre = HASHABLE_EXTRA_V1_LEN) by (unfold lenN; simpl; by rewrite Hh).
  assert (Hl : HASHABLE_EXTRA_V1_LEN <= lenN (pre ++ rest)) by (rewrite lenN_app; lia).
  unfold DbftExtraPrefix.decode, DbftExtra.hashable_prefix. subst pre. cbn [app] in *.
  rewrite extra_version_try_from_as_u8. cbn [result_bind nth].
  destruct v; [done|..]; rewrite (proj2 (N.ltb_ge _ _) Hl), (proj2 (N.leb_le _ _) Hl),
    signature_scheme_try_from_as_u8; cbn [result_bind]; (split_and!; [| |done]);
    change (N.to_nat HASHABLE_EXTRA_V1_LEN) with 34%nat; unfold slice; simpl;
    by rewrite ?drop_0, (take_app_length' h rest 32).
Qed.

Lemma prefix_encode_decode p pre rest :
  DbftExtraPrefix.encode p = Ok pre ->
  match DbftExtraPrefix.version p with
  | V0 => DbftExtraPrefix.signature_scheme p = Ecdsa /\
          DbftExtraPrefix.fallback_next_consensus p = None
  | V1 | V2 => exists h, DbftExtraPrefix.fallback_next_consensus p = Some h /\
                         length h = B256_LEN
  end ->
  DbftExtraPrefix.decode (pre ++ rest) = Ok p /\
  DbftExtra.hashable_prefix (pre ++ rest) = Ok pre /\
  lenN pre = prefix_len (DbftExtraPrefix.version p).
Proof.
  destruct p as [v s f]. unfold DbftExtraPrefix.encode. simpl.
  destruct (decide (v = V0)) as [->|Hv].
  - intros [= <-] [-> ->]. split_and!; [done| |done].
    unfold DbftExtra.hashable_prefix. simpl.
    by rewrite (proj2 (N.leb_le _ _)) by (unfold HASHABLE_EXTRA_V0_LEN, lenN; simpl; lia).
  - intros H Hf.
    assert (exists h, f = Some h /\ length h = B256_LEN) as (h & -> & Hh) by (by destruct v).
    replace pre with (extra_version_as_u8 v :: signature_scheme_as_u8 s :: h)
      by (destruct v; simpl in H; naive_solver).
    replace (prefix_len v) with HASHABLE_EXTRA_V1_LEN by (by destruct v).
    by apply prefix_v1_decode.
Qed.

Lemma decode_ecdsa_inv raw v n f e :
  DbftExtra.decode_ecdsa raw v n f = Ok e <->
  let start := prefix_len v + n * ADDRESS_LEN_BYTES in
  n <> 0 /\ lenN raw = start + bft_honest_node_count n * ECDSA_SIGNATURE_LEN /\
  lenN raw <= USIZE_MAX /\
  e = DbftExtra.EcdsaSeal v f
        (as_chunks (N.to_nat ADDRESS_LEN_BYTES)
           (slice (N.to_nat (prefix_len v)) (N.to_nat start) raw))
        (as_chunks (N.to_nat ECDSA_SIGNATURE_LEN) (drop (N.to_nat start) raw)).
Proof.
  unfold DbftExtra.decode_ecdsa. fold (prefix_len v). simpl.
  destruct (N.eqb_spec n 0) as [->|Hn]; [naive_solver|].
  rewrite !checked_mul_bind_Ok, !checked_add_bind_Ok.
  destruct (N.eqb_spec (lenN raw) (prefix_len v + n * ADDRESS_LEN_BYTES
    + bft_honest_node_count n * ECDSA_SIGNATURE_LEN)) as [Hl|Hl]; simpl; [|naive_solver].
  split.
  - intros (_ & _ & _ & ? & [= <-]). split_and!; auto; lia.
  - intros (_ & _ & ? & ->). split_and!; auto; lia.
Qed.

(** An ECDSA seal is its prefix followed by the validators and the signatures. *)
Lemma decode_ecdsa_encode v n f pre validators signatures :
  lenN pre = prefix_len v ->
  n <> 0 -> lenN validators = n -> lenN signatures = bft_honest_node_count n ->
  widths_ok (DbftExtra.EcdsaSeal v f validators signatures) ->
  lenN (pre ++ concat validators ++ concat signatures) <= USIZE_MAX ->
  DbftExtra.decode_ecdsa (pre ++ concat validators ++ concat signatures) v n f =
    Ok (DbftExtra.EcdsaSeal v f validators signatures).
Proof.
  intros Hp Hn Hvs Hss (_ & Hv & Hs) Hmax. apply decode_ecdsa_inv. simpl.
  pose proof (length_concat_const _ _ Hv) as Lv. pose proof (length_concat_const _ _ Hs) as Ls.
  assert (Hlv : lenN (concat validators) = n * ADDRESS_LEN_BYTES) by (unfold lenN in *; lia).
  assert (Hls : lenN (concat signatures) = bft_honest_node_count n * ECDSA_SIGNATURE_LEN)
    by (unfold lenN in *; lia).
  split_and!; [done|rewrite !lenN_app; lia|done|]. f_equal.
  - unfold slice. rewrite drop_app_length' by (unfold lenN in *; lia).
    rewrite take_app_length' by (unfold lenN in *; lia). by rewrite as_chunks_concat.
  - rewrite app_assoc, drop_app_length' by (rewrite length_app; unfold lenN in *; lia).
    by rewrite as_chunks_concat.
Qed.

Lemma decode_ecdsa_parts raw v n f e pre rest :
  raw = pre ++ rest -> lenN pre = prefix_len v ->
  DbftExtra.decode_ecdsa raw v n f = Ok e ->
  exists validators signatures,
    e = DbftExtra.EcdsaSeal v f validators signatures /\
    rest = concat validators ++ concat signatures /\
    n <> 0 /\ lenN validators = n /\ lenN signatures = bft_honest_node_count n /\
    Forall (fun a => length a = N.to_nat ADDRESS_LEN_BYTES) validators /\
    Forall (fun s => length s = N.to_nat ECDSA_SIGNATURE_LEN) signatures.
Proof.
  intros -> Hp H. apply decode_ecdsa_inv in H as (Hn & Hl & _ & ->).
  rewrite lenN_app, Hp in Hl. unfold slice.
  rewrite drop_app_length' by (unfold lenN in *; lia).
  replace (N.to_nat (prefix_len v + n * ADDRESS_LEN_BYTES) - N.to_nat (prefix_len v))%nat
    with (N.to_nat n * N.to_nat ADDRESS_LEN_BYTES)%nat by lia.
  set (k := (N.to_nat n * N.to_nat ADDRESS_LEN_BYTES)%nat).
  replace (drop (N.to_nat (prefix_len v + n * ADDRESS_LEN_BYTES)) (pre ++ rest)) with (drop k rest)
    by (rewrite drop_app_ge by (unfold lenN in *; lia); f_equal; unfold lenN in *; lia).
  assert (H1 : length (take k rest) = (N.to_nat n * N.to_nat ADDRESS_LEN_BYTES)%nat)
    by (rewrite length_take; unfold lenN in *; lia).
  assert (H2 : length (drop k rest)
    = (N.to_nat (bft_honest_node_count n) * N.to_nat ECDSA_SIGNATURE_LEN)%nat)
    by (rewrite length_drop; unfold lenN in *; lia).
  apply (as_chunks_sizes _ (N.to_nat ADDRESS_LEN_BYTES)) in H1 as Hv; [|done].
  apply (as_chunks_sizes _ (N.to_nat ECDSA_SIGNATURE_LEN)) in H2 as Hs; [|done].
  eexists _, _. split; [reflexivity|]. split.
  { rewrite (concat_as_chunks (N.to_nat n)), (concat_as_chunks (N.to_nat (bft_honest_node_count n)))
      by done. by rewrite take_drop. }
  unfold lenN. destruct Hv as [-> ?], Hs as [-> ?]. split_and!; auto; lia.
Qed.

Lemma threshold_parts (pre rest : bytes) :
  lenN pre = HASHABLE_EXTRA_V1_LEN ->
  lenN (pre ++ rest) =
    HASHABLE_EXTRA_V1_LEN + THRESHOLD_PUBLIC_KEY_LEN + THRESHOLD_SIGNATURE_LEN ->
  length (take 48 rest) = N.to_nat THRESHOLD_PUBLIC_KEY_LEN /\
  length (drop 48 rest) = N.to_nat THRESHOLD_SIGNATURE_LEN /\
  slice (N.to_nat HASHABLE_EXTRA_V1_LEN)
    (N.to_nat (HASHABLE_EXTRA_V1_LEN + THRESHOLD_PUBLIC_KEY_LEN)) (pre ++ rest) = take 48 rest /\
  drop (N.to_nat (HASHABLE_EXTRA_V1_LEN + THRESHOLD_PUBLIC_KEY_LEN + THRESHOLD_SIGNATURE_LEN
    - THRESHOLD_SIGNATURE_LEN)) (pre ++ rest) = drop 48 rest.
Proof.
  unfold lenN, HASHABLE_EXTRA_V1_LEN, THRESHOLD_PUBLIC_KEY_LEN, THRESHOLD_SIGNATURE_LEN.
  rewrite length_app. intros Hp Hl. rewrite length_take, length_drop.
  split_and!; [lia|lia| |].
  - unfold slice. by rewrite drop_app_length' by lia.
  - rewrite drop_app_ge by lia. f_equal. lia.
Qed.

(** Decoding accepts exactly the encodings: the two directions of the round trip. *)
Lemma decode_encodes raw n e :
  DbftExtra.decode raw n = Ok e ->
  widths_ok e /\ DbftExtra.try_encode e = Ok raw /\
  (forall vs, DbftExtra.validators e = Some vs -> lenN vs = n).
Proof.
  unfold DbftExtra.decode. intros H. bind_inv.
  match goal with Hp : DbftExtraPrefix.decode raw = Ok ?p |- _ => rename p into pf;
    apply prefix_decode_inv in Hp as (pre & rest & Hraw & Hpre & Hlen & Hshape) end.
  destruct pf as [v s f].
  cbn [DbftExtraPrefix.version DbftExtraPrefix.signature_scheme
       DbftExtraPrefix.fallback_next_consensus] in *. destruct s.
  - destruct (decode_ecdsa_parts _ _ _ _ _ _ _ Hraw Hlen H)
      as (vs & ss & -> & -> & Hn & Hvs & Hss & Fv & Fs). simpl.
    assert (vs <> []) by (intros ->; done).
    rewrite bool_decide_eq_false_2, Hvs, Hss, N.eqb_refl by done. simpl.
    split_and!; try done; destruct v; unfold DbftExtraPrefix.encode in Hpre; simpl in *;
      try destruct Hshape as [_ ->]; try destruct Hshape as (h & -> & Hh);
      simpl in *; naive_solver.
  - assert (v <> V0) as Hv by (intros ->; by destruct Hshape).
    assert (exists h, f = Some h /\ length h = B256_LEN) as (h & -> & Hh) by (by destruct v).
    cbn [ok_or result_bind] in H. destruct (negb _) eqn:Hl; [done|]. injection H as <-.
    apply negb_false_iff, N.eqb_eq in Hl.
    replace (prefix_len v) with HASHABLE_EXTRA_V1_LEN in Hlen by (by destruct v).
    rewrite Hraw in Hl |- *.
    destruct (threshold_parts pre rest Hlen Hl) as (Hk & Hs & -> & ->).
    simpl. split_and!; rewrite ?Hk, ?Hs; try done.
    destruct v; [done|..]; simpl in Hpre; injection Hpre as <-; simpl; by rewrite take_drop.
Qed.

Lemma encode_decodes raw n e :
  widths_ok e -> DbftExtra.try_encode e = Ok raw -> lenN raw <= USIZE_MAX ->
  (forall vs, DbftExtra.validators e = Some vs -> lenN vs = n) ->
  DbftExtra.decode raw n = Ok e.
Proof.
  intros Hw He Hmax Hn. destruct e as [v f vs ss|v f pk sg]; simpl in He.
  - bind_inv. case_bool_decide as Hvs; [done|].
    destruct (N.eqb_spec (lenN ss) (bft_honest_node_count (lenN vs))) as [Hss|]; [|done].
    simpl in He. bind_inv. specialize (Hn vs eq_refl). destruct Hw as (Hf & Hv & Hs).
    rename x0 into pre.
    assert (Hp : DbftExtraPrefix.encode (DbftExtraPrefix.mk v Ecdsa f) = Ok pre)
      by (destruct v, f; done).
    destruct (prefix_encode_decode _ _ (concat vs ++ concat ss) Hp) as (Hd & _ & Hlen).
    { destruct v, f; simpl; naive_solver. }
    unfold DbftExtra.decode. rewrite Hd. simpl.
    apply decode_ecdsa_encode; try done; [|by rewrite <- Hn].
    intros ->. destruct vs; done.
  - destruct Hw as (Hf & Hpk & Hsg). assert (v <> V0) as Hv by (by destruct v).
    replace raw with ((extra_version_as_u8 v :: signature_scheme_as_u8 Threshold :: f) ++ pk ++ sg)
      by (destruct v; [done|..]; by injection He as <-).
    destruct (prefix_v1_decode v Threshold f (pk ++ sg) Hv Hf) as (Hd & _ & Hlen).
    unfold DbftExtra.decode. rewrite Hd.
    cbn [result_bind DbftExtraPrefix.signature_scheme DbftExtraPrefix.version
         DbftExtraPrefix.fallback_next_consensus ok_or].
    assert (Hl : lenN ((extra_version_as_u8 v :: signature_scheme_as_u8 Threshold :: f) ++ pk ++ sg)
      = HASHABLE_EXTRA_V1_LEN + THRESHOLD_PUBLIC_KEY_LEN + THRESHOLD_SIGNATURE_LEN)
      by (rewrite !lenN_app, Hlen; unfold lenN; rewrite Hpk, Hsg; lia).
    rewrite (proj2 (N.eqb_eq _ _) Hl). simpl negb. cbv iota.
    destruct (threshold_parts _ _ Hlen Hl) as (_ & _ & -> & ->).
    by rewrite take_app_length', drop_app_length'.
Qed.

(** C33. The dBFT [extraData] codec is exact: decoding with a validator count
    accepts precisely the byte strings that encode a well-formed extra of that
    committee size, and returns that extra.  In particular decoding inverts
    encoding, encoding inverts decoding, and no two byte strings decode to the
    same extra. *)
Theorem decode_iff_try_encode raw n e :
  lenN raw <= USIZE_MAX ->
  DbftExtra.decode raw n = Ok e <->
  widths_ok e /\ DbftExtra.try_encode e = Ok raw /\
  (forall vs, DbftExtra.validators e = Some vs -> lenN vs = n).
Proof. intros Hmax. split; [apply decode_encodes|]. intros (? & ? & ?). by apply encode_decodes. Qed.

(** A one-validator V0 extra, used by the concrete instances below. *)
Definition example_address : Address := repeat x01 ADDRESS_LEN.
Definition example_extra : DbftExtra.t :=
  DbftExtra.EcdsaSeal V0 None [example_address] [repeat x00 65].
Definition example_extra_raw : bytes := x00 :: example_address ++ repeat x00 65.

Lemma decode_iff_try_encode_witness :
  DbftExtra.decode example_extra_raw 1 = Ok example_extra.
Proof.
  apply (decode_iff_try_encode example_extra_raw 1 example_extra); [vm_compute; discriminate|].
  split_and!; [by repeat constructor|reflexivity|]. by intros vs [= <-].
Defined.

(** Sealing does not touch the hashable prefix. *)
Lemma try_encode_prefix e raw :
  widths_ok e -> DbftExtra.try_encode e = Ok raw ->
  exists pre, DbftExtraPrefix.encode (prefix_of e) = Ok pre /\
    DbftExtra.hashable_prefix raw = Ok pre /\ DbftExtraPrefix.decode raw = Ok (prefix_of e).
Proof.
  intros Hw He. destruct e as [v f vs ss|v f pk sg]; simpl in He.
  - bind_inv. case_bool_decide as Hvs; [done|]. case_match; [done|]. bind_inv.
    rename x0 into pre. exists pre. destruct Hw as (Hf & _).
    assert (Hp : DbftExtraPrefix.encode (DbftExtraPrefix.mk v Ecdsa f) = Ok pre)
      by (destruct v, f; done).
    destruct (prefix_encode_decode _ _ (concat vs ++ concat ss) Hp) as (Hd & Hh & _); [|done].
    destruct v, f; simpl; naive_solver.
  - destruct Hw as (Hf & _). assert (v <> V0) as Hv by (by destruct v).
    destruct (prefix_v1_decode v Threshold f (pk ++ sg) Hv Hf) as (Hd & Hh & _).
    replace raw with ((extra_version_as_u8 v :: signature_scheme_as_u8 Threshold :: f) ++ pk ++ sg)
      by (destruct v; [done|..]; by injection He as <-).
    eexists. split; [|split; [exact Hh|exact Hd]]. by destruct v.
Qed.

(** The [expect]s of the extra codec cannot fire: no input makes either
    decoder panic, a prefix built by [DbftExtraPrefix::new] or by decoding always
    encodes, and the encoding decodes back to it whatever seal is appended. *)
Theorem extra_codec_never_panics :
  (forall raw n, DbftExtra.decode raw n <> Err Panicked) /\
  (forall raw, DbftExtraPrefix.decode raw <> Err Panicked) /\
  (forall v s f p, (forall h, f = Some h -> length h = B256_LEN) ->
     DbftExtraPrefix.new v s f = Ok p ->
     exists pre, DbftExtraPrefix.encode p = Ok pre /\
       forall seal, DbftExtraPrefix.decode (pre ++ seal) = Ok p /\
                    DbftExtra.hashable_prefix (pre ++ seal) = Ok pre).
Proof.
  assert (Hpre : forall raw, DbftExtraPrefix.decode raw <> Err Panicked).
  { intros [|b raw]; [done|]. unfold DbftExtraPrefix.decode.
    destruct (extra_version_try_from b) as [v|er] eqn:Hv; simpl.
    - pose proof (signature_scheme_no_panic (nth 1 (b :: raw) x00)).
      destruct v; [done|..]; (case_match; [done|]);
        destruct (signature_scheme_try_from _); simpl; congruence.
    - pose proof (extra_version_no_panic b). congruence. }
  split_and!; [|exact Hpre|].
  - intros raw n. unfold DbftExtra.decode.
    destruct (DbftExtraPrefix.decode raw) as [p|er] eqn:Hp; simpl.
    + apply prefix_decode_inv in Hp as (_ & _ & _ & _ & _ & Hshape).
      destruct p as [v s f]. destruct s; simpl in *.
      * unfold DbftExtra.decode_ecdsa, checked_add, checked_mul.
        repeat (case_match; simpl; try done).
      * destruct v; [naive_solver|..]; destruct Hshape as (h & -> & _); simpl; by case_match.
    + intros [= ->]. by apply (Hpre raw).
  - intros v s f p Hf Hnew.
    assert (Hshape : match DbftExtraPrefix.version p with
      | V0 => DbftExtraPrefix.signature_scheme p = Ecdsa /\
              DbftExtraPrefix.fallback_next_consensus p = None
      | V1 | V2 => exists h, DbftExtraPrefix.fallback_next_consensus p = Some h /\
                             length h = B256_LEN
      end) by (destruct v, s, f; simpl in Hnew; naive_solver).
    assert (exists pre, DbftExtraPrefix.encode p = Ok pre) as [pre Hp].
    { unfold DbftExtraPrefix.encode. destruct (DbftExtraPrefix.version p); [eauto|..];
        destruct Hshape as (h & -> & _); simpl; eauto. }
    exists pre. split; [done|]. intros seal.
    destruct (prefix_encode_decode p pre seal Hp Hshape) as (? & ? & _). done.
Qed.

Lemma genesis_v0_widths validators :
  Forall (fun a => length a = N.to_nat ADDRESS_LEN_BYTES) validators ->
  widths_ok (DbftExtra.genesis_v0 validators).
Proof.
  intros Hw. simpl. split_and!; [done|by rewrite sort_bytes_perm|].
  apply Forall_forall. intros s Hin. apply list_elem_of_In, repeat_spec in Hin as ->.
  reflexivity.
Qed.

Lemma lenN_sort_bytes l : lenN (sort_bytes l) = lenN l.
Proof. unfold lenN. by rewrite length_sort_bytes. Qed.

Lemma try_encode_ecdsa_v0 vs ss :
  vs <> [] -> lenN ss = bft_honest_node_count (lenN vs) ->
  widths_ok (DbftExtra.EcdsaSeal V0 None vs ss) ->
  exists raw, DbftExtra.try_encode (DbftExtra.EcdsaSeal V0 None vs ss) = Ok raw /\
    lenN raw = 1 + 20 * lenN vs + 65 * lenN ss.
Proof.
  intros Hne Hss (_ & Hv & Hs). simpl. rewrite bool_decide_eq_false_2, Hss, N.eqb_refl by done.
  eexists. split; [reflexivity|]. rewrite <- Hss.
  pose proof (length_concat_const _ _ Hv) as Lv. pose proof (length_concat_const _ _ Hs) as Ls.
  cbn [app]. unfold lenN. cbn [length]. rewrite length_app, Lv, Ls.
  unfold ADDRESS_LEN_BYTES, ECDSA_SIGNATURE_LEN. lia.
Qed.

(** A genesis extra is well formed: for any nonempty committee the V0
    genesis extra lists the validators in sorted order with exactly the quorum
    of (zero) signatures, encodes, and decodes back to itself. *)
Theorem genesis_v0_roundtrip validators :
  validators <> [] -> Forall (fun a => length a = N.to_nat ADDRESS_LEN_BYTES) validators ->
  100 * lenN validators <= USIZE_MAX ->
  exists raw, DbftExtra.try_encode (DbftExtra.genesis_v0 validators) = Ok raw /\
    DbftExtra.decode raw (lenN validators) = Ok (DbftExtra.genesis_v0 validators) /\
    DbftExtra.validators (DbftExtra.genesis_v0 validators) = Some (sort_bytes validators) /\
    lenN raw = 1 + 20 * lenN validators + 65 * bft_honest_node_count (lenN validators).
Proof.
  intros Hne Hw Hmax. pose proof (genesis_v0_widths _ Hw) as Hwo.
  assert (Hn : lenN validators <> 0) by (by destruct validators).
  destruct (bft_honest_node_count_bounds _ Hn) as [_ Hq].
  unfold DbftExtra.genesis_v0 in *. rewrite lenN_sort_bytes in *.
  set (ss := repeat (repeat x00 (N.to_nat ECDSA_SIGNATURE_LEN)) _) in *.
  assert (Hss : lenN ss = bft_honest_node_count (lenN validators))
    by (unfold lenN at 1, ss; rewrite repeat_length; lia).
  destruct (try_encode_ecdsa_v0 (sort_bytes validators) ss) as (raw & He & Hlen);
    rewrite ?lenN_sort_bytes; try done.
  { intros Hs. apply (f_equal length) in Hs. rewrite length_sort_bytes in Hs. by destruct validators. }
  rewrite lenN_sort_bytes in Hlen. exists raw. split_and!; [done| |done|lia].
  apply encode_decodes; [done|done|lia|]. intros vs [= <-]. apply lenN_sort_bytes.
Qed.

Lemma genesis_v0_roundtrip_witness :
  exists raw, DbftExtra.try_encode (DbftExtra.genesis_v0 [example_address]) = Ok raw /\
    DbftExtra.decode raw 1 = Ok (DbftExtra.genesis_v0 [example_address]) /\
    DbftExtra.validators (DbftExtra.genesis_v0 [example_address])
      = Some (sort_bytes [example_address]) /\
    lenN raw = 1 + 20 * 1 + 65 * bft_honest_node_count 1.
Proof.
  apply (genesis_v0_roundtrip [example_address]);
    [discriminate|by repeat constructor|vm_compute; discriminate].
Defined.
