(* ===== verification/Validation.v ===== *)
(** Static dBFT header validation (crates/neox/consensus/src/validation.rs):
    seal hashes, the next-consensus link to the parent, the ECDSA quorum and
    threshold seals, and the primary-dependent difficulty. *)

From S2P Require Import Prelude Extern Instances Extra.

Definition DIFFICULTY_IN_TURN : N := 2.
Definition DIFFICULTY_OUT_OF_TURN : N := 1.
Definition TPKE_BLS_DST : bytes :=
  String.list_byte_of_string "BLS_SIG_BLS12381G2_XMD:SHA-256_SSWU_RO_POP_".

Inductive DbftValidationError : Type :=
| ExtraErr (e : DbftExtraError)
| WrongScheme
| MissingFallbackNextConsensus
| NextConsensusMismatch (expected actual : B256)
| InvalidRecoveryId (index : N) (value : byte)
| InvalidSignature (index : N)
| ZeroValidator
| DuplicateValidator (a : Address)
| DuplicateSigner (a : Address)
| UnauthorizedSigner (a : Address)
| InvalidThresholdPublicKey
| InvalidThresholdSignature
| WrongDifficulty (expected actual : N)
| WrongPrimary (expected actual : N)
| EmptyStandbyValidatorSet.

#[export] Instance dbft_validation_error_eq_dec : EqDecision DbftValidationError.
Proof. solve_decision. Defined.

Inductive VerifiedSeal : Type :=
| VerifiedEcdsa (signers : list Address)
| VerifiedThreshold.

Section validation.
Context `{AlloyRlp, Crypto, Blst}.

Definition unsigned_header (header : Header) : result DbftExtraError Header :=
  let? prefix := DbftExtra.hashable_prefix (extra_data header) in
  Ok {| parent_hash := parent_hash header; ommers_hash := ommers_hash header;
        beneficiary := beneficiary header; state_root := state_root header;
        transactions_root := transactions_root header; receipts_root := receipts_root header;
        logs_bloom := logs_bloom header; difficulty := difficulty header;
        number := number header; gas_limit := gas_limit header; gas_used := gas_used header;
        timestamp := timestamp header; extra_data := prefix; mix_hash := mix_hash header;
        nonce := nonce header; base_fee_per_gas := base_fee_per_gas header;
        withdrawals_root := withdrawals_root header; blob_gas_used := blob_gas_used header;
        excess_blob_gas := excess_blob_gas header;
        parent_beacon_block_root := parent_beacon_block_root header;
        requests_hash := requests_hash header;
        block_access_list_hash := None; slot_number := None |}.

Definition ecdsa_seal_hash (header : Header) : result DbftExtraError B256 :=
  let? unsigned := unsigned_header header in Ok (hash_slow unsigned).

Definition threshold_seal_message (header : Header) : result DbftExtraError bytes :=
  let? unsigned := unsigned_header header in Ok (enc rlp_header unsigned).

Definition validate_parent_consensus (child parent : DbftExtra.t) (parent_next_consensus : B256)
    : result DbftValidationError unit :=
  let? (expected, actual) :=
    match DbftExtra.signature_scheme child with
    | Ecdsa =>
        let? validators := ok_or (DbftExtra.validators child) WrongScheme in
        let? expected :=
          if bool_decide (DbftExtra.version child = V0) || bool_decide (DbftExtra.version parent = V0)
          then Ok parent_next_consensus
          else ok_or (DbftExtra.fallback_next_consensus parent) MissingFallbackNextConsensus in
        Ok (expected, next_consensus_hash validators)
    | Threshold =>
        let? public_key := ok_or (DbftExtra.threshold_public_key child) WrongScheme in
        Ok (parent_next_consensus, keccak256 public_key)
    end in
  if bool_decide (expected = actual) then Ok tt
  else Err (NextConsensusMismatch expected actual).

(** One iteration of the recovery loop. *)
Definition recover_signer (seal_hash : B256) (index : N) (raw : bytes)
    : result DbftValidationError Address :=
  let? parity :=
    match nth 64 raw x00 with
    | x00 => Ok false
    | x01 => Ok true
    | value => Err (InvalidRecoveryId index value)
    end in
  ok_or (recover_address_from_prehash raw parity seal_hash) (InvalidSignature index).

Fixpoint recover_signers (seal_hash : B256) (index : N) (signatures : list bytes)
    : result DbftValidationError (list Address) :=
  match signatures with
  | [] => Ok []
  | raw :: rest =>
      let? signer := recover_signer seal_hash index raw in
      let? signers := recover_signers seal_hash (index + 1) rest in
      Ok (signer :: signers)
  end.

(** The inner [while]: advance [allowed_index] past the first match; what is
    left of [allowed] is the list from the new index on. *)
Fixpoint advance_past (signer : Address) (allowed : list Address) : option (list Address) :=
  match allowed with
  | [] => None
  | a :: rest => if bool_decide (a = signer) then Some rest else advance_past signer rest
  end.

Fixpoint monotonic_merge (recovered allowed : list Address) : result DbftValidationError unit :=
  match recovered with
  | [] => Ok tt
  | signer :: rest =>
      match advance_past signer allowed with
      | None => Err (UnauthorizedSigner signer)
      | Some allowed => monotonic_merge rest allowed
      end
  end.

Definition verify_ecdsa_signatures (seal_hash : B256) (extra : DbftExtra.t)
    : result DbftValidationError (list Address) :=
  let? validators := ok_or (DbftExtra.validators extra) WrongScheme in
  let? signatures := ok_or (DbftExtra.signatures extra) WrongScheme in
  let allowed := sort_bytes validators in
  if bool_decide (head allowed = Some ZERO_ADDRESS) then Err ZeroValidator
  else
    match adjacent_repeat allowed with
    | Some duplicate => Err (DuplicateValidator duplicate)
    | None =>
        let? recovered := recover_signers seal_hash 0 signatures in
        let recovered := sort_bytes recovered in
        match adjacent_repeat recovered with
        | Some duplicate => Err (DuplicateSigner duplicate)
        | None =>
            let? _ := monotonic_merge recovered allowed in
            Ok recovered
        end
    end.

Definition decode_threshold_points (public_key signature : bytes)
    : result DbftValidationError (bls_public_key * bls_signature) :=
  let? public_key := ok_or (bls_key_validate public_key) InvalidThresholdPublicKey in
  let? signature := ok_or (bls_sig_validate signature) InvalidThresholdSignature in
  Ok (public_key, signature).

Definition validate_threshold_public_key (public_key : bytes) : result DbftValidationError unit :=
  let? _ := ok_or (bls_key_validate public_key) InvalidThresholdPublicKey in Ok tt.

Definition validate_threshold_points (public_key signature : bytes)
    : result DbftValidationError unit :=
  let? _ := decode_threshold_points public_key signature in Ok tt.

(** [signature_bytes[0] ^= 0x20] *)
Definition flip_sort_bit (signature : bytes) : bytes :=
  match signature with
  | [] => []
  | b :: rest => byte_of (N.lxor (Byte.to_N b) 32) :: rest
  end.

Definition verify_threshold_signature (header : Header) (extra : DbftExtra.t)
    : result DbftValidationError unit :=
  let? public_key_bytes := ok_or (DbftExtra.threshold_public_key extra) WrongScheme in
  let? signature_bytes := ok_or (DbftExtra.threshold_signature extra) WrongScheme in
  let signature_bytes :=
    if bool_decide (DbftExtra.version extra = V1) then flip_sort_bit signature_bytes
    else signature_bytes in
  let? (public_key, signature) := decode_threshold_points public_key_bytes signature_bytes in
  let? message := map_err ExtraErr (threshold_seal_message header) in
  if bls_verify signature message TPKE_BLS_DST public_key then Ok tt
  else Err InvalidThresholdSignature.

Definition validate_expected_difficulty (header : Header) (primary standby_validator_count : N)
    : result DbftValidationError unit :=
  if standby_validator_count =? 0 then Err EmptyStandbyValidatorSet
  else
    let expected_difficulty :=
      if number header mod standby_validator_count =? primary
      then DIFFICULTY_IN_TURN else DIFFICULTY_OUT_OF_TURN in
    if negb (difficulty header =? expected_difficulty)
    then Err (WrongDifficulty expected_difficulty (difficulty header))
    else Ok tt.

Definition validate_difficulty (header : Header) (standby_validator_count : N)
    : result DbftValidationError unit :=
  let primary := as_u8 (N_of_be (nonce header)) in
  validate_expected_difficulty header primary standby_validator_count.

Definition validate_proposal_primary (header : Header) (expected_primary standby_validator_count : N)
    : result DbftValidationError unit :=
  let actual_primary := N_of_be (nonce header) in
  if negb (actual_primary =? expected_primary)
  then Err (WrongPrimary expected_primary actual_primary)
  else validate_expected_difficulty header expected_primary standby_validator_count.

Definition validate_header_against_parent (header parent : Header)
    (validator_count standby_validator_count : N) : result DbftValidationError DbftExtra.t :=
  let? extra := map_err ExtraErr (DbftExtra.decode (extra_data header) validator_count) in
  let? parent_extra := map_err ExtraErr (DbftExtra.decode (extra_data parent) validator_count) in
  let? _ := validate_parent_consensus extra parent_extra (mix_hash parent) in
  let? _ := validate_difficulty header standby_validator_count in
  Ok extra.

Definition validate_ecdsa_header (header parent : Header)
    (validator_count standby_validator_count : N) : result DbftValidationError (list Address) :=
  let? extra :=
    validate_header_against_parent header parent validator_count standby_validator_count in
  let? seal_hash := map_err ExtraErr (ecdsa_seal_hash header) in
  verify_ecdsa_signatures seal_hash extra.

Definition validate_header (header parent : Header) (validator_count standby_validator_count : N)
    : result DbftValidationError VerifiedSeal :=
  let? extra :=
    validate_header_against_parent header parent validator_count standby_validator_count in
  match DbftExtra.signature_scheme extra with
  | Ecdsa =>
      let? seal_hash := map_err ExtraErr (ecdsa_seal_hash header) in
      let? signers := verify_ecdsa_signatures seal_hash extra in
      Ok (VerifiedEcdsa signers)
  | Threshold =>
      let? _ := verify_threshold_signature header extra in
      Ok VerifiedThreshold
  end.

End validation.

(** ** Declarative reading of the ECDSA check *)

Section specification.
Context `{AlloyRlp, Crypto}.

(** [signer] is who signed [seal_hash] with the recoverable signature [raw]. *)
Definition signed_by (seal_hash : B256) (raw : bytes) (signer : Address) : Prop :=
  (nth 64 raw x00 = x00 /\ recover_address_from_prehash raw false seal_hash = Some signer) \/
  (nth 64 raw x00 = x01 /\ recover_address_from_prehash raw true seal_hash = Some signer).

(** What a quorum certificate is: distinct nonzero validators, and one valid
    signature of a distinct validator for each slot. *)
Definition certifies (seal_hash : B256) (validators : list Address) (signatures : list bytes)
    (signers : list Address) : Prop :=
  NoDup validators /\ ZERO_ADDRESS ∉ validators /\
  NoDup signers /\ signers ⊆ validators /\
  exists recovered, Forall2 (signed_by seal_hash) signatures recovered /\
                    signers = sort_bytes recovered.

(** The validator list a header carries in its ECDSA seal, and who signed it. *)
Definition header_validators (n : N) (header : Header) : list Address :=
  match DbftExtra.decode (extra_data header) n with
  | Ok extra => default [] (DbftExtra.validators extra)
  | Err _ => []
  end.

Definition header_signed_by (n : N) (header : Header) (signer : Address) : Prop :=
  exists extra signatures seal_hash raw,
    DbftExtra.decode (extra_data header) n = Ok extra /\
    DbftExtra.signatures extra = Some signatures /\
    ecdsa_seal_hash header = Ok seal_hash /\
    raw ∈ signatures /\ signed_by seal_hash raw signer.

End specification.

Section proofs.
Context `{AlloyRlp, Crypto, Blst}.

Lemma recover_signer_Ok seal_hash index raw signer :
  recover_signer seal_hash index raw = Ok signer <-> signed_by seal_hash raw signer.
Proof.
  unfold recover_signer, signed_by.
  destruct (nth 64 raw x00); simpl;
    try (split; [done|by intros [[? _]|[? _]]]);
    destruct (recover_address_from_prehash raw _ seal_hash); simpl; naive_solver.
Qed.

Lemma recover_signers_Ok seal_hash index signatures signers :
  recover_signers seal_hash index signatures = Ok signers <->
  Forall2 (signed_by seal_hash) signatures signers.
Proof.
  revert index signers. induction signatures as [|raw sigs IH]; intros index signers; simpl.
  - split; [intros [= <-]; constructor|by inversion 1].
  - split.
    + intros Hr. bind_inv. constructor; [by eapply recover_signer_Ok|by eapply IH].
    + inversion 1 as [|? s ? ss Hs Hss]; subst.
      apply (recover_signer_Ok _ index) in Hs. apply (IH (index + 1)) in Hss.
      by rewrite Hs; simpl; rewrite Hss.
Qed.

Lemma advance_past_Some signer allowed rest :
  advance_past signer allowed = Some rest -> exists skipped, allowed = skipped ++ signer :: rest.
Proof.
  induction allowed as [|a allowed IH]; simpl; [done|].
  case_bool_decide as Ha.
  - intros [= <-]. subst. by exists [].
  - intros [sk ->]%IH. by exists (a :: sk).
Qed.

Lemma advance_past_elem signer allowed :
  signer ∈ allowed -> is_Some (advance_past signer allowed).
Proof.
  induction allowed as [|a allowed IH]; simpl; [by intros ?%not_elem_of_nil|].
  case_bool_decide; [eauto|]. intros [->|?]%elem_of_cons; [done|eauto].
Qed.

(** Everything after the match in a sorted set is what is above it. *)
Lemma advance_past_above allowed signer rest x :
  StronglySorted bytes_le allowed -> advance_past signer allowed = Some rest ->
  x ∈ allowed -> bytes_le signer x -> x <> signer -> x ∈ rest.
Proof.
  intros Hs Ha Hx Hle Hne. apply advance_past_Some in Ha as [sk ->].
  apply elem_of_app in Hx as [Hx|[->|Hx]%elem_of_cons]; [|done|done].
  exfalso. apply Hne. apply (anti_symm bytes_le); [|done].
  clear Hle Hne. induction sk as [|a sk IH]; [by apply not_elem_of_nil in Hx|].
  simpl in Hs. apply StronglySorted_inv in Hs as [Hs Hf].
  apply elem_of_cons in Hx as [->|Hx]; [|auto].
  rewrite Forall_forall in Hf. apply Hf. set_solver.
Qed.

Lemma StronglySorted_suffix {A} (R : relation A) l k :
  StronglySorted R (l ++ k) -> StronglySorted R k.
Proof. induction l; simpl; [done|]. intros [? _]%StronglySorted_inv. auto. Qed.

(** On sorted sets the monotonic merge is the subset test. *)
Lemma monotonic_merge_Ok recovered allowed :
  StronglySorted bytes_le recovered -> NoDup recovered -> StronglySorted bytes_le allowed ->
  monotonic_merge recovered allowed = Ok tt <-> recovered ⊆ allowed.
Proof.
  revert allowed. induction recovered as [|s rec IH]; intros allowed Hr Hn Ha; simpl.
  - split; [set_solver|done].
  - apply StronglySorted_inv in Hr as [Hr Hf]. apply NoDup_cons in Hn as [Hs Hn].
    destruct (advance_past s allowed) as [rest|] eqn:E.
    + pose proof (advance_past_Some _ _ _ E) as [sk Hsk].
      assert (Hrest : StronglySorted bytes_le rest).
      { rewrite Hsk in Ha. apply StronglySorted_suffix, StronglySorted_inv in Ha. tauto. }
      rewrite (IH rest Hr Hn Hrest). split.
      * intros Hsub x [->|Hx]%elem_of_cons; subst allowed; set_solver.
      * intros Hsub x Hx. rewrite Forall_forall in Hf.
        apply (advance_past_above allowed s rest x Ha E); [|auto|by intros ->].
        apply Hsub. by right.
    + split; [done|]. intros Hsub. exfalso.
      assert (Hin : s ∈ allowed) by (apply Hsub; set_solver).
      apply advance_past_elem in Hin as [? ?]. congruence.
Qed.

Lemma zero_le a : length a = ADDRESS_LEN -> bytes_le ZERO_ADDRESS a.
Proof.
  unfold ZERO_ADDRESS. generalize ADDRESS_LEN as n. intros n Hn. subst n.
  unfold bytes_le. induction a as [|b a IH]; simpl; [done|].
  destruct (N.ltb_spec 0 (Byte.to_N b)); [done|].
  destruct (N.ltb_spec (Byte.to_N b) 0); [lia|done].
Qed.

(** The zero address sorts first, so testing the first element finds it. *)
Lemma head_zero validators :
  Forall (fun a => length a = ADDRESS_LEN) validators ->
  head (sort_bytes validators) = Some ZERO_ADDRESS <-> ZERO_ADDRESS ∈ validators.
Proof.
  intros Hw. rewrite <- (sort_bytes_elem ZERO_ADDRESS validators).
  assert (Hw' : Forall (fun a => length a = ADDRESS_LEN) (sort_bytes validators))
    by (by rewrite sort_bytes_perm).
  pose proof (sort_bytes_sorted validators) as Hs.
  destruct (sort_bytes validators) as [|a l]; simpl; [split; [done|by intros ?%not_elem_of_nil]|].
  split; [intros [= ->]; set_solver|]. intros [->|Hin]%elem_of_cons; [done|]. f_equal.
  apply StronglySorted_inv in Hs as [_ Hf]. rewrite Forall_forall in Hf.
  apply (anti_symm bytes_le); [auto|]. apply zero_le. by apply Forall_inv in Hw'.
Qed.

Lemma verify_ecdsa_signatures_Ok seal_hash extra validators signatures signers :
  DbftExtra.validators extra = Some validators ->
  DbftExtra.signatures extra = Some signatures ->
  Forall (fun a => length a = ADDRESS_LEN) validators ->
  verify_ecdsa_signatures seal_hash extra = Ok signers <->
  certifies seal_hash validators signatures signers.
Proof.
  intros Hv Hs Hw. unfold verify_ecdsa_signatures, certifies. rewrite Hv, Hs. simpl.
  case_bool_decide as Hz; rewrite (head_zero _ Hw) in Hz; [naive_solver|].
  destruct (adjacent_repeat (sort_bytes validators)) eqn:Ed.
  { apply adjacent_repeat_Some in Ed as [Hd _]. rewrite sort_bytes_NoDup in Hd. naive_solver. }
  apply (adjacent_repeat_None bytes_le) in Ed; [|apply _|apply sort_bytes_sorted].
  rewrite sort_bytes_NoDup in Ed.
  split.
  - intros Hok. bind_inv. rename x into rec. destruct (adjacent_repeat (sort_bytes rec)) eqn:Er;
      [done|]. bind_inv. apply (adjacent_repeat_None bytes_le) in Er;
      [|apply _|apply sort_bytes_sorted].
    destruct x. match goal with Hm : monotonic_merge _ _ = Ok _ |- _ =>
      apply monotonic_merge_Ok in Hm; [|apply sort_bytes_sorted|done|apply sort_bytes_sorted] end.
    split_and!; try done.
    + intros y Hy. apply sort_bytes_elem. auto.
    + exists rec. split; [|done]. by eapply recover_signers_Ok.
  - intros (_ & _ & Hn & Hsub & rec & Hrec & ->).
    apply (recover_signers_Ok _ 0) in Hrec. rewrite Hrec. simpl.
    destruct (adjacent_repeat (sort_bytes rec)) eqn:Er.
    { apply adjacent_repeat_Some in Er as [Hd _]. done. }
    rewrite (proj2 (monotonic_merge_Ok (sort_bytes rec) (sort_bytes validators)
      (sort_bytes_sorted _) Hn (sort_bytes_sorted _))); [done|].
    intros y Hy. apply sort_bytes_elem. auto.
Qed.

(** A decoded seal that verifies carries a certificate of exactly a quorum. *)
Lemma verified_quorum raw n extra validators seal_hash signers :
  DbftExtra.decode raw n = Ok extra -> DbftExtra.validators extra = Some validators ->
  verify_ecdsa_signatures seal_hash extra = Ok signers ->
  exists signatures, DbftExtra.signatures extra = Some signatures /\
    certifies seal_hash validators signatures signers /\
    lenN validators = n /\ n <> 0 /\ lenN signers = bft_honest_node_count n /\
    (forall a, a ∈ signers -> exists raw, raw ∈ signatures /\ signed_by seal_hash raw a).
Proof.
  intros Hd Hv Hok. destruct (decode_encodes _ _ _ Hd) as (Hw & He & Hn).
  specialize (Hn _ Hv). destruct extra as [v f vs ss|]; [|done]. injection Hv as ->.
  destruct Hw as (_ & Hwv & _). exists ss. split; [done|].
  pose proof (proj1 (verify_ecdsa_signatures_Ok seal_hash
    (DbftExtra.EcdsaSeal v f validators ss) validators ss signers
    eq_refl eq_refl Hwv) Hok) as Hc.
  pose proof Hc as (_ & _ & Hns & Hsub & rec & Hrec & ->).
  simpl in He. bind_inv. case_bool_decide as Hne; [done|]. case_match eqn:Hq; [done|].
  apply negb_false_iff, N.eqb_eq in Hq. rewrite Hn in Hq.
  split_and!; try done.
  - intros ->. by destruct validators.
  - rewrite lenN_sort_bytes, <- Hq. unfold lenN. by rewrite (Forall2_length _ _ _ Hrec).
  - intros a Ha. rewrite sort_bytes_elem in Ha.
    apply list_elem_of_lookup in Ha as [i Hi].
    destruct (Forall2_lookup_r _ _ _ _ _ Hrec Hi) as (raw' & Hraw & Hsig).
    exists raw'. split; [by eapply list_elem_of_lookup_2|done].
Qed.

Lemma validate_header_ecdsa_inv header parent n s signers :
  validate_header header parent n s = Ok (VerifiedEcdsa signers) ->
  exists extra parent_extra validators seal_hash,
    DbftExtra.decode (extra_data header) n = Ok extra /\
    DbftExtra.decode (extra_data parent) n = Ok parent_extra /\
    DbftExtra.validators extra = Some validators /\
    validate_parent_consensus extra parent_extra (mix_hash parent) = Ok tt /\
    validate_difficulty header s = Ok tt /\
    ecdsa_seal_hash header = Ok seal_hash /\
    verify_ecdsa_signatures seal_hash extra = Ok signers.
Proof.
  unfold validate_header, validate_header_against_parent. intros Hv. bind_inv.
  match goal with Hd : DbftExtra.decode (extra_data header) n = Ok ?x |- _ =>
    rename x into extra; rename Hd into Hex end.
  destruct extra as [v f vs ss|v f pk sg]; simpl in Hv; bind_inv; try done.
  repeat match goal with x : unit |- _ => destruct x end.
  eexists _, _, vs, _. split_and!; eauto.
Qed.

Lemma concat_inj_width k (l l' : list bytes) :
  k <> O -> Forall (fun x => length x = k) l -> Forall (fun x => length x = k) l' ->
  concat l = concat l' -> l = l'.
Proof.
  intros Hk Hl Hl' E. rewrite <- (as_chunks_concat k l), <- (as_chunks_concat k l'); congruence.
Qed.

(** The commitment an ECDSA child of [parent] with this version must open. *)
Lemma parent_link_ecdsa child parent next validators :
  DbftExtra.validators child = Some validators ->
  validate_parent_consensus child parent next = Ok tt ->
  Some (next_consensus_hash validators) =
    (if bool_decide (DbftExtra.version child = V0) || bool_decide (DbftExtra.version parent = V0)
     then Some next else DbftExtra.fallback_next_consensus parent).
Proof.
  destruct child as [v f vs ss|]; [|done]. intros [= ->] Hl.
  unfold validate_parent_consensus in Hl. simpl in *.
  destruct (bool_decide (v = V0) || bool_decide (DbftExtra.version parent = V0)); simpl in Hl.
  - case_bool_decide; [congruence|done].
  - destruct (DbftExtra.fallback_next_consensus parent); simpl in Hl; [|done].
    case_bool_decide; [congruence|done].
Qed.

Lemma two_quorums_overlap n validators (l k : list Address) :
  n <> 0 -> lenN validators = n -> NoDup validators ->
  NoDup l -> NoDup k -> l ⊆ validators -> k ⊆ validators ->
  lenN l = bft_honest_node_count n -> lenN k = bft_honest_node_count n ->
  exists both, NoDup both /\ (forall a, a ∈ both -> a ∈ l /\ a ∈ k) /\ (n - 1) / 3 < lenN both.
Proof.
  intros Hn Hv Hnv Hnl Hnk Hl Hk Ll Lk. exists (filter (.∈ k) l). split_and!.
  - by apply NoDup_filter.
  - intros a [? ?]%list_elem_of_filter. done.
  - pose proof (NoDup_incl_overlap validators l k Hnl Hnk Hl Hk Hnv).
    destruct (bft_honest_node_count_fault n Hn) as (_ & _ & Hq).
    set (f := (n - 1) / 3) in *. clearbody f. unfold lenN in *. lia.
Qed.

Lemma header_validators_inj n h1 h2 e1 e2 vs1 vs2 :
  DbftExtra.decode (extra_data h1) n = Ok e1 -> DbftExtra.decode (extra_data h2) n = Ok e2 ->
  DbftExtra.validators e1 = Some vs1 -> DbftExtra.validators e2 = Some vs2 ->
  concat (header_validators n h1) = concat (header_validators n h2) -> vs1 = vs2.
Proof.
  intros D1 D2 V1 V2. unfold header_validators. rewrite D1, D2, V1, V2. simpl.
  apply decode_encodes in D1 as [W1 _], D2 as [W2 _].
  destruct e1, e2; simpl in *; try done. simplify_eq.
  destruct W1 as (_ & W1 & _), W2 as (_ & W2 & _).
  by apply (concat_inj_width (N.to_nat ADDRESS_LEN_BYTES)).
Qed.

Lemma decode_version h n e :
  DbftExtra.decode h n = Ok e -> head h = Some (extra_version_as_u8 (DbftExtra.version e)).
Proof.
  intros [_ [He _]]%decode_encodes. destruct e as [v f vs ss|v f pk sg]; simpl in He.
  - bind_inv. repeat (case_match; try done). all: bind_inv; simplify_eq/=; bind_inv; done.
  - destruct v; naive_solver.
Qed.

Lemma extra_version_as_u8_inj v w : extra_version_as_u8 v = extra_version_as_u8 w -> v = w.
Proof. by destruct v, w. Qed.

(** The seal hash covers the prefix, so headers alike up to their seals have one. *)
Lemma extra_same_prefix r1 r2 n e1 e2 :
  DbftExtra.decode r1 n = Ok e1 -> DbftExtra.decode r2 n = Ok e2 ->
  DbftExtra.hashable_prefix r1 = DbftExtra.hashable_prefix r2 -> prefix_of e1 = prefix_of e2.
Proof.
  intros (W1 & T1 & _)%decode_encodes (W2 & T2 & _)%decode_encodes Hh.
  destruct (try_encode_prefix _ _ W1 T1) as (pre1 & E1 & Hp1 & D1), (try_encode_prefix _ _ W2 T2) as (pre2 & E2 & Hp2 & D2).
  assert (pre1 = pre2) as <- by congruence.
  apply prefix_decode_inv in D1 as (_ & _ & _ & _ & _ & S1), D2 as (_ & _ & _ & _ & _ & S2).
  destruct (prefix_encode_decode _ _ [] E1 S1) as [D1 _], (prefix_encode_decode _ _ [] E2 S2) as [D2 _]. congruence.
Qed.

Lemma unsigned_header_inv h1 h2 u :
  unsigned_header h1 = Ok u -> unsigned_header h2 = Ok u ->
  DbftExtra.hashable_prefix (extra_data h1) = DbftExtra.hashable_prefix (extra_data h2) /\
  mix_hash h1 = mix_hash h2 /\ parent_hash h1 = parent_hash h2 /\ number h1 = number h2.
Proof.
  unfold unsigned_header. intros U1 U2.
  apply result_bind_Ok in U1 as (p1 & E1 & [= <-]). apply result_bind_Ok in U2 as (p2 & E2 & U2).
  injection U2 as ? ? ? ? ? ? ? ? ? ? ? ? ? ? ? ? ? ? ? ? ?. split_and!; congruence.
Qed.

(** Two parents that commit to the same successors. *)
Definition same_parent (n : N) (parent1 parent2 : Header) : Prop :=
  mix_hash parent1 = mix_hash parent2 /\
  forall e1 e2, DbftExtra.decode (extra_data parent1) n = Ok e1 -> DbftExtra.decode (extra_data parent2) n = Ok e2 ->
    prefix_of e1 = prefix_of e2.

Lemma same_parent_refl n parent : same_parent n parent parent.
Proof. split; [done|]. intros e1 e2 D1 D2. rewrite D1 in D2. by injection D2 as <-. Qed.

Lemma same_parent_unsigned n parent1 parent2 u :
  unsigned_header parent1 = Ok u -> unsigned_header parent2 = Ok u -> same_parent n parent1 parent2.
Proof.
  intros U1 U2. destruct (unsigned_header_inv _ _ _ U1 U2) as (Hh & Hm & _ & _). split; [done|]. intros e1 e2 D1 D2.
  by apply (extra_same_prefix _ _ _ _ _ D1 D2).
Qed.

(** Who signed both of two valid children of such parents. *)
Lemma double_signers header1 header2 parent1 parent2 n s signers1 signers2 :
  same_parent n parent1 parent2 ->
  validate_header header1 parent1 n s = Ok (VerifiedEcdsa signers1) ->
  validate_header header2 parent2 n s = Ok (VerifiedEcdsa signers2) ->
  head (extra_data header1) = head (extra_data header2) ->
  (next_consensus_hash (header_validators n header1) =
     next_consensus_hash (header_validators n header2) ->
   concat (header_validators n header1) = concat (header_validators n header2)) ->
  exists both, NoDup both /\ (n - 1) / 3 < lenN both /\
    forall a, a ∈ both -> header_signed_by n header1 a /\ header_signed_by n header2 a.
Proof.
  intros [Hmix Hpre] (e1 & pe & vs1 & sh1 & D1 & P1 & V1' & L1 & _ & S1 & K1)%validate_header_ecdsa_inv
    (e2 & pe2 & vs2 & sh2 & D2 & P2 & V2' & L2 & _ & S2 & K2)%validate_header_ecdsa_inv Hh Hcoll.
  specialize (Hpre _ _ P1 P2). injection Hpre as Hpv Hps Hpf.
  pose proof (decode_version _ _ _ D1) as H1v. pose proof (decode_version _ _ _ D2) as H2v.
  assert (Hver : DbftExtra.version e1 = DbftExtra.version e2)
    by (apply extra_version_as_u8_inj; congruence).
  apply (parent_link_ecdsa _ _ _ _ V1') in L1. apply (parent_link_ecdsa _ _ _ _ V2') in L2.
  rewrite Hver, Hpv, Hpf, Hmix, <- L2 in L1. injection L1 as L1.
  assert (vs1 = vs2) as <-.
  { apply (header_validators_inj n header1 header2 e1 e2 vs1 vs2); try done. apply Hcoll.
    unfold header_validators. by rewrite D1, D2, V1', V2'. }
  destruct (verified_quorum _ _ _ _ _ _ D1 V1' K1) as (ss1 & Es1 & C1 & Hn & Hn0 & Q1 & G1).
  destruct (verified_quorum _ _ _ _ _ _ D2 V2' K2) as (ss2 & Es2 & C2 & _ & _ & Q2 & G2).
  destruct C1 as (Hnv & _ & N1 & B1 & _), C2 as (_ & _ & N2 & B2 & _).
  destruct (two_quorums_overlap n vs1 signers1 signers2) as (both & Nb & Hb & Hf); try done.
  exists both. split_and!; try done. intros a Ha. destruct (Hb a Ha) as [Ha1 Ha2].
  destruct (G1 a Ha1) as (r1 & ? & ?), (G2 a Ha2) as (r2 & ? & ?).
  split; [exists e1, ss1, sh1, r1|exists e2, ss2, sh2, r2]; done.
Qed.

(** Fork accountability: if two ECDSA-sealed children of one parent both pass
    header validation (with the same extra version, and Keccak not colliding on
    their two validator lists), more than f = (n-1)/3 distinct validators signed
    both seal hashes.  Two different children of one parent therefore never both
    validate while at most f validators equivocate. *)
Theorem ecdsa_fork_accountability header1 header2 parent n s signers1 signers2 :
  validate_header header1 parent n s = Ok (VerifiedEcdsa signers1) ->
  validate_header header2 parent n s = Ok (VerifiedEcdsa signers2) ->
  head (extra_data header1) = head (extra_data header2) ->
  (next_consensus_hash (header_validators n header1) =
     next_consensus_hash (header_validators n header2) ->
   concat (header_validators n header1) = concat (header_validators n header2)) ->
  exists both, NoDup both /\ (n - 1) / 3 < lenN both /\
    forall a, a ∈ both -> header_signed_by n header1 a /\ header_signed_by n header2 a.
Proof. apply double_signers, same_parent_refl. Qed.

(** The ECDSA seal check is exactly the quorum-certificate condition: on a
    decoded extra it succeeds with a signer list precisely when the validators
    are distinct and nonzero and every signature slot recovers to a distinct
    validator; the list is then the sorted signers, and its size is the quorum.
    The monotonic merge over the sorted lists is thereby a subset test. *)
Theorem verify_ecdsa_signatures_iff_certifies raw n extra validators signatures seal_hash signers :
  DbftExtra.decode raw n = Ok extra ->
  DbftExtra.validators extra = Some validators ->
  DbftExtra.signatures extra = Some signatures ->
  (verify_ecdsa_signatures seal_hash extra = Ok signers <->
   certifies seal_hash validators signatures signers) /\
  (verify_ecdsa_signatures seal_hash extra = Ok signers ->
   lenN signers = bft_honest_node_count n /\ lenN validators = n).
Proof.
  intros Hd Hv Hs. split.
  - apply verify_ecdsa_signatures_Ok; [done..|].
    apply decode_encodes in Hd as [Hw _]. destruct extra; [|done]. injection Hv as ->.
    by destruct Hw as (_ & Hw & _).
  - intros Hok. destruct (verified_quorum _ _ _ _ _ _ Hd Hv Hok) as (? & _ & _ & ? & _ & ? & _). done.
Qed.

(** The seal commits to the proposal and not to itself: writing any
    well-formed seal over a proposal's extra prefix changes neither the ECDSA
    seal hash nor the threshold seal message, so every validator signs, and every
    verifier rebuilds, the same bytes as the unsealed proposal. *)
Theorem seal_hash_ignores_seal header extra raw prefix :
  widths_ok extra -> DbftExtra.try_encode extra = Ok raw ->
  DbftExtraPrefix.encode (prefix_of extra) = Ok prefix ->
  let sealed := with_extra_data header raw in
  let proposal := with_extra_data header prefix in
  unsigned_header sealed = unsigned_header proposal /\
  ecdsa_seal_hash sealed = ecdsa_seal_hash proposal /\
  threshold_seal_message sealed = threshold_seal_message proposal /\
  exists hash, ecdsa_seal_hash sealed = Ok hash.
Proof.
  intros Hw He Hp sealed proposal.
  destruct (try_encode_prefix _ _ Hw He) as (pre & Hp' & Hh & Hd).
  assert (pre = prefix) as -> by congruence.
  assert (Hh' : DbftExtra.hashable_prefix prefix = Ok prefix).
  { apply prefix_decode_inv in Hd as (? & ? & _ & _ & _ & Hs).
    rewrite <- (app_nil_r prefix) at 1.
    by destruct (prefix_encode_decode _ _ [] Hp Hs) as (_ & ? & _). }
  assert (E : unsigned_header sealed = unsigned_header proposal)
    by (unfold unsigned_header; simpl; by rewrite Hh, Hh').
  unfold ecdsa_seal_hash, threshold_seal_message. rewrite E. split_and!; try done.
  unfold unsigned_header. simpl. rewrite Hh'. simpl. eauto.
Qed.

(** A proposal accepted for its primary also passes the static difficulty
    check run on the sealed header: the nonce is the primary, fits a byte, and
    the difficulty is 2 exactly when that primary is in turn. *)
Theorem proposal_primary_difficulty header primary standby :
  primary <= U8_MAX ->
  validate_proposal_primary header primary standby = Ok tt ->
  validate_difficulty header standby = Ok tt /\ N_of_be (nonce header) = primary /\
  difficulty header =
    (if number header mod standby =? primary then DIFFICULTY_IN_TURN else DIFFICULTY_OUT_OF_TURN).
Proof.
  unfold validate_proposal_primary, validate_difficulty. intros Hp Hv.
  destruct (N.eqb_spec (N_of_be (nonce header)) primary) as [->|]; [|done]. simpl in Hv.
  unfold as_u8. rewrite N.mod_small by (unfold U8_MAX in Hp; lia). split; [done|]. split; [done|].
  unfold validate_expected_difficulty in Hv. destruct (standby =? 0); [done|].
  destruct (N.eqb_spec (difficulty header)
    (if number header mod standby =? primary then DIFFICULTY_IN_TURN else DIFFICULTY_OUT_OF_TURN));
    [done|done].
Qed.

(** The V1 sort-bit flip is an involution on the signature bytes. *)
Lemma flip_sort_bit_involutive signature : flip_sort_bit (flip_sort_bit signature) = signature.
Proof.
  destruct signature as [|b t]; [done|]. simpl. f_equal. destruct b; vm_compute; reflexivity.
Qed.
End proofs.

(** ** Witnesses *)

Module ValidationWitness.
#[local] Existing Instance alloy_rlp.
#[local] Existing Instance model_crypto.
#[local] Existing Instance model_blst.

Definition signature : bytes := example_address ++ repeat x00 45.
Definition extra : DbftExtra.t := DbftExtra.EcdsaSeal V0 None [example_address] [signature].
Definition raw : bytes := x00 :: example_address ++ signature.
Definition parent : Header :=
  model_header 0 0 2 (next_consensus_hash [example_address]) example_extra_raw.
Definition child : Header := model_header 1 0 2 ZERO_B256 raw.
Definition rival : Header := model_header 2 0 2 ZERO_B256 raw.

Lemma ecdsa_fork_accountability_witness :
  exists both, NoDup both /\ (1 - 1) / 3 < lenN both /\
    forall a, a ∈ both -> header_signed_by 1 child a /\ header_signed_by 1 rival a.
Proof.
  apply (ecdsa_fork_accountability child rival parent 1 1 [example_address] [example_address]);
    [vm_compute; reflexivity|vm_compute; reflexivity|reflexivity|intros _; reflexivity].
Defined.

Lemma verify_ecdsa_signatures_iff_certifies_witness :
  certifies ZERO_B256 [example_address] [signature] [example_address].
Proof.
  apply (verify_ecdsa_signatures_iff_certifies raw 1 extra [example_address] [signature]
    ZERO_B256 [example_address]); vm_compute; reflexivity.
Defined.

Lemma seal_hash_ignores_seal_witness :
  unsigned_header (with_extra_data child raw) = unsigned_header (with_extra_data child [x00]).
Proof.
  apply (seal_hash_ignores_seal child extra raw [x00]);
    [split_and!; [done|by repeat constructor|by repeat constructor]
    |vm_compute; reflexivity|reflexivity].
Defined.

Lemma proposal_primary_difficulty_witness : validate_difficulty child 1 = Ok tt.
Proof.
  apply (proposal_primary_difficulty child 0 1); [vm_compute; discriminate|vm_compute; reflexivity].
Defined.
End ValidationWitness.
