(* ===== verification/ChainSpec.v ===== *)
(** The chain specification (crates/neox/chainspec/src): the Neo X fork schedule, the
    version of [extraData] at a height, and the checks a genesis must pass. *)

From S2P Require Import Prelude Extern Instances Extra Validation.

(** ** Constants and configuration *)

Definition NEOX_MAX_VALIDATOR_COUNT : N := U8_MAX + 1.
Definition NEOX_FORK_NEVER : N := U64_MAX.

Record DbftConfig : Type := mkDbftConfig {
  period : N;
  standby_validators : list Address;
  coinbase : Address;
}.

Record NeoXGenesisConfig : Type := mkNeoXGenesisConfig {
  dkg_block : N;
  anti_mev_block : N;
  eth_signature_block : N;
  pkcs7_strict_block : option N;
  dbft : DbftConfig;
}.

Definition validator_count (c : NeoXGenesisConfig) : N := lenN (standby_validators (dbft c)).
Definition has_expected_validator_count (c : NeoXGenesisConfig) : bool :=
  (0 <? validator_count c) && (validator_count c <=? NEOX_MAX_VALIDATOR_COUNT).

Inductive NeoXHardfork : Type := ForkDkg | ForkAntiMev | ForkEthSignature | ForkPkcs7Strict.

(** [alloy_eips::eip7840::BlobParams]: the blob gas ceiling and the excess-blob-gas rule. *)
Class BlobSchedule : Type := {
  blob_params : Type;
  (** [BlobParams::cancun()] *)
  cancun_params : blob_params;
  max_blob_gas_per_block : blob_params -> N;
  next_block_excess_blob_gas_osaka : blob_params -> N -> N -> N -> N;
}.

(** What the Ethereum specification behind a Neo X one answers. *)
Record EthChainSpec `{BlobSchedule} : Type := mkEthChainSpec {
  is_london_active_at_block : N -> bool;
  is_paris_active_at_block : N -> bool;
  is_shanghai_active_at_timestamp : N -> bool;
  is_cancun_active_at_timestamp : N -> bool;
  is_prague_active_at_timestamp : N -> bool;
  is_amsterdam_active_at_timestamp : N -> bool;
  is_osaka_active_at_timestamp : N -> bool;
  is_byzantium_active_at_block : N -> bool;
  blob_params_at_timestamp : N -> option blob_params;
  elasticity_multiplier : N -> N;
}.

(** A genesis file: its extension fields when they parse, and the two fields of the
    header that commit to the consensus. *)
Record Genesis : Type := mkGenesis {
  genesis_config : option NeoXGenesisConfig;
  genesis_extra_data : bytes;
  genesis_mix_hash : B256;
}.

Record NeoXChainSpec `{BlobSchedule} : Type := mkNeoXChainSpec {
  inner : EthChainSpec;
  genesis : Genesis;
  neox : NeoXGenesisConfig;
}.

Inductive NeoXChainSpecError : Type :=
| InvalidExtension
| GenesisValidatorCount (expected actual : N)
| ZeroBlockPeriod
| ZeroCoinbase
| ZeroGenesisValidator (index : N)
| DuplicateGenesisValidator (address : Address)
| InvalidDbftGenesisExtra (e : DbftExtraError)
| InvalidDbftGenesisThreshold (e : DbftValidationError)
| DbftGenesisConsensusMismatch (expected actual : B256)
| ChainSpecPanic.

Section chainspec.
Context `{BlobSchedule}.

(** ** Forks *)

(** The block a fork is installed at; a fork that is not scheduled is not installed. *)
Definition neox_fork (spec : NeoXChainSpec) (fork : NeoXHardfork) : option N :=
  let scheduled block := if block =? NEOX_FORK_NEVER then None else Some block in
  match fork with
  | ForkDkg => scheduled (dkg_block (neox spec))
  | ForkAntiMev => scheduled (anti_mev_block (neox spec))
  | ForkEthSignature => scheduled (eth_signature_block (neox spec))
  | ForkPkcs7Strict => pkcs7_strict_block (neox spec)
  end.

Definition is_fork_active_at_block (spec : NeoXChainSpec) (fork : NeoXHardfork) (block_number : N) : bool :=
  match neox_fork spec fork with Some block => block <=? block_number | None => false end.

Definition extra_version_at_block (spec : NeoXChainSpec) (block_number : N) : ExtraVersion :=
  let next_block := saturating_add U64_MAX block_number 1 in
  if is_fork_active_at_block spec ForkEthSignature block_number ||
     is_fork_active_at_block spec ForkEthSignature next_block
  then V2
  else if is_fork_active_at_block spec ForkAntiMev block_number ||
          is_fork_active_at_block spec ForkAntiMev next_block
  then V1
  else V0.

Definition anti_mev_active_at_block (spec : NeoXChainSpec) (block_number : N) : bool :=
  is_fork_active_at_block spec ForkAntiMev block_number.
Definition is_pkcs7_strict_active_at_block (spec : NeoXChainSpec) (block_number : N) : bool :=
  is_fork_active_at_block spec ForkPkcs7Strict block_number.
End chainspec.

(** ** Genesis *)

(** [validators.iter().position(|v| *v == Address::ZERO)] *)
Fixpoint zero_position (index : N) (vs : list Address) : option N :=
  match vs with
  | [] => None
  | v :: vs => if bool_decide (v = ZERO_ADDRESS) then Some index else zero_position (index + 1) vs
  end.

Definition validate_validator_set (vs : list Address) : result NeoXChainSpecError unit :=
  match zero_position 0 vs with
  | Some index => Err (ZeroGenesisValidator index)
  | None =>
      match adjacent_repeat (sort_bytes vs) with
      | Some duplicate => Err (DuplicateGenesisValidator duplicate)
      | None => Ok tt
      end
  end.

Section genesis.
Context `{Crypto, Blst, BlobSchedule}.

(** The compressed point at infinity, the threshold signature of a genesis. *)
Definition infinity_sentinel (signature : bytes) : bool :=
  match signature with b :: rest => bool_decide (b = xc0) && forallb (Byte.eqb x00) rest | [] => false end.

Definition validate_explicit_dbft_genesis (g : Genesis) : result NeoXChainSpecError unit :=
  let? config := ok_or (genesis_config g) InvalidExtension in
  let? extra := map_err InvalidDbftGenesisExtra (DbftExtra.decode (genesis_extra_data g) (validator_count config)) in
  let? _ := match DbftExtra.validators extra with Some vs => validate_validator_set vs | None => Ok tt end in
  let? expected :=
    match DbftExtra.threshold_public_key extra with
    | Some public_key =>
        let? signature := ok_or (DbftExtra.threshold_signature extra) ChainSpecPanic in
        let? _ := map_err InvalidDbftGenesisThreshold
          (if infinity_sentinel signature then validate_threshold_public_key public_key
           else validate_threshold_points public_key signature) in
        Ok (keccak256 public_key)
    | None =>
        let? vs := ok_or (DbftExtra.validators extra) ChainSpecPanic in Ok (next_consensus_hash vs)
    end in
  if negb (bool_decide (genesis_mix_hash g = expected))
  then Err (DbftGenesisConsensusMismatch expected (genesis_mix_hash g))
  else Ok tt.

(** [ethereum] is the Ethereum specification of the completed genesis. *)
Definition from_genesis (ethereum : Genesis -> EthChainSpec) (g : Genesis)
    : result NeoXChainSpecError NeoXChainSpec :=
  let? neox := ok_or (genesis_config g) InvalidExtension in
  if negb (has_expected_validator_count neox)
  then Err (GenesisValidatorCount NEOX_MAX_VALIDATOR_COUNT (validator_count neox))
  else if period (dbft neox) =? 0 then Err ZeroBlockPeriod
  else if bool_decide (coinbase (dbft neox) = ZERO_ADDRESS) then Err ZeroCoinbase
  else
    let? _ := validate_validator_set (standby_validators (dbft neox)) in
    let default_extra := DbftExtra.genesis_v0 (standby_validators (dbft neox)) in
    let? extra_data :=
      match genesis_extra_data g with
      | [] => map_err InvalidDbftGenesisExtra (DbftExtra.try_encode default_extra)
      | extra_data => Ok extra_data
      end in
    let? mix_hash :=
      if bool_decide (genesis_mix_hash g = ZERO_B256)
      then let? vs := ok_or (DbftExtra.validators default_extra) ChainSpecPanic in Ok (next_consensus_hash vs)
      else Ok (genesis_mix_hash g) in
    let g := mkGenesis (genesis_config g) extra_data mix_hash in
    let? _ := validate_explicit_dbft_genesis g in
    Ok (mkNeoXChainSpec _ (ethereum g) g neox).
End genesis.

(** ** What a chain specification guarantees *)

Section facts.
Context {S : BlobSchedule}.

Lemma fork_stays_active spec fork a b :
  a <= b -> is_fork_active_at_block spec fork a = true -> is_fork_active_at_block spec fork b = true.
Proof.
  unfold is_fork_active_at_block. destruct (neox_fork spec fork) as [n|]; [|done].
  intros Hab Hn%N.leb_le. apply N.leb_le. lia.
Qed.

Lemma fork_active_next spec fork n :
  n < U64_MAX ->
  is_fork_active_at_block spec fork n || is_fork_active_at_block spec fork (saturating_add U64_MAX n 1) =
  is_fork_active_at_block spec fork (n + 1).
Proof.
  intros Hn. replace (saturating_add U64_MAX n 1) with (n + 1) by (unfold saturating_add; lia).
  destruct (is_fork_active_at_block spec fork n) eqn:E; [|done].
  by rewrite (fork_stays_active spec fork n (n + 1)) by (done || lia).
Qed.

(** Below the last height the version is decided by the forks of the next block. *)
Lemma extra_version_next spec n :
  n < U64_MAX ->
  extra_version_at_block spec n =
  if is_fork_active_at_block spec ForkEthSignature (n + 1) then V2
  else if is_fork_active_at_block spec ForkAntiMev (n + 1) then V1 else V0.
Proof. intros Hn. unfold extra_version_at_block. by rewrite !fork_active_next. Qed.

(** A block of version 0 has no Anti-MEV successor. *)
Lemma extra_v0_next_ecdsa spec n :
  n < U64_MAX -> extra_version_at_block spec n = V0 -> anti_mev_active_at_block spec (n + 1) = false.
Proof.
  intros Hn. rewrite extra_version_next by done. unfold anti_mev_active_at_block.
  by destruct (is_fork_active_at_block spec ForkEthSignature _), (is_fork_active_at_block spec ForkAntiMev _).
Qed.
End facts.

Section genesis_facts.
Context {C : Crypto} {B : Blst} {S : BlobSchedule}.

Definition valid_committee (vs : list Address) : Prop := NoDup vs /\ ZERO_ADDRESS ∉ vs.

Lemma zero_position_None i vs : zero_position i vs = None <-> ZERO_ADDRESS ∉ vs.
Proof.
  revert i. induction vs as [|v vs IH]; intros i; cbn [zero_position]; [set_solver|].
  case_bool_decide; [split; [done|set_solver]|]. rewrite IH. set_solver.
Qed.

Lemma validate_validator_set_Ok vs : validate_validator_set vs = Ok tt <-> valid_committee vs.
Proof.
  unfold validate_validator_set, valid_committee. rewrite <- (zero_position_None 0), <- adjacent_repeat_sort_None.
  destruct (zero_position 0 vs), (adjacent_repeat (sort_bytes vs)); naive_solver.
Qed.

(** The header of a genesis decodes, and its mix hash commits to who seals block 1. *)
Definition genesis_committed (n : N) (g : Genesis) : Prop :=
  exists extra, DbftExtra.decode (genesis_extra_data g) n = Ok extra /\
    match DbftExtra.threshold_public_key extra, DbftExtra.validators extra with
    | Some key, _ => genesis_mix_hash g = keccak256 key /\ is_Some (bls_key_validate key)
    | None, Some vs => genesis_mix_hash g = next_consensus_hash vs /\ valid_committee vs
    | None, None => False
    end.

Lemma explicit_genesis_Ok g config :
  genesis_config g = Some config -> validate_explicit_dbft_genesis g = Ok tt ->
  genesis_committed (validator_count config) g.
Proof.
  intros Hc. unfold validate_explicit_dbft_genesis. rewrite Hc. cbn [ok_or result_bind]. intros H.
  apply result_bind_Ok in H as (extra & Hd & H). apply map_err_Ok in Hd.
  apply result_bind_Ok in H as ([] & Hv & H). apply result_bind_Ok in H as (expected & He & H).
  case_bool_decide as Em; [|done]. exists extra. split; [done|]. rewrite Em. clear H.
  destruct extra as [v f vs ss|v f key sig]; cbn in Hv, He |- *.
  - injection He as <-. split; [done|]. by apply validate_validator_set_Ok.
  - apply result_bind_Ok in He as ([] & Hp & [= <-]). apply map_err_Ok in Hp. split; [done|].
    unfold validate_threshold_points, validate_threshold_public_key, decode_threshold_points in Hp.
    destruct (infinity_sentinel sig), (bls_key_validate key); try done; by eauto.
Qed.

Lemma from_genesis_Ok ethereum g spec :
  from_genesis ethereum g = Ok spec ->
  genesis_config g = Some (neox spec) /\ genesis_config (genesis spec) = Some (neox spec) /\
  has_expected_validator_count (neox spec) = true /\ period (dbft (neox spec)) <> 0 /\
  coinbase (dbft (neox spec)) <> ZERO_ADDRESS /\
  valid_committee (standby_validators (dbft (neox spec))) /\
  validate_explicit_dbft_genesis (genesis spec) = Ok tt.
Proof.
  unfold from_genesis. intros H. apply result_bind_Ok in H as (c & Hc & H). apply ok_or_Ok in Hc.
  destruct (has_expected_validator_count c) eqn:Hn; [|done]. cbn [negb] in H.
  destruct (N.eqb_spec (period (dbft c)) 0); [done|]. case_bool_decide as Hz; [done|].
  apply result_bind_Ok in H as ([] & Hv & H). apply validate_validator_set_Ok in Hv.
  apply result_bind_Ok in H as (x & _ & H). apply result_bind_Ok in H as (m & _ & H).
  apply result_bind_Ok in H as ([] & He & [= <-]). by split_and!.
Qed.

Lemma explicit_genesis_no_panic g : validate_explicit_dbft_genesis g <> Err ChainSpecPanic.
Proof.
  unfold validate_explicit_dbft_genesis. destruct (genesis_config g) as [c|]; [|done]. cbn [ok_or result_bind].
  destruct (DbftExtra.decode _ _) as [[v f vs ss|v f key sig]|]; cbn; [| |done].
  - unfold validate_validator_set. destruct (zero_position _ _); [done|].
    destruct (adjacent_repeat _); [done|]. cbn. by case_bool_decide.
  - destruct (if infinity_sentinel sig then _ else _); cbn; [by case_bool_decide|done].
Qed.

(** A genesis that only names its standby validators is completed to one that commits to
    them. *)
Lemma default_genesis_Ok ethereum g config :
  genesis_config g = Some config -> has_expected_validator_count config = true ->
  period (dbft config) <> 0 -> coinbase (dbft config) <> ZERO_ADDRESS ->
  valid_committee (standby_validators (dbft config)) ->
  Forall (fun a => length a = N.to_nat ADDRESS_LEN_BYTES) (standby_validators (dbft config)) ->
  genesis_extra_data g = [] -> genesis_mix_hash g = ZERO_B256 ->
  exists spec, from_genesis ethereum g = Ok spec /\
    genesis_mix_hash (genesis spec) = next_consensus_hash (sort_bytes (standby_validators (dbft config))).
Proof.
  intros Hc Hn Hp Hz Hv Hw Hx Hm. pose proof Hn as Hcount.
  apply andb_true_iff in Hcount as [H1%N.ltb_lt H2%N.leb_le]. unfold validator_count, NEOX_MAX_VALIDATOR_COUNT in H1, H2.
  set (vs := standby_validators (dbft config)) in *.
  destruct (genesis_v0_roundtrip vs) as (raw & Ee & Ed & Ev & _); [by destruct vs|done| |].
  { unfold U8_MAX in H2. unfold USIZE_MAX, U64_MAX. lia. }
  assert (Hvv : validate_validator_set vs = Ok tt) by by apply validate_validator_set_Ok.
  assert (Hvs : validate_validator_set (sort_bytes vs) = Ok tt).
  { apply validate_validator_set_Ok. destruct Hv as [Hd Hnz]. split; [by apply sort_bytes_NoDup|]. by rewrite sort_bytes_elem. }
  unfold from_genesis. rewrite Hc. cbn [ok_or result_bind]. rewrite Hn. cbn [negb].
  rewrite (proj2 (N.eqb_neq _ _)) by done. rewrite bool_decide_eq_false_2 by done.
  fold vs. rewrite Hvv. cbn [result_bind]. rewrite Hx, Ee. cbn [map_err result_bind].
  rewrite Hm, bool_decide_eq_true_2 by done. rewrite Ev. cbn [ok_or result_bind].
  unfold validate_explicit_dbft_genesis. cbn [genesis_config genesis_extra_data genesis_mix_hash ok_or result_bind].
  unfold validator_count. fold vs. rewrite Ed. cbn [map_err result_bind].
  rewrite Ev, Hvs. cbn [result_bind].
  change (DbftExtra.threshold_public_key (DbftExtra.genesis_v0 vs)) with (@None bytes). cbn [ok_or result_bind].
  rewrite bool_decide_eq_true_2 by done. cbn [negb result_bind]. eexists. by split.
Qed.

(** A chain specification is sound: building one never panics; its genesis header decodes
    with the configured committee size and its mix hash commits to a key that validates or
    to distinct nonzero validators; the committee has 1 to 256 distinct nonzero members;
    and a genesis that leaves both header fields out is always completed. *)
Theorem genesis_sound ethereum g :
  from_genesis ethereum g <> Err ChainSpecPanic /\
  (forall spec, from_genesis ethereum g = Ok spec ->
     let config := neox spec in
     genesis_committed (validator_count config) (genesis spec) /\
     1 <= validator_count config <= 256 /\ valid_committee (standby_validators (dbft config)) /\
     period (dbft config) <> 0 /\ coinbase (dbft config) <> ZERO_ADDRESS) /\
  (forall config, genesis_config g = Some config -> 1 <= validator_count config <= 256 ->
     period (dbft config) <> 0 -> coinbase (dbft config) <> ZERO_ADDRESS ->
     valid_committee (standby_validators (dbft config)) ->
     Forall (fun a => length a = N.to_nat ADDRESS_LEN_BYTES) (standby_validators (dbft config)) ->
     genesis_extra_data g = [] -> genesis_mix_hash g = ZERO_B256 ->
     exists spec, from_genesis ethereum g = Ok spec /\
       genesis_mix_hash (genesis spec) = next_consensus_hash (sort_bytes (standby_validators (dbft config)))).
Proof.
  split_and!.
  - unfold from_genesis. destruct (genesis_config g) as [c|]; [|done]. cbn [ok_or result_bind].
    destruct (negb _); [done|]. destruct (_ =? 0); [done|]. case_bool_decide; [done|].
    unfold validate_validator_set. destruct (zero_position _ _); [done|]. destruct (adjacent_repeat _); [done|].
    cbn [result_bind]. destruct (match genesis_extra_data g with [] => _ | _ => _ end) as [x|e] eqn:Ex; cbn [result_bind].
    + case_bool_decide; cbn [result_bind DbftExtra.genesis_v0 DbftExtra.validators ok_or];
        (destruct (validate_explicit_dbft_genesis _) eqn:E; [done|]);
        intros [= ->]; by apply explicit_genesis_no_panic in E.
    + destruct (genesis_extra_data g); [|done]. destruct (DbftExtra.try_encode _); [done|]. by injection Ex as <-.
  - intros spec Hs. destruct (from_genesis_Ok _ _ _ Hs) as (_ & Hg & Hn & Hp & Hz & Hv & He).
    apply andb_true_iff in Hn as [H1%N.ltb_lt H2%N.leb_le]. unfold NEOX_MAX_VALIDATOR_COUNT, U8_MAX in H2.
    split_and!; try done; [by apply explicit_genesis_Ok|lia].
  - intros config Hc [H1 H2] Hp Hz Hv Hw Hx Hm. apply (default_genesis_Ok ethereum g config); try done.
    unfold has_expected_validator_count, NEOX_MAX_VALIDATOR_COUNT, U8_MAX.
    apply andb_true_iff. split; [apply N.ltb_lt|apply N.leb_le]; lia.
Qed.
End genesis_facts.
