(* ===== verification/Consensus.v ===== *)
(** The consensus adapter (crates/neox/consensus-engine/src/lib.rs) with the checks it
    calls in Reth (crates/consensus/common/src/validation.rs,
    crates/ethereum/consensus/src/lib.rs): sealed headers, unsealed proposals and
    alternative parent witnesses. A sealed header is its header; its hash is
    [hash_slow]. *)

From S2P Require Import Prelude Extern Instances Extra Validation ChainSpec.

(** Constants of alloy and of reth-primitives-traits. *)
Class EthConstants : Type := {
  MAXIMUM_GAS_LIMIT_BLOCK : N;
  MINIMUM_GAS_LIMIT : N;
  GAS_LIMIT_BOUND_DIVISOR : N;
  DATA_GAS_PER_BLOB : N;
  ALLOWED_FUTURE_BLOCK_TIME_SECONDS : N;
  EMPTY_OMMER_ROOT_HASH : B256;
  EMPTY_ROOT_HASH : B256;
  EMPTY_REQUESTS_HASH : B256;
}.

Inductive NeoXConsensusError : Type :=
| DbftError (e : DbftValidationError)
| SystemTimeBeforeUnixEpoch
| UnexpectedExtraVersion (expected actual : ExtraVersion)
| ThresholdBeforeAntiMev
| InvalidProposalExtraLength (expected actual : N)
| ThresholdParentReseal
| ParentSealHashMismatch (expected actual : B256)
| ParentResealHashMismatch (expected actual : B256)
| EmptyNextConsensus
| InvalidOmmersHash (hash : B256)
| InvalidDifficulty (difficulty : N)
| InvalidWithdrawalsRoot (root : option B256)
| InvalidParentBeaconRoot (root : option B256)
| InvalidRequestsHash (hash : option B256)
| InvalidCoinbase (expected actual : Address).

Inductive ConsensusError : Type :=
| HeaderGasUsedExceedsGasLimit (gas_used gas_limit : N)
| HeaderGasLimitExceedsMax (gas_limit : N)
| BaseFeeMissing
| ExtraDataExceedsMax (len : N)
| WithdrawalsRootMissing | WithdrawalsRootUnexpected
| BlobGasUsedMissing | BlobGasUsedUnexpected
| BlobGasUsedNotMultipleOfBlobGasPerBlob (blob_gas_used blob_gas_per_blob : N)
| BlobGasUsedExceedsMaxBlobGasPerBlock (blob_gas_used max_blob_gas_per_block : N)
| ExcessBlobGasMissing | ExcessBlobGasUnexpected
| ExcessBlobGasDiff (got expected : N)
| ParentBeaconBlockRootMissing | ParentBeaconBlockRootUnexpected
| RequestsHashMissing | RequestsHashUnexpected
| BlockAccessListHashMissing | BlockAccessListHashUnexpected
| SlotNumberMissing | SlotNumberUnexpected
| TheMergeDifficultyIsNotZero | TheMergeNonceIsNotZero | TheMergeOmmerRootIsNotEmpty
| TimestampIsInFuture (timestamp present_timestamp : N)
| TimestampIsInPast (parent_timestamp timestamp : N)
| ParentHashMismatch (got expected : B256)
| ParentBlockNumberMismatch (parent_block_number block_number : N)
| GasLimitInvalidIncrease (parent_gas_limit child_gas_limit : N)
| GasLimitInvalidDecrease (parent_gas_limit child_gas_limit : N)
| GasLimitInvalidMinimum (child_gas_limit : N)
| OtherError (e : NeoXConsensusError)
| ConsensusPanic.

Definition check (b : bool) (e : ConsensusError) : result ConsensusError unit := if b then Ok tt else Err e.

Section reth.
Context `{AlloyRlp, Crypto, EthConstants, BlobSchedule}.

(** ** Reth's header checks *)

Definition validate_header_gas (header : Header) : result ConsensusError unit :=
  if gas_limit header <? gas_used header
  then Err (HeaderGasUsedExceedsGasLimit (gas_used header) (gas_limit header))
  else if MAXIMUM_GAS_LIMIT_BLOCK <? gas_limit header then Err (HeaderGasLimitExceedsMax (gas_limit header))
  else Ok tt.

Definition validate_header_base_fee (header : Header) (spec : EthChainSpec) : result ConsensusError unit :=
  if is_london_active_at_block spec (number header) && bool_decide (base_fee_per_gas header = None)
  then Err BaseFeeMissing else Ok tt.

Definition validate_header_extra_data (header : Header) (max_size : N) : result ConsensusError unit :=
  if max_size <? lenN (extra_data header) then Err (ExtraDataExceedsMax (lenN (extra_data header))) else Ok tt.

Definition validate_4844_header_standalone (header : Header) (params : blob_params) : result ConsensusError unit :=
  let? blob_gas_used := ok_or (blob_gas_used header) BlobGasUsedMissing in
  if bool_decide (parent_beacon_block_root header = None) then Err ParentBeaconBlockRootMissing
  else if negb (blob_gas_used mod DATA_GAS_PER_BLOB =? 0)
  then Err (BlobGasUsedNotMultipleOfBlobGasPerBlob blob_gas_used DATA_GAS_PER_BLOB)
  else if max_blob_gas_per_block params <? blob_gas_used
  then Err (BlobGasUsedExceedsMaxBlobGasPerBlock blob_gas_used (max_blob_gas_per_block params))
  else Ok tt.

Definition validate_against_parent_hash_number (header parent : Header) : result ConsensusError unit :=
  if negb (bool_decide (hash_slow parent = parent_hash header))
  then Err (ParentHashMismatch (parent_hash header) (hash_slow parent))
  else
    match checked_add U64_MAX (number parent) 1 with
    | None => Err (ParentBlockNumberMismatch (number parent) U64_MAX)
    | Some parent_number =>
        if negb (parent_number =? number header)
        then Err (ParentBlockNumberMismatch (number parent) (number header)) else Ok tt
    end.

(** The multiplication is the release build's, which wraps. *)
Definition validate_against_parent_gas_limit (header parent : Header) (spec : EthChainSpec)
    : result ConsensusError unit :=
  let parent_gas_limit :=
    if negb (is_london_active_at_block spec (number parent)) && is_london_active_at_block spec (number header)
    then (gas_limit parent * elasticity_multiplier spec (timestamp header)) mod 2 ^ 64
    else gas_limit parent in
  let? _ :=
    if parent_gas_limit <? gas_limit header then
      check (gas_limit header - parent_gas_limit <? parent_gas_limit / GAS_LIMIT_BOUND_DIVISOR)
        (GasLimitInvalidIncrease parent_gas_limit (gas_limit header))
    else
      check (parent_gas_limit - gas_limit header <? parent_gas_limit / GAS_LIMIT_BOUND_DIVISOR)
        (GasLimitInvalidDecrease parent_gas_limit (gas_limit header)) in
  if gas_limit header <? MINIMUM_GAS_LIMIT then Err (GasLimitInvalidMinimum (gas_limit header)) else Ok tt.

Definition validate_against_parent_4844 (header parent : Header) (params : blob_params)
    : result ConsensusError unit :=
  let? _ := ok_or (blob_gas_used header) BlobGasUsedMissing in
  let? excess := ok_or (excess_blob_gas header) ExcessBlobGasMissing in
  let expected :=
    next_block_excess_blob_gas_osaka params (default 0 (excess_blob_gas parent))
      (default 0 (blob_gas_used parent)) (default 0 (base_fee_per_gas parent)) in
  if negb (expected =? excess) then Err (ExcessBlobGasDiff excess expected) else Ok tt.

(** The fork-dependent fields, checked alike in sealed headers and in proposals. *)
Definition validate_fork_fields (header : Header) (spec : EthChainSpec) : result ConsensusError unit :=
  let time := timestamp header in
  let? _ :=
    if is_shanghai_active_at_timestamp spec time
    then check (bool_decide (is_Some (withdrawals_root header))) WithdrawalsRootMissing
    else check (bool_decide (withdrawals_root header = None)) WithdrawalsRootUnexpected in
  let? _ :=
    if is_cancun_active_at_timestamp spec time
    then validate_4844_header_standalone header (default cancun_params (blob_params_at_timestamp spec time))
    else
      let? _ := check (bool_decide (blob_gas_used header = None)) BlobGasUsedUnexpected in
      let? _ := check (bool_decide (excess_blob_gas header = None)) ExcessBlobGasUnexpected in
      check (bool_decide (parent_beacon_block_root header = None)) ParentBeaconBlockRootUnexpected in
  let? _ :=
    if is_prague_active_at_timestamp spec time
    then check (bool_decide (is_Some (requests_hash header))) RequestsHashMissing
    else check (bool_decide (requests_hash header = None)) RequestsHashUnexpected in
  if is_amsterdam_active_at_timestamp spec time then
    let? _ := check (bool_decide (is_Some (block_access_list_hash header))) BlockAccessListHashMissing in
    check (bool_decide (is_Some (slot_number header))) SlotNumberMissing
  else
    let? _ := check (bool_decide (block_access_list_hash header = None)) BlockAccessListHashUnexpected in
    check (bool_decide (slot_number header = None)) SlotNumberUnexpected.

(** [EthBeaconConsensus::validate_header]; [now] is the clock in seconds since the Unix
    epoch, [None] before it. *)
Definition eth_validate_header (spec : EthChainSpec) (max_extra_data_size : N) (now : option N) (header : Header)
    : result ConsensusError unit :=
  let? _ :=
    if is_paris_active_at_block spec (number header) then
      let? _ := check (difficulty header =? 0) TheMergeDifficultyIsNotZero in
      let? _ := check (bool_decide (nonce header = repeat x00 8)) TheMergeNonceIsNotZero in
      check (bool_decide (ommers_hash header = EMPTY_OMMER_ROOT_HASH)) TheMergeOmmerRootIsNotEmpty
    else
      match now with
      | None => Err ConsensusPanic
      | Some present =>
          if present + ALLOWED_FUTURE_BLOCK_TIME_SECONDS <? timestamp header
          then Err (TimestampIsInFuture (timestamp header) present) else Ok tt
      end in
  let? _ := validate_header_extra_data header max_extra_data_size in
  let? _ := validate_header_gas header in
  let? _ := validate_header_base_fee header spec in
  validate_fork_fields header spec.
End reth.

(** ** The Neo X checks *)

Definition max_dbft_extra_data_size (validator_count : N) : N :=
  HASHABLE_EXTRA_V1_LEN + validator_count * 20 + bft_honest_node_count validator_count * ECDSA_SIGNATURE_LEN.

Definition dbft_extra_error (e : DbftExtraError) : ConsensusError := OtherError (DbftError (ExtraErr e)).
Definition dbft_error (e : DbftValidationError) : ConsensusError := OtherError (DbftError e).

Section neox.
Context `{AlloyRlp, Crypto, Blst, EthConstants, BlobSchedule}.

(** [self.chain_spec.neox.dbft.standby_validators.len()] *)
Definition standby_count (spec : NeoXChainSpec) : N := validator_count (neox spec).

Definition validate_extra_activation (spec : NeoXChainSpec) (block_number : N) (version : ExtraVersion)
    (scheme : SignatureScheme) : result ConsensusError unit :=
  let expected_version := extra_version_at_block spec block_number in
  if negb (bool_decide (version = expected_version))
  then Err (OtherError (UnexpectedExtraVersion expected_version version))
  else if negb (anti_mev_active_at_block spec block_number) && bool_decide (scheme = Threshold)
  then Err (OtherError ThresholdBeforeAntiMev)
  else Ok tt.

Definition validate_neox_header_fields (spec : NeoXChainSpec) (header : Header) (sealed : bool)
    : result ConsensusError unit :=
  let time := timestamp header in
  if sealed && bool_decide (head (extra_data header) = Some (extra_version_as_u8 V0)) &&
     bool_decide (mix_hash header = ZERO_B256)
  then Err (OtherError EmptyNextConsensus)
  else if negb (bool_decide (ommers_hash header = EMPTY_OMMER_ROOT_HASH))
  then Err (OtherError (InvalidOmmersHash (ommers_hash header)))
  else if (0 <? number header) && negb (difficulty header =? DIFFICULTY_OUT_OF_TURN) &&
          negb (difficulty header =? DIFFICULTY_IN_TURN)
  then Err (OtherError (InvalidDifficulty (difficulty header)))
  else
    let? _ :=
      if is_shanghai_active_at_timestamp (inner spec) time
      then check (bool_decide (withdrawals_root header = Some EMPTY_ROOT_HASH))
             (OtherError (InvalidWithdrawalsRoot (withdrawals_root header)))
      else check (bool_decide (withdrawals_root header = None))
             (OtherError (InvalidWithdrawalsRoot (withdrawals_root header))) in
    if is_cancun_active_at_timestamp (inner spec) time &&
       negb (bool_decide (parent_beacon_block_root header = Some EMPTY_ROOT_HASH))
    then Err (OtherError (InvalidParentBeaconRoot (parent_beacon_block_root header)))
    else if is_prague_active_at_timestamp (inner spec) time &&
            negb (bool_decide (requests_hash header = Some EMPTY_REQUESTS_HASH))
    then Err (OtherError (InvalidRequestsHash (requests_hash header)))
    else Ok tt.

Definition validate_neox_header (spec : NeoXChainSpec) (header : Header) : result ConsensusError unit :=
  let? extra := map_err dbft_extra_error (DbftExtra.decode (extra_data header) (standby_count spec)) in
  let? _ := validate_extra_activation spec (number header) (DbftExtra.version extra)
              (DbftExtra.signature_scheme extra) in
  validate_neox_header_fields spec header true.

Definition validate_neox_proposal_header (spec : NeoXChainSpec) (header : Header) : result ConsensusError unit :=
  let? extra := map_err dbft_extra_error (DbftExtraPrefix.decode (extra_data header)) in
  let expected_len :=
    match DbftExtraPrefix.version extra with V0 => HASHABLE_EXTRA_V0_LEN | V1 | V2 => HASHABLE_EXTRA_V1_LEN end in
  if negb (lenN (extra_data header) =? expected_len)
  then Err (OtherError (InvalidProposalExtraLength expected_len (lenN (extra_data header))))
  else
    let? _ := validate_extra_activation spec (number header) (DbftExtraPrefix.version extra)
                (DbftExtraPrefix.signature_scheme extra) in
    validate_neox_header_fields spec header false.

(** The clock is not read for a proposal. *)
Definition validate_ethereum_proposal_header (spec : NeoXChainSpec) (header : Header) : result ConsensusError unit :=
  let? _ := validate_header_extra_data header (max_dbft_extra_data_size (standby_count spec)) in
  let? _ := validate_header_gas header in
  let? _ := validate_header_base_fee header (inner spec) in
  validate_fork_fields header (inner spec).

Definition validate_neox_parent_timestamp (timestamp parent_timestamp : N) : result ConsensusError unit :=
  if timestamp <? parent_timestamp then Err (TimestampIsInPast parent_timestamp timestamp) else Ok tt.

Definition validate_neox_header_against_parent_fields (spec : NeoXChainSpec) (child parent : Header)
    : result ConsensusError unit :=
  let? _ := validate_against_parent_hash_number child parent in
  let? _ := validate_neox_parent_timestamp (timestamp child) (timestamp parent) in
  let? _ := validate_against_parent_gas_limit child parent (inner spec) in
  let? _ :=
    match blob_params_at_timestamp (inner spec) (timestamp child) with
    | Some params => validate_against_parent_4844 child parent params
    | None => Ok tt
    end in
  let expected_coinbase := coinbase (dbft (neox spec)) in
  if negb (bool_decide (beneficiary child = expected_coinbase))
  then Err (OtherError (InvalidCoinbase expected_coinbase (beneficiary child))) else Ok tt.

Definition engine_validate_proposal_header (spec : NeoXChainSpec) (header parent : Header) (expected_primary : N)
    : result ConsensusError unit :=
  let? _ := validate_ethereum_proposal_header spec header in
  let? _ := validate_neox_proposal_header spec header in
  let? _ := validate_neox_header_against_parent_fields spec header parent in
  map_err dbft_error (validate_proposal_primary header expected_primary (standby_count spec)).

(** [now] is the clock read by the check itself, [eth_now] the one Reth's check reads. *)
Definition validate_timestamp_at (timestamp : N) (now : option N) : result ConsensusError unit :=
  let? present := ok_or now (OtherError SystemTimeBeforeUnixEpoch) in
  if present <? timestamp then Err (TimestampIsInFuture timestamp present) else Ok tt.

Definition engine_validate_header (spec : NeoXChainSpec) (now eth_now : option N) (header : Header)
    : result ConsensusError unit :=
  let? _ := validate_timestamp_at (timestamp header) now in
  let? _ := eth_validate_header (inner spec) (max_dbft_extra_data_size (standby_count spec)) eth_now header in
  validate_neox_header spec header.

Definition engine_validate_header_against_parent (spec : NeoXChainSpec) (header parent : Header)
    : result ConsensusError unit :=
  let? _ := validate_neox_header_against_parent_fields spec header parent in
  let? _ := map_err dbft_error (validate_header header parent (standby_count spec) (standby_count spec)) in
  Ok tt.

Definition is_transient_error (e : ConsensusError) : bool :=
  match e with TimestampIsInFuture _ _ => true | _ => false end.

(** Adopt the witness another validator holds for the canonical parent. *)
Definition validate_parent_reseal (spec : NeoXChainSpec) (now eth_now : option N)
    (canonical_parent grandparent : Header) (expected_seal_hash : B256) (parent_extra : bytes)
    (expected_parent_hash : B256) : result ConsensusError Header :=
  let? canonical_extra :=
    map_err dbft_extra_error (DbftExtra.decode (extra_data canonical_parent) (standby_count spec)) in
  if negb (bool_decide (DbftExtra.signature_scheme canonical_extra = Ecdsa))
  then Err (OtherError ThresholdParentReseal)
  else
    let? actual_seal_hash := map_err dbft_extra_error (ecdsa_seal_hash canonical_parent) in
    if negb (bool_decide (actual_seal_hash = expected_seal_hash))
    then Err (OtherError (ParentSealHashMismatch actual_seal_hash expected_seal_hash))
    else
      let resealed := with_extra_data canonical_parent parent_extra in
      if negb (bool_decide (hash_slow resealed = expected_parent_hash))
      then Err (OtherError (ParentResealHashMismatch expected_parent_hash (hash_slow resealed)))
      else
        let? _ := engine_validate_header spec now eth_now resealed in
        let? _ := engine_validate_header_against_parent spec resealed grandparent in
        Ok resealed.
End neox.

(** ** Stand-ins for the Ethereum constants, with every Ethereum fork inactive *)

Definition model_constants : EthConstants := {|
  MAXIMUM_GAS_LIMIT_BLOCK := 2 ^ 63 - 1; MINIMUM_GAS_LIMIT := 5000; GAS_LIMIT_BOUND_DIVISOR := 1024;
  DATA_GAS_PER_BLOB := 131072; ALLOWED_FUTURE_BLOCK_TIME_SECONDS := 15;
  EMPTY_OMMER_ROOT_HASH := repeat x1d 32; EMPTY_ROOT_HASH := repeat x56 32; EMPTY_REQUESTS_HASH := repeat xe3 32;
|}.

Definition model_blob_schedule : BlobSchedule := {|
  blob_params := unit; cancun_params := tt; max_blob_gas_per_block _ := 786432;
  next_block_excess_blob_gas_osaka _ _ _ _ := 0;
|}.

Section model_spec.
#[local] Existing Instance model_blob_schedule.

Definition model_ethereum : EthChainSpec := {|
  is_london_active_at_block _ := false; is_paris_active_at_block _ := false;
  is_shanghai_active_at_timestamp _ := false; is_cancun_active_at_timestamp _ := false;
  is_prague_active_at_timestamp _ := false; is_amsterdam_active_at_timestamp _ := false;
  is_osaka_active_at_timestamp _ := false; is_byzantium_active_at_block _ := true;
  blob_params_at_timestamp _ := None; elasticity_multiplier _ := 2;
|}.

(** Validators [vs], with the Anti-MEV fork at [fork]. *)
Definition model_config (vs : list Address) (fork : N) : NeoXGenesisConfig :=
  mkNeoXGenesisConfig fork fork NEOX_FORK_NEVER None (mkDbftConfig 5 vs (repeat x12 20)).
Definition model_spec (vs : list Address) (fork : N) : NeoXChainSpec :=
  mkNeoXChainSpec _ model_ethereum (mkGenesis (Some (model_config vs fork)) [] ZERO_B256) (model_config vs fork).
End model_spec.

Section model_block.
#[local] Existing Instance model_constants.

(** A header with the Neo X fields in place. *)
Definition model_block (n : N) (parent : B256) (mix : B256) (difficulty primary : N) (extra : bytes) : Header :=
  {| parent_hash := parent; ommers_hash := EMPTY_OMMER_ROOT_HASH; beneficiary := repeat x12 20;
     state_root := ZERO_B256; transactions_root := ZERO_B256; receipts_root := ZERO_B256;
     logs_bloom := repeat x00 256; difficulty := difficulty; number := n; gas_limit := 30000000; gas_used := 0;
     timestamp := n; extra_data := extra; mix_hash := mix; nonce := be_bytes 8 primary;
     base_fee_per_gas := None; withdrawals_root := None; blob_gas_used := None;
     excess_blob_gas := None; parent_beacon_block_root := None; requests_hash := None;
     block_access_list_hash := None; slot_number := None |}.
End model_block.
