(* ===== verification/Tpke.v ===== *)
(** Threshold cryptography of the anti-MEV committee
    (crates/neox/antimev/src/tpke.rs, field.rs): ciphertext and share codecs,
    Lagrange interpolation of indexed shares, the search for a threshold-sized
    subset that verifies, and AES-CBC decryption with PKCS#7 unpadding. *)

From S2P Require Import Prelude Extern Instances.

Definition G1_COMPRESSED_LEN : N := 48.
Definition G1_UNCOMPRESSED_LEN : N := 96.
Definition G1_EIP2537_LEN : N := 128.
Definition G2_COMPRESSED_LEN : N := 96.
Definition TPKE_SERIALIZED_LEN : N := G1_COMPRESSED_LEN * 2 + G2_COMPRESSED_LEN.
Definition DECRYPTION_SHARE_LEN : N := G1_COMPRESSED_LEN.
Definition SIGNATURE_SHARE_LEN : N := G2_COMPRESSED_LEN.
Definition TPKE_PRIVATE_KEY_LEN : N := 32.
Definition TPKE_SIGNATURE_DST : bytes :=
  String.list_byte_of_string "BLS_SIG_BLS12381G2_XMD:SHA-256_SSWU_RO_POP_".
Definition NEOX_DKG_SCALER : N := 360.
Definition MAX_TPKE_SIGNATURE_SHARES : N := 7.
Definition MAX_TPKE_DECRYPTION_CONTRIBUTIONS : N := 7.

(** [TpkePanicked] marks a failed [expect]. *)
Inductive TpkeError : Type :=
| WrongCiphertextLength (actual : N)
| WrongShareLength (actual : N)
| WrongSignatureShareLength (actual : N)
| WrongCommitmentLength (actual : N)
| InvalidCommitmentPadding
| InvalidGlobalPublicKey
| NotEnoughSignatureShares (threshold actual : N)
| TooManySignatureShares (count : N)
| SignatureAggregationFailed
| NotEnoughDecryptionContributions (threshold actual : N)
| TooManyDecryptionContributions (count : N)
| DecryptionAggregationFailed
| InvalidG1Point (field : string)
| InvalidG2Point (field : string)
| InvalidCiphertextCommitment
| InvalidPrivateKey
| NotEnoughShares
| InvalidShareIndex (index : N)
| DuplicateShareIndex (index : N)
| InvalidScaler
| InvalidDecryptionShares
| InvalidAesCiphertextLength (actual : N)
| InvalidAesKey
| InvalidPkcs7Padding
| TpkePanicked.

#[export] Instance tpke_error_eq_dec : EqDecision TpkeError.
Proof. solve_decision. Defined.

Record TpkeCiphertext : Type := mkTpkeCiphertext {
  encrypted_message : bytes;
  random_commitment : bytes;
  pairing_commitment : bytes;
}.

#[export] Instance tpke_ciphertext_eq_dec : EqDecision TpkeCiphertext.
Proof. solve_decision. Defined.

(** The XOR of two bytes, and the flip of the compressed point's sort bit. *)
Definition byte_xor (a b : byte) : byte := byte_of (N.lxor (Byte.to_N a) (Byte.to_N b)).
Definition negate_point (b : bytes) : bytes :=
  match b with [] => [] | x :: t => byte_xor x x20 :: t end.

Section tpke.
Context `{Blst}.

Definition decode_g1 (encoded : bytes) (field : string) : result TpkeError p1_affine :=
  match p1_uncompress encoded with
  | Some point => if p1_affine_in_g1 point then Ok point else Err (InvalidG1Point field)
  | None => Err (InvalidG1Point field)
  end.

Definition decode_g2 (encoded : bytes) (field : string) : result TpkeError p2_affine :=
  match p2_uncompress encoded with
  | Some point => if p2_affine_in_g2 point then Ok point else Err (InvalidG2Point field)
  | None => Err (InvalidG2Point field)
  end.

Definition compress (point : p1) : bytes := p1_affine_compress (p1_to_affine point).
Definition compress_g2 (point : p2) : bytes := p2_affine_compress (p2_to_affine point).

(** ** Ciphertexts and shares *)

Definition ciphertext_decode (encoded : bytes) : result TpkeError TpkeCiphertext :=
  if negb (lenN encoded =? TPKE_SERIALIZED_LEN)
  then Err (WrongCiphertextLength (lenN encoded))
  else
    let g1 := N.to_nat G1_COMPRESSED_LEN in
    let ciphertext :=
      {| encrypted_message := take g1 encoded;
         random_commitment := slice g1 (g1 * 2) encoded;
         pairing_commitment := drop (g1 * 2) encoded |} in
    let? _ := decode_g1 (encrypted_message ciphertext) "encrypted message" in
    let? _ := decode_g1 (random_commitment ciphertext) "random commitment" in
    let? _ := decode_g2 (pairing_commitment ciphertext) "pairing commitment" in
    Ok ciphertext.

Definition ciphertext_to_bytes (c : TpkeCiphertext) : bytes :=
  encrypted_message c ++ random_commitment c ++ pairing_commitment c.

Definition ciphertext_verify (c : TpkeCiphertext) : result TpkeError unit :=
  let? random := decode_g1 (random_commitment c) "random commitment" in
  let? pairing := decode_g2 (pairing_commitment c) "pairing commitment" in
  if pairing_is_one [p2_affine_generator; pairing] [random; p1_affine_generator]
  then Ok tt else Err InvalidCiphertextCommitment.

Definition decryption_share (c : TpkeCiphertext) (private_key : bytes) : result TpkeError bytes :=
  let s := scalar_from_bendian private_key in
  if negb (sk_check s) then Err InvalidPrivateKey
  else
    let? point := decode_g1 (random_commitment c) "random commitment" in
    Ok (compress (p1_mult (p1_from_affine point) s)).

Definition decryption_share_decode (encoded : bytes) : result TpkeError bytes :=
  if negb (lenN encoded =? DECRYPTION_SHARE_LEN) then Err (WrongShareLength (lenN encoded))
  else let? _ := decode_g1 encoded "decryption share" in Ok encoded.

Definition signature_share_decode (encoded : bytes) : result TpkeError bytes :=
  if negb (lenN encoded =? SIGNATURE_SHARE_LEN) then Err (WrongSignatureShareLength (lenN encoded))
  else let? _ := decode_g2 encoded "signature share" in Ok encoded.

Definition sign_share (message private_key : bytes) (negate_result : bool)
    : result TpkeError bytes :=
  let? key := ok_or (sk_from_bytes private_key) InvalidPrivateKey in
  let encoded := sig_to_bytes (sk_sign key message TPKE_SIGNATURE_DST) in
  let encoded := if negate_result then negate_point encoded else encoded in
  signature_share_decode encoded.

Definition public_key_from_private_key (private_key : bytes) : result TpkeError bytes :=
  let? key := ok_or (sk_from_bytes private_key) InvalidPrivateKey in
  Ok (pk_to_bytes (sk_to_pk key)).

(** ** Interpolation *)

(** The loop over the shares with the prefix already seen. *)
Fixpoint validate_indexes (seen indexes : list N) : result TpkeError unit :=
  match indexes with
  | [] => Ok tt
  | index :: rest =>
      if index =? 0 then Err (InvalidShareIndex 0)
      else if bool_decide (index ∈ seen) then Err (DuplicateShareIndex index)
      else validate_indexes (seen ++ [index]) rest
  end.

Definition validate_indexed_shares {T} (shares : list (N * T)) (scaler : N)
    : result TpkeError unit :=
  match shares with
  | [] => Err NotEnoughShares
  | _ =>
      if scaler =? 0 then Err InvalidScaler
      else validate_indexes [] (map fst shares)
  end.

Definition lagrange_coefficient (position : nat) (indices : list N) (scaler : N) : scalar :=
  let x_i := fr_from_u64 (nth position indices 0) in
  let '(numerator, denominator) :=
    foldl (fun '(numerator, denominator) '(other_position, index) =>
      if (other_position =? position)%nat then (numerator, denominator)
      else
        let x_j := fr_from_u64 index in
        (fr_mul numerator (fr_cneg x_j), fr_mul denominator (fr_sub x_i x_j)))
      (fr_from_u64 scaler, fr_from_u64 1) (imap pair indices) in
  scalar_from_fr (fr_mul numerator (fr_inverse denominator)).

(** [None] is the [expect] on an empty list of points. *)
Definition interpolate_signature_shares (points : list (N * p2_affine)) (scaler : N)
    : option bytes :=
  let indices := map fst points in
  let aggregated :=
    foldl (fun aggregated '(position, point) =>
      let lambda := lagrange_coefficient position indices scaler in
      let weighted := p2_mult (p2_from_affine point) lambda in
      match aggregated with
      | Some sum => Some (p2_add_or_double sum weighted)
      | None => Some weighted
      end) None (imap pair (map snd points)) in
  compress_g2 <$> aggregated.

Definition decode_shares (shares : list (N * bytes)) : result TpkeError (list (N * p2_affine)) :=
  collect_result
    (fun '(index, share) =>
       let? point := decode_g2 share "signature share" in Ok (index, point)) shares.

Definition aggregate_signature_shares (shares : list (N * bytes)) (scaler : N)
    : result TpkeError bytes :=
  let? _ := validate_indexed_shares shares scaler in
  let? points := decode_shares shares in
  ok_or (interpolate_signature_shares points scaler) TpkePanicked.

(** ** The subset search *)

(** [remaining] is [choose - current.len()]; the range is
    [start..=item_count - remaining]. *)
Fixpoint collect_combinations (remaining item_count start : nat) (current : list nat)
    : list (list nat) :=
  match remaining with
  | O => [current]
  | S remaining' =>
      flat_map
        (fun position =>
           collect_combinations remaining' item_count (position + 1) (current ++ [position]))
        (seq start (item_count - remaining + 1 - start))
  end.

Definition key_le {T} (a b : N * T) : Prop := a.1 <= b.1.
#[local] Instance key_le_dec {T} : RelDecision (@key_le T).
Proof. intros a b. unfold key_le. apply _. Defined.

(** [sort_unstable_by_key(|(index, _)| *index)] *)
Definition sort_by_index {T} (shares : list (N * T)) : list (N * T) := merge_sort key_le shares.

(** [positions.iter().map(|position| items[*position]).collect()] *)
Definition select {A} (items : list A) (positions : list nat) : list A :=
  omap (fun position => items !! position) positions.

(** One iteration of the candidate loop: the aggregate, when it verifies. *)
Definition try_combination (message : bytes) (public_key : bls_public_key) (scaler : N)
    (negated_result : bool) (selected : list (N * p2_affine)) : option bytes :=
  match interpolate_signature_shares selected scaler with
  | None => None
  | Some signature =>
      let verification_bytes := if negated_result then negate_point signature else signature in
      match bls_sig_validate verification_bytes with
      | None => None
      | Some candidate =>
          if bls_verify candidate message TPKE_SIGNATURE_DST public_key
          then Some signature else None
      end
  end.

(** [for positions in combinations { ... return Ok }]: the first success. *)
Fixpoint first_some {A B} (f : A -> option B) (l : list A) : option B :=
  match l with
  | [] => None
  | a :: t => match f a with Some b => Some b | None => first_some f t end
  end.

Definition aggregate_and_verify_signature_shares_with_limit (message global_public_key : bytes)
    (shares : list (N * bytes)) (threshold scaler : N) (negated_result : bool) (max_shares : N)
    : result TpkeError bytes :=
  if (threshold =? 0) || (lenN shares <? threshold)
  then Err (NotEnoughSignatureShares threshold (lenN shares))
  else if max_shares <? lenN shares then Err (TooManySignatureShares (lenN shares))
  else
    let? _ := validate_indexed_shares shares scaler in
    let? public_key := ok_or (bls_key_validate global_public_key) InvalidGlobalPublicKey in
    let ordered := sort_by_index shares in
    let? decoded := decode_shares ordered in
    let combinations := collect_combinations (N.to_nat threshold) (length ordered) 0 [] in
    ok_or
      (first_some
         (fun positions =>
            try_combination message public_key scaler negated_result (select decoded positions))
         combinations)
      SignatureAggregationFailed.

Definition aggregate_and_verify_signature_shares (message global_public_key : bytes)
    (shares : list (N * bytes)) (threshold scaler : N) (negated_result : bool)
    : result TpkeError bytes :=
  aggregate_and_verify_signature_shares_with_limit message global_public_key shares threshold
    scaler negated_result MAX_TPKE_SIGNATURE_SHARES.

Definition aggregate_and_verify_signature_shares_with_parameters (message global_public_key : bytes)
    (shares : list (N * bytes)) (threshold scaler : N) (negated_result : bool) (participants : N)
    : result TpkeError bytes :=
  aggregate_and_verify_signature_shares_with_limit message global_public_key shares threshold
    scaler negated_result participants.

(** ** Decryption *)

Definition global_public_key_from_commitment (commitment : bytes) (scaler : N)
    : result TpkeError bytes :=
  if negb (lenN commitment =? G1_EIP2537_LEN)
  then Err (WrongCommitmentLength (lenN commitment))
  else if scaler =? 0 then Err InvalidScaler
  else if existsb (fun b => negb (bool_decide (b = x00))) (take 16 commitment) ||
          existsb (fun b => negb (bool_decide (b = x00))) (slice 64 80 commitment)
  then Err InvalidCommitmentPadding
  else
    let unpadded := slice 16 64 commitment ++ drop 80 commitment in
    match p1_deserialize unpadded with
    | Some affine =>
        if p1_affine_in_g1 affine
        then Ok (compress (p1_mult (p1_from_affine affine) (scalar_from_fr (fr_from_u64 scaler))))
        else Err (InvalidG1Point "aggregated commitment")
    | None => Err (InvalidG1Point "aggregated commitment")
    end.

(** The accumulation loop: decoding an invalid share stops it. *)
Fixpoint interpolate_decryption_shares (indices : list N) (scaler : N) (position : nat)
    (shares : list bytes) (aggregated : option p1) : result TpkeError (option p1) :=
  match shares with
  | [] => Ok aggregated
  | share :: rest =>
      let lambda := lagrange_coefficient position indices scaler in
      let? point := decode_g1 share "decryption share" in
      let weighted := p1_mult (p1_from_affine point) lambda in
      let aggregated :=
        match aggregated with
        | Some sum => Some (p1_add_or_double sum weighted)
        | None => Some weighted
        end in
      interpolate_decryption_shares indices scaler (S position) rest aggregated
  end.

Definition aggregate_and_decrypt_with_key (ciphertext : TpkeCiphertext) (public_key : p1_affine)
    (shares : list (N * bytes)) (scaler : N) : result TpkeError bytes :=
  let indices := map fst shares in
  let? aggregated := interpolate_decryption_shares indices scaler 0 (map snd shares) None in
  let? recovered_random := ok_or aggregated TpkePanicked in
  let? commitment := decode_g2 (pairing_commitment ciphertext) "pairing commitment" in
  if negb (pairing_is_one [commitment; p2_affine_generator]
                          [public_key; p1_to_affine recovered_random])
  then Err InvalidDecryptionShares
  else
    let? encrypted := decode_g1 (encrypted_message ciphertext) "encrypted message" in
    Ok (compress (p1_add_or_double (p1_from_affine encrypted) (p1_cneg recovered_random))).

Definition aggregate_and_decrypt (ciphertext : TpkeCiphertext) (global_public_key : bytes)
    (shares : list (N * bytes)) (scaler : N) : result TpkeError bytes :=
  let? _ := validate_indexed_shares shares scaler in
  let? public_key := decode_g1 global_public_key "global public key" in
  aggregate_and_decrypt_with_key ciphertext public_key shares scaler.

(** One combination against every ciphertext; the first failure drops it. *)
Fixpoint decrypt_all (public_key : p1_affine) (scaler : N) (selected : list (N * list bytes))
    (ciphertext_index : nat) (ciphertexts : list TpkeCiphertext) : option (list bytes) :=
  match ciphertexts with
  | [] => Some []
  | ciphertext :: rest =>
      let shares :=
        map (fun '(index, contribution) => (index, nth ciphertext_index contribution [])) selected in
      match aggregate_and_decrypt_with_key ciphertext public_key shares scaler with
      | Ok key =>
          keys ← decrypt_all public_key scaler selected (S ciphertext_index) rest; Some (key :: keys)
      | Err _ => None
      end
  end.

Definition aggregate_and_decrypt_keys_with_limit (ciphertexts : list TpkeCiphertext)
    (global_public_key : bytes) (contributions : list (N * list bytes))
    (threshold scaler max_contributions : N) : result TpkeError (list bytes) :=
  match ciphertexts with
  | [] => Ok []
  | _ =>
      let eligible := filter (fun c => lenN c.2 = lenN ciphertexts) contributions in
      if (threshold =? 0) || (lenN eligible <? threshold)
      then Err (NotEnoughDecryptionContributions threshold (lenN eligible))
      else if max_contributions <? lenN eligible
      then Err (TooManyDecryptionContributions (lenN eligible))
      else
        let? _ := validate_indexed_shares eligible scaler in
        let eligible := sort_by_index eligible in
        match decode_g1 global_public_key "global public key" with
        | Err _ => Err DecryptionAggregationFailed
        | Ok public_key =>
            let combinations := collect_combinations (N.to_nat threshold) (length eligible) 0 [] in
            ok_or
              (first_some
                 (fun positions =>
                    decrypt_all public_key scaler (select eligible positions) 0 ciphertexts)
                 combinations)
              DecryptionAggregationFailed
        end
  end.

Definition aggregate_and_decrypt_keys (ciphertexts : list TpkeCiphertext)
    (global_public_key : bytes) (contributions : list (N * list bytes)) (threshold scaler : N)
    : result TpkeError (list bytes) :=
  aggregate_and_decrypt_keys_with_limit ciphertexts global_public_key contributions threshold
    scaler MAX_TPKE_DECRYPTION_CONTRIBUTIONS.

Definition aggregate_and_decrypt_keys_with_parameters (ciphertexts : list TpkeCiphertext)
    (global_public_key : bytes) (contributions : list (N * list bytes))
    (threshold scaler participants : N) : result TpkeError (list bytes) :=
  aggregate_and_decrypt_keys_with_limit ciphertexts global_public_key contributions threshold
    scaler participants.
End tpke.

(** ** AES-256-CBC with PKCS#7 *)

Section aes.
Context `{Blst, Symmetric}.

(** The loop over the 16-byte chunks, decrypted in place. *)
Fixpoint cbc_decrypt (cipher : aes256) (previous : bytes) (chunks : list bytes) : list bytes :=
  match chunks with
  | [] => []
  | chunk :: rest =>
      zip_with byte_xor (aes256_decrypt_block cipher chunk) previous
        :: cbc_decrypt cipher chunk rest
  end.

Definition unpad (strict : bool) (plaintext : bytes) : result TpkeError bytes :=
  let? last_byte := ok_or (last plaintext) TpkePanicked in
  let padding := Byte.to_N last_byte in
  let n := lenN plaintext in
  let? _ :=
    if strict then
      if (padding =? 0) || (16 <? padding) || (n <? padding) then Err InvalidPkcs7Padding
      else if negb (forallb (fun b => Byte.to_N b =? padding)
                      (drop (N.to_nat (n - padding)) plaintext))
      then Err InvalidPkcs7Padding
      else Ok tt
    else if n <? padding then Err InvalidPkcs7Padding else Ok tt in
  Ok (take (N.to_nat (n - padding)) plaintext).

Definition decrypt_message_with_mode (key : bytes) (ciphertext : bytes) (strict : bool)
    : result TpkeError bytes :=
  if (lenN ciphertext =? 0) || negb (lenN ciphertext mod 16 =? 0)
  then Err (InvalidAesCiphertextLength (lenN ciphertext))
  else
    let? affine := decode_g1 key "decrypted key" in
    let seed := p1_serialize (p1_from_affine affine) in
    let digest := sha256 seed in
    let? cipher := ok_or (aes256_new_from_slice digest) InvalidAesKey in
    let plaintext := concat (cbc_decrypt cipher (take 16 digest) (as_chunks 16 ciphertext)) in
    unpad strict plaintext.

Definition decrypt_message (key ciphertext : bytes) : result TpkeError bytes :=
  decrypt_message_with_mode key ciphertext true.
End aes.

(** ** Combinations *)

Section combinations.

(** Strictly increasing positions in [start, bound). *)
Definition positions_in (start bound : nat) (l : list nat) : Prop :=
  StronglySorted lt l /\ Forall (fun p => start <= p < bound)%nat l.

Lemma positions_in_cons start bound p l :
  positions_in start bound (p :: l) <->
  (start <= p < bound)%nat /\ positions_in (S p) bound l.
Proof.
  unfold positions_in. rewrite Forall_cons. split.
  - intros [Hs [Hp Hl]]. apply StronglySorted_inv in Hs as [Hs Hf].
    split_and!; [lia..|done|]. rewrite Forall_forall in *. intros q Hq.
    specialize (Hf q Hq). specialize (Hl q Hq). simpl in *. lia.
  - intros [Hp [Hs Hl]]. split; [|split; [lia|]].
    + constructor; [done|]. eapply Forall_impl; [exact Hl|]. simpl. lia.
    + eapply Forall_impl; [exact Hl|]. simpl. lia.
Qed.

Lemma positions_in_room start bound l :
  positions_in start bound l -> (start <= bound -> start + length l <= bound)%nat.
Proof.
  revert start. induction l as [|p l IH]; intros start Hp Hb; simpl; [lia|].
  apply positions_in_cons in Hp as [Hp Hl]. specialize (IH _ Hl). lia.
Qed.

Lemma collect_combinations_elem remaining n start current l :
  (remaining <= n)%nat ->
  l ∈ collect_combinations remaining n start current <->
  exists t, l = current ++ t /\ length t = remaining /\ positions_in start n t.
Proof.
  revert start current. induction remaining as [|r IH]; intros start current Hr.
  - cbn [collect_combinations]. rewrite list_elem_of_singleton. split.
    + intros ->. exists []. rewrite app_nil_r. by repeat constructor.
    + intros (t & -> & Ht & _). apply nil_length_inv in Ht as ->. by rewrite app_nil_r.
  - cbn [collect_combinations]. rewrite list_elem_of_In, in_flat_map. split.
    + intros (p & Hp & Hl). apply in_seq in Hp.
      apply list_elem_of_In, IH in Hl as (t & -> & Ht & Hpos); [|lia].
      exists (p :: t). rewrite <- app_assoc. split_and!; [done|simpl; lia|].
      apply positions_in_cons. split; [lia|]. by replace (S p) with (p + 1)%nat by lia.
    + intros (t & -> & Ht & Hpos). destruct t as [|p t]; [done|]. simpl in Ht.
      apply positions_in_cons in Hpos as [Hp Hpos].
      pose proof (positions_in_room _ _ _ Hpos ltac:(lia)).
      exists p. split; [apply in_seq; lia|]. apply list_elem_of_In, IH; [lia|].
      exists t. rewrite <- app_assoc. split_and!; [done|lia|].
      by replace (p + 1)%nat with (S p) by lia.
Qed.

Lemma NoDup_flat_map {A B} (f : A -> list B) (l : list A) :
  NoDup l -> (forall a, a ∈ l -> NoDup (f a)) ->
  (forall a a' b, a ∈ l -> a' ∈ l -> b ∈ f a -> b ∈ f a' -> a = a') ->
  NoDup (flat_map f l).
Proof.
  induction 1 as [|a l Ha Hl IH]; intros Hf Hinj; simpl; [constructor|].
  apply NoDup_app. split_and!.
  - apply Hf. by left.
  - intros b Hb Hin. apply list_elem_of_In, in_flat_map in Hin as (a' & Ha' & Hb').
    apply list_elem_of_In in Ha', Hb'. apply Ha.
    rewrite (Hinj a a' b); [done|by left|by right|done|done].
  - apply IH; [intros; apply Hf; by right|]. intros a1 a2 b H1 H2. apply Hinj; by right.
Qed.

Lemma collect_combinations_NoDup remaining n start current :
  (remaining <= n)%nat -> NoDup (collect_combinations remaining n start current).
Proof.
  revert start current. induction remaining as [|r IH]; intros start current Hr.
  { apply NoDup_singleton. }
  cbn [collect_combinations]. apply NoDup_flat_map.
  - apply NoDup_ListNoDup, seq_NoDup.
  - intros p _. apply IH. lia.
  - intros p q l _ _ Hp Hq.
    apply collect_combinations_elem in Hp as (t & -> & _), Hq as (t' & E & _); [|lia..].
    rewrite <- !app_assoc in E. apply app_inv_head in E. by injection E.
Qed.

Lemma select_cons {A} (items : list A) p ps :
  select items (p :: ps) =
  match items !! p with Some y => y :: select items ps | None => select items ps end.
Proof. reflexivity. Qed.

(** Selecting at increasing positions is taking a sublist. *)
Lemma select_shift {A} (x : A) items positions start bound :
  positions_in (S start) bound positions ->
  select (x :: items) positions = select items (map pred positions).
Proof.
  revert start. induction positions as [|p ps IH]; intros start Hp; [done|].
  apply positions_in_cons in Hp as [Hp Hps]. rewrite !select_cons.
  destruct p as [|p]; [lia|]. simpl map. rewrite select_cons, (IH _ Hps). done.
Qed.

Lemma positions_in_pred start bound positions :
  positions_in (S start) (S bound) positions -> positions_in start bound (map pred positions).
Proof.
  revert start. induction positions as [|p ps IH]; intros start Hp; [by repeat constructor|].
  apply positions_in_cons in Hp as [Hp Hps]. destruct p as [|p]; [lia|].
  simpl. apply positions_in_cons. split; [lia|]. by apply IH.
Qed.

Lemma positions_in_map_S start bound positions :
  positions_in start bound positions -> positions_in (S start) (S bound) (map S positions).
Proof.
  revert start. induction positions as [|p ps IH]; intros start Hp; [by repeat constructor|].
  apply positions_in_cons in Hp as [Hp Hps]. simpl. apply positions_in_cons. split; [lia|auto].
Qed.

Lemma positions_in_weaken start start' bound positions :
  (start' <= start)%nat -> positions_in start bound positions -> positions_in start' bound positions.
Proof. intros Hs [? Hf]. split; [done|]. eapply Forall_impl; [exact Hf|]. simpl. lia. Qed.

Lemma select_sublist {A} (items : list A) positions :
  positions_in 0 (length items) positions ->
  sublist (select items positions) items /\ length (select items positions) = length positions.
Proof.
  revert positions. induction items as [|x items IH]; intros positions Hp.
  - destruct positions as [|p ps]; [by repeat constructor|].
    apply positions_in_cons in Hp as [Hp _]. simpl in Hp. lia.
  - destruct positions as [|p ps]; [split; [apply sublist_nil_l|done]|].
    apply positions_in_cons in Hp as [Hp Hps]. simpl in Hps.
    destruct p as [|p].
    + pose proof (select_shift x items ps 0 _ Hps) as E.
      destruct (IH _ (positions_in_pred _ _ _ Hps)) as [Hsub Hlen].
      rewrite select_cons. simpl. rewrite E, Hlen, length_map. split; [by constructor|done].
    + assert (Hall : positions_in 1 (S (length items)) (S p :: ps))
        by (apply positions_in_cons; simpl in Hp; split; [lia|done]).
      rewrite (select_shift x items (S p :: ps) 0 _ Hall).
      destruct (IH _ (positions_in_pred _ _ _ Hall)) as [Hsub Hlen].
      rewrite Hlen, length_map. split; [by constructor|done].
Qed.

Lemma sublist_select {A} (sel items : list A) :
  sublist sel items ->
  exists positions, positions_in 0 (length items) positions /\ select items positions = sel.
Proof.
  induction 1 as [|x sel items Hs (ps & Hp & E)|x sel items Hs (ps & Hp & E)].
  - exists []. by repeat constructor.
  - exists (0%nat :: map S ps). split.
    + apply positions_in_cons. simpl. split; [lia|]. by apply positions_in_map_S.
    + pose proof (select_shift x items (map S ps) 0 _ (positions_in_map_S _ _ _ Hp)) as Ex.
      rewrite select_cons. simpl. rewrite Ex, map_map. simpl. by rewrite map_id, E.
  - exists (map S ps). split.
    + simpl. eapply positions_in_weaken; [|by apply positions_in_map_S]. lia.
    + rewrite (select_shift x items (map S ps) 0 _ (positions_in_map_S _ _ _ Hp)), map_map.
      simpl. by rewrite map_id.
Qed.

(** The combination search is exhaustive: it enumerates every strictly
    increasing choice of [choose] positions out of [item_count], each once. *)
Theorem collect_combinations_exhaustive choose item_count :
  (choose <= item_count)%nat ->
  NoDup (collect_combinations choose item_count 0 []) /\
  forall l, l ∈ collect_combinations choose item_count 0 [] <->
    length l = choose /\ StronglySorted lt l /\ Forall (fun p => p < item_count)%nat l.
Proof.
  intros Hc. split; [by apply collect_combinations_NoDup|]. intros l.
  rewrite collect_combinations_elem by done. simpl. split.
  - intros (t & -> & Ht & [Hs Hf]). split_and!; [done..|].
    eapply Forall_impl; [exact Hf|]. simpl. lia.
  - intros (Hl & Hs & Hf). exists l. split_and!; [done..|]. split; [done|].
    eapply Forall_impl; [exact Hf|]. simpl. lia.
Qed.
End combinations.

Lemma collect_combinations_exhaustive_witness :
  [0; 2]%nat ∈ collect_combinations 2 3 0 [].
Proof.
  apply (collect_combinations_exhaustive 2 3); [lia|]. split_and!; [done|repeat constructor|].
  repeat constructor.
Defined.

(** ** The subset searches *)

Lemma first_some_Some {A B} (f : A -> option B) l b :
  first_some f l = Some b -> exists a, a ∈ l /\ f a = Some b.
Proof.
  induction l as [|a l IH]; simpl; [done|]. destruct (f a) eqn:E.
  - intros [= ->]. exists a. split; [by left|done].
  - intros (a' & Ha & Hf)%IH. exists a'. split; [by right|done].
Qed.

Lemma first_some_is_Some {A B} (f : A -> option B) l a b :
  a ∈ l -> f a = Some b -> exists b', first_some f l = Some b'.
Proof.
  induction l as [|x l IH]; simpl; [by intros ?%not_elem_of_nil|].
  intros [->|Ha]%elem_of_cons Hf; destruct (f x); simplify_eq; eauto.
Qed.

(** The search over combinations is the search over sublists of that length. *)
Lemma search_sublists {A B} (f : list A -> option B) (items : list A) threshold :
  (N.to_nat threshold <= length items)%nat ->
  let found := first_some (fun positions => f (select items positions))
                 (collect_combinations (N.to_nat threshold) (length items) 0 []) in
  (forall b, found = Some b -> exists sel, sublist sel items /\ lenN sel = threshold /\ f sel = Some b)
  /\ (forall sel b, sublist sel items -> lenN sel = threshold -> f sel = Some b ->
      exists b', found = Some b').
Proof.
  intros Ht found. split.
  - intros b (ps & Hps & Hf)%first_some_Some.
    apply collect_combinations_elem in Hps as (t & -> & Hlen & Hpos); [|done]. simpl in *.
    destruct (select_sublist items t Hpos) as [Hsub Hl].
    eexists. split_and!; [exact Hsub| |done]. unfold lenN. lia.
  - intros sel b Hsub Hlen Hf. destruct (sublist_select _ _ Hsub) as (ps & Hpos & E).
    eapply (first_some_is_Some _ _ ps b); [|by rewrite E].
    apply collect_combinations_elem; [done|]. exists ps. split_and!; [done| |done].
    destruct (select_sublist items ps Hpos) as [_ Hl]. rewrite E in Hl. unfold lenN in Hlen. lia.
Qed.

Section searches.
Context `{Blst}.

(** The condition the aggregate is checked for before it is returned. *)
Definition verifies (message : bytes) (public_key : bls_public_key) (negated : bool)
    (signature : bytes) : Prop :=
  exists candidate,
    bls_sig_validate (if negated then negate_point signature else signature) = Some candidate /\
    bls_verify candidate message TPKE_SIGNATURE_DST public_key = true.

Lemma try_combination_Some message pk scaler negated selected signature :
  try_combination message pk scaler negated selected = Some signature <->
  interpolate_signature_shares selected scaler = Some signature /\
  verifies message pk negated signature.
Proof.
  unfold try_combination, verifies. split.
  - repeat case_match; intros; simplify_eq; eauto.
  - intros (-> & candidate & -> & ->). done.
Qed.

Lemma length_decode_shares shares decoded :
  decode_shares shares = Ok decoded -> length decoded = length shares.
Proof. intros Hd%collect_result_Ok%Forall2_length. done. Qed.

Lemma length_sort_by_index {T} (l : list (N * T)) : length (sort_by_index l) = length l.
Proof. unfold sort_by_index. by rewrite merge_sort_Permutation. Qed.

(** Signature aggregation tolerates bad shares: what it returns is the
    interpolation of some threshold-sized subset of the shares and verifies under
    the global key, and it returns a signature whenever any threshold-sized
    subset of the shares interpolates to one that verifies, whatever the other
    shares are. *)
Theorem aggregate_signature_search message global_public_key shares threshold scaler negated max_shares
    public_key decoded :
  threshold <> 0 -> threshold <= lenN shares -> lenN shares <= max_shares ->
  validate_indexed_shares shares scaler = Ok tt ->
  bls_key_validate global_public_key = Some public_key ->
  decode_shares (sort_by_index shares) = Ok decoded ->
  let aggregate := aggregate_and_verify_signature_shares_with_limit message global_public_key
                     shares threshold scaler negated max_shares in
  (forall signature, aggregate = Ok signature ->
     verifies message public_key negated signature /\
     exists selected, sublist selected decoded /\ lenN selected = threshold /\
       interpolate_signature_shares selected scaler = Some signature) /\
  (forall selected signature, sublist selected decoded -> lenN selected = threshold ->
     interpolate_signature_shares selected scaler = Some signature ->
     verifies message public_key negated signature ->
     exists signature', aggregate = Ok signature').
Proof.
  intros Ht Hle Hmax Hv Hk Hd aggregate.
  pose proof (length_decode_shares _ _ Hd) as Hlen. rewrite length_sort_by_index in Hlen.
  assert (Hb : (N.to_nat threshold <= length decoded)%nat) by (unfold lenN in *; lia).
  assert (E : aggregate = ok_or (first_some (fun positions =>
      try_combination message public_key scaler negated (select decoded positions))
      (collect_combinations (N.to_nat threshold) (length decoded) 0 [])) SignatureAggregationFailed).
  { unfold aggregate, aggregate_and_verify_signature_shares_with_limit.
    rewrite (proj2 (N.eqb_neq _ _) Ht), (proj2 (N.ltb_ge _ _) Hle), (proj2 (N.ltb_ge _ _) Hmax).
    simpl. rewrite Hv, Hk. simpl. rewrite Hd. simpl.
    by rewrite length_sort_by_index, Hlen. }
  destruct (search_sublists (try_combination message public_key scaler negated) decoded threshold Hb)
    as [Hs Hc]. rewrite E. split.
  - intros signature Hok%ok_or_Ok. apply Hs in Hok as (sel & ? & ? & Hf).
    apply try_combination_Some in Hf as [? ?]. eauto.
  - intros sel signature Hsub Hl Hi Hver.
    destruct (Hc sel signature Hsub Hl) as [s' Hs'];
      [by apply try_combination_Some|]. exists s'. by rewrite Hs'.
Qed.

(** The shares of one ciphertext in a selection of contributions. *)
Definition shares_at (i : nat) (selected : list (N * list bytes)) : list (N * bytes) :=
  map (fun '(index, contribution) => (index, nth i contribution [])) selected.

Lemma decrypt_all_Some public_key scaler selected i ciphertexts keys :
  decrypt_all public_key scaler selected i ciphertexts = Some keys <->
  length keys = length ciphertexts /\
  forall j ciphertext key, ciphertexts !! j = Some ciphertext -> keys !! j = Some key ->
    aggregate_and_decrypt_with_key ciphertext public_key (shares_at (i + j) selected) scaler = Ok key.
Proof.
  revert i keys. induction ciphertexts as [|c cts IH]; intros i keys; simpl.
  - split; [intros [= <-]; done|]. intros [Hl _]. apply nil_length_inv in Hl. by subst.
  - fold (shares_at i selected). split.
    + destruct (aggregate_and_decrypt_with_key c _ _ _) as [key|] eqn:E; [|done].
      destruct (decrypt_all _ _ _ (S i) cts) as [ks|] eqn:Ek; [|done]. simpl. intros [= <-].
      apply IH in Ek as [Hl Hk]. split; [simpl; by rewrite Hl|].
      intros [|j] c' k'; simpl; [intros [= <-] [= <-]; by rewrite Nat.add_0_r|].
      rewrite <- Nat.add_succ_comm. apply Hk.
    + intros [Hl Hk]. destruct keys as [|k ks]; [done|].
      pose proof (Hk O c k eq_refl eq_refl) as H0. rewrite Nat.add_0_r in H0. rewrite H0.
      rewrite (proj2 (IH (S i) ks)); [done|]. split; [simpl in Hl; lia|].
      intros j c' k' Hc Hkj. rewrite Nat.add_succ_comm. by apply Hk.
Qed.

(** Envelope decryption uses one quorum for the whole block: the keys it
    returns all come from a single threshold-sized subset of the structurally
    complete contributions, each passing the pairing check for its ciphertext;
    and it succeeds whenever some such subset decrypts every ciphertext, however
    many partial or invalid contributions are mixed in. *)
Theorem aggregate_decrypt_keys_search ciphertexts global_public_key contributions threshold scaler
    max_contributions public_key :
  ciphertexts <> [] ->
  let eligible := filter (fun c => lenN c.2 = lenN ciphertexts) contributions in
  threshold <> 0 -> threshold <= lenN eligible -> lenN eligible <= max_contributions ->
  validate_indexed_shares eligible scaler = Ok tt ->
  decode_g1 global_public_key "global public key" = Ok public_key ->
  let decrypts selected keys :=
    sublist selected (sort_by_index eligible) /\ lenN selected = threshold /\
    length keys = length ciphertexts /\
    forall j ciphertext key, ciphertexts !! j = Some ciphertext -> keys !! j = Some key ->
      aggregate_and_decrypt_with_key ciphertext public_key (shares_at j selected) scaler = Ok key in
  let result := aggregate_and_decrypt_keys_with_limit ciphertexts global_public_key contributions
                  threshold scaler max_contributions in
  (forall keys, result = Ok keys -> exists selected, decrypts selected keys) /\
  (forall selected keys, decrypts selected keys -> exists keys', result = Ok keys').
Proof.
  intros Hne eligible Ht Hle Hmax Hv Hk decrypts res.
  assert (Hb : (N.to_nat threshold <= length (sort_by_index eligible))%nat)
    by (rewrite length_sort_by_index; unfold lenN in *; lia).
  assert (E : res = ok_or (first_some (fun positions =>
      decrypt_all public_key scaler (select (sort_by_index eligible) positions) 0 ciphertexts)
      (collect_combinations (N.to_nat threshold) (length (sort_by_index eligible)) 0 []))
      DecryptionAggregationFailed).
  { unfold res, aggregate_and_decrypt_keys_with_limit. fold eligible.
    rewrite (proj2 (N.eqb_neq _ _) Ht), (proj2 (N.ltb_ge _ _) Hle), (proj2 (N.ltb_ge _ _) Hmax).
    destruct ciphertexts; [done|]. cbn [orb]. rewrite Hv, Hk. done. }
  destruct (search_sublists (fun sel => decrypt_all public_key scaler sel 0 ciphertexts)
    (sort_by_index eligible) threshold Hb) as [Hs Hc]. rewrite E. split.
  - intros keys Hok%ok_or_Ok. apply Hs in Hok as (sel & ? & ? & Hf).
    apply decrypt_all_Some in Hf as [? ?]. exists sel. done.
  - intros sel keys (Hsub & Hl & Hlen & Hkeys).
    destruct (Hc sel keys Hsub Hl) as [k' Hk']; [by apply decrypt_all_Some|].
    exists k'. by rewrite Hk'.
Qed.
End searches.

(** ** AES-CBC *)

Lemma lxor_byte_bound a b : a < 256 -> b < 256 -> N.lxor a b < 256.
Proof.
  intros Ha Hb. destruct (N.eq_dec (N.lxor a b) 0) as [->|Hz]; [lia|].
  change 256 with (2 ^ 8). apply N.log2_lt_pow2; [lia|].
  pose proof (N.log2_lxor a b).
  assert (Hl : forall n, n < 256 -> N.log2 n < 8).
  { intros n Hn. destruct (N.eq_dec n 0) as [->|]; [done|]. apply N.log2_lt_pow2; [lia|done]. }
  pose proof (Hl a Ha). pose proof (Hl b Hb). lia.
Qed.

Lemma byte_xor_cancel a b : byte_xor (byte_xor a b) b = a.
Proof.
  unfold byte_xor. rewrite to_N_byte_of by (apply lxor_byte_bound; apply to_N_bound).
  by rewrite N.lxor_assoc, N.lxor_nilpotent, N.lxor_0_r, byte_of_to_N.
Qed.

Lemma zip_xor_cancel a b :
  length a = length b -> zip_with byte_xor (zip_with byte_xor a b) b = a.
Proof.
  revert b. induction a as [|x a IH]; intros [|y b] Hl; simpl in *; try done.
  rewrite byte_xor_cancel, IH by lia. done.
Qed.

(** PKCS#7 padding to 16-byte blocks, and CBC encryption with a block cipher:
    what a sender does. *)
Definition pad (message : bytes) : bytes :=
  let k := 16 - lenN message mod 16 in message ++ repeat (byte_of k) (N.to_nat k).

Fixpoint cbc_encrypt (encrypt_block : bytes -> bytes) (previous : bytes) (chunks : list bytes)
    : list bytes :=
  match chunks with
  | [] => []
  | chunk :: rest =>
      let c := encrypt_block (zip_with byte_xor chunk previous) in
      c :: cbc_encrypt encrypt_block c rest
  end.

Section aes_proofs.
Context `{Blst, Symmetric}.

Lemma cbc_round_trip cipher encrypt_block previous chunks :
  (forall b, length b = 16%nat ->
     length (encrypt_block b) = 16%nat /\ aes256_decrypt_block cipher (encrypt_block b) = b) ->
  length previous = 16%nat -> Forall (fun c => length c = 16%nat) chunks ->
  cbc_decrypt cipher previous (cbc_encrypt encrypt_block previous chunks) = chunks /\
  Forall (fun c => length c = 16%nat) (cbc_encrypt encrypt_block previous chunks).
Proof.
  intros Henc Hp Hc. revert previous Hp. induction Hc as [|c cs Hc Hcs IH]; intros previous Hp; simpl.
  { done. }
  assert (Hx : length (zip_with byte_xor c previous) = 16%nat)
    by (rewrite length_zip_with; lia).
  destruct (Henc _ Hx) as [Hl Hd]. destruct (IH _ Hl) as [-> Hf].
  rewrite Hd, zip_xor_cancel by lia. split; [done|by constructor].
Qed.

Lemma length_pad message : exists k, length (pad message) = (k * 16)%nat /\ k <> O.
Proof.
  unfold pad. rewrite length_app, repeat_length. unfold lenN.
  set (n := length message). exists (N.to_nat (N.of_nat n / 16 + 1)).
  div_facts (N.of_nat n) 16. lia.
Qed.

Lemma unpad_repeat strict message k :
  1 <= k <= 16 -> unpad strict (message ++ repeat (byte_of k) (N.to_nat k)) = Ok message.
Proof.
  intros Hk. unfold unpad.
  assert (Hlast : last (message ++ repeat (byte_of k) (N.to_nat k)) = Some (byte_of k)).
  { replace (N.to_nat k) with (S (N.to_nat (k - 1))) by lia.
    rewrite last_app. replace (last (repeat (byte_of k) (S (N.to_nat (k - 1)))))
      with (Some (byte_of k)); [done|].
    induction (N.to_nat (k - 1)) as [|m IH]; [done|]. simpl. simpl in IH. exact IH. }
  rewrite Hlast. cbn [ok_or result_bind]. rewrite to_N_byte_of by lia.
  assert (Hn : lenN (message ++ repeat (byte_of k) (N.to_nat k)) - k = lenN message)
    by (rewrite lenN_app; unfold lenN; rewrite repeat_length; lia).
  rewrite Hn. replace (N.to_nat (lenN message)) with (length message) by (unfold lenN; lia).
  rewrite drop_app_length, take_app_length.
  rewrite (proj2 (N.eqb_neq k 0)), (proj2 (N.ltb_ge 16 k)),
    (proj2 (N.ltb_ge (lenN _) k)) by (rewrite ?lenN_app; unfold lenN; rewrite ?repeat_length; lia).
  replace (forallb (fun b => Byte.to_N b =? k) (repeat (byte_of k) (N.to_nat k))) with true.
  - by destruct strict.
  - symmetry. apply forallb_forall. intros b Hb. apply repeat_spec in Hb as ->.
    rewrite to_N_byte_of by lia. apply N.eqb_refl.
Qed.

(** Anti-MEV payload decryption inverts encryption: a message padded with
    PKCS#7, encrypted with AES-256-CBC under the point-derived key and IV,
    decrypts to itself, in strict and in legacy unpadding mode. *)
Theorem decrypt_message_roundtrip key affine cipher encrypt_block message strict :
  decode_g1 key "decrypted key" = Ok affine ->
  length (sha256 (p1_serialize (p1_from_affine affine))) = 32%nat ->
  aes256_new_from_slice (sha256 (p1_serialize (p1_from_affine affine))) = Some cipher ->
  (forall b, length b = 16%nat ->
     length (encrypt_block b) = 16%nat /\ aes256_decrypt_block cipher (encrypt_block b) = b) ->
  let iv := take 16 (sha256 (p1_serialize (p1_from_affine affine))) in
  decrypt_message_with_mode key
    (concat (cbc_encrypt encrypt_block iv (as_chunks 16 (pad message)))) strict = Ok message.
Proof.
  intros Hg Hsha Hnew Henc iv.
  destruct (length_pad message) as (k & Hk & Hk0).
  destruct (as_chunks_sizes k 16 (pad message) ltac:(lia) Hk) as [Hn Hc].
  assert (Hiv : length iv = 16%nat) by (unfold iv; rewrite length_take; lia).
  destruct (cbc_round_trip cipher encrypt_block iv _ Henc Hiv Hc) as [Hdec Hf].
  set (ct := cbc_encrypt encrypt_block iv (as_chunks 16 (pad message))) in *.
  assert (Hlen : length ct = k).
  { apply (f_equal length) in Hdec. rewrite Hn in Hdec. rewrite <- Hdec.
    clear. generalize iv. induction ct as [|c l IH]; intros p; simpl; [done|]. by rewrite <- IH. }
  pose proof (length_concat_const 16 ct Hf) as Hl.
  unfold decrypt_message_with_mode.
  replace (lenN (concat ct)) with (N.of_nat k * 16) by (unfold lenN; lia).
  rewrite N.Div0.mod_mul, (proj2 (N.eqb_neq _ 0)) by lia. cbn [orb N.eqb negb].
  rewrite Hg. cbn [result_bind]. rewrite Hnew. cbn [ok_or result_bind].
  rewrite as_chunks_concat by done. fold iv. rewrite Hdec, (concat_as_chunks k 16) by done.
  unfold pad. apply unpad_repeat.
  div_facts (lenN message) 16. lia.
Qed.

(** Ciphertexts round-trip: the 192 bytes accepted by the decoder are
    exactly what the decoded ciphertext serialises to, and re-decode to it. *)
Theorem ciphertext_roundtrip encoded c :
  ciphertext_decode encoded = Ok c ->
  ciphertext_to_bytes c = encoded /\ lenN encoded = TPKE_SERIALIZED_LEN /\
  ciphertext_decode (ciphertext_to_bytes c) = Ok c.
Proof.
  intros Hd. assert (E : ciphertext_to_bytes c = encoded /\ lenN encoded = TPKE_SERIALIZED_LEN).
  { revert Hd. unfold ciphertext_decode.
    destruct (N.eqb_spec (lenN encoded) TPKE_SERIALIZED_LEN) as [Hl|]; [|done].
    intros Hd. cbn [negb] in Hd. bind_inv. split; [|done]. unfold ciphertext_to_bytes, slice. simpl.
    change (N.to_nat G1_COMPRESSED_LEN) with 48%nat. change 96%nat with (48 + 48)%nat.
    by rewrite <- drop_drop, !take_drop. }
  destruct E as [E1 E2]. by rewrite E1.
Qed.
End aes_proofs.

Module TpkeWitness.
#[local] Existing Instance model_blst.
#[local] Existing Instance model_symmetric.

Definition share (b : byte) : bytes := b :: repeat x00 95.

(** Two shares, of which only the second starts a verifying aggregate. *)
Definition shares : list (N * bytes) := [(1, share x00); (2, share x01)].

Lemma aggregate_signature_search_witness :
  exists signature,
    aggregate_and_verify_signature_shares_with_limit [] [] shares 1 360 false 7 = Ok signature.
Proof.
  destruct (@aggregate_signature_search model_blst [] [] shares 1 360 false 7 ([] : bytes) shares) as [_ Hc];
    [done|vm_compute; discriminate|vm_compute; discriminate
    |reflexivity|reflexivity|vm_compute; reflexivity|].
  apply (Hc [(2, share x01)] (share x01)); [|reflexivity|reflexivity|].
  - by do 2 constructor.
  - exists (share x01). split; [reflexivity|vm_compute; reflexivity].
Defined.

Definition ciphertext : TpkeCiphertext := mkTpkeCiphertext (repeat x00 48) (repeat x00 48) (repeat x00 96).

Lemma aggregate_decrypt_keys_search_witness :
  exists keys, aggregate_and_decrypt_keys_with_limit [ciphertext] []
    [(1, []); (2, [repeat x00 48])] 1 360 7 = Ok keys.
Proof.
  destruct (@aggregate_decrypt_keys_search model_blst [ciphertext] [] [(1, []); (2, [repeat x00 48])] 1 360 7
    ([] : bytes))
    as [_ Hc];
    [done|done|vm_compute; discriminate|vm_compute; discriminate|reflexivity|reflexivity|].
  apply (Hc [(2, [repeat x00 48])] [repeat x00 48]). split_and!; [|reflexivity..|].
  - reflexivity.
  - intros [|j] c k; [intros [= <-] [= <-]; reflexivity|done].
Defined.

Lemma decrypt_message_roundtrip_witness :
  decrypt_message_with_mode []
    (concat (cbc_encrypt (fun b => b) (take 16 (sha256 [])) (as_chunks 16 (pad [x07; x09])))) true
    = Ok [x07; x09].
Proof.
  apply (@decrypt_message_roundtrip model_blst model_symmetric [] ([] : bytes) (sha256 []) (fun b => b) [x07; x09] true);
    [reflexivity|reflexivity|reflexivity|done].
Defined.

Lemma ciphertext_roundtrip_witness : ciphertext_to_bytes ciphertext = repeat x00 192.
Proof. apply (ciphertext_roundtrip (repeat x00 192) ciphertext). reflexivity. Defined.
End TpkeWitness.
