(* ===== verification/Wire.v ===== *)
(** The signed dBFT envelope (crates/neox/network/src/dbft.rs, lines up to the
    message type): frame identifiers, the inner consensus header with its raw
    payload item, the outer message, its hash and its witness. *)

From S2P Require Import Prelude Extern Instances.

(** ** Frames *)

Inductive DbftWireMessageId : Type := Announce | Get | Message.

Definition wire_message_id_try_from (value : byte) : result byte DbftWireMessageId :=
  match value with
  | x00 => Ok Announce
  | x01 => Ok Get
  | x02 => Ok Message
  | other => Err other
  end.

Definition wire_message_id_as_u8 (id : DbftWireMessageId) : byte :=
  match id with Announce => x00 | Get => x01 | Message => x02 end.

Definition encode_frame {A} (message_id : DbftWireMessageId) (c : codec A) (value : A) : bytes :=
  wire_message_id_as_u8 message_id :: enc c value.

(** [decode_exact]: one value and nothing after it. *)
Definition decode_exact {A} (c : codec A) (payload : bytes) : result rlp_error A :=
  let? (value, payload) := dec c payload in
  match payload with [] => Ok value | _ => Err UnexpectedLength end.

(** ** Message types *)

Inductive DbftMessageType : Type :=
| ChangeView
| PrepareRequest
| PrepareResponse
| PreCommit
| Commit
| RecoveryRequest
| RecoveryMessage.

#[export] Instance dbft_message_type_eq_dec : EqDecision DbftMessageType.
Proof. solve_decision. Defined.

(** [message_type as u8] *)
Definition message_type_as_u8 (t : DbftMessageType) : N :=
  match t with
  | ChangeView => 0
  | PrepareRequest => 32
  | PrepareResponse => 33
  | PreCommit => 49
  | Commit => 48
  | RecoveryRequest => 64
  | RecoveryMessage => 65
  end.

Definition message_type_try_from (value : N) : result rlp_error DbftMessageType :=
  match value with
  | 0 => Ok ChangeView
  | 32 => Ok PrepareRequest
  | 33 => Ok PrepareResponse
  | 49 => Ok PreCommit
  | 48 => Ok Commit
  | 64 => Ok RecoveryRequest
  | 65 => Ok RecoveryMessage
  | _ => Err (Custom "unsupported Neo X dBFT message type")
  end.

#[export] Instance dbft_message_type_countable : Countable DbftMessageType.
Proof.
  refine (inj_countable message_type_as_u8 (fun n => result_ok (message_type_try_from n)) _).
  intros []; reflexivity.
Defined.

(** ** Records *)

Record DbftConsensusData : Type := mkDbftConsensusData {
  message_type : DbftMessageType;
  block_index : N;
  validator_index : N;
  view_number : N;
  payload : bytes;
}.

#[export] Instance dbft_consensus_data_eq_dec : EqDecision DbftConsensusData.
Proof. solve_decision. Defined.

Record DbftMessage : Type := mkDbftMessage {
  valid_block_start : N;
  valid_block_end : N;
  sender : Address;
  data : bytes;
  witness : bytes;
}.

#[export] Instance dbft_message_eq_dec : EqDecision DbftMessage.
Proof. solve_decision. Defined.

(** [InvalidRlp] carries rendered text in the source: here the error it renders,
    and [InvalidRlpPayload] where that is a payload error. *)
Inductive DbftProtocolViolation : Type :=
| EmptyMessage
| MessageTooLarge (size : N)
| InvalidMessageId (id : byte)
| InvalidRlp (error : rlp_error)
| InvalidRlpPayload
| InvalidWitnessLength (length : N)
| InvalidRecoveryId (value : byte)
| InvalidWitness
| SenderMismatch (expected recovered : Address)
| InvalidHeight (current start end_ : N)
| InboundQueueSaturated
| OutboundQueueSaturated
| ConsensusInactive
| InvalidValidatorSet
| DisallowedSender (a : Address)
| ValidatorIndexOutOfBounds (index validator_count : N)
| UnauthorizedValidator (index : N) (expected actual : Address).

#[export] Instance dbft_protocol_violation_eq_dec : EqDecision DbftProtocolViolation.
Proof. solve_decision. Defined.

Section wire.
Context `{AlloyRlp}.

(** The error of [split_at] past the end: a panic, proved not to happen. *)
Definition SPLIT_PANIC : rlp_error := Custom "split_at out of bounds".

Definition take_rlp_item (buf : bytes) : result rlp_error (bytes * bytes) :=
  let item := buf in
  let? (_, payload_length, buf) := rlp_header_decode buf in
  let header_length := lenN item - lenN buf in
  let item_length := header_length + payload_length in
  if item_length <=? lenN item
  then Ok (take (N.to_nat item_length) item, drop (N.to_nat item_length) item)
  else Err SPLIT_PANIC.

Definition consensus_data_fields (d : DbftConsensusData) : bytes :=
  enc rlp_u8 (message_type_as_u8 (message_type d)) ++ enc rlp_u64 (block_index d)
    ++ enc rlp_u8 (validator_index d) ++ enc rlp_u8 (view_number d) ++ payload d.

Definition consensus_data_encode (d : DbftConsensusData) : bytes :=
  rlp_header_encode true (lenN (consensus_data_fields d)) ++ consensus_data_fields d.

Definition consensus_data_decode (buf : bytes) : result rlp_error (DbftConsensusData * bytes) :=
  let? (p, buf) := rlp_decode_bytes true buf in
  let? (message_type, p) := dec rlp_u8 p in
  let? (block_index, p) := dec rlp_u64 p in
  let? (validator_index, p) := dec rlp_u8 p in
  let? (view_number, p) := dec rlp_u8 p in
  let? (encoded_payload, p) := take_rlp_item p in
  match p with
  | [] =>
      let? message_type := message_type_try_from message_type in
      Ok (mkDbftConsensusData message_type block_index validator_index view_number encoded_payload,
          buf)
  | _ => Err (ListLengthMismatch 5 6)
  end.

Definition consensus_data_codec : codec DbftConsensusData :=
  mkCodec consensus_data_encode consensus_data_decode.

(** [#[derive(RlpEncodable, RlpDecodable)] struct DbftMessage] *)
Definition dbft_message_codec : codec DbftMessage :=
  rlp_derive
    (codec_iso
       (fun '(s, (e, (a, (d, w)))) => mkDbftMessage s e a d w)
       (fun m => (valid_block_start m, (valid_block_end m, (sender m, (data m, witness m)))))
       (codec_pair rlp_u64 (codec_pair rlp_u64 (codec_pair rlp_address
          (codec_pair rlp_bytes rlp_bytes))))).

(** [message.length()] *)
Definition message_length (m : DbftMessage) : N := lenN (enc dbft_message_codec m).

Definition with_witness (m : DbftMessage) (w : bytes) : DbftMessage :=
  mkDbftMessage (valid_block_start m) (valid_block_end m) (sender m) (data m) w.

Definition consensus_data (m : DbftMessage) : result rlp_error DbftConsensusData :=
  let? data := decode_exact consensus_data_codec (data m) in
  if negb (block_index data =? valid_block_end m)
  then Err (Custom "dBFT inner block index does not match validity end")
  else Ok data.

Context `{Crypto}.

Definition message_hash (m : DbftMessage) : B256 :=
  keccak256 (enc dbft_message_codec (with_witness m [])).

Definition verify_witness (m : DbftMessage) : result DbftProtocolViolation B256 :=
  if negb (lenN (witness m) =? 65) then Err (InvalidWitnessLength (lenN (witness m)))
  else
    let? parity :=
      match nth 64 (witness m) x00 with
      | x00 => Ok false
      | x01 => Ok true
      | value => Err (InvalidRecoveryId value)
      end in
    let hash := message_hash m in
    let? recovered :=
      ok_or (recover_address_from_prehash (witness m) parity hash) InvalidWitness in
    if negb (bool_decide (recovered = sender m)) then Err (SenderMismatch (sender m) recovered)
    else Ok hash.
End wire.

(** ** Round trips *)

Definition consensus_data_ok (d : DbftConsensusData) : Prop :=
  block_index d <= U64_MAX /\ validator_index d <= U8_MAX /\ view_number d <= U8_MAX.

Definition message_ok (m : DbftMessage) : Prop :=
  valid_block_start m <= U64_MAX /\ valid_block_end m <= U64_MAX /\ length (sender m) = ADDRESS_LEN.

Lemma message_type_as_u8_bound t : message_type_as_u8 t <= U8_MAX.
Proof. destruct t; vm_compute; discriminate. Qed.

Lemma message_type_try_from_as_u8 t : message_type_try_from (message_type_as_u8 t) = Ok t.
Proof. by destruct t. Qed.

Section proofs.
Context {R : AlloyRlp} {RL : AlloyRlpLaws R}.

(** A whole item: what [take_rlp_item] takes without a remainder. *)
Definition rlp_item (p : bytes) : Prop := take_rlp_item p = Ok (p, []).

Lemma list_is_item p : lenN p <= USIZE_MAX -> rlp_item (rlp_header_encode true (lenN p) ++ p).
Proof.
  intros Hp. unfold rlp_item, take_rlp_item.
  rewrite <- (app_nil_r p) at 2. rewrite rlp_header_decode_list by done. simpl.
  rewrite app_nil_r, lenN_app.
  replace (lenN (rlp_header_encode true (lenN p)) + lenN p - lenN p + lenN p)
    with (lenN (rlp_header_encode true (lenN p) ++ p)) by (rewrite lenN_app; lia).
  rewrite lenN_app, N.leb_refl, <- lenN_app.
  rewrite take_ge, drop_ge by (unfold lenN; lia). done.
Qed.

(** A peer cannot make the consensus-header decoder read past its buffer:
    whatever bytes arrive, [take_rlp_item] never reaches its panicking split (its
    only errors are the RLP header's), and the item and the remainder it returns
    are exactly the input. *)
Theorem take_rlp_item_total buf :
  match rlp_header_decode buf with
  | Err e => take_rlp_item buf = Err e
  | Ok _ => exists item rest, take_rlp_item buf = Ok (item, rest) /\ item ++ rest = buf
  end.
Proof.
  unfold take_rlp_item. destruct (rlp_header_decode buf) as [[[l n] rest]|e] eqn:E; simpl; [|done].
  destruct (rlp_header_decode_bound _ _ _ _ E) as [Hn [sk ->]].
  rewrite lenN_app, (proj2 (N.leb_le _ _)) by lia.
  eexists _, _. split; [reflexivity|]. apply take_drop.
Qed.

Lemma take_rlp_item_split buf item rest : take_rlp_item buf = Ok (item, rest) -> item ++ rest = buf.
Proof.
  unfold take_rlp_item. intros Ht. apply result_bind_Ok in Ht as ([[l n] b] & _ & Ht).
  destruct (_ <=? _); [|done]. injection Ht as <- <-. apply take_drop.
Qed.

Lemma consensus_data_decode_encode d rest :
  consensus_data_ok d -> rlp_item (payload d) -> lenN (consensus_data_encode d) <= USIZE_MAX ->
  consensus_data_decode (consensus_data_encode d ++ rest) = Ok (d, rest).
Proof.
  intros (Hb & Hv & Hw) Hi Hmax. unfold consensus_data_encode in *. rewrite lenN_app in Hmax.
  unfold consensus_data_decode. rewrite <- app_assoc, rlp_decode_bytes_encode by lia.
  unfold consensus_data_fields in *. rewrite !lenN_app in Hmax. cbn [result_bind].
  rewrite rlp_u8_ok by (apply message_type_as_u8_bound || lia). cbn [result_bind].
  rewrite rlp_u64_ok by lia. cbn [result_bind].
  rewrite rlp_u8_ok by lia. cbn [result_bind]. rewrite rlp_u8_ok by lia. cbn [result_bind].
  rewrite Hi. cbn [result_bind]. rewrite message_type_try_from_as_u8. by destruct d.
Qed.

Lemma consensus_data_encode_item d :
  lenN (consensus_data_encode d) <= USIZE_MAX -> rlp_item (consensus_data_encode d).
Proof.
  intros Hl. unfold consensus_data_encode in *. rewrite lenN_app in Hl. apply list_is_item. lia.
Qed.

Lemma dbft_message_codec_ok : codec_ok dbft_message_codec message_ok.
Proof.
  apply rlp_derive_ok. eapply codec_ok_weaken; cycle 1.
  - apply codec_iso_ok; [by intros []|].
    repeat apply codec_pair_ok;
      [apply rlp_u64_ok|apply rlp_u64_ok|apply rlp_address_ok|apply rlp_bytes_ok|apply rlp_bytes_ok].
  - intros m (? & ? & ?). done.
Qed.

Lemma decode_exact_enc {A} (c : codec A) P a :
  codec_ok c P -> P a -> lenN (enc c a) <= USIZE_MAX -> decode_exact c (enc c a) = Ok a.
Proof.
  intros Hc Ha Hl. unfold decode_exact. rewrite <- (app_nil_r (enc c a)), Hc by done. done.
Qed.

Lemma decode_exact_Ok {A} (c : codec A) p a : decode_exact c p = Ok a <-> dec c p = Ok (a, []).
Proof.
  unfold decode_exact. destruct (dec c p) as [[a' [|b t]]|]; simpl; naive_solver.
Qed.

(** Distinct messages have distinct unsigned encodings. *)
Lemma dbft_message_enc_inj m m' :
  message_ok m -> message_ok m' -> message_length m <= USIZE_MAX -> message_length m' <= USIZE_MAX ->
  enc dbft_message_codec m = enc dbft_message_codec m' -> m = m'.
Proof.
  intros Hm Hm' Hl Hl' E.
  pose proof (decode_exact_enc _ _ _ dbft_message_codec_ok Hm Hl) as D.
  pose proof (decode_exact_enc _ _ _ dbft_message_codec_ok Hm' Hl') as D'. congruence.
Qed.

Context {C : Crypto}.

Lemma verify_witness_Ok m hash :
  verify_witness m = Ok hash ->
  hash = message_hash m /\ lenN (witness m) = 65 /\
  exists parity, recover_address_from_prehash (witness m) parity (message_hash m) = Some (sender m) /\
    nth 64 (witness m) x00 = (if parity then x01 else x00).
Proof.
  unfold verify_witness. destruct (N.eqb_spec (lenN (witness m)) 65) as [Hl|]; [|done].
  cbn [negb]. intros Hv. bind_inv. case_bool_decide as Hr; [|done]. cbn [negb] in Hv. bind_inv.
  split_and!; [done..|]. exists x. split; [by subst|].
  destruct (nth 64 (witness m) x00); naive_solver.
Qed.

(** The signed message binds its content: a message round-trips through the
    wire encoding, its hash does not depend on the witness, and two verified
    messages with one hash (Keccak not colliding on their encodings) agree in
    sender, validity range and data. *)
Theorem message_hash_binds m m' hash :
  message_ok m -> message_ok m' ->
  message_length (with_witness m []) <= USIZE_MAX ->
  message_length (with_witness m' []) <= USIZE_MAX ->
  (keccak256 (enc dbft_message_codec (with_witness m [])) =
     keccak256 (enc dbft_message_codec (with_witness m' [])) ->
   enc dbft_message_codec (with_witness m []) = enc dbft_message_codec (with_witness m' [])) ->
  verify_witness m = Ok hash -> verify_witness m' = Ok hash ->
  with_witness m (witness m') = m' /\
  forall w, message_hash (with_witness m w) = hash.
Proof.
  intros Hm Hm' Hl Hl' Hk (-> & _)%verify_witness_Ok (E & _)%verify_witness_Ok.
  unfold message_hash in E. apply Hk, dbft_message_enc_inj in E; try done.
  split; [|by intros w]. destruct m, m'. unfold with_witness in *. simpl in *. congruence.
Qed.
End proofs.

Module WireWitness.
Import RlpInstance.
#[local] Existing Instance alloy_rlp.
#[local] Existing Instance alloy_rlp_laws.
#[local] Existing Instance model_crypto.

Lemma take_rlp_item_total_witness :
  exists item rest, take_rlp_item [xc0; x01] = Ok (item, rest) /\ item ++ rest = [xc0; x01].
Proof. exact (@take_rlp_item_total alloy_rlp alloy_rlp_laws [xc0; x01]). Defined.

(** A message whose witness recovers to its sender. *)
Definition signed_message (d : bytes) (last : byte) : DbftMessage :=
  mkDbftMessage 0 1 (repeat x01 20) d (repeat x01 20 ++ repeat x00 43 ++ [last; x00]).

Lemma message_hash_binds_witness :
  with_witness (signed_message [x05] x01) (witness (signed_message [x05] x02))
    = signed_message [x05] x02.
Proof.
  apply (message_hash_binds (signed_message [x05] x01) (signed_message [x05] x02)
    (message_hash (signed_message [x05] x01)));
    [by vm_compute|by vm_compute|vm_compute; discriminate|vm_compute; discriminate
    |intros _; reflexivity|vm_compute; reflexivity|vm_compute; reflexivity].
Defined.
End WireWitness.
