(* ===== verification/Payload.v ===== *)
(** Type-specific dBFT payloads (crates/neox/network/src/dbft_payload.rs):
    change views, proposals, responses, anti-MEV pre-commits, commits, and the
    compact recovery message with its accumulation and authenticated expansion. *)

From S2P Require Import Prelude Extern Instances Tpke Wire.

Definition PRECOMMIT_COUNT_PREFIX_LEN : N := 8.
Definition MAX_DECRYPTION_SHARES_PER_BLOCK : N := 1000.
Definition MAX_RECOVERY_PAYLOADS : nat := 256.

(** ** Data *)

Inductive DbftChangeViewReason : Type :=
| Timeout
| ChangeAgreement
| TransactionNotFound
| TransactionRejectedByPolicy
| TransactionInvalid
| BlockRejectedByPolicy
| Unknown.

#[export] Instance change_view_reason_eq_dec : EqDecision DbftChangeViewReason.
Proof. solve_decision. Defined.

(** The text of [InvalidRecoveredMessage], as data. *)
Inductive RecoveryFailure : Type :=
| UnauthenticatedMessage (error : DbftProtocolViolation)
| BadConsensusData (error : rlp_error)
| DuplicateRecovered (kind : string) (index : N)
| NestedRecovery
| NotARecoveryMessage
| InvalidRecoveryValidatorCount (count : N)
| IndexOutsideSet (kind : string) (index validator_count : N)
| AmbiguousChangeViewWitness (index : N)
| InvalidChangeViewWitness (index : N)
| InvalidRecoveredWitness (kind : string) (index : N) (error : DbftProtocolViolation).

#[export] Instance recovery_failure_eq_dec : EqDecision RecoveryFailure.
Proof. solve_decision. Defined.

Inductive DbftPayloadError : Type :=
| PayloadInvalidRlp (error : rlp_error)
| InvalidChangeViewReason (value : N)
| SharesTooShort (length : N)
| TooManyShares (count : N)
| InvalidSharesLength (expected actual : N)
| InvalidDecryptionShare (error : TpkeError)
| InvalidRecoveredMessage (failure : RecoveryFailure)
| InvalidCommitLength (length : N)
| InvalidCommitRecoveryId (value : byte)
| InvalidCommitSignatureShare (error : TpkeError).

#[export] Instance dbft_payload_error_eq_dec : EqDecision DbftPayloadError.
Proof. solve_decision. Defined.

Definition change_view_reason_as_u8 (r : DbftChangeViewReason) : N :=
  match r with
  | Timeout => 0
  | ChangeAgreement => 1
  | TransactionNotFound => 2
  | TransactionRejectedByPolicy => 3
  | TransactionInvalid => 4
  | BlockRejectedByPolicy => 5
  | Unknown => 255
  end.

Definition change_view_reason_try_from (value : N) : result DbftPayloadError DbftChangeViewReason :=
  match value with
  | 0 => Ok Timeout
  | 1 => Ok ChangeAgreement
  | 2 => Ok TransactionNotFound
  | 3 => Ok TransactionRejectedByPolicy
  | 4 => Ok TransactionInvalid
  | 5 => Ok BlockRejectedByPolicy
  | 255 => Ok Unknown
  | value => Err (InvalidChangeViewReason value)
  end.

Record DbftChangeView : Type := mkDbftChangeView { cv_timestamp_ns : N; cv_reason : N }.

Record DbftPrepareRequest : Type := mkDbftPrepareRequest {
  sealing_proposal : Header;
  transaction_hashes : list B256;
  parent_seal_hash_v0 : option B256;
  parent_extra : option bytes;
}.

Record DbftPrepareResponse : Type := mkDbftPrepareResponse { pr_preparation_hash : B256 }.

Record DbftPreCommit : Type := mkDbftPreCommit {
  current_round : list bytes;
  previous_round : list bytes;
  pc_data : bytes;
}.

Record DbftCommit : Type := mkDbftCommit { signature : bytes }.

Inductive DbftCommitSignature : Type :=
| EcdsaCommit (signature : bytes)
| ThresholdCommit (share : bytes).

Record DbftRecoveryRequest : Type := mkDbftRecoveryRequest { rr_timestamp_ns : N }.

Record PreparationCompact : Type := mkPreparationCompact {
  p_validator_index : N;
  p_invocation_script : bytes;
}.

Record CommitCompact : Type := mkCommitCompact {
  c_view_number : N;
  c_validator_index : N;
  c_signature : bytes;
  c_invocation_script : bytes;
}.

Record ChangeViewCompact : Type := mkChangeViewCompact {
  v_validator_index : N;
  v_original_view_number : N;
  v_timestamp_ns : N;
  v_invocation_script : bytes;
}.

Record PreCommitCompact : Type := mkPreCommitCompact {
  pc_view_number : N;
  pc_validator_index : N;
  pc_packet : bytes;
  pc_invocation_script : bytes;
}.

Record DbftRecoveryMessage : Type := mkDbftRecoveryMessage {
  preparations : list PreparationCompact;
  commits : list CommitCompact;
  change_views : list ChangeViewCompact;
  preparation_hash : option B256;
  prepare_request : option DbftConsensusData;
  pre_commits : list PreCommitCompact;
}.

Inductive DbftDecodedPayload : Type :=
| DecodedChangeView (p : DbftChangeView)
| DecodedPrepareRequest (p : DbftPrepareRequest)
| DecodedPrepareResponse (p : DbftPrepareResponse)
| DecodedPreCommit (p : DbftPreCommit)
| DecodedCommit (p : DbftCommit)
| DecodedRecoveryRequest (p : DbftRecoveryRequest)
| DecodedRecoveryMessage (p : DbftRecoveryMessage).

#[export] Instance change_view_eq_dec : EqDecision DbftChangeView.
Proof. solve_decision. Defined.
#[export] Instance prepare_request_eq_dec : EqDecision DbftPrepareRequest.
Proof. solve_decision. Defined.
#[export] Instance pre_commit_eq_dec : EqDecision DbftPreCommit.
Proof. solve_decision. Defined.
#[export] Instance commit_eq_dec : EqDecision DbftCommit.
Proof. solve_decision. Defined.
#[export] Instance preparation_compact_eq_dec : EqDecision PreparationCompact.
Proof. solve_decision. Defined.
#[export] Instance commit_compact_eq_dec : EqDecision CommitCompact.
Proof. solve_decision. Defined.
#[export] Instance change_view_compact_eq_dec : EqDecision ChangeViewCompact.
Proof. solve_decision. Defined.
#[export] Instance pre_commit_compact_eq_dec : EqDecision PreCommitCompact.
Proof. solve_decision. Defined.
#[export] Instance recovery_message_eq_dec : EqDecision DbftRecoveryMessage.
Proof. solve_decision. Defined.

Definition change_view_new (timestamp_ns : N) (reason : DbftChangeViewReason) : DbftChangeView :=
  mkDbftChangeView timestamp_ns (change_view_reason_as_u8 reason).

Definition change_view_reason (c : DbftChangeView) : result DbftPayloadError DbftChangeViewReason :=
  change_view_reason_try_from (cv_reason c).

Definition share_count (p : DbftPreCommit) : N :=
  lenN (current_round p) + lenN (previous_round p).

Definition recovery_new : DbftRecoveryMessage := mkDbftRecoveryMessage [] [] [] None None [].

Definition includes_prepare_request (r : DbftRecoveryMessage) : bool :=
  bool_decide (is_Some (prepare_request r)) || negb (bool_decide (pre_commits r = [])).

Definition includes_preparation_hash (r : DbftRecoveryMessage) : bool :=
  bool_decide (is_Some (preparation_hash r)) || includes_prepare_request r.

(** The hash written for a proposal: explicit, or zero when only the parent
    extra is attached. *)
Definition effective_parent_seal_hash (r : DbftPrepareRequest) : option B256 :=
  match parent_seal_hash_v0 r with
  | Some h => Some h
  | None => match parent_extra r with Some _ => Some ZERO_B256 | None => None end
  end.

(** ** Codecs *)

Section payload.
Context `{AlloyRlp, Crypto, Blst}.

Definition change_view_codec : codec DbftChangeView :=
  rlp_derive (codec_iso (fun '(t, r) => mkDbftChangeView t r)
                (fun c => (cv_timestamp_ns c, cv_reason c)) (codec_pair rlp_u64 rlp_u8)).
Definition prepare_response_codec : codec DbftPrepareResponse :=
  rlp_derive (codec_iso mkDbftPrepareResponse pr_preparation_hash rlp_b256).
Definition commit_codec : codec DbftCommit :=
  rlp_derive (codec_iso mkDbftCommit signature rlp_bytes).
Definition recovery_request_codec : codec DbftRecoveryRequest :=
  rlp_derive (codec_iso mkDbftRecoveryRequest rr_timestamp_ns rlp_u64).
Definition preparation_compact_codec : codec PreparationCompact :=
  rlp_derive (codec_iso (fun '(i, s) => mkPreparationCompact i s)
                (fun c => (p_validator_index c, p_invocation_script c))
                (codec_pair rlp_u8 rlp_bytes)).
Definition commit_compact_codec : codec CommitCompact :=
  rlp_derive (codec_iso (fun '(v, (i, (s, w))) => mkCommitCompact v i s w)
                (fun c => (c_view_number c, (c_validator_index c,
                             (c_signature c, c_invocation_script c))))
                (codec_pair rlp_u8 (codec_pair rlp_u8 (codec_pair rlp_bytes rlp_bytes)))).
Definition change_view_compact_codec : codec ChangeViewCompact :=
  rlp_derive (codec_iso (fun '(i, (v, (t, w))) => mkChangeViewCompact i v t w)
                (fun c => (v_validator_index c, (v_original_view_number c,
                             (v_timestamp_ns c, v_invocation_script c))))
                (codec_pair rlp_u8 (codec_pair rlp_u8 (codec_pair rlp_u64 rlp_bytes)))).
Definition pre_commit_compact_codec : codec PreCommitCompact :=
  rlp_derive (codec_iso (fun '(v, (i, (d, w))) => mkPreCommitCompact v i d w)
                (fun c => (pc_view_number c, (pc_validator_index c,
                             (pc_packet c, pc_invocation_script c))))
                (codec_pair rlp_u8 (codec_pair rlp_u8 (codec_pair rlp_bytes rlp_bytes)))).

(** [(!payload.is_empty()).then(|| T::decode(&mut payload)).transpose()] *)
Definition decode_trailing {A} (c : codec A) (p : bytes) : result rlp_error (option A * bytes) :=
  match p with
  | [] => Ok (None, [])
  | _ => let? (a, p) := dec c p in Ok (Some a, p)
  end.

Definition prepare_request_fields (r : DbftPrepareRequest) : bytes :=
  enc rlp_header (sealing_proposal r) ++ enc (rlp_vec rlp_b256) (transaction_hashes r)
    ++ match effective_parent_seal_hash r with Some h => enc rlp_b256 h | None => [] end
    ++ match parent_extra r with Some e => enc rlp_bytes e | None => [] end.

Definition prepare_request_decode (buf : bytes) : result rlp_error (DbftPrepareRequest * bytes) :=
  let? (p, buf) := rlp_decode_bytes true buf in
  let? (sealing_proposal, p) := dec rlp_header p in
  let? (transaction_hashes, p) := dec (rlp_vec rlp_b256) p in
  let? (parent_seal_hash_v0, p) := decode_trailing rlp_b256 p in
  let? (parent_extra, p) := decode_trailing rlp_bytes p in
  match p with
  | [] => Ok (mkDbftPrepareRequest sealing_proposal transaction_hashes parent_seal_hash_v0 parent_extra,
              buf)
  | _ => Err (ListLengthMismatch 4 5)
  end.

Definition prepare_request_codec : codec DbftPrepareRequest :=
  mkCodec (fun r => rlp_header_encode true (lenN (prepare_request_fields r)) ++ prepare_request_fields r)
    prepare_request_decode.

(** ** PreCommit *)

Definition decode_share (share : bytes) : result DbftPayloadError bytes :=
  map_err InvalidDecryptionShare (decryption_share_decode share).

Definition from_data (data : bytes) : result DbftPayloadError DbftPreCommit :=
  if lenN data <? PRECOMMIT_COUNT_PREFIX_LEN then Err (SharesTooShort (lenN data))
  else
    let current_count := N_of_le (slice 0 4 data) in
    let previous_count := N_of_le (slice 4 8 data) in
    let? total := ok_or (checked_add U32_MAX current_count previous_count) (TooManyShares USIZE_MAX) in
    if MAX_DECRYPTION_SHARES_PER_BLOCK <? total then Err (TooManyShares total)
    else
      let? expected :=
        ok_or (checked_add USIZE_MAX PRECOMMIT_COUNT_PREFIX_LEN
                 (N.min (total * DECRYPTION_SHARE_LEN) USIZE_MAX))
          (TooManyShares total) in
      if negb (lenN data =? expected) then Err (InvalidSharesLength expected (lenN data))
      else
        let shares := as_chunks (N.to_nat DECRYPTION_SHARE_LEN) (drop 8 data) in
        let? current_round := collect_result decode_share (take (N.to_nat current_count) shares) in
        let? previous_round := collect_result decode_share (drop (N.to_nat current_count) shares) in
        Ok (mkDbftPreCommit current_round previous_round data).

Definition pre_commit_codec : codec DbftPreCommit :=
  mkCodec
    (fun p => rlp_header_encode true (lenN (enc rlp_bytes (pc_data p))) ++ enc rlp_bytes (pc_data p))
    (fun buf =>
       let? (p, buf) := rlp_decode_bytes true buf in
       let? (data, p) := dec rlp_bytes p in
       match p with
       | [] => let? c := map_err (fun _ => Custom "invalid dBFT PreCommit shares") (from_data data) in
               Ok (c, buf)
       | _ => Err (ListLengthMismatch 1 2)
       end).

(** ** Commit *)

Definition validated_signature (c : DbftCommit) : result DbftPayloadError DbftCommitSignature :=
  match lenN (signature c) with
  | 65 =>
      match nth 64 (signature c) x00 with
      | x00 | x01 => Ok (EcdsaCommit (signature c))
      | b => Err (InvalidCommitRecoveryId b)
      end
  | 96 =>
      match signature_share_decode (signature c) with
      | Ok share => Ok (ThresholdCommit share)
      | Err error => Err (InvalidCommitSignatureShare error)
      end
  | actual => Err (InvalidCommitLength actual)
  end.

(** ** Recovery message codec *)

Definition recovery_fields (r : DbftRecoveryMessage) : bytes :=
  enc (rlp_vec preparation_compact_codec) (preparations r)
    ++ enc (rlp_vec commit_compact_codec) (commits r)
    ++ enc (rlp_vec change_view_compact_codec) (change_views r)
    ++ (if includes_preparation_hash r
        then match preparation_hash r with
             | Some h => enc rlp_b256 h
             | None => enc rlp_bytes []
             end
        else [])
    ++ (if includes_prepare_request r
        then match prepare_request r with
             | Some q => enc consensus_data_codec q
             | None => rlp_header_encode true 0
             end
        else [])
    ++ (if bool_decide (pre_commits r = []) then []
        else enc (rlp_vec pre_commit_compact_codec) (pre_commits r)).

(** The loop of [decode_capped] with [room = max - out.len()]. *)
Fixpoint capped_items {A} (c : codec A) (room : nat) (p : bytes) : result rlp_error (list A) :=
  match p with
  | [] => Ok []
  | _ =>
      match room with
      | O => Err (Custom "too many compact dBFT recovery payloads")
      | S room =>
          let? (a, p) := dec c p in
          let? rest := capped_items c room p in
          Ok (a :: rest)
      end
  end.

Definition decode_capped {A} (c : codec A) (max : nat) (buf : bytes)
    : result rlp_error (list A * bytes) :=
  let? (p, buf) := rlp_decode_bytes true buf in
  let? items := capped_items c max p in
  Ok (items, buf).

Definition decode_optional {A} (c : codec A) (buf : bytes) : result rlp_error (option A * bytes) :=
  match buf with
  | (x80 | xc0) :: rest => Ok (None, rest)
  | _ => let? (a, rest) := dec c buf in Ok (Some a, rest)
  end.

(** [(!payload.is_empty()).then(|| decode_optional(..)).transpose()?.flatten()] *)
Definition decode_slot {A} (c : codec A) (p : bytes) : result rlp_error (option A * bytes) :=
  match p with [] => Ok (None, []) | _ => decode_optional c p end.

Definition validate_limits (r : DbftRecoveryMessage) : result rlp_error unit :=
  if (MAX_RECOVERY_PAYLOADS <? length (preparations r))%nat ||
     (MAX_RECOVERY_PAYLOADS <? length (commits r))%nat ||
     (MAX_RECOVERY_PAYLOADS <? length (change_views r))%nat ||
     (MAX_RECOVERY_PAYLOADS <? length (pre_commits r))%nat
  then Err (Custom "too many compact dBFT recovery payloads")
  else if match prepare_request r with
          | Some request => negb (bool_decide (message_type request = PrepareRequest))
          | None => false
          end
  then Err (Custom "recovery payload embeds wrong message type")
  else
    let? _ :=
      collect_result
        (fun c => map_err (fun _ => Custom "invalid recovered PreCommit shares")
                    (from_data (pc_packet c)))
        (pre_commits r) in
    Ok tt.

Definition recovery_decode (buf : bytes) : result rlp_error (DbftRecoveryMessage * bytes) :=
  let? (p, buf) := rlp_decode_bytes true buf in
  let? (preparations, p) := decode_capped preparation_compact_codec MAX_RECOVERY_PAYLOADS p in
  let? (commits, p) := decode_capped commit_compact_codec MAX_RECOVERY_PAYLOADS p in
  let? (change_views, p) := decode_capped change_view_compact_codec MAX_RECOVERY_PAYLOADS p in
  let? (preparation_hash, p) := decode_slot rlp_b256 p in
  let? (prepare_request, p) := decode_slot consensus_data_codec p in
  let? (pre_commits, p) :=
    match p with
    | [] => Ok ([], [])
    | _ => decode_capped pre_commit_compact_codec MAX_RECOVERY_PAYLOADS p
    end in
  match p with
  | [] =>
      let message := mkDbftRecoveryMessage preparations commits change_views preparation_hash
                       prepare_request pre_commits in
      let? _ := validate_limits message in
      Ok (message, buf)
  | _ => Err (ListLengthMismatch 6 7)
  end.

Definition recovery_message_codec : codec DbftRecoveryMessage :=
  mkCodec (fun r => rlp_header_encode true (lenN (recovery_fields r)) ++ recovery_fields r)
    recovery_decode.

(** ** Typed decoding *)

Definition decode_payload {A} (c : codec A) (p : bytes) : result DbftPayloadError A :=
  map_err PayloadInvalidRlp (decode_exact c p).

Definition decoded_payload (d : DbftConsensusData) : result DbftPayloadError DbftDecodedPayload :=
  match message_type d with
  | ChangeView =>
      let? p := decode_payload change_view_codec (payload d) in
      let? _ := change_view_reason p in
      Ok (DecodedChangeView p)
  | PrepareRequest =>
      let? p := decode_payload prepare_request_codec (payload d) in Ok (DecodedPrepareRequest p)
  | PrepareResponse =>
      let? p := decode_payload prepare_response_codec (payload d) in Ok (DecodedPrepareResponse p)
  | PreCommit =>
      let? p := decode_payload pre_commit_codec (payload d) in Ok (DecodedPreCommit p)
  | Commit =>
      let? p := decode_payload commit_codec (payload d) in
      let? _ := validated_signature p in
      Ok (DecodedCommit p)
  | RecoveryRequest =>
      let? p := decode_payload recovery_request_codec (payload d) in Ok (DecodedRecoveryRequest p)
  | RecoveryMessage =>
      let? p := decode_payload recovery_message_codec (payload d) in Ok (DecodedRecoveryMessage p)
  end.

(** ** Accumulating a recovery message *)

Definition reject_duplicate_index (indices : list N) (index : N) (kind : string)
    : result DbftPayloadError unit :=
  if bool_decide (index ∈ indices)
  then Err (InvalidRecoveredMessage (DuplicateRecovered kind index))
  else Ok tt.

Definition reject_duplicate_preparation (r : DbftRecoveryMessage) (index : N)
    : result DbftPayloadError unit :=
  reject_duplicate_index (map p_validator_index (preparations r)) index "preparation".

Definition add_message (r : DbftRecoveryMessage) (m : DbftMessage)
    : result DbftPayloadError DbftRecoveryMessage :=
  let? _ :=
    map_err (fun e => InvalidRecoveredMessage (UnauthenticatedMessage e)) (verify_witness m) in
  let? data := map_err (fun e => InvalidRecoveredMessage (BadConsensusData e)) (consensus_data m) in
  let? p := decoded_payload data in
  let index := validator_index data in
  match p with
  | DecodedPrepareRequest _ =>
      let? _ := reject_duplicate_preparation r index in
      Ok (mkDbftRecoveryMessage
            (preparations r ++ [mkPreparationCompact index (witness m)])
            (commits r) (change_views r)
            (Some (message_hash m))
            (Some (mkDbftConsensusData PrepareRequest 0 0 (view_number data) (payload data)))
            (pre_commits r))
  | DecodedPrepareResponse response =>
      let? _ := reject_duplicate_preparation r index in
      Ok (mkDbftRecoveryMessage
            (preparations r ++ [mkPreparationCompact index (witness m)])
            (commits r) (change_views r)
            (match preparation_hash r with
             | None => Some (pr_preparation_hash response)
             | Some h => Some h
             end)
            (prepare_request r) (pre_commits r))
  | DecodedChangeView change_view =>
      let? _ := reject_duplicate_index (map v_validator_index (change_views r)) index "change-view" in
      Ok (mkDbftRecoveryMessage (preparations r) (commits r)
            (change_views r ++ [mkChangeViewCompact index (view_number data)
                                  (cv_timestamp_ns change_view) (witness m)])
            (preparation_hash r) (prepare_request r) (pre_commits r))
  | DecodedPreCommit pre_commit =>
      let? _ := reject_duplicate_index (map pc_validator_index (pre_commits r)) index "pre-commit" in
      Ok (mkDbftRecoveryMessage (preparations r) (commits r) (change_views r)
            (preparation_hash r) (prepare_request r)
            (pre_commits r ++ [mkPreCommitCompact (view_number data) index
                                 (pc_data pre_commit) (witness m)]))
  | DecodedCommit commit =>
      let? _ := reject_duplicate_index (map c_validator_index (commits r)) index "commit" in
      Ok (mkDbftRecoveryMessage (preparations r)
            (commits r ++ [mkCommitCompact (view_number data) index (signature commit) (witness m)])
            (change_views r) (preparation_hash r) (prepare_request r) (pre_commits r))
  | DecodedRecoveryRequest _ | DecodedRecoveryMessage _ =>
      Err (InvalidRecoveredMessage NestedRecovery)
  end.

(** ** Expanding it *)

(** The loop of [validate_unique_indices], with the indices already seen. *)
Fixpoint unique_indices (seen indices : list N) (validator_count : N) (kind : string)
    : result DbftPayloadError unit :=
  match indices with
  | [] => Ok tt
  | index :: rest =>
      if validator_count <=? index
      then Err (InvalidRecoveredMessage (IndexOutsideSet kind index validator_count))
      else if bool_decide (index ∈ seen)
      then Err (InvalidRecoveredMessage (DuplicateRecovered kind index))
      else unique_indices (index :: seen) rest validator_count kind
  end.

Definition validate_unique_indices (indices : list N) (validator_count : N) (kind : string)
    : result DbftPayloadError unit := unique_indices [] indices validator_count kind.

Definition recovered_message (height : N) (sender : Address) (validator_index view_number : N)
    (message_type : DbftMessageType) (payload witness : bytes) : DbftMessage :=
  let data := mkDbftConsensusData message_type height validator_index view_number payload in
  mkDbftMessage 0 height sender (consensus_data_encode data) witness.

Definition verify_recovered (m : DbftMessage) (kind : string) (validator_index : N)
    : result DbftPayloadError unit :=
  let? _ :=
    map_err (fun e => InvalidRecoveredMessage (InvalidRecoveredWitness kind validator_index e))
      (verify_witness m) in
  Ok tt.

(** The primary computed from the recovery message's height and view. *)
Definition recovery_primary_index (height view validator_count : N) : N :=
  as_u8 ((as_u32 height + validator_count - view mod validator_count) mod validator_count).

Definition change_view_reasons : list DbftChangeViewReason :=
  [Timeout; ChangeAgreement; TransactionNotFound; TransactionRejectedByPolicy;
   TransactionInvalid; BlockRejectedByPolicy; Unknown].

Definition change_view_candidate (height : N) (sender : Address) (c : ChangeViewCompact)
    (reason : DbftChangeViewReason) : DbftMessage :=
  recovered_message height sender (v_validator_index c) (v_original_view_number c) ChangeView
    (enc change_view_codec (change_view_new (v_timestamp_ns c) reason)) (v_invocation_script c).

(** The loop over the seven reasons; [authenticated] is the candidate kept. *)
Fixpoint authenticate_change_view (height : N) (sender : Address) (c : ChangeViewCompact)
    (reasons : list DbftChangeViewReason) (authenticated : option DbftMessage)
    : result DbftPayloadError (option DbftMessage) :=
  match reasons with
  | [] => Ok authenticated
  | reason :: rest =>
      let candidate := change_view_candidate height sender c reason in
      if is_ok (verify_witness candidate)
      then
        match authenticated with
        | Some _ =>
            Err (InvalidRecoveredMessage (AmbiguousChangeViewWitness (v_validator_index c)))
        | None => authenticate_change_view height sender c rest (Some candidate)
        end
      else authenticate_change_view height sender c rest authenticated
  end.

Definition validator_at (validators : list Address) (index : N) : Address :=
  nth (N.to_nat index) validators [].

Definition expand_change_view (height : N) (validators : list Address) (c : ChangeViewCompact)
    : result DbftPayloadError DbftMessage :=
  let? authenticated :=
    authenticate_change_view height (validator_at validators (v_validator_index c)) c
      change_view_reasons None in
  ok_or authenticated (InvalidRecoveredMessage (InvalidChangeViewWitness (v_validator_index c))).

Definition expand_checked (kind : string) (index : N) (m : DbftMessage)
    : result DbftPayloadError DbftMessage :=
  let? _ := verify_recovered m kind index in Ok m.

Definition expand_prepare_request (r : DbftRecoveryMessage) (height view primary_index : N)
    (validators : list Address) : result DbftPayloadError (list DbftMessage) :=
  let primary_compact :=
    List.find (fun c => p_validator_index c =? primary_index) (preparations r) in
  match prepare_request r, primary_compact with
  | Some request, Some compact =>
      let? m :=
        expand_checked "PrepareRequest" primary_index
          (recovered_message height (validator_at validators primary_index) primary_index view
             PrepareRequest (payload request) (p_invocation_script compact)) in
      Ok [m]
  | _, _ => Ok []
  end.

Definition expand_prepare_responses (r : DbftRecoveryMessage) (height view primary_index : N)
    (validators : list Address) : result DbftPayloadError (list DbftMessage) :=
  match preparation_hash r with
  | None => Ok []
  | Some hash =>
      collect_result
        (fun c =>
           expand_checked "PrepareResponse" (p_validator_index c)
             (recovered_message height (validator_at validators (p_validator_index c))
                (p_validator_index c) view PrepareResponse
                (enc prepare_response_codec (mkDbftPrepareResponse hash)) (p_invocation_script c)))
        (filter (fun c => p_validator_index c <> primary_index) (preparations r))
  end.

Definition expand_pre_commit (height : N) (validators : list Address) (c : PreCommitCompact)
    : result DbftPayloadError DbftMessage :=
  let? p := from_data (pc_packet c) in
  expand_checked "PreCommit" (pc_validator_index c)
    (recovered_message height (validator_at validators (pc_validator_index c))
       (pc_validator_index c) (pc_view_number c) PreCommit (enc pre_commit_codec p)
       (pc_invocation_script c)).

Definition expand_commit (height : N) (validators : list Address) (c : CommitCompact)
    : result DbftPayloadError DbftMessage :=
  expand_checked "Commit" (c_validator_index c)
    (recovered_message height (validator_at validators (c_validator_index c))
       (c_validator_index c) (c_view_number c) Commit
       (enc commit_codec (mkDbftCommit (c_signature c))) (c_invocation_script c)).

Definition expand (r : DbftRecoveryMessage) (recovery : DbftMessage) (validators : list Address)
    : result DbftPayloadError (list DbftMessage) :=
  let? recovery_data :=
    map_err (fun e => InvalidRecoveredMessage (BadConsensusData e)) (consensus_data recovery) in
  if negb (bool_decide (message_type recovery_data = RecoveryMessage))
  then Err (InvalidRecoveredMessage NotARecoveryMessage)
  else if bool_decide (validators = []) || (U8_MAX + 1 <? lenN validators)
  then Err (InvalidRecoveredMessage (InvalidRecoveryValidatorCount (lenN validators)))
  else
    let n := lenN validators in
    let? _ := validate_unique_indices (map p_validator_index (preparations r)) n "preparation" in
    let? _ := validate_unique_indices (map pc_validator_index (pre_commits r)) n "pre-commit" in
    let? _ := validate_unique_indices (map c_validator_index (commits r)) n "commit" in
    let? _ := validate_unique_indices (map v_validator_index (change_views r)) n "change-view" in
    let height := block_index recovery_data in
    let recovery_view := view_number recovery_data in
    let primary_index := recovery_primary_index height recovery_view n in
    let? change_views := collect_result (expand_change_view height validators) (change_views r) in
    let? request := expand_prepare_request r height recovery_view primary_index validators in
    let? responses := expand_prepare_responses r height recovery_view primary_index validators in
    let? pre_commits := collect_result (expand_pre_commit height validators) (pre_commits r) in
    let? commits := collect_result (expand_commit height validators) (commits r) in
    Ok (change_views ++ request ++ responses ++ pre_commits ++ commits).
End payload.

(** ** PreCommit packets *)

(** Geth's packet: two little-endian counts and the shares of both rounds. *)
Definition pack (current previous : list bytes) : bytes :=
  le_bytes 4 (lenN current) ++ le_bytes 4 (lenN previous) ++ concat current ++ concat previous.

Section pre_commit.
Context `{Blst}.

Definition valid_share (share : bytes) : Prop := decryption_share_decode share = Ok share.

Lemma decode_share_Ok share s : decode_share share = Ok s <-> s = share /\ valid_share share.
Proof.
  unfold decode_share, valid_share, decryption_share_decode. destruct (negb _); simpl; [naive_solver|].
  destruct (decode_g1 share "decryption share"); simpl; naive_solver.
Qed.

Lemma valid_share_length share : valid_share share -> length share = N.to_nat DECRYPTION_SHARE_LEN.
Proof.
  unfold valid_share, decryption_share_decode.
  destruct (N.eqb_spec (lenN share) DECRYPTION_SHARE_LEN) as [Hl|]; [|done].
  intros _. unfold lenN in Hl. lia.
Qed.

Lemma decode_shares_Ok shares ss :
  collect_result decode_share shares = Ok ss <-> ss = shares /\ Forall valid_share shares.
Proof.
  rewrite collect_result_Ok. split.
  - induction 1 as [|x y l k Hxy _ [-> IH]]; [done|].
    apply decode_share_Ok in Hxy as [-> ?]. split; [done|by constructor].
  - intros [-> Hf]. induction Hf; constructor; [by apply decode_share_Ok|done].
Qed.

Lemma N_of_le_bytes4 n : n <= U32_MAX -> N_of_le (le_bytes 4 n) = n.
Proof. intros Hn. apply N_of_le_bytes. unfold U32_MAX in Hn. simpl. lia. Qed.

Lemma pack_slices current previous :
  lenN current <= U32_MAX -> lenN previous <= U32_MAX ->
  N_of_le (slice 0 4 (pack current previous)) = lenN current /\
  N_of_le (slice 4 8 (pack current previous)) = lenN previous /\
  drop 8 (pack current previous) = concat (current ++ previous).
Proof.
  intros Hc Hp. unfold slice, pack.
  rewrite drop_0, take_app_length' by (rewrite length_le_bytes; lia).
  rewrite (drop_app_length' (le_bytes 4 (lenN current))) by (rewrite length_le_bytes; lia).
  rewrite take_app_length' by (rewrite length_le_bytes; lia).
  rewrite app_assoc, drop_app_length' by (rewrite length_app, !length_le_bytes; lia).
  rewrite !N_of_le_bytes4, concat_app by done. done.
Qed.

Lemma lenN_pack current previous :
  Forall valid_share current -> Forall valid_share previous ->
  lenN (pack current previous) =
    PRECOMMIT_COUNT_PREFIX_LEN + (lenN current + lenN previous) * DECRYPTION_SHARE_LEN.
Proof.
  intros Hc Hp. unfold pack. rewrite !lenN_app. unfold lenN. rewrite !length_le_bytes.
  rewrite !(length_concat_const (N.to_nat DECRYPTION_SHARE_LEN))
    by (eapply Forall_impl; [eassumption|]; apply valid_share_length).
  unfold PRECOMMIT_COUNT_PREFIX_LEN, DECRYPTION_SHARE_LEN, G1_COMPRESSED_LEN. lia.
Qed.

(** What [from_data] checks before decoding shares. *)
Lemma from_data_guards data c :
  from_data data = Ok c ->
  let cur := N_of_le (slice 0 4 data) in let prev := N_of_le (slice 4 8 data) in
  let shares := as_chunks (N.to_nat DECRYPTION_SHARE_LEN) (drop 8 data) in
  cur + prev <= MAX_DECRYPTION_SHARES_PER_BLOCK /\
  lenN data = 8 + (cur + prev) * DECRYPTION_SHARE_LEN /\
  c = mkDbftPreCommit (take (N.to_nat cur) shares) (drop (N.to_nat cur) shares) data /\
  Forall valid_share shares.
Proof.
  unfold from_data. destruct (lenN data <? _); [done|]. intros Hd.
  apply checked_add_bind_Ok in Hd as [_ Hd].
  destruct (N.ltb_spec MAX_DECRYPTION_SHARES_PER_BLOCK
    (N_of_le (slice 0 4 data) + N_of_le (slice 4 8 data))) as [|Hmax]; [done|].
  apply checked_add_bind_Ok in Hd as [_ Hd]. destruct (N.eqb_spec (lenN data) (PRECOMMIT_COUNT_PREFIX_LEN
    + N.min ((N_of_le (slice 0 4 data) + N_of_le (slice 4 8 data)) * DECRYPTION_SHARE_LEN) USIZE_MAX))
    as [Hl|]; [|done].
  cbn [negb] in Hd. bind_inv.
  match goal with Hc : collect_result decode_share (take _ _) = _,
    Hp : collect_result decode_share (drop _ _) = _ |- _ =>
    apply decode_shares_Ok in Hc as [-> Hc], Hp as [-> Hp]; pose proof (conj Hc Hp) as Hf end.
  split_and!; [done| |done|].
  - rewrite N.min_l in Hl; [exact Hl|].
    unfold MAX_DECRYPTION_SHARES_PER_BLOCK, DECRYPTION_SHARE_LEN, G1_COMPRESSED_LEN,
      USIZE_MAX, U64_MAX in *. lia.
  - rewrite <- Forall_app, take_drop in Hf. done.
Qed.

Lemma from_data_pack current previous :
  Forall valid_share current -> Forall valid_share previous ->
  lenN current + lenN previous <= MAX_DECRYPTION_SHARES_PER_BLOCK ->
  from_data (pack current previous) =
    Ok (mkDbftPreCommit current previous (pack current previous)).
Proof.
  intros Hc Hp Hmax. unfold MAX_DECRYPTION_SHARES_PER_BLOCK in Hmax.
  destruct (pack_slices current previous) as (E1 & E2 & E3); [unfold U32_MAX; lia..|].
  unfold from_data. rewrite (lenN_pack _ _ Hc Hp), E1, E2, E3.
  unfold DECRYPTION_SHARE_LEN at 1.
  rewrite (proj2 (N.ltb_ge _ _)) by lia.
  unfold checked_add at 1. rewrite (proj2 (N.leb_le _ _)) by (unfold U32_MAX; lia). cbn [ok_or result_bind].
  rewrite (proj2 (N.ltb_ge _ _)) by done.
  rewrite N.min_l by (unfold DECRYPTION_SHARE_LEN, G1_COMPRESSED_LEN, USIZE_MAX, U64_MAX; lia).
  unfold checked_add. rewrite (proj2 (N.leb_le _ _))
    by (unfold PRECOMMIT_COUNT_PREFIX_LEN, DECRYPTION_SHARE_LEN, G1_COMPRESSED_LEN, USIZE_MAX, U64_MAX; lia).
  cbn [ok_or result_bind]. rewrite N.eqb_refl. cbn [negb].
  assert (Hw : Forall (fun s => length s = N.to_nat DECRYPTION_SHARE_LEN) (current ++ previous)).
  { apply Forall_app. split; (eapply Forall_impl; [eassumption|]); apply valid_share_length. }
  rewrite as_chunks_concat by done.
  rewrite take_app_length', drop_app_length' by (unfold lenN; lia).
  rewrite (proj2 (decode_shares_Ok current current)), (proj2 (decode_shares_Ok previous previous))
    by done. done.
Qed.

(** What [from_data] accepts. *)
Lemma from_data_Ok data current previous d :
  from_data data = Ok (mkDbftPreCommit current previous d) <->
  d = data /\ data = pack current previous /\
  Forall valid_share current /\ Forall valid_share previous /\
  lenN current + lenN previous <= MAX_DECRYPTION_SHARES_PER_BLOCK.
Proof.
  split.
  - intros (Hmax & Hlen & E & Hf)%from_data_guards. injection E as -> -> ->.
    set (shares := as_chunks (N.to_nat DECRYPTION_SHARE_LEN) (drop 8 data)) in *.
    set (cur := N_of_le (slice 0 4 data)) in *. set (prev := N_of_le (slice 4 8 data)) in *.
    assert (Hd : length (drop 8 data) = (N.to_nat (cur + prev) * N.to_nat DECRYPTION_SHARE_LEN)%nat)
      by (rewrite length_drop; unfold lenN in Hlen; lia).
    destruct (as_chunks_sizes _ (N.to_nat DECRYPTION_SHARE_LEN) _ ltac:(done) Hd) as [Hn _].
    fold shares in Hn.
    assert (Hc : lenN (take (N.to_nat cur) shares) = cur)
      by (unfold lenN; rewrite length_take; lia).
    assert (Hp : lenN (drop (N.to_nat cur) shares) = prev)
      by (unfold lenN; rewrite length_drop; lia).
    split; [done|]. split; [|split_and!; [by apply Forall_take|by apply Forall_drop|lia]].
    unfold pack. rewrite Hc, Hp, <- concat_app, take_drop.
    unfold shares. rewrite (concat_as_chunks (N.to_nat (cur + prev))) by done.
    unfold cur, prev, slice. rewrite drop_0.
    replace 4%nat with (length (take 4 data)) at 1 by (rewrite length_take; unfold lenN in Hlen; lia).
    rewrite le_bytes_of_le.
    replace 4%nat with (length (take (8 - 4) (drop 4 data))) at 2
      by (rewrite length_take, length_drop; unfold lenN in Hlen; lia).
    rewrite le_bytes_of_le. change (8 - 4)%nat with 4%nat. change 8%nat with (4 + 4)%nat.
    by rewrite <- drop_drop, !take_drop.
  - intros (-> & -> & Hc & Hp & Hmax). by apply from_data_pack.
Qed.

(** Pre-commit packets are canonical: [from_data] accepts exactly the packets
    built from at most 1000 valid shares split into the two rounds, returns that
    split, and keeps the packet bytes; in particular a packet determines its
    shares and the shares determine the packet. *)
Theorem from_data_iff_pack data current previous d :
  from_data data = Ok (mkDbftPreCommit current previous d) <->
  d = data /\ data = pack current previous /\
  Forall valid_share current /\ Forall valid_share previous /\
  lenN current + lenN previous <= MAX_DECRYPTION_SHARES_PER_BLOCK.
Proof. apply from_data_Ok. Qed.
End pre_commit.

(** ** Recovery expansion *)

Lemma recovery_primary_index_lt height view n :
  n <> 0 -> n <= U8_MAX + 1 -> recovery_primary_index height view n < n /\
  recovery_primary_index height view n
    = (as_u32 height + n - view mod n) mod n.
Proof.
  intros Hn Hmax. unfold recovery_primary_index, as_u8.
  pose proof (N.mod_lt (as_u32 height + n - view mod n) n Hn) as Hlt.
  unfold U8_MAX in Hmax. rewrite N.mod_small by lia. done.
Qed.

Lemma unique_indices_Ok seen indices n kind :
  unique_indices seen indices n kind = Ok tt <->
  NoDup indices /\ Forall (fun i => i < n) indices /\ (forall i, i ∈ indices -> i ∉ seen).
Proof.
  revert seen. induction indices as [|i ids IH]; intros seen; simpl.
  - split; [|done]. intros _. split_and!; [constructor|constructor|].
    intros i Hi. by apply not_elem_of_nil in Hi.
  - destruct (N.leb_spec n i) as [Hi|Hi].
    { split; [done|]. intros (_ & Hf & _). apply Forall_cons in Hf. lia. }
    case_bool_decide as Hs.
    { split; [done|]. intros (_ & _ & Hn). exfalso. apply (Hn i); [by left|done]. }
    rewrite IH, NoDup_cons, Forall_cons. split.
    + intros (Hnd & Hf & Hns). split_and!; try done.
      * intros Hin. apply (Hns i Hin). by left.
      * intros j [->|Hj]%elem_of_cons; [done|]. intros Hjs. apply (Hns j Hj). by right.
    + intros ([Hni Hnd] & [_ Hf] & Hns). split_and!; try done.
      intros j Hj [->|Hjs]%elem_of_cons; [done|]. apply (Hns j); [by right|done].
Qed.

Lemma validate_unique_indices_Ok indices n kind u :
  validate_unique_indices indices n kind = Ok u <-> NoDup indices /\ Forall (fun i => i < n) indices.
Proof.
  destruct u. unfold validate_unique_indices. rewrite unique_indices_Ok. split; [tauto|].
  intros [? ?]. split_and!; [done..|]. intros i _. apply not_elem_of_nil.
Qed.

Section expansion.
Context `{AlloyRlp, Crypto, Blst}.

(** A message rebuilt from a compact entry and authenticated by its witness:
    the signer is the validator its index names, at the recovery height. *)
Definition authentic (height : N) (validators : list Address) (m : DbftMessage) : Prop :=
  exists index view type body script hash,
    m = recovered_message height (validator_at validators index) index view type body script /\
    index < lenN validators /\ verify_witness m = Ok hash /\
    type <> RecoveryRequest /\ type <> RecoveryMessage.

Lemma expand_checked_Ok kind index m m' :
  expand_checked kind index m = Ok m' -> m' = m /\ exists hash, verify_witness m = Ok hash.
Proof.
  unfold expand_checked, verify_recovered. intros He. bind_inv.
  match goal with Hv : verify_witness _ = Ok _ |- _ => rewrite Hv end. eauto.
Qed.

Lemma authenticate_change_view_Ok height sender c reasons found m :
  authenticate_change_view height sender c reasons found = Ok (Some m) ->
  found = Some m \/
  exists reason hash, reason ∈ reasons /\ m = change_view_candidate height sender c reason /\
    verify_witness m = Ok hash.
Proof.
  revert found. induction reasons as [|r rs IH]; intros found; simpl; [intros [= ->]; by left|].
  destruct (verify_witness (change_view_candidate height sender c r)) as [h|] eqn:E; simpl.
  - destruct found; [done|]. intros [E'|(r' & h' & ? & -> & ?)]%IH; right.
    + injection E' as <-. exists r, h. split; [by left|done].
    + exists r', h'. split; [by right|done].
  - intros [->|(r' & h' & ? & -> & ?)]%IH; [by left|right]. exists r', h'. split; [by right|done].
Qed.

Lemma expand_change_view_Ok height validators c m :
  v_validator_index c < lenN validators ->
  expand_change_view height validators c = Ok m -> authentic height validators m.
Proof.
  unfold expand_change_view. intros Hi He. bind_inv. subst.
  match goal with Ha : authenticate_change_view _ _ _ _ _ = Ok _ |- _ =>
    apply authenticate_change_view_Ok in Ha as [?|(r & h & _ & -> & Hv)] end; [done|].
  unfold change_view_candidate in *. eexists _, _, _, _, _, _. split_and!; [done..| |]; done.
Qed.

Lemma expand_pre_commit_Ok height validators c m :
  pc_validator_index c < lenN validators ->
  expand_pre_commit height validators c = Ok m -> authentic height validators m.
Proof.
  unfold expand_pre_commit. intros Hi He. bind_inv. apply expand_checked_Ok in He as [-> [h Hv]].
  eexists _, _, _, _, _, _. split_and!; [done..| |]; done.
Qed.

Lemma expand_commit_Ok height validators c m :
  c_validator_index c < lenN validators ->
  expand_commit height validators c = Ok m -> authentic height validators m.
Proof.
  unfold expand_commit. intros Hi He. apply expand_checked_Ok in He as [-> [h Hv]].
  eexists _, _, _, _, _, _. split_and!; [done..| |]; done.
Qed.

Lemma expand_prepare_request_Ok r height view primary validators ms :
  primary < lenN validators ->
  expand_prepare_request r height view primary validators = Ok ms ->
  Forall (authentic height validators) ms.
Proof.
  unfold expand_prepare_request. intros Hi He.
  destruct (prepare_request r); [|injection He as <-; constructor].
  destruct (List.find _ _); [|injection He as <-; constructor].
  bind_inv. match goal with Hc : expand_checked _ _ _ = Ok _ |- _ =>
    apply expand_checked_Ok in Hc as [-> [h Hv]] end.
  constructor; [|constructor]. eexists _, _, _, _, _, _. split_and!; [done..| |]; done.
Qed.

Lemma expand_prepare_responses_Ok r height view primary validators ms :
  Forall (fun i => i < lenN validators) (map p_validator_index (preparations r)) ->
  expand_prepare_responses r height view primary validators = Ok ms ->
  Forall (authentic height validators) ms.
Proof.
  unfold expand_prepare_responses. intros Hi He.
  destruct (preparation_hash r); [|injection He as <-; constructor].
  apply collect_result_Ok in He. rewrite Forall_fmap in Hi.
  eapply Forall2_Forall_r; [exact He|]. apply Forall_forall.
  intros c [_ Hc]%list_elem_of_filter m Hm. rewrite Forall_forall in Hi.
  apply expand_checked_Ok in Hm as [-> [h Hv]].
  eexists _, _, _, _, _, _. split_and!; [done|by apply Hi|done..].
Qed.

Lemma collect_authentic {A} (f : A -> result DbftPayloadError DbftMessage) (idx : A -> N)
    height validators l ms :
  (forall a m, idx a < lenN validators -> f a = Ok m -> authentic height validators m) ->
  Forall (fun i => i < lenN validators) (map idx l) ->
  collect_result f l = Ok ms -> Forall (authentic height validators) ms.
Proof.
  intros Hf Hi He%collect_result_Ok. rewrite Forall_fmap in Hi.
  eapply Forall2_Forall_r; [exact He|]. eapply Forall_impl; [exact Hi|].
  intros a Ha m Hm. by eapply Hf.
Qed.

Lemma expand_authentic r recovery validators ms :
  expand r recovery validators = Ok ms ->
  exists d, consensus_data recovery = Ok d /\ message_type d = RecoveryMessage /\
    lenN validators <= U8_MAX + 1 /\
    Forall (authentic (block_index d) validators) ms.
Proof.
  unfold expand. intros He. bind_inv. rename x into d.
  case_bool_decide as Ht; [|done]. cbn [negb] in He.
  case_bool_decide as Hne; [done|]. cbn [orb] in He.
  destruct (N.ltb_spec (U8_MAX + 1) (lenN validators)) as [|Hmax]; [done|]. bind_inv.
  repeat match goal with Hu : validate_unique_indices _ _ _ = Ok _ |- _ =>
    apply validate_unique_indices_Ok in Hu as [? ?] end.
  exists d. split_and!; [done..|].
  assert (Hn0 : lenN validators <> 0) by (by destruct validators).
  destruct (recovery_primary_index_lt (block_index d) (view_number d) _ Hn0 Hmax) as [Hp _].
  repeat apply Forall_app_2.
  - eapply (collect_authentic _ v_validator_index); eauto using expand_change_view_Ok.
  - eapply expand_prepare_request_Ok; eauto.
  - eapply expand_prepare_responses_Ok; eauto.
  - eapply (collect_authentic _ pc_validator_index); eauto using expand_pre_commit_Ok.
  - eapply (collect_authentic _ c_validator_index); eauto using expand_commit_Ok.
Qed.

(** Recovery cannot smuggle unsigned state: every message produced by
    expanding a recovery payload is at the recovery message's own height, names a
    validator inside the set, carries a witness that recovers to exactly that
    validator, and is never itself a recovery message. *)
Theorem recovery_expansion_authentic r recovery validators ms m :
  expand r recovery validators = Ok ms -> m ∈ ms ->
  exists d index view type body script hash,
    consensus_data recovery = Ok d /\ message_type d = RecoveryMessage /\
    m = recovered_message (block_index d) (validator_at validators index) index view type body script /\
    index < lenN validators /\ verify_witness m = Ok hash /\ hash = message_hash m /\
    type <> RecoveryRequest /\ type <> RecoveryMessage.
Proof.
  intros (d & Hd & Ht & _ & Hf)%expand_authentic Hm. rewrite Forall_forall in Hf.
  destruct (Hf m Hm) as (i & v & t & b & s & h & -> & Hi & Hv & ?).
  exists d, i, v, t, b, s, h. pose proof (verify_witness_Ok _ _ Hv) as (Eh & _).
  split_and!; tauto.
Qed.
End expansion.

(** ** Recovery message codec *)

Section recovery_codec.
Context {R : AlloyRlp} {RL : AlloyRlpLaws R} {C : Crypto} {CL : CryptoLaws C} {B : Blst}.

Lemma rlp_list_header_nonempty n : rlp_header_encode true n <> [].
Proof.
  destruct (decide (n = 0)) as [->|Hn]; [by rewrite rlp_list_empty|].
  by destruct (rlp_list_head n Hn) as (b & t & -> & _).
Qed.

Lemma derive_nonempty {A} (c : codec A) a : enc (rlp_derive c) a <> [].
Proof.
  rewrite rlp_derive_enc. pose proof (rlp_list_header_nonempty (lenN (enc c a))).
  by destruct (rlp_header_encode true (lenN (enc c a))).
Qed.

Definition preparation_ok (c : PreparationCompact) : Prop := p_validator_index c <= U8_MAX.
Definition commit_ok (c : CommitCompact) : Prop :=
  c_view_number c <= U8_MAX /\ c_validator_index c <= U8_MAX.
Definition change_view_ok (c : ChangeViewCompact) : Prop :=
  v_validator_index c <= U8_MAX /\ v_original_view_number c <= U8_MAX /\ v_timestamp_ns c <= U64_MAX.
Definition pre_commit_ok (c : PreCommitCompact) : Prop :=
  pc_view_number c <= U8_MAX /\ pc_validator_index c <= U8_MAX /\
  exists p, from_data (pc_packet c) = Ok p.

Ltac derived_codec :=
  apply rlp_derive_ok; eapply codec_ok_weaken;
  [|apply codec_iso_ok; [by intros []|];
    repeat first [apply codec_pair_ok | apply rlp_u8_ok | apply rlp_u64_ok | apply rlp_bytes_ok
                 | apply rlp_b256_ok]];
  simpl; intuition.

Lemma preparation_codec_ok : codec_ok preparation_compact_codec preparation_ok.
Proof. unfold preparation_ok. derived_codec. Qed.
Lemma commit_compact_codec_ok : codec_ok commit_compact_codec commit_ok.
Proof. unfold commit_ok. derived_codec. Qed.
Lemma change_view_compact_codec_ok : codec_ok change_view_compact_codec change_view_ok.
Proof. unfold change_view_ok. derived_codec. Qed.
Lemma pre_commit_compact_codec_ok : codec_ok pre_commit_compact_codec pre_commit_ok.
Proof. unfold pre_commit_ok. derived_codec. Qed.
Lemma change_view_codec_ok :
  codec_ok change_view_codec (fun c => cv_timestamp_ns c <= U64_MAX /\ cv_reason c <= U8_MAX).
Proof. derived_codec. Qed.
Lemma prepare_response_codec_ok :
  codec_ok prepare_response_codec (fun c => length (pr_preparation_hash c) = B256_LEN).
Proof. derived_codec. Qed.
Lemma commit_codec_ok : codec_ok commit_codec (fun _ => True).
Proof. derived_codec. Qed.

Lemma capped_items_ok {A} (c : codec A) P l room :
  (forall a, P a -> enc c a <> []) -> codec_ok c P -> Forall P l -> (length l <= room)%nat ->
  lenN (concat (map (enc c) l)) <= USIZE_MAX ->
  capped_items c room (concat (map (enc c) l)) = Ok l.
Proof.
  intros Hne Hc Hl. revert room. induction Hl as [|a l Ha Hl IH]; intros room Hr Hmax.
  { by destruct room. }
  simpl in *. rewrite lenN_app in Hmax. specialize (Hc a (concat (map (enc c) l)) Ha) as D.
  destruct room as [|room]; [lia|].
  destruct (enc c a ++ concat (map (enc c) l)) as [|b t] eqn:E.
  { apply app_eq_nil in E as [E _]. by destruct (Hne a Ha). }
  cbn [capped_items]. rewrite D by lia. cbn [result_bind]. by rewrite IH by lia.
Qed.

Lemma decode_capped_ok {A} (c : codec A) P l max rest :
  (forall a, enc c a <> []) -> codec_ok c P -> Forall P l -> (length l <= max)%nat ->
  lenN (enc (rlp_vec c) l) <= USIZE_MAX ->
  decode_capped c max (enc (rlp_vec c) l ++ rest) = Ok (l, rest).
Proof.
  intros Hne Hc Hl Hm Hmax. rewrite rlp_vec_enc in *. rewrite lenN_app in Hmax.
  unfold decode_capped. rewrite <- app_assoc, rlp_decode_bytes_encode by lia. cbn [result_bind].
  rewrite (capped_items_ok c P) by (auto || lia). done.
Qed.

(** An item that is not one of the two placeholders fills its slot. *)
Lemma decode_slot_item {A} (c : codec A) head tail rest a b t :
  head = b :: t -> b <> x80 -> b <> xc0 ->
  dec c ((head ++ tail) ++ rest) = Ok (a, rest) ->
  decode_slot c ((head ++ tail) ++ rest) = Ok (Some a, rest).
Proof.
  intros -> Hb Hc D. simpl app in *. unfold decode_slot, decode_optional.
  destruct b; try done; by rewrite D.
Qed.

Definition request_ok (q : DbftConsensusData) : Prop :=
  consensus_data_ok q /\ rlp_item (payload q) /\ message_type q = PrepareRequest.

(** What the peers' decoder requires of a recovery message. *)
Definition recovery_ok (r : DbftRecoveryMessage) : Prop :=
  Forall preparation_ok (preparations r) /\ (length (preparations r) <= MAX_RECOVERY_PAYLOADS)%nat /\
  Forall commit_ok (commits r) /\ (length (commits r) <= MAX_RECOVERY_PAYLOADS)%nat /\
  Forall change_view_ok (change_views r) /\ (length (change_views r) <= MAX_RECOVERY_PAYLOADS)%nat /\
  Forall pre_commit_ok (pre_commits r) /\ (length (pre_commits r) <= MAX_RECOVERY_PAYLOADS)%nat /\
  (forall h, preparation_hash r = Some h -> length h = B256_LEN) /\
  (forall q, prepare_request r = Some q -> request_ok q).

Lemma validate_limits_ok r : recovery_ok r -> validate_limits r = Ok tt.
Proof.
  intros (_ & H1 & _ & H2 & _ & H3 & Hpc & H4 & _ & Hq). unfold validate_limits.
  rewrite !(proj2 (Nat.ltb_ge _ _)) by done. cbn [orb].
  replace (match prepare_request r with
    | Some request => negb (bool_decide (message_type request = PrepareRequest)) | None => false end)
    with false.
  2:{ destruct (prepare_request r) as [q|]; [|done]. destruct (Hq q eq_refl) as (_ & _ & ->). done. }
  replace (collect_result _ (pre_commits r)) with
    (@Ok rlp_error _ (omap (fun c => result_ok (from_data (pc_packet c))) (pre_commits r))); [done|].
  symmetry. apply collect_result_Ok. clear -Hpc.
  induction Hpc as [|c l (_ & _ & p & Hp) _ IH]; [constructor|].
  unfold omap in *. simpl. rewrite Hp. simpl. constructor; [by rewrite Hp|done].
Qed.

Lemma rlp_item_nonempty p : rlp_item p -> p <> [].
Proof. intros Hi ->. unfold rlp_item, take_rlp_item in Hi. by rewrite rlp_header_decode_nil in Hi. Qed.

(** The two optional slots: present in full, as a placeholder, or absent. *)
Lemma decode_hash_slot (o : option B256) (present : bool) rest :
  (forall h, o = Some h -> length h = B256_LEN) -> (is_Some o -> present = true) ->
  (present = false -> rest = []) ->
  lenN (match o with Some h => enc rlp_b256 h | None => enc rlp_bytes [] end) <= USIZE_MAX ->
  decode_slot rlp_b256
    ((if present then match o with Some h => enc rlp_b256 h | None => enc rlp_bytes [] end else [])
       ++ rest) = Ok (o, rest).
Proof.
  intros Hw Hp Hr Hmax. destruct present.
  - destruct o as [h|].
    + specialize (Hw h eq_refl). destruct (rlp_b256_head h Hw) as (b & t & E & H1 & H2).
      rewrite <- (app_nil_r (enc rlp_b256 h)). eapply decode_slot_item; [exact E|done..|].
      rewrite app_nil_r. by apply rlp_b256_ok.
    + rewrite rlp_bytes_empty. done.
  - rewrite Hr by done. destruct o; [|done]. by specialize (Hp ltac:(eauto)).
Qed.

Lemma decode_request_slot (o : option DbftConsensusData) (present : bool) rest :
  (forall q, o = Some q -> request_ok q) -> (is_Some o -> present = true) ->
  (present = false -> rest = []) ->
  lenN (match o with Some q => enc consensus_data_codec q | None => rlp_header_encode true 0 end)
    <= USIZE_MAX ->
  decode_slot consensus_data_codec
    ((if present
      then match o with Some q => enc consensus_data_codec q | None => rlp_header_encode true 0 end
      else []) ++ rest) = Ok (o, rest).
Proof.
  intros Hw Hp Hr Hmax. destruct present.
  - destruct o as [q|].
    + destruct (Hw q eq_refl) as (Hok & Hi & _).
      pose proof (consensus_data_decode_encode q rest Hok Hi Hmax) as D.
      assert (Hn : lenN (consensus_data_fields q) <> 0).
      { unfold consensus_data_fields. rewrite !lenN_app. pose proof (rlp_item_nonempty _ Hi).
        destruct (payload q); [done|]. unfold lenN. simpl. lia. }
      destruct (rlp_list_head _ Hn) as (b & t & E & H1 & H2).
      eapply decode_slot_item; [exact E|done..|exact D].
    + rewrite rlp_list_empty. done.
  - rewrite Hr by done. destruct o; [|done]. by specialize (Hp ltac:(eauto)).
Qed.

Lemma recovery_codec_ok : codec_ok recovery_message_codec recovery_ok.
Proof.
  intros r rest Hok Hmax. pose proof (validate_limits_ok r Hok) as Hlim.
  destruct Hok as (Fp & Lp & Fc & Lc & Fv & Lv & Fpc & Lpc & Hh & Hq).
  cbn [recovery_message_codec enc dec] in *. rewrite lenN_app in Hmax.
  assert (Hf : lenN (recovery_fields r) <= USIZE_MAX) by lia. clear Hmax.
  unfold recovery_decode. rewrite <- app_assoc, rlp_decode_bytes_encode by done. cbn [result_bind].
  unfold recovery_fields in *. rewrite !lenN_app in Hf.
  rewrite (decode_capped_ok _ preparation_ok)
    by (apply derive_nonempty || apply preparation_codec_ok || done || lia). cbn [result_bind].
  rewrite (decode_capped_ok _ commit_ok)
    by (apply derive_nonempty || apply commit_compact_codec_ok || done || lia). cbn [result_bind].
  rewrite (decode_capped_ok _ change_view_ok)
    by (apply derive_nonempty || apply change_view_compact_codec_ok || done || lia).
  cbn [result_bind].
  assert (Hpres : is_Some (prepare_request r) -> includes_prepare_request r = true).
  { intros Hs. unfold includes_prepare_request. by rewrite bool_decide_eq_true_2. }
  assert (Hpresh : is_Some (preparation_hash r) -> includes_preparation_hash r = true).
  { intros Hs. unfold includes_preparation_hash. by rewrite bool_decide_eq_true_2. }
  assert (Hnopc : includes_prepare_request r = false -> pre_commits r = []).
  { unfold includes_prepare_request. case_bool_decide; [done|]. case_bool_decide; done. }
  assert (Hnoreq : includes_preparation_hash r = false -> includes_prepare_request r = false).
  { unfold includes_preparation_hash. by intros [_ ?]%orb_false_iff. }
  rewrite decode_hash_slot; [|done|done| |].
  2:{ intros Hn%Hnoreq. rewrite Hn. by rewrite (Hnopc Hn), bool_decide_eq_true_2. }
  2:{ destruct (includes_preparation_hash r) eqn:E; [lia|].
      destruct (preparation_hash r); [by specialize (Hpresh ltac:(eauto))|].
      rewrite rlp_bytes_empty. vm_compute. discriminate. }
  cbn [result_bind]. rewrite decode_request_slot; [|done|done| |].
  2:{ intros Hn. by rewrite (Hnopc Hn), bool_decide_eq_true_2. }
  2:{ destruct (includes_prepare_request r) eqn:E; [lia|].
      destruct (prepare_request r); [by specialize (Hpres ltac:(eauto))|].
      rewrite rlp_list_empty. vm_compute. discriminate. }
  cbn [result_bind]. case_bool_decide as Hpc.
  - cbn [result_bind].
    replace (mkDbftRecoveryMessage _ _ _ _ _ _) with r by (destruct r; simpl in *; by subst).
    by rewrite Hlim.
  - assert (Hne : enc (rlp_vec pre_commit_compact_codec) (pre_commits r) <> []).
    { rewrite rlp_vec_enc. intros [E _]%app_eq_nil. by apply rlp_list_header_nonempty in E. }
    destruct (enc (rlp_vec pre_commit_compact_codec) (pre_commits r)) as [|b t] eqn:E; [done|].
    rewrite <- E in *. clear b t E Hne.
    pose proof (decode_capped_ok pre_commit_compact_codec pre_commit_ok (pre_commits r)
      MAX_RECOVERY_PAYLOADS [] (derive_nonempty _) pre_commit_compact_codec_ok Fpc Lpc ltac:(lia)) as D.
    rewrite app_nil_r in D. rewrite D. cbn [result_bind].
    replace (mkDbftRecoveryMessage _ _ _ _ _ _) with r by (by destruct r). by rewrite Hlim.
Qed.

Lemma consensus_data_decode_inv buf d rest :
  consensus_data_decode buf = Ok (d, rest) -> consensus_data_ok d /\ rlp_item (payload d).
Proof.
  unfold consensus_data_decode. intros Hd.
  repeat (apply result_bind_Ok in Hd; destruct Hd as ([? ?] & ? & Hd)).
  match goal with Ht : take_rlp_item ?p = Ok (?i, ?r) |- _ =>
    rename Ht into Hti; rename r into left; rename p into body; rename i into item end.
  destruct left; [|done]. bind_inv. simplify_eq. split.
  - repeat match goal with
    | Hu : dec rlp_u8 _ = Ok _ |- _ => apply rlp_u8_bound in Hu
    | Hu : dec rlp_u64 _ = Ok _ |- _ => apply rlp_u64_bound in Hu
    end. done.
  - simpl. unfold rlp_item. pose proof (take_rlp_item_split _ _ _ Hti) as E.
    rewrite app_nil_r in E. rewrite <- E in Hti. exact Hti.
Qed.

Lemma consensus_data_inv m d :
  consensus_data m = Ok d -> consensus_data_ok d /\ rlp_item (payload d) /\
  block_index d = valid_block_end m.
Proof.
  unfold consensus_data. intros Hd. bind_inv.
  match goal with Hx : decode_exact _ _ = Ok _ |- _ => apply decode_exact_Ok in Hx;
    apply consensus_data_decode_inv in Hx as [? ?] end.
  destruct (N.eqb_spec (block_index x) (valid_block_end m)); [|done]. cbn [negb] in Hd.
  injection Hd as <-. done.
Qed.

Lemma NoDup_u8_length l : NoDup l -> Forall (fun i => i <= U8_MAX) l -> (length l <= 256)%nat.
Proof.
  intros Hn Hf. assert (Hs : l ⊆+ map N.of_nat (seq 0 256)).
  { apply NoDup_submseteq; [done|]. intros i Hi. rewrite Forall_forall in Hf.
    specialize (Hf i Hi). unfold U8_MAX in Hf. apply list_elem_of_In, in_map_iff.
    exists (N.to_nat i). split; [lia|]. apply in_seq. lia. }
  apply submseteq_length in Hs. by rewrite length_map, length_seq in Hs.
Qed.

(** [NoDup] on the validator indices bounds every list by 256 entries. *)
Definition recovery_inv (r : DbftRecoveryMessage) : Prop :=
  Forall preparation_ok (preparations r) /\ NoDup (map p_validator_index (preparations r)) /\
  Forall commit_ok (commits r) /\ NoDup (map c_validator_index (commits r)) /\
  Forall change_view_ok (change_views r) /\ NoDup (map v_validator_index (change_views r)) /\
  Forall pre_commit_ok (pre_commits r) /\ NoDup (map pc_validator_index (pre_commits r)) /\
  (forall h, preparation_hash r = Some h -> length h = B256_LEN) /\
  (forall q, prepare_request r = Some q -> request_ok q).

Lemma recovery_inv_ok r : recovery_inv r -> recovery_ok r.
Proof.
  intros (Fp & Np & Fc & Nc & Fv & Nv & Fpc & Npc & Hh & Hq).
  assert (Hlen : forall {A} (f : A -> N) (P : A -> Prop) l, (forall a, P a -> f a <= U8_MAX) ->
    Forall P l -> NoDup (map f l) -> (length l <= MAX_RECOVERY_PAYLOADS)%nat).
  { intros A f P l Hf Fl Nl. rewrite <- (length_map f l). apply NoDup_u8_length; [done|].
    rewrite Forall_fmap. eapply Forall_impl; [exact Fl|]. exact Hf. }
  unfold recovery_ok. split_and!; try done.
  - eapply Hlen; [|exact Fp|exact Np]. done.
  - eapply Hlen; [|exact Fc|exact Nc]. unfold commit_ok. tauto.
  - eapply Hlen; [|exact Fv|exact Nv]. unfold change_view_ok. tauto.
  - eapply Hlen; [|exact Fpc|exact Npc]. unfold pre_commit_ok. tauto.
Qed.

Lemma NoDup_map_snoc {A} (f : A -> N) l a u kind :
  reject_duplicate_index (map f l) (f a) kind = Ok u -> NoDup (map f l) -> NoDup (map f (l ++ [a])).
Proof.
  unfold reject_duplicate_index. case_bool_decide as Hi; [done|]. intros _ Hn.
  rewrite map_app. apply NoDup_app. split_and!; [done| |apply NoDup_singleton].
  intros x Hx ->%list_elem_of_singleton. done.
Qed.

Lemma derived_payload {T U} (f : T -> U) g (c : codec T) p b :
  decode_payload (rlp_derive (codec_iso f g c)) p = Ok b ->
  exists a buf rest, b = f a /\ dec c buf = Ok (a, rest).
Proof.
  unfold decode_payload. intros Hd%map_err_Ok%decode_exact_Ok.
  apply rlp_derive_dec in Hd as (buf & rest & Hd). apply codec_iso_dec in Hd as (a & -> & Hd). eauto.
Qed.

Lemma decoded_change_view_timestamp d cv :
  decoded_payload d = Ok (DecodedChangeView cv) -> cv_timestamp_ns cv <= U64_MAX.
Proof.
  unfold decoded_payload. intros Hd. destruct (message_type d); bind_inv; try done.
  match goal with Hx : decode_payload change_view_codec _ = Ok _ |- _ =>
    apply derived_payload in Hx as ([t v] & buf & rest & -> & Hy) end.
  apply codec_pair_dec in Hy as (mid & Hy & _). by apply rlp_u64_bound in Hy.
Qed.

Lemma decoded_response_hash d rs :
  decoded_payload d = Ok (DecodedPrepareResponse rs) -> length (pr_preparation_hash rs) = B256_LEN.
Proof.
  unfold decoded_payload. intros Hd. destruct (message_type d); bind_inv; try done.
  match goal with Hx : decode_payload prepare_response_codec _ = Ok _ |- _ =>
    apply derived_payload in Hx as (h & buf & rest & -> & Hy) end.
  by apply rlp_b256_len in Hy.
Qed.

Lemma decoded_pre_commit_data d pc :
  decoded_payload d = Ok (DecodedPreCommit pc) -> from_data (pc_data pc) = Ok pc.
Proof.
  unfold decoded_payload. intros Hd. destruct (message_type d); bind_inv; try done.
  unfold decode_payload in *. bind_inv.
  match goal with Hx : decode_exact pre_commit_codec _ = Ok _ |- _ =>
    apply decode_exact_Ok in Hx; cbn [pre_commit_codec dec] in Hx;
    apply result_bind_Ok in Hx as ([p b] & _ & Hx);
    apply result_bind_Ok in Hx as ([dt q] & _ & Hx); destruct q; [|done] end.
  bind_inv. match goal with Hf : from_data dt = Ok _ |- _ =>
    pose proof (from_data_guards _ _ Hf) as (_ & _ & E & _); rewrite <- Hf, E end. done.
Qed.

Lemma add_message_inv r m r' : recovery_inv r -> add_message r m = Ok r' -> recovery_inv r'.
Proof.
  intros (Fp & Np & Fc & Nc & Fv & Nv & Fpc & Npc & Hh & Hq) Ha. unfold add_message in Ha.
  bind_inv. rename x0 into d. match goal with Hd : consensus_data m = Ok d |- _ =>
    apply consensus_data_inv in Hd as ((Hb & Hvi & Hvn) & Hi & _) end.
  rename x1 into p. match goal with Hp : decoded_payload d = Ok p |- _ => rename Hp into Hdec end.
  destruct p as [cv|rq|rs|pc|co|rr|rm]; bind_inv; try done; unfold recovery_inv; simpl;
    split_and!; try done;
    try (apply Forall_app_2; [done|]; apply Forall_singleton);
    try (eapply NoDup_map_snoc; simpl; eassumption).
  - split_and!; [done..|]. by apply (decoded_change_view_timestamp d cv).
  - done.
  - intros h [= <-]. apply keccak256_len.
  - intros q [= <-]. by repeat split.
  - done.
  - intros h Hrs. destruct (preparation_hash r) eqn:E; [by apply Hh; rewrite <- Hrs|].
    injection Hrs as <-. by apply (decoded_response_hash d rs).
  - split_and!; [done..|]. exists pc. by apply (decoded_pre_commit_data d pc).
  - done.
Qed.

(** [for message in messages { recovery.add_message(&message)? }] *)
Fixpoint accumulate (r : DbftRecoveryMessage) (ms : list DbftMessage)
    : result DbftPayloadError DbftRecoveryMessage :=
  match ms with
  | [] => Ok r
  | m :: ms => let? r := add_message r m in accumulate r ms
  end.

Lemma recovery_new_inv : recovery_inv recovery_new.
Proof. unfold recovery_inv. simpl. split_and!; try done; constructor. Qed.

Lemma accumulate_inv r ms r' : recovery_inv r -> accumulate r ms = Ok r' -> recovery_inv r'.
Proof.
  revert r. induction ms as [|m ms IH]; intros r Hr; simpl; [by intros [= <-]|].
  intros Ha. bind_inv. eapply IH; [|done]. by eapply add_message_inv.
Qed.

(** A recovery message always reaches its peers: whatever messages were
    accumulated, the compact form it encodes to decodes, on the receiving side and
    under all its limits, to exactly the accumulated value. *)
Theorem recovery_message_roundtrip ms r :
  accumulate recovery_new ms = Ok r -> lenN (enc recovery_message_codec r) <= USIZE_MAX ->
  decode_payload recovery_message_codec (enc recovery_message_codec r) = Ok r.
Proof.
  intros Ha Hl. unfold decode_payload.
  rewrite (decode_exact_enc _ _ r recovery_codec_ok); [done| |done].
  eapply recovery_inv_ok, accumulate_inv; [apply recovery_new_inv|done].
Qed.

(** ** Proposals *)

Definition prepare_request_ok (r : DbftPrepareRequest) : Prop :=
  header_ok (sealing_proposal r) /\ Forall (fun h => length h = B256_LEN) (transaction_hashes r) /\
  (forall h, parent_seal_hash_v0 r = Some h -> length h = B256_LEN).

Lemma b256_nonempty h : length h = B256_LEN -> enc rlp_b256 h <> [].
Proof. intros Hh. by destruct (rlp_b256_head h Hh) as (b & t & -> & _). Qed.

Lemma decode_trailing_ok {T} (c : codec T) P (o : option T) rest :
  codec_ok c P -> (forall a, o = Some a -> P a /\ enc c a <> [] /\ lenN (enc c a) <= USIZE_MAX) ->
  (o = None -> rest = []) ->
  decode_trailing c (match o with Some a => enc c a | None => [] end ++ rest) = Ok (o, rest).
Proof.
  intros Hc Ho Hr. destruct o as [a|]; [|by rewrite Hr].
  destruct (Ho a eq_refl) as (Ha & Hne & Hl). pose proof (Hc a rest Ha Hl) as D.
  unfold decode_trailing. destruct (enc c a); [done|]. simpl app in *. by rewrite D.
Qed.

(** Proposals survive the wire: decoding an encoded [PrepareRequest] returns
    the same header, transaction hashes and parent extra, with the legacy parent
    seal hash filled in by its zero placeholder exactly when only the parent extra
    was attached. *)
Theorem prepare_request_roundtrip r :
  prepare_request_ok r -> lenN (enc prepare_request_codec r) <= USIZE_MAX ->
  decode_payload prepare_request_codec (enc prepare_request_codec r) =
    Ok (mkDbftPrepareRequest (sealing_proposal r) (transaction_hashes r)
          (effective_parent_seal_hash r) (parent_extra r)).
Proof.
  intros (Hh & Ht & Hs) Hl. unfold decode_payload, decode_exact.
  cbn [prepare_request_codec enc dec] in *. rewrite lenN_app in Hl.
  unfold prepare_request_decode. rewrite <- (app_nil_r (prepare_request_fields r)) at 2.
  rewrite rlp_decode_bytes_encode by lia. cbn [result_bind].
  unfold prepare_request_fields in *. rewrite !lenN_app in Hl.
  rewrite rlp_header_ok by (done || lia). cbn [result_bind].
  rewrite (rlp_vec_ok rlp_b256 (fun h => length h = B256_LEN))
    by (apply b256_nonempty || apply rlp_b256_ok || done || lia).
  cbn [result_bind].
  rewrite (decode_trailing_ok rlp_b256 (fun h => length h = B256_LEN));
    [|apply rlp_b256_ok| |].
  2:{ intros h E. rewrite E in Hl.
      assert (length h = B256_LEN).
      { unfold effective_parent_seal_hash in E. destruct (parent_seal_hash_v0 r); [naive_solver|].
        destruct (parent_extra r); naive_solver. }
      split_and!; [done|by apply b256_nonempty|lia]. }
  2:{ unfold effective_parent_seal_hash.
      destruct (parent_seal_hash_v0 r); [done|]. by destruct (parent_extra r). }
  cbn [result_bind]. rewrite <- (app_nil_r (match parent_extra r with Some e => _ | None => [] end)).
  rewrite (decode_trailing_ok rlp_bytes (fun _ => True)); [done|apply rlp_bytes_ok| |done].
  intros e E. rewrite E in Hl. split_and!; [done|apply rlp_bytes_nonempty|lia].
Qed.
End recovery_codec.
