(* ===== verification/Recovery.v ===== *)
(** The recovery round trip: the messages a validator accumulated into a compact
    recovery message are exactly the messages a peer gets by expanding it
    (crates/neox/network/src/dbft_payload.rs, [add_message] and [expand]). *)

From S2P Require Import Prelude Extern Instances Tpke Wire Payload.

Section round_trip.
Context {R : AlloyRlp} {RL : AlloyRlpLaws R} {C : Crypto} {CL : CryptoLaws C} {B : Blst}.

(** One round: its height, validators, recovery view, and the hash of the
    primary's proposal. *)
Variable height : N.
Variable validators : list Address.
Variable view : N.
Variable proposal_hash : B256.

Let n := lenN validators.
Let primary := recovery_primary_index height view n.

(** The messages of the round, by what their signers chose. *)
Inductive entry : Type :=
| ERequest (body script : bytes)
| EResponse (index : N) (script : bytes)
| EChangeView (index v timestamp : N) (reason : DbftChangeViewReason) (script : bytes)
| EPreCommit (index v : N) (p : DbftPreCommit) (script : bytes)
| ECommit (index v : N) (signature script : bytes).

Definition entry_index (e : entry) : N :=
  match e with
  | ERequest _ _ => primary
  | EResponse i _ | EChangeView i _ _ _ _ | EPreCommit i _ _ _ | ECommit i _ _ _ => i
  end.

Definition entry_view (e : entry) : N :=
  match e with
  | ERequest _ _ | EResponse _ _ => view
  | EChangeView _ v _ _ _ | EPreCommit _ v _ _ | ECommit _ v _ _ => v
  end.

Definition entry_type (e : entry) : DbftMessageType :=
  match e with
  | ERequest _ _ => PrepareRequest
  | EResponse _ _ => PrepareResponse
  | EChangeView _ _ _ _ _ => ChangeView
  | EPreCommit _ _ _ _ => PreCommit
  | ECommit _ _ _ _ => Commit
  end.

Definition entry_body (e : entry) : bytes :=
  match e with
  | ERequest body _ => body
  | EResponse _ _ => enc prepare_response_codec (mkDbftPrepareResponse proposal_hash)
  | EChangeView _ _ t r _ => enc change_view_codec (change_view_new t r)
  | EPreCommit _ _ p _ => enc pre_commit_codec p
  | ECommit _ _ s _ => enc commit_codec (mkDbftCommit s)
  end.

Definition entry_script (e : entry) : bytes :=
  match e with
  | ERequest _ s | EResponse _ s | EChangeView _ _ _ _ s | EPreCommit _ _ _ s | ECommit _ _ _ s => s
  end.

Definition entry_data (e : entry) : DbftConsensusData :=
  mkDbftConsensusData (entry_type e) height (entry_index e) (entry_view e) (entry_body e).

Definition entry_message (e : entry) : DbftMessage :=
  recovered_message height (validator_at validators (entry_index e)) (entry_index e) (entry_view e)
    (entry_type e) (entry_body e) (entry_script e).

(** A message an honest validator of the round sends: signed by the validator it
    names, with a well-formed body; the primary proposes and the others respond;
    a change-view signature fits one reason only. *)
Definition entry_ok (e : entry) : Prop :=
  entry_index e < n /\ entry_view e <= U8_MAX /\
  lenN (consensus_data_encode (entry_data e)) <= USIZE_MAX /\
  (exists hash, verify_witness (entry_message e) = Ok hash) /\
  match e with
  | ERequest body _ =>
      rlp_item body /\ (exists q, decoded_payload (entry_data e) = Ok (DecodedPrepareRequest q)) /\
      message_hash (entry_message e) = proposal_hash
  | EResponse index _ => index <> primary
  | EChangeView i v t r s =>
      t <= U64_MAX /\
      forall r', r' <> r ->
        is_ok (verify_witness (change_view_candidate height (validator_at validators i)
                                 (mkChangeViewCompact i v t s) r')) = false
  | EPreCommit _ _ p _ => from_data (pc_data p) = Ok p
  | ECommit _ _ s _ => exists c, validated_signature (mkDbftCommit s) = Ok c
  end.

(** The compact entry a message becomes. *)
Definition add_entry (r : DbftRecoveryMessage) (e : entry) : DbftRecoveryMessage :=
  match e with
  | ERequest body s =>
      mkDbftRecoveryMessage (preparations r ++ [mkPreparationCompact primary s]) (commits r)
        (change_views r) (Some proposal_hash)
        (Some (mkDbftConsensusData PrepareRequest 0 0 view body)) (pre_commits r)
  | EResponse i s =>
      mkDbftRecoveryMessage (preparations r ++ [mkPreparationCompact i s]) (commits r)
        (change_views r)
        (match preparation_hash r with None => Some proposal_hash | Some h => Some h end)
        (prepare_request r) (pre_commits r)
  | EChangeView i v t _ s =>
      mkDbftRecoveryMessage (preparations r) (commits r)
        (change_views r ++ [mkChangeViewCompact i v t s])
        (preparation_hash r) (prepare_request r) (pre_commits r)
  | EPreCommit i v p s =>
      mkDbftRecoveryMessage (preparations r) (commits r) (change_views r)
        (preparation_hash r) (prepare_request r)
        (pre_commits r ++ [mkPreCommitCompact v i (pc_data p) s])
  | ECommit i v sg s =>
      mkDbftRecoveryMessage (preparations r) (commits r ++ [mkCommitCompact v i sg s])
        (change_views r) (preparation_hash r) (prepare_request r) (pre_commits r)
  end.

Definition preparation_of (e : entry) : option PreparationCompact :=
  match e with
  | ERequest _ s => Some (mkPreparationCompact primary s)
  | EResponse i s => Some (mkPreparationCompact i s)
  | _ => None
  end.

Definition commit_of (e : entry) : option CommitCompact :=
  match e with ECommit i v sg s => Some (mkCommitCompact v i sg s) | _ => None end.
Definition change_view_of (e : entry) : option ChangeViewCompact :=
  match e with EChangeView i v t _ s => Some (mkChangeViewCompact i v t s) | _ => None end.
Definition pre_commit_of (e : entry) : option PreCommitCompact :=
  match e with EPreCommit i v p s => Some (mkPreCommitCompact v i (pc_data p) s) | _ => None end.

Definition of_type (t : DbftMessageType) (es : list entry) : list entry :=
  filter (fun e => entry_type e = t) es.

Hypothesis Hn : n <> 0 /\ n <= U8_MAX + 1.
Hypothesis Hheight : height <= U64_MAX.
Hypothesis Hview : view <= U8_MAX.
Hypothesis Hhash : length proposal_hash = B256_LEN.

Lemma entry_body_item e : entry_ok e -> rlp_item (entry_body e).
Proof.
  intros (_ & _ & Hl & _ & He).
  unfold consensus_data_encode, consensus_data_fields in Hl. rewrite !lenN_app in Hl.
  destruct e; simpl in *; try (by destruct He);
    unfold prepare_response_codec, change_view_codec, commit_codec in *;
    rewrite ?rlp_derive_enc in *; rewrite lenN_app in Hl; apply list_is_item; lia.
Qed.

Lemma entry_consensus_data e : entry_ok e -> consensus_data (entry_message e) = Ok (entry_data e).
Proof.
  intros He. pose proof (entry_body_item e He) as Hi. destruct He as (Hix & Hv & Hl & _).
  assert (Hok : consensus_data_ok (entry_data e))
    by (unfold consensus_data_ok; simpl; unfold U8_MAX in *; lia).
  unfold consensus_data, entry_message, recovered_message. cbn [data valid_block_end].
  replace (decode_exact consensus_data_codec _) with (@Ok rlp_error _ (entry_data e)).
  - simpl. by rewrite N.eqb_refl.
  - symmetry. apply decode_exact_Ok. rewrite <- (app_nil_r (consensus_data_encode _)).
    by apply consensus_data_decode_encode.
Qed.

Lemma body_size e : entry_ok e -> lenN (entry_body e) <= USIZE_MAX.
Proof.
  intros (_ & _ & Hl & _). unfold consensus_data_encode, consensus_data_fields in Hl.
  rewrite !lenN_app in Hl. simpl in Hl. lia.
Qed.

Lemma reason_bound r : change_view_reason_as_u8 r <= U8_MAX.
Proof. destruct r; vm_compute; discriminate. Qed.

Lemma reason_try_from r : change_view_reason_try_from (change_view_reason_as_u8 r) = Ok r.
Proof. by destruct r. Qed.

Lemma pre_commit_decode p :
  from_data (pc_data p) = Ok p -> lenN (enc pre_commit_codec p) <= USIZE_MAX ->
  decode_exact pre_commit_codec (enc pre_commit_codec p) = Ok p.
Proof.
  intros Hp Hl. apply decode_exact_Ok. cbn [pre_commit_codec enc dec] in *. rewrite lenN_app in Hl.
  rewrite <- (app_nil_r (enc rlp_bytes (pc_data p))) at 2.
  rewrite rlp_decode_bytes_encode by lia. cbn [result_bind].
  rewrite <- (app_nil_r (enc rlp_bytes (pc_data p))).
  rewrite rlp_bytes_ok by (done || lia). cbn [result_bind]. by rewrite Hp.
Qed.

(** Adding an honest message appends its compact entry. *)
Lemma add_message_entry r e r' :
  entry_ok e -> add_message r (entry_message e) = Ok r' -> r' = add_entry r e.
Proof.
  intros He Ha. pose proof (entry_consensus_data e He) as Hd. pose proof (body_size e He) as Hsz.
  unfold add_message in Ha. rewrite Hd in Ha.
  destruct He as (Hi & Hv & Hl & [hash Hw] & He). rewrite Hw in Ha. cbn [map_err result_bind] in Ha.
  destruct e as [body s|i s|i v t reason s|i v p s|i v sg s].
  - destruct He as (_ & [q Hq] & Hh). rewrite Hq in Ha. cbn [result_bind] in Ha. bind_inv.
    simpl. by rewrite Hh.
  - unfold decoded_payload in Ha. cbn [entry_data message_type payload entry_type entry_body] in Ha.
    unfold decode_payload in Ha.
    rewrite (decode_exact_enc _ _ _ prepare_response_codec_ok) in Ha by done.
    cbn [map_err result_bind] in Ha. bind_inv. done.
  - unfold decoded_payload in Ha. cbn [entry_data message_type payload entry_type entry_body] in Ha.
    unfold decode_payload in Ha.
    rewrite (decode_exact_enc _ _ _ change_view_codec_ok) in Ha;
      [|split; [apply He|apply reason_bound]|done].
    cbn [map_err result_bind] in Ha. unfold change_view_reason in Ha.
    cbn [change_view_new cv_reason] in Ha. rewrite reason_try_from in Ha. cbn [result_bind] in Ha.
    bind_inv. done.
  - unfold decoded_payload in Ha. cbn [entry_data message_type payload entry_type entry_body] in Ha.
    unfold decode_payload in Ha. rewrite (pre_commit_decode p He Hsz) in Ha.
    cbn [map_err result_bind] in Ha. bind_inv. done.
  - unfold decoded_payload in Ha. cbn [entry_data message_type payload entry_type entry_body] in Ha.
    unfold decode_payload in Ha. rewrite (decode_exact_enc _ _ _ commit_codec_ok) in Ha by done.
    cbn [map_err result_bind] in Ha. destruct He as [c Hc]. rewrite Hc in Ha.
    cbn [result_bind] in Ha. bind_inv. done.
Qed.

(** What has been accumulated after the entries [es]. *)
Definition accumulated (es : list entry) (r : DbftRecoveryMessage) : Prop :=
  preparations r = omap preparation_of es /\ commits r = omap commit_of es /\
  change_views r = omap change_view_of es /\ pre_commits r = omap pre_commit_of es /\
  preparation_hash r = (if bool_decide (omap preparation_of es = []) then None else Some proposal_hash) /\
  (forall q, prepare_request r = Some q -> exists s, ERequest (payload q) s ∈ es) /\
  (forall body s, ERequest body s ∈ es -> is_Some (prepare_request r)).

Lemma add_entry_accumulated es r e : accumulated es r -> accumulated (es ++ [e]) (add_entry r e).
Proof.
  intros (Ep & Ec & Ev & Epc & Eh & Hq1 & Hq2). unfold accumulated.
  rewrite !omap_app. destruct e as [body s|i s|i v t reason s|i v p s|i v sg s];
    simpl; rewrite ?app_nil_r, <- ?Ep, <- ?Ec, <- ?Ev, <- ?Epc; split_and!; try done.
  all: try (intros q Hq; destruct (Hq1 q Hq) as [s' Hs']; exists s'; by apply elem_of_app; left).
  all: try (intros body' s' [Hin|Hin]%elem_of_app; [by eapply Hq2|]; apply list_elem_of_singleton in Hin; done).
  all: try (by rewrite Eh, Ep).
  all: try (rewrite bool_decide_eq_false_2; [done|by intros [_ ?]%app_eq_nil]).
  - intros q [= <-]. exists s. apply elem_of_app. right. by apply list_elem_of_singleton.
  - rewrite (bool_decide_eq_false_2 (_ ++ _ = [])) by (by intros [_ ?]%app_eq_nil).
    rewrite Eh. by case_bool_decide.
Qed.

Lemma accumulate_entries es0 r es r' :
  Forall entry_ok es -> accumulated es0 r -> accumulate r (map entry_message es) = Ok r' ->
  accumulated (es0 ++ es) r'.
Proof.
  intros Hes. revert es0 r. induction Hes as [|e es He Hes IH]; intros es0 r Hr; simpl.
  - intros [= <-]. by rewrite app_nil_r.
  - intros Ha. apply result_bind_Ok in Ha as (r1 & Ha & Hrest).
    apply (add_message_entry _ _ _ He) in Ha as ->.
    replace (es0 ++ e :: es) with ((es0 ++ [e]) ++ es) by (by rewrite <- app_assoc).
    eapply IH; [|exact Hrest]. by apply add_entry_accumulated.
Qed.

Lemma accumulated_new : accumulated [] recovery_new.
Proof. unfold accumulated. simpl. split_and!; try done; intros; by apply not_elem_of_nil in H. Qed.

(** ** Expanding the pieces *)

Lemma collect_omap {A T} (g : entry -> option A) (f : A -> result DbftPayloadError T)
    (h : entry -> T) (P : entry -> Prop) `{forall e, Decision (P e)} es :
  (forall e, e ∈ es -> P e -> exists a, g e = Some a /\ f a = Ok (h e)) ->
  (forall e, ~ P e -> g e = None) ->
  collect_result f (omap g es) = Ok (map h (filter P es)).
Proof.
  intros Hf Hg. induction es as [|e es IH]; [done|].
  rewrite filter_cons. unfold omap in *. simpl. case_decide as HP.
  - destruct (Hf e) as (a & Ea & Fa); [by left|done|]. rewrite Ea. simpl. rewrite Fa. simpl.
    rewrite IH; [done|]. intros e' He'. apply Hf. by right.
  - rewrite Hg by done. apply IH. intros e' He'. apply Hf. by right.
Qed.

Lemma expand_checked_ok kind index m hash :
  verify_witness m = Ok hash -> expand_checked kind index m = Ok m.
Proof. intros Hv. unfold expand_checked, verify_recovered. by rewrite Hv. Qed.

Lemma authenticate_none h sd c reasons found :
  (forall r, r ∈ reasons -> is_ok (verify_witness (change_view_candidate h sd c r)) = false) ->
  authenticate_change_view h sd c reasons found = Ok found.
Proof.
  induction reasons as [|r rs IH]; intros Hr; simpl; [done|].
  rewrite Hr by (by left). apply IH. intros r' Hin. apply Hr. by right.
Qed.

Lemma authenticate_unique h sd c reasons r :
  NoDup reasons -> r ∈ reasons ->
  is_ok (verify_witness (change_view_candidate h sd c r)) = true ->
  (forall r', r' <> r -> is_ok (verify_witness (change_view_candidate h sd c r')) = false) ->
  authenticate_change_view h sd c reasons None = Ok (Some (change_view_candidate h sd c r)).
Proof.
  intros Hnd Hin Hok Hno. induction Hnd as [|r' rs Hr' Hnd IH]; [by apply not_elem_of_nil in Hin|].
  simpl. destruct (decide (r' = r)) as [->|Hne].
  - rewrite Hok. apply authenticate_none. intros r' Hrs. apply Hno. by intros ->.
  - rewrite Hno by done. apply IH. apply elem_of_cons in Hin as [?|?]; congruence.
Qed.

Lemma expand_change_view_entry e :
  entry_ok e -> entry_type e = ChangeView ->
  exists c, change_view_of e = Some c /\ expand_change_view height validators c = Ok (entry_message e).
Proof.
  intros (_ & _ & _ & [hash Hw] & He) Ht. destruct e as [| |i v t r s| |]; try done.
  eexists. split; [reflexivity|]. unfold expand_change_view. cbn [v_validator_index].
  rewrite (authenticate_unique _ _ _ change_view_reasons r); [done| | | |apply He].
  - apply (bool_decide_unpack _). vm_compute. exact I.
  - destruct r; apply (bool_decide_unpack _); vm_compute; exact I.
  - change (change_view_candidate height (validator_at validators i) (mkChangeViewCompact i v t s) r)
      with (entry_message (EChangeView i v t r s)). by rewrite Hw.
Qed.

Lemma expand_pre_commit_entry e :
  entry_ok e -> entry_type e = PreCommit ->
  exists c, pre_commit_of e = Some c /\ expand_pre_commit height validators c = Ok (entry_message e).
Proof.
  intros (_ & _ & _ & [hash Hw] & He) Ht. destruct e; try done.
  eexists. split; [reflexivity|]. unfold expand_pre_commit. cbn [pc_packet]. simpl in He. rewrite He.
  cbn [result_bind]. by eapply expand_checked_ok.
Qed.

Lemma expand_commit_entry e :
  entry_ok e -> entry_type e = Commit ->
  exists c, commit_of e = Some c /\ expand_commit height validators c = Ok (entry_message e).
Proof.
  intros (_ & _ & _ & [hash Hw] & He) Ht. destruct e; try done.
  eexists. split; [reflexivity|]. unfold expand_commit. by eapply expand_checked_ok.
Qed.

Lemma expand_responses_entries es r :
  Forall entry_ok es -> accumulated es r ->
  expand_prepare_responses r height view primary validators =
    Ok (map entry_message (of_type PrepareResponse es)).
Proof.
  intros Hes (Ep & _ & _ & _ & Eh & _). unfold expand_prepare_responses. rewrite Eh, Ep.
  case_bool_decide as Hnil.
  - replace (of_type PrepareResponse es) with (@nil entry); [done|]. symmetry. clear -Hnil.
    induction es as [|e es IH]; [done|]. unfold of_type in *. rewrite filter_cons.
    unfold omap in *. simpl in Hnil. destruct e; simpl in *; try done; by apply IH.
  - replace (filter (fun c => p_validator_index c <> primary) (omap preparation_of es))
      with (omap (fun e => match e with EResponse i s => Some (mkPreparationCompact i s) | _ => None end) es).
    + apply collect_omap.
      * intros e Hin Ht. rewrite Forall_forall in Hes.
        destruct (Hes e Hin) as (_ & _ & _ & [hash Hw] & He). destruct e; try done.
        eexists. split; [reflexivity|]. by eapply expand_checked_ok.
      * by intros [].
    + clear -Hes. induction Hes as [|e es (_ & _ & _ & _ & He) Hes IH]; [done|].
      unfold omap in *. simpl. destruct e; simpl in *; try done.
      * rewrite filter_cons_False by (simpl; tauto). exact IH.
      * rewrite filter_cons_True by done. by rewrite IH.
Qed.

Lemma no_primary_requests l :
  primary ∉ map p_validator_index (omap preparation_of l) ->
  of_type PrepareRequest l = [] /\
  List.find (fun c => p_validator_index c =? primary) (omap preparation_of l) = None.
Proof.
  unfold of_type, omap. induction l as [|e l IH]; [done|]. rewrite filter_cons. intros Hp.
  destruct e; simpl in *; try (by apply IH).
  - exfalso. apply Hp. by left.
  - apply not_elem_of_cons in Hp as [Hi Hp]. rewrite (proj2 (N.eqb_neq _ _)) by done. by apply IH.
Qed.

Lemma find_app_None {A} (f : A -> bool) l k :
  List.find f l = None -> List.find f (l ++ k) = List.find f k.
Proof. induction l as [|a l IH]; simpl; [done|]. by destruct (f a). Qed.

Lemma unique_request es body s :
  NoDup (map p_validator_index (omap preparation_of es)) -> ERequest body s ∈ es ->
  of_type PrepareRequest es = [ERequest body s] /\
  List.find (fun c => p_validator_index c =? primary) (omap preparation_of es)
    = Some (mkPreparationCompact primary s).
Proof.
  intros Hnd (l1 & l2 & ->)%list_elem_of_split. rewrite omap_app, map_app in Hnd.
  change (omap preparation_of (ERequest body s :: l2))
    with (mkPreparationCompact primary s :: omap preparation_of l2) in Hnd.
  simpl in Hnd. apply NoDup_app in Hnd as (_ & Hl1 & Hnd). apply NoDup_cons in Hnd as [Hl2 _].
  destruct (no_primary_requests l1) as [E1 F1].
  { intros Hin. apply (Hl1 _ Hin). by left. }
  destruct (no_primary_requests l2 Hl2) as [E2 F2]. split.
  - unfold of_type in *. rewrite filter_app, filter_cons_True by done. by rewrite E1, E2.
  - rewrite omap_app, find_app_None by done.
    change (omap preparation_of (ERequest body s :: l2))
      with (mkPreparationCompact primary s :: omap preparation_of l2).
    simpl. by rewrite N.eqb_refl.
Qed.

Lemma expand_request_entries es r :
  Forall entry_ok es -> accumulated es r -> NoDup (map p_validator_index (preparations r)) ->
  expand_prepare_request r height view primary validators =
    Ok (map entry_message (of_type PrepareRequest es)).
Proof.
  intros Hes (Ep & _ & _ & _ & _ & Hq1 & Hq2) Hnd. rewrite Ep in Hnd.
  unfold expand_prepare_request. rewrite Ep. destruct (prepare_request r) as [q|] eqn:Eq.
  - destruct (Hq1 q eq_refl) as [s Hin].
    destruct (unique_request es (payload q) s Hnd Hin) as [-> ->].
    rewrite Forall_forall in Hes. destruct (Hes _ Hin) as (_ & _ & _ & [hash Hw] & _).
    change (recovered_message height (validator_at validators primary) primary view PrepareRequest
      (payload q) (p_invocation_script (mkPreparationCompact primary s)))
      with (entry_message (ERequest (payload q) s)).
    by rewrite (expand_checked_ok _ _ _ _ Hw).
  - replace (of_type PrepareRequest es) with (@nil entry); [done|]. symmetry.
    destruct (of_type PrepareRequest es) as [|e l] eqn:E; [done|]. exfalso.
    assert (He : e ∈ of_type PrepareRequest es) by (rewrite E; by left).
    apply list_elem_of_filter in He as [Ht He]. destruct e; try done.
    apply Hq2 in He as [? ?]. done.
Qed.

Lemma entries_by_type es :
  of_type ChangeView es ++ of_type PrepareRequest es ++ of_type PrepareResponse es
    ++ of_type PreCommit es ++ of_type Commit es ≡ₚ es.
Proof.
  induction es as [|e es IH]; [done|]. unfold of_type in *. rewrite !filter_cons.
  destruct e; simpl; rewrite <- IH at 6; clear IH.
  - by rewrite <- Permutation_middle.
  - rewrite !app_assoc. rewrite <- !app_assoc. rewrite (app_assoc (filter _ _)).
    by rewrite <- Permutation_middle, <- app_assoc.
  - done.
  - rewrite (app_assoc (filter _ _)), (app_assoc (filter _ _ ++ _)).
    by rewrite <- Permutation_middle, <- !app_assoc.
  - rewrite (app_assoc (filter _ _)), (app_assoc (filter _ _ ++ _)), (app_assoc ((filter _ _ ++ _) ++ _)).
    by rewrite <- Permutation_middle, <- !app_assoc.
Qed.

Lemma indices_in_range {A} (g : entry -> option A) (idx : A -> N) es :
  Forall entry_ok es -> (forall e a, g e = Some a -> idx a = entry_index e) ->
  Forall (fun i => i < n) (map idx (omap g es)).
Proof.
  intros Hes Hg. apply Forall_fmap, Forall_forall. intros a Ha.
  apply list_elem_of_omap in Ha as (e & He & Hge). rewrite Forall_forall in Hes.
  destruct (Hes e He) as (Hi & _). simpl. by rewrite (Hg e a Hge).
Qed.

(** C31. Recovery round trip: if a validator accumulates honest messages of one
    round (the primary's proposal, responses to that proposal, change views,
    pre-commits and commits), any peer that expands the resulting compact message
    under the same validator set and view obtains exactly those messages, each
    re-authenticated, in some order. *)
Theorem recovery_roundtrip es r recovery d :
  Forall entry_ok es -> accumulate recovery_new (map entry_message es) = Ok r ->
  consensus_data recovery = Ok d -> message_type d = RecoveryMessage ->
  block_index d = height -> view_number d = view ->
  exists ms, expand r recovery validators = Ok ms /\ ms ≡ₚ map entry_message es.
Proof.
  intros Hes Ha Hd Ht Hb Hvn.
  pose proof (accumulate_inv _ _ _ recovery_new_inv Ha)
    as (_ & Np & _ & Nc & _ & Nv & _ & Npc & _).
  pose proof (accumulate_entries [] _ es _ Hes accumulated_new Ha) as Hacc. simpl in Hacc.
  pose proof Hacc as (Ep & Ec & Ev & Epc & _).
  destruct Hn as [Hn0 Hnmax].
  exists (map entry_message (of_type ChangeView es ++ of_type PrepareRequest es
    ++ of_type PrepareResponse es ++ of_type PreCommit es ++ of_type Commit es)).
  split; [|by rewrite entries_by_type].
  unfold expand. rewrite Hd. cbn [map_err result_bind]. rewrite Ht, bool_decide_eq_true_2 by done.
  rewrite bool_decide_eq_false_2 by (intros E; apply Hn0; unfold n; by rewrite E).
  rewrite (proj2 (N.ltb_ge _ _)) by done. cbn [negb orb].
  fold n. rewrite Hb, Hvn. fold primary.
  rewrite (proj2 (validate_unique_indices_Ok (map p_validator_index (preparations r)) n _ tt)),
    (proj2 (validate_unique_indices_Ok (map pc_validator_index (pre_commits r)) n _ tt)),
    (proj2 (validate_unique_indices_Ok (map c_validator_index (commits r)) n _ tt)),
    (proj2 (validate_unique_indices_Ok (map v_validator_index (change_views r)) n _ tt));
    try (split; [done|]; first [rewrite Ep|rewrite Epc|rewrite Ec|rewrite Ev];
         apply indices_in_range; [done|intros []; naive_solver]).
  cbn [result_bind].
  rewrite Ev, (collect_omap _ _ entry_message (fun e => entry_type e = ChangeView));
    [|intros e Hin; apply expand_change_view_entry; rewrite Forall_forall in Hes; auto|by intros []].
  cbn [result_bind]. rewrite (expand_request_entries es r) by done. cbn [result_bind].
  rewrite (expand_responses_entries es r) by done. cbn [result_bind].
  rewrite Epc, (collect_omap _ _ entry_message (fun e => entry_type e = PreCommit));
    [|intros e Hin; apply expand_pre_commit_entry; rewrite Forall_forall in Hes; auto|by intros []].
  cbn [result_bind].
  rewrite Ec, (collect_omap _ _ entry_message (fun e => entry_type e = Commit));
    [|intros e Hin; apply expand_commit_entry; rewrite Forall_forall in Hes; auto|by intros []].
  cbn [result_bind]. by rewrite !map_app.
Qed.
End round_trip.

(** ** Witnesses *)

Module RecoveryWitness.
Import RlpInstance.
#[local] Existing Instance alloy_rlp.
#[local] Existing Instance alloy_rlp_laws.
#[local] Existing Instance model_crypto.
#[local] Existing Instance model_crypto_laws.
#[local] Existing Instance model_blst.

Definition validator (b : byte) : Address := repeat b 20.
Definition validators : list Address := [validator x01; validator x02].
(** A witness of the signer whose address starts it. *)
Definition script (b : byte) : bytes := validator b ++ repeat x00 45.

(** At height 1 and view 0 the primary of two validators is validator 1. *)
Definition request : DbftPrepareRequest :=
  mkDbftPrepareRequest (model_header 1 1 1 ZERO_B256 [x00]) [ZERO_B256] None None.
Definition request_entry : entry := ERequest (enc prepare_request_codec request) (script x02).
Definition proposal_hash : B256 := message_hash (entry_message 1 validators 0 [] request_entry).

Definition entries : list entry :=
  [request_entry; EResponse 0 (script x01); ECommit 1 0 (repeat x00 65) (script x02)].
Definition messages : list DbftMessage := map (entry_message 1 validators 0 proposal_hash) entries.
Definition compact : DbftRecoveryMessage :=
  default recovery_new (result_ok (accumulate recovery_new messages)).
Definition recovery : DbftMessage :=
  recovered_message 1 (validator x01) 0 0 RecoveryMessage (enc recovery_message_codec compact) [].
Definition recovery_data : DbftConsensusData :=
  mkDbftConsensusData RecoveryMessage 1 0 0 (enc recovery_message_codec compact).

Lemma entries_ok : Forall (entry_ok 1 validators 0 proposal_hash) entries.
Proof.
  repeat constructor; try (by vm_compute);
    try (eexists; vm_compute; reflexivity); try (vm_compute; discriminate).
Qed.

Lemma recovery_roundtrip_witness :
  exists ms, expand compact recovery validators = Ok ms /\ ms ≡ₚ messages.
Proof.
  apply (recovery_roundtrip 1 validators 0 proposal_hash) with (d := recovery_data);
    [by vm_compute|by vm_compute|by vm_compute|reflexivity|apply entries_ok
    |vm_compute; reflexivity|vm_compute; reflexivity|reflexivity|reflexivity|reflexivity].
Defined.

Lemma recovery_expansion_authentic_witness :
  exists d index view type body script hash,
    consensus_data recovery = Ok d /\ message_type d = RecoveryMessage /\
    entry_message 1 validators 0 proposal_hash request_entry
      = recovered_message (block_index d) (validator_at validators index) index view type body script /\
    index < 2 /\ verify_witness (entry_message 1 validators 0 proposal_hash request_entry) = Ok hash /\
    hash = message_hash (entry_message 1 validators 0 proposal_hash request_entry) /\
    type <> RecoveryRequest /\ type <> RecoveryMessage.
Proof.
  apply (recovery_expansion_authentic compact recovery validators messages);
    [vm_compute; reflexivity|by left].
Defined.

Lemma recovery_message_roundtrip_witness :
  decode_payload recovery_message_codec (enc recovery_message_codec compact) = Ok compact.
Proof.
  apply (recovery_message_roundtrip messages); [vm_compute; reflexivity|vm_compute; discriminate].
Defined.

Lemma prepare_request_roundtrip_witness :
  decode_payload prepare_request_codec (enc prepare_request_codec request) = Ok request.
Proof.
  apply (prepare_request_roundtrip request); [|vm_compute; discriminate].
  split_and!; [|by repeat constructor|done].
  unfold header_ok. split_and!; try done; repeat constructor; try done; vm_compute; discriminate.
Defined.
End RecoveryWitness.
