(* ===== verification/Cache.v ===== *)
(** The verified dBFT message cache (crates/neox/network/src/dbft.rs,
    [DbftMessageCache]): messages by hash, hashes by sender and by age, and the
    byte count, with eviction by sender quota, by count and by size. *)

From S2P Require Import Prelude Extern Instances Wire.

Definition DBFT_MESSAGE_CACHE_BYTE_CAPACITY : N := 64 * 1024 * 1024.
Definition DBFT_MESSAGE_CACHE_CAPACITY : N := 256.
Definition DBFT_SENDER_CACHE_CAPACITY : N := 20.

Inductive CacheMessageOutcome : Type :=
| Inserted
| Duplicate
| OutsideActiveRound (current : N).

Record CachedDbftMessage : Type := mkCachedDbftMessage {
  message : DbftMessage;
  encoded_size : N;
}.

Record DbftMessageCache : Type := mkDbftMessageCache {
  messages : gmap B256 CachedDbftMessage;
  senders : gmap Address (list B256);
  order : list B256;
  retained_bytes : N;
}.

Definition cache_default : DbftMessageCache := mkDbftMessageCache ∅ ∅ [] 0.

(** [if let Some(position) = order.iter().position(..) { order.remove(position) }] *)
Fixpoint remove_first (hash : B256) (l : list B256) : list B256 :=
  match l with
  | [] => []
  | h :: t => if bool_decide (h = hash) then t else h :: remove_first hash t
  end.

Section cache.
Context {R : AlloyRlp}.

Definition cache_clear (c : DbftMessageCache) : DbftMessageCache := cache_default.

Definition cache_get (c : DbftMessageCache) (hash : B256) : option DbftMessage :=
  message <$> messages c !! hash.

Definition cache_contains (c : DbftMessageCache) (hash : B256) : bool :=
  bool_decide (is_Some (messages c !! hash)).

Definition remove_from_sender (s : gmap Address (list B256)) (sender : Address) (hash : B256)
    : gmap Address (list B256) :=
  match s !! sender with
  | Some hashes =>
      let hashes := filter (fun candidate => candidate <> hash) hashes in
      if bool_decide (hashes = []) then delete sender s else <[sender := hashes]> s
  | None => s
  end.

Definition cache_remove (c : DbftMessageCache) (hash : B256) : DbftMessageCache * option DbftMessage :=
  match messages c !! hash with
  | None => (c, None)
  | Some cached =>
      (mkDbftMessageCache
         (delete hash (messages c))
         (remove_from_sender (senders c) (sender (message cached)) hash)
         (remove_first hash (order c))
         (saturating_sub (retained_bytes c) (encoded_size cached)),
       Some (message cached))
  end.

(** The hash map is iterated in an unspecified order; [map_to_list] is one. *)
Definition cache_retain (c : DbftMessageCache) (keep : DbftMessage -> bool) : DbftMessageCache :=
  let stale :=
    omap (fun '(hash, cached) => if keep (message cached) then None else Some hash)
      (map_to_list (messages c)) in
  foldl (fun c hash => (cache_remove c hash).1) c stale.

Definition over_capacity (c : DbftMessageCache) (size : N) : bool :=
  (DBFT_MESSAGE_CACHE_CAPACITY <=? N.of_nat (base.size (messages c))) ||
  (DBFT_MESSAGE_CACHE_BYTE_CAPACITY <? saturating_add USIZE_MAX (retained_bytes c) size).

(** The eviction loop; [None] when the fuel runs out. *)
Fixpoint evict (fuel : nat) (c : DbftMessageCache) (size : N) : option DbftMessageCache :=
  if over_capacity c size then
    match order c with
    | [] => Some c
    | evicted :: _ =>
        match fuel with
        | O => None
        | S fuel => evict fuel (cache_remove c evicted).1 size
        end
    end
  else Some c.

Definition sender_evicted (c : DbftMessageCache) (sender : Address) : option B256 :=
  hashes ← senders c !! sender;
  if DBFT_SENDER_CACHE_CAPACITY <=? lenN hashes then head hashes else None.

(** [Err] is the size of a message larger than the cache; the fuel of the
    eviction loop is the number of cached messages. *)
Definition cache_insert (c : DbftMessageCache) (hash : B256) (m : DbftMessage)
    : option (DbftMessageCache * result N CacheMessageOutcome) :=
  if bool_decide (is_Some (messages c !! hash)) then Some (c, Ok Duplicate)
  else
    let size := message_length m in
    if DBFT_MESSAGE_CACHE_BYTE_CAPACITY <? size then Some (c, Err size)
    else
      let c :=
        match sender_evicted c (sender m) with
        | Some evicted => (cache_remove c evicted).1
        | None => c
        end in
      c ← evict (length (order c)) c size;
      Some (mkDbftMessageCache
              (<[hash := mkCachedDbftMessage m size]> (messages c))
              (<[sender m := default [] (senders c !! sender m) ++ [hash]]> (senders c))
              (order c ++ [hash])
              (saturating_add USIZE_MAX (retained_bytes c) size),
            Ok Inserted).
End cache.

(** ** Invariant *)

(** The hashes a sender has in the cache, oldest first. *)
Definition sender_hashes (c : DbftMessageCache) (s : Address) : list B256 :=
  filter (fun h => (fun m => sender (message m)) <$> messages c !! h = Some s) (order c).

(** The indexes agree: [order] lists the cached hashes once each, [senders] splits
    it by sender without empty lists, and the byte count is the sum of the sizes. *)
Record cache_consistent `{AlloyRlp} (c : DbftMessageCache) : Prop := {
  order_nodup : NoDup (order c);
  order_dom h : h ∈ order c <-> is_Some (messages c !! h);
  senders_ok s :
    senders c !! s = (if bool_decide (sender_hashes c s = []) then None else Some (sender_hashes c s));
  bytes_ok : retained_bytes c = map_sum encoded_size (messages c);
  sizes_ok h m : messages c !! h = Some m -> encoded_size m = message_length (message m);
}.

Record cache_bounded (c : DbftMessageCache) : Prop := {
  bytes_bound : retained_bytes c <= DBFT_MESSAGE_CACHE_BYTE_CAPACITY;
  count_bound : N.of_nat (size (messages c)) <= DBFT_MESSAGE_CACHE_CAPACITY;
  sender_bound s : lenN (sender_hashes c s) <= DBFT_SENDER_CACHE_CAPACITY;
}.

Definition cache_inv `{AlloyRlp} (c : DbftMessageCache) : Prop :=
  cache_consistent c /\ cache_bounded c.

Section proofs.
Context {R : AlloyRlp}.

Lemma remove_first_filter hash l :
  NoDup l -> remove_first hash l = filter (fun h => h <> hash) l.
Proof.
  induction 1 as [|h t Hh Hn IH]; simpl; [done|]. rewrite filter_cons.
  case_bool_decide as E.
  - subst. rewrite decide_False by tauto. symmetry. apply filter_all.
    apply Forall_forall. intros x Hx ->. done.
  - rewrite decide_True by done. by rewrite IH.
Qed.

Lemma cache_default_inv : cache_inv cache_default.
Proof.
  split; constructor; simpl; try done.
  - constructor.
  - intros h. rewrite lookup_empty. split; [by intros ?%not_elem_of_nil|by intros [? ?]].
Qed.

(** Removing a hash removes it from every index. *)
Lemma remove_sender_hashes c hash cached s :
  cache_consistent c -> messages c !! hash = Some cached ->
  sender_hashes (cache_remove c hash).1 s = filter (fun h => h <> hash) (sender_hashes c s).
Proof.
  intros Hc Hm. unfold cache_remove, sender_hashes. rewrite Hm. simpl.
  rewrite remove_first_filter by apply Hc. rewrite !list_filter_filter.
  apply list_filter_iff. intros h. destruct (decide (h = hash)) as [->|Hne].
  - rewrite lookup_delete_eq. simpl. naive_solver.
  - rewrite lookup_delete_ne by done. naive_solver.
Qed.

Lemma cache_remove_consistent c hash :
  cache_consistent c -> cache_consistent (cache_remove c hash).1.
Proof.
  intros Hc. destruct (messages c !! hash) as [cached|] eqn:Hm;
    [|unfold cache_remove; by rewrite Hm].
  pose proof (remove_sender_hashes c hash cached) as Hsh.
  constructor.
  - unfold cache_remove. rewrite Hm. simpl. rewrite remove_first_filter by apply Hc.
    apply NoDup_filter, Hc.
  - intros h. unfold cache_remove. rewrite Hm. simpl. rewrite remove_first_filter by apply Hc.
    rewrite list_elem_of_filter, (order_dom c Hc h). destruct (decide (h = hash)) as [->|Hne].
    + rewrite lookup_delete_eq. split; [naive_solver|by intros [? ?]].
    + rewrite lookup_delete_ne by done. tauto.
  - intros s. rewrite Hsh by done. unfold cache_remove. rewrite Hm. simpl.
    unfold remove_from_sender. set (s0 := sender (message cached)).
    pose proof (senders_ok c Hc s0) as Hs0. pose proof (senders_ok c Hc s) as Hs.
    assert (Hin : hash ∈ sender_hashes c s0).
    { apply list_elem_of_filter. rewrite Hm. split; [done|]. apply Hc. eauto. }
    rewrite bool_decide_eq_false_2 in Hs0 by (intros E; rewrite E in Hin; by apply not_elem_of_nil in Hin).
    rewrite Hs0. cbv zeta. destruct (decide (s = s0)) as [->|Hne].
    + destruct (bool_decide (filter (fun h => h <> hash) (sender_hashes c s0) = []));
        [by rewrite lookup_delete_eq|by rewrite lookup_insert_eq].
    + replace (filter (fun h => h <> hash) (sender_hashes c s)) with (sender_hashes c s).
      * destruct (bool_decide (filter (fun h => h <> hash) (sender_hashes c s0) = []));
          [by rewrite lookup_delete_ne|by rewrite lookup_insert_ne].
      * symmetry. apply filter_all, Forall_forall. intros h Hh ->.
        apply list_elem_of_filter in Hh as [Hh _]. rewrite Hm in Hh. simpl in Hh. naive_solver.
  - unfold cache_remove. rewrite Hm. simpl. unfold saturating_sub.
    rewrite (bytes_ok c Hc), (map_sum_delete _ _ _ _ Hm). lia.
  - intros h m. unfold cache_remove. rewrite Hm. simpl.
    intros [_ Hl]%lookup_delete_Some. by apply (sizes_ok c Hc h).
Qed.

Lemma cache_remove_messages c hash : messages (cache_remove c hash).1 = delete hash (messages c).
Proof.
  unfold cache_remove. destruct (messages c !! hash) eqn:Hm; [done|]. simpl.
  by rewrite delete_id.
Qed.

Lemma cache_remove_order c hash :
  cache_consistent c -> order (cache_remove c hash).1 = filter (fun h => h <> hash) (order c).
Proof.
  intros Hc. unfold cache_remove. destruct (messages c !! hash) eqn:Hm; simpl.
  - apply remove_first_filter, Hc.
  - symmetry. apply filter_all, Forall_forall. intros h Hh ->.
    apply (order_dom c Hc) in Hh as [? ?]. congruence.
Qed.

Lemma length_filter_le {A} (P : A -> Prop) `{forall x, Decision (P x)} (l : list A) :
  (length (filter P l) <= length l)%nat.
Proof. induction l as [|x l IH]; [done|]. rewrite filter_cons. case_decide; simpl; lia. Qed.

(** Removal never grows a measure the bounds are about. *)
Definition shrinks (c c' : DbftMessageCache) : Prop :=
  retained_bytes c' <= retained_bytes c /\ messages c' ⊆ messages c /\
  forall s, lenN (sender_hashes c' s) <= lenN (sender_hashes c s).

Lemma shrinks_refl c : shrinks c c.
Proof. split_and!; [lia|done|lia]. Qed.

Lemma shrinks_trans c1 c2 c3 : shrinks c1 c2 -> shrinks c2 c3 -> shrinks c1 c3.
Proof.
  intros (? & ? & H1) (? & ? & H2). split_and!; [lia|by etrans|].
  intros s. specialize (H1 s). specialize (H2 s). lia.
Qed.

Lemma cache_remove_shrinks c hash : cache_consistent c -> shrinks c (cache_remove c hash).1.
Proof.
  intros Hc. destruct (messages c !! hash) as [cached|] eqn:Hm.
  - split_and!.
    + unfold cache_remove. rewrite Hm. simpl. unfold saturating_sub. lia.
    + rewrite cache_remove_messages. apply delete_subseteq.
    + intros s. rewrite (remove_sender_hashes c hash cached s Hc Hm). unfold lenN.
      pose proof (length_filter_le (fun h => h <> hash) (sender_hashes c s)). lia.
  - unfold cache_remove. rewrite Hm. apply shrinks_refl.
Qed.

Lemma shrinks_bounded c c' : shrinks c c' -> cache_bounded c -> cache_bounded c'.
Proof.
  intros (Hb & Hm & Hs) [B1 B2 B3]. constructor; [lia| |].
  - apply map_subseteq_size in Hm. lia.
  - intros s. specialize (Hs s). specialize (B3 s). lia.
Qed.

(** [retain] keeps exactly the messages its predicate keeps. *)
Lemma foldl_remove_consistent c hs :
  cache_consistent c ->
  let c' := foldl (fun c hash => (cache_remove c hash).1) c hs in
  cache_consistent c' /\ shrinks c c' /\
  forall h, messages c' !! h = if bool_decide (h ∈ hs) then None else messages c !! h.
Proof.
  revert c. induction hs as [|hash hs IH]; intros c Hc; cbn [foldl].
  - split_and!; [done|apply shrinks_refl|]. intros h.
    by rewrite bool_decide_eq_false_2 by apply not_elem_of_nil.
  - destruct (IH _ (cache_remove_consistent c hash Hc)) as (H1 & H2 & H3).
    split_and!; [done|by eapply shrinks_trans; [apply cache_remove_shrinks|]|].
    intros h. rewrite H3, cache_remove_messages. destruct (decide (h = hash)) as [->|Hne].
    + rewrite lookup_delete_eq, (bool_decide_eq_true_2 (hash ∈ hash :: hs)) by (by left).
      by case_bool_decide.
    + rewrite lookup_delete_ne by done.
      by rewrite (bool_decide_ext (h ∈ hs) (h ∈ hash :: hs)) by set_solver.
Qed.

Lemma cache_retain_spec c keep :
  cache_consistent c ->
  cache_consistent (cache_retain c keep) /\ shrinks c (cache_retain c keep) /\
  forall h, messages (cache_retain c keep) !! h =
    match messages c !! h with
    | Some m => if keep (message m) then Some m else None
    | None => None
    end.
Proof.
  intros Hc. unfold cache_retain. set (stale := omap _ _).
  destruct (foldl_remove_consistent c stale Hc) as (H1 & H2 & H3). split_and!; [done..|].
  intros h. rewrite H3.
  assert (Hst : h ∈ stale <-> exists m, messages c !! h = Some m /\ keep (message m) = false).
  { unfold stale. rewrite list_elem_of_omap. split.
    - intros ([h' m] & Hin & Hk). apply elem_of_map_to_list in Hin.
      destruct (keep (message m)) eqn:E; [done|]. injection Hk as ->. eauto.
    - intros (m & Hm & Hk). exists (h, m). split; [by apply elem_of_map_to_list|]. by rewrite Hk. }
  case_bool_decide as Hin.
  - apply Hst in Hin as (m & -> & ->). done.
  - destruct (messages c !! h) as [m|] eqn:E; [|done]. destruct (keep (message m)) eqn:K; [done|].
    exfalso. apply Hin, Hst. eauto.
Qed.

Lemma empty_order_empty c :
  cache_consistent c -> order c = [] -> messages c = ∅ /\ retained_bytes c = 0.
Proof.
  intros Hc Ho. assert (E : messages c = ∅).
  { apply map_eq. intros h. rewrite lookup_empty. destruct (messages c !! h) eqn:Hm; [|done].
    assert (Hin : h ∈ order c) by (apply Hc; eauto).
    rewrite Ho in Hin. by apply not_elem_of_nil in Hin. }
  split; [done|]. by rewrite (bytes_ok c Hc), E, map_sum_empty.
Qed.

(** The eviction loop terminates: each turn drops the oldest cached message. *)
Lemma evict_spec fuel c size :
  cache_consistent c -> (length (order c) <= fuel)%nat -> size <= DBFT_MESSAGE_CACHE_BYTE_CAPACITY ->
  exists c', evict fuel c size = Some c' /\ cache_consistent c' /\ shrinks c c' /\
    over_capacity c' size = false.
Proof.
  revert c. induction fuel as [|fuel IH]; intros c Hc Hf Hs.
  - assert (Ho : order c = []) by (apply nil_length_inv; lia).
    exists c. simpl. rewrite Ho. destruct (empty_order_empty c Hc Ho) as [Em Eb].
    assert (Hoc : over_capacity c size = false).
    { unfold over_capacity. rewrite Em, Eb, map_size_empty. unfold saturating_add.
      apply orb_false_intro; [done|]. apply N.ltb_ge. lia. }
    rewrite Hoc. split_and!; [done..|apply shrinks_refl|done].
  - simpl. destruct (over_capacity c size) eqn:Hoc.
    2:{ exists c. split_and!; [done..|apply shrinks_refl|done]. }
    destruct (order c) as [|h t] eqn:Ho.
    + destruct (empty_order_empty c Hc Ho) as [Em Eb]. exfalso.
      unfold over_capacity in Hoc. rewrite Em, Eb, map_size_empty in Hoc.
      apply orb_true_iff in Hoc as [Hoc|Hoc]; [done|]. apply N.ltb_lt in Hoc.
      unfold saturating_add in Hoc. lia.
    + destruct (IH (cache_remove c h).1) as (c' & E & H1 & H2 & H3); [| |done|].
      * by apply cache_remove_consistent.
      * rewrite cache_remove_order by done. rewrite Ho, filter_cons_False by tauto.
        pose proof (length_filter_le (fun x => x <> h) t). simpl in Hf. lia.
      * exists c'. split_and!; try done. eapply shrinks_trans; [|done].
        by apply cache_remove_shrinks.
Qed.

Definition push (c : DbftMessageCache) (hash : B256) (m : DbftMessage) : DbftMessageCache :=
  mkDbftMessageCache (<[hash := mkCachedDbftMessage m (message_length m)]> (messages c))
    (<[sender m := default [] (senders c !! sender m) ++ [hash]]> (senders c))
    (order c ++ [hash]) (saturating_add USIZE_MAX (retained_bytes c) (message_length m)).

Lemma push_sender_hashes c hash m s :
  cache_consistent c -> messages c !! hash = None ->
  sender_hashes (push c hash m) s =
    sender_hashes c s ++ (if bool_decide (sender m = s) then [hash] else []).
Proof.
  intros Hc Hm. unfold sender_hashes. simpl. rewrite filter_app. f_equal.
  - apply filter_ext_in. intros h Hh.
    rewrite lookup_insert_ne; [done|]. intros <-. apply (order_dom c Hc) in Hh as [? ?]. congruence.
  - rewrite filter_cons, lookup_insert_eq. simpl. case_bool_decide as E.
    + rewrite decide_True by (by rewrite E). done.
    + rewrite decide_False by congruence. done.
Qed.

Lemma push_consistent c hash m :
  cache_consistent c -> messages c !! hash = None ->
  retained_bytes c + message_length m <= USIZE_MAX -> cache_consistent (push c hash m).
Proof.
  intros Hc Hm Hmax.
  assert (Hno : hash ∉ order c) by (intros [? ?]%(order_dom c Hc); congruence).
  constructor.
  - simpl. apply NoDup_app. split_and!; [apply Hc| |apply NoDup_singleton].
    intros h Hh ->%list_elem_of_singleton. done.
  - intros h. simpl. rewrite elem_of_app, list_elem_of_singleton, (order_dom c Hc h).
    destruct (decide (h = hash)) as [->|Hne].
    + rewrite lookup_insert_eq. split; [eauto|by right].
    + rewrite lookup_insert_ne by done. naive_solver.
  - intros s. rewrite push_sender_hashes by done. simpl. pose proof (senders_ok c Hc s) as Hs.
    destruct (decide (sender m = s)) as [<-|E].
    + rewrite lookup_insert_eq, Hs, (bool_decide_eq_true_2 (sender m = _)) by done.
      rewrite (bool_decide_eq_false_2 (_ ++ _ = [])) by (by intros [_ ?]%app_eq_nil).
      case_bool_decide as E; [by rewrite E|done].
    + rewrite lookup_insert_ne, (bool_decide_eq_false_2 (sender m = _)), app_nil_r by done. exact Hs.
  - simpl. rewrite map_sum_insert by done. unfold saturating_add. rewrite N.min_l by done.
    simpl. rewrite (bytes_ok c Hc). lia.
  - intros h cm. simpl. intros [[<- <-]|[_ Hl]]%lookup_insert_Some; [done|by apply (sizes_ok c Hc h)].
Qed.

(** The sender's oldest message makes room for a new one. *)
Lemma sender_eviction c s :
  cache_inv c ->
  let c' := match sender_evicted c s with Some h => (cache_remove c h).1 | None => c end in
  cache_consistent c' /\ shrinks c c' /\ lenN (sender_hashes c' s) < DBFT_SENDER_CACHE_CAPACITY.
Proof.
  intros [Hc Hb]. unfold sender_evicted. rewrite (senders_ok c Hc s).
  case_bool_decide as Hnil; simpl.
  { split_and!; [done|apply shrinks_refl|]. rewrite Hnil. by vm_compute. }
  destruct (N.leb_spec DBFT_SENDER_CACHE_CAPACITY (lenN (sender_hashes c s))) as [Hge|Hlt].
  2:{ split_and!; [done|apply shrinks_refl|done]. }
  destruct (sender_hashes c s) as [|h t] eqn:E; [done|]. simpl.
  assert (Hh : h ∈ sender_hashes c s) by (rewrite E; by left).
  apply list_elem_of_filter in Hh as [Hh _].
  destruct (messages c !! h) as [cached|] eqn:Hm; [|done].
  split_and!; [by apply cache_remove_consistent|by apply cache_remove_shrinks|].
  rewrite (remove_sender_hashes c h cached s Hc Hm), E, filter_cons_False by tauto.
  pose proof (sender_bound c Hb s) as Hsb. rewrite E in Hsb.
  pose proof (length_filter_le (fun x => x <> h) t). unfold lenN in *. simpl in Hsb. lia.
Qed.

(** Pushing into a cache with room keeps the bounds. *)
Lemma push_inv c hash m :
  cache_consistent c -> cache_bounded c -> messages c !! hash = None ->
  over_capacity c (message_length m) = false ->
  lenN (sender_hashes c (sender m)) < DBFT_SENDER_CACHE_CAPACITY -> cache_inv (push c hash m).
Proof.
  intros Hc [_ _ Hsb] Hnone Hcap Hsend.
  unfold over_capacity in Hcap. apply orb_false_iff in Hcap as [Hcnt Hby].
  apply N.leb_gt in Hcnt. apply N.ltb_ge in Hby. unfold saturating_add in Hby.
  assert (Hlt : DBFT_MESSAGE_CACHE_BYTE_CAPACITY < USIZE_MAX) by reflexivity.
  split; [apply push_consistent; [done..|lia]|]. constructor.
  - simpl. unfold saturating_add. lia.
  - simpl. rewrite map_size_insert_None by done. lia.
  - intros s. rewrite push_sender_hashes by done. rewrite lenN_app.
    destruct (decide (sender m = s)) as [<-|E].
    + rewrite bool_decide_eq_true_2 by done. unfold lenN in *. simpl. lia.
    + rewrite bool_decide_eq_false_2 by done. rewrite lenN_nil, N.add_0_r. apply Hsb.
Qed.

Lemma cache_insert_new c hash m :
  cache_inv c -> messages c !! hash = None ->
  message_length m <= DBFT_MESSAGE_CACHE_BYTE_CAPACITY ->
  exists c', cache_insert c hash m = Some (push c' hash m, Ok Inserted) /\
    cache_inv (push c' hash m) /\ shrinks c c'.
Proof.
  intros Hinv Hnone Hsize. unfold cache_insert.
  rewrite bool_decide_eq_false_2 by (by apply eq_None_not_Some).
  rewrite (proj2 (N.ltb_ge _ _) Hsize).
  destruct (sender_eviction c (sender m) Hinv) as (Hc1 & Hs1 & Hsend).
  destruct (evict_spec _ _ (message_length m) Hc1 (le_n _) Hsize) as (c2 & -> & Hc2 & Hs2 & Hcap).
  pose proof (shrinks_trans _ _ _ Hs1 Hs2) as Hs. exists c2. split; [done|]. split; [|done].
  apply push_inv; [done| | |done|].
  - eapply shrinks_bounded; [done|apply Hinv].
  - destruct Hs as (_ & Hsub & _). by eapply lookup_weaken_None.
  - destruct Hs2 as (_ & _ & Hs2). specialize (Hs2 (sender m)). lia.
Qed.

Lemma cache_insert_spec c hash m :
  cache_inv c ->
  exists c' r, cache_insert c hash m = Some (c', r) /\ cache_inv c' /\
    match r with
    | Ok Duplicate => c' = c /\ is_Some (messages c !! hash)
    | Ok Inserted =>
        messages c !! hash = None /\ cache_get c' hash = Some m /\
        forall h, h <> hash -> messages c' !! h = None \/ messages c' !! h = messages c !! h
    | Ok (OutsideActiveRound _) => False
    | Err size => c' = c /\ size = message_length m /\ DBFT_MESSAGE_CACHE_BYTE_CAPACITY < size
    end.
Proof.
  intros Hinv. destruct (messages c !! hash) as [cm|] eqn:Hm.
  { exists c, (Ok Duplicate). unfold cache_insert. rewrite Hm. by eauto. }
  destruct (N.ltb_spec DBFT_MESSAGE_CACHE_BYTE_CAPACITY (message_length m)) as [Hbig|Hsize].
  { exists c, (Err (message_length m)). split; [|done]. unfold cache_insert.
    rewrite bool_decide_eq_false_2 by (by apply eq_None_not_Some).
    by rewrite (proj2 (N.ltb_lt _ _) Hbig). }
  destruct (cache_insert_new c hash m Hinv Hm Hsize) as (c' & E & Hinv' & _ & Hsub & _).
  eexists _, _. split; [exact E|]. split; [done|]. split; [done|].
  split; [unfold cache_get; simpl; by rewrite lookup_insert_eq|].
  intros h Hh. simpl. rewrite lookup_insert_ne by done.
  destruct (messages c' !! h) eqn:E'; [right|by left]. symmetry. by eapply lookup_weaken.
Qed.

(** Every cache the protocol can build with the cache's operations. *)
Inductive cache_reachable : DbftMessageCache -> Prop :=
| reach_default : cache_reachable cache_default
| reach_clear c : cache_reachable c -> cache_reachable (cache_clear c)
| reach_remove c hash : cache_reachable c -> cache_reachable (cache_remove c hash).1
| reach_retain c keep : cache_reachable c -> cache_reachable (cache_retain c keep)
| reach_insert c hash m c' r :
    cache_reachable c -> cache_insert c hash m = Some (c', r) -> cache_reachable c'.

Lemma cache_reachable_inv c : cache_reachable c -> cache_inv c.
Proof.
  induction 1 as [|c _ _|c hash _ [Hc Hb]|c keep _ [Hc Hb]|c hash m c' r _ Hi E].
  - apply cache_default_inv.
  - apply cache_default_inv.
  - split; [by apply cache_remove_consistent|].
    eapply shrinks_bounded; [by apply cache_remove_shrinks|done].
  - destruct (cache_retain_spec c keep Hc) as (H1 & H2 & _). split; [done|].
    by eapply shrinks_bounded.
  - destruct (cache_insert_spec c hash m Hi) as (c1 & r1 & E1 & Hi1 & _). congruence.
Qed.

(** The message cache stays within its memory budget and its indexes never
    drift: in every reachable cache each cached hash is listed once by age and
    once under its sender, the byte counter is the sum of the cached sizes, at most
    64 MiB, 256 messages and 20 messages per sender are retained; insertion always
    terminates, and a message it reports inserted is the one found under its hash. *)
Theorem cache_budget c hash m :
  cache_reachable c ->
  (NoDup (order c) /\ (forall h, h ∈ order c <-> is_Some (messages c !! h)) /\
   retained_bytes c = map_sum encoded_size (messages c) /\
   retained_bytes c <= 64 * 1024 * 1024 /\ N.of_nat (size (messages c)) <= 256 /\
   forall s hs, senders c !! s = Some hs -> hs = sender_hashes c s /\ 1 <= lenN hs <= 20) /\
  exists c' r, cache_insert c hash m = Some (c', r) /\
    (r = Ok Inserted -> cache_get c' hash = Some m) /\
    (r = Ok Duplicate -> c' = c /\ cache_contains c hash = true).
Proof.
  intros Hi%cache_reachable_inv. split.
  - pose proof Hi as [Hc [Hb Hn Hs]].
    split_and!; [apply Hc|intros h; apply Hc|apply Hc|exact Hb|exact Hn|].
    intros s hs. rewrite (senders_ok c Hc s). case_bool_decide as Hnil; [done|]. intros [= <-].
    split; [done|]. split; [|apply Hs]. unfold lenN. destruct (sender_hashes c s); [done|]. simpl. lia.
  - destruct (cache_insert_spec c hash m Hi) as (c' & r & E & _ & Hr). exists c', r.
    split; [done|]. split; intros ->; [tauto|]. destruct Hr as [-> Hs].
    split; [done|]. unfold cache_contains. by apply bool_decide_eq_true_2.
Qed.
End proofs.

Module CacheWitness.
#[local] Existing Instance alloy_rlp.

Definition example_message : DbftMessage := mkDbftMessage 0 1 (repeat x01 20) [] [].
Definition example_cache : DbftMessageCache :=
  match cache_insert cache_default [x01] example_message with
  | Some (c, _) => c
  | None => cache_default
  end.

Lemma example_cache_reachable : cache_reachable example_cache.
Proof.
  apply (reach_insert cache_default [x01] example_message _ (Ok Inserted)); [constructor|].
  vm_compute. reflexivity.
Qed.

Lemma cache_budget_witness :
  retained_bytes example_cache <= 64 * 1024 * 1024 /\
  exists c' r, cache_insert example_cache [x01] example_message = Some (c', r) /\
    (r = Ok Duplicate -> c' = example_cache /\ cache_contains example_cache [x01] = true).
Proof.
  destruct (cache_budget example_cache [x01] example_message example_cache_reachable)
    as ((_ & _ & _ & Hb & _) & c' & r & E & _ & Hd).
  split; [exact Hb|]. exists c', r. split; [exact E|exact Hd].
Defined.
End CacheWitness.
