(* ===== verification/Protocol.v ===== *)
(** The dbft/0 service (crates/neox/network/src/dbft.rs, from [DbftEvent] on):
    admission of consensus messages against the current height and validator set,
    the shared cache, bounded event and command queues with their count and byte
    permits, and the life of a connection.

    Locks make every method body here one atomic section, except
    [handle_inbound_message], which reads the admission state several times: the
    values of those earlier reads are arguments of its model. *)

From S2P Require Import Prelude Extern Instances Tpke Wire Payload Cache.

Definition DBFT_MAX_MESSAGE_SIZE : N := 4 * 1024 * 1024.
Definition DBFT_EVENT_QUEUE_CAPACITY : N := 64.
Definition DBFT_EVENT_QUEUE_BYTE_CAPACITY : N := 32 * 1024 * 1024.
Definition DBFT_PEER_EVENT_QUEUE_CAPACITY : N := 32.
Definition DBFT_PEER_EVENT_BYTE_CAPACITY : N := 24 * 1024 * 1024.
Definition DBFT_COMMAND_QUEUE_BYTE_CAPACITY : N := 32 * 1024 * 1024.
Definition DBFT_COMMAND_QUEUE_CAPACITY : N := 32.
Definition DBFT_CONTROL_EVENT_QUEUE_CAPACITY : N := 384.
Definition DBFT_CONTROL_EVENTS_PER_CONNECTION : N := 3.

Notation PeerId := bytes (only parsing).
(** Connections are named: their command queues are shared with the peer table. *)
Notation ConnId := N (only parsing).

Inductive DbftEvent : Type :=
| Established (peer_id : PeerId) (incoming : bool)
| Disconnected (peer_id : PeerId)
| MessageEvent (peer_id : PeerId) (message : DbftMessage)
| Violation (peer_id : PeerId) (reason : DbftProtocolViolation).

Inductive DbftCommand : Type :=
| CmdAnnounce (hash : B256)
| CmdGet (hash : B256)
| CmdMessage (message : DbftMessage).

(** An event in the channel with the permits it holds: [Some (peer, bytes)] for a
    message event, which holds one data slot, one slot of its peer, and [bytes]
    byte permits of both budgets. *)
Record QueuedDbftEvent : Type := mkQueuedDbftEvent {
  event : DbftEvent;
  permits : option (PeerId * N);
}.

(** Remaining permits of one peer, and how many events keep the budget alive. *)
Record DbftPeerEventBudget : Type := mkDbftPeerEventBudget {
  slots : N;
  budget_bytes : N;
  refs : N;
}.

Record DbftPeerCommands : Type := mkDbftPeerCommands {
  queue : list (DbftCommand * N);
  command_bytes : N;
}.

Record DbftAdmission : Type := mkDbftAdmission {
  height : N;
  validators : option (list Address);
}.

Record DbftProtocol : Type := mkDbftProtocol {
  admission : DbftAdmission;
  events : list QueuedDbftEvent;
  events_reserved : N;
  data_slots : N;
  event_bytes : N;
  peer_event_budgets : gmap PeerId DbftPeerEventBudget;
  command_queues : gmap ConnId DbftPeerCommands;
  peers : gmap PeerId ConnId;
  cache : DbftMessageCache;
}.

Definition set_admission (p : DbftProtocol) (a : DbftAdmission) (c : DbftMessageCache) : DbftProtocol :=
  mkDbftProtocol a (events p) (events_reserved p) (data_slots p) (event_bytes p)
    (peer_event_budgets p) (command_queues p) (peers p) c.
Definition set_cache (p : DbftProtocol) (c : DbftMessageCache) : DbftProtocol :=
  set_admission p (admission p) c.
Definition set_queues (p : DbftProtocol) (q : gmap ConnId DbftPeerCommands) : DbftProtocol :=
  mkDbftProtocol (admission p) (events p) (events_reserved p) (data_slots p) (event_bytes p)
    (peer_event_budgets p) q (peers p) (cache p).

Definition protocol_new (h : N) : DbftProtocol :=
  mkDbftProtocol (mkDbftAdmission h None) [] 0 DBFT_EVENT_QUEUE_CAPACITY
    DBFT_EVENT_QUEUE_BYTE_CAPACITY ∅ ∅ ∅ cache_default.

Definition is_exact_late_message (current message_end : N) : bool := message_end =? current.

Definition is_next_height_message (current message_end : N) : bool :=
  bool_decide (checked_add U64_MAX current 1 = Some message_end).

(** The free capacity of the event channel: queued events and reserved permits
    both occupy it. *)
Definition channel_room (p : DbftProtocol) : N :=
  DBFT_EVENT_QUEUE_CAPACITY + DBFT_CONTROL_EVENT_QUEUE_CAPACITY
    - (lenN (events p) + events_reserved p).

Section protocol.
Context {R : AlloyRlp} {C : Crypto} {B : Blst}.

(** ** Admission checks *)

Definition validate_message (m : DbftMessage) : result DbftProtocolViolation B256 :=
  if DBFT_MAX_MESSAGE_SIZE <? message_length m then Err (MessageTooLarge (message_length m))
  else verify_witness m.

Definition validate_height (current : N) (m : DbftMessage) : result DbftProtocolViolation unit :=
  if (current <? valid_block_start m) || (valid_block_end m <? current)
  then Err (InvalidHeight current (valid_block_start m) (valid_block_end m))
  else Ok tt.

Definition validate_payload (d : DbftConsensusData) : result DbftProtocolViolation unit :=
  match decoded_payload d with Ok _ => Ok tt | Err _ => Err InvalidRlpPayload end.

Definition validate_sender (a : DbftAdmission) (m : DbftMessage) : result DbftProtocolViolation N :=
  let? _ := validate_height (height a) m in
  let? vs := ok_or (validators a) ConsensusInactive in
  if negb (bool_decide (sender m ∈ vs)) then Err (DisallowedSender (sender m))
  else Ok (height a).

Definition validate_sender_against (vs : list Address) (m : DbftMessage) (d : DbftConsensusData)
    : result DbftProtocolViolation unit :=
  let? expected :=
    ok_or (vs !! N.to_nat (validator_index d))
      (ValidatorIndexOutOfBounds (validator_index d) (lenN vs)) in
  if negb (bool_decide (expected = sender m))
  then Err (UnauthorizedValidator (validator_index d) expected (sender m))
  else Ok tt.

Definition validate_validator_index (a : DbftAdmission) (m : DbftMessage) (d : DbftConsensusData)
    : result DbftProtocolViolation unit :=
  let? vs := ok_or (validators a) ConsensusInactive in validate_sender_against vs m d.

(** ** The cache behind admission *)

(** [cache.insert]: the eviction loop has enough fuel ([Cache.cache_insert_spec]). *)
Definition insert_cached (c : DbftMessageCache) (hash : B256) (m : DbftMessage)
    : DbftMessageCache * result N CacheMessageOutcome :=
  default (c, Err (message_length m)) (cache_insert c hash m).

Definition cache_message (p : DbftProtocol) (hash : B256) (m : DbftMessage) (d : DbftConsensusData)
    : DbftProtocol * result DbftProtocolViolation CacheMessageOutcome :=
  let a := admission p in
  match
    (let? _ := validate_height (height a) m in
     let? vs := ok_or (validators a) ConsensusInactive in
     validate_sender_against vs m d)
  with
  | Err e => (p, Err e)
  | Ok _ =>
      if negb (is_next_height_message (height a) (valid_block_end m))
      then (p, Ok (OutsideActiveRound (height a)))
      else
        let '(c, r) := insert_cached (cache p) hash m in
        (set_cache p c, map_err MessageTooLarge r)
  end.

Definition keep_message (h : N) (vs : option (list Address)) (m : DbftMessage) : bool :=
  is_next_height_message h (valid_block_end m) &&
  match vs with
  | None => true
  | Some vs =>
      match consensus_data m with
      | Ok d => bool_decide (vs !! N.to_nat (validator_index d) = Some (sender m))
      | Err _ => false
      end
  end.

Definition purge_cached_messages (c : DbftMessageCache) (h : N) (vs : option (list Address))
    : DbftMessageCache := cache_retain c (keep_message h vs).

Definition update_height (p : DbftProtocol) (h : N) : DbftProtocol :=
  set_admission p (mkDbftAdmission h (validators (admission p)))
    (purge_cached_messages (cache p) h (validators (admission p))).

Definition activate (p : DbftProtocol) (h : N) (vs : list Address)
    : DbftProtocol * result DbftProtocolViolation unit :=
  match vs with
  | [] => (p, Err InvalidValidatorSet)
  | _ =>
      let vs := sort_bytes vs in
      match adjacent_repeat vs with
      | Some _ => (p, Err InvalidValidatorSet)
      | None =>
          (set_admission p (mkDbftAdmission h (Some vs))
             (purge_cached_messages (cache p) h (Some vs)), Ok tt)
      end
  end.

Definition deactivate (p : DbftProtocol) : DbftProtocol :=
  set_admission p (mkDbftAdmission (height (admission p)) None) (cache_clear (cache p)).

Definition is_active (p : DbftProtocol) : bool := bool_decide (is_Some (validators (admission p))).

Definition protocol_get (p : DbftProtocol) (hash : B256) : option DbftMessage :=
  vs ← validators (admission p);
  m ← cache_get (cache p) hash;
  let h := height (admission p) in
  if negb (is_next_height_message h (valid_block_end m)) || negb (is_ok (validate_height h m))
  then None
  else
    d ← result_ok (consensus_data m);
    _ ← result_ok (validate_sender_against vs m d);
    Some m.

(** ** Commands to peers *)

Definition encoded_len (c : DbftCommand) : N :=
  1 + match c with
      | CmdAnnounce hash | CmdGet hash => lenN (enc rlp_b256 hash)
      | CmdMessage m => message_length m
      end.

Definition encoded (c : DbftCommand) : bytes :=
  match c with
  | CmdAnnounce hash => encode_frame Announce rlp_b256 hash
  | CmdGet hash => encode_frame Get rlp_b256 hash
  | CmdMessage m => encode_frame Message dbft_message_codec m
  end.

(** Byte permits first, then a place in the bounded channel; a failed send drops
    the permits again. *)
Definition try_send (q : DbftPeerCommands) (c : DbftCommand)
    : result DbftProtocolViolation DbftPeerCommands :=
  let n := encoded_len c in
  if U32_MAX <? n then Err OutboundQueueSaturated
  else if command_bytes q <? n then Err OutboundQueueSaturated
  else if DBFT_COMMAND_QUEUE_CAPACITY <=? lenN (queue q) then Err OutboundQueueSaturated
  else Ok (mkDbftPeerCommands (queue q ++ [(c, n)]) (command_bytes q - n)).

Definition send_conn (p : DbftProtocol) (conn : ConnId) (c : DbftCommand)
    : DbftProtocol * result DbftProtocolViolation unit :=
  match command_queues p !! conn with
  | None => (p, Err OutboundQueueSaturated)
  | Some q =>
      match try_send q c with
      | Ok q => (set_queues p (<[conn := q]> (command_queues p)), Ok tt)
      | Err e => (p, Err e)
      end
  end.

Definition protocol_send (p : DbftProtocol) (peer : PeerId) (c : DbftCommand) : DbftProtocol * bool :=
  match peers p !! peer with
  | None => (p, false)
  | Some conn => let '(p, r) := send_conn p conn c in (p, is_ok r)
  end.

Definition broadcast (p : DbftProtocol) (c : DbftCommand) : DbftProtocol * N :=
  foldl (fun '(p, sent) '(_, conn) =>
      let '(p, r) := send_conn p conn c in (p, if is_ok r then sent + 1 else sent))
    (p, 0) (map_to_list (peers p)).

Definition peer_count (p : DbftProtocol) : N := N.of_nat (base.size (peers p)).

(** ** Message events *)

(** [Weak::upgrade] succeeds while some event keeps the budget alive; otherwise dead
    budgets are swept and a fresh one installed. The caller holds a reference. *)
Definition peer_event_budget (p : DbftProtocol) (peer : PeerId)
    : gmap PeerId DbftPeerEventBudget * DbftPeerEventBudget :=
  let alive := filter (fun '(_, b) => 0 < refs b) (peer_event_budgets p) in
  match peer_event_budgets p !! peer with
  | Some b =>
      if 0 <? refs b
      then (peer_event_budgets p, mkDbftPeerEventBudget (slots b) (budget_bytes b) (refs b + 1))
      else (alive, mkDbftPeerEventBudget DBFT_PEER_EVENT_QUEUE_CAPACITY DBFT_PEER_EVENT_BYTE_CAPACITY 1)
  | None =>
      (alive, mkDbftPeerEventBudget DBFT_PEER_EVENT_QUEUE_CAPACITY DBFT_PEER_EVENT_BYTE_CAPACITY 1)
  end.

(** The permits [reserve_message_event] takes, in order; the reservation is a
    reserved place in the event channel plus the permits that the event will hold.
    On error everything taken is released: the state is unchanged up to the sweep
    of dead budgets. *)
Definition reserve_message_event (p : DbftProtocol) (peer : PeerId) (wire_size : N)
    : result DbftProtocolViolation DbftProtocol :=
  let '(budgets, b) := peer_event_budget p peer in
  if data_slots p =? 0 then Err InboundQueueSaturated
  else if slots b =? 0 then Err InboundQueueSaturated
  else if U32_MAX <? wire_size then Err InboundQueueSaturated
  else if event_bytes p <? wire_size then Err InboundQueueSaturated
  else if budget_bytes b <? wire_size then Err InboundQueueSaturated
  else if channel_room p =? 0 then Err InboundQueueSaturated
  else
    Ok (mkDbftProtocol (admission p) (events p) (events_reserved p + 1) (data_slots p - 1)
          (event_bytes p - wire_size)
          (<[peer := mkDbftPeerEventBudget (slots b - 1) (budget_bytes b - wire_size) (refs b)]> budgets)
          (command_queues p) (peers p) (cache p)).

(** [ReservedDbftMessageEvent::send]: the reserved place takes the event. *)
Definition send_reserved (p : DbftProtocol) (peer : PeerId) (m : DbftMessage) (wire_size : N)
    : DbftProtocol :=
  mkDbftProtocol (admission p)
    (events p ++ [mkQueuedDbftEvent (MessageEvent peer m) (Some (peer, wire_size))])
    (events_reserved p - 1) (data_slots p) (event_bytes p) (peer_event_budgets p)
    (command_queues p) (peers p) (cache p).

(** Returning the permits of [peer] for [bytes]: what dropping a reservation or a
    dequeued message event does. *)
Definition release (p : DbftProtocol) (peer : PeerId) (bytes : N) : DbftProtocol :=
  mkDbftProtocol (admission p) (events p) (events_reserved p) (data_slots p + 1)
    (event_bytes p + bytes)
    (match peer_event_budgets p !! peer with
     | Some b =>
         <[peer := mkDbftPeerEventBudget (slots b + 1) (budget_bytes b + bytes) (refs b - 1)]>
           (peer_event_budgets p)
     | None => peer_event_budgets p
     end) (command_queues p) (peers p) (cache p).

(** Dropping an unsent reservation also returns its place in the channel. *)
Definition drop_reserved (p : DbftProtocol) (peer : PeerId) (bytes : N) : DbftProtocol :=
  let p := release p peer bytes in
  mkDbftProtocol (admission p) (events p) (events_reserved p - 1) (data_slots p) (event_bytes p)
    (peer_event_budgets p) (command_queues p) (peers p) (cache p).

(** [DbftEventReceiver::try_recv] *)
Definition try_recv (p : DbftProtocol) : option (DbftEvent * DbftProtocol) :=
  match events p with
  | [] => None
  | q :: rest =>
      let p := mkDbftProtocol (admission p) rest (events_reserved p) (data_slots p) (event_bytes p)
                 (peer_event_budgets p) (command_queues p) (peers p) (cache p) in
      Some (event q, match permits q with Some (peer, bytes) => release p peer bytes | None => p end)
  end.

(** ** Publishing and receiving messages *)

Definition publish (p : DbftProtocol) (m : DbftMessage)
    : DbftProtocol * result DbftProtocolViolation bool :=
  match
    (let? hash := validate_message m in
     let? _ := validate_sender (admission p) m in
     let? d := map_err InvalidRlp (consensus_data m) in
     let? _ := validate_validator_index (admission p) m d in
     let? _ := validate_payload d in
     Ok (hash, d))
  with
  | Err e => (p, Err e)
  | Ok (hash, d) =>
      match cache_message p hash m d with
      | (p, Err e) => (p, Err e)
      | (p, Ok Inserted) => ((broadcast p (CmdAnnounce hash)).1, Ok true)
      | (p, Ok Duplicate) => (p, Ok false)
      | (p, Ok (OutsideActiveRound current)) =>
          (p, Err (InvalidHeight current (valid_block_start m) (valid_block_end m)))
      end
  end.

(** What the checks before the reservation decide: ignore the message, punish the
    peer, or deliver. [head], [a1] and [a2] are the admissions read in turn. *)
Inductive inbound_check : Type :=
| Ignore
| Punish (e : DbftProtocolViolation)
| Deliver (hash : B256) (d : DbftConsensusData) (current : N).

Definition check_inbound (head a1 a2 : DbftAdmission) (m : DbftMessage) : inbound_check :=
  match validate_message m with
  | Err e => Punish e
  | Ok hash =>
      if is_exact_late_message (height head) (valid_block_end m) then Ignore
      else
        match validate_sender a1 m with
        | Err ConsensusInactive => Ignore
        | Err e => Punish e
        | Ok current =>
            if is_exact_late_message current (valid_block_end m) then Ignore
            else
              match
                (let? d := map_err InvalidRlp (consensus_data m) in
                 let? _ := validate_validator_index a2 m d in
                 let? _ := validate_payload d in
                 Ok d)
              with
              | Err _ => Ignore
              | Ok d =>
                  if negb (is_next_height_message current (valid_block_end m)) then Ignore
                  else Deliver hash d current
              end
        end
  end.

Definition handle_inbound_message (head a1 a2 : DbftAdmission) (p : DbftProtocol) (peer : PeerId)
    (m : DbftMessage) : DbftProtocol * result DbftProtocolViolation unit :=
  match check_inbound head a1 a2 m with
  | Ignore => (p, Ok tt)
  | Punish e => (p, Err e)
  | Deliver hash d current =>
      let wire_size := saturating_add USIZE_MAX (message_length m) 1 in
      match reserve_message_event p peer wire_size with
      | Err e => (p, Err e)
      | Ok p =>
          match cache_message p hash m d with
          | (p, Err (MessageTooLarge n)) => (drop_reserved p peer wire_size, Err (MessageTooLarge n))
          | (p, Err _) | (p, Ok (OutsideActiveRound _)) => (drop_reserved p peer wire_size, Ok tt)
          | (p, Ok Inserted) =>
              let p := send_reserved p peer m wire_size in
              ((broadcast p (CmdAnnounce hash)).1, Ok tt)
          | (p, Ok Duplicate) => (send_reserved p peer m wire_size, Ok tt)
          end
      end
  end.

Definition handle_announcement (p : DbftProtocol) (conn : ConnId) (hash : B256)
    : DbftProtocol * result DbftProtocolViolation unit :=
  if cache_contains (cache p) hash then (p, Ok tt) else send_conn p conn (CmdGet hash).

(** ** Connections *)

Record DbftConnection : Type := mkDbftConnection {
  conn_id : ConnId;
  peer_id : PeerId;
  control_events : N;
  admitted : bool;
  closed : bool;
}.

Definition set_reserved (p : DbftProtocol) (evs : list QueuedDbftEvent) (n : N) : DbftProtocol :=
  mkDbftProtocol (admission p) evs n (data_slots p) (event_bytes p) (peer_event_budgets p)
    (command_queues p) (peers p) (cache p).

(** [None] when the channel cannot reserve all lifecycle events. *)
Definition reserve_control_events (p : DbftProtocol) : option DbftProtocol :=
  if DBFT_CONTROL_EVENTS_PER_CONNECTION <=? channel_room p
  then Some (set_reserved p (events p) (events_reserved p + DBFT_CONTROL_EVENTS_PER_CONNECTION))
  else None.

(** [None] is the [expect] on an exhausted reservation. *)
Definition emit_control (p : DbftProtocol) (c : DbftConnection) (e : DbftEvent)
    : option (DbftProtocol * DbftConnection) :=
  if control_events c =? 0 then None
  else
    Some (set_reserved p (events p ++ [mkQueuedDbftEvent e None]) (events_reserved p - 1),
          mkDbftConnection (conn_id c) (peer_id c) (control_events c - 1) (admitted c) (closed c)).

Definition with_peers (p : DbftProtocol) (ps : gmap PeerId ConnId) (q : gmap ConnId DbftPeerCommands)
    : DbftProtocol :=
  mkDbftProtocol (admission p) (events p) (events_reserved p) (data_slots p) (event_bytes p)
    (peer_event_budgets p) q ps (cache p).

Definition into_connection (p : DbftProtocol) (conn : ConnId) (peer : PeerId) (incoming : bool)
    : option (DbftProtocol * DbftConnection) :=
  let q := <[conn := mkDbftPeerCommands [] DBFT_COMMAND_QUEUE_BYTE_CAPACITY]> (command_queues p) in
  match reserve_control_events p with
  | None => Some (with_peers p (peers p) q, mkDbftConnection conn peer 0 false true)
  | Some p =>
      emit_control (with_peers p (<[peer := conn]> (peers p)) q)
        (mkDbftConnection conn peer DBFT_CONTROL_EVENTS_PER_CONNECTION true false)
        (Established peer incoming)
  end.

Definition close_connection (c : DbftConnection) : DbftConnection :=
  mkDbftConnection (conn_id c) (peer_id c) (control_events c) (admitted c) true.

Definition close_with (p : DbftProtocol) (c : DbftConnection) (reason : DbftProtocolViolation)
    : option (DbftProtocol * DbftConnection) :=
  '(p, c) ← emit_control p c (Violation (peer_id c) reason);
  Some (p, close_connection c).

(** The frame dispatch; the admissions are those [handle_inbound_message] reads. *)
Definition handle_message (head a1 a2 : DbftAdmission) (p : DbftProtocol) (c : DbftConnection)
    (frame : bytes) : DbftProtocol * result DbftProtocolViolation unit :=
  match frame with
  | [] => (p, Err EmptyMessage)
  | raw_id :: body =>
      if DBFT_MAX_MESSAGE_SIZE <? lenN body then (p, Err (MessageTooLarge (lenN body)))
      else
        match wire_message_id_try_from raw_id with
        | Err id => (p, Err (InvalidMessageId id))
        | Ok Announce =>
            match decode_exact rlp_b256 body with
            | Err e => (p, Err (InvalidRlp e))
            | Ok hash => handle_announcement p (conn_id c) hash
            end
        | Ok Get =>
            match decode_exact rlp_b256 body with
            | Err e => (p, Err (InvalidRlp e))
            | Ok hash =>
                match protocol_get p hash with
                | Some m => send_conn p (conn_id c) (CmdMessage m)
                | None => (p, Ok tt)
                end
            end
        | Ok Message =>
            match decode_exact dbft_message_codec body with
            | Err e => (p, Err (InvalidRlp e))
            | Ok m => handle_inbound_message head a1 a2 p (peer_id c) m
            end
        end
  end.

(** What one turn of [poll_next] produces. *)
Inductive poll_outcome : Type :=
| Pending
| Frame (f : bytes)
| Finished.

(** One turn: a queued command goes out first; otherwise the next input is read,
    [None] being the end of the stream and [Some None] nothing yet. *)
Definition poll_turn (head a1 a2 : DbftAdmission) (p : DbftProtocol) (c : DbftConnection)
    (input : option (option bytes)) : option (DbftProtocol * DbftConnection * poll_outcome) :=
  if closed c then Some (p, c, Finished)
  else
    match command_queues p !! conn_id c with
    | Some (mkDbftPeerCommands ((cmd, n) :: rest) bytes) =>
        Some (set_queues p (<[conn_id c := mkDbftPeerCommands rest (bytes + n)]> (command_queues p)),
              c, Frame (encoded cmd))
    | _ =>
        match input with
        | Some None => Some (p, c, Pending)
        | None => Some (p, close_connection c, Finished)
        | Some (Some frame) =>
            match handle_message head a1 a2 p c frame with
            | (p, Ok _) => Some (p, c, Pending)
            | (p, Err reason) => '(p, c) ← close_with p c reason; Some (p, c, Finished)
            end
        end
    end.

(** [Drop]: the peer entry is removed, [Disconnected] is emitted, and the permits
    still reserved are returned. *)
Definition drop_connection (p : DbftProtocol) (c : DbftConnection) : option DbftProtocol :=
  let p := with_peers p (peers p) (delete (conn_id c) (command_queues p)) in
  if admitted c then
    let p := with_peers p (delete (peer_id c) (peers p)) (command_queues p) in
    '(p, c) ← emit_control p c (Disconnected (peer_id c));
    Some (set_reserved p (events p) (events_reserved p - control_events c))
  else Some p.
End protocol.

(** ** The running system

    The service with its live connections. Every step is one method call; an
    inbound message may have been checked against any earlier admissions. *)

Record System : Type := mkSystem {
  proto : DbftProtocol;
  conns : gmap ConnId DbftConnection;
}.

Section system.
Context {R : AlloyRlp} {C : Crypto} {B : Blst}.

Inductive sys_step : System -> System -> Prop :=
| step_update_height s h :
    h <= U64_MAX -> sys_step s (mkSystem (update_height (proto s) h) (conns s))
| step_activate s h vs :
    h <= U64_MAX -> sys_step s (mkSystem (activate (proto s) h vs).1 (conns s))
| step_deactivate s : sys_step s (mkSystem (deactivate (proto s)) (conns s))
| step_publish s m : sys_step s (mkSystem (publish (proto s) m).1 (conns s))
| step_send s peer c : sys_step s (mkSystem (protocol_send (proto s) peer c).1 (conns s))
| step_broadcast s c : sys_step s (mkSystem (broadcast (proto s) c).1 (conns s))
| step_recv s e p : try_recv (proto s) = Some (e, p) -> sys_step s (mkSystem p (conns s))
| step_connect s id peer incoming p c :
    conns s !! id = None ->
    into_connection (proto s) id peer incoming = Some (p, c) ->
    sys_step s (mkSystem p (<[id := c]> (conns s)))
| step_poll s id c head a1 a2 input p c' o :
    conns s !! id = Some c ->
    poll_turn head a1 a2 (proto s) c input = Some (p, c', o) ->
    sys_step s (mkSystem p (<[id := c']> (conns s)))
| step_drop s id c p :
    conns s !! id = Some c ->
    drop_connection (proto s) c = Some p ->
    sys_step s (mkSystem p (delete id (conns s))).

Inductive sys_reachable : System -> Prop :=
| reach_new h : h <= U64_MAX -> sys_reachable (mkSystem (protocol_new h) ∅)
| reach_step s s' : sys_reachable s -> sys_step s s' -> sys_reachable s'.

(** ** Frames: what each operation leaves alone *)

(** Everything but the command queues and the peer table. *)
Definition same_core (p p' : DbftProtocol) : Prop :=
  admission p' = admission p /\ cache p' = cache p /\ events p' = events p /\
  events_reserved p' = events_reserved p /\ data_slots p' = data_slots p /\
  event_bytes p' = event_bytes p /\ peer_event_budgets p' = peer_event_budgets p.

Lemma same_core_refl p : same_core p p.
Proof. by repeat split. Qed.

Lemma same_core_trans p1 p2 p3 : same_core p1 p2 -> same_core p2 p3 -> same_core p1 p3.
Proof. unfold same_core. intuition congruence. Qed.

Lemma send_conn_core p conn c : same_core p (send_conn p conn c).1.
Proof.
  unfold send_conn. destruct (command_queues p !! conn); [|apply same_core_refl].
  destruct (try_send _ c); [by repeat split|apply same_core_refl].
Qed.

Lemma broadcast_core p c : same_core p (broadcast p c).1.
Proof.
  unfold broadcast. generalize (map_to_list (peers p)) as l. intros l.
  generalize 0 as k. intros k. revert p k. induction l as [|[x conn] l IH]; intros p k; simpl.
  - apply same_core_refl.
  - pose proof (send_conn_core p conn c) as Hs. destruct (send_conn p conn c) as [p1 r]. simpl in Hs.
    eapply same_core_trans; [exact Hs|apply IH].
Qed.

Lemma protocol_send_core p peer c : same_core p (protocol_send p peer c).1.
Proof.
  unfold protocol_send. destruct (peers p !! peer) as [conn|]; [|apply same_core_refl].
  pose proof (send_conn_core p conn c). by destruct (send_conn p conn c).
Qed.

Lemma handle_announcement_core p conn hash : same_core p (handle_announcement p conn hash).1.
Proof.
  unfold handle_announcement. destruct (cache_contains _ _); [apply same_core_refl|].
  apply send_conn_core.
Qed.

(** ** Admission and the cache *)

(** A cached message under its verified hash, valid at the local height, for the
    next block, from the validator its inner index names. *)
Definition admitted_message (h : N) (vs : list Address) (hash : B256) (m : DbftMessage) : Prop :=
  verify_witness m = Ok hash /\ validate_height h m = Ok tt /\
  is_next_height_message h (valid_block_end m) = true /\
  exists d, consensus_data m = Ok d /\ vs !! N.to_nat (validator_index d) = Some (sender m).

Definition admission_inv (a : DbftAdmission) (c : DbftMessageCache) : Prop :=
  cache_inv c /\
  match validators a with
  | None => messages c = ∅
  | Some vs =>
      NoDup vs /\ StronglySorted bytes_le vs /\ vs <> [] /\
      forall hash cm, messages c !! hash = Some cm -> admitted_message (height a) vs hash (message cm)
  end.

Lemma validate_sender_against_Ok vs m d u :
  validate_sender_against vs m d = Ok u <-> vs !! N.to_nat (validator_index d) = Some (sender m).
Proof.
  unfold validate_sender_against. destruct u, (vs !! _) as [a|]; simpl; [|naive_solver].
  case_bool_decide; simpl; naive_solver.
Qed.

Lemma insert_cached_spec c hash m :
  cache_inv c ->
  exists c' r, insert_cached c hash m = (c', r) /\ cache_inv c' /\
    match r with
    | Ok Duplicate => c' = c /\ is_Some (messages c !! hash)
    | Ok Inserted =>
        messages c !! hash = None /\ cache_get c' hash = Some m /\
        forall h, h <> hash -> messages c' !! h = None \/ messages c' !! h = messages c !! h
    | Ok (OutsideActiveRound _) => False
    | Err size => c' = c /\ DBFT_MESSAGE_CACHE_BYTE_CAPACITY < size
    end.
Proof.
  intros Hi. unfold insert_cached.
  destruct (cache_insert_spec c hash m Hi) as (c' & r & -> & Hi' & Hr). simpl.
  exists c', r. split_and!; [done..|]. destruct r as [[]|]; tauto.
Qed.

(** [cache_message] caches only what the current admission allows. *)
Lemma cache_message_spec p hash m d :
  admission_inv (admission p) (cache p) -> verify_witness m = Ok hash -> consensus_data m = Ok d ->
  let '(p', r) := cache_message p hash m d in
  admission p' = admission p /\ same_core (set_cache p (cache p')) p' /\
  admission_inv (admission p) (cache p') /\
  match r with
  | Ok Inserted | Ok Duplicate =>
      is_Some (messages (cache p') !! hash) /\
      exists vs, validators (admission p) = Some vs /\
        admitted_message (height (admission p)) vs hash m
  | _ => p' = p
  end.
Proof.
  intros [Hc Ha] Hw Hd. unfold cache_message.
  destruct (result_bind _ _) as [u|e] eqn:Hv.
  2:{ split_and!; try done; apply same_core_refl. }
  bind_inv. rename x0 into vs. rewrite (validate_sender_against_Ok vs m d u) in Hv.
  destruct (is_next_height_message _ _) eqn:Hnext; simpl.
  2:{ split_and!; try done; apply same_core_refl. }
  destruct x. match goal with Hvs : validators _ = Some vs |- _ => rewrite Hvs in Ha; rename Hvs into Evs end.
  assert (Hadm : admitted_message (height (admission p)) vs hash m) by (split_and!; eauto).
  destruct (insert_cached_spec (cache p) hash m Hc) as (c' & r & -> & Hc' & Hr).
  split; [done|]. split; [by repeat split|].
  destruct Ha as (Hn & Hs & Hne & Hall).
  destruct r as [[| |]|]; simpl; try done.
  - destruct Hr as (_ & Hget & Hrest). unfold cache_get in Hget.
    destruct (messages c' !! hash) as [cm|] eqn:Ecm; [|done]. injection Hget as Em.
    split; [|split; [eauto|eauto]]. split; [done|]. rewrite Evs. split_and!; try done.
    intros h' cm' Hl. destruct (decide (h' = hash)) as [->|Hne'].
    + rewrite Ecm in Hl. injection Hl as <-. by rewrite Em.
    + destruct (Hrest h' Hne') as [E|E]; rewrite E in Hl; [done|by apply Hall].
  - destruct Hr as [-> Hs']. split; [|split; [done|eauto]]. split; [done|]. rewrite Evs. done.
  - destruct Hr as [-> _]. split; [|by destruct p]. split; [done|]. by rewrite Evs.
Qed.

Lemma is_next_height_inj h h' e :
  is_next_height_message h e = true -> is_next_height_message h' e = true -> h = h'.
Proof.
  unfold is_next_height_message. rewrite !bool_decide_eq_true, !checked_add_Some. lia.
Qed.

(** Purging for a new height and validator set restores the invariant from the
    old one: a surviving message is for the same height as before. *)
Lemma purge_inv a c h (vs : list Address) :
  admission_inv a c -> NoDup vs -> StronglySorted bytes_le vs -> vs <> [] ->
  admission_inv (mkDbftAdmission h (Some vs)) (purge_cached_messages c h (Some vs)).
Proof.
  intros [[Hc Hb] Ha] Hn Hs Hne. unfold purge_cached_messages.
  destruct (cache_retain_spec c (keep_message h (Some vs)) Hc) as (Hc' & Hsh & Hm).
  split; [split; [done|by eapply shrinks_bounded]|]. simpl. split_and!; [done..|].
  intros hash cm Hl. rewrite Hm in Hl. destruct (messages c !! hash) as [m|] eqn:E; [|done].
  destruct (keep_message h (Some vs) (message m)) eqn:K; [|done]. injection Hl as ->.
  unfold keep_message in K. apply andb_true_iff in K as [K1 K2].
  destruct (consensus_data (message cm)) as [d|] eqn:Ed; [|done]. apply bool_decide_eq_true in K2.
  destruct (validators a) as [vs0|].
  - destruct Ha as (_ & _ & _ & Hall). destruct (Hall _ _ E) as (Hw & Hh & Hnx & _).
    rewrite (is_next_height_inj _ _ _ K1 Hnx) in *. split_and!; eauto.
  - rewrite Ha, lookup_empty in E. done.
Qed.

Lemma purge_inv_none c h :
  cache_inv c -> messages c = ∅ ->
  admission_inv (mkDbftAdmission h None) (purge_cached_messages c h None).
Proof.
  intros [Hc Hb] He. unfold purge_cached_messages.
  destruct (cache_retain_spec c (keep_message h None) Hc) as (Hc' & Hsh & Hm).
  split; [split; [done|by eapply shrinks_bounded]|]. simpl.
  apply map_eq. intros k. rewrite Hm, He, !lookup_empty. done.
Qed.

Lemma update_height_inv p h :
  admission_inv (admission p) (cache p) ->
  admission_inv (admission (update_height p h)) (cache (update_height p h)).
Proof.
  intros Hi. unfold update_height. simpl. destruct (validators (admission p)) as [vs|] eqn:Ev.
  - eapply purge_inv; [exact Hi|..]; destruct Hi as [_ Ha]; rewrite Ev in Ha; tauto.
  - destruct Hi as [Hc Ha]. rewrite Ev in Ha. by apply purge_inv_none.
Qed.

Lemma activate_inv p h vs :
  admission_inv (admission p) (cache p) ->
  admission_inv (admission (activate p h vs).1) (cache (activate p h vs).1).
Proof.
  intros Hi. unfold activate. destruct vs as [|v vs]; [done|].
  destruct (adjacent_repeat (sort_bytes (v :: vs))) eqn:E; [done|]. simpl.
  apply (adjacent_repeat_None bytes_le) in E; [|apply _|apply sort_bytes_sorted].
  eapply purge_inv; [exact Hi|done|apply sort_bytes_sorted|].
  intros Hnil. apply (f_equal length) in Hnil. by rewrite length_sort_bytes in Hnil.
Qed.

Lemma deactivate_inv p : admission_inv (admission (deactivate p)) (cache (deactivate p)).
Proof. split; [apply cache_default_inv|done]. Qed.

Lemma validate_message_Ok m hash : validate_message m = Ok hash -> verify_witness m = Ok hash.
Proof. unfold validate_message. by destruct (_ <? _). Qed.

Lemma publish_inv p m :
  admission_inv (admission p) (cache p) ->
  admission_inv (admission (publish p m).1) (cache (publish p m).1).
Proof.
  intros Hi. unfold publish. destruct (result_bind (validate_message m) _) as [[hash d]|] eqn:E; [|done].
  bind_inv. match goal with Hv : validate_message m = Ok _ |- _ => apply validate_message_Ok in Hv end.
  pose proof (cache_message_spec p hash m d Hi ltac:(done) ltac:(done)) as Hs.
  destruct (cache_message p hash m d) as [p1 [[]|]]; destruct Hs as (Ea & _ & Hinv & _); simpl;
    try (by rewrite Ea).
  destruct (broadcast_core p1 (CmdAnnounce hash)) as (-> & -> & _). by rewrite Ea.
Qed.

Lemma check_inbound_Deliver head a1 a2 m hash d current :
  check_inbound head a1 a2 m = Deliver hash d current ->
  verify_witness m = Ok hash /\ consensus_data m = Ok d.
Proof.
  unfold check_inbound. destruct (validate_message m) as [h|] eqn:Ev; [|done].
  destruct (is_exact_late_message _ _); [done|].
  destruct (validate_sender a1 m) as [cur|[]]; try done.
  destruct (is_exact_late_message _ _); [done|].
  destruct (result_bind _ _) as [d'|] eqn:Ed; [|done].
  destruct (negb _); [done|]. intros [= -> -> ->]. bind_inv. split; [by apply validate_message_Ok|done].
Qed.

Lemma reserve_message_event_frame p peer n p' :
  reserve_message_event p peer n = Ok p' ->
  admission p' = admission p /\ cache p' = cache p /\ events p' = events p.
Proof.
  unfold reserve_message_event. destruct (peer_event_budget p peer) as [bs b].
  repeat (destruct (_ : bool); [done|]). intros [= <-]. done.
Qed.

Lemma handle_inbound_spec head a1 a2 p peer m :
  admission_inv (admission p) (cache p) ->
  let '(p', r) := handle_inbound_message head a1 a2 p peer m in
  admission p' = admission p /\ admission_inv (admission p') (cache p') /\
  ((cache p' = cache p /\ events p' = events p) \/
   (r = Ok tt /\ exists hash vs bytes,
      events p' = events p ++ [mkQueuedDbftEvent (MessageEvent peer m) (Some (peer, bytes))] /\
      is_Some (messages (cache p') !! hash) /\ validators (admission p) = Some vs /\
      admitted_message (height (admission p)) vs hash m)).
Proof.
  intros Hi. unfold handle_inbound_message.
  destruct (check_inbound head a1 a2 m) as [|e|hash d current] eqn:Ec; [by auto..|].
  apply check_inbound_Deliver in Ec as [Hw Hd].
  destruct (reserve_message_event p peer _) as [p1|] eqn:Er; [|by auto].
  apply reserve_message_event_frame in Er as (Ea & Eca & Ee).
  assert (Hi1 : admission_inv (admission p1) (cache p1)) by (by rewrite Ea, Eca).
  pose proof (cache_message_spec p1 hash m d Hi1 Hw Hd) as Hs.
  destruct (cache_message p1 hash m d) as [p2 r]. destruct Hs as (Ea2 & Hcore & Hinv & Hr).
  assert (Ee2 : events p2 = events p1) by apply Hcore.
  rewrite Ea in *. destruct r as [[| |cur]|e].
  - pose proof (broadcast_core (send_reserved p2 peer m
      (saturating_add USIZE_MAX (message_length m) 1)) (CmdAnnounce hash)) as (Eb1 & Eb2 & Eb3 & _).
    rewrite Eb1, Eb2, Eb3. simpl. rewrite Ea2, Ee2, Ee. destruct Hr as [Hsm (vs & Hvs & Hadm)].
    split_and!; [done|done|]. right. split; [done|]. exists hash, vs. eauto.
  - simpl. rewrite Ea2, Ee2, Ee. destruct Hr as [Hsm (vs & Hvs & Hadm)].
    split_and!; [done|done|]. right. split; [done|]. exists hash, vs. eauto.
  - subst p2. simpl. rewrite Ea. split_and!; [done..|]. left. by rewrite Eca, Ee.
  - subst p2. destruct e; simpl; rewrite Ea; (split_and!; [done..|]); left; by rewrite Eca, Ee.
Qed.

(** Reserve before cache: an inbound message that is not delivered leaves the
    cache and the event queue as they were, whatever the earlier checks read; a
    message that is cached is delivered to the consensus driver in the same call,
    after passing the witness, height, sender and index checks against the
    admission in force when it is cached. A full queue therefore never turns a
    valid message into a cache hit nobody saw. *)
Theorem inbound_cached_iff_delivered head a1 a2 p peer m :
  admission_inv (admission p) (cache p) ->
  let '(p', r) := handle_inbound_message head a1 a2 p peer m in
  admission p' = admission p /\ admission_inv (admission p') (cache p') /\
  ((cache p' = cache p /\ events p' = events p) \/
   (r = Ok tt /\ exists hash vs bytes,
      events p' = events p ++ [mkQueuedDbftEvent (MessageEvent peer m) (Some (peer, bytes))] /\
      is_Some (messages (cache p') !! hash) /\ validators (admission p) = Some vs /\
      admitted_message (height (admission p)) vs hash m)).
Proof. apply handle_inbound_spec. Qed.

(** ** Permits *)

Definition sum_bytes (l : list (PeerId * N)) : N := foldr (fun x acc => x.2 + acc) 0 l.
Definition of_peer (peer : PeerId) (l : list (PeerId * N)) : list (PeerId * N) :=
  filter (fun x => x.1 = peer) l.

Lemma sum_bytes_app l k : sum_bytes (l ++ k) = sum_bytes l + sum_bytes k.
Proof. induction l as [|x l IH]; simpl; [done|]. rewrite IH. lia. Qed.

(** [held] are the message permits out, [res] the reserved places of the channel:
    free and used permits add up to every capacity, globally and per peer. *)
Record permits_inv (p : DbftProtocol) (held : list (PeerId * N)) (res : N) : Prop := {
  slots_total : data_slots p + lenN held = DBFT_EVENT_QUEUE_CAPACITY;
  bytes_total : event_bytes p + sum_bytes held = DBFT_EVENT_QUEUE_BYTE_CAPACITY;
  peer_total peer :
    match peer_event_budgets p !! peer with
    | Some b =>
        refs b = lenN (of_peer peer held) /\
        slots b + lenN (of_peer peer held) = DBFT_PEER_EVENT_QUEUE_CAPACITY /\
        budget_bytes b + sum_bytes (of_peer peer held) = DBFT_PEER_EVENT_BYTE_CAPACITY
    | None => of_peer peer held = []
    end;
  reserved_total : events_reserved p = res;
  channel_total :
    lenN (events p) + res <= DBFT_EVENT_QUEUE_CAPACITY + DBFT_CONTROL_EVENT_QUEUE_CAPACITY;
}.

(** The budget a reservation works on: full when the peer holds nothing. *)
Lemma peer_event_budget_spec p held res peer budgets b :
  permits_inv p held res -> peer_event_budget p peer = (budgets, b) ->
  refs b = lenN (of_peer peer held) + 1 /\
  slots b + lenN (of_peer peer held) = DBFT_PEER_EVENT_QUEUE_CAPACITY /\
  budget_bytes b + sum_bytes (of_peer peer held) = DBFT_PEER_EVENT_BYTE_CAPACITY /\
  forall q, q <> peer ->
    match budgets !! q with
    | Some x => peer_event_budgets p !! q = Some x
    | None => of_peer q held = []
    end.
Proof.
  intros Hp E. unfold peer_event_budget in E. pose proof (peer_total p held res Hp) as Ht.
  assert (Halive : forall q,
    match filter (fun '(_, b) => 0 < refs b) (peer_event_budgets p) !! q with
    | Some x => peer_event_budgets p !! q = Some x
    | None => of_peer q held = []
    end).
  { intros q. specialize (Ht q).
    destruct (filter _ (peer_event_budgets p) !! q) as [x|] eqn:Ef.
    - by apply map_lookup_filter_Some in Ef as [? _].
    - apply map_lookup_filter_None in Ef as [Ef|Ef]; [by rewrite Ef in Ht|].
      destruct (peer_event_budgets p !! q) as [x|] eqn:Eq; [|done].
      specialize (Ef x eq_refl). destruct Ht as (Hr & _).
      unfold lenN in Hr. destruct (of_peer q held); [done|]. simpl in *. lia. }
  pose proof (Ht peer) as Hp'. destruct (peer_event_budgets p !! peer) as [x|] eqn:Ep.
  - destruct Hp' as (Hr & Hs & Hb). destruct (N.ltb_spec 0 (refs x)) as [Hpos|Hz];
      injection E as <- <-; simpl.
    + split_and!; [lia..|]. intros q _. specialize (Ht q).
      by destruct (peer_event_budgets p !! q).
    + assert (of_peer peer held = []) as Hnil.
      { unfold lenN in Hr. destruct (of_peer peer held); [done|]. simpl in Hr. lia. }
      rewrite Hnil in *. split_and!; [done|lia|simpl in *; lia|]. intros q _. apply Halive.
  - injection E as <- <-. rewrite Hp'. split_and!; [done..|]. intros q _. apply Halive.
Qed.

Lemma of_peer_snoc peer held x n :
  of_peer peer (held ++ [(x, n)]) =
    of_peer peer held ++ (if bool_decide (x = peer) then [(x, n)] else []).
Proof.
  unfold of_peer. rewrite filter_app, filter_cons. simpl.
  destruct (decide (x = peer)) as [E|E];
    [by rewrite bool_decide_eq_true_2|by rewrite bool_decide_eq_false_2].
Qed.

Lemma reserve_permits p held res peer n p' :
  permits_inv p held res -> reserve_message_event p peer n = Ok p' ->
  permits_inv p' (held ++ [(peer, n)]) (res + 1).
Proof.
  intros Hp. unfold reserve_message_event.
  destruct (peer_event_budget p peer) as [budgets b] eqn:Eb.
  destruct (peer_event_budget_spec _ _ _ _ _ _ Hp Eb) as (Hr & Hs & Hby & Hoth).
  destruct (N.eqb_spec (data_slots p) 0); [done|]. destruct (N.eqb_spec (slots b) 0); [done|].
  destruct (U32_MAX <? n); [done|]. destruct (N.ltb_spec (event_bytes p) n); [done|].
  destruct (N.ltb_spec (budget_bytes b) n); [done|].
  destruct (N.eqb_spec (channel_room p) 0) as [|Hroom]; [done|]. intros [= <-].
  destruct Hp as [H1 H2 H3 H4 H5]. unfold channel_room in Hroom. rewrite H4 in Hroom.
  constructor; simpl.
  - rewrite lenN_app. unfold lenN at 2. simpl. lia.
  - rewrite sum_bytes_app. simpl. lia.
  - intros q. rewrite of_peer_snoc. destruct (decide (peer = q)) as [<-|Hne].
    + rewrite lookup_insert_eq, bool_decide_eq_true_2 by done. simpl.
      rewrite lenN_app, sum_bytes_app. unfold lenN at 2 4. simpl. lia.
    + rewrite lookup_insert_ne, bool_decide_eq_false_2, app_nil_r by done.
      specialize (Hoth q ltac:(congruence)). specialize (H3 q).
      destruct (budgets !! q) as [x|]; [by rewrite Hoth in H3|done].
  - by rewrite H4.
  - lia.
Qed.

(** Sending keeps the permits and turns the reserved place into a queued event. *)
Lemma send_permits p held res peer m n :
  permits_inv p held (res + 1) -> permits_inv (send_reserved p peer m n) held res.
Proof.
  intros [H1 H2 H3 H4 H5]. constructor; simpl; try done; [lia|].
  rewrite lenN_app. unfold lenN at 2. simpl. lia.
Qed.

(** Releasing the permits of one held entry, wherever it is in the list. *)
Lemma release_permits p held1 peer n held2 res :
  permits_inv p (held1 ++ (peer, n) :: held2) res ->
  permits_inv (release p peer n) (held1 ++ held2) res.
Proof.
  intros [H1 H2 H3 H4 H5]. rewrite lenN_app in H1. rewrite sum_bytes_app in H2.
  unfold lenN at 2 in H1. simpl in H1, H2. constructor; simpl; try done.
  - rewrite lenN_app. unfold lenN at 2. lia.
  - rewrite sum_bytes_app. lia.
  - intros q. specialize (H3 q). unfold of_peer in *. rewrite filter_app in *.
    rewrite filter_cons in H3. simpl in H3. destruct (decide (peer = q)) as [<-|Hne].
    + destruct (peer_event_budgets p !! peer) as [b|].
      * rewrite lookup_insert_eq. simpl. rewrite lenN_app, sum_bytes_app in *.
        unfold lenN at 2 4 in H3. simpl in H3. unfold lenN at 2 4. lia.
      * by destruct (filter (fun x => x.1 = peer) held1).
    + destruct (peer_event_budgets p !! peer); [|done]. by rewrite lookup_insert_ne.
Qed.

Lemma drop_reserved_permits p held peer n res :
  permits_inv p (held ++ [(peer, n)]) (res + 1) -> permits_inv (drop_reserved p peer n) held res.
Proof.
  intros Hp. apply (release_permits p held peer n []) in Hp. rewrite app_nil_r in Hp.
  destruct Hp as [H1 H2 H3 H4 H5]. constructor; simpl in *; try done; lia.
Qed.

Lemma permits_same_core p p' held res :
  same_core p p' -> permits_inv p held res -> permits_inv p' held res.
Proof.
  intros (_ & _ & Ee & Er & Ed & Eb & Ebu) [H1 H2 H3 H4 H5].
  constructor; rewrite ?Ee, ?Er, ?Ed, ?Eb, ?Ebu; done.
Qed.

(** The permits held by the queued events. *)
Definition held (p : DbftProtocol) : list (PeerId * N) := omap permits (events p).

Lemma permits_set_admission p a c h res :
  permits_inv p h res -> permits_inv (set_admission p a c) h res.
Proof. intros [H1 H2 H3 H4 H5]. by constructor. Qed.

Lemma handle_inbound_permits head a1 a2 p peer m res :
  admission_inv (admission p) (cache p) -> permits_inv p (held p) res ->
  let p' := (handle_inbound_message head a1 a2 p peer m).1 in permits_inv p' (held p') res.
Proof.
  intros Hi Hp. unfold handle_inbound_message.
  destruct (check_inbound head a1 a2 m) as [|e|hash d current] eqn:Ec; [done..|].
  apply check_inbound_Deliver in Ec as [Hw Hd]. set (n := saturating_add _ _ _).
  destruct (reserve_message_event p peer n) as [p1|] eqn:Er; [|done].
  pose proof (reserve_permits _ _ _ _ _ _ Hp Er) as Hp1.
  apply reserve_message_event_frame in Er as (Ea & Eca & Ee).
  assert (Hi1 : admission_inv (admission p1) (cache p1)) by (by rewrite Ea, Eca).
  pose proof (cache_message_spec p1 hash m d Hi1 Hw Hd) as Hs.
  destruct (cache_message p1 hash m d) as [p2 r]. destruct Hs as (_ & Hcore & _ & Hr).
  assert (Hp2 : permits_inv p2 (held p ++ [(peer, n)]) (res + 1))
    by (eapply permits_same_core; [exact Hcore|]; by apply permits_set_admission).
  assert (Ee2 : events p2 = events p) by (rewrite <- Ee; apply Hcore).
  assert (Hsent : permits_inv (send_reserved p2 peer m n) (held (send_reserved p2 peer m n)) res).
  { unfold held at 1. simpl. rewrite omap_app, Ee2. by apply send_permits. }
  assert (Hdrop : permits_inv (drop_reserved p2 peer n) (held (drop_reserved p2 peer n)) res).
  { unfold held at 1. simpl. rewrite Ee2. by apply drop_reserved_permits. }
  destruct r as [[| |cur]|e]; simpl; try done.
  - pose proof (broadcast_core (send_reserved p2 peer m n) (CmdAnnounce hash)) as Hb.
    replace (held (broadcast (send_reserved p2 peer m n) (CmdAnnounce hash)).1)
      with (held (send_reserved p2 peer m n)) by (unfold held; by destruct Hb as (_ & _ & -> & _)).
    by eapply permits_same_core.
  - destruct e; done.
Qed.
(** Command-side operations change neither invariant. *)
Definition proto_inv (p : DbftProtocol) (res : N) : Prop :=
  admission_inv (admission p) (cache p) /\ permits_inv p (held p) res.

Lemma proto_inv_same_core p p' res : same_core p p' -> proto_inv p res -> proto_inv p' res.
Proof.
  intros Hs [Ha Hp]. split.
  - by destruct Hs as (-> & -> & _).
  - replace (held p') with (held p) by (unfold held; by destruct Hs as (_ & _ & -> & _)).
    by eapply permits_same_core.
Qed.

Lemma proto_inv_set_admission p a c res :
  admission_inv a c -> proto_inv p res -> proto_inv (set_admission p a c) res.
Proof. intros Ha [_ Hp]. split; [done|]. by apply permits_set_admission. Qed.

Lemma update_height_proto_inv p h res : proto_inv p res -> proto_inv (update_height p h) res.
Proof.
  intros [Ha Hp]. pose proof (update_height_inv p h Ha). by apply proto_inv_set_admission.
Qed.

Lemma activate_proto_inv p h vs res : proto_inv p res -> proto_inv (activate p h vs).1 res.
Proof.
  intros [Ha Hp]. pose proof (activate_inv p h vs Ha) as H. unfold activate in *.
  destruct vs; [done|]. destruct (adjacent_repeat _); [done|]. by apply proto_inv_set_admission.
Qed.

Lemma deactivate_proto_inv p res : proto_inv p res -> proto_inv (deactivate p) res.
Proof. intros Hp. apply proto_inv_set_admission; [apply (deactivate_inv p)|done]. Qed.

Lemma publish_proto_inv p m res : proto_inv p res -> proto_inv (publish p m).1 res.
Proof.
  intros [Hi Hp]. unfold publish.
  destruct (result_bind (validate_message m) _) as [[hash d]|] eqn:E; [|done].
  bind_inv. match goal with Hv : validate_message m = Ok _ |- _ => apply validate_message_Ok in Hv end.
  pose proof (cache_message_spec p hash m d Hi ltac:(done) ltac:(done)) as Hs.
  destruct (cache_message p hash m d) as [p1 r]. destruct Hs as (Ea & Hc & Hinv & _).
  assert (Hp1 : proto_inv p1 res).
  { eapply proto_inv_same_core; [exact Hc|]. by apply proto_inv_set_admission. }
  destruct r as [[]|]; simpl; try done. eapply proto_inv_same_core; [apply broadcast_core|done].
Qed.

Lemma handle_message_proto_inv head a1 a2 p c frame res :
  proto_inv p res -> proto_inv (handle_message head a1 a2 p c frame).1 res.
Proof.
  intros Hp. unfold handle_message. destruct frame as [|id body]; [done|].
  destruct (_ <? _); [done|]. destruct (wire_message_id_try_from id) as [[]|]; [| | |done].
  - destruct (decode_exact _ body); [|done]. eapply proto_inv_same_core; [|done].
    apply handle_announcement_core.
  - destruct (decode_exact _ body) as [hash|]; [|done]. destruct (protocol_get p hash); [|done].
    eapply proto_inv_same_core; [|done]. apply send_conn_core.
  - destruct (decode_exact _ body) as [m|]; [|done]. destruct Hp as [Ha Hp].
    pose proof (handle_inbound_permits head a1 a2 p (peer_id c) m res Ha Hp) as H.
    pose proof (handle_inbound_spec head a1 a2 p (peer_id c) m Ha) as H'.
    destruct (handle_inbound_message _ _ _ _ _ _) as [p' r]. destruct H' as (_ & H' & _).
    split; [exact H'|exact H].
Qed.

Lemma try_recv_proto_inv p e p' res :
  proto_inv p res -> try_recv p = Some (e, p') -> proto_inv p' res.
Proof.
  intros [Ha Hp] E. unfold try_recv in E. destruct (events p) as [|q rest] eqn:Ee; [done|].
  injection E as <- <-. unfold held in Hp. rewrite Ee in Hp.
  set (p0 := mkDbftProtocol _ rest _ _ _ _ _ _ _).
  assert (Hp0 : permits_inv p0 (omap permits (q :: rest)) res).
  { destruct Hp as [H1 H2 H3 H4 H5]. constructor; try done. simpl.
    rewrite Ee in H5. unfold lenN in *. simpl in H5. lia. }
  simpl in Hp0. destruct (permits q) as [[peer n]|] eqn:Eq.
  - split; [done|]. unfold held. by apply (release_permits p0 [] peer n).
  - by split.
Qed.

(** ** Control events and connections *)

(** An admitted connection keeps one reserved event for [Disconnected] and, while
    open, one more for a violation; a rejected one is closed and holds none. *)
Definition conn_ok (c : DbftConnection) : Prop :=
  if admitted c then
    if closed c then 1 <= control_events c <= 2 else control_events c = 2
  else closed c = true /\ control_events c = 0.

Lemma emit_control_spec p c e res :
  proto_inv p res -> 0 < control_events c <= res ->
  exists p', emit_control p c e =
      Some (p', mkDbftConnection (conn_id c) (peer_id c) (control_events c - 1) (admitted c) (closed c)) /\
    proto_inv p' (res - 1) /\ events p' = events p ++ [mkQueuedDbftEvent e None].
Proof.
  intros [Ha Hp] Hc. unfold emit_control. destruct (N.eqb_spec (control_events c) 0); [lia|].
  eexists. split; [done|]. split; [|done]. split; [done|]. unfold held. simpl.
  rewrite omap_app, app_nil_r. destruct Hp as [H1 H2 H3 H4 H5]. constructor; simpl; try done.
  - by rewrite H4.
  - rewrite lenN_app. unfold lenN at 2. simpl. lia.
Qed.

Lemma reserve_control_events_spec p res p' :
  proto_inv p res -> reserve_control_events p = Some p' ->
  proto_inv p' (res + DBFT_CONTROL_EVENTS_PER_CONNECTION).
Proof.
  intros [Ha Hp]. unfold reserve_control_events.
  destruct (N.leb_spec DBFT_CONTROL_EVENTS_PER_CONNECTION (channel_room p)) as [Hr|]; [|done].
  intros [= <-]. split; [done|]. destruct Hp as [H1 H2 H3 H4 H5]. unfold channel_room in Hr.
  rewrite H4 in Hr. unfold DBFT_CONTROL_EVENTS_PER_CONNECTION in *.
  constructor; simpl; try done; lia.
Qed.
Lemma into_connection_spec p id peer incoming res :
  proto_inv p res ->
  exists p' c, into_connection p id peer incoming = Some (p', c) /\
    proto_inv p' (res + control_events c) /\ conn_ok c /\ conn_id c = id.
Proof.
  intros Hp. unfold into_connection. destruct (reserve_control_events p) as [p1|] eqn:E.
  - pose proof (reserve_control_events_spec _ _ _ Hp E) as H1.
    set (p2 := with_peers p1 _ _). set (c0 := mkDbftConnection _ _ _ _ _).
    assert (H2 : proto_inv p2 (res + DBFT_CONTROL_EVENTS_PER_CONNECTION))
      by (eapply proto_inv_same_core; [|exact H1]; by repeat split).
    destruct (emit_control_spec p2 c0 (Established peer incoming) _ H2) as (p' & -> & Hp' & _).
    { simpl. unfold DBFT_CONTROL_EVENTS_PER_CONNECTION. lia. }
    do 2 eexists. split; [done|]. split_and!; [|done..]. simpl.
    unfold DBFT_CONTROL_EVENTS_PER_CONNECTION in *.
    by replace (res + (3 - 1)) with (res + 3 - 1) by lia.
  - do 2 eexists. split; [done|]. split_and!; [|done..]. simpl. rewrite N.add_0_r.
    eapply proto_inv_same_core; [|exact Hp]. by repeat split.
Qed.

Lemma close_with_spec p c reason res :
  proto_inv p res -> control_events c = 2 -> admitted c = true -> 2 <= res ->
  exists p' c', close_with p c reason = Some (p', c') /\
    proto_inv p' (res - 1) /\ control_events c' = 1 /\ conn_ok c' /\ conn_id c' = conn_id c.
Proof.
  intros Hp Hc Ha Hr. unfold close_with.
  destruct (emit_control_spec p c (Violation (peer_id c) reason) res Hp) as (p' & -> & Hp' & _);
    [lia|].
  do 2 eexists. split; [done|]. unfold conn_ok. simpl. rewrite Ha, Hc. split_and!; done.
Qed.

Lemma poll_turn_spec head a1 a2 p c input res :
  proto_inv p res -> conn_ok c -> control_events c <= res ->
  exists p' c' o, poll_turn head a1 a2 p c input = Some (p', c', o) /\
    proto_inv p' (res - control_events c + control_events c') /\ conn_ok c' /\ conn_id c' = conn_id c.
Proof.
  intros Hp Hc Hres. unfold poll_turn. unfold conn_ok in Hc.
  assert (Hsame : forall p', proto_inv p' res -> proto_inv p' (res - control_events c + control_events c))
    by (intros p'; by replace (res - control_events c + control_events c) with res by lia).
  destruct (closed c) eqn:Ecl.
  { do 3 eexists. split; [done|]. split_and!; [by apply Hsame| |done]. unfold conn_ok. by rewrite Ecl. }
  destruct (admitted c) eqn:Ead; [|by destruct Hc].
  assert (Hok : conn_ok c) by (unfold conn_ok; by rewrite Ecl, Ead).
  assert (Hin : forall p0, proto_inv p0 res ->
    exists p' c' o, match input with
      | Some None => Some (p0, c, Pending)
      | None => Some (p0, close_connection c, Finished)
      | Some (Some frame) =>
          match handle_message head a1 a2 p0 c frame with
          | (p, Ok _) => Some (p, c, Pending)
          | (p, Err reason) => '(p, c) ← close_with p c reason; Some (p, c, Finished)
          end
      end = Some (p', c', o) /\
    proto_inv p' (res - control_events c + control_events c') /\ conn_ok c' /\ conn_id c' = conn_id c).
  { intros p0 H0. destruct input as [[frame|]|].
    - pose proof (handle_message_proto_inv head a1 a2 p0 c frame res H0) as H1.
      destruct (handle_message head a1 a2 p0 c frame) as [p1 [u|reason]]; simpl in H1.
      + do 3 eexists. split; [done|]. auto.
      + destruct (close_with_spec p1 c reason res H1 Hc Ead ltac:(lia)) as (p' & c' & -> & Hp' & Hn & Hr).
        do 3 eexists. split; [done|]. rewrite Hn, Hc. split; [|done].
        by replace (res - 2 + 1) with (res - 1) by lia.
    - do 3 eexists. split; [done|]. auto.
    - do 3 eexists. split; [done|]. split; [by apply Hsame|]. split; [|done].
      unfold conn_ok. simpl. rewrite Ead. lia. }
  destruct (command_queues p !! conn_id c) as [[[|[cmd n] rest] bytes]|]; [by apply Hin| |by apply Hin].
  do 3 eexists. split; [done|]. split; [|done]. apply Hsame.
  eapply proto_inv_same_core; [|exact Hp]. by repeat split.
Qed.

Lemma drop_connection_spec p c res :
  proto_inv p res -> conn_ok c -> control_events c <= res ->
  exists p', drop_connection p c = Some p' /\ proto_inv p' (res - control_events c).
Proof.
  intros Hp Hc Hres. unfold drop_connection, conn_ok in *. destruct (admitted c).
  - set (p2 := with_peers _ (delete (peer_id c) _) _).
    assert (H2 : proto_inv p2 res) by (eapply proto_inv_same_core; [|exact Hp]; by repeat split).
    assert (1 <= control_events c) by (destruct (closed c); lia).
    destruct (emit_control_spec p2 c (Disconnected (peer_id c)) res H2) as (p' & -> & Hp' & _); [lia|].
    eexists. split; [done|]. destruct Hp' as [Ha [H3 H4 H5 H6 H7]]. split; [done|].
    unfold held. simpl. constructor; simpl; try done; lia.
  - destruct Hc as [_ ->]. eexists. split; [done|]. rewrite N.sub_0_r.
    eapply proto_inv_same_core; [|exact Hp]. by repeat split.
Qed.

(** ** Reachable systems *)

Definition sys_inv (s : System) : Prop :=
  proto_inv (proto s) (map_sum control_events (conns s)) /\
  forall id c, conns s !! id = Some c -> conn_ok c /\ conn_id c = id.

Lemma conns_insert_ok (cs : gmap ConnId DbftConnection) id c :
  (forall i x, cs !! i = Some x -> conn_ok x /\ conn_id x = i) -> conn_ok c -> conn_id c = id ->
  forall i x, <[id := c]> cs !! i = Some x -> conn_ok x /\ conn_id x = i.
Proof.
  intros Hall Hok Hid i x. destruct (decide (id = i)) as [<-|Hne].
  - rewrite lookup_insert_eq. by intros [= <-].
  - rewrite lookup_insert_ne by done. apply Hall.
Qed.

Lemma conns_control_le (cs : gmap ConnId DbftConnection) id c :
  cs !! id = Some c -> control_events c <= map_sum control_events cs.
Proof. intros H. rewrite (map_sum_delete _ _ _ _ H). lia. Qed.

Lemma sys_new_inv h : sys_inv (mkSystem (protocol_new h) ∅).
Proof.
  split; [|by intros id c]. simpl. rewrite map_sum_empty.
  split; [split; [apply cache_default_inv|done]|].
  constructor; simpl; try done.
Qed.

Lemma sys_step_inv s s' : sys_inv s -> sys_step s s' -> sys_inv s'.
Proof.
  intros [Hp Hc] Hstep.
  destruct Hstep as [s h|s h vs|s|s m|s peer c|s c|s e p Hr|s id peer incoming p c Hid Hi
    |s id c head a1 a2 input p c' o Hid Hi|s id c p Hid Hi]; simpl in *.
  - split; [by apply update_height_proto_inv|done].
  - split; [by apply activate_proto_inv|done].
  - split; [by apply deactivate_proto_inv|done].
  - split; [by apply publish_proto_inv|done].
  - split; [|done]. eapply proto_inv_same_core; [apply protocol_send_core|done].
  - split; [|done]. eapply proto_inv_same_core; [apply broadcast_core|done].
  - split; [|done]. by eapply try_recv_proto_inv.
  - destruct (into_connection_spec (proto s) id peer incoming _ Hp) as (p1 & c1 & E & Hp1 & Hok & Hci).
    rewrite E in Hi. injection Hi as <- <-. split; simpl; [|by apply conns_insert_ok].
    rewrite map_sum_insert by done. by rewrite N.add_comm.
  - destruct (Hc id c Hid) as [Hok Hci].
    destruct (poll_turn_spec head a1 a2 (proto s) c input _ Hp Hok (conns_control_le _ _ _ Hid))
      as (p1 & c1 & o1 & E & Hp1 & Hok1 & Hci1).
    rewrite E in Hi. injection Hi as <- <- <-. split; simpl; [|apply conns_insert_ok; [done|done|congruence]].
    rewrite <- insert_delete_eq, map_sum_insert by apply lookup_delete_eq.
    rewrite (map_sum_delete _ _ _ _ Hid) in Hp1.
    by replace (control_events c1 + _) with
      (control_events c + map_sum control_events (delete id (conns s)) - control_events c + control_events c1)
      by lia.
  - destruct (Hc id c Hid) as [Hok Hci].
    destruct (drop_connection_spec (proto s) c _ Hp Hok (conns_control_le _ _ _ Hid)) as (p1 & E & Hp1).
    rewrite E in Hi. injection Hi as <-. split; simpl.
    + rewrite (map_sum_delete _ _ _ _ Hid) in Hp1.
      by replace (map_sum control_events (delete id (conns s))) with
        (control_events c + map_sum control_events (delete id (conns s)) - control_events c) by lia.
    + intros i x Hx. apply lookup_delete_Some in Hx as [_ Hx]. by apply Hc.
Qed.

Lemma sys_reachable_inv s : sys_reachable s -> sys_inv s.
Proof. induction 1; [apply sys_new_inv|by eapply sys_step_inv]. Qed.

(** Under the invariant the checks [protocol_get] repeats never reject. *)
Lemma protocol_get_cached p hash :
  admission_inv (admission p) (cache p) -> protocol_get p hash = cache_get (cache p) hash.
Proof.
  intros [_ Ha]. unfold protocol_get, cache_get. destruct (validators (admission p)) as [vs|]; simpl.
  2:{ by rewrite Ha, lookup_empty. }
  destruct Ha as (_ & _ & _ & Hall). destruct (messages (cache p) !! hash) as [cm|] eqn:E; [|done].
  destruct (Hall _ _ E) as (_ & Hh & Hn & d & Hd & Hv). simpl. rewrite Hn, Hh, Hd. simpl.
  by rewrite (proj2 (validate_sender_against_Ok vs (message cm) d tt) Hv).
Qed.

(** C30. Whatever the interleaving of admission changes, publications, connections,
    and frames checked against stale admissions: in every reachable state the
    validator set is sorted and duplicate free, an inactive service caches nothing,
    every cached message is stored under its verified signing hash, is valid at the
    current height, targets the next block and is signed by the validator that its
    inner index names in the current set; and a Get request is answered with exactly
    the cached message. *)
Theorem system_cache_admitted s hash :
  sys_reachable s ->
  let p := proto s in
  protocol_get p hash = cache_get (cache p) hash /\
  match validators (admission p) with
  | None => cache_get (cache p) hash = None
  | Some vs =>
      NoDup vs /\ StronglySorted bytes_le vs /\ vs <> [] /\
      forall m, cache_get (cache p) hash = Some m ->
        admitted_message (height (admission p)) vs hash m
  end.
Proof.
  intros Hr p. apply sys_reachable_inv in Hr as [[Ha _] _]. split; [by apply protocol_get_cached|].
  destruct Ha as [_ Ha]. fold p in Ha. unfold cache_get. destruct (validators (admission p)) as [vs|].
  - destruct Ha as (? & ? & ? & Hall). split_and!; [done..|]. intros m Hm.
    apply fmap_Some in Hm as (cm & Hl & ->). by apply Hall.
  - by rewrite Ha, lookup_empty.
Qed.

Lemma sum_bytes_of_peer peer l : sum_bytes (of_peer peer l) <= sum_bytes l.
Proof.
  induction l as [|[q n] l IH]; [done|]. unfold of_peer in *. rewrite filter_cons. simpl.
  destruct (decide _); simpl; lia.
Qed.

(** C32. Memory bounds: in every reachable state the queued message events number at
    most 64 and carry at most 32 MiB, those of one peer at most 32 and 24 MiB, and the
    event channel never exceeds its 448 places counting the lifecycle events reserved
    by live connections; permits are never leaked, so an empty queue has every data
    permit back. *)
Theorem system_queue_bounds s peer :
  sys_reachable s ->
  let p := proto s in
  lenN (held p) <= 64 /\ sum_bytes (held p) <= 32 * 1024 * 1024 /\
  lenN (of_peer peer (held p)) <= 32 /\ sum_bytes (of_peer peer (held p)) <= 24 * 1024 * 1024 /\
  lenN (events p) + map_sum control_events (conns s) <= 448 /\
  (events p = [] ->
   data_slots p = 64 /\ event_bytes p = 32 * 1024 * 1024 /\
   forall b, peer_event_budgets p !! peer = Some b -> slots b = 32 /\ budget_bytes b = 24 * 1024 * 1024).
Proof.
  intros Hr p. apply sys_reachable_inv in Hr as [[_ [H1 H2 H3 H4 H5]] _]. fold p in H1, H2, H3, H4, H5.
  specialize (H3 peer). unfold DBFT_EVENT_QUEUE_CAPACITY, DBFT_EVENT_QUEUE_BYTE_CAPACITY,
    DBFT_PEER_EVENT_QUEUE_CAPACITY, DBFT_PEER_EVENT_BYTE_CAPACITY,
    DBFT_CONTROL_EVENT_QUEUE_CAPACITY in *.
  assert (Hpeer : lenN (of_peer peer (held p)) <= 32 /\
    sum_bytes (of_peer peer (held p)) <= 24 * 1024 * 1024).
  { destruct (peer_event_budgets p !! peer); [lia|]. rewrite H3. vm_compute. split; discriminate. }
  split_and!; [lia|lia|apply Hpeer|apply Hpeer|lia|]. intros He. unfold held in *. rewrite He in *.
  simpl in *. split_and!; [unfold lenN in H1; simpl in H1; lia|lia|]. intros b Hb. rewrite Hb in H3.
  unfold lenN in H3. simpl in H3. lia.
Qed.

(** The reservation of three lifecycle events per connection makes the [expect]
    in [emit_control] unreachable: from every reachable state accepting a
    connection, every poll of a live connection (any frame, any interleaved
    admission reads) and dropping it all succeed. *)
Theorem lifecycle_never_panics s :
  sys_reachable s ->
  (forall id peer incoming, is_Some (into_connection (proto s) id peer incoming)) /\
  forall id c, conns s !! id = Some c ->
    (forall head a1 a2 input, is_Some (poll_turn head a1 a2 (proto s) c input)) /\
    is_Some (drop_connection (proto s) c).
Proof.
  intros Hr. apply sys_reachable_inv in Hr as [Hp Hc]. split.
  - intros id peer incoming.
    destruct (into_connection_spec (proto s) id peer incoming _ Hp) as (? & ? & -> & _). eauto.
  - intros id c Hid. destruct (Hc id c Hid) as [Hok _].
    pose proof (conns_control_le _ _ _ Hid) as Hle. split.
    + intros head a1 a2 input.
      destruct (poll_turn_spec head a1 a2 (proto s) c input _ Hp Hok Hle) as (? & ? & ? & -> & _). eauto.
    + destruct (drop_connection_spec (proto s) c _ Hp Hok Hle) as (? & -> & _). eauto.
Qed.
End system.

Module ProtocolWitness.
#[local] Existing Instance alloy_rlp.
#[local] Existing Instance model_crypto.
#[local] Existing Instance model_blst.

Definition validator (b : byte) : Address := repeat b 20.
Definition peer : PeerId := [x09].

(** A Commit of validator 0 for block 1; the stand-in recovery reads the signer off
    the witness. *)
Definition commit : DbftMessage :=
  recovered_message 1 (validator x01) 0 0 Commit (enc commit_codec (mkDbftCommit (repeat x00 65)))
    (validator x01 ++ repeat x00 45).

(** The steps as functions that stay put when they are not enabled. *)
Definition connect (s : System) (id : ConnId) : System :=
  match conns s !! id, into_connection (proto s) id peer true with
  | None, Some (p, c) => mkSystem p (<[id := c]> (conns s))
  | _, _ => s
  end.
Definition poll (s : System) (id : ConnId) (input : option (option bytes)) : System :=
  match conns s !! id with
  | Some c =>
      let a := admission (proto s) in
      match poll_turn a a a (proto s) c input with
      | Some (p, c, _) => mkSystem p (<[id := c]> (conns s))
      | None => s
      end
  | None => s
  end.
Definition disconnect (s : System) (id : ConnId) : System :=
  match conns s !! id with
  | Some c =>
      match drop_connection (proto s) c with
      | Some p => mkSystem p (delete id (conns s))
      | None => s
      end
  | None => s
  end.

Lemma connect_reachable s id : sys_reachable s -> sys_reachable (connect s id).
Proof.
  intros Hr. unfold connect. destruct (conns s !! id) eqn:E; [done|].
  destruct (into_connection (proto s) id peer true) as [[p c]|] eqn:Ei; [|done].
  eapply reach_step; [exact Hr|]. by eapply step_connect.
Qed.

Lemma poll_reachable s id input : sys_reachable s -> sys_reachable (poll s id input).
Proof.
  intros Hr. unfold poll. destruct (conns s !! id) as [c|] eqn:E; [|done].
  destruct (poll_turn _ _ _ _ _ _) as [[[p c'] o]|] eqn:Ei; [|done].
  eapply reach_step; [exact Hr|]. by eapply step_poll.
Qed.

Lemma disconnect_reachable s id : sys_reachable s -> sys_reachable (disconnect s id).
Proof.
  intros Hr. unfold disconnect. destruct (conns s !! id) as [c|] eqn:E; [|done].
  destruct (drop_connection _ _) as [p|] eqn:Ei; [|done].
  eapply reach_step; [exact Hr|]. by eapply step_drop.
Qed.

(** Start at height 0, accept a connection, activate two validators, and let the
    connection deliver the Commit. *)
Definition start : System := mkSystem (protocol_new 0) ∅.
Definition connected : System := connect start 7.
Definition active : System :=
  mkSystem (activate (proto connected) 0 [validator x02; validator x01]).1 (conns connected).
Definition now : DbftAdmission := admission (proto active).
Definition live : DbftConnection := mkDbftConnection 7 peer 2 true false.
Definition delivered : System :=
  poll active 7 (Some (Some (encode_frame Message dbft_message_codec commit))).

Lemma start_reachable : sys_reachable start.
Proof. by constructor. Qed.

Lemma active_reachable : sys_reachable active.
Proof. eapply reach_step; [apply connect_reachable, start_reachable|by constructor]. Qed.

Lemma delivered_reachable : sys_reachable delivered.
Proof. apply poll_reachable, active_reachable. Qed.

Lemma inbound_cached_iff_delivered_witness :
  let '(p', r) := handle_inbound_message now now now (proto active) peer commit in
  r = Ok tt /\ length (events p') = 2%nat /\
  admission_inv (admission p') (cache p').
Proof.
  pose proof (inbound_cached_iff_delivered now now now (proto active) peer commit
    (proj1 (proj1 (sys_reachable_inv active active_reachable)))) as Hd.
  assert (Hr : (handle_inbound_message now now now (proto active) peer commit).2 = Ok tt)
    by (vm_compute; reflexivity).
  assert (Hl : length (events (handle_inbound_message now now now (proto active) peer commit).1) = 2%nat)
    by (vm_compute; reflexivity).
  destruct (handle_inbound_message _ _ _ _ _ _) as [p' r]. destruct Hd as (_ & Hd & _). by split_and!.
Defined.

Lemma system_cache_admitted_witness :
  cache_get (cache (proto delivered)) (message_hash commit) = Some commit /\
  admitted_message 0 [validator x01; validator x02] (message_hash commit) commit.
Proof.
  pose proof (system_cache_admitted delivered (message_hash commit) delivered_reachable) as [_ H].
  assert (Hc : cache_get (cache (proto delivered)) (message_hash commit) = Some commit)
    by (vm_compute; reflexivity).
  assert (Hv : validators (admission (proto delivered)) = Some [validator x01; validator x02])
    by (vm_compute; reflexivity).
  rewrite Hv in H. split; [exact Hc|]. destruct H as (_ & _ & _ & H). exact (H commit Hc).
Defined.

Lemma system_queue_bounds_witness :
  lenN (held (proto delivered)) = 1 /\ sum_bytes (of_peer peer (held (proto delivered))) <= 24 * 1024 * 1024.
Proof.
  split; [vm_compute; reflexivity|].
  exact (proj1 (proj2 (proj2 (proj2 (system_queue_bounds delivered peer delivered_reachable))))).
Defined.

Lemma lifecycle_never_panics_witness : is_Some (drop_connection (proto delivered) live).
Proof.
  apply (proj2 (lifecycle_never_panics delivered delivered_reachable) 7 live).
  vm_compute. reflexivity.
Defined.

(** Two connections of one peer share its entry of the peer table: when the older one
    goes away it removes the entry of the newer one, which stays open but can no
    longer be addressed. *)
Example drop_removes_newer_registration :
  exists s c, sys_reachable s /\ conns s !! 8 = Some c /\ closed c = false /\ peer_id c = peer /\
    peers (proto s) = ∅ /\ (protocol_send (proto s) peer (CmdGet ZERO_B256)).2 = false.
Proof.
  exists (disconnect (connect connected 8) 7), (mkDbftConnection 8 peer 2 true false). split.
  - apply disconnect_reachable, connect_reachable, connect_reachable, start_reachable.
  - split_and!; vm_compute; reflexivity.
Qed.
End ProtocolWitness.
