(* ===== verification/DkgParams.v ===== *)
(** DKG committee dimensions (crates/neox/antimev/src/dkg.rs, [DkgParameters]): the
    Byzantine threshold of a committee and the interpolation scaler, the least
    integer that clears the denominators of every Lagrange coefficient at zero over
    every threshold-sized subset of the participants. *)

From Stdlib Require Import ZArith Znumtheory.
From S2P Require Import Prelude Extern Tpke.

Definition NEOX_DKG_PARTICIPANTS : N := 7.
Definition NEOX_DKG_THRESHOLD : N := 5.
Definition NEOX_DKG_G1_LEN : N := 128.
Definition NEOX_DKG_G2_LEN : N := 256.
Definition I128_MAX : Z := 2 ^ 127 - 1.
Definition I128_MIN : Z := - 2 ^ 127.

(** [MaterialPanicked] marks a failed [expect] or index. *)
Inductive DkgMaterialError : Type :=
| InvalidParameters (participants threshold : N)
| ScalerOverflow (participants threshold : N)
| InvalidScalar
| EmptyScalarAggregation
| EmptyPrivateSource
| EmptyReplayProtection
| InvalidParticipantIndex (index : N)
| InsufficientRecoveryShares (actual : N)
| DuplicateRecoveryShareIndex (index : N)
| WrongPvssLength (actual : N)
| InvalidPvssPointLength (field : string) (actual : N)
| InvalidPvssPadding (field : string)
| InvalidPvssG1Point (field : string)
| InvalidPvssG2Point (field : string)
| InvalidPvssRandomizer
| InvalidPvssPublicShare (index : N)
| InvalidDecryptedShare (index : N)
| InvalidPvssContributionCount (actual : N)
| InvalidAggregatedShare (index : N)
| InvalidAggregatedCommitment
| WrongEciesMessageLength (actual : N)
| InvalidMessagePrivateKey
| InvalidEciesEphemeralPoint
| EciesAuthentication
| InvalidEciesPlaintextLength (actual : N)
| Entropy (error : string)
| MaterialPanicked.

Record DkgParameters : Type := mkDkgParameters {
  participants : N;
  threshold : N;
  scaler : N;
}.

(** ** The scaler *)

(** The Euclidean loop; [gcd] below gives it two turns per bit of [right]. *)
Fixpoint gcd_loop (fuel : nat) (left right : N) : N :=
  match fuel with
  | O => left
  | S fuel => if right =? 0 then left else gcd_loop fuel right (left mod right)
  end.
Definition gcd (left right : N) : N := gcd_loop (2 * N.to_nat (N.size right) + 1) left right.

Definition checked_mul_i128 (a b : Z) : option Z :=
  if ((I128_MIN <=? a * b) && (a * b <=? I128_MAX))%Z then Some (a * b)%Z else None.

Fixpoint fold_result {E A B} (f : B -> A -> result E B) (b : B) (l : list A) : result E B :=
  match l with
  | [] => Ok b
  | x :: l => let? b := f b x in fold_result f b l
  end.

Section scaler.
Variables p t : N.

(** One factor of the coefficient of the share at [position]. *)
Definition coefficient_step (position : nat) (index : N) (acc : Z * Z) (other : nat * N)
    : result DkgMaterialError (Z * Z) :=
  if bool_decide (position = other.1) then Ok acc
  else
    let? numerator := ok_or (checked_mul_i128 acc.1 (- Z.of_N other.2)) (ScalerOverflow p t) in
    let? denominator :=
      ok_or (checked_mul_i128 acc.2 (Z.of_N index - Z.of_N other.2)) (ScalerOverflow p t) in
    Ok (numerator, denominator).

Definition enumerate {A} (l : list A) : list (nat * A) := imap (fun i x => (i, x)) l.

(** The body of the loop over the selected participants. *)
Definition absorb (selected : list N) (scaler : N) (entry : nat * N) : result DkgMaterialError N :=
  let? coefficient :=
    fold_result (coefficient_step entry.1 entry.2) (1, 1)%Z (enumerate selected) in
  let numerator_abs := Z.abs_N coefficient.1 in
  let denominator_abs := Z.abs_N coefficient.2 in
  let divisor := gcd numerator_abs denominator_abs in
  let reduced_denominator := denominator_abs / divisor in
  let divisor := gcd scaler reduced_denominator in
  ok_or (checked_mul U128_MAX (scaler / divisor) reduced_denominator) (ScalerOverflow p t).

(** [visit]: [remaining] is [threshold - selected.len()]. *)
Fixpoint visit (remaining : nat) (next : nat) (selected : list N) (scaler : N)
    : result DkgMaterialError N :=
  match remaining with
  | O => fold_result (absorb selected) scaler (enumerate selected)
  | S remaining' =>
      let last := (N.to_nat p - remaining + 1)%nat in
      fold_result (fun scaler index => visit remaining' (index + 1) (selected ++ [N.of_nat index]) scaler)
        scaler (seq next (last + 1 - next))
  end.

Definition dkg_interpolation_scaler : result DkgMaterialError N :=
  if (t =? 0) || (p <? t) then Err (InvalidParameters p t)
  else if 16 <? p then Err (ScalerOverflow p t)
  else
    let? scaler := visit (N.to_nat t) 1 [] 1 in
    if scaler <=? U64_MAX then Ok scaler else Err (ScalerOverflow p t).
End scaler.

(** ** Parameters *)

Definition dkg_parameters_new (p : N) : result DkgMaterialError DkgParameters :=
  if (p =? 0) || (256 <? p) then Err (InvalidParameters p 0)
  else
    let t := p - saturating_sub p 1 / 3 in
    let? s := dkg_interpolation_scaler p t in
    Ok (mkDkgParameters p t s).

Definition canonical : DkgParameters :=
  mkDkgParameters NEOX_DKG_PARTICIPANTS NEOX_DKG_THRESHOLD NEOX_DKG_SCALER.

Definition pvss_len (d : DkgParameters) : N :=
  (threshold d + participants d + 1) * NEOX_DKG_G1_LEN + NEOX_DKG_G2_LEN.
Definition commitment_len (d : DkgParameters) : N := threshold d * NEOX_DKG_G1_LEN.

(** ** The Euclidean loop *)

Lemma gcd_loop_gcd k : forall fuel a b,
  b < 2 ^ N.of_nat k -> (2 * k + 1 <= fuel)%nat -> gcd_loop fuel a b = N.gcd a b.
Proof.
  induction k as [|k IH]; intros fuel a b Hb Hf.
  - destruct fuel; [lia|]. simpl in Hb. replace b with 0 by lia. simpl. by rewrite N.gcd_0_r.
  - destruct fuel as [|[|fuel]]; [lia..|]. cbn [gcd_loop].
    destruct (N.eqb_spec b 0) as [->|Hb0]; [by rewrite N.gcd_0_r|].
    pose proof (N.mod_lt a b Hb0) as Hr. rewrite N.gcd_comm, <- (N.gcd_mod a b) by done.
    destruct (N.eqb_spec (a mod b) 0) as [->|Hr0]; [by rewrite N.gcd_0_l|].
    rewrite <- N.gcd_mod by done. rewrite N.gcd_comm. apply IH; [|lia].
    pose proof (N.mod_lt b (a mod b) Hr0) as Hr'.
    pose proof (N.div_mod b (a mod b) Hr0) as Hd.
    assert (1 <= b / (a mod b)) by (apply N.div_le_lower_bound; lia).
    rewrite Nat2N.inj_succ, N.pow_succ_r' in Hb. nia.
Qed.

Lemma gcd_correct a b : gcd a b = N.gcd a b.
Proof.
  unfold gcd. apply (gcd_loop_gcd (N.to_nat (N.size b))); [|done].
  rewrite N2Nat.id. apply N.size_gt.
Qed.

(** ** Denominators *)

(** The factors of the coefficient at [position], and the coefficient itself:
    [L(0) = numerator / denominator]. *)
Definition others (position : nat) (selected : list N) : list N :=
  map snd (filter (fun e => e.1 <> position) (enumerate selected)).
Definition numerator (position : nat) (selected : list N) : Z :=
  foldl (fun acc other => acc * - Z.of_N other)%Z 1%Z (others position selected).
Definition denominator (position : nat) (index : N) (selected : list N) : Z :=
  foldl (fun acc other => acc * (Z.of_N index - Z.of_N other))%Z 1%Z (others position selected).

(** [m] times the coefficient is an integer. *)
Definition clears (m : N) (selected : list N) (entry : nat * N) : Prop :=
  (denominator entry.1 entry.2 selected | Z.of_N m * numerator entry.1 selected)%Z.

Lemma checked_mul_i128_Some a b c : checked_mul_i128 a b = Some c -> c = (a * b)%Z.
Proof. unfold checked_mul_i128. destruct (_ && _); [|done]. by intros [= <-]. Qed.

Lemma fold_coefficient p t position index l : forall acc r,
  fold_result (coefficient_step p t position index) acc l = Ok r ->
  let os := map snd (filter (fun e => e.1 <> position) l) in
  r = (foldl (fun acc other => acc * - Z.of_N other)%Z acc.1 os,
       foldl (fun acc other => acc * (Z.of_N index - Z.of_N other))%Z acc.2 os).
Proof.
  induction l as [|[i x] l IH]; intros acc r Hr; simpl in *.
  - injection Hr as <-. by destruct acc.
  - rewrite filter_cons. unfold coefficient_step in Hr at 1. simpl in *.
    case_bool_decide as E; simpl in Hr.
    + rewrite decide_False by auto. by apply IH.
    + rewrite decide_True by auto. bind_inv. simpl.
      repeat match goal with
      | Hx : checked_mul_i128 _ _ = Some _ |- _ => apply checked_mul_i128_Some in Hx; subst
      end.
      by apply IH in Hr.
Qed.

Lemma divide_reduced (n d m : N) : d <> 0 -> (d | m * n) <-> (d / N.gcd n d | m).
Proof.
  intros Hd. assert (Hg : N.gcd n d <> 0) by (rewrite N.gcd_eq_0; tauto).
  pose proof (N.gcd_div_gcd n d (N.gcd n d) Hg eq_refl) as Hco.
  destruct (N.gcd_divide_l n d) as [n' Hn]. destruct (N.gcd_divide_r n d) as [d' Hd'].
  generalize dependent (N.gcd n d). intros g Hg Hco Hn Hd'. subst n d.
  rewrite !N.div_mul in * by done. replace (m * (n' * g)) with (n' * m * g) by lia.
  rewrite N.mul_divide_cancel_r by done. split.
  - intros H. eapply N.gauss; [exact H|]. by rewrite N.gcd_comm.
  - intros H. by apply N.divide_mul_r.
Qed.

Lemma divide_abs_N (a b : Z) : (a | b)%Z <-> (Z.abs_N a | Z.abs_N b).
Proof.
  rewrite <- Z.divide_abs_l, <- Z.divide_abs_r, <- !N2Z.inj_abs_N.
  generalize (Z.abs_N a) (Z.abs_N b). clear a b. intros a b. split.
  - intros [k Hk]. exists (Z.abs_N k). lia.
  - intros [k ->]. exists (Z.of_N k). lia.
Qed.

Lemma clears_reduced m selected e :
  denominator e.1 e.2 selected <> 0%Z ->
  clears m selected e <->
  (Z.abs_N (denominator e.1 e.2 selected) /
     N.gcd (Z.abs_N (numerator e.1 selected)) (Z.abs_N (denominator e.1 e.2 selected)) | m).
Proof.
  intros Hd. rewrite <- divide_reduced by lia. unfold clears.
  rewrite divide_abs_N, Zabs2N.inj_mul. by rewrite Zabs2N.id.
Qed.

(** [absorb] replaces the scaler by its least common multiple with the reduced
    denominator, unless that overflows. *)
Lemma absorb_value p t selected sc e r :
  denominator e.1 e.2 selected <> 0%Z ->
  fold_result (coefficient_step p t e.1 e.2) (1, 1)%Z (enumerate selected) = Ok r ->
  exists v, absorb p t selected sc e = (if v <=? U128_MAX then Ok v else Err (ScalerOverflow p t)) /\
    forall m, (v | m) <-> (sc | m) /\ clears m selected e.
Proof.
  intros Hd Hr. unfold absorb. rewrite Hr. simpl. apply fold_coefficient in Hr. simpl in Hr. subst r.
  simpl. fold (others e.1 selected). fold (numerator e.1 selected).
  fold (denominator e.1 e.2 selected). rewrite !gcd_correct.
  set (r := Z.abs_N (denominator e.1 e.2 selected) / _).
  assert (Hr : r <> 0).
  { subst r. apply N.neq_0_lt_0, N.div_str_pos_iff; [rewrite N.gcd_eq_0; lia|].
    apply N.divide_pos_le; [lia|apply N.gcd_divide_r]. }
  exists (sc / N.gcd sc r * r). unfold checked_mul. split; [by destruct (_ <=? _)|]. intros m.
  rewrite (clears_reduced m selected e Hd). fold r.
  assert (Hg : N.gcd sc r <> 0) by (rewrite N.gcd_eq_0; tauto).
  rewrite N.lcm_equiv2, <- N.lcm_equiv1 by done. apply N.lcm_divide_iff.
Qed.

Lemma absorb_divide p t selected sc e sc' :
  denominator e.1 e.2 selected <> 0%Z -> absorb p t selected sc e = Ok sc' ->
  forall m, (sc' | m) <-> (sc | m) /\ clears m selected e.
Proof.
  intros Hd H. pose proof H as H'. unfold absorb in H'. apply result_bind_Ok in H' as (r & Hr & _).
  destruct (absorb_value p t selected sc e r Hd Hr) as (v & E & Hv). rewrite E in H.
  destruct (v <=? U128_MAX); [|done]. by injection H as <-.
Qed.

(** ** Subsets *)

(** Strictly increasing participants from [next] on. *)
Fixpoint increasing (p : N) (next : nat) (l : list N) : Prop :=
  match l with
  | [] => True
  | x :: l => N.of_nat next <= x <= p /\ increasing p (N.to_nat x + 1) l
  end.

Lemma fold_result_divide {E A} (f : N -> A -> result E N) (P : A -> N -> Prop) l : forall sc sc',
  (forall x s s', x ∈ l -> f s x = Ok s' -> forall m, (s' | m) <-> (s | m) /\ P x m) ->
  fold_result f sc l = Ok sc' ->
  forall m, (sc' | m) <-> (sc | m) /\ forall x, x ∈ l -> P x m.
Proof.
  induction l as [|x l IH]; intros sc sc' Hf H m; simpl in H.
  - injection H as <-. split; [|by intros [? _]]. split; [done|]. by intros x ?%elem_of_nil.
  - apply result_bind_Ok in H as (s & Hs & Hl).
    rewrite (IH _ _ (fun y a b Hy => Hf y a b ltac:(by right)) Hl m).
    rewrite (Hf x sc s ltac:(by left) Hs m). setoid_rewrite elem_of_cons. naive_solver.
Qed.

Lemma increasing_lower p next l x : increasing p next l -> x ∈ l -> N.of_nat next <= x <= p.
Proof.
  revert next. induction l as [|y l IH]; intros next H Hx; [by apply elem_of_nil in Hx|].
  destruct H as [Hy H]. apply elem_of_cons in Hx as [->|Hx]; [done|]. specialize (IH _ H Hx). lia.
Qed.

Lemma increasing_NoDup p next l : increasing p next l -> NoDup l.
Proof.
  revert next. induction l as [|y l IH]; intros next H; [constructor|]. destruct H as [Hy H].
  constructor; [|by eapply IH]. intros Hin. pose proof (increasing_lower _ _ _ _ H Hin). lia.
Qed.

Lemma increasing_bound p next l :
  increasing p next l -> l <> [] -> (next + length l <= N.to_nat p + 1)%nat.
Proof.
  revert next. induction l as [|y l IH]; intros next H Hl; [done|]. destruct H as [Hy H].
  destruct l as [|z l]; [simpl; lia|]. specialize (IH _ H ltac:(done)). simpl in *. lia.
Qed.

Lemma enumerate_elem {A} (l : list A) i x : (i, x) ∈ enumerate l <-> l !! i = Some x.
Proof.
  unfold enumerate. rewrite list_elem_of_lookup. setoid_rewrite list_lookup_imap_Some. naive_solver.
Qed.

Lemma product_nonzero (f : N -> Z) l : forall acc,
  acc <> 0%Z -> (forall x, x ∈ l -> f x <> 0%Z) -> foldl (fun a x => a * f x)%Z acc l <> 0%Z.
Proof.
  induction l as [|x l IH]; intros acc Ha Hf; simpl; [done|]. apply IH.
  - specialize (Hf x ltac:(by left)). nia.
  - intros y Hy. apply Hf. by right.
Qed.

Lemma denominator_nonzero selected e :
  NoDup selected -> e ∈ enumerate selected -> denominator e.1 e.2 selected <> 0%Z.
Proof.
  destruct e as [i x]. intros Hn Hx. apply enumerate_elem in Hx. apply product_nonzero; [done|].
  intros y Hy. unfold others in Hy. apply list_elem_of_fmap in Hy as ([j z] & -> & Hz).
  apply list_elem_of_filter in Hz as [Hne Hz]. apply enumerate_elem in Hz. simpl in *.
  intros E. apply Hne. eapply NoDup_lookup; [exact Hn|exact Hz|]. rewrite Hx. f_equal. lia.
Qed.

(** Every completion of [selected] to a full subset. *)
Definition completions (p : N) (remaining next : nat) (selected l : list N) : Prop :=
  exists ext, l = selected ++ ext /\ length ext = remaining /\ increasing p next ext.

Definition clears_all (m : N) (l : list N) : Prop := forall e, e ∈ enumerate l -> clears m l e.

Lemma visit_divide p t remaining : forall next selected sc sc',
  (remaining <= N.to_nat p)%nat ->
  (forall ext, increasing p next ext -> NoDup (selected ++ ext)) ->
  visit p t remaining next selected sc = Ok sc' ->
  forall m, (sc' | m) <-> (sc | m) /\ forall l, completions p remaining next selected l -> clears_all m l.
Proof.
  induction remaining as [|r IH]; intros next selected sc sc' Hp Hn H m; cbn [visit] in H.
  - rewrite (fold_result_divide _ (fun e m => clears m selected e) _ _ _
      (fun e s s' He Hs => absorb_divide p t selected s e s'
        (denominator_nonzero _ _ ltac:(specialize (Hn [] I); by rewrite app_nil_r in Hn) He) Hs) H m).
    split; intros [Hd Hall]; (split; [done|]).
    + intros l (ext & -> & He & _). destruct ext; [|done]. by rewrite app_nil_r.
    + intros x Hx. apply (Hall selected); [|done]. exists []. by rewrite app_nil_r.
  - assert (Hstep : forall i a b, i ∈ seq next (N.to_nat p - S r + 1 + 1 - next) ->
      visit p t r (i + 1) (selected ++ [N.of_nat i]) a = Ok b -> forall m, (b | m) <-> (a | m) /\
        forall l, completions p r (i + 1) (selected ++ [N.of_nat i]) l -> clears_all m l).
    { intros i a b Hi Hs. apply elem_of_seq in Hi. apply (IH _ _ _ _ ltac:(lia)); [|done].
      intros ext He. rewrite <- app_assoc. apply Hn. split; [lia|]. by rewrite Nat2N.id. }
    rewrite (fold_result_divide _ _ _ _ _ Hstep H m).
    split; intros [Hd Hall]; (split; [done|]).
    + intros l (ext & -> & He & Hinc). destruct ext as [|x ext]; [done|].
      pose proof (increasing_bound _ _ _ Hinc ltac:(done)) as Hb. simpl in Hb, He.
      destruct Hinc as [Hx Hinc].
      assert (Hlast : (N.to_nat x + length ext <= N.to_nat p)%nat).
      { destruct ext as [|y ext]; [simpl; lia|].
        pose proof (increasing_bound _ _ _ Hinc ltac:(done)). simpl in *. lia. }
      apply (Hall (N.to_nat x)); [apply elem_of_seq; lia|].
      exists ext. rewrite N2Nat.id, <- app_assoc. split_and!; [done|lia|done].
    + intros i Hi l (ext & -> & He & Hinc). apply elem_of_seq in Hi. apply Hall.
      exists (N.of_nat i :: ext). rewrite <- app_assoc. split_and!; [done|simpl; lia|].
      simpl. rewrite Nat2N.id. split; [lia|done].
Qed.

(** A threshold-sized subset of the participants. *)
Definition subset (p t : N) (l : list N) : Prop := lenN l = t /\ increasing p 1 l.

(** The interpolation scaler is exactly the least common denominator: [m] times
    every Lagrange coefficient at zero, over every threshold-sized subset of
    participants, is an integer if and only if the scaler divides [m]. In
    particular the scaled coefficients used to combine shares are integers, for any
    combination of contributors. *)
Theorem interpolation_scaler_least p t s :
  dkg_interpolation_scaler p t = Ok s ->
  forall m, (s | m) <-> forall l, subset p t l -> clears_all m l.
Proof.
  intros H m. unfold dkg_interpolation_scaler in H.
  destruct (N.eqb_spec t 0); [done|]. destruct (N.ltb_spec p t); [done|]. simpl in H.
  destruct (16 <? p); [done|]. bind_inv. destruct (x <=? U64_MAX); [|done]. injection H as ->.
  match goal with Hx : visit _ _ _ _ _ _ = Ok s |- _ => rename Hx into Hv end.
  rewrite (visit_divide p t (N.to_nat t) 1 [] 1 s ltac:(lia) ltac:(intros ext; apply increasing_NoDup) Hv m).
  split.
  - intros [_ Hall] l [Hl Hinc]. apply Hall. exists l. unfold lenN in Hl. split_and!; [done|lia|done].
  - intros Hall. split; [apply N.divide_1_l|]. intros l (ext & -> & He & Hinc). apply Hall.
    split; [unfold lenN; simpl; lia|done].
Qed.

(** ** No overflow

    Committees have at most 16 members, so every denominator divides 15!, which keeps
    the scaler in 64 bits all along. *)
Definition common : N := 1307674368000.

Lemma product_foldr (f : N -> Z) l : forall acc,
  foldl (fun a x => a * f x)%Z acc l = (acc * foldr (fun x a => f x * a) 1 l)%Z.
Proof. induction l as [|x l IH]; intros acc; simpl; [lia|]. rewrite IH. lia. Qed.

Lemma product_submseteq (f : N -> Z) l k :
  l ⊆+ k -> (foldr (fun x a => f x * a) 1 l | foldr (fun x a => f x * a) 1 k)%Z.
Proof.
  induction 1 as [|x l k _ IH|x y l|x l k _ IH|l k j _ IH1 _ IH2]; simpl.
  - exists 1%Z. lia.
  - by apply Z.mul_divide_mono_l.
  - exists 1%Z. lia.
  - by apply Z.divide_mul_r.
  - by etrans.
Qed.

Definition members : list N := map N.of_nat (seq 1 16).

Definition full_product (i : N) : Z :=
  foldr (fun x a => (Z.of_N i - Z.of_N x) * a)%Z 1%Z (filter (fun x => x <> i) members).

Lemma full_product_divides i : i ∈ members -> (full_product i | Z.of_N common)%Z.
Proof.
  intros Hi.
  assert (H : forallb (fun i => (Z.of_N common / full_product i * full_product i =? Z.of_N common)%Z)
    members = true) by (vm_compute; reflexivity).
  rewrite forallb_forall in H. apply list_elem_of_In in Hi. specialize (H i Hi).
  apply Z.eqb_eq in H. by eexists.
Qed.

Lemma members_elem x : x ∈ members <-> 1 <= x <= 16.
Proof.
  unfold members. rewrite list_elem_of_fmap. setoid_rewrite elem_of_seq. split.
  - intros (n & -> & Hn). lia.
  - intros Hx. exists (N.to_nat x). lia.
Qed.

Lemma others_NoDup position l : NoDup l -> NoDup (others position l).
Proof.
  intros Hn. unfold others. apply NoDup_fmap_2_strong.
  - intros [i x] [j y] Hx Hy E. simpl in E. subst y.
    apply list_elem_of_filter in Hx as [_ Hx]. apply list_elem_of_filter in Hy as [_ Hy].
    apply enumerate_elem in Hx, Hy. f_equal. by eapply NoDup_lookup.
  - apply NoDup_filter. unfold enumerate. 
    apply NoDup_alt. intros i j [k z] Hi Hj. apply list_lookup_imap_Some in Hi as (? & _ & Hi).
    apply list_lookup_imap_Some in Hj as (? & _ & Hj). congruence.
Qed.

Lemma others_elem position l x :
  x ∈ others position l <-> exists i, i <> position /\ l !! i = Some x.
Proof.
  unfold others. rewrite list_elem_of_fmap. setoid_rewrite list_elem_of_filter. split.
  - intros ([i y] & -> & Hi & He). apply enumerate_elem in He. eauto.
  - intros (i & Hi & Hl). exists (i, x). split_and!; [done|done|]. by apply enumerate_elem.
Qed.

Lemma common_clears p l e :
  p <= 16 -> increasing p 1 l -> e ∈ enumerate l -> clears common l e.
Proof.
  intros Hp Hinc He. destruct e as [i x]. apply enumerate_elem in He as Hx.
  pose proof (increasing_NoDup _ _ _ Hinc) as Hn.
  assert (Hin : forall y, y ∈ l -> y ∈ members).
  { intros y Hy. apply members_elem. pose proof (increasing_lower _ _ _ _ Hinc Hy). lia. }
  apply Z.divide_mul_l. simpl. etrans; [|apply (full_product_divides x)].
  - unfold denominator. rewrite product_foldr, Z.mul_1_l. apply product_submseteq.
    apply NoDup_submseteq; [by apply others_NoDup|]. intros y Hy.
    apply others_elem in Hy as (j & Hj & Hl). apply list_elem_of_filter.
    split; [|apply Hin; by eapply list_elem_of_lookup_2].
    intros ->. apply Hj. by eapply NoDup_lookup.
  - apply Hin. by eapply list_elem_of_lookup_2.
Qed.

Lemma fold_coefficient_total p t position index l : forall acc k,
  index <= 16 -> (forall e, e ∈ l -> e.2 <= 16) ->
  (Z.abs acc.1 <= 16 ^ Z.of_nat k)%Z -> (Z.abs acc.2 <= 16 ^ Z.of_nat k)%Z -> (k + length l <= 31)%nat ->
  exists r, fold_result (coefficient_step p t position index) acc l = Ok r.
Proof.
  assert (Hmul : forall a b k, (Z.abs a <= 16 ^ Z.of_nat k)%Z -> (Z.abs b <= 16)%Z -> (S k <= 31)%nat ->
    checked_mul_i128 a b = Some (a * b)%Z /\ (Z.abs (a * b) <= 16 ^ Z.of_nat (S k))%Z).
  { intros a b k Ha Hb Hk. assert (Hab : (Z.abs (a * b) <= 16 ^ Z.of_nat (S k))%Z).
    { rewrite Z.abs_mul, Nat2Z.inj_succ, Z.pow_succ_r by lia. nia. }
    split; [|done]. unfold checked_mul_i128.
    assert ((16 ^ Z.of_nat (S k) <= 16 ^ 31)%Z) by (apply Z.pow_le_mono_r; lia).
    assert ((16 ^ 31 <= I128_MAX)%Z) by (by vm_compute).
    assert ((I128_MIN <= - 16 ^ 31)%Z) by (by vm_compute).
    rewrite (proj2 (Z.leb_le I128_MIN _)), (proj2 (Z.leb_le _ I128_MAX)) by lia. done. }
  induction l as [|[i x] l IH]; intros acc k Hi Hl H1 H2 Hk; simpl; [by eexists|].
  pose proof (Hl (i, x) ltac:(by left)) as Hx. simpl in Hx, Hk.
  assert (Hl' : forall e, e ∈ l -> e.2 <= 16) by (intros e He; apply Hl; by right).
  unfold coefficient_step at 1. simpl. case_bool_decide; simpl.
  - apply (IH acc k); auto; lia.
  - destruct (Hmul acc.1 (- Z.of_N x)%Z k H1 ltac:(lia) ltac:(lia)) as [-> Hn].
    destruct (Hmul acc.2 (Z.of_N index - Z.of_N x)%Z k H2 ltac:(lia) ltac:(lia)) as [-> Hd].
    simpl. apply (IH _ (S k)); auto; simpl; lia.
Qed.
Lemma fold_result_total {E A} (f : N -> A -> result E N) l : forall sc,
  (forall x s, x ∈ l -> (s | common) -> exists s', f s x = Ok s' /\ (s' | common)) ->
  (sc | common) -> exists sc', fold_result f sc l = Ok sc' /\ (sc' | common).
Proof.
  induction l as [|x l IH]; intros sc Hf Hsc; simpl; [by exists sc|].
  destruct (Hf x sc ltac:(by left) Hsc) as (s & -> & Hs). simpl. apply IH; [|done].
  intros y s' Hy. apply Hf. by right.
Qed.

Lemma absorb_total p t l e sc :
  p <= 16 -> increasing p 1 l -> (length l <= 31)%nat -> e ∈ enumerate l -> (sc | common) ->
  exists sc', absorb p t l sc e = Ok sc' /\ (sc' | common).
Proof.
  intros Hp Hinc Hl He Hsc. pose proof (increasing_NoDup _ _ _ Hinc) as Hn.
  assert (Hb : forall e, e ∈ enumerate l -> e.2 <= 16).
  { intros [i x] Hx. apply enumerate_elem, list_elem_of_lookup_2 in Hx.
    pose proof (increasing_lower _ _ _ _ Hinc Hx). simpl. lia. }
  destruct (fold_coefficient_total p t e.1 e.2 (enumerate l) (1, 1)%Z 0 (Hb e He) Hb)
    as [r Hr]; [done|done|unfold enumerate; rewrite length_imap; lia|].
  destruct (absorb_value p t l sc e r (denominator_nonzero _ _ Hn He) Hr) as (v & -> & Hv).
  assert (Hvc : (v | common)) by (apply Hv; split; [done|by eapply common_clears]).
  assert (v <= U128_MAX).
  { etrans; [by apply (N.divide_pos_le v common)|]. by vm_compute. }
  exists v. by destruct (N.leb_spec v U128_MAX); [|lia].
Qed.

Lemma visit_total p t remaining : forall next selected sc,
  p <= 16 -> (remaining <= N.to_nat p)%nat -> (remaining + length selected <= 31)%nat ->
  (forall ext, increasing p next ext -> increasing p 1 (selected ++ ext)) ->
  (sc | common) -> exists sc', visit p t remaining next selected sc = Ok sc' /\ (sc' | common).
Proof.
  induction remaining as [|r IH]; intros next selected sc Hp Hr Hl Hinc Hsc; cbn [visit].
  - apply fold_result_total; [|done]. intros e s He Hs. apply absorb_total; try done.
    specialize (Hinc [] I). by rewrite app_nil_r in Hinc.
  - apply fold_result_total; [|done]. intros i s Hi Hs. apply elem_of_seq in Hi.
    apply IH; try done; [lia|rewrite length_app; simpl; lia|].
    intros ext He. rewrite <- app_assoc. apply Hinc. split; [lia|]. by rewrite Nat2N.id.
Qed.

Lemma interpolation_scaler_total p t :
  1 <= t <= p -> p <= 16 -> exists s, dkg_interpolation_scaler p t = Ok s /\ 1 <= s <= U64_MAX.
Proof.
  intros Ht Hp. unfold dkg_interpolation_scaler.
  destruct (N.eqb_spec t 0); [lia|]. destruct (N.ltb_spec p t); [lia|]. simpl.
  destruct (N.ltb_spec 16 p); [lia|].
  destruct (visit_total p t (N.to_nat t) 1 [] 1) as (s & -> & Hs); try done; simpl; [lia|lia| |].
  - apply N.divide_1_l.
  - assert (s <= common) by (by apply N.divide_pos_le).
    assert (common <= U64_MAX) by (by vm_compute).
    assert (s <> 0) by (intros ->; destruct Hs as [k Hk]; rewrite N.mul_0_r in Hk; done).
    exists s. destruct (N.leb_spec s U64_MAX); [|lia]. split; [done|lia].
Qed.

Lemma dkg_parameters_small n :
  1 <= n <= 16 -> exists d, dkg_parameters_new n = Ok d /\ 1 <= scaler d <= U64_MAX.
Proof.
  intros Hn. unfold dkg_parameters_new, saturating_sub. destruct (N.eqb_spec n 0); [lia|].
  destruct (N.ltb_spec 256 n); [lia|]. cbn [orb].
  destruct (interpolation_scaler_total n (n - (n - 1) / 3)) as (s & -> & Hs); [div_facts (n - 1) 3; lia|lia|].
  by eexists.
Qed.

Lemma dkg_parameters_Ok n d :
  dkg_parameters_new n = Ok d ->
  1 <= n <= 16 /\ participants d = n /\ threshold d = n - (n - 1) / 3 /\
  dkg_interpolation_scaler n (threshold d) = Ok (scaler d).
Proof.
  unfold dkg_parameters_new. destruct (N.eqb_spec n 0); [done|]. simpl.
  destruct (256 <? n); [done|]. intros H. apply result_bind_Ok in H as (s & Hs & H).
  injection H as <-. simpl. split_and!; try done; [lia|]. unfold dkg_interpolation_scaler in *.
  destruct (_ || _); [done|]. destruct (N.ltb_spec 16 n); [done|lia].
Qed.

(** [DkgParameters::new] succeeds exactly for committees of 1 to 16 members, with
    no overflow; the threshold is the dBFT quorum, at least two thirds plus one of the
    committee up to rounding and never more than all of it; the deployed seven-member
    committee gets the canonical constants 5 and 360. *)
Theorem dkg_parameters_total n :
  (is_ok (dkg_parameters_new n) = true <-> 1 <= n <= 16) /\
  (forall d, dkg_parameters_new n = Ok d ->
     participants d = n /\ 2 * n < 3 * threshold d <= 3 * n /\
     dkg_interpolation_scaler n (threshold d) = Ok (scaler d) /\ 1 <= scaler d <= U64_MAX) /\
  dkg_parameters_new 7 = Ok canonical.
Proof.
  split; [split|split].
  - destruct (dkg_parameters_new n) as [d|] eqn:E; [|done]. intros _. apply (dkg_parameters_Ok n d E).
  - intros Hn. destruct (dkg_parameters_small n Hn) as (d & -> & _). done.
  - intros d E. destruct (dkg_parameters_Ok n d E) as (Hn & Hp & Ht & Hs).
    destruct (dkg_parameters_small n Hn) as (d' & E' & Hb). rewrite E in E'. injection E' as <-.
    split; [done|]. split; [rewrite Ht; div_facts (n - 1) 3; lia|done].
  - vm_compute. reflexivity.
Qed.

Module DkgParamsWitness.
Lemma interpolation_scaler_least_witness :
  clears_all 360 [1; 2; 3; 4; 5] /\ (360 | 720).
Proof.
  pose proof (interpolation_scaler_least 7 5 360 ltac:(vm_compute; reflexivity)) as H. split.
  - apply (proj1 (H 360)); [by exists 1|]. split; [reflexivity|]. simpl. lia.
  - by exists 2.
Defined.
End DkgParamsWitness.
