(* ===== verification/Lagrange.v ===== *)
(** The algebra of threshold keys: what blst computes in the scalar field and the two
    groups of BLS12-381, polynomials over that field, and Lagrange interpolation at
    zero with the coefficients of crates/neox/antimev/src/tpke.rs. *)

From Stdlib Require Import Ring.
From S2P Require Import Prelude Extern Instances Tpke DkgParams.

Declare Scope fr_scope.
Delimit Scope fr_scope with fr.
Notation "x + y" := (fr_add x y) : fr_scope.
Notation "x * y" := (fr_mul x y) : fr_scope.
Notation "x - y" := (fr_sub x y) : fr_scope.
Notation "- x" := (fr_cneg x) : fr_scope.
Notation "0" := (fr_from_u64 0) : fr_scope.
Notation "1" := (fr_from_u64 1) : fr_scope.

(** ** The field *)

(** The order of the field and of the groups. *)
Definition SCALAR_MODULUS : N := 52435875175126190479447740508185965837690552500527637822603658699938581184513.

(** The scalar field has prime order, far above the participant indices. *)
Class FieldLaws (B : Blst) : Prop := {
  fr_ring : ring_theory (fr_from_u64 0) (fr_from_u64 1) fr_add fr_mul fr_sub fr_cneg eq;
  fr_inverse_law x : x <> fr_from_u64 0 -> fr_mul (fr_inverse x) x = fr_from_u64 1;
  fr_from_u64_small a b : a <= 16 -> b <= 16 -> fr_from_u64 a = fr_from_u64 b -> a = b;
  scalar_bendian_law v : fr_from_scalar (scalar_from_bendian (bendian_from_scalar (scalar_from_fr v))) = v;
  scalar_canonical_law v : N_of_be (bendian_from_scalar (scalar_from_fr v)) < SCALAR_MODULUS;
  scalar_zero_law b : N_of_be b < SCALAR_MODULUS ->
    fr_from_scalar (scalar_from_bendian b) = fr_from_u64 0 <-> N_of_be b = 0;
}.

Section field.
Context {B : Blst} {L : FieldLaws B}.
Add Ring fr_is_ring : fr_ring.
Open Scope fr_scope.

Lemma fr_one_nonzero : 1 <> 0.
Proof. intros H%fr_from_u64_small; by lia. Qed.

Lemma fr_mul_cancel x y : x <> 0 -> x * y = 0 -> y = 0.
Proof.
  intros Hx H. replace y with (fr_inverse x * x * y); [|rewrite fr_inverse_law by done; ring].
  replace (fr_inverse x * x * y) with (fr_inverse x * (x * y)) by ring. rewrite H. ring.
Qed.

Lemma fr_mul_nonzero x y : x <> 0 -> y <> 0 -> x * y <> 0.
Proof. intros Hx Hy H. by apply Hy, (fr_mul_cancel x). Qed.

Lemma fr_sub_zero x y : x - y = 0 -> x = y.
Proof. intros H. replace x with (x - y + y) by ring. rewrite H. ring. Qed.

Lemma fr_neg_zero x : - x = 0 -> x = 0.
Proof. intros H. replace x with (- - x) by ring. rewrite H. ring. Qed.

(** ** Sums and products *)

Fixpoint fsum (l : list fr) : fr := match l with [] => 0 | x :: l => x + fsum l end.
Fixpoint fprod (l : list fr) : fr := match l with [] => 1 | x :: l => x * fprod l end.

Lemma fsum_app l k : fsum (l ++ k) = fsum l + fsum k.
Proof. induction l as [|x l IH]; cbn; [ring|]. rewrite IH. ring. Qed.

Lemma fsum_scale k l : fsum (map (fr_mul k) l) = k * fsum l.
Proof. induction l as [|x l IH]; cbn; [ring|]. rewrite IH. ring. Qed.

Lemma fsum_zero l : Forall (fun x => x = 0) l -> fsum l = 0.
Proof. induction 1 as [|x l -> _ IH]; cbn; [done|]. rewrite IH. ring. Qed.

(** Only one position of the sum counts. *)
Lemma fsum_single {A} (f : nat -> A -> fr) l k x :
  l !! k = Some x -> (forall j y, l !! j = Some y -> j <> k -> f j y = 0) -> fsum (imap f l) = f k x.
Proof.
  revert f k. induction l as [|y l IH]; intros f [|k] Hk H; try done; cbn in Hk |- *.
  - injection Hk as ->. rewrite fsum_zero; [ring|]. apply Forall_lookup. intros j z Hj.
    rewrite list_lookup_imap in Hj. destruct (l !! j) as [w|] eqn:Ej; [|done]. injection Hj as <-. by apply (H (S j)).
  - rewrite (H 0%nat y) by done. rewrite (IH (f ∘ S) k Hk); [unfold compose; ring|].
    intros j z Hj Hn. apply (H (S j)); [done|lia].
Qed.

Lemma fprod_nonzero l : Forall (fun x => x <> 0) l -> fprod l <> 0.
Proof. induction 1 as [|x l Hx _ IH]; cbn; [apply fr_one_nonzero|]. by apply fr_mul_nonzero. Qed.

Lemma fprod_zero l : 0 ∈ l -> fprod l = 0.
Proof.
  induction l as [|x l IH]; [by intros ?%not_elem_of_nil|]. intros [<-|H]%elem_of_cons; cbn; [ring|].
  rewrite IH by done. ring.
Qed.

(** ** Polynomials, as the lists of their coefficients *)

Fixpoint peval (p : list fr) (x : fr) : fr :=
  match p with [] => 0 | c :: p => c + x * peval p x end.

Fixpoint padd (p q : list fr) : list fr :=
  match p, q with
  | [], _ => q
  | _, [] => p
  | a :: p, b :: q => a + b :: padd p q
  end.

Definition pscale (k : fr) (p : list fr) : list fr := map (fr_mul k) p.

(** The product by [y - c]. *)
Definition plinear (c : fr) (p : list fr) : list fr := padd (pscale (- c) p) (0 :: p).

Lemma peval_padd p q x : peval (padd p q) x = peval p x + peval q x.
Proof.
  revert q. induction p as [|a p IH]; intros [|b q]; cbn; [ring..|]. rewrite IH. ring.
Qed.

Lemma peval_pscale k p x : peval (pscale k p) x = k * peval p x.
Proof. induction p as [|a p IH]; cbn; [ring|]. fold (pscale k p). rewrite IH. ring. Qed.

Lemma peval_plinear c p x : peval (plinear c p) x = (x - c) * peval p x.
Proof. unfold plinear. rewrite peval_padd, peval_pscale. cbn. ring. Qed.

Lemma length_padd p q : length (padd p q) = (length p `max` length q)%nat.
Proof. revert q. induction p as [|a p IH]; intros [|b q]; cbn; [done..|]. by rewrite IH. Qed.

Lemma length_plinear c p : length (plinear c p) = S (length p).
Proof. unfold plinear, pscale. rewrite length_padd, length_map. cbn. lia. Qed.

(** The quotient by [x - a]. *)
Fixpoint pdiv (p : list fr) (a : fr) : list fr :=
  match p with
  | [] => []
  | _ :: p => match p with [] => [] | _ => peval p a :: pdiv p a end
  end.

Lemma pdiv_spec p a x : peval p x = peval p a + (x - a) * peval (pdiv p a) x.
Proof.
  induction p as [|c [|d p] IH]; [cbn; ring..|].
  change (peval (c :: d :: p) x) with (c + x * peval (d :: p) x).
  change (peval (c :: d :: p) a) with (c + a * peval (d :: p) a).
  change (pdiv (c :: d :: p) a) with (peval (d :: p) a :: pdiv (d :: p) a). cbn [peval] in *. rewrite IH. ring.
Qed.

Lemma length_pdiv p a : length (pdiv p a) = pred (length p).
Proof.
  induction p as [|c [|d p] IH]; [done..|].
  change (pdiv (c :: d :: p) a) with (peval (d :: p) a :: pdiv (d :: p) a). cbn [length] in *. by rewrite IH.
Qed.

(** A polynomial with as many roots as coefficients is zero. *)
Lemma proots xs : forall p, NoDup xs -> (length p <= length xs)%nat -> Forall (fun x => peval p x = 0) xs ->
  forall y, peval p y = 0.
Proof.
  induction xs as [|a xs IH]; intros p Hn Hl Hr y; [by destruct p; [|cbn in Hl; lia]|].
  apply NoDup_cons in Hn as [Ha Hn]. apply Forall_cons in Hr as [H0 Hr].
  rewrite (pdiv_spec p a y), H0, (IH (pdiv p a)); [ring|done|rewrite length_pdiv; cbn in Hl; lia|].
  apply Forall_forall. intros b Hb. rewrite Forall_forall in Hr. specialize (Hr b Hb).
  rewrite (pdiv_spec p a b), H0 in Hr. apply (fr_mul_cancel (b - a)).
  - intros E%fr_sub_zero. by subst b.
  - rewrite <- Hr. ring.
Qed.

(** ** Interpolation at zero *)

Definition pbasis (l : list fr) : list fr := foldr plinear [1] l.
Definition psum (l : list (list fr)) : list fr := foldr padd [] l.

Lemma peval_pbasis l y : peval (pbasis l) y = fprod (map (fr_sub y) l).
Proof. induction l as [|c l IH]; cbn [pbasis foldr map fprod]; [cbn; ring|]. fold (pbasis l). by rewrite peval_plinear, IH. Qed.

Lemma length_pbasis l : length (pbasis l) = S (length l).
Proof. induction l as [|c l IH]; [done|]. cbn [pbasis foldr]. fold (pbasis l). by rewrite length_plinear, IH. Qed.

Lemma peval_psum l y : peval (psum l) y = fsum ((fun p => peval p y) <$> l).
Proof. induction l as [|p l IH]; [done|]. cbn [psum foldr]. fold (psum l). by rewrite peval_padd, IH. Qed.

Lemma length_psum l n : Forall (fun p : list fr => (length p <= n)%nat) l -> (length (psum l) <= n)%nat.
Proof. induction 1 as [|p l Hp _ IH]; [cbn; lia|]. cbn [psum foldr]. fold (psum l). rewrite length_padd. lia. Qed.

(** The Lagrange basis at zero, of the point at position [j]. *)
Definition lagrange_weight (xs : list fr) (j : nat) (x : fr) : fr :=
  fprod (map fr_cneg (delete j xs)) * fr_inverse (fprod (map (fr_sub x) (delete j xs))).

Lemma delete_other (xs : list fr) j k x : xs !! k = Some x -> j <> k -> x ∈ delete j xs.
Proof.
  intros Hk Hn. destruct (decide (k < j)%nat) as [Hlt|Hge]; apply list_elem_of_lookup.
  - exists k. by rewrite list_lookup_delete_lt.
  - exists (k - 1)%nat. rewrite list_lookup_delete_ge by lia. by replace (S (k - 1)) with k by lia.
Qed.

Lemma delete_not_elem (xs : list fr) j x : NoDup xs -> xs !! j = Some x -> x ∉ delete j xs.
Proof.
  intros Hn Hj [k Hk]%list_elem_of_lookup. destruct (decide (k < j)%nat) as [Hlt|Hge].
  - rewrite list_lookup_delete_lt in Hk by done. pose proof (NoDup_lookup _ _ _ _ Hn Hj Hk). lia.
  - rewrite list_lookup_delete_ge in Hk by lia. pose proof (NoDup_lookup _ _ _ _ Hn Hj Hk). lia.
Qed.

Lemma differences_nonzero (xs : list fr) j x :
  NoDup xs -> xs !! j = Some x -> fprod (map (fr_sub x) (delete j xs)) <> 0.
Proof.
  intros Hn Hj. apply fprod_nonzero, Forall_map, Forall_forall. intros c Hc E%fr_sub_zero. subst c.
  by apply (delete_not_elem _ _ _ Hn Hj).
Qed.

Lemma lagrange_zero xs p :
  NoDup xs -> (length p <= length xs)%nat ->
  fsum (imap (fun j x => peval p x * lagrange_weight xs j x) xs) = peval p 0.
Proof.
  intros Hn Hl.
  set (term j x := pscale (peval p x * fr_inverse (fprod (map (fr_sub x) (delete j xs)))) (pbasis (delete j xs))).
  set (q := padd (psum (imap term xs)) (pscale (- (1)) p)).
  assert (Hq : forall y, peval q y = fsum (imap (fun j x => peval p x *
    (fr_inverse (fprod (map (fr_sub x) (delete j xs))) * fprod (map (fr_sub y) (delete j xs)))) xs) - peval p y).
  { intros y. unfold q. rewrite peval_padd, peval_psum, peval_pscale, fmap_imap.
    replace (imap _ xs) with (imap (fun j x => peval p x *
      (fr_inverse (fprod (map (fr_sub x) (delete j xs))) * fprod (map (fr_sub y) (delete j xs)))) xs); [ring|].
    apply imap_ext. intros j x _. unfold term, compose. rewrite peval_pscale, peval_pbasis. ring. }
  assert (H0 : peval q 0 = 0).
  { apply (proots xs); [done| |].
    - unfold q. rewrite length_padd. unfold pscale. rewrite length_map. apply Nat.max_lub; [|done]. apply length_psum.
      apply Forall_lookup. intros j t Ht. rewrite list_lookup_imap in Ht. destruct (xs !! j) as [x|] eqn:Ej; [|done].
      injection Ht as <-. unfold term, pscale. rewrite length_map, length_pbasis, length_delete by (by eexists).
      apply lookup_lt_Some in Ej. lia.
    - apply Forall_lookup. intros k y Hk. rewrite Hq, (fsum_single _ xs k y Hk).
      + rewrite fr_inverse_law by (by apply differences_nonzero). ring.
      + intros j x Hj Hne. rewrite (fprod_zero (map (fr_sub y) (delete j xs))); [ring|].
        apply list_elem_of_fmap. exists y. split; [ring|]. by apply (delete_other _ _ k). }
  rewrite Hq in H0. apply fr_sub_zero in H0. rewrite <- H0. f_equal. apply imap_ext. intros j x _.
  unfold lagrange_weight. replace (map (fr_sub 0) (delete j xs)) with (map fr_cneg (delete j xs)); [ring|].
  apply map_ext. intros c. ring.
Qed.

(** ** The coefficients of the code *)

Lemma lagrange_fold (position : nat) (x : fr) l : forall o n d,
  foldl (fun '(numerator, denominator) '(other_position, index) =>
      if (other_position =? position)%nat then (numerator, denominator)
      else (numerator * - fr_from_u64 index, denominator * (x - fr_from_u64 index)))
    (n, d) (imap (fun k i => ((o + k)%nat, i)) l) =
  (let rest := if (position <? o)%nat then map fr_from_u64 l else delete (position - o)%nat (map fr_from_u64 l) in
   (n * fprod (map fr_cneg rest), d * fprod (map (fr_sub x) rest))).
Proof.
  induction l as [|i l IH]; intros o n d.
  - cbn [imap foldl map]. change (delete (position - o)%nat []) with (@nil fr). destruct (position <? o)%nat; cbn; f_equal; ring.
  - cbn [imap foldl]. rewrite Nat.add_0_r.
    replace (imap _ l) with (imap (fun k i => ((S o + k)%nat, i)) l)
      by (apply imap_ext; intros k z _; unfold compose; f_equal; lia).
    destruct (Nat.eqb_spec o position) as [->|Hne]; rewrite IH.
    + replace (position <? S position)%nat with true by (symmetry; apply Nat.ltb_lt; lia).
      rewrite Nat.ltb_irrefl, Nat.sub_diag. done.
    + destruct (Nat.ltb_spec position o), (Nat.ltb_spec position (S o)); try lia; cbn [map fprod].
      * f_equal; ring.
      * replace (position - o)%nat with (S (position - S o)) by lia.
        change (delete (S ?k) (?a :: ?r)) with (a :: delete k r). cbn [map fprod]. f_equal; ring.
Qed.

Lemma lagrange_coefficient_weight position indices sc i :
  indices !! position = Some i ->
  lagrange_coefficient position indices sc =
    scalar_from_fr (fr_from_u64 sc * lagrange_weight (map fr_from_u64 indices) position (fr_from_u64 i)).
Proof.
  intros Hi. unfold lagrange_coefficient. rewrite (nth_lookup_Some _ _ _ _ Hi).
  pose proof (lagrange_fold position (fr_from_u64 i) indices 0 (fr_from_u64 sc) 1) as H.
  replace (imap _ indices) with (imap pair indices) in H by (by apply imap_ext). rewrite H. cbn zeta beta iota.
  replace (position <? 0)%nat with false by done. rewrite Nat.sub_0_r. unfold lagrange_weight. f_equal.
  replace (1 * fprod (map (fr_sub (fr_from_u64 i)) (delete position (map fr_from_u64 indices))))
    with (fprod (map (fr_sub (fr_from_u64 i)) (delete position (map fr_from_u64 indices)))) by ring. ring.
Qed.

Lemma indices_nodup indices : NoDup indices -> Forall (fun i => (i <= 16)%N) indices -> NoDup (map fr_from_u64 indices).
Proof.
  intros Hn Hs. apply NoDup_fmap_2_strong; [|done]. intros a b Ha Hb. rewrite Forall_forall in Hs.
  apply fr_from_u64_small; auto.
Qed.

(** Scaled interpolation of the values of a polynomial at distinct indices. *)
Lemma lagrange_scaled indices p sc :
  NoDup indices -> Forall (fun i => (i <= 16)%N) indices -> (length p <= length indices)%nat ->
  fsum (imap (fun j i => peval p (fr_from_u64 i) *
    (fr_from_u64 sc * lagrange_weight (map fr_from_u64 indices) j (fr_from_u64 i))) indices) =
  fr_from_u64 sc * peval p 0.
Proof.
  intros Hn Hs Hl. rewrite <- (lagrange_zero (map fr_from_u64 indices) p); [|by apply indices_nodup|by rewrite length_map].
  rewrite <- fsum_scale. f_equal. change (map (fr_mul ?k) ?l) with (fr_mul k <$> l). rewrite fmap_imap.
  change (imap ?f (map fr_from_u64 indices)) with (imap f (fr_from_u64 <$> indices)). rewrite imap_fmap. apply imap_ext. intros j i _. unfold compose. ring.
Qed.
End field.

(** ** The groups *)

(** G1 and G2 are cyclic groups of prime order: [at1 P x] says that [P] is [x] times the
    generator of G1, in whatever coordinates. Affine coordinates, and the compressed and
    uncompressed encodings of a point of the group, are unique; the pairing is bilinear and
    does not vanish on the generators. *)
Class GroupLaws (B : Blst) : Type := {
  at1 : p1 -> fr -> Prop;
  at1_unique P x y : at1 P x -> at1 P y -> x = y;
  at1_generator : at1 p1_generator (fr_from_u64 1);
  at1_affine_generator : at1 (p1_from_affine p1_affine_generator) (fr_from_u64 1);
  at1_add P Q x y : at1 P x -> at1 Q y -> at1 (p1_add_or_double P Q) (fr_add x y);
  at1_cneg P x : at1 P x -> at1 (p1_cneg P) (fr_cneg x);
  at1_mult P x k : at1 P x -> at1 (p1_mult P (scalar_from_fr k)) (fr_mul x k);
  at1_mult_bendian P x b : at1 P x -> N_of_be b < SCALAR_MODULUS ->
    at1 (p1_mult P (scalar_from_bendian b)) (fr_mul x (fr_from_scalar (scalar_from_bendian b)));
  at1_to_affine P x : at1 P x -> at1 (p1_from_affine (p1_to_affine P)) x;
  at1_affine a b x : at1 (p1_from_affine a) x -> at1 (p1_from_affine b) x -> a = b;
  p1_affine_in_g1_law a : p1_affine_in_g1 a = true <-> exists x, at1 (p1_from_affine a) x;
  p1_affine_is_inf_law a x : at1 (p1_from_affine a) x -> p1_affine_is_inf a = true <-> x = fr_from_u64 0;
  p1_affine_is_equal_law a b : p1_affine_is_equal a b = true <-> a = b;
  p1_uncompress_law a x : at1 (p1_from_affine a) x -> p1_uncompress (p1_affine_compress a) = Some a;
  p1_deserialize_law P x : at1 P x -> p1_deserialize (p1_serialize P) = Some (p1_to_affine P);
  p1_serialize_unique P Q x : at1 P x -> at1 Q x -> p1_serialize P = p1_serialize Q;
  p1_serialize_length P : length (p1_serialize P) = 96%nat;
  at2 : p2 -> fr -> Prop;
  at2_unique Q x y : at2 Q x -> at2 Q y -> x = y;
  at2_generator : at2 p2_generator (fr_from_u64 1);
  at2_affine_generator : at2 (p2_from_affine p2_affine_generator) (fr_from_u64 1);
  at2_add P Q x y : at2 P x -> at2 Q y -> at2 (p2_add_or_double P Q) (fr_add x y);
  at2_cneg P x : at2 P x -> at2 (p2_cneg P) (fr_cneg x);
  at2_mult P x k : at2 P x -> at2 (p2_mult P (scalar_from_fr k)) (fr_mul x k);
  at2_mult_bendian P x b : at2 P x -> N_of_be b < SCALAR_MODULUS ->
    at2 (p2_mult P (scalar_from_bendian b)) (fr_mul x (fr_from_scalar (scalar_from_bendian b)));
  at2_to_affine P x : at2 P x -> at2 (p2_from_affine (p2_to_affine P)) x;
  at2_affine a b x : at2 (p2_from_affine a) x -> at2 (p2_from_affine b) x -> a = b;
  p2_affine_in_g2_law a : p2_affine_in_g2 a = true <-> exists x, at2 (p2_from_affine a) x;
  p2_affine_is_inf_law a x : at2 (p2_from_affine a) x -> p2_affine_is_inf a = true <-> x = fr_from_u64 0;
  p2_uncompress_law a x : at2 (p2_from_affine a) x -> p2_uncompress (p2_affine_compress a) = Some a;
  p2_deserialize_law P x : at2 P x -> p2_deserialize (p2_serialize P) = Some (p2_to_affine P);
  p2_serialize_length P : length (p2_serialize P) = 192%nat;
  pairing_law q1 q2 a1 a2 y1 y2 x1 x2 :
    at2 (p2_from_affine q1) y1 -> at2 (p2_from_affine q2) y2 ->
    at1 (p1_from_affine a1) x1 -> at1 (p1_from_affine a2) x2 ->
    pairing_is_one [q1; q2] [a1; a2] = true <-> fr_add (fr_mul x1 y1) (fr_mul x2 y2) = fr_from_u64 0;
}.

(** BLS signatures: a key is a point of G1, a signature a point of G2, neither of them at
    infinity; a signature of [m] under the key [x] is [x] times the hash of [m] to G2. The
    sort bit of a compressed point is that of its negation, flipped, and the point at infinity
    has no sort bit. *)
Class SignatureLaws (B : Blst) (G : GroupLaws B) : Type := {
  hash_to_g2 : bytes -> bytes -> fr;
  pk_at : bls_public_key -> fr -> Prop;
  bls_key_validate_law a x : at1 (p1_from_affine a) x ->
    match bls_key_validate (p1_affine_compress a) with
    | Some pk => pk_at pk x /\ x <> fr_from_u64 0
    | None => x = fr_from_u64 0
    end;
  sig_at : bls_signature -> fr -> Prop;
  bls_sig_validate_law a y : at2 (p2_from_affine a) y ->
    match bls_sig_validate (p2_affine_compress a) with
    | Some sg => sig_at sg y /\ y <> fr_from_u64 0
    | None => y = fr_from_u64 0
    end;
  bls_verify_law sg y m dst pk x : sig_at sg y -> pk_at pk x ->
    bls_verify sg m dst pk = true <-> y = fr_mul x (hash_to_g2 m dst);
  sk_sign_law b k m dst : sk_from_bytes b = Some k ->
    exists Q, sig_to_bytes (sk_sign k m dst) = p2_affine_compress (p2_to_affine Q) /\
      at2 Q (fr_mul (fr_from_scalar (scalar_from_bendian b)) (hash_to_g2 m dst));
  negate_point_law Q Q' y : at2 Q y -> at2 Q' (fr_cneg y) -> y <> fr_from_u64 0 ->
    negate_point (p2_affine_compress (p2_to_affine Q)) = p2_affine_compress (p2_to_affine Q');
  negate_infinity_law Q : at2 Q (fr_from_u64 0) ->
    bls_sig_validate (negate_point (p2_affine_compress (p2_to_affine Q))) = None;
}.

Section groups.
Context {B : Blst} {L : FieldLaws B} {G : GroupLaws B}.
Add Ring fr_is_ring' : fr_ring.
Open Scope fr_scope.

Lemma at1_equal P Q x y : at1 P x -> at1 Q y -> p1_to_affine P = p1_to_affine Q <-> x = y.
Proof.
  intros HP HQ. split.
  - intros E. apply at1_to_affine in HP, HQ. rewrite E in HP. by eapply at1_unique.
  - intros ->. apply at1_to_affine in HP, HQ. by eapply at1_affine.
Qed.

Lemma at2_equal P Q x y : at2 P x -> at2 Q y -> p2_to_affine P = p2_to_affine Q <-> x = y.
Proof.
  intros HP HQ. split.
  - intros E. apply at2_to_affine in HP, HQ. rewrite E in HP. by eapply at2_unique.
  - intros ->. apply at2_to_affine in HP, HQ. by eapply at2_affine.
Qed.

Lemma decode_g1_compress P x field : at1 P x -> decode_g1 (compress P) field = Ok (p1_to_affine P).
Proof.
  intros HP. apply at1_to_affine in HP as HP'. unfold decode_g1, compress. rewrite (p1_uncompress_law _ x) by done.
  by rewrite (proj2 (p1_affine_in_g1_law _)) by (by exists x).
Qed.

Lemma decode_g2_compress P x field : at2 P x -> decode_g2 (compress_g2 P) field = Ok (p2_to_affine P).
Proof.
  intros HP. apply at2_to_affine in HP as HP'. unfold decode_g2, compress_g2. rewrite (p2_uncompress_law _ x) by done.
  by rewrite (proj2 (p2_affine_in_g2_law _)) by (by exists x).
Qed.

Lemma decode_g1_at b field a : decode_g1 b field = Ok a -> exists x, at1 (p1_from_affine a) x.
Proof.
  unfold decode_g1. destruct (p1_uncompress b); [|done]. destruct (p1_affine_in_g1 _) eqn:E; [|done].
  intros [= <-]. by apply p1_affine_in_g1_law.
Qed.

Lemma decode_g2_at b field a : decode_g2 b field = Ok a -> exists x, at2 (p2_from_affine a) x.
Proof.
  unfold decode_g2. destruct (p2_uncompress b); [|done]. destruct (p2_affine_in_g2 _) eqn:E; [|done].
  intros [= <-]. by apply p2_affine_in_g2_law.
Qed.

(** ** Interpolation in the groups *)

(** The coefficient of the share at position [j]. *)
Definition weight_at (indices : list N) (sc : N) (j : nat) : fr :=
  fr_from_u64 sc * lagrange_weight (map fr_from_u64 indices) j (fr_from_u64 (nth j indices 0%N)).

Lemma lagrange_coefficient_at indices sc j :
  (j < length indices)%nat -> lagrange_coefficient j indices sc = scalar_from_fr (weight_at indices sc j).
Proof.
  intros Hj. destruct (lookup_lt_is_Some_2 indices j Hj) as [i Hi]. unfold weight_at.
  by rewrite (nth_lookup_Some _ _ _ _ Hi), (lagrange_coefficient_weight _ _ _ _ Hi).
Qed.

Lemma weights_interpolate indices p sc :
  NoDup indices -> Forall (fun i => (i <= 16)%N) indices -> (length p <= length indices)%nat ->
  fsum (imap (fun j i => peval p (fr_from_u64 i) * weight_at indices sc j) indices) = fr_from_u64 sc * peval p 0.
Proof.
  intros Hn Hs Hl. rewrite <- (lagrange_scaled indices p sc Hn Hs Hl). f_equal. apply imap_ext. intros j i Hj.
  unfold weight_at. by rewrite (nth_lookup_Some _ _ _ _ Hj).
Qed.

Lemma foldl_is_Some {A C} (f : option C -> A -> option C) acc l :
  (forall acc x, is_Some (f acc x)) -> l <> [] -> is_Some (foldl f acc l).
Proof.
  intros Hf. revert acc. induction l as [|x [|y l] IH]; intros acc Hl; [done|apply Hf|]. by apply IH.
Qed.

Definition acc2 (acc : option p2) (v : fr) : Prop := match acc with Some P => at2 P v | None => v = 0 end.

Lemma interpolate_fold2 indices sc l ys : Forall2 (fun a y => at2 (p2_from_affine a) y) l ys ->
  forall o acc v, (o + length l <= length indices)%nat -> acc2 acc v ->
  acc2 (foldl (fun aggregated '(position, point) =>
      let lambda := lagrange_coefficient position indices sc in
      let weighted := p2_mult (p2_from_affine point) lambda in
      match aggregated with
      | Some sum => Some (p2_add_or_double sum weighted)
      | None => Some weighted
      end) acc (imap (fun k a => ((o + k)%nat, a)) l))
    (v + fsum (imap (fun k y => y * weight_at indices sc (o + k)) ys)).
Proof.
  induction 1 as [|a y l ys Ha _ IH]; intros o acc v Hl Hacc; cbn [length] in Hl.
  - cbn. replace (v + 0) with v by ring. done.
  - cbn [imap foldl fsum]. rewrite Nat.add_0_r.
    replace (imap _ l) with (imap (fun k a => ((S o + k)%nat, a)) l)
      by (apply imap_ext; intros k z _; unfold compose; f_equal; lia).
    replace (imap _ ys) with (imap (fun k y => y * weight_at indices sc (S o + k)) ys)
      by (apply imap_ext; intros k z _; unfold compose; do 2 f_equal; lia).
    rewrite lagrange_coefficient_at by lia. pose proof (at2_mult _ _ (weight_at indices sc o) Ha) as Hw.
    replace (v + (y * weight_at indices sc o + fsum (imap (fun k y => y * weight_at indices sc (S o + k)) ys)))
      with (v + y * weight_at indices sc o + fsum (imap (fun k y => y * weight_at indices sc (S o + k)) ys)) by ring.
    apply IH; [lia|]. destruct acc as [P|]; cbn in Hacc |- *; [by apply at2_add|].
    subst v. replace (0 + y * weight_at indices sc o) with (y * weight_at indices sc o) by ring. done.
Qed.

Lemma interpolate_signature_at points sc ys :
  points <> [] -> Forall2 (fun p y => at2 (p2_from_affine p.2) y) points ys ->
  exists Q, interpolate_signature_shares points sc = Some (compress_g2 Q) /\
    at2 Q (fsum (imap (fun k y => y * weight_at (map fst points) sc k) ys)).
Proof.
  intros Hne Hys. unfold interpolate_signature_shares.
  assert (H2 : Forall2 (fun a y => at2 (p2_from_affine a) y) (map snd points) ys) by (by apply Forall2_fmap_l).
  pose proof (interpolate_fold2 (map fst points) sc _ _ H2 0 None 0) as H. rewrite !length_map in H.
  specialize (H ltac:(lia) eq_refl). replace (imap _ (map snd points)) with (imap pair (map snd points)) in H by (by apply imap_ext).
  replace (0 + fsum (imap (fun k y => y * weight_at (map fst points) sc (0 + k)) ys))
    with (fsum (imap (fun k y => y * weight_at (map fst points) sc k) ys)) in H by (cbn; ring).
  destruct (foldl_is_Some (fun aggregated '(position, point) =>
      let lambda := lagrange_coefficient position (map fst points) sc in
      let weighted := p2_mult (p2_from_affine point) lambda in
      match aggregated with
      | Some sum => Some (p2_add_or_double sum weighted)
      | None => Some weighted
      end) None (imap pair (map snd points))) as [Q EQ].
  { intros [P|] [k a]; by eexists. }
  { by destruct points. }
  cbn zeta in EQ, H |- *. rewrite EQ in H |- *. by exists Q.
Qed.
End groups.
