(* ===== verification/Dkg.v ===== *)
(** Distributed key generation (crates/neox/antimev/src/dkg.rs): secret polynomials, the
    publicly verifiable secret sharing a dealer announces, the checks every receiver
    makes of it, and the decryption of a share message. *)

From S2P Require Import Prelude Extern Instances Tpke DkgParams Lagrange.

Definition NEOX_DKG_ECIES_MESSAGE_LEN : N := 124.
Definition NEOX_DKG_ECIES_POINT_LEN : N := 64.
Definition NEOX_DKG_ECIES_NONCE_LEN : N := 12.

(** [BLS12_381_SCALAR_MODULUS], as a number. *)
Definition BLS12_381_SCALAR_MODULUS : N := SCALAR_MODULUS.

(** k256, sha3 and aes-gcm, as decrypting a share message uses them. *)
Class Ecies : Type := {
  k256_secret : Type;
  k256_public : Type;
  secret_from_slice : bytes -> option k256_secret;
  (** the uncompressed SEC1 encoding of the public key *)
  secret_public_key : k256_secret -> bytes;
  public_from_sec1_bytes : bytes -> option k256_public;
  (** the x coordinate of the product, absent at infinity *)
  shared_x : k256_public -> k256_secret -> option bytes;
  sha3_256 : bytes -> bytes;
  (** key, nonce and the ciphertext with its tag *)
  aes256_gcm_decrypt : bytes -> bytes -> bytes -> option bytes;
}.

Section dkg.
Context {B : Blst}.

(** ** Scalars *)

(** [DkgSecretScalar]: 32 bytes. *)
Definition secret_new (encoded : bytes) : result DkgMaterialError bytes :=
  if (N_of_be encoded =? 0) || (BLS12_381_SCALAR_MODULUS <=? N_of_be encoded) then Err InvalidScalar
  else Ok encoded.

Definition fr_from_secret (secret : bytes) : fr := fr_from_scalar (scalar_from_bendian secret).

Definition try_secret_from_fr (value : fr) : result DkgMaterialError bytes :=
  secret_new (bendian_from_scalar (scalar_from_fr value)).

(** [DkgSecretScalar::aggregate] *)
Definition secret_aggregate (shares : list bytes) : result DkgMaterialError bytes :=
  match shares with
  | [] => Err EmptyScalarAggregation
  | _ => try_secret_from_fr (foldl (fun result share => fr_add result (fr_from_secret share)) (fr_from_u64 0) shares)
  end.

(** [DkgSecretScalar::random]: what the system's generator answers, one draw a turn. *)
Definition Draws : Type := list (result string bytes).

Fixpoint secret_random (rng : Draws) : result DkgMaterialError (bytes * Draws) :=
  match rng with
  | [] => Err (Entropy "no draw")
  | draw :: rng =>
      let? encoded := map_err Entropy draw in
      match secret_new encoded with
      | Ok scalar => Ok (scalar, rng)
      | Err _ => secret_random rng
      end
  end.

Fixpoint secrets_random (count : nat) (rng : Draws) : result DkgMaterialError (list bytes * Draws) :=
  match count with
  | O => Ok ([], rng)
  | S count =>
      let? (scalar, rng) := secret_random rng in
      let? (scalars, rng) := secrets_random count rng in
      Ok (scalar :: scalars, rng)
  end.

(** ** Points *)

Definition multiply_g1_generator (secret : bytes) : p1 := p1_mult p1_generator (scalar_from_bendian secret).
Definition multiply_g2_generator (secret : bytes) : p2 := p2_mult p2_generator (scalar_from_bendian secret).
Definition multiply_g1_by_fr (point : p1) (k : fr) : p1 := p1_mult point (scalar_from_fr k).

Definition zeros (n : nat) : bytes := repeat x00 n.

(** The coordinates of the uncompressed point, each padded to 64 bytes. *)
Definition encode_g1 (point : p1) : bytes :=
  let raw := p1_serialize point in zeros 16 ++ take 48 raw ++ zeros 16 ++ drop 48 raw.

(** blst writes the two parts of a coordinate in the other order. *)
Definition encode_g2 (point : p2) : bytes :=
  let raw := p2_serialize point in
  zeros 16 ++ slice 48 96 raw ++ zeros 16 ++ take 48 raw ++
  zeros 16 ++ drop 144 raw ++ zeros 16 ++ slice 96 144 raw.

Definition any_nonzero (b : bytes) : bool := existsb (fun b => negb (bool_decide (b = x00))) b.

Definition decode_g1_eip2537 (encoded : bytes) (field : string) : result DkgMaterialError p1_affine :=
  if negb (lenN encoded =? NEOX_DKG_G1_LEN) then Err (InvalidPvssPointLength field (lenN encoded))
  else if any_nonzero (take 16 encoded) || any_nonzero (slice 64 80 encoded) then Err (InvalidPvssPadding field)
  else
    let raw := slice 16 64 encoded ++ slice 80 128 encoded in
    match p1_deserialize raw with
    | None => Err (InvalidPvssG1Point field)
    | Some point =>
        if negb (p1_affine_in_g1 point) || p1_affine_is_inf point then Err (InvalidPvssG1Point field) else Ok point
    end.

Definition decode_g2_eip2537 (encoded : bytes) (field : string) : result DkgMaterialError p2_affine :=
  if negb (lenN encoded =? NEOX_DKG_G2_LEN) then Err (InvalidPvssPointLength field (lenN encoded))
  else if existsb (fun start => any_nonzero (slice start (start + 16) encoded)) [0; 64; 128; 192]%nat
  then Err (InvalidPvssPadding field)
  else
    let raw := slice 80 128 encoded ++ slice 16 64 encoded ++ slice 208 256 encoded ++ slice 144 192 encoded in
    match p2_deserialize raw with
    | None => Err (InvalidPvssG2Point field)
    | Some point =>
        if negb (p2_affine_in_g2 point) || p2_affine_is_inf point then Err (InvalidPvssG2Point field) else Ok point
    end.

(** ** Polynomials *)

(** [None] is the [expect] on an empty list. *)
Definition evaluate_polynomial (coefficients : list bytes) (index : N) : option fr :=
  let x := fr_from_u64 index in
  match rev coefficients with
  | [] => None
  | last :: rest =>
      Some (foldl (fun result coefficient => fr_add (fr_mul result x) (fr_from_secret coefficient)) (fr_from_secret last) rest)
  end.

Definition evaluate_public_polynomial (commitments : list p1_affine) (index : N) : option p1 :=
  let x := fr_from_u64 index in
  match rev commitments with
  | [] => None
  | last :: rest =>
      Some (foldl (fun result commitment => p1_add_or_double (multiply_g1_by_fr result x) (p1_from_affine commitment))
              (p1_from_affine last) rest)
  end.

Record DkgPolynomial : Type := mkDkgPolynomial {
  poly_parameters : DkgParameters;
  coefficients : list bytes;
}.

Definition from_encoded_coefficients_with_parameters (l : list bytes) (parameters : DkgParameters)
    : result DkgMaterialError DkgPolynomial :=
  if negb (lenN l =? threshold parameters) then Err (InvalidParameters (participants parameters) (lenN l))
  else let? l := collect_result secret_new l in Ok (mkDkgPolynomial parameters l).

(** [DkgPolynomial::evaluate] *)
Definition poly_evaluate (p : DkgPolynomial) (index : N) : result DkgMaterialError bytes :=
  if (index <? 1) || (participants (poly_parameters p) <? index) then Err (InvalidParticipantIndex index)
  else
    let? value := ok_or (evaluate_polynomial (coefficients p) index) MaterialPanicked in
    try_secret_from_fr value.

(** [DkgPolynomial::commitment] *)
Definition poly_commitment (p : DkgPolynomial) : bytes :=
  concat (map (fun c => encode_g1 (multiply_g1_generator c)) (coefficients p)).

(** [DkgPolynomial::renovate]; [None] of the first coefficient is the index out of range. *)
Definition poly_renovate (p : DkgPolynomial) (rng : Draws) : result DkgMaterialError DkgPolynomial :=
  let? constant := ok_or (head (coefficients p)) MaterialPanicked in
  let? (rest, _) := secrets_random (N.to_nat (threshold (poly_parameters p)) - 1) rng in
  Ok (mkDkgPolynomial (poly_parameters p) (constant :: rest)).

Definition random_with_parameters (parameters : DkgParameters) (rng : Draws) : result DkgMaterialError DkgPolynomial :=
  let? (l, _) := secrets_random (N.to_nat (threshold parameters)) rng in Ok (mkDkgPolynomial parameters l).

(** ** Secret sharing *)

Record DkgPvssMaterial : Type := mkDkgPvssMaterial {
  material_parameters : DkgParameters;
  material_encoded : bytes;
  material_shares : list bytes;
}.

Definition indices_of (parameters : DkgParameters) : list N :=
  map N.of_nat (seq 1 (N.to_nat (participants parameters))).

Definition generate_pvss_with_randomizer (p : DkgPolynomial) (randomizer : bytes)
    : result DkgMaterialError DkgPvssMaterial :=
  let commitments := poly_commitment p in
  let r2 := p2_cneg (multiply_g2_generator randomizer) in
  let? shares := collect_result (poly_evaluate p) (indices_of (poly_parameters p)) in
  Ok (mkDkgPvssMaterial (poly_parameters p)
        (commitments ++ encode_g1 (multiply_g1_generator randomizer) ++ encode_g2 r2 ++
         concat (map (fun share => encode_g1 (multiply_g1_generator share)) shares))
        shares).

Definition generate_pvss (p : DkgPolynomial) (rng : Draws) : result DkgMaterialError DkgPvssMaterial :=
  let? (randomizer, _) := secret_random rng in generate_pvss_with_randomizer p randomizer.

Record DkgPvss : Type := mkDkgPvss {
  pvss_parameters : DkgParameters;
  commitments : list p1_affine;
  random_commitment_g1 : p1_affine;
  random_commitment_g2 : p2_affine;
  public_shares : list p1_affine;
}.

(** The loops of the decoder: [count] points of 128 bytes each. *)
Fixpoint decode_g1_points (count : nat) (encoded : bytes) (field : string)
    : result DkgMaterialError (list p1_affine * bytes) :=
  match count with
  | O => Ok ([], encoded)
  | S count =>
      let n := N.to_nat NEOX_DKG_G1_LEN in
      let? point := decode_g1_eip2537 (take n encoded) field in
      let? (points, rest) := decode_g1_points count (drop n encoded) field in
      Ok (point :: points, rest)
  end.

Fixpoint verify_public_shares (commitments : list p1_affine) (position : N) (shares : list p1_affine)
    : result DkgMaterialError unit :=
  match shares with
  | [] => Ok tt
  | actual :: rest =>
      let? expected := ok_or (evaluate_public_polynomial commitments (position + 1)) MaterialPanicked in
      if negb (p1_affine_is_equal (p1_to_affine expected) actual) then Err (InvalidPvssPublicShare (position + 1))
      else verify_public_shares commitments (position + 1) rest
  end.

Definition pvss_verify (pvss : DkgPvss) : result DkgMaterialError unit :=
  if negb (pairing_is_one [p2_affine_generator; random_commitment_g2 pvss] [random_commitment_g1 pvss; p1_affine_generator])
  then Err InvalidPvssRandomizer
  else verify_public_shares (commitments pvss) 0 (public_shares pvss).

Definition decode_with_parameters (encoded : bytes) (parameters : DkgParameters) : result DkgMaterialError DkgPvss :=
  if negb (lenN encoded =? pvss_len parameters) then Err (WrongPvssLength (lenN encoded))
  else
    let? (commitments, rest) := decode_g1_points (N.to_nat (threshold parameters)) encoded "polynomial commitment" in
    let n1 := N.to_nat NEOX_DKG_G1_LEN in
    let n2 := N.to_nat NEOX_DKG_G2_LEN in
    let? random_commitment_g1 := decode_g1_eip2537 (take n1 rest) "PVSS G1 randomizer" in
    let rest := drop n1 rest in
    let? random_commitment_g2 := decode_g2_eip2537 (take n2 rest) "PVSS G2 randomizer" in
    let? (public_shares, _) :=
      decode_g1_points (N.to_nat (participants parameters)) (drop n2 rest) "public secret share" in
    let pvss := mkDkgPvss parameters commitments random_commitment_g1 random_commitment_g2 public_shares in
    let? _ := pvss_verify pvss in
    Ok pvss.

(** [DkgPvss::commitment] *)
Definition pvss_commitment (pvss : DkgPvss) : bytes :=
  concat (map (fun c => encode_g1 (p1_from_affine c)) (commitments pvss)).

(** [None] is the index out of range. *)
Definition renovates (pvss previous : DkgPvss) : option bool :=
  a ← head (commitments pvss); b ← head (commitments previous); Some (p1_affine_is_equal a b).

Definition index_valid (parameters : DkgParameters) (index : N) : bool :=
  (1 <=? index) && (index <=? participants parameters).

Definition verify_share (pvss : DkgPvss) (index : N) (share : bytes) : result DkgMaterialError unit :=
  if negb (index_valid (pvss_parameters pvss) index) then Err (InvalidParticipantIndex index)
  else
    let expected := p1_to_affine (multiply_g1_generator share) in
    let? actual := ok_or (public_shares pvss !! N.to_nat (index - 1)) MaterialPanicked in
    if p1_affine_is_equal expected actual then Ok tt else Err (InvalidDecryptedShare index).

(** ** Recovering a constant term *)

Fixpoint validate_recovery (parameters : DkgParameters) (seen : list N) (l : list N) : result DkgMaterialError unit :=
  match l with
  | [] => Ok tt
  | index :: rest =>
      if negb (index_valid parameters index) then Err (InvalidParticipantIndex index)
      else if bool_decide (index ∈ seen) then Err (DuplicateRecoveryShareIndex index)
      else validate_recovery parameters (seen ++ [index]) rest
  end.

Definition recovery_coefficient (position : nat) (indices : list N) : fr :=
  let x_i := fr_from_u64 (nth position indices 0) in
  let '(numerator, denominator) :=
    foldl (fun '(numerator, denominator) '(other_position, index) =>
      if (other_position =? position)%nat then (numerator, denominator)
      else
        let x := fr_from_u64 index in
        (fr_mul numerator (fr_cneg x), fr_mul denominator (fr_sub x_i x)))
      (fr_from_u64 1, fr_from_u64 1) (imap pair indices) in
  fr_mul numerator (fr_inverse denominator).

Definition recover_constant (selected : list (N * bytes)) : fr :=
  foldl (fun constant '(position, share) =>
    fr_add constant (fr_mul (fr_from_secret share) (recovery_coefficient position (map fst selected))))
    (fr_from_u64 0) (imap pair (map snd selected)).

Definition recover_and_renovate_with_parameters (shares : list (N * bytes)) (parameters : DkgParameters) (rng : Draws)
    : result DkgMaterialError DkgPolynomial :=
  if lenN shares <? threshold parameters then Err (InsufficientRecoveryShares (lenN shares))
  else
    let selected := take (N.to_nat (threshold parameters)) shares in
    let? _ := validate_recovery parameters [] (map fst selected) in
    let constant := recover_constant selected in
    let? polynomial := random_with_parameters parameters rng in
    let? secret := try_secret_from_fr constant in
    match coefficients polynomial with
    | [] => Err MaterialPanicked
    | _ :: rest => Ok (mkDkgPolynomial parameters (secret :: rest))
    end.

(** ** Settled keys *)

(** The loop over the contributions: the sum of one point of each. *)
Fixpoint sum_points (parameters : DkgParameters) (select : DkgPvss -> option p1_affine) (pvsses : list bytes)
    (aggregated : option p1) : result DkgMaterialError (option p1) :=
  match pvsses with
  | [] => Ok aggregated
  | encoded :: rest =>
      let? pvss := decode_with_parameters encoded parameters in
      let? point := ok_or (select pvss) MaterialPanicked in
      let point := p1_from_affine point in
      sum_points parameters select rest
        (Some (match aggregated with Some previous => p1_add_or_double previous point | None => point end))
  end.

Definition verify_aggregated_dkg_share_with_parameters (index : N) (private_share : bytes) (pvsses : list bytes)
    (parameters : DkgParameters) : result DkgMaterialError unit :=
  if negb (index_valid parameters index) then Err (InvalidParticipantIndex index)
  else if negb (lenN pvsses =? participants parameters) then Err (InvalidPvssContributionCount (lenN pvsses))
  else
    let? private_share := secret_new private_share in
    let? sum := sum_points parameters (fun pvss => public_shares pvss !! N.to_nat (index - 1)) pvsses None in
    let? aggregated := ok_or sum MaterialPanicked in
    if p1_affine_is_equal (p1_to_affine aggregated) (p1_to_affine (multiply_g1_generator private_share))
    then Ok tt else Err (InvalidAggregatedShare index).

Definition verify_aggregated_dkg_commitment_with_parameters (commitment : bytes) (pvsses : list bytes)
    (parameters : DkgParameters) : result DkgMaterialError unit :=
  if negb (lenN pvsses =? participants parameters) then Err (InvalidPvssContributionCount (lenN pvsses))
  else
    let? sum := sum_points parameters (fun pvss => head (commitments pvss)) pvsses None in
    let? aggregated := ok_or sum MaterialPanicked in
    if bool_decide (encode_g1 aggregated = commitment) then Ok tt else Err InvalidAggregatedCommitment.

(** ** Share messages *)

Definition decrypt_dkg_share_message {Z : Ecies} (message_private_key message : bytes) : result DkgMaterialError bytes :=
  if negb (lenN message =? NEOX_DKG_ECIES_MESSAGE_LEN) then Err (WrongEciesMessageLength (lenN message))
  else
    let? private_key := ok_or (secret_from_slice message_private_key) InvalidMessagePrivateKey in
    let n := N.to_nat NEOX_DKG_ECIES_POINT_LEN in
    let k := (n + N.to_nat NEOX_DKG_ECIES_NONCE_LEN)%nat in
    let? ephemeral := ok_or (public_from_sec1_bytes (x04 :: take n message)) InvalidEciesEphemeralPoint in
    let? x := ok_or (shared_x ephemeral private_key) InvalidEciesEphemeralPoint in
    let key := sha3_256 (x ++ take n message) in
    let? plaintext := ok_or (aes256_gcm_decrypt key (slice n k message) (drop k message)) EciesAuthentication in
    if negb (lenN plaintext =? 32) then Err (InvalidEciesPlaintextLength (lenN plaintext)) else secret_new plaintext.

(** ** Deterministic polynomials *)

(** One turn of the loop for each zero byte appended; [None] when [fuel] turns are not
    enough. Each hash is refused only when it is zero or the modulus. *)
Fixpoint predictable_scalar {Sy : Symmetric} (fuel : nat) (source : bytes) : option bytes :=
  match fuel with
  | O => None
  | S fuel =>
      let candidate := N_of_be (sha256 source) in
      let candidate :=
        if BLS12_381_SCALAR_MODULUS <? candidate then candidate mod BLS12_381_SCALAR_MODULUS else candidate in
      match secret_new (be_bytes 32 candidate) with
      | Ok scalar => Some scalar
      | Err _ => predictable_scalar fuel (source ++ [x00])
      end
  end.

(** [big.Int.Bytes()]: the bytes from the first that is not zero. *)
Fixpoint without_leading_zeros (b : bytes) : bytes :=
  match b with x00 :: b => without_leading_zeros b | _ => b end.

Definition deterministic_with_parameters {Sy : Symmetric} (fuel : nat) (message_private_key : bytes) (chain_id : N)
    (round : N) (parameters : DkgParameters) : result DkgMaterialError DkgPolynomial :=
  if negb (any_nonzero message_private_key) then Err EmptyPrivateSource
  else if chain_id =? 0 then Err EmptyReplayProtection
  else
    let source := without_leading_zeros message_private_key ++ without_leading_zeros (be_bytes 32 chain_id) in
    let? l :=
      collect_result (fun index =>
          ok_or (predictable_scalar fuel (source ++ [byte_of (as_u8 round); byte_of (as_u8 index)])) MaterialPanicked)
        (map N.of_nat (seq 0 (N.to_nat (threshold parameters)))) in
    Ok (mkDkgPolynomial parameters l).
(** ** The canonical committee *)

Definition deterministic {Sy : Symmetric} (fuel : nat) (message_private_key : bytes) (chain_id round : N)
    : result DkgMaterialError DkgPolynomial :=
  deterministic_with_parameters fuel message_private_key chain_id round canonical.

Definition recover_and_renovate (shares : list (N * bytes)) (rng : Draws) : result DkgMaterialError DkgPolynomial :=
  recover_and_renovate_with_parameters shares canonical rng.

(** [DkgPvss::decode] *)
Definition pvss_decode (encoded : bytes) : result DkgMaterialError DkgPvss := decode_with_parameters encoded canonical.

Definition verify_aggregated_dkg_share (index : N) (private_share : bytes) (pvsses : list bytes) : result DkgMaterialError unit :=
  verify_aggregated_dkg_share_with_parameters index private_share pvsses canonical.

Definition verify_aggregated_dkg_commitment (commitment : bytes) (pvsses : list bytes) : result DkgMaterialError unit :=
  verify_aggregated_dkg_commitment_with_parameters commitment pvsses canonical.
End dkg.

(** ** Encodings *)

Section facts.
Context {B : Blst} {L : FieldLaws B} {G : GroupLaws B}.
Add Ring fr_is_ring : fr_ring.
Open Scope fr_scope.

Lemma secret_new_Ok b s : secret_new b = Ok s <-> s = b /\ (0 < N_of_be b < BLS12_381_SCALAR_MODULUS)%N.
Proof.
  unfold secret_new. destruct (N.eqb_spec (N_of_be b) 0); cbn [orb]; [split; [done|intros (_ & ?); lia]|].
  destruct (N.leb_spec BLS12_381_SCALAR_MODULUS (N_of_be b)); [split; [done|intros (_ & ?); lia]|].
  split; [intros [= <-]; split; [done|lia]|by intros [-> _]].
Qed.

Lemma fr_from_secret_nonzero s : secret_new s = Ok s -> fr_from_secret s <> 0.
Proof. intros [_ Hs]%secret_new_Ok. unfold fr_from_secret. rewrite scalar_zero_law by apply Hs. lia. Qed.

Lemma try_secret_Ok v s : try_secret_from_fr v = Ok s ->
  secret_new s = Ok s /\ fr_from_secret s = v /\ v <> 0.
Proof.
  unfold try_secret_from_fr. intros [-> Hs]%secret_new_Ok.
  assert (Hn : secret_new (bendian_from_scalar (scalar_from_fr v)) = Ok (bendian_from_scalar (scalar_from_fr v)))
    by (by apply secret_new_Ok).
  split_and!; [done|apply scalar_bendian_law|]. rewrite <- (scalar_bendian_law v). by apply fr_from_secret_nonzero.
Qed.

Lemma try_secret_total v : v <> 0 -> exists s, try_secret_from_fr v = Ok s.
Proof.
  intros Hv. exists (bendian_from_scalar (scalar_from_fr v)). apply secret_new_Ok. split; [done|].
  pose proof (scalar_canonical_law v). split; [|done]. apply N.neq_0_lt_0. intros E. apply Hv.
  rewrite <- (scalar_bendian_law v). by apply scalar_zero_law.
Qed.

Lemma at1_secret s : secret_new s = Ok s -> at1 (multiply_g1_generator s) (fr_from_secret s).
Proof.
  intros [_ Hs]%secret_new_Ok. unfold multiply_g1_generator.
  replace (fr_from_secret s) with (1 * fr_from_secret s) by ring. apply at1_mult_bendian; [apply at1_generator|apply Hs].
Qed.

Lemma at2_secret s : secret_new s = Ok s -> at2 (multiply_g2_generator s) (fr_from_secret s).
Proof.
  intros [_ Hs]%secret_new_Ok. unfold multiply_g2_generator.
  replace (fr_from_secret s) with (1 * fr_from_secret s) by ring. apply at2_mult_bendian; [apply at2_generator|apply Hs].
Qed.

Lemma zeros_nonzero n : any_nonzero (zeros n) = false.
Proof. induction n as [|n IH]; [done|]. cbn. exact IH. Qed.

(** A part of a concatenation of parts of known lengths. *)
Ltac slice_parts :=
  match goal with
  | |- slice 0 _ _ = _ => first [by apply slice_app_here | by apply slice_all]
  | |- slice _ _ (?l ++ _) = _ =>
      rewrite (slice_app_after _ _ l) by (cbn; lia);
      first [match goal with H : length l = _ |- _ => rewrite H end | idtac];
      cbn [zeros repeat length Nat.sub]; slice_parts
  end.

Lemma padded2 a b e :
  length a = 48%nat -> length b = 48%nat -> e = zeros 16 ++ a ++ zeros 16 ++ b ->
  any_nonzero (take 16 e) || any_nonzero (slice 64 80 e) = false /\ slice 16 64 e ++ slice 80 128 e = a ++ b.
Proof.
  intros Ha Hb ->. rewrite take_app_length' by done.
  assert (E1 : slice 64 80 (zeros 16 ++ a ++ zeros 16 ++ b) = zeros 16) by slice_parts.
  assert (E2 : slice 16 64 (zeros 16 ++ a ++ zeros 16 ++ b) = a) by slice_parts.
  assert (E3 : slice 80 128 (zeros 16 ++ a ++ zeros 16 ++ b) = b) by slice_parts.
  by rewrite E1, E2, E3, zeros_nonzero.
Qed.

Lemma padded4 a b c d e :
  length a = 48%nat -> length b = 48%nat -> length c = 48%nat -> length d = 48%nat ->
  e = zeros 16 ++ b ++ zeros 16 ++ a ++ zeros 16 ++ d ++ zeros 16 ++ c ->
  existsb (fun start => any_nonzero (slice start (start + 16) e)) [0; 64; 128; 192]%nat = false /\
  slice 80 128 e ++ slice 16 64 e ++ slice 208 256 e ++ slice 144 192 e = a ++ b ++ c ++ d.
Proof.
  intros Ha Hb Hc Hd ->. cbn [existsb Nat.add].
  set (e := zeros 16 ++ b ++ zeros 16 ++ a ++ zeros 16 ++ d ++ zeros 16 ++ c).
  assert (E0 : slice 0 16 e = zeros 16) by (unfold e; slice_parts).
  assert (E1 : slice 64 80 e = zeros 16) by (unfold e; slice_parts).
  assert (E2 : slice 128 144 e = zeros 16) by (unfold e; slice_parts).
  assert (E3 : slice 192 208 e = zeros 16) by (unfold e; slice_parts).
  assert (Ea : slice 80 128 e = a) by (unfold e; slice_parts).
  assert (Eb : slice 16 64 e = b) by (unfold e; slice_parts).
  assert (Ec : slice 208 256 e = c) by (unfold e; slice_parts).
  assert (Ed : slice 144 192 e = d) by (unfold e; slice_parts).
  by rewrite E0, E1, E2, E3, Ea, Eb, Ec, Ed, zeros_nonzero.
Qed.

Lemma encode_g1_length P : length (encode_g1 P) = N.to_nat NEOX_DKG_G1_LEN.
Proof.
  unfold encode_g1, zeros. rewrite !length_app, !repeat_length, length_take, length_drop, p1_serialize_length. done.
Qed.

Lemma encode_g2_length P : length (encode_g2 P) = N.to_nat NEOX_DKG_G2_LEN.
Proof.
  unfold encode_g2, zeros. pose proof (p2_serialize_length P).
  rewrite !length_app, !repeat_length, !slice_length, length_take, length_drop by lia. rewrite p2_serialize_length. done.
Qed.

Lemma decode_encode_g1 P x field :
  at1 P x -> x <> 0 -> decode_g1_eip2537 (encode_g1 P) field = Ok (p1_to_affine P).
Proof.
  intros HP Hx. unfold decode_g1_eip2537, lenN. rewrite encode_g1_length.
  replace (negb _) with false by done. pose proof (p1_serialize_length P) as Hlen.
  destruct (padded2 (take 48 (p1_serialize P)) (drop 48 (p1_serialize P)) (encode_g1 P)) as [-> ->];
    [rewrite length_take; lia|rewrite length_drop; lia|done|].
  apply at1_to_affine in HP as HP'. rewrite take_drop, (p1_deserialize_law _ _ HP).
  rewrite (proj2 (p1_affine_in_g1_law _)) by (by exists x). cbn [negb orb].
  destruct (p1_affine_is_inf _) eqn:Ei; [|done]. by apply (p1_affine_is_inf_law _ _ HP') in Ei.
Qed.

Lemma decode_encode_g2 P x field :
  at2 P x -> x <> 0 -> decode_g2_eip2537 (encode_g2 P) field = Ok (p2_to_affine P).
Proof.
  intros HP Hx. unfold decode_g2_eip2537, lenN. rewrite encode_g2_length.
  replace (negb _) with false by done. set (raw := p2_serialize P). pose proof (p2_serialize_length P : length raw = 192%nat) as Hlen.
  destruct (padded4 (take 48 raw) (slice 48 96 raw) (slice 96 144 raw) (drop 144 raw) (encode_g2 P)) as [-> ->];
    [rewrite length_take; lia|rewrite slice_length; lia..|rewrite length_drop; lia|done|].
  replace (take 48 raw ++ slice 48 96 raw ++ slice 96 144 raw ++ drop 144 raw) with raw.
  2: { unfold slice. cbn [Nat.sub]. rewrite <- (take_drop 48 raw) at 1. f_equal.
       rewrite <- (take_drop 48 (drop 48 raw)) at 1. f_equal. rewrite drop_drop. cbn [Nat.add].
       rewrite <- (take_drop 48 (drop 96 raw)) at 1. f_equal. by rewrite drop_drop. }
  apply at2_to_affine in HP as HP'. unfold raw. rewrite (p2_deserialize_law _ _ HP).
  rewrite (proj2 (p2_affine_in_g2_law _)) by (by exists x). cbn [negb orb].
  destruct (p2_affine_is_inf _) eqn:Ei; [|done]. by apply (p2_affine_is_inf_law _ _ HP') in Ei.
Qed.

Lemma decode_eip2537_at e field a :
  decode_g1_eip2537 e field = Ok a -> exists x, at1 (p1_from_affine a) x /\ x <> 0.
Proof.
  unfold decode_g1_eip2537. repeat case_match; try done. intros [= <-].
  apply orb_false_iff in H2 as [H2 Hi]. apply negb_false_iff, p1_affine_in_g1_law in H2 as [x Hx].
  exists x. split; [done|]. intros ->. by rewrite (proj2 (p1_affine_is_inf_law _ _ Hx)) in Hi.
Qed.

Lemma decode_g1_points_encoded Ps : forall rest field,
  Forall (fun P => exists x, at1 P x /\ x <> 0) Ps ->
  decode_g1_points (length Ps) (concat (map encode_g1 Ps) ++ rest) field = Ok (map p1_to_affine Ps, rest).
Proof.
  induction Ps as [|P Ps IH]; intros rest field HP; [done|]. apply Forall_cons in HP as [(x & Hx & Hn) HP].
  cbn [length decode_g1_points map concat]. rewrite <- app_assoc.
  rewrite take_app_length' by (symmetry; apply encode_g1_length). rewrite drop_app_length' by (symmetry; apply encode_g1_length).
  rewrite (decode_encode_g1 _ _ _ Hx Hn). cbn [result_bind]. by rewrite IH.
Qed.

Lemma decode_g1_points_Ok n : forall e field points rest, decode_g1_points n e field = Ok (points, rest) ->
  length points = n /\ Forall (fun a => exists x, at1 (p1_from_affine a) x /\ x <> 0) points.
Proof.
  induction n as [|n IH]; intros e field points rest H; cbn [decode_g1_points] in H; [by injection H as <- _|].
  apply result_bind_Ok in H as (a & Ha & H). apply result_bind_Ok in H as ([points' rest'] & H' & [= <- _]).
  apply IH in H' as [Hl Hf]. cbn. split; [by rewrite Hl|]. constructor; [|done]. by eapply decode_eip2537_at.
Qed.

(** ** Evaluation *)

Lemma evaluate_fold cs x : forall v,
  foldl (fun result coefficient => result * x + fr_from_secret coefficient) v (rev cs) =
  peval (map fr_from_secret cs ++ [v]) x.
Proof.
  induction cs as [|c cs IH]; intros v; cbn [rev map app peval]; [cbn; ring|].
  rewrite foldl_app. cbn [foldl]. rewrite IH. ring.
Qed.

Lemma rev_last {A} (l : list A) z k : rev l = z :: k -> l = rev k ++ [z].
Proof. intros H. rewrite <- (rev_involutive l), H. done. Qed.

Lemma evaluate_polynomial_spec cs i :
  cs <> [] -> evaluate_polynomial cs i = Some (peval (map fr_from_secret cs) (fr_from_u64 i)).
Proof.
  intros Hn. unfold evaluate_polynomial. destruct (rev cs) as [|z k] eqn:E.
  - by apply (f_equal (@rev _)) in E; rewrite rev_involutive in E.
  - apply rev_last in E as ->. rewrite map_app. cbn [map]. rewrite <- evaluate_fold. by rewrite rev_involutive.
Qed.

Lemma public_fold cs xs x : Forall2 (fun c y => at1 (p1_from_affine c) y) cs xs -> forall P v, at1 P v ->
  at1 (foldl (fun result commitment => p1_add_or_double (multiply_g1_by_fr result x) (p1_from_affine commitment))
         P (rev cs)) (peval (xs ++ [v]) x).
Proof.
  induction 1 as [|c y cs xs Hc _ IH]; intros P v HP; cbn [rev app peval].
  - cbn. by replace (v + x * 0) with v by ring.
  - rewrite foldl_app. cbn [foldl]. replace (y + x * peval (xs ++ [v]) x) with (peval (xs ++ [v]) x * x + y) by ring.
    apply at1_add; [|done]. apply at1_mult, IH, HP.
Qed.

Lemma evaluate_public_spec cs xs i :
  cs <> [] -> Forall2 (fun c y => at1 (p1_from_affine c) y) cs xs ->
  exists P, evaluate_public_polynomial cs i = Some P /\ at1 P (peval xs (fr_from_u64 i)).
Proof.
  intros Hn H. unfold evaluate_public_polynomial. destruct (rev cs) as [|z k] eqn:E.
  - by apply (f_equal (@rev _)) in E; rewrite rev_involutive in E.
  - apply rev_last in E as ->. apply Forall2_app_inv_l in H as (ys & zs & H1 & H2 & ->).
    apply Forall2_cons_inv_l in H2 as (y & ? & Hy & H2 & ->). apply Forall2_nil_inv_l in H2 as ->.
    eexists. split; [reflexivity|]. pose proof (public_fold _ _ (fr_from_u64 i) H1 _ _ Hy) as H. by rewrite rev_involutive in H.
Qed.
End facts.
