(* ===== verification/Pvss.v ===== *)
(** What the secret sharing of crates/neox/antimev/src/dkg.rs promises: a dealer's own
    announcement passes every receiver's checks, shares that pass them determine the
    dealer's constant term, and a recovered polynomial renovates the lost one. *)

From S2P Require Import Prelude Extern Instances Tpke DkgParams Lagrange Dkg.

Section pvss.
Context {B : Blst} {L : FieldLaws B} {G : GroupLaws B}.
Add Ring fr_is_ring : fr_ring.
Open Scope fr_scope.

(** A scalar the constructor accepts. *)
Definition valid_secret (s : bytes) : Prop := secret_new s = Ok s.

(** ** The points of an announcement *)

Lemma secret_points cs :
  Forall valid_secret cs -> Forall (fun P => exists x, at1 P x /\ x <> 0) (map multiply_g1_generator cs).
Proof.
  intros H. apply Forall_map. eapply Forall_impl; [exact H|]. intros s Hs. cbn.
  exists (fr_from_secret s). split; [by apply at1_secret|by apply fr_from_secret_nonzero].
Qed.

Lemma secret_points_at cs : Forall valid_secret cs ->
  Forall2 (fun a x => at1 (p1_from_affine a) x) (map p1_to_affine (map multiply_g1_generator cs)) (map fr_from_secret cs).
Proof.
  induction 1 as [|s cs Hs _ IH]; cbn; constructor; [|done]. by apply at1_to_affine, at1_secret.
Qed.

(** Shares that are the values of a polynomial at the next indices. *)
Definition shares_of (cs : list bytes) (position : N) (shares : list bytes) : Prop :=
  forall i s, shares !! i = Some s ->
    valid_secret s /\ fr_from_secret s = peval (map fr_from_secret cs) (fr_from_u64 (position + N.of_nat i + 1)).

Lemma shares_of_cons cs position s shares :
  shares_of cs position (s :: shares) -> shares_of cs (position + 1) shares.
Proof. intros H i z Hi. specialize (H (S i) z Hi). by replace (position + 1 + N.of_nat i + 1)%N with (position + N.of_nat (S i) + 1)%N by lia. Qed.

Lemma points_nonempty cs : cs <> [] -> map p1_to_affine (map multiply_g1_generator cs) <> [].
Proof. by destruct cs. Qed.

Lemma verify_shares_of cs shares : cs <> [] -> Forall valid_secret cs -> forall position,
  shares_of cs position shares ->
  verify_public_shares (map p1_to_affine (map multiply_g1_generator cs)) position
    (map p1_to_affine (map multiply_g1_generator shares)) = Ok tt.
Proof.
  intros Hne Hcs. induction shares as [|s shares IH]; intros position Hs; [done|]. cbn [map verify_public_shares].
  destruct (evaluate_public_spec _ _ (position + 1) (points_nonempty cs Hne) (secret_points_at cs Hcs)) as (P & -> & HP).
  cbn [ok_or result_bind]. destruct (Hs 0%nat s eq_refl) as [Hc Hv]. rewrite N.add_0_r in Hv.
  rewrite (proj2 (p1_affine_is_equal_law _ _)).
  - cbn [negb]. by apply IH, (shares_of_cons _ _ s).
  - apply (at1_equal _ _ _ _ HP (at1_secret s Hc)). done.
Qed.

Lemma poly_evaluate_Ok p i s : coefficients p <> [] -> poly_evaluate p i = Ok s ->
  valid_secret s /\ fr_from_secret s = peval (map fr_from_secret (coefficients p)) (fr_from_u64 i).
Proof.
  intros Hn H. unfold poly_evaluate in H. destruct (_ || _); [done|].
  rewrite evaluate_polynomial_spec in H by done. cbn [ok_or result_bind] in H.
  apply try_secret_Ok in H as (Hs & Hv & Hz). by split.
Qed.

Lemma indices_lookup d i k : indices_of d !! i = Some k -> k = (N.of_nat i + 1)%N /\ (1 <= k <= participants d)%N.
Proof.
  unfold indices_of. change (map N.of_nat ?l) with (N.of_nat <$> l). rewrite list_lookup_fmap. intros Hk.
  destruct (seq 1 _ !! i) as [j|] eqn:Ej; [|done]. injection Hk as <-. apply lookup_seq in Ej. lia.
Qed.

Lemma generated_shares p shares : coefficients p <> [] ->
  collect_result (poly_evaluate p) (indices_of (poly_parameters p)) = Ok shares ->
  length shares = N.to_nat (participants (poly_parameters p)) /\ shares_of (coefficients p) 0 shares.
Proof.
  intros Hn H%collect_result_Ok. split.
  - apply Forall2_length in H. rewrite <- H. unfold indices_of. by rewrite length_map, length_seq.
  - intros i s Hs. destruct (Forall2_lookup_r _ _ _ _ _ H Hs) as (k & Hk & Hv). apply indices_lookup in Hk as [-> _].
    rewrite N.add_0_l. by apply poly_evaluate_Ok.
Qed.

Lemma shares_of_secrets cs position shares : shares_of cs position shares -> Forall valid_secret shares.
Proof. intros H. apply Forall_lookup. intros i s Hs. by apply (H i s). Qed.

Lemma concat_encode_length Ps : length (concat (map encode_g1 Ps)) = (128 * length Ps)%nat.
Proof. induction Ps as [|P Ps IH]; [done|]. cbn [map concat length]. rewrite length_app, IH, encode_g1_length. change (N.to_nat NEOX_DKG_G1_LEN) with 128%nat. lia. Qed.

(** The dealer's announcement, as points. *)
Definition announced (cs shares : list bytes) (randomizer : bytes) : bytes :=
  concat (map encode_g1 (map multiply_g1_generator cs)) ++ encode_g1 (multiply_g1_generator randomizer) ++
  encode_g2 (p2_cneg (multiply_g2_generator randomizer)) ++ concat (map encode_g1 (map multiply_g1_generator shares)).

Lemma generate_announced p r m : generate_pvss_with_randomizer p r = Ok m ->
  exists shares, collect_result (poly_evaluate p) (indices_of (poly_parameters p)) = Ok shares /\
    m = mkDkgPvssMaterial (poly_parameters p) (announced (coefficients p) shares r) shares.
Proof.
  unfold generate_pvss_with_randomizer. intros (shares & Hs & [= <-])%result_bind_Ok. exists shares. split; [done|].
  unfold announced, poly_commitment. by rewrite !map_map.
Qed.

Lemma announced_length d cs shares r :
  length cs = N.to_nat (threshold d) -> length shares = N.to_nat (participants d) ->
  lenN (announced cs shares r) = pvss_len d.
Proof.
  intros Hc Hs. unfold announced, lenN, pvss_len. rewrite !length_app, !concat_encode_length, encode_g1_length, encode_g2_length.
  rewrite !length_map, Hc, Hs. unfold NEOX_DKG_G1_LEN, NEOX_DKG_G2_LEN. lia.
Qed.

Definition opened_pvss (d : DkgParameters) (cs shares : list bytes) (r : bytes) : DkgPvss :=
  mkDkgPvss d (map p1_to_affine (map multiply_g1_generator cs)) (p1_to_affine (multiply_g1_generator r))
    (p2_to_affine (p2_cneg (multiply_g2_generator r))) (map p1_to_affine (map multiply_g1_generator shares)).

Lemma randomizer_checked r : valid_secret r ->
  pairing_is_one [p2_affine_generator; p2_to_affine (p2_cneg (multiply_g2_generator r))]
    [p1_to_affine (multiply_g1_generator r); p1_affine_generator] = true.
Proof.
  intros Hr. apply (pairing_law _ _ _ _ 1 (- fr_from_secret r) (fr_from_secret r) 1).
  - apply at2_affine_generator.
  - apply at2_to_affine, at2_cneg. by apply at2_secret.
  - by apply at1_to_affine, at1_secret.
  - apply at1_affine_generator.
  - ring.
Qed.

Lemma decode_announced d cs shares r :
  cs <> [] -> length cs = N.to_nat (threshold d) -> length shares = N.to_nat (participants d) ->
  Forall valid_secret cs -> shares_of cs 0 shares -> valid_secret r ->
  decode_with_parameters (announced cs shares r) d = Ok (opened_pvss d cs shares r).
Proof.
  intros Hne Hc Hs Hcs Hsh Hr. unfold decode_with_parameters. rewrite (announced_length d) by done.
  rewrite N.eqb_refl. cbn [negb]. unfold announced.
  pose proof (decode_g1_points_encoded _ (encode_g1 (multiply_g1_generator r) ++
    encode_g2 (p2_cneg (multiply_g2_generator r)) ++ concat (map encode_g1 (map multiply_g1_generator shares)))
    "polynomial commitment" (secret_points cs Hcs)) as E1.
  rewrite length_map, Hc in E1. rewrite E1. cbn [result_bind].
  rewrite take_app_length', drop_app_length' by (symmetry; apply encode_g1_length).
  rewrite (decode_encode_g1 _ _ _ (at1_secret r Hr)) by (by apply fr_from_secret_nonzero). cbn [result_bind].
  rewrite take_app_length', drop_app_length' by (symmetry; apply encode_g2_length).
  rewrite (decode_encode_g2 _ _ _ (at2_cneg _ _ (at2_secret r Hr)))
    by (intros E%fr_neg_zero; by apply (fr_from_secret_nonzero r)). cbn [result_bind].
  pose proof (decode_g1_points_encoded _ [] "public secret share" (secret_points _ (shares_of_secrets _ _ _ Hsh))) as E2.
  rewrite length_map, Hs, app_nil_r in E2. rewrite E2. cbn [result_bind]. unfold pvss_verify. cbn.
  rewrite randomizer_checked by done. cbn [negb]. by rewrite verify_shares_of.
Qed.

(** ** A dealer's announcement *)

Lemma threshold_positive n d : dkg_parameters_new n = Ok d -> (1 <= threshold d <= participants d /\ participants d <= 16)%N.
Proof.
  intros (Hn & -> & -> & _)%dkg_parameters_Ok.
  assert ((n - 1) / 3 <= n - 1)%N by (apply N.Div0.div_le_upper_bound; lia).
  generalize dependent ((n - 1) / 3)%N. lia.
Qed.

(** What every constructor of a polynomial establishes. *)
Definition valid_polynomial (d : DkgParameters) (p : DkgPolynomial) : Prop :=
  poly_parameters p = d /\ length (coefficients p) = N.to_nat (threshold d) /\ Forall valid_secret (coefficients p).

Lemma secret_new_valid b s : secret_new b = Ok s -> valid_secret s.
Proof. intros H. apply secret_new_Ok in H as H'. destruct H' as [-> _]. exact H. Qed.

Lemma constructed_poly l d p : from_encoded_coefficients_with_parameters l d = Ok p -> valid_polynomial d p.
Proof.
  unfold from_encoded_coefficients_with_parameters. destruct (N.eqb_spec (lenN l) (threshold d)); [|done]. cbn [negb].
  intros (cs & Hcs & [= <-])%result_bind_Ok. apply collect_result_Ok in Hcs. split_and!; [done| |]; cbn.
  - apply Forall2_length in Hcs. unfold lenN in *. lia.
  - apply Forall_lookup. intros i s Hs. destruct (Forall2_lookup_r _ _ _ _ _ Hcs Hs) as (b & _ & Hb). by apply secret_new_valid in Hb.
Qed.

Lemma predictable_valid {Sy : Symmetric} fuel : forall source s, predictable_scalar fuel source = Some s -> valid_secret s.
Proof.
  induction fuel as [|fuel IH]; intros source s H; [done|]. cbn [predictable_scalar] in H. cbv zeta in H.
  match type of H with match ?r with _ => _ end = _ => destruct r as [s'|] eqn:E end; [|by eapply IH].
  injection H as <-. by apply secret_new_valid in E.
Qed.

Lemma deterministic_poly {Sy : Symmetric} fuel private_key chain_id round d p :
  deterministic_with_parameters fuel private_key chain_id round d = Ok p -> valid_polynomial d p.
Proof.
  unfold deterministic_with_parameters. destruct (negb _); [done|]. destruct (_ =? 0)%N; [done|].
  intros (cs & Hcs & [= <-])%result_bind_Ok. apply collect_result_Ok in Hcs. split_and!; [done| |]; cbn.
  - apply Forall2_length in Hcs. rewrite <- Hcs, length_map, length_seq. done.
  - apply Forall_lookup. intros i s Hs. destruct (Forall2_lookup_r _ _ _ _ _ Hcs Hs) as (b & _ & Hb).
    apply ok_or_Ok in Hb. by apply predictable_valid in Hb.
Qed.

(** The values at the participants' indices are not zero. *)
Definition shares_nonzero (p : DkgPolynomial) : Prop :=
  Forall (fun i => peval (map fr_from_secret (coefficients p)) (fr_from_u64 i) <> 0) (indices_of (poly_parameters p)).

Lemma evaluate_total p : coefficients p <> [] -> shares_nonzero p ->
  exists shares, collect_result (poly_evaluate p) (indices_of (poly_parameters p)) = Ok shares.
Proof.
  intros Hn Hz. apply collect_result_total. intros i [k Hk]%list_elem_of_lookup. unfold shares_nonzero in Hz.
  rewrite Forall_lookup in Hz. specialize (Hz k i Hk). apply indices_lookup in Hk as [_ Hk]. unfold poly_evaluate.
  destruct (N.ltb_spec i 1), (N.ltb_spec (participants (poly_parameters p)) i); try lia. cbn [orb].
  rewrite evaluate_polynomial_spec by done. cbn [ok_or result_bind]. by apply try_secret_total.
Qed.

(** What any announcement of a polynomial decodes to. *)
Lemma generate_decodes p r m :
  coefficients p <> [] -> length (coefficients p) = N.to_nat (threshold (poly_parameters p)) ->
  Forall valid_secret (coefficients p) -> valid_secret r -> generate_pvss_with_randomizer p r = Ok m ->
  decode_with_parameters (material_encoded m) (poly_parameters p) =
    Ok (opened_pvss (poly_parameters p) (coefficients p) (material_shares m) r) /\
  length (material_shares m) = N.to_nat (participants (poly_parameters p)) /\
  shares_of (coefficients p) 0 (material_shares m).
Proof.
  intros Hne Hl Hcs Hr H. apply generate_announced in H as (shares & Hs & ->). cbn.
  destruct (generated_shares p shares Hne Hs) as [Hn Hsh]. split_and!; [|done..]. by apply decode_announced.
Qed.

Lemma opened_commitment d cs shares r : Forall valid_secret cs ->
  pvss_commitment (opened_pvss d cs shares r) = concat (map (fun c => encode_g1 (multiply_g1_generator c)) cs).
Proof.
  intros Hcs. unfold pvss_commitment. cbn. rewrite !map_map. f_equal. apply map_ext_in. intros c Hc%list_elem_of_In.
  rewrite Forall_forall in Hcs. specialize (Hcs c Hc). unfold encode_g1.
  rewrite (p1_serialize_unique _ (multiply_g1_generator c) (fr_from_secret c)); [done| |by apply at1_secret].
  by apply at1_to_affine, at1_secret.
Qed.

Lemma opened_verify_share d cs shares r i s :
  length shares = N.to_nat (participants d) -> shares !! i = Some s ->
  verify_share (opened_pvss d cs shares r) (N.of_nat i + 1) s = Ok tt.
Proof.
  intros Hn Hs. unfold verify_share, index_valid. cbn. apply lookup_lt_Some in Hs as Hlt.
  rewrite (proj2 (N.leb_le 1 _)), (proj2 (N.leb_le _ (participants d))) by lia. cbn [andb negb].
  replace (N.to_nat (N.of_nat i + 1 - 1)) with i by lia.
  change (map p1_to_affine (map multiply_g1_generator shares)) with (p1_to_affine <$> (multiply_g1_generator <$> shares)).
  rewrite !list_lookup_fmap, Hs. cbn. by rewrite (proj2 (p1_affine_is_equal_law _ _)).
Qed.

(** A polynomial with valid coefficients, no participant's share of which is zero, is announced, the announcement
    passes a receiver's decoding with the polynomial's own commitment, and every
    participant's share passes the check against it. *)
Theorem pvss_complete n d p r :
  dkg_parameters_new n = Ok d -> valid_polynomial d p ->
  secret_new r = Ok r -> shares_nonzero p ->
  exists m pvss, generate_pvss_with_randomizer p r = Ok m /\
    decode_with_parameters (material_encoded m) d = Ok pvss /\ pvss_commitment pvss = poly_commitment p /\
    lenN (material_shares m) = participants d /\
    forall i s, material_shares m !! i = Some s -> verify_share pvss (N.of_nat i + 1) s = Ok tt.
Proof.
  intros Hd (<- & Hl & Hcs) Hr Hz.
  assert (Hne : coefficients p <> []).
  { apply threshold_positive in Hd. intros E. rewrite E in Hl. cbn in Hl. lia. }
  destruct (evaluate_total p Hne Hz) as [shares Hs]. eexists. eexists.
  assert (Hm : generate_pvss_with_randomizer p r = Ok (mkDkgPvssMaterial (poly_parameters p) (announced (coefficients p) shares r) shares)).
  { unfold generate_pvss_with_randomizer. rewrite Hs. cbn [result_bind]. unfold announced, poly_commitment. by rewrite !map_map. }
  split; [exact Hm|]. destruct (generate_decodes p r _ Hne Hl Hcs Hr Hm) as (HD & Hn & Hsh). cbn in Hn.
  split_and!; [exact HD|by apply opened_commitment|unfold lenN; cbn; lia|].
  intros i s. cbn. by apply opened_verify_share.
Qed.

(** ** A receiver's view *)

Definition points_at (l : list p1_affine) (xs : list fr) : Prop := Forall2 (fun a x => at1 (p1_from_affine a) x) l xs.

Lemma points_values l : Forall (fun a => exists x, at1 (p1_from_affine a) x /\ x <> 0) l ->
  exists xs, points_at l xs /\ Forall (fun x => x <> 0) xs.
Proof.
  induction 1 as [|a l (x & Hx & Hn) _ (xs & H1 & H2)]; [exists []; repeat constructor|].
  exists (x :: xs). by repeat constructor.
Qed.

Lemma verify_public_shares_at cs xs shares : cs <> [] -> points_at cs xs -> forall position,
  verify_public_shares cs position shares = Ok tt ->
  forall i a, shares !! i = Some a -> at1 (p1_from_affine a) (peval xs (fr_from_u64 (position + N.of_nat i + 1))).
Proof.
  intros Hne Hxs. induction shares as [|b shares IH]; intros position H i a Hi; [done|]. cbn [verify_public_shares] in H.
  destruct (evaluate_public_spec cs xs (position + 1) Hne Hxs) as (P & EP & HP). rewrite EP in H. cbn [ok_or result_bind] in H.
  destruct (p1_affine_is_equal _ _) eqn:E; [|done]. cbn [negb] in H. apply p1_affine_is_equal_law in E. destruct i as [|i].
  - injection Hi as <-. rewrite N.add_0_r, <- E. by apply at1_to_affine.
  - specialize (IH _ H i a Hi). by replace (position + N.of_nat (S i) + 1)%N with (position + 1 + N.of_nat i + 1)%N by lia.
Qed.

(** A decoded announcement shares the polynomial [xs]. *)
Definition deals (pvss : DkgPvss) (xs : list fr) : Prop :=
  points_at (commitments pvss) xs /\ Forall (fun x => x <> 0) xs /\
  length xs = N.to_nat (threshold (pvss_parameters pvss)) /\
  length (public_shares pvss) = N.to_nat (participants (pvss_parameters pvss)) /\
  forall i a, public_shares pvss !! i = Some a -> at1 (p1_from_affine a) (peval xs (fr_from_u64 (N.of_nat i + 1))).

Lemma decoded_deals encoded d pvss : (1 <= threshold d)%N ->
  decode_with_parameters encoded d = Ok pvss -> pvss_parameters pvss = d /\ exists xs, deals pvss xs.
Proof.
  intros Ht H. unfold decode_with_parameters in H. destruct (negb _); [done|].
  apply result_bind_Ok in H as ([cs rest] & Hc & H). apply result_bind_Ok in H as (r1 & _ & H).
  apply result_bind_Ok in H as (r2 & _ & H). apply result_bind_Ok in H as ([shares rest'] & Hs & H).
  apply result_bind_Ok in H as ([] & Hv & [= <-]). split; [done|]. unfold deals. cbn.
  apply decode_g1_points_Ok in Hc as [Hcl Hc], Hs as [Hsl _]. destruct (points_values cs Hc) as (xs & Hxs & Hz). exists xs.
  split_and!; [done|done|rewrite <- Hcl; symmetry; by eapply Forall2_length|done|].
  intros i a Ha. unfold pvss_verify in Hv. destruct (negb _); [done|]. cbn in Hv.
  assert (Hne : cs <> []) by (intros ->; cbn in Hcl; lia).
  pose proof (verify_public_shares_at cs xs shares Hne Hxs 0 Hv i a Ha) as E. by rewrite N.add_0_l in E.
Qed.

Lemma verified_share_value pvss xs i s : deals pvss xs -> secret_new s = Ok s -> verify_share pvss i s = Ok tt ->
  fr_from_secret s = peval xs (fr_from_u64 i) /\ index_valid (pvss_parameters pvss) i = true.
Proof.
  intros (_ & _ & _ & _ & Hsh) Hs H. unfold verify_share in H. destruct (index_valid _ i) eqn:Ei; [|done]. cbn [negb] in H.
  apply result_bind_Ok in H as (a & Ha & H). destruct (public_shares pvss !! _) as [a'|] eqn:El; [|done]. injection Ha as ->.
  destruct (p1_affine_is_equal _ _) eqn:E; [|done]. apply p1_affine_is_equal_law in E. split; [|done].
  apply Hsh in El. unfold index_valid in Ei. apply andb_true_iff in Ei as [E1%N.leb_le E2%N.leb_le].
  replace (N.of_nat (N.to_nat (i - 1)) + 1)%N with i in El by lia. subst a.
  eapply at1_unique; [|exact El]. by apply at1_to_affine, at1_secret.
Qed.

(** ** Recovery *)

Lemma recovery_coefficient_weight position indices i : indices !! position = Some i ->
  recovery_coefficient position indices = lagrange_weight (map fr_from_u64 indices) position (fr_from_u64 i).
Proof.
  intros Hi. unfold recovery_coefficient. rewrite (nth_lookup_Some _ _ _ _ Hi).
  pose proof (lagrange_fold position (fr_from_u64 i) indices 0 1 1) as H.
  replace (imap _ indices) with (imap pair indices) in H by (by apply imap_ext). cbn zeta in H |- *. rewrite H.
  replace (position <? 0)%nat with false by done. rewrite Nat.sub_0_r. unfold lagrange_weight. f_equal; [ring|f_equal; ring].
Qed.

Lemma foldl_fsum {A} (g : fr -> A -> fr) (f : A -> fr) l :
  (forall v x, g v x = v + f x) -> forall v, foldl g v l = v + fsum (map f l).
Proof. intros Hg. induction l as [|x l IH]; intros v; cbn; [ring|]. rewrite IH, Hg. ring. Qed.

Lemma recover_constant_sum selected :
  recover_constant selected = fsum (imap (fun j e => fr_from_secret e.2 * recovery_coefficient j (map fst selected)) selected).
Proof.
  unfold recover_constant. set (f := fun e : nat * bytes => fr_from_secret e.2 * recovery_coefficient e.1 (map fst selected)).
  rewrite (foldl_fsum _ f) by (by intros v [k s]). change (map snd selected) with (snd <$> selected). rewrite imap_fmap.
  change (map f ?l) with (f <$> l). rewrite fmap_imap. unfold compose, f. cbn [fst snd]. ring.
Qed.

(** Verified shares at distinct indices determine the dealer's constant term. *)
Lemma recover_constant_value pvss xs selected :
  deals pvss xs -> (participants (pvss_parameters pvss) <= 16)%N ->
  Forall (fun e => secret_new e.2 = Ok e.2 /\ verify_share pvss e.1 e.2 = Ok tt) selected ->
  NoDup (map fst selected) -> length selected = length xs ->
  recover_constant selected = peval xs 0.
Proof.
  intros HD Hp Hs Hn Hl.
  assert (Hv : forall k e, selected !! k = Some e -> fr_from_secret e.2 = peval xs (fr_from_u64 e.1) /\ (e.1 <= 16)%N).
  { intros k e He. rewrite Forall_lookup in Hs. destruct (Hs k e He) as [H1 H2].
    destruct (verified_share_value _ _ _ _ HD H1 H2) as [-> Hi]. split; [done|].
    unfold index_valid in Hi. apply andb_true_iff in Hi as [_ Hi%N.leb_le]. lia. }
  rewrite recover_constant_sum, <- (lagrange_zero (map fr_from_u64 (map fst selected)) xs).
  - change (map fr_from_u64 (map fst selected)) with (fr_from_u64 <$> (fst <$> selected)). rewrite !imap_fmap. f_equal.
    apply imap_ext. intros k e He. unfold compose. destruct (Hv k e He) as [-> _]. f_equal.
    apply recovery_coefficient_weight. change (map fst selected) with (fst <$> selected). by rewrite list_lookup_fmap, He.
  - apply indices_nodup; [done|]. apply Forall_map, Forall_lookup. intros k e He. by apply (Hv k e).
  - rewrite !length_map. lia.
Qed.

Lemma validate_recovery_total d l : forall seen,
  Forall (fun i => index_valid d i = true) l -> NoDup (seen ++ l) -> validate_recovery d seen l = Ok tt.
Proof.
  induction l as [|i l IH]; intros seen Hl Hn; [done|]. apply Forall_cons in Hl as [Hi Hl]. cbn [validate_recovery].
  rewrite Hi. cbn [negb]. rewrite bool_decide_eq_false_2.
  - apply IH; [done|]. by rewrite <- app_assoc.
  - apply NoDup_app in Hn as (_ & Hn & _). intros Hin. apply (Hn i Hin). left.
Qed.

Lemma secret_random_valid rng : forall s rng', secret_random rng = Ok (s, rng') -> valid_secret s.
Proof.
  induction rng as [|draw rng IH]; intros s rng' H; [done|]. cbn [secret_random] in H.
  apply result_bind_Ok in H as (b & _ & H). destruct (secret_new b) as [s'|] eqn:E; [|by eapply IH].
  injection H as <- _. apply secret_new_Ok in E as E'. destruct E' as [-> _]. done.
Qed.

Lemma secrets_random_valid n : forall rng l rng', secrets_random n rng = Ok (l, rng') -> length l = n /\ Forall valid_secret l.
Proof.
  induction n as [|n IH]; intros rng l rng' H; cbn [secrets_random] in H; [by injection H as <- _|].
  apply result_bind_Ok in H as ([s r1] & Hs & H). apply result_bind_Ok in H as ([l' r2] & Hl & [= <- _]).
  apply IH in Hl as [Hl Hf]. apply secret_random_valid in Hs. cbn. split; [by rewrite Hl|by constructor].
Qed.

(** The first commitment of an announcement is the constant term. *)
Lemma deals_head pvss xs : deals pvss xs -> xs <> [] ->
  exists a, head (commitments pvss) = Some a /\ at1 (p1_from_affine a) (peval xs 0) /\ peval xs 0 <> 0.
Proof.
  intros (Hp & Hz & _) Hn. destruct xs as [|x xs]; [done|]. apply Forall2_cons_inv_r in Hp as (a & l & Ha & _ & ->).
  exists a. apply Forall_cons in Hz as [Hz _]. cbn [peval]. replace (x + 0 * peval xs 0) with x by ring. done.
Qed.

(** As many verified shares of a lost participant as the threshold recover its constant
    term: the new polynomial keeps it under fresh higher coefficients, and every
    announcement of the new polynomial decodes and renovates the lost one. *)
Theorem pvss_recovers n d encoded pvss shares rng fresh :
  dkg_parameters_new n = Ok d -> decode_with_parameters encoded d = Ok pvss ->
  Forall (fun e => secret_new e.2 = Ok e.2 /\ verify_share pvss e.1 e.2 = Ok tt) shares ->
  NoDup (map fst shares) -> threshold d <= lenN shares -> random_with_parameters d rng = Ok fresh ->
  exists p, recover_and_renovate_with_parameters shares d rng = Ok p /\
    tail (coefficients p) = tail (coefficients fresh) /\
    forall r m, secret_new r = Ok r -> generate_pvss_with_randomizer p r = Ok m ->
      exists pvss', decode_with_parameters (material_encoded m) d = Ok pvss' /\ renovates pvss' pvss = Some true.
Proof.
  intros Hd%threshold_positive HD Hs Hn Hl Hf. destruct (decoded_deals _ _ _ (proj1 (proj1 Hd)) HD) as (Hpd & xs & Hxs).
  assert (Hlen : length xs = N.to_nat (threshold d)) by (rewrite <- Hpd; apply Hxs).
  set (selected := take (N.to_nat (threshold d)) shares).
  assert (Hsel : Forall (fun e => secret_new e.2 = Ok e.2 /\ verify_share pvss e.1 e.2 = Ok tt) selected) by (by apply Forall_take).
  assert (Hsn : NoDup (map fst selected)).
  { unfold selected. change (map fst ?l) with (fst <$> l) in *. rewrite fmap_take.
    rewrite <- (take_drop (N.to_nat (threshold d)) (fst <$> shares)) in Hn. by apply NoDup_app in Hn as [Hn _]. }
  assert (Hc : recover_constant selected = peval xs 0).
  { apply (recover_constant_value pvss); [done|rewrite Hpd; lia|done|done|]. unfold selected, lenN in *. rewrite length_take. lia. }
  destruct (deals_head pvss xs Hxs) as (a & Ha & Hat & Hz); [intros ->; cbn in Hlen; lia|].
  destruct (try_secret_total _ Hz) as [s Es]. apply try_secret_Ok in Es as Es'. destruct Es' as (Hsv & Hsx & _).
  unfold random_with_parameters in Hf. apply result_bind_Ok in Hf as ([l rng'] & Hr & [= <-]).
  apply secrets_random_valid in Hr as Hr'. destruct Hr' as [Hll Hlv]. destruct l as [|c rest]; [cbn in Hll; lia|].
  exists (mkDkgPolynomial d (s :: rest)). split_and!; [|done|].
  - unfold recover_and_renovate_with_parameters. destruct (N.ltb_spec (lenN shares) (threshold d)); [lia|]. fold selected.
    rewrite validate_recovery_total; [|apply Forall_map, (Forall_impl _ _ _ Hsel)|done].
    + cbn [result_bind]. unfold random_with_parameters. rewrite Hr. cbn [result_bind]. by rewrite Hc, Es.
    + intros e [H1 H2]. rewrite <- Hpd. by eapply verified_share_value.
  - intros r m Hrv Hm. apply Forall_cons in Hlv as [_ Hlv].
    destruct (generate_decodes (mkDkgPolynomial d (s :: rest)) r m) as (HD' & _); [done|done|by constructor|done|done|].
    eexists. split; [exact HD'|]. unfold renovates. cbn. rewrite Ha. cbn. f_equal. apply p1_affine_is_equal_law.
    eapply at1_affine; [apply at1_to_affine, at1_secret, Hsv|]. by rewrite Hsx.
Qed.

Lemma recovered_poly shares d rng p : recover_and_renovate_with_parameters shares d rng = Ok p -> valid_polynomial d p.
Proof.
  unfold recover_and_renovate_with_parameters. destruct (_ <? _)%N; [done|]. cbv zeta.
  intros H. apply result_bind_Ok in H as ([] & _ & H). apply result_bind_Ok in H as (q & Hq & H).
  apply result_bind_Ok in H as (secret & Hs & H). unfold random_with_parameters in Hq.
  apply result_bind_Ok in Hq as ([l rng'] & Hr & [= <-]). cbn in H. apply secrets_random_valid in Hr as [Hl Hv].
  destruct l as [|c rest]; [done|]. injection H as <-. apply try_secret_Ok in Hs as [Hs _]. apply Forall_cons in Hv as [_ Hv].
  split_and!; [done|done|by constructor].
Qed.
End pvss.
