(* ===== verification/Threshold.v ===== *)
(** Threshold keys end to end: the keys a distributed generation settles on
    (crates/neox/antimev/src/dkg.rs), the signatures and the decryption keys a committee
    aggregates under them (crates/neox/antimev/src/tpke.rs). *)

From S2P Require Import Prelude Extern Instances Tpke DkgParams Lagrange Dkg Pvss.

Section threshold.
Context {B : Blst} {L : FieldLaws B} {G : GroupLaws B}.
Add Ring fr_is_ring : fr_ring.
Open Scope fr_scope.

(** ** The settled polynomial *)

(** The announcements [pvsses] deal the polynomials [xss]. *)
Definition settles (d : DkgParameters) (pvsses : list bytes) (xss : list (list fr)) : Prop :=
  Forall2 (fun encoded xs => exists pvss, decode_with_parameters encoded d = Ok pvss /\ pvss_parameters pvss = d /\ deals pvss xs)
    pvsses xss.

Definition acc1 (acc : option p1) (v : fr) : Prop := match acc with Some P => at1 P v | None => v = 0 end.

Lemma sum_points_settles d sel pvsses : (1 <= threshold d)%N -> forall acc r,
  sum_points d sel pvsses acc = Ok r -> exists xss, settles d pvsses xss.
Proof.
  intros Ht. induction pvsses as [|e pvsses IH]; intros acc r H; [exists []; constructor|]. cbn [sum_points] in H.
  apply result_bind_Ok in H as (pvss & Hd & H). apply result_bind_Ok in H as (point & _ & H).
  apply IH in H as [xss Hx]. destruct (decoded_deals _ _ _ Ht Hd) as (Hp & xs & Hxs). exists (xs :: xss). constructor; [|done].
  by exists pvss.
Qed.

Lemma sum_points_at d sel (v : list fr -> fr) pvsses xss :
  (forall pvss xs a, pvss_parameters pvss = d -> deals pvss xs -> sel pvss = Some a -> at1 (p1_from_affine a) (v xs)) ->
  settles d pvsses xss -> forall acc x r, acc1 acc x -> sum_points d sel pvsses acc = Ok r ->
  acc1 r (x + fsum (v <$> xss)).
Proof.
  intros Hsel. induction 1 as [|e xs pvsses xss (pvss & Hd & Hp & Hxs) _ IH]; intros acc x r Hacc H.
  - injection H as <-. cbn. by replace (x + 0) with x by ring.
  - cbn [sum_points] in H. rewrite Hd in H. cbn [result_bind] in H. apply result_bind_Ok in H as (a & Ha & H).
    apply ok_or_Ok in Ha. specialize (Hsel _ _ _ Hp Hxs Ha) as Hat. cbn.
    replace (x + (v xs + fsum (v <$> xss))) with (x + v xs + fsum (v <$> xss)) by ring. eapply IH; [|exact H].
    destruct acc as [P|]; cbn in Hacc |- *; [by apply at1_add|]. subst x. by replace (0 + v xs) with (v xs) by ring.
Qed.

Lemma settles_length d pvsses xss : settles d pvsses xss -> (length (psum xss) <= N.to_nat (threshold d))%nat.
Proof.
  intros H. apply length_psum. apply Forall_lookup. intros k xs Hk.
  destruct (Forall2_lookup_r _ _ _ _ _ H Hk) as (e & _ & pvss & _ & Hp & _ & _ & Hl & _). rewrite Hl, Hp. done.
Qed.

(** A private share that passes the check against the announcements. *)
Lemma settled_share d pvsses xss i s : settles d pvsses xss ->
  verify_aggregated_dkg_share_with_parameters i s pvsses d = Ok tt ->
  secret_new s = Ok s /\ fr_from_secret s = peval (psum xss) (fr_from_u64 i) /\ (1 <= i <= participants d)%N.
Proof.
  intros Hx H. unfold verify_aggregated_dkg_share_with_parameters in H.
  destruct (index_valid d i) eqn:Ei; [|done]. cbn [negb] in H. destruct (negb _); [done|].
  apply result_bind_Ok in H as (s' & Hs & H). apply secret_new_Ok in Hs as Hs'. destruct Hs' as [-> _].
  apply result_bind_Ok in H as (sum & Hsum & H). apply result_bind_Ok in H as (P & HP & H). apply ok_or_Ok in HP as ->.
  destruct (p1_affine_is_equal _ _) eqn:E; [|done]. apply p1_affine_is_equal_law in E.
  unfold index_valid in Ei. apply andb_true_iff in Ei as [E1%N.leb_le E2%N.leb_le]. split_and!; [done| |done..].
  assert (Hsel : forall pvss xs a, pvss_parameters pvss = d -> deals pvss xs ->
    public_shares pvss !! N.to_nat (i - 1) = Some a -> at1 (p1_from_affine a) (peval xs (fr_from_u64 i))).
  { intros pvss xs a _ (_ & _ & _ & _ & D) Ha. apply D in Ha. by replace (N.of_nat (N.to_nat (i - 1)) + 1)%N with i in Ha by lia. }
  pose proof (sum_points_at d _ _ pvsses xss Hsel Hx None 0 _ eq_refl Hsum) as H1. cbn [acc1] in H1.
  rewrite peval_psum. apply (at1_equal _ _ _ _ H1 (at1_secret s Hs)) in E. rewrite <- E. ring.
Qed.

(** A dealer's announcement and the share a member decrypted from it. *)
Definition dealt (d : DkgParameters) (i : N) (e : bytes * bytes) : Prop :=
  secret_new e.2 = Ok e.2 /\ exists pvss, decode_with_parameters e.1 d = Ok pvss /\ verify_share pvss i e.2 = Ok tt.

Lemma sum_dealt d i dealers : (1 <= threshold d)%N -> Forall (dealt d i) dealers -> forall acc x, acc1 acc x ->
  exists r, sum_points d (fun pvss => public_shares pvss !! N.to_nat (i - 1)) (map fst dealers) acc = Ok r /\
    acc1 r (x + fsum (map fr_from_secret (map snd dealers))) /\ (dealers <> [] \/ is_Some acc -> is_Some r).
Proof.
  intros Ht. induction 1 as [|[e s] dealers (Hs & pvss & Hd & Hv) _ IH]; intros acc x Hacc; cbn [map fst snd sum_points fsum] in *.
  - exists acc. replace (x + 0) with x by ring. split_and!; [done..|]. by intros [].
  - destruct (decoded_deals _ _ _ Ht Hd) as (Hp & xs & Hxs). destruct (verified_share_value _ _ _ _ Hxs Hs Hv) as [Ev Hi].
    rewrite Hd. cbn [result_bind]. unfold verify_share in Hv. rewrite Hi in Hv. cbn [negb] in Hv.
    apply result_bind_Ok in Hv as (a & Ha & Hv). apply ok_or_Ok in Ha. rewrite Ha. cbn [ok_or result_bind].
    destruct (p1_affine_is_equal _ _) eqn:E; [|done]. apply p1_affine_is_equal_law in E. subst a.
    pose proof (at1_to_affine _ _ (at1_secret s Hs)) as Hat.
    destruct (IH (Some match acc with
        | Some previous => p1_add_or_double previous (p1_from_affine (p1_to_affine (multiply_g1_generator s)))
        | None => p1_from_affine (p1_to_affine (multiply_g1_generator s)) end) (x + fr_from_secret s)) as (r & Hr & Hra & Hsome).
    { destruct acc as [P|]; cbn in Hacc |- *; [by apply at1_add|]. subst x. by replace (0 + fr_from_secret s) with (fr_from_secret s) by ring. }
    exists r. split_and!; [by destruct acc| |intros _; apply Hsome; by right].
    replace (x + (fr_from_secret s + fsum (map fr_from_secret (map snd dealers))))
      with (x + fr_from_secret s + fsum (map fr_from_secret (map snd dealers))) by ring. done.
Qed.

(** The sum of the shares a member received from all the dealers, each passing the check
    against its dealer's announcement, passes the check of the settled share. *)
Theorem aggregated_share_settles n d i dealers s :
  dkg_parameters_new n = Ok d -> lenN dealers = participants d -> Forall (dealt d i) dealers ->
  secret_aggregate (map snd dealers) = Ok s ->
  verify_aggregated_dkg_share_with_parameters i s (map fst dealers) d = Ok tt.
Proof.
  intros [Ht Hp]%threshold_positive Hl Hd Hs. unfold verify_aggregated_dkg_share_with_parameters.
  assert (Hne : dealers <> []) by (intros ->; unfold lenN in Hl; cbn in Hl; lia).
  assert (Hi : index_valid d i = true).
  { destruct Hd as [|e l (Hv & pvss & Hdec & Hver) _]; [done|]. destruct (decoded_deals _ _ _ (proj1 Ht) Hdec) as (<- & xs & Hxs).
    by eapply verified_share_value. }
  rewrite Hi. replace (lenN (map fst dealers)) with (participants d) by (unfold lenN in *; by rewrite length_map).
  rewrite N.eqb_refl. cbn [negb].
  assert (Hsum : try_secret_from_fr (fsum (map fr_from_secret (map snd dealers))) = Ok s).
  { unfold secret_aggregate in Hs. destruct (map snd dealers) as [|b l] eqn:E; [by destruct dealers|]. rewrite <- E in *.
    rewrite (foldl_fsum _ fr_from_secret) in Hs by done. rewrite <- Hs. f_equal. ring. }
  apply try_secret_Ok in Hsum as (Hsv & Hsx & _). rewrite Hsv. cbn [result_bind].
  destruct (sum_dealt d i dealers (proj1 Ht) Hd None 0 eq_refl) as (r & Hr & Hat & [P ->]); [by left|].
  rewrite Hr. cbn [result_bind ok_or acc1] in Hat |- *. rewrite (proj2 (p1_affine_is_equal_law _ _)); [done|].
  apply (at1_equal _ _ _ _ Hat (at1_secret s Hsv)). rewrite Hsx. ring.
Qed.

(** The key the aggregated commitment stands for. *)
Lemma settled_commitment d pvsses xss commitment sc key : settles d pvsses xss -> (1 <= threshold d)%N ->
  verify_aggregated_dkg_commitment_with_parameters commitment pvsses d = Ok tt ->
  global_public_key_from_commitment commitment sc = Ok key ->
  sc <> 0%N /\ exists P, key = compress P /\ at1 P (peval (psum xss) 0 * fr_from_u64 sc).
Proof.
  intros Hx Ht H Hk. unfold verify_aggregated_dkg_commitment_with_parameters in H. destruct (negb _); [done|].
  apply result_bind_Ok in H as (sum & Hsum & H). apply result_bind_Ok in H as (P & HP & H). apply ok_or_Ok in HP as ->.
  case_bool_decide as E; [|done]. subst commitment.
  assert (Hsel : forall pvss xs a, pvss_parameters pvss = d -> deals pvss xs -> head (commitments pvss) = Some a ->
    at1 (p1_from_affine a) (peval xs 0)).
  { intros pvss xs a Hp D Ha. destruct (deals_head pvss xs D) as (a' & Ha' & Hat & _); [|by simplify_eq].
    destruct D as (_ & _ & Hl & _). intros ->. rewrite Hp in Hl. cbn in Hl. lia. }
  pose proof (sum_points_at d _ _ pvsses xss Hsel Hx None 0 _ eq_refl Hsum) as H1. cbn [acc1] in H1. rewrite <- peval_psum in H1.
  replace (0 + peval (psum xss) 0) with (peval (psum xss) 0) in H1 by ring.
  unfold global_public_key_from_commitment in Hk. destruct (negb _); [done|]. destruct (N.eqb_spec sc 0); [done|].
  destruct (_ || _); [done|]. split; [done|].
  destruct (padded2 (take 48 (p1_serialize P)) (drop 48 (p1_serialize P)) (encode_g1 P)) as [_ Er].
  { rewrite length_take, p1_serialize_length. lia. } { rewrite length_drop, p1_serialize_length. lia. } { done. }
  replace (drop 80 (encode_g1 P)) with (slice 80 128 (encode_g1 P)) in Hk.
  2: { unfold slice. apply take_ge. rewrite length_drop, encode_g1_length. change (N.to_nat NEOX_DKG_G1_LEN) with 128%nat. lia. }
  rewrite Er, take_drop, (p1_deserialize_law _ _ H1) in Hk. destruct (p1_affine_in_g1 _); [|done]. injection Hk as <-.
  eexists. split; [reflexivity|]. by apply at1_mult, at1_to_affine.
Qed.

Lemma settled_key d pvsses commitment key : (1 <= threshold d)%N ->
  verify_aggregated_dkg_commitment_with_parameters commitment pvsses d = Ok tt ->
  global_public_key_from_commitment commitment (scaler d) = Ok key ->
  scaler d <> 0%N /\ exists xs, (length xs <= N.to_nat (threshold d))%nat /\
    (exists P, key = compress P /\ at1 P (peval xs 0 * fr_from_u64 (scaler d))) /\
    forall i s, verify_aggregated_dkg_share_with_parameters i s pvsses d = Ok tt ->
      secret_new s = Ok s /\ fr_from_secret s = peval xs (fr_from_u64 i) /\ (1 <= i <= participants d)%N.
Proof.
  intros Ht Hc Hk.
  assert (exists xss, settles d pvsses xss) as [xss Hx].
  { unfold verify_aggregated_dkg_commitment_with_parameters in Hc. destruct (negb _); [done|].
    apply result_bind_Ok in Hc as (sum & Hsum & _). by eapply sum_points_settles. }
  destruct (settled_commitment _ _ _ _ _ _ Hx Ht Hc Hk) as [Hsc HP]. split; [done|]. exists (psum xss).
  split_and!; [by eapply settles_length|done|]. intros i s. by apply settled_share.
Qed.

(** ** Selecting the honest shares *)

Lemma validated_indexes l : forall seen, validate_indexes seen l = Ok tt <-> Forall (fun i => i <> 0%N /\ i ∉ seen) l /\ NoDup l.
Proof.
  induction l as [|i l IH]; intros seen; cbn [validate_indexes]; [by repeat split; constructor|].
  rewrite Forall_cons, NoDup_cons. destruct (N.eqb_spec i 0) as [->|Hi]; [naive_solver|].
  case_bool_decide as Hin; [naive_solver|]. rewrite IH. setoid_rewrite not_elem_of_app. setoid_rewrite list_elem_of_singleton.
  rewrite !Forall_forall. split.
  - intros [H Hn]. split_and!; [done..|by intros x Hx; apply H in Hx as (? & ? & ?)| |done].
    intros Hil. by apply H in Hil as (_ & _ & ?).
  - intros ((_ & H) & Hni & Hn). split; [|done]. intros x Hx. destruct (H x Hx). split_and!; [done..|]. by intros ->.
Qed.

Lemma validated_shares {T} (l : list (N * T)) sc :
  l <> [] -> sc <> 0%N -> NoDup (map fst l) -> Forall (fun e => e.1 <> 0%N) l -> validate_indexed_shares l sc = Ok tt.
Proof.
  intros Hl Hsc Hn Hz. unfold validate_indexed_shares. destruct l as [|e l]; [done|].
  rewrite (proj2 (N.eqb_neq _ _) Hsc). apply validated_indexes. split; [|done]. apply Forall_map.
  eapply Forall_impl; [exact Hz|]. intros [i t] Hi. split; [done|]. apply not_elem_of_nil.
Qed.

(** The entries at given indices. *)
Definition at_indices {T} (idx : list N) (l : list (N * T)) : list (N * T) := filter (fun e => e.1 ∈ idx) l.

Lemma at_indices_perm {T} idx (l : list (N * T)) :
  NoDup (map fst l) -> NoDup idx -> (forall i, i ∈ idx -> i ∈ map fst l) -> map fst (at_indices idx l) ≡ₚ idx.
Proof.
  intros Hn Hi Hsub. apply NoDup_Permutation; [|done|].
  - eapply sublist_NoDup; [exact Hn|]. apply (fmap_sublist fst), sublist_filter.
  - intros i. rewrite list_elem_of_fmap. split.
    + intros (e & -> & He). by apply list_elem_of_filter in He as [He _].
    + intros H. specialize (Hsub i H). apply list_elem_of_fmap in Hsub as (e & -> & He). exists e. split; [done|].
      by apply list_elem_of_filter.
Qed.

(** A threshold of entries at the indices of honest members. *)
Lemma honest_selection {T U} d (honest : list (N * U)) (l : list (N * T)) :
  NoDup (map fst honest) -> threshold d <= lenN honest -> NoDup (map fst l) ->
  (forall i s, (i, s) ∈ honest -> i ∈ map fst l) ->
  exists selected, sublist selected l /\ lenN selected = threshold d /\ NoDup (map fst selected) /\
    forall e, e ∈ selected -> e ∈ l /\ exists s, (e.1, s) ∈ honest.
Proof.
  intros Hnd Hth Hn Hsub. set (idx := take (N.to_nat (threshold d)) (map fst honest)).
  assert (Hidx : forall i, i ∈ idx -> exists s, (i, s) ∈ honest).
  { intros i (k & Hk & _)%elem_of_take. apply list_elem_of_lookup_2, list_elem_of_fmap in Hk as ([j s] & -> & Hs). by exists s. }
  assert (Hni : NoDup idx).
  { rewrite <- (take_drop (N.to_nat (threshold d)) (map fst honest)) in Hnd. by apply NoDup_app in Hnd as [Hnd _]. }
  assert (Hp : map fst (at_indices idx l) ≡ₚ idx) by (apply at_indices_perm; [done..|intros i [s Hs]%Hidx; by apply (Hsub i s)]).
  exists (at_indices idx l). split_and!; [apply sublist_filter| |by rewrite Hp|].
  - apply Permutation_length in Hp. unfold idx, lenN in *. rewrite length_take, !length_map in Hp. lia.
  - intros e [He Hel]%list_elem_of_filter. split; [done|]. by apply Hidx.
Qed.

Lemma key_unique {T} (l : list (N * T)) i a b : NoDup (map fst l) -> (i, a) ∈ l -> (i, b) ∈ l -> a = b.
Proof.
  intros Hn [j Hj]%list_elem_of_lookup [k Hk]%list_elem_of_lookup.
  assert (j = k) as <- by (eapply (NoDup_lookup (map fst l)); [done|..];
    change (map fst l) with (fst <$> l); rewrite list_lookup_fmap; [by rewrite Hj|by rewrite Hk]).
  by simplify_eq.
Qed.

(** ** Signatures *)

Section signatures.
Context {Z : SignatureLaws B G}.

(** The value of a signature of the committee or of a member, negated or not. *)
Definition signed (negate : bool) (v : fr) : fr := if negate then - v else v.

Lemma signed_zero negate v : signed negate v = 0 -> v = 0.
Proof. destruct negate; [apply fr_neg_zero|done]. Qed.

Lemma negated_at (negate : bool) Q y : at2 Q y -> y <> 0 -> exists Q', at2 Q' (signed negate y) /\
  (if negate then negate_point (compress_g2 Q) else compress_g2 Q) = compress_g2 Q'.
Proof.
  intros HQ Hy. destruct negate; [|by exists Q]. exists (p2_cneg Q). cbn. split; [by apply at2_cneg|].
  apply (negate_point_law _ _ y); [done|by apply at2_cneg|done].
Qed.

Lemma sign_share_at message s negate share :
  secret_new s = Ok s -> hash_to_g2 message TPKE_SIGNATURE_DST <> 0 -> sign_share message s negate = Ok share ->
  exists Q, share = compress_g2 Q /\ at2 Q (signed negate (fr_from_secret s * hash_to_g2 message TPKE_SIGNATURE_DST)).
Proof.
  intros Hs Hh H. unfold sign_share in H. apply result_bind_Ok in H as (k & Hk & H). apply ok_or_Ok in Hk.
  destruct (sk_sign_law s k message TPKE_SIGNATURE_DST Hk) as (Q & EQ & HQ). rewrite EQ in H.
  assert (Hy : fr_from_secret s * hash_to_g2 message TPKE_SIGNATURE_DST <> 0)
    by (apply fr_mul_nonzero; [by apply fr_from_secret_nonzero|done]).
  destruct (negated_at negate Q _ HQ Hy) as (Q' & HQ' & E). unfold compress_g2 at 1 2 in E. rewrite E in H.
  exists Q'. split; [|done]. unfold signature_share_decode in H. destruct (negb _); [done|].
  apply result_bind_Ok in H as (? & _ & [= <-]). done.
Qed.

Lemma at2_zero_dec Q y : at2 Q y -> y = 0 \/ y <> 0.
Proof.
  intros HQ%at2_to_affine. pose proof (p2_affine_is_inf_law _ _ HQ) as H.
  destruct (p2_affine_is_inf _); [left; by apply H|right; intros E%H; done].
Qed.

(** What verifies under the committee's key is one point. *)
Lemma verified_value message pk x negate Q y : pk_at pk x -> at2 Q y ->
  verifies message pk negate (compress_g2 Q) -> y = signed negate (x * hash_to_g2 message TPKE_SIGNATURE_DST).
Proof.
  intros Hpk HQ (sg & Hsg & Hv).
  assert (sig_at sg (signed negate y)) as Hy'.
  { destruct (at2_zero_dec Q y HQ) as [->|Hy].
    - destruct negate; [unfold compress_g2 in Hsg; by rewrite (negate_infinity_law Q HQ) in Hsg|].
      pose proof (bls_sig_validate_law _ _ (at2_to_affine _ _ HQ)) as Hl. unfold compress_g2 in Hsg. rewrite Hsg in Hl. apply Hl.
    - destruct (negated_at negate Q y HQ Hy) as (Q' & HQ' & E). rewrite E in Hsg.
      pose proof (bls_sig_validate_law _ _ (at2_to_affine _ _ HQ')) as Hl. unfold compress_g2 in Hsg. rewrite Hsg in Hl. apply Hl. }
  apply (bls_verify_law _ _ _ _ _ _ Hy' Hpk) in Hv. rewrite <- Hv. destruct negate; cbn; [ring|done].
Qed.

Lemma interpolated_verifies message pk x negate Q :
  pk_at pk x -> x * hash_to_g2 message TPKE_SIGNATURE_DST <> 0 ->
  at2 Q (signed negate (x * hash_to_g2 message TPKE_SIGNATURE_DST)) -> verifies message pk negate (compress_g2 Q).
Proof.
  intros Hpk Hx HQ. set (v := x * _) in *.
  destruct (negated_at negate Q _ HQ) as (Q' & HQ' & E); [intros H; by apply signed_zero in H|].
  assert (Hv : signed negate (signed negate v) = v) by (destruct negate; cbn; [ring|done]). rewrite Hv in HQ'.
  pose proof (bls_sig_validate_law _ _ (at2_to_affine _ _ HQ')) as Hl. unfold verifies. rewrite E. unfold compress_g2.
  destruct (bls_sig_validate _) as [sg|]; [|done]. exists sg. split; [done|]. by apply (bls_verify_law _ _ _ _ _ x (proj1 Hl) Hpk).
Qed.

(** Any points interpolate to some point. *)
Lemma interpolated_exists points sc signature : points <> [] ->
  Forall (fun e => exists y, at2 (p2_from_affine e.2) y) points ->
  interpolate_signature_shares points sc = Some signature -> exists Q y, signature = compress_g2 Q /\ at2 Q y.
Proof.
  intros Hne Hp H.
  assert (exists ys, Forall2 (fun e y => at2 (p2_from_affine e.2) y) points ys) as [ys Hys].
  { clear H Hne. induction Hp as [|e l [y Hy] _ [ys IH]]; [exists []; constructor|]. exists (y :: ys). by constructor. }
  destruct (interpolate_signature_at points sc ys Hne Hys) as (Q & EQ & HQ). rewrite EQ in H. injection H as <-. eauto.
Qed.

(** Shares of the settled polynomial interpolate to the committee's signature. *)
Lemma interpolated_honest points sc xs k : points <> [] -> NoDup (map fst points) ->
  Forall (fun e => (e.1 <= 16)%N /\ at2 (p2_from_affine e.2) (k * peval xs (fr_from_u64 e.1))) points ->
  (length xs <= length points)%nat ->
  exists Q, interpolate_signature_shares points sc = Some (compress_g2 Q) /\ at2 Q (fr_from_u64 sc * (k * peval xs 0)).
Proof.
  intros Hne Hn Hp Hl. set (ys := map (fun e : N * p2_affine => peval (pscale k xs) (fr_from_u64 e.1)) points).
  destruct (interpolate_signature_at points sc ys Hne) as (Q & EQ & HQ).
  { apply Forall2_fmap_r, Forall_Forall2_diag. eapply Forall_impl; [exact Hp|]. intros e [_ He]. unfold compose. by rewrite peval_pscale. }
  exists Q. split; [done|]. rewrite <- peval_pscale, <- (weights_interpolate (map fst points) (pscale k xs) sc Hn).
  - unfold ys in HQ. change (map ?f points) with (f <$> points) in HQ. rewrite imap_fmap in HQ.
    change (imap ?f (map fst points)) with (imap f (fst <$> points)). rewrite imap_fmap. exact HQ.
  - apply Forall_map. eapply Forall_impl; [exact Hp|]. by intros e [He _].
  - unfold pscale. rewrite !length_map. done.
Qed.

Lemma decode_shares_total shares : Forall (fun e => is_ok (signature_share_decode e.2) = true) shares ->
  exists decoded, decode_shares (sort_by_index shares) = Ok decoded.
Proof.
  intros H. apply collect_result_total. intros [i share] Hin. unfold sort_by_index in Hin. rewrite merge_sort_Permutation in Hin.
  rewrite Forall_forall in H. specialize (H _ Hin). cbn in H. unfold signature_share_decode in H.
  destruct (negb _); [done|]. destruct (decode_g2 share _) as [a|]; [|done]. by exists (i, a).
Qed.

Lemma decoded_shares shares decoded : decode_shares (sort_by_index shares) = Ok decoded ->
  map fst decoded ≡ₚ map fst shares /\
  forall i a, (i, a) ∈ decoded -> exists share, (i, share) ∈ shares /\ decode_g2 share "signature share" = Ok a.
Proof.
  intros H%collect_result_Ok.
  assert (Hs : forall e (a : N * p2_affine), (let '(index, share) := e in
    let? point := decode_g2 share "signature share" in Ok (index, point)) = Ok a ->
    a.1 = e.1 /\ decode_g2 e.2 "signature share" = Ok a.2).
  { intros [i share] [j a] (point & Hp & [= <- <-])%result_bind_Ok. done. }
  split.
  - transitivity (map fst (sort_by_index shares)); [|unfold sort_by_index; by rewrite merge_sort_Permutation].
    clear -H Hs. induction H as [|e a l k He _ IH]; [done|]. cbn [map]. rewrite IH. by destruct (Hs _ _ He) as [-> _].
  - intros i a [k Hk]%list_elem_of_lookup. destruct (Forall2_lookup_r _ _ _ _ _ H Hk) as ([j share] & Hj & E).
    destruct (Hs (j, share) (i, a) E) as [E1 E2]. cbn in E1, E2. subst j. exists share. split; [|done].
    apply list_elem_of_lookup_2 in Hj. unfold sort_by_index in Hj. by rewrite merge_sort_Permutation in Hj.
Qed.

(** The shares of [honest] members, each its private share of the transcript and what it
    signs, are among the shares. *)
Definition honest_shares (d : DkgParameters) (pvsses : list bytes) (message : bytes) (negate : bool)
    (shares honest : list (N * bytes)) : Prop :=
  NoDup (map fst honest) /\ threshold d <= lenN honest /\
  forall i s, (i, s) ∈ honest -> verify_aggregated_dkg_share_with_parameters i s pvsses d = Ok tt /\
    exists share, sign_share message s negate = Ok share /\ (i, share) ∈ shares.

Lemma honest_decoded d pvsses message negate shares honest xs decoded :
  honest_shares d pvsses message negate shares honest -> NoDup (map fst shares) ->
  (forall i s, verify_aggregated_dkg_share_with_parameters i s pvsses d = Ok tt ->
     secret_new s = Ok s /\ fr_from_secret s = peval xs (fr_from_u64 i) /\ (1 <= i <= participants d)%N) ->
  hash_to_g2 message TPKE_SIGNATURE_DST <> 0 ->
  decode_shares (sort_by_index shares) = Ok decoded ->
  forall i s a, (i, s) ∈ honest -> (i, a) ∈ decoded -> (i <= participants d)%N /\
    at2 (p2_from_affine a) (signed negate (hash_to_g2 message TPKE_SIGNATURE_DST) * peval xs (fr_from_u64 i)).
Proof.
  intros (_ & _ & Hh) Hn Hxs Hz Hd i s a Hi Ha. destruct (Hh i s Hi) as (Hv & share & Hsig & Hin).
  destruct (Hxs i s Hv) as (Hs & Es & Hp). split; [lia|].
  apply (decoded_shares _ _ Hd) in Ha as (share' & Hin' & Ea). assert (share' = share) as -> by (by eapply key_unique).
  destruct (sign_share_at _ _ _ _ Hs Hz Hsig) as (Q & -> & HQ). rewrite (decode_g2_compress _ _ _ HQ) in Ea.
  injection Ea as <-. apply at2_to_affine. replace (signed negate (hash_to_g2 message TPKE_SIGNATURE_DST) * peval xs (fr_from_u64 i))
    with (signed negate (fr_from_secret s * hash_to_g2 message TPKE_SIGNATURE_DST)); [done|].
  rewrite Es. destruct negate; cbn; ring.
Qed.

Lemma honest_sublist d pvsses message negate shares honest xs decoded :
  honest_shares d pvsses message negate shares honest -> NoDup (map fst shares) ->
  (forall i s, verify_aggregated_dkg_share_with_parameters i s pvsses d = Ok tt ->
     secret_new s = Ok s /\ fr_from_secret s = peval xs (fr_from_u64 i) /\ (1 <= i <= participants d)%N) ->
  hash_to_g2 message TPKE_SIGNATURE_DST <> 0 -> (1 <= threshold d)%N -> (participants d <= 16)%N ->
  (length xs <= N.to_nat (threshold d))%nat ->
  decode_shares (sort_by_index shares) = Ok decoded ->
  exists selected Q, sublist selected decoded /\ lenN selected = threshold d /\
    interpolate_signature_shares selected (scaler d) = Some (compress_g2 Q) /\
    at2 Q (signed negate (peval xs 0 * fr_from_u64 (scaler d) * hash_to_g2 message TPKE_SIGNATURE_DST)).
Proof.
  intros Hh Hn Hxs Hz Ht Hp16 Hl Hd. destruct (decoded_shares _ _ Hd) as [Hperm _].
  pose proof Hh as (Hnd & Hth & Hin). destruct (honest_selection d honest decoded Hnd Hth) as (sel & Hsub & Hlen & Hnsel & Hsel).
  { by rewrite Hperm. }
  { intros i s Hs. rewrite Hperm. destruct (Hin i s Hs) as (_ & share & _ & H). apply list_elem_of_fmap. by exists (i, share). }
  destruct (interpolated_honest sel (scaler d) xs (signed negate (hash_to_g2 message TPKE_SIGNATURE_DST))) as (Q & EQ & HQ).
  - intros ->. unfold lenN in Hlen. cbn in Hlen. lia.
  - done.
  - apply Forall_forall. intros [i a] [Ha [s Hs]]%Hsel.
    destruct (honest_decoded _ _ _ _ _ _ _ _ Hh Hn Hxs Hz Hd i s a Hs Ha). cbn. split; [lia|done].
  - unfold lenN in Hlen. lia.
  - exists sel, Q. split_and!; [done..|].
    replace (signed negate (peval xs 0 * fr_from_u64 (scaler d) * hash_to_g2 message TPKE_SIGNATURE_DST))
      with (fr_from_u64 (scaler d) * (signed negate (hash_to_g2 message TPKE_SIGNATURE_DST) * peval xs 0)); [done|].
    destruct negate; cbn; ring.
Qed.

(** C10. Once a transcript settles a committee key, a message has one signature under it, and
    aggregation returns that signature from every set of at most a committee of decodable
    shares, whatever some of them are, that holds the shares of a threshold of members
    with verified private shares. *)
Theorem threshold_signature n d pvsses commitment key pk message negate :
  dkg_parameters_new n = Ok d ->
  verify_aggregated_dkg_commitment_with_parameters commitment pvsses d = Ok tt ->
  global_public_key_from_commitment commitment (scaler d) = Ok key ->
  bls_key_validate key = Some pk -> hash_to_g2 message TPKE_SIGNATURE_DST <> 0 ->
  exists signature, verifies message pk negate signature /\
    forall shares honest,
      NoDup (map fst shares) -> lenN shares <= participants d ->
      Forall (fun e => e.1 <> 0%N /\ is_ok (signature_share_decode e.2) = true) shares ->
      honest_shares d pvsses message negate shares honest ->
      aggregate_and_verify_signature_shares_with_parameters message key shares (threshold d) (scaler d) negate
        (participants d) = Ok signature.
Proof.
  intros [Ht Hp]%threshold_positive Hc Hk Hpk Hz.
  destruct (settled_key _ _ _ _ (proj1 Ht) Hc Hk) as (Hsc & xs & Hl & (P & -> & HP) & Hxs).
  set (x := peval xs 0 * fr_from_u64 (scaler d)) in *.
  pose proof (bls_key_validate_law _ _ (at1_to_affine _ _ HP)) as Hlaw. unfold compress in Hpk. rewrite Hpk in Hlaw.
  destruct Hlaw as [Hat Hx0]. set (v := x * hash_to_g2 message TPKE_SIGNATURE_DST).
  pose proof (at2_mult _ _ (signed negate v) at2_generator) as HQ0. replace (1 * signed negate v) with (signed negate v) in HQ0 by ring.
  eexists (compress_g2 _). split; [apply (interpolated_verifies message pk x); [done|by apply fr_mul_nonzero|exact HQ0]|].
  intros shares honest Hn Hmax Hs Hh. apply Forall_and in Hs as [Hnz Hok].
  destruct (decode_shares_total shares Hok) as [decoded Hd].
  destruct (honest_sublist _ _ _ _ _ _ _ _ Hh Hn Hxs Hz (proj1 Ht) Hp Hl Hd) as (sel & Q & Hsub & Hlen & HI & HQ).
  pose proof (length_decode_shares _ _ Hd) as Hdl. rewrite length_sort_by_index in Hdl.
  apply sublist_length in Hsub as Hsl.
  destruct (aggregate_signature_search message (compress P) shares (threshold d) (scaler d) negate (participants d) pk decoded)
    as [Hsound Hcomplete]; [lia|unfold lenN in *; lia|done| |done|done|].
  { apply validated_shares; [|done..]. intros ->. unfold lenN in *. cbn in *. lia. }
  destruct (Hcomplete sel (compress_g2 Q) Hsub Hlen HI) as [sig' Hsig'].
  { by apply (interpolated_verifies message pk x); [|apply fr_mul_nonzero|]. }
  unfold aggregate_and_verify_signature_shares_with_parameters. rewrite Hsig'. f_equal.
  destruct (Hsound sig' Hsig') as [Hver (sel' & Hsub' & Hlen' & HI')].
  destruct (interpolated_exists sel' (scaler d) sig') as (Q' & y & -> & HQ'); [| |done|].
  - intros ->. unfold lenN in Hlen'. cbn in Hlen'. lia.
  - apply Forall_forall. intros [i a] Ha. apply sublist_subseteq in Hsub'. apply Hsub' in Ha.
    apply (decoded_shares _ _ Hd) in Ha as (share & _ & Ea). by apply decode_g2_at in Ea.
  - unfold compress_g2. f_equal. apply (at2_equal _ _ _ _ HQ' HQ0). by apply (verified_value message pk x negate Q').
Qed.
End signatures.

(** ** Decryption *)

Lemma interpolate_decryption_fold indices sc shares ys :
  Forall2 (fun b y => exists P, b = compress P /\ at1 P y) shares ys ->
  forall o acc v, (o + length shares <= length indices)%nat -> acc1 acc v ->
  exists r, interpolate_decryption_shares indices sc o shares acc = Ok r /\
    acc1 r (v + fsum (imap (fun k y => y * weight_at indices sc (o + k)) ys)) /\ (shares <> [] \/ is_Some acc -> is_Some r).
Proof.
  induction 1 as [|b y shares ys (P & -> & HP) _ IH]; intros o acc v Hl Hacc; cbn [length] in Hl.
  - exists acc. cbn. replace (v + 0) with v by ring. split_and!; [done..|]. by intros [].
  - cbn [interpolate_decryption_shares imap fsum]. rewrite (decode_g1_compress _ _ _ HP). cbn [result_bind].
    rewrite lagrange_coefficient_at by lia. rewrite Nat.add_0_r.
    pose proof (at1_mult _ _ (weight_at indices sc o) (at1_to_affine _ _ HP)) as Hw.
    replace (imap _ ys) with (imap (fun k y => y * weight_at indices sc (S o + k)) ys)
      by (apply imap_ext; intros k z _; unfold compose; do 2 f_equal; lia).
    destruct (IH (S o) (Some match acc with
        | Some sum => p1_add_or_double sum (p1_mult (p1_from_affine (p1_to_affine P)) (scalar_from_fr (weight_at indices sc o)))
        | None => p1_mult (p1_from_affine (p1_to_affine P)) (scalar_from_fr (weight_at indices sc o)) end)
      (v + y * weight_at indices sc o)) as (r & Hr & Ha & Hsome); [lia| |].
    { destruct acc as [S|]; cbn in Hacc |- *; [by apply at1_add|]. subst v.
      by replace (0 + y * weight_at indices sc o) with (y * weight_at indices sc o) by ring. }
    exists r. split_and!; [by destruct acc| |intros _; apply Hsome; by right].
    replace (v + (y * weight_at indices sc o + fsum (imap (fun k y => y * weight_at indices sc (S o + k)) ys)))
      with (v + y * weight_at indices sc o + fsum (imap (fun k y => y * weight_at indices sc (S o + k)) ys)) by ring. done.
Qed.

Lemma interpolate_decryption_exists indices sc shares : forall o acc r,
  (forall P, acc = Some P -> exists v, at1 P v) -> interpolate_decryption_shares indices sc o shares acc = Ok (Some r) ->
  (o + length shares <= length indices)%nat -> exists v, at1 r v.
Proof.
  induction shares as [|b shares IH]; intros o acc r Hacc H Hl; cbn [interpolate_decryption_shares length] in H, Hl.
  - injection H as ->. by apply Hacc.
  - apply result_bind_Ok in H as (a & Ha%decode_g1_at & H). destruct Ha as [x Hx].
    eapply IH; [|exact H|lia]. intros P HP. rewrite lagrange_coefficient_at in HP by lia.
    pose proof (at1_mult _ _ (weight_at indices sc o) Hx) as Hw.
    destruct acc as [S|]; injection HP as <-; [|by eexists]. destruct (Hacc S eq_refl) as [v Hv]. eexists. by apply at1_add.
Qed.

(** Shares of the settled polynomial, of one ciphertext. *)
Lemma interpolate_decryption_honest (shares : list (N * bytes)) sc xs k : shares <> [] -> NoDup (map fst shares) ->
  Forall (fun e => (e.1 <= 16)%N /\ exists P, e.2 = compress P /\ at1 P (k * peval xs (fr_from_u64 e.1))) shares ->
  (length xs <= length shares)%nat ->
  exists R, interpolate_decryption_shares (map fst shares) sc 0 (map snd shares) None = Ok (Some R) /\
    at1 R (fr_from_u64 sc * (k * peval xs 0)).
Proof.
  intros Hne Hn Hp Hl. set (ys := map (fun e : N * bytes => peval (pscale k xs) (fr_from_u64 e.1)) shares).
  destruct (interpolate_decryption_fold (map fst shares) sc (map snd shares) ys) with (o := 0%nat) (acc := @None p1) (v := 0)
    as (r & Hr & Ha & [R ->]).
  { apply Forall2_fmap_l, Forall2_fmap_r, Forall_Forall2_diag. eapply Forall_impl; [exact Hp|]. intros e [_ He].
    unfold compose. by rewrite peval_pscale. }
  { by rewrite !length_map. } { done. } { left. by destruct shares. }
  exists R. split; [done|]. cbn [acc1] in Ha. rewrite <- peval_pscale, <- (weights_interpolate (map fst shares) (pscale k xs) sc Hn).
  - unfold ys in Ha. change (map ?f shares) with (f <$> shares) in Ha at 1. rewrite imap_fmap in Ha.
    change (imap ?f (map fst shares)) with (imap f (fst <$> shares)). rewrite imap_fmap. cbn [Nat.add] in Ha.
    match type of Ha with at1 _ (0 + ?t) => replace (0 + t) with t in Ha by ring end. exact Ha.
  - apply Forall_map. eapply Forall_impl; [exact Hp|]. by intros e [He _].
  - unfold pscale. rewrite !length_map. done.
Qed.

(** A ciphertext as an Envelope carries it: decoded, with a consistent commitment. *)
Definition valid_ciphertext (c : TpkeCiphertext) : Prop :=
  (exists encoded, ciphertext_decode encoded = Ok c) /\ ciphertext_verify c = Ok tt.

(** [key] is the encrypted point of [c] less the product of the committee's secret [x] and
    the sender's random point. *)
Definition opens (x : fr) (c : TpkeCiphertext) (key : bytes) : Prop :=
  exists encrypted e random r K,
    decode_g1 (encrypted_message c) "encrypted message" = Ok encrypted /\ at1 (p1_from_affine encrypted) e /\
    decode_g1 (random_commitment c) "random commitment" = Ok random /\ at1 (p1_from_affine random) r /\
    key = compress K /\ at1 K (e - x * r).

Lemma opens_unique x c k1 k2 : opens x c k1 -> opens x c k2 -> k1 = k2.
Proof.
  intros (e1 & v1 & r1 & w1 & K1 & He1 & Hv1 & Hr1 & Hw1 & -> & HK1) (e2 & v2 & r2 & w2 & K2 & He2 & Hv2 & Hr2 & Hw2 & -> & HK2).
  rewrite He1 in He2. injection He2 as <-. rewrite Hr1 in Hr2. injection Hr2 as <-. pose proof (at1_unique _ _ _ Hv1 Hv2) as ->. pose proof (at1_unique _ _ _ Hw1 Hw2) as ->.
  unfold compress. f_equal. by apply (at1_equal _ _ _ _ HK1 HK2).
Qed.

(** The points of a valid ciphertext. *)
Lemma valid_ciphertext_points c : valid_ciphertext c -> exists encrypted e random r pairing,
  decode_g1 (encrypted_message c) "encrypted message" = Ok encrypted /\ at1 (p1_from_affine encrypted) e /\
  decode_g1 (random_commitment c) "random commitment" = Ok random /\ at1 (p1_from_affine random) r /\
  decode_g2 (pairing_commitment c) "pairing commitment" = Ok pairing /\ at2 (p2_from_affine pairing) (- r).
Proof.
  intros [[encoded H] Hv]. unfold ciphertext_decode in H. destruct (negb _); [done|]. cbv zeta in H.
  apply result_bind_Ok in H as (encrypted & He & H). apply result_bind_Ok in H as (random & Hr & H).
  apply result_bind_Ok in H as (pairing & Hp & H). assert (Ec : forall (a b : TpkeCiphertext), @Ok TpkeError _ a = Ok b -> a = b) by congruence.
  apply Ec in H. rewrite H in He, Hr, Hp.
  unfold ciphertext_verify in Hv. rewrite Hr, Hp in Hv. cbn [result_bind] in Hv.
  destruct (decode_g1_at _ _ _ He) as [e Hae], (decode_g1_at _ _ _ Hr) as [r Har], (decode_g2_at _ _ _ Hp) as [y Hay].
  destruct (pairing_is_one _ _) eqn:E; [|done].
  apply (pairing_law _ _ _ _ _ _ _ _ at2_affine_generator Hay Har at1_affine_generator) in E.
  exists encrypted, e, random, r, pairing. split_and!; try done.
  replace (- r) with y; [done|]. replace y with (r * 1 + 1 * y - r) by ring. rewrite E. ring.
Qed.

(** The pairing check accepts one recovered point. *)
Lemma decrypt_with_key_opens c pk x shares sc key : valid_ciphertext c -> at1 (p1_from_affine pk) x ->
  aggregate_and_decrypt_with_key c pk shares sc = Ok key -> opens x c key.
Proof.
  intros (encrypted & e & random & r & pairing & He & Hae & Hr & Har & Hp & Hap)%valid_ciphertext_points Hpk H.
  unfold aggregate_and_decrypt_with_key in H. apply result_bind_Ok in H as (agg & Hagg & H).
  apply result_bind_Ok in H as (R & HR & H). apply ok_or_Ok in HR as ->. rewrite Hp in H. cbn [result_bind] in H.
  destruct (pairing_is_one _ _) eqn:E; [|done]. cbn [negb] in H. rewrite He in H. cbn [result_bind] in H. injection H as <-.
  destruct (interpolate_decryption_exists _ _ _ _ _ _ (fun P (E0 : None = Some P) => ltac:(discriminate E0)) Hagg) as [v Hv].
  { by rewrite !length_map. }
  apply (pairing_law _ _ _ _ _ _ _ _ Hap at2_affine_generator Hpk (at1_to_affine _ _ Hv)) in E.
  exists encrypted, e, random, r. eexists. split_and!; [done..|].
  replace (e - x * r) with (e + - v); [by apply at1_add; [|apply at1_cneg]|].
  replace v with (x * - r + v * 1 + x * r) by ring. rewrite E. ring.
Qed.

Lemma decrypt_with_key_honest c pk xs (shares : list (N * bytes)) sc random r : valid_ciphertext c ->
  at1 (p1_from_affine pk) (peval xs 0 * fr_from_u64 sc) ->
  decode_g1 (random_commitment c) "random commitment" = Ok random -> at1 (p1_from_affine random) r ->
  shares <> [] -> NoDup (map fst shares) -> (length xs <= length shares)%nat ->
  Forall (fun e => (e.1 <= 16)%N /\ exists P, e.2 = compress P /\ at1 P (r * peval xs (fr_from_u64 e.1))) shares ->
  exists key, aggregate_and_decrypt_with_key c pk shares sc = Ok key.
Proof.
  intros (encrypted & e & random' & r' & pairing & He & Hae & Hr & Har & Hp & Hap)%valid_ciphertext_points Hpk Hr' Har' Hne Hn Hl Hs.
  rewrite Hr in Hr'. injection Hr' as ->. pose proof (at1_unique _ _ _ Har Har') as ->.
  destruct (interpolate_decryption_honest shares sc xs r Hne Hn Hs Hl) as (R & ER & HR).
  unfold aggregate_and_decrypt_with_key. rewrite ER. cbn [result_bind ok_or]. rewrite Hp. cbn [result_bind].
  rewrite (proj2 (pairing_law _ _ _ _ _ _ _ _ Hap at2_affine_generator Hpk (at1_to_affine _ _ HR))) by ring.
  cbn [negb]. rewrite He. cbn [result_bind]. by eexists.
Qed.

Lemma decryption_share_at c s random r share : secret_new s = Ok s ->
  decode_g1 (random_commitment c) "random commitment" = Ok random -> at1 (p1_from_affine random) r ->
  decryption_share c s = Ok share -> exists P, share = compress P /\ at1 P (r * fr_from_secret s).
Proof.
  intros [_ Hs]%secret_new_Ok Hr Har H. unfold decryption_share in H. destruct (negb _); [done|]. rewrite Hr in H.
  cbn [result_bind] in H. injection H as <-. eexists. split; [reflexivity|]. apply at1_mult_bendian; [done|apply Hs].
Qed.

(** The contributions of [honest] members, one share of each ciphertext, are among the
    contributions. *)
Definition honest_contributions (d : DkgParameters) (pvsses : list bytes) (ciphertexts : list TpkeCiphertext)
    (contributions : list (N * list bytes)) (honest : list (N * bytes)) : Prop :=
  NoDup (map fst honest) /\ threshold d <= lenN honest /\
  forall i s, (i, s) ∈ honest -> verify_aggregated_dkg_share_with_parameters i s pvsses d = Ok tt /\
    exists contribution, collect_result (fun c => decryption_share c s) ciphertexts = Ok contribution /\
      (i, contribution) ∈ contributions.

Lemma keys_exist x ciphertexts : Forall valid_ciphertext ciphertexts -> exists keys, Forall2 (opens x) ciphertexts keys.
Proof.
  induction 1 as [|c l Hc _ [keys IH]]; [exists []; constructor|].
  apply valid_ciphertext_points in Hc as (encrypted & e & random & r & pairing & He & Hae & Hr & Har & _).
  pose proof (at1_mult _ _ (e - x * r) at1_generator) as HK. replace (1 * (e - x * r)) with (e - x * r) in HK by ring.
  eexists (compress _ :: keys). constructor; [|done]. exists encrypted, e, random, r. eexists. split_and!; [done..|exact HK].
Qed.

Lemma opens_keys x ciphertexts keys keys' : Forall2 (opens x) ciphertexts keys -> Forall2 (opens x) ciphertexts keys' -> keys = keys'.
Proof.
  intros H. revert keys'. induction H as [|c k l keys Hk _ IH]; intros keys' H'; [by apply Forall2_nil_inv_l in H' as ->|].
  apply Forall2_cons_inv_l in H' as (k' & ks' & Hk' & H' & ->). f_equal; [by eapply opens_unique|by apply IH].
Qed.

(** The shares of one ciphertext in a selection of honest contributions. *)
Lemma honest_shares_at d pvsses ciphertexts contributions honest xs selected j c random r :
  honest_contributions d pvsses ciphertexts contributions honest -> NoDup (map fst contributions) ->
  (forall i s, verify_aggregated_dkg_share_with_parameters i s pvsses d = Ok tt ->
     secret_new s = Ok s /\ fr_from_secret s = peval xs (fr_from_u64 i) /\ (1 <= i <= participants d)%N) ->
  (participants d <= 16)%N ->
  (forall e, e ∈ selected -> e ∈ contributions /\ exists s, (e.1, s) ∈ honest) ->
  ciphertexts !! j = Some c -> decode_g1 (random_commitment c) "random commitment" = Ok random -> at1 (p1_from_affine random) r ->
  Forall (fun e => (e.1 <= 16)%N /\ exists P, e.2 = compress P /\ at1 P (r * peval xs (fr_from_u64 e.1))) (shares_at j selected).
Proof.
  intros (_ & _ & Hh) Hn Hxs Hp Hsel Hj Hr Har. unfold shares_at. apply Forall_map, Forall_forall. intros [i contribution] He.
  destruct (Hsel _ He) as [Hin [s Hs]]. cbn in Hs |- *. destruct (Hh i s Hs) as (Hv & contribution' & Hc & Hin').
  assert (contribution' = contribution) as -> by (by eapply key_unique). destruct (Hxs i s Hv) as (Hsv & Es & Hi). split; [lia|].
  apply collect_result_Ok in Hc. destruct (Forall2_lookup_l _ _ _ _ _ Hc Hj) as (share & Hsh & Hd).
  rewrite (nth_lookup_Some _ _ _ _ Hsh), <- Es. by eapply decryption_share_at.
Qed.

Lemma shares_at_fst j (selected : list (N * list bytes)) : map fst (shares_at j selected) = map fst selected.
Proof. unfold shares_at. rewrite map_map. apply map_ext. by intros [i l]. Qed.

(** A threshold of honest contributions is a selection that decrypts every ciphertext. *)
Lemma honest_decrypts d pvsses ciphertexts contributions honest xs pk :
  honest_contributions d pvsses ciphertexts contributions honest -> NoDup (map fst contributions) ->
  (forall i s, verify_aggregated_dkg_share_with_parameters i s pvsses d = Ok tt ->
     secret_new s = Ok s /\ fr_from_secret s = peval xs (fr_from_u64 i) /\ (1 <= i <= participants d)%N) ->
  (1 <= threshold d)%N -> (participants d <= 16)%N -> (length xs <= N.to_nat (threshold d))%nat ->
  Forall valid_ciphertext ciphertexts -> at1 (p1_from_affine pk) (peval xs 0 * fr_from_u64 (scaler d)) ->
  exists selected keys,
    sublist selected (sort_by_index (filter (fun c => lenN c.2 = lenN ciphertexts) contributions)) /\
    lenN selected = threshold d /\ length keys = length ciphertexts /\
    forall j c key, ciphertexts !! j = Some c -> keys !! j = Some key ->
      aggregate_and_decrypt_with_key c pk (shares_at j selected) (scaler d) = Ok key.
Proof.
  intros Hh Hn Hxs Ht Hp Hl Hc Hpk. pose proof Hh as (Hnd & Hth & Hin).
  set (eligible := filter _ contributions).
  assert (Hperm : sort_by_index eligible ≡ₚ eligible) by apply merge_sort_Permutation.
  destruct (honest_selection d honest (sort_by_index eligible) Hnd Hth) as (sel & Hsub & Hlen & Hnsel & Hsel).
  { rewrite Hperm. eapply sublist_NoDup; [exact Hn|]. apply (fmap_sublist fst), sublist_filter. }
  { intros i s Hs. rewrite Hperm. destruct (Hin i s Hs) as (_ & contribution & Hcol & H).
    apply list_elem_of_fmap. exists (i, contribution). split; [done|]. apply list_elem_of_filter. split; [|done].
    apply collect_result_Ok, Forall2_length in Hcol. unfold lenN. cbn. by rewrite Hcol. }
  assert (Hsel' : forall e, e ∈ sel -> e ∈ contributions /\ exists s, (e.1, s) ∈ honest).
  { intros e [He Hs]%Hsel. rewrite Hperm in He. by apply list_elem_of_filter in He as [_ He]. }
  destruct (collect_result_total (fun e => aggregate_and_decrypt_with_key e.2 pk (shares_at e.1 sel) (scaler d)) (imap pair ciphertexts))
    as [keys Hkeys%collect_result_Ok].
  - intros [j c] (k & Hk)%list_elem_of_lookup. rewrite list_lookup_imap in Hk. destruct (ciphertexts !! k) as [c'|] eqn:Ec; [|done].
    injection Hk as -> ->. cbn. rewrite Forall_lookup in Hc. specialize (Hc j c Ec).
    destruct (valid_ciphertext_points c Hc) as (_ & _ & random & r & _ & _ & _ & Hr & Har & _).
    apply (decrypt_with_key_honest c pk xs (shares_at j sel) (scaler d) random r); [done..| | | |].
    + intros E. apply (f_equal length) in E. unfold shares_at in E. rewrite length_map in E. unfold lenN in Hlen. cbn in E. lia.
    + by rewrite shares_at_fst.
    + unfold shares_at. rewrite length_map. unfold lenN in Hlen. lia.
    + by eapply honest_shares_at.
  - exists sel, keys. split_and!; [done..|apply Forall2_length in Hkeys; by rewrite length_imap in Hkeys|].
    intros j c key Hj Hk. destruct (Forall2_lookup_r _ _ _ _ _ Hkeys Hk) as (e & He & E).
    rewrite list_lookup_imap, Hj in He. by injection He as <-.
Qed.

(** C9. Once a transcript settles a committee key, every list of valid ciphertexts has one list
    of keys under it, each the sender's point, and aggregation returns those keys from every
    set of at most a committee of contributions, whatever some of them are, that holds the
    contributions of a threshold of members with verified private shares. *)
Theorem threshold_decryption n d pvsses commitment key ciphertexts :
  dkg_parameters_new n = Ok d ->
  verify_aggregated_dkg_commitment_with_parameters commitment pvsses d = Ok tt ->
  global_public_key_from_commitment commitment (scaler d) = Ok key ->
  Forall valid_ciphertext ciphertexts ->
  exists x P keys, key = compress P /\ at1 P x /\ Forall2 (opens x) ciphertexts keys /\
    forall contributions honest,
      NoDup (map fst contributions) -> lenN contributions <= participants d -> Forall (fun e => e.1 <> 0%N) contributions ->
      honest_contributions d pvsses ciphertexts contributions honest ->
      aggregate_and_decrypt_keys_with_parameters ciphertexts key contributions (threshold d) (scaler d) (participants d) = Ok keys.
Proof.
  intros [Ht Hp]%threshold_positive Hcm Hk Hc.
  destruct (settled_key _ _ _ _ (proj1 Ht) Hcm Hk) as (Hsc & xs & Hl & (P & -> & HP) & Hxs).
  set (x := peval xs 0 * fr_from_u64 (scaler d)) in *. destruct (keys_exist x ciphertexts Hc) as [keys Hkeys].
  exists x, P, keys. split_and!; [done..|]. intros contributions honest Hn Hmax Hz Hh.
  destruct (decide (ciphertexts = [])) as [->|Hne]; [by apply Forall2_nil_inv_l in Hkeys as ->|].
  pose proof (decode_g1_compress P x "global public key" HP) as Hpk.
  destruct (honest_decrypts d pvsses ciphertexts contributions honest xs (p1_to_affine P)) as (sel & keys' & Hsel); try done; [lia|by apply at1_to_affine|].
  pose proof (sublist_filter (fun c : N * list bytes => lenN c.2 = lenN ciphertexts) contributions) as Hsub.
  apply sublist_length in Hsub as Hsl. pose proof (sublist_length _ _ (proj1 Hsel)) as Hsl'. rewrite length_sort_by_index in Hsl'.
  destruct (aggregate_decrypt_keys_search ciphertexts (compress P) contributions (threshold d) (scaler d) (participants d) (p1_to_affine P))
    as [Hsound Hcomplete]; [done|lia|destruct Hsel as (_ & Hlen & _); unfold lenN in *; lia|unfold lenN in *; lia| |done|].
  { apply validated_shares; [|done| |].
    - intros E. rewrite E in Hsl'. destruct Hsel as (_ & Hlen & _). unfold lenN in Hlen. cbn in Hsl'. lia.
    - eapply sublist_NoDup; [exact Hn|]. by apply (fmap_sublist fst).
    - apply Forall_forall. intros e [_ He]%list_elem_of_filter. rewrite Forall_forall in Hz. by apply Hz. }
  destruct (Hcomplete sel keys' Hsel) as [keys'' Hok]. unfold aggregate_and_decrypt_keys_with_parameters. rewrite Hok. f_equal.
  destruct (Hsound keys'' Hok) as (sel' & _ & _ & Hlen' & Hdec). apply (opens_keys x ciphertexts); [|done].
  apply Forall2_same_length_lookup. split; [by symmetry|]. intros j c k Hj Hkj. rewrite Forall_lookup in Hc.
  eapply decrypt_with_key_opens; [by apply (Hc j)|by apply at1_to_affine|by apply (Hdec j)].
Qed.
End threshold.
