(* ===== verification/ModelThreshold.v ===== *)
(** A field of 17 elements for blst, with itself for both groups, that has every law of
    Lagrange.v, and a committee of four with its transcript: the secret sharing and threshold
    theorems at concrete inputs. *)

From Stdlib Require Import ZArith Zmod.
From S2P Require Import Prelude Extern Instances Tpke DkgParams Lagrange Dkg Pvss Threshold.

(** ** The field *)

Definition F : Set := Zmod.Zmod 17.
Definition F_of (n : N) : F := Zmod.of_Z 17 (Z.of_N n).
Definition F_to (x : F) : N := Z.to_N (Zmod.unsigned x).
Definition F_eqb (x y : F) : bool := F_to x =? F_to y.

Lemma F_enum (P : F -> bool) : forallb P (Zmod.elements 17) = true -> forall x, P x = true.
Proof. intros H x. rewrite forallb_forall in H. apply H. by apply Zmod.in_elements. Qed.

Lemma F_to_inj x y : F_to x = F_to y -> x = y.
Proof.
  intros H. apply Zmod.unsigned_inj. unfold F_to in H.
  pose proof (Zmod.unsigned_range x). pose proof (Zmod.unsigned_range y). lia.
Qed.

Lemma F_eqb_eq x y : F_eqb x y = true <-> x = y.
Proof. unfold F_eqb. rewrite N.eqb_eq. split; [apply F_to_inj|by intros ->]. Qed.

Lemma F_to_bound x : F_to x < 17.
Proof. unfold F_to. pose proof (Zmod.unsigned_range x). lia. Qed.

Definition F_read (n : N) : option F := if n <? 17 then Some (F_of n) else None.

(** ** Encodings: the element in the first byte, and a sort bit for the second group *)

Definition head_byte (b : bytes) : N := match b with [] => 255 | x :: _ => Byte.to_N x end.
Definition F_write (n : nat) (x : F) : bytes := byte_of (F_to x) :: repeat x00 n.

Definition F_compress2 (x : F) : bytes :=
  byte_of (if F_to x <=? 8 then F_to x else 32 + (17 - F_to x)) :: repeat x00 95.

Definition F_uncompress2 (b : bytes) : option F :=
  let n := head_byte b in
  if n <=? 8 then Some (F_of n) else if (33 <=? n) && (n <=? 40) then Some (F_of (17 - (n - 32))) else None.

Definition F_from_be (b : bytes) : F :=
  let n := N_of_be b in if n <=? 16 then F_of n else F_of (1 + n mod 16).

Definition F_hash (message : bytes) : F := F_of (1 + lenN message mod 16).
Definition nonzero (x : F) : option F := if F_eqb x (F_of 0) then None else Some x.

Definition field_blst : Blst := {|
  bls_public_key := F;
  bls_signature := F;
  bls_key_validate b := F_read (head_byte b) ≫= nonzero;
  bls_sig_validate b := F_uncompress2 b ≫= nonzero;
  bls_verify s m _ k := F_eqb s (Zmod.mul k (F_hash m));
  pk_to_bytes := F_write 47;
  sig_to_bytes := F_compress2;
  secret_key := F;
  sk_from_bytes b := nonzero (F_from_be b);
  sk_sign k m _ := Zmod.mul k (F_hash m);
  sk_to_pk k := k;
  fr := F;
  fr_from_u64 := F_of;
  fr_add := Zmod.add;
  fr_mul := Zmod.mul;
  fr_sub := Zmod.sub;
  fr_cneg := Zmod.opp;
  fr_inverse := Zmod.inv;
  scalar := F;
  scalar_from_fr x := x;
  fr_from_scalar x := x;
  scalar_from_bendian := F_from_be;
  bendian_from_scalar x := be_bytes 32 (F_to x);
  sk_check x := negb (F_eqb x (F_of 0));
  p1_affine := F;
  p1 := F;
  p1_uncompress b := F_read (head_byte b);
  p1_deserialize b := F_read (head_byte b);
  p1_serialize := F_write 95;
  p1_affine_in_g1 _ := true;
  p1_affine_is_inf x := F_eqb x (F_of 0);
  p1_affine_is_equal := F_eqb;
  p1_from_affine x := x;
  p1_to_affine x := x;
  p1_affine_compress := F_write 47;
  p1_add_or_double := Zmod.add;
  p1_cneg := Zmod.opp;
  p1_mult := Zmod.mul;
  p1_affine_generator := F_of 1;
  p1_generator := F_of 1;
  p2_affine := F;
  p2 := F;
  p2_uncompress := F_uncompress2;
  p2_deserialize b := F_read (head_byte b);
  p2_serialize := F_write 191;
  p2_affine_in_g2 _ := true;
  p2_affine_is_inf x := F_eqb x (F_of 0);
  p2_from_affine x := x;
  p2_to_affine x := x;
  p2_affine_compress := F_compress2;
  p2_add_or_double := Zmod.add;
  p2_cneg := Zmod.opp;
  p2_mult := Zmod.mul;
  p2_affine_generator := F_of 1;
  p2_generator := F_of 1;
  pairing_is_one qs ps := F_eqb (foldr Zmod.add (F_of 0) (zip_with Zmod.mul ps qs)) (F_of 0);
|}.

(** ** The laws *)

Definition opt_eqb (a : option F) (x : F) : bool := match a with Some y => F_eqb y x | None => false end.

Lemma opt_eqb_eq a x : opt_eqb a x = true -> a = Some x.
Proof. destruct a as [y|]; [|done]. cbn. by intros ->%F_eqb_eq. Qed.

Lemma F_read_write n x : F_read (head_byte (F_write n x)) = Some x.
Proof.
  apply opt_eqb_eq. unfold F_write. cbn [head_byte].
  apply (F_enum (fun x => opt_eqb (F_read (Byte.to_N (byte_of (F_to x)))) x)). by vm_compute.
Qed.

Lemma F_uncompress_compress x : F_uncompress2 (F_compress2 x) = Some x.
Proof. apply opt_eqb_eq. revert x. apply F_enum. by vm_compute. Qed.

Lemma F_of_to x : F_of (F_to x) = x.
Proof. apply F_eqb_eq. revert x. apply F_enum. by vm_compute. Qed.

Lemma F_be x : N_of_be (be_bytes 32 (F_to x)) = F_to x.
Proof. apply N.eqb_eq. revert x. apply F_enum. by vm_compute. Qed.

Lemma F_small a : a <= 16 -> F_to (F_of a) = a.
Proof. intros H. unfold F_to, F_of. rewrite Zmod.unsigned_of_Z, Z.mod_small by lia. lia. Qed.

Lemma F_inverse x : x <> F_of 0 -> Zmod.mul (Zmod.inv x) x = F_of 1.
Proof.
  intros H. apply F_eqb_eq.
  pose proof (F_enum (fun x => F_eqb x (F_of 0) || F_eqb (Zmod.mul (Zmod.inv x) x) (F_of 1)) ltac:(by vm_compute) x) as E.
  apply orb_true_iff in E as [E|E]; [by apply F_eqb_eq in E|done].
Qed.

Lemma F_from_be_zero b : F_from_be b = F_of 0 <-> N_of_be b = 0.
Proof.
  unfold F_from_be. split; [|by intros ->]. intros H%(f_equal F_to). rewrite (F_small 0) in H by lia.
  destruct (N.leb_spec (N_of_be b) 16); [by rewrite F_small in H|].
  pose proof (N.mod_lt (N_of_be b) 16 ltac:(done)) as Hm. generalize dependent (N_of_be b mod 16). intros m H Hm.
  rewrite F_small in H by lia. lia.
Qed.

#[export] Instance field_laws : FieldLaws field_blst.
Proof.
  split.
  - exact (Zmod.ring_theory 17).
  - exact F_inverse.
  - intros a b Ha Hb H%(f_equal F_to). by rewrite !F_small in H.
  - intros v. change (F_from_be (be_bytes 32 (F_to v)) = v). unfold F_from_be. rewrite F_be. pose proof (F_to_bound v : F_to v < 17).
    destruct (N.leb_spec (F_to v) 16); [apply F_of_to|lia].
  - intros v. change (N_of_be (be_bytes 32 (F_to v)) < SCALAR_MODULUS). rewrite F_be. pose proof (F_to_bound v : F_to v < 17). unfold SCALAR_MODULUS. lia.
  - intros b _. apply F_from_be_zero.
Qed.

Lemma F_pairing (y1 y2 x1 x2 : F) :
  F_eqb (foldr Zmod.add (F_of 0) (zip_with Zmod.mul [x1; x2] [y1; y2])) (F_of 0) = true <->
  Zmod.add (Zmod.mul x1 y1) (Zmod.mul x2 y2) = F_of 0.
Proof.
  rewrite F_eqb_eq. cbn. rewrite (Radd_comm (Zmod.ring_theory 17) (Zmod.mul x2 y2)), (Radd_0_l (Zmod.ring_theory 17)). done.
Qed.

#[export] Instance field_groups : GroupLaws field_blst.
Proof.
  refine (Build_GroupLaws field_blst (fun P x => (P : F) = (x : F)) _ _ _ _ _ _ _ _ _ _ _ _ _ _ _ _
    (fun P x => (P : F) = (x : F)) _ _ _ _ _ _ _ _ _ _ _ _ _ _ _); cbn -[F_write F_compress2 F_uncompress2].
  all: try (intros; subst; first [done | apply F_read_write | apply F_eqb_eq | apply F_uncompress_compress]).
  - intros a. split; [by exists a|done].
  - intros a. split; [by exists a|done].
  - intros q1 q2 a1 a2 y1 y2 x1 x2 -> -> -> ->. apply F_pairing.
Defined.

Lemma nonzero_spec x : match nonzero x with Some y => y = x /\ x <> F_of 0 | None => x = F_of 0 end.
Proof.
  unfold nonzero. destruct (F_eqb x (F_of 0)) eqn:E; [by apply F_eqb_eq in E|]. split; [done|].
  intros ->. by vm_compute in E.
Qed.

Lemma F_negate (x : F) : x <> F_of 0 -> negate_point (F_compress2 x) = F_compress2 (Zmod.opp x).
Proof.
  intros H. set (test x := F_eqb x (F_of 0) || bool_decide (negate_point (F_compress2 x) = F_compress2 (Zmod.opp x))).
  assert (E : test x = true) by (revert x H; intros x _; revert x; apply F_enum; by vm_compute).
  apply orb_true_iff in E as [E|E]; [by apply F_eqb_eq in E|by apply bool_decide_eq_true in E].
Qed.

Lemma F_hash_nonzero m : F_hash m <> F_of 0.
Proof.
  intros H%(f_equal F_to). unfold F_hash in H. pose proof (N.mod_lt (lenN m) 16 ltac:(done)) as Hm.
  generalize dependent (lenN m mod 16). intros k H Hk. rewrite !F_small in H by lia. lia.
Qed.

#[export] Instance field_signatures : SignatureLaws field_blst field_groups.
Proof.
  refine (Build_SignatureLaws field_blst field_groups (fun m _ => F_hash m) (fun k x => (k : F) = (x : F)) _
    (fun s y => (s : F) = (y : F)) _ _ _ _ _); cbn -[F_write F_compress2 F_uncompress2].
  - intros a x ->. rewrite F_read_write. cbn. pose proof (nonzero_spec x). by destruct (nonzero x).
  - intros a y ->. rewrite F_uncompress_compress. cbn. pose proof (nonzero_spec y). by destruct (nonzero y).
  - intros s y m _ k x -> ->. apply F_eqb_eq.
  - intros b k m _ H. pose proof (nonzero_spec (F_from_be b)) as Hk. rewrite H in Hk. destruct Hk as [-> _]. by eexists.
  - intros Q Q' y -> -> Hy. by apply F_negate.
  - intros Q ->. by vm_compute.
Defined.

(** ** A committee of four *)

Module Committee.
#[local] Existing Instance field_blst.

Definition secret (n : N) : bytes := be_bytes 32 n.
Definition parameters : DkgParameters := mkDkgParameters 4 3 3.

Lemma parameters_new : dkg_parameters_new 4 = Ok parameters.
Proof. by vm_compute. Qed.

(** The dealers' polynomials, their announcements, and the shares of the last one. *)
Definition dealer (l : list N) : DkgPolynomial := mkDkgPolynomial parameters (map secret l).
Definition polynomials : list DkgPolynomial := [dealer [1; 1; 1]; dealer [2; 1; 1]; dealer [3; 1; 2]; dealer [5; 2; 1]].

Definition announcement (p : DkgPolynomial) : bytes :=
  match generate_pvss_with_randomizer p (secret 7) with Ok m => material_encoded m | Err _ => [] end.

Definition transcript : list bytes := Eval vm_compute in map announcement polynomials.

(** The members' private shares: the sums of what the dealers send them. *)
Definition private (i : N) : bytes := secret (nth (N.to_nat i) [0; 4; 7; 3; 9] 0).
Definition commitment : bytes := Eval vm_compute in encode_g1 (F_of 11).
Definition key : bytes := Eval vm_compute in compress (F_of 16).

Lemma commitment_settled : verify_aggregated_dkg_commitment_with_parameters commitment transcript parameters = Ok tt.
Proof. by vm_compute. Qed.

Lemma key_settled : global_public_key_from_commitment commitment (scaler parameters) = Ok key.
Proof. by vm_compute. Qed.

Lemma shares_settled : forall i, i ∈ [1; 2; 3; 4] ->
  verify_aggregated_dkg_share_with_parameters i (private i) transcript parameters = Ok tt.
Proof.
  intros i Hi. repeat (apply elem_of_cons in Hi as [->|Hi]; [by vm_compute|]). by apply not_elem_of_nil in Hi.
Qed.

Lemma shares_nonzero_test p :
  forallb (fun i => negb (F_eqb (peval (map fr_from_secret (coefficients p)) (F_of i)) (F_of 0))) (indices_of (poly_parameters p)) = true ->
  shares_nonzero p.
Proof.
  intros H. apply Forall_forall. intros i Hi%list_elem_of_In. rewrite forallb_forall in H. specialize (H i Hi).
  apply negb_true_iff in H. intros E%F_eqb_eq. exact (eq_true_false_abs _ E H).
Qed.

Lemma dealer_new : from_encoded_coefficients_with_parameters (map secret [1; 1; 1]) parameters = Ok (dealer [1; 1; 1]).
Proof. by vm_compute. Qed.

Lemma dealer_nonzero : shares_nonzero (dealer [1; 1; 1]).
Proof. apply shares_nonzero_test. by vm_compute. Qed.

Lemma secret_valid : secret_new (secret 7) = Ok (secret 7).
Proof. by vm_compute. Qed.

(** The first dealer's announcement is accepted. *)
Lemma pvss_complete_witness :
  from_encoded_coefficients_with_parameters (map secret [1; 1; 1]) parameters = Ok (dealer [1; 1; 1]) /\
  exists m pvss, generate_pvss_with_randomizer (dealer [1; 1; 1]) (secret 7) = Ok m /\
    decode_with_parameters (material_encoded m) parameters = Ok pvss /\
    pvss_commitment pvss = poly_commitment (dealer [1; 1; 1]) /\ lenN (material_shares m) = participants parameters /\
    forall i s, material_shares m !! i = Some s -> verify_share pvss (N.of_nat i + 1) s = Ok tt.
Proof.
  split; [exact dealer_new|].
  exact (pvss_complete 4 parameters _ _ parameters_new (constructed_poly _ _ _ dealer_new) secret_valid dealer_nonzero).
Defined.

(** The second dealer's polynomial is recovered from the shares of three members. *)
Definition lost_shares : list (N * bytes) := [(4, secret 5); (1, secret 4); (3, secret 14)].
Definition draws : Draws := [Ok (secret 6); Ok (secret 0); Ok (secret 3); Ok (secret 4)].
Definition fresh : DkgPolynomial := mkDkgPolynomial parameters [secret 6; secret 3; secret 4].

Definition lost : DkgPvss :=
  Eval vm_compute in match decode_with_parameters (nth 1 transcript []) parameters with
                     | Ok pvss => pvss
                     | Err _ => mkDkgPvss parameters [] (F_of 0) (F_of 0) []
                     end.

Lemma lost_decoded : decode_with_parameters (nth 1 transcript []) parameters = Ok lost.
Proof. by_vm. Qed.

Lemma lost_verified : Forall (fun e => secret_new e.2 = Ok e.2 /\ verify_share lost e.1 e.2 = Ok tt) lost_shares.
Proof. unfold lost_shares. repeat apply Forall_cons_2; [split; by vm_compute..|apply Forall_nil_2]. Qed.

Lemma lost_distinct : NoDup (map fst lost_shares).
Proof. apply (bool_decide_eq_true_1 (NoDup (map fst lost_shares))). by vm_compute. Qed.

Lemma lost_enough : threshold parameters <= lenN lost_shares.
Proof. by vm_compute. Qed.

Lemma fresh_drawn : random_with_parameters parameters draws = Ok fresh.
Proof. by vm_compute. Qed.

Lemma pvss_recovers_witness : exists p,
  recover_and_renovate_with_parameters lost_shares parameters draws = Ok p /\
  tail (coefficients p) = tail (coefficients fresh) /\
  forall r m, secret_new r = Ok r -> generate_pvss_with_randomizer p r = Ok m ->
    exists pvss', decode_with_parameters (material_encoded m) parameters = Ok pvss' /\ renovates pvss' lost = Some true.
Proof.
  exact (pvss_recovers 4 parameters _ _ _ _ _ parameters_new lost_decoded lost_verified lost_distinct lost_enough fresh_drawn).
Defined.

(** The first member adds up the shares of the four dealers. *)
Definition received : list (bytes * bytes) := zip transcript (map secret [3; 4; 6; 8]).

Lemma dealt_test d i e pvss :
  secret_new e.2 = Ok e.2 -> decode_with_parameters e.1 d = Ok pvss -> verify_share pvss i e.2 = Ok tt -> dealt d i e.
Proof. intros H1 H2 H3. split; [done|]. by exists pvss. Qed.

Definition pvss_of (k : nat) : DkgPvss :=
  match decode_with_parameters (nth k transcript []) parameters with Ok pvss => pvss | Err _ => lost end.

Lemma received_dealt : Forall (dealt parameters 1) received.
Proof.
  unfold received. cbn [zip zip_with transcript map]. repeat apply Forall_cons_2; [..|apply Forall_nil_2].
  - apply (dealt_test _ _ _ (pvss_of 0)); by_vm.
  - apply (dealt_test _ _ _ (pvss_of 1)); by_vm.
  - apply (dealt_test _ _ _ (pvss_of 2)); by_vm.
  - apply (dealt_test _ _ _ (pvss_of 3)); by_vm.
Qed.

Lemma received_all : lenN received = participants parameters.
Proof. by_vm. Qed.

Lemma received_sum : secret_aggregate (map snd received) = Ok (private 1).
Proof. by_vm. Qed.

Lemma aggregated_share_settles_witness :
  verify_aggregated_dkg_share_with_parameters 1 (private 1) (map fst received) parameters = Ok tt.
Proof. exact (aggregated_share_settles 4 parameters 1 received _ parameters_new received_all received_dealt received_sum). Defined.

(** ** Signatures and keys of the committee *)

Definition message : bytes := [x01; x02].
Definition share_of (i : N) : bytes :=
  match sign_share message (private i) true with Ok share => share | Err _ => [] end.

(** Member 2 sends another point. *)
Definition signature_shares : list (N * bytes) :=
  Eval vm_compute in [(4, share_of 4); (2, compress_g2 (F_of 5)); (1, share_of 1); (3, share_of 3)].
Definition honest : list (N * bytes) := [(1, private 1); (3, private 3); (4, private 4)].

Lemma elem_of_test {A} `{EqDecision A} (x : A) (l : list A) : bool_decide (x ∈ l) = true -> x ∈ l.
Proof. apply bool_decide_eq_true_1. Qed.

Lemma NoDup_test {A} `{EqDecision A} (l : list A) : bool_decide (NoDup l) = true -> NoDup l.
Proof. apply bool_decide_eq_true_1. Qed.

Lemma honest_enough : NoDup (map fst honest) /\ threshold parameters <= lenN honest.
Proof. split; [apply NoDup_test|]; by vm_compute. Qed.

(** Every honest member is one of three. *)
Lemma honest_members (P : N -> bytes -> Prop) : P 1 (private 1) -> P 3 (private 3) -> P 4 (private 4) ->
  forall i s, (i, s) ∈ honest -> P i s.
Proof.
  intros H1 H3 H4 i s Hi. unfold honest in Hi. repeat (apply elem_of_cons in Hi as [[= -> ->]|Hi]; [done|]).
  by apply not_elem_of_nil in Hi.
Qed.

Lemma honest_signs : honest_shares parameters transcript message true signature_shares honest.
Proof.
  split; [apply honest_enough|]. split; [apply honest_enough|]. apply honest_members.
  - split; [apply shares_settled, elem_of_test; by vm_compute|]. exists (share_of 1). split; [by_vm|apply elem_of_test; by vm_compute].
  - split; [apply shares_settled, elem_of_test; by vm_compute|]. exists (share_of 3). split; [by_vm|apply elem_of_test; by vm_compute].
  - split; [apply shares_settled, elem_of_test; by vm_compute|]. exists (share_of 4). split; [by_vm|apply elem_of_test; by vm_compute].
Qed.

Lemma shares_distinct : NoDup (map fst signature_shares).
Proof. apply NoDup_test. by vm_compute. Qed.

Lemma shares_few : lenN signature_shares <= participants parameters.
Proof. by vm_compute. Qed.

Lemma shares_decode : Forall (fun e => e.1 <> 0%N /\ is_ok (signature_share_decode e.2) = true) signature_shares.
Proof. unfold signature_shares. repeat apply Forall_cons_2; [split; [done|by_vm]..|apply Forall_nil_2]. Qed.

Lemma key_valid : bls_key_validate key = Some (F_of 16).
Proof. by_vm. Qed.

Lemma threshold_signature_witness : exists signature, verifies message (F_of 16) true signature /\
  aggregate_and_verify_signature_shares_with_parameters message key signature_shares (threshold parameters)
    (scaler parameters) true (participants parameters) = Ok signature.
Proof.
  destruct (threshold_signature (Z := field_signatures) 4 parameters transcript commitment key _ message true parameters_new commitment_settled
    key_settled key_valid (F_hash_nonzero message)) as (signature & Hv & H).
  exists signature. split; [exact Hv|]. exact (H _ _ shares_distinct shares_few shares_decode honest_signs).
Defined.

(** The points 6 and 8, encrypted with the random scalars 2 and 3. *)
Definition ciphertext (m r : N) : TpkeCiphertext :=
  mkTpkeCiphertext (compress (F_of (m + 16 * r))) (compress (F_of r)) (compress_g2 (Zmod.opp (F_of r))).
Definition ciphertexts : list TpkeCiphertext := Eval vm_compute in [ciphertext 6 2; ciphertext 8 3].

Lemma ciphertexts_valid : Forall valid_ciphertext ciphertexts.
Proof.
  unfold ciphertexts. repeat apply Forall_cons_2; [..|apply Forall_nil_2].
  - split; [exists (ciphertext_to_bytes (ciphertext 6 2)); by_vm|by_vm].
  - split; [exists (ciphertext_to_bytes (ciphertext 8 3)); by_vm|by_vm].
Qed.

Definition contribution_of (i : N) : list bytes :=
  match collect_result (fun c => decryption_share c (private i)) ciphertexts with Ok l => l | Err _ => [] end.

(** Member 2 sends points that are not its shares. *)
Definition contributions : list (N * list bytes) :=
  Eval vm_compute in
    [(2, [compress (F_of 3); compress (F_of 4)]); (3, contribution_of 3); (4, contribution_of 4); (1, contribution_of 1)].

Lemma honest_contributes : honest_contributions parameters transcript ciphertexts contributions honest.
Proof.
  split; [apply honest_enough|]. split; [apply honest_enough|]. apply honest_members.
  - split; [apply shares_settled, elem_of_test; by vm_compute|]. exists (contribution_of 1). split; [by_vm|apply elem_of_test; by vm_compute].
  - split; [apply shares_settled, elem_of_test; by vm_compute|]. exists (contribution_of 3). split; [by_vm|apply elem_of_test; by vm_compute].
  - split; [apply shares_settled, elem_of_test; by vm_compute|]. exists (contribution_of 4). split; [by_vm|apply elem_of_test; by vm_compute].
Qed.

Lemma contributions_distinct : NoDup (map fst contributions).
Proof. apply NoDup_test. by vm_compute. Qed.

Lemma contributions_few : lenN contributions <= participants parameters.
Proof. by vm_compute. Qed.

Lemma contributions_indexed : Forall (fun e => e.1 <> 0%N) contributions.
Proof. unfold contributions. repeat apply Forall_cons_2; [done..|apply Forall_nil_2]. Qed.

Lemma threshold_decryption_witness : exists x P keys, key = compress P /\ at1 P x /\ Forall2 (opens x) ciphertexts keys /\
  aggregate_and_decrypt_keys_with_parameters ciphertexts key contributions (threshold parameters) (scaler parameters)
    (participants parameters) = Ok keys.
Proof.
  destruct (threshold_decryption 4 parameters transcript commitment key ciphertexts parameters_new commitment_settled
    key_settled ciphertexts_valid) as (x & P & keys & Hk & HP & Ho & H).
  exists x, P, keys. split; [exact Hk|]. split; [exact HP|]. split; [exact Ho|].
  exact (H _ _ contributions_distinct contributions_few contributions_indexed honest_contributes).
Defined.

(** The keys are the senders' points. *)
Example committee_keys :
  aggregate_and_decrypt_keys_with_parameters ciphertexts key contributions 3 3 4 = Ok [compress (F_of 6); compress (F_of 8)].
Proof. by_vm. Qed.
End Committee.
