(* ===== verification/DkgState.v ===== *)
(** The key store of distributed key generation (crates/neox/antimev/src/dkg_state.rs): the
    groups of the current and of the unfinished round, the material a validator prepares,
    the shares it receives, and the settlement of a round. *)

From S2P Require Import Prelude Extern Instances Tpke DkgParams Lagrange Dkg Pvss Threshold.

Module KeyStoreError.
Inductive t : Type :=
| InvalidMessagePrivateKey
| ValidatorAddressMismatch (expected actual : Address)
| Entropy (error : string)
| Material (error : DkgMaterialError)
| GroupUnavailable (group : string)
| InvalidParticipantIndex (index : N)
| InvalidMessageCount (actual expected : N)
| ConflictingReceivedShare (from_index : N)
| SettledLocalSecretUnavailable
| InvalidRecoveryCount (actual limit : N)
| DuplicateRecoveryIndex (index : N)
| MissingRecoverySource (index : N)
| InsufficientRecoveryShares (actual expected : N)
| PendingSecretNotConfirmed
| SelfPvssMembershipMismatch
| MissingReceivedShare (position : N)
| MissingPreviousCommitment
| InvalidAggregatedCommitment (error : TpkeError)
| RoundOverflow
(** an index out of range *)
| Panicked.
End KeyStoreError.
Notation KeyStoreError := KeyStoreError.t.

#[export] Instance parameters_eq_dec : EqDecision DkgParameters.
Proof. solve_decision. Defined.
#[export] Instance polynomial_eq_dec : EqDecision DkgPolynomial.
Proof. solve_decision. Defined.

(** ** Message keys *)

Section state.
Context {B : Blst} {Z : Ecies} {Sy : Symmetric}.

(** [DkgMessagePrivateKey::new] *)
Definition message_key_new (encoded : bytes) : result KeyStoreError bytes :=
  let? _ := ok_or (secret_from_slice encoded) KeyStoreError.InvalidMessagePrivateKey in Ok encoded.

(** [DkgMessagePrivateKey::generate], over the draws of the system's generator. *)
Fixpoint message_key_generate (rng : Draws) : result KeyStoreError (bytes * Draws) :=
  match rng with
  | [] => Err (KeyStoreError.Entropy "no draw")
  | draw :: rng =>
      let? encoded := map_err KeyStoreError.Entropy draw in
      match message_key_new encoded with
      | Ok key => Ok (key, rng)
      | Err _ => message_key_generate rng
      end
  end.

(** [DkgMessagePrivateKey::public_key]; [None] is the [expect]. *)
Definition message_key_public (key : bytes) : option bytes := secret_public_key <$> secret_from_slice key.

(** ** Key groups *)

Record DkgKeyGroup : Type := mkDkgKeyGroup {
  local_secret : option DkgPolynomial;
  pending_secrets : list DkgPolynomial;
  received_secrets : list (option bytes);
  global_public_key : option bytes;
  local_private_key : option bytes;
}.

Definition group_new (parameters : DkgParameters) : DkgKeyGroup :=
  mkDkgKeyGroup None [] (replicate (N.to_nat (participants parameters)) None) None None.

Definition reshare_template (previous : DkgKeyGroup) : DkgKeyGroup :=
  mkDkgKeyGroup None [] (replicate (length (received_secrets previous)) None) (global_public_key previous) None.

Definition set_received (g : DkgKeyGroup) (l : list (option bytes)) : DkgKeyGroup :=
  mkDkgKeyGroup (local_secret g) (pending_secrets g) l (global_public_key g) (local_private_key g).
Definition set_local_secret (g : DkgKeyGroup) (p : DkgPolynomial) : DkgKeyGroup :=
  mkDkgKeyGroup (Some p) (pending_secrets g) (received_secrets g) (global_public_key g) (local_private_key g).
Definition push_pending (g : DkgKeyGroup) (p : DkgPolynomial) : DkgKeyGroup :=
  mkDkgKeyGroup (local_secret g) (pending_secrets g ++ [p]) (received_secrets g) (global_public_key g) (local_private_key g).

Definition store_received (g : DkgKeyGroup) (from_index : N) (share : bytes) : DkgKeyGroup * result KeyStoreError bool :=
  if (from_index =? 0) || (lenN (received_secrets g) <? from_index)
  then (g, Err (KeyStoreError.InvalidParticipantIndex from_index))
  else
    let slot := N.to_nat (from_index - 1) in
    match received_secrets g !! slot with
    | Some (Some existing) =>
        if bool_decide (existing = share) then (g, Ok false)
        else (g, Err (KeyStoreError.ConflictingReceivedShare from_index))
    | Some None => (set_received g (<[slot := Some share]> (received_secrets g)), Ok true)
    | None => (g, Err KeyStoreError.Panicked)
    end.

Definition confirm_local_secret (g : DkgKeyGroup) (pvss : DkgPvss) : DkgKeyGroup * result KeyStoreError unit :=
  let commitment := pvss_commitment pvss in
  match List.find (fun secret => bool_decide (poly_commitment secret = commitment)) (pending_secrets g) with
  | Some secret => (set_local_secret g secret, Ok tt)
  | None => (g, Err KeyStoreError.PendingSecretNotConfirmed)
  end.

(** The shares of every participant, or the first that is missing. *)
Fixpoint all_received (position : N) (l : list (option bytes)) : result KeyStoreError (list bytes) :=
  match l with
  | [] => Ok []
  | share :: rest =>
      let? share := ok_or share (KeyStoreError.MissingReceivedShare (position + 1)) in
      let? shares := all_received (position + 1) rest in
      Ok (share :: shares)
  end.

(** [settle], which leaves the group as it was when it fails. *)
Definition settle (g : DkgKeyGroup) (aggregated_commitment : bytes) (is_receiver : bool) (parameters : DkgParameters)
    : result KeyStoreError DkgKeyGroup :=
  let? key :=
    map_err KeyStoreError.InvalidAggregatedCommitment
      (global_public_key_from_commitment aggregated_commitment (scaler parameters)) in
  let? private_key :=
    if is_receiver then
      let? shares := all_received 0 (received_secrets g) in
      let? share := map_err KeyStoreError.Material (secret_aggregate shares) in
      Ok (Some share)
    else Ok None in
  Ok (mkDkgKeyGroup (local_secret g) (pending_secrets g) (received_secrets g) (Some key) private_key).

(** ** The store *)

Record DkgKeyStore : Type := mkDkgKeyStore {
  store_parameters : DkgParameters;
  store_round : N;
  validator_address : option Address;
  message_private_key : bytes;
  recovering : option DkgKeyGroup;
  resharing : option DkgKeyGroup;
  reshared : option DkgKeyGroup;
  sharing : option DkgKeyGroup;
  shared : option DkgKeyGroup;
}.

Definition store_new_with_parameters (message_private_key : bytes) (parameters : DkgParameters) : DkgKeyStore :=
  mkDkgKeyStore parameters 0 None message_private_key None None None None None.

Definition store_new (message_private_key : bytes) : DkgKeyStore :=
  store_new_with_parameters message_private_key canonical.

Definition detached_replay_baseline (s : DkgKeyStore) (prior_round : N) : DkgKeyStore :=
  mkDkgKeyStore (store_parameters s) prior_round (validator_address s) (message_private_key s) None None None None None.

Definition bind_validator_address (s : DkgKeyStore) (address : Address) : DkgKeyStore * result KeyStoreError unit :=
  match validator_address s with
  | Some expected =>
      if bool_decide (expected = address) then (s, Ok tt)
      else (s, Err (KeyStoreError.ValidatorAddressMismatch expected address))
  | None =>
      (mkDkgKeyStore (store_parameters s) (store_round s) (Some address) (message_private_key s) (recovering s)
         (resharing s) (reshared s) (sharing s) (shared s), Ok tt)
  end.

Definition is_sharing (s : DkgKeyStore) : bool := bool_decide (is_Some (sharing s)).
Definition is_resharing (s : DkgKeyStore) : bool := bool_decide (is_Some (resharing s)).
Definition is_recovering (s : DkgKeyStore) : bool := bool_decide (is_Some (recovering s)).
Definition message_public_key (s : DkgKeyStore) : option bytes := message_key_public (message_private_key s).
Definition current_private_share (s : DkgKeyStore) : option bytes := shared s ≫= local_private_key.
Definition previous_private_share (s : DkgKeyStore) : option bytes := reshared s ≫= local_private_key.
Definition current_global_public_key (s : DkgKeyStore) : option bytes := shared s ≫= global_public_key.
Definition previous_global_public_key (s : DkgKeyStore) : option bytes := reshared s ≫= global_public_key.

(** The store with other groups of the unfinished round. *)
Definition set_unfinished (s : DkgKeyStore) (recovering resharing sharing : option DkgKeyGroup) : DkgKeyStore :=
  mkDkgKeyStore (store_parameters s) (store_round s) (validator_address s) (message_private_key s) recovering resharing
    (reshared s) sharing (shared s).

Definition on_share_period_start (s : DkgKeyStore) (force_reshare : bool) : DkgKeyStore :=
  let resharing :=
    match shared s with
    | Some previous => Some (reshare_template previous)
    | None => if force_reshare then Some (group_new (store_parameters s)) else None
    end in
  set_unfinished s None resharing (Some (group_new (store_parameters s))).

Definition on_recover_period_start (s : DkgKeyStore) : DkgKeyStore :=
  set_unfinished s (Some (group_new (store_parameters s))) (resharing s) (sharing s).

Definition revert_round (s : DkgKeyStore) : DkgKeyStore := set_unfinished s None None None.

(** ** Preparing material *)

Definition prepare_share (s : DkgKeyStore) (fuel : nat) (chain_id : N) (rng : Draws)
    : DkgKeyStore * result KeyStoreError DkgPvssMaterial :=
  let prepared :=
    let? next_round := ok_or (checked_add U64_MAX (store_round s) 1) KeyStoreError.RoundOverflow in
    let? polynomial :=
      map_err KeyStoreError.Material
        (deterministic_with_parameters fuel (message_private_key s) chain_id next_round (store_parameters s)) in
    let? material := map_err KeyStoreError.Material (generate_pvss polynomial rng) in
    let? sharing := ok_or (sharing s) (KeyStoreError.GroupUnavailable "sharing") in
    Ok (polynomial, material, sharing) in
  match prepared with
  | Err e => (s, Err e)
  | Ok (polynomial, material, g) =>
      let g := if bool_decide (polynomial ∈ pending_secrets g) then g else push_pending g polynomial in
      (set_unfinished s (recovering s) (resharing s) (Some g), Ok material)
  end.

Definition prepare_reshare (s : DkgKeyStore) (rng rng' : Draws) : result KeyStoreError DkgPvssMaterial :=
  if negb (is_resharing s) then Err (KeyStoreError.GroupUnavailable "resharing")
  else
    let? secret := ok_or (shared s ≫= local_secret) KeyStoreError.SettledLocalSecretUnavailable in
    map_err KeyStoreError.Material (let? renovated := poly_renovate secret rng in generate_pvss renovated rng').

Definition validate_index (index : N) (parameters : DkgParameters) : result KeyStoreError unit :=
  if index_valid parameters index then Ok tt else Err (KeyStoreError.InvalidParticipantIndex index).

Fixpoint validate_each_recovery (parameters : DkgParameters) (seen indices : list N) : result KeyStoreError unit :=
  match indices with
  | [] => Ok tt
  | index :: rest =>
      let? _ := validate_index index parameters in
      if bool_decide (index ∈ seen) then Err (KeyStoreError.DuplicateRecoveryIndex index)
      else validate_each_recovery parameters (seen ++ [index]) rest
  end.

Definition validate_recovery_indices (indices : list N) (parameters : DkgParameters) : result KeyStoreError unit :=
  let limit := participants parameters - threshold parameters in
  if (lenN indices <? 1) || (limit <? lenN indices) then Err (KeyStoreError.InvalidRecoveryCount (lenN indices) limit)
  else validate_each_recovery parameters [] indices.

Definition prepare_recovery (s : DkgKeyStore) (recovery_indices : list N) : result KeyStoreError (list bytes) :=
  let? _ := validate_recovery_indices recovery_indices (store_parameters s) in
  let? shared := ok_or (shared s) (KeyStoreError.GroupUnavailable "shared") in
  collect_result (fun index =>
      let? slot := ok_or (received_secrets shared !! N.to_nat (index - 1)) KeyStoreError.Panicked in
      ok_or slot (KeyStoreError.MissingRecoverySource index)) recovery_indices.

(** The shares that were received, with their senders' indices. *)
Definition indexed_shares (l : list (option bytes)) : list (N * bytes) :=
  omap (fun '(position, share) => (fun share => (N.of_nat position + 1, share)) <$> share) (imap pair l).

Definition prepare_recovered_reshare (s : DkgKeyStore) (rng rng' : Draws)
    : DkgKeyStore * result KeyStoreError DkgPvssMaterial :=
  let prepared :=
    let? g := ok_or (recovering s) (KeyStoreError.GroupUnavailable "recovering") in
    let shares := indexed_shares (received_secrets g) in
    if lenN shares <? threshold (store_parameters s)
    then Err (KeyStoreError.InsufficientRecoveryShares (lenN shares) (threshold (store_parameters s)))
    else
      let? polynomial :=
        map_err KeyStoreError.Material (recover_and_renovate_with_parameters shares (store_parameters s) rng) in
      let? material := map_err KeyStoreError.Material (generate_pvss polynomial rng') in
      Ok (g, polynomial, material) in
  match prepared with
  | Err e => (s, Err e)
  | Ok (g, polynomial, material) =>
      (set_unfinished s (Some (set_local_secret g polynomial)) (resharing s) (sharing s), Ok material)
  end.

(** ** Receiving shares *)

Definition decrypt_received_share (s : DkgKeyStore) (self_index : N) (messages : list bytes) (pvss : bytes)
    : result KeyStoreError bytes :=
  let? _ := validate_index self_index (store_parameters s) in
  if negb (lenN messages =? participants (store_parameters s))
  then Err (KeyStoreError.InvalidMessageCount (lenN messages) (participants (store_parameters s)))
  else
    let? pvss := map_err KeyStoreError.Material (decode_with_parameters pvss (store_parameters s)) in
    let? message := ok_or (messages !! N.to_nat (self_index - 1)) KeyStoreError.Panicked in
    let? share := map_err KeyStoreError.Material (decrypt_dkg_share_message (message_private_key s) message) in
    let? _ := map_err KeyStoreError.Material (verify_share pvss self_index share) in
    Ok share.

Definition receive_share (s : DkgKeyStore) (self_index from_index : N) (messages : list bytes) (pvss : bytes)
    : DkgKeyStore * result KeyStoreError bool :=
  match sharing s with
  | None => (s, Err (KeyStoreError.GroupUnavailable "sharing"))
  | Some g =>
      match decrypt_received_share s self_index messages pvss with
      | Err e => (s, Err e)
      | Ok share =>
          let '(g, r) := store_received g from_index share in
          (set_unfinished s (recovering s) (resharing s) (Some g), r)
      end
  end.

Definition receive_reshare (s : DkgKeyStore) (self_index from_index : N) (messages : list bytes) (pvss : bytes)
    : DkgKeyStore * result KeyStoreError bool :=
  match resharing s with
  | None => (s, Err (KeyStoreError.GroupUnavailable "resharing"))
  | Some g =>
      match decrypt_received_share s self_index messages pvss with
      | Err e => (s, Err e)
      | Ok share =>
          let '(g, r) := store_received g from_index share in
          (set_unfinished s (recovering s) (Some g) (sharing s), r)
      end
  end.

Definition receive_recovery (s : DkgKeyStore) (from_index : N) (message pvss : bytes)
    : DkgKeyStore * result KeyStoreError bool :=
  match recovering s with
  | None => (s, Err (KeyStoreError.GroupUnavailable "recovering"))
  | Some g =>
      let received :=
        let? _ := validate_index from_index (store_parameters s) in
        let? pvss := map_err KeyStoreError.Material (decode_with_parameters pvss (store_parameters s)) in
        let? share := map_err KeyStoreError.Material (decrypt_dkg_share_message (message_private_key s) message) in
        let? _ := map_err KeyStoreError.Material (verify_share pvss from_index share) in
        Ok share in
      match received with
      | Err e => (s, Err e)
      | Ok share =>
          let '(g, r) := store_received g from_index share in
          (set_unfinished s (Some g) (resharing s) (sharing s), r)
      end
  end.

(** ** Settlement *)

Inductive DkgEpochChange : Type :=
| Reverted
| Advanced (round : N).

(** What a settled round replaces: the shared and the reshared group, and the round. *)
Definition settle_epoch (s : DkgKeyStore) (self_pvss aggregated_commitment previous_commitment : bytes) (is_member : bool)
    : result KeyStoreError (DkgKeyGroup * option DkgKeyGroup * N) :=
  if Bool.eqb (bool_decide (self_pvss = [])) is_member then Err KeyStoreError.SelfPvssMembershipMismatch
  else
    let? next_shared := ok_or (sharing s) (KeyStoreError.GroupUnavailable "sharing") in
    let? next_shared :=
      if is_member then
        let? self_pvss := map_err KeyStoreError.Material (decode_with_parameters self_pvss (store_parameters s)) in
        Ok (confirm_local_secret next_shared self_pvss).1
      else Ok next_shared in
    let? next_shared := settle next_shared aggregated_commitment is_member (store_parameters s) in
    let? next_reshared :=
      match resharing s with
      | Some resharing =>
          if bool_decide (previous_commitment = []) then Err KeyStoreError.MissingPreviousCommitment
          else let? reshared := settle resharing previous_commitment is_member (store_parameters s) in Ok (Some reshared)
      | None => Ok None
      end in
    let? next_round := ok_or (checked_add U64_MAX (store_round s) 1) KeyStoreError.RoundOverflow in
    Ok (next_shared, next_reshared, next_round).

Definition on_epoch_change (s : DkgKeyStore) (self_pvss aggregated_commitment previous_commitment : bytes) (is_member : bool)
    : DkgKeyStore * result KeyStoreError DkgEpochChange :=
  match aggregated_commitment with
  | [] => (revert_round s, Ok Reverted)
  | _ =>
      match settle_epoch s self_pvss aggregated_commitment previous_commitment is_member with
      | Err e => (s, Err e)
      | Ok (next_shared, next_reshared, next_round) =>
          (mkDkgKeyStore (store_parameters s) next_round (validator_address s) (message_private_key s) None None
             next_reshared None (Some next_shared), Ok (Advanced next_round))
      end
  end.

Definition validate_round_shape (round : N) (has_shared has_reshared : bool) : result string unit :=
  if (round =? 0) && (has_shared || has_reshared) then Err "round zero cannot contain settled key groups"
  else if (0 <? round) && negb has_shared then Err "a settled round requires the current key group"
  else if (round <? 2) && has_reshared then Err "a previous key group requires at least two settled rounds"
  else Ok tt.
End state.

(** ** What a group has received *)

Section facts.
Context {B : Blst} {Z : Ecies} {Sy : Symmetric} {L : FieldLaws B} {G : GroupLaws B}.

(** Announcements by sender. *)
Definition Announcements : Type := list (N * bytes).

(** Every share of the group was dealt by the announcement of its sender. *)
Definition provenance (d : DkgParameters) (i : N) (cs : Announcements) (g : DkgKeyGroup) : Prop :=
  length (received_secrets g) = N.to_nat (participants d) /\
  forall k share, received_secrets g !! k = Some (Some share) ->
    exists pvss, (N.of_nat k + 1, pvss) ∈ cs /\ dealt d i (pvss, share).

Lemma provenance_new d i cs : provenance d i cs (group_new d).
Proof.
  split; [apply length_replicate|]. intros k share H. cbn in H. apply lookup_replicate in H as [H _]. done.
Qed.

Lemma provenance_template d i cs g :
  length (received_secrets g) = N.to_nat (participants d) -> provenance d i cs (reshare_template g).
Proof.
  intros Hl. split; [cbn; by rewrite length_replicate|]. intros k share H. cbn in H. apply lookup_replicate in H as [H _]. done.
Qed.

Lemma store_received_provenance d i cs g from pvss share g' r :
  provenance d i cs g -> (from, pvss) ∈ cs -> dealt d i (pvss, share) ->
  store_received g from share = (g', r) -> provenance d i cs g'.
Proof.
  intros [Hl Hp] Hin Hd H. unfold store_received in H.
  destruct (N.eqb_spec from 0); [by injection H as <- _|]. cbn [orb] in H.
  destruct (N.ltb_spec (lenN (received_secrets g)) from); [by injection H as <- _|].
  destruct (received_secrets g !! _) as [[existing|]|] eqn:E; [by case_bool_decide; injection H as <- _| |by injection H as <- _].
  injection H as <- _. split; [cbn; by rewrite length_insert|]. cbn. intros k s Hk.
  apply list_lookup_insert_Some in Hk as [(<- & [= <-] & _)|[_ Hk]]; [|by apply Hp].
  exists pvss. split; [|done]. by replace (N.of_nat (N.to_nat (from - 1)) + 1) with from by lia.
Qed.

Lemma decrypted_valid key message share : decrypt_dkg_share_message key message = Ok share -> valid_secret share.
Proof.
  unfold decrypt_dkg_share_message. destruct (negb _); [done|]. cbv zeta. intros Hs.
  apply result_bind_Ok in Hs as (? & _ & Hs). apply result_bind_Ok in Hs as (? & _ & Hs).
  apply result_bind_Ok in Hs as (? & _ & Hs). apply result_bind_Ok in Hs as (? & _ & Hs). destruct (negb _); [done|].
  by apply secret_new_valid in Hs.
Qed.

Lemma decrypted_dealt s i messages pvss share : decrypt_received_share s i messages pvss = Ok share ->
  dealt (store_parameters s) i (pvss, share).
Proof.
  intros H. unfold decrypt_received_share in H. apply result_bind_Ok in H as (? & _ & H). destruct (negb _); [done|].
  apply result_bind_Ok in H as (p & Hp & H). apply result_bind_Ok in H as (message & _ & H).
  apply result_bind_Ok in H as (share' & Hs & H). apply result_bind_Ok in H as ([] & Hv & [= ->]).
  apply map_err_Ok in Hp, Hs, Hv. split; [by apply decrypted_valid in Hs|by exists p].
Qed.

Lemma all_received_Ok l : forall position shares, all_received position l = Ok shares <-> l = Some <$> shares.
Proof.
  induction l as [|o l IH]; intros position shares; cbn [all_received].
  - split; [by intros [= <-]|by destruct shares].
  - split.
    + intros H. apply result_bind_Ok in H as (share & Hs & H). apply ok_or_Ok in Hs as ->.
      apply result_bind_Ok in H as (rest & Hr & [= <-]). apply IH in Hr as ->. done.
    + destruct shares as [|share rest]; [done|]. intros [= -> ->]. cbn. by rewrite (proj2 (IH _ rest) eq_refl).
Qed.

(** The announcements in the order of the senders, when every sender has one. *)
Definition transcript (d : DkgParameters) (cs : Announcements) : list bytes :=
  omap (fun i => snd <$> List.find (fun c => c.1 =? i) cs) (indices_of d).

Lemma find_sender (cs : Announcements) i pvss : NoDup (map fst cs) -> (i, pvss) ∈ cs ->
  List.find (fun c => c.1 =? i) cs = Some (i, pvss).
Proof.
  intros Hn Hin. destruct (List.find _ cs) as [[j pvss']|] eqn:E.
  - apply find_some in E as [Hj%list_elem_of_In Ei%N.eqb_eq]. cbn in Ei. subst j. f_equal. f_equal. by eapply key_unique.
  - apply list_elem_of_In in Hin. pose proof (find_none _ _ E _ Hin) as H. cbn in H. by rewrite N.eqb_refl in H.
Qed.

(** The shares of a full group, each with its sender's announcement. *)
Lemma full_group_dealers d i cs g shares : NoDup (map fst cs) -> provenance d i cs g ->
  received_secrets g = Some <$> shares ->
  exists dealers, map fst dealers = transcript d cs /\ map snd dealers = shares /\
    lenN dealers = participants d /\ Forall (dealt d i) dealers.
Proof.
  intros Hn [Hl Hp] Hs.
  assert (Hlen : length shares = N.to_nat (participants d)) by (rewrite <- Hl, Hs; by rewrite length_fmap).
  assert (Hget : forall k share, shares !! k = Some share -> exists pvss, (N.of_nat k + 1, pvss) ∈ cs /\ dealt d i (pvss, share)).
  { intros k share Hk. apply Hp. by rewrite Hs, list_lookup_fmap, Hk. }
  exists (zip (transcript d cs) shares).
  assert (Ht : Forall2 (fun pvss share => dealt d i (pvss, share)) (transcript d cs) shares).
  { unfold transcript, indices_of. rewrite <- Hlen. clear -Hget Hn.
    assert (H : forall o, (forall k share, shares !! k = Some share -> exists pvss, (N.of_nat (o + k), pvss) ∈ cs /\ dealt d i (pvss, share)) ->
      Forall2 (fun pvss share => dealt d i (pvss, share))
        (omap (fun i0 => snd <$> List.find (fun c => c.1 =? i0) cs) (map N.of_nat (seq o (length shares)))) shares).
    { clear Hget. induction shares as [|s l IH]; intros o Hg; [constructor|]. cbn [length seq map omap list_omap].
      destruct (Hg 0%nat s eq_refl) as (pvss & Hin & Hd). rewrite Nat.add_0_r in Hin. rewrite (find_sender _ _ _ Hn Hin). cbn.
      constructor; [done|]. apply IH. intros k share Hk. destruct (Hg (S k) share Hk) as (p & ? & ?). exists p.
      by replace (S o + k)%nat with (o + S k)%nat by lia. }
    apply (H 1%nat). intros k share Hk. destruct (Hget k share Hk) as (p & Hp & ?). exists p. split; [|done].
    by replace (N.of_nat (1 + k)) with (N.of_nat k + 1) by lia. }
  apply Forall2_length in Ht as Htl. split_and!.
  - by rewrite fst_zip by lia.
  - by rewrite snd_zip by lia.
  - unfold lenN. rewrite length_zip. lia.
  - apply Forall2_Forall in Ht. eapply Forall_impl; [exact Ht|]. by intros [p s].
Qed.

Lemma settle_Ok g commitment member d g' : settle g commitment member d = Ok g' ->
  exists key, global_public_key_from_commitment commitment (scaler d) = Ok key /\ global_public_key g' = Some key /\
    received_secrets g' = received_secrets g /\ local_secret g' = local_secret g /\ pending_secrets g' = pending_secrets g /\
    if member then exists shares share, received_secrets g = Some <$> shares /\ secret_aggregate shares = Ok share /\
      local_private_key g' = Some share
    else local_private_key g' = None.
Proof.
  intros H. unfold settle in H. apply result_bind_Ok in H as (key & Hk & H). apply map_err_Ok in Hk.
  apply result_bind_Ok in H as (private & Hp & [= <-]). exists key. split_and!; [done..|]. destruct member; cbn.
  - apply result_bind_Ok in Hp as (shares & Hs & Hp). apply result_bind_Ok in Hp as (share & Ha & [= <-]).
    apply map_err_Ok in Ha. apply all_received_Ok in Hs. by exists shares, share.
  - by injection Hp as <-.
Qed.

Lemma confirm_received g pvss : received_secrets (confirm_local_secret g pvss).1 = received_secrets g.
Proof. unfold confirm_local_secret. by destruct (List.find _ _). Qed.

(** The groups a successful settlement installs. *)
Lemma epoch_settled s self_pvss aggregated previous member s' r :
  on_epoch_change s self_pvss aggregated previous member = (s', Ok (Advanced r)) ->
  exists g g' h, sharing s = Some g /\ received_secrets g' = received_secrets g /\
    settle g' aggregated member (store_parameters s) = Ok h /\
    (g' = g \/ exists pvss, decode_with_parameters self_pvss (store_parameters s) = Ok pvss /\ g' = (confirm_local_secret g pvss).1) /\
    store_parameters s' = store_parameters s /\ store_round s' = r /\ r = store_round s + 1 /\ r <= U64_MAX /\ shared s' = Some h /\
    sharing s' = None /\ resharing s' = None /\ recovering s' = None /\
    match resharing s with
    | Some k => exists k', settle k previous member (store_parameters s) = Ok k' /\ reshared s' = Some k'
    | None => reshared s' = None
    end.
Proof.
  intros H. unfold on_epoch_change in H. destruct aggregated as [|b aggregated]; [by injection H as _ ?|].
  destruct (settle_epoch _ _ _ _ _) as [[[h k] r']|] eqn:E; [|done]. injection H as <- <-. unfold settle_epoch in E.
  destruct (Bool.eqb _ _); [done|]. apply result_bind_Ok in E as (g & Hg & E). apply ok_or_Ok in Hg.
  apply result_bind_Ok in E as (g' & Hg' & E). apply result_bind_Ok in E as (h' & Hh & E).
  apply result_bind_Ok in E as (k' & Hk & E). apply result_bind_Ok in E as (r0 & Hr & [= <- <- <-]).
  apply ok_or_Ok, checked_add_Some in Hr as [-> Hr]. exists g, g', h'. cbn.
  assert (Hg'' : received_secrets g' = received_secrets g /\
    (g' = g \/ exists pvss, decode_with_parameters self_pvss (store_parameters s) = Ok pvss /\ g' = (confirm_local_secret g pvss).1)).
  { destruct member; [|injection Hg' as <-; auto]. apply result_bind_Ok in Hg' as (pvss & Hpv & [= <-]). apply map_err_Ok in Hpv.
    split; [apply confirm_received|]. right. by exists pvss. }
  destruct Hg'' as [Hrec Hor]. split_and!; try done.
  destruct (resharing s) as [k|]; [|by injection Hk as <-]. case_bool_decide; [done|].
  apply result_bind_Ok in Hk as (k0 & Hk & [= <-]). by exists k0.
Qed.

(** A settled member's share, against the announcements its shares came from. *)
Lemma settled_group_share n d i cs g commitment h : dkg_parameters_new n = Ok d -> NoDup (map fst cs) ->
  provenance d i cs g -> settle g commitment true d = Ok h ->
  exists share key, local_private_key h = Some share /\ global_public_key h = Some key /\
    global_public_key_from_commitment commitment (scaler d) = Ok key /\
    verify_aggregated_dkg_share_with_parameters i share (transcript d cs) d = Ok tt.
Proof.
  intros Hd Hn Hp H. apply settle_Ok in H as (key & Hk & Hg & _ & _ & _ & shares & share & Hr & Ha & Hl).
  destruct (full_group_dealers d i cs g shares Hn Hp Hr) as (dealers & Hf & Hs & Hlen & Hdealt). subst shares. rewrite <- Hf.
  exists share, key. split_and!; [done..|]. by eapply aggregated_share_settles.
Qed.

(** ** Reachable stores *)

Definition group_ok (d : DkgParameters) (g : DkgKeyGroup) : Prop :=
  length (received_secrets g) = N.to_nat (participants d) /\
  (forall k share, received_secrets g !! k = Some (Some share) -> valid_secret share) /\
  (forall share, local_private_key g = Some share -> valid_secret share) /\
  (forall p, local_secret g = Some p -> valid_polynomial d p) /\ Forall (valid_polynomial d) (pending_secrets g).

Definition groups_ok (d : DkgParameters) (o : option DkgKeyGroup) : Prop := forall g, o = Some g -> group_ok d g.

Record store_wf (s : DkgKeyStore) : Prop := {
  wf_parameters : exists n, dkg_parameters_new n = Ok (store_parameters s);
  wf_round : store_round s <= U64_MAX;
  wf_recovering : groups_ok (store_parameters s) (recovering s);
  wf_resharing : groups_ok (store_parameters s) (resharing s);
  wf_reshared : groups_ok (store_parameters s) (reshared s);
  wf_sharing : groups_ok (store_parameters s) (sharing s);
  wf_shared : groups_ok (store_parameters s) (shared s);
  wf_reshares : is_Some (resharing s) -> 1 <= store_round s;
  wf_previous : is_Some (reshared s) -> 2 <= store_round s;
}.

(** The shape a persisted store is checked for. *)
Definition store_shaped (s : DkgKeyStore) : Prop := store_round s = 0 <-> shared s = None.

(** One operation of the store; resharing is only forced once a round has settled. *)
Inductive store_step (s : DkgKeyStore) : DkgKeyStore -> Prop :=
| step_bind address : store_step s (bind_validator_address s address).1
| step_share_start force : (force = true -> 1 <= store_round s) -> store_step s (on_share_period_start s force)
| step_recover_start : store_step s (on_recover_period_start s)
| step_revert : store_step s (revert_round s)
| step_prepare_share fuel chain_id rng : store_step s (prepare_share s fuel chain_id rng).1
| step_prepare_recovered rng rng' : store_step s (prepare_recovered_reshare s rng rng').1
| step_share i from messages pvss : store_step s (receive_share s i from messages pvss).1
| step_reshare i from messages pvss : store_step s (receive_reshare s i from messages pvss).1
| step_recovery from message pvss : store_step s (receive_recovery s from message pvss).1
| step_epoch self_pvss aggregated previous member : store_step s (on_epoch_change s self_pvss aggregated previous member).1.

Inductive store_reachable (key : bytes) (d : DkgParameters) : DkgKeyStore -> Prop :=
| reach_new : store_reachable key d (store_new_with_parameters key d)
| reach_step s s' : store_reachable key d s -> store_step s s' -> store_reachable key d s'.

Lemma group_new_ok d : group_ok d (group_new d).
Proof.
  split_and!; cbn; [apply length_replicate| |done|done|constructor]. intros k share H. by apply lookup_replicate in H as [H _].
Qed.

Lemma template_ok d g : group_ok d g -> group_ok d (reshare_template g).
Proof.
  intros [Hl _]. split_and!; cbn; [by rewrite length_replicate| |done|done|constructor].
  intros k share H. by apply lookup_replicate in H as [H _].
Qed.

Lemma store_received_ok d g from share g' r : group_ok d g -> valid_secret share ->
  store_received g from share = (g', r) -> group_ok d g' /\ r <> Err KeyStoreError.Panicked.
Proof.
  intros Hok Hs H. pose proof Hok as (Hl & Hr & Hp & Hsec & Hpend). unfold store_received in H.
  destruct (N.eqb_spec from 0); [injection H as <- <-; done|]. cbn [orb] in H.
  destruct (N.ltb_spec (lenN (received_secrets g)) from); [injection H as <- <-; done|].
  destruct (received_secrets g !! _) as [[existing|]|] eqn:E.
  - case_bool_decide; injection H as <- <-; done.
  - injection H as <- <-. split; [|done]. split_and!; cbn; [by rewrite length_insert| |done|done|done].
    intros k s Hk. apply list_lookup_insert_Some in Hk as [(_ & [= <-] & _)|[_ Hk]]; [done|by eapply Hr].
  - apply lookup_ge_None in E. unfold lenN in *. lia.
Qed.

Lemma settle_ok d g commitment member h : group_ok d g -> settle g commitment member d = Ok h -> group_ok d h.
Proof.
  intros (Hl & Hr & Hp & Hs & Hpend) H. apply settle_Ok in H as (key & _ & _ & Hrec & Hsec & Hpe & Hm).
  unfold group_ok. rewrite Hrec, Hsec, Hpe. split_and!; try done. intros share E. destruct member; [|by rewrite Hm in E].
  destruct Hm as (shares & share' & _ & Ha & Hl'). rewrite Hl' in E. injection E as <-. unfold secret_aggregate in Ha.
  destruct shares; [done|]. by apply try_secret_Ok in Ha as [Ha _].
Qed.

Lemma confirm_ok d g pvss : group_ok d g -> group_ok d (confirm_local_secret g pvss).1.
Proof.
  intros (Hl & Hr & Hp & Hs & Hpend). unfold confirm_local_secret.
  destruct (List.find _ _) as [secret|] eqn:E; [|done]. apply find_some in E as [E%list_elem_of_In _].
  split_and!; cbn; try done. intros p [= <-]. rewrite Forall_forall in Hpend. by apply Hpend.
Qed.

Lemma set_unfinished_wf s rec res shr : store_wf s -> groups_ok (store_parameters s) rec -> groups_ok (store_parameters s) res ->
  groups_ok (store_parameters s) shr -> (is_Some res -> 1 <= store_round s) -> store_wf (set_unfinished s rec res shr).
Proof. intros [] H1 H2 H3 H4. by split. Qed.

Lemma groups_ok_Some d g : group_ok d g -> groups_ok d (Some g).
Proof. intros H h [= <-]. done. Qed.

Lemma groups_ok_None d : groups_ok d None.
Proof. by intros h H. Qed.

#[local] Hint Resolve groups_ok_Some groups_ok_None group_new_ok wf_recovering wf_resharing wf_sharing wf_reshares : key_store.

Lemma share_start_wf s force : store_wf s -> (force = true -> 1 <= store_round s) ->
  store_shaped s \/ 1 <= store_round s -> store_wf (on_share_period_start s force).
Proof.
  intros Hs Hf Hsh. unfold on_share_period_start. destruct (shared s) as [previous|] eqn:E.
  - apply set_unfinished_wf; auto with key_store.
    + apply groups_ok_Some, template_ok. by apply (wf_shared _ Hs).
    + intros _. destruct Hsh as [Hsh|]; [|done]. unfold store_shaped in Hsh. rewrite E in Hsh.
      destruct (N.eq_dec (store_round s) 0) as [H|]; [by apply Hsh in H|lia].
  - apply set_unfinished_wf; auto with key_store; destruct force; auto with key_store. by intros [].
Qed.

Lemma prepare_share_wf s fuel chain_id rng : store_wf s -> store_wf (prepare_share s fuel chain_id rng).1.
Proof.
  intros Hs. unfold prepare_share. destruct (let? next_round := _ in _) as [[[p m] g]|] eqn:E; [|done]. cbn.
  apply result_bind_Ok in E as (nr & _ & E). apply result_bind_Ok in E as (p' & Hp & E). apply result_bind_Ok in E as (m' & _ & E).
  apply result_bind_Ok in E as (g' & Hg & E). injection E as <- <- <-. apply map_err_Ok, deterministic_poly in Hp.
  apply ok_or_Ok in Hg. pose proof (wf_sharing _ Hs g' Hg) as Hok. apply set_unfinished_wf; auto with key_store.
  case_bool_decide; [auto with key_store|]. apply groups_ok_Some. destruct Hok as (? & ? & ? & ? & Hpend).
  split_and!; cbn; try done. apply Forall_app. by split; [|apply Forall_singleton].
Qed.

Lemma prepare_recovered_wf s rng rng' : store_wf s -> store_wf (prepare_recovered_reshare s rng rng').1.
Proof.
  intros Hs. unfold prepare_recovered_reshare. destruct (let? g := _ in _) as [[[g p] m]|] eqn:E; [|done]. cbn.
  apply result_bind_Ok in E as (g' & Hg & E). apply ok_or_Ok in Hg. cbv zeta in E. destruct (_ <? _); [done|].
  apply result_bind_Ok in E as (p' & Hp & E). apply result_bind_Ok in E as (m' & _ & E). injection E as <- <- <-.
  apply map_err_Ok, recovered_poly in Hp. pose proof (wf_recovering _ Hs g' Hg) as (? & ? & ? & ? & ?).
  apply set_unfinished_wf; auto with key_store. apply groups_ok_Some. split_and!; cbn; try done. by intros q [= <-].
Qed.

Lemma receive_share_wf s i from messages pvss : store_wf s -> store_wf (receive_share s i from messages pvss).1.
Proof.
  intros Hs. unfold receive_share. destruct (sharing s) as [g|] eqn:Eg; [|done].
  destruct (decrypt_received_share _ _ _ _) as [share|] eqn:E; [|done]. apply decrypted_dealt in E as [Hv _].
  destruct (store_received g from share) as [g' r] eqn:Er.
  apply (store_received_ok (store_parameters s)) in Er as [Hok _]; [|by apply (wf_sharing _ Hs)|done].
  apply set_unfinished_wf; auto with key_store.
Qed.

Lemma receive_reshare_wf s i from messages pvss : store_wf s -> store_wf (receive_reshare s i from messages pvss).1.
Proof.
  intros Hs. unfold receive_reshare. destruct (resharing s) as [g|] eqn:Eg; [|done].
  destruct (decrypt_received_share _ _ _ _) as [share|] eqn:E; [|done]. apply decrypted_dealt in E as [Hv _].
  destruct (store_received g from share) as [g' r] eqn:Er.
  apply (store_received_ok (store_parameters s)) in Er as [Hok _]; [|by apply (wf_resharing _ Hs)|done].
  apply set_unfinished_wf; auto with key_store.
Qed.

Lemma receive_recovery_wf s from message pvss : store_wf s -> store_wf (receive_recovery s from message pvss).1.
Proof.
  intros Hs. unfold receive_recovery. destruct (recovering s) as [g|] eqn:Eg; [|done].
  destruct (let? _ := _ in _) as [share|] eqn:E; [|done].
  apply result_bind_Ok in E as ([] & _ & E). apply result_bind_Ok in E as (p & _ & E).
  apply result_bind_Ok in E as (share' & Hd & E). apply result_bind_Ok in E as ([] & _ & [= <-]).
  apply map_err_Ok, decrypted_valid in Hd. destruct (store_received g from share') as [g' r] eqn:Er.
  apply (store_received_ok (store_parameters s)) in Er as [Hok _]; [|by apply (wf_recovering _ Hs)|done].
  apply set_unfinished_wf; auto with key_store.
Qed.

Lemma revert_wf s : store_wf s -> store_wf (revert_round s).
Proof. intros Hs. apply set_unfinished_wf; auto with key_store. by intros []. Qed.

Lemma epoch_wf s self_pvss aggregated previous member :
  store_wf s -> store_wf (on_epoch_change s self_pvss aggregated previous member).1.
Proof.
  intros Hs. destruct (on_epoch_change _ _ _ _ _) as [s' r] eqn:E. cbn. destruct r as [[|r]|e].
  - unfold on_epoch_change in E. destruct aggregated; [by injection E as <-; apply revert_wf|].
    by destruct (settle_epoch _ _ _ _ _) as [[[? ?] ?]|].
  - apply epoch_settled in E as (g & g' & h & Hg & _ & Hh & Hor & Hp & Hr & -> & Hmax & Hsh & H1 & H2 & H3 & Hre).
    assert (Hg' : group_ok (store_parameters s) g').
    { pose proof (wf_sharing _ Hs g Hg). destruct Hor as [->|(pvss & _ & ->)]; [done|by apply confirm_ok]. }
    assert (Hk : groups_ok (store_parameters s) (reshared s') /\ (is_Some (reshared s') -> 2 <= store_round s')).
    { destruct (resharing s) as [k|] eqn:Ek; [|rewrite Hre; split; [apply groups_ok_None|by intros []]].
      destruct Hre as (k' & Hk' & ->). split; [apply groups_ok_Some; eapply settle_ok; [by apply (wf_resharing _ Hs)|exact Hk']|].
      intros _. rewrite Hr. assert (1 <= store_round s) by (by apply (wf_reshares _ Hs); rewrite Ek). lia. }
    destruct Hk as [Hk1 Hk2].
    split; rewrite ?Hp, ?H1, ?H2, ?H3, ?Hsh, ?Hr in *; auto with key_store; [apply (wf_parameters _ Hs)| |by intros []].
    apply groups_ok_Some. by eapply settle_ok.
  - unfold on_epoch_change in E. destruct aggregated; [done|]. destruct (settle_epoch _ _ _ _ _) as [[[? ?] ?]|]; [done|].
    by injection E as <-.
Qed.

Lemma bind_wf s address : store_wf s -> store_wf (bind_validator_address s address).1.
Proof. intros Hs. unfold bind_validator_address. destruct (validator_address s); [by case_bool_decide|]. destruct Hs. by split. Qed.

(** Only settlement changes the round and the settled groups. *)
Definition settled_part (s : DkgKeyStore) : DkgParameters * N * option DkgKeyGroup * option DkgKeyGroup :=
  (store_parameters s, store_round s, shared s, reshared s).

Lemma step_settled s s' : store_step s s' -> settled_part s' = settled_part s \/
  (store_round s' = store_round s + 1 /\ is_Some (shared s')).
Proof.
  destruct 1; unfold settled_part; try (by left).
  - left. unfold bind_validator_address. destruct (validator_address s); [by case_bool_decide|done].
  - left. unfold prepare_share. by destruct (let? next_round := _ in _) as [[[? ?] ?]|].
  - left. unfold prepare_recovered_reshare. by destruct (let? g := _ in _) as [[[? ?] ?]|].
  - left. unfold receive_share. destruct (sharing s); [|done]. destruct (decrypt_received_share _ _ _ _); [|done].
    by destruct (store_received _ _ _).
  - left. unfold receive_reshare. destruct (resharing s); [|done]. destruct (decrypt_received_share _ _ _ _); [|done].
    by destruct (store_received _ _ _).
  - left. unfold receive_recovery. destruct (recovering s); [|done]. destruct (let? _ := _ in _); [|done].
    by destruct (store_received _ _ _).
  - destruct (on_epoch_change _ _ _ _ _) as [s' r] eqn:E. cbn. destruct r as [[|r]|e].
    + left. unfold on_epoch_change in E. destruct aggregated; [by injection E as <-|].
      by destruct (settle_epoch _ _ _ _ _) as [[[? ?] ?]|].
    + right. apply epoch_settled in E as (g & g' & h & _ & _ & _ & _ & _ & Hr & Hr' & _ & Hsh & _). rewrite Hsh, Hr, Hr'. by split.
    + left. unfold on_epoch_change in E. destruct aggregated; [done|]. destruct (settle_epoch _ _ _ _ _) as [[[? ?] ?]|]; [done|].
      by injection E as <-.
Qed.

Lemma step_shaped s s' : store_step s s' -> store_shaped s -> store_shaped s'.
Proof.
  unfold store_shaped. intros [H|[Hr [h Hh]]]%step_settled Hs; [by injection H as _ -> -> _|].
  rewrite Hh, Hr. split; [lia|done].
Qed.

Lemma step_wf s s' : store_step s s' -> store_wf s -> store_shaped s -> store_wf s'.
Proof.
  destruct 1; intros Hs Hsh.
  - by apply bind_wf.
  - apply share_start_wf; auto.
  - apply set_unfinished_wf; auto with key_store.
  - by apply revert_wf.
  - by apply prepare_share_wf.
  - by apply prepare_recovered_wf.
  - by apply receive_share_wf.
  - by apply receive_reshare_wf.
  - by apply receive_recovery_wf.
  - by apply epoch_wf.
Qed.

Lemma reachable_ok n key d s : dkg_parameters_new n = Ok d -> store_reachable key d s -> store_wf s /\ store_shaped s.
Proof.
  intros Hd. induction 1 as [|s s' _ [IH1 IH2] Hstep].
  - split; [|done]. split; cbn; auto with key_store; [by exists n|unfold U64_MAX; lia|by intros []..].
  - split; [by eapply step_wf|by eapply step_shaped].
Qed.

Lemma wf_round_shape s : store_wf s -> store_shaped s ->
  validate_round_shape (store_round s) (bool_decide (is_Some (shared s))) (bool_decide (is_Some (reshared s))) = Ok tt.
Proof.
  intros Hs Hsh. unfold validate_round_shape, store_shaped in *. pose proof (wf_previous _ Hs) as Hp.
  destruct (N.eqb_spec (store_round s) 0) as [E|E].
  - rewrite E. rewrite (proj1 Hsh E). cbn. rewrite bool_decide_eq_false_2; [done|]. intros H%Hp. lia.
  - destruct (shared s) as [g|]; [|by destruct E; apply Hsh]. cbn [andb negb is_Some_dec].
    rewrite (bool_decide_eq_true_2 (is_Some (Some g))) by done. rewrite andb_false_r. destruct (N.ltb_spec (store_round s) 2); [|done].
    cbn. rewrite bool_decide_eq_false_2; [done|]. intros H'%Hp. lia.
Qed.

Lemma validated_index i d : validate_index i d = Ok tt -> 1 <= i <= participants d.
Proof.
  unfold validate_index, index_valid. destruct (N.leb_spec 1 i), (N.leb_spec i (participants d)); by intros.
Qed.

Lemma bind_not {A C} (r : result KeyStoreError A) (k : A -> result KeyStoreError C) :
  r <> Err KeyStoreError.Panicked -> (forall a, r = Ok a -> k a <> Err KeyStoreError.Panicked) ->
  result_bind r k <> Err KeyStoreError.Panicked.
Proof. destruct r as [a|e]; cbn; intros H1 H2; [by apply H2|intros [= ->]; by apply H1]. Qed.

Lemma material_not {A} (r : result DkgMaterialError A) : map_err KeyStoreError.Material r <> Err KeyStoreError.Panicked.
Proof. by destruct r. Qed.

Lemma validate_not i d : validate_index i d <> Err KeyStoreError.Panicked.
Proof. unfold validate_index. by destruct (index_valid d i). Qed.

Lemma decrypt_not s i messages pvss : decrypt_received_share s i messages pvss <> Err KeyStoreError.Panicked.
Proof.
  unfold decrypt_received_share. apply bind_not; [apply validate_not|]. intros [] Hi%validated_index.
  destruct (N.eqb_spec (lenN messages) (participants (store_parameters s))) as [E|]; [|done]. cbn [negb].
  apply bind_not; [apply material_not|]. intros p _. destruct (messages !! N.to_nat (i - 1)) as [message|] eqn:El.
  - cbn. apply bind_not; [apply material_not|]. intros share _. apply bind_not; [apply material_not|done].
  - apply lookup_ge_None in El. unfold lenN in E. lia.
Qed.

Lemma receive_not s g from share : groups_ok (store_parameters s) (Some g) -> valid_secret share ->
  (store_received g from share).2 <> Err KeyStoreError.Panicked.
Proof.
  intros Hg Hs. destruct (store_received g from share) as [g' r] eqn:E. by eapply store_received_ok; [apply Hg| |exact E].
Qed.

Lemma receive_share_not s i from messages pvss : store_wf s ->
  (receive_share s i from messages pvss).2 <> Err KeyStoreError.Panicked.
Proof.
  intros Hs. unfold receive_share. destruct (sharing s) as [g|] eqn:Eg; [|done].
  destruct (decrypt_received_share _ _ _ _) as [share|e] eqn:E; [|cbn; intros [= ->]; by apply decrypt_not in E].
  apply decrypted_dealt in E as [Hv _]. pose proof (receive_not s g from share) as H.
  destruct (store_received g from share). apply H; [rewrite <- Eg; by apply wf_sharing|done].
Qed.

Lemma receive_reshare_not s i from messages pvss : store_wf s ->
  (receive_reshare s i from messages pvss).2 <> Err KeyStoreError.Panicked.
Proof.
  intros Hs. unfold receive_reshare. destruct (resharing s) as [g|] eqn:Eg; [|done].
  destruct (decrypt_received_share _ _ _ _) as [share|e] eqn:E; [|cbn; intros [= ->]; by apply decrypt_not in E].
  apply decrypted_dealt in E as [Hv _]. pose proof (receive_not s g from share) as H.
  destruct (store_received g from share). apply H; [rewrite <- Eg; by apply wf_resharing|done].
Qed.

Lemma validated_each d l : forall seen, validate_each_recovery d seen l = Ok tt -> Forall (fun i => 1 <= i <= participants d) l.
Proof.
  induction l as [|i l IH]; intros seen H; [constructor|]. cbn [validate_each_recovery] in H.
  apply result_bind_Ok in H as ([] & Hi%validated_index & H). case_bool_decide; [done|]. constructor; [done|by eapply IH].
Qed.

Lemma prepare_recovery_not s indices : store_wf s -> prepare_recovery s indices <> Err KeyStoreError.Panicked.
Proof.
  intros Hs. unfold prepare_recovery. apply bind_not.
  { unfold validate_recovery_indices. destruct (_ || _); [done|]. generalize (@nil N). induction indices as [|i l IH]; intros seen; [done|].
    cbn [validate_each_recovery]. apply bind_not; [apply validate_not|]. intros [] _. case_bool_decide; [done|apply IH]. }
  intros [] Hv. unfold validate_recovery_indices in Hv. destruct (_ || _); [done|]. apply validated_each in Hv.
  destruct (shared s) as [g|] eqn:Eg; [|done]. cbn [ok_or result_bind]. destruct (wf_shared _ Hs g Eg) as [Hl _].
  induction Hv as [|i l Hi _ IH]; [done|]. cbn [collect_result]. apply bind_not; [|intros ? _; apply bind_not; [done|by intros]].
  destruct (received_secrets g !! N.to_nat (i - 1)) as [o|] eqn:El; [by destruct o|]. apply lookup_ge_None in El. lia.
Qed.

End facts.
