(* ===== verification/Storage.v ===== *)
(** Canonical-state readers: the Solidity storage keys
    (crates/neox/evm/src/system_contracts.rs), the Governance validator arrays
    (crates/neox/node/src/validator.rs), and the DKG schedule and aggregate keys of
    Governance and KeyManagement (crates/neox/node/src/dkg.rs).

    A state provider is a function from storage keys to words; it may fail, and an
    absent word reads as [None]. *)

From S2P Require Import Prelude Extern Instances Tpke DkgParams.

Definition U256_MAX : N := 2 ^ 256 - 1.
Notation U256 := N (only parsing).

(** [U256::into::<B256>()] and [to_be_bytes::<32>()]. *)
Definition u256_bytes (n : U256) : B256 := be_bytes 32 n.

(** [address!("1212...0i")]: the system contracts differ in their last byte. *)
Definition system_contract (i : byte) : Address := [x12; x12] ++ repeat x00 17 ++ [i].
Definition SYSTEM_ADDRESS : Address := repeat xff 19 ++ [xfe].
Definition GOVERNANCE_PROXY_ADDRESS : Address := system_contract x01.
Definition POLICY_PROXY_ADDRESS : Address := system_contract x02.
Definition GOVERNANCE_REWARD_PROXY_ADDRESS : Address := system_contract x03.
Definition KEY_MANAGEMENT_PROXY_ADDRESS : Address := system_contract x08.

Definition POLICY_BLACKLIST_SLOT : N := 1.
Definition POLICY_MIN_GAS_TIP_CAP_SLOT : N := 2.
Definition POLICY_BASE_FEE_SLOT : N := 3.
Definition POLICY_ENVELOPE_FEE_SLOT : N := 5.
Definition POLICY_MAX_ENVELOPES_PER_BLOCK_SLOT : N := 6.
Definition POLICY_MAX_ENVELOPE_GAS_LIMIT_SLOT : N := 7.
Definition GOVERNANCE_EPOCH_DURATION_SLOT : N := 5.
Definition GOVERNANCE_CURRENT_EPOCH_START_HEIGHT_SLOT : N := 15.
Definition GOVERNANCE_CURRENT_CONSENSUS_SLOT : N := 16.
Definition GOVERNANCE_SHARE_PERIOD_DURATION_SLOT : N := 23.
Definition GOVERNANCE_PENDING_CONSENSUS_SLOT : N := 24.
Definition KEY_MANAGEMENT_ROUND_NUMBER_SLOT : N := 0.
Definition KEY_MANAGEMENT_MESSAGE_PUBKEYS_SLOT : N := 2.
Definition KEY_MANAGEMENT_RESHARE_MSGS_SLOT : N := 3.
Definition KEY_MANAGEMENT_SHARE_MSGS_SLOT : N := 4.
Definition KEY_MANAGEMENT_RECOVER_MSGS_SLOT : N := 5.
Definition KEY_MANAGEMENT_RESHARE_PVSS_SLOT : N := 6.
Definition KEY_MANAGEMENT_SHARE_PVSS_SLOT : N := 7.
Definition KEY_MANAGEMENT_AGGREGATED_COMMITMENTS_SLOT : N := 9.

Section keys.
Context {C : Crypto}.

Definition policy_blacklist_storage_key (account : Address) : U256 :=
  N_of_be (keccak256 (repeat x00 12 ++ account ++ u256_bytes POLICY_BLACKLIST_SLOT)).
Definition policy_storage_key (slot : N) : U256 := slot.
Definition dynamic_array_element_storage_key (slot index : N) : U256 :=
  wrapping_add U256_MAX (N_of_be (keccak256 (u256_bytes slot))) index.
Definition mapping_storage_key (slot key : U256) : U256 :=
  N_of_be (keccak256 (u256_bytes key ++ u256_bytes slot)).
Definition uint_mapping_storage_key (slot : N) (key : U256) : U256 := mapping_storage_key slot key.
Definition address_mapping_storage_key (slot : N) (key : Address) : U256 :=
  mapping_storage_key slot (N_of_be (repeat x00 12 ++ key)).
Definition nested_uint_mapping_storage_key (slot : N) (keys : list U256) : U256 :=
  foldl mapping_storage_key slot keys.
Definition governance_current_consensus_storage_key (index : N) : U256 :=
  dynamic_array_element_storage_key GOVERNANCE_CURRENT_CONSENSUS_SLOT index.
Definition governance_pending_consensus_storage_key (index : N) : U256 :=
  dynamic_array_element_storage_key GOVERNANCE_PENDING_CONSENSUS_SLOT index.
(** [signature.as_bytes()] is the argument. *)
Definition function_selector (signature : bytes) : bytes := take 4 (keccak256 signature).
(** The ASCII bytes of [onPersist()] and [onPersistV2()]. *)
Definition governance_on_persist_selector : bytes :=
  function_selector [x6f; x6e; x50; x65; x72; x73; x69; x73; x74; x28; x29].
Definition on_persist_v2_selector : bytes :=
  function_selector [x6f; x6e; x50; x65; x72; x73; x69; x73; x74; x56; x32; x28; x29].
End keys.

(** ** Governance validators *)

Definition MAX_VALIDATOR_COUNT : N := 256.

(** The cases of [DbftStateError] that reading the validator arrays raises. *)
Inductive GovernanceError : Type :=
| GovernanceProvider (error : string)
| GovernanceInvalidValidatorCount (count : N)
| MissingValidator (index : N)
| GovernanceDuplicateValidator.

Record GovernanceValidatorSet : Type := mkGovernanceValidatorSet {
  original : list Address;
  sorted : list Address;
  dkg_indices : list N;
}.

Section governance.
Context {C : Crypto}.
Variable storage : B256 -> result GovernanceError (option U256).

Definition read_validator (slot index : N) : result GovernanceError Address :=
  let? word := storage (u256_bytes (dynamic_array_element_storage_key slot index)) in
  let? value := ok_or word (MissingValidator index) in
  let validator := drop 12 (u256_bytes value) in
  if bool_decide (validator = ZERO_ADDRESS) then Err (MissingValidator index) else Ok validator.

Definition read_governance_address_array (slot : N) (allow_empty : bool)
    : result GovernanceError (list Address) :=
  let? word := storage (u256_bytes slot) in
  let raw_length := default 0 word in
  if USIZE_MAX <? raw_length then Err (GovernanceInvalidValidatorCount (MAX_VALIDATOR_COUNT + 1))
  else if allow_empty && (raw_length =? 0) then Ok []
  else if (raw_length =? 0) || (MAX_VALIDATOR_COUNT <? raw_length)
  then Err (GovernanceInvalidValidatorCount raw_length)
  else
    let? original :=
      collect_result (read_validator slot) (map N.of_nat (seq 0 (N.to_nat raw_length))) in
    match adjacent_repeat (sort_bytes original) with
    | Some _ => Err GovernanceDuplicateValidator
    | None => Ok original
    end.

Definition read_governance_pending_validators_from_storage : result GovernanceError (list Address) :=
  read_governance_address_array GOVERNANCE_PENDING_CONSENSUS_SLOT true.
End governance.

(** Indices ordered by the address they select. *)
Definition by_address (vs : list Address) (i j : nat) : Prop :=
  bytes_le (nth i vs []) (nth j vs []).
#[export] Instance by_address_dec vs i j : Decision (by_address vs i j).
Proof. unfold by_address. apply _. Defined.
#[export] Instance by_address_total vs : Total (by_address vs).
Proof. intros i j. unfold by_address. apply (total bytes_le). Qed.
#[export] Instance by_address_trans vs : Transitive (by_address vs).
Proof. intros i j k. unfold by_address. apply (transitivity (R := bytes_le)). Qed.

Definition sort_validator_set (vs : list Address) : GovernanceValidatorSet :=
  let original_indices := merge_sort (by_address vs) (seq 0 (length vs)) in
  mkGovernanceValidatorSet vs (map (fun i => nth i vs []) original_indices)
    (map (fun i => as_u32 (N.of_nat i) + 1) original_indices).

Definition read_governance_validator_set_from_storage `{Crypto}
    (storage : B256 -> result GovernanceError (option U256))
    : result GovernanceError GovernanceValidatorSet :=
  let? vs := read_governance_address_array storage GOVERNANCE_CURRENT_CONSENSUS_SLOT false in
  Ok (sort_validator_set vs).

(** ** DKG schedule *)

Inductive DkgPhase : Type := Idle | Share | Recover | ReshareRecover | EpochChange.

Record DkgSchedule : Type := mkDkgSchedule {
  epoch_start : N;
  share_start : N;
  recover_start : N;
  recover_check : N;
  target : N;
}.

Inductive DkgScheduleError : Type :=
| EmptySharePeriod
| SharePeriodsExceedEpoch (epoch_duration share_period_duration : N)
| HeightOverflow.

(** The plain additions and subtractions stay in range ([schedule_spec] below). *)
Definition schedule_new (epoch_start epoch_duration share_period_duration : N)
    : result DkgScheduleError DkgSchedule :=
  if share_period_duration =? 0 then Err EmptySharePeriod
  else
    let? two_share_periods := ok_or (checked_mul U64_MAX share_period_duration 2) HeightOverflow in
    if epoch_duration <? two_share_periods
    then Err (SharePeriodsExceedEpoch epoch_duration share_period_duration)
    else
      let? target := ok_or (checked_add U64_MAX epoch_start epoch_duration) HeightOverflow in
      let share_start := target - two_share_periods in
      let recover_start := share_start + share_period_duration in
      let recover_check := recover_start + share_period_duration / 2 in
      Ok (mkDkgSchedule epoch_start share_start recover_start recover_check target).

Definition phase_at (s : DkgSchedule) (height : N) : DkgPhase :=
  if height <? share_start s then Idle
  else if height <? recover_start s then Share
  else if height <? recover_check s then Recover
  else if height <? target s then ReshareRecover
  else EpochChange.

Inductive DkgScheduleStateError : Type :=
| ScheduleProvider (error : string)
| ValueOverflow (field : string)
| InvalidSchedule (error : DkgScheduleError).

Definition read_u64 (storage : B256 -> result DkgScheduleStateError (option U256)) (slot : N)
    (field : string) : result DkgScheduleStateError N :=
  let? word := storage (u256_bytes slot) in
  let value := default 0 word in
  if value <=? U64_MAX then Ok value else Err (ValueOverflow field).

Definition read_dkg_schedule_from_storage
    (storage : B256 -> result DkgScheduleStateError (option U256))
    : result DkgScheduleStateError DkgSchedule :=
  let? start := read_u64 storage GOVERNANCE_CURRENT_EPOCH_START_HEIGHT_SLOT "currentEpochStartHeight" in
  let? duration := read_u64 storage GOVERNANCE_EPOCH_DURATION_SLOT "epochDuration" in
  let? period := read_u64 storage GOVERNANCE_SHARE_PERIOD_DURATION_SLOT "sharePeriodDuration" in
  map_err InvalidSchedule (schedule_new start duration period).

(** ** KeyManagement aggregate keys *)

Definition MAX_SOLIDITY_BYTES_LEN : N := 4 * 1024 * 1024.

Inductive DkgStateError : Type :=
| DkgProvider (error : string)
| RoundOverflow
| MissingCurrentRound
| MissingCommitment (round : N)
| InvalidShortBytesLength (length : N)
| BytesTooLarge (length : N)
| InvalidCommitmentLength (round actual : N)
| InvalidCommitment (round : N) (reason : TpkeError).

Record DkgPublicKey : Type := mkDkgPublicKey {
  round : N;
  commitment : bytes;
  global_public_key : bytes;
}.

Record DkgState : Type := mkDkgState {
  parameters : DkgParameters;
  current : DkgPublicKey;
  previous : option DkgPublicKey;
}.

Definition div_ceil (a b : N) : N := (a + b - 1) / b.

(** The bytes of one word; absent words are zero. *)
Definition read_word {E} (storage : B256 -> result E (option U256)) (key : U256) : result E bytes :=
  let? word := storage (u256_bytes key) in Ok (u256_bytes (default 0 word)).

Section dkg_state.
Context {C : Crypto} {B : Blst}.
Variable storage : B256 -> result DkgStateError (option U256).

Definition read_solidity_bytes (slot : U256) : result DkgStateError bytes :=
  let? word := storage (u256_bytes slot) in
  let header := default 0 word in
  let header_bytes := u256_bytes header in
  if N.testbit header 0 then
    let length := (header - 1) / 2 in
    if USIZE_MAX <? length then Err (BytesTooLarge (MAX_SOLIDITY_BYTES_LEN + 1))
    else if MAX_SOLIDITY_BYTES_LEN <? length then Err (BytesTooLarge length)
    else
      let base := N_of_be (keccak256 (u256_bytes slot)) in
      let? words :=
        collect_result (fun index => read_word storage (wrapping_add U256_MAX base index))
          (map N.of_nat (seq 0 (N.to_nat (div_ceil length 32)))) in
      Ok (take (N.to_nat length) (concat words))
  else
    let length := Byte.to_N (nth 31 header_bytes x00) / 2 in
    if 31 <? length then Err (InvalidShortBytesLength length)
    else Ok (take (N.to_nat length) header_bytes).

Definition read_public_key (round : N) (parameters : DkgParameters)
    : result DkgStateError (option DkgPublicKey) :=
  let slot := uint_mapping_storage_key KEY_MANAGEMENT_AGGREGATED_COMMITMENTS_SLOT round in
  let? encoded := read_solidity_bytes slot in
  match encoded with
  | [] => Ok None
  | _ =>
      if negb (lenN encoded =? G1_EIP2537_LEN)
      then Err (InvalidCommitmentLength round (lenN encoded))
      else
        let? key :=
          map_err (InvalidCommitment round)
            (global_public_key_from_commitment encoded (scaler parameters)) in
        Ok (Some (mkDkgPublicKey round encoded key))
  end.

Definition read_dkg_state_from_storage (parameters : DkgParameters)
    : result DkgStateError DkgState :=
  let? word := storage (u256_bytes KEY_MANAGEMENT_ROUND_NUMBER_SLOT) in
  let round := default 0 word in
  if U64_MAX <? round then Err RoundOverflow
  else if round =? 0 then Err MissingCurrentRound
  else
    let? key := read_public_key round parameters in
    let? current := ok_or key (MissingCommitment round) in
    let? previous :=
      if 1 <? round then read_public_key (round - 1) parameters else Ok None in
    Ok (mkDkgState parameters current previous).
End dkg_state.

(** ** Watching submitted DKG transactions *)

Inductive DkgReceiptState : Type := Missing | Succeeded | Failed.
Inductive DkgTaskAction : Type := Wait | CheckReceipt | Retry | Expire | Confirm.

Record DkgTaskWatch : Type := mkDkgTaskWatch {
  send_height : N;
  end_height : N;
  submitted : bool;
}.

Definition watch_action (w : DkgTaskWatch) (current_height : N) (receipt : option DkgReceiptState)
    : DkgTaskAction :=
  if end_height w <=? current_height then Expire
  else if negb (submitted w) then Retry
  else if current_height <? saturating_add U64_MAX (send_height w) 3 then Wait
  else
    match receipt with
    | None => CheckReceipt
    | Some Succeeded => Confirm
    | Some Missing | Some Failed => Retry
    end.

(** ** Storage keys *)

Lemma u256_bytes_length n : length (u256_bytes n) = 32%nat.
Proof. apply length_be_bytes. Qed.

Lemma u256_bytes_inj a b : a <= U256_MAX -> b <= U256_MAX -> u256_bytes a = u256_bytes b -> a = b.
Proof.
  intros Ha Hb E. unfold u256_bytes, U256_MAX in *. apply (f_equal N_of_be) in E.
  rewrite !N_of_be_bytes in E by (change (256 ^ N.of_nat 32) with (2 ^ 256); lia). done.
Qed.

Lemma u256_bytes_of_be l : length l = 32%nat -> u256_bytes (N_of_be l) = l.
Proof. intros Hl. unfold u256_bytes. rewrite <- Hl. apply be_bytes_of_be. Qed.
#[global] Opaque u256_bytes.

Lemma blacklist_key_is_mapping `{Crypto} account :
  length account = ADDRESS_LEN ->
  policy_blacklist_storage_key account = address_mapping_storage_key POLICY_BLACKLIST_SLOT account.
Proof.
  intros Ha. unfold policy_blacklist_storage_key, address_mapping_storage_key, mapping_storage_key.
  rewrite u256_bytes_of_be; [|rewrite length_app, repeat_length, Ha; reflexivity].
  rewrite <- app_assoc. reflexivity.
Qed.

(** ** Validator arrays *)

(** What a Solidity [address[]] at [slot] holding [vs] looks like in storage. *)
Definition stores_array `{Crypto} (storage : B256 -> result GovernanceError (option U256)) (slot : N)
    (vs : list Address) : Prop :=
  storage (u256_bytes slot) = Ok (Some (lenN vs)) /\
  forall i v, vs !! i = Some v ->
    exists word, drop 12 (u256_bytes word) = v /\
      storage (u256_bytes (dynamic_array_element_storage_key slot (N.of_nat i))) = Ok (Some word).

Lemma read_validator_Ok `{Crypto} storage slot i v :
  read_validator storage slot i = Ok v <->
  v <> ZERO_ADDRESS /\ exists word, drop 12 (u256_bytes word) = v /\
    storage (u256_bytes (dynamic_array_element_storage_key slot i)) = Ok (Some word).
Proof.
  unfold read_validator. destruct (storage _) as [[w|]|]; simpl; [|naive_solver..].
  case_bool_decide; naive_solver.
Qed.

Lemma Forall2_seq_lookup {A} (P : N -> A -> Prop) (l : list A) n :
  Forall2 P (map N.of_nat (seq 0 n)) l <->
  length l = n /\ forall i x, l !! i = Some x -> P (N.of_nat i) x.
Proof.
  rewrite Forall2_same_length_lookup, length_map, length_seq. split; intros [Hl H]; (split; [done|]).
  - intros i x Hx. apply (H i); [|done]. rewrite list_lookup_fmap, lookup_seq_lt; [done|].
    apply lookup_lt_Some in Hx. lia.
  - intros i k x Hk Hx. rewrite list_lookup_fmap in Hk. apply fmap_Some in Hk as (j & Hj & ->).
    apply lookup_seq in Hj as [-> _]. by apply H.
Qed.

Lemma read_array_Ok `{Crypto} storage slot vs :
  read_governance_address_array storage slot false = Ok vs <->
  1 <= lenN vs <= MAX_VALIDATOR_COUNT /\ NoDup vs /\ ZERO_ADDRESS ∉ vs /\
  ((exists word, storage (u256_bytes slot) = Ok word /\ default 0 word = lenN vs) /\
   forall i v, vs !! i = Some v ->
    exists word, drop 12 (u256_bytes word) = v /\
      storage (u256_bytes (dynamic_array_element_storage_key slot (N.of_nat i))) = Ok (Some word)).
Proof.
  unfold read_governance_address_array. cbn [andb]. split.
  - intros Hres. apply result_bind_Ok in Hres as (word & Hw & Hres). revert Hres.
    set (n := default 0 word). destruct (N.ltb_spec USIZE_MAX n); [done|].
    destruct (N.eqb_spec n 0); [done|]. destruct (N.ltb_spec MAX_VALIDATOR_COUNT n); [done|].
    cbn [orb]. intros Hres. apply result_bind_Ok in Hres as (l & Hl & Hres).
    destruct (adjacent_repeat (sort_bytes l)) eqn:E; [done|]. injection Hres as ->.
    apply adjacent_repeat_sort_None in E. apply collect_result_Ok, Forall2_seq_lookup in Hl as [Hl Hr].
    assert (Hn : n = lenN vs) by (unfold lenN; lia). split; [lia|]. split; [done|].
    assert (Hrv : forall i v, vs !! i = Some v -> v <> ZERO_ADDRESS /\ exists word,
      drop 12 (u256_bytes word) = v /\
      storage (u256_bytes (dynamic_array_element_storage_key slot (N.of_nat i))) = Ok (Some word)).
    { intros i v Hi. by apply read_validator_Ok, Hr. }
    split_and!; [|by exists word|intros i v Hi; by apply Hrv].
    intros [i Hi]%list_elem_of_lookup. by apply Hrv in Hi as [? _].
  - intros (Hl & Hn & Hz & (word & -> & Hw) & Hr). simpl. rewrite Hw.
    unfold MAX_VALIDATOR_COUNT, USIZE_MAX, U64_MAX in *.
    destruct (N.ltb_spec (2 ^ 64 - 1) (lenN vs)); [lia|]. destruct (N.eqb_spec (lenN vs) 0); [lia|].
    destruct (N.ltb_spec 256 (lenN vs)); [lia|]. cbn [orb].
    rewrite (proj2 (collect_result_Ok _ _ vs)).
    + simpl. by rewrite (proj2 (adjacent_repeat_sort_None vs) Hn).
    + apply Forall2_seq_lookup. split; [unfold lenN; lia|]. intros i v Hi. apply read_validator_Ok.
      split; [|by apply Hr]. intros ->. by apply Hz; eapply list_elem_of_lookup_2.
Qed.

(** ** Sorting with DKG indices *)

Lemma sorted_is_sort vs : sorted (sort_validator_set vs) = sort_bytes vs.
Proof.
  simpl. set (idx := merge_sort (by_address vs) _).
  assert (Hp : idx ≡ₚ seq 0 (length vs)) by apply merge_sort_Permutation.
  apply (StronglySorted_unique bytes_le).
  - assert (Hs : StronglySorted (by_address vs) idx)
      by (apply Sorted_StronglySorted; [apply _|apply Sorted_merge_sort, _]).
    clearbody idx. clear Hp. induction Hs as [|i l _ IH Hf]; simpl; constructor; [done|].
    apply Forall_map. eapply Forall_impl; [exact Hf|]. done.
  - apply sort_bytes_sorted.
  - rewrite sort_bytes_perm, Hp.
    assert (E : map (fun i => nth i vs []) (seq 0 (length vs)) = vs); [|by rewrite E].
    apply list_eq. intros i. rewrite list_lookup_fmap. destruct (decide (i < length vs)%nat) as [Hi|Hi].
    + rewrite lookup_seq_lt by done. simpl. destruct (lookup_lt_is_Some_2 vs i Hi) as [x Hx].
      rewrite Hx. f_equal. by apply nth_lookup_Some.
    + rewrite lookup_ge_None_2, lookup_ge_None_2 by (rewrite ?length_seq; lia). done.
Qed.

Lemma dkg_indices_spec vs i :
  lenN vs <= MAX_VALIDATOR_COUNT ->
  length (dkg_indices (sort_validator_set vs)) = length vs /\
  forall k, dkg_indices (sort_validator_set vs) !! i = Some k ->
    1 <= k /\ sorted (sort_validator_set vs) !! i = vs !! N.to_nat (k - 1).
Proof.
  intros Hl. simpl. set (idx := merge_sort (by_address vs) _).
  assert (Hp : idx ≡ₚ seq 0 (length vs)) by apply merge_sort_Permutation.
  split; [by rewrite length_map, Hp, length_seq|]. intros k Hk.
  rewrite list_lookup_fmap in Hk. apply fmap_Some in Hk as (j & Hj & ->).
  rewrite list_lookup_fmap, Hj. simpl.
  assert (Hjn : (j < length vs)%nat).
  { apply list_elem_of_lookup_2 in Hj. rewrite Hp in Hj. apply elem_of_seq in Hj. lia. }
  unfold as_u32, lenN, MAX_VALIDATOR_COUNT in *. rewrite N.mod_small by lia. split; [lia|].
  replace (N.to_nat _) with j by lia. destruct (lookup_lt_is_Some_2 vs j Hjn) as [x Hx].
  rewrite Hx. f_equal. by apply nth_lookup_Some.
Qed.

(** Reading the active validators is exact: the result is some set if and only
    if storage holds a Solidity array of 1 to 256 distinct nonzero addresses, the
    set's order is the byte-sorted array, and each one-based DKG index points back at
    the validator's place in the contract's order. *)
Theorem governance_validator_set_exact `{Crypto} storage set :
  read_governance_validator_set_from_storage storage = Ok set <->
  let vs := original set in
  stores_array storage GOVERNANCE_CURRENT_CONSENSUS_SLOT vs /\
  1 <= lenN vs <= 256 /\ NoDup vs /\ ZERO_ADDRESS ∉ vs /\
  sorted set = sort_bytes vs /\ length (dkg_indices set) = length vs /\
  forall i k, dkg_indices set !! i = Some k ->
    1 <= k /\ sorted set !! i = vs !! N.to_nat (k - 1).
Proof.
  unfold read_governance_validator_set_from_storage, stores_array. split.
  - intros Hr. apply result_bind_Ok in Hr as (vs & Hv & Hr). injection Hr as <-.
    apply read_array_Ok in Hv as (Hl & Hn & Hz & (word & Hw & Hd) & Hall).
    cbn [original sort_validator_set]. split_and!; try done; try apply Hl.
    + rewrite Hw. destruct word as [w|]; simpl in Hd; [by rewrite Hd|lia].
    + apply sorted_is_sort.
    + apply (proj1 (dkg_indices_spec vs 0 (proj2 Hl))).
    + intros i k. apply (proj2 (dkg_indices_spec vs i (proj2 Hl))).
  - destruct set as [vs ss ks]. simpl. intros ([Hw Hall] & Hl & Hn & Hz & -> & Hk & Hidx).
    rewrite (proj2 (read_array_Ok storage _ vs)); [simpl; f_equal|].
    2:{ split_and!; try done; try apply Hl. by eexists. }
    pose proof (sorted_is_sort vs) as Hs. pose proof (fun i => dkg_indices_spec vs i (proj2 Hl)) as Hd.
    destruct (sort_validator_set vs) as [vs' ss' ks'] eqn:E.
    assert (vs' = vs) as -> by (by injection E). simpl in *. subst ss'. f_equal.
    apply list_eq_same_length with (n := length vs); [done|apply (proj1 (Hd 0%nat))|].
    intros i x y _ Hx Hy. destruct (proj2 (Hd i) x Hx) as [Hx1 Hx2].
    destruct (Hidx i y Hy) as [Hy1 Hy2]. rewrite Hx2 in Hy2.
    assert (is_Some (sort_bytes vs !! i)) as [v Hv].
    { apply lookup_lt_is_Some. rewrite length_sort_bytes, <- Hk. by apply lookup_lt_Some in Hy. }
    rewrite Hx2 in Hv. assert (N.to_nat (x - 1) = N.to_nat (y - 1)) by
      (eapply NoDup_lookup; [exact Hn|exact Hv|by rewrite <- Hy2]).
    lia.
Qed.

(** ** Solidity byte strings *)

(** The word at [key] is [w]; absent words are zero. *)
Definition holds {E} (storage : B256 -> result E (option U256)) (key : U256) (w : bytes) : Prop :=
  exists word, storage (u256_bytes key) = Ok word /\ u256_bytes (default 0 word) = w.

(** The Solidity layout of a [bytes] value [b] at [slot]: up to 31 bytes in place with
    twice the length in the last byte, longer values as twice the length plus one and
    the right-padded words from [keccak256(slot)] on. *)
Definition stores_bytes `{Crypto} {E} (storage : B256 -> result E (option U256)) (slot : U256) (b : bytes) : Prop :=
  if lenN b <=? 31 then
    holds storage slot (b ++ repeat x00 (31 - length b) ++ [byte_of (2 * lenN b)])
  else
    (exists word, storage (u256_bytes slot) = Ok (Some word) /\ word = 2 * lenN b + 1) /\
    forall i, i < div_ceil (lenN b) 32 ->
      holds storage (wrapping_add U256_MAX (N_of_be (keccak256 (u256_bytes slot))) i)
        (take 32 (drop (N.to_nat (32 * i)) (b ++ repeat x00 31))).

Lemma N_of_be_snoc l x : N_of_be (l ++ [x]) = Byte.to_N x + 256 * N_of_be l.
Proof. unfold N_of_be. by rewrite rev_app_distr. Qed.

Lemma u256_bytes_testbit w l x :
  w <= U256_MAX -> u256_bytes w = l ++ [x] -> N.testbit w 0 = N.odd (Byte.to_N x).
Proof.
  intros Hw E. assert (w = Byte.to_N x + 256 * N_of_be l) as ->.
  { rewrite <- N_of_be_snoc, <- E. symmetry. Transparent u256_bytes. apply N_of_be_bytes.
    Opaque u256_bytes. unfold U256_MAX in Hw. change (256 ^ N.of_nat 32) with (2 ^ 256). lia. }
  rewrite N.bit0_odd, N.odd_add, N.odd_mul. by rewrite xorb_false_r.
Qed.

Lemma chunks_lookup {A} k n i (l : list A) :
  (i < k)%nat -> chunks k n l !! i = Some (take n (drop (n * i) l)).
Proof.
  revert i l. induction k as [|k IH]; intros i l Hi; [lia|]. destruct i as [|i]; simpl.
  - by rewrite Nat.mul_0_r.
  - rewrite IH by lia. rewrite drop_drop. do 3 f_equal. lia.
Qed.

Lemma concat_chunks_take {A} k n (l : list A) : concat (chunks k n l) = take (k * n) l.
Proof.
  revert l. induction k as [|k IH]; intros l; simpl; [done|]. by rewrite IH, take_take_drop.
Qed.

Lemma read_word_holds {E} (storage : B256 -> result E (option U256)) key w : holds storage key w -> read_word storage key = Ok w.
Proof. intros (word & E' & Hw). unfold read_word. rewrite E'. simpl. by rewrite Hw. Qed.

(** Words of storage fit 256 bits. *)
Definition words_bounded {E} (storage : B256 -> result E (option U256)) : Prop :=
  forall key w, storage key = Ok (Some w) -> w <= U256_MAX.

(** The header word of a short value. *)
Lemma short_header {E} (storage : B256 -> result E (option U256)) slot b :
  words_bounded storage -> lenN b <= 31 ->
  holds storage slot (b ++ repeat x00 (31 - length b) ++ [byte_of (2 * lenN b)]) ->
  exists word, storage (u256_bytes slot) = Ok word /\ N.testbit (default 0 word) 0 = false /\
    Byte.to_N (nth 31 (u256_bytes (default 0 word)) x00) / 2 = lenN b /\
    take (N.to_nat (lenN b)) (u256_bytes (default 0 word)) = b.
Proof.
  intros Hwf Hshort (word & E' & Hw). exists word. split; [done|]. rewrite app_assoc in Hw.
  assert (Hb : Byte.to_N (byte_of (2 * lenN b)) = 2 * lenN b) by (apply to_N_byte_of; lia).
  assert (Hbound : default 0 word <= U256_MAX).
  { destruct word as [w|]; [exact (Hwf _ _ E')|]. vm_compute. discriminate. }
  rewrite (u256_bytes_testbit _ _ _ Hbound Hw), Hw, Hb, N.odd_mul. split; [done|]. split.
  - rewrite app_nth2; [|rewrite length_app, repeat_length; unfold lenN in *; lia].
    replace (31 - _)%nat with 0%nat by (rewrite length_app, repeat_length; unfold lenN in *; lia).
    simpl. by rewrite Hb, N.mul_comm, N.div_mul.
  - rewrite <- app_assoc. apply take_app_length'. unfold lenN. lia.
Qed.

(** The words of a long value. *)
Lemma long_words `{Crypto} {E} (storage : B256 -> result E (option U256)) slot b :
  (forall i, i < div_ceil (lenN b) 32 ->
     holds storage (wrapping_add U256_MAX (N_of_be (keccak256 (u256_bytes slot))) i)
       (take 32 (drop (N.to_nat (32 * i)) (b ++ repeat x00 31)))) ->
  exists words,
    collect_result (fun index => read_word storage (wrapping_add U256_MAX (N_of_be (keccak256 (u256_bytes slot))) index))
      (map N.of_nat (seq 0 (N.to_nat (div_ceil (lenN b) 32)))) = Ok words /\
    take (N.to_nat (lenN b)) (concat words) = b.
Proof.
  intros Hwords. set (k := N.to_nat (div_ceil (lenN b) 32)). exists (chunks k 32 (b ++ repeat x00 31)). split.
  - apply collect_result_Ok, Forall2_seq_lookup. split; [apply length_chunks|]. intros i x Hx.
    assert (Hi : (i < k)%nat) by (apply lookup_lt_Some in Hx; by rewrite length_chunks in Hx).
    rewrite chunks_lookup in Hx by done. apply (inj Some) in Hx. subst x. apply read_word_holds.
    replace (32 * i)%nat with (N.to_nat (32 * N.of_nat i)) by lia. apply Hwords. lia.
  - rewrite concat_chunks_take, take_take. rewrite take_app_le by (unfold lenN; lia). apply take_ge.
    unfold lenN in *. subst k. unfold div_ceil. div_facts (N.of_nat (length b) + 32 - 1) 32. lia.
Qed.

Lemma long_header n : N.testbit (2 * n + 1) 0 = true /\ (2 * n + 1 - 1) / 2 = n.
Proof.
  rewrite N.bit0_odd, N.odd_add, N.odd_mul. split; [done|]. by rewrite N.add_sub, N.mul_comm, N.div_mul.
Qed.

(** Solidity [bytes] up to 4 MiB read back exactly, in both the in-place and the
    out-of-place layout; the memory reserved never exceeds that ceiling. *)
Theorem solidity_bytes_roundtrip `{Crypto} storage slot b :
  words_bounded storage -> lenN b <= MAX_SOLIDITY_BYTES_LEN -> stores_bytes storage slot b ->
  read_solidity_bytes storage slot = Ok b.
Proof.
  intros Hwf Hlen Hs. unfold stores_bytes, read_solidity_bytes in *.
  destruct (N.leb_spec (lenN b) 31) as [Hshort|Hlong].
  - destruct (short_header _ _ _ Hwf Hshort Hs) as (word & -> & Ht & Hn & Hb). cbn [result_bind]. rewrite Ht, Hn, Hb.
    destruct (N.ltb_spec 31 (lenN b)); [lia|done].
  - destruct Hs as [(word & -> & ->) Hwords]. cbn [result_bind from_option id]. destruct (long_header (lenN b)) as [-> ->].
    destruct (long_words _ _ _ Hwords) as (words & Ew & Et). unfold MAX_SOLIDITY_BYTES_LEN in *.
    destruct (N.ltb_spec USIZE_MAX (lenN b)); [unfold USIZE_MAX, U64_MAX in *; lia|].
    destruct (N.ltb_spec (4 * 1024 * 1024) (lenN b)); [lia|]. rewrite Ew. cbn [result_bind]. by rewrite Et.
Qed.

(** ** Schedules *)

Definition phase_rank (p : DkgPhase) : N :=
  match p with Idle => 0 | Share => 1 | Recover => 2 | ReshareRecover => 3 | EpochChange => 4 end.

Lemma schedule_new_Ok start duration period s :
  schedule_new start duration period = Ok s <->
  0 < period /\ 2 * period <= duration /\ start + duration <= U64_MAX /\
  s = mkDkgSchedule start (start + duration - 2 * period) (start + duration - period)
        (start + duration - period + period / 2) (start + duration).
Proof.
  unfold schedule_new. destruct (N.eqb_spec period 0); [naive_solver lia|].
  rewrite checked_mul_bind_Ok. destruct (N.ltb_spec duration (period * 2)).
  { split; [naive_solver|]. intros (? & ? & _). lia. }
  rewrite checked_add_bind_Ok. split.
  - intros (H1 & H2 & [= <-]). split_and!; [lia|lia|lia|]. f_equal; lia.
  - intros (H1 & H2 & H3 & ->). split_and!; [lia|lia|]. do 2 f_equal; lia.
Qed.

(** DKG timing: a schedule exists exactly when the share period is nonzero, two of
    them fit in the epoch, and the target height fits 64 bits; then the checkpoints are
    ordered, all arithmetic stays within 64 bits, phases only advance with height,
    the share phase lasts exactly one period, the two recovery phases together one
    more, and the epoch changes exactly from the target on. *)
Theorem dkg_schedule_phases start duration period :
  (is_ok (schedule_new start duration period) = true <->
     0 < period /\ 2 * period <= duration /\ start + duration <= U64_MAX) /\
  forall s, schedule_new start duration period = Ok s ->
    start <= share_start s < recover_start s /\ recover_start s <= recover_check s < target s /\
    target s = start + duration /\ target s <= U64_MAX /\
    (forall h h', h <= h' -> phase_rank (phase_at s h) <= phase_rank (phase_at s h')) /\
    (forall h, phase_at s h = Share <-> target s - 2 * period <= h < target s - period) /\
    (forall h, phase_at s h = Recover \/ phase_at s h = ReshareRecover <->
       target s - period <= h < target s) /\
    (forall h, phase_at s h = EpochChange <-> target s <= h).
Proof.
  split.
  - destruct (schedule_new start duration period) as [s|] eqn:E.
    + apply schedule_new_Ok in E. naive_solver.
    + split; [done|]. intros (H1 & H2 & H3). pose proof (proj2 (schedule_new_Ok start duration period _)
        (conj H1 (conj H2 (conj H3 eq_refl)))) as E'. by rewrite E in E'.
  - intros s (H1 & H2 & H3 & ->)%schedule_new_Ok. unfold phase_at. simpl.
    assert (period / 2 < period) by (apply N.div_lt; lia). set (q := period / 2) in *. clearbody q.
    split_and!; try lia; intros h; [intros h' Hh|..];
      repeat match goal with |- context [?a <? ?b] => destruct (N.ltb_spec a b) end;
      simpl; try lia; naive_solver lia.
Qed.

Module StorageWitness.
#[local] Existing Instance model_crypto.

(** A three-byte value in place. *)
Definition short_storage (key : B256) : result DkgStateError (option U256) :=
  if bool_decide (key = u256_bytes 9)
  then Ok (Some (N_of_be ([x0a; x0b; x0c] ++ repeat x00 28 ++ [x06]))) else Ok None.

Lemma solidity_bytes_roundtrip_witness :
  read_solidity_bytes short_storage 9 = Ok [x0a; x0b; x0c].
Proof.
  apply (solidity_bytes_roundtrip short_storage 9 [x0a; x0b; x0c]).
  - intros key w. unfold short_storage. case_bool_decide; [|done].
    intros [= <-]. vm_compute. discriminate.
  - vm_compute. discriminate.
  - vm_compute. eexists. split; reflexivity.
Defined.
End StorageWitness.
