(* ===== verification/DkgStorage.v ===== *)
(** The readers of the KeyManagement contract's storage
    (crates/neox/node/src/dkg_storage.rs, dkg_contract_state.rs): the contributions, recovery
    messages and commitments of a round, the facts the task planner needs and the members'
    message keys. *)

From S2P Require Import Prelude Extern Instances Tpke DkgParams Dkg Storage.

Definition NEOX_DKG_MESSAGE_LEN : N := 64 + 12 + 32 + 16.

Module DkgStorageError.
Inductive t : Type :=
| Provider (error : string)
| InvalidRound
| InvalidParticipantIndex (index : N)
| InvalidShortBytesLength (length : N)
| BytesTooLarge (actual maximum : N)
| BytesArrayTooLarge (actual maximum : N)
| IncompleteContribution (kind : string) (round sender_index : N)
| InvalidPvssLength (kind : string) (round sender_index actual : N)
| InvalidMessageCount (kind : string) (round sender_index actual : N)
| InvalidMessageLength (kind : string) (round sender_index message_index actual : N)
| InvalidRecoveryMessageLength (round sender_index recipient_index actual : N)
| InvalidCommitmentLength (round actual : N).
End DkgStorageError.
Notation DkgStorageError := DkgStorageError.t.

Record DkgStoredContribution : Type := mkDkgStoredContribution {
  contribution_round : N;
  contribution_sender : N;
  contribution_pvss : bytes;
  contribution_messages : list bytes;
}.

Record DkgStoredRecovery : Type := mkDkgStoredRecovery {
  recovery_round : N;
  recovery_sender : N;
  recovery_recipient : N;
  recovery_message : bytes;
}.

Inductive DkgContributionKind : Type := ShareKind | ReshareKind.

Definition kind_slots (kind : DkgContributionKind) : N * N :=
  match kind with
  | ShareKind => (KEY_MANAGEMENT_SHARE_PVSS_SLOT, KEY_MANAGEMENT_SHARE_MSGS_SLOT)
  | ReshareKind => (KEY_MANAGEMENT_RESHARE_PVSS_SLOT, KEY_MANAGEMENT_RESHARE_MSGS_SLOT)
  end.

Definition kind_name (kind : DkgContributionKind) : string :=
  match kind with ShareKind => "share" | ReshareKind => "reshare" end.

(** ** Solidity values *)

Section readers.
Context {C : Crypto}.
Variable storage : B256 -> result DkgStorageError (option U256).

Definition read_bounded_bytes (slot : U256) (maximum : N) : result DkgStorageError bytes :=
  let? word := storage (u256_bytes slot) in
  let header := default 0 word in
  let header_bytes := u256_bytes header in
  if N.testbit header 0 then
    let length := (header - 1) / 2 in
    if USIZE_MAX <? length then Err (DkgStorageError.BytesTooLarge USIZE_MAX maximum)
    else if maximum <? length then Err (DkgStorageError.BytesTooLarge length maximum)
    else
      let base := N_of_be (keccak256 (u256_bytes slot)) in
      let? words :=
        collect_result (fun index => read_word storage (wrapping_add U256_MAX base index))
          (map N.of_nat (seq 0 (N.to_nat (div_ceil length 32)))) in
      Ok (take (N.to_nat length) (concat words))
  else
    let length := Byte.to_N (nth 31 header_bytes x00) / 2 in
    if 31 <? length then Err (DkgStorageError.InvalidShortBytesLength length)
    else if maximum <? length then Err (DkgStorageError.BytesTooLarge length maximum)
    else Ok (take (N.to_nat length) header_bytes).

Definition read_solidity_bytes_array (slot : U256) (maximum : N) : result DkgStorageError (list bytes) :=
  let? word := storage (u256_bytes slot) in
  let length := default 0 word in
  if USIZE_MAX <? length then Err (DkgStorageError.BytesArrayTooLarge USIZE_MAX maximum)
  else if maximum <? length then Err (DkgStorageError.BytesArrayTooLarge length maximum)
  else
    let base := N_of_be (keccak256 (u256_bytes slot)) in
    collect_result (fun index => read_bounded_bytes (wrapping_add U256_MAX base index) NEOX_DKG_MESSAGE_LEN)
      (map N.of_nat (seq 0 (N.to_nat length))).

(** ** Contributions *)

Definition read_dkg_pvss_from_storage (round sender_index : N) (kind : DkgContributionKind) (parameters : DkgParameters)
    : result DkgStorageError (option bytes) :=
  let pvss_slot := nested_uint_mapping_storage_key (kind_slots kind).1 [round; sender_index] in
  let? pvss := read_bounded_bytes pvss_slot (pvss_len parameters) in
  match pvss with
  | [] => Ok None
  | _ =>
      if negb (lenN pvss =? pvss_len parameters)
      then Err (DkgStorageError.InvalidPvssLength (kind_name kind) round sender_index (lenN pvss))
      else Ok (Some pvss)
  end.

Fixpoint validate_messages (kind : string) (round sender_index message_index : N) (messages : list bytes)
    : result DkgStorageError unit :=
  match messages with
  | [] => Ok tt
  | message :: rest =>
      if negb (lenN message =? NEOX_DKG_MESSAGE_LEN)
      then Err (DkgStorageError.InvalidMessageLength kind round sender_index message_index (lenN message))
      else validate_messages kind round sender_index (message_index + 1) rest
  end.

Definition read_dkg_contribution_from_storage (round sender_index : N) (kind : DkgContributionKind)
    (parameters : DkgParameters) : result DkgStorageError (option DkgStoredContribution) :=
  let keys := [round; sender_index] in
  let pvss_slot := nested_uint_mapping_storage_key (kind_slots kind).1 keys in
  let messages_slot := nested_uint_mapping_storage_key (kind_slots kind).2 keys in
  let? pvss := read_bounded_bytes pvss_slot (pvss_len parameters) in
  let? messages := read_solidity_bytes_array messages_slot (participants parameters) in
  let no_pvss := bool_decide (pvss = []) in
  let no_messages := bool_decide (messages = []) in
  if no_pvss && no_messages then Ok None
  else if no_pvss || no_messages
  then Err (DkgStorageError.IncompleteContribution (kind_name kind) round sender_index)
  else if negb (lenN pvss =? pvss_len parameters)
  then Err (DkgStorageError.InvalidPvssLength (kind_name kind) round sender_index (lenN pvss))
  else if negb (lenN messages =? participants parameters)
  then Err (DkgStorageError.InvalidMessageCount (kind_name kind) round sender_index (lenN messages))
  else
    let? _ := validate_messages (kind_name kind) round sender_index 0 messages in
    Ok (Some (mkDkgStoredContribution round sender_index pvss messages)).

Fixpoint read_recoveries (round recipient_index : N) (senders : list N) : result DkgStorageError (list DkgStoredRecovery) :=
  match senders with
  | [] => Ok []
  | sender_index :: rest =>
      let slot := nested_uint_mapping_storage_key KEY_MANAGEMENT_RECOVER_MSGS_SLOT [round; sender_index; recipient_index - 1] in
      let? message := read_bounded_bytes slot NEOX_DKG_MESSAGE_LEN in
      match message with
      | [] => read_recoveries round recipient_index rest
      | _ =>
          if negb (lenN message =? NEOX_DKG_MESSAGE_LEN)
          then Err (DkgStorageError.InvalidRecoveryMessageLength round sender_index recipient_index (lenN message))
          else
            let? messages := read_recoveries round recipient_index rest in
            Ok (mkDkgStoredRecovery round sender_index recipient_index message :: messages)
      end
  end.

Definition read_dkg_recovery_messages_from_storage (round recipient_index : N) (parameters : DkgParameters)
    : result DkgStorageError (list DkgStoredRecovery) :=
  read_recoveries round recipient_index (indices_of parameters).

Definition read_dkg_aggregated_commitment_from_storage (round : N) : result DkgStorageError (option bytes) :=
  let slot := uint_mapping_storage_key KEY_MANAGEMENT_AGGREGATED_COMMITMENTS_SLOT round in
  let? commitment := read_bounded_bytes slot G1_EIP2537_LEN in
  match commitment with
  | [] => Ok None
  | _ =>
      if negb (lenN commitment =? G1_EIP2537_LEN)
      then Err (DkgStorageError.InvalidCommitmentLength round (lenN commitment))
      else Ok (Some commitment)
  end.

(** ** The checked readers *)

Definition validate_round (round : N) : result DkgStorageError unit :=
  if round =? 0 then Err DkgStorageError.InvalidRound else Ok tt.

Definition validate_storage_index (index : N) (parameters : DkgParameters) : result DkgStorageError unit :=
  if index_valid parameters index then Ok tt else Err (DkgStorageError.InvalidParticipantIndex index).

Definition read_dkg_contribution (round sender_index : N) (kind : DkgContributionKind) (parameters : DkgParameters)
    : result DkgStorageError (option DkgStoredContribution) :=
  let? _ := validate_round round in
  let? _ := validate_storage_index sender_index parameters in
  read_dkg_contribution_from_storage round sender_index kind parameters.

Definition read_dkg_pvss (round sender_index : N) (kind : DkgContributionKind) (parameters : DkgParameters)
    : result DkgStorageError (option bytes) :=
  let? _ := validate_round round in
  let? _ := validate_storage_index sender_index parameters in
  read_dkg_pvss_from_storage round sender_index kind parameters.

Definition read_dkg_share_contribution_with_parameters (round sender_index : N) (parameters : DkgParameters) :=
  read_dkg_contribution round sender_index ShareKind parameters.
Definition read_dkg_reshare_contribution_with_parameters (round sender_index : N) (parameters : DkgParameters) :=
  read_dkg_contribution round sender_index ReshareKind parameters.
Definition read_dkg_share_pvss_with_parameters (round sender_index : N) (parameters : DkgParameters) :=
  read_dkg_pvss round sender_index ShareKind parameters.
Definition read_dkg_reshare_pvss_with_parameters (round sender_index : N) (parameters : DkgParameters) :=
  read_dkg_pvss round sender_index ReshareKind parameters.

Definition read_dkg_recovery_messages_with_parameters (round recipient_index : N) (parameters : DkgParameters)
    : result DkgStorageError (list DkgStoredRecovery) :=
  let? _ := validate_round round in
  let? _ := validate_storage_index recipient_index parameters in
  read_dkg_recovery_messages_from_storage round recipient_index parameters.

Definition read_dkg_aggregated_commitment (round : N) : result DkgStorageError (option bytes) :=
  let? _ := validate_round round in read_dkg_aggregated_commitment_from_storage round.
End readers.

(** ** The planner's facts *)

Definition MAX_MESSAGE_KEY_BYTES_LEN : N := 1024.
Definition UNCOMPRESSED_SECP256K1_KEY_LEN : N := 65.

Module TaskStateError.
Inductive t : Type :=
| Provider (error : string)
| RoundOverflow
| MissingMessageKey (validator : Address)
| InvalidMessageKeyLength (validator : Address) (actual : N)
| InvalidMessageKey (validator : Address)
| InvalidShortBytesLength (length : N)
| BytesTooLarge (length : N).
End TaskStateError.
Notation TaskStateError := TaskStateError.t.

Record DkgTaskContractState : Type := mkDkgTaskContractState {
  current_round : N;
  next_round : N;
  share_ready : bool;
  recovery_indices : list N;
}.

Section task_state.
Context {C : Crypto} {K : Ecies}.
Variable storage : B256 -> result TaskStateError (option U256).

(** The loop over the participants: whether every share is complete, and who has no reshare. *)
Fixpoint read_task_indices (next_round : N) (parameters : DkgParameters) (indices : list N) (ready : bool) (missing : list N)
    : result TaskStateError (bool * list N) :=
  match indices with
  | [] => Ok (ready, missing)
  | index :: rest =>
      let? shares := storage (u256_bytes (nested_uint_mapping_storage_key KEY_MANAGEMENT_SHARE_MSGS_SLOT [next_round; index])) in
      let ready := if default 0 shares <? participants parameters then false else ready in
      let? missing :=
        if 1 <? next_round then
          let? reshares :=
            storage (u256_bytes (nested_uint_mapping_storage_key KEY_MANAGEMENT_RESHARE_MSGS_SLOT [next_round; index])) in
          Ok (if default 0 reshares =? 0 then missing ++ [index] else missing)
        else Ok missing in
      read_task_indices next_round parameters rest ready missing
  end.

Definition read_dkg_task_contract_state_from_storage (parameters : DkgParameters) : result TaskStateError DkgTaskContractState :=
  let? word := storage (u256_bytes KEY_MANAGEMENT_ROUND_NUMBER_SLOT) in
  let current_round := default 0 word in
  if U64_MAX <? current_round then Err TaskStateError.RoundOverflow
  else
    let? next_round := ok_or (checked_add U64_MAX current_round 1) TaskStateError.RoundOverflow in
    let? (ready, missing) := read_task_indices next_round parameters (indices_of parameters) true [] in
    Ok (mkDkgTaskContractState current_round next_round ready missing).

Definition read_task_solidity_bytes (slot : U256) : result TaskStateError bytes :=
  let? word := storage (u256_bytes slot) in
  let header := default 0 word in
  let header_bytes := u256_bytes header in
  if N.testbit header 0 then
    let length := (header - 1) / 2 in
    if USIZE_MAX <? length then Err (TaskStateError.BytesTooLarge (MAX_MESSAGE_KEY_BYTES_LEN + 1))
    else if MAX_MESSAGE_KEY_BYTES_LEN <? length then Err (TaskStateError.BytesTooLarge length)
    else
      let base := N_of_be (keccak256 (u256_bytes slot)) in
      let? words :=
        collect_result (fun index => read_word storage (wrapping_add U256_MAX base index))
          (map N.of_nat (seq 0 (N.to_nat (div_ceil length 32)))) in
      Ok (take (N.to_nat length) (concat words))
  else
    let length := Byte.to_N (nth 31 header_bytes x00) / 2 in
    if 31 <? length then Err (TaskStateError.InvalidShortBytesLength length)
    else Ok (take (N.to_nat length) header_bytes).

Definition read_dkg_message_public_key_from_storage (validator : Address) : result TaskStateError bytes :=
  let slot := address_mapping_storage_key KEY_MANAGEMENT_MESSAGE_PUBKEYS_SLOT validator in
  let? encoded := read_task_solidity_bytes slot in
  match encoded with
  | [] => Err (TaskStateError.MissingMessageKey validator)
  | _ =>
      if negb (lenN encoded =? UNCOMPRESSED_SECP256K1_KEY_LEN)
      then Err (TaskStateError.InvalidMessageKeyLength validator (lenN encoded))
      else
        let? _ := ok_or (public_from_sec1_bytes encoded) (TaskStateError.InvalidMessageKey validator) in
        Ok encoded
  end.

Definition read_dkg_message_public_keys (validators : list Address) : result TaskStateError (list bytes) :=
  collect_result read_dkg_message_public_key_from_storage validators.
End task_state.

(** ** Reading back what the contract stores *)

Section facts.
Context {C : Crypto}.
Variable storage : B256 -> result DkgStorageError (option U256).
Hypothesis bounded : words_bounded storage.

Lemma bounded_bytes_roundtrip slot b maximum : lenN b <= maximum -> maximum <= USIZE_MAX -> stores_bytes storage slot b ->
  read_bounded_bytes storage slot maximum = Ok b.
Proof.
  intros Hlen Hmax Hs. unfold stores_bytes, read_bounded_bytes in *.
  destruct (N.leb_spec (lenN b) 31) as [Hshort|Hlong].
  - destruct (short_header _ _ _ bounded Hshort Hs) as (word & -> & Ht & Hn & Hb). cbn [result_bind]. rewrite Ht, Hn, Hb.
    destruct (N.ltb_spec 31 (lenN b)); [lia|]. destruct (N.ltb_spec maximum (lenN b)); [lia|done].
  - destruct Hs as [(word & -> & ->) Hwords]. cbn [result_bind from_option id]. destruct (long_header (lenN b)) as [-> ->].
    destruct (long_words _ _ _ Hwords) as (words & Ew & Et).
    destruct (N.ltb_spec USIZE_MAX (lenN b)); [lia|]. destruct (N.ltb_spec maximum (lenN b)); [lia|].
    rewrite Ew. cbn [result_bind]. by rewrite Et.
Qed.

(** The Solidity layout of a [bytes\[\]] value. *)
Definition stores_array (slot : U256) (l : list bytes) : Prop :=
  (exists word, storage (u256_bytes slot) = Ok word /\ default 0 word = lenN l) /\
  forall i b, l !! i = Some b ->
    stores_bytes storage (wrapping_add U256_MAX (N_of_be (keccak256 (u256_bytes slot))) (N.of_nat i)) b.

Lemma bytes_array_roundtrip slot l maximum : lenN l <= maximum -> maximum <= USIZE_MAX ->
  Forall (fun b => lenN b <= NEOX_DKG_MESSAGE_LEN) l -> stores_array slot l ->
  read_solidity_bytes_array storage slot maximum = Ok l.
Proof.
  intros Hlen Hmax Hb [(word & E & Hw) Hs]. unfold read_solidity_bytes_array. rewrite E. cbn [result_bind]. rewrite Hw.
  destruct (N.ltb_spec USIZE_MAX (lenN l)); [lia|]. destruct (N.ltb_spec maximum (lenN l)); [lia|].
  apply collect_result_Ok, Forall2_seq_lookup. split; [unfold lenN; lia|]. intros i b Hi.
  rewrite Forall_lookup in Hb. apply bounded_bytes_roundtrip; [by eapply Hb|by vm_compute|by apply Hs].
Qed.

(** A contribution, as the contract holds it while its round is open. *)
Definition stores_contribution (kind : DkgContributionKind) (c : DkgStoredContribution) : Prop :=
  let keys := [contribution_round c; contribution_sender c] in
  stores_bytes storage (nested_uint_mapping_storage_key (kind_slots kind).1 keys) (contribution_pvss c) /\
  stores_array (nested_uint_mapping_storage_key (kind_slots kind).2 keys) (contribution_messages c).

Definition contribution_ok (d : DkgParameters) (c : DkgStoredContribution) : Prop :=
  contribution_round c <> 0 /\ index_valid d (contribution_sender c) = true /\ lenN (contribution_pvss c) = pvss_len d /\
  lenN (contribution_messages c) = participants d /\ Forall (fun m => lenN m = NEOX_DKG_MESSAGE_LEN) (contribution_messages c).

Lemma validated_messages kind round sender l : forall i, Forall (fun m => lenN m = NEOX_DKG_MESSAGE_LEN) l ->
  validate_messages kind round sender i l = Ok tt.
Proof.
  induction l as [|m l IH]; intros i H; [done|]. apply Forall_cons in H as [Hm H]. cbn [validate_messages].
  rewrite Hm, N.eqb_refl. by apply IH.
Qed.

Lemma nonempty_bytes {A} (l : list A) n : lenN l = n -> n <> 0 -> bool_decide (l = []) = false.
Proof. intros <- Hn. apply bool_decide_eq_false_2. by intros ->. Qed.

(** An open round's contribution reads back as it was stored. *)
Lemma contribution_roundtrip d kind c : participants d <> 0 -> participants d <= USIZE_MAX -> pvss_len d <= USIZE_MAX ->
  contribution_ok d c -> stores_contribution kind c ->
  read_dkg_contribution storage (contribution_round c) (contribution_sender c) kind d = Ok (Some c).
Proof.
  intros Hp Hpm Hpv (Hr & Hi & Hl & Hm & Hall) [Hs1 Hs2]. unfold read_dkg_contribution, validate_round, validate_storage_index.
  rewrite (proj2 (N.eqb_neq _ _) Hr), Hi. cbn [result_bind]. unfold read_dkg_contribution_from_storage. cbv zeta.
  rewrite (bounded_bytes_roundtrip _ _ _ ltac:(rewrite Hl; reflexivity) Hpv Hs1). cbn [result_bind].
  rewrite (bytes_array_roundtrip _ _ _ ltac:(rewrite Hm; reflexivity) Hpm) by
    (done || (eapply Forall_impl; [exact Hall|]; intros m ->; done)). cbn [result_bind].
  rewrite (nonempty_bytes _ _ Hl), (nonempty_bytes _ _ Hm) by (done || (unfold pvss_len, NEOX_DKG_G1_LEN, NEOX_DKG_G2_LEN; lia)).
  cbn [andb orb]. rewrite Hl, Hm, !N.eqb_refl. cbn [negb]. rewrite validated_messages by done. cbn [result_bind].
  by destruct c.
Qed.
End facts.
