(* ===== verification/DkgReplay.v ===== *)
(** Canonical replay of distributed key generation (crates/neox/node/src/dkg_replay.rs): what
    the contract's storage says of a round is applied to the local key store, while the round
    is open, at its settlement, and from nothing after a restart or a reorganisation. *)

From S2P Require Import Prelude Extern Instances Tpke DkgParams Lagrange Dkg Pvss Threshold DkgState Storage DkgStorage.

Module DkgReplayError.
Inductive t : Type :=
| Storage (error : DkgStorageError)
| KeyStore (error : KeyStoreError)
| RoundOverflow
| RoundMismatch (store_round canonical_round : N)
| EpochRoundMismatch (contribution_round epoch_round : N)
| UnsettledCanonicalRound (round : N)
| RecoveryBeforeSecondRound (round : N)
| InvalidParticipantIndex (index : N)
| InactiveGroup (group : string)
| ContributionRoundMismatch (kind : string) (expected actual : N)
| DuplicateSender (kind : string) (sender_index : N)
| RecoverySourceMismatch
| RecoveryMessageMismatch (sender_index : N)
| MissingRecoverySource (round sender_index : N)
| MissingCanonicalPvss (kind : string) (round sender_index : N)
| SelfPvssMembershipMismatch
(** [unreachable!] *)
| Panicked.
End DkgReplayError.
Notation DkgReplayError := DkgReplayError.t.

Record DkgCanonicalRound : Type := mkDkgCanonicalRound {
  canonical_round : N;
  round_shares : list DkgStoredContribution;
  round_reshares : list DkgStoredContribution;
}.

Record DkgCanonicalPvss : Type := mkDkgCanonicalPvss {
  pvss_round : N;
  pvss_shares : list bytes;
  pvss_reshares : list bytes;
}.

Record DkgCanonicalRecovery : Type := mkDkgCanonicalRecovery {
  canonical_recovery_round : N;
  recipient_index : N;
  source_share : DkgStoredContribution;
  recovery_messages : list DkgStoredRecovery;
}.

Record DkgCanonicalEpoch : Type := mkDkgCanonicalEpoch {
  epoch_round : N;
  self_pvss : option bytes;
  aggregated_commitment : option bytes;
  previous_commitment : option bytes;
}.

Record DkgReplayOutcome : Type := mkDkgReplayOutcome {
  shares_received : N;
  reshares_received : N;
  recoveries_received : N;
  store_changed : bool;
}.
Definition no_outcome : DkgReplayOutcome := mkDkgReplayOutcome 0 0 0 false.

Definition validate_replay_index (index : N) (parameters : DkgParameters) : result DkgReplayError unit :=
  if index_valid parameters index then Ok tt else Err (DkgReplayError.InvalidParticipantIndex index).

(** ** Reading a round *)

Section reading.
Context {C : Crypto}.
Variable storage : B256 -> result DkgStorageError (option U256).
Let stored {A} (r : result DkgStorageError A) : result DkgReplayError A := map_err DkgReplayError.Storage r.

(** [if let Some(contribution)], pushed. *)
Definition pushed {A} (l : list A) (o : option A) : list A := match o with Some x => l ++ [x] | None => l end.

Fixpoint read_contributions (round : N) (parameters : DkgParameters) (senders : list N)
    (shares reshares : list DkgStoredContribution) : result DkgReplayError (list DkgStoredContribution * list DkgStoredContribution) :=
  match senders with
  | [] => Ok (shares, reshares)
  | sender_index :: rest =>
      let? share := stored (read_dkg_share_contribution_with_parameters storage round sender_index parameters) in
      let? reshare := stored (read_dkg_reshare_contribution_with_parameters storage round sender_index parameters) in
      read_contributions round parameters rest (pushed shares share) (pushed reshares reshare)
  end.

Definition read_dkg_canonical_round_with_parameters (round : N) (parameters : DkgParameters)
    : result DkgReplayError DkgCanonicalRound :=
  let? (shares, reshares) := read_contributions round parameters (indices_of parameters) [] [] in
  Ok (mkDkgCanonicalRound round shares reshares).

Definition read_dkg_canonical_pvss_with_parameters (round : N) (parameters : DkgParameters)
    : result DkgReplayError DkgCanonicalPvss :=
  let? shares :=
    collect_result (fun sender_index =>
        let? pvss := stored (read_dkg_share_pvss_with_parameters storage round sender_index parameters) in
        ok_or pvss (DkgReplayError.MissingCanonicalPvss "share" round sender_index)) (indices_of parameters) in
  let? reshares :=
    if 1 <? round then
      collect_result (fun sender_index =>
          let? pvss := stored (read_dkg_reshare_pvss_with_parameters storage round sender_index parameters) in
          ok_or pvss (DkgReplayError.MissingCanonicalPvss "reshare" round sender_index)) (indices_of parameters)
    else Ok [] in
  Ok (mkDkgCanonicalPvss round shares reshares).

Definition read_dkg_canonical_recovery_with_parameters (round recipient_index : N) (parameters : DkgParameters)
    : result DkgReplayError DkgCanonicalRecovery :=
  if round <=? 1 then Err (DkgReplayError.RecoveryBeforeSecondRound round)
  else
    let? _ := validate_replay_index recipient_index parameters in
    let? source := stored (read_dkg_share_contribution_with_parameters storage (round - 1) recipient_index parameters) in
    let? source := ok_or source (DkgReplayError.MissingRecoverySource (round - 1) recipient_index) in
    let? messages := stored (read_dkg_recovery_messages_with_parameters storage round recipient_index parameters) in
    Ok (mkDkgCanonicalRecovery round recipient_index source messages).

Definition read_dkg_canonical_epoch_with_parameters (round : N) (pending_index : option N) (parameters : DkgParameters)
    : result DkgReplayError DkgCanonicalEpoch :=
  if round =? 0 then Err (DkgReplayError.RoundMismatch 0 0)
  else
    let? _ := match pending_index with Some index => validate_replay_index index parameters | None => Ok tt end in
    let? self_pvss :=
      match pending_index with
      | Some index => stored (read_dkg_share_pvss_with_parameters storage round index parameters)
      | None => Ok None
      end in
    let? aggregated := stored (read_dkg_aggregated_commitment storage round) in
    let? previous := if 1 <? round then stored (read_dkg_aggregated_commitment storage (round - 1)) else Ok None in
    Ok (mkDkgCanonicalEpoch round self_pvss aggregated previous).
End reading.

(** ** Checks of what was read *)

Definition validate_store_round {B : Blst} (s : DkgKeyStore) (canonical_round : N) : result DkgReplayError unit :=
  let? expected := ok_or (checked_add U64_MAX (store_round s) 1) DkgReplayError.RoundOverflow in
  if negb (canonical_round =? expected) then Err (DkgReplayError.RoundMismatch (store_round s) canonical_round) else Ok tt.

Fixpoint validate_contributions (round : N) (kind : string) (senders : list N) (l : list DkgStoredContribution)
    (parameters : DkgParameters) : result DkgReplayError unit :=
  match l with
  | [] => Ok tt
  | c :: rest =>
      let? _ := validate_replay_index (contribution_sender c) parameters in
      if negb (contribution_round c =? round)
      then Err (DkgReplayError.ContributionRoundMismatch kind round (contribution_round c))
      else if bool_decide (contribution_sender c ∈ senders)
      then Err (DkgReplayError.DuplicateSender kind (contribution_sender c))
      else validate_contributions round kind (contribution_sender c :: senders) rest parameters
  end.

Definition validate_round_contributions (r : DkgCanonicalRound) (parameters : DkgParameters) : result DkgReplayError unit :=
  let? _ := validate_contributions (canonical_round r) "share" [] (round_shares r) parameters in
  validate_contributions (canonical_round r) "reshare" [] (round_reshares r) parameters.

Fixpoint validate_recoveries (r : DkgCanonicalRecovery) (parameters : DkgParameters) (senders : list N)
    (l : list DkgStoredRecovery) : result DkgReplayError unit :=
  match l with
  | [] => Ok tt
  | m :: rest =>
      let? _ := validate_replay_index (recovery_sender m) parameters in
      if negb (recovery_round m =? canonical_recovery_round r) || negb (recovery_recipient m =? recipient_index r)
      then Err (DkgReplayError.RecoveryMessageMismatch (recovery_sender m))
      else if bool_decide (recovery_sender m ∈ senders)
      then Err (DkgReplayError.DuplicateSender "recovery" (recovery_sender m))
      else validate_recoveries r parameters (recovery_sender m :: senders) rest
  end.

Definition validate_canonical_recovery (r : DkgCanonicalRecovery) (parameters : DkgParameters) : result DkgReplayError unit :=
  if canonical_recovery_round r <=? 1 then Err (DkgReplayError.RecoveryBeforeSecondRound (canonical_recovery_round r))
  else
    let? _ := validate_replay_index (recipient_index r) parameters in
    if negb (contribution_round (source_share r) =? canonical_recovery_round r - 1) ||
       negb (contribution_sender (source_share r) =? recipient_index r)
    then Err DkgReplayError.RecoverySourceMismatch
    else validate_recoveries r parameters [] (recovery_messages r).

(** ** Applying a round *)

Section applying.
Context {B : Blst} {Z : Ecies} {Sy : Symmetric}.

(** A loop of receptions: the count of the new shares; an error stops it and keeps what
    was received before. *)
Fixpoint receive_all {A} (receive : DkgKeyStore -> A -> DkgKeyStore * result KeyStoreError bool) (s : DkgKeyStore)
    (l : list A) (count : N) : DkgKeyStore * result DkgReplayError N :=
  match l with
  | [] => (s, Ok count)
  | x :: rest =>
      let '(s, r) := receive s x in
      match r with
      | Ok fresh => receive_all receive s rest (if fresh then count + 1 else count)
      | Err e => (s, Err (DkgReplayError.KeyStore e))
      end
  end.

Definition receive_share_from (i : N) (s : DkgKeyStore) (c : DkgStoredContribution) :=
  receive_share s i (contribution_sender c) (contribution_messages c) (contribution_pvss c).
Definition receive_reshare_from (i : N) (s : DkgKeyStore) (c : DkgStoredContribution) :=
  receive_reshare s i (contribution_sender c) (contribution_messages c) (contribution_pvss c).

Definition apply_dkg_canonical_round (s : DkgKeyStore) (pending_index : option N) (r : DkgCanonicalRound)
    : DkgKeyStore * result DkgReplayError DkgReplayOutcome :=
  let checked :=
    let? _ := validate_store_round s (canonical_round r) in
    let? _ := validate_round_contributions r (store_parameters s) in
    match pending_index with
    | None => Ok None
    | Some i =>
        let? _ := validate_replay_index i (store_parameters s) in
        if negb (is_sharing s) then Err (DkgReplayError.InactiveGroup "sharing")
        else if negb (bool_decide (round_reshares r = [])) && negb (is_resharing s)
        then Err (DkgReplayError.InactiveGroup "resharing")
        else Ok (Some i)
    end in
  match checked with
  | Err e => (s, Err e)
  | Ok None => (s, Ok no_outcome)
  | Ok (Some i) =>
      let '(s, shares) := receive_all (receive_share_from i) s (round_shares r) 0 in
      match shares with
      | Err e => (s, Err e)
      | Ok shares =>
          let '(s, reshares) := receive_all (receive_reshare_from i) s (round_reshares r) 0 in
          match reshares with
          | Err e => (s, Err e)
          | Ok reshares => (s, Ok (mkDkgReplayOutcome shares reshares 0 ((0 <? shares) || (0 <? reshares))))
          end
      end
  end.

Definition rebuild_dkg_canonical_round_inner (s : DkgKeyStore) (fuel : nat) (chain_id : N) (rng : Draws)
    (pending_index : option N) (r : DkgCanonicalRound) (force_reshare : bool)
    : DkgKeyStore * result DkgReplayError DkgReplayOutcome :=
  let checked :=
    let? _ := validate_store_round s (canonical_round r) in
    match pending_index with Some i => validate_replay_index i (store_parameters s) | None => Ok tt end in
  match checked with
  | Err e => (s, Err e)
  | Ok _ =>
      let s := on_share_period_start s force_reshare in
      let '(s, prepared) :=
        match pending_index with
        | Some _ =>
            let '(s, material) := prepare_share s fuel chain_id rng in
            (s, match material with Ok _ => Ok tt | Err e => Err (DkgReplayError.KeyStore e) end)
        | None => (s, Ok tt)
        end in
      match prepared with
      | Err e => (s, Err e)
      | Ok _ =>
          let '(s, outcome) := apply_dkg_canonical_round s pending_index r in
          (s, let? outcome := outcome in
              Ok (mkDkgReplayOutcome (shares_received outcome) (reshares_received outcome) (recoveries_received outcome) true))
      end
  end.

Definition rebuild_dkg_canonical_round (s : DkgKeyStore) (fuel : nat) (chain_id : N) (rng : Draws)
    (pending_index : option N) (r : DkgCanonicalRound) : DkgKeyStore * result DkgReplayError DkgReplayOutcome :=
  rebuild_dkg_canonical_round_inner s fuel chain_id rng pending_index r false.

Definition apply_dkg_canonical_recovery (s : DkgKeyStore) (r : DkgCanonicalRecovery)
    : DkgKeyStore * result DkgReplayError DkgReplayOutcome :=
  let checked :=
    let? _ := validate_store_round s (canonical_recovery_round r) in
    let? _ := validate_canonical_recovery r (store_parameters s) in
    if negb (is_recovering s) then Err (DkgReplayError.InactiveGroup "recovering") else Ok tt in
  match checked with
  | Err e => (s, Err e)
  | Ok _ =>
      let '(s, count) :=
        receive_all (fun s m => receive_recovery s (recovery_sender m) (recovery_message m) (contribution_pvss (source_share r)))
          s (recovery_messages r) 0 in
      (s, let? count := count in Ok (mkDkgReplayOutcome 0 0 count (0 <? count)))
  end.

Definition apply_dkg_canonical_epoch (s : DkgKeyStore) (is_member : bool) (e : DkgCanonicalEpoch)
    : DkgKeyStore * result DkgReplayError DkgEpochChange :=
  match validate_store_round s (epoch_round e) with
  | Err error => (s, Err error)
  | Ok _ =>
      if bool_decide (is_Some (aggregated_commitment e)) && negb (Bool.eqb (bool_decide (is_Some (self_pvss e))) is_member)
      then (s, Err DkgReplayError.SelfPvssMembershipMismatch)
      else
        let '(s, change) :=
          on_epoch_change s (default [] (self_pvss e)) (default [] (aggregated_commitment e))
            (default [] (previous_commitment e)) is_member in
        (s, map_err DkgReplayError.KeyStore change)
  end.

Definition rebuild_dkg_canonical_store (source : DkgKeyStore) (fuel : nat) (chain_id : N) (rng : Draws)
    (pending_index : option N) (r : DkgCanonicalRound) (e : DkgCanonicalEpoch) : result DkgReplayError DkgKeyStore :=
  if canonical_round r =? 0 then Err (DkgReplayError.RoundMismatch 0 0)
  else if negb (epoch_round e =? canonical_round r)
  then Err (DkgReplayError.EpochRoundMismatch (canonical_round r) (epoch_round e))
  else
    let rebuilt := detached_replay_baseline source (canonical_round r - 1) in
    let '(rebuilt, outcome) :=
      rebuild_dkg_canonical_round_inner rebuilt fuel chain_id rng pending_index r (1 <? canonical_round r) in
    let? _ := outcome in
    let '(rebuilt, change) := apply_dkg_canonical_epoch rebuilt (bool_decide (is_Some pending_index)) e in
    let? change := change in
    match change with
    | Advanced round => if round =? canonical_round r then Ok rebuilt else Err DkgReplayError.Panicked
    | Reverted => Err (DkgReplayError.UnsettledCanonicalRound (canonical_round r))
    end.
End applying.

(** ** What a replay leaves in a group *)

Section group.
Context {B : Blst} {Z : Ecies} {Sy : Symmetric}.
Variable open : DkgStoredContribution -> result KeyStoreError bytes.

(** A reception, at the level of the group that stores it. *)
Definition receive_group (g : DkgKeyGroup) (c : DkgStoredContribution) : DkgKeyGroup * result KeyStoreError bool :=
  match open c with
  | Err e => (g, Err e)
  | Ok share => store_received g (contribution_sender c) share
  end.

Fixpoint group_all (g : DkgKeyGroup) (l : list DkgStoredContribution) (count : N) : DkgKeyGroup * result DkgReplayError N :=
  match l with
  | [] => (g, Ok count)
  | c :: rest =>
      let '(g, r) := receive_group g c in
      match r with
      | Ok fresh => group_all g rest (if fresh then count + 1 else count)
      | Err e => (g, Err (DkgReplayError.KeyStore e))
      end
  end.

Definition slot_of (c : DkgStoredContribution) : nat := N.to_nat (contribution_sender c - 1).

(** The group holds the share of this contribution. *)
Definition holds_share (g : DkgKeyGroup) (c : DkgStoredContribution) : Prop :=
  contribution_sender c <> 0 /\ exists share, open c = Ok share /\ received_secrets g !! slot_of c = Some (Some share).

(** Every share of one group is in the other, and nothing else differs. *)
Definition group_extends (g g' : DkgKeyGroup) : Prop :=
  (exists l, g' = set_received g l /\ length l = length (received_secrets g)) /\
  forall k share, received_secrets g !! k = Some (Some share) -> received_secrets g' !! k = Some (Some share).

Lemma set_received_same g : set_received g (received_secrets g) = g.
Proof. by destruct g. Qed.

Lemma group_extends_refl g : group_extends g g.
Proof. split; [|done]. exists (received_secrets g). by rewrite set_received_same. Qed.

Lemma group_extends_trans g g' g'' : group_extends g g' -> group_extends g' g'' -> group_extends g g''.
Proof. intros [(l & -> & Hl) H] [(l' & -> & Hl') H']. split; [|by eauto]. exists l'. cbn in *. split; [done|lia]. Qed.

Lemma holds_extends g g' c : group_extends g g' -> holds_share g c -> holds_share g' c.
Proof. intros [_ H] (Hz & share & Ho & Hs). split; [done|]. eauto. Qed.

(** A reception that succeeds puts one share in its slot. *)
Lemma receive_group_Ok g c g' fresh : receive_group g c = (g', Ok fresh) ->
  group_extends g g' /\ holds_share g' c /\ (forall k, k <> slot_of c -> received_secrets g' !! k = received_secrets g !! k).
Proof.
  unfold receive_group, holds_share, slot_of. destruct (open c) as [share|e]; [|done]. unfold store_received.
  destruct (N.eqb_spec (contribution_sender c) 0) as [|Hz]; [done|]. cbn [orb].
  destruct (N.ltb_spec (lenN (received_secrets g)) (contribution_sender c)) as [|Hlt]; [done|].
  destruct (received_secrets g !! _) as [[existing|]|] eqn:E; [| |done].
  - case_bool_decide as Hs; [|done]. intros [= <- <-]. subst existing. split_and!; [apply group_extends_refl|done|by exists share|done].
  - intros [= <- <-]. cbn. split_and!.
    + split; [eexists; split; [done|]; by rewrite length_insert|]. cbn. intros k s Hk.
      rewrite list_lookup_insert_ne; [done|]. intros <-. by rewrite E in Hk.
    + done.
    + exists share. split; [done|]. apply list_lookup_insert_eq. by eapply lookup_lt_Some.
    + intros k Hk. by rewrite list_lookup_insert_ne.
Qed.

(** The group a batch leaves: it holds every share of the batch, and the other slots as
    they were. *)
Lemma group_all_Ok l : forall g count g' n, group_all g l count = (g', Ok n) ->
  group_extends g g' /\ Forall (holds_share g') l /\
  (forall k, k ∉ map slot_of l -> received_secrets g' !! k = received_secrets g !! k).
Proof.
  induction l as [|c l IH]; intros g count g' n H; cbn [group_all] in H.
  - injection H as <- <-. split_and!; [apply group_extends_refl|by constructor|done].
  - destruct (receive_group g c) as [g1 [fresh|e]] eqn:E; [|done]. apply IH in H as (He & Hh & Hk).
    apply receive_group_Ok in E as (He' & Hc & Hk'). split_and!.
    + by eapply group_extends_trans.
    + constructor; [by eapply holds_extends|done].
    + intros k Hn. cbn in Hn. apply not_elem_of_cons in Hn as [? ?]. by rewrite Hk, Hk'.
Qed.

(** A batch towards a group that holds all of it succeeds from every group within that one. *)
Lemma group_all_total target l : Forall (holds_share target) l -> forall g count, group_extends g target ->
  exists g' n, group_all g l count = (g', Ok n) /\ group_extends g' target.
Proof.
  induction 1 as [|c l (Hz & share & Ho & Hs) _ IH]; intros g count [(lt & -> & Hlt) Hg]; cbn [group_all].
  { exists g, count. split; [done|]. split; [by exists lt|done]. }
  cbn in Hs. pose proof (lookup_lt_Some _ _ _ Hs) as Hlen. unfold receive_group, store_received, slot_of in *. rewrite Ho.
  destruct (N.eqb_spec (contribution_sender c) 0); [done|]. cbn [orb].
  destruct (N.ltb_spec (lenN (received_secrets g)) (contribution_sender c)) as [Hb|_]; [unfold lenN in Hb; lia|].
  destruct (received_secrets g !! _) as [[existing|]|] eqn:E.
  - pose proof (Hg _ _ E) as Hx. cbn in Hx. rewrite Hs in Hx. injection Hx as <-.
    rewrite bool_decide_eq_true_2 by done. apply IH. split; [by exists lt|done].
  - apply IH. split; [exists lt; cbn; by rewrite length_insert|]. cbn. intros k s Hk.
    apply list_lookup_insert_Some in Hk as [(<- & [= <-] & _)|[_ Hk]]; [done|by apply Hg].
  - apply lookup_ge_None in E. lia.
Qed.

(** A batch the group already holds changes nothing. *)
Lemma group_all_held g l : Forall (holds_share g) l -> forall count, group_all g l count = (g, Ok count).
Proof.
  induction 1 as [|c l (Hz & share & Ho & Hs) _ IH]; intros count; [done|]. cbn [group_all].
  pose proof (lookup_lt_Some _ _ _ Hs) as Hlen. unfold receive_group, store_received, slot_of in *. rewrite Ho.
  destruct (N.eqb_spec (contribution_sender c) 0); [done|]. cbn [orb].
  destruct (N.ltb_spec (lenN (received_secrets g)) (contribution_sender c)) as [Hb|_]; [unfold lenN in Hb; lia|].
  rewrite Hs, bool_decide_eq_true_2 by done. apply IH.
Qed.

(** A batch after a part of it leaves what the batch alone leaves. *)
Lemma group_all_after_part g g1 g2 l l' n1 n2 : l ⊆ l' -> group_all g l 0 = (g1, Ok n1) -> group_all g1 l' 0 = (g2, Ok n2) ->
  exists n, group_all g l' 0 = (g2, Ok n).
Proof.
  intros Hsub H1 H2. apply group_all_Ok in H1 as (E1 & _ & K1). apply group_all_Ok in H2 as (E2 & Hh & K2).
  destruct (group_all_total g2 l' Hh g 0 (group_extends_trans _ _ _ E1 E2)) as (g3 & n & H3 & E3). exists n. rewrite H3. f_equal.
  apply group_all_Ok in H3 as (_ & Hh3 & K3). destruct E3 as [(lt & -> & Hlt) E3].
  rewrite <- (set_received_same g3) at 1. f_equal. apply list_eq. intros k. cbn in *.
  destruct (decide (k ∈ map slot_of l')) as [Hk|Hk].
  - apply list_elem_of_fmap in Hk as (c & -> & Hc). rewrite Forall_forall in Hh3. destruct (Hh3 c Hc) as (_ & share & _ & Hs).
    by rewrite (E3 _ _ Hs).
  - rewrite (K3 k Hk), (K2 k Hk), K1; [done|]. intros Hin. apply Hk. apply list_elem_of_fmap in Hin as (c & -> & Hc).
    apply list_elem_of_fmap. eauto.
Qed.
End group.

(** ** Replays of a store *)

Section replays.
Context {B : Blst} {Z : Ecies} {Sy : Symmetric}.

Definition with_sharing (s : DkgKeyStore) (g : DkgKeyGroup) : DkgKeyStore :=
  set_unfinished s (recovering s) (resharing s) (Some g).
Definition with_resharing (s : DkgKeyStore) (g : DkgKeyGroup) : DkgKeyStore :=
  set_unfinished s (recovering s) (Some g) (sharing s).

(** What member [i] makes of a contribution. *)
Definition opens_for (s : DkgKeyStore) (i : N) (c : DkgStoredContribution) : result KeyStoreError bytes :=
  decrypt_received_share s i (contribution_messages c) (contribution_pvss c).

Lemma with_sharing_same s g : sharing s = Some g -> with_sharing s g = s.
Proof. destruct s. cbn. by intros ->. Qed.
Lemma with_resharing_same s g : resharing s = Some g -> with_resharing s g = s.
Proof. destruct s. cbn. by intros ->. Qed.

Lemma share_batch i l : forall s g count, sharing s = Some g ->
  receive_all (receive_share_from i) s l count =
  (with_sharing s (group_all (opens_for s i) g l count).1, (group_all (opens_for s i) g l count).2).
Proof.
  induction l as [|c l IH]; intros s g count Hg; cbn [receive_all group_all]; [by rewrite with_sharing_same|].
  unfold receive_share_from at 1, receive_share, receive_group. rewrite Hg. fold (opens_for s i c).
  destruct (opens_for s i c) as [share|e]; [|cbn; by rewrite with_sharing_same].
  destruct (store_received g _ share) as [g' [fresh|e]]; cbn [fst snd]; [|done].
  rewrite (IH (with_sharing s g') g' _ eq_refl). done.
Qed.

Lemma reshare_batch i l : forall s g count, resharing s = Some g ->
  receive_all (receive_reshare_from i) s l count =
  (with_resharing s (group_all (opens_for s i) g l count).1, (group_all (opens_for s i) g l count).2).
Proof.
  induction l as [|c l IH]; intros s g count Hg; cbn [receive_all group_all]; [by rewrite with_resharing_same|].
  unfold receive_reshare_from at 1, receive_reshare, receive_group. rewrite Hg. fold (opens_for s i c).
  destruct (opens_for s i c) as [share|e]; [|cbn; by rewrite with_resharing_same].
  destruct (store_received g _ share) as [g' [fresh|e]]; cbn [fst snd]; [|done].
  rewrite (IH (with_resharing s g') g' _ eq_refl). done.
Qed.

(** The checks a replay makes before it receives. *)
Definition replay_checks (s : DkgKeyStore) (i : N) (r : DkgCanonicalRound) : Prop :=
  validate_store_round s (canonical_round r) = Ok tt /\ validate_round_contributions r (store_parameters s) = Ok tt /\
  validate_replay_index i (store_parameters s) = Ok tt.

(** The two batches of a round, on the groups of the store. *)
Definition reshare_part (s : DkgKeyStore) (i : N) (l : list DkgStoredContribution) (s' : DkgKeyStore) (n : N) : Prop :=
  match resharing s with
  | Some k => exists k', group_all (opens_for s i) k l 0 = (k', Ok n) /\ s' = with_resharing s k'
  | None => l = [] /\ n = 0 /\ s' = s
  end.

Lemma apply_round_Ok s i r s' o : apply_dkg_canonical_round s (Some i) r = (s', Ok o) <->
  replay_checks s i r /\ exists g g' n m, sharing s = Some g /\ group_all (opens_for s i) g (round_shares r) 0 = (g', Ok n) /\
    reshare_part (with_sharing s g') i (round_reshares r) s' m /\ o = mkDkgReplayOutcome n m 0 ((0 <? n) || (0 <? m)).
Proof.
  unfold apply_dkg_canonical_round, replay_checks, reshare_part. cbv zeta.
  destruct (validate_store_round s _) as [[]|e]; cbn [result_bind]; [|split; [done|by intros [(? & _) _]]].
  destruct (validate_round_contributions r _) as [[]|e]; cbn [result_bind]; [|split; [done|by intros [(_ & ? & _) _]]].
  destruct (validate_replay_index i _) as [[]|e]; cbn [result_bind]; [|split; [done|by intros [(_ & _ & ?) _]]].
  unfold is_sharing, is_resharing. destruct (sharing s) as [g|] eqn:Hg.
  2:{ rewrite bool_decide_eq_false_2 by (by intros []). split; [done|]. intros [_ (? & ? & ? & ? & ? & _)]. done. }
  rewrite bool_decide_eq_true_2 by done. cbn [negb]. cbn [resharing with_sharing set_unfinished].
  destruct (resharing s) as [k|] eqn:Hk.
  - rewrite (bool_decide_eq_true_2 (is_Some (Some k))) by done. rewrite andb_false_r. rewrite (share_batch i _ s g 0 Hg).
    destruct (group_all (opens_for s i) g _ 0) as [g' [n|e]] eqn:Ea; cbn [fst snd].
    2:{ split; [done|]. intros [_ (? & ? & ? & ? & [= <-] & Ea' & _)]. by rewrite Ea in Ea'. }
    rewrite (reshare_batch i _ (with_sharing s g') k 0 Hk).
    change (opens_for (with_sharing s g') i) with (opens_for s i).
    destruct (group_all (opens_for s i) k _ 0) as [k' [m|e]] eqn:Eb; cbn [fst snd].
    + split; [intros [= <- <-]; split; [done|]; exists g, g', n, m; split_and!; [done..|by exists k'|done]|].
      intros [_ (? & ? & ? & ? & [= <-] & Ea' & (? & Eb' & ->) & ->)]. rewrite Ea in Ea'. injection Ea' as <- <-.
      change (opens_for (with_sharing s g') i) with (opens_for s i) in Eb'. rewrite Eb in Eb'. by injection Eb' as <- <-.
    + split; [done|]. intros [_ (? & x & ? & ? & [= <-] & Ea' & (? & Eb' & _) & _)].
      change (opens_for (with_sharing s x) i) with (opens_for s i) in Eb'. by rewrite Eb in Eb'.
  - rewrite (bool_decide_eq_false_2 (is_Some None)) by (by intros []). cbn [negb]. rewrite andb_true_r.
    case_bool_decide as Hl; cbn [negb]; [|split; [done|by intros [_ (? & ? & ? & ? & _ & _ & (? & _) & _)]]].
    rewrite (share_batch i _ s g 0 Hg), Hl. destruct (group_all (opens_for s i) g _ 0) as [g' [n|e]] eqn:Ea; cbn [fst snd receive_all].
    + split; [intros [= <- <-]; split; [done|]; by exists g, g', n, 0|].
      intros [_ (? & ? & ? & ? & [= <-] & Ea' & (_ & -> & ->) & ->)]. rewrite Ea in Ea'. by injection Ea' as <- <-.
    + split; [done|]. intros [_ (? & ? & ? & ? & [= <-] & Ea' & _)]. by rewrite Ea in Ea'.
Qed.

(** Applying a round again changes nothing; applying it after a part of it leaves the store it
    leaves alone. *)
Lemma apply_again s i r s' o : apply_dkg_canonical_round s (Some i) r = (s', Ok o) ->
  apply_dkg_canonical_round s' (Some i) r = (s', Ok no_outcome).
Proof.
  intros ((H1 & H2 & H3) & g & g' & n & m & Hg & Ha & Hr & ->)%apply_round_Ok. apply apply_round_Ok.
  apply group_all_Ok in Ha as (_ & Hh & _). unfold reshare_part in *. cbn [resharing with_sharing set_unfinished] in Hr.
  destruct (resharing s) as [k|] eqn:Hk.
  - destruct Hr as (k' & Hb & ->). apply group_all_Ok in Hb as (_ & Hh' & _). split; [done|]. exists g', g', 0, 0. split_and!; [done| | |done].
    + by apply group_all_held.
    + exists k'. split; [|done]. by apply group_all_held.
  - destruct Hr as (Hl & _ & ->). split; [done|]. exists g', g', 0, 0. split_and!; [done|by apply group_all_held| |done].
    cbn [resharing with_sharing set_unfinished]. by rewrite Hk.
Qed.

Lemma apply_after_part s i r r' s1 s2 o1 o2 : round_shares r ⊆ round_shares r' -> round_reshares r ⊆ round_reshares r' ->
  apply_dkg_canonical_round s (Some i) r = (s1, Ok o1) -> apply_dkg_canonical_round s1 (Some i) r' = (s2, Ok o2) ->
  exists o, apply_dkg_canonical_round s (Some i) r' = (s2, Ok o).
Proof.
  intros Hs1 Hs2 (_ & g & g1 & n & m & Hg & Ha & Hr & ->)%apply_round_Ok
    ((H1 & H2 & H3) & g1' & g2 & n' & m' & Hg' & Ha' & Hr' & ->)%apply_round_Ok.
  unfold reshare_part in *. cbn [resharing with_sharing set_unfinished] in Hr, Hr'. destruct (resharing s) as [k|] eqn:Hk.
  - destruct Hr as (k1 & Hb & ->). injection Hg' as <-. destruct Hr' as (k2 & Hb' & ->).
    destruct (group_all_after_part _ _ _ _ _ _ _ _ Hs1 Ha Ha') as [a Ea].
    destruct (group_all_after_part _ _ _ _ _ _ _ _ Hs2 Hb Hb') as [b Eb].
    exists (mkDkgReplayOutcome a b 0 ((0 <? a) || (0 <? b))). apply apply_round_Ok. split; [done|].
    exists g, g2, a, b. split_and!; [done..| |done]. unfold reshare_part. cbn [resharing with_sharing set_unfinished]. rewrite Hk. by exists k2.
  - destruct Hr as (Hl & _ & ->). injection Hg' as <-. cbn [resharing with_sharing set_unfinished] in Hr'. rewrite Hk in Hr'.
    destruct Hr' as (Hl' & -> & ->). destruct (group_all_after_part _ _ _ _ _ _ _ _ Hs1 Ha Ha') as [a Ea].
    exists (mkDkgReplayOutcome a 0 0 ((0 <? a) || (0 <? 0))). apply apply_round_Ok. split; [done|].
    exists g, g2, a, 0. split_and!; [done..| |done]. unfold reshare_part. cbn [resharing with_sharing set_unfinished]. by rewrite Hk.
Qed.
(** C26. Replay is idempotent and incremental: a member that applies a round again changes nothing,
    and one that followed a part of a round before it applies the whole ends with the store
    of a member that applies the whole at once. *)
Theorem replay_converges s p r r' s1 s2 o1 o2 : round_shares r ⊆ round_shares r' -> round_reshares r ⊆ round_reshares r' ->
  apply_dkg_canonical_round s p r = (s1, Ok o1) -> apply_dkg_canonical_round s1 p r' = (s2, Ok o2) ->
  (exists o, apply_dkg_canonical_round s p r' = (s2, Ok o)) /\ apply_dkg_canonical_round s2 p r' = (s2, Ok no_outcome).
Proof.
  intros Hs1 Hs2 H1 H2. destruct p as [i|].
  - split; [by eapply apply_after_part|by eapply apply_again].
  - assert (Hn : forall s r s' o, apply_dkg_canonical_round s None r = (s', Ok o) -> s' = s /\ o = no_outcome).
    { clear. intros s r s' o H. unfold apply_dkg_canonical_round in H. destruct (validate_store_round _ _); [|done]. cbn [result_bind] in H.
      destruct (validate_round_contributions _ _); [|done]. by injection H as <- <-. }
    destruct (Hn _ _ _ _ H1) as [-> _]. destruct (Hn _ _ _ _ H2) as [-> ->]. split; [by exists no_outcome|done].
Qed.
End replays.

(** ** A rebuilt store *)

Section rebuilt.
Context {B : Blst} {Z : Ecies} {Sy : Symmetric} {L : FieldLaws B} {G : GroupLaws B}.

Definition announcements (l : list DkgStoredContribution) : Announcements :=
  map (fun c => (contribution_sender c, contribution_pvss c)) l.

Lemma validated_senders round kind d l : forall senders, validate_contributions round kind senders l d = Ok tt ->
  NoDup (map fst (announcements l)) /\ (forall i, i ∈ senders -> i ∉ map fst (announcements l)).
Proof.
  induction l as [|c l IH]; intros senders H; cbn [announcements map fst]; [split; [constructor|intros; apply not_elem_of_nil]|].
  cbn [validate_contributions] in H. apply result_bind_Ok in H as (? & _ & H). destruct (negb _); [done|].
  case_bool_decide as Hc; [done|]. apply IH in H as [Hn Hs]. split.
  - constructor; [|done]. apply Hs. apply elem_of_cons. by left.
  - intros i Hi. apply not_elem_of_cons. split; [by intros ->|]. apply Hs. apply elem_of_cons. by right.
Qed.

(** A batch received by a fresh group comes from its senders. *)
Lemma batch_provenance s i l g g' n : group_all (opens_for s i) g l 0 = (g', Ok n) ->
  provenance (store_parameters s) i (announcements l) g -> provenance (store_parameters s) i (announcements l) g'.
Proof.
  intros ([(rs & -> & Hl) _] & Hh & Hk)%group_all_Ok [Hlen Hp]. split; [cbn; lia|]. intros k share Hs.
  destruct (decide (k ∈ map slot_of l)) as [Hin|Hin]; [|rewrite Hk in Hs by done; by apply Hp].
  apply list_elem_of_fmap in Hin as (c & -> & Hc). rewrite Forall_forall in Hh. destruct (Hh c Hc) as (Hz & x & Ho & Hx).
  rewrite Hs in Hx. injection Hx as <-. exists (contribution_pvss c). split; [|by apply decrypted_dealt in Ho].
  apply list_elem_of_fmap. exists c. split; [|done]. f_equal. unfold slot_of. lia.
Qed.

(** The groups of a store, once its share of a round is prepared. *)
Lemma prepared_share s fuel chain_id rng s' m : prepare_share s fuel chain_id rng = (s', Ok m) ->
  store_parameters s' = store_parameters s /\ store_round s' = store_round s /\ message_private_key s' = message_private_key s /\
  validator_address s' = validator_address s /\ resharing s' = resharing s /\
  exists g g', sharing s = Some g /\ sharing s' = Some g' /\ received_secrets g' = received_secrets g.
Proof.
  unfold prepare_share. cbv zeta. destruct (result_bind _ _) as [[[p material] g]|e] eqn:E; [|done]. intros [= <- <-].
  apply result_bind_Ok in E as (? & _ & E). apply result_bind_Ok in E as (? & _ & E). apply result_bind_Ok in E as (? & _ & E).
  apply result_bind_Ok in E as (g0 & Hg & [= _ _ ->]). apply ok_or_Ok in Hg. cbn. split_and!; [done..|].
  eexists g, _. split_and!; [done..|]. by case_bool_decide.
Qed.

Definition identity (s : DkgKeyStore) : DkgParameters * option Address * bytes :=
  (store_parameters s, validator_address s, message_private_key s).

Lemma epoch_identity s self_pvss aggregated previous member :
  identity (on_epoch_change s self_pvss aggregated previous member).1 = identity s.
Proof.
  unfold on_epoch_change. destruct aggregated; [done|]. destruct (settle_epoch _ _ _ _ _) as [[[? ?] ?]|]; done.
Qed.

(** The member's groups after the contributions of a round were replayed on a bare store. *)
Lemma rebuilt_groups s fuel chain_id rng i r force s' o : shared s = None ->
  rebuild_dkg_canonical_round_inner s fuel chain_id rng (Some i) r force = (s', Ok o) ->
  identity s' = identity s /\ store_round s' = store_round s /\ canonical_round r = store_round s + 1 /\
  NoDup (map fst (announcements (round_shares r))) /\ NoDup (map fst (announcements (round_reshares r))) /\
  (exists g, sharing s' = Some g /\ provenance (store_parameters s) i (announcements (round_shares r)) g) /\
  if force then exists k, resharing s' = Some k /\ provenance (store_parameters s) i (announcements (round_reshares r)) k
  else resharing s' = None.
Proof.
  intros Hsh H. unfold rebuild_dkg_canonical_round_inner in H. cbv zeta in H. destruct (result_bind _ _) as [_|]; [|done].
  set (s0 := on_share_period_start s force) in *.
  destruct (prepare_share s0 fuel chain_id rng) as [s1 [m|]] eqn:Ep; [|done].
  apply prepared_share in Ep as (P1 & P2 & P3 & P4 & P5 & g & g1 & Hg & Hg1 & Hrec).
  destruct (apply_dkg_canonical_round s1 (Some i) r) as [s2 [o'|]] eqn:Ea; [|done]. injection H as <- _.
  apply apply_round_Ok in Ea as ((C1 & C2 & _) & g1' & g2 & n & q & Hg1' & Hb & Hr & ->). rewrite Hg1 in Hg1'. injection Hg1' as <-.
  unfold validate_store_round in C1. apply result_bind_Ok in C1 as (next & Hn & C1). apply ok_or_Ok, checked_add_Some in Hn as [-> _].
  destruct (N.eqb_spec (canonical_round r) (store_round s1 + 1)) as [Hround|]; [|done].
  unfold validate_round_contributions in C2. apply result_bind_Ok in C2 as ([] & V1 & V2).
  apply validated_senders in V1 as [V1 _], V2 as [V2 _].
  assert (Hp : provenance (store_parameters s) i (announcements (round_shares r)) g2).
  { change (store_parameters s) with (store_parameters s0). rewrite <- P1. eapply batch_provenance; [exact Hb|]. rewrite P1. injection Hg as <-.
    unfold provenance. rewrite Hrec. apply provenance_new. }
  assert (Hre : resharing s1 = if force then Some (group_new (store_parameters s)) else None).
  { rewrite P5. subst s0. cbn. by rewrite Hsh. }
  unfold reshare_part in Hr. cbn [resharing with_sharing set_unfinished] in Hr. rewrite Hre in Hr.
  assert (Hid : identity s1 = identity s) by (unfold identity; by rewrite P1, P3, P4).
  destruct force.
  - destruct Hr as (k & Hk & ->). split_and!; [done|done|by rewrite Hround, P2|done|done|by exists g2|]. exists k. split; [done|].
    change (store_parameters s) with (store_parameters s0). rewrite <- P1. eapply batch_provenance; [exact Hk|].
    rewrite P1. apply provenance_new.
  - destruct Hr as (_ & _ & ->). split_and!; [done|done|by rewrite Hround, P2|done|done|by exists g2|done].
Qed.

(** A round only settles with its commitment, and with the previous one when it reshares. *)
Lemma epoch_commitments s self_pvss aggregated previous member s' r :
  on_epoch_change s self_pvss (default [] aggregated) (default [] previous) member = (s', Ok (Advanced r)) ->
  is_Some aggregated /\ (is_Some (resharing s) -> is_Some previous).
Proof.
  intros H. destruct aggregated as [commitment|]; [|by injection H]. split; [done|]. intros [k Hk].
  destruct previous as [c|]; [done|exfalso]. cbn [default from_option id] in H. unfold on_epoch_change in H.
  destruct commitment; [by injection H|]. destruct (settle_epoch _ _ _ _ _) as [[[? ?] ?]|] eqn:Es; [|done].
  unfold settle_epoch in Es. destruct (Bool.eqb _ _); [done|]. rewrite Hk in Es.
  repeat (apply result_bind_Ok in Es as (? & ? & Es); try done).
Qed.

(** What a member's settled group is worth: its private share is the one the transcript of the
    announcements commits to, and its committee key the one of the commitment. *)
Definition settled_on (d : DkgParameters) (i : N) (cs : Announcements) (commitment : bytes) (share key : option bytes) : Prop :=
  exists x y, share = Some x /\ key = Some y /\ global_public_key_from_commitment commitment (scaler d) = Ok y /\
    verify_aggregated_dkg_share_with_parameters i x (transcript d cs) d = Ok tt.

(** A member's store rebuilt from the contract's storage, whatever the local store held, is the
    one of the settled round, with the member's identity; its current private share is the
    share of the round's announcements and, after the first round, its previous one the share
    of the reshare announcements, each beside the key of its commitment. *)
Theorem rebuilt_store_settles n source fuel chain_id rng i r e s : dkg_parameters_new n = Ok (store_parameters source) ->
  rebuild_dkg_canonical_store source fuel chain_id rng (Some i) r e = Ok s ->
  identity s = identity source /\ store_round s = canonical_round r /\
  (exists commitment, aggregated_commitment e = Some commitment /\
    settled_on (store_parameters source) i (announcements (round_shares r)) commitment
      (current_private_share s) (current_global_public_key s)) /\
  if 1 <? canonical_round r then
    exists commitment, previous_commitment e = Some commitment /\
      settled_on (store_parameters source) i (announcements (round_reshares r)) commitment
        (previous_private_share s) (previous_global_public_key s)
  else reshared s = None.
Proof.
  intros Hd H. unfold rebuild_dkg_canonical_store in H. destruct (canonical_round r =? 0); [done|]. destruct (negb _); [done|]. cbv zeta in H.
  destruct (rebuild_dkg_canonical_round_inner _ _ _ _ _ _ _) as [s1 [o|]] eqn:E1; [|done]. cbn [result_bind] in H.
  apply rebuilt_groups in E1 as (Hid & Hrd & Hcr & N1 & N2 & (g & Hg & Hp) & Hk); [|done]. cbn in Hrd, Hcr, Hp, Hk.
  unfold apply_dkg_canonical_epoch in H. destruct (validate_store_round s1 _); [|done].
  destruct (bool_decide _ && _); [done|].
  pose proof (epoch_identity s1 (default [] (self_pvss e)) (default [] (aggregated_commitment e)) (default [] (previous_commitment e)) true) as Hid'.
  rewrite (bool_decide_eq_true_2 (is_Some (Some i))) in H by done.
  destruct (on_epoch_change _ _ _ _ _) as [s2 [[|round]|]] eqn:E2; [done| |done]. cbn [map_err result_bind] in H.
  destruct (N.eqb_spec round (canonical_round r)) as [->|]; [|done]. injection H as <-. cbn [fst] in Hid'.
  pose proof (f_equal (fun x => x.1.1) Hid) as Hpar. cbn in Hpar.
  apply epoch_commitments in E2 as Hcs. destruct Hcs as [[commitment Hagg] Hprev]. rewrite Hagg in E2. cbn [default from_option id] in E2.
  apply epoch_settled in E2 as (g0 & g' & h & Hg0 & Hrec & Hset & _ & _ & Hr2 & _ & _ & Hsh & _ & _ & _ & Hres).
  rewrite Hg in Hg0. injection Hg0 as <-. rewrite Hpar in Hset, Hres.
  split_and!; [by rewrite Hid', Hid|done| |].
  - exists commitment. split; [done|]. unfold settled_on, current_private_share, current_global_public_key. rewrite Hsh. cbn.
    assert (Hp' : provenance (store_parameters source) i (announcements (round_shares r)) g') by (unfold provenance; by rewrite Hrec).
    destruct (settled_group_share _ _ _ _ _ _ _ Hd N1 Hp' Hset) as (x & y & ? & ? & ? & ?). by exists x, y.
  - destruct (N.ltb_spec 1 (canonical_round r)) as [Hlt|Hle].
    + destruct Hk as (k & Hk & Hpk). rewrite Hk in Hres. destruct Hres as (k' & Hset' & Hrs).
      destruct Hprev as [c Hc]; [by rewrite Hk|]. exists c. split; [done|]. rewrite Hc in Hset'. cbn [default from_option id] in Hset'.
      unfold settled_on, previous_private_share, previous_global_public_key. rewrite Hrs. cbn.
      destruct (settled_group_share _ _ _ _ _ _ _ Hd N2 Hpk Hset') as (x & y & ? & ? & ? & ?). by exists x, y.
    + by rewrite Hk in Hres.
Qed.
End rebuilt.

(** ** Recovery after a settlement *)

Section recovery.
Context {C : Crypto}.
Variable storage : B256 -> result DkgStorageError (option U256).
Hypothesis bounded : words_bounded storage.

(** Where the contract keeps the announcement and the messages of a fresh share. *)
Definition share_pvss_slot (round sender : N) : U256 := nested_uint_mapping_storage_key (kind_slots ShareKind).1 [round; sender].
Definition share_messages_slot (round sender : N) : U256 := nested_uint_mapping_storage_key (kind_slots ShareKind).2 [round; sender].

(** A settled contribution: its announcement is kept and its messages are cleared. *)
Lemma cleared_contribution d round sender pvss : 0 < round -> index_valid d sender = true ->
  lenN pvss = pvss_len d -> pvss_len d <= USIZE_MAX -> participants d <= USIZE_MAX ->
  stores_bytes storage (share_pvss_slot round sender) pvss -> stores_array storage (share_messages_slot round sender) [] ->
  read_dkg_share_pvss_with_parameters storage round sender d = Ok (Some pvss) /\
  read_dkg_share_contribution_with_parameters storage round sender d = Err (DkgStorageError.IncompleteContribution "share" round sender).
Proof.
  intros Hr Hi Hl Hm Hpm Hp Ha.
  assert (Hne : pvss <> []) by (intros ->; unfold pvss_len, NEOX_DKG_G1_LEN, NEOX_DKG_G2_LEN in Hl; unfold lenN in Hl; cbn [length] in Hl; lia).
  pose proof (bounded_bytes_roundtrip storage bounded _ _ _ ltac:(rewrite Hl; reflexivity) Hm Hp) as Eb.
  pose proof (bytes_array_roundtrip storage bounded _ [] (participants d) ltac:(unfold lenN; cbn; lia) Hpm (Forall_nil_2 _) Ha) as Em.
  unfold share_pvss_slot, share_messages_slot in Eb, Em.
  unfold read_dkg_share_pvss_with_parameters, read_dkg_share_contribution_with_parameters, read_dkg_pvss, read_dkg_contribution,
    validate_round, validate_storage_index. rewrite Hi. destruct (N.eqb_spec round 0); [lia|]. cbn [result_bind].
  unfold read_dkg_pvss_from_storage, read_dkg_contribution_from_storage. cbv zeta. rewrite Eb, Em. cbn [result_bind].
  rewrite (bool_decide_eq_false_2 (pvss = [])) by done. cbn. rewrite Hl, N.eqb_refl. by destruct pvss.
Qed.

(** Once the previous round has settled, with its announcements kept and its message arrays
    cleared, the recovery of a member's share cannot be read, although the announcement it is
    verified against can. *)
Theorem settled_recovery_unreadable d round recipient pvss : 1 < round -> index_valid d recipient = true ->
  lenN pvss = pvss_len d -> pvss_len d <= USIZE_MAX -> participants d <= USIZE_MAX ->
  stores_bytes storage (share_pvss_slot (round - 1) recipient) pvss ->
  stores_array storage (share_messages_slot (round - 1) recipient) [] ->
  read_dkg_share_pvss_with_parameters storage (round - 1) recipient d = Ok (Some pvss) /\
  read_dkg_canonical_recovery_with_parameters storage round recipient d =
    Err (DkgReplayError.Storage (DkgStorageError.IncompleteContribution "share" (round - 1) recipient)).
Proof.
  intros Hr Hi Hl Hm Hpm Hp Ha. destruct (cleared_contribution d (round - 1) recipient pvss) as [H1 H2]; [lia|done..|]. split; [done|].
  unfold read_dkg_canonical_recovery_with_parameters, validate_replay_index. rewrite Hi. destruct (N.leb_spec round 1); [lia|].
  cbn [result_bind]. by rewrite H2.
Qed.
End recovery.
