(* ===== verification/ModelDkg.v ===== *)
(** A member of the committee of ModelThreshold.v that rebuilds its key store from the
    contract's storage: the theorems of DkgState.v and DkgReplay.v at concrete inputs. *)

From S2P Require Import Prelude Extern Instances Tpke DkgParams Lagrange Dkg Pvss Threshold ModelThreshold DkgState Storage DkgStorage DkgReplay.

Module Member.
Import Committee.
#[local] Existing Instance field_blst.
#[local] Existing Instance model_symmetric.
#[local] Existing Instance model_crypto.

(** Encryption that only adds the tag. *)
Definition model_ecies : Ecies := {|
  k256_secret := bytes;
  k256_public := bytes;
  secret_from_slice b := if lenN b =? 32 then Some b else None;
  secret_public_key b := b;
  public_from_sec1_bytes := Some;
  shared_x _ _ := Some [];
  sha3_256 := model_digest;
  aes256_gcm_decrypt _ _ c := Some (take 32 c);
|}.
#[local] Existing Instance model_ecies.

Definition sealed_message (share : N) : bytes := repeat x00 76 ++ secret share ++ repeat x00 16.

(** What the dealer at [k] sends: the first member's share, and the others' messages. *)
Definition contribution (round : N) (k : nat) : DkgStoredContribution :=
  mkDkgStoredContribution round (N.of_nat k + 1) (nth k transcript [])
    (sealed_message (nth k [3; 4; 6; 8] 0) :: replicate 3 (sealed_message 1)).

Definition whole_round : DkgCanonicalRound :=
  mkDkgCanonicalRound 2 (map (contribution 2) (seq 0 4)) (map (contribution 2) (seq 0 4)).
Definition half_round : DkgCanonicalRound := mkDkgCanonicalRound 2 (map (contribution 2) [2%nat; 0%nat]) [].
Definition epoch : DkgCanonicalEpoch := mkDkgCanonicalEpoch 2 (Some (nth 0 transcript [])) (Some commitment) (Some commitment).

(** A store of a later round, with nothing that can be used. *)
Definition stale : DkgKeyStore := detached_replay_baseline (store_new_with_parameters (secret 11) parameters) 9.
Definition rng : Draws := [Ok (secret 7)].

Definition rebuilt : DkgKeyStore :=
  Eval vm_compute in match rebuild_dkg_canonical_store stale 3 47763 rng (Some 1) whole_round epoch with Ok s => s | Err _ => stale end.

Lemma rebuilt_ok : rebuild_dkg_canonical_store stale 3 47763 rng (Some 1) whole_round epoch = Ok rebuilt.
Proof. by_vm. Qed.

Lemma rebuilt_store_settles_witness :
  identity rebuilt = identity stale /\ store_round rebuilt = 2 /\
  (exists c, aggregated_commitment epoch = Some c /\
    settled_on parameters 1 (announcements (round_shares whole_round)) c
      (current_private_share rebuilt) (current_global_public_key rebuilt)) /\
  exists c, previous_commitment epoch = Some c /\
    settled_on parameters 1 (announcements (round_reshares whole_round)) c
      (previous_private_share rebuilt) (previous_global_public_key rebuilt).
Proof. exact (rebuilt_store_settles 4 stale 3 47763 rng 1 whole_round epoch rebuilt parameters_new rebuilt_ok). Defined.

(** The rebuilt share and key are the committee's. *)
Example rebuilt_keys : (current_private_share rebuilt, current_global_public_key rebuilt) = (Some (private 1), Some key).
Proof. by_vm. Qed.

(** ** Following a round *)

(** The store of a member in the second round, with its share prepared. *)
Definition opened : DkgKeyStore :=
  Eval vm_compute in (prepare_share (on_share_period_start (detached_replay_baseline stale 1) true) 3 47763 rng).1.

Definition halfway : DkgKeyStore := Eval vm_compute in (apply_dkg_canonical_round opened (Some 1) half_round).1.
Definition followed : DkgKeyStore := Eval vm_compute in (apply_dkg_canonical_round halfway (Some 1) whole_round).1.

Lemma half_applied : apply_dkg_canonical_round opened (Some 1) half_round = (halfway, Ok (mkDkgReplayOutcome 2 0 0 true)).
Proof. by_vm. Qed.

Lemma whole_applied : apply_dkg_canonical_round halfway (Some 1) whole_round = (followed, Ok (mkDkgReplayOutcome 2 4 0 true)).
Proof. by_vm. Qed.

Lemma half_shares : round_shares half_round ⊆ round_shares whole_round.
Proof. intros c Hc. unfold half_round, whole_round in *. cbn [round_shares map seq] in *. set_solver. Qed.

Lemma half_reshares : round_reshares half_round ⊆ round_reshares whole_round.
Proof. intros c Hc. by apply not_elem_of_nil in Hc. Qed.

Lemma replay_converges_witness :
  (exists o, apply_dkg_canonical_round opened (Some 1) whole_round = (followed, Ok o)) /\
  apply_dkg_canonical_round followed (Some 1) whole_round = (followed, Ok no_outcome).
Proof. exact (replay_converges _ _ _ _ _ _ _ _ half_shares half_reshares half_applied whole_applied). Defined.

(** A store on its way through the first round. *)
Definition first_round : DkgKeyStore :=
  (receive_share (on_share_period_start (store_new_with_parameters (secret 11) parameters) false) 1 1
     (contribution_messages (contribution 1 0)) (nth 0 transcript [])).1.

Lemma first_round_reachable : store_reachable (secret 11) parameters first_round.
Proof.
  unfold first_round. eapply reach_step; [|apply step_share]. eapply reach_step; [apply reach_new|]. by apply step_share_start.
Qed.


(** ** A settled round in storage *)

Definition kept : bytes := nth 0 transcript [].
Definition kept_base : N := N_of_be (keccak256 (u256_bytes (share_pvss_slot 1 1))).
Definition kept_word (i : N) : bytes := take 32 (drop (N.to_nat (32 * i)) (kept ++ repeat x00 31)).

(** The first dealer's announcement of round 1, and nothing else. *)
Definition settled_storage (k : B256) : result DkgStorageError (option U256) :=
  if bool_decide (k = u256_bytes (share_pvss_slot 1 1)) then Ok (Some (2 * lenN kept + 1))
  else
    match List.find (fun i => bool_decide (k = u256_bytes (wrapping_add U256_MAX kept_base i))) (map N.of_nat (seq 0 40)) with
    | Some i => Ok (Some (N.min U256_MAX (N_of_be (kept_word i))))
    | None => Ok None
    end.

Lemma settled_storage_bounded : words_bounded settled_storage.
Proof.
  intros k w. unfold settled_storage. case_bool_decide.
  - intros [= <-]. by vm_compute.
  - destruct (List.find _ _) as [i|]; [|done]. intros [= <-]. lia.
Qed.

Definition kept_test (i : N) : bool :=
  match settled_storage (u256_bytes (wrapping_add U256_MAX kept_base i)) with
  | Ok word => bool_decide (u256_bytes (default 0 word) = kept_word i)
  | Err _ => false
  end.

Lemma kept_tested : forallb kept_test (map N.of_nat (seq 0 40)) = true.
Proof. by_vm. Qed.

Lemma kept_words i : i < 40 -> holds settled_storage (wrapping_add U256_MAX kept_base i) (kept_word i).
Proof.
  intros Hi. pose proof kept_tested as H. rewrite forallb_forall in H.
  assert (Hin : In i (map N.of_nat (seq 0 40))) by (apply in_map_iff; exists (N.to_nat i); split; [lia|apply in_seq; lia]).
  specialize (H i Hin). unfold kept_test in H. destruct (settled_storage _) as [word|] eqn:E; [|discriminate H].
  apply bool_decide_eq_true in H. exists word. split; [exact E|exact H].
Qed.

Lemma kept_header : settled_storage (u256_bytes (share_pvss_slot 1 1)) = Ok (Some (2 * lenN kept + 1)).
Proof. by_vm. Qed.

Lemma kept_long : (lenN kept <=? 31) = false.
Proof. by_vm. Qed.

Lemma kept_count : div_ceil (lenN kept) 32 = 40.
Proof. by_vm. Qed.

Lemma kept_stored : stores_bytes settled_storage (share_pvss_slot 1 1) kept.
Proof.
  unfold stores_bytes. rewrite kept_long, kept_count. split.
  - exists (2 * lenN kept + 1). split; [exact kept_header|reflexivity].
  - exact kept_words.
Qed.

Lemma messages_cleared : stores_array settled_storage (share_messages_slot 1 1) [].
Proof. split; [exists None; split; [by_vm|reflexivity]|]. intros i b H. by rewrite lookup_nil in H. Qed.

Lemma settled_recovery_unreadable_witness :
  read_dkg_share_pvss_with_parameters settled_storage 1 1 parameters = Ok (Some kept) /\
  read_dkg_canonical_recovery_with_parameters settled_storage 2 1 parameters =
    Err (DkgReplayError.Storage (DkgStorageError.IncompleteContribution "share" 1 1)).
Proof.
  apply (settled_recovery_unreadable settled_storage settled_storage_bounded parameters 2 1 kept).
  - lia.
  - by_vm.
  - by_vm.
  - by vm_compute.
  - by vm_compute.
  - exact kept_stored.
  - exact messages_cleared.
Defined.
End Member.
