(* ===== verification/DkgSettled.v ===== *)
(** The settled round of key generation (bin/neox-rs/src/dkg_runtime.rs): the canonical
    material of a round, its digest, and the check of the local key store against it. *)

From S2P Require Import Prelude Extern Instances Tpke DkgParams Lagrange Dkg Pvss Threshold DkgState Storage DkgStorage DkgReplay.

#[export] Instance canonical_pvss_eq : EqDecision DkgCanonicalPvss.
Proof. solve_decision. Defined.
#[export] Instance canonical_epoch_eq : EqDecision DkgCanonicalEpoch.
Proof. solve_decision. Defined.

Record DkgSettledCanonical : Type := mkDkgSettledCanonical {
  settled_round : N;
  settled_index : option N;
  settled_pvss : option DkgCanonicalPvss;
  settled_epoch : option DkgCanonicalEpoch;
}.

#[export] Instance settled_canonical_eq : EqDecision DkgSettledCanonical.
Proof. solve_decision. Defined.

(** Messages of [eyre::bail!], errors of the checks called, and [expect]. *)
Inductive SettledError : Type :=
| SettledMessage (message : string)
| SettledMaterial (error : DkgMaterialError)
| SettledKey (error : TpkeError)
| SettledPanicked.

Section settled.
Context {C : Crypto} {B : Blst}.

(** [DkgSettledCanonical::read] *)
Definition settled_read (storage : B256 -> result DkgStorageError (option U256)) (round : N) (current_index : option N)
    (parameters : DkgParameters) : result DkgReplayError DkgSettledCanonical :=
  if round =? 0 then Ok (mkDkgSettledCanonical round current_index None None)
  else
    let? pvss := read_dkg_canonical_pvss_with_parameters storage round parameters in
    let? epoch := read_dkg_canonical_epoch_with_parameters storage round current_index parameters in
    Ok (mkDkgSettledCanonical round current_index (Some pvss) (Some epoch)).

(** ** The digest of the settled material *)

Definition push_bytes (b : bytes) : bytes := be_bytes 8 (lenN b) ++ b.
Definition push_all (l : list bytes) : bytes := be_bytes 8 (lenN l) ++ flat_map push_bytes l.
Definition push_option (f : bytes -> bytes) (o : option bytes) : bytes :=
  match o with Some b => x01 :: f b | None => [x00] end.

Definition settled_buffer (c : DkgSettledCanonical) : bytes :=
  be_bytes 8 (settled_round c) ++ be_bytes 8 (default U64_MAX (settled_index c)) ++
  match settled_pvss c with
  | Some pvss => x01 :: be_bytes 8 (pvss_round pvss) ++ push_all (pvss_shares pvss) ++ push_all (pvss_reshares pvss)
  | None => [x00]
  end ++
  match settled_epoch c with
  | Some epoch =>
      x01 :: be_bytes 8 (epoch_round epoch) ++ push_option push_bytes (self_pvss epoch) ++
      push_option id (aggregated_commitment epoch) ++ push_option id (previous_commitment epoch)
  | None => [x00]
  end.

Definition settled_canonical_digest (c : DkgSettledCanonical) : B256 := keccak256 (settled_buffer c).

(** ** The local store against the settled material *)

(** The key of a commitment to a transcript, checked against the store's. *)
Definition validate_settled_key (commitment : bytes) (pvsses : list bytes) (parameters : DkgParameters)
    (stored : option bytes) (mismatch : string) : result SettledError unit :=
  let? _ := map_err SettledMaterial (verify_aggregated_dkg_commitment_with_parameters commitment pvsses parameters) in
  let? key := map_err SettledKey (global_public_key_from_commitment commitment (scaler parameters)) in
  if negb (bool_decide (stored = Some key)) then Err (SettledMessage mismatch) else Ok tt.

Definition validate_current_share (s : DkgKeyStore) (c : DkgSettledCanonical) (pvss : DkgCanonicalPvss)
    (epoch : DkgCanonicalEpoch) : result SettledError unit :=
  match settled_index c with
  | Some index =>
      let? private_share := ok_or (current_private_share s) (SettledMessage "missing the current private share") in
      let? _ :=
        map_err SettledMaterial
          (verify_aggregated_dkg_share_with_parameters index private_share (pvss_shares pvss) (store_parameters s)) in
      let? self_pvss := ok_or (self_pvss epoch) (SettledMessage "missing self PVSS") in
      if index =? 0 then Err SettledPanicked
      else if negb (bool_decide (pvss_shares pvss !! N.to_nat (index - 1) = Some self_pvss))
      then Err (SettledMessage "self PVSS does not match the member") else Ok tt
  | None =>
      if bool_decide (is_Some (current_private_share s)) || bool_decide (is_Some (self_pvss epoch))
      then Err (SettledMessage "a private share outside the canonical validator set") else Ok tt
  end.

Definition validate_previous_share (s : DkgKeyStore) (c : DkgSettledCanonical) (pvss : DkgCanonicalPvss)
    : result SettledError unit :=
  match settled_index c with
  | Some index =>
      let? private_share := ok_or (previous_private_share s) (SettledMessage "missing the previous private share") in
      map_err SettledMaterial
        (verify_aggregated_dkg_share_with_parameters index private_share (pvss_reshares pvss) (store_parameters s))
  | None =>
      if bool_decide (is_Some (previous_private_share s))
      then Err (SettledMessage "a previous private share outside the canonical validator set") else Ok tt
  end.

Definition validate_settled_store (s : DkgKeyStore) (c : DkgSettledCanonical) : result SettledError unit :=
  if negb (store_round s =? settled_round c) then Err (SettledMessage "the local round does not match the canonical round")
  else if settled_round c =? 0 then
    if bool_decide (is_Some (current_private_share s)) || bool_decide (is_Some (previous_private_share s)) ||
       bool_decide (is_Some (current_global_public_key s)) || bool_decide (is_Some (previous_global_public_key s))
    then Err (SettledMessage "the round-zero store contains settled key material") else Ok tt
  else
    let? pvss := ok_or (settled_pvss c) SettledPanicked in
    let? epoch := ok_or (settled_epoch c) SettledPanicked in
    if negb (pvss_round pvss =? settled_round c) || negb (epoch_round epoch =? settled_round c)
    then Err (SettledMessage "settled material has mismatched rounds")
    else
      let? current := ok_or (aggregated_commitment epoch) (SettledMessage "no aggregate") in
      let? _ :=
        validate_settled_key current (pvss_shares pvss) (store_parameters s) (current_global_public_key s)
          "the global key does not match the canonical commitment" in
      let? _ := validate_current_share s c pvss epoch in
      if settled_round c =? 1 then
        if negb (bool_decide (pvss_reshares pvss = [])) || bool_decide (is_Some (previous_commitment epoch)) ||
           bool_decide (is_Some (previous_private_share s)) || bool_decide (is_Some (previous_global_public_key s))
        then Err (SettledMessage "unexpected previous-epoch material") else Ok tt
      else
        let? previous := ok_or (previous_commitment epoch) (SettledMessage "no previous aggregate commitment") in
        let? _ :=
          validate_settled_key previous (pvss_reshares pvss) (store_parameters s) (previous_global_public_key s)
            "the previous global key does not match the canonical commitment" in
        validate_previous_share s c pvss.

(** ** What an accepted store holds *)

(** A member's share is the one the transcript deals to it, under the key of the commitment;
    nobody else has a share. *)
Definition canonical_share (d : DkgParameters) (index : option N) (pvsses : list bytes) (commitment share key : option bytes)
    : Prop :=
  match index with
  | Some i => exists c x y, commitment = Some c /\ share = Some x /\ key = Some y /\
      global_public_key_from_commitment c (scaler d) = Ok y /\ verify_aggregated_dkg_share_with_parameters i x pvsses d = Ok tt
  | None => share = None
  end.

(** The shares [share] and [previous] with their keys are those of the settled material. *)
Definition shares_of_settled (d : DkgParameters) (c : DkgSettledCanonical) (share key previous previous_key : option bytes) : Prop :=
  match settled_pvss c, settled_epoch c with
  | Some pvss, Some epoch =>
      canonical_share d (settled_index c) (pvss_shares pvss) (aggregated_commitment epoch) share key /\
      canonical_share d (if 1 <? settled_round c then settled_index c else None) (pvss_reshares pvss)
        (previous_commitment epoch) previous previous_key
  | _, _ => share = None /\ previous = None
  end.

Definition holds_settled (s : DkgKeyStore) (c : DkgSettledCanonical) : Prop :=
  store_round s = settled_round c /\
  shares_of_settled (store_parameters s) c (current_private_share s) (current_global_public_key s)
    (previous_private_share s) (previous_global_public_key s).

(** Material as [settled_read] returns it. *)
Definition settled_shaped (c : DkgSettledCanonical) : Prop :=
  settled_round c = 0 -> settled_pvss c = None /\ settled_epoch c = None.

Lemma settled_read_shaped storage round index d c : settled_read storage round index d = Ok c -> settled_shaped c.
Proof.
  unfold settled_read. destruct (N.eqb_spec round 0) as [->|Hr]; [by intros [= <-] _|]. intros H.
  apply result_bind_Ok in H as (pvss & _ & H). apply result_bind_Ok in H as (epoch & _ & [= <-]). by intros ?.
Qed.

Lemma settled_read_fields storage round index d c : settled_read storage round index d = Ok c ->
  settled_round c = round /\ settled_index c = index.
Proof.
  unfold settled_read. destruct (round =? 0); [by intros [= <-]|]. intros H.
  apply result_bind_Ok in H as (pvss & _ & H). by apply result_bind_Ok in H as (epoch & _ & [= <-]).
Qed.

Lemma settled_key_Ok commitment pvsses d stored mismatch : validate_settled_key commitment pvsses d stored mismatch = Ok tt ->
  exists key, stored = Some key /\ global_public_key_from_commitment commitment (scaler d) = Ok key.
Proof.
  unfold validate_settled_key. intros H. apply result_bind_Ok in H as (? & _ & H). apply result_bind_Ok in H as (key & Hk & H).
  apply map_err_Ok in Hk. case_bool_decide; [|done]. by exists key.
Qed.

Lemma current_share_Ok s c pvss epoch commitment key : validate_current_share s c pvss epoch = Ok tt ->
  aggregated_commitment epoch = Some commitment -> current_global_public_key s = Some key ->
  global_public_key_from_commitment commitment (scaler (store_parameters s)) = Ok key ->
  canonical_share (store_parameters s) (settled_index c) (pvss_shares pvss) (aggregated_commitment epoch)
    (current_private_share s) (current_global_public_key s).
Proof.
  unfold validate_current_share, canonical_share. intros H Hc Hk Hg. destruct (settled_index c) as [i|].
  - apply result_bind_Ok in H as (x & Hx & H). apply ok_or_Ok in Hx. apply result_bind_Ok in H as ([] & Hv & _).
    apply map_err_Ok in Hv. by exists commitment, x, key.
  - by destruct (current_private_share s).
Qed.

Lemma previous_share_Ok s c pvss epoch commitment key : validate_previous_share s c pvss = Ok tt ->
  previous_commitment epoch = Some commitment -> previous_global_public_key s = Some key ->
  global_public_key_from_commitment commitment (scaler (store_parameters s)) = Ok key ->
  canonical_share (store_parameters s) (settled_index c) (pvss_reshares pvss) (previous_commitment epoch)
    (previous_private_share s) (previous_global_public_key s).
Proof.
  unfold validate_previous_share, canonical_share. intros H Hc Hk Hg. destruct (settled_index c) as [i|].
  - apply result_bind_Ok in H as (x & Hx & H). apply ok_or_Ok in Hx. apply map_err_Ok in H. by exists commitment, x, key.
  - by destruct (previous_private_share s).
Qed.

Lemma validated_holds s c : settled_shaped c -> validate_settled_store s c = Ok tt -> holds_settled s c.
Proof.
  intros Hsh H. unfold validate_settled_store in H. destruct (N.eqb_spec (store_round s) (settled_round c)) as [Hr|]; [|done].
  split; [done|]. unfold shares_of_settled. destruct (N.eqb_spec (settled_round c) 0) as [E|E].
  { destruct (Hsh E) as [-> _]. destruct (current_private_share s), (previous_private_share s); done. }
  apply result_bind_Ok in H as (pvss & Hp & H). apply result_bind_Ok in H as (epoch & He & H). apply ok_or_Ok in Hp, He.
  rewrite Hp, He. destruct (negb (pvss_round pvss =? _) || _); [done|].
  apply result_bind_Ok in H as (current & Hc & H). apply ok_or_Ok in Hc.
  apply result_bind_Ok in H as ([] & (key & Hk & Hg)%settled_key_Ok & H). apply result_bind_Ok in H as ([] & Hs & H).
  split; [by eapply current_share_Ok|]. destruct (N.eqb_spec (settled_round c) 1) as [E1|E1].
  - rewrite E1. cbn. destruct (previous_private_share s); [|done]. by rewrite !orb_true_r in H.
  - apply result_bind_Ok in H as (previous & Hp' & H). apply ok_or_Ok in Hp'.
    apply result_bind_Ok in H as ([] & (key' & Hk' & Hg')%settled_key_Ok & H).
    destruct (N.ltb_spec 1 (settled_round c)); [|lia]. by eapply previous_share_Ok.
Qed.
End settled.

(** ** The digest determines the material *)

(** An encoding whose end can be found, on the values of [P]. *)
Definition unambiguous {A} (P : A -> Prop) (f : A -> bytes) : Prop :=
  forall a b r r', P a -> P b -> f a ++ r = f b ++ r' -> a = b /\ r = r'.

Lemma u64_unambiguous : unambiguous (fun n => n <= U64_MAX) (be_bytes 8).
Proof.
  intros a b r r' Ha Hb H. apply app_inj_1 in H as [H ->]; [|by rewrite !length_be_bytes]. split; [|done].
  apply (f_equal N_of_be) in H. unfold U64_MAX in *.
  by rewrite !N_of_be_bytes in H by (change (256 ^ N.of_nat 8) with (2 ^ 64); lia).
Qed.

Lemma fixed_unambiguous n : unambiguous (fun b : bytes => length b = n) id.
Proof. intros a b r r' Ha Hb H. apply app_inj_1 in H; [done|]. cbn. congruence. Qed.

Lemma push_bytes_unambiguous : unambiguous (fun b => lenN b <= U64_MAX) push_bytes.
Proof.
  intros a b r r' Ha Hb H. unfold push_bytes in H. rewrite <- !app_assoc in H.
  apply u64_unambiguous in H as [Hl H]; [|done..]. apply app_inj_1 in H; [done|]. unfold lenN in Hl. lia.
Qed.

Lemma flat_map_unambiguous {A} (P : A -> Prop) f (l : list A) : unambiguous P f -> forall k r r', length l = length k ->
  Forall P l -> Forall P k -> flat_map f l ++ r = flat_map f k ++ r' -> l = k /\ r = r'.
Proof.
  intros Hf. induction l as [|a l IH]; intros [|b k] r r' Hlen Hl Hk H; try done. cbn [flat_map] in H. rewrite <- !app_assoc in H.
  apply Forall_cons in Hl as [Ha Hl], Hk as [Hb Hk]. apply Hf in H as [-> H]; [|done..].
  apply IH in H as [-> ->]; [done|by injection Hlen|done..].
Qed.

Lemma push_all_unambiguous : unambiguous (fun l => lenN l <= U64_MAX /\ Forall (fun b => lenN b <= U64_MAX) l) push_all.
Proof.
  intros a b r r' [Ha Fa] [Hb Fb] H. unfold push_all in H. rewrite <- !app_assoc in H.
  apply u64_unambiguous in H as [Hl H]; [|done..].
  eapply flat_map_unambiguous; [apply push_bytes_unambiguous|unfold lenN in Hl; lia|done|done|done].
Qed.

Lemma push_option_unambiguous (P : bytes -> Prop) f : unambiguous P f ->
  unambiguous (fun o => forall b, o = Some b -> P b) (push_option f).
Proof.
  intros Hf [a|] [b|] r r' Ha Hb H; cbn in H; try done.
  - injection H as H. apply Hf in H as [-> ->]; [done|by apply Ha|by apply Hb].
  - by injection H.
Qed.

(** The bounds of what the readers return. *)
Record settled_wf (c : DkgSettledCanonical) : Prop := {
  wf_settled_round : settled_round c <= U64_MAX;
  wf_settled_index i : settled_index c = Some i -> i < U64_MAX;
  wf_settled_pvss p : settled_pvss c = Some p ->
    pvss_round p <= U64_MAX /\ (lenN (pvss_shares p) <= U64_MAX /\ Forall (fun b => lenN b <= U64_MAX) (pvss_shares p)) /\
    (lenN (pvss_reshares p) <= U64_MAX /\ Forall (fun b => lenN b <= U64_MAX) (pvss_reshares p));
  wf_settled_epoch e : settled_epoch c = Some e ->
    epoch_round e <= U64_MAX /\ (forall b, self_pvss e = Some b -> lenN b <= U64_MAX) /\
    (forall b, aggregated_commitment e = Some b -> length b = N.to_nat G1_EIP2537_LEN) /\
    (forall b, previous_commitment e = Some b -> length b = N.to_nat G1_EIP2537_LEN);
}.

Lemma default_index_inj a b : (forall i, a = Some i -> i < U64_MAX) -> (forall i, b = Some i -> i < U64_MAX) ->
  default U64_MAX a = default U64_MAX b -> a = b.
Proof.
  intros Ha Hb. destruct a as [i|], b as [j|]; cbn; intros H; [by subst|..|done].
  - specialize (Ha i eq_refl). lia.
  - specialize (Hb j eq_refl). lia.
Qed.

Lemma default_index_bound a : (forall i, a = Some i -> i < U64_MAX) -> default U64_MAX a <= U64_MAX.
Proof. destruct a as [i|]; cbn; intros H; [specialize (H i eq_refl)|]; lia. Qed.

Definition pvss_buffer (o : option DkgCanonicalPvss) : bytes :=
  match o with
  | Some pvss => x01 :: be_bytes 8 (pvss_round pvss) ++ push_all (pvss_shares pvss) ++ push_all (pvss_reshares pvss)
  | None => [x00]
  end.
Definition epoch_buffer (o : option DkgCanonicalEpoch) : bytes :=
  match o with
  | Some epoch =>
      x01 :: be_bytes 8 (epoch_round epoch) ++ push_option push_bytes (self_pvss epoch) ++
      push_option id (aggregated_commitment epoch) ++ push_option id (previous_commitment epoch)
  | None => [x00]
  end.

Lemma pvss_buffer_inj c k r r' : settled_wf c -> settled_wf k ->
  pvss_buffer (settled_pvss c) ++ r = pvss_buffer (settled_pvss k) ++ r' -> settled_pvss c = settled_pvss k /\ r = r'.
Proof.
  intros Hc Hk H. pose proof (wf_settled_pvss _ Hc) as Wc. pose proof (wf_settled_pvss _ Hk) as Wk.
  destruct (settled_pvss c) as [p|], (settled_pvss k) as [q|]; cbn [pvss_buffer app] in H; try done; [|by injection H].
  destruct (Wc p eq_refl) as (? & ? & ?), (Wk q eq_refl) as (? & ? & ?). apply (f_equal tl) in H. cbn [tl] in H. rewrite <- !app_assoc in H.
  apply u64_unambiguous in H as [E1 H]; [|done..]. apply push_all_unambiguous in H as [E2 H]; [|done..].
  apply push_all_unambiguous in H as [E3 ->]; [|done..]. destruct p, q; cbn in *. by subst.
Qed.

Lemma epoch_buffer_inj c k r r' : settled_wf c -> settled_wf k ->
  epoch_buffer (settled_epoch c) ++ r = epoch_buffer (settled_epoch k) ++ r' -> settled_epoch c = settled_epoch k /\ r = r'.
Proof.
  intros Hc Hk H. pose proof (wf_settled_epoch _ Hc) as Wc. pose proof (wf_settled_epoch _ Hk) as Wk.
  destruct (settled_epoch c) as [p|], (settled_epoch k) as [q|]; cbn [epoch_buffer app] in H; try done; [|by injection H].
  destruct (Wc p eq_refl) as (? & ? & ? & ?), (Wk q eq_refl) as (? & ? & ? & ?). apply (f_equal tl) in H. cbn [tl] in H. rewrite <- !app_assoc in H.
  apply u64_unambiguous in H as [E1 H]; [|done..].
  apply (push_option_unambiguous _ _ push_bytes_unambiguous) in H as [E2 H]; [|done..].
  apply (push_option_unambiguous _ _ (fixed_unambiguous (N.to_nat G1_EIP2537_LEN))) in H as [E3 H]; [|done..].
  apply (push_option_unambiguous _ _ (fixed_unambiguous (N.to_nat G1_EIP2537_LEN))) in H as [E4 ->]; [|done..].
  destruct p, q; cbn in *. by subst.
Qed.

Lemma settled_buffer_inj c k : settled_wf c -> settled_wf k -> settled_buffer c = settled_buffer k -> c = k.
Proof.
  intros Hc Hk H. unfold settled_buffer in H. fold (pvss_buffer (settled_pvss c)) (epoch_buffer (settled_epoch c)) in H.
  fold (pvss_buffer (settled_pvss k)) (epoch_buffer (settled_epoch k)) in H.
  apply u64_unambiguous in H as [H1 H]; [|by apply wf_settled_round..].
  apply u64_unambiguous in H as [H2 H]; [|by apply default_index_bound, wf_settled_index..].
  apply default_index_inj in H2; [|by apply wf_settled_index..].
  apply pvss_buffer_inj in H as [H3 H]; [|done..].
  rewrite <- (app_nil_r (epoch_buffer (settled_epoch c))), <- (app_nil_r (epoch_buffer (settled_epoch k))) in H.
  apply epoch_buffer_inj in H as [H4 _]; [|done..]. destruct c, k; cbn in *. by subst.
Qed.

(** ** What the readers return *)

Lemma pvss_len_bound n d : dkg_parameters_new n = Ok d -> pvss_len d <= U64_MAX /\ participants d <= 16.
Proof.
  intros (? & Hp & Ht & _)%dkg_parameters_Ok. unfold pvss_len. rewrite Hp, Ht.
  pose proof (N.le_sub_l n ((n - 1) / 3)). generalize dependent (n - (n - 1) / 3).
  unfold NEOX_DKG_G1_LEN, NEOX_DKG_G2_LEN, U64_MAX. lia.
Qed.

Section reading.
Context {C : Crypto} {B : Blst} {Z : Ecies} {Sy : Symmetric} {L : FieldLaws B} {G : GroupLaws B}.
Variable storage : B256 -> result DkgStorageError (option U256).

Lemma pvss_read_length round i kind d p : read_dkg_pvss storage round i kind d = Ok (Some p) -> lenN p = pvss_len d.
Proof.
  unfold read_dkg_pvss, read_dkg_pvss_from_storage. intros H. apply result_bind_Ok in H as (? & _ & H).
  apply result_bind_Ok in H as (? & _ & H). apply result_bind_Ok in H as (b & _ & H). destruct b; [done|].
  destruct (N.eqb_spec (lenN (b :: b0)) (pvss_len d)); [|done]. by injection H as <-.
Qed.

Lemma commitment_read_length round c : read_dkg_aggregated_commitment storage round = Ok (Some c) -> length c = N.to_nat G1_EIP2537_LEN.
Proof.
  unfold read_dkg_aggregated_commitment, read_dkg_aggregated_commitment_from_storage. intros H.
  apply result_bind_Ok in H as (? & _ & H). apply result_bind_Ok in H as (b & _ & H). destruct b; [done|].
  destruct (N.eqb_spec (lenN (b :: b0)) G1_EIP2537_LEN) as [E|]; [|done]. injection H as <-. unfold lenN in E. lia.
Qed.

(** The announcements of every sender, one after the other. *)
Lemma pvss_list_read kind name round d l :
  collect_result (fun i =>
      let? pvss := map_err DkgReplayError.Storage (read_dkg_pvss storage round i kind d) in
      ok_or pvss (DkgReplayError.MissingCanonicalPvss name round i)) (indices_of d) = Ok l ->
  Forall2 (fun i p => read_dkg_pvss storage round i kind d = Ok (Some p)) (indices_of d) l.
Proof.
  intros H. apply collect_result_Ok in H. eapply Forall2_impl; [exact H|]. cbn. intros i p Hp.
  apply result_bind_Ok in Hp as (o & Ho & Hp). apply map_err_Ok in Ho. by apply ok_or_Ok in Hp as ->.
Qed.

Lemma pvss_list_bounds n d kind round l : dkg_parameters_new n = Ok d ->
  Forall2 (fun i p => read_dkg_pvss storage round i kind d = Ok (Some p)) (indices_of d) l ->
  lenN l <= U64_MAX /\ Forall (fun b => lenN b <= U64_MAX) l.
Proof.
  intros [Hl Hn]%pvss_len_bound H. split.
  - apply Forall2_length in H. unfold indices_of in H. rewrite length_map, length_seq in H. unfold lenN, U64_MAX. lia.
  - apply Forall_forall. intros b Hb. apply list_elem_of_lookup in Hb as [k Hk].
    destruct (Forall2_lookup_r _ _ _ _ _ H Hk) as (i & _ & Hp). apply pvss_read_length in Hp. by rewrite Hp.
Qed.

Lemma pvss_read_spec round d p : read_dkg_canonical_pvss_with_parameters storage round d = Ok p ->
  pvss_round p = round /\
  Forall2 (fun i x => read_dkg_pvss storage round i ShareKind d = Ok (Some x)) (indices_of d) (pvss_shares p) /\
  if 1 <? round then Forall2 (fun i x => read_dkg_pvss storage round i ReshareKind d = Ok (Some x)) (indices_of d) (pvss_reshares p)
  else pvss_reshares p = [].
Proof.
  unfold read_dkg_canonical_pvss_with_parameters. intros H. apply result_bind_Ok in H as (shares & Hs & H).
  apply result_bind_Ok in H as (reshares & Hr & [= <-]). split_and!; [done|by eapply pvss_list_read|].
  cbn [pvss_reshares]. destruct (1 <? round); [by eapply pvss_list_read|by injection Hr as <-].
Qed.

Lemma epoch_read_spec round index d e : read_dkg_canonical_epoch_with_parameters storage round index d = Ok e ->
  epoch_round e = round /\ (forall i, index = Some i -> 1 <= i <= participants d) /\
  (forall b, self_pvss e = Some b -> lenN b = pvss_len d) /\
  (forall b, aggregated_commitment e = Some b -> length b = N.to_nat G1_EIP2537_LEN) /\
  (forall b, previous_commitment e = Some b -> length b = N.to_nat G1_EIP2537_LEN).
Proof.
  unfold read_dkg_canonical_epoch_with_parameters. destruct (round =? 0); [done|]. intros H.
  apply result_bind_Ok in H as ([] & Hi & H). apply result_bind_Ok in H as (self & Hs & H).
  apply result_bind_Ok in H as (aggregated & Ha & H). apply map_err_Ok in Ha.
  apply result_bind_Ok in H as (previous & Hp & [= <-]). cbn. split_and!; [done|..].
  - intros i ->. unfold validate_replay_index, index_valid in Hi. destruct (N.leb_spec 1 i), (N.leb_spec i (participants d)); done.
  - intros b ->. destruct index as [i|]; [|done]. by apply map_err_Ok, pvss_read_length in Hs.
  - intros b ->. by apply commitment_read_length in Ha.
  - intros b ->. destruct (1 <? round); [|done]. by apply map_err_Ok, commitment_read_length in Hp.
Qed.

Lemma settled_read_wf n round index d c : dkg_parameters_new n = Ok d -> round <= U64_MAX ->
  (forall i, index = Some i -> i < U64_MAX) -> settled_read storage round index d = Ok c -> settled_wf c.
Proof.
  intros Hd Hr Hi H. unfold settled_read in H. destruct (round =? 0); [by injection H as <-|].
  apply result_bind_Ok in H as (p & (P1 & P2 & P3)%pvss_read_spec & H).
  apply result_bind_Ok in H as (e & (E1 & E2 & E3 & E4 & E5)%epoch_read_spec & [= <-]). split; cbn; [done|done|..].
  - intros ? [= <-]. split; [by rewrite P1|]. split; [by eapply pvss_list_bounds|].
    destruct (1 <? round); [by eapply pvss_list_bounds|]. rewrite P3. by split; [|constructor].
  - intros ? [= <-]. split_and!; [by rewrite E1| |done|done]. intros b Hb. rewrite (E3 b Hb). by eapply pvss_len_bound.
Qed.
(** ** A rebuilt store *)

Lemma contribution_read_pvss round i kind d p o : read_dkg_pvss storage round i kind d = Ok (Some p) ->
  read_dkg_contribution storage round i kind d = Ok o ->
  exists c, o = Some c /\ contribution_sender c = i /\ contribution_pvss c = p.
Proof.
  unfold read_dkg_pvss, read_dkg_contribution, read_dkg_pvss_from_storage, read_dkg_contribution_from_storage. cbv zeta. intros Hp Hc.
  apply result_bind_Ok in Hp as ([] & Hr & Hp). apply result_bind_Ok in Hp as ([] & Hi & Hp). rewrite Hr in Hc. cbn [result_bind] in Hc.
  rewrite Hi in Hc. cbn [result_bind] in Hc. apply result_bind_Ok in Hp as (b & Hb & Hp). rewrite Hb in Hc. cbn [result_bind] in Hc.
  destruct b as [|x b]; [done|]. destruct (negb (lenN (x :: b) =? pvss_len d)); [done|]. injection Hp as <-.
  apply result_bind_Ok in Hc as (messages & _ & Hc). rewrite (bool_decide_eq_false_2 (x :: b = [])) in Hc by done. cbn [andb orb] in Hc.
  case_bool_decide; [done|]. destruct (negb (lenN messages =? _)); [done|].
  apply result_bind_Ok in Hc as ([] & _ & [= <-]). by eexists.
Qed.

Lemma contributions_read round d senders : forall shares reshares s r,
  read_contributions storage round d senders shares reshares = Ok (s, r) ->
  exists cs ks, s = shares ++ cs /\ r = reshares ++ ks /\
    (forall l, Forall2 (fun i p => read_dkg_pvss storage round i ShareKind d = Ok (Some p)) senders l -> announcements cs = zip senders l) /\
    (forall l, Forall2 (fun i p => read_dkg_pvss storage round i ReshareKind d = Ok (Some p)) senders l -> announcements ks = zip senders l).
Proof.
  induction senders as [|i senders IH]; intros shares reshares s r H.
  { injection H as <- <-. exists [], []. rewrite !app_nil_r. split_and!; [done..|by intros|by intros]. }
  cbn [read_contributions] in H. apply result_bind_Ok in H as (share & Hs & H). apply result_bind_Ok in H as (reshare & Hr & H).
  apply map_err_Ok in Hs, Hr. apply IH in H as (cs & ks & -> & -> & H1 & H2).
  exists (pushed [] share ++ cs), (pushed [] reshare ++ ks).
  split_and!; [destruct share; cbn [pushed]; by rewrite <- ?app_assoc|destruct reshare; cbn [pushed]; by rewrite <- ?app_assoc|..].
  - intros l Hl. inversion Hl as [|? p ? l' Hp Hl']; subst.
    destruct (contribution_read_pvss _ _ _ _ _ _ Hp Hs) as (c & -> & <- & <-). unfold announcements in *. cbn. f_equal. by apply H1.
  - intros l Hl. inversion Hl as [|? p ? l' Hp Hl']; subst.
    destruct (contribution_read_pvss _ _ _ _ _ _ Hp Hr) as (c & -> & <- & <-). unfold announcements in *. cbn. f_equal. by apply H2.
Qed.

Lemma omap_Forall2 {A D} (f : A -> option D) l k : Forall2 (fun a x => f a = Some x) l k -> omap f l = k.
Proof. induction 1 as [|a x l k E _ IH]; [done|]. cbn. rewrite E. by f_equal. Qed.

Lemma indices_NoDup d : NoDup (indices_of d).
Proof. unfold indices_of. apply NoDup_fmap_2; [intros ? ?; lia|apply NoDup_seq]. Qed.

Lemma transcript_zip d l : length l = length (indices_of d) -> transcript d (zip (indices_of d) l) = l.
Proof.
  intros Hl. unfold transcript. apply omap_Forall2, Forall2_same_length_lookup. split; [done|]. intros k i p Hi Hp.
  rewrite (find_sender _ i p); [done|change (map fst) with (fmap (M:=list) (@fst N bytes)); rewrite fst_zip by lia; apply indices_NoDup|].
  apply list_elem_of_lookup. exists k. apply lookup_zip_Some. by split.
Qed.

Lemma round_read_transcripts round d r p : read_dkg_canonical_round_with_parameters storage round d = Ok r ->
  read_dkg_canonical_pvss_with_parameters storage round d = Ok p ->
  canonical_round r = round /\ transcript d (announcements (round_shares r)) = pvss_shares p /\
  (1 < round -> transcript d (announcements (round_reshares r)) = pvss_reshares p).
Proof.
  unfold read_dkg_canonical_round_with_parameters. intros H (_ & H1 & H2)%pvss_read_spec.
  apply result_bind_Ok in H as ([shares reshares] & H & [= <-]). apply contributions_read in H as (cs & ks & -> & -> & Hs & Hr). cbn [canonical_round round_shares round_reshares app].
  split_and!; [done| |].
  - rewrite (Hs _ H1). apply transcript_zip. by apply Forall2_length in H1.
  - intros Hlt. destruct (N.ltb_spec 1 round); [|lia]. rewrite (Hr _ H2). apply transcript_zip. by apply Forall2_length in H2.
Qed.

Lemma rebuilt_outsider source fuel chain_id rng r e s : rebuild_dkg_canonical_store source fuel chain_id rng None r e = Ok s ->
  identity s = identity source /\ store_round s = canonical_round r /\ current_private_share s = None /\ previous_private_share s = None.
Proof.
  intros H. unfold rebuild_dkg_canonical_store in H. destruct (canonical_round r =? 0); [done|]. destruct (negb _); [done|]. cbv zeta in H.
  unfold rebuild_dkg_canonical_round_inner in H. cbv zeta in H.
  set (s0 := on_share_period_start (detached_replay_baseline source (canonical_round r - 1)) (1 <? canonical_round r)) in *.
  destruct (let? _ := validate_store_round _ _ in _); [|done]. unfold apply_dkg_canonical_round in H. cbv zeta in H.
  destruct (let? _ := validate_store_round s0 _ in _) as [o|] eqn:Eo; [|done].
  apply result_bind_Ok in Eo as (? & _ & Eo). apply result_bind_Ok in Eo as (? & _ & [= <-]). cbn [result_bind] in H.
  unfold apply_dkg_canonical_epoch in H. destruct (validate_store_round s0 _); [|done]. destruct (bool_decide _ && _); [done|].
  pose proof (epoch_identity s0 (default [] (self_pvss e)) (default [] (aggregated_commitment e)) (default [] (previous_commitment e)) false) as Hid.
  rewrite (bool_decide_eq_false_2 (is_Some None)) in H by (by intros []).
  destruct (on_epoch_change _ _ _ _ _) as [s2 [[|round]|]] eqn:E2; [done| |done]. cbn [map_err result_bind] in H.
  destruct (N.eqb_spec round (canonical_round r)) as [->|]; [|done]. injection H as <-. cbn [fst] in Hid.
  apply epoch_settled in E2 as (g & g' & h & _ & _ & Hset & _ & _ & Hr & _ & _ & Hsh & _ & _ & _ & Hres).
  apply settle_Ok in Hset as (key & _ & _ & _ & _ & _ & Hn). split_and!; [done|done|unfold current_private_share; by rewrite Hsh|].
  unfold previous_private_share. destruct (resharing s0) as [k|]; [|by rewrite Hres].
  destruct Hres as (k' & Hk & ->). by apply settle_Ok in Hk as (? & _ & _ & _ & _ & _ & ?).
Qed.

(** A store rebuilt from the contributions of the block whose material was read holds the
    shares of that material. *)
Lemma rebuilt_holds n source fuel chain_id rng round index c e r s : dkg_parameters_new n = Ok (store_parameters source) ->
  settled_read storage round index (store_parameters source) = Ok c -> settled_epoch c = Some e ->
  read_dkg_canonical_round_with_parameters storage round (store_parameters source) = Ok r ->
  rebuild_dkg_canonical_store source fuel chain_id rng index r e = Ok s ->
  holds_settled s c /\ identity s = identity source.
Proof.
  intros Hd Hc He Hr Hs. unfold settled_read in Hc. destruct (round =? 0); [by injection Hc as <-|].
  apply result_bind_Ok in Hc as (p & Hp & Hc). apply result_bind_Ok in Hc as (e' & Hread & [= <-]). cbn in He. injection He as ->.
  destruct (round_read_transcripts _ _ _ _ Hr Hp) as (Hround & T1 & T2). unfold holds_settled, shares_of_settled. cbn.
  destruct index as [i|].
  - destruct (rebuilt_store_settles _ _ _ _ _ _ _ _ _ Hd Hs) as (Hid & H1 & (commitment & Ha & x & y & X1 & X2 & X3 & X4) & H2).
    pose proof (f_equal (fun x => x.1.1) Hid) as Hpar. cbn in Hpar. rewrite Hpar, T1 in *.
    split; [|done]. split; [by rewrite H1|]. split; [by exists commitment, x, y|]. rewrite Hround in H2.
    destruct (N.ltb_spec 1 round) as [Hlt|Hle].
    + destruct H2 as (commitment' & Ha' & x' & y' & Y1 & Y2 & Y3 & Y4). rewrite (T2 Hlt) in Y4. by exists commitment', x', y'.
    + unfold previous_private_share. by rewrite H2.
  - destruct (rebuilt_outsider _ _ _ _ _ _ _ Hs) as (Hid & H1 & H2 & H3).
    split; [|done]. split; [by rewrite H1|]. split; [done|]. by destruct (1 <? round).
Qed.
End reading.

