(* ===== verification/DkgTask.v ===== *)
(** Planning of a validator's key-generation transactions
    (crates/neox/node/src/dkg_task.rs): which contract calls become due at a height, each
    once in an epoch and before its deadline. *)

From S2P Require Import Prelude Extern DkgParams Dkg Storage.

(** [DkgContractMethod] of dkg_call.rs *)
Inductive DkgContractMethod : Type :=
| MethodShare
| MethodReshare
| MethodRecover
| MethodReshareRecovered.

#[export] Instance dkg_contract_method_eq : EqDecision DkgContractMethod.
Proof. solve_decision. Defined.

Record DkgTaskContext : Type := mkDkgTaskContext {
  context_parameters : DkgParameters;
  context_schedule : DkgSchedule;
  current_height : N;
  context_next_round : N;
  current_index : option N;
  pending_index : option N;
  context_share_ready : bool;
  context_recovery_indices : list N;
}.

Record DkgTaskPlan : Type := mkDkgTaskPlan {
  plan_round : N;
  plan_method : DkgContractMethod;
  sender_index : N;
  plan_send_height : N;
  plan_end_height : N;
  plan_recovery_indices : list N;
}.

(** [DkgTaskPlan::watch] *)
Definition plan_watch (p : DkgTaskPlan) : DkgTaskWatch := mkDkgTaskWatch (plan_send_height p) (plan_end_height p) false.

Inductive DkgTaskPlanError : Type :=
| PlanInvalidRound
| PlanInvalidParticipantIndex (set : string) (index : N)
| PlanInvalidRecoveryIndex (index : N)
| PlanDuplicateRecoveryIndex (index : N).

Record DkgTaskPlanner : Type := mkDkgTaskPlanner {
  planner_epoch : option (N * N);
  share_tasked : bool;
  recover_tasked : bool;
  reshare_recovered_tasked : bool;
  planner_recovering : bool;
  planner_recovery_indices : list N;
}.

(** [DkgTaskPlanner::default] *)
Definition planner_default : DkgTaskPlanner := mkDkgTaskPlanner None false false false false [].

(** ** The checks *)

Definition validate_participant (d : DkgParameters) (set : string) (index : option N) : result DkgTaskPlanError unit :=
  match index with
  | Some index =>
      if (index =? 0) || (participants d <? index) then Err (PlanInvalidParticipantIndex set index) else Ok tt
  | None => Ok tt
  end.

Fixpoint validate_plan_indices (d : DkgParameters) (before indices : list N) : result DkgTaskPlanError unit :=
  match indices with
  | [] => Ok tt
  | index :: rest =>
      if (index =? 0) || (participants d <? index) then Err (PlanInvalidRecoveryIndex index)
      else if bool_decide (index ∈ before) then Err (PlanDuplicateRecoveryIndex index)
      else validate_plan_indices d (before ++ [index]) rest
  end.

Definition validate_context (c : DkgTaskContext) : result DkgTaskPlanError unit :=
  if context_next_round c =? 0 then Err PlanInvalidRound
  else
    let? _ := validate_participant (context_parameters c) "current" (current_index c) in
    let? _ := validate_participant (context_parameters c) "pending" (pending_index c) in
    validate_plan_indices (context_parameters c) [] (context_recovery_indices c).

(** ** The checkpoints *)

(** A plan of the context, for a sender that has one. *)
Definition planned (c : DkgTaskContext) (method : DkgContractMethod) (sender : option N) (end_height : N) (indices : list N)
    : list DkgTaskPlan :=
  match sender with
  | Some sender => [mkDkgTaskPlan (context_next_round c) method sender (current_height c) end_height indices]
  | None => []
  end.

Definition set_share_tasked (p : DkgTaskPlanner) : DkgTaskPlanner :=
  mkDkgTaskPlanner (planner_epoch p) true (recover_tasked p) (reshare_recovered_tasked p) (planner_recovering p)
    (planner_recovery_indices p).
Definition set_recover_tasked (p : DkgTaskPlanner) : DkgTaskPlanner :=
  mkDkgTaskPlanner (planner_epoch p) (share_tasked p) true (reshare_recovered_tasked p) (planner_recovering p)
    (planner_recovery_indices p).
Definition set_recovering (p : DkgTaskPlanner) (indices : list N) : DkgTaskPlanner :=
  mkDkgTaskPlanner (planner_epoch p) (share_tasked p) (recover_tasked p) (reshare_recovered_tasked p) true indices.
Definition set_reshare_recovered_tasked (p : DkgTaskPlanner) : DkgTaskPlanner :=
  mkDkgTaskPlanner (planner_epoch p) (share_tasked p) (recover_tasked p) true (planner_recovering p)
    (planner_recovery_indices p).

Definition share_checkpoint (p : DkgTaskPlanner) (c : DkgTaskContext) : DkgTaskPlanner * list DkgTaskPlan :=
  let schedule := context_schedule c in
  if (share_start schedule <=? current_height c) && negb (share_tasked p) then
    (set_share_tasked p,
     if current_height c <? recover_start schedule then
       (if 1 <? context_next_round c then planned c MethodReshare (current_index c) (recover_start schedule) [] else []) ++
       planned c MethodShare (pending_index c) (recover_start schedule) []
     else [])
  else (p, []).

(** The contract can recover these members. *)
Definition recoverable (c : DkgTaskContext) : bool :=
  let recovery_limit := participants (context_parameters c) - threshold (context_parameters c) in
  context_share_ready c && (1 <=? lenN (context_recovery_indices c)) && (lenN (context_recovery_indices c) <=? recovery_limit).

Definition recover_checkpoint (p : DkgTaskPlanner) (c : DkgTaskContext) : DkgTaskPlanner * list DkgTaskPlan :=
  let schedule := context_schedule c in
  if (recover_start schedule <=? current_height c) && negb (recover_tasked p) then
    let p := set_recover_tasked p in
    if recoverable c then
      let p := set_recovering p (context_recovery_indices c) in
      (p, if current_height c <? recover_check schedule
          then planned c MethodRecover (current_index c) (recover_check schedule) (planner_recovery_indices p) else [])
    else (p, [])
  else (p, []).

Definition reshare_recovered_checkpoint (p : DkgTaskPlanner) (c : DkgTaskContext) : DkgTaskPlanner * list DkgTaskPlan :=
  let schedule := context_schedule c in
  if planner_recovering p && (recover_check schedule <=? current_height c) && negb (reshare_recovered_tasked p) then
    let p := set_reshare_recovered_tasked p in
    (p, if current_height c <? target schedule then
          match pending_index c with
          | Some sender =>
              if bool_decide (sender ∈ planner_recovery_indices p)
              then planned c MethodReshareRecovered (Some sender) (target schedule) [] else []
          | None => []
          end
        else [])
  else (p, []).

Definition context_epoch (c : DkgTaskContext) : N * N := (epoch_start (context_schedule c), context_next_round c).

Definition take_tasks (p : DkgTaskPlanner) (c : DkgTaskContext) : DkgTaskPlanner * result DkgTaskPlanError (list DkgTaskPlan) :=
  match validate_context c with
  | Err e => (p, Err e)
  | Ok _ =>
      let epoch := context_epoch c in
      let p :=
        if negb (bool_decide (planner_epoch p = Some epoch))
        then mkDkgTaskPlanner (Some epoch) false false false false [] else p in
      if target (context_schedule c) <=? current_height c then (p, Ok [])
      else
        let '(p, shares) := share_checkpoint p c in
        let '(p, recovers) := recover_checkpoint p c in
        let '(p, reshares) := reshare_recovered_checkpoint p c in
        (p, Ok (shares ++ recovers ++ reshares))
  end.

(** ** What an epoch plans *)

(** The plans of a run of heads, the refused ones skipped. *)
Fixpoint run_planner (p : DkgTaskPlanner) (cs : list DkgTaskContext) : DkgTaskPlanner * list DkgTaskPlan :=
  match cs with
  | [] => (p, [])
  | c :: rest =>
      let '(p, r) := take_tasks p c in
      let '(p, l) := run_planner p rest in
      (p, match r with Ok tasks => tasks | Err _ => [] end ++ l)
  end.

Definition context_ok (c : DkgTaskContext) : bool := is_ok (validate_context c).

(** The head is at or past a checkpoint of the epoch it belongs to. *)
Definition due (start : DkgSchedule -> N) (c : DkgTaskContext) : bool :=
  (start (context_schedule c) <=? current_height c) && (current_height c <? target (context_schedule c)).

Definition first_due (start : DkgSchedule -> N) (cs : list DkgTaskContext) : option DkgTaskContext := List.find (due start) cs.

(** The plans of an epoch, read off the first head at or past each checkpoint. *)
Definition due_shares (cs : list DkgTaskContext) : list DkgTaskPlan :=
  match first_due share_start cs with
  | Some c =>
      if current_height c <? recover_start (context_schedule c) then
        (if 1 <? context_next_round c
         then planned c MethodReshare (current_index c) (recover_start (context_schedule c)) [] else []) ++
        planned c MethodShare (pending_index c) (recover_start (context_schedule c)) []
      else []
  | None => []
  end.

Definition due_recovers (cs : list DkgTaskContext) : list DkgTaskPlan :=
  match first_due recover_start cs with
  | Some c =>
      if recoverable c && (current_height c <? recover_check (context_schedule c))
      then planned c MethodRecover (current_index c) (recover_check (context_schedule c)) (context_recovery_indices c) else []
  | None => []
  end.

Definition due_recovered (cs : list DkgTaskContext) : list DkgTaskPlan :=
  match first_due recover_start cs, first_due recover_check cs with
  | Some r, Some c =>
      match pending_index c with
      | Some sender =>
          if recoverable r && bool_decide (sender ∈ context_recovery_indices r)
          then planned c MethodReshareRecovered (Some sender) (target (context_schedule c)) [] else []
      | None => []
      end
  | _, _ => []
  end.

Definition schedule_ordered (c : DkgTaskContext) : Prop :=
  share_start (context_schedule c) <= recover_start (context_schedule c) /\
  recover_start (context_schedule c) <= recover_check (context_schedule c) /\
  recover_check (context_schedule c) <= target (context_schedule c).

Lemma first_snoc start cs c : first_due start (cs ++ [c]) =
  match first_due start cs with Some x => Some x | None => if due start c then Some c else None end.
Proof. unfold first_due. induction cs as [|x cs IH]; [done|]. cbn. by destruct (due start x). Qed.

Lemma first_Some start cs c : first_due start cs = Some c -> c ∈ cs /\ due start c = true.
Proof. intros H. apply find_some in H as [H1%list_elem_of_In H2]. done. Qed.

Lemma first_check cs : Forall schedule_ordered cs -> first_due recover_start cs = None -> first_due recover_check cs = None.
Proof.
  intros Ho H. destruct (first_due recover_check cs) as [c|] eqn:E; [|done]. apply first_Some in E as [Hc Hd].
  apply list_elem_of_In in Hc as Hin. pose proof (find_none _ _ H _ Hin) as Hn. rewrite Forall_forall in Ho. destruct (Ho c Hc) as (_ & Hr & _).
  unfold due in *. apply andb_true_iff in Hd as [Hd1 Hd2]. rewrite Hd2 in Hn. rewrite andb_true_r in Hn.
  apply N.leb_le in Hd1. apply N.leb_gt in Hn. lia.
Qed.

Lemma run_planner_app p cs cs' : run_planner p (cs ++ cs') =
  ((run_planner (run_planner p cs).1 cs').1, (run_planner p cs).2 ++ (run_planner (run_planner p cs).1 cs').2).
Proof.
  revert p. induction cs as [|c cs IH]; intros p; cbn [app run_planner].
  - cbn. by destruct (run_planner p cs').
  - destruct (take_tasks p c) as [p1 r]. rewrite IH. destruct (run_planner p1 cs) as [p2 l]. cbn. by rewrite app_assoc.
Qed.

Lemma run_planner_valid p cs : run_planner p cs = run_planner p (filter (fun c => context_ok c = true) cs).
Proof.
  revert p. induction cs as [|c cs IH]; intros p; [done|]. rewrite filter_cons. cbn [run_planner].
  case_decide as Hc; [cbn [run_planner]; destruct (take_tasks p c); by rewrite IH|].
  unfold context_ok in Hc. unfold take_tasks. destruct (validate_context c); [done|]. rewrite IH.
  by destruct (run_planner p _).
Qed.

(** The planner of an epoch that has seen these heads. *)
Definition planner_after (e : N * N) (cs : list DkgTaskContext) : DkgTaskPlanner :=
  let recovering := match first_due recover_start cs with Some r => recoverable r | None => false end in
  mkDkgTaskPlanner (Some e) (bool_decide (is_Some (first_due share_start cs))) (bool_decide (is_Some (first_due recover_start cs)))
    (recovering && bool_decide (is_Some (first_due recover_check cs))) recovering
    (match first_due recover_start cs with Some r => if recoverable r then context_recovery_indices r else [] | None => [] end).

Definition epoch_plans (cs : list DkgTaskContext) : list DkgTaskPlan := due_shares cs ++ due_recovers cs ++ due_recovered cs.

Ltac planner_eq p := destruct p; cbn in *; by subst.

Lemma andb_negb_r_false a b : a && b && negb a = false.
Proof. by destruct a, b. Qed.

Section step.
Variables (cs : list DkgTaskContext) (c : DkgTaskContext).
Hypothesis open : (current_height c <? target (context_schedule c)) = true.

Lemma due_open start : due start c = (start (context_schedule c) <=? current_height c).
Proof. unfold due. by rewrite open, andb_true_r. Qed.

Lemma some_snoc start : bool_decide (is_Some (first_due start (cs ++ [c]))) =
  (start (context_schedule c) <=? current_height c) || bool_decide (is_Some (first_due start cs)).
Proof.
  rewrite first_snoc, <- due_open. destruct (first_due start cs); [by rewrite !bool_decide_eq_true_2, orb_true_r|].
  rewrite (bool_decide_eq_false_2 (is_Some None)), orb_false_r by (by intros []). destruct (due start c); [by rewrite bool_decide_eq_true_2|].
  by rewrite bool_decide_eq_false_2 by (by intros []).
Qed.

(** Each checkpoint of one more head, on a planner that knows what came before. *)
Lemma share_after p : share_tasked p = bool_decide (is_Some (first_due share_start cs)) ->
  due_shares (cs ++ [c]) = due_shares cs ++ (share_checkpoint p c).2 /\
  (share_checkpoint p c).1 =
    mkDkgTaskPlanner (planner_epoch p) (bool_decide (is_Some (first_due share_start (cs ++ [c])))) (recover_tasked p)
      (reshare_recovered_tasked p) (planner_recovering p) (planner_recovery_indices p).
Proof.
  intros Hp. rewrite some_snoc, <- Hp. unfold share_checkpoint, due_shares. rewrite first_snoc, due_open. rewrite Hp.
  destruct (first_due share_start cs) as [x|].
  - rewrite (bool_decide_eq_true_2 (is_Some (Some x))) in * by done. cbn [negb]. rewrite andb_false_r, app_nil_r, orb_true_r.
    split; [done|]. cbn. rewrite <- Hp. by destruct p.
  - rewrite (bool_decide_eq_false_2 (is_Some None)) in * by (by intros []). cbn [negb]. rewrite andb_true_r, orb_false_r.
    destruct (_ <=? _); [done|]. split; [done|]. cbn. rewrite <- Hp. by destruct p.
Qed.

Lemma recover_after p : recover_tasked p = bool_decide (is_Some (first_due recover_start cs)) ->
  planner_recovering p = match first_due recover_start cs with Some r => recoverable r | None => false end ->
  planner_recovery_indices p =
    match first_due recover_start cs with Some r => if recoverable r then context_recovery_indices r else [] | None => [] end ->
  due_recovers (cs ++ [c]) = due_recovers cs ++ (recover_checkpoint p c).2 /\
  (recover_checkpoint p c).1 =
    mkDkgTaskPlanner (planner_epoch p) (share_tasked p) (bool_decide (is_Some (first_due recover_start (cs ++ [c]))))
      (reshare_recovered_tasked p)
      (match first_due recover_start (cs ++ [c]) with Some r => recoverable r | None => false end)
      (match first_due recover_start (cs ++ [c]) with Some r => if recoverable r then context_recovery_indices r else [] | None => [] end).
Proof.
  intros Ht Hr Hi. rewrite some_snoc, <- Ht. unfold recover_checkpoint, due_recovers. rewrite first_snoc, due_open. rewrite Ht.
  destruct (first_due recover_start cs) as [x|].
  - rewrite (bool_decide_eq_true_2 (is_Some (Some x))) in * by done. cbn [negb]. rewrite andb_false_r, app_nil_r, orb_true_r.
    split; [done|]. destruct p; cbn in *; by subst.
  - rewrite (bool_decide_eq_false_2 (is_Some None)) in * by (by intros []). cbn [negb]. rewrite andb_true_r, orb_false_r.
    destruct (_ <=? _).
    + destruct (recoverable c) eqn:E; cbn; rewrite ?E; [done|]. split; [done|]. destruct p; cbn in *; by subst.
    + split; [done|]. destruct p; cbn in *; by subst.
Qed.

(** A head that may be the first at the last checkpoint. *)
Lemma recovered_now p r : reshare_recovered_tasked p = false -> planner_recovering p = recoverable r ->
  planner_recovery_indices p = (if recoverable r then context_recovery_indices r else []) ->
  let reached := recover_check (context_schedule c) <=? current_height c in
  match (if reached then Some c else None) with
  | Some c =>
      match pending_index c with
      | Some sender =>
          if recoverable r && bool_decide (sender ∈ context_recovery_indices r)
          then planned c MethodReshareRecovered (Some sender) (target (context_schedule c)) [] else []
      | None => []
      end
  | None => []
  end = (reshare_recovered_checkpoint p c).2 /\
  (reshare_recovered_checkpoint p c).1 =
    mkDkgTaskPlanner (planner_epoch p) (share_tasked p) (recover_tasked p) (planner_recovering p && reached)
         (planner_recovering p) (planner_recovery_indices p).
Proof.
  intros Ht Hr Hi reached. unfold reshare_recovered_checkpoint. cbv zeta. fold reached. rewrite open, Ht, Hr. cbn [negb]. rewrite andb_true_r. destruct reached.
  - rewrite andb_true_r. cbn [set_reshare_recovered_tasked planner_recovery_indices]. rewrite Hi.
    destruct (recoverable r); cbn [andb]; (split; [by destruct (pending_index c)|]); planner_eq p.
  - rewrite andb_false_r. split; [done|]. planner_eq p.
Qed.

Lemma recovered_after p : Forall schedule_ordered cs -> schedule_ordered c ->
  reshare_recovered_tasked p =
    match first_due recover_start cs with Some r => recoverable r | None => false end && bool_decide (is_Some (first_due recover_check cs)) ->
  planner_recovering p = match first_due recover_start (cs ++ [c]) with Some r => recoverable r | None => false end ->
  planner_recovery_indices p =
    match first_due recover_start (cs ++ [c]) with Some r => if recoverable r then context_recovery_indices r else [] | None => [] end ->
  due_recovered (cs ++ [c]) = due_recovered cs ++ (reshare_recovered_checkpoint p c).2 /\
  (reshare_recovered_checkpoint p c).1 =
    mkDkgTaskPlanner (planner_epoch p) (share_tasked p) (recover_tasked p)
      (planner_recovering p && bool_decide (is_Some (first_due recover_check (cs ++ [c])))) (planner_recovering p) (planner_recovery_indices p).
Proof.
  intros Ho (_ & Hc & _) Ht Hr Hi. unfold due_recovered.
  rewrite some_snoc. rewrite (first_snoc recover_check), due_open. rewrite first_snoc, due_open in *.
  destruct (first_due recover_start cs) as [r|] eqn:Er.
  - destruct (first_due recover_check cs) as [x|].
    + rewrite (bool_decide_eq_true_2 (is_Some (Some x))) in * by done. rewrite andb_true_r in Ht.
      unfold reshare_recovered_checkpoint. rewrite Ht, Hr, andb_negb_r_false, orb_true_r, andb_true_r, app_nil_r. split; [done|]. planner_eq p.
    + rewrite (bool_decide_eq_false_2 (is_Some None)) in * by (by intros []). rewrite andb_false_r in Ht. rewrite orb_false_r.
      by apply recovered_now.
  - rewrite (first_check cs Ho Er) in *. rewrite (bool_decide_eq_false_2 (is_Some None)) in * by (by intros []). cbn [andb] in Ht.
    rewrite orb_false_r. destruct (N.leb_spec (recover_start (context_schedule c)) (current_height c)) as [Hs|Hs].
    + by apply recovered_now.
    + unfold reshare_recovered_checkpoint. rewrite Hr. cbn [andb fst snd app]. split; [done|]. planner_eq p.
Qed.
End step.

Lemma planner_after_nil e : planner_after e [] = mkDkgTaskPlanner (Some e) false false false false [].
Proof. done. Qed.

Lemma closed_snoc start cs c : (current_height c <? target (context_schedule c)) = false -> first_due start (cs ++ [c]) = first_due start cs.
Proof. intros H. rewrite first_snoc. unfold due. rewrite H, andb_false_r. by destruct (first_due start cs). Qed.

Lemma step_after e cs c : Forall schedule_ordered cs -> schedule_ordered c -> context_ok c = true -> context_epoch c = e ->
  exists new, take_tasks (planner_after e cs) c = (planner_after e (cs ++ [c]), Ok new) /\
    epoch_plans (cs ++ [c]) ≡ₚ epoch_plans cs ++ new.
Proof.
  intros Ho Hoc Hok He. unfold take_tasks. unfold context_ok in Hok. destruct (validate_context c) as [u|]; [|done]. cbv zeta.
  rewrite He, (bool_decide_eq_true_2 (planner_epoch (planner_after e cs) = Some e)) by done. cbn [negb].
  destruct (N.leb_spec (target (context_schedule c)) (current_height c)) as [Ht|Ht].
  - assert (Hc : (current_height c <? target (context_schedule c)) = false) by (by apply N.ltb_ge).
    exists []. unfold planner_after, epoch_plans, due_shares, due_recovers, due_recovered. rewrite !(closed_snoc _ _ _ Hc). by rewrite app_nil_r.
  - assert (Hc : (current_height c <? target (context_schedule c)) = true) by (by apply N.ltb_lt).
    destruct (share_after cs c Hc (planner_after e cs) eq_refl) as [E1 P1].
    destruct (share_checkpoint _ c) as [p1 l1]. cbn [fst snd] in E1, P1. subst p1.
    match goal with |- context [recover_checkpoint ?p c] => destruct (recover_after cs c Hc p eq_refl eq_refl eq_refl) as [E2 P2] end.
    destruct (recover_checkpoint _ c) as [p2 l2]. cbn [fst snd] in E2, P2. subst p2.
    match goal with |- context [reshare_recovered_checkpoint ?p c] =>
      destruct (recovered_after cs c Hc p Ho Hoc eq_refl eq_refl eq_refl) as [E3 P3] end.
    destruct (reshare_recovered_checkpoint _ c) as [p3 l3]. cbn [fst snd] in E3, P3. subst p3.
    exists (l1 ++ l2 ++ l3). split; [done|]. unfold epoch_plans. rewrite E1, E2, E3. solve_Permutation.
Qed.

Lemma run_after e cs : Forall schedule_ordered cs -> Forall (fun c => context_ok c = true /\ context_epoch c = e) cs ->
  (run_planner (planner_after e []) cs).1 = planner_after e cs /\ (run_planner (planner_after e []) cs).2 ≡ₚ epoch_plans cs.
Proof.
  induction cs as [|c cs IH] using rev_ind; intros Ho He; [done|].
  apply Forall_app in Ho as [Ho Hoc], He as [He Hec]. rewrite Forall_singleton in Hoc, Hec. destruct Hec as [Hok Hec]. destruct (IH Ho He) as [H1 H2].
  rewrite run_planner_app, H1. cbn [run_planner]. destruct (step_after e cs c Ho Hoc Hok Hec) as (new & -> & Hn).
  cbn [fst snd]. split; [done|]. by rewrite app_nil_r, Hn, H2.
Qed.

(** A new epoch starts the planner afresh. *)
Lemma run_fresh e p cs : planner_epoch p <> Some e -> Forall (fun c => context_ok c = true /\ context_epoch c = e) cs ->
  (run_planner p cs).2 = (run_planner (planner_after e []) cs).2.
Proof.
  intros Hp He. destruct cs as [|c cs]; [done|]. apply Forall_cons in He as [[Hok He] _]. cbn [run_planner].
  enough (take_tasks p c = take_tasks (planner_after e []) c) as -> by done.
  unfold take_tasks. unfold context_ok in Hok. destruct (validate_context c); [|done]. cbv zeta. rewrite He.
  rewrite bool_decide_eq_false_2 by done. rewrite (bool_decide_eq_true_2 (planner_epoch (planner_after e []) = Some e)) by done. done.
Qed.

Lemma planned_timely c method sender stop indices t : t ∈ planned c method sender stop indices ->
  plan_method t = method /\ plan_send_height t = current_height c /\ plan_end_height t = stop /\ sender = Some (sender_index t) /\
  plan_round t = context_next_round c.
Proof. unfold planned. destruct sender; [intros ->%list_elem_of_singleton; done|by intros ?%not_elem_of_nil]. Qed.

Definition timely (c : DkgTaskContext) (t : DkgTaskPlan) : Prop :=
  plan_round t = context_next_round c /\ plan_send_height t = current_height c /\
  share_start (context_schedule c) <= plan_send_height t < plan_end_height t /\
  plan_end_height t <= target (context_schedule c).

Lemma epoch_plans_timely cs t : Forall schedule_ordered cs -> t ∈ epoch_plans cs -> exists c, c ∈ cs /\ timely c t.
Proof.
  intros Ho. rewrite Forall_forall in Ho. unfold epoch_plans, due_shares, due_recovers, due_recovered, timely. rewrite !elem_of_app.
  intros [H|[H|H]].
  - destruct (first_due share_start cs) as [c|] eqn:E; [|by apply not_elem_of_nil in H]. apply first_Some in E as [Hc Hd].
    destruct (Ho c Hc) as (? & ? & ?). exists c. apply andb_true_iff in Hd as [Hd%N.leb_le _].
    destruct (N.ltb_spec (current_height c) (recover_start (context_schedule c))); [|by apply not_elem_of_nil in H].
    apply elem_of_app in H as [H|H]; [destruct (1 <? _); [|by apply not_elem_of_nil in H]|]; apply planned_timely in H as (_ & -> & -> & _ & ->); split_and!; done || lia.
  - destruct (first_due recover_start cs) as [c|] eqn:E; [|by apply not_elem_of_nil in H]. apply first_Some in E as [Hc Hd].
    destruct (Ho c Hc) as (? & ? & ?). exists c. apply andb_true_iff in Hd as [Hd%N.leb_le _].
    destruct (recoverable c); [|by apply not_elem_of_nil in H]. cbn [andb] in H.
    destruct (N.ltb_spec (current_height c) (recover_check (context_schedule c))); [|by apply not_elem_of_nil in H].
    apply planned_timely in H as (_ & -> & -> & _ & ->); split_and!; done || lia.
  - destruct (first_due recover_start cs) as [r|]; [|by apply not_elem_of_nil in H].
    destruct (first_due recover_check cs) as [c|] eqn:E; [|by apply not_elem_of_nil in H]. apply first_Some in E as [Hc Hd].
    destruct (Ho c Hc) as (? & ? & ?). exists c. apply andb_true_iff in Hd as [Hd%N.leb_le Ht%N.ltb_lt].
    destruct (pending_index c); [|by apply not_elem_of_nil in H]. destruct (_ && _); [|by apply not_elem_of_nil in H].
    apply planned_timely in H as (_ & -> & -> & _ & ->); split_and!; done || lia.
Qed.

(** The methods of an epoch's plans, in their order. *)
Lemma planned_methods c method sender stop indices : map plan_method (planned c method sender stop indices) `sublist_of` [method].
Proof. unfold planned. destruct sender; [done|apply sublist_nil_l]. Qed.

Lemma epoch_plans_methods cs :
  map plan_method (epoch_plans cs) `sublist_of` [MethodReshare; MethodShare; MethodRecover; MethodReshareRecovered].
Proof.
  unfold epoch_plans. rewrite !map_app. apply (sublist_app _ [MethodReshare; MethodShare] _ [MethodRecover; MethodReshareRecovered]); [|apply (sublist_app _ [MethodRecover] _ [MethodReshareRecovered])].
  - unfold due_shares. destruct (first_due share_start cs) as [c|]; [|apply sublist_nil_l]. destruct (_ <? _); [|apply sublist_nil_l].
    rewrite map_app. apply (sublist_app _ [MethodReshare] _ [MethodShare]); [destruct (1 <? _); [|apply sublist_nil_l]|]; apply planned_methods.
  - unfold due_recovers. destruct (first_due recover_start cs) as [c|]; [|apply sublist_nil_l]. destruct (_ && _); [|apply sublist_nil_l].
    apply planned_methods.
  - unfold due_recovered. destruct (first_due recover_start cs) as [r|]; [|apply sublist_nil_l].
    destruct (first_due recover_check cs) as [c|]; [|apply sublist_nil_l]. destruct (pending_index c); [|apply sublist_nil_l].
    destruct (_ && _); [|apply sublist_nil_l]. apply planned_methods.
Qed.

(** C24. Over all the heads of an epoch, in any order, the planner emits exactly the plans that the
    first head at or past each checkpoint calls for: every contract method at most once, each
    planned at a head of the epoch from the share checkpoint on and before its deadline, which is at most the
    target. *)
Theorem planner_exact e p cs : planner_epoch p <> Some e ->
  Forall (fun c => context_epoch c = e /\ schedule_ordered c) cs ->
  let plans := (run_planner p cs).2 in
  let seen := filter (fun c => context_ok c = true) cs in
  plans ≡ₚ epoch_plans seen /\ NoDup (map plan_method plans) /\ Forall (fun t => exists c, c ∈ seen /\ timely c t) plans.
Proof.
  intros Hp H plans seen. subst plans. rewrite run_planner_valid. fold seen.
  assert (Hs : Forall schedule_ordered seen /\ Forall (fun c => context_ok c = true /\ context_epoch c = e) seen).
  { split; apply Forall_forall; intros c [Hok Hc]%list_elem_of_filter; rewrite Forall_forall in H; destruct (H c Hc); done. }
  destruct Hs as [Ho He]. rewrite (run_fresh e p seen Hp He). destruct (run_after e seen Ho He) as [_ Hr]. split_and!; [done| |].
  - rewrite (fmap_Permutation plan_method _ _ Hr : map _ _ ≡ₚ map _ _). eapply sublist_NoDup; [|apply epoch_plans_methods].
    by apply (bool_decide_unpack (NoDup _)).
  - apply Forall_forall. intros t Ht. rewrite Hr in Ht. by apply epoch_plans_timely.
Qed.

Lemma schedule_new_ordered start duration period c : schedule_new start duration period = Ok (context_schedule c) ->
  schedule_ordered c.
Proof.
  intros (H1 & H2 & H3 & E)%schedule_new_Ok. unfold schedule_ordered. rewrite E. cbn.
  assert (period / 2 <= period) by (apply N.Div0.div_le_upper_bound; lia). generalize dependent (period / 2). intros q _ Hq. lia.
Qed.

Module TaskWitness.

Definition schedule : DkgSchedule := mkDkgSchedule 0 80 90 95 100.

(** The head at a height, as the first current and second pending member sees it; the second
    and third members' reshares are missing at the recovery checkpoint. *)
Definition head (h : N) : DkgTaskContext := mkDkgTaskContext canonical schedule h 2 (Some 1) (Some 2) true [2; 3].

Definition heads : list DkgTaskContext := map head [79; 81; 92; 82; 96; 97; 100].

Lemma heads_epoch : Forall (fun c => context_epoch c = (0, 2) /\ schedule_ordered c) heads.
Proof.
  unfold heads. cbn [map]. repeat apply Forall_cons_2; [..|apply Forall_nil_2]; (split; [done|]; by apply (schedule_new_ordered 0 100 10)).
Qed.

Lemma planner_exact_witness :
  (run_planner planner_default heads).2 ≡ₚ epoch_plans (filter (fun c => context_ok c = true) heads) /\
  NoDup (map plan_method (run_planner planner_default heads).2) /\
  Forall (fun t => exists c, c ∈ filter (fun c => context_ok c = true) heads /\ timely c t) (run_planner planner_default heads).2.
Proof. apply (planner_exact (0, 2) planner_default heads); [done|exact heads_epoch]. Defined.

(** All four calls, each at the first head that reaches its checkpoint. *)
Example four_calls :
  map (fun t => (plan_method t, plan_send_height t, plan_end_height t)) (run_planner planner_default heads).2 =
  [(MethodReshare, 81, 90); (MethodShare, 81, 90); (MethodRecover, 92, 95); (MethodReshareRecovered, 96, 100)].
Proof. by vm_compute. Qed.
End TaskWitness.
