(* ===== verification/DkgExecutor.v ===== *)
(** The execution queue of key-generation tasks (crates/neox/node/src/dkg_executor.rs):
    preparation, submission with stable call data, receipt checks, retries and expiry. *)

From S2P Require Import Prelude Extern DkgParams Dkg Storage DkgTask.

Record DkgTaskId : Type := mkDkgTaskId {
  id_round : N;
  id_method : DkgContractMethod;
  id_sender_index : N;
}.

#[export] Instance dkg_task_id_eq : EqDecision DkgTaskId.
Proof. solve_decision. Defined.

Definition method_code (m : DkgContractMethod) : N :=
  match m with MethodShare => 0 | MethodReshare => 1 | MethodRecover => 2 | MethodReshareRecovered => 3 end.
Definition code_method (n : N) : DkgContractMethod :=
  match n with 0 => MethodShare | 1 => MethodReshare | 2 => MethodRecover | _ => MethodReshareRecovered end.

#[export] Instance dkg_task_id_countable : Countable DkgTaskId.
Proof.
  refine (inj_countable' (fun i => (id_round i, method_code (id_method i), id_sender_index i))
    (fun '(r, m, s) => mkDkgTaskId r (code_method m) s) _).
  by intros [r [] s].
Defined.

(** [DkgTaskId::from] *)
Definition task_id (p : DkgTaskPlan) : DkgTaskId := mkDkgTaskId (plan_round p) (plan_method p) (sender_index p).

Module DkgExecutorAction.
Inductive t : Type :=
| Prepare (id : DkgTaskId) (plan : DkgTaskPlan)
| Submit (id : DkgTaskId) (to : Address) (calldata : bytes)
| CheckReceipt (id : DkgTaskId) (transaction_hash : B256)
| Expire (id : DkgTaskId).
End DkgExecutorAction.
Notation DkgExecutorAction := DkgExecutorAction.t.

Module DkgExecutorOutcome.
Inductive t : Type :=
| Prepared (id : DkgTaskId)
| PreparationFailed (id : DkgTaskId) (error : string)
| Submitted (id : DkgTaskId) (transaction_hash : B256)
| SubmissionFailed (id : DkgTaskId) (error : string)
| RetryScheduled (id : DkgTaskId) (receipt : DkgReceiptState)
| Confirmed (id : DkgTaskId) (transaction_hash : B256)
| ReceiptCheckFailed (id : DkgTaskId) (error : string).
End DkgExecutorOutcome.
Notation DkgExecutorOutcome := DkgExecutorOutcome.t.

Inductive DkgExecutorError : Type :=
| UnknownTask (id : DkgTaskId)
| UnexpectedState (id : DkgTaskId)
| InvalidCalldata (length : N).

Module DkgExecutionState.
Inductive t : Type :=
| Unprepared
| Preparing
| Ready (calldata : bytes)
| Submitting (calldata : bytes)
| Submitted (calldata : bytes) (transaction_hash : B256) (send_height : N)
| Checking (calldata : bytes) (transaction_hash : B256) (send_height : N).
End DkgExecutionState.
Notation DkgExecutionState := DkgExecutionState.t.

Record DkgExecutionTask : Type := mkDkgExecutionTask {
  task_plan : DkgTaskPlan;
  task_state : DkgExecutionState;
}.

Record DkgTaskExecutor : Type := mkDkgTaskExecutor {
  tasks : gmap DkgTaskId DkgExecutionTask;
  order : list DkgTaskId;
}.

(** [DkgTaskExecutor::default] *)
Definition executor_default : DkgTaskExecutor := mkDkgTaskExecutor ∅ [].

Definition executor_len (x : DkgTaskExecutor) : N := N.of_nat (size (tasks x)).
Definition executor_is_empty (x : DkgTaskExecutor) : bool := bool_decide (tasks x = ∅).

Definition set_task (x : DkgTaskExecutor) (id : DkgTaskId) (task : DkgExecutionTask) (state : DkgExecutionState) : DkgTaskExecutor :=
  mkDkgTaskExecutor (<[id := mkDkgExecutionTask (task_plan task) state]> (tasks x)) (order x).

Fixpoint enqueue (x : DkgTaskExecutor) (plans : list DkgTaskPlan) (inserted : N) : DkgTaskExecutor * N :=
  match plans with
  | [] => (x, inserted)
  | plan :: rest =>
      let id := task_id plan in
      match tasks x !! id with
      | None =>
          enqueue (mkDkgTaskExecutor (<[id := mkDkgExecutionTask plan DkgExecutionState.Unprepared]> (tasks x)) (order x ++ [id]))
            rest (inserted + 1)
      | Some _ => enqueue x rest inserted
      end
  end.

(** ** Actions *)

Definition is_expired (ts : gmap DkgTaskId DkgExecutionTask) (current_height : N) (id : DkgTaskId) : bool :=
  match ts !! id with Some task => plan_end_height (task_plan task) <=? current_height | None => false end.

(** What a task may start now: its next state, the action, and whether it takes a prover. *)
Definition task_action (id : DkgTaskId) (task : DkgExecutionTask) (current_height : N) (may_prepare : bool)
    : option (DkgExecutionState * DkgExecutorAction) :=
  match task_state task with
  | DkgExecutionState.Unprepared =>
      if may_prepare then Some (DkgExecutionState.Preparing, DkgExecutorAction.Prepare id (task_plan task)) else None
  | DkgExecutionState.Ready calldata =>
      Some (DkgExecutionState.Submitting calldata, DkgExecutorAction.Submit id KEY_MANAGEMENT_PROXY_ADDRESS calldata)
  | DkgExecutionState.Submitted calldata hash sent =>
      if saturating_add U64_MAX sent 3 <=? current_height
      then Some (DkgExecutionState.Checking calldata hash sent, DkgExecutorAction.CheckReceipt id hash) else None
  | DkgExecutionState.Checking calldata hash sent =>
      Some (DkgExecutionState.Checking calldata hash sent, DkgExecutorAction.CheckReceipt id hash)
  | DkgExecutionState.Preparing | DkgExecutionState.Submitting _ => None
  end.

Definition is_prepare (a : DkgExecutorAction) : bool := match a with DkgExecutorAction.Prepare _ _ => true | _ => false end.

(** The loop over the order; [None] is the [expect] on a task that is not there. *)
Fixpoint start_actions (ts : gmap DkgTaskId DkgExecutionTask) (current_height max_preparations preparations : N)
    (ids : list DkgTaskId) : option (gmap DkgTaskId DkgExecutionTask * list DkgExecutorAction) :=
  match ids with
  | [] => Some (ts, [])
  | id :: rest =>
      task ← ts !! id;
      match task_action id task current_height (preparations <? max_preparations) with
      | None => start_actions ts current_height max_preparations preparations rest
      | Some (state, action) =>
          '(ts, actions) ← start_actions (<[id := mkDkgExecutionTask (task_plan task) state]> ts) current_height max_preparations
            (if is_prepare action then preparations + 1 else preparations) rest;
          Some (ts, action :: actions)
      end
  end.

Definition actions_with_preparation_limit (x : DkgTaskExecutor) (current_height max_preparations : N)
    : option (DkgTaskExecutor * list DkgExecutorAction) :=
  let expired := filter (fun id => is_expired (tasks x) current_height id = true) (order x) in
  let ts := foldl (fun ts id => delete id ts) (tasks x) expired in
  let kept := filter (fun id => is_Some (ts !! id)) (order x) in
  '(ts, actions) ← start_actions ts current_height max_preparations 0 kept;
  Some (mkDkgTaskExecutor ts kept, map DkgExecutorAction.Expire expired ++ actions).

Definition actions (x : DkgTaskExecutor) (current_height : N) : option (DkgTaskExecutor * list DkgExecutorAction) :=
  actions_with_preparation_limit x current_height USIZE_MAX.

(** ** Completions *)

Definition task_in_state (x : DkgTaskExecutor) (id : DkgTaskId) (expected : DkgExecutionState -> bool)
    : result DkgExecutorError DkgExecutionTask :=
  let? task := ok_or (tasks x !! id) (UnknownTask id) in
  if negb (expected (task_state task)) then Err (UnexpectedState id) else Ok task.

Definition is_preparing (s : DkgExecutionState) : bool := match s with DkgExecutionState.Preparing => true | _ => false end.

Definition record_prepared (x : DkgTaskExecutor) (id : DkgTaskId) (r : result string bytes)
    : DkgTaskExecutor * result DkgExecutorError DkgExecutorOutcome :=
  match task_in_state x id is_preparing with
  | Err e => (x, Err e)
  | Ok task =>
      match r with
      | Ok calldata =>
          if 4 <=? lenN calldata
          then (set_task x id task (DkgExecutionState.Ready calldata), Ok (DkgExecutorOutcome.Prepared id))
          else (set_task x id task DkgExecutionState.Unprepared, Err (InvalidCalldata (lenN calldata)))
      | Err error => (set_task x id task DkgExecutionState.Unprepared, Ok (DkgExecutorOutcome.PreparationFailed id error))
      end
  end.

Definition submitting_calldata (s : DkgExecutionState) : option bytes :=
  match s with DkgExecutionState.Submitting calldata => Some calldata | _ => None end.

(** [None] of the inner match is [unreachable!], which [task_in_state] excludes. *)
Definition record_submitted (x : DkgTaskExecutor) (id : DkgTaskId) (current_height : N) (r : result string B256)
    : DkgTaskExecutor * result DkgExecutorError DkgExecutorOutcome :=
  match task_in_state x id (fun s => bool_decide (is_Some (submitting_calldata s))) with
  | Err e => (x, Err e)
  | Ok task =>
      match submitting_calldata (task_state task) with
      | Some calldata =>
          match r with
          | Ok hash =>
              (set_task x id task (DkgExecutionState.Submitted calldata hash current_height), Ok (DkgExecutorOutcome.Submitted id hash))
          | Err error => (set_task x id task (DkgExecutionState.Ready calldata), Ok (DkgExecutorOutcome.SubmissionFailed id error))
          end
      | None => (x, Err (UnexpectedState id))
      end
  end.

Definition checking_submission (s : DkgExecutionState) : option (bytes * B256) :=
  match s with DkgExecutionState.Checking calldata hash _ => Some (calldata, hash) | _ => None end.

Definition remove_task (x : DkgTaskExecutor) (id : DkgTaskId) : DkgTaskExecutor :=
  mkDkgTaskExecutor (delete id (tasks x)) (filter (fun queued => queued <> id) (order x)).

Definition record_receipt (x : DkgTaskExecutor) (id : DkgTaskId) (r : result string DkgReceiptState)
    : DkgTaskExecutor * result DkgExecutorError DkgExecutorOutcome :=
  match task_in_state x id (fun s => bool_decide (is_Some (checking_submission s))) with
  | Err e => (x, Err e)
  | Ok task =>
      match checking_submission (task_state task) with
      | Some (calldata, hash) =>
          match r with
          | Ok Succeeded => (remove_task x id, Ok (DkgExecutorOutcome.Confirmed id hash))
          | Ok receipt => (set_task x id task (DkgExecutionState.Ready calldata), Ok (DkgExecutorOutcome.RetryScheduled id receipt))
          | Err error => (set_task x id task (DkgExecutionState.Ready calldata), Ok (DkgExecutorOutcome.ReceiptCheckFailed id error))
          end
      | None => (x, Err (UnexpectedState id))
      end
  end.

Definition retire (x : DkgTaskExecutor) (id : DkgTaskId) : DkgTaskExecutor * bool :=
  match tasks x !! id with
  | Some _ => (remove_task x id, true)
  | None => (x, false)
  end.

(** ** The log of a queue *)

Inductive ExecutorLog : Type :=
| LogQueued (plan : DkgTaskPlan)
| LogAction (height : N) (action : DkgExecutorAction)
| LogPrepared (id : DkgTaskId) (calldata : bytes)
| LogSubmitted (id : DkgTaskId) (height : N) (hash : B256)
| LogConfirmed (id : DkgTaskId) (hash : B256)
| LogRetired (id : DkgTaskId).

Definition action_id (a : DkgExecutorAction) : DkgTaskId :=
  match a with
  | DkgExecutorAction.Prepare id _ | DkgExecutorAction.Submit id _ _
  | DkgExecutorAction.CheckReceipt id _ | DkgExecutorAction.Expire id => id
  end.

Definition log_id (l : ExecutorLog) : DkgTaskId :=
  match l with
  | LogQueued plan => task_id plan
  | LogAction _ a => action_id a
  | LogPrepared id _ | LogSubmitted id _ _ | LogConfirmed id _ | LogRetired id => id
  end.

(** A task as its log tells it: its plan, the call data once prepared, the last submission. *)
Record TaskView : Type := mkTaskView {
  view_plan : DkgTaskPlan;
  view_calldata : option bytes;
  view_submission : option (N * B256);
}.

Definition move_view (l : ExecutorLog) (v : option TaskView) : option TaskView :=
  match l with
  | LogQueued plan => Some (mkTaskView plan None None)
  | LogAction _ (DkgExecutorAction.Expire _) | LogConfirmed _ _ | LogRetired _ => None
  | LogAction _ _ => v
  | LogPrepared _ calldata => (fun v => mkTaskView (view_plan v) (Some calldata) (view_submission v)) <$> v
  | LogSubmitted _ height hash => (fun v => mkTaskView (view_plan v) (view_calldata v) (Some (height, hash))) <$> v
  end.

(** The log, newest first. *)
Fixpoint view (h : list ExecutorLog) (id : DkgTaskId) : option TaskView :=
  match h with
  | [] => None
  | l :: h => if bool_decide (log_id l = id) then move_view l (view h id) else view h id
  end.

(** The receipt of a submission was asked for after the confirmation delay. *)
Definition checked (h : list ExecutorLog) (id : DkgTaskId) (sent : N) (hash : B256) : Prop :=
  exists height, saturating_add U64_MAX sent 3 <= height /\ LogAction height (DkgExecutorAction.CheckReceipt id hash) ∈ h.

(** What each entry says of the entries before it. *)
Definition justified (h : list ExecutorLog) (l : ExecutorLog) : Prop :=
  match l with
  | LogQueued plan => view h (task_id plan) = None
  | LogAction height (DkgExecutorAction.Prepare id plan) =>
      view h id = Some (mkTaskView plan None None) /\ height < plan_end_height plan
  | LogAction height (DkgExecutorAction.Submit id to calldata) =>
      to = KEY_MANAGEMENT_PROXY_ADDRESS /\ 4 <= lenN calldata /\
      exists v, view h id = Some v /\ view_calldata v = Some calldata /\ height < plan_end_height (view_plan v)
  | LogAction height (DkgExecutorAction.CheckReceipt id hash) =>
      exists v sent, view h id = Some v /\ view_submission v = Some (sent, hash) /\ height < plan_end_height (view_plan v) /\
        (saturating_add U64_MAX sent 3 <= height \/ checked h id sent hash)
  | LogAction height (DkgExecutorAction.Expire id) =>
      exists v, view h id = Some v /\ plan_end_height (view_plan v) <= height
  | LogPrepared id calldata =>
      4 <= lenN calldata /\ exists plan height, view h id = Some (mkTaskView plan None None) /\
        LogAction height (DkgExecutorAction.Prepare id plan) ∈ h
  | LogSubmitted id _ _ =>
      exists v calldata height, view h id = Some v /\ view_calldata v = Some calldata /\
        LogAction height (DkgExecutorAction.Submit id KEY_MANAGEMENT_PROXY_ADDRESS calldata) ∈ h
  | LogConfirmed id hash =>
      exists v sent, view h id = Some v /\ view_submission v = Some (sent, hash) /\ checked h id sent hash
  | LogRetired id => is_Some (view h id)
  end.

Fixpoint log_ok (h : list ExecutorLog) : Prop :=
  match h with [] => True | l :: h => justified h l /\ log_ok h end.

(** ** Operations *)

Inductive ExecutorOp : Type :=
| OpEnqueue (plan : DkgTaskPlan)
| OpActions (height max_preparations : N)
| OpPrepared (id : DkgTaskId) (r : result string bytes)
| OpSubmitted (id : DkgTaskId) (height : N) (r : result string B256)
| OpReceipt (id : DkgTaskId) (r : result string DkgReceiptState)
| OpRetire (id : DkgTaskId).

(** What an outcome adds to the log. *)
Definition outcome_log (op : ExecutorOp) (o : result DkgExecutorError DkgExecutorOutcome) : list ExecutorLog :=
  match op, o with
  | OpPrepared _ (Ok calldata), Ok (DkgExecutorOutcome.Prepared id) => [LogPrepared id calldata]
  | OpSubmitted _ height _, Ok (DkgExecutorOutcome.Submitted id hash) => [LogSubmitted id height hash]
  | OpReceipt _ _, Ok (DkgExecutorOutcome.Confirmed id hash) => [LogConfirmed id hash]
  | _, _ => []
  end.

(** One operation on the queue and its log; [None] is a panic. *)
Definition exec_op (x : DkgTaskExecutor) (h : list ExecutorLog) (op : ExecutorOp) : option (DkgTaskExecutor * list ExecutorLog) :=
  match op with
  | OpEnqueue plan =>
      let '(x, inserted) := enqueue x [plan] 0 in Some (x, if inserted =? 0 then h else LogQueued plan :: h)
  | OpActions height limit =>
      '(x, l) ← actions_with_preparation_limit x height limit; Some (x, rev (map (LogAction height) l) ++ h)
  | OpPrepared id r => let '(x, o) := record_prepared x id r in Some (x, outcome_log op o ++ h)
  | OpSubmitted id height r => let '(x, o) := record_submitted x id height r in Some (x, outcome_log op o ++ h)
  | OpReceipt id r => let '(x, o) := record_receipt x id r in Some (x, outcome_log op o ++ h)
  | OpRetire id => let '(x, removed) := retire x id in Some (x, if removed then LogRetired id :: h else h)
  end.

Fixpoint exec_ops (x : DkgTaskExecutor) (h : list ExecutorLog) (ops : list ExecutorOp) : option (DkgTaskExecutor * list ExecutorLog) :=
  match ops with
  | [] => Some (x, h)
  | op :: ops => '(x, h) ← exec_op x h op; exec_ops x h ops
  end.

(** ** The queue agrees with its log *)

Definition task_agrees (h : list ExecutorLog) (id : DkgTaskId) (task : DkgExecutionTask) (v : TaskView) : Prop :=
  view_plan v = task_plan task /\
  match task_state task with
  | DkgExecutionState.Unprepared => view_calldata v = None /\ view_submission v = None
  | DkgExecutionState.Preparing =>
      view_calldata v = None /\ view_submission v = None /\
      exists height, LogAction height (DkgExecutorAction.Prepare id (task_plan task)) ∈ h
  | DkgExecutionState.Ready calldata => view_calldata v = Some calldata /\ 4 <= lenN calldata
  | DkgExecutionState.Submitting calldata =>
      view_calldata v = Some calldata /\ 4 <= lenN calldata /\
      exists height, LogAction height (DkgExecutorAction.Submit id KEY_MANAGEMENT_PROXY_ADDRESS calldata) ∈ h
  | DkgExecutionState.Submitted calldata hash sent =>
      view_calldata v = Some calldata /\ 4 <= lenN calldata /\ view_submission v = Some (sent, hash)
  | DkgExecutionState.Checking calldata hash sent =>
      view_calldata v = Some calldata /\ 4 <= lenN calldata /\ view_submission v = Some (sent, hash) /\ checked h id sent hash
  end.

Definition tasks_ok (ts : gmap DkgTaskId DkgExecutionTask) (h : list ExecutorLog) : Prop :=
  forall id, option_relation (task_agrees h id) (fun _ => False) (fun _ => False) (ts !! id) (view h id).

Record task_executor_ok (x : DkgTaskExecutor) (h : list ExecutorLog) : Prop := {
  ok_tasks : tasks_ok (tasks x) h;
  ok_order : forall id, id ∈ order x <-> is_Some (tasks x !! id);
  ok_distinct : NoDup (order x);
}.

Lemma agrees_mono h l id task v : task_agrees h id task v -> task_agrees (l :: h) id task v.
Proof.
  unfold task_agrees, checked. intros [Hp H]. split; [done|]. destruct (task_state task); intuition.
  all: repeat match goal with
    | H : exists _, _ |- _ => destruct H
    | H : _ /\ _ |- _ => destruct H
    | |- exists _, _ => eexists
    end; try split; try done; apply elem_of_cons; by right.
Qed.

Lemma view_cons l h : view (l :: h) (log_id l) = move_view l (view h (log_id l)).
Proof. cbn. by rewrite bool_decide_eq_true_2. Qed.

Lemma tasks_ok_other ts h l ts' : tasks_ok ts h -> (forall id, id <> log_id l -> ts' !! id = ts !! id) ->
  option_relation (task_agrees (l :: h) (log_id l)) (fun _ => False) (fun _ => False) (ts' !! log_id l) (move_view l (view h (log_id l))) ->
  tasks_ok ts' (l :: h).
Proof.
  intros H Hne Hl id. destruct (decide (log_id l = id)) as [<-|Hid]; [by rewrite view_cons|].
  rewrite Hne by done. cbn [view]. rewrite bool_decide_eq_false_2 by done. specialize (H id).
  destruct (ts !! id), (view h id); cbn in *; try done. by apply agrees_mono.
Qed.

Lemma tasks_ok_get ts h id task : tasks_ok ts h -> ts !! id = Some task -> exists v, view h id = Some v /\ task_agrees h id task v.
Proof. intros H E. specialize (H id). rewrite E in H. destruct (view h id) as [v|]; [by exists v|done]. Qed.

Lemma tasks_ok_set ts h id task v : tasks_ok ts h -> view h id = Some v -> task_agrees h id task v -> tasks_ok (<[id := task]> ts) h.
Proof.
  intros H Hv Ha id'. destruct (decide (id = id')) as [<-|Hne]; [by rewrite lookup_insert, decide_True, Hv by done|].
  rewrite lookup_insert_ne by done. apply H.
Qed.

(** A log entry with the state it leaves. *)
Lemma tasks_ok_push ts h l task v : tasks_ok ts h -> move_view l (view h (log_id l)) = Some v ->
  task_agrees (l :: h) (log_id l) task v -> tasks_ok (<[log_id l := task]> ts) (l :: h).
Proof.
  intros H Hv Ha. eapply tasks_ok_other; [exact H|intros; by apply lookup_insert_ne|].
  by rewrite lookup_insert, decide_True, Hv by done.
Qed.

Lemma tasks_ok_remove ts h l : tasks_ok ts h -> move_view l (view h (log_id l)) = None ->
  tasks_ok (delete (log_id l) ts) (l :: h).
Proof.
  intros H Hv. eapply tasks_ok_other; [exact H|intros; by apply lookup_delete_ne|].
  by rewrite lookup_delete, decide_True, Hv by done.
Qed.

(** ** Every operation keeps the agreement *)

(** One action of the loop. *)
Lemma task_action_ok ts h id task height may state action : tasks_ok ts h -> ts !! id = Some task ->
  height < plan_end_height (task_plan task) -> task_action id task height may = Some (state, action) ->
  action_id action = id /\ justified h (LogAction height action) /\
  tasks_ok (<[id := mkDkgExecutionTask (task_plan task) state]> ts) (LogAction height action :: h).
Proof.
  intros H E Hh Ha. destruct (tasks_ok_get _ _ _ _ H E) as (v & Hv & Hp & Hs). unfold task_action in Ha.
  assert (Hpush : forall a s, action_id a = id -> (forall i, a <> DkgExecutorAction.Expire i) ->
    task_agrees (LogAction height a :: h) id (mkDkgExecutionTask (task_plan task) s) v ->
    tasks_ok (<[id := mkDkgExecutionTask (task_plan task) s]> ts) (LogAction height a :: h)).
  { intros a s <- Hn Hag. apply (tasks_ok_push ts h (LogAction height a) _ v); [done| |done].
    destruct a; cbn in *; try done. by destruct (Hn id). }
  destruct (task_state task) as [| |c|c|c hash sent|c hash sent] eqn:Es; try done.
  - destruct may; [|done]. injection Ha as <- <-. destruct Hs as [Hc Hsub]. split_and!; [done| |].
    + cbn. split; [|done]. rewrite Hv. destruct v; cbn in *. by subst.
    + apply Hpush; [done..|]. split; [done|]. cbn. split_and!; [done..|]. exists height. apply elem_of_cons. by left.
  - injection Ha as <- <-. destruct Hs as [Hc Hl]. split_and!; [done| |].
    + cbn. split_and!; [done..|]. exists v. by rewrite Hp.
    + apply Hpush; [done..|]. split; [done|]. cbn. split_and!; [done..|]. exists height. apply elem_of_cons. by left.
  - destruct (N.leb_spec (saturating_add U64_MAX sent 3) height) as [Hd|]; [|done]. injection Ha as <- <-.
    destruct Hs as (Hc & Hl & Hsub). split_and!; [done| |].
    + cbn. exists v, sent. rewrite Hp. split_and!; [done..|]. by left.
    + apply Hpush; [done..|]. split; [done|]. cbn. split_and!; [done..|]. exists height. split; [done|]. apply elem_of_cons. by left.
  - injection Ha as <- <-. destruct Hs as (Hc & Hl & Hsub & Hck). split_and!; [done| |].
    + cbn. exists v, sent. rewrite Hp. split_and!; [done..|]. by right.
    + apply Hpush; [done..|]. split; [done|]. cbn. split_and!; [done..|].
      destruct Hck as (h0 & ? & ?). exists h0. split; [done|]. apply elem_of_cons. by right.
Qed.

(** The loop: it finds every task, and its actions are justified in turn. *)
Lemma start_actions_ok height limit ids : forall ts h n, tasks_ok ts h -> log_ok h ->
  Forall (fun id => exists task, ts !! id = Some task /\ height < plan_end_height (task_plan task)) ids ->
  exists ts' l, start_actions ts height limit n ids = Some (ts', l) /\
    tasks_ok ts' (rev (map (LogAction height) l) ++ h) /\ log_ok (rev (map (LogAction height) l) ++ h) /\
    (forall id, is_Some (ts' !! id) <-> is_Some (ts !! id)).
Proof.
  induction ids as [|id ids IH]; intros ts h n Hts Hlog Hids; cbn [start_actions]; [by exists ts, []|].
  apply Forall_cons in Hids as [(task & E & Hh) Hids]. rewrite E. cbn [mbind option_bind].
  destruct (task_action id task height _) as [[state action]|] eqn:Ea; [|by apply IH].
  destruct (task_action_ok _ _ _ _ _ _ _ _ Hts E Hh Ea) as (_ & Hj & Hts').
  destruct (IH (<[id := mkDkgExecutionTask (task_plan task) state]> ts) (LogAction height action :: h)
    (if is_prepare action then n + 1 else n)) as (ts' & l & -> & H1 & H2 & H3); [done|done| |].
  { eapply Forall_impl; [exact Hids|]. intros i (t & Et & Ht). destruct (decide (id = i)) as [<-|Hne].
    - rewrite lookup_insert, decide_True by done. by eexists.
    - rewrite lookup_insert_ne by done. by exists t. }
  exists ts', (action :: l). cbn [mbind option_bind map rev]. rewrite <- app_assoc. cbn [app]. split_and!; [done..|].
  intros i. rewrite H3. destruct (decide (id = i)) as [<-|Hne]; [by rewrite lookup_insert, decide_True, E by done|].
  by rewrite lookup_insert_ne.
Qed.

(** The tasks past their deadline leave the queue. *)
Lemma expired_ok height expired : forall ts h, tasks_ok ts h -> log_ok h -> NoDup expired ->
  Forall (fun id => is_expired ts height id = true) expired ->
  tasks_ok (foldl (fun ts id => delete id ts) ts expired) (rev (map (fun id => LogAction height (DkgExecutorAction.Expire id)) expired) ++ h) /\
  log_ok (rev (map (fun id => LogAction height (DkgExecutorAction.Expire id)) expired) ++ h).
Proof.
  induction expired as [|id expired IH]; intros ts h Hts Hlog Hn He; [done|]. cbn [foldl map rev].
  rewrite <- app_assoc. cbn [app]. apply NoDup_cons in Hn as [Hid Hn]. apply Forall_cons in He as [Hx He].
  unfold is_expired in Hx. destruct (ts !! id) as [task|] eqn:E; [|done]. apply N.leb_le in Hx.
  destruct (tasks_ok_get _ _ _ _ Hts E) as (v & Hv & Hp & _). apply IH; [| |done|].
  - by apply (tasks_ok_remove ts h (LogAction height (DkgExecutorAction.Expire id))).
  - split; [|done]. cbn. exists v. by rewrite Hp.
  - apply Forall_forall. intros i Hi. rewrite Forall_forall in He. specialize (He i Hi). unfold is_expired in *.
    rewrite lookup_delete_ne; [done|]. intros <-. done.
Qed.

Lemma lookup_deletes (ids : list DkgTaskId) : forall (ts : gmap DkgTaskId DkgExecutionTask) id,
  foldl (fun ts id => delete id ts) ts ids !! id = if bool_decide (id ∈ ids) then None else ts !! id.
Proof.
  induction ids as [|i ids IH]; intros ts id; [by rewrite bool_decide_eq_false_2 by apply not_elem_of_nil|].
  cbn [foldl]. rewrite IH. destruct (decide (id ∈ ids)) as [Hin|Hin].
  - by rewrite !bool_decide_eq_true_2 by (done || (apply elem_of_cons; by right)).
  - rewrite (bool_decide_eq_false_2 (id ∈ ids)) by done. destruct (decide (i = id)) as [->|Hne].
    + rewrite lookup_delete, decide_True, bool_decide_eq_true_2 by (done || (apply elem_of_cons; by left)). done.
    + rewrite lookup_delete_ne, bool_decide_eq_false_2 by (done || (rewrite not_elem_of_cons; done)). done.
Qed.

Lemma actions_ok x h height limit : task_executor_ok x h -> log_ok h ->
  exists x' l, actions_with_preparation_limit x height limit = Some (x', l) /\
    task_executor_ok x' (rev (map (LogAction height) l) ++ h) /\ log_ok (rev (map (LogAction height) l) ++ h).
Proof.
  intros [Hts Ho Hn] Hlog. unfold actions_with_preparation_limit. cbv zeta.
  set (expired := filter (fun id => is_expired (tasks x) height id = true) (order x)).
  set (ts := foldl (fun ts id => delete id ts) (tasks x) expired). set (kept := filter (fun id => is_Some (ts !! id)) (order x)).
  assert (Hex : NoDup expired /\ Forall (fun id => is_expired (tasks x) height id = true) expired).
  { split; [by apply NoDup_filter|]. apply Forall_forall. by intros i [Hi _]%list_elem_of_filter. }
  destruct (expired_ok height expired (tasks x) h Hts Hlog (proj1 Hex) (proj2 Hex)) as [H1 H2]. fold ts in H1.
  destruct (start_actions_ok height limit kept ts _ 0 H1 H2) as (ts' & l & E & H3 & H4 & H5).
  { apply Forall_forall. intros id [[task Ht] Hid]%list_elem_of_filter. exists task. split; [done|].
    unfold ts in Ht. rewrite lookup_deletes in Ht. case_bool_decide as Hne; [done|].
    apply N.lt_nge. intros Hle. apply Hne. apply list_elem_of_filter. split; [|done]. unfold is_expired. rewrite Ht. by apply N.leb_le. }
  rewrite E. cbn [mbind option_bind]. exists (mkDkgTaskExecutor ts' kept), (map DkgExecutorAction.Expire expired ++ l).
  rewrite map_app, rev_app_distr, <- app_assoc, map_map. split_and!; [done| |done]. split; [done| |by apply NoDup_filter].
  intros id. cbn. rewrite H5. unfold kept. rewrite list_elem_of_filter. split; [by intros [? _]|]. intros Hs. split; [done|].
  apply Ho. unfold ts in Hs. rewrite lookup_deletes in Hs. case_bool_decide; [by destruct Hs|done].
Qed.

Lemma task_in_state_Ok x id expected task : task_in_state x id expected = Ok task ->
  tasks x !! id = Some task /\ expected (task_state task) = true.
Proof.
  intros H. unfold task_in_state in H. apply result_bind_Ok in H as (t & Ht & H). apply ok_or_Ok in Ht.
  destruct (expected (task_state t)) eqn:E; [|done]. by injection H as <-.
Qed.

Lemma executor_ok_task x h h' id task state : task_executor_ok x h -> tasks x !! id = Some task ->
  tasks_ok (<[id := mkDkgExecutionTask (task_plan task) state]> (tasks x)) h' -> task_executor_ok (set_task x id task state) h'.
Proof.
  intros [_ Ho Hn] E H. split; [done| |done]. intros i. cbn. rewrite Ho. destruct (decide (id = i)) as [<-|Hne].
  - by rewrite lookup_insert, decide_True, E by done.
  - by rewrite lookup_insert_ne.
Qed.

Lemma executor_ok_remove x h l : task_executor_ok x h -> move_view l (view h (log_id l)) = None ->
  task_executor_ok (remove_task x (log_id l)) (l :: h).
Proof.
  intros [Hts Ho Hn] Hv. split; [by apply tasks_ok_remove| |by apply NoDup_filter]. intros i. cbn. rewrite list_elem_of_filter, Ho.
  destruct (decide (log_id l = i)) as [<-|Hne].
  - rewrite lookup_delete, decide_True by done. split; [naive_solver|]. intros [? ?]. done.
  - rewrite lookup_delete_ne by done. naive_solver.
Qed.

Lemma enqueue_ok x h plan : task_executor_ok x h -> log_ok h ->
  exists x' h', exec_op x h (OpEnqueue plan) = Some (x', h') /\ task_executor_ok x' h' /\ log_ok h'.
Proof.
  intros Hx Hlog. pose proof Hx as [Hts Ho Hn]. cbn [exec_op enqueue]. cbv zeta. pose proof (Hts (task_id plan)) as Hid.
  destruct (tasks x !! task_id plan) as [task|] eqn:E; [by exists x, h|]. eexists _, _. split; [done|]. cbn in Hid.
  destruct (view h (task_id plan)) eqn:Ev; [done|]. split; [|by split]. split.
  - by apply (tasks_ok_push _ _ (LogQueued plan) _ (mkTaskView plan None None)).
  - intros i. cbn. rewrite elem_of_app, list_elem_of_singleton, Ho. destruct (decide (task_id plan = i)) as [<-|Hne].
    + rewrite lookup_insert, decide_True by done. naive_solver.
    + rewrite lookup_insert_ne by done. naive_solver.
  - cbn. apply NoDup_app. split_and!; [done| |apply NoDup_singleton]. intros i Hi ->%list_elem_of_singleton.
    apply Ho in Hi as [? ?]. congruence.
Qed.

Lemma prepared_ok x h id r : task_executor_ok x h -> log_ok h ->
  exists x' h', exec_op x h (OpPrepared id r) = Some (x', h') /\ task_executor_ok x' h' /\ log_ok h'.
Proof.
  intros Hx Hlog. cbn [exec_op]. unfold record_prepared. destruct (task_in_state x id is_preparing) as [task|e] eqn:E.
  2:{ exists x, h. by destruct r. }
  apply task_in_state_Ok in E as [Et Hst]. destruct (tasks_ok_get _ _ _ _ (ok_tasks _ _ Hx) Et) as (v & Hv & Hp & Hs).
  destruct (task_state task) eqn:Es; try done. destruct Hs as (Hc & Hsub & height & Hin).
  assert (Hun : task_executor_ok (set_task x id task DkgExecutionState.Unprepared) h).
  { eapply executor_ok_task; [done..|]. apply (tasks_ok_set _ _ _ _ v); [apply ok_tasks; done|done|]. by split. }
  destruct r as [calldata|error]; [|by eexists _, _].
  destruct (N.leb_spec 4 (lenN calldata)) as [Hl|]; [|by eexists _, _]. eexists _, _. split; [done|]. cbn [outcome_log app]. split.
  - eapply executor_ok_task; [done..|].
    apply (tasks_ok_push _ _ (LogPrepared id calldata) _ (mkTaskView (view_plan v) (Some calldata) (view_submission v)));
      [apply ok_tasks; done|cbn; by rewrite Hv|]. by split.
  - split; [|done]. cbn. split; [done|]. exists (task_plan task), height. split; [|done]. rewrite Hv. destruct v; cbn in *. by subst.
Qed.

Lemma submitted_ok x h id height r : task_executor_ok x h -> log_ok h ->
  exists x' h', exec_op x h (OpSubmitted id height r) = Some (x', h') /\ task_executor_ok x' h' /\ log_ok h'.
Proof.
  intros Hx Hlog. cbn [exec_op]. unfold record_submitted. destruct (task_in_state x id _) as [task|e] eqn:E; [|by exists x, h].
  apply task_in_state_Ok in E as [Et Hst]. destruct (tasks_ok_get _ _ _ _ (ok_tasks _ _ Hx) Et) as (v & Hv & Hp & Hs).
  apply bool_decide_eq_true in Hst as [calldata Hst]. rewrite Hst. destruct (task_state task) as [| | |c| |] eqn:Es; try done.
  injection Hst as ->. destruct Hs as (Hc & Hl & h0 & Hin). destruct r as [hash|error]; eexists _, _; (split; [done|]).
  - split.
    + eapply executor_ok_task; [done..|].
      apply (tasks_ok_push _ _ (LogSubmitted id height hash) _ (mkTaskView (view_plan v) (view_calldata v) (Some (height, hash))));
        [apply ok_tasks; done|cbn; by rewrite Hv|]. by split.
    + split; [|done]. cbn. by exists v, calldata, h0.
  - split; [|done]. eapply executor_ok_task; [done..|]. apply (tasks_ok_set _ _ _ _ v); [apply ok_tasks; done|done|]. by split.
Qed.

Lemma receipt_ok x h id r : task_executor_ok x h -> log_ok h ->
  exists x' h', exec_op x h (OpReceipt id r) = Some (x', h') /\ task_executor_ok x' h' /\ log_ok h'.
Proof.
  intros Hx Hlog. cbn [exec_op]. unfold record_receipt. destruct (task_in_state x id _) as [task|e] eqn:E; [|by exists x, h].
  apply task_in_state_Ok in E as [Et Hst]. destruct (tasks_ok_get _ _ _ _ (ok_tasks _ _ Hx) Et) as (v & Hv & Hp & Hs).
  apply bool_decide_eq_true in Hst as [[calldata hash] Hst]. rewrite Hst. destruct (task_state task) as [| | | | |c hs sent] eqn:Es; try done.
  injection Hst as -> ->. destruct Hs as (Hc & Hl & Hsub & Hck).
  assert (Hready : task_executor_ok (set_task x id task (DkgExecutionState.Ready calldata)) h).
  { eapply executor_ok_task; [done..|]. apply (tasks_ok_set _ _ _ _ v); [apply ok_tasks; done|done|]. by split. }
  destruct r as [[]|error]; eexists _, _; (split; [done|]); try done. split.
  - by apply (executor_ok_remove x h (LogConfirmed id hash)).
  - split; [|done]. cbn. by exists v, sent.
Qed.

Lemma retire_ok x h id : task_executor_ok x h -> log_ok h ->
  exists x' h', exec_op x h (OpRetire id) = Some (x', h') /\ task_executor_ok x' h' /\ log_ok h'.
Proof.
  intros Hx Hlog. cbn [exec_op]. unfold retire. destruct (tasks x !! id) as [task|] eqn:E; [|by exists x, h].
  destruct (tasks_ok_get _ _ _ _ (ok_tasks _ _ Hx) E) as (v & Hv & _). eexists _, _. split; [done|]. split.
  - by apply (executor_ok_remove x h (LogRetired id)).
  - split; [|done]. cbn. by rewrite Hv.
Qed.

Lemma exec_op_ok x h op : task_executor_ok x h -> log_ok h ->
  exists x' h', exec_op x h op = Some (x', h') /\ task_executor_ok x' h' /\ log_ok h'.
Proof.
  destruct op; [apply enqueue_ok| |apply prepared_ok|apply submitted_ok|apply receipt_ok|apply retire_ok]. intros Hx Hlog.
  destruct (actions_ok x h height max_preparations Hx Hlog) as (x' & l & E & H1 & H2). cbn [exec_op]. rewrite E. by eexists _, _.
Qed.

Lemma executor_default_ok : task_executor_ok executor_default [].
Proof.
  split; [|intros id; cbn; split; [by intros ?%not_elem_of_nil|by rewrite lookup_empty; intros []]|constructor].
  intros id. cbn. by rewrite lookup_empty.
Qed.

Lemma exec_ops_ok ops : forall x h, task_executor_ok x h -> log_ok h ->
  exists x' h', exec_ops x h ops = Some (x', h') /\ task_executor_ok x' h' /\ log_ok h'.
Proof.
  induction ops as [|op ops IH]; intros x h Hx Hlog; [by exists x, h|]. cbn [exec_ops].
  destruct (exec_op_ok x h op Hx Hlog) as (x' & h' & -> & Hx' & Hlog'). cbn [mbind option_bind]. by apply IH.
Qed.


(** ** Progress *)

(** Nothing outside is at work on the task, and no delay runs. *)
Definition is_idle (height : N) (s : DkgExecutionState) : bool :=
  match s with
  | DkgExecutionState.Unprepared | DkgExecutionState.Ready _ => true
  | DkgExecutionState.Submitted _ _ sent => saturating_add U64_MAX sent 3 <=? height
  | _ => false
  end.

Definition busy (height : N) (ts : gmap DkgTaskId DkgExecutionTask) (id : DkgTaskId) : Prop :=
  forall task, ts !! id = Some task -> is_idle height (task_state task) = false.

Lemma task_action_busy id task height : 
  match task_action id task height true with
  | Some (state, _) => is_idle height state = false
  | None => is_idle height (task_state task) = false
  end.
Proof. unfold task_action. destruct (task_state task) as [| | | |c hash sent|]; try done. cbn. by destruct (_ <=? height) eqn:E. Qed.

Lemma start_actions_busy height limit ids : forall ts n ts' l, start_actions ts height limit n ids = Some (ts', l) ->
  n + lenN ids <= limit ->
  (forall id, id ∈ ids \/ busy height ts id -> busy height ts' id).
Proof.
  induction ids as [|id ids IH]; intros ts n ts' l H Hn i Hi; cbn [start_actions] in H.
  { injection H as <- <-. destruct Hi as [Hi|Hi]; [by apply not_elem_of_nil in Hi|done]. }
  destruct (ts !! id) as [task|] eqn:E; [|done]. cbn [mbind option_bind] in H. unfold lenN in *. cbn [length] in Hn.
  rewrite (proj2 (N.ltb_lt n limit)) in H by lia. pose proof (task_action_busy id task height) as Hb.
  destruct (task_action id task height true) as [[state action]|] eqn:Ea.
  - destruct (start_actions _ _ _ _ ids) as [[ts1 l1]|] eqn:E1; [|done]. injection H as <- _.
    eapply IH; [exact E1|destruct (is_prepare action); lia|]. destruct (decide (id = i)) as [<-|Hne].
    + right. intros t. rewrite lookup_insert, decide_True by done. by intros [= <-].
    + destruct Hi as [[Hi|Hi]%elem_of_cons|Hi]; [done|by left|]. right. intros t. rewrite lookup_insert_ne by done. apply Hi.
  - eapply IH; [exact H|lia|]. destruct (decide (id = i)) as [<-|Hne].
    + right. intros t. rewrite E. by intros [= <-].
    + destruct Hi as [[Hi|Hi]%elem_of_cons|Hi]; [done|by left|by right].
Qed.

Lemma start_actions_plans height limit ids : forall ts n ts' l, start_actions ts height limit n ids = Some (ts', l) ->
  forall id, task_plan <$> ts' !! id = task_plan <$> ts !! id.
Proof.
  induction ids as [|i ids IH]; intros ts n ts' l H id; cbn [start_actions] in H; [by injection H as <- <-|].
  destruct (ts !! i) as [task|] eqn:E; [|done]. cbn [mbind option_bind] in H.
  destruct (task_action i task height _) as [[state action]|]; [|by eapply IH].
  destruct (start_actions _ _ _ _ ids) as [[ts1 l1]|] eqn:E1; [|done]. injection H as <- _. rewrite (IH _ _ _ _ E1).
  destruct (decide (i = id)) as [<-|Hne]; [by rewrite lookup_insert, decide_True, E by done|by rewrite lookup_insert_ne].
Qed.

(** C23. A heartbeat of a reachable queue with room for its preparations leaves no task idle and
    none past its deadline: each waits for the preparation, submission or receipt it asked for,
    or for the confirmation delay of its last submission. *)
Theorem executor_progress ops x h height limit x' l : exec_ops executor_default [] ops = Some (x, h) ->
  lenN (order x) <= limit -> actions_with_preparation_limit x height limit = Some (x', l) ->
  forall id task, tasks x' !! id = Some task -> height < plan_end_height (task_plan task) /\ is_idle height (task_state task) = false.
Proof.
  intros Hr Hl Ha id task Ht.
  destruct (exec_ops_ok ops _ _ executor_default_ok I) as (x0 & h0 & E0 & Hx & _). rewrite Hr in E0. injection E0 as <- <-.
  unfold actions_with_preparation_limit in Ha. cbv zeta in Ha.
  destruct (start_actions _ height limit 0 _) as [[ts acts]|] eqn:E; [|done]. injection Ha as <- _. cbn in Ht.
  pose proof (start_actions_plans _ _ _ _ _ _ _ E id) as Hp. rewrite Ht in Hp. cbn in Hp. rewrite lookup_deletes in Hp.
  case_bool_decide as Hne; [done|]. destruct (tasks x !! id) as [t0|] eqn:E0; [|done]. injection Hp as Hp.
  assert (Hid : id ∈ order x) by (apply (ok_order _ _ Hx); by rewrite E0). split.
  - rewrite Hp. apply N.lt_nge. intros Hle. apply Hne. apply list_elem_of_filter. split; [|done]. unfold is_expired. rewrite E0. by apply N.leb_le.
  - eapply (start_actions_busy _ _ _ _ _ _ _ E); [|left|exact Ht].
    + match goal with |- context [filter ?P (order x)] => pose proof (length_filter P (order x)) end. unfold lenN in *. lia.
    + apply list_elem_of_filter. split; [|done]. rewrite lookup_deletes, bool_decide_eq_false_2, E0 by done. done.
Qed.

Module ExecutorWitness.
Definition plan : DkgTaskPlan := mkDkgTaskPlan 2 MethodShare 3 81 90 [].
Definition id : DkgTaskId := task_id plan.
Definition call : bytes := [x01; x02; x03; x04].

(** The first transaction is not found in time; the second one is. *)
Definition retried : list ExecutorOp :=
  [OpEnqueue plan; OpActions 81 1; OpPrepared id (Ok call); OpActions 81 1; OpSubmitted id 81 (Ok [xaa]); OpActions 84 1;
   OpReceipt id (Ok Missing); OpActions 84 1; OpSubmitted id 84 (Ok [xbb])].

Definition queue : DkgTaskExecutor := match exec_ops executor_default [] retried with Some (x, _) => x | None => executor_default end.
Definition log : list ExecutorLog := match exec_ops executor_default [] retried with Some (_, h) => h | None => [] end.

Lemma retried_run : exec_ops executor_default [] retried = Some (queue, log).
Proof. by vm_compute. Qed.

Definition stepped : DkgTaskExecutor * list DkgExecutorAction := default (queue, []) (actions_with_preparation_limit queue 87 1).

Lemma stepped_run : actions_with_preparation_limit queue 87 1 = Some (stepped.1, stepped.2).
Proof. by vm_compute. Qed.

Definition checking : DkgExecutionTask := mkDkgExecutionTask plan (DkgExecutionState.Checking call [xbb] 84).

Lemma executor_progress_witness : 87 < plan_end_height (task_plan checking) /\ is_idle 87 (task_state checking) = false.
Proof. apply (executor_progress retried queue log 87 1 stepped.1 stepped.2 retried_run ltac:(by vm_compute) stepped_run id). by vm_compute. Defined.

(** The retry carries the same call data; the receipt of the second transaction confirms. *)
Example retried_submissions :
  omap (fun l => match l with LogAction h (DkgExecutorAction.Submit _ _ c) => Some (h, c) | _ => None end) log = [(84, call); (81, call)].
Proof. by vm_compute. Qed.

Example retried_confirmed :
  (snd <$> exec_ops executor_default [] (retried ++ [OpActions 87 1; OpReceipt id (Ok Succeeded)])) ≫= head = Some (LogConfirmed id [xbb]).
Proof. by vm_compute. Qed.
End ExecutorWitness.
