(* ===== verification/DkgMaterial.v ===== *)
(** The contract calls of the key-generation tasks: secret material from the key store
    (crates/neox/node/src/dkg_material.rs), the checks around the external prover
    (crates/neox/node/src/dkg_prover.rs) and the call data (crates/neox/node/src/dkg_call.rs). *)

From S2P Require Import Prelude Extern Instances Tpke DkgParams Lagrange Dkg Pvss DkgState Storage DkgStorage DkgTask DkgExecutor.
From S2P Require Import Threshold ModelThreshold DkgReplay ModelDkg.

(** ** Contract calls *)

Record DkgGroth16Proof : Type := mkDkgGroth16Proof {
  proof : list U256;
  proof_commitments : list U256;
  commitment_pok : list U256;
}.

Module DkgContractCall.
Inductive t : Type :=
| Share (pvss : bytes) (messages : list bytes)
| Reshare (pvss : bytes) (messages : list bytes)
| Recover (indices : list N) (messages : list bytes)
| ReshareRecovered (pvss : bytes) (messages : list bytes).
End DkgContractCall.
Notation DkgContractCall := DkgContractCall.t.

Inductive DkgContractCallError : Type :=
| CallUnsupportedZkVersion (version : N)
| CallMissingProof
| CallUnexpectedProof
| CallInvalidPvssLength (length : N)
| CallInvalidMessageCount (method : DkgContractMethod) (expected actual : N)
| CallInvalidMessageLength (method : DkgContractMethod) (index actual : N)
| CallInvalidRecoveryCount (count : N)
| CallRecoveryArrayMismatch (indices messages : N)
| CallInvalidRecoveryIndex (index : N).

(** The arguments of a Solidity call, and alloy's encoder of a call by its signature. *)
Inductive SolValue : Type :=
| SolBytes (b : bytes)
| SolBytesArray (l : list bytes)
| SolUintArray (l : list U256)
| SolUints (l : list U256).

Class SolAbi : Type := { abi_encode_call : string -> list SolValue -> bytes }.

(** The selector is part of the encoding. *)
Class SolAbiLaws (A : SolAbi) : Prop := { abi_encode_selector signature args : 4 <= lenN (abi_encode_call signature args) }.

(** [DkgContractCall::method] *)
Definition call_method (c : DkgContractCall) : DkgContractMethod :=
  match c with
  | DkgContractCall.Share _ _ => MethodShare
  | DkgContractCall.Reshare _ _ => MethodReshare
  | DkgContractCall.Recover _ _ => MethodRecover
  | DkgContractCall.ReshareRecovered _ _ => MethodReshareRecovered
  end.

Fixpoint validate_message_lengths (method : DkgContractMethod) (index : N) (messages : list bytes)
    : result DkgContractCallError unit :=
  match messages with
  | [] => Ok tt
  | message :: rest =>
      if negb (lenN message =? NEOX_DKG_MESSAGE_LEN) then Err (CallInvalidMessageLength method index (lenN message))
      else validate_message_lengths method (index + 1) rest
  end.

Fixpoint validate_call_indices (parameters : DkgParameters) (indices : list N) : result DkgContractCallError unit :=
  match indices with
  | [] => Ok tt
  | index :: rest =>
      if (index =? 0) || (participants parameters <? index) then Err (CallInvalidRecoveryIndex index)
      else validate_call_indices parameters rest
  end.

(** [DkgContractCall::validate] *)
Definition call_validate (c : DkgContractCall) (parameters : DkgParameters) : result DkgContractCallError unit :=
  match c with
  | DkgContractCall.Share pvss messages | DkgContractCall.Reshare pvss messages
  | DkgContractCall.ReshareRecovered pvss messages =>
      if negb (lenN pvss =? pvss_len parameters) then Err (CallInvalidPvssLength (lenN pvss))
      else if negb (lenN messages =? participants parameters)
      then Err (CallInvalidMessageCount (call_method c) (participants parameters) (lenN messages))
      else validate_message_lengths (call_method c) 0 messages
  | DkgContractCall.Recover indices messages =>
      let recovery_limit := participants parameters - threshold parameters in
      if (lenN indices <? 1) || (recovery_limit <? lenN indices) then Err (CallInvalidRecoveryCount (lenN indices))
      else if negb (lenN indices =? lenN messages) then Err (CallRecoveryArrayMismatch (lenN indices) (lenN messages))
      else
        let? _ := validate_call_indices parameters indices in
        validate_message_lengths (call_method c) 0 messages
  end.

Section call.
Context {A : SolAbi}.

Definition call_values (c : DkgContractCall) : list SolValue :=
  match c with
  | DkgContractCall.Share pvss messages | DkgContractCall.Reshare pvss messages
  | DkgContractCall.ReshareRecovered pvss messages => [SolBytes pvss; SolBytesArray messages]
  | DkgContractCall.Recover indices messages => [SolUintArray indices; SolBytesArray messages]
  end.

Definition encode_v0 (c : DkgContractCall) : bytes :=
  abi_encode_call
    match c with
    | DkgContractCall.Share _ _ => "share(bytes,bytes[])"
    | DkgContractCall.Reshare _ _ => "reshare(bytes,bytes[])"
    | DkgContractCall.Recover _ _ => "recover(uint256[],bytes[])"
    | DkgContractCall.ReshareRecovered _ _ => "reshareRecovered(bytes,bytes[])"
    end (call_values c).

Definition encode_v1 (c : DkgContractCall) (p : DkgGroth16Proof) : bytes :=
  abi_encode_call
    match c with
    | DkgContractCall.Share _ _ => "share(bytes,bytes[],uint256[8],uint256[2],uint256[2])"
    | DkgContractCall.Reshare _ _ => "reshare(bytes,bytes[],uint256[8],uint256[2],uint256[2])"
    | DkgContractCall.Recover _ _ => "recover(uint256[],bytes[],uint256[8],uint256[2],uint256[2])"
    | DkgContractCall.ReshareRecovered _ _ => "reshareRecovered(bytes,bytes[],uint256[8],uint256[2],uint256[2])"
    end (call_values c ++ [SolUints (proof p); SolUints (proof_commitments p); SolUints (commitment_pok p)]).

Definition abi_encode_with_parameters (c : DkgContractCall) (zk_version : N) (p : option DkgGroth16Proof)
    (parameters : DkgParameters) : result DkgContractCallError bytes :=
  let? _ := call_validate c parameters in
  match zk_version, p with
  | 0, None => Ok (encode_v0 c)
  | 0, Some _ => Err CallUnexpectedProof
  | 1, Some p => Ok (encode_v1 c p)
  | 1, None => Err CallMissingProof
  | version, _ => Err (CallUnsupportedZkVersion version)
  end.
End call.

(** ** The version getter *)

Inductive DkgZkVersionStateError : Type :=
| ZkExecution (error : string)
| ZkReverted (output : bytes)
| ZkHalted (reason : string)
| ZkInvalidOutputLength (length : N)
| ZkOverflow.

(** The result of the call, from the EVM. *)
Inductive GetterResult : Type :=
| GetterSuccess (output : bytes)
| GetterRevert (output : bytes)
| GetterHalt (reason : string).

Definition decode_dkg_zk_version (output : bytes) : result DkgZkVersionStateError N :=
  match output with
  | [] => Ok 0
  | _ =>
      if negb (lenN output =? 32) then Err (ZkInvalidOutputLength (lenN output))
      else if U64_MAX <? N_of_be output then Err ZkOverflow else Ok (N_of_be output)
  end.

Definition read_dkg_zk_version_at_state (executed : result string GetterResult) : result DkgZkVersionStateError N :=
  let? r := map_err ZkExecution executed in
  match r with
  | GetterSuccess output => decode_dkg_zk_version output
  | GetterRevert [] => Ok 0
  | GetterRevert output => Err (ZkReverted output)
  | GetterHalt reason => Err (ZkHalted reason)
  end.

(** ** The prover's boundary *)

Module DkgProverError.
Inductive t : Type :=
| InputCountMismatch (public_keys shares : N)
| UnsupportedZkVersion (version : N)
| UnsupportedMessageCount (count : N)
| MissingArtifacts
| InvalidShareScalar
(** the request, the process and its supervision *)
| Process (error : string)
| OutputTooLarge (stream : string)
| Failed (code : option N) (stderr : bytes)
| ResponseDecoding (error : string)
| ProtocolVersion (version : N)
| ResponseMessageCount (expected actual : N)
| InvalidHexLength (name : string) (index expected : N)
| InvalidHex (name : string) (index : N)
| UnexpectedProof
| MissingProof.
End DkgProverError.
Notation DkgProverError := DkgProverError.t.

Definition PROVER_PROTOCOL_VERSION : N := 1.
Definition MAX_PROVER_STDOUT_BYTES : N := 256 * 1024.
Definition MAX_PROVER_STDERR_BYTES : N := 16 * 1024.

(** [DkgShareScalar::new] *)
Definition share_scalar_new (encoded : bytes) : result DkgProverError bytes :=
  if forallb (fun b => Byte.to_N b =? 0) encoded || (BLS12_381_SCALAR_MODULUS <=? N_of_be encoded)
  then Err DkgProverError.InvalidShareScalar else Ok encoded.

Record DkgProverOutput : Type := mkDkgProverOutput {
  output_messages : list bytes;
  output_proof : option DkgGroth16Proof;
}.

(** The response of the helper; strings are their bytes. *)
Record ProverProof : Type := mkProverProof {
  raw_proof : list bytes;
  raw_commitments : list bytes;
  raw_commitment_pok : list bytes;
}.

Record ProverResponse : Type := mkProverResponse {
  protocol_version : N;
  response_messages : list bytes;
  response_proof : option ProverProof;
}.

Record RawProverOutput : Type := mkRawProverOutput {
  status_success : bool;
  status_code : option N;
  stdout : bytes;
  stderr : bytes;
}.

(** The artifacts of one message count. *)
Record DkgProofArtifact : Type := mkDkgProofArtifact { r1cs : string * B256; proving_key : string * B256 }.
Record DkgProverArtifacts : Type := mkDkgProverArtifacts { one : DkgProofArtifact; two : DkgProofArtifact; seven : DkgProofArtifact }.

Record ProverRequest : Type := mkProverRequest {
  request_zk_version : N;
  request_sender : Address;
  request_public_keys : list bytes;
  request_shares : list bytes;
  request_artifact : option DkgProofArtifact;
}.

(** The helper process, the JSON of its response and the decoder of hexadecimal digits. *)
Class ProverHost : Type := {
  invoke : ProverRequest -> result DkgProverError RawProverOutput;
  response_from_slice : bytes -> result string ProverResponse;
  (** [hex::decode_to_slice] into so many bytes *)
  decode_to_slice : nat -> bytes -> option bytes;
}.

Class ProverHostLaws (H : ProverHost) : Prop := {
  decode_to_slice_length n s b : decode_to_slice n s = Some b -> length b = n;
}.

Definition for_message_count (a : DkgProverArtifacts) (count : N) : result DkgProverError DkgProofArtifact :=
  match count with
  | 1 => Ok (one a)
  | 2 => Ok (two a)
  | 7 => Ok (seven a)
  | count => Err (DkgProverError.UnsupportedMessageCount count)
  end.

Definition validate_message_count (method : DkgContractMethod) (zk_version count : N) : result DkgProverError unit :=
  if (count =? 0) || (256 <? count) then Err (DkgProverError.UnsupportedMessageCount count)
  else if zk_version =? 1 then
    let supported :=
      match method with
      | MethodShare | MethodReshare | MethodReshareRecovered => count =? 7
      | MethodRecover => (count =? 1) || (count =? 2)
      end in
    if negb supported then Err (DkgProverError.UnsupportedMessageCount count) else Ok tt
  else Ok tt.

Section prover.
Context {H : ProverHost}.

Definition HEX_PREFIX : bytes := [x30; x78].

Definition decode_fixed_hex (n : nat) (name : string) (index : N) (encoded : bytes) : result DkgProverError bytes :=
  let raw := if bool_decide (take 2 encoded = HEX_PREFIX) then drop 2 encoded else encoded in
  if negb (length raw =? n * 2)%nat then Err (DkgProverError.InvalidHexLength name index (N.of_nat n))
  else ok_or (decode_to_slice n raw) (DkgProverError.InvalidHex name index).

Fixpoint decode_each (n : nat) (name : string) (index : N) (l : list bytes) : result DkgProverError (list bytes) :=
  match l with
  | [] => Ok []
  | encoded :: rest =>
      let? b := decode_fixed_hex n name index encoded in
      let? bs := decode_each n name (index + 1) rest in
      Ok (b :: bs)
  end.

Definition decode_u256_array (name : string) (l : list bytes) : result DkgProverError (list U256) :=
  let? words := decode_each 32 name 0 l in Ok (map N_of_be words).

Definition decode_output (zk_version message_count : N) (output : RawProverOutput) : result DkgProverError DkgProverOutput :=
  if MAX_PROVER_STDOUT_BYTES <? lenN (stdout output) then Err (DkgProverError.OutputTooLarge "stdout")
  else if MAX_PROVER_STDERR_BYTES <? lenN (stderr output) then Err (DkgProverError.OutputTooLarge "stderr")
  else if negb (status_success output) then Err (DkgProverError.Failed (status_code output) (stderr output))
  else
    let? response := map_err DkgProverError.ResponseDecoding (response_from_slice (stdout output)) in
    if negb (protocol_version response =? PROVER_PROTOCOL_VERSION)
    then Err (DkgProverError.ProtocolVersion (protocol_version response))
    else if negb (lenN (response_messages response) =? message_count)
    then Err (DkgProverError.ResponseMessageCount message_count (lenN (response_messages response)))
    else
      let? messages := decode_each (N.to_nat NEOX_DKG_MESSAGE_LEN) "message" 0 (response_messages response) in
      let? p :=
        match zk_version, response_proof response with
        | 0, None => Ok None
        | 0, Some _ => Err DkgProverError.UnexpectedProof
        | 1, None => Err DkgProverError.MissingProof
        | 1, Some p =>
            let? proof := decode_u256_array "proof" (raw_proof p) in
            let? commitments := decode_u256_array "commitment" (raw_commitments p) in
            let? pok := decode_u256_array "commitment POK" (raw_commitment_pok p) in
            Ok (Some (mkDkgGroth16Proof proof commitments pok))
        | version, _ => Err (DkgProverError.UnsupportedZkVersion version)
        end in
      Ok (mkDkgProverOutput messages p).

(** [DkgProver::prepare] *)
Definition prover_prepare (artifacts : option DkgProverArtifacts) (sender : Address) (method : DkgContractMethod)
    (zk_version : N) (public_keys shares : list bytes) : result DkgProverError DkgProverOutput :=
  if negb (lenN public_keys =? lenN shares) then Err (DkgProverError.InputCountMismatch (lenN public_keys) (lenN shares))
  else if negb ((zk_version =? 0) || (zk_version =? 1)) then Err (DkgProverError.UnsupportedZkVersion zk_version)
  else
    let? _ := validate_message_count method zk_version (lenN shares) in
    let? artifact :=
      if zk_version =? 0 then Ok None
      else
        let? artifacts := ok_or artifacts DkgProverError.MissingArtifacts in
        let? artifact := for_message_count artifacts (lenN shares) in
        Ok (Some artifact) in
    let? output := invoke (mkProverRequest zk_version sender public_keys shares artifact) in
    decode_output zk_version (lenN shares) output.
End prover.

(** ** Task material *)

Module PreparationError.
Inductive t : Type :=
| UnboundKeyStore
| ValidatorMismatch (expected actual : Address)
| RoundOverflow
| RoundMismatch (store_round task_round : N)
| InvalidRecipientIndex (index : N)
| InvalidRecipientPublicKey (index : N)
| RecipientOrderMismatch (expected actual : list N)
| KeyStore (error : KeyStoreError)
| Prover (error : DkgProverError)
| ContractCall (error : DkgContractCallError)
(** [expect] of a scalar that the prover refuses *)
| Panicked.
End PreparationError.
Notation PreparationError := PreparationError.t.

Record DkgRecipient : Type := mkDkgRecipient {
  recipient : N;
  recipient_public_key : bytes;
}.

Module DkgTaskKind.
Inductive t : Type :=
| Share (pvss : bytes)
| Reshare (pvss : bytes)
| Recover (indices : list N)
| ReshareRecovered (pvss : bytes).
End DkgTaskKind.
Notation DkgTaskKind := DkgTaskKind.t.

(** [DkgTaskKind::method] *)
Definition kind_method (k : DkgTaskKind) : DkgContractMethod :=
  match k with
  | DkgTaskKind.Share _ => MethodShare
  | DkgTaskKind.Reshare _ => MethodReshare
  | DkgTaskKind.Recover _ => MethodRecover
  | DkgTaskKind.ReshareRecovered _ => MethodReshareRecovered
  end.

Record DkgTaskMaterial : Type := mkDkgTaskMaterial {
  task_parameters : DkgParameters;
  task_round : N;
  task_kind : DkgTaskKind;
  task_sender : Address;
  task_recipients : list DkgRecipient;
  task_shares : list bytes;
  must_persist_store : bool;
}.

Section material.
Context {B : Blst} {Z : Ecies} {Sy : Symmetric}.

(** [DkgRecipient::new_with_parameters] *)
Definition recipient_new (index : N) (public_key : bytes) (parameters : DkgParameters) : result PreparationError DkgRecipient :=
  if (index =? 0) || (participants parameters <? index) then Err (PreparationError.InvalidRecipientIndex index)
  else
    let? _ := ok_or (public_from_sec1_bytes public_key) (PreparationError.InvalidRecipientPublicKey index) in
    Ok (mkDkgRecipient index public_key).

Definition validate_full_recipient_order (recipients : list DkgRecipient) (parameters : DkgParameters)
    : result PreparationError unit :=
  let expected := indices_of parameters in
  let actual := map recipient recipients in
  if negb (bool_decide (actual = expected)) then Err (PreparationError.RecipientOrderMismatch expected actual) else Ok tt.

Definition validate_recipients (plan : DkgTaskPlan) (recipients : list DkgRecipient) (parameters : DkgParameters)
    : result PreparationError unit :=
  match plan_method plan with
  | MethodRecover =>
      let expected := plan_recovery_indices plan in
      let actual := map recipient recipients in
      if negb (bool_decide (actual = expected)) then Err (PreparationError.RecipientOrderMismatch expected actual) else Ok tt
  | _ => validate_full_recipient_order recipients parameters
  end.

(** [DkgShareScalar::from] on every share. *)
Definition share_scalars (shares : list bytes) : result PreparationError (list bytes) :=
  collect_result (fun s => map_err (fun _ => PreparationError.Panicked) (share_scalar_new s)) shares.

Definition pvss_parts (m : DkgPvssMaterial) : result PreparationError (bytes * list bytes) :=
  let? shares := share_scalars (material_shares m) in Ok (material_encoded m, shares).

(** The checks of the store and the plan. *)
Definition validate_task (s : DkgKeyStore) (sender : Address) (plan : DkgTaskPlan) (recipients : list DkgRecipient)
    : result PreparationError unit :=
  let? bound := ok_or (validator_address s) PreparationError.UnboundKeyStore in
  if negb (bool_decide (bound = sender)) then Err (PreparationError.ValidatorMismatch bound sender)
  else
    let? expected_round := ok_or (checked_add U64_MAX (store_round s) 1) PreparationError.RoundOverflow in
    if negb (plan_round plan =? expected_round) then Err (PreparationError.RoundMismatch (store_round s) (plan_round plan))
    else validate_recipients plan recipients (store_parameters s).

Definition generate_dkg_task_material (s : DkgKeyStore) (fuel : nat) (rng rng' : Draws) (sender : Address) (chain_id : N)
    (plan : DkgTaskPlan) (recipients : list DkgRecipient) : DkgKeyStore * result PreparationError DkgTaskMaterial :=
  match validate_task s sender plan recipients with
  | Err e => (s, Err e)
  | Ok _ =>
      let finish kind shares persist :=
        mkDkgTaskMaterial (store_parameters s) (plan_round plan) kind sender recipients shares persist in
      match plan_method plan with
      | MethodShare =>
          let '(s, m) := prepare_share s fuel chain_id rng in
          (s, let? m := map_err PreparationError.KeyStore m in
              let? (pvss, shares) := pvss_parts m in Ok (finish (DkgTaskKind.Share pvss) shares true))
      | MethodReshare =>
          (s, let? m := map_err PreparationError.KeyStore (prepare_reshare s rng rng') in
              let? (pvss, shares) := pvss_parts m in Ok (finish (DkgTaskKind.Reshare pvss) shares false))
      | MethodRecover =>
          (s, let? shares := map_err PreparationError.KeyStore (prepare_recovery s (plan_recovery_indices plan)) in
              let? shares := share_scalars shares in
              Ok (finish (DkgTaskKind.Recover (plan_recovery_indices plan)) shares false))
      | MethodReshareRecovered =>
          let '(s, m) := prepare_recovered_reshare s rng rng' in
          (s, let? m := map_err PreparationError.KeyStore m in
              let? (pvss, shares) := pvss_parts m in Ok (finish (DkgTaskKind.ReshareRecovered pvss) shares true))
      end
  end.
End material.

Section proving.
Context {A : SolAbi} {H : ProverHost}.

Definition encode_dkg_task_output (m : DkgTaskMaterial) (zk_version : N) (output : DkgProverOutput)
    : result PreparationError bytes :=
  let messages := output_messages output in
  let call :=
    match task_kind m with
    | DkgTaskKind.Share pvss => DkgContractCall.Share pvss messages
    | DkgTaskKind.Reshare pvss => DkgContractCall.Reshare pvss messages
    | DkgTaskKind.Recover indices => DkgContractCall.Recover indices messages
    | DkgTaskKind.ReshareRecovered pvss => DkgContractCall.ReshareRecovered pvss messages
    end in
  map_err PreparationError.ContractCall (abi_encode_with_parameters call zk_version (output_proof output) (task_parameters m)).

Definition prove_dkg_task_material (artifacts : option DkgProverArtifacts) (zk_version : N) (m : DkgTaskMaterial)
    : result PreparationError bytes :=
  let? output :=
    map_err PreparationError.Prover
      (prover_prepare artifacts (task_sender m) (kind_method (task_kind m)) zk_version
         (map recipient_public_key (task_recipients m)) (task_shares m)) in
  encode_dkg_task_output m zk_version output.
End proving.

(** ** What the material is worth *)

Section facts.
Context {B : Blst} {Z : Ecies} {Sy : Symmetric} {L : FieldLaws B} {G : GroupLaws B}.

Lemma zero_bytes b : forallb (fun b => Byte.to_N b =? 0) b = true -> N_of_be b = 0.
Proof.
  intros H. induction b as [|x b IH] using rev_ind; [done|]. rewrite forallb_app in H. apply andb_true_iff in H as [Hb Hx].
  rewrite N_of_be_snoc, (IH Hb). cbn in Hx. rewrite andb_true_r in Hx. apply N.eqb_eq in Hx. lia.
Qed.

Lemma valid_scalar s : valid_secret s -> share_scalar_new s = Ok s.
Proof.
  intros H. apply secret_new_Ok in H as [_ H]. unfold share_scalar_new. destruct (forallb _ s) eqn:E; [apply zero_bytes in E; lia|].
  cbn [orb]. destruct (N.leb_spec BLS12_381_SCALAR_MODULUS (N_of_be s)); [lia|done].
Qed.

Lemma valid_scalars l : Forall valid_secret l -> share_scalars l = Ok l.
Proof.
  intros H. unfold share_scalars. apply collect_result_Ok. apply Forall_Forall2_diag. eapply Forall_impl; [exact H|].
  intros s Hs. cbn. by rewrite valid_scalar.
Qed.

(** An announcement with the shares it commits to, in the order of the members. *)
Definition announces (d : DkgParameters) (pvss : bytes) (shares : list bytes) : Prop :=
  lenN shares = participants d /\ lenN pvss = pvss_len d /\ Forall valid_secret shares /\
  exists decoded, decode_with_parameters pvss d = Ok decoded /\
    forall k share, shares !! k = Some share -> verify_share decoded (N.of_nat k + 1) share = Ok tt.

Lemma generated_material n d p rng m : dkg_parameters_new n = Ok d -> valid_polynomial d p -> generate_pvss p rng = Ok m ->
  announces d (material_encoded m) (material_shares m).
Proof.
  intros Hd (<- & Hl & Hcs) H. apply threshold_positive in Hd as [Ht _].
  assert (Hne : coefficients p <> []) by (intros E; rewrite E in Hl; cbn in Hl; lia).
  unfold generate_pvss in H. apply result_bind_Ok in H as ([r rng'] & Hr & H). apply secret_random_valid in Hr.
  destruct (generate_decodes p r m Hne Hl Hcs Hr H) as (Hdec & Hn & Hsh). split_and!.
  - unfold lenN. lia.
  - unfold decode_with_parameters in Hdec. destruct (N.eqb_spec (lenN (material_encoded m)) (pvss_len (poly_parameters p))); done.
  - by eapply shares_of_secrets.
  - eexists. split; [exact Hdec|]. intros k share. by apply opened_verify_share.
Qed.

Lemma renovated_poly d p rng p' : (1 <= threshold d)%N -> valid_polynomial d p -> poly_renovate p rng = Ok p' -> valid_polynomial d p'.
Proof.
  intros Ht (<- & Hl & Hcs) H. unfold poly_renovate in H. apply result_bind_Ok in H as (c & Hc & H). apply ok_or_Ok in Hc.
  apply result_bind_Ok in H as ([rest rng'] & Hr & [= <-]). apply secrets_random_valid in Hr as [Hn Hv].
  split_and!; [done|cbn; lia|]. constructor; [|done]. rewrite Forall_forall in Hcs. apply Hcs.
  destruct (coefficients p); [done|]. injection Hc as ->. apply elem_of_cons. by left.
Qed.

Lemma prepared_share_material s fuel chain_id rng s' m : store_wf s -> prepare_share s fuel chain_id rng = (s', Ok m) ->
  announces (store_parameters s) (material_encoded m) (material_shares m).
Proof.
  intros Hs H. destruct (wf_parameters s Hs) as [n Hd]. unfold prepare_share in H. cbv zeta in H.
  destruct (result_bind _ _) as [[[p material] g]|] eqn:E; [|done]. injection H as _ <-.
  apply result_bind_Ok in E as (round & _ & E). apply result_bind_Ok in E as (p' & Hp & E). apply map_err_Ok, deterministic_poly in Hp.
  apply result_bind_Ok in E as (m' & Hm & E). apply map_err_Ok in Hm. apply result_bind_Ok in E as (g' & _ & [= <- <- <-]).
  by eapply generated_material.
Qed.

Lemma prepared_reshare_material s rng rng' m : store_wf s -> prepare_reshare s rng rng' = Ok m ->
  announces (store_parameters s) (material_encoded m) (material_shares m).
Proof.
  intros Hs H. destruct (wf_parameters s Hs) as [n Hd]. unfold prepare_reshare in H. destruct (negb _); [done|].
  apply result_bind_Ok in H as (p & Hp & H). apply ok_or_Ok in Hp. apply map_err_Ok in H. apply result_bind_Ok in H as (p' & Hp' & H).
  destruct (shared s) as [g|] eqn:Eg; [|done]. destruct (wf_shared s Hs g Eg) as (_ & _ & _ & Hls & _).
  pose proof (threshold_positive n _ Hd) as [Ht _]. eapply generated_material; [exact Hd| |exact H]. eapply renovated_poly; [lia|by apply Hls|exact Hp'].
Qed.

Lemma prepared_recovered_material s rng rng' s' m : store_wf s -> prepare_recovered_reshare s rng rng' = (s', Ok m) ->
  announces (store_parameters s) (material_encoded m) (material_shares m).
Proof.
  intros Hs H. destruct (wf_parameters s Hs) as [n Hd]. unfold prepare_recovered_reshare in H. cbv zeta in H.
  destruct (result_bind _ _) as [[[g p] material]|] eqn:E; [|done]. injection H as _ <-.
  apply result_bind_Ok in E as (g' & _ & E). destruct (_ <? _); [done|].
  apply result_bind_Ok in E as (p' & Hp & E). apply map_err_Ok, recovered_poly in Hp. apply result_bind_Ok in E as (m' & Hm & [= _ <- <-]).
  apply map_err_Ok in Hm. by eapply generated_material.
Qed.

(** The recovery shares of members that may be recovered. *)
Definition recovers (d : DkgParameters) (indices : list N) (shares : list bytes) : Prop :=
  1 <= lenN indices <= participants d - threshold d /\ lenN shares = lenN indices /\ Forall valid_secret shares /\
  Forall (fun i => 1 <= i <= participants d) indices.

Lemma prepared_recovery_material s indices shares : store_wf s -> prepare_recovery s indices = Ok shares ->
  recovers (store_parameters s) indices shares.
Proof.
  intros Hs H. unfold prepare_recovery, validate_recovery_indices in H. cbv zeta in H. apply result_bind_Ok in H as ([] & Hv & H).
  destruct (N.ltb_spec (lenN indices) 1); [done|]. destruct (N.ltb_spec (participants (store_parameters s) - threshold (store_parameters s)) (lenN indices)); [done|].
  cbn [orb] in Hv. apply validated_each in Hv. apply result_bind_Ok in H as (g & Hg & H). apply ok_or_Ok in Hg.
  apply collect_result_Ok in H. apply Forall2_length in H as Hl. split_and!; [lia|lia|unfold lenN; lia| |done].
  destruct (wf_shared s Hs g Hg) as (_ & Hrec & _). apply Forall_lookup. intros k share Hk.
  destruct (Forall2_lookup_r _ _ _ _ _ H Hk) as (i & _ & E). apply result_bind_Ok in E as (slot & Hslot & E). apply ok_or_Ok in Hslot, E.
  subst slot. by eapply Hrec.
Qed.

(** The material of a task: the recipients in the order of the shares. *)
Definition task_material_ok (plan : DkgTaskPlan) (recipients : list DkgRecipient) (m : DkgTaskMaterial) : Prop :=
  kind_method (task_kind m) = plan_method plan /\ task_round m = plan_round plan /\ task_recipients m = recipients /\
  match task_kind m with
  | DkgTaskKind.Recover indices =>
      map recipient recipients = indices /\ recovers (task_parameters m) indices (task_shares m)
  | DkgTaskKind.Share pvss | DkgTaskKind.Reshare pvss | DkgTaskKind.ReshareRecovered pvss =>
      map recipient recipients = indices_of (task_parameters m) /\ announces (task_parameters m) pvss (task_shares m)
  end.

Lemma pvss_parts_ok d m : announces d (material_encoded m) (material_shares m) -> pvss_parts m = Ok (material_encoded m, material_shares m).
Proof. intros (_ & _ & Hv & _). unfold pvss_parts. by rewrite valid_scalars. Qed.

Lemma validated_order plan recipients d : validate_recipients plan recipients d = Ok tt ->
  map recipient recipients = match plan_method plan with MethodRecover => plan_recovery_indices plan | _ => indices_of d end.
Proof.
  unfold validate_recipients, validate_full_recipient_order. cbv zeta. by destruct (plan_method plan); case_bool_decide.
Qed.

(** Material is generated without a panic, from a store that stays well formed and changes only
    when the material asks for it to be persisted; its announcement opens to the shares, each for the
    recipient at its place. *)
Lemma generated_task_material s fuel rng rng' sender chain_id plan recipients s' r : store_wf s ->
  generate_dkg_task_material s fuel rng rng' sender chain_id plan recipients = (s', r) ->
  store_wf s' /\ r <> Err PreparationError.Panicked /\
  forall m, r = Ok m -> (must_persist_store m = false -> s' = s) /\ task_material_ok plan recipients m.
Proof.
  intros Hs H. unfold generate_dkg_task_material in H. cbv zeta in H. destruct (validate_task s sender plan recipients) as [u|e] eqn:E.
  2:{ injection H as <- <-. split_and!; [done| |done]. intros [= ->]. unfold validate_task in E.
      destruct (validator_address s); cbn in E; [|done]. case_bool_decide; cbn in E; [|done]. destruct (checked_add _ _ _); cbn in E; [|done].
      destruct (negb _); [done|]. unfold validate_recipients, validate_full_recipient_order in E. cbv zeta in E.
      by destruct (plan_method plan); case_bool_decide. }
  assert (Ho : map recipient recipients = match plan_method plan with MethodRecover => plan_recovery_indices plan | _ => indices_of (store_parameters s) end).
  { apply validated_order. unfold validate_task in E. apply result_bind_Ok in E as (? & _ & E). destruct (negb _); [done|].
    apply result_bind_Ok in E as (? & _ & E). destruct (negb _); [done|]. by destruct u. }
  unfold task_material_ok. destruct (plan_method plan) eqn:Em.
  - pose proof (prepare_share_wf s fuel chain_id rng Hs) as Hw. destruct (prepare_share s fuel chain_id rng) as [s1 [m|e]] eqn:Ep; injection H as <- <-.
    + apply prepared_share_material in Ep; [|done]. cbn [map_err result_bind]. rewrite (pvss_parts_ok _ _ Ep). cbn [result_bind].
      split_and!; [done..|]. by intros m' [= <-].
    + split_and!; [done..|]. done.
  - injection H as <- <-. split; [done|]. destruct (prepare_reshare s rng rng') as [m|e] eqn:Ep; [|done].
    apply prepared_reshare_material in Ep; [|done]. cbn [map_err result_bind]. rewrite (pvss_parts_ok _ _ Ep). cbn [result_bind].
    split; [done|]. by intros m' [= <-].
  - injection H as <- <-. split; [done|]. destruct (prepare_recovery s (plan_recovery_indices plan)) as [shares|e] eqn:Ep; [|done].
    apply prepared_recovery_material in Ep; [|done]. cbn [map_err result_bind]. destruct Ep as (? & ? & Hv & ?).
    rewrite (valid_scalars _ Hv). cbn [result_bind]. split; [done|]. by intros m' [= <-].
  - pose proof (prepare_recovered_wf s rng rng' Hs) as Hw. destruct (prepare_recovered_reshare s rng rng') as [s1 [m|e]] eqn:Ep; injection H as <- <-.
    + apply prepared_recovered_material in Ep; [|done]. cbn [map_err result_bind]. rewrite (pvss_parts_ok _ _ Ep). cbn [result_bind].
      split_and!; [done..|]. by intros m' [= <-].
    + split_and!; [done..|]. done.
Qed.
End facts.

(** ** From material to call data *)

Section calldata.
Context {A : SolAbi} {H : ProverHost} {LA : SolAbiLaws A} {LH : ProverHostLaws H}.

Lemma decode_each_Ok n name l : forall index bs, decode_each n name index l = Ok bs ->
  length bs = length l /\ Forall (fun b => length b = n) bs.
Proof.
  induction l as [|e l IH]; intros index bs E; cbn [decode_each] in E; [by injection E as <-|].
  apply result_bind_Ok in E as (b & Hb & E). apply result_bind_Ok in E as (bs' & Hbs & [= <-]). apply IH in Hbs as [Hl Hf].
  unfold decode_fixed_hex in Hb. destruct (negb _); [done|]. apply ok_or_Ok, decode_to_slice_length in Hb.
  split; [cbn; lia|by constructor].
Qed.

(** What the node accepts from the helper: a message for each share, and a proof exactly with the
    version that has one. *)
Lemma prepared_output artifacts sender method zk_version keys shares output :
  prover_prepare artifacts sender method zk_version keys shares = Ok output ->
  lenN (output_messages output) = lenN shares /\ Forall (fun m => lenN m = NEOX_DKG_MESSAGE_LEN) (output_messages output) /\
  ((zk_version = 0 /\ output_proof output = None) \/ (zk_version = 1 /\ is_Some (output_proof output))).
Proof.
  unfold prover_prepare. destruct (negb _); [done|]. destruct (negb _); [done|]. intros E.
  apply result_bind_Ok in E as (? & _ & E). apply result_bind_Ok in E as (? & _ & E). apply result_bind_Ok in E as (raw & _ & E).
  unfold decode_output in E. destruct (_ <? _); [done|]. destruct (_ <? _); [done|]. destruct (negb _); [done|].
  apply result_bind_Ok in E as (response & _ & E). destruct (negb (_ =? PROVER_PROTOCOL_VERSION)); [done|].
  destruct (N.eqb_spec (lenN (response_messages response)) (lenN shares)) as [Hn|]; [|done]. cbn [negb] in E.
  apply result_bind_Ok in E as (messages & Hm & E). apply decode_each_Ok in Hm as [Hl Hf]. apply result_bind_Ok in E as (p & Hp & [= <-]).
  cbn. split_and!; [unfold lenN in *; lia|eapply Forall_impl; [exact Hf|]; intros m Hm; unfold lenN; by rewrite Hm, N2Nat.id|].
  destruct zk_version as [|[| |]]; destruct (response_proof response); try done; [by left; injection Hp as <-|].
  right. split; [done|]. apply result_bind_Ok in Hp as (? & _ & Hp). apply result_bind_Ok in Hp as (? & _ & Hp).
  apply result_bind_Ok in Hp as (? & _ & [= <-]). done.
Qed.

Lemma validated_lengths method l : Forall (fun m => lenN m = NEOX_DKG_MESSAGE_LEN) l ->
  forall index, validate_message_lengths method index l = Ok tt.
Proof. induction 1 as [|m l Hm _ IH]; intros index; [done|]. cbn [validate_message_lengths]. rewrite Hm, N.eqb_refl. apply IH. Qed.

Lemma validated_call_indices d l : Forall (fun i => 1 <= i <= participants d) l -> validate_call_indices d l = Ok tt.
Proof.
  induction 1 as [|i l Hi _ IH]; [done|]. cbn [validate_call_indices]. destruct (N.eqb_spec i 0); [lia|].
  destruct (N.ltb_spec (participants d) i); [lia|done].
Qed.

Lemma encoded_output c zk_version p d : call_validate c d = Ok tt ->
  ((zk_version = 0 /\ p = None) \/ (zk_version = 1 /\ is_Some p)) ->
  exists b, abi_encode_with_parameters c zk_version p d = Ok b /\ 4 <= lenN b.
Proof.
  intros Hc Hz. unfold abi_encode_with_parameters. rewrite Hc. cbn [result_bind].
  destruct Hz as [[-> ->]|[-> [q ->]]]; (eexists; split; [done|]); apply abi_encode_selector.
Qed.
End calldata.

Section pipeline.
Context {B : Blst} {Z : Ecies} {Sy : Symmetric} {L : FieldLaws B} {G : GroupLaws B}.
Context {A : SolAbi} {H : ProverHost} {LA : SolAbiLaws A} {LH : ProverHostLaws H}.

(** C25. Task material from a well-formed key store is what its contract call needs, and the store only
    changes when the material says it must be persisted. Whatever the helper answers, the only errors
    left are the prover's, and the call data of an answer that passes them is never refused by the
    encoder or by the queue. *)
Theorem task_material_proves s fuel rng rng' sender chain_id plan recipients s' m artifacts zk_version : store_wf s ->
  generate_dkg_task_material s fuel rng rng' sender chain_id plan recipients = (s', Ok m) ->
  store_wf s' /\ (must_persist_store m = false -> s' = s) /\ task_material_ok plan recipients m /\
  match prove_dkg_task_material artifacts zk_version m with
  | Ok calldata => 4 <= lenN calldata /\ forall x id,
      (record_prepared x id (Ok calldata)).2 <> Err (InvalidCalldata (lenN calldata))
  | Err e => exists error, e = PreparationError.Prover error
  end.
Proof.
  intros Hs Hg. destruct (generated_task_material _ _ _ _ _ _ _ _ _ _ Hs Hg) as (Hw & _ & Hm). destruct (Hm m eq_refl) as [Hp Hok].
  split_and!; [done..|]. unfold prove_dkg_task_material. destruct (prover_prepare _ _ _ _ _ _) as [output|e] eqn:E; [|by eexists].
  cbn [map_err result_bind]. apply prepared_output in E as (Hn & Hl & Hz). unfold encode_dkg_task_output. cbv zeta.
  assert (Hc : forall c, call_validate c (task_parameters m) = Ok tt ->
    match map_err PreparationError.ContractCall (abi_encode_with_parameters c zk_version (output_proof output) (task_parameters m)) with
    | Ok calldata => 4 <= lenN calldata /\ forall x id,
        (record_prepared x id (Ok calldata)).2 <> Err (InvalidCalldata (lenN calldata))
    | Err e => exists error, e = PreparationError.Prover error
    end).
  { intros c Hv. destruct (encoded_output c zk_version _ _ Hv Hz) as (b & -> & Hb). cbn [map_err]. split; [done|]. intros x id.
    unfold record_prepared. destruct (task_in_state x id is_preparing) as [t|e] eqn:Et; cbn.
    - by rewrite (proj2 (N.leb_le 4 (lenN b)) Hb).
    - unfold task_in_state in Et. destruct (tasks x !! id); cbn in Et; [destruct (is_preparing _); [done|]|]; by injection Et as <-. }
  apply Hc. destruct Hok as (_ & _ & _ & Hk). unfold call_validate. destruct (task_kind m).
  1,2,4: destruct Hk as (_ & Hlen & Hpv & _); rewrite Hpv, Hn, Hlen, !N.eqb_refl; cbn [negb]; by apply validated_lengths.
  destruct Hk as (_ & Hi & Hlen & _ & Hr). destruct (N.ltb_spec (lenN indices) 1); [lia|].
  destruct (N.ltb_spec (participants (task_parameters m) - threshold (task_parameters m)) (lenN indices)); [lia|]. cbn [orb].
  rewrite Hn, Hlen, N.eqb_refl. cbn [negb]. rewrite validated_call_indices by done. cbn [result_bind]. by apply validated_lengths.
Qed.
End pipeline.

Module MaterialWitness.
Import Committee Member.
#[local] Existing Instance field_blst.
#[local] Existing Instance model_symmetric.
#[local] Existing Instance model_ecies.

(** A helper that answers four messages, and an encoder that keeps the selector's place. *)
Definition model_abi : SolAbi := {| abi_encode_call _ _ := [x01; x02; x03; x04] |}.
#[local] Existing Instance model_abi.

Lemma model_abi_laws : SolAbiLaws model_abi.
Proof. split. intros signature args. by vm_compute. Qed.

Definition model_host : ProverHost := {|
  invoke _ := Ok (mkRawProverOutput true (Some 0) [] []);
  response_from_slice _ := Ok (mkProverResponse 1 (replicate 4 (replicate 248 x30)) None);
  decode_to_slice n _ := Some (replicate n x00);
|}.
#[local] Existing Instance model_host.

Lemma model_host_laws : ProverHostLaws model_host.
Proof. split. intros n s b [= <-]. apply length_replicate. Qed.

Definition account : Address := be_bytes ADDRESS_LEN 5.
Definition member : DkgKeyStore :=
  on_share_period_start (bind_validator_address (store_new_with_parameters (secret 12) parameters) account).1 false.
Definition plan : DkgTaskPlan := mkDkgTaskPlan 1 MethodShare 1 81 90 [].
Definition recipients : list DkgRecipient := map (fun i => mkDkgRecipient i (repeat x04 65)) [1; 2; 3; 4].

Lemma member_wf : store_wf member.
Proof.
  apply (reachable_ok 4 (secret 12) parameters member parameters_new). unfold member.
  eapply reach_step; [|by apply step_share_start]. eapply reach_step; [apply reach_new|]. apply step_bind.
Qed.

Definition generated : DkgKeyStore * result PreparationError DkgTaskMaterial :=
  Eval vm_compute in generate_dkg_task_material member 3 rng [] account 47763 plan recipients.
Definition material : DkgTaskMaterial :=
  Eval vm_compute in match generated.2 with Ok m => m | Err _ => mkDkgTaskMaterial parameters 0 (DkgTaskKind.Recover []) [] [] [] false end.

Lemma generated_ok : generate_dkg_task_material member 3 rng [] account 47763 plan recipients = (generated.1, Ok material).
Proof. by_vm. Qed.

Lemma material_proved : prove_dkg_task_material None 0 material = Ok [x01; x02; x03; x04].
Proof. by_vm. Qed.

Lemma task_material_proves_witness : store_wf generated.1 /\ task_material_ok plan recipients material /\
  4 <= lenN [x01; x02; x03; x04].
Proof.
  pose proof (task_material_proves (LA := model_abi_laws) (LH := model_host_laws) member 3 rng [] account 47763 plan recipients
    generated.1 material None 0 member_wf generated_ok) as (H1 & _ & H2 & H3).
  rewrite material_proved in H3. destruct H3 as [H3 _]. split_and!; [exact H1|exact H2|exact H3].
Defined.
End MaterialWitness.
