(* ===== verification/Round.v ===== *)
(** The dBFT round of one block height (crates/neox/node/src/validator.rs): votes per
    view, view changes, pre-block and header finalization, commit quorums and their
    seals, and the recovery messages built from the retained votes.

    [HashMap]s are finite maps; where the source collects one in iteration order and
    the order can show, the order is an argument. *)

From S2P Require Import Prelude Extern Instances Extra Validation Tpke Wire Payload DkgParams Storage.

Inductive DbftRoundProgress : Type :=
| DuplicateMessage
| Accepted
| Prepared (view : N) (proposal_hash : B256) (votes : N)
| PreCommitted (view : N) (votes : N)
| Committed (view : N) (votes : N)
| ViewChanged (view : N) (votes : N).

#[export] Instance round_progress_eq_dec : EqDecision DbftRoundProgress.
Proof. solve_decision. Defined.

Inductive DbftVerifiedCommitSeal : Type :=
| EcdsaCommitSeal (signatures : list bytes)
| ThresholdCommitSeal (signature : bytes).

(** The source renders several causes into [InvalidFinalHeader]; the causes are kept apart
    here as [InvalidFinalHeader], [InvalidSeal] and [MissingFallback]. [RoundPanicked] and
    [RecursionLimit] are not errors of the source: they mark a failed
    indexing and a recovery nested in a recovery, and are proved never to be returned. *)
Inductive DbftStateError : Type :=
| InvalidValidatorCount (count : N)
| RoundDuplicateValidator
| ProtocolViolation (error : DbftProtocolViolation)
| InvalidPayload (error : rlp_error)
| PayloadError (error : DbftPayloadError)
| WrongHeight (expected start end_ : N)
| RoundIndexOutOfBounds (index validator_count : N)
| RoundUnauthorizedValidator (index : N) (expected actual : Address)
| WrongView (expected actual : N)
| Equivocation (view : N) (message_type : DbftMessageType) (validator_index : N) (first second : B256)
| ViewOverflow
| WrongPrimary (expected actual : N)
| PrimarySentPrepareResponse (index : N)
| ProposalHeight (expected actual : N)
| MissingProposal (view : N)
| FinalHeaderMismatch (view : N)
| InvalidFinalHeader (error : DbftExtraError)
| InvalidSeal (error : DbftValidationError)
| MissingFallback
| MissingFinalHeader (view : N)
| MissingVerifiedCommitSeal (view : N)
| CommitSealSchemeMismatch
| MissingDkgState
| TpkeFailure (error : TpkeError)
| PreCommitBeforeAntiMev
| PreBlockBeforeAntiMev
| EnvelopeCountChanged (view previous actual : N)
| TooManyPreCommitShares (validator_index shares envelopes : N)
| InvalidDkgIndexMap (indices : list N)
| RoundPanicked
| RecursionLimit.

Record ViewState : Type := mkViewState {
  proposal : option DbftMessage;
  responses : gmap N B256;
  vs_pre_commits : gmap N DbftPreCommit;
  pre_block_envelope_count : option N;
  vs_commits : gmap N DbftCommit;
  final_header : option Header;
  verified_seal : option DbftVerifiedCommitSeal;
}.

Definition view_default : ViewState := mkViewState None ∅ ∅ None ∅ None None.

(** [(view, message type, validator index)] *)
Notation slot_key := (N * DbftMessageType * N)%type (only parsing).

Record DbftRoundState : Type := mkDbftRoundState {
  rs_height : N;
  rs_validators : list Address;
  quorum : N;
  anti_mev : bool;
  current_view : N;
  views : gmap N ViewState;
  rs_change_views : gmap N (N * DbftMessage);
  seen : gmap slot_key B256;
  rs_messages : gmap slot_key DbftMessage;
  rs_dkg_indices : option (list N);
  rs_dkg_state : option DkgState;
}.

Definition sizeN {K} `{Countable K} {A} (m : gmap K A) : N := N.of_nat (base.size m).

(** Field updates. *)
Definition set_views (s : DbftRoundState) (v : gmap N ViewState) : DbftRoundState :=
  mkDbftRoundState (rs_height s) (rs_validators s) (quorum s) (anti_mev s) (current_view s) v
    (rs_change_views s) (seen s) (rs_messages s) (rs_dkg_indices s) (rs_dkg_state s).
Definition set_votes (s : DbftRoundState) (view : N) (v : gmap N ViewState)
    (cvs : gmap N (N * DbftMessage)) : DbftRoundState :=
  mkDbftRoundState (rs_height s) (rs_validators s) (quorum s) (anti_mev s) view v cvs
    (seen s) (rs_messages s) (rs_dkg_indices s) (rs_dkg_state s).
Definition set_retained (s : DbftRoundState) (sn : gmap slot_key B256)
    (ms : gmap slot_key DbftMessage) : DbftRoundState :=
  mkDbftRoundState (rs_height s) (rs_validators s) (quorum s) (anti_mev s) (current_view s) (views s)
    (rs_change_views s) sn ms (rs_dkg_indices s) (rs_dkg_state s).
Definition set_proposal (v : ViewState) (m : DbftMessage) : ViewState :=
  mkViewState (Some m) (responses v) (vs_pre_commits v) (pre_block_envelope_count v) (vs_commits v)
    (final_header v) (verified_seal v).
Definition add_response (v : ViewState) (i : N) (h : B256) : ViewState :=
  mkViewState (proposal v) (<[i := h]> (responses v)) (vs_pre_commits v)
    (pre_block_envelope_count v) (vs_commits v) (final_header v) (verified_seal v).
Definition set_pre_commits (v : ViewState) (count : option N) (p : gmap N DbftPreCommit) : ViewState :=
  mkViewState (proposal v) (responses v) p count (vs_commits v) (final_header v) (verified_seal v).
Definition add_commit (v : ViewState) (i : N) (c : DbftCommit) : ViewState :=
  mkViewState (proposal v) (responses v) (vs_pre_commits v) (pre_block_envelope_count v)
    (<[i := c]> (vs_commits v)) (final_header v) (verified_seal v).
Definition set_header (v : ViewState) (h : option Header) (seal : option DbftVerifiedCommitSeal)
    : ViewState :=
  mkViewState (proposal v) (responses v) (vs_pre_commits v) (pre_block_envelope_count v)
    (vs_commits v) h seal.

(** [self.views.entry(view).or_default()], updated by [f]. *)
Definition update_view (s : DbftRoundState) (view : N) (f : ViewState -> ViewState) : DbftRoundState :=
  set_views s (<[view := f (default view_default (views s !! view))]> (views s)).

(** ** Construction *)

Definition round_new (height : N) (validators : list Address) (anti_mev : bool)
    : result DbftStateError DbftRoundState :=
  if bool_decide (validators = []) || (MAX_VALIDATOR_COUNT <? lenN validators)
  then Err (InvalidValidatorCount (lenN validators))
  else
    let validators := sort_bytes validators in
    match adjacent_repeat validators with
    | Some _ => Err RoundDuplicateValidator
    | None =>
        Ok (mkDbftRoundState height validators (bft_honest_node_count (lenN validators)) anti_mev 0
              {[0 := view_default]} ∅ ∅ ∅ None None)
    end.

Definition install_dkg_state (s : DbftRoundState) (dkg_indices : list N) (dkg_state : DkgState)
    : DbftRoundState * result DbftStateError unit :=
  if negb (lenN dkg_indices =? lenN (rs_validators s))
  then (s, Err (InvalidDkgIndexMap dkg_indices))
  else if negb (bool_decide (merge_sort N.le dkg_indices
                  = map N.of_nat (seq 1 (length (rs_validators s)))))
  then (s, Err (InvalidDkgIndexMap dkg_indices))
  else
    (mkDbftRoundState (rs_height s) (rs_validators s) (quorum s) (anti_mev s) (current_view s) (views s)
       (rs_change_views s) (seen s) (rs_messages s) (Some dkg_indices) (Some dkg_state), Ok tt).

Definition dkg_index (s : DbftRoundState) (validator_index : N) : option N :=
  indices ← rs_dkg_indices s; indices !! N.to_nat validator_index.

(** ** Queries *)

Definition primary_index (s : DbftRoundState) (view : N) : N :=
  let validator_count := lenN (rs_validators s) in
  let height := as_u32 (rs_height s) in
  (height + validator_count - view mod validator_count) mod validator_count.

Definition round_proposal (s : DbftRoundState) (view : N) : option DbftMessage :=
  v ← views s !! view; proposal v.
Definition has_pre_commit (s : DbftRoundState) (view index : N) : bool :=
  match views s !! view with Some v => bool_decide (is_Some (vs_pre_commits v !! index)) | None => false end.
Definition has_commit (s : DbftRoundState) (view index : N) : bool :=
  match views s !! view with Some v => bool_decide (is_Some (vs_commits v !! index)) | None => false end.
Definition has_change_view (s : DbftRoundState) (view index : N) : bool :=
  match rs_change_views s !! index with Some (latest, _) => view <? latest | None => false end.
Definition has_any_pre_commit (s : DbftRoundState) (index : N) : bool :=
  existsb (fun '(_, v) => bool_decide (is_Some (vs_pre_commits v !! index))) (map_to_list (views s)).
Definition has_any_commit (s : DbftRoundState) (index : N) : bool :=
  existsb (fun '(_, v) => bool_decide (is_Some (vs_commits v !! index))) (map_to_list (views s)).
Definition round_final_header (s : DbftRoundState) (view : N) : option Header :=
  v ← views s !! view; final_header v.
Definition verified_commit_seal (s : DbftRoundState) (view : N) : option DbftVerifiedCommitSeal :=
  v ← views s !! view; verified_seal v.

Definition more_than_f_committed_or_failed (s : DbftRoundState) (view local_index : N) : bool :=
  let maximum_faulty := saturating_sub (lenN (rs_validators s)) 1 / 3 in
  let committed_or_failed :=
    List.filter (fun i =>
      let index := as_u8 (N.of_nat i) in
      let committed := has_any_pre_commit s index || has_any_commit s index in
      let seen_in_view :=
        (index =? local_index) ||
        existsb (fun '(message_view, _, validator_index, _) =>
            (validator_index =? index) && (view <=? message_view))
          (map_to_list (rs_messages s)) in
      committed || negb seen_in_view)
    (seq 0 (length (rs_validators s))) in
  maximum_faulty <? lenN committed_or_failed.

(** Contributions in validator order, with their DKG indices. *)
Definition round_pre_commits (s : DbftRoundState) (view : N) : list (N * DbftPreCommit) :=
  match views s !! view, rs_dkg_indices s with
  | Some v, Some indices =>
      omap (fun '(i, c) => k ← indices !! N.to_nat i; Some (k, c))
        (sort_by_index (map_to_list (vs_pre_commits v)))
  | _, _ => []
  end.

Section round.
Context {R : AlloyRlp} {C : Crypto} {B : Blst}.

(** ** Progress of a view *)

Definition matching_responses (v : ViewState) (proposal_hash : B256) : N :=
  lenN (filter (fun '(_, response) => response = proposal_hash) (map_to_list (responses v))).

Definition progress (s : DbftRoundState) (view : N) : DbftRoundProgress :=
  match views s !! view with
  | None => Accepted
  | Some v =>
      match proposal v with
      | None => Accepted
      | Some m =>
          let proposal_hash := message_hash m in
          let prepared_votes := 1 + matching_responses v proposal_hash in
          if prepared_votes <? quorum s then Accepted
          else if anti_mev s &&
                  (bool_decide (pre_block_envelope_count v = None) || (sizeN (vs_pre_commits v) <? quorum s))
          then Prepared view proposal_hash prepared_votes
          else if bool_decide (is_Some (verified_seal v)) then Committed view (sizeN (vs_commits v))
          else if anti_mev s then PreCommitted view (sizeN (vs_pre_commits v))
          else Prepared view proposal_hash prepared_votes
      end
  end.

(** ** Commit quorums *)

(** The loop over commits in validator order; it stops at the first quorum. *)
Fixpoint ecdsa_quorum (quorum : N) (validators : list Address) (seal_hash : B256)
    (signatures : list bytes) (commits : list (N * DbftCommit)) : option (list bytes) :=
  match commits with
  | [] => None
  | (index, commit) :: commits =>
      match validated_signature commit with
      | Ok (EcdsaCommit raw) =>
          match recover_address_from_prehash raw (bool_decide (nth 64 raw x00 = x01)) seal_hash with
          | Some recovered =>
              let signatures :=
                if bool_decide (validators !! N.to_nat index = Some recovered)
                then signatures ++ [raw] else signatures in
              if lenN signatures =? quorum then Some signatures
              else ecdsa_quorum quorum validators seal_hash signatures commits
          | None => ecdsa_quorum quorum validators seal_hash signatures commits
          end
      | _ => ecdsa_quorum quorum validators seal_hash signatures commits
      end
  end.

(** The threshold shares among the commits; the DKG index lookup may not fail. *)
Definition threshold_shares (dkg_indices : list N) (commits : list (N * DbftCommit))
    : result DbftStateError (list (N * bytes)) :=
  let? shares :=
    collect_result (fun '(index, commit) =>
        match validated_signature commit with
        | Ok (ThresholdCommit share) =>
            let? dkg_index := ok_or (dkg_indices !! N.to_nat index) RoundPanicked in
            Ok (Some (dkg_index, share))
        | _ => Ok None
        end) commits in
  Ok (omap id shares).

Definition verify_commit_quorum (s : DbftRoundState) (view : N)
    : result DbftStateError (option DbftVerifiedCommitSeal) :=
  match views s !! view with
  | None => Ok None
  | Some v =>
      match final_header v with
      | None => Ok None
      | Some header =>
          if sizeN (vs_commits v) <? quorum s then Ok None
          else
            let? extra := map_err InvalidFinalHeader (DbftExtraPrefix.decode (extra_data header)) in
            let commits := sort_by_index (map_to_list (vs_commits v)) in
            match DbftExtraPrefix.signature_scheme extra with
            | Ecdsa =>
                let? seal_hash := map_err InvalidFinalHeader (ecdsa_seal_hash header) in
                Ok (option_map EcdsaCommitSeal
                      (ecdsa_quorum (quorum s) (rs_validators s) seal_hash [] commits))
            | Threshold =>
                let? dkg_state := ok_or (rs_dkg_state s) MissingDkgState in
                let? dkg_indices := ok_or (rs_dkg_indices s) MissingDkgState in
                let public_key := global_public_key (current dkg_state) in
                let? shares := threshold_shares dkg_indices commits in
                if lenN shares <? quorum s then Ok None
                else
                  let? message := map_err InvalidFinalHeader (threshold_seal_message header) in
                  match aggregate_and_verify_signature_shares_with_parameters message public_key shares
                          (quorum s) (scaler (parameters dkg_state))
                          (bool_decide (DbftExtraPrefix.version extra = V1))
                          (participants (parameters dkg_state))
                  with
                  | Ok signature => Ok (Some (ThresholdCommitSeal signature))
                  | Err (NotEnoughSignatureShares _ _) | Err SignatureAggregationFailed => Ok None
                  | Err error => Err (TpkeFailure error)
                  end
            end
      end
  end.

Definition refresh_verified_seal (s : DbftRoundState) (view : N)
    : DbftRoundState * result DbftStateError unit :=
  match verify_commit_quorum s view with
  | Err e => (s, Err e)
  | Ok seal =>
      (match views s !! view with
       | Some v => set_views s (<[view := set_header v (final_header v) seal]> (views s))
       | None => s
       end, Ok tt)
  end.

(** ** Finalization *)

Definition proposal_header_matches (proposal final : Header) : result DbftStateError bool :=
  let? proposal_prefix := map_err InvalidFinalHeader (DbftExtra.hashable_prefix (extra_data proposal)) in
  let? final_prefix := map_err InvalidFinalHeader (DbftExtra.hashable_prefix (extra_data final)) in
  let proposal :=
    {| parent_hash := parent_hash proposal; ommers_hash := ommers_hash proposal;
       beneficiary := beneficiary proposal; state_root := state_root final;
       transactions_root := transactions_root final; receipts_root := receipts_root final;
       logs_bloom := logs_bloom final; difficulty := difficulty proposal; number := number proposal;
       gas_limit := gas_limit proposal; gas_used := gas_used final; timestamp := timestamp proposal;
       extra_data := proposal_prefix; mix_hash := mix_hash proposal; nonce := nonce proposal;
       base_fee_per_gas := base_fee_per_gas proposal; withdrawals_root := withdrawals_root proposal;
       blob_gas_used := blob_gas_used proposal; excess_blob_gas := excess_blob_gas proposal;
       parent_beacon_block_root := parent_beacon_block_root proposal;
       requests_hash := requests_hash proposal;
       block_access_list_hash := block_access_list_hash proposal;
       slot_number := slot_number proposal |} in
  Ok (bool_decide (proposal = with_extra_data final final_prefix)).

Definition validate_proposal_header (s : DbftRoundState) (view : N) (header : Header)
    : result DbftStateError unit :=
  if negb (number header =? rs_height s) then Err (ProposalHeight (rs_height s) (number header))
  else
    let? m := ok_or (round_proposal s view) (MissingProposal view) in
    let? data := map_err InvalidPayload (consensus_data m) in
    let? p := map_err PayloadError (decoded_payload data) in
    match p with
    | DecodedPrepareRequest request =>
        let? matches := proposal_header_matches (sealing_proposal request) header in
        if negb matches then Err (FinalHeaderMismatch view) else Ok tt
    | _ => Err (MissingProposal view)
    end.

Definition finalize_pre_block (s : DbftRoundState) (view : N) (header : Header) (envelope_count : N)
    : DbftRoundState * result DbftStateError DbftRoundProgress :=
  if negb (anti_mev s) then (s, Err PreBlockBeforeAntiMev)
  else
    match validate_proposal_header s view header with
    | Err e => (s, Err e)
    | Ok _ =>
        let v := default view_default (views s !! view) in
        let install :=
          let s := update_view s view (fun v =>
            set_pre_commits v (Some envelope_count)
              (filter (fun '(_, c) => share_count c <= envelope_count) (vs_pre_commits v))) in
          (s, Ok (progress s view)) in
        match pre_block_envelope_count v with
        | Some previous =>
            if negb (previous =? envelope_count)
            then (update_view s view id, Err (EnvelopeCountChanged view previous envelope_count))
            else install
        | None => install
        end
    end.

Definition finalize_proposal (s : DbftRoundState) (view : N) (header : Header)
    : DbftRoundState * result DbftStateError DbftRoundProgress :=
  match validate_proposal_header s view header with
  | Err e => (s, Err e)
  | Ok _ =>
      let s := update_view s view (fun v => set_header v (Some header) (verified_seal v)) in
      match refresh_verified_seal s view with
      | (s, Err e) => (s, Err e)
      | (s, Ok _) => (s, Ok (progress s view))
      end
  end.

Definition sealed_header (s : DbftRoundState) (view : N) : result DbftStateError Header :=
  let? v := ok_or (views s !! view) (MissingProposal view) in
  let? header := ok_or (final_header v) (MissingFinalHeader view) in
  let? seal := ok_or (verified_seal v) (MissingVerifiedCommitSeal view) in
  let? extra := map_err InvalidFinalHeader (DbftExtraPrefix.decode (extra_data header)) in
  let? sealed_extra :=
    match DbftExtraPrefix.signature_scheme extra, seal with
    | Ecdsa, EcdsaCommitSeal signatures =>
        Ok (DbftExtra.EcdsaSeal (DbftExtraPrefix.version extra)
              (DbftExtraPrefix.fallback_next_consensus extra) (rs_validators s) signatures)
    | Threshold, ThresholdCommitSeal signature =>
        let? dkg_state := ok_or (rs_dkg_state s) MissingDkgState in
        let? fallback := ok_or (DbftExtraPrefix.fallback_next_consensus extra) MissingFallback in
        Ok (DbftExtra.ThresholdSeal (DbftExtraPrefix.version extra) fallback
              (global_public_key (current dkg_state)) signature)
    | _, _ => Err CommitSealSchemeMismatch
    end in
  let? raw := map_err InvalidFinalHeader (DbftExtra.try_encode sealed_extra) in
  let header := with_extra_data header raw in
  let? _ :=
    match seal with
    | EcdsaCommitSeal _ =>
        let? seal_hash := map_err InvalidFinalHeader (ecdsa_seal_hash header) in
        let? _ := map_err InvalidSeal (verify_ecdsa_signatures seal_hash sealed_extra) in Ok tt
    | ThresholdCommitSeal _ => map_err InvalidSeal (verify_threshold_signature header sealed_extra)
    end in
  Ok header.

(** ** Processing a message *)

(** The checks before any state is touched. *)
Definition check_message (s : DbftRoundState) (m : DbftMessage)
    : result DbftStateError (DbftConsensusData * DbftDecodedPayload) :=
  let? _ := map_err ProtocolViolation (verify_witness m) in
  if negb (valid_block_end m =? rs_height s) || (rs_height s <? valid_block_start m)
  then Err (WrongHeight (rs_height s) (valid_block_start m) (valid_block_end m))
  else
    let? data := map_err InvalidPayload (consensus_data m) in
    let? p := map_err PayloadError (decoded_payload data) in
    let? expected :=
      ok_or (rs_validators s !! N.to_nat (validator_index data))
        (RoundIndexOutOfBounds (validator_index data) (lenN (rs_validators s))) in
    if negb (bool_decide (expected = sender m))
    then Err (RoundUnauthorizedValidator (validator_index data) expected (sender m))
    else
      match message_type data with
      | PrepareRequest | PrepareResponse =>
          if negb (view_number data =? current_view s)
          then Err (WrongView (current_view s) (view_number data)) else Ok (data, p)
      | PreCommit | Commit =>
          if current_view s <? view_number data
          then Err (WrongView (current_view s) (view_number data)) else Ok (data, p)
      | _ => Ok (data, p)
      end.

Definition recovery_control (t : DbftMessageType) : bool :=
  match t with RecoveryRequest | RecoveryMessage => true | _ => false end.
Definition change_view_control (t : DbftMessageType) : bool :=
  match t with ChangeView => true | _ => false end.

(** Messages that are neither are voted at most once per slot. *)
Definition exclusive (t : DbftMessageType) : bool :=
  negb (recovery_control t) && negb (change_view_control t).

Definition seen_key (d : DbftConsensusData) : slot_key :=
  (view_number d, message_type d, validator_index d).

Definition retain_message (s : DbftRoundState) (m : DbftMessage) (d : DbftConsensusData)
    : DbftRoundState :=
  set_retained s
    (if exclusive (message_type d) then <[seen_key d := message_hash m]> (seen s) else seen s)
    (<[seen_key d := m]> (rs_messages s)).

Definition change_view_votes (s : DbftRoundState) (target : N) : N :=
  lenN (filter (fun '(_, (latest, _)) => target <= latest) (map_to_list (rs_change_views s))).

Definition apply_change_view (s : DbftRoundState) (m : DbftMessage) (d : DbftConsensusData)
    : DbftRoundState * result DbftStateError DbftRoundProgress :=
  match checked_add U8_MAX (view_number d) 1 with
  | None => (s, Err ViewOverflow)
  | Some target =>
      if target <=? current_view s then (s, Ok Accepted)
      else
        let superseded :=
          match rs_change_views s !! validator_index d with
          | Some (latest, _) => target <? latest
          | None => false
          end in
        if superseded then (s, Ok Accepted)
        else
          let s := set_votes s (current_view s) (views s)
                     (<[validator_index d := (target, m)]> (rs_change_views s)) in
          let votes := change_view_votes s target in
          if quorum s <=? votes then
            let s := update_view (set_votes s target (views s) (rs_change_views s)) target id in
            (s, Ok (ViewChanged target votes))
          else (s, Ok Accepted)
  end.

(** The payload-specific transitions, on a state that already retains the message. *)
Definition apply_payload (s : DbftRoundState) (m : DbftMessage) (d : DbftConsensusData)
    (p : DbftDecodedPayload) : DbftRoundState * result DbftStateError DbftRoundProgress :=
  let view := view_number d in
  let index := validator_index d in
  match p with
  | DecodedChangeView _ => apply_change_view s m d
  | DecodedPrepareRequest request =>
      let primary := primary_index s view in
      if negb (index =? primary) then (s, Err (WrongPrimary (as_u8 primary) index))
      else if negb (number (sealing_proposal request) =? rs_height s)
      then (s, Err (ProposalHeight (rs_height s) (number (sealing_proposal request))))
      else
        let s := update_view s view (fun v => set_proposal v m) in
        (s, Ok (progress s view))
  | DecodedPrepareResponse response =>
      if index =? primary_index s view then (s, Err (PrimarySentPrepareResponse index))
      else
        let s := update_view s view (fun v => add_response v index (pr_preparation_hash response)) in
        (s, Ok (progress s view))
  | DecodedPreCommit pre_commit =>
      if negb (anti_mev s) then (s, Err PreCommitBeforeAntiMev)
      else
        let envelope_count := v ← views s !! view; pre_block_envelope_count v in
        let add :=
          let s := update_view s view (fun v =>
            set_pre_commits v (pre_block_envelope_count v) (<[index := pre_commit]> (vs_pre_commits v))) in
          (s, Ok (progress s view)) in
        match envelope_count with
        | Some n =>
            if n <? share_count pre_commit
            then (s, Err (TooManyPreCommitShares index (share_count pre_commit) n))
            else add
        | None => add
        end
  | DecodedCommit commit =>
      let s := update_view s view (fun v => add_commit v index commit) in
      match refresh_verified_seal s view with
      | (s, Err e) => (s, Err e)
      | (s, Ok _) => (s, Ok (progress s view))
      end
  | DecodedRecoveryRequest _ => (s, Ok Accepted)
  | DecodedRecoveryMessage _ => (s, Err RoundPanicked)
  end.

Definition should_process (recover_change_views : bool) (recovery_view current : N)
    (t : DbftMessageType) : bool :=
  match t with
  | ChangeView => recover_change_views
  | PrepareRequest | PrepareResponse => recovery_view =? current
  | PreCommit | Commit => recovery_view <=? current
  | RecoveryRequest | RecoveryMessage => false
  end.

(** The loop over the expanded messages; the first error abandons the copy. *)
Fixpoint process_recovered (process : DbftRoundState -> DbftMessage ->
      DbftRoundState * result DbftStateError DbftRoundProgress)
    (recover_change_views : bool) (recovery_view : N) (next : DbftRoundState)
    (outcome : DbftRoundProgress) (expanded : list DbftMessage)
    : result DbftStateError (DbftRoundState * DbftRoundProgress) :=
  match expanded with
  | [] => Ok (next, outcome)
  | recovered :: expanded =>
      let? data := map_err InvalidPayload (consensus_data recovered) in
      if should_process recover_change_views recovery_view (current_view next) (message_type data) then
        match process next recovered with
        | (_, Err e) => Err e
        | (next, Ok progress) =>
            let outcome := match progress with Accepted | DuplicateMessage => outcome | _ => progress end in
            process_recovered process recover_change_views recovery_view next outcome expanded
        end
      else process_recovered process recover_change_views recovery_view next outcome expanded
  end.

(** The body of [process]; [recur] is its recursive call. *)
Definition process_body (recur : DbftRoundState -> DbftMessage ->
      DbftRoundState * result DbftStateError DbftRoundProgress)
    (s : DbftRoundState) (m : DbftMessage) : DbftRoundState * result DbftStateError DbftRoundProgress :=
  match check_message s m with
  | Err e => (s, Err e)
  | Ok (data, p) =>
      let hash := message_hash m in
      match (if exclusive (message_type data) then seen s !! seen_key data else None) with
      | Some prior =>
          if bool_decide (prior = hash) then (s, Ok DuplicateMessage)
          else (s, Err (Equivocation (view_number data) (message_type data)
                          (validator_index data) prior hash))
      | None =>
          match p with
          | DecodedRecoveryMessage recovery =>
              match
                (let? expanded := map_err PayloadError (expand recovery m (rs_validators s)) in
                 process_recovered recur (current_view s <? view_number data)
                   (view_number data)
                   (set_retained s (seen s) (<[seen_key data := m]> (rs_messages s)))
                   Accepted expanded)
              with
              | Err e => (s, Err e)
              | Ok (next, outcome) => (next, Ok outcome)
              end
          | _ => apply_payload (retain_message s m data) m data p
          end
      end
  end.

(** [process], recursing at most [fuel] times: two are enough, since a recovered
    message is never itself a recovery ([process_fuel_stable] below). *)
Fixpoint process_fuel (fuel : nat) (s : DbftRoundState) (m : DbftMessage)
    : DbftRoundState * result DbftStateError DbftRoundProgress :=
  match fuel with
  | O => (s, Err RecursionLimit)
  | S fuel => process_body (process_fuel fuel) s m
  end.

Definition process : DbftRoundState -> DbftMessage ->
    DbftRoundState * result DbftStateError DbftRoundProgress := process_fuel 2.

(** ** Recovery messages *)

Definition by_index (a b : slot_key * DbftMessage) : Prop := a.1.2 <= b.1.2.
#[export] Instance by_index_dec a b : Decision (by_index a b).
Proof. unfold by_index. apply _. Defined.
Definition by_index_view (a b : slot_key * DbftMessage) : Prop :=
  a.1.2 < b.1.2 \/ (a.1.2 = b.1.2 /\ a.1.1.1 <= b.1.1.1).
#[export] Instance by_index_view_dec a b : Decision (by_index_view a b).
Proof. unfold by_index_view. apply _. Defined.

Fixpoint add_messages (r : DbftRecoveryMessage) (l : list (slot_key * DbftMessage))
    : result DbftStateError DbftRecoveryMessage :=
  match l with
  | [] => Ok r
  | (_, m) :: l => let? r := map_err PayloadError (add_message r m) in add_messages r l
  end.

(** The earliest contribution of each validator. *)
Fixpoint add_first (previous_index : option N) (r : DbftRecoveryMessage)
    (l : list (slot_key * DbftMessage)) : result DbftStateError DbftRecoveryMessage :=
  match l with
  | [] => Ok r
  | (key, m) :: l =>
      if bool_decide (previous_index = Some key.2) then add_first previous_index r l
      else
        let? r := map_err PayloadError (add_message r m) in
        add_first (Some key.2) r l
  end.

Definition add_recovery_contributions (iter : list (slot_key * DbftMessage))
    (r : DbftRecoveryMessage) (t : DbftMessageType) : result DbftStateError DbftRecoveryMessage :=
  add_first None r (merge_sort by_index_view (filter (fun e => e.1.1.2 = t) iter)).

(** [iter] is the iteration order of the retained messages. *)
Definition recovery_message (s : DbftRoundState) (iter : list (slot_key * DbftMessage))
    (local_index : N) : result DbftStateError DbftRecoveryMessage :=
  let preparations :=
    merge_sort by_index (filter (fun e => e.1.1.1 = current_view s /\
      (e.1.1.2 = PrepareRequest \/ e.1.1.2 = PrepareResponse)) iter) in
  let? r := add_messages recovery_new preparations in
  let? r :=
    match checked_sub (current_view s) 1 with
    | None => Ok r
    | Some previous_view =>
        add_messages r
          (merge_sort by_index
             (filter (fun e => e.1.1.1 = previous_view /\ e.1.1.2 = ChangeView) iter))
    end in
  let? r :=
    if has_any_pre_commit s local_index then add_recovery_contributions iter r PreCommit else Ok r in
  if has_any_commit s local_index then add_recovery_contributions iter r Commit else Ok r.
End round.

(** ** What an accepted message is *)

Section proofs.
Context {R : AlloyRlp} {C : Crypto} {B : Blst}.

(** A message for height [h], signed by the validator its inner index names. *)
Definition authenticated (h : N) (vs : list Address) (m : DbftMessage) (d : DbftConsensusData)
    (p : DbftDecodedPayload) : Prop :=
  verify_witness m = Ok (message_hash m) /\ valid_block_end m = h /\ valid_block_start m <= h /\
  consensus_data m = Ok d /\ decoded_payload d = Ok p /\
  vs !! N.to_nat (validator_index d) = Some (sender m).

Definition payload_type (p : DbftDecodedPayload) : DbftMessageType :=
  match p with
  | DecodedChangeView _ => ChangeView
  | DecodedPrepareRequest _ => PrepareRequest
  | DecodedPrepareResponse _ => PrepareResponse
  | DecodedPreCommit _ => PreCommit
  | DecodedCommit _ => Commit
  | DecodedRecoveryRequest _ => RecoveryRequest
  | DecodedRecoveryMessage _ => RecoveryMessage
  end.

Lemma decoded_payload_type d p : decoded_payload d = Ok p -> message_type d = payload_type p.
Proof.
  unfold decoded_payload. destruct (message_type d); intros H; bind_inv; done.
Qed.

Lemma verify_witness_hash m hash : verify_witness m = Ok hash -> hash = message_hash m.
Proof.
  unfold verify_witness. destruct (negb _); [done|]. intros H.
  apply result_bind_Ok in H as (parity & _ & H). apply result_bind_Ok in H as (r & _ & H).
  destruct (negb _); [done|]. by injection H.
Qed.

(** The view a message of each type may be for. *)
Definition view_allowed (current : N) (d : DbftConsensusData) : Prop :=
  match message_type d with
  | PrepareRequest | PrepareResponse => view_number d = current
  | PreCommit | Commit => view_number d <= current
  | _ => True
  end.

Lemma check_message_Ok s m d p :
  check_message s m = Ok (d, p) <->
  authenticated (rs_height s) (rs_validators s) m d p /\ view_allowed (current_view s) d.
Proof.
  unfold check_message, authenticated, view_allowed. split.
  - intros H. apply result_bind_Ok in H as (hash & Hw & H). apply map_err_Ok in Hw.
    pose proof (verify_witness_hash _ _ Hw) as ->.
    destruct (N.eqb_spec (valid_block_end m) (rs_height s)); [|done].
    destruct (N.ltb_spec (rs_height s) (valid_block_start m)); [done|]. cbn [negb orb] in H.
    apply result_bind_Ok in H as (d' & Hd & H). apply map_err_Ok in Hd.
    apply result_bind_Ok in H as (p' & Hp & H). apply map_err_Ok in Hp.
    apply result_bind_Ok in H as (a & Ha & H). apply ok_or_Ok in Ha.
    case_bool_decide as E; [|done]. cbn [negb] in H. subst a.
    destruct (message_type d') eqn:Et;
      repeat match type of H with
      | context [?a =? ?b] => destruct (N.eqb_spec a b); [|done]
      | context [?a <? ?b] => destruct (N.ltb_spec a b); [done|]
      end; injection H as <- <-; rewrite ?Et; split_and!; done.
  - intros [(Hw & He & Hs & Hd & Hp & Hv) Hview]. rewrite Hw. simpl. rewrite He, N.eqb_refl.
    destruct (N.ltb_spec (rs_height s) (valid_block_start m)); [lia|]. simpl.
    rewrite Hd. simpl. rewrite Hp. simpl. rewrite Hv. simpl. rewrite bool_decide_eq_true_2 by done.
    simpl. destruct (message_type d); try done; rewrite ?Hview, ?N.eqb_refl; try done;
      destruct (N.ltb_spec (current_view s) (view_number d)); [lia|done|lia|done].
Qed.

Lemma exclusive_iff t : exclusive t = true <-> t <> ChangeView /\ t <> RecoveryRequest /\ t <> RecoveryMessage.
Proof. destruct t; simpl; naive_solver. Qed.

(** ** The invariant *)

Definition base_ok (s : DbftRoundState) : Prop :=
  quorum s = bft_honest_node_count (lenN (rs_validators s)) /\
  NoDup (rs_validators s) /\ StronglySorted bytes_le (rs_validators s) /\
  1 <= lenN (rs_validators s) <= 256.

Definition header_for (s : DbftRoundState) (m : DbftMessage) (header : Header) : Prop :=
  number header = rs_height s /\
  exists d request, consensus_data m = Ok d /\ decoded_payload d = Ok (DecodedPrepareRequest request) /\
    proposal_header_matches (sealing_proposal request) header = Ok true.

(** An ECDSA seal of the final header: a quorum of signatures by distinct validators. *)
Definition ecdsa_seal_ok (s : DbftRoundState) (header : Header) (signatures : list bytes) : Prop :=
  exists extra seal_hash signers,
    DbftExtraPrefix.decode (extra_data header) = Ok extra /\
    DbftExtraPrefix.signature_scheme extra = Ecdsa /\ ecdsa_seal_hash header = Ok seal_hash /\
    lenN signatures = quorum s /\ Forall (fun raw => length raw = 65%nat) signatures /\
    Forall2 (signed_by seal_hash) signatures signers /\ sublist signers (rs_validators s).

(** Every recorded vote of view [view] is backed by a retained message. *)
Record view_ok (s : DbftRoundState) (view : N) (v : ViewState) : Prop := {
  vo_proposal m : proposal v = Some m ->
    rs_messages s !! (view, PrepareRequest, primary_index s view) = Some m;
  vo_responses i hash : responses v !! i = Some hash ->
    i <> primary_index s view /\
    exists m d, rs_messages s !! (view, PrepareResponse, i) = Some m /\ consensus_data m = Ok d /\
      decoded_payload d = Ok (DecodedPrepareResponse (mkDbftPrepareResponse hash));
  vo_pre_commits i c : vs_pre_commits v !! i = Some c ->
    (forall n, pre_block_envelope_count v = Some n -> share_count c <= n) /\
    exists m d, rs_messages s !! (view, PreCommit, i) = Some m /\ consensus_data m = Ok d /\
      decoded_payload d = Ok (DecodedPreCommit c);
  vo_commits i c : vs_commits v !! i = Some c ->
    exists m d, rs_messages s !! (view, Commit, i) = Some m /\ consensus_data m = Ok d /\
      decoded_payload d = Ok (DecodedCommit c);
  vo_header header : final_header v = Some header ->
    exists m, proposal v = Some m /\ header_for s m header;
  vo_seal signatures : verified_seal v = Some (EcdsaCommitSeal signatures) ->
    exists header, final_header v = Some header /\ ecdsa_seal_ok s header signatures;
}.

Record round_inv (s : DbftRoundState) : Prop := {
  ri_base : base_ok s;
  ri_retained key m : rs_messages s !! key = Some m ->
    exists d p, authenticated (rs_height s) (rs_validators s) m d p /\ seen_key d = key;
  ri_seen key hash : seen s !! key = Some hash ->
    exclusive key.1.2 = true /\ exists m, rs_messages s !! key = Some m /\ message_hash m = hash;
  ri_exclusive key m : exclusive key.1.2 = true -> rs_messages s !! key = Some m ->
    seen s !! key = Some (message_hash m);
  ri_views view v : views s !! view = Some v -> view_ok s view v;
  ri_change_views i target m : rs_change_views s !! i = Some (target, m) ->
    exists d p, authenticated (rs_height s) (rs_validators s) m d p /\ message_type d = ChangeView /\
      validator_index d = i /\ view_number d + 1 = target;
  ri_current : current_view s = 0 \/ quorum s <= change_view_votes s (current_view s);
  ri_dkg indices : rs_dkg_indices s = Some indices -> length indices = length (rs_validators s);
}.

(** ** Preservation *)

(** What no transition changes. *)
Definition same_round (s s' : DbftRoundState) : Prop :=
  rs_height s' = rs_height s /\ rs_validators s' = rs_validators s /\ quorum s' = quorum s /\
  anti_mev s' = anti_mev s /\ rs_dkg_indices s' = rs_dkg_indices s /\ rs_dkg_state s' = rs_dkg_state s.

(** Votes that are cast once per slot are never replaced, and views only advance. *)
Definition extends (s s' : DbftRoundState) : Prop :=
  same_round s s' /\ current_view s <= current_view s' /\
  forall key m, exclusive key.1.2 = true -> rs_messages s !! key = Some m ->
    rs_messages s' !! key = Some m.

Lemma extends_refl s : extends s s.
Proof. unfold extends, same_round. split_and!; done. Qed.

Lemma extends_trans s1 s2 s3 : extends s1 s2 -> extends s2 s3 -> extends s1 s3.
Proof.
  intros [E1 [Hc1 Hm1]] [E2 [Hc2 Hm2]].
  split; [unfold same_round in *; intuition congruence|]. split; [lia|]. eauto.
Qed.

Lemma view_ok_extends s s' view v : extends s s' -> view_ok s view v -> view_ok s' view v.
Proof.
  intros [(Eh & Ev & Eq & _) [_ Hm]] [H1 H2 H3 H4 H5 H6].
  assert (Ep : primary_index s' view = primary_index s view)
    by (unfold primary_index; by rewrite Eh, Ev).
  constructor.
  - intros m Hp. rewrite Ep. apply Hm; [done|]. by apply H1.
  - intros i hash Hi. rewrite Ep. destruct (H2 _ _ Hi) as (? & m & d & Hl & ?).
    split; [done|]. exists m, d. split; [by apply Hm|done].
  - intros i c Hi. destruct (H3 _ _ Hi) as (? & m & d & Hl & ?).
    split; [done|]. exists m, d. split; [by apply Hm|done].
  - intros i c Hi. destruct (H4 _ _ Hi) as (m & d & Hl & ?). exists m, d. split; [by apply Hm|done].
  - intros header Hh. destruct (H5 _ Hh) as (m & ? & Hf). exists m. split; [done|].
    unfold header_for in *. by rewrite Eh.
  - intros ss Hs. destruct (H6 _ Hs) as (header & ? & Hok). exists header. split; [done|].
    unfold ecdsa_seal_ok in *. by rewrite Eq, Ev.
Qed.

Lemma update_view_extends s view f : extends s (update_view s view f).
Proof. unfold extends, same_round. split_and!; done. Qed.

Lemma update_view_inv s view f :
  round_inv s -> view_ok s view (f (default view_default (views s !! view))) ->
  round_inv (update_view s view f).
Proof.
  intros [H1 H2 H3 H4 H5 H6 H7 H8] Hv. constructor; try done.
  intros w st. simpl. destruct (decide (view = w)) as [<-|Hne].
  - rewrite lookup_insert_eq. intros [= <-]. eapply view_ok_extends; [|exact Hv]. apply update_view_extends.
  - rewrite lookup_insert_ne by done. intros Hw. eapply view_ok_extends; [|by apply H5].
    apply update_view_extends.
Qed.

Lemma view_default_ok s view : view_ok s view view_default.
Proof. constructor; try done; simpl; intros i ?; by rewrite lookup_empty. Qed.

Lemma entry_ok s view : round_inv s -> view_ok s view (default view_default (views s !! view)).
Proof.
  intros Hi. destruct (views s !! view) as [v|] eqn:E; [by apply (ri_views s Hi)|apply view_default_ok].
Qed.

(** Retaining a fresh authenticated message. *)
Lemma retain_message_extends s m d :
  round_inv s -> (exclusive (message_type d) = true -> seen s !! seen_key d = None) ->
  extends s (retain_message s m d).
Proof.
  intros Hi Hnew. unfold extends, same_round. split_and!; try done.
  intros key m' Hex Hk. simpl. rewrite lookup_insert_ne; [done|]. intros <-.
  pose proof (ri_exclusive s Hi _ _ Hex Hk) as Hs. by rewrite Hnew in Hs.
Qed.

Lemma retain_message_inv s m d p :
  round_inv s -> authenticated (rs_height s) (rs_validators s) m d p ->
  (exclusive (message_type d) = true -> seen s !! seen_key d = None) ->
  round_inv (retain_message s m d).
Proof.
  intros Hi Ha Hnew. pose proof (retain_message_extends s m d Hi Hnew) as Hext.
  destruct Hi as [H1 H2 H3 H4 H5 H6 H7 H8]. constructor; simpl; try done.
  - intros key m'. destruct (decide (seen_key d = key)) as [<-|Hne].
    + rewrite lookup_insert_eq. intros [= <-]. eauto.
    + rewrite lookup_insert_ne by done. apply H2.
  - intros key hash Hk.
    assert (Hold : seen s !! key = Some hash -> exclusive key.1.2 = true /\
      exists m', <[seen_key d := m]> (rs_messages s) !! key = Some m' /\ message_hash m' = hash).
    { intros Hs. destruct (H3 _ _ Hs) as (Hex & m' & Hm & Hh). split; [done|]. exists m'.
      split; [|done]. by apply Hext. }
    destruct (exclusive (message_type d)) eqn:Ex; [|by apply Hold].
    destruct (decide (seen_key d = key)) as [<-|Hne].
    + rewrite lookup_insert_eq in Hk. injection Hk as <-. split; [done|]. exists m.
      by rewrite lookup_insert_eq.
    + rewrite lookup_insert_ne in Hk by done. by apply Hold.
  - intros key m' Hex Hk. destruct (decide (seen_key d = key)) as [<-|Hne].
    + rewrite lookup_insert_eq in Hk. injection Hk as <-. simpl in Hex. by rewrite Hex, lookup_insert_eq.
    + rewrite lookup_insert_ne in Hk by done. destruct (exclusive (message_type d)); [|by apply H4].
      rewrite lookup_insert_ne by done. by apply H4.
  - intros view v Hv. eapply view_ok_extends; [exact Hext|]. by apply H5.
Qed.

(** Replacing a non-exclusive slot, as a recovery does for its own message. *)
Lemma retain_control_inv s m d p :
  round_inv s -> authenticated (rs_height s) (rs_validators s) m d p ->
  exclusive (message_type d) = false ->
  round_inv (set_retained s (seen s) (<[seen_key d := m]> (rs_messages s))) /\
  extends s (set_retained s (seen s) (<[seen_key d := m]> (rs_messages s))).
Proof.
  intros Hi Ha Hex. pose proof (retain_message_inv s m d p Hi Ha ltac:(by rewrite Hex)) as H.
  pose proof (retain_message_extends s m d Hi ltac:(by rewrite Hex)) as H'.
  unfold retain_message in *. by rewrite Hex in *.
Qed.

(** ** Commit quorums *)

Definition index_lt {T} (a b : N * T) : Prop := a.1 < b.1.

Lemma sort_by_index_perm {T} (l : list (N * T)) : sort_by_index l ≡ₚ l.
Proof. apply merge_sort_Permutation. Qed.

Lemma StronglySorted_strict {T} (l : list (N * T)) :
  StronglySorted key_le l -> NoDup (map fst l) -> StronglySorted index_lt l.
Proof.
  induction 1 as [|x l Hs IH Hf]; simpl; [constructor|]. intros [Hx Hn]%NoDup_cons.
  constructor; [by apply IH|]. rewrite Forall_forall in *. intros y Hy. specialize (Hf y Hy).
  unfold key_le, index_lt in *. assert (x.1 <> y.1); [|lia]. intros E. apply Hx. rewrite E.
  by apply list_elem_of_fmap_2.
Qed.

#[local] Instance key_le_trans {T} : Transitive (@key_le T).
Proof. intros a b c. unfold key_le. lia. Qed.
#[local] Instance key_le_total {T} : Total (@key_le T).
Proof. intros a b. unfold key_le. lia. Qed.

Lemma sublist_take_mono {A} (l : list A) i j : (i <= j)%nat -> sublist (take i l) (take j l).
Proof.
  intros Hij. replace (take i l) with (take i (take j l)); [apply sublist_take|].
  rewrite take_take. f_equal. lia.
Qed.

Lemma sorted_votes {T} (m : gmap N T) :
  StronglySorted index_lt (sort_by_index (map_to_list m)) /\
  forall i x, (i, x) ∈ sort_by_index (map_to_list m) <-> m !! i = Some x.
Proof.
  split.
  - apply StronglySorted_strict; [apply Sorted_StronglySorted, Sorted_merge_sort; apply _|].
    rewrite sort_by_index_perm. apply NoDup_fst_map_to_list.
  - intros i x. rewrite sort_by_index_perm. apply elem_of_map_to_list.
Qed.

Lemma validated_ecdsa c raw :
  validated_signature c = Ok (EcdsaCommit raw) ->
  length raw = 65%nat /\ (nth 64 raw x00 = x00 \/ nth 64 raw x00 = x01).
Proof.
  unfold validated_signature. intros H.
  destruct (N.eq_dec (lenN (signature c)) 65) as [E|E].
  - rewrite E in H. destruct (nth 64 (signature c) x00) eqn:Eb; try done; injection H as <-;
      (split; [unfold lenN in E; lia|]); auto.
  - destruct (lenN (signature c)) as [|q]; [done|].
    repeat (destruct q; try done); by destruct (signature_share_decode (signature c)).
Qed.

Lemma ecdsa_quorum_spec q vs h commits : forall acc signers k sigs,
  StronglySorted index_lt commits -> Forall (fun c => (k <= N.to_nat c.1)%nat) commits ->
  Forall (fun raw => length raw = 65%nat) acc -> Forall2 (signed_by h) acc signers ->
  sublist signers (take k vs) ->
  ecdsa_quorum q vs h acc commits = Some sigs ->
  lenN sigs = q /\ Forall (fun raw => length raw = 65%nat) sigs /\
  exists signers', Forall2 (signed_by h) sigs signers' /\ sublist signers' vs.
Proof.
  induction commits as [|[i c] commits IH]; intros acc signers k sigs Hs Hk Hw Hsig Hsub H; [done|].
  cbn [ecdsa_quorum] in H. apply StronglySorted_inv in Hs as [Hs Hlt].
  apply Forall_cons in Hk as [Hki Hk]. simpl in Hki.
  assert (Hskip : ecdsa_quorum q vs h acc commits = Some sigs -> lenN sigs = q /\
    Forall (fun raw => length raw = 65%nat) sigs /\
    exists signers', Forall2 (signed_by h) sigs signers' /\ sublist signers' vs)
    by (by apply (IH acc signers k)).
  destruct (validated_signature c) as [[raw|]|] eqn:Ev; [|by apply Hskip..].
  destruct (validated_ecdsa _ _ Ev) as [Hlen Hv].
  destruct (recover_address_from_prehash raw _ h) as [a|] eqn:Er; [|by apply Hskip].
  set (acc' := if bool_decide (vs !! N.to_nat i = Some a) then acc ++ [raw] else acc) in H.
  assert (Hnew : exists signers', Forall (fun raw => length raw = 65%nat) acc' /\
    Forall2 (signed_by h) acc' signers' /\ sublist signers' (take (S (N.to_nat i)) vs)).
  { subst acc'. case_bool_decide as E.
    - exists (signers ++ [a]). split_and!.
      + apply Forall_app. by repeat constructor.
      + apply Forall2_app; [done|]. constructor; [|constructor]. unfold signed_by.
        destruct Hv as [Hv|Hv]; rewrite Hv in *; [left|right]; done.
      + rewrite (take_S_r _ _ _ E). apply sublist_app; [|done].
        etrans; [exact Hsub|]. by apply sublist_take_mono.
    - exists signers. split_and!; [done|done|]. etrans; [exact Hsub|]. apply sublist_take_mono. lia. }
  destruct Hnew as (signers' & Hw' & Hsig' & Hsub'). destruct (N.eqb_spec (lenN acc') q) as [Hq|Hq].
  - injection H as <-. split_and!; [done..|]. exists signers'. split; [done|].
    etrans; [exact Hsub'|apply sublist_take].
  - eapply (IH acc' signers' (S (N.to_nat i))); try done.
    eapply Forall_impl; [exact Hlt|]. intros [j c'] Hj. unfold index_lt in Hj. simpl in *. lia.
Qed.

Lemma verify_commit_quorum_ecdsa s view v signatures :
  views s !! view = Some v ->
  verify_commit_quorum s view = Ok (Some (EcdsaCommitSeal signatures)) ->
  exists header, final_header v = Some header /\ ecdsa_seal_ok s header signatures.
Proof.
  intros Hv. unfold verify_commit_quorum. rewrite Hv.
  destruct (final_header v) as [header|]; [|done]. destruct (_ <? _); [done|]. intros H.
  apply result_bind_Ok in H as (extra & He & H). apply map_err_Ok in He.
  exists header. split; [done|]. destruct (DbftExtraPrefix.signature_scheme extra) eqn:Es.
  - apply result_bind_Ok in H as (h & Hh & H). apply map_err_Ok in Hh. injection H as H.
    apply fmap_Some in H as (sigs & Hq & Ess). injection Ess as ->.
    destruct (sorted_votes (vs_commits v)) as [Hsort _].
    destruct (ecdsa_quorum_spec _ _ _ _ [] [] 0 sigs Hsort ltac:(apply Forall_forall; lia)
      (Forall_nil_2 _) (Forall2_nil_2 _ _ _) (sublist_nil_l _) Hq) as (Hl & Hw & signers & Hf & Hsub).
    exists extra, h, signers. split_and!; done.
  - exfalso. repeat (apply result_bind_Ok in H as (? & _ & H)). destruct (_ <? _); [done|].
    apply result_bind_Ok in H as (? & _ & H).
    destruct (aggregate_and_verify_signature_shares_with_parameters _ _ _ _ _ _ _) as [|[]]; done.
Qed.

(** With an ECDSA header the quorum check has no error path. *)
Lemma verify_commit_quorum_total s view v header extra :
  views s !! view = Some v -> final_header v = Some header ->
  DbftExtraPrefix.decode (extra_data header) = Ok extra ->
  DbftExtraPrefix.signature_scheme extra = Ecdsa ->
  is_Some (result_ok (ecdsa_seal_hash header)) ->
  is_Some (result_ok (verify_commit_quorum s view)).
Proof.
  intros Hv Hh Hd Hs [h Hsh]. unfold verify_commit_quorum. rewrite Hv, Hh, Hd. simpl.
  destruct (_ <? _); [done|]. rewrite Hs. destruct (ecdsa_seal_hash header); [|done]. done.
Qed.

(** ** Final headers share the proposal's extra prefix *)

Lemma hashable_prefix_app raw pre :
  DbftExtra.hashable_prefix raw = Ok pre -> exists rest, raw = pre ++ rest.
Proof.
  unfold DbftExtra.hashable_prefix. destruct raw as [|b raw]; [done|]. intros H.
  apply result_bind_Ok in H as (v & _ & H). destruct (_ <=? _); [|done]. injection H as <-.
  eexists. symmetry. apply take_drop.
Qed.

Lemma decode_same_prefix raw raw' pre p :
  DbftExtra.hashable_prefix raw = Ok pre -> DbftExtra.hashable_prefix raw' = Ok pre ->
  DbftExtraPrefix.decode raw = Ok p -> DbftExtraPrefix.decode raw' = Ok p.
Proof.
  intros H1 H2 Hd. apply prefix_decode_inv in Hd as (pre0 & rest & -> & He & _ & Hc).
  destruct (prefix_encode_decode p pre0 rest He Hc) as (_ & Hh & _). rewrite H1 in Hh.
  injection Hh as ->. apply hashable_prefix_app in H2 as [rest' ->].
  by destruct (prefix_encode_decode p pre0 rest' He Hc) as (? & _).
Qed.

Lemma header_for_prefix s m header :
  header_for s m header ->
  exists d request pre, consensus_data m = Ok d /\
    decoded_payload d = Ok (DecodedPrepareRequest request) /\
    DbftExtra.hashable_prefix (extra_data (sealing_proposal request)) = Ok pre /\
    DbftExtra.hashable_prefix (extra_data header) = Ok pre.
Proof.
  intros (_ & d & request & Hd & Hp & Hm). unfold proposal_header_matches in Hm.
  apply result_bind_Ok in Hm as (pre & H1 & Hm). apply map_err_Ok in H1.
  apply result_bind_Ok in Hm as (pre' & H2 & Hm). apply map_err_Ok in H2.
  injection Hm as Hm. apply bool_decide_eq_true in Hm. apply (f_equal extra_data) in Hm. simpl in Hm.
  subst pre'. exists d, request, pre. by split_and!.
Qed.

Lemma header_for_same_prefix s m h1 h2 :
  header_for s m h1 -> header_for s m h2 ->
  exists pre, DbftExtra.hashable_prefix (extra_data h1) = Ok pre /\
    DbftExtra.hashable_prefix (extra_data h2) = Ok pre.
Proof.
  intros (d1 & r1 & p1 & Hd1 & Hp1 & Hr1 & Hh1)%header_for_prefix
    (d2 & r2 & p2 & Hd2 & Hp2 & Hr2 & Hh2)%header_for_prefix.
  rewrite Hd1 in Hd2. injection Hd2 as <-. rewrite Hp1 in Hp2. injection Hp2 as <-.
  rewrite Hr1 in Hr2. injection Hr2 as <-. eauto.
Qed.

Lemma validate_proposal_header_Ok s view header u :
  validate_proposal_header s view header = Ok u ->
  exists m, round_proposal s view = Some m /\ header_for s m header.
Proof.
  unfold validate_proposal_header.
  destruct (N.eqb_spec (number header) (rs_height s)) as [En|]; [|done]. simpl. intros H.
  apply result_bind_Ok in H as (m & Hm & H). apply ok_or_Ok in Hm.
  apply result_bind_Ok in H as (d & Hd & H). apply map_err_Ok in Hd.
  apply result_bind_Ok in H as (p & Hp & H). apply map_err_Ok in Hp.
  destruct p; try done. apply result_bind_Ok in H as (b & Hb & H). destruct b; [|done].
  exists m. split; [done|]. split; [done|]. eauto.
Qed.

(** ** Transitions preserve the invariant *)

Lemma refresh_inv s view :
  round_inv s ->
  let s' := (refresh_verified_seal s view).1 in round_inv s' /\ extends s s'.
Proof.
  intros Hi. unfold refresh_verified_seal.
  destruct (verify_commit_quorum s view) as [seal|e] eqn:Eq; [|split; [done|apply extends_refl]].
  destruct (views s !! view) as [v|] eqn:Ev; [|split; [done|apply extends_refl]]. simpl.
  pose proof (update_view_inv s view (fun v => set_header v (final_header v) seal) Hi) as H.
  pose proof (update_view_extends s view (fun v => set_header v (final_header v) seal)) as He.
  unfold update_view in *. rewrite Ev in *. simpl in *. split; [|done]. apply H.
  destruct (ri_views s Hi _ _ Ev) as [H1 H2 H3 H4 H5 _]. constructor; try done.
  simpl. intros sigs ->. by eapply verify_commit_quorum_ecdsa.
Qed.

(** Setting the header and refreshing, as one update. *)
Lemma finalize_proposal_inv s view header :
  round_inv s ->
  let s' := (finalize_proposal s view header).1 in round_inv s' /\ extends s s'.
Proof.
  intros Hi. unfold finalize_proposal.
  destruct (validate_proposal_header s view header) as [u|] eqn:Ev; [|split; [done|apply extends_refl]].
  apply validate_proposal_header_Ok in Ev as (m & Hm & Hf). unfold round_proposal in Hm.
  destruct (views s !! view) as [v|] eqn:Evv; [|done]. simpl in Hm.
  destruct (ri_views s Hi _ _ Evv) as [H1 H2 H3 H4 H5 H6].
  set (s1 := update_view s view _).
  assert (Ev1 : views s1 !! view = Some (set_header v (Some header) (verified_seal v))).
  { subst s1. unfold update_view. rewrite Evv. simpl. by rewrite lookup_insert_eq. }
  assert (Hhdr : forall seal header', Some header = Some header' ->
    exists m, proposal (set_header v (Some header) seal) = Some m /\ header_for s m header').
  { intros seal header' [= <-]. by exists m. }
  destruct (verify_commit_quorum s1 view) as [seal|e] eqn:Eq.
  - assert (E : refresh_verified_seal s1 view
      = (update_view s view (fun v => set_header v (Some header) seal), Ok tt)).
    { unfold refresh_verified_seal. rewrite Eq, Ev1. f_equal. subst s1. unfold update_view, set_views.
      rewrite Evv. simpl. by rewrite insert_insert_eq. }
    rewrite E. cbn [fst]. split; [|apply update_view_extends].
    apply update_view_inv; [done|]. rewrite Evv. simpl.
    constructor; try done; simpl; [by apply (Hhdr seal)|]. intros sigs ->.
    destruct (verify_commit_quorum_ecdsa s1 view _ sigs Ev1 Eq) as (header' & Eh & Hok).
    exists header'. split; [done|]. exact Hok.
  - unfold refresh_verified_seal. rewrite Eq. cbn [fst]. split; [|apply update_view_extends].
    apply update_view_inv; [done|]. rewrite Evv. simpl.
    constructor; try done; simpl; [by apply (Hhdr (verified_seal v))|]. intros sigs Hs. exfalso.
    destruct (H6 _ Hs) as (old & Hold & extra & h & signers & Hd & Hsch & _).
    destruct (H5 _ Hold) as (m' & Hm' & Hf'). rewrite Hm in Hm'. injection Hm' as <-.
    destruct (header_for_same_prefix _ _ _ _ Hf' Hf) as (pre & Hp1 & Hp2).
    pose proof (decode_same_prefix _ _ _ _ Hp1 Hp2 Hd) as Hd'.
    destruct (verify_commit_quorum_total s1 view _ header extra Ev1 eq_refl Hd' Hsch) as [x Hx].
    { unfold ecdsa_seal_hash, unsigned_header. rewrite Hp2. by eexists. }
    by rewrite Eq in Hx.
Qed.

Lemma finalize_pre_block_inv s view header n :
  round_inv s ->
  let s' := (finalize_pre_block s view header n).1 in round_inv s' /\ extends s s'.
Proof.
  intros Hi. unfold finalize_pre_block. destruct (negb (anti_mev s)); [split; [done|apply extends_refl]|].
  destruct (validate_proposal_header s view header); [|split; [done|apply extends_refl]].
  set (v := default view_default (views s !! view)).
  assert (Hv : view_ok s view v) by (by apply entry_ok).
  assert (Hins : let s' := update_view s view (fun v => set_pre_commits v (Some n)
      (filter (fun '(_, c) => share_count c <= n) (vs_pre_commits v))) in round_inv s' /\ extends s s').
  { split; [|apply update_view_extends]. apply update_view_inv; [done|]. fold v.
    destruct Hv as [H1 H2 H3 H4 H5 H6]. constructor; try done. simpl. intros i c Hc.
    apply map_lookup_filter_Some in Hc as [Hc Hle]. split; [by intros ? [= <-]|]. by apply H3. }
  destruct (pre_block_envelope_count v) as [k|]; [|done]. destruct (negb _); [|done].
  split; [|apply update_view_extends]. by apply update_view_inv.
Qed.

(** ** Counting votes *)

Definition voters {T} (P : N * T -> Prop) `{forall x, Decision (P x)} (m : gmap N T) : list N :=
  map fst (filter P (map_to_list m)).

Lemma voters_elem {T} (P : N * T -> Prop) `{forall x, Decision (P x)} (m : gmap N T) i :
  i ∈ voters P m <-> exists x, m !! i = Some x /\ P (i, x).
Proof.
  unfold voters. rewrite list_elem_of_fmap. setoid_rewrite list_elem_of_filter. split.
  - intros ([j x] & -> & Hp & Hx). apply elem_of_map_to_list in Hx. eauto.
  - intros (x & Hx & Hp). exists (i, x). split_and!; [done|done|]. by apply elem_of_map_to_list.
Qed.

Lemma voters_NoDup {T} (P : N * T -> Prop) `{forall x, Decision (P x)} (m : gmap N T) :
  NoDup (voters P m).
Proof.
  unfold voters. eapply sublist_NoDup; [apply (NoDup_fst_map_to_list m)|].
  apply (fmap_sublist fst), sublist_filter.
Qed.

Lemma voters_le {T U} (P : N * T -> Prop) `{forall x, Decision (P x)}
    (Q : N * U -> Prop) `{forall x, Decision (Q x)} (m : gmap N T) (m' : gmap N U) :
  (forall i x, m !! i = Some x -> P (i, x) -> exists y, m' !! i = Some y /\ Q (i, y)) ->
  lenN (voters P m) <= lenN (voters Q m').
Proof.
  intros H'. unfold lenN.
  assert (Hs : voters P m ⊆+ voters Q m').
  { apply NoDup_submseteq; [apply voters_NoDup|]. intros i (x & Hx & Hp)%voters_elem.
    apply voters_elem. eauto. }
  apply submseteq_length in Hs. lia.
Qed.

Lemma change_view_votes_voters s target :
  change_view_votes s target = lenN (voters (fun '(_, (latest, _)) => target <= latest) (rs_change_views s)).
Proof. unfold change_view_votes, voters, lenN. by rewrite length_map. Qed.

(** A request that is not superseded keeps every tally up to its target. *)
Lemma change_view_votes_insert s i target m view v cvs :
  view <= target ->
  (forall latest m', rs_change_views s !! i = Some (latest, m') -> latest <= target) ->
  cvs = <[i := (target, m)]> (rs_change_views s) ->
  change_view_votes s view <= change_view_votes (set_votes s v (views s) cvs) view.
Proof.
  intros Hle Hsup ->. rewrite !change_view_votes_voters. apply voters_le.
  intros j [latest m'] Hj Hl. simpl. destruct (decide (i = j)) as [<-|Hne].
  - rewrite lookup_insert_eq. eexists. split; [done|]. simpl. lia.
  - rewrite lookup_insert_ne by done. eauto.
Qed.

Lemma set_votes_extends s view cvs : current_view s <= view -> extends s (set_votes s view (views s) cvs).
Proof. intros Hv. unfold extends, same_round. split_and!; done. Qed.

Lemma set_votes_inv s view i target m d p :
  round_inv s -> authenticated (rs_height s) (rs_validators s) m d p -> message_type d = ChangeView ->
  validator_index d = i -> view_number d + 1 = target -> current_view s <= view ->
  (view = 0 \/ quorum s <=
     change_view_votes (set_votes s view (views s) (<[i := (target, m)]> (rs_change_views s))) view) ->
  round_inv (set_votes s view (views s) (<[i := (target, m)]> (rs_change_views s))).
Proof.
  intros Hi Ha Ht Hidx Htar Hv Hcur. pose proof (set_votes_extends s view
    (<[i := (target, m)]> (rs_change_views s)) Hv) as Hext.
  destruct Hi as [H1 H2 H3 H4 H5 H6 H7 H8]. constructor; try done.
  - intros w st Hw. eapply view_ok_extends; [exact Hext|]. by apply H5.
  - simpl. intros j t' m'. destruct (decide (i = j)) as [<-|Hne].
    + rewrite lookup_insert_eq. intros [= <- <-]. eauto 10.
    + rewrite lookup_insert_ne by done. apply H6.
Qed.

Lemma apply_change_view_inv s m d p :
  round_inv s -> authenticated (rs_height s) (rs_validators s) m d p -> message_type d = ChangeView ->
  let s' := (apply_change_view s m d).1 in round_inv s' /\ extends s s'.
Proof.
  intros Hi Ha Ht. unfold apply_change_view.
  destruct (checked_add U8_MAX (view_number d) 1) as [target|] eqn:Et; [|split; [done|apply extends_refl]].
  apply checked_add_Some in Et as [-> _]. set (target := view_number d + 1).
  destruct (N.leb_spec target (current_view s)); [split; [done|apply extends_refl]|].
  set (superseded := match rs_change_views s !! _ with Some _ => _ | None => _ end).
  destruct superseded eqn:Esup; [split; [done|apply extends_refl]|].
  assert (Hsup : forall latest m', rs_change_views s !! validator_index d = Some (latest, m') ->
    latest <= target).
  { intros latest m' E. subst superseded. rewrite E in Esup. by apply N.ltb_ge in Esup. }
  set (cvs := <[validator_index d := (target, m)]> (rs_change_views s)).
  assert (Hin : round_inv (set_votes s (current_view s) (views s) cvs)).
  { eapply set_votes_inv; try done. destruct (ri_current s Hi) as [|Hq]; [by left|right].
    etrans; [exact Hq|]. apply (change_view_votes_insert s (validator_index d) target m); [lia|done|done]. }
  assert (Hext : extends s (set_votes s (current_view s) (views s) cvs)) by (by apply set_votes_extends).
  destruct (N.leb_spec (quorum (set_votes s (current_view s) (views s) cvs))
    (change_view_votes (set_votes s (current_view s) (views s) cvs) target)) as [Hq|]; [|done].
  simpl. assert (Hnew : round_inv (set_votes s target (views s) cvs)).
  { eapply set_votes_inv; try done; [lia|by right]. }
  split.
  - apply update_view_inv; [exact Hnew|]. apply (entry_ok _ target Hnew).
  - eapply extends_trans; [apply (set_votes_extends s target cvs); lia|apply update_view_extends].
Qed.

(** One vote added to a view. *)
Lemma update_view_step s view f :
  round_inv s -> view_ok s view (f (default view_default (views s !! view))) ->
  round_inv (update_view s view f) /\ extends s (update_view s view f).
Proof. intros Hi Hv. split; [by apply update_view_inv|apply update_view_extends]. Qed.

Lemma add_commit_inv s m d commit :
  round_inv s -> consensus_data m = Ok d -> decoded_payload d = Ok (DecodedCommit commit) ->
  rs_messages s !! (view_number d, Commit, validator_index d) = Some m ->
  let s' := update_view s (view_number d) (fun v => add_commit v (validator_index d) commit) in
  round_inv s' /\ extends s s'.
Proof.
  intros Hi Hd Hp Hm. pose proof (entry_ok s (view_number d) Hi) as [H1 H2 H3 H4 H5 H6].
  apply update_view_step; [done|]. constructor; simpl; try done. intros i c Hl.
  destruct (decide (validator_index d = i)) as [<-|Hne].
  - rewrite lookup_insert_eq in Hl. injection Hl as <-. by exists m, d.
  - rewrite lookup_insert_ne in Hl by done. by apply H4.
Qed.

(** The payload transitions, on a state that retains the message. *)
Lemma apply_payload_inv s m d p :
  round_inv s -> authenticated (rs_height s) (rs_validators s) m d p ->
  rs_messages s !! seen_key d = Some m -> payload_type p <> RecoveryMessage ->
  let s' := (apply_payload s m d p).1 in round_inv s' /\ extends s s'.
Proof.
  intros Hi Ha Hm Hnr. pose proof Ha as (_ & _ & _ & Hd & Hp & _).
  pose proof (decoded_payload_type _ _ Hp) as Ht. unfold seen_key in Hm. rewrite Ht in Hm.
  pose proof (entry_ok s (view_number d) Hi) as He. pose proof He as [H1 H2 H3 H4 H5 H6].
  destruct p as [cv|request|response|pre_commit|commit|rr|rm]; simpl in *.
  - by apply (apply_change_view_inv s m d (DecodedChangeView cv)).
  - destruct (N.eqb_spec (validator_index d) (primary_index s (view_number d))) as [Ei|];
      [|split; [done|apply extends_refl]].
    cbn [negb]. destruct (negb _); [split; [done|apply extends_refl]|]. cbn [fst]. rewrite Ei in Hm.
    apply update_view_step; [done|]. constructor; simpl; try done.
    + by intros ? [= <-].
    + intros header Hh. destruct (H5 _ Hh) as (m' & Hm' & Hf). exists m. split; [done|].
      assert (m' = m) as -> by (apply H1 in Hm'; congruence). done.
  - destruct (N.eqb_spec (validator_index d) (primary_index s (view_number d))) as [|Ei];
      [split; [done|apply extends_refl]|]. simpl.
    apply update_view_step; [done|]. constructor; simpl; try done. intros i hash Hl.
    destruct (decide (validator_index d = i)) as [<-|Hne].
    + rewrite lookup_insert_eq in Hl. injection Hl as <-. split; [done|]. exists m, d.
      destruct response. by split_and!.
    + rewrite lookup_insert_ne in Hl by done. by apply H2.
  - destruct (negb (anti_mev s)); [split; [done|apply extends_refl]|].
    assert (Hadd : (forall n, (v ← views s !! view_number d; pre_block_envelope_count v) = Some n ->
        share_count pre_commit <= n) ->
      let s' := update_view s (view_number d) (fun v => set_pre_commits v (pre_block_envelope_count v)
        (<[validator_index d := pre_commit]> (vs_pre_commits v))) in round_inv s' /\ extends s s').
    { intros Hn. apply update_view_step; [done|]. constructor; simpl; try done. intros i c Hl.
      destruct (decide (validator_index d = i)) as [<-|Hne].
      - rewrite lookup_insert_eq in Hl. injection Hl as <-. split; [|by exists m, d].
        destruct (views s !! view_number d); [exact Hn|done].
      - rewrite lookup_insert_ne in Hl by done. by apply H3. }
    destruct (v ← views s !! view_number d; pre_block_envelope_count v) as [n|]; [|by apply Hadd].
    destruct (N.ltb_spec n (share_count pre_commit)); [split; [done|apply extends_refl]|].
    apply Hadd. by intros ? [= <-].
  - set (s1 := update_view s (view_number d) _).
    assert (Hs1 : round_inv s1 /\ extends s s1)
      by (by apply (add_commit_inv s m d commit)).
    destruct Hs1 as [Hi1 He1]. destruct (refresh_inv s1 (view_number d) Hi1) as [Hi2 He2].
    destruct (refresh_verified_seal s1 (view_number d)) as [s2 [u|e]]; simpl in *;
      (split; [done|by eapply extends_trans]).
  - split; [done|apply extends_refl].
  - done.
Qed.

Lemma process_recovered_inv proc rcv rv expanded : forall next outcome s' o,
  (forall s m, round_inv s -> round_inv (proc s m).1 /\ extends s (proc s m).1) ->
  round_inv next -> process_recovered proc rcv rv next outcome expanded = Ok (s', o) ->
  round_inv s' /\ extends next s'.
Proof.
  induction expanded as [|m expanded IH]; intros next outcome s' o Hproc Hi H; simpl in H.
  - injection H as <- <-. split; [done|apply extends_refl].
  - apply result_bind_Ok in H as (data & _ & H). destruct (should_process _ _ _ _); [|by eapply IH].
    destruct (Hproc next m Hi) as [Hi1 He1]. destruct (proc next m) as [n1 [pr|e]]; [|done].
    destruct (IH _ _ _ _ Hproc Hi1 H) as [Hi2 He2]. split; [done|by eapply extends_trans].
Qed.

Lemma process_fuel_inv fuel : forall s m,
  round_inv s -> round_inv (process_fuel fuel s m).1 /\ extends s (process_fuel fuel s m).1.
Proof.
  induction fuel as [|fuel IH]; intros s m Hi; cbn [process_fuel]; [split; [done|apply extends_refl]|].
  unfold process_body.
  destruct (check_message s m) as [[d p]|e] eqn:Ec; [|split; [done|apply extends_refl]].
  apply check_message_Ok in Ec as [Ha _]. pose proof Ha as (_ & _ & _ & _ & Hp & _).
  pose proof (decoded_payload_type _ _ Hp) as Ht.
  destruct (if exclusive (message_type d) then seen s !! seen_key d else None) as [prior|] eqn:Es.
  { case_bool_decide; (split; [done|apply extends_refl]). }
  assert (Hnew : exclusive (message_type d) = true -> seen s !! seen_key d = None)
    by (intros E; by rewrite E in Es).
  assert (Hplain : payload_type p <> RecoveryMessage ->
    let s' := (apply_payload (retain_message s m d) m d p).1 in round_inv s' /\ extends s s').
  { intros Hnr. pose proof (retain_message_inv s m d p Hi Ha Hnew) as Hi1.
    destruct (apply_payload_inv (retain_message s m d) m d p Hi1 Ha
      ltac:(simpl; by rewrite lookup_insert_eq) Hnr) as [Hi2 He2].
    split; [done|]. eapply extends_trans; [by apply retain_message_extends|done]. }
  destruct p as [| | | | | |recovery]; try (by apply Hplain).
  destruct (retain_control_inv s m d _ Hi Ha ltac:(by rewrite Ht)) as [Hi1 He1].
  destruct (result_bind _ _) as [[next o]|e] eqn:Er; [|split; [done|apply extends_refl]].
  apply result_bind_Ok in Er as (expanded & _ & Er).
  destruct (process_recovered_inv _ _ _ _ _ _ _ _ IH Hi1 Er) as [Hi2 He2].
  split; [done|by eapply extends_trans].
Qed.

(** ** Reachable rounds

    A round is created for one height, given the DKG state before use when the fork
    needs it, and then driven by messages and finalizations in any order. *)

Inductive round_step : DbftRoundState -> DbftRoundState -> Prop :=
| step_process s m : round_step s (process s m).1
| step_finalize_pre_block s view header n : round_step s (finalize_pre_block s view header n).1
| step_finalize_proposal s view header : round_step s (finalize_proposal s view header).1.

Inductive round_reachable : DbftRoundState -> Prop :=
| reach_new height vs am s : round_new height vs am = Ok s -> round_reachable s
| reach_install height vs am s indices st s' :
    round_new height vs am = Ok s -> install_dkg_state s indices st = (s', Ok tt) -> round_reachable s'
| reach_step s s' : round_reachable s -> round_step s s' -> round_reachable s'.

Lemma round_new_Ok height vs am s :
  round_new height vs am = Ok s <->
  1 <= lenN vs <= MAX_VALIDATOR_COUNT /\ NoDup vs /\
  s = mkDbftRoundState height (sort_bytes vs) (bft_honest_node_count (lenN vs)) am 0
        {[0 := view_default]} ∅ ∅ ∅ None None.
Proof.
  unfold round_new. assert (El : lenN (sort_bytes vs) = lenN vs) by apply lenN_sort_bytes.
  case_bool_decide as Ev.
  { subst vs. split; [done|]. intros [[H _] _]. done. }
  assert (1 <= lenN vs) by (destruct vs; [done|]; unfold lenN; simpl; lia).
  destruct (N.ltb_spec MAX_VALIDATOR_COUNT (lenN vs)); simpl; [naive_solver lia|]. rewrite El.
  destruct (adjacent_repeat (sort_bytes vs)) eqn:Ea.
  - split; [done|]. intros (_ & Hn & _). apply adjacent_repeat_sort_None in Hn. by rewrite Hn in Ea.
  - apply adjacent_repeat_sort_None in Ea. naive_solver.
Qed.

Lemma round_new_inv height vs am s : round_new height vs am = Ok s -> round_inv s.
Proof.
  intros (Hl & Hn & ->)%round_new_Ok. constructor; simpl; try (by intros); [| |by left].
  - unfold base_ok. simpl. rewrite lenN_sort_bytes. split_and!; try done; try apply Hl.
    + by apply sort_bytes_NoDup.
    + apply sort_bytes_sorted.
  - intros view v. destruct (decide (view = 0)) as [->|Hne].
    + rewrite lookup_singleton_eq. intros [= <-]. apply view_default_ok.
    + by rewrite lookup_singleton_ne.
Qed.

Lemma install_dkg_state_Ok s indices st s' :
  install_dkg_state s indices st = (s', Ok tt) ->
  length indices = length (rs_validators s) /\
  indices ≡ₚ map N.of_nat (seq 1 (length (rs_validators s))) /\
  s' = mkDbftRoundState (rs_height s) (rs_validators s) (quorum s) (anti_mev s) (current_view s) (views s)
         (rs_change_views s) (seen s) (rs_messages s) (Some indices) (Some st).
Proof.
  unfold install_dkg_state. destruct (N.eqb_spec (lenN indices) (lenN (rs_validators s))); [|done].
  simpl. case_bool_decide as Hs; [|done]. intros [= <-]. split_and!; [unfold lenN in *; lia| |done].
  rewrite <- Hs. symmetry. apply merge_sort_Permutation.
Qed.

Lemma install_inv s indices st s' :
  views s = {[0 := view_default]} -> round_inv s ->
  install_dkg_state s indices st = (s', Ok tt) -> round_inv s'.
Proof.
  intros Hv Hi (Hl & _ & ->)%install_dkg_state_Ok.
  destruct Hi as [H1 H2 H3 H4 H5 H6 H7 H8]. constructor; simpl; try done.
  - intros view v E. rewrite Hv in E. apply lookup_singleton_Some in E as [<- <-].
    apply view_default_ok.
  - by intros ? [= <-].
Qed.

Lemma round_step_inv s s' : round_inv s -> round_step s s' -> round_inv s' /\ extends s s'.
Proof.
  intros Hi Hs. destruct Hs.
  - by apply process_fuel_inv.
  - by apply finalize_pre_block_inv.
  - by apply finalize_proposal_inv.
Qed.

Lemma round_reachable_inv s : round_reachable s -> round_inv s.
Proof.
  induction 1 as [height vs am s H|height vs am s indices st s' H Hins|s s' _ IH Hs].
  - by eapply round_new_inv.
  - pose proof (round_new_inv _ _ _ _ H) as Hi. apply round_new_Ok in H as (_ & _ & ->).
    refine (install_inv _ _ _ _ _ Hi Hins). done.
  - apply (round_step_inv s s' IH Hs).
Qed.

(** ** Certificates *)

(** [m] is a preparation, by validator [i], of the proposal with hash [hash] in [view]:
    the request itself or a response naming it. *)
Definition prepares (h : N) (vs : list Address) (view : N) (hash : B256) (i : N) (m : DbftMessage)
    : Prop :=
  exists d p, authenticated h vs m d p /\ view_number d = view /\ validator_index d = i /\
    ((exists request, p = DecodedPrepareRequest request /\ message_hash m = hash) \/
     p = DecodedPrepareResponse (mkDbftPrepareResponse hash)).
Definition prepare_vote (h : N) (vs : list Address) (view : N) (hash : B256) (i : N) : Prop :=
  exists m, prepares h vs view hash i m.

Lemma prepares_functional h vs view hash1 hash2 i m :
  prepares h vs view hash1 i m -> prepares h vs view hash2 i m -> hash1 = hash2.
Proof.
  intros (d1 & p1 & (_ & _ & _ & Hd1 & Hp1 & _) & _ & _ & H1)
    (d2 & p2 & (_ & _ & _ & Hd2 & Hp2 & _) & _ & _ & H2).
  assert (d2 = d1) as -> by congruence. assert (p2 = p1) as -> by congruence.
  destruct H1 as [(? & -> & ?)| -> ], H2 as [(? & ? & ?)|?]; congruence.
Qed.

(** Validator [i] signed a pre-commit of [view] with at most [n] shares. *)
Definition pre_commit_vote (h : N) (vs : list Address) (view n i : N) : Prop :=
  exists m d c, authenticated h vs m d (DecodedPreCommit c) /\ view_number d = view /\
    validator_index d = i /\ share_count c <= n.

Definition change_view_vote (h : N) (vs : list Address) (view i : N) : Prop :=
  exists m d p, authenticated h vs m d p /\ message_type d = ChangeView /\ validator_index d = i /\
    view <= view_number d + 1.

(** At least [q] distinct validators satisfy [P]. *)
Definition at_least (q : N) (P : N -> Prop) (l : list N) : Prop :=
  NoDup l /\ q <= lenN l /\ forall i, i ∈ l -> P i.

Lemma retained_auth s key m d p :
  round_inv s -> rs_messages s !! key = Some m -> consensus_data m = Ok d -> decoded_payload d = Ok p ->
  authenticated (rs_height s) (rs_validators s) m d p /\ seen_key d = key.
Proof.
  intros Hi Hm Hd Hp. destruct (ri_retained s Hi _ _ Hm) as (d' & p' & Ha & Hk).
  pose proof Ha as (_ & _ & _ & Hd' & Hp' & _). rewrite Hd in Hd'. injection Hd' as <-.
  rewrite Hp in Hp'. injection Hp' as <-. done.
Qed.

Lemma proposal_vote s view v m :
  round_inv s -> views s !! view = Some v -> proposal v = Some m ->
  prepare_vote (rs_height s) (rs_validators s) view (message_hash m) (primary_index s view).
Proof.
  intros Hi Hv Hm. pose proof (vo_proposal s view v (ri_views s Hi _ _ Hv) m Hm) as Hr.
  destruct (ri_retained s Hi _ _ Hr) as (d & p & Ha & Hk). injection Hk as Hvw Ht Hidx.
  exists m, d, p. split_and!; try done. left. pose proof Ha as (_ & _ & _ & _ & Hp & _).
  apply decoded_payload_type in Hp. rewrite Ht in Hp. destruct p; try done. eauto.
Qed.

Lemma matching_voters s view v m :
  round_inv s -> views s !! view = Some v -> proposal v = Some m ->
  exists l, NoDup l /\ lenN l = 1 + matching_responses v (message_hash m) /\
    forall i, i ∈ l -> prepare_vote (rs_height s) (rs_validators s) view (message_hash m) i.
Proof.
  intros Hi Hv Hm. pose proof (ri_views s Hi _ _ Hv) as Hok.
  set (P := fun e : N * B256 => e.2 = message_hash m).
  exists (primary_index s view :: voters P (responses v)). split_and!.
  - constructor; [|apply voters_NoDup]. intros (h & Hh & _)%voters_elem.
    by destruct (vo_responses s view v Hok _ _ Hh).
  - unfold matching_responses, voters, lenN. simpl. rewrite length_map.
    rewrite (filter_ext_in P (fun '(_, response) => response = message_hash m)); [lia|].
    by intros [? ?] _.
  - intros i [->|(h & Hh & E)%voters_elem]%elem_of_cons; [by eapply proposal_vote|].
    unfold P in E. simpl in E. subst h.
    destruct (vo_responses s view v Hok _ _ Hh) as (_ & m' & d & Hr & Hd & Hp).
    destruct (retained_auth s _ _ _ _ Hi Hr Hd Hp) as [Ha Hk]. injection Hk as Hvw _ Hidx.
    exists m', d, (DecodedPrepareResponse (mkDbftPrepareResponse (message_hash m))).
    split_and!; try done. by right.
Qed.

Lemma pre_commit_voters s view v n :
  round_inv s -> views s !! view = Some v -> pre_block_envelope_count v = Some n ->
  at_least (sizeN (vs_pre_commits v)) (pre_commit_vote (rs_height s) (rs_validators s) view n)
    (voters (fun _ => True) (vs_pre_commits v)).
Proof.
  intros Hi Hv Hn. split_and!.
  - apply voters_NoDup.
  - unfold voters, lenN, sizeN. rewrite length_map, filter_all by (by apply Forall_true).
    by rewrite length_map_to_list.
  - intros i (c & Hc & _)%voters_elem.
    destruct (vo_pre_commits s view v (ri_views s Hi _ _ Hv) _ _ Hc) as (Hs & m & d & Hr & Hd & Hp).
    destruct (retained_auth s _ _ _ _ Hi Hr Hd Hp) as [Ha Hk]. injection Hk as Hvw _ Hidx.
    exists m, d, c. split_and!; try done. by apply Hs.
Qed.

(** A view that got past [Accepted] has a proposal with a quorum of preparations. *)
Lemma progress_prepared s view :
  round_inv s -> progress s view <> Accepted ->
  exists v m l, views s !! view = Some v /\ proposal v = Some m /\
    lenN l = 1 + matching_responses v (message_hash m) /\
    at_least (quorum s) (prepare_vote (rs_height s) (rs_validators s) view (message_hash m)) l.
Proof.
  intros Hi. unfold progress. destruct (views s !! view) as [v|] eqn:Hv; [|done].
  destruct (proposal v) as [m|] eqn:Hm; [|done]. cbv zeta.
  destruct (N.ltb_spec (1 + matching_responses v (message_hash m)) (quorum s)) as [|Hq]; [done|].
  intros _. destruct (matching_voters s view v m Hi Hv Hm) as (l & Hn & Hl & Hvotes).
  exists v, m, l. split; [done|]. split; [done|]. split; [done|].
  split; [done|]. split; [by rewrite Hl|done].
Qed.


Lemma vote_index h vs view hash i : prepare_vote h vs view hash i -> i < lenN vs.
Proof.
  intros (m & d & p & (_ & _ & _ & _ & _ & Hl) & _ & <- & _). apply lookup_lt_Some in Hl.
  unfold lenN. lia.
Qed.

(** C11. No two proposals in one view without provable faults. If two rounds of the same
    height and validator set, on any two nodes and after any messages, both have a
    prepared proposal in the same view with different hashes, then more than
    [(n-1)/3] validators each signed two different messages of that view, preparing
    one proposal and the other. *)
Theorem prepared_agreement s1 s2 view hash1 hash2 votes1 votes2 :
  round_reachable s1 -> round_reachable s2 ->
  rs_height s1 = rs_height s2 -> rs_validators s1 = rs_validators s2 ->
  progress s1 view = Prepared view hash1 votes1 -> progress s2 view = Prepared view hash2 votes2 ->
  hash1 <> hash2 ->
  exists faulty, NoDup faulty /\ (lenN (rs_validators s1) - 1) / 3 < lenN faulty /\
    forall i, i ∈ faulty -> exists m1 m2, m1 <> m2 /\
      prepares (rs_height s1) (rs_validators s1) view hash1 i m1 /\
      prepares (rs_height s1) (rs_validators s1) view hash2 i m2.
Proof.
  intros Hr1 Hr2 Eh Ev P1 P2 Hne. apply round_reachable_inv in Hr1, Hr2.
  assert (Hcert : forall s hash votes, round_inv s -> progress s view = Prepared view hash votes ->
    exists l, at_least (quorum s) (prepare_vote (rs_height s) (rs_validators s) view hash) l).
  { intros s hash votes Hi P. destruct (progress_prepared s view Hi ltac:(by rewrite P))
      as (v & m & l & Hv & Hm & _ & Hat). exists l.
    assert (hash = message_hash m) as ->; [|done]. unfold progress in P. rewrite Hv, Hm in P.
    cbv zeta in P. repeat (destruct (_ : bool); try done); by injection P. }
  destruct (Hcert s1 _ _ Hr1 P1) as (l1 & Hn1 & Hq1 & Hv1).
  destruct (Hcert s2 _ _ Hr2 P2) as (l2 & Hn2 & Hq2 & Hv2). rewrite <- Eh, <- Ev in Hv2.
  destruct (ri_base s1 Hr1) as (Q1 & _ & _ & Hb). destruct (ri_base s2 Hr2) as (Q2 & _).
  rewrite <- Ev in Q2. set (n := lenN (rs_validators s1)) in *.
  exists (filter (.∈ l2) l1). split_and!.
  - by apply NoDup_filter.
  - assert (Hidx : forall l hash, (forall i, i ∈ l ->
      prepare_vote (rs_height s1) (rs_validators s1) view hash i) -> l ⊆ map N.of_nat (seq 0 (N.to_nat n))).
    { intros l hash Hl i Hi. apply Hl, vote_index in Hi. apply list_elem_of_fmap.
      exists (N.to_nat i). split; [lia|]. apply elem_of_seq. lia. }
    pose proof (NoDup_incl_overlap (map N.of_nat (seq 0 (N.to_nat n))) l1 l2 Hn1 Hn2
      (Hidx _ _ Hv1) (Hidx _ _ Hv2)
      ltac:(apply NoDup_fmap_2; [intros ?? ?; lia|apply NoDup_seq])) as Hov.
    rewrite length_map, length_seq in Hov.
    destruct (bft_honest_node_count_fault n ltac:(lia)) as (_ & _ & Hf).
    set (f := (n - 1) / 3) in *. clearbody f. unfold lenN in *. lia.
  - intros i [Hi2 Hi1]%list_elem_of_filter. destruct (Hv1 i Hi1) as [m1 H1], (Hv2 i Hi2) as [m2 H2].
    exists m1, m2. split_and!; [|done|done]. intros ->. by eapply Hne, prepares_functional.
Qed.

(** ** View changes *)

(** C14. Views move forward only, and only on a quorum: in a reachable round past view 0 a
    quorum of distinct validators signed change-view requests for the current view or
    beyond; no step lowers the view, and a message lowers no retained vote. *)
Theorem view_change_certified s :
  round_reachable s ->
  (current_view s = 0 \/
   exists l, at_least (quorum s)
     (change_view_vote (rs_height s) (rs_validators s) (current_view s)) l) /\
  forall s', round_step s s' -> extends s s'.
Proof.
  intros Hr. apply round_reachable_inv in Hr as Hi. split; [|intros s' Hs; by apply round_step_inv].
  destruct (ri_current s Hi) as [|Hq]; [by left|right]. rewrite change_view_votes_voters in Hq.
  refine (ex_intro _ _ (conj (voters_NoDup _ _) (conj Hq _))).
  intros i ([latest m] & Hl & Hle)%voters_elem. simpl in Hle.
  destruct (ri_change_views s Hi _ _ _ Hl) as (d & p & Ha & Ht & Hidx & <-).
  exists m, d, p. by split_and!.
Qed.

(** ** One vote per slot *)

(** Equivocation and replays: once a validator's preparation, pre-commit or commit for
    a view is retained, an identical message is reported as a duplicate, any other
    authentic message for the same slot is reported as equivocation with both hashes,
    and in either case the round does not change. *)
Theorem vote_once s m d p m0 :
  round_reachable s -> check_message s m = Ok (d, p) -> exclusive (message_type d) = true ->
  rs_messages s !! seen_key d = Some m0 ->
  process s m =
    (s, if bool_decide (message_hash m0 = message_hash m) then Ok DuplicateMessage
        else Err (Equivocation (view_number d) (message_type d) (validator_index d)
                    (message_hash m0) (message_hash m))).
Proof.
  intros Hr Hc Hex Hm. apply round_reachable_inv in Hr as Hi. unfold process. cbn [process_fuel].
  unfold process_body. rewrite Hc, Hex. rewrite (ri_exclusive s Hi (seen_key d) m0 Hex Hm). by case_bool_decide.
Qed.

(** ** Recursion and panics *)

Lemma check_message_data s m d p d' :
  check_message s m = Ok (d, p) -> consensus_data m = Ok d' -> d' = d.
Proof. intros [(_ & _ & _ & Hd & _) _]%check_message_Ok Hd'. congruence. Qed.

(** A message that is not a recovery is processed without recursion. *)
Lemma process_body_plain recur recur' s m d :
  consensus_data m = Ok d -> message_type d <> RecoveryMessage ->
  process_body recur s m = process_body recur' s m.
Proof.
  intros Hd Ht. unfold process_body. destruct (check_message s m) as [[d' p]|] eqn:Ec; [|done].
  pose proof (check_message_data _ _ _ _ _ Ec Hd) as <-.
  apply check_message_Ok in Ec as [(_ & _ & _ & _ & Hp & _) _].
  apply decoded_payload_type in Hp.
  destruct (if exclusive (message_type d) then _ else _); [done|]. destruct p; try done.
Qed.

Lemma process_recovered_plain n rcv rv expanded : forall next outcome,
  process_recovered (process_fuel (S n)) rcv rv next outcome expanded =
  process_recovered (process_fuel 1) rcv rv next outcome expanded.
Proof.
  induction expanded as [|m expanded IH]; intros next outcome; [done|]. cbn [process_recovered].
  destruct (consensus_data m) as [d|] eqn:Hd; [|done]. cbn [map_err result_bind].
  destruct (should_process _ _ _ _) eqn:Es; [|apply IH].
  assert (Ht : message_type d <> RecoveryMessage) by (intros E; by rewrite E in Es).
  assert (E : process_fuel (S n) next m = process_fuel 1 next m) by (by eapply process_body_plain).
  rewrite E. destruct (process_fuel 1 next m) as [s' [pr|]]; [apply IH|done].
Qed.

Lemma process_body_stable n s m : process_body (process_fuel (S n)) s m = process_body (process_fuel 1) s m.
Proof.
  unfold process_body. destruct (check_message s m) as [[d p]|]; [|done].
  destruct (if exclusive (message_type d) then _ else _); [done|]. destruct p; try done.
  destruct (expand _ _ _); [|done]. cbn [map_err result_bind]. by rewrite process_recovered_plain.
Qed.

Lemma process_fuel_stable n s m : process_fuel (S (S n)) s m = process s m.
Proof. exact (process_body_stable n s m). Qed.

Lemma threshold_shares_total indices commits :
  Forall (fun c : N * DbftCommit => c.1 < lenN indices) commits ->
  exists shares, threshold_shares indices commits = Ok shares.
Proof.
  intros Hc. unfold threshold_shares.
  set (f := fun '(index, commit) => _). assert (Hf : exists l, collect_result f commits = Ok l).
  { induction Hc as [|[i c] commits Hi Hc [l IH]]; [by exists []|]. cbn [collect_result].
    assert (Hx : exists x, f (i, c) = Ok x).
    { unfold f. destruct (validated_signature c) as [[|share]|]; try by eexists.
      destruct (lookup_lt_is_Some_2 indices (N.to_nat i)) as [k ->]; [unfold lenN in Hi; simpl in Hi; lia|].
      by eexists. }
    destruct Hx as [x ->]. cbn [result_bind]. rewrite IH. by eexists. }
  destruct Hf as [l ->]. by eexists.
Qed.

Lemma verify_commit_quorum_no_panic s view :
  round_inv s -> verify_commit_quorum s view <> Err RoundPanicked.
Proof.
  intros Hi. unfold verify_commit_quorum. destruct (views s !! view) as [v|] eqn:Hv; [|done].
  destruct (final_header v) as [header|]; [|done]. destruct (_ <? _); [done|].
  destruct (DbftExtraPrefix.decode _) as [extra|]; [|done]. cbn [map_err result_bind].
  destruct (DbftExtraPrefix.signature_scheme extra).
  { by destruct (ecdsa_seal_hash header). }
  destruct (rs_dkg_state s) as [st|]; [|done]. destruct (rs_dkg_indices s) as [indices|] eqn:Ed; [|done].
  cbn [ok_or result_bind]. destruct (threshold_shares_total indices
    (sort_by_index (map_to_list (vs_commits v)))) as [shares ->].
  - rewrite sort_by_index_perm. apply Forall_forall. intros [i c] Hc. apply elem_of_map_to_list in Hc.
    destruct (vo_commits s view v (ri_views s Hi _ _ Hv) _ _ Hc) as (m & d & Hr & Hd & Hp).
    destruct (retained_auth s _ _ _ _ Hi Hr Hd Hp) as [(_ & _ & _ & _ & _ & Hl) Hk].
    injection Hk as _ _ <-. apply lookup_lt_Some in Hl. unfold lenN. simpl.
    rewrite (ri_dkg s Hi _ Ed). lia.
  - cbn [result_bind]. destruct (_ <? _); [done|]. destruct (threshold_seal_message header); [|done].
    cbn [map_err result_bind].
    by destruct (aggregate_and_verify_signature_shares_with_parameters _ _ _ _ _ _ _) as [|[]].
Qed.

(** The two errors the source does not have. *)
Definition genuine {A} (r : result DbftStateError A) : Prop :=
  r <> Err RoundPanicked /\ r <> Err RecursionLimit.

Lemma genuine_err {A A'} e :
  genuine (Err e : result DbftStateError A) -> genuine (Err e : result DbftStateError A').
Proof. unfold genuine. naive_solver. Qed.

Lemma genuine_bind {A A'} (r : result DbftStateError A) (k : A -> result DbftStateError A') :
  genuine r -> (forall a, r = Ok a -> genuine (k a)) -> genuine (result_bind r k).
Proof. unfold genuine. destruct r; simpl; naive_solver. Qed.

Lemma genuine_map_err {E A} (f : E -> DbftStateError) (r : result E A) :
  (forall e, f e <> RoundPanicked /\ f e <> RecursionLimit) -> genuine (map_err f r).
Proof. intros Hf. unfold genuine. destruct r as [|e]; simpl; [done|]. specialize (Hf e). naive_solver. Qed.

Lemma check_message_genuine s m : genuine (check_message s m).
Proof.
  unfold check_message. apply genuine_bind; [by apply genuine_map_err|]. intros hash _.
  destruct (_ || _); [done|]. apply genuine_bind; [by apply genuine_map_err|]. intros d _.
  apply genuine_bind; [by apply genuine_map_err|]. intros p _.
  apply genuine_bind; [by destruct (_ !! _)|]. intros a _. destruct (negb _); [done|].
  destruct (message_type d); try done; by destruct (_ : bool).
Qed.

Lemma verify_commit_quorum_genuine s view : round_inv s -> genuine (verify_commit_quorum s view).
Proof.
  intros Hi. split; [by apply verify_commit_quorum_no_panic|]. unfold verify_commit_quorum.
  destruct (views s !! view) as [v|]; [|done]. destruct (final_header v) as [header|]; [|done].
  destruct (_ <? _); [done|]. destruct (DbftExtraPrefix.decode _) as [extra|]; [|done].
  cbn [map_err result_bind]. destruct (DbftExtraPrefix.signature_scheme extra).
  { by destruct (ecdsa_seal_hash header). }
  destruct (rs_dkg_state s) as [st|]; [|done]. destruct (rs_dkg_indices s) as [indices|]; [|done].
  cbn [ok_or result_bind]. unfold threshold_shares.
  set (f := fun '(index, commit) => _).
  assert (Hf : forall l, collect_result f l <> Err RecursionLimit).
  { induction l as [|[i c] l IH]; [done|]. cbn [collect_result]. unfold f at 1.
    destruct (validated_signature c) as [[|sh]|]; cbn [result_bind];
      [|destruct (indices !! _); [|done]; cbn [ok_or result_bind]|];
      by destruct (collect_result f l). }
  specialize (Hf (sort_by_index (map_to_list (vs_commits v)))).
  destruct (collect_result f _) as [shares|e]; [|naive_solver]. cbn [result_bind].
  destruct (_ <? _); [done|]. destruct (threshold_seal_message header); [|done].
  cbn [map_err result_bind].
  by destruct (aggregate_and_verify_signature_shares_with_parameters _ _ _ _ _ _ _) as [|[]].
Qed.

Lemma apply_payload_genuine s m d p :
  round_inv s -> authenticated (rs_height s) (rs_validators s) m d p ->
  rs_messages s !! seen_key d = Some m -> payload_type p <> RecoveryMessage ->
  genuine (apply_payload s m d p).2.
Proof.
  intros Hi (_ & _ & _ & Hd & Hp & _) Hm Hnr. pose proof (decoded_payload_type _ _ Hp) as Ht.
  unfold seen_key in Hm. rewrite Ht in Hm.
  destruct p as [cv|request|response|pre_commit|commit|rr|rm]; simpl in *; try done.
  - unfold apply_change_view. destruct (checked_add _ _ _); [|done]. destruct (_ <=? _); [done|].
    destruct (match rs_change_views s !! _ with Some _ => _ | None => _ end); [done|].
    by destruct (_ <=? _).
  - by repeat (destruct (_ : bool); try done).
  - by destruct (_ : bool).
  - destruct (negb _); [done|]. destruct (v ← _; _); [|done]. by destruct (_ <? _).
  - destruct (add_commit_inv s m d commit Hi Hd Hp Hm) as [Hi1 _].
    set (s1 := update_view s (view_number d) _) in *.
    pose proof (verify_commit_quorum_genuine s1 (view_number d) Hi1) as Hg.
    unfold refresh_verified_seal, genuine in *.
    destruct (verify_commit_quorum s1 (view_number d)); simpl; naive_solver.
Qed.

Lemma process_body_genuine recur s m :
  round_inv s ->
  (forall n m' d, round_inv n -> consensus_data m' = Ok d -> message_type d <> RecoveryMessage ->
     genuine (recur n m').2) ->
  (forall n m', round_inv n -> round_inv (recur n m').1 /\ extends n (recur n m').1) ->
  genuine (process_body recur s m).2.
Proof.
  intros Hi Hrec Hinv. unfold process_body. pose proof (check_message_genuine s m) as Hcg.
  destruct (check_message s m) as [[d p]|e] eqn:Ec; [|by eapply genuine_err].
  apply check_message_Ok in Ec as [Ha _]. pose proof Ha as (_ & _ & _ & _ & Hp & _).
  pose proof (decoded_payload_type _ _ Hp) as Ht.
  destruct (if exclusive (message_type d) then seen s !! seen_key d else None) as [prior|] eqn:Es.
  { by case_bool_decide. }
  assert (Hnew : exclusive (message_type d) = true -> seen s !! seen_key d = None)
    by (intros E; by rewrite E in Es).
  assert (Hplain : payload_type p <> RecoveryMessage ->
    genuine (apply_payload (retain_message s m d) m d p).2).
  { intros Hnr. apply apply_payload_genuine; try done; [by eapply retain_message_inv|].
    simpl. by rewrite lookup_insert_eq. }
  destruct p as [| | | | | |recovery]; try (by apply Hplain).
  destruct (retain_control_inv s m d _ Hi Ha ltac:(by rewrite Ht)) as [Hi1 _].
  set (next := set_retained _ _ _) in *. destruct (expand _ _ _) as [expanded|]; [|done].
  cbn [map_err result_bind]. generalize Accepted as o. clearbody next. revert Hi1.
  generalize (current_view s <? view_number d) as rcv. intros rcv.
  revert next. induction expanded as [|m' expanded IH]; intros next Hn o; [done|].
  cbn [process_recovered]. destruct (consensus_data m') as [d'|] eqn:Hd'; [|done].
  cbn [map_err result_bind]. destruct (should_process _ _ _ _) eqn:Esp; [|by apply IH].
  assert (Hnr : message_type d' <> RecoveryMessage) by (intros E; by rewrite E in Esp).
  specialize (Hrec next m' d' Hn Hd' Hnr). destruct (Hinv next m' Hn) as [Hn' _].
  destruct (recur next m') as [n' [pr|e]]; [by apply IH|]. done.
Qed.

Lemma process_genuine s m : round_inv s -> genuine (process s m).2.
Proof.
  intros Hi. apply (process_body_genuine (process_fuel 1)); [done| |intros; by apply (process_fuel_inv 1)].
  intros n m' d Hn Hd Ht. cbn [process_fuel].
  rewrite (process_body_plain _ (fun s _ => (s, Ok Accepted)) n m' d Hd Ht).
  apply process_body_genuine; [done|done|]. intros. split; [done|apply extends_refl].
Qed.

(** Processing always ends and never panics. The recursion stops at depth two; the
    [unreachable!] arm and the DKG index lookup are never hit; a message that fails the
    checks changes nothing; and a recovery message is atomic: if any contribution is
    rejected the whole message leaves the round as it was. *)
Theorem process_total s m :
  round_reachable s ->
  (forall n, process_fuel (S (S n)) s m = process s m) /\
  (process s m).2 <> Err RoundPanicked /\ (process s m).2 <> Err RecursionLimit /\
  (forall e, check_message s m = Err e -> process s m = (s, Err e)) /\
  (forall d p e, check_message s m = Ok (d, p) -> message_type d = RecoveryMessage ->
     (process s m).2 = Err e -> (process s m).1 = s).
Proof.
  intros Hr. apply round_reachable_inv in Hr as Hi. pose proof (process_genuine s m Hi) as [H1 H2].
  split_and!; try done.
  - intros n. apply process_fuel_stable.
  - intros e He. unfold process. cbn [process_fuel]. unfold process_body. by rewrite He.
  - intros d p e Hc Ht. unfold process. cbn [process_fuel]. unfold process_body. rewrite Hc.
    apply check_message_Ok in Hc as [(_ & _ & _ & _ & Hp & _) _].
    apply decoded_payload_type in Hp. rewrite Ht in *. simpl. destruct p; try done.
    by destruct (result_bind _ _) as [[next o]|].
Qed.
End proofs.
