(* ===== verification/RoundProgress.v ===== *)
(** What the round's answers mean to its driver: a reported progress is a certificate that
    later transitions do not take back, a proposal once recorded stays, and the view
    fits its byte (crates/neox/node/src/validator.rs). *)

From S2P Require Import Prelude Extern Instances Extra Validation Tpke Wire Payload Recovery.
From S2P Require Import DkgParams Storage Round.

Section progress.
Context {R : AlloyRlp} {C : Crypto} {B : Blst}.

(** ** What transitions keep *)

Definition kept (s s' : DbftRoundState) : Prop :=
  (forall view m, round_proposal s view = Some m -> round_proposal s' view = Some m) /\
  (current_view s <= U8_MAX -> current_view s' <= U8_MAX).

Lemma kept_refl s : kept s s.
Proof. done. Qed.

Lemma kept_trans s1 s2 s3 : kept s1 s2 -> kept s2 s3 -> kept s1 s3.
Proof. intros [H1 H2] [H3 H4]. split; eauto. Qed.

Lemma update_view_kept s view f :
  (forall m, proposal (default view_default (views s !! view)) = Some m ->
     proposal (f (default view_default (views s !! view))) = Some m) ->
  kept s (update_view s view f).
Proof.
  intros Hf. split; [|done]. intros w m. unfold round_proposal, update_view. cbn [set_views views].
  destruct (decide (view = w)) as [<-|Hne].
  - rewrite lookup_insert_eq. cbn [mbind option_bind]. destruct (views s !! view); [|done]. apply Hf.
  - by rewrite lookup_insert_ne.
Qed.

Lemma refresh_kept s view : kept s (refresh_verified_seal s view).1.
Proof.
  unfold refresh_verified_seal. destruct (verify_commit_quorum s view) as [seal|]; [|apply kept_refl].
  destruct (views s !! view) as [v|] eqn:E; [|apply kept_refl]. cbn [fst].
  pose proof (update_view_kept s view (fun v => set_header v (final_header v) seal)) as H.
  unfold update_view in H. rewrite E in H. by apply H.
Qed.

Lemma apply_change_view_kept s m d : kept s (apply_change_view s m d).1.
Proof.
  unfold apply_change_view. destruct (checked_add U8_MAX (view_number d) 1) as [target|] eqn:Et; [|apply kept_refl].
  apply checked_add_Some in Et as [-> Hle]. destruct (_ <=? _); [apply kept_refl|].
  destruct (match rs_change_views s !! _ with Some _ => _ | None => _ end); [apply kept_refl|].
  destruct (_ <=? _); [|done]. cbn [fst]. eapply kept_trans; [|apply update_view_kept; done]. done.
Qed.

Lemma apply_payload_kept s m d p :
  round_inv s -> authenticated (rs_height s) (rs_validators s) m d p ->
  rs_messages s !! seen_key d = Some m -> kept s (apply_payload s m d p).1.
Proof.
  intros Hi Ha Hm. pose proof Ha as (_ & _ & _ & _ & Hp & _).
  pose proof (decoded_payload_type _ _ Hp) as Ht. unfold seen_key in Hm. rewrite Ht in Hm.
  pose proof (entry_ok s (view_number d) Hi) as [H1 _ _ _ _ _].
  destruct p as [cv|request|response|pre_commit|commit|rr|rm]; cbn [apply_payload payload_type] in *;
    try apply kept_refl.
  - apply apply_change_view_kept.
  - destruct (N.eqb_spec (validator_index d) (primary_index s (view_number d))) as [Ei|]; [|apply kept_refl].
    cbn [negb]. destruct (negb _); [apply kept_refl|]. cbn [fst]. rewrite Ei in Hm.
    apply update_view_kept. intros m' Hm'. apply H1 in Hm'. cbn [set_proposal proposal]. congruence.
  - destruct (_ =? _); [apply kept_refl|]. by apply update_view_kept.
  - destruct (negb _); [apply kept_refl|].
    destruct (v ← views s !! view_number d; pre_block_envelope_count v) as [n|];
      [destruct (_ <? _); [apply kept_refl|]|]; by apply update_view_kept.
  - set (s1 := update_view s (view_number d) _).
    assert (Hk : kept s s1) by (by apply update_view_kept). pose proof (refresh_kept s1 (view_number d)) as Hr.
    destruct (refresh_verified_seal s1 (view_number d)) as [s2 [u|e]]; cbn [fst] in *; by eapply kept_trans.
Qed.

Lemma finalize_proposal_kept s view header : kept s (finalize_proposal s view header).1.
Proof.
  unfold finalize_proposal. destruct (validate_proposal_header s view header); [|apply kept_refl].
  set (s1 := update_view s view _). assert (Hk : kept s s1) by (by apply update_view_kept).
  pose proof (refresh_kept s1 view) as Hr.
  destruct (refresh_verified_seal s1 view) as [s2 [u|e]]; cbn [fst] in *; by eapply kept_trans.
Qed.

Lemma finalize_pre_block_kept s view header n : kept s (finalize_pre_block s view header n).1.
Proof.
  unfold finalize_pre_block. destruct (negb (anti_mev s)); [apply kept_refl|].
  destruct (validate_proposal_header s view header); [|apply kept_refl].
  destruct (pre_block_envelope_count _); [destruct (negb _)|]; by apply update_view_kept.
Qed.

(** ** What a reported progress claims *)

Definition claim (s : DbftRoundState) (p : DbftRoundProgress) : Prop :=
  match p with
  | Prepared view _ _ | PreCommitted view _ | Committed view _ =>
      exists s0, round_inv s0 /\ extends s0 s /\ kept s0 s /\ progress s0 view = p
  | _ => True
  end.

Lemma claim_later s s' p : extends s s' -> kept s s' -> claim s p -> claim s' p.
Proof.
  intros He Hk. destruct p; try done; intros (s0 & H1 & H2 & H3 & H4); exists s0;
    (split; [done|]); (split; [by eapply extends_trans|]); (split; [by eapply kept_trans|done]).
Qed.

Lemma progress_view s view :
  match progress s view with
  | Prepared w _ _ | PreCommitted w _ | Committed w _ => w = view
  | Accepted => True
  | _ => False
  end.
Proof.
  unfold progress. destruct (views s !! view) as [v|]; [|done]. destruct (proposal v) as [m|]; [|done]. cbv zeta.
  repeat (match goal with |- context [if ?b then _ else _] => destruct b end; try done).
Qed.

Lemma progress_claim s view : round_inv s -> claim s (progress s view).
Proof.
  intros Hi. pose proof (progress_view s view) as Hv. destruct (progress s view) as [| |w h n|w n|w n|w n] eqn:E; try done;
    subst w; exists s; (split; [done|]); (split; [apply extends_refl|]); by split; [apply kept_refl|].
Qed.

Lemma apply_payload_claim s m d p s' o :
  round_inv s' -> apply_payload s m d p = (s', Ok o) -> claim s' o.
Proof.
  intros Hi. destruct p as [cv|request|response|pre_commit|commit|rr|rm]; cbn [apply_payload].
  - unfold apply_change_view. destruct (checked_add _ _ _); [|done]. destruct (_ <=? _); [by intros [= <- <-]|].
    destruct (match rs_change_views s !! _ with Some _ => _ | None => _ end); [by intros [= <- <-]|].
    destruct (_ <=? _); by intros [= <- <-].
  - destruct (negb _); [done|]. destruct (negb _); [done|]. intros [= <- <-]. by apply progress_claim.
  - destruct (_ =? _); [done|]. intros [= <- <-]. by apply progress_claim.
  - destruct (negb _); [done|].
    destruct (v ← views s !! view_number d; pre_block_envelope_count v) as [n|];
      [destruct (_ <? _); [done|]|]; intros [= <- <-]; by apply progress_claim.
  - destruct (refresh_verified_seal _ _) as [s2 [u|e]]; [|done]. intros [= <- <-]. by apply progress_claim.
  - by intros [= <- <-].
  - done.
Qed.

(** What the driver relies on after each call. *)
Definition answered (s s' : DbftRoundState) (r : result DbftStateError DbftRoundProgress) : Prop :=
  kept s s' /\ match r with Ok p => claim s' p | Err _ => True end.

Lemma process_recovered_answered proc rcv rv expanded :
  (forall s m, round_inv s -> round_inv (proc s m).1 /\ extends s (proc s m).1) ->
  (forall s m, round_inv s -> answered s (proc s m).1 (proc s m).2) ->
  forall next outcome s' o, round_inv next -> claim next outcome ->
  process_recovered proc rcv rv next outcome expanded = Ok (s', o) -> kept next s' /\ claim s' o.
Proof.
  intros Hproc Hans. induction expanded as [|m expanded IH]; intros next outcome s' o Hi Hc H;
    cbn [process_recovered] in H.
  - injection H as <- <-. by split.
  - apply result_bind_Ok in H as (data & _ & H). destruct (should_process _ _ _ _); [|by eapply IH].
    destruct (Hproc next m Hi) as [Hi1 He1]. destruct (Hans next m Hi) as [Hk1 Hc1].
    destruct (proc next m) as [n1 [pr|e]]; cbn [fst snd] in *; [|done].
    apply IH in H as [Hk2 Hc2]; [by split; [eapply kept_trans|]|done|].
    destruct pr; try done; by eapply claim_later.
Qed.

Lemma process_fuel_answered fuel : forall s m,
  round_inv s -> answered s (process_fuel fuel s m).1 (process_fuel fuel s m).2.
Proof.
  induction fuel as [|fuel IH]; intros s m Hi; [by split; [apply kept_refl|]|].
  pose proof (process_fuel_inv (S fuel) s m Hi) as [Hi' _]. revert Hi'. cbn [process_fuel]. unfold process_body.
  destruct (check_message s m) as [[d p]|e] eqn:Ec; [|by split; [apply kept_refl|]].
  apply check_message_Ok in Ec as [Ha _]. pose proof Ha as (_ & _ & _ & _ & Hp & _).
  pose proof (decoded_payload_type _ _ Hp) as Ht.
  destruct (if exclusive (message_type d) then seen s !! seen_key d else None) as [prior|] eqn:Es.
  { by case_bool_decide. }
  assert (Hnew : exclusive (message_type d) = true -> seen s !! seen_key d = None)
    by (intros E; by rewrite E in Es).
  assert (Hplain : round_inv (apply_payload (retain_message s m d) m d p).1 ->
    answered s (apply_payload (retain_message s m d) m d p).1 (apply_payload (retain_message s m d) m d p).2).
  { intros Hi'. pose proof (retain_message_inv s m d p Hi Ha Hnew) as Hi1.
    pose proof (apply_payload_kept (retain_message s m d) m d p Hi1 Ha
      ltac:(simpl; by rewrite lookup_insert_eq)) as Hk.
    destruct (apply_payload (retain_message s m d) m d p) as [s' [o|e]] eqn:E; cbn [fst snd] in *;
      split; try done; by eapply apply_payload_claim. }
  destruct p as [| | | | | |recovery]; try exact Hplain.
  destruct (retain_control_inv s m d _ Hi Ha ltac:(by rewrite Ht)) as [Hi1 He1].
  destruct (result_bind _ _) as [[next o]|e] eqn:Er; [|by split; [apply kept_refl|]].
  apply result_bind_Ok in Er as (expanded & _ & Er). intros _.
  by apply (process_recovered_answered _ _ _ _ (process_fuel_inv fuel) IH) in Er.
Qed.

Lemma process_answered s m : round_inv s -> answered s (process s m).1 (process s m).2.
Proof. apply process_fuel_answered. Qed.

Lemma finalize_proposal_answered s view header :
  round_inv s -> answered s (finalize_proposal s view header).1 (finalize_proposal s view header).2.
Proof.
  intros Hi. split; [apply finalize_proposal_kept|].
  pose proof (finalize_proposal_inv s view header Hi) as [Hi' _]. revert Hi'. unfold finalize_proposal.
  destruct (validate_proposal_header s view header); [|done].
  destruct (refresh_verified_seal _ _) as [s2 [u|e]]; [|done]. intros Hi'. by apply progress_claim.
Qed.

Lemma finalize_pre_block_answered s view header n :
  round_inv s -> answered s (finalize_pre_block s view header n).1 (finalize_pre_block s view header n).2.
Proof.
  intros Hi. split; [apply finalize_pre_block_kept|].
  pose proof (finalize_pre_block_inv s view header n Hi) as [Hi' _]. revert Hi'. unfold finalize_pre_block.
  destruct (negb (anti_mev s)); [done|]. destruct (validate_proposal_header s view header); [|done].
  destruct (pre_block_envelope_count _); [destruct (negb _); [done|]|]; intros Hi'; by apply progress_claim.
Qed.

Lemma round_step_kept s s' : round_inv s -> round_step s s' -> kept s s'.
Proof.
  intros Hi Hs. destruct Hs; [by apply process_answered|apply finalize_pre_block_kept|apply finalize_proposal_kept].
Qed.

(** The view number is a byte. *)
Lemma round_view_bound s : round_reachable s -> current_view s <= U8_MAX.
Proof.
  induction 1 as [height vs am s H|height vs am s indices st s' H Hins|s s' Hr IH Hs].
  - by apply round_new_Ok in H as (_ & _ & ->).
  - apply round_new_Ok in H as (_ & _ & ->). by apply install_dkg_state_Ok in Hins as (_ & _ & ->).
  - apply round_reachable_inv in Hr. by apply (round_step_kept s s' Hr Hs).
Qed.

(** ** Certificates *)

Lemma same_round_votes s0 s : extends s0 s ->
  rs_height s0 = rs_height s /\ rs_validators s0 = rs_validators s /\ quorum s0 = quorum s.
Proof. intros [(H1 & H2 & H3 & _) _]. by rewrite H1, H2, H3. Qed.

(** A proposal reported prepared has a quorum of preparations. *)
Lemma claim_prepared s view hash n :
  claim s (Prepared view hash n) ->
  exists l, at_least (quorum s) (prepare_vote (rs_height s) (rs_validators s) view hash) l.
Proof.
  intros (s0 & Hi & He & _ & Hp). destruct (same_round_votes s0 s He) as (<- & <- & <-).
  destruct (progress_prepared s0 view Hi ltac:(by rewrite Hp)) as (v & m & l & Hv & Hm & _ & Hl).
  exists l. assert (message_hash m = hash) as <-; [|done]. unfold progress in Hp. rewrite Hv, Hm in Hp.
  cbv zeta in Hp. repeat (destruct (_ : bool) in Hp; try done); by injection Hp.
Qed.

Lemma progress_pre_committed s view n :
  round_inv s -> progress s view = PreCommitted view n ->
  exists count k, at_least (quorum s) (pre_commit_vote (rs_height s) (rs_validators s) view count) k.
Proof.
  intros Hi Hp. destruct (progress_prepared s view Hi ltac:(by rewrite Hp)) as (v & m & l & Hv & Hm & _).
  unfold progress in Hp. rewrite Hv, Hm in Hp. cbv zeta in Hp. destruct (_ <? _); [done|].
  destruct (anti_mev s); cbn [andb] in Hp; [|by destruct (bool_decide _)].
  destruct (pre_block_envelope_count v) as [count|] eqn:Ec;
    [rewrite bool_decide_eq_false_2 in Hp by done|rewrite bool_decide_eq_true_2 in Hp by done; done].
  cbn [orb] in Hp. destruct (N.ltb_spec (sizeN (vs_pre_commits v)) (quorum s)); [done|].
  pose proof (pre_commit_voters s view v count Hi Hv Ec) as (H1 & H2 & H3).
  exists count, (voters (fun _ => True) (vs_pre_commits v)). split; [done|]. split; [lia|done].
Qed.

(** A proposal reported pre-committed has, in addition, a quorum of pre-commits. *)
Lemma claim_pre_committed s view n :
  claim s (PreCommitted view n) ->
  exists m l count k, round_proposal s view = Some m /\
    at_least (quorum s) (prepare_vote (rs_height s) (rs_validators s) view (message_hash m)) l /\
    at_least (quorum s) (pre_commit_vote (rs_height s) (rs_validators s) view count) k.
Proof.
  intros (s0 & Hi & He & [Hk _] & Hp). destruct (same_round_votes s0 s He) as (<- & <- & <-).
  destruct (progress_pre_committed s0 view n Hi Hp) as (count & k & Hc).
  destruct (progress_prepared s0 view Hi ltac:(by rewrite Hp)) as (v & m & l & Hv & Hm & _ & Hl).
  exists m, l, count, k. split; [|done]. apply Hk. unfold round_proposal. by rewrite Hv.
Qed.

(** [header] is what [m], a signed proposal of a validator for height [h], proposes: the
    fields the proposal fixes agree. *)
Definition vouched (h : N) (vs : list Address) (m : DbftMessage) (header : Header) : Prop :=
  exists d request, authenticated h vs m d (DecodedPrepareRequest request) /\ number header = h /\
    proposal_header_matches (sealing_proposal request) header = Ok true.

Lemma header_vouched s view m header :
  round_inv s -> round_proposal s view = Some m -> header_for s m header ->
  vouched (rs_height s) (rs_validators s) m header.
Proof.
  intros Hi Hm (Hn & d & request & Hd & Hp & Hmatch). unfold round_proposal in Hm.
  destruct (views s !! view) as [v|] eqn:Hv; [|done]. cbn [mbind option_bind] in Hm.
  pose proof (vo_proposal s view v (ri_views s Hi _ _ Hv) m Hm) as Hr.
  destruct (retained_auth s _ _ _ _ Hi Hr Hd Hp) as [Ha _]. by exists d, request.
Qed.

(** What a seal needs: the header of a signed proposal, a quorum of preparations of it,
    and with Anti-MEV a quorum of pre-commits. *)
Definition certified (s : DbftRoundState) (view : N) (m : DbftMessage) (header : Header) : Prop :=
  vouched (rs_height s) (rs_validators s) m header /\
  (exists l, at_least (quorum s) (prepare_vote (rs_height s) (rs_validators s) view (message_hash m)) l) /\
  (anti_mev s = true -> exists n k,
     at_least (quorum s) (pre_commit_vote (rs_height s) (rs_validators s) view n) k).

Lemma final_header_proposal s view header :
  round_inv s -> round_final_header s view = Some header ->
  exists m, round_proposal s view = Some m /\ vouched (rs_height s) (rs_validators s) m header.
Proof.
  intros Hi Hf. unfold round_final_header in Hf. destruct (views s !! view) as [v|] eqn:Hv; [|done].
  destruct (vo_header s view v (ri_views s Hi _ _ Hv) header Hf) as (m & Hm & Hh).
  assert (Hr : round_proposal s view = Some m) by (unfold round_proposal; by rewrite Hv).
  exists m. split; [done|]. by eapply header_vouched.
Qed.

Lemma committed_certified s view header :
  round_inv s -> (exists n, progress s view = Committed view n) -> round_final_header s view = Some header ->
  exists m, round_proposal s view = Some m /\ certified s view m header.
Proof.
  intros Hi [n Hp] Hf. destruct (final_header_proposal s view header Hi Hf) as (m & Hm & Hv).
  destruct (progress_prepared s view Hi ltac:(by rewrite Hp)) as (v & m' & l & Hv' & Hm' & _ & Hl).
  assert (m' = m) as -> by (unfold round_proposal in Hm; rewrite Hv' in Hm; cbn [mbind option_bind] in Hm; congruence).
  exists m. split; [done|]. split; [done|]. split; [by exists l|]. intros Ha.
  unfold progress in Hp. rewrite Hv', Hm', Ha in Hp. cbv zeta in Hp. destruct (_ <? _); [done|]. cbn [andb] in Hp.
  destruct (pre_block_envelope_count v) as [count|] eqn:Ec;
    [rewrite bool_decide_eq_false_2 in Hp by done|rewrite bool_decide_eq_true_2 in Hp by done; done].
  cbn [orb] in Hp. destruct (N.ltb_spec (sizeN (vs_pre_commits v)) (quorum s)); [done|].
  pose proof (pre_commit_voters s view v count Hi Hv' Ec) as (H1 & H2 & H3).
  exists count, (voters (fun _ => True) (vs_pre_commits v)). split; [done|]. split; [lia|done].
Qed.
End progress.
