(* ===== verification/Sealing.v ===== *)
(** From a commit quorum to a valid block: what the round seals
    ([DbftRoundState::sealed_header], crates/neox/node/src/validator.rs) is what the
    consensus rules (crates/neox/consensus) accept, for both signature schemes; the
    Governance validator set fits the round; primaries rotate. *)

From S2P Require Import Prelude Extern Instances Extra Validation Tpke Wire Payload Recovery.
From S2P Require Import DkgParams Storage Round.

Section sealing.
Context {R : AlloyRlp} {C : Crypto} {B : Blst}.

(** Writing a seal over the proposal prefix leaves the signed header alone. *)
Lemma sealed_unsigned header extra p raw :
  DbftExtraPrefix.decode (extra_data header) = Ok p -> prefix_of extra = p ->
  widths_ok extra -> DbftExtra.try_encode extra = Ok raw ->
  unsigned_header (with_extra_data header raw) = unsigned_header header /\
  exists pre, DbftExtra.hashable_prefix (extra_data header) = Ok pre.
Proof.
  intros Hd Hp Hw He. destruct (try_encode_prefix _ _ Hw He) as (pre & Hpre & Hh & _).
  rewrite Hp in Hpre. apply prefix_decode_inv in Hd as (pre' & rest & Er & Henc & _ & Hc).
  rewrite Hpre in Henc. injection Henc as <-.
  destruct (prefix_encode_decode p pre rest Hpre Hc) as (_ & Hh' & _).
  unfold unsigned_header. simpl. rewrite Hh, Er, Hh'. eauto.
Qed.

(** [header] is [final] with this seal written over its prefix. *)
Definition sealed_by (final header : Header) (extra : DbftExtra.t) : Prop :=
  header = with_extra_data final (extra_data header) /\ widths_ok extra /\
  DbftExtra.try_encode extra = Ok (extra_data header) /\
  DbftExtraPrefix.decode (extra_data final) = Ok (prefix_of extra).

(** The extra that sealing builds has the prefix it came from and encodes. *)
Lemma ecdsa_extra_encodes p vs signatures raw0 :
  DbftExtraPrefix.decode raw0 = Ok p -> DbftExtraPrefix.signature_scheme p = Ecdsa ->
  vs <> [] -> lenN signatures = bft_honest_node_count (lenN vs) ->
  Forall (fun a => length a = ADDRESS_LEN) vs -> Forall (fun raw => length raw = 65%nat) signatures ->
  let extra := DbftExtra.EcdsaSeal (DbftExtraPrefix.version p)
                 (DbftExtraPrefix.fallback_next_consensus p) vs signatures in
  prefix_of extra = p /\ widths_ok extra /\ exists raw, DbftExtra.try_encode extra = Ok raw.
Proof.
  intros Hd Hs Hne Hl Hv Hsig extra. destruct p as [v sc fb]. simpl in *. subst sc.
  apply prefix_decode_inv in Hd as (pre & rest & _ & Henc & _ & Hc). simpl in Hc. split; [done|]. split.
  - unfold extra. simpl. split_and!; [|done|done]. intros h ->.
    destruct v; [by destruct Hc|by destruct Hc as (? & [= <-] & ?)..].
  - unfold extra. simpl. rewrite (bool_decide_eq_false_2 _ Hne), Hl, N.eqb_refl.
    destruct v; [destruct Hc as [_ ->]; by eexists|destruct Hc as (h & -> & _); by eexists..].
Qed.

(** Committed means sealable, ECDSA: in every reachable round whose view has a verified
    ECDSA quorum, installing it succeeds, and the sealed header passes the consensus
    rules: its extra data decodes to exactly this validator set and these signatures,
    its seal hash is the one of the unsealed proposal, and it is certified by a quorum
    of distinct validators. *)
Theorem ecdsa_commit_sealed s view signatures :
  round_reachable s -> Forall (fun a => length a = ADDRESS_LEN) (rs_validators s) ->
  ZERO_ADDRESS ∉ rs_validators s ->
  verified_commit_seal s view = Some (EcdsaCommitSeal signatures) ->
  exists final header version fallback seal_hash signers,
    round_final_header s view = Some final /\ sealed_header s view = Ok header /\
    header = with_extra_data final (extra_data header) /\
    (lenN (extra_data header) <= USIZE_MAX ->
     DbftExtra.decode (extra_data header) (lenN (rs_validators s))
       = Ok (DbftExtra.EcdsaSeal version fallback (rs_validators s) signatures)) /\
    ecdsa_seal_hash header = Ok seal_hash /\ ecdsa_seal_hash final = Ok seal_hash /\
    certifies seal_hash (rs_validators s) signatures signers /\
    lenN signers = bft_honest_node_count (lenN (rs_validators s)) /\
    sealed_by final header (DbftExtra.EcdsaSeal version fallback (rs_validators s) signatures).
Proof.
  intros Hr Hw Hz Hs. apply round_reachable_inv in Hr as Hi.
  unfold verified_commit_seal, round_final_header, sealed_header in *.
  destruct (views s !! view) as [v|] eqn:Hv; [|done]. simpl in Hs.
  destruct (vo_seal s view v (ri_views s Hi _ _ Hv) _ Hs)
    as (final & Hf & p & h & signers & Hd & Hsch & Hh & Hq & Hsl & Hsig & Hsub).
  destruct (ri_base s Hi) as (Eq & Hn & Hsort & Hlen). rewrite Eq in Hq.
  destruct (ecdsa_extra_encodes p (rs_validators s) signatures _ Hd Hsch
    ltac:(intros E; rewrite E in Hlen; unfold lenN in Hlen; simpl in Hlen; lia) Hq Hw Hsl) as (Hp & Hwid & raw & Henc).
  set (extra := DbftExtra.EcdsaSeal _ _ _ _) in *.
  destruct (sealed_unsigned final extra p raw Hd Hp Hwid Henc) as [Hun _].
  assert (Hh' : ecdsa_seal_hash (with_extra_data final raw) = Ok h)
    by (unfold ecdsa_seal_hash in *; by rewrite Hun).
  assert (Hns : NoDup signers) by (by eapply sublist_NoDup).
  assert (Hc : certifies h (rs_validators s) signatures (sort_bytes signers)).
  { unfold certifies. split_and!; try done; [by apply sort_bytes_NoDup| |by exists signers].
    intros a Ha. rewrite sort_bytes_elem in Ha. by apply (sublist_subseteq _ _ Hsub). }
  pose proof (proj2 (verify_ecdsa_signatures_Ok h extra (rs_validators s) signatures
    (sort_bytes signers) eq_refl eq_refl Hw) Hc) as Hver.
  exists final, (with_extra_data final raw), (DbftExtraPrefix.version p),
    (DbftExtraPrefix.fallback_next_consensus p), h, (sort_bytes signers).
  cbn [mbind option_bind ok_or result_bind]. rewrite Hf, Hs. cbn [ok_or result_bind]. rewrite Hd.
  cbn [map_err result_bind]. rewrite Hsch. cbn [result_bind]. fold extra. rewrite Henc.
  cbn [map_err result_bind]. rewrite Hh'. cbn [map_err result_bind]. rewrite Hver.
  cbn [map_err result_bind]. split_and!; try done.
  - intros Hmax. apply encode_decodes; try done. by intros ? [= <-].
  - rewrite lenN_sort_bytes, <- Hq. unfold lenN. by rewrite (Forall2_length _ _ _ Hsig).
  - unfold sealed_by. fold extra. by rewrite Hp.
Qed.

(** ** Threshold seals *)

Lemma negate_is_flip b : negate_point b = flip_sort_bit b.
Proof. by destruct b. Qed.

Lemma dst_agree : TPKE_SIGNATURE_DST = TPKE_BLS_DST.
Proof. reflexivity. Qed.

(** What the aggregate was checked for. *)
Lemma aggregate_verifies message key shares t sc negated n signature :
  aggregate_and_verify_signature_shares_with_parameters message key shares t sc negated n = Ok signature ->
  exists pk selected, bls_key_validate key = Some pk /\ verifies message pk negated signature /\
    interpolate_signature_shares selected sc = Some signature.
Proof.
  unfold aggregate_and_verify_signature_shares_with_parameters,
    aggregate_and_verify_signature_shares_with_limit.
  destruct (_ || _); [done|]. destruct (_ <? _); [done|]. intros H.
  apply result_bind_Ok in H as (? & _ & H). apply result_bind_Ok in H as (pk & Hk & H).
  apply ok_or_Ok in Hk. apply result_bind_Ok in H as (decoded & _ & H). apply ok_or_Ok in H.
  apply first_some_Some in H as (positions & _ & H). apply try_combination_Some in H as [Hi Hv]. eauto.
Qed.

Lemma verify_commit_quorum_threshold s view v signature :
  views s !! view = Some v -> verify_commit_quorum s view = Ok (Some (ThresholdCommitSeal signature)) ->
  exists header p st message pk selected,
    final_header v = Some header /\ DbftExtraPrefix.decode (extra_data header) = Ok p /\
    DbftExtraPrefix.signature_scheme p = Threshold /\ rs_dkg_state s = Some st /\
    threshold_seal_message header = Ok message /\
    bls_key_validate (global_public_key (current st)) = Some pk /\
    verifies message pk (bool_decide (DbftExtraPrefix.version p = V1)) signature /\
    interpolate_signature_shares selected (scaler (parameters st)) = Some signature.
Proof.
  intros Hv. unfold verify_commit_quorum. rewrite Hv.
  destruct (final_header v) as [header|]; [|done]. destruct (_ <? _); [done|]. intros H.
  apply result_bind_Ok in H as (p & Hp & H). apply map_err_Ok in Hp.
  destruct (DbftExtraPrefix.signature_scheme p) eqn:Es.
  { apply result_bind_Ok in H as (h & _ & H). by destruct (ecdsa_quorum _ _ _ _ _). }
  apply result_bind_Ok in H as (st & Hst & H). apply ok_or_Ok in Hst.
  apply result_bind_Ok in H as (indices & _ & H). apply result_bind_Ok in H as (shares & _ & H).
  destruct (_ <? _); [done|]. apply result_bind_Ok in H as (message & Hm & H). apply map_err_Ok in Hm.
  destruct (aggregate_and_verify_signature_shares_with_parameters _ _ _ _ _ _ _) as [sg|e] eqn:Ea;
    [|by destruct e]. injection H as ->.
  destruct (aggregate_verifies _ _ _ _ _ _ _ _ Ea) as (pk & selected & Hk & Hver & Hint).
  exists header, p, st, message, pk, selected. by split_and!.
Qed.

(** Committed means sealable, threshold: whenever refreshing a view's commit quorum yields
    an aggregate, installing it succeeds, and the sealed header carries the DKG key and
    passes the consensus rules for its fork's sign convention, over the same message
    the shares signed. *)
Theorem threshold_commit_sealed s view s' signature :
  (forall point, length (p2_affine_compress point) = N.to_nat THRESHOLD_SIGNATURE_LEN) ->
  (forall st, rs_dkg_state s = Some st ->
     length (global_public_key (current st)) = N.to_nat THRESHOLD_PUBLIC_KEY_LEN) ->
  refresh_verified_seal s view = (s', Ok tt) ->
  verified_commit_seal s' view = Some (ThresholdCommitSeal signature) ->
  exists final header version fallback key,
    round_final_header s' view = Some final /\ sealed_header s' view = Ok header /\
    option_map (fun st => global_public_key (current st)) (rs_dkg_state s) = Some key /\
    header = with_extra_data final (extra_data header) /\
    (lenN (extra_data header) <= USIZE_MAX ->
     DbftExtra.decode (extra_data header) (lenN (rs_validators s))
       = Ok (DbftExtra.ThresholdSeal version fallback key signature)) /\
    threshold_seal_message header = threshold_seal_message final /\
    verify_threshold_signature header (DbftExtra.ThresholdSeal version fallback key signature) = Ok tt /\
    sealed_by final header (DbftExtra.ThresholdSeal version fallback key signature).
Proof.
  intros Hlen Hkey Href Hs. unfold refresh_verified_seal in Href.
  destruct (verify_commit_quorum s view) as [seal|] eqn:Eq; [|done]. injection Href as <-.
  destruct (views s !! view) as [v|] eqn:Hv.
  2:{ unfold verified_commit_seal in Hs. by rewrite Hv in Hs. }
  unfold verified_commit_seal, round_final_header, sealed_header in *. simpl in *.
  rewrite lookup_insert_eq in *. simpl in Hs. subst seal.
  destruct (verify_commit_quorum_threshold s view v signature Hv Eq)
    as (final & p & st & message & pk & selected & Hf & Hd & Hsch & Hst & Hm & Hk & Hver & Hint).
  specialize (Hkey st Hst). set (key := global_public_key (current st)) in *.
  pose proof (prefix_decode_inv _ _ Hd) as (pre & rest & _ & _ & _ & Hc).
  destruct p as [ver sc fb]. simpl in *. subst sc.
  assert (exists h, fb = Some h /\ length h = B256_LEN /\ ver <> V0) as (h & -> & Hh & Hv0).
  { destruct ver; [by destruct Hc|destruct Hc as (h & -> & ?); eauto..]. }
  set (extra := DbftExtra.ThresholdSeal ver h key signature).
  assert (Hwid : widths_ok extra).
  { unfold extra. simpl. split_and!; [done|done|]. unfold interpolate_signature_shares in Hint.
    apply fmap_Some in Hint as (pt & _ & ->). apply Hlen. }
  assert (exists raw, DbftExtra.try_encode extra = Ok raw) as [raw Henc]
    by (destruct ver; [done|by eexists..]).
  destruct (sealed_unsigned final extra _ raw Hd eq_refl Hwid Henc) as [Hun _].
  assert (Hm' : threshold_seal_message (with_extra_data final raw) = threshold_seal_message final)
    by (unfold threshold_seal_message; by rewrite Hun).
  assert (Hok : verify_threshold_signature (with_extra_data final raw) extra = Ok tt).
  { unfold verify_threshold_signature, decode_threshold_points, extra. simpl.
    destruct Hver as (candidate & Hcand & Hbls). rewrite negate_is_flip in Hcand.
    rewrite Hk. simpl. destruct (bool_decide (ver = V1)); rewrite Hcand; simpl;
      rewrite Hm', Hm; simpl; by rewrite <- dst_agree, Hbls. }
  exists final, (with_extra_data final raw), ver, h, key. rewrite Hf, Hst.
  cbn [ok_or result_bind]. rewrite Hd. cbn [map_err result_bind DbftExtraPrefix.signature_scheme
    DbftExtraPrefix.fallback_next_consensus DbftExtraPrefix.version ok_or]. fold key extra.
  rewrite Henc. cbn [map_err result_bind]. rewrite Hok. cbn [map_err result_bind].
  split_and!; try done. intros Hmax. apply encode_decodes; done.
Qed.

(** ** The validator set and the round *)

Lemma dkg_indices_perm vs :
  lenN vs <= MAX_VALIDATOR_COUNT -> dkg_indices (sort_validator_set vs) ≡ₚ map N.of_nat (seq 1 (length vs)).
Proof.
  intros Hl. simpl. rewrite merge_sort_Permutation. unfold MAX_VALIDATOR_COUNT, lenN in Hl.
  assert (E : map (fun i => as_u32 (N.of_nat i) + 1) (seq 0 (length vs))
    = map N.of_nat (seq 1 (length vs))); [|by rewrite E].
  apply list_eq. intros i. rewrite !list_lookup_fmap.
  destruct (decide (i < length vs)%nat) as [Hi|Hi].
  - rewrite !lookup_seq_lt by done. simpl. f_equal. unfold as_u32. rewrite N.mod_small by lia. lia.
  - by rewrite !lookup_ge_None_2 by (rewrite length_seq; lia).
Qed.

Lemma merge_sort_range l n :
  l ≡ₚ map N.of_nat (seq 1 n) -> merge_sort N.le l = map N.of_nat (seq 1 n).
Proof.
  intros Hp. apply (StronglySorted_unique N.le).
  - apply Sorted_StronglySorted, Sorted_merge_sort; [apply _|]. intros a b. lia.
  - clear. generalize 1%nat as k. induction n as [|n IH]; intros k; simpl; constructor; [apply IH|].
    apply Forall_map, Forall_forall. intros x Hx%elem_of_seq. lia.
  - by rewrite merge_sort_Permutation.
Qed.

(** The Governance reader and the round agree: any validator set read from the contract
    opens a round over its sorted order and installs its DKG indices, and each index
    then maps a round position back to the same account in the contract's order. *)
Theorem governance_round_ready storage set height am st :
  read_governance_validator_set_from_storage storage = Ok set ->
  exists s s', round_new height (sorted set) am = Ok s /\
    install_dkg_state s (dkg_indices set) st = (s', Ok tt) /\ rs_validators s' = sorted set /\
    forall i a, rs_validators s' !! N.to_nat i = Some a ->
      exists k, dkg_index s' i = Some k /\ 1 <= k /\ original set !! N.to_nat (k - 1) = Some a.
Proof.
  intros Hr. unfold read_governance_validator_set_from_storage in Hr.
  apply result_bind_Ok in Hr as (vs & Hv & Hr). injection Hr as <-.
  apply read_array_Ok in Hv as (Hl & Hn & _). pose proof (sorted_is_sort vs) as Es.
  pose proof (fun i => dkg_indices_spec vs i (proj2 Hl)) as Hidx.
  pose proof (dkg_indices_perm vs (proj2 Hl)) as Hperm.
  assert (Hnew : round_new height (sort_bytes vs) am = Ok (mkDbftRoundState height
    (sort_bytes (sort_bytes vs)) (bft_honest_node_count (lenN (sort_bytes vs))) am 0
    {[0 := view_default]} ∅ ∅ ∅ None None)).
  { apply round_new_Ok. rewrite lenN_sort_bytes. split_and!; try done; try apply Hl.
    by apply sort_bytes_NoDup. }
  rewrite (sort_bytes_id (sort_bytes vs) (sort_bytes_sorted vs)) in Hnew. rewrite Es in *.
  do 2 eexists. split; [exact Hnew|]. unfold install_dkg_state. simpl rs_validators.
  rewrite length_sort_bytes, (merge_sort_range _ (length vs) Hperm), bool_decide_eq_true_2 by done.
  unfold lenN. rewrite length_sort_bytes, (proj1 (Hidx 0%nat)), N.eqb_refl. split; [done|].
  split; [done|]. simpl rs_validators. intros i a Ha. unfold dkg_index. cbn [rs_dkg_indices mbind option_bind].
  destruct (lookup_lt_is_Some_2 (dkg_indices (sort_validator_set vs)) (N.to_nat i)) as [k Hk].
  { rewrite (proj1 (Hidx 0%nat)), <- (length_sort_bytes vs). by apply lookup_lt_Some in Ha. }
  destruct (proj2 (Hidx (N.to_nat i)) k Hk) as [Hk1 Hk2]. exists k. split_and!; [done|done|].
  cbn [original sort_validator_set] in *. by rewrite <- Hk2, <- Ha.
Qed.

(** ** Primaries *)

Lemma mod_add_cancel a b v n : 0 < n -> (a + v) mod n = (b + v) mod n -> a mod n = b mod n.
Proof.
  intros Hn E. pose proof (N.mod_lt v n ltac:(lia)) as Hv. pose proof (N.Div0.div_mod v n) as Ev.
  set (c := n - v mod n) in *.
  assert (Hc : forall x, ((x + v) mod n + c) mod n = x mod n).
  { intros x. rewrite N.Div0.add_mod_idemp_l.
    replace (x + v + c) with (x + (1 + v / n) * n) by lia. apply N.Div0.mod_add. }
  by rewrite <- (Hc a), <- (Hc b), E.
Qed.

Lemma primary_index_eq s view :
  base_ok s ->
  primary_index s view < lenN (rs_validators s) /\
  (primary_index s view + view) mod lenN (rs_validators s)
    = as_u32 (rs_height s) mod lenN (rs_validators s).
Proof.
  intros (_ & _ & _ & Hn). unfold primary_index. set (n := lenN (rs_validators s)) in *.
  set (h := as_u32 (rs_height s)). split; [apply N.mod_lt; lia|].
  pose proof (N.mod_lt view n ltac:(lia)) as Hv. rewrite N.Div0.add_mod_idemp_l.
  rewrite (N.Div0.div_mod view n) at 2.
  replace (h + n - view mod n + (n * (view / n) + view mod n)) with (h + (1 + view / n) * n) by lia.
  apply N.Div0.mod_add.
Qed.

(** Primary rotation: the primary of a view is a validator of the round, is the one a
    recovery message is expanded with, two views have the same primary exactly when they
    are a multiple of [n] apart, and any [n] consecutive views give every validator a turn. *)
Theorem primary_rotation s view :
  round_reachable s ->
  let n := lenN (rs_validators s) in
  primary_index s view < n /\
  primary_index s view = recovery_primary_index (rs_height s) view n /\
  (forall w, primary_index s view = primary_index s w <-> view mod n = w mod n) /\
  (forall i, i < n -> exists w, view <= w < view + n /\ primary_index s w = i).
Proof.
  intros Hr n. apply round_reachable_inv in Hr as Hi. pose proof (ri_base s Hi) as Hb.
  pose proof (fun v => primary_index_eq s v Hb) as Hp. pose proof Hb as (_ & _ & _ & Hn).
  fold n in Hp, Hn. split_and!.
  - apply Hp.
  - symmetry. apply recovery_primary_index_lt; unfold MAX_VALIDATOR_COUNT, U8_MAX in *; lia.
  - intros w. destruct (Hp view) as [Hv Ev], (Hp w) as [Hw Ew]. rewrite <- Ew in Ev. split; intros E.
    + rewrite E, !(N.add_comm (primary_index s w)) in Ev. apply mod_add_cancel in Ev; lia.
    + rewrite <- (N.Div0.add_mod_idemp_r _ w), <- E, N.Div0.add_mod_idemp_r in Ev.
      apply mod_add_cancel in Ev; [|lia]. by rewrite !N.mod_small in Ev.
  - intros i Hin. pose proof (N.mod_lt (primary_index s view + (n - i)) n ltac:(lia)) as Hk.
    remember ((primary_index s view + (n - i)) mod n) as k eqn:Ek.
    exists (view + k). split; [lia|]. destruct (Hp view) as [Hv Ev], (Hp (view + k)) as [Hw Ew].
    rewrite <- Ev in Ew.
    replace (primary_index s (view + k) + (view + k))
      with (primary_index s (view + k) + k + view) in Ew by lia.
    apply mod_add_cancel in Ew; [|lia].
    assert (Ei : (i + k) mod n = primary_index s view mod n).
    { rewrite Ek, N.Div0.add_mod_idemp_r.
      replace (i + (primary_index s view + (n - i))) with (primary_index s view + 1 * n) by lia.
      apply N.Div0.mod_add. }
    rewrite <- Ei in Ew. apply mod_add_cancel in Ew; [|lia]. by rewrite !N.mod_small in Ew.
Qed.
End sealing.

Module RoundWitness.
Import RlpInstance RecoveryWitness.
#[local] Existing Instance alloy_rlp.
#[local] Existing Instance alloy_rlp_laws.
#[local] Existing Instance model_crypto.
#[local] Existing Instance model_crypto_laws.
#[local] Existing Instance model_blst.

Definition start : DbftRoundState :=
  mkDbftRoundState 1 validators 2 false 0 {[0 := view_default]} ∅ ∅ ∅ None None.

Lemma round_start_reachable : round_reachable start.
Proof. apply (reach_new 1 validators false). vm_compute. reflexivity. Qed.

Definition run (s : DbftRoundState) (ms : list DbftMessage) : DbftRoundState :=
  foldl (fun s m => (process s m).1) s ms.

Lemma run_reachable s ms : round_reachable s -> round_reachable (run s ms).
Proof.
  revert s. induction ms as [|m ms IH]; intros s Hs; [done|]. apply IH.
  eapply reach_step; [exact Hs|apply step_process].
Qed.

(** The proposal [request] and a rival of it, each prepared by both validators. *)
Definition rival : DbftPrepareRequest :=
  mkDbftPrepareRequest (model_header 1 1 2 ZERO_B256 [x00]) [ZERO_B256] None None.
Definition rival_entry : entry := ERequest (enc prepare_request_codec rival) (script x02).
Definition rival_hash : B256 := message_hash (entry_message 1 validators 0 [] rival_entry).
Definition prepared : DbftRoundState :=
  run start (map (entry_message 1 validators 0 proposal_hash) [request_entry; EResponse 0 (script x01)]).
Definition rival_prepared : DbftRoundState :=
  run start (map (entry_message 1 validators 0 rival_hash) [rival_entry; EResponse 0 (script x01)]).

Lemma prepared_agreement_witness :
  exists faulty, NoDup faulty /\ (2 - 1) / 3 < lenN faulty /\
    forall i, i ∈ faulty -> exists m1 m2, m1 <> m2 /\
      prepares 1 validators 0 proposal_hash i m1 /\ prepares 1 validators 0 rival_hash i m2.
Proof.
  apply (prepared_agreement prepared rival_prepared 0 proposal_hash rival_hash 2 2);
    [apply run_reachable, round_start_reachable|apply run_reachable, round_start_reachable
    |vm_compute; reflexivity..|vm_compute; discriminate].
Defined.


(** Both validators ask for view 1. *)
Definition changed : DbftRoundState :=
  run start (map (entry_message 1 validators 0 [])
    [EChangeView 0 0 0 Timeout (script x01); EChangeView 1 0 0 Timeout (script x02)]).

Lemma view_change_certified_witness :
  exists l, at_least 2 (change_view_vote 1 validators 1) l.
Proof.
  assert (Eh : rs_height changed = 1) by (vm_compute; reflexivity).
  assert (Ev : rs_validators changed = validators) by (vm_compute; reflexivity).
  assert (Eq : quorum changed = 2) by (vm_compute; reflexivity).
  assert (Ec : current_view changed = 1) by (vm_compute; reflexivity).
  destruct (view_change_certified changed (run_reachable _ _ round_start_reachable)) as [[H|H] _];
    rewrite Ec in H; [discriminate|].
  rewrite Eh, Ev, Eq in H. exact H.
Defined.

Definition proposed : DbftRoundState :=
  run start [entry_message 1 validators 0 [] request_entry].

(** The primary proposes twice. *)
Lemma vote_once_witness :
  process proposed (entry_message 1 validators 0 [] rival_entry)
    = (proposed, Err (Equivocation 0 PrepareRequest 1 proposal_hash rival_hash)).
Proof.
  rewrite (vote_once proposed (entry_message 1 validators 0 [] rival_entry)
    (mkDbftConsensusData PrepareRequest 1 1 0 (enc prepare_request_codec rival))
    (DecodedPrepareRequest rival) (entry_message 1 validators 0 [] request_entry));
    [|apply run_reachable, round_start_reachable|vm_compute; reflexivity|reflexivity|vm_compute; reflexivity].
  rewrite bool_decide_eq_false_2 by (vm_compute; discriminate). reflexivity.
Defined.

Lemma process_total_witness : (process proposed recovery).2 <> Err RecursionLimit.
Proof. apply (process_total proposed recovery (run_reachable _ _ round_start_reachable)). Defined.

Lemma primary_rotation_witness : exists w, 5 <= w < 7 /\ primary_index start w = 0.
Proof. apply (primary_rotation start 5 round_start_reachable). vm_compute. reflexivity. Defined.

Definition finalized (s : DbftRoundState) (h : Header) : DbftRoundState := (finalize_proposal s 0 h).1.

Lemma finalized_reachable s h : round_reachable s -> round_reachable (finalized s h).
Proof. intros Hs. eapply reach_step; [exact Hs|apply step_finalize_proposal]. Qed.

Definition commits (sig : byte -> bytes) : list DbftMessage :=
  map (entry_message 1 validators 0 [])
    [ECommit 0 0 (sig x01) (script x01); ECommit 1 0 (sig x02) (script x02)].
Definition committed : DbftRoundState :=
  run (finalized prepared (model_header 1 1 1 ZERO_B256 [x00])) (commits script).

Lemma ecdsa_commit_sealed_witness :
  exists header (signers : list Address), sealed_header committed 0 = Ok header /\ lenN signers = 2.
Proof.
  destruct (ecdsa_commit_sealed committed 0 [script x01; script x02])
    as (final & header & version & fallback & hash & signers & _ & Hs & _ & _ & _ & _ & _ & Hl & _).
  - apply run_reachable, finalized_reachable, run_reachable, round_start_reachable.
  - vm_compute. repeat constructor.
  - apply (bool_decide_unpack (ZERO_ADDRESS ∉ rs_validators committed)). vm_compute. exact I.
  - vm_compute. reflexivity.
  - exists header, signers. split; [exact Hs|]. rewrite Hl. vm_compute. reflexivity.
Defined.

(** Two accounts stored in the contract, the larger one first. *)
Definition governance_storage (key : B256) : result GovernanceError (option U256) :=
  if bool_decide (key = u256_bytes GOVERNANCE_CURRENT_CONSENSUS_SLOT) then Ok (Some 2)
  else if bool_decide (key = u256_bytes (governance_current_consensus_storage_key 0))
  then Ok (Some (N_of_be (validator x02)))
  else Ok (Some (N_of_be (validator x01))).

Definition some_dkg_state : DkgState :=
  mkDkgState (mkDkgParameters 2 2 2) (mkDkgPublicKey 1 [] (repeat x07 48)) None.

Lemma governance_round_ready_witness :
  exists s s', round_new 1 validators true = Ok s /\
    install_dkg_state s [2; 1] some_dkg_state = (s', Ok tt) /\ rs_validators s' = validators.
Proof.
  destruct (governance_round_ready governance_storage
    (mkGovernanceValidatorSet [validator x02; validator x01] validators [2; 1]) 1 true some_dkg_state)
    as (s & s' & H1 & H2 & H3 & _); [vm_compute; reflexivity|].
  exists s, s'. split; [exact H1|split; [exact H2|exact H3]].
Defined.
End RoundWitness.

Module ThresholdWitness.
Import RlpInstance RecoveryWitness.
#[local] Existing Instance alloy_rlp.
#[local] Existing Instance model_crypto.
#[local] Existing Instance model_blst.

Definition header : Header := model_header 1 1 1 ZERO_B256 (x02 :: x01 :: repeat x00 32).
Definition request : DbftPrepareRequest := mkDbftPrepareRequest header [ZERO_B256] None None.
Definition start : DbftRoundState :=
  mkDbftRoundState 1 validators 2 true 0 {[0 := view_default]} ∅ ∅ ∅ (Some [2; 1])
    (Some RoundWitness.some_dkg_state).
Definition share : bytes := x01 :: repeat x00 95.
Definition committed : DbftRoundState :=
  foldl (fun s m => (process s m).1)
    (finalize_proposal (process start
       (entry_message 1 validators 0 [] (ERequest (enc prepare_request_codec request) (script x02)))).1
       0 header).1
    (RoundWitness.commits (fun _ => share)).

Lemma threshold_commit_sealed_witness :
  exists sealed, sealed_header committed 0 = Ok sealed.
Proof.
  destruct (threshold_commit_sealed committed 0 committed share)
    as (final & sealed & version & fallback & key & _ & Hs & _).
  - intros point. cbn [p2_affine_compress model_blst].
    rewrite length_take, length_app, repeat_length. change (N.to_nat THRESHOLD_SIGNATURE_LEN) with 96%nat. lia.
  - intros st. vm_compute. intros [= <-]. reflexivity.
  - vm_compute. reflexivity.
  - vm_compute. reflexivity.
  - exists sealed. exact Hs.
Defined.
End ThresholdWitness.

(** A vote the round counts for nothing but keeps can spoil recovery. Here signatures
    are bound to the message hash they carry. *)
Module RecoveryPoisoning.
#[local] Existing Instance alloy_rlp.
#[local] Existing Instance model_blst.

Definition binding_crypto : Crypto := {|
  keccak256 := model_digest;
  recover_address_from_prehash raw _ hash :=
    if bool_decide (slice 20 52 raw = hash) then Some (take ADDRESS_LEN raw) else None;
|}.
#[local] Existing Instance binding_crypto.

Definition validator (b : byte) : Address := repeat b 20.
Definition validators : list Address := map validator [x01; x02; x03; x04].
Definition sent (index : N) (type : DbftMessageType) (body : bytes) : DbftMessage :=
  let b := byte_of (index + 1) in
  let hash := message_hash (recovered_message 1 (validator b) index 0 type body []) in
  recovered_message 1 (validator b) index 0 type body (validator b ++ hash ++ repeat x00 13).

(** At height 1 the primary of view 0 is validator 1. *)
Definition request : DbftMessage :=
  sent 1 PrepareRequest (enc prepare_request_codec
    (mkDbftPrepareRequest (model_header 1 1 1 ZERO_B256 [x00]) [ZERO_B256] None None)).
Definition response (index : N) (hash : B256) : DbftMessage :=
  sent index PrepareResponse (enc prepare_response_codec (mkDbftPrepareResponse hash)).

Definition start : DbftRoundState :=
  mkDbftRoundState 1 validators 3 false 0 {[0 := view_default]} ∅ ∅ ∅ None None.
Definition after (ms : list DbftMessage) : DbftRoundState := foldl (fun s m => (process s m).1) start ms.
(** The recovery message validator 2 sends, and what a fresh peer makes of it. *)
Definition recover_at (s : DbftRoundState) : result DbftStateError DbftRoundProgress :=
  let? r := recovery_message s (map_to_list (rs_messages s)) 2 in
  (process start (sent 2 RecoveryMessage (enc recovery_message_codec r))).2.

Definition honest : list DbftMessage := [request; response 2 (message_hash request)].
Definition stray : DbftMessage := response 0 ZERO_B256.

End RecoveryPoisoning.
