(* ===== verification/Journal.v ===== *)
(** The durable duty journal of the validator key ([DutyJournal],
    crates/neox/node/src/signer.rs): its text format, recording and reloading, the file
    seen as the bytes a crash leaves behind. *)

From S2P Require Import Prelude Extern.

(** ** Text *)

Definition COLON : byte := x3a.
Definition NEWLINE : byte := x0a.
Definition RETURN : byte := x0d.

(** Decimal digits of [n], most significant first; [fuel] bounds their number. *)
Fixpoint decimal_digits (fuel : nat) (n : N) (acc : bytes) : bytes :=
  match fuel with
  | O => acc
  | S fuel =>
      let acc := byte_of (48 + n mod 10) :: acc in
      if n / 10 =? 0 then acc else decimal_digits fuel (n / 10) acc
  end.
(** [format!("{n}")]; a number has at most as many digits as bits. *)
Definition decimal (n : N) : bytes := decimal_digits (S (N.to_nat (N.size n))) n [].

Definition hex_digit (n : N) : byte := byte_of (if n <? 10 then 48 + n else 87 + n).
(** [hex::encode] *)
Definition hex_encode (b : bytes) : bytes :=
  flat_map (fun x => [hex_digit (Byte.to_N x / 16); hex_digit (Byte.to_N x mod 16)]) b.

Definition is_ascii_hexdigit (b : byte) : bool :=
  let n := Byte.to_N b in
  ((48 <=? n) && (n <=? 57)) || ((65 <=? n) && (n <=? 70)) || ((97 <=? n) && (n <=? 102)).
Definition to_ascii_lowercase (b : bytes) : bytes :=
  map (fun x => let n := Byte.to_N x in if (65 <=? n) && (n <=? 90) then byte_of (n + 32) else x) b.

(** [str::split_inclusive('\n')] *)
Fixpoint split_inclusive (s : bytes) : list bytes :=
  match s with
  | [] => []
  | c :: t =>
      if bool_decide (c = NEWLINE) then [c] :: split_inclusive t
      else match split_inclusive t with [] => [[c]] | l :: ls => (c :: l) :: ls end
  end.

Definition strip_suffix (c : byte) (l : bytes) : option bytes :=
  match rev l with
  | x :: r => if bool_decide (x = c) then Some (rev r) else None
  | [] => None
  end.

(** [str::lines]: a line loses its line feed and a carriage return before it. *)
Definition strip_line (l : bytes) : bytes :=
  match strip_suffix NEWLINE l with
  | None => l
  | Some l => default l (strip_suffix RETURN l)
  end.
Definition lines (s : bytes) : list bytes := map strip_line (split_inclusive s).

Fixpoint split_once (c : byte) (l : bytes) : option (bytes * bytes) :=
  match l with
  | [] => None
  | x :: t =>
      if bool_decide (x = c) then Some ([], t)
      else match split_once c t with Some (a, b) => Some (x :: a, b) | None => None end
  end.
(** [str::rsplit_once]: at the last [c]. *)
Definition rsplit_once (c : byte) (l : bytes) : option (bytes * bytes) :=
  match split_once c (rev l) with Some (a, b) => Some (rev b, rev a) | None => None end.

(** What [read_to_string] accepts: well-formed UTF-8. *)
Definition continuation (lo hi : N) (b : byte) : bool := (lo <=? Byte.to_N b) && (Byte.to_N b <=? hi).
Fixpoint utf8 (s : bytes) : bool :=
  match s with
  | [] => true
  | a :: t =>
      let n := Byte.to_N a in
      if n <? 128 then utf8 t
      else if (194 <=? n) && (n <=? 223) then
        match t with b :: t => continuation 128 191 b && utf8 t | _ => false end
      else if (224 <=? n) && (n <=? 239) then
        match t with
        | b :: c :: t =>
            continuation (if n =? 224 then 160 else 128) (if n =? 237 then 159 else 191) b &&
            continuation 128 191 c && utf8 t
        | _ => false
        end
      else if (240 <=? n) && (n <=? 244) then
        match t with
        | b :: c :: d :: t =>
            continuation (if n =? 240 then 144 else 128) (if n =? 244 then 143 else 191) b &&
            continuation 128 191 c && continuation 128 191 d && utf8 t
        | _ => false
        end
      else false
  end.

(** ** The journal *)

Inductive JournalError : Type :=
| ConflictingDuty (duty recorded attempted : bytes)
| DutyJournalIo.

#[export] Instance journal_error_eq_dec : EqDecision JournalError.
Proof. solve_decision. Defined.

(** The file's contents and the duties in memory. *)
Record DutyJournal : Type := mkDutyJournal {
  file : bytes;
  signed : gmap bytes bytes;
}.

(** One line of the reload loop. *)
Definition load_line (signed : gmap bytes bytes) (line : bytes) : gmap bytes bytes :=
  match rsplit_once COLON line with
  | Some (duty, hash) =>
      if (lenN hash =? 64) && forallb is_ascii_hexdigit hash
      then <[duty := to_ascii_lowercase hash]> signed else signed
  | None => signed
  end.
Definition load (contents : bytes) : gmap bytes bytes := foldl load_line ∅ (lines contents).

(** [DutyJournal::open] on a file with these contents. *)
Definition journal_open (contents : bytes) : result JournalError DutyJournal :=
  if utf8 contents then Ok (mkDutyJournal contents (load contents)) else Err DutyJournalIo.

(** What [write_all] followed by [sync_data] did: all of it, or an error after some
    bytes of the line had reached the file. *)
Inductive WriteOutcome : Type :=
| Synced
| Failed (written : nat).

Definition duty (block_index view_number kind : N) : bytes :=
  decimal block_index ++ COLON :: decimal view_number ++ COLON :: decimal kind.
Definition duty_line (duty hash : bytes) : bytes := duty ++ COLON :: hash ++ [NEWLINE].

Definition journal_record (j : DutyJournal) (io : WriteOutcome) (block_index view_number kind : N)
    (payload_hash : B256) : DutyJournal * result JournalError unit :=
  let duty := duty block_index view_number kind in
  let hash := hex_encode payload_hash in
  match signed j !! duty with
  | Some recorded =>
      if bool_decide (recorded = hash) then (j, Ok tt)
      else (j, Err (ConflictingDuty duty recorded hash))
  | None =>
      let line := duty_line duty hash in
      match io with
      | Synced => (mkDutyJournal (file j ++ line) (<[duty := hash]> (signed j)), Ok tt)
      | Failed n => (mkDutyJournal (file j ++ take n line) (signed j), Err DutyJournalIo)
      end
  end.

(** ** Numbers and digests as text *)

Definition is_digit (b : byte) : Prop := 48 <= Byte.to_N b <= 57.

(** The number a string of digits denotes, continuing from [acc]. *)
Definition parse_digits (acc : N) (l : bytes) : N :=
  foldl (fun acc b => acc * 10 + (Byte.to_N b - 48)) acc l.

Lemma byte_of_digit n : n < 10 -> Byte.to_N (byte_of (48 + n)) = 48 + n.
Proof. intros Hn. apply to_N_byte_of. lia. Qed.

Lemma byte_of_is_digit n : n < 10 -> is_digit (byte_of (48 + n)).
Proof. intros Hn. unfold is_digit. rewrite byte_of_digit by done. lia. Qed.

Lemma parse_digit a n : n < 10 -> parse_digits a [byte_of (48 + n)] = a * 10 ^ 1 + n.
Proof. intros Hn. cbn [parse_digits foldl]. rewrite byte_of_digit by done. rewrite N.pow_1_r. lia. Qed.

Lemma decimal_digits_spec fuel n acc :
  n < 2 ^ N.of_nat fuel ->
  exists l, decimal_digits (S fuel) n acc = l ++ acc /\ Forall is_digit l /\ l <> [] /\
    forall a, parse_digits a l = a * 10 ^ lenN l + n.
Proof.
  revert n acc. induction fuel as [|fuel IH]; intros n acc Hn; set (f := decimal_digits) in *.
  - assert (n = 0) as -> by (simpl in Hn; lia). exists [byte_of 48]. subst f. cbn [decimal_digits].
    split_and!; [done| |done|].
    + repeat constructor; vm_compute; discriminate.
    + intros a. by apply (parse_digit a 0).
  - assert (E : f (S (S fuel)) n acc = (let acc := byte_of (48 + n mod 10) :: acc in
      if n / 10 =? 0 then acc else f (S fuel) (n / 10) acc)) by done.
    rewrite E. cbv zeta. clear E. pose proof (N.mod_lt n 10 ltac:(lia)) as Hm.
    pose proof (N.Div0.div_mod n 10) as Hd.
    pose proof (byte_of_is_digit _ Hm) as Hdig.
    destruct (N.eqb_spec (n / 10) 0) as [Hz|Hz].
    + exists [byte_of (48 + n mod 10)]. split_and!; [done|by apply Forall_singleton|done|].
      intros a. rewrite parse_digit by done. change (lenN [_]) with 1. lia.
    + destruct (IH (n / 10) (byte_of (48 + n mod 10) :: acc)) as (l & El & Hl & Hne & Hp).
      { rewrite Nat2N.inj_succ, N.pow_succ_r' in Hn. apply N.Div0.div_lt_upper_bound. lia. }
      exists (l ++ [byte_of (48 + n mod 10)]). rewrite El, <- app_assoc. split_and!; [done| | |].
      * apply Forall_app_2; [done|by apply Forall_singleton].
      * by destruct l.
      * intros a. unfold parse_digits. rewrite foldl_app. cbn [foldl]. fold (parse_digits a l).
        rewrite Hp, byte_of_digit, lenN_app by done. change (lenN [_]) with 1.
        rewrite N.pow_add_r, N.pow_1_r, N.mul_assoc.
        clear -Hd. revert Hd. generalize (a * 10 ^ lenN l), (n / 10), (n mod 10). lia.
Qed.

Lemma decimal_spec n :
  Forall is_digit (decimal n) /\ decimal n <> [] /\ parse_digits 0 (decimal n) = n.
Proof.
  destruct (decimal_digits_spec (N.to_nat (N.size n)) n []) as (l & El & Hl & Hne & Hp).
  { rewrite N2Nat.id. apply N.size_gt. }
  rewrite app_nil_r in El. unfold decimal. rewrite El. split_and!; [done|done|]. rewrite Hp. lia.
Qed.

Lemma decimal_inj a b : decimal a = decimal b -> a = b.
Proof. intros E. destruct (decimal_spec a) as (_ & _ & <-), (decimal_spec b) as (_ & _ & <-). by rewrite E. Qed.

Lemma digit_not b c : is_digit b -> Byte.to_N c < 48 \/ 57 < Byte.to_N c -> b <> c.
Proof. intros Hb Hc ->. unfold is_digit in Hb. lia. Qed.

Lemma decimal_avoids n c : Byte.to_N c < 48 \/ 57 < Byte.to_N c -> c ∉ decimal n.
Proof.
  intros Hc Hin. destruct (decimal_spec n) as (Hd & _). rewrite Forall_forall in Hd.
  by apply (digit_not c c (Hd _ Hin) Hc).
Qed.

Lemma split_once_inj (c : byte) a1 b1 a2 b2 :
  c ∉ a1 -> c ∉ a2 -> a1 ++ c :: b1 = a2 ++ c :: b2 -> a1 = a2 /\ b1 = b2.
Proof.
  revert a2. induction a1 as [|x a1 IH]; intros [|y a2] H1 H2 E; simpl in E.
  - by injection E.
  - injection E as <- E. by destruct H2; left.
  - injection E as -> E. by destruct H1; left.
  - injection E as <- E. apply not_elem_of_cons in H1 as [_ H1], H2 as [_ H2].
    by destruct (IH a2 H1 H2 E) as [-> ->].
Qed.

Lemma duty_inj b1 v1 k1 b2 v2 k2 :
  duty b1 v1 k1 = duty b2 v2 k2 -> b1 = b2 /\ v1 = v2 /\ k1 = k2.
Proof.
  unfold duty. intros E.
  assert (Hc : Byte.to_N COLON < 48 \/ 57 < Byte.to_N COLON) by (right; vm_compute; reflexivity).
  apply split_once_inj in E as [Eb E]; [|by apply decimal_avoids..].
  apply split_once_inj in E as [Ev Ek]; [|by apply decimal_avoids..].
  split_and!; by apply decimal_inj.
Qed.

Lemma hex_digit_spec n :
  n < 16 -> is_ascii_hexdigit (hex_digit n) = true /\ to_ascii_lowercase [hex_digit n] = [hex_digit n] /\
  (forall m, m < 16 -> hex_digit n = hex_digit m -> n = m).
Proof.
  intros Hn. unfold hex_digit.
  assert (Hv : forall k, k < 16 ->
    Byte.to_N (byte_of (if k <? 10 then 48 + k else 87 + k)) = if k <? 10 then 48 + k else 87 + k).
  { intros k Hk. apply to_N_byte_of. destruct (k <? 10); lia. }
  split_and!.
  - unfold is_ascii_hexdigit. rewrite Hv by done. destruct (N.ltb_spec n 10).
    + rewrite (proj2 (N.leb_le 48 _)), (proj2 (N.leb_le _ 57)) by lia. done.
    + rewrite (proj2 (N.leb_le 97 _)), (proj2 (N.leb_le _ 102)) by lia. by rewrite orb_true_r.
  - unfold to_ascii_lowercase. cbn [map]. rewrite Hv by done. destruct (N.ltb_spec n 10).
    + rewrite (proj2 (N.leb_gt 65 _)) by lia. done.
    + rewrite (proj2 (N.leb_gt _ 90)) by lia. by rewrite andb_false_r.
  - intros m Hm E. apply (f_equal Byte.to_N) in E. rewrite !Hv in E by done.
    destruct (N.ltb_spec n 10), (N.ltb_spec m 10); lia.
Qed.

Lemma length_hex_encode b : lenN (hex_encode b) = 2 * lenN b.
Proof. unfold lenN, hex_encode. induction b; cbn [flat_map length app] in *; lia. Qed.

Lemma nibbles x : Byte.to_N x / 16 < 16 /\ Byte.to_N x mod 16 < 16 /\
  Byte.to_N x = 16 * (Byte.to_N x / 16) + Byte.to_N x mod 16.
Proof.
  pose proof (to_N_bound x). split_and!; [|apply N.mod_lt; lia|apply N.Div0.div_mod].
  apply N.Div0.div_lt_upper_bound. lia.
Qed.

Lemma hex_encode_spec b :
  forallb is_ascii_hexdigit (hex_encode b) = true /\ to_ascii_lowercase (hex_encode b) = hex_encode b.
Proof.
  induction b as [|x b [IH1 IH2]]; [done|]. destruct (nibbles x) as (H1 & H2 & _).
  destruct (hex_digit_spec _ H1) as (D1 & L1 & _), (hex_digit_spec _ H2) as (D2 & L2 & _).
  unfold to_ascii_lowercase in *. cbn [hex_encode flat_map app forallb map] in *.
  injection L1 as L1. injection L2 as L2. fold (hex_encode b) in *.
  rewrite D1, D2, IH1, L1, L2, IH2. done.
Qed.

Lemma hex_encode_inj a b : hex_encode a = hex_encode b -> a = b.
Proof.
  revert b. induction a as [|x a IH]; intros [|y b]; try done.
  cbn [hex_encode flat_map app]. fold (hex_encode a) (hex_encode b). intros E.
  injection E as E1 E2 E. apply IH in E as ->. f_equal.
  destruct (nibbles x) as (X1 & X2 & X3), (nibbles y) as (Y1 & Y2 & Y3).
  apply (proj2 (proj2 (hex_digit_spec _ X1))) in E1; [|done].
  apply (proj2 (proj2 (hex_digit_spec _ X2))) in E2; [|done].
  apply to_N_inj. by rewrite X3, Y3, E1, E2.
Qed.

Lemma hexdigit_not c l :
  forallb is_ascii_hexdigit l = true -> is_ascii_hexdigit c = false -> c ∉ l.
Proof.
  intros Hl Hc Hin. rewrite forallb_forall in Hl. apply list_elem_of_In, Hl in Hin. congruence.
Qed.

(** ** Reloading *)

(** Whole lines only: empty, or ending in a line feed. *)
Definition complete (s : bytes) : Prop := s = [] \/ exists t, s = t ++ [NEWLINE].

Lemma split_inclusive_app s t :
  complete s -> split_inclusive (s ++ t) = split_inclusive s ++ split_inclusive t.
Proof.
  intros [->|[u ->]]; [done|]. rewrite <- app_assoc. simpl.
  induction u as [|c u IH]; [done|]. simpl. rewrite IH.
  destruct (bool_decide _); [done|].
  assert (Hne : split_inclusive (u ++ [NEWLINE]) <> []).
  { destruct u; simpl; [done|]. repeat case_match; done. }
  by destruct (split_inclusive (u ++ [NEWLINE])).
Qed.

Lemma split_inclusive_line l : NEWLINE ∉ l -> split_inclusive (l ++ [NEWLINE]) = [l ++ [NEWLINE]].
Proof.
  induction l as [|c l IH]; intros Hl; [done|]. apply not_elem_of_cons in Hl as [Hc Hl].
  simpl. rewrite bool_decide_eq_false_2 by done. by rewrite IH.
Qed.

Lemma strip_suffix_snoc c l x :
  strip_suffix c (l ++ [x]) = if bool_decide (x = c) then Some l else None.
Proof. unfold strip_suffix. rewrite rev_unit. by rewrite rev_involutive. Qed.

Lemma strip_line_snoc l x :
  x <> RETURN -> strip_line ((l ++ [x]) ++ [NEWLINE]) = l ++ [x].
Proof.
  intros Hx. unfold strip_line. rewrite strip_suffix_snoc, bool_decide_eq_true_2 by done.
  by rewrite strip_suffix_snoc, bool_decide_eq_false_2.
Qed.

Lemma split_once_found c a b : c ∉ a -> split_once c (a ++ c :: b) = Some (a, b).
Proof.
  induction a as [|x a IH]; intros Ha; simpl.
  - by rewrite bool_decide_eq_true_2.
  - apply not_elem_of_cons in Ha as [Hx Ha]. rewrite bool_decide_eq_false_2 by done. by rewrite IH.
Qed.

Lemma rsplit_once_found c a b : c ∉ b -> rsplit_once c (a ++ c :: b) = Some (a, b).
Proof.
  intros Hb. unfold rsplit_once. rewrite rev_app_distr. simpl. rewrite <- app_assoc.
  change ([c] ++ rev a) with (c :: rev a).
  rewrite (split_once_found c (rev b) (rev a)); [by rewrite !rev_involutive|].
  rewrite list_elem_of_In, <- in_rev, <- list_elem_of_In. done.
Qed.

(** A record appended after whole lines is read back. *)
Lemma load_record contents b v k (payload_hash : B256) :
  complete contents -> length payload_hash = B256_LEN ->
  load (contents ++ duty_line (duty b v k) (hex_encode payload_hash))
    = <[duty b v k := hex_encode payload_hash]> (load contents).
Proof.
  intros Hc Hl. destruct (hex_encode_spec payload_hash) as [Hx Hlow].
  unfold load, lines, duty_line. rewrite split_inclusive_app, map_app, foldl_app by done.
  generalize (foldl load_line ∅ (map strip_line (split_inclusive contents))) as m. intros m.
  replace (duty b v k ++ COLON :: hex_encode payload_hash ++ [NEWLINE])
    with ((duty b v k ++ COLON :: hex_encode payload_hash) ++ [NEWLINE])
    by (by rewrite <- app_assoc).
  assert (Hlen : lenN (hex_encode payload_hash) = 64).
  { rewrite length_hex_encode. unfold lenN. rewrite Hl. reflexivity. }
  rewrite split_inclusive_line.
  2: { rewrite !elem_of_app, !elem_of_cons. intros [Hd|[Hd|Hd]]; [|done|].
       - unfold duty in Hd. rewrite !elem_of_app, !elem_of_cons, !elem_of_app, !elem_of_cons in Hd.
         destruct Hd as [Hd|[Hd|[Hd|[Hd|Hd]]]]; try done;
           revert Hd; apply decimal_avoids; left; vm_compute; reflexivity.
       - revert Hd. by apply hexdigit_not. }
  cbn [map foldl].
  assert (Hlast : exists h x, hex_encode payload_hash = h ++ [x] /\ x <> RETURN).
  { destruct (hex_encode payload_hash) as [|x h _] using rev_ind; [done|].
    exists h, x. split; [done|]. intros ->.
    apply (hexdigit_not RETURN _ Hx); [done|]. rewrite elem_of_app. right. by left. }
  destruct Hlast as (h & x & Eh & Hne). rewrite Eh at 1.
  replace ((duty b v k ++ COLON :: h ++ [x]) ++ [NEWLINE])
    with (((duty b v k ++ COLON :: h) ++ [x]) ++ [NEWLINE]) by (f_equal; by rewrite <- app_assoc).
  rewrite strip_line_snoc by done. rewrite <- app_assoc. simpl. rewrite <- Eh.
  unfold load_line. rewrite rsplit_once_found by (by apply hexdigit_not).
  by rewrite Hlen, Hx, Hlow.
Qed.

(** ** Histories

    The journal through signing attempts, failed writes and restarts. A crash during a
    write is a failed write followed by a restart. [produced] lists the duties whose
    recording succeeded, after which the signature is made. *)

Inductive JournalEvent : Type :=
| Attempt (io : WriteOutcome) (block_index view_number kind : N) (payload_hash : B256)
| Restart.

Definition produced_duty : Type := N * N * N * B256.

Definition journal_step (s : DutyJournal * list produced_duty) (e : JournalEvent)
    : DutyJournal * list produced_duty :=
  match e with
  | Attempt io b v k hash =>
      match journal_record s.1 io b v k hash with
      | (j, Ok _) => (j, (b, v, k, hash) :: s.2)
      | (j, Err _) => (j, s.2)
      end
  | Restart => match journal_open (file s.1) with Ok j => (j, s.2) | Err _ => s end
  end.

Definition history (es : list JournalEvent) : DutyJournal * list produced_duty :=
  foldl journal_step (mkDutyJournal [] ∅, []) es.

(** A failed write left nothing of the line, or all of it. *)
Definition whole_lines (e : JournalEvent) : Prop :=
  match e with
  | Attempt io b v k hash =>
      length hash = B256_LEN /\
      match io with
      | Synced => True
      | Failed n => n = O \/ (length (duty_line (duty b v k) (hex_encode hash)) <= n)%nat
      end
  | Restart => True
  end.

Definition is_ascii (b : byte) : Prop := Byte.to_N b < 128.

Lemma ascii_utf8 s : Forall is_ascii s -> utf8 s = true.
Proof.
  induction 1 as [|b s Hb Hs IH]; [done|]. simpl. unfold is_ascii in Hb.
  by rewrite (proj2 (N.ltb_lt _ _) Hb).
Qed.

Lemma duty_line_ascii b v k h : Forall is_ascii (duty_line (duty b v k) (hex_encode h)).
Proof.
  assert (Hd : forall n, Forall is_ascii (decimal n)).
  { intros n. eapply Forall_impl; [apply decimal_spec|]. unfold is_digit, is_ascii. intros; lia. }
  assert (Hh : Forall is_ascii (hex_encode h)).
  { apply Forall_forall. intros x Hx. destruct (hex_encode_spec h) as [Hs _].
    rewrite forallb_forall in Hs. apply list_elem_of_In, Hs in Hx.
    unfold is_ascii_hexdigit in Hx. unfold is_ascii.
    rewrite !orb_true_iff, !andb_true_iff, !N.leb_le in Hx. lia. }
  unfold duty_line, duty.
  repeat first [apply Forall_app_2 | apply Forall_cons_2 | apply Forall_nil_2];
    try done; vm_compute; reflexivity.
Qed.

Record journal_ok (s : DutyJournal * list produced_duty) : Prop := {
  jo_complete : complete (file s.1);
  jo_ascii : Forall is_ascii (file s.1);
  jo_disk d hash : signed s.1 !! d = Some hash -> load (file s.1) !! d = Some hash;
  jo_produced b v k hash : (b, v, k, hash) ∈ s.2 ->
    length hash = B256_LEN /\ signed s.1 !! duty b v k = Some (hex_encode hash);
}.

(** Appending a line for a duty not yet in memory. *)
Lemma append_ok j log b v k hash :
  journal_ok (j, log) -> signed j !! duty b v k = None -> length hash = B256_LEN ->
  let file' := file j ++ duty_line (duty b v k) (hex_encode hash) in
  journal_ok (mkDutyJournal file' (signed j), log) /\
  journal_ok (mkDutyJournal file' (<[duty b v k := hex_encode hash]> (signed j)),
    (b, v, k, hash) :: log).
Proof.
  intros [Hc Ha Hd Hp] Hn Hl file'. simpl in *.
  assert (Hc' : complete file').
  { right. exists (file j ++ duty b v k ++ COLON :: hex_encode hash). subst file'. unfold duty_line.
    by rewrite <- !app_assoc. }
  assert (Ha' : Forall is_ascii file') by (apply Forall_app_2; [done|apply duty_line_ascii]).
  pose proof (load_record (file j) b v k hash Hc Hl) as Eload. fold file' in Eload.
  assert (Hd' : forall d h, signed j !! d = Some h -> load file' !! d = Some h).
  { intros d h Hs. rewrite Eload, lookup_insert_ne; [by apply Hd|]. congruence. }
  split; constructor; try done; simpl.
  - intros d h. destruct (decide (d = duty b v k)) as [->|Hne].
    + rewrite Eload, !lookup_insert_eq. done.
    + rewrite lookup_insert_ne by done. apply Hd'.
  - intros b' v' k' hash' [[= -> -> -> ->]|Hin]%elem_of_cons.
    + split; [done|]. by rewrite lookup_insert_eq.
    + destruct (Hp _ _ _ _ Hin) as [? Hs]. split; [done|]. rewrite lookup_insert_ne; [done|]. congruence.
Qed.

Lemma journal_step_ok s e : whole_lines e -> journal_ok s -> journal_ok (journal_step s e).
Proof.
  destruct s as [j log]. intros Hw Hok. pose proof Hok as [Hc Ha Hd Hp]. simpl in *.
  destruct e as [io b v k hash|].
  - destruct Hw as [Hl Hio]. unfold journal_step, journal_record. simpl.
    destruct (signed j !! duty b v k) as [recorded|] eqn:Es.
    + case_bool_decide as E; [|done]. subst recorded. constructor; [done|done|done|]. simpl.
      intros b' v' k' hash' [[= -> -> -> ->]|Hin]%elem_of_cons; [done|by apply Hp].
    + destruct (append_ok j log b v k hash Hok Es Hl) as [H1 H2].
      destruct io as [|n]; [done|]. destruct Hio as [->|Hn].
      * rewrite take_0, app_nil_r. by destruct j.
      * by rewrite take_ge.
  - unfold journal_step, journal_open. simpl. rewrite ascii_utf8 by done.
    constructor; [done|done|done|]. simpl. intros b v k hash Hin. destruct (Hp _ _ _ _ Hin). auto.
Qed.

Lemma history_ok es : Forall whole_lines es -> journal_ok (history es).
Proof.
  unfold history. intros He. assert (H0 : journal_ok (mkDutyJournal [] ∅, [])).
  { constructor; simpl; [by left|done|done|]. intros b v k hash Hin. by apply not_elem_of_nil in Hin. }
  revert H0. generalize (mkDutyJournal [] ∅, @nil produced_duty).
  induction He as [|e es He _ IH]; intros s Hs; [done|]. simpl. by apply IH, journal_step_ok.
Qed.

Lemma produced_unique es b v k hash1 hash2 :
  Forall whole_lines es -> (b, v, k, hash1) ∈ (history es).2 -> (b, v, k, hash2) ∈ (history es).2 ->
  hash1 = hash2.
Proof.
  intros He H1 H2. pose proof (history_ok es He) as [_ _ _ Hp].
  destruct (Hp _ _ _ _ H1) as [_ E1], (Hp _ _ _ _ H2) as [_ E2]. apply hex_encode_inj. congruence.
Qed.

(** One payload per duty, forever: through any signing attempts, failed writes and
    restarts that leave whole lines in the file, a key never produces signatures for two
    different payloads of one block, view and kind, and the reloaded journal refuses the
    second payload with an error naming both. *)
Theorem journal_no_conflict es b v k hash1 hash2 :
  Forall whole_lines es -> (b, v, k, hash1) ∈ (history es).2 ->
  ((b, v, k, hash2) ∈ (history es).2 -> hash1 = hash2) /\
  (hash1 <> hash2 -> forall io,
    (journal_record (history (es ++ [Restart])).1 io b v k hash2).2
      = Err (ConflictingDuty (duty b v k) (hex_encode hash1) (hex_encode hash2))).
Proof.
  intros He Hin. split.
  - by apply produced_unique.
  - intros Hne io.
    assert (He' : Forall whole_lines (es ++ [Restart])) by (apply Forall_app_2; [done|by constructor]).
    assert (Hin' : (b, v, k, hash1) ∈ (history (es ++ [Restart])).2).
    { unfold history in *. rewrite foldl_app. simpl. unfold journal_step. by case_match. }
    destruct (jo_produced _ (history_ok _ He') _ _ _ _ Hin') as [_ Hs].
    unfold journal_record. rewrite Hs, bool_decide_eq_false_2; [done|].
    intros E. by apply Hne, hex_encode_inj.
Qed.

Module JournalWitness.
Definition hash (b : byte) : B256 := repeat b 32.

Lemma journal_no_conflict_witness :
  (journal_record (history ([Attempt Synced 42 0 33 (hash x11)] ++ [Restart])).1 Synced 42 0 33 (hash x22)).2
    = Err (ConflictingDuty (duty 42 0 33) (hex_encode (hash x11)) (hex_encode (hash x22))).
Proof.
  apply (journal_no_conflict [Attempt Synced 42 0 33 (hash x11)] 42 0 33 (hash x11) (hash x22));
    [by repeat constructor|vm_compute; by left|vm_compute; discriminate].
Defined.

End JournalWitness.
