(* ===== verification/Signer.v ===== *)
(** The local validator's signer (crates/neox/node/src/signer.rs): consensus messages,
    header commits, decryption shares and DKG transactions, with the duty journal. *)

From S2P Require Import Prelude Extern Instances Extra Validation Tpke Wire Payload Journal.

(** Journal kind of finalized-header seals, which are not wire messages. *)
Definition HEADER_COMMIT_DUTY : N := 255.

Inductive DbftSignerError : Type :=
| InvalidEcdsaKey
| InvalidDkgPrivateShare
| InvalidPreviousDkgPrivateShare
| InvalidDkgCalldata
| InvalidDkgGasLimit
| InvalidDkgFeeCap
| DkgTransactionSigningFailed
| SigningFailed
| JournalRefused (error : JournalError)
| InvalidHeader (error : DbftExtraError)
| MissingDkgPrivateShare
| MissingPreviousDkgPrivateShare
| MissingCanonicalDkgContext
| DkgEpochMismatch (installed_round expected_round : N) (installed_head expected_head : B256)
| DecryptionShareFailed (error : TpkeError)
| ThresholdSigning (error : TpkeError).

Record DkgShareEpoch : Type := mkDkgShareEpoch {
  epoch_round : N;
  epoch_public_key : bytes;
  canonical_head : B256;
}.

Record DkgPrivateShare : Type := mkDkgPrivateShare {
  secret : bytes;
  share_epoch : option DkgShareEpoch;
}.
Definition unmanaged (secret : bytes) : DkgPrivateShare := mkDkgPrivateShare secret None.
Definition managed (secret : bytes) (epoch : DkgShareEpoch) : DkgPrivateShare :=
  mkDkgPrivateShare secret (Some epoch).

Definition require_epoch (s : DkgPrivateShare) (expected : option DkgShareEpoch)
    : result DbftSignerError unit :=
  match share_epoch s, expected with
  | None, _ => Ok tt
  | Some _, None => Err MissingCanonicalDkgContext
  | Some installed, Some expected =>
      if (epoch_round installed =? epoch_round expected) &&
         bool_decide (epoch_public_key installed = epoch_public_key expected)
      then Ok tt
      else Err (DkgEpochMismatch (epoch_round installed) (epoch_round expected)
                  (canonical_head installed) (canonical_head expected))
  end.

Record DkgTransactionRequest : Type := mkDkgTransactionRequest {
  chain_id : N;
  tx_nonce : N;
  tx_gas_limit : N;
  max_fee_per_gas : N;
  max_priority_fee_per_gas : N;
  calldata : bytes;
}.

(** [binary_search] of a sorted slice, as the standard library does it: halve the range
    until one element is left. *)
Fixpoint search_base (fuel : nat) (vs : list Address) (target : Address) (base size : nat) : nat :=
  match fuel with
  | O => base
  | S fuel =>
      if (size <=? 1)%nat then base
      else
        let half := (size / 2)%nat in
        let mid := (base + half)%nat in
        let base := if bytes_leb (nth mid vs []) target then mid else base in
        search_base fuel vs target base (size - half)
  end.
Definition binary_search (vs : list Address) (target : Address) : option nat :=
  let base := search_base (length vs) vs target 0 (length vs) in
  if bool_decide (vs !! base = Some target) then Some base else None.

Section signer.
Context {R : AlloyRlp} {C : Crypto} {K : Secp256k1} {B : Blst}.

Record DbftSigner : Type := mkDbftSigner {
  key : signing_key;
  account : Address;
  current_share : option DkgPrivateShare;
  previous_share : option DkgPrivateShare;
  duty_journal : option DutyJournal;
}.

(** [from_secret] of an already validated scalar. *)
Definition signer_new (k : signing_key) : DbftSigner := mkDbftSigner k (key_account k) None None None.

Definition with_duty_journal (s : DbftSigner) (contents : bytes) : result DbftSignerError DbftSigner :=
  let? j := map_err JournalRefused (journal_open contents) in
  Ok (mkDbftSigner (key s) (account s) (current_share s) (previous_share s) (Some j)).

Definition set_journal (s : DbftSigner) (j : DutyJournal) : DbftSigner :=
  mkDbftSigner (key s) (account s) (current_share s) (previous_share s) (Some j).
Definition set_shares (s : DbftSigner) (current previous : option DkgPrivateShare) : DbftSigner :=
  mkDbftSigner (key s) (account s) current previous (duty_journal s).

Definition with_dkg_private_share (s : DbftSigner) (private_share : bytes)
    : result DbftSignerError DbftSigner :=
  let? _ := map_err (fun _ => InvalidDkgPrivateShare) (public_key_from_private_key private_share) in
  Ok (set_shares s (Some (unmanaged private_share)) (previous_share s)).

Definition with_previous_dkg_private_share (s : DbftSigner) (private_share : bytes)
    : result DbftSignerError DbftSigner :=
  let? _ := map_err (fun _ => InvalidPreviousDkgPrivateShare)
              (public_key_from_private_key private_share) in
  Ok (set_shares s (current_share s) (Some (unmanaged private_share))).

(** The validity checks both replacement operations start with. *)
Definition check_shares (current previous : option bytes) : result DbftSignerError unit :=
  let? _ :=
    match current with
    | Some secret => let? _ := map_err (fun _ => InvalidDkgPrivateShare) (public_key_from_private_key secret) in Ok tt
    | None => Ok tt
    end in
  match previous with
  | Some secret => let? _ := map_err (fun _ => InvalidPreviousDkgPrivateShare) (public_key_from_private_key secret) in Ok tt
  | None => Ok tt
  end.

Definition replace_optional_dkg_private_shares (s : DbftSigner) (current previous : option bytes)
    : result DbftSignerError DbftSigner :=
  let? _ := check_shares current previous in
  Ok (set_shares s (option_map unmanaged current) (option_map unmanaged previous)).

Definition replace_dkg_private_shares (s : DbftSigner) (current : bytes) (previous : option bytes)
    : result DbftSignerError DbftSigner :=
  replace_optional_dkg_private_shares s (Some current) previous.

Definition replace_canonical_dkg_private_shares (s : DbftSigner)
    (current previous : option (bytes * DkgShareEpoch)) : result DbftSignerError DbftSigner :=
  let? _ := check_shares (option_map fst current) (option_map fst previous) in
  Ok (set_shares s (option_map (fun '(secret, epoch) => managed secret epoch) current)
        (option_map (fun '(secret, epoch) => managed secret epoch) previous)).

Definition signer_validator_index (s : DbftSigner) (validators : list Address) : option N :=
  i ← binary_search validators (account s);
  if N.of_nat i <=? U8_MAX then Some (N.of_nat i) else None.

Definition recoverable_witness (s : DbftSigner) (prehash : bytes) : result DbftSignerError bytes :=
  let? (signature, id) := ok_or (sign_prehash_recoverable (key s) prehash) SigningFailed in
  Ok (signature ++ [byte_of id]).

(** [transaction.signature_hash()] is alloy's; the signed transaction is the request
    with its signature. *)
Definition sign_dkg_transaction (signature_hash : DkgTransactionRequest -> bytes) (s : DbftSigner)
    (request : DkgTransactionRequest)
    : result DbftSignerError (DkgTransactionRequest * bytes) :=
  if lenN (calldata request) <? 4 then Err InvalidDkgCalldata
  else if tx_gas_limit request =? 0 then Err InvalidDkgGasLimit
  else if max_fee_per_gas request <? max_priority_fee_per_gas request then Err InvalidDkgFeeCap
  else
    let? (signature, id) :=
      ok_or (sign_prehash_recoverable (key s) (signature_hash request)) DkgTransactionSigningFailed in
    Ok (request, signature ++ [byte_of id]).

(** ** Decryption shares *)

Definition decryption_shares (ciphertexts : list TpkeCiphertext) (share : DkgPrivateShare)
    : result DbftSignerError (list bytes) :=
  collect_result (fun c => map_err DecryptionShareFailed (decryption_share c (secret share))) ciphertexts.

Definition current_decryption_shares_at (s : DbftSigner) (epoch : option DkgShareEpoch)
    (ciphertexts : list TpkeCiphertext) : result DbftSignerError (list bytes) :=
  let? share := ok_or (current_share s) MissingDkgPrivateShare in
  let? _ := require_epoch share epoch in
  decryption_shares ciphertexts share.

Definition previous_decryption_shares_at (s : DbftSigner) (epoch : option DkgShareEpoch)
    (ciphertexts : list TpkeCiphertext) : result DbftSignerError (list bytes) :=
  let? share := ok_or (previous_share s) MissingPreviousDkgPrivateShare in
  let? _ := require_epoch share epoch in
  decryption_shares ciphertexts share.

(** ** Duties *)

Definition journaled (t : DbftMessageType) : bool :=
  match t with PrepareRequest | PrepareResponse | PreCommit | Commit => true | _ => false end.

(** [io] is what the write to the journal does, when there is one. *)
Definition record_duty (s : DbftSigner) (io : WriteOutcome) (block_index view_number kind : N)
    (payload : bytes) : DbftSigner * result DbftSignerError unit :=
  match duty_journal s with
  | None => (s, Ok tt)
  | Some j =>
      let '(j, r) := journal_record j io block_index view_number kind (keccak256 payload) in
      (set_journal s j, map_err JournalRefused r)
  end.

(** [payload] is the RLP of the type-specific payload. *)
Definition sign_message (s : DbftSigner) (io : WriteOutcome) (block_index validator_index view_number : N)
    (t : DbftMessageType) (payload : bytes) : DbftSigner * result DbftSignerError DbftMessage :=
  let encoded_data :=
    consensus_data_encode (mkDbftConsensusData t block_index validator_index view_number payload) in
  match
    (if journaled t
     then record_duty s io block_index view_number (message_type_as_u8 t) encoded_data else (s, Ok tt))
  with
  | (s, Err e) => (s, Err e)
  | (s, Ok _) =>
      let message := mkDbftMessage 0 block_index (account s) encoded_data [] in
      (s, let? witness := recoverable_witness s (message_hash message) in
          Ok (with_witness message witness))
  end.

(** What the seal of a header commits to. *)
Definition seal_identity (header : Header) : result DbftExtraError (DbftExtraPrefix.t * bytes) :=
  let? extra := DbftExtraPrefix.decode (extra_data header) in
  let? identity :=
    match DbftExtraPrefix.signature_scheme extra with
    | Ecdsa => ecdsa_seal_hash header
    | Threshold => threshold_seal_message header
    end in
  Ok (extra, identity).

Definition commit_for_header_at (s : DbftSigner) (io : WriteOutcome) (header : Header)
    (epoch : option DkgShareEpoch) : DbftSigner * result DbftSignerError DbftCommit :=
  match seal_identity header with
  | Err e => (s, Err (InvalidHeader e))
  | Ok (extra, identity) =>
      match record_duty s io (number header) 0 HEADER_COMMIT_DUTY identity with
      | (s, Err e) => (s, Err e)
      | (s, Ok _) =>
          (s, match DbftExtraPrefix.signature_scheme extra with
              | Ecdsa =>
                  let? seal_hash := map_err InvalidHeader (ecdsa_seal_hash header) in
                  let? signature := recoverable_witness s seal_hash in
                  Ok (mkDbftCommit signature)
              | Threshold =>
                  let? share := ok_or (current_share s) MissingDkgPrivateShare in
                  let? _ := require_epoch share epoch in
                  let? message := map_err InvalidHeader (threshold_seal_message header) in
                  let? signature :=
                    map_err ThresholdSigning
                      (sign_share message (secret share)
                         (bool_decide (DbftExtraPrefix.version extra = V1))) in
                  Ok (mkDbftCommit signature)
              end)
      end
  end.
End signer.

(** ** The validator index *)

Lemma sorted_nth_le (vs : list Address) i j :
  StronglySorted bytes_le vs -> (i <= j < length vs)%nat -> bytes_le (nth i vs []) (nth j vs []).
Proof.
  intros Hs. revert i j. induction Hs as [|a vs Hs IH Hf]; intros i j Hij; simpl in *; [lia|].
  destruct i as [|i], j as [|j]; simpl; [done| |lia|apply IH; lia].
  rewrite Forall_forall in Hf. apply Hf. apply list_elem_of_In, nth_In. lia.
Qed.

Lemma search_base_spec vs target t fuel base size :
  StronglySorted bytes_le vs -> NoDup vs -> vs !! t = Some target ->
  (base <= t < base + size)%nat -> (base + size <= length vs)%nat -> (size <= fuel)%nat ->
  search_base fuel vs target base size = t.
Proof.
  intros Hs Hn Ht. assert (Et : nth t vs [] = target) by (by apply nth_lookup_Some with (d := []) in Ht).
  revert base size. induction fuel as [|fuel IH]; intros base size Hb Hl Hf; [lia|].
  cbn [search_base]. cbv zeta.
  destruct (Nat.leb_spec size 1) as [Hz|Hz]; [lia|].
  pose proof (Nat.div_mod_eq size 2) as Hd. pose proof (Nat.mod_upper_bound size 2 ltac:(lia)) as Hm.
  set (half := (size / 2)%nat) in *. clearbody half.
  destruct (bytes_leb (nth (base + half) vs []) target) eqn:E.
  - apply IH; [|lia|lia]. split; [|lia]. destruct (decide (base + half <= t)%nat) as [|Hgt]; [done|].
    exfalso. pose proof (sorted_nth_le vs t (base + half) Hs ltac:(lia)) as Hle. rewrite Et in Hle.
    pose proof (anti_symm bytes_le _ _ E Hle) as Eq.
    assert (Hk : vs !! (base + half)%nat = Some target).
    { destruct (lookup_lt_is_Some_2 vs (base + half)) as [y Hy]; [lia|]. rewrite Hy. f_equal.
      rewrite <- Eq. by apply nth_lookup_Some with (d := []) in Hy. }
    pose proof (NoDup_lookup _ _ _ _ Hn Ht Hk). lia.
  - apply IH; [|lia|lia]. split; [lia|]. destruct (decide (t < base + half)%nat) as [|Hge]; [lia|].
    exfalso. pose proof (sorted_nth_le vs (base + half) t Hs ltac:(lia)) as Hle. rewrite Et in Hle.
    unfold bytes_le in Hle. congruence.
Qed.

Lemma binary_search_spec vs target i :
  StronglySorted bytes_le vs -> NoDup vs ->
  binary_search vs target = Some i <-> vs !! i = Some target.
Proof.
  intros Hs Hn. unfold binary_search. split.
  - case_bool_decide as E; [|done]. by intros [= <-].
  - intros Hi. rewrite (search_base_spec vs target i); try done; [|apply lookup_lt_Some in Hi; lia..].
    by rewrite bool_decide_eq_true_2.
Qed.

(** ** What is signed verifies *)

Section signing.
Context {R : AlloyRlp} {RL : AlloyRlpLaws R} {C : Crypto} {K : Secp256k1} {KL : Secp256k1Laws C K} {B : Blst}.

(** A signer holds the account of its key; every operation keeps it. *)
Definition signer_ok (s : DbftSigner) : Prop := account s = key_account (key s).

Lemma recoverable_witness_Ok s prehash w :
  signer_ok s -> recoverable_witness s prehash = Ok w ->
  lenN w = 65 /\ (nth 64 w x00 = x00 \/ nth 64 w x00 = x01) /\
  recover_address_from_prehash w (bool_decide (nth 64 w x00 = x01)) prehash = Some (account s).
Proof.
  intros Hs Hw. unfold recoverable_witness in Hw. apply result_bind_Ok in Hw as ([sg id] & Hk & Hw).
  apply ok_or_Ok in Hk. injection Hw as <-. destruct (sign_recovers _ _ _ _ Hk) as (Hl & Hid & Hr).
  assert (En : nth 64 (sg ++ [byte_of id]) x00 = byte_of id).
  { rewrite app_nth2, Hl by lia. done. }
  rewrite En, Hs, <- Hr. split; [unfold lenN; rewrite length_app, Hl; done|].
  assert (id = 0 \/ id = 1) as [-> | ->] by lia; split; try done; [by left|by right].
Qed.

Lemma record_duty_frame s io b v k payload :
  let s' := (record_duty s io b v k payload).1 in
  key s' = key s /\ account s' = account s /\
  current_share s' = current_share s /\ previous_share s' = previous_share s.
Proof.
  unfold record_duty. destruct (duty_journal s) as [j|]; [|done].
  by destruct (journal_record j io b v k (keccak256 payload)).
Qed.

Lemma sign_message_Ok s io h i v t payload s' m :
  sign_message s io h i v t payload = (s', Ok m) ->
  key s' = key s /\ account s' = account s /\
  exists w, recoverable_witness s' (message_hash m) = Ok w /\
    m = mkDbftMessage 0 h (account s)
          (consensus_data_encode (mkDbftConsensusData t h i v payload)) w.
Proof.
  unfold sign_message. intros H.
  set (enc_data := consensus_data_encode _) in *.
  destruct (if journaled t then _ else _) as [s1 [u|e]] eqn:E; [|done].
  assert (Hf : key s1 = key s /\ account s1 = account s).
  { destruct (journaled t); [|by injection E as <- _].
    pose proof (record_duty_frame s io h v (message_type_as_u8 t) enc_data) as Hf. rewrite E in Hf.
    simpl in Hf. tauto. }
  destruct Hf as [Hkey Hacc]. injection H as <- H. apply result_bind_Ok in H as (w & Hw & H).
  injection H as <-. split_and!; [done|done|]. exists w. rewrite <- Hacc. split; [|done].
  by rewrite <- Hw.
Qed.

(** Local messages are authentic: a message the signer returns names its account as
    sender, carries a witness that verifies, is valid exactly up to its height, and
    decodes to the type, height, index, view and payload it was asked to sign. *)
Theorem signed_message_authentic s io h i v t payload s' m :
  signer_ok s -> h <= U64_MAX -> i <= U8_MAX -> v <= U8_MAX -> rlp_item payload ->
  lenN (consensus_data_encode (mkDbftConsensusData t h i v payload)) <= USIZE_MAX ->
  sign_message s io h i v t payload = (s', Ok m) ->
  verify_witness m = Ok (message_hash m) /\ sender m = account s /\
  valid_block_start m = 0 /\ valid_block_end m = h /\
  consensus_data m = Ok (mkDbftConsensusData t h i v payload).
Proof.
  intros Hs Hh Hi Hv Hp Hlen H. apply sign_message_Ok in H as (Hk & Ha & w & Hw & ->).
  assert (Hs' : signer_ok s') by (unfold signer_ok in *; congruence).
  destruct (recoverable_witness_Ok _ _ _ Hs' Hw) as (Hl & Hid & Hr).
  split_and!; try done.
  - unfold verify_witness. cbn [witness sender]. rewrite Hl, N.eqb_refl. cbn [negb].
    rewrite Ha in Hr.
    destruct Hid as [E|E]; rewrite E in *; cbn [result_bind].
    + rewrite bool_decide_eq_false_2 in Hr by done. rewrite Hr. cbn [ok_or result_bind].
      by rewrite bool_decide_eq_true_2.
    + rewrite bool_decide_eq_true_2 in Hr by done. rewrite Hr. cbn [ok_or result_bind].
      by rewrite bool_decide_eq_true_2.
  - unfold consensus_data. cbn [data valid_block_end].
    replace (decode_exact consensus_data_codec _)
      with (@Ok rlp_error _ (mkDbftConsensusData t h i v payload)).
    + simpl. by rewrite N.eqb_refl.
    + symmetry. apply decode_exact_Ok. rewrite <- (app_nil_r (consensus_data_encode _)).
      by apply consensus_data_decode_encode.
Qed.

(** ** Histories of a journaled key

    Signing requests, changes of the DKG shares and restarts of one validator key, with
    what it gave out: the duty each signature was made for and the signed payload. *)

Inductive SignerEvent : Type :=
| SignEvent (io : WriteOutcome) (h i v : N) (t : DbftMessageType) (payload : bytes)
| CommitEvent (io : WriteOutcome) (header : Header) (epoch : option DkgShareEpoch)
| SharesEvent (current previous : option DkgPrivateShare)
| RestartEvent.

Record SignerOutput : Type := mkSignerOutput {
  out_block : N;
  out_view : N;
  out_kind : N;
  out_payload : bytes;
  out_artifact : DbftMessage + DbftCommit;
}.

Definition message_data (h i v : N) (t : DbftMessageType) (payload : bytes) : bytes :=
  consensus_data_encode (mkDbftConsensusData t h i v payload).

Definition signer_step (s : DbftSigner * list SignerOutput) (e : SignerEvent)
    : DbftSigner * list SignerOutput :=
  match e with
  | SignEvent io h i v t payload =>
      match sign_message s.1 io h i v t payload with
      | (s', Ok m) =>
          (s', if journaled t
               then mkSignerOutput h v (message_type_as_u8 t) (message_data h i v t payload) (inl m) :: s.2
               else s.2)
      | (s', Err _) => (s', s.2)
      end
  | CommitEvent io header epoch =>
      match commit_for_header_at s.1 io header epoch with
      | (s', Ok c) =>
          (s', match seal_identity header with
               | Ok (_, identity) =>
                   mkSignerOutput (number header) 0 HEADER_COMMIT_DUTY identity (inr c) :: s.2
               | Err _ => s.2
               end)
      | (s', Err _) => (s', s.2)
      end
  | SharesEvent current previous => (set_shares s.1 current previous, s.2)
  | RestartEvent =>
      match duty_journal s.1 with
      | None => (signer_new (key s.1), s.2)
      | Some j =>
          match with_duty_journal (signer_new (key s.1)) (file j) with
          | Ok s' => (s', s.2)
          | Err _ => s
          end
      end
  end.

Definition signer_history (k : signing_key) (es : list SignerEvent) : DbftSigner * list SignerOutput :=
  foldl signer_step (set_journal (signer_new k) (mkDutyJournal [] ∅), []) es.

(** The journal events behind a signer event. *)
Definition journal_events (e : SignerEvent) : list JournalEvent :=
  match e with
  | SignEvent io h i v t payload =>
      if journaled t
      then [Attempt io h v (message_type_as_u8 t) (keccak256 (message_data h i v t payload))] else []
  | CommitEvent io header _ =>
      match seal_identity header with
      | Ok (_, identity) => [Attempt io (number header) 0 HEADER_COMMIT_DUTY (keccak256 identity)]
      | Err _ => []
      end
  | SharesEvent _ _ => []
  | RestartEvent => [Restart]
  end.

Definition output_duty (o : SignerOutput) : produced_duty :=
  (out_block o, out_view o, out_kind o, keccak256 (out_payload o)).

Definition simulates (k : signing_key) (s : DbftSigner * list SignerOutput)
    (j : DutyJournal * list produced_duty) : Prop :=
  key s.1 = k /\ signer_ok s.1 /\ duty_journal s.1 = Some j.1 /\
  forall o, o ∈ s.2 -> output_duty o ∈ j.2.

Lemma record_duty_step s j log io b v n payload s' r :
  duty_journal s = Some j -> record_duty s io b v n payload = (s', r) ->
  duty_journal s' = Some (journal_step (j, log) (Attempt io b v n (keccak256 payload))).1 /\
  (r = Ok tt -> (b, v, n, keccak256 payload) ∈ (journal_step (j, log) (Attempt io b v n (keccak256 payload))).2) /\
  log ⊆ (journal_step (j, log) (Attempt io b v n (keccak256 payload))).2.
Proof.
  intros Hj. unfold record_duty. rewrite Hj. unfold journal_step. cbn [fst snd].
  destruct (journal_record j io b v n (keccak256 payload)) as [j' [u|e]]; intros [= <- <-];
    (split_and!; [done| |]); cbn [fst snd map_err].
  - intros _. by left.
  - intros x Hx. by right.
  - done.
  - done.
Qed.

Lemma simulates_record k s outs jl io b v n payload s' r :
  simulates k (s, outs) jl -> record_duty s io b v n payload = (s', r) ->
  let jl' := journal_step jl (Attempt io b v n (keccak256 payload)) in
  simulates k (s', outs) jl' /\
  (r = Ok tt -> forall artifact, simulates k (s', mkSignerOutput b v n payload artifact :: outs) jl').
Proof.
  destruct jl as [j log]. intros (Hk & Hok & Hj & Ho) Hr jl'. cbn [fst snd] in *.
  destruct (record_duty_step s j log io b v n payload s' r Hj Hr) as (Hj' & Hnew & Hsub).
  pose proof (record_duty_frame s io b v n payload) as Hf. rewrite Hr in Hf. cbn [fst] in Hf.
  destruct Hf as (Ek & Ea & _ & _). unfold signer_ok in *.
  assert (Hs : simulates k (s', outs) jl').
  { unfold simulates, signer_ok. cbn [fst snd]. rewrite Ek, Ea. split_and!; try done. auto. }
  split; [done|]. intros Hrk artifact. destruct Hs as (H1 & H2 & H3 & H4).
  split_and!; try done. intros o [->|Ho']%elem_of_cons; [by apply Hnew|by apply H4].
Qed.

Lemma signer_step_simulates k s j e :
  simulates k s j -> simulates k (signer_step s e) (foldl journal_step j (journal_events e)).
Proof.
  destruct s as [s outs], j as [j log]. intros Hsim.
  destruct e as [io h i v t payload|io header epoch|current previous|];
    unfold signer_step, journal_events; cbn [fst snd].
  - unfold sign_message. fold (message_data h i v t payload).
    destruct (journaled t); cbn [foldl].
    + destruct (record_duty s io h v (message_type_as_u8 t) (message_data h i v t payload)) as [s1 r] eqn:Hr.
      destruct (simulates_record _ _ _ _ _ _ _ _ _ _ _ Hsim Hr) as [H1 H2].
      destruct r as [[]|e]; [|done]. destruct (result_bind _ _); [by apply H2|done].
    + by destruct (result_bind _ _).
  - unfold commit_for_header_at. destruct (seal_identity header) as [[extra identity]|e]; cbn [foldl]; [|done].
    destruct (record_duty s io (number header) 0 HEADER_COMMIT_DUTY identity) as [s1 r] eqn:Hr.
    destruct (simulates_record _ _ _ _ _ _ _ _ _ _ _ Hsim Hr) as [H1 H2].
    destruct r as [[]|e]; [|done].
    match goal with |- context [match ?x with Ecdsa => ?a | Threshold => ?b end] =>
      set (c := match x with Ecdsa => a | Threshold => b end); destruct c end; [by apply H2|done].
  - destruct Hsim as (Hk & Hok & Hj & Ho). by repeat split.
  - destruct Hsim as (Hk & Hok & Hj & Ho). cbn [fst snd] in *. rewrite Hj.
    unfold with_duty_journal. cbn [foldl]. unfold journal_step. cbn [fst snd].
    destruct (journal_open (file j)) as [j'|]; cbn [map_err result_bind]; repeat split; simpl; auto.
Qed.

Lemma signer_history_simulates k es :
  simulates k (signer_history k es) (history (flat_map journal_events es)).
Proof.
  unfold signer_history, history.
  assert (H0 : simulates k (set_journal (signer_new k) (mkDutyJournal [] ∅), []) (mkDutyJournal [] ∅, [])).
  { repeat split. intros o Ho. by apply not_elem_of_nil in Ho. }
  revert H0. generalize (set_journal (signer_new k) (mkDutyJournal [] ∅), @nil SignerOutput).
  generalize (mkDutyJournal [] ∅, @nil produced_duty).
  induction es as [|e es IH]; intros j s Hs; [done|]. cbn [flat_map foldl]. rewrite foldl_app.
  by apply IH, signer_step_simulates.
Qed.

(** Failed journal writes of the history left whole lines. *)
Definition clean_history (es : list SignerEvent) : Prop := Forall whole_lines (flat_map journal_events es).

Lemma outputs_unique k es o1 o2 :
  clean_history es -> o1 ∈ (signer_history k es).2 -> o2 ∈ (signer_history k es).2 ->
  out_block o1 = out_block o2 -> out_view o1 = out_view o2 -> out_kind o1 = out_kind o2 ->
  keccak256 (out_payload o1) = keccak256 (out_payload o2).
Proof.
  intros Hc H1 H2 Eb Ev Ek. destruct (signer_history_simulates k es) as (_ & _ & _ & Ho).
  apply Ho in H1, H2. unfold output_duty in *. rewrite Eb, Ev, Ek in H1.
  by apply (produced_unique _ _ _ _ _ _ Hc H1).
Qed.

(** The signer implements its journal: through any requests and restarts the signer's
    state is the journal's state under the corresponding attempts, and every journaled
    signature it gives out is one the journal recorded for that duty and payload. *)
Theorem signer_refines_journal k es :
  let s := signer_history k es in
  let j := history (flat_map journal_events es) in
  duty_journal s.1 = Some j.1 /\ account s.1 = key_account k /\
  forall o, o ∈ s.2 -> (out_block o, out_view o, out_kind o, keccak256 (out_payload o)) ∈ j.2.
Proof.
  destruct (signer_history_simulates k es) as (Hk & Hok & Hj & Ho). cbv zeta.
  split_and!; [done|by rewrite Hok, Hk|apply Ho].
Qed.

(** What an output is. *)
Definition output_shape (o : SignerOutput) : Prop :=
  (exists i t payload, out_kind o = message_type_as_u8 t /\
     out_payload o = message_data (out_block o) i (out_view o) t payload) \/
  (exists header extra, out_kind o = HEADER_COMMIT_DUTY /\ out_view o = 0 /\
     out_block o = number header /\ seal_identity header = Ok (extra, out_payload o)).

Lemma signer_history_shape k es o : o ∈ (signer_history k es).2 -> output_shape o.
Proof.
  unfold signer_history.
  assert (Hstep : forall s e, (forall o, o ∈ s.2 -> output_shape o) ->
    forall o, o ∈ (signer_step s e).2 -> output_shape o).
  { intros s e IH o'. destruct e as [io h i v t payload|io header epoch|current previous|]; simpl.
    - destruct (sign_message _ _ _ _ _ _ _) as [s' [m|]]; [|apply IH]. simpl. destruct (journaled t); [|apply IH].
      intros [->|Ho]%elem_of_cons; [|by apply IH]. left. by exists i, t, payload.
    - destruct (commit_for_header_at _ _ _ _) as [s' [m|]]; [|apply IH]. simpl.
      destruct (seal_identity header) as [[extra identity]|] eqn:Es; [|apply IH].
      intros [->|Ho]%elem_of_cons; [|by apply IH]. right. by exists header, extra.
    - apply IH.
    - repeat case_match; apply IH. }
  assert (H0 : forall o, o ∈ (@nil SignerOutput) -> output_shape o).
  { intros o' Ho. by apply not_elem_of_nil in Ho. }
  revert o H0. generalize (set_journal (signer_new k) (mkDutyJournal [] ∅)). generalize (@nil SignerOutput).
  induction es as [|e es IH]; intros outs s o H0; [apply H0|]. cbn [foldl].
  destruct (signer_step (s, outs) e) as [s' outs'] eqn:E. apply IH.
  intros o' Ho'. apply (Hstep (s, outs) e H0). by rewrite E.
Qed.

Lemma seal_output k es o :
  o ∈ (signer_history k es).2 -> out_kind o = HEADER_COMMIT_DUTY -> out_view o = 0.
Proof.
  intros Ho Hk. destruct (signer_history_shape k es o Ho) as [(i & t & payload & Et & _)|(? & ? & _ & ? & _)]; [|done].
  rewrite Hk in Et. by destruct t.
Qed.

(** C28. A journaled key never equivocates, also across restarts: two preparations,
    pre-commits or commits it signed for one height and view, and two headers it sealed
    at one height whatever the view, have the same Keccak hash of the signed payload. *)
Theorem signer_no_equivocation k es o1 o2 :
  clean_history es -> o1 ∈ (signer_history k es).2 -> o2 ∈ (signer_history k es).2 ->
  out_block o1 = out_block o2 -> out_kind o1 = out_kind o2 ->
  (out_kind o1 = HEADER_COMMIT_DUTY \/ out_view o1 = out_view o2) ->
  keccak256 (out_payload o1) = keccak256 (out_payload o2).
Proof.
  intros Hc H1 H2 Eb Ek Hv. apply (outputs_unique k es); try done.
  destruct Hv as [Hseal|Ev]; [|done].
  by rewrite (seal_output k es o1), (seal_output k es o2) by congruence.
Qed.
End signing.

(** ** Concrete inputs *)

Module SignerWitness.
#[local] Existing Instance alloy_rlp.
#[local] Existing Instance RlpInstance.alloy_rlp_laws.
#[local] Existing Instance model_crypto.
#[local] Existing Instance model_secp256k1.
#[local] Existing Instance model_secp256k1_laws.
#[local] Existing Instance model_blst.

Definition secret : signing_key := 7.
Definition signer : DbftSigner := signer_new secret.
Definition signed : DbftSigner * result DbftSignerError DbftMessage :=
  sign_message signer Synced 42 1 0 PrepareResponse (xa0 :: repeat x11 32).

Lemma signed_message_authentic_witness :
  exists m, signed.2 = Ok m /\ verify_witness m = Ok (message_hash m).
Proof.
  destruct (signed.2) as [m|e] eqn:E; [|vm_compute in E; discriminate].
  exists m. split; [done|].
  apply (signed_message_authentic signer Synced 42 1 0 PrepareResponse (xa0 :: repeat x11 32) signed.1 m);
    [done|vm_compute; discriminate|vm_compute; discriminate|vm_compute; discriminate
    |vm_compute; reflexivity|vm_compute; discriminate|].
  change (signed = (signed.1, Ok m)). rewrite <- E. by destruct signed.
Defined.

(** A response is signed, the process restarts, another response for the view is refused. *)
Definition events : list SignerEvent :=
  [SignEvent Synced 42 1 0 PrepareResponse (xa0 :: repeat x11 32); RestartEvent;
   SignEvent Synced 42 1 0 PrepareResponse (xa0 :: repeat x22 32);
   SignEvent Synced 42 1 0 PrepareResponse (xa0 :: repeat x11 32)].

Lemma signer_no_equivocation_witness :
  exists o1 o2, (signer_history secret events).2 = [o1; o2] /\
    keccak256 (out_payload o1) = keccak256 (out_payload o2).
Proof.
  destruct ((signer_history secret events).2) as [|o1 [|o2 [|o3 l]]] eqn:E;
    try (vm_compute in E; discriminate).
  exists o1, o2. split; [done|].
  apply (signer_no_equivocation secret events o1 o2);
    [repeat constructor|rewrite E; by left|rewrite E; right; by left| | |right];
    vm_compute in E; injection E as <- <-; reflexivity.
Defined.
End SignerWitness.
