(* ===== verification/DkgTransaction.v ===== *)
(** Transactions of the key-generation tasks (crates/neox/node/src/dkg_transaction.rs): one
    reserved nonce for each task and fees that rise with every replacement, up to the signer
    (crates/neox/node/src/dkg_submit.rs). *)

From S2P Require Import Prelude Extern Instances Storage DkgTask DkgExecutor Journal Signer.

Definition DEFAULT_DKG_TRANSACTION_GAS_LIMIT : N := 12000000.
Definition FEE_BUMP_DENOMINATOR : N := 8.

Record DkgTransactionInputs : Type := mkDkgTransactionInputs {
  on_chain_nonce : N;
  inputs_base_fee_per_gas : N;
  minimum_priority_fee_per_gas : N;
}.

Inductive DkgTransactionBuildError : Type :=
| EmptyChainId
| EmptyGasLimit
| BuildInvalidCalldata (length : N)
| NonceOverflow
| UnknownReservation (id : DkgTaskId)
| NonceAlreadyMined (reserved on_chain : N)
| ReplacementOverflow
| FeeOverflow.

Record DkgTransactionFee : Type := mkDkgTransactionFee {
  fee_max_fee_per_gas : N;
  fee_max_priority_fee_per_gas : N;
}.

Record DkgTransactionReservation : Type := mkDkgTransactionReservation {
  reserved_nonce : N;
  reserved_fee : DkgTransactionFee;
  replacements : N;
}.

Record DkgTransactionBuilder : Type := mkDkgTransactionBuilder {
  builder_chain_id : N;
  builder_gas_limit : N;
  reservations : gmap DkgTaskId DkgTransactionReservation;
}.

Definition with_gas_limit (chain_id gas_limit : N) : result DkgTransactionBuildError DkgTransactionBuilder :=
  if chain_id =? 0 then Err EmptyChainId
  else if gas_limit =? 0 then Err EmptyGasLimit
  else Ok (mkDkgTransactionBuilder chain_id gas_limit ∅).

(** [DkgTransactionBuilder::new] *)
Definition builder_new (chain_id : N) : result DkgTransactionBuildError DkgTransactionBuilder :=
  with_gas_limit chain_id DEFAULT_DKG_TRANSACTION_GAS_LIMIT.

Definition set_reservations (b : DkgTransactionBuilder) (r : gmap DkgTaskId DkgTransactionReservation) : DkgTransactionBuilder :=
  mkDkgTransactionBuilder (builder_chain_id b) (builder_gas_limit b) r.

(** ** Fees *)

(** [DkgTransactionFee::initial] *)
Definition fee_initial (i : DkgTransactionInputs) : result DkgTransactionBuildError DkgTransactionFee :=
  let? doubled_base := ok_or (checked_mul U128_MAX (inputs_base_fee_per_gas i) 2) FeeOverflow in
  let? max_fee := ok_or (checked_add U128_MAX doubled_base (minimum_priority_fee_per_gas i)) FeeOverflow in
  Ok (mkDkgTransactionFee max_fee (minimum_priority_fee_per_gas i)).

Definition bump_fee (value : N) : result DkgTransactionBuildError N :=
  ok_or (checked_add U128_MAX value (N.max (value / FEE_BUMP_DENOMINATOR) 1)) FeeOverflow.

(** [DkgTransactionFee::bumped] *)
Definition fee_bumped (f : DkgTransactionFee) (i : DkgTransactionInputs) : result DkgTransactionBuildError DkgTransactionFee :=
  let? live := fee_initial i in
  let? bumped_priority := bump_fee (fee_max_priority_fee_per_gas f) in
  let priority := N.max bumped_priority (fee_max_priority_fee_per_gas live) in
  let? live_with_bumped_tip :=
    ok_or (base ← checked_mul U128_MAX (inputs_base_fee_per_gas i) 2; checked_add U128_MAX base priority) FeeOverflow in
  let? bumped_max := bump_fee (fee_max_fee_per_gas f) in
  Ok (mkDkgTransactionFee (N.max (N.max bumped_max (fee_max_fee_per_gas live)) live_with_bumped_tip) priority).

(** ** Requests *)

Definition validate_calldata (calldata : bytes) : result DkgTransactionBuildError unit :=
  if lenN calldata <? 4 then Err (BuildInvalidCalldata (lenN calldata)) else Ok tt.

Definition transaction_request (b : DkgTransactionBuilder) (calldata : bytes) (r : DkgTransactionReservation)
    : result DkgTransactionBuildError DkgTransactionRequest :=
  if lenN calldata <? 4 then Err (BuildInvalidCalldata (lenN calldata))
  else
    Ok (mkDkgTransactionRequest (builder_chain_id b) (reserved_nonce r) (builder_gas_limit b)
          (fee_max_fee_per_gas (reserved_fee r)) (fee_max_priority_fee_per_gas (reserved_fee r)) calldata).

Definition prune_canonical_nonces (b : DkgTransactionBuilder) (on_chain_nonce : N) : DkgTransactionBuilder :=
  set_reservations b (filter (fun e => on_chain_nonce <= reserved_nonce e.2) (reservations b)).

Definition is_reserved (b : DkgTransactionBuilder) (nonce : N) : bool :=
  existsb (fun e => reserved_nonce e.2 =? nonce) (map_to_list (reservations b)).

(** The search for a free nonce: one turn of the loop for each taken one; [None] when [fuel]
    turns are not enough. *)
Fixpoint free_nonce (fuel : nat) (taken : N -> bool) (nonce : N) : option (result DkgTransactionBuildError N) :=
  match fuel with
  | O => None
  | S fuel =>
      if negb (taken nonce) then Some (Ok nonce)
      else
        match checked_add U64_MAX nonce 1 with
        | Some nonce => free_nonce fuel taken nonce
        | None => Some (Err NonceOverflow)
        end
  end.

(** [None] is a search that has not ended after [fuel] turns. *)
Definition build (b : DkgTransactionBuilder) (fuel : nat) (id : DkgTaskId) (calldata : bytes) (i : DkgTransactionInputs)
    (nonce_occupied : N -> bool) : option (DkgTransactionBuilder * result DkgTransactionBuildError DkgTransactionRequest) :=
  match validate_calldata calldata with
  | Err e => Some (b, Err e)
  | Ok _ =>
      let b := prune_canonical_nonces b (on_chain_nonce i) in
      match reservations b !! id with
      | Some reservation => Some (b, transaction_request b calldata reservation)
      | None =>
          found ← free_nonce fuel (fun nonce => is_reserved b nonce || nonce_occupied nonce) (on_chain_nonce i);
          Some match (let? nonce := found in let? fee := fee_initial i in Ok (mkDkgTransactionReservation nonce fee 0)) with
               | Err e => (b, Err e)
               | Ok reservation =>
                   let b := set_reservations b (<[id := reservation]> (reservations b)) in
                   (b, transaction_request b calldata reservation)
               end
      end
  end.

Definition bump (b : DkgTransactionBuilder) (id : DkgTaskId) (calldata : bytes) (i : DkgTransactionInputs)
    : DkgTransactionBuilder * result DkgTransactionBuildError DkgTransactionRequest :=
  match validate_calldata calldata with
  | Err e => (b, Err e)
  | Ok _ =>
      match reservations b !! id with
      | Some reservation =>
          if reserved_nonce reservation <? on_chain_nonce i then
            (set_reservations b (delete id (reservations b)),
             Err (NonceAlreadyMined (reserved_nonce reservation) (on_chain_nonce i)))
          else
            let b := prune_canonical_nonces b (on_chain_nonce i) in
            match fee_bumped (reserved_fee reservation) i with
            | Err e => (b, Err e)
            | Ok fee =>
                match checked_add U32_MAX (replacements reservation) 1 with
                | None =>
                    (set_reservations b
                       (<[id := mkDkgTransactionReservation (reserved_nonce reservation) fee (replacements reservation)]> (reservations b)),
                     Err ReplacementOverflow)
                | Some n =>
                    let reservation := mkDkgTransactionReservation (reserved_nonce reservation) fee n in
                    let b := set_reservations b (<[id := reservation]> (reservations b)) in
                    (b, transaction_request b calldata reservation)
                end
            end
      | None => (prune_canonical_nonces b (on_chain_nonce i), Err (UnknownReservation id))
      end
  end.

Definition release_reservation (b : DkgTransactionBuilder) (id : DkgTaskId) : DkgTransactionBuilder * bool :=
  (set_reservations b (delete id (reservations b)), bool_decide (is_Some (reservations b !! id))).

Definition reservation (b : DkgTransactionBuilder) (id : DkgTaskId) : option (N * N) :=
  (fun r => (reserved_nonce r, replacements r)) <$> reservations b !! id.

(** ** Replacement in the pool

    [PriceBumpConfig::is_replacement_underpriced] (crates/transaction-pool/src/config.rs) on
    two dynamic-fee transactions, which have no blob fee. *)

Definition DEFAULT_PRICE_BUMP : N := 10.

Definition required_bumped_fee (price_bump existing : N) : N :=
  div_ceil (N.min (existing * (100 + price_bump)) U128_MAX) 100.

Definition is_replacement_underpriced (price_bump : N) (existing replacement : DkgTransactionRequest) : bool :=
  if max_fee_per_gas replacement <? required_bumped_fee price_bump (max_fee_per_gas existing) then true
  else
    negb (max_priority_fee_per_gas existing =? 0) && negb (max_priority_fee_per_gas replacement =? 0) &&
    (max_priority_fee_per_gas replacement <? required_bumped_fee price_bump (max_priority_fee_per_gas existing)).

(** ** Fees *)

Lemma fee_initial_Ok i f : fee_initial i = Ok f ->
  f = mkDkgTransactionFee (2 * inputs_base_fee_per_gas i + minimum_priority_fee_per_gas i) (minimum_priority_fee_per_gas i).
Proof.
  unfold fee_initial. intros H. apply checked_mul_bind_Ok in H as [_ H]. apply checked_add_bind_Ok in H as [_ [= <-]]. f_equal. lia.
Qed.

Lemma bump_fee_Ok v v' : bump_fee v = Ok v' -> v' = v + N.max (v / 8) 1.
Proof. unfold bump_fee. intros H. by apply ok_or_Ok, checked_add_Some in H as [-> _]. Qed.

(** Both fees rise by an eighth, rounded down, and at least by one; the fee cap covers twice the
    base fee and the tip. *)
Lemma fee_bumped_Ok f i g : fee_bumped f i = Ok g ->
  fee_max_priority_fee_per_gas f + N.max (fee_max_priority_fee_per_gas f / 8) 1 <= fee_max_priority_fee_per_gas g /\
  fee_max_fee_per_gas f + N.max (fee_max_fee_per_gas f / 8) 1 <= fee_max_fee_per_gas g /\
  minimum_priority_fee_per_gas i <= fee_max_priority_fee_per_gas g /\
  2 * inputs_base_fee_per_gas i + fee_max_priority_fee_per_gas g <= fee_max_fee_per_gas g.
Proof.
  unfold fee_bumped. intros H. apply result_bind_Ok in H as (live & ->%fee_initial_Ok & H).
  apply result_bind_Ok in H as (bp & ->%bump_fee_Ok & H). cbv zeta in H. apply result_bind_Ok in H as (lt & Hlt & H).
  apply result_bind_Ok in H as (bm & ->%bump_fee_Ok & [= <-]). cbn in *. apply ok_or_Ok in Hlt.
  destruct (checked_mul U128_MAX (inputs_base_fee_per_gas i) 2) as [base|] eqn:E; [|done]. apply checked_mul_Some in E as [-> _].
  cbn in Hlt. apply checked_add_Some in Hlt as [-> _].
  generalize (fee_max_priority_fee_per_gas f / 8) (fee_max_fee_per_gas f / 8). intros. lia.
Qed.

(** A fee the pool's ten percent rule takes after a bump: every fee but the few where rounding
    an eighth down gives less than rounding a tenth up. *)
Definition bumps_enough (v : N) : Prop := v <= 10 \/ 32 <= v.

Lemma bump_required v v' : bumps_enough v -> v + N.max (v / 8) 1 <= v' -> required_bumped_fee DEFAULT_PRICE_BUMP v <= v'.
Proof.
  intros Hv H. unfold required_bumped_fee, DEFAULT_PRICE_BUMP, div_ceil. transitivity (v + N.max (v / 8) 1); [|done].
  assert (Hq : v = 8 * (v / 8) + v mod 8) by apply N.div_mod'. pose proof (N.mod_lt v 8 ltac:(done)) as Hr.
  generalize dependent (v mod 8). generalize dependent (v / 8). intros q H r Hq Hr.
  apply N.lt_succ_r. apply N.Div0.div_lt_upper_bound. unfold bumps_enough in Hv. lia.
Qed.

(** ** Reachable builders *)

Inductive builder_step (b : DkgTransactionBuilder) : DkgTransactionBuilder -> Prop :=
| step_build fuel id calldata i occupied b' r : build b fuel id calldata i occupied = Some (b', r) -> builder_step b b'
| step_bump id calldata i : builder_step b (bump b id calldata i).1
| step_release id : builder_step b (release_reservation b id).1.

Inductive builder_reachable (chain_id gas_limit : N) : DkgTransactionBuilder -> Prop :=
| reach_builder b : with_gas_limit chain_id gas_limit = Ok b -> builder_reachable chain_id gas_limit b
| reach_builder_step b b' : builder_reachable chain_id gas_limit b -> builder_step b b' -> builder_reachable chain_id gas_limit b'.

Definition reservations_ok (m : gmap DkgTaskId DkgTransactionReservation) : Prop :=
  (forall id r, m !! id = Some r -> fee_max_priority_fee_per_gas (reserved_fee r) <= fee_max_fee_per_gas (reserved_fee r)) /\
  forall id id' r r', m !! id = Some r -> m !! id' = Some r' -> reserved_nonce r = reserved_nonce r' -> id = id'.

Definition builder_ok (b : DkgTransactionBuilder) : Prop :=
  builder_chain_id b <> 0 /\ builder_gas_limit b <> 0 /\ reservations_ok (reservations b).

Lemma reservations_ok_sub m m' : m' ⊆ m -> reservations_ok m -> reservations_ok m'.
Proof. intros Hs [H1 H2]. split; intros; [eapply H1|eapply H2]; try by eapply lookup_weaken. done. Qed.

Lemma prune_ok b n : builder_ok b -> builder_ok (prune_canonical_nonces b n).
Proof. intros (? & ? & H). split_and!; [done..|]. eapply reservations_ok_sub; [|exact H]. apply map_filter_subseteq. Qed.

Lemma reservations_ok_insert m id r : reservations_ok m ->
  fee_max_priority_fee_per_gas (reserved_fee r) <= fee_max_fee_per_gas (reserved_fee r) ->
  (forall id' r', m !! id' = Some r' -> id' <> id -> reserved_nonce r' <> reserved_nonce r) -> reservations_ok (<[id := r]> m).
Proof.
  intros [H1 H2] Hf Hn. split.
  - intros i x. rewrite lookup_insert_Some. intros [[<- <-]|[_ Hx]]; [done|by eapply H1].
  - intros i j x y. rewrite !lookup_insert_Some. intros [[<- <-]|[Hi Hx]] [[<- <-]|[Hj Hy]] E; [done| | |by eapply H2].
    + by destruct (Hn j y Hy); [done|].
    + by destruct (Hn i x Hx); [done|].
Qed.

Lemma is_reserved_false b nonce id r : is_reserved b nonce = false -> reservations b !! id = Some r -> reserved_nonce r <> nonce.
Proof.
  unfold is_reserved. intros H Hr E. rewrite <- not_true_iff_false in H. apply H. apply existsb_exists. exists (id, r). split.
  - by apply list_elem_of_In, elem_of_map_to_list.
  - by apply N.eqb_eq.
Qed.

(** The search ends, at the first free nonce. *)
Lemma free_nonce_Ok taken fuel : forall nonce n, free_nonce fuel taken nonce = Some (Ok n) ->
  nonce <= n /\ taken n = false /\ forall k, nonce <= k < n -> taken k = true.
Proof.
  induction fuel as [|fuel IH]; intros nonce n H; [done|]. cbn [free_nonce] in H. destruct (taken nonce) eqn:E; cbn [negb] in H.
  - destruct (checked_add U64_MAX nonce 1) as [next|] eqn:En; [|done]. apply checked_add_Some in En as [-> _].
    apply IH in H as (H1 & H2 & H3). split_and!; [lia|done|]. intros k Hk. destruct (decide (k = nonce)) as [->|]; [done|]. apply H3. lia.
  - injection H as <-. split_and!; [done..|]. intros; lia.
Qed.

Lemma free_nonce_total taken fuel : forall nonce, (N.to_nat (U64_MAX - nonce) < fuel)%nat -> is_Some (free_nonce fuel taken nonce).
Proof.
  induction fuel as [|fuel IH]; intros nonce H; [lia|]. cbn [free_nonce]. destruct (negb _); [done|].
  destruct (checked_add U64_MAX nonce 1) as [next|] eqn:E; [|done]. apply checked_add_Some in E as [-> Hle]. apply IH. lia.
Qed.

Lemma request_Ok b calldata r q : transaction_request b calldata r = Ok q ->
  q = mkDkgTransactionRequest (builder_chain_id b) (reserved_nonce r) (builder_gas_limit b)
        (fee_max_fee_per_gas (reserved_fee r)) (fee_max_priority_fee_per_gas (reserved_fee r)) calldata /\ 4 <= lenN calldata.
Proof. unfold transaction_request. destruct (N.ltb_spec (lenN calldata) 4); [done|]. by intros [= <-]. Qed.

(** A build either repeats the reservation of the task or makes one. *)
Lemma build_spec b fuel id calldata i occupied b' r : build b fuel id calldata i occupied = Some (b', r) ->
  match reservations (prune_canonical_nonces b (on_chain_nonce i)) !! id with
  | Some old => (b' = b \/ b' = prune_canonical_nonces b (on_chain_nonce i)) /\
      forall q, r = Ok q -> b' = prune_canonical_nonces b (on_chain_nonce i) /\ transaction_request b calldata old = Ok q
  | None => ((b' = b \/ b' = prune_canonical_nonces b (on_chain_nonce i)) /\ forall q, r <> Ok q) \/
      exists n fee q, free_nonce fuel (fun k => is_reserved (prune_canonical_nonces b (on_chain_nonce i)) k || occupied k) (on_chain_nonce i) = Some (Ok n) /\
        fee_initial i = Ok fee /\ transaction_request b calldata (mkDkgTransactionReservation n fee 0) = q /\ r = q /\
        b' = set_reservations b (<[id := mkDkgTransactionReservation n fee 0]> (reservations (prune_canonical_nonces b (on_chain_nonce i))))
  end.
Proof.
  unfold build, validate_calldata. destruct (N.ltb_spec (lenN calldata) 4) as [Hl|Hl].
  { intros [= <- <-]. destruct (_ !! id); [split; [by left|done]|]. left. split; [by left|done]. }
  cbv zeta. destruct (_ !! id) as [old|]; [intros [= <- <-]; split; [by right|]; intros q Hq; split; [done|]; exact Hq|].
  destruct (free_nonce _ _ _) as [[n|e]|]; cbn [mbind option_bind result_bind]; [|by intros [= <- <-]; left; split; [right|]|done].
  destruct (fee_initial i) as [fee|e]; cbn [result_bind]; [|by intros [= <- <-]; left; split; [right|]].
  intros [= <- <-]. right. by exists n, fee, (transaction_request b calldata (mkDkgTransactionReservation n fee 0)).
Qed.

Lemma build_ok b fuel id calldata i occupied b' r : builder_ok b -> build b fuel id calldata i occupied = Some (b', r) -> builder_ok b'.
Proof.
  intros Hb H%build_spec. pose proof (prune_ok b (on_chain_nonce i) Hb) as Hp.
  destruct (_ !! id) as [old|]; [destruct H as [[->| ->] _]; done|]. destruct H as [[[->| ->] _]|(n & fee & q & Hn & Hf & _ & _ & ->)]; [done..|].
  destruct Hp as (? & ? & Hres). split_and!; [done..|]. apply fee_initial_Ok in Hf as ->. apply reservations_ok_insert; [done|cbn; lia|].
  intros id' r' Hr' _. apply free_nonce_Ok in Hn as (_ & Ht & _). apply orb_false_iff in Ht as [Ht _].
  by apply (is_reserved_false _ _ _ _ Ht Hr').
Qed.

(** A bump that gives a request: the same nonce, higher fees, the other reservations pruned. *)
Lemma bump_Ok b id calldata i b' q : bump b id calldata i = (b', Ok q) ->
  exists r fee n, reservations b !! id = Some r /\ on_chain_nonce i <= reserved_nonce r /\ fee_bumped (reserved_fee r) i = Ok fee /\
    n = replacements r + 1 /\ transaction_request b calldata (mkDkgTransactionReservation (reserved_nonce r) fee n) = Ok q /\
    b' = set_reservations b (<[id := mkDkgTransactionReservation (reserved_nonce r) fee n]>
           (reservations (prune_canonical_nonces b (on_chain_nonce i)))).
Proof.
  unfold bump, validate_calldata. destruct (lenN calldata <? 4); [done|]. destruct (reservations b !! id) as [r|]; [|done].
  destruct (N.ltb_spec (reserved_nonce r) (on_chain_nonce i)); [done|]. cbv zeta. destruct (fee_bumped _ i) as [fee|] eqn:E; [|done].
  destruct (checked_add U32_MAX _ 1) as [n|] eqn:En; [|done]. apply checked_add_Some in En as [-> _]. intros [= <- Hq].
  by exists r, fee, (replacements r + 1).
Qed.

(** The fee of a reservation may rise without changing its nonce. *)
Lemma raise_ok b id r fee n k : builder_ok b -> reservations b !! id = Some r ->
  fee_max_priority_fee_per_gas fee <= fee_max_fee_per_gas fee ->
  builder_ok (set_reservations b (<[id := mkDkgTransactionReservation (reserved_nonce r) fee n]>
    (reservations (prune_canonical_nonces b k)))).
Proof.
  intros Hb Hr Hf. pose proof (prune_ok b k Hb) as (? & ? & Hp). split_and!; [done..|]. apply reservations_ok_insert; [done..|].
  intros id' r' Hr' Hne E. apply Hne. destruct Hb as (_ & _ & _ & Hinj). eapply Hinj; [|exact Hr|exact E].
  eapply lookup_weaken; [exact Hr'|]. apply map_filter_subseteq.
Qed.

Lemma bump_ok b id calldata i : builder_ok b -> builder_ok (bump b id calldata i).1.
Proof.
  intros Hb. unfold bump. destruct (validate_calldata calldata); [|done]. destruct (reservations b !! id) as [r|] eqn:Er; [|by apply prune_ok].
  destruct (_ <? _).
  { destruct Hb as (? & ? & H). split_and!; [done..|]. eapply reservations_ok_sub; [|exact H]. apply delete_subseteq. }
  cbv zeta. destruct (fee_bumped _ i) as [fee|] eqn:E; [|by apply prune_ok]. apply fee_bumped_Ok in E as (_ & _ & _ & E).
  destruct (checked_add _ _ 1) as [n|]; (apply (raise_ok b id r fee _ (on_chain_nonce i)); [done..|lia]).
Qed.

Lemma builder_step_ok b b' : builder_step b b' -> builder_ok b -> builder_ok b'.
Proof.
  destruct 1 as [fuel id calldata i occupied b' r H|id calldata i|id]; intros Hb.
  - by eapply build_ok.
  - by apply bump_ok.
  - destruct Hb as (? & ? & H). split_and!; [done..|]. eapply reservations_ok_sub; [|exact H]. apply delete_subseteq.
Qed.

Lemma builder_reachable_ok chain_id gas_limit b : builder_reachable chain_id gas_limit b -> builder_ok b.
Proof.
  induction 1 as [b H|b b' _ IH Hs]; [|by eapply builder_step_ok]. unfold with_gas_limit in H.
  destruct (N.eqb_spec chain_id 0); [done|]. destruct (N.eqb_spec gas_limit 0); [done|]. injection H as <-.
  split_and!; [done..|]. cbn. split; intros *; by rewrite lookup_empty.
Qed.

(** Signing can only fail in the signing primitive. *)
Definition signable `{Secp256k1} (q : DkgTransactionRequest) : Prop :=
  forall signature_hash s, match sign_dkg_transaction signature_hash s q with
    | Ok _ => True
    | Err e => e = DkgTransactionSigningFailed
    end.

Lemma request_signable `{Secp256k1} b calldata r q : builder_gas_limit b <> 0 ->
  fee_max_priority_fee_per_gas (reserved_fee r) <= fee_max_fee_per_gas (reserved_fee r) ->
  transaction_request b calldata r = Ok q -> signable q.
Proof.
  intros Hg Hf [-> Hl]%request_Ok hash s. unfold sign_dkg_transaction. cbn.
  destruct (N.ltb_spec (lenN calldata) 4); [lia|]. destruct (N.eqb_spec (builder_gas_limit b) 0); [done|].
  destruct (N.ltb_spec (fee_max_fee_per_gas (reserved_fee r)) (fee_max_priority_fee_per_gas (reserved_fee r))); [lia|].
  by destruct (sign_prehash_recoverable _ _) as [[signature parity]|].
Qed.

Lemma is_reserved_true b nonce : is_reserved b nonce = true -> exists id r, reservations b !! id = Some r /\ reserved_nonce r = nonce.
Proof.
  unfold is_reserved. intros ([id r] & Hin & E)%existsb_exists. apply list_elem_of_In, elem_of_map_to_list in Hin.
  exists id, r. split; [done|]. by apply N.eqb_eq.
Qed.

Section safety.
Context {K : Secp256k1}.

(** The nonce of a built transaction: the one reserved, or the first free one. *)
Definition nonce_chosen (b : DkgTransactionBuilder) (occupied : N -> bool) (id : DkgTaskId) (start nonce : N) : Prop :=
  match reservations (prune_canonical_nonces b start) !! id with
  | Some r => nonce = reserved_nonce r
  | None => occupied nonce = false /\ forall n, start <= n < nonce ->
      occupied n = true \/ exists id' r, reservations b !! id' = Some r /\ reserved_nonce r = n
  end.

Lemma build_request b fuel id calldata i occupied b' q : builder_ok b -> build b fuel id calldata i occupied = Some (b', Ok q) ->
  signable q /\ on_chain_nonce i <= tx_nonce q /\ (exists r, reservations b' !! id = Some r /\ reserved_nonce r = tx_nonce q) /\
  nonce_chosen b occupied id (on_chain_nonce i) (tx_nonce q).
Proof.
  intros (Hc & Hg & Hf & _) H%build_spec. unfold nonce_chosen. destruct (_ !! id) as [old|] eqn:Eo.
  - destruct H as [_ H]. destruct (H q eq_refl) as [-> Hq]. apply map_lookup_filter_Some in Eo as Hold. destruct Hold as [Hold Hn].
    pose proof Hq as Hq'. apply request_Ok in Hq' as [-> _]. split_and!; [|done|by exists old|done].
    eapply request_signable; [exact Hg| |exact Hq]. by eapply Hf.
  - destruct H as [[_ H]|(n & fee & q' & Hn & Hfee & Hq & <- & ->)]; [by destruct (H q)|].
    apply fee_initial_Ok in Hfee as ->. pose proof Hq as Hq'. apply request_Ok in Hq' as [-> _].
    apply free_nonce_Ok in Hn as (Hle & Ht & Hlow). apply orb_false_iff in Ht as [_ Ht]. split_and!; [|done| |done|].
    + eapply request_signable; [exact Hg| |exact Hq]. cbn. lia.
    + eexists. split; [cbn; by rewrite lookup_insert, decide_True by done|done].
    + intros k Hk. specialize (Hlow k Hk). apply orb_true_iff in Hlow as [Hr|Hr]; [right|by left].
      apply is_reserved_true in Hr as (id' & r & Hr & <-). exists id', r. split; [|done]. eapply lookup_weaken; [exact Hr|].
      apply map_filter_subseteq.
Qed.

(** The transactions of a node's tasks never compete: at every reachable builder the reserved
    nonces are distinct, a build ends, every transaction it builds or bumps passes the checks of
    the signer, a new task takes the first nonce from the account's on that is neither reserved nor
    taken in the pool, and a task keeps its nonce until the chain passes it. *)
Theorem builder_sound chain_id gas_limit b id calldata i : builder_reachable chain_id gas_limit b ->
  (forall id id' r r', reservations b !! id = Some r -> reservations b !! id' = Some r' ->
     reserved_nonce r = reserved_nonce r' -> id = id') /\
  (forall fuel occupied, (N.to_nat (U64_MAX - on_chain_nonce i) < fuel)%nat -> is_Some (build b fuel id calldata i occupied)) /\
  (forall fuel occupied b' q, build b fuel id calldata i occupied = Some (b', Ok q) ->
     signable q /\ on_chain_nonce i <= tx_nonce q /\ (exists r, reservations b' !! id = Some r /\ reserved_nonce r = tx_nonce q) /\
     nonce_chosen b occupied id (on_chain_nonce i) (tx_nonce q)) /\
  (forall b' q, bump b id calldata i = (b', Ok q) ->
     signable q /\ exists r, reservations b !! id = Some r /\ tx_nonce q = reserved_nonce r /\ on_chain_nonce i <= tx_nonce q).
Proof.
  intros Hb%builder_reachable_ok. pose proof Hb as (_ & Hg & _ & Hinj). split_and!; [done| | |].
  - intros fuel occupied Hfuel. unfold build. destruct (validate_calldata calldata); [|done]. cbv zeta. destruct (_ !! id); [done|].
    by destruct (free_nonce_total (fun n => is_reserved (prune_canonical_nonces b (on_chain_nonce i)) n || occupied n) fuel _ Hfuel) as [x ->].
  - intros fuel occupied b' q. by apply build_request.
  - intros b' q (r & fee & n & Hr & Hn & Hfee & _ & Hq & _)%bump_Ok. apply fee_bumped_Ok in Hfee as (_ & _ & _ & Hfee).
    pose proof Hq as Hq'. apply request_Ok in Hq' as [-> _]. split; [|by exists r].
    eapply request_signable; [exact Hg| |exact Hq]. cbn. lia.
Qed.
End safety.

(** A replacement raises both fees of the transaction it replaces by an eighth, rounded down, and
    at least by one, and covers twice the base fee of the block with its tip; the pool takes it for the
    old one by its ten percent rule, but for the few smallest fees where rounding decides. *)
Theorem bump_replaces b id calldata i b' q r old : reservations b !! id = Some r -> transaction_request b calldata r = Ok old ->
  bump b id calldata i = (b', Ok q) ->
  tx_nonce q = tx_nonce old /\ max_fee_per_gas old + N.max (max_fee_per_gas old / 8) 1 <= max_fee_per_gas q /\
  max_priority_fee_per_gas old + N.max (max_priority_fee_per_gas old / 8) 1 <= max_priority_fee_per_gas q /\
  2 * inputs_base_fee_per_gas i + max_priority_fee_per_gas q <= max_fee_per_gas q /\
  (bumps_enough (max_fee_per_gas old) -> bumps_enough (max_priority_fee_per_gas old) ->
     is_replacement_underpriced DEFAULT_PRICE_BUMP old q = false).
Proof.
  intros Hr [-> _]%request_Ok (r' & fee & n & Hr' & _ & Hfee & _ & [-> _]%request_Ok & _)%bump_Ok. rewrite Hr in Hr'.
  injection Hr' as <-. apply fee_bumped_Ok in Hfee as (H1 & H2 & _ & H3). cbn. split_and!; [done..|]. intros E1 E2.
  unfold is_replacement_underpriced. cbn. apply (bump_required _ _ E1) in H2. apply (bump_required _ _ E2) in H1.
  destruct (N.ltb_spec (fee_max_fee_per_gas fee) (required_bumped_fee DEFAULT_PRICE_BUMP (fee_max_fee_per_gas (reserved_fee r)))); [lia|].
  destruct (N.ltb_spec (fee_max_priority_fee_per_gas fee) (required_bumped_fee DEFAULT_PRICE_BUMP (fee_max_priority_fee_per_gas (reserved_fee r)))); [lia|].
  by rewrite andb_false_r.
Qed.

Module TransactionWitness.
#[local] Existing Instance model_secp256k1.
Definition id : DkgTaskId := mkDkgTaskId 2 MethodShare 3.
Definition other : DkgTaskId := mkDkgTaskId 2 MethodReshare 1.
Definition call : bytes := [x01; x02; x03; x04].
Definition inputs : DkgTransactionInputs := mkDkgTransactionInputs 7 100 40.
Definition fresh : DkgTransactionBuilder := mkDkgTransactionBuilder 47763 DEFAULT_DKG_TRANSACTION_GAS_LIMIT ∅.

(** The pool holds nonce 7. *)
Definition occupied (n : N) : bool := n =? 7.
Definition built (b : DkgTransactionBuilder) (i : DkgTaskId) : DkgTransactionBuilder :=
  match build b 5 i call inputs occupied with Some (b, _) => b | None => b end.
Definition both : DkgTransactionBuilder := built (built fresh other) id.

Lemma both_reachable : builder_reachable 47763 DEFAULT_DKG_TRANSACTION_GAS_LIMIT both.
Proof.
  apply (reach_builder_step _ _ (built fresh other)); [apply (reach_builder_step _ _ fresh); [by apply reach_builder|]|].
  - apply (step_build _ 5 other call inputs occupied _ (match build fresh 5 other call inputs occupied with Some (_, r) => r | None => Err FeeOverflow end)). by vm_compute.
  - apply (step_build _ 5 id call inputs occupied _ (match build (built fresh other) 5 id call inputs occupied with Some (_, r) => r | None => Err FeeOverflow end)). by vm_compute.
Qed.

Lemma builder_sound_witness : forall b' q, bump both id call inputs = (b', Ok q) ->
  signable q /\ exists r, reservations both !! id = Some r /\ tx_nonce q = reserved_nonce r /\ 7 <= tx_nonce q.
Proof. apply (builder_sound 47763 DEFAULT_DKG_TRANSACTION_GAS_LIMIT both id call inputs both_reachable). Defined.

Definition reserved : DkgTransactionReservation := mkDkgTransactionReservation 9 (mkDkgTransactionFee 240 40) 0.
Definition sent : DkgTransactionRequest := mkDkgTransactionRequest 47763 9 DEFAULT_DKG_TRANSACTION_GAS_LIMIT 240 40 call.
Definition resent : DkgTransactionRequest := mkDkgTransactionRequest 47763 9 DEFAULT_DKG_TRANSACTION_GAS_LIMIT 270 45 call.

Lemma resent_bump : bump both id call inputs = ((bump both id call inputs).1, Ok resent).
Proof. by vm_compute. Qed.

Lemma bump_replaces_witness : is_replacement_underpriced DEFAULT_PRICE_BUMP sent resent = false.
Proof.
  assert (Hr : reservations both !! id = Some reserved) by by_vm. assert (Hq : transaction_request both call reserved = Ok sent) by by_vm.
  destruct (bump_replaces both id call inputs _ resent reserved sent Hr Hq resent_bump) as (_ & _ & _ & _ & H).
  apply H; right; by vm_compute.
Defined.

(** An eighth of 15, rounded down, is less than a tenth, rounded up: the pool refuses the bump. *)
Example low_tip_refused :
  exists v, bump_fee 15 = Ok v /\ v < required_bumped_fee DEFAULT_PRICE_BUMP 15 /\ 8 * v < 9 * 15.
Proof. exists 16. by vm_compute. Qed.
End TransactionWitness.
