(* ===== verification/Agreement.v ===== *)
(** Agreement end to end: header validation (crates/neox/consensus) against the
    validators' journaled signers (crates/neox/node/src/signer.rs). *)

From S2P Require Import Prelude Extern Instances Extra Validation Tpke Wire Payload Journal Signer.

Section agreement.
Context {R : AlloyRlp} {RL : AlloyRlpLaws R} {C : Crypto} {K : Secp256k1} {KL : Secp256k1Laws C K} {B : Blst}.

(** The signer of key [k] sealed [header] at its height during the history [es]. *)
Definition sealed (k : signing_key) (es : list SignerEvent) (header : Header) : Prop :=
  exists o, o ∈ (signer_history k es).2 /\ out_kind o = HEADER_COMMIT_DUTY /\
    out_block o = number header /\ ecdsa_seal_hash header = Ok (out_payload o).

(** Only the holder of the key signs with it: a signature of the key's account over the
    seal hash of [header] exists only if its signer sealed [header]. *)
Definition unforged (k : signing_key) (es : list SignerEvent) (header : Header) : Prop :=
  forall raw hash, ecdsa_seal_hash header = Ok hash -> signed_by hash raw (key_account k) ->
    sealed k es header.

(** An honest validator signs with one key through one journal whose failed writes left
    whole lines. *)
Definition honest (header1 header2 : Header) (a : Address) : Prop :=
  exists k es, key_account k = a /\ clean_history es /\ unforged k es header1 /\ unforged k es header2.

Lemma header_signed_sealed k es n header :
  unforged k es header -> header_signed_by n header (key_account k) -> sealed k es header.
Proof. intros Hu (extra & ss & hash & raw & _ & _ & Eh & _ & Hs). by apply (Hu raw hash). Qed.

Lemma sealed_unique k es header1 header2 hash1 hash2 :
  clean_history es -> sealed k es header1 -> sealed k es header2 -> number header1 = number header2 ->
  ecdsa_seal_hash header1 = Ok hash1 -> ecdsa_seal_hash header2 = Ok hash2 ->
  keccak256 hash1 = keccak256 hash2.
Proof.
  intros Hc (o1 & H1 & K1 & B1 & E1) (o2 & H2 & K2 & B2 & E2) Hn Eh1 Eh2.
  rewrite Eh1 in E1. rewrite Eh2 in E2. injection E1 as ->. injection E2 as ->.
  apply (outputs_unique k es); try congruence.
  by rewrite (seal_output k es o1), (seal_output k es o2).
Qed.

Lemma more_than_faulty (both faulty : list Address) :
  NoDup both -> lenN faulty < lenN both -> exists a, a ∈ both /\ a ∉ faulty.
Proof.
  intros Nb Hlt. destruct (decide (Forall (.∈ faulty) both)) as [Ha|Hn].
  - exfalso. rewrite Forall_forall in Ha. apply (NoDup_submseteq _ _ Nb), submseteq_length in Ha.
    unfold lenN in Hlt. lia.
  - apply not_Forall_Exists, Exists_exists in Hn; [|apply _]. done.
Qed.

(** One block up to its seal, whichever of two agreeing parents it extends. *)
Lemma same_block header1 header2 parent1 parent2 n s signers1 signers2 faulty :
  same_parent n parent1 parent2 ->
  validate_header header1 parent1 n s = Ok (VerifiedEcdsa signers1) ->
  validate_header header2 parent2 n s = Ok (VerifiedEcdsa signers2) ->
  number header1 = number header2 ->
  head (extra_data header1) = head (extra_data header2) ->
  (next_consensus_hash (header_validators n header1) =
     next_consensus_hash (header_validators n header2) ->
   concat (header_validators n header1) = concat (header_validators n header2)) ->
  lenN faulty <= (n - 1) / 3 ->
  (forall a, header_signed_by n header1 a -> a ∉ faulty -> honest header1 header2 a) ->
  (forall hash1 hash2, ecdsa_seal_hash header1 = Ok hash1 -> ecdsa_seal_hash header2 = Ok hash2 ->
     keccak256 hash1 = keccak256 hash2 -> unsigned_header header1 = unsigned_header header2) ->
  unsigned_header header1 = unsigned_header header2.
Proof.
  intros Hp V1 V2 Hn Hh Hcoll Hf Hhon Hbind.
  destruct (double_signers _ _ _ _ _ _ _ _ Hp V1 V2 Hh Hcoll) as (both & Nb & Hlt & Hboth).
  destruct (more_than_faulty both faulty) as (a & Ha & Hna); [done|lia|].
  destruct (Hboth a Ha) as [S1 S2].
  destruct (Hhon a S1 Hna) as (k & es & <- & Hc & U1 & U2).
  pose proof S1 as (_ & _ & hash1 & _ & _ & _ & E1 & _). pose proof S2 as (_ & _ & hash2 & _ & _ & _ & E2 & _).
  apply (Hbind hash1 hash2 E1 E2).
  apply (sealed_unique k es header1 header2); try done; by eapply header_signed_sealed.
Qed.

End agreement.

(** ** Concrete input *)

Module AgreementWitness.
#[local] Existing Instance alloy_rlp.
#[local] Existing Instance RlpInstance.alloy_rlp_laws.
#[local] Existing Instance model_crypto.
#[local] Existing Instance model_secp256k1.
#[local] Existing Instance model_secp256k1_laws.
#[local] Existing Instance model_blst.

Definition secret : signing_key := 7.
Definition validator : Address := key_account secret.
Definition raw (pad : byte) : bytes := x00 :: validator ++ validator ++ repeat pad 44 ++ [x00].
Definition parent : Header := model_header 0 0 2 (next_consensus_hash [validator]) (raw x00).
Definition child (pad : byte) : Header := model_header 1 0 2 ZERO_B256 (raw pad).
Definition events : list SignerEvent := [CommitEvent Synced (child x00) None; RestartEvent].

Lemma child_sealed pad : sealed secret events (child pad).
Proof.
  destruct ((signer_history secret events).2) as [|o l] eqn:E; [vm_compute in E; discriminate|].
  exists o. rewrite E. split; [by left|]. vm_compute in E. injection E as <- <-.
  split_and!; vm_compute; reflexivity.
Qed.

End AgreementWitness.
