(* ===== verification/Finality.v ===== *)
(** Agreement on whole chains: the consensus adapter (crates/neox/consensus-engine) on
    consecutive headers, against the validators' journaled signers. *)

From S2P Require Import Prelude Extern Instances Extra Validation ChainSpec Consensus.
From S2P Require Import Tpke Wire Payload Journal Signer Agreement.

Section finality.
Context {R : AlloyRlp} {RL : AlloyRlpLaws R} {C : Crypto} {K : Secp256k1} {KL : Secp256k1Laws C K} {B : Blst}.
Context {E : EthConstants} {S : BlobSchedule}.
Variable spec : NeoXChainSpec.
Notation n := (standby_count spec).

(** What every node checks of a header and its parent, at whatever time. *)
Definition valid_child (parent child : Header) : Prop :=
  (exists now eth_now, engine_validate_header spec now eth_now child = Ok tt) /\
  engine_validate_header_against_parent spec child parent = Ok tt.

Definition ecdsa_child (parent child : Header) : Prop :=
  valid_child parent child /\
  exists extra, DbftExtra.decode (extra_data child) n = Ok extra /\ DbftExtra.signature_scheme extra = Ecdsa.

(** Blocks from the genesis on, sealed by ECDSA quorums. *)
Definition validated_chain (c : list Header) : Prop :=
  forall i parent child, c !! i = Some parent -> c !! (1 + i)%nat = Some child -> ecdsa_child parent child.

(** At most f addresses are faulty for these two headers of one height. *)
Definition honest_height (h1 h2 : Header) : Prop :=
  exists faulty, lenN faulty <= (n - 1) / 3 /\
    forall a, header_signed_by n h1 a -> a ∉ faulty -> honest h1 h2 a.

(** Keccak does not collide on what the two headers hash. *)
Definition no_collision (h1 h2 : Header) : Prop :=
  (next_consensus_hash (header_validators n h1) = next_consensus_hash (header_validators n h2) ->
   concat (header_validators n h1) = concat (header_validators n h2)) /\
  (forall hash1 hash2, ecdsa_seal_hash h1 = Ok hash1 -> ecdsa_seal_hash h2 = Ok hash2 ->
     keccak256 hash1 = keccak256 hash2 -> unsigned_header h1 = unsigned_header h2) /\
  (hash_slow h1 = hash_slow h2 -> h1 = h2).

Lemma decode_unsigned h e :
  DbftExtra.decode (extra_data h) n = Ok e -> exists u, unsigned_header h = Ok u.
Proof.
  intros (W & T & _)%decode_encodes. destruct (try_encode_prefix _ _ W T) as (pre & _ & Hp & _).
  unfold unsigned_header. rewrite Hp. by eexists.
Qed.

Lemma valid_child_version parent child :
  valid_child parent child ->
  head (extra_data child) = Some (extra_version_as_u8 (extra_version_at_block spec (number child))).
Proof.
  intros [(now & eth_now & Hv) _]. unfold engine_validate_header in Hv.
  apply result_bind_Ok in Hv as ([] & _ & Hv). apply result_bind_Ok in Hv as ([] & _ & Hv).
  unfold validate_neox_header in Hv. apply result_bind_Ok in Hv as (e & Hd & Hv). apply map_err_Ok in Hd.
  apply result_bind_Ok in Hv as ([] & Ha & _). unfold validate_extra_activation in Ha.
  case_bool_decide as Ev; [|done]. rewrite <- Ev. by apply decode_version in Hd.
Qed.

Lemma valid_child_link parent child :
  valid_child parent child -> hash_slow parent = parent_hash child /\ number child = number parent + 1.
Proof.
  intros [_ Hv]. unfold engine_validate_header_against_parent in Hv. apply result_bind_Ok in Hv as ([] & Hv & _).
  unfold validate_neox_header_against_parent_fields in Hv. apply result_bind_Ok in Hv as ([] & Hv & _).
  unfold validate_against_parent_hash_number in Hv. case_bool_decide as Eh; [|done]. cbn [negb] in Hv.
  destruct (checked_add _ _ _) as [m|] eqn:Ea; [|done]. apply checked_add_Some in Ea as [-> _].
  destruct (N.eqb_spec (number parent + 1) (number child)); [done|by cbn in Hv].
Qed.

Lemma ecdsa_child_certified parent child :
  ecdsa_child parent child -> exists signers, validate_header child parent n n = Ok (VerifiedEcdsa signers).
Proof.
  intros [[_ Hv] (extra & Hd & Hs)]. unfold engine_validate_header_against_parent in Hv.
  apply result_bind_Ok in Hv as ([] & _ & Hv). apply result_bind_Ok in Hv as (seal & Hv & _). apply map_err_Ok in Hv.
  pose proof Hv as Hv'. unfold validate_header, validate_header_against_parent in Hv'. rewrite Hd in Hv'. cbn [map_err result_bind] in Hv'.
  apply result_bind_Ok in Hv' as (e & He & Hv'). apply result_bind_Ok in He as (pe & _ & He).
  apply result_bind_Ok in He as ([] & _ & He). apply result_bind_Ok in He as ([] & _ & [= <-]). rewrite Hs in Hv'.
  apply result_bind_Ok in Hv' as (h & _ & Hv'). apply result_bind_Ok in Hv' as (signers & _ & [= <-]). by exists signers.
Qed.

(** Agreement from one height to the next. *)
Lemma agree_step p1 p2 h1 h2 :
  ecdsa_child p1 h1 -> ecdsa_child p2 h2 -> number p1 = number p2 -> unsigned_header p1 = unsigned_header p2 ->
  honest_height h1 h2 -> no_collision h1 h2 ->
  number h1 = number h2 /\ unsigned_header h1 = unsigned_header h2 /\ hash_slow p1 = hash_slow p2.
Proof.
  intros H1 H2 Hn Hu (faulty & Hf & Hh) (Hc & Hb & _).
  destruct (ecdsa_child_certified _ _ H1) as [s1 Q1], (ecdsa_child_certified _ _ H2) as [s2 Q2].
  destruct H1 as [V1 _], H2 as [V2 _].
  destruct (valid_child_link _ _ V1) as [L1 N1], (valid_child_link _ _ V2) as [L2 N2].
  assert (En : number h1 = number h2) by congruence.
  pose proof (validate_header_ecdsa_inv _ _ _ _ _ Q1) as (e & pe & _ & _ & De & Dp & _).
  destruct (decode_unsigned p1 pe Dp) as [u Eu]. assert (Eu2 : unsigned_header p2 = Ok u) by congruence.
  assert (Es : unsigned_header h1 = unsigned_header h2).
  { apply (same_block h1 h2 p1 p2 n n s1 s2 faulty); try done; [by apply (same_parent_unsigned n _ _ u)|].
    by rewrite (valid_child_version _ _ V1), (valid_child_version _ _ V2), En. }
  split_and!; [done|done|]. rewrite L1, L2. destruct (decode_unsigned h1 e De) as [v Ev].
  assert (Ev2 : unsigned_header h2 = Ok v) by congruence.
  by destruct (unsigned_header_inv _ _ _ Ev Ev2) as (_ & _ & ? & _).
Qed.

End finality.

(** ** Concrete input: two nodes hold the last block under different seals *)

Module FinalityWitness.
#[local] Existing Instance alloy_rlp.
#[local] Existing Instance RlpInstance.alloy_rlp_laws.
#[local] Existing Instance model_crypto.
#[local] Existing Instance model_secp256k1.
#[local] Existing Instance model_secp256k1_laws.
#[local] Existing Instance model_blst.
#[local] Existing Instance model_constants.
#[local] Existing Instance model_blob_schedule.

Definition secret : signing_key := 7.
Definition validator : Address := key_account secret.
Definition spec : NeoXChainSpec := model_spec [validator] NEOX_FORK_NEVER.
Definition raw (pad : byte) : bytes := x00 :: validator ++ validator ++ repeat pad 44 ++ [x00].
Definition genesis : Header := model_block 0 ZERO_B256 (next_consensus_hash [validator]) 2 0 (raw x00).
Definition first : Header := model_block 1 (hash_slow genesis) (next_consensus_hash [validator]) 2 0 (raw x00).
Definition second (pad : byte) : Header := model_block 2 (hash_slow first) (next_consensus_hash [validator]) 2 0 (raw pad).
Definition chain (pad : byte) : list Header := [genesis; first; second pad].
Definition events : list SignerEvent := [CommitEvent Synced first None; CommitEvent Synced (second x00) None].

Lemma first_valid : ecdsa_child spec genesis first.
Proof.
  split; [split; [exists (Some 100), (Some 100)|]; vm_compute; reflexivity|].
  exists (DbftExtra.EcdsaSeal V0 None [validator] [validator ++ repeat x00 45]). split; vm_compute; reflexivity.
Qed.

Lemma second_valid pad : pad = x00 \/ pad = x01 -> ecdsa_child spec first (second pad).
Proof.
  intros Hp. split; [destruct Hp as [->| ->]; (split; [exists (Some 100), (Some 100)|]; vm_compute; reflexivity)|].
  exists (DbftExtra.EcdsaSeal V0 None [validator] [validator ++ repeat pad 44 ++ [x00]]).
  destruct Hp as [->| ->]; split; vm_compute; reflexivity.
Qed.

Lemma chain_valid pad : pad = x00 \/ pad = x01 -> validated_chain spec (chain pad).
Proof.
  intros Hp [|[|[|i]]] p h E1 E2; cbn in E1, E2; try done; injection E1 as <-; injection E2 as <-;
    [apply first_valid|by apply second_valid].
Qed.

Lemma sealed_by h o : o ∈ (signer_history secret events).2 -> out_kind o = HEADER_COMMIT_DUTY ->
  out_block o = number h -> ecdsa_seal_hash h = Ok (out_payload o) -> sealed secret events h.
Proof. intros. by exists o. Qed.

Lemma blocks_sealed : sealed secret events first /\ forall pad, pad = x00 \/ pad = x01 -> sealed secret events (second pad).
Proof.
  destruct ((signer_history secret events).2) as [|o1 [|o2 l]] eqn:E; [vm_compute in E; discriminate..|].
  split.
  - apply (sealed_by _ o2); [rewrite E; right; by left|..]; vm_compute in E; injection E as _ <- _; vm_compute; reflexivity.
  - intros pad [->| ->]; (apply (sealed_by _ o1); [rewrite E; by left|..]);
      vm_compute in E; injection E as <- _ _; vm_compute; reflexivity.
Qed.

Lemma only_validator h ss hash :
  DbftExtra.decode (extra_data h) 1 = Ok (DbftExtra.EcdsaSeal V0 None [validator] ss) ->
  ss = [validator ++ repeat x00 44 ++ [x00]] -> ecdsa_seal_hash h = Ok hash ->
  forall a, header_signed_by 1 h a -> a = validator.
Proof.
  intros D -> Eh a (e & ss' & hash' & r & D' & Es & _ & Er & Hs). rewrite D in D'. injection D' as <-.
  cbn in Es. injection Es as <-. apply list_elem_of_singleton in Er as ->.
  destruct Hs as [[_ Hs]|[_ Hs]]; vm_compute in Hs; injection Hs as <-; vm_compute; reflexivity.
Qed.

End FinalityWitness.
