(* ===== verification/FutureMessages.v ===== *)
(** The cache of dBFT messages that arrive early
    (crates/neox/node/src/sync/future_messages.rs), and the driver's use of it
    (crates/neox/node/src/sync.rs, [cache_future_dbft_message],
    [drain_cached_dbft_messages]). *)

From S2P Require Import Prelude Extern Instances ChainSpec Wire.

Definition CACHED_MESSAGE_KINDS : N := 4.
Definition MAX_CACHED_HEIGHTS : N := 8.
Definition MAX_CACHED_BYTES : N := 16 * 1024 * 1024.

Notation PeerId := bytes (only parsing).

(** One cached message and the peer that sent it. *)
Definition CachedEntry : Type := PeerId * DbftMessage.

Inductive CachedMessageKind : Type :=
| KindPreparation
| KindChangeView
| KindPreCommit
| KindCommit.

Definition kind_as_usize (k : CachedMessageKind) : N :=
  match k with KindPreparation => 0 | KindChangeView => 1 | KindPreCommit => 2 | KindCommit => 3 end.

Definition from_message_type (t : DbftMessageType) : option CachedMessageKind :=
  match t with
  | PrepareRequest | PrepareResponse => Some KindPreparation
  | ChangeView => Some KindChangeView
  | PreCommit => Some KindPreCommit
  | Commit => Some KindCommit
  | RecoveryRequest | RecoveryMessage => None
  end.

(** [slots: [[Option<CachedDbftMessage>; NEOX_MAX_VALIDATOR_COUNT]; CACHED_MESSAGE_KINDS]] *)
Definition HeightBucket : Type := list (list (option CachedEntry)).

Definition bucket_default : HeightBucket :=
  replicate (N.to_nat CACHED_MESSAGE_KINDS) (replicate (N.to_nat NEOX_MAX_VALIDATOR_COUNT) None).

(** The occupied slots in order: [bucket.slots] flattened. *)
Definition bucket_entries (b : HeightBucket) : list CachedEntry := omap id (concat b).
Definition bucket_len (b : HeightBucket) : N := lenN (bucket_entries b).

Definition cached_size (m : DbftMessage) : N := lenN (data m) + lenN (witness m).
Definition entries_size (l : list CachedEntry) : N := foldr (fun e acc => cached_size e.2 + acc) 0 l.

Record FutureDbftMessages : Type := mkFutureDbftMessages {
  heights : gmap N HeightBucket;
  cached_bytes : N;
}.
Definition future_default : FutureDbftMessages := mkFutureDbftMessages ∅ 0.

(** [BTreeMap::last_key_value] and [BTreeMap::first_key_value], the key. *)
Definition last_key {A} (m : gmap N A) : option N :=
  match (map_to_list m).*1 with [] => None | k :: ks => Some (foldr N.max k ks) end.
Definition first_key {A} (m : gmap N A) : option N :=
  match (map_to_list m).*1 with [] => None | k :: ks => Some (foldr N.min k ks) end.

Definition future_len (f : FutureDbftMessages) : N := map_sum bucket_len (heights f).

Definition remove_height (f : FutureDbftMessages) (height : N) : FutureDbftMessages :=
  match heights f !! height with
  | None => f
  | Some bucket =>
      mkFutureDbftMessages (delete height (heights f))
        (foldl (fun acc e => acc - cached_size e.2) (cached_bytes f) (bucket_entries bucket))
  end.

(** The first loop of [make_room]; one turn per cached height. *)
Fixpoint room_for_height (fuel : nat) (f : FutureDbftMessages) (height : N) : FutureDbftMessages * bool :=
  match fuel with
  | O => (f, true)
  | S fuel =>
      if (MAX_CACHED_HEIGHTS <=? N.of_nat (size (heights f))) && negb (bool_decide (is_Some (heights f !! height)))
      then
        match last_key (heights f) with
        | None => (f, true)
        | Some highest =>
            if highest <? height then (f, false) else room_for_height fuel (remove_height f highest) height
        end
      else (f, true)
  end.

(** The second loop of [make_room]. *)
Fixpoint room_for_bytes (fuel : nat) (f : FutureDbftMessages) (height msg_size : N)
    : FutureDbftMessages * bool :=
  match fuel with
  | O => (f, true)
  | S fuel =>
      if MAX_CACHED_BYTES <? cached_bytes f + msg_size then
        match last_key (heights f) with
        | None => (f, true)
        | Some highest =>
            if highest <? height then (f, false)
            else
              let f := remove_height f highest in
              if highest =? height then (f, false) else room_for_bytes fuel f height msg_size
        end
      else (f, true)
  end.

Definition make_room (f : FutureDbftMessages) (height msg_size : N) : FutureDbftMessages * bool :=
  match room_for_height (S (size (heights f))) f height with
  | (f, false) => (f, false)
  | (f, true) => room_for_bytes (S (size (heights f))) f height msg_size
  end.

Definition take_height (f : FutureDbftMessages) (height : N) : FutureDbftMessages * list CachedEntry :=
  match heights f !! height with
  | None => (f, [])
  | Some bucket =>
      (mkFutureDbftMessages (delete height (heights f))
         (foldl (fun acc e => acc - cached_size e.2) (cached_bytes f) (bucket_entries bucket)),
       bucket_entries bucket)
  end.

(** [while let Some((&lowest, _)) = first_key_value()]; one turn per cached height. *)
Fixpoint prune_loop (fuel : nat) (f : FutureDbftMessages) (height : N) : FutureDbftMessages :=
  match fuel with
  | O => f
  | S fuel =>
      match first_key (heights f) with
      | None => f
      | Some lowest => if height <? lowest then f else prune_loop fuel (remove_height f lowest) height
      end
  end.
Definition prune_through (f : FutureDbftMessages) (height : N) : FutureDbftMessages :=
  prune_loop (S (size (heights f))) f height.

Section future.
Context {R : AlloyRlp}.

Definition cached_validator_index (m : DbftMessage) : option N :=
  match consensus_data m with
  | Ok d => if validator_index d <? NEOX_MAX_VALIDATOR_COUNT then Some (validator_index d) else None
  | Err _ => None
  end.

Definition slot (b : HeightBucket) (kind index : N) : option CachedEntry :=
  match b !! N.to_nat kind with
  | Some row => mjoin (row !! N.to_nat index)
  | None => None
  end.
Definition replace_slot (b : HeightBucket) (kind index : N) (e : CachedEntry) : HeightBucket :=
  alter (<[N.to_nat index := Some e]>) (N.to_nat kind) b.

Definition future_insert (f : FutureDbftMessages) (peer_id : PeerId) (m : DbftMessage)
    (kind : CachedMessageKind) : FutureDbftMessages * bool :=
  let height := valid_block_end m in
  match cached_validator_index m with
  | None => (f, false)
  | Some index =>
      let msg_size := cached_size m in
      if MAX_CACHED_BYTES <? msg_size then (f, false)
      else
        match make_room f height msg_size with
        | (f, false) => (f, false)
        | (f, true) =>
            let bucket := default bucket_default (heights f !! height) in
            let bytes :=
              match slot bucket (kind_as_usize kind) index with
              | Some (_, previous) => cached_bytes f - cached_size previous
              | None => cached_bytes f
              end in
            (mkFutureDbftMessages
               (<[height := replace_slot bucket (kind_as_usize kind) index (peer_id, m)]> (heights f))
               (bytes + msg_size), true)
        end
  end.

(** sync.rs *)
Definition cache_future_dbft_message (f : FutureDbftMessages) (peer_id : PeerId) (m : DbftMessage)
    : FutureDbftMessages * bool :=
  match consensus_data m with
  | Err _ => (f, false)
  | Ok d =>
      match from_message_type (message_type d) with
      | None => (f, false)
      | Some kind => future_insert f peer_id m kind
      end
  end.

Definition drain_cached_dbft_messages (f : FutureDbftMessages) (height : N)
    : FutureDbftMessages * list CachedEntry := take_height f height.
End future.

(** ** The keys of an ordered map *)

Lemma foldr_max_spec k ks : foldr N.max k ks ∈ k :: ks /\ forall x, x ∈ k :: ks -> x <= foldr N.max k ks.
Proof.
  induction ks as [|x ks [Hin Hle]]; simpl.
  - split; [by left|]. intros x Hx. apply list_elem_of_singleton in Hx as ->. lia.
  - split.
    + destruct (N.max_spec x (foldr N.max k ks)) as [[_ ->]|[_ ->]]; set_solver.
    + intros y Hy. assert (y = x \/ y ∈ k :: ks) as [->|H] by set_solver; [lia|]. specialize (Hle y H). lia.
Qed.

Lemma foldr_min_spec k ks : foldr N.min k ks ∈ k :: ks /\ forall x, x ∈ k :: ks -> foldr N.min k ks <= x.
Proof.
  induction ks as [|x ks [Hin Hle]]; simpl.
  - split; [by left|]. intros x Hx. apply list_elem_of_singleton in Hx as ->. lia.
  - split.
    + destruct (N.min_spec x (foldr N.min k ks)) as [[_ ->]|[_ ->]]; set_solver.
    + intros y Hy. assert (y = x \/ y ∈ k :: ks) as [->|H] by set_solver; [lia|]. specialize (Hle y H). lia.
Qed.

Lemma elem_of_keys {A} (m : gmap N A) k : k ∈ (map_to_list m).*1 <-> is_Some (m !! k).
Proof.
  rewrite list_elem_of_fmap. split.
  - intros ([k' a] & -> & H%elem_of_map_to_list). by exists a.
  - intros [a Ha]. exists (k, a). split; [done|]. by apply elem_of_map_to_list.
Qed.

Lemma keys_nil {A} (m : gmap N A) : (map_to_list m).*1 = [] -> m = ∅.
Proof. intros H%fmap_nil_inv. by apply map_to_list_empty_iff. Qed.

Lemma last_key_spec {A} (m : gmap N A) :
  match last_key m with
  | Some h => is_Some (m !! h) /\ forall k, is_Some (m !! k) -> k <= h
  | None => m = ∅
  end.
Proof.
  unfold last_key. pose proof (elem_of_keys m) as Hk. pose proof (keys_nil m) as Hn.
  destruct ((map_to_list m).*1) as [|k ks]; [auto|].
  destruct (foldr_max_spec k ks) as [Hin Hle]. split; [by apply Hk|]. intros x Hx. by apply Hle, Hk.
Qed.

Lemma first_key_spec {A} (m : gmap N A) :
  match first_key m with
  | Some h => is_Some (m !! h) /\ forall k, is_Some (m !! k) -> h <= k
  | None => m = ∅
  end.
Proof.
  unfold first_key. pose proof (elem_of_keys m) as Hk. pose proof (keys_nil m) as Hn.
  destruct ((map_to_list m).*1) as [|k ks]; [auto|].
  destruct (foldr_min_spec k ks) as [Hin Hle]. split; [by apply Hk|]. intros x Hx. by apply Hle, Hk.
Qed.

(** ** Sizes *)

Lemma foldl_sub_size b l : foldl (fun acc (e : CachedEntry) => acc - cached_size e.2) b l = b - entries_size l.
Proof. revert b. induction l as [|e l IH]; intros b; simpl; [lia|]. rewrite IH. lia. Qed.

Lemma entries_size_app l k : entries_size (l ++ k) = entries_size l + entries_size k.
Proof. induction l as [|e l IH]; simpl; [done|]. unfold entries_size in *. simpl. rewrite IH. lia. Qed.

Definition bucket_bytes (b : HeightBucket) : N := entries_size (bucket_entries b).
Definition slot_size (o : option CachedEntry) : N := default 0 ((fun e => cached_size e.2) <$> o).

Lemma row_size_cons (x : option CachedEntry) row :
  entries_size (omap id (x :: row)) = slot_size x + entries_size (omap id row).
Proof. by destruct x. Qed.

Lemma row_insert_size (row : list (option CachedEntry)) i e :
  (i < length row)%nat ->
  entries_size (omap id (<[i := Some e]> row)) + slot_size (mjoin (row !! i)) =
    entries_size (omap id row) + cached_size e.2.
Proof.
  revert i. induction row as [|x row IH]; intros i Hi; [simpl in Hi; lia|].
  destruct i as [|i].
  - change (<[0%nat := Some e]> (x :: row)) with (Some e :: row). rewrite !row_size_cons.
    destruct x as [x|]; unfold slot_size; simpl; lia.
  - change (<[S i := Some e]> (x :: row)) with (x :: <[i := Some e]> row).
    change ((x :: row) !! S i) with (row !! i). rewrite !row_size_cons.
    specialize (IH i ltac:(simpl in Hi; lia)). lia.
Qed.

Lemma add_swap a x y z c : a + x = y + z -> a + c + x = y + c + z.
Proof. lia. Qed.

Lemma replace_slot_size b k i e row :
  b !! N.to_nat k = Some row -> (N.to_nat i < length row)%nat ->
  bucket_bytes (replace_slot b k i e) + slot_size (slot b k i) = bucket_bytes b + cached_size e.2.
Proof.
  unfold bucket_bytes, bucket_entries, replace_slot, slot. generalize (N.to_nat k). intros n Hb Hi.
  rewrite Hb. revert n Hb. induction b as [|r b IH]; intros n Hb; [done|].
  destruct n as [|n].
  - injection Hb as ->. cbn [alter list_alter concat]. rewrite !omap_app, !entries_size_app.
    apply add_swap, (row_insert_size row (N.to_nat i) e Hi).
  - specialize (IH n Hb). cbn [alter list_alter concat]. rewrite !omap_app, !entries_size_app.
    rewrite <- !N.add_assoc. f_equal. exact IH.
Qed.

Lemma bucket_default_bytes : bucket_bytes bucket_default = 0.
Proof. vm_compute. reflexivity. Qed.

(** ** Invariant *)

Section invariant.
Context {R : AlloyRlp}.

(** An entry sits at the height, replay bucket and sender index of its message. *)
Definition entry_at (h k i : N) (e : CachedEntry) : Prop :=
  valid_block_end e.2 = h /\ exists d kind, consensus_data e.2 = Ok d /\
    from_message_type (message_type d) = Some kind /\ kind_as_usize kind = k /\ validator_index d = i.

Record bucket_ok (h : N) (b : HeightBucket) : Prop := {
  bucket_rows : lenN b = CACHED_MESSAGE_KINDS;
  bucket_columns : Forall (fun row => lenN row = NEOX_MAX_VALIDATOR_COUNT) b;
  bucket_slots : forall k i e, slot b k i = Some e -> entry_at h k i e;
}.

Record future_ok (f : FutureDbftMessages) : Prop := {
  future_count : N.of_nat (size (heights f)) <= MAX_CACHED_HEIGHTS;
  future_bytes : cached_bytes f = map_sum bucket_bytes (heights f);
  future_limit : cached_bytes f <= MAX_CACHED_BYTES;
  future_buckets : forall h b, heights f !! h = Some b -> bucket_ok h b;
}.

Lemma future_default_ok : future_ok future_default.
Proof. by constructor. Qed.

Lemma remove_height_heights f h : heights (remove_height f h) = delete h (heights f).
Proof.
  unfold remove_height. destruct (heights f !! h) eqn:E; [done|]. by rewrite delete_id.
Qed.

Lemma remove_height_ok f h : future_ok f -> future_ok (remove_height f h).
Proof.
  intros [Hc Hb Hl Hk].
  assert (Hsz : (size (delete h (heights f)) <= size (heights f))%nat).
  { apply map_subseteq_size, delete_subseteq. }
  constructor; rewrite ?remove_height_heights; try lia.
  - unfold remove_height. destruct (heights f !! h) as [b|] eqn:E; simpl.
    + rewrite foldl_sub_size, Hb, (map_sum_delete _ _ _ _ E). unfold bucket_bytes. lia.
    + by rewrite delete_id.
  - unfold remove_height. destruct (heights f !! h); simpl; [|done]. rewrite foldl_sub_size. lia.
  - intros h' b' [_ H]%lookup_delete_Some. by apply Hk.
Qed.

Lemma take_height_remove f h : (take_height f h).1 = remove_height f h.
Proof. unfold take_height, remove_height. by destruct (heights f !! h). Qed.

Lemma remove_size f h : is_Some (heights f !! h) -> size (heights f) = S (size (heights (remove_height f h))).
Proof.
  intros Hs. rewrite remove_height_heights, map_size_delete. pose proof (map_size_ne_0_lookup_2 _ _ Hs).
  destruct Hs as [b ->]. lia.
Qed.

Lemma room_for_height_spec fuel f height f' b :
  future_ok f -> (size (heights f) < fuel)%nat -> room_for_height fuel f height = (f', b) ->
  future_ok f' /\ heights f' ⊆ heights f /\
  (forall h, h <= height -> heights f' !! h = heights f !! h) /\
  (b = true -> N.of_nat (size (heights f')) < MAX_CACHED_HEIGHTS \/ is_Some (heights f' !! height)).
Proof.
  revert f. induction fuel as [|fuel IH]; intros f Hok Hf; [lia|]. cbn [room_for_height].
  destruct (N.leb_spec MAX_CACHED_HEIGHTS (N.of_nat (size (heights f)))) as [Hge|Hlt];
    cbn [andb]; [|intros [= <- <-]; naive_solver].
  case_bool_decide as Hin; cbn [negb]; [intros [= <- <-]; naive_solver|].
  pose proof (last_key_spec (heights f)) as Hlast. destruct (last_key (heights f)) as [highest|].
  - destruct Hlast as [Hs Hmax]. destruct (N.ltb_spec highest height); [intros [= <- <-]; naive_solver|].
    intros Hr. pose proof (remove_size f highest Hs).
    apply IH in Hr as (H1 & H2 & H3 & H4); [|by apply remove_height_ok|lia].
    rewrite remove_height_heights in H2, H3.
    split_and!; [done| | |done].
    + etransitivity; [exact H2|apply delete_subseteq].
    + intros h Hh. rewrite H3 by done. apply lookup_delete_ne. intros ->.
      assert (h = height) as -> by lia. done.
  - intros [= <- <-]. split_and!; try done. rewrite Hlast. intros _. left. by vm_compute.
Qed.

Lemma room_for_bytes_spec fuel f height n f' b :
  future_ok f -> (size (heights f) < fuel)%nat -> n <= MAX_CACHED_BYTES ->
  room_for_bytes fuel f height n = (f', b) ->
  future_ok f' /\ heights f' ⊆ heights f /\
  (forall h, h < height -> heights f' !! h = heights f !! h) /\
  (b = true -> cached_bytes f' + n <= MAX_CACHED_BYTES /\ heights f' !! height = heights f !! height).
Proof.
  intros Hok Hf Hn. revert f Hok Hf. induction fuel as [|fuel IH]; intros f Hok Hf; [lia|].
  cbn [room_for_bytes].
  destruct (N.ltb_spec MAX_CACHED_BYTES (cached_bytes f + n)) as [Hgt|Hle]; [|intros [= <- <-]; naive_solver].
  pose proof (last_key_spec (heights f)) as Hlast. destruct (last_key (heights f)) as [highest|].
  - destruct Hlast as [Hs Hmax]. destruct (N.ltb_spec highest height); [intros [= <- <-]; naive_solver|].
    pose proof (remove_size f highest Hs).
    assert (Hsub : heights (remove_height f highest) ⊆ heights f)
      by (rewrite remove_height_heights; apply delete_subseteq).
    assert (Hkeep : forall h, h <> highest -> heights (remove_height f highest) !! h = heights f !! h)
      by (intros h Hh; rewrite remove_height_heights; by apply lookup_delete_ne).
    destruct (N.eqb_spec highest height) as [->|Hne].
    + intros [= <- <-]. split_and!; [by apply remove_height_ok|done| |done].
      intros h Hh. apply Hkeep. lia.
    + intros Hr. apply IH in Hr as (H1 & H2 & H3 & H4); [|by apply remove_height_ok|lia].
      split_and!; [done|by etransitivity| |].
      * intros h Hh. rewrite H3 by done. apply Hkeep. lia.
      * intros Hb. destruct (H4 Hb) as [H5 H6]. split; [done|]. rewrite H6. apply Hkeep. lia.
  - intros [= <- <-]. destruct Hok as [Hc Hb Hl Hk]. rewrite Hb, Hlast, map_sum_empty in Hgt. lia.
Qed.

Lemma make_room_spec f height n f' b :
  future_ok f -> n <= MAX_CACHED_BYTES -> make_room f height n = (f', b) ->
  future_ok f' /\ heights f' ⊆ heights f /\
  (forall h, h < height -> heights f' !! h = heights f !! h) /\
  (b = true -> cached_bytes f' + n <= MAX_CACHED_BYTES /\ heights f' !! height = heights f !! height /\
     (N.of_nat (size (heights f')) < MAX_CACHED_HEIGHTS \/ is_Some (heights f' !! height))).
Proof.
  intros Hok Hn. unfold make_room.
  destruct (room_for_height _ f height) as [f1 b1] eqn:E1.
  apply room_for_height_spec in E1 as (H1 & H2 & H3 & H4); [|done|lia].
  destruct b1.
  - intros Hr. apply room_for_bytes_spec in Hr as (H5 & H6 & H7 & H8); [|done|lia|done].
    split_and!; [done|by etransitivity| |].
    + intros h Hh. rewrite H7 by done. apply H3. lia.
    + intros Hb. destruct (H8 Hb) as [H9 H10]. split_and!; [done|rewrite H10; apply H3; lia|].
      destruct (H4 eq_refl) as [Hlt|Hs]; [left|right; by rewrite H10].
      apply map_subseteq_size in H6. lia.
  - intros [= <- <-]. split_and!; try done. intros h Hh. apply H3. lia.
Qed.
End invariant.

(** ** Slots and replay order *)

Section slots.
Context {R : AlloyRlp}.

(** Where a message is replayed: by bucket, then by validator index. *)
Definition replay_position (e : CachedEntry) : N :=
  match consensus_data e.2 with
  | Ok d =>
      match from_message_type (message_type d) with
      | Some kind => kind_as_usize kind * NEOX_MAX_VALIDATOR_COUNT + validator_index d
      | None => 0
      end
  | Err _ => 0
  end.

Lemma entry_at_position h k i e :
  entry_at h k i e -> replay_position e = k * NEOX_MAX_VALIDATOR_COUNT + i.
Proof. intros (_ & d & kind & Hd & Hk & <- & <-). unfold replay_position. by rewrite Hd, Hk. Qed.

Lemma slot_Some b k i e :
  slot b k i = Some e <-> exists row, b !! N.to_nat k = Some row /\ row !! N.to_nat i = Some (Some e).
Proof.
  unfold slot. split.
  - destruct (b !! N.to_nat k) as [row|]; [|done]. intros H. exists row. split; [done|].
    destruct (row !! N.to_nat i) as [[x|]|]; simpl in H; congruence.
  - intros (row & -> & H). by rewrite H.
Qed.

Lemma slot_replace b h k i e k' i' :
  bucket_ok h b -> k < CACHED_MESSAGE_KINDS -> i < NEOX_MAX_VALIDATOR_COUNT ->
  slot (replace_slot b k i e) k' i' =
    if bool_decide (k' = k /\ i' = i) then Some e else slot b k' i'.
Proof.
  intros [Hr Hc _] Hk Hi.
  assert (is_Some (b !! N.to_nat k)) as [row Hrow] by (apply lookup_lt_is_Some_2; unfold lenN in Hr; lia).
  assert (Hl : lenN row = NEOX_MAX_VALIDATOR_COUNT) by exact (Forall_lookup_1 _ _ _ _ Hc Hrow).
  unfold slot, replace_slot, HeightBucket in *. case_bool_decide as Heq.
  - destruct Heq as [-> ->]. rewrite list_lookup_alter_eq, Hrow. simpl.
    rewrite list_lookup_insert_eq; [done|unfold lenN in Hl; lia].
  - destruct (decide (k' = k)) as [->|Hne].
    + rewrite list_lookup_alter_eq, Hrow. simpl. rewrite list_lookup_insert_ne; [done|].
      intros E%N2Nat.inj. by apply Heq.
    + rewrite list_lookup_alter_ne; [done|]. intros E%N2Nat.inj. congruence.
Qed.

Lemma bucket_default_ok h : bucket_ok h bucket_default.
Proof.
  constructor; [done|by apply Forall_replicate|].
  intros k i e (row & [-> _]%lookup_replicate & [? _]%lookup_replicate)%slot_Some. done.
Qed.

Lemma replace_slot_ok h b k i e :
  bucket_ok h b -> k < CACHED_MESSAGE_KINDS -> i < NEOX_MAX_VALIDATOR_COUNT -> entry_at h k i e ->
  bucket_ok h (replace_slot b k i e).
Proof.
  intros Hb Hk Hi He. constructor.
  - unfold replace_slot, lenN, HeightBucket in *. rewrite length_alter. apply Hb.
  - unfold replace_slot, HeightBucket in *. apply Forall_alter; [apply Hb|]. intros row Hrow Hl. unfold lenN. by rewrite length_insert.
  - intros k' i' e'. rewrite (slot_replace b h) by done. case_bool_decide as Heq.
    + destruct Heq as [-> ->]. by intros [= <-].
    + apply Hb.
Qed.

Lemma elem_of_bucket_entries b k i e : slot b k i = Some e -> e ∈ bucket_entries b.
Proof.
  intros (row & Hb & Hr)%slot_Some. apply list_elem_of_omap. exists (Some e). split; [|done].
  apply list_elem_of_In, in_concat. exists row.
  split; apply list_elem_of_In; by eapply list_elem_of_lookup_2.
Qed.

Lemma concat_positions (pos : CachedEntry -> N) b (off w : N) :
  Forall (fun row => lenN row = w) b ->
  (forall k row i e, b !! k = Some row -> row !! i = Some (Some e) ->
     pos e = (off + N.of_nat k) * w + N.of_nat i) ->
  forall j e, concat b !! j = Some (Some e) -> pos e = off * w + N.of_nat j.
Proof.
  intros Hw. revert off. induction Hw as [|row b Hrow Hb IH]; intros off Hp j e; [done|].
  cbn [concat]. rewrite lookup_app_Some. intros [Hj|[Hle Hj]].
  - rewrite (Hp 0%nat row j e) by done. lia.
  - rewrite (IH (off + 1)) with (j := (j - length row)%nat); [unfold lenN in Hrow; nia| |done].
    intros k row' i e' Hk Hi. rewrite (Hp (S k) row' i e') by done. f_equal. f_equal. lia.
Qed.

Lemma omap_sorted (pos : CachedEntry -> N) (l : list (option CachedEntry)) (off : N) :
  (forall j e, l !! j = Some (Some e) -> pos e = off + N.of_nat j) ->
  StronglySorted N.lt (map pos (omap id l)) /\ Forall (fun p => off <= p) (map pos (omap id l)).
Proof.
  revert off. induction l as [|x l IH]; intros off Hp; [by split; constructor|].
  destruct (IH (off + 1)) as [Hs Hf].
  { intros j e Hj. rewrite (Hp (S j) e Hj). lia. }
  assert (Hf' : Forall (fun p => off <= p) (map pos (omap id l)))
    by (eapply Forall_impl; [exact Hf|]; intros p Hle; simpl in Hle; lia).
  destruct x as [e|]; [|done]. pose proof (Hp 0%nat e eq_refl) as He.
  change (omap id (Some e :: l)) with (e :: omap id l). cbn [map]. split.
  - constructor; [done|]. eapply Forall_impl; [exact Hf|]. intros p Hle. simpl in Hle. lia.
  - constructor; [lia|done].
Qed.

Lemma bucket_entries_sorted h b :
  bucket_ok h b -> StronglySorted N.lt (map replay_position (bucket_entries b)).
Proof.
  intros [Hr Hc Hs]. apply (omap_sorted _ _ 0). intros j e Hj.
  rewrite (concat_positions replay_position b 0 NEOX_MAX_VALIDATOR_COUNT Hc) with (j := j); [lia| |done].
  intros k row i e' Hk Hi. rewrite (entry_at_position h (N.of_nat k) (N.of_nat i) e'); [lia|].
  apply Hs, slot_Some. exists row. by rewrite !Nat2N.id.
Qed.

Lemma bucket_entries_slot b e : e ∈ bucket_entries b -> exists k i, slot b k i = Some e.
Proof.
  intros ([x|] & Hx & E)%list_elem_of_omap; [|done]. injection E as ->.
  apply list_elem_of_In, in_concat in Hx as (row & Hrow%list_elem_of_In & Hx%list_elem_of_In).
  apply list_elem_of_lookup_1 in Hrow as [k Hk]. apply list_elem_of_lookup_1 in Hx as [i Hi].
  exists (N.of_nat k), (N.of_nat i). apply slot_Some. exists row. by rewrite !Nat2N.id.
Qed.
End slots.

(** ** Operations *)

Section operations.
Context {R : AlloyRlp}.

Lemma kind_bound k : kind_as_usize k < CACHED_MESSAGE_KINDS.
Proof. by destruct k. Qed.

Lemma bucket_at_ok f h : future_ok f -> bucket_ok h (default bucket_default (heights f !! h)).
Proof.
  intros Hok. destruct (heights f !! h) as [b|] eqn:E; [by apply (future_buckets f Hok)|].
  apply bucket_default_ok.
Qed.

Lemma bucket_at_bytes f h :
  map_sum bucket_bytes (heights f) =
    bucket_bytes (default bucket_default (heights f !! h)) + map_sum bucket_bytes (delete h (heights f)).
Proof.
  destruct (heights f !! h) as [b|] eqn:E; simpl; [by apply map_sum_delete|].
  by rewrite bucket_default_bytes, delete_id.
Qed.

Lemma slot_size_le b k i : slot_size (slot b k i) <= bucket_bytes b.
Proof.
  destruct (slot b k i) as [e|] eqn:E; [|unfold slot_size; simpl; lia].
  apply elem_of_bucket_entries in E. unfold bucket_bytes, slot_size. simpl. revert E.
  induction (bucket_entries b) as [|x l IH]; intros E; [by apply not_elem_of_nil in E|].
  apply elem_of_cons in E as [->|E]; unfold entries_size in *; simpl; [lia|]. specialize (IH E). lia.
Qed.

(** Storing one message in a cache with room for it. *)
Lemma store_ok f p m d kind previous :
  future_ok f -> consensus_data m = Ok d -> from_message_type (message_type d) = Some kind ->
  validator_index d < NEOX_MAX_VALIDATOR_COUNT ->
  cached_bytes f + cached_size m <= MAX_CACHED_BYTES ->
  N.of_nat (size (heights f)) < MAX_CACHED_HEIGHTS \/ is_Some (heights f !! valid_block_end m) ->
  let b := default bucket_default (heights f !! valid_block_end m) in
  previous = slot_size (slot b (kind_as_usize kind) (validator_index d)) ->
  future_ok (mkFutureDbftMessages
    (<[valid_block_end m := replace_slot b (kind_as_usize kind) (validator_index d) (p, m)]> (heights f))
    (cached_bytes f - previous + cached_size m)).
Proof.
  intros Hok Hd Hk Hi Hroom Hcount b ->. pose proof (bucket_at_ok f (valid_block_end m) Hok) as Hb.
  fold b in Hb. pose proof (kind_bound kind) as Hkb.
  assert (is_Some (b !! N.to_nat (kind_as_usize kind))) as [row Hrow].
  { apply lookup_lt_is_Some_2. pose proof (bucket_rows _ _ Hb) as Hr. unfold lenN in Hr. lia. }
  assert (Hl : lenN row = NEOX_MAX_VALIDATOR_COUNT)
    by exact (Forall_lookup_1 _ _ _ _ (bucket_columns _ _ Hb) Hrow).
  assert (Hsize := replace_slot_size b (kind_as_usize kind) (validator_index d) (p, m) row Hrow
    ltac:(unfold lenN in Hl; lia)). cbn [snd] in Hsize.
  pose proof (future_bytes f Hok) as Hbytes. rewrite (bucket_at_bytes f (valid_block_end m)) in Hbytes.
  fold b in Hbytes.
  pose proof (slot_size_le b (kind_as_usize kind) (validator_index d)) as Hslot.
  constructor; cbn [heights cached_bytes].
  - rewrite map_size_insert. destruct Hcount as [Hlt|[x Hx]].
    + destruct (heights f !! valid_block_end m); [apply Hok|lia].
    + rewrite Hx. apply Hok.
  - rewrite <- insert_delete_eq, map_sum_insert by apply lookup_delete_eq.
    rewrite Hbytes. clear -Hsize Hslot. lia.
  - lia.
  - intros h b'. rewrite lookup_insert_Some. intros [[<- <-]|[_ H]]; [|by apply (future_buckets f Hok)].
    apply replace_slot_ok; try done. split; [done|]. by exists d, kind.
Qed.

Lemma cache_future_spec f p m f' b :
  future_ok f -> cache_future_dbft_message f p m = (f', b) ->
  future_ok f' /\
  (forall h, h < valid_block_end m -> heights f' !! h = heights f !! h) /\
  (b = true -> exists d kind bucket, consensus_data m = Ok d /\
     from_message_type (message_type d) = Some kind /\ heights f' !! valid_block_end m = Some bucket /\
     forall k i, slot bucket k i =
       if bool_decide (k = kind_as_usize kind /\ i = validator_index d) then Some (p, m)
       else slot (default bucket_default (heights f !! valid_block_end m)) k i).
Proof.
  intros Hok. unfold cache_future_dbft_message.
  destruct (consensus_data m) as [d|] eqn:Hd; [|intros [= <- <-]; naive_solver].
  destruct (from_message_type (message_type d)) as [kind|] eqn:Hk; [|intros [= <- <-]; naive_solver].
  unfold future_insert, cached_validator_index. rewrite Hd.
  destruct (N.ltb_spec (validator_index d) NEOX_MAX_VALIDATOR_COUNT) as [Hi|];
    [|intros [= <- <-]; naive_solver].
  destruct (N.ltb_spec MAX_CACHED_BYTES (cached_size m)) as [|Hs]; [intros [= <- <-]; naive_solver|].
  destruct (make_room f (valid_block_end m) (cached_size m)) as [f1 b1] eqn:Hr.
  apply make_room_spec in Hr as (H1 & H2 & H3 & H4); [|done|done].
  destruct b1; [|intros [= <- <-]; naive_solver]. destruct (H4 eq_refl) as (H5 & H6 & H7).
  intros [= <- <-]. rewrite <- H6. set (bucket := default bucket_default (heights f1 !! valid_block_end m)).
  split_and!.
  - assert (Hst := store_ok f1 p m d kind _ H1 Hd Hk Hi H5 H7 eq_refl). fold bucket in Hst.
    destruct (slot bucket (kind_as_usize kind) (validator_index d)) as [[q previous]|]; [exact Hst|].
    unfold slot_size in Hst. simpl in Hst. by rewrite N.sub_0_r in Hst.
  - intros h Hh. simpl. rewrite lookup_insert_ne by lia. by apply H3.
  - intros _. exists d, kind. eexists. split_and!; [done|done|apply lookup_insert_eq|].
    intros k i. apply (slot_replace bucket (valid_block_end m)); [by apply bucket_at_ok|apply kind_bound|done].
Qed.

Lemma prune_loop_spec fuel f height :
  future_ok f -> (size (heights f) < fuel)%nat ->
  future_ok (prune_loop fuel f height) /\
  forall h, heights (prune_loop fuel f height) !! h = if h <=? height then None else heights f !! h.
Proof.
  revert f. induction fuel as [|fuel IH]; intros f Hok Hf; [lia|]. cbn [prune_loop].
  pose proof (first_key_spec (heights f)) as Hfirst. destruct (first_key (heights f)) as [lowest|].
  - destruct Hfirst as [Hs Hmin]. destruct (N.ltb_spec height lowest) as [Hlt|Hle].
    + split; [done|]. intros h. destruct (N.leb_spec h height); [|done].
      destruct (heights f !! h) eqn:E; [|done]. specialize (Hmin h ltac:(by eexists)). lia.
    + pose proof (remove_size f lowest Hs).
      destruct (IH (remove_height f lowest)) as [H1 H2]; [by apply remove_height_ok|lia|].
      split; [done|]. intros h. rewrite H2, remove_height_heights.
      destruct (N.leb_spec h height); [done|]. apply lookup_delete_ne. lia.
  - split; [done|]. intros h. rewrite Hfirst, lookup_empty. by destruct (h <=? height).
Qed.

Lemma prune_through_spec f height :
  future_ok f -> future_ok (prune_through f height) /\
  forall h, heights (prune_through f height) !! h = if h <=? height then None else heights f !! h.
Proof. intros Hok. apply prune_loop_spec; [done|lia]. Qed.

Lemma drain_spec f height :
  future_ok f ->
  let r := drain_cached_dbft_messages f height in
  future_ok r.1 /\ heights r.1 = delete height (heights f) /\
  StronglySorted N.lt (map replay_position r.2) /\ Forall (fun e => valid_block_end e.2 = height) r.2 /\
  forall e, e ∈ r.2 <-> exists b k i, heights f !! height = Some b /\ slot b k i = Some e.
Proof.
  intros Hok r. subst r. unfold drain_cached_dbft_messages.
  rewrite take_height_remove, remove_height_heights. unfold take_height.
  split; [by apply remove_height_ok|]. split; [done|].
  destruct (heights f !! height) as [b|] eqn:E; cbn [snd].
  - pose proof (future_buckets f Hok _ _ E) as Hb. split_and!; [by eapply bucket_entries_sorted| |].
    + apply Forall_forall. intros e (k & i & He)%bucket_entries_slot.
      by destruct (bucket_slots _ _ Hb _ _ _ He).
    + intros e. split; [intros (k & i & He)%bucket_entries_slot; by exists b, k, i|].
      intros (b' & k & i & [= <-] & He). by eapply elem_of_bucket_entries.
  - split_and!; [constructor|constructor|]. intros e. split; [by intros ?%not_elem_of_nil|naive_solver].
Qed.

(** The caches the driver can hold. *)
Inductive future_reachable : FutureDbftMessages -> Prop :=
| reach_default : future_reachable future_default
| reach_cache f p m : future_reachable f -> future_reachable (cache_future_dbft_message f p m).1
| reach_drain f h : future_reachable f -> future_reachable (drain_cached_dbft_messages f h).1
| reach_prune f h : future_reachable f -> future_reachable (prune_through f h).

Lemma future_reachable_ok f : future_reachable f -> future_ok f.
Proof.
  induction 1 as [|f p m _ IH|f h _ IH|f h _ IH]; [apply future_default_ok| | |].
  - destruct (cache_future_dbft_message f p m) as [f' b] eqn:E. by apply cache_future_spec in E as [? _].
  - by apply drain_spec.
  - by apply prune_through_spec.
Qed.

(** The early-message cache keeps within eight heights and 16 MiB, its byte counter being
    exact, whatever is cached, replayed and pruned; pruning removes exactly the heights
    passed. *)
Theorem future_cache_budget f height :
  future_reachable f ->
  N.of_nat (size (heights f)) <= MAX_CACHED_HEIGHTS /\
  cached_bytes f = map_sum (fun b => entries_size (bucket_entries b)) (heights f) /\
  cached_bytes f <= MAX_CACHED_BYTES /\
  forall h, heights (prune_through f height) !! h = if h <=? height then None else heights f !! h.
Proof.
  intros Hok%future_reachable_ok. pose proof (prune_through_spec f height Hok) as [_ Hp].
  destruct Hok as [H1 H2 H3 _]. by split_and!.
Qed.

(** What is cached early is replayed: a retained message is among those replayed for its
    height, with every other message of that height except the one it replaces; replay
    goes by preparation, change view, pre-commit, commit and then by validator; and no
    insertion, retained or refused, touches a height nearer than its own. *)
Theorem future_cache_replay f p m f' b :
  future_reachable f -> cache_future_dbft_message f p m = (f', b) ->
  (forall h, h < valid_block_end m -> (drain_cached_dbft_messages f' h).2 = (drain_cached_dbft_messages f h).2) /\
  (b = true ->
   let replayed := (drain_cached_dbft_messages f' (valid_block_end m)).2 in
   (p, m) ∈ replayed /\ StronglySorted N.lt (map replay_position replayed) /\
   Forall (fun e => valid_block_end e.2 = valid_block_end m) replayed /\
   forall e, e ∈ (drain_cached_dbft_messages f (valid_block_end m)).2 ->
     e ∈ replayed \/ replay_position e = replay_position (p, m)).
Proof.
  intros Hok%future_reachable_ok Hc. pose proof (cache_future_spec _ _ _ _ _ Hok Hc) as (Hok' & Hnear & Hin).
  split.
  - intros h Hh. unfold drain_cached_dbft_messages, take_height. rewrite Hnear by done.
    by destruct (heights f !! h).
  - intros Hb replayed. destruct (Hin Hb) as (d & kind & bucket & Hd & Hk & Hbk & Hslots).
    destruct (drain_spec f' (valid_block_end m) Hok') as (_ & _ & Hs & Hf & Hel). fold replayed in Hs, Hf, Hel.
    split_and!; [|done|done|].
    + apply Hel. exists bucket, (kind_as_usize kind), (validator_index d). split; [done|].
      rewrite Hslots. by rewrite bool_decide_eq_true_2.
    + destruct (drain_spec f (valid_block_end m) Hok) as (_ & _ & _ & _ & Hel0).
      intros e (b0 & k & i & E0 & He)%Hel0. pose proof (Hslots k i) as Hki. case_bool_decide as Hcase.
      * right. destruct Hcase as [-> ->].
        apply (bucket_slots _ _ (future_buckets f Hok _ _ E0)), entry_at_position in He. rewrite He.
        symmetry. apply (entry_at_position (valid_block_end m)). split; [done|]. by exists d, kind.
      * left. apply Hel. exists bucket, k, i. split; [done|]. rewrite Hki, E0. done.
Qed.

(** A message at the highest cached height that does not fit takes the messages already
    cached for that height with it. *)
Lemma overflow_drops_height f p m d kind :
  consensus_data m = Ok d -> from_message_type (message_type d) = Some kind ->
  validator_index d < NEOX_MAX_VALIDATOR_COUNT -> cached_size m <= MAX_CACHED_BYTES ->
  last_key (heights f) = Some (valid_block_end m) -> is_Some (heights f !! valid_block_end m) ->
  MAX_CACHED_BYTES < cached_bytes f + cached_size m ->
  cache_future_dbft_message f p m = (remove_height f (valid_block_end m), false).
Proof.
  intros Hd Hk Hi Hs Hl Hin Hover. unfold cache_future_dbft_message, future_insert, cached_validator_index.
  rewrite Hd, Hk. destruct (N.ltb_spec (validator_index d) NEOX_MAX_VALIDATOR_COUNT); [|lia].
  destruct (N.ltb_spec MAX_CACHED_BYTES (cached_size m)); [lia|].
  unfold make_room. cbn [room_for_height room_for_bytes].
  rewrite (bool_decide_eq_true_2 _ Hin), andb_false_r. cbn [room_for_bytes].
  destruct (N.ltb_spec MAX_CACHED_BYTES (cached_bytes f + cached_size m)); [|lia]. rewrite Hl.
  rewrite N.ltb_irrefl. by rewrite N.eqb_refl.
Qed.
End operations.

(** ** Concrete inputs *)

Module FutureWitness.
#[local] Existing Instance alloy_rlp.

Definition early (t : DbftMessageType) (h i : N) : DbftMessage :=
  mkDbftMessage 0 h (repeat x01 20) (consensus_data_encode (mkDbftConsensusData t h i 0 [xc0])) [].

(** A commit of validator 1, then a preparation of validator 2, both for height 9. *)
Definition one : FutureDbftMessages := (cache_future_dbft_message future_default [x07] (early Commit 9 1)).1.
Definition two : FutureDbftMessages * bool := cache_future_dbft_message one [x08] (early PrepareResponse 9 2).

Lemma future_cache_budget_witness : cached_bytes one <= MAX_CACHED_BYTES.
Proof.
  apply (future_cache_budget one 9). apply reach_cache, reach_default.
Defined.

Lemma future_cache_replay_witness :
  ([x08], early PrepareResponse 9 2) ∈ (drain_cached_dbft_messages two.1 9).2.
Proof.
  apply (future_cache_replay one [x08] (early PrepareResponse 9 2) two.1 true);
    [apply reach_cache, reach_default| |reflexivity].
  change (two = (two.1, true)). assert (E : two.2 = true) by (vm_compute; reflexivity).
  destruct two as [f b]. simpl in *. by rewrite E.
Defined.
End FutureWitness.
