(* ===== verification/Timer.v ===== *)
(** The driver's dBFT timer and timeout policy (crates/neox/node/src/sync/timer.rs). *)

From S2P Require Import Prelude Extern Instances Extra Validation Tpke Wire Payload Recovery Cache.
From S2P Require Import DkgParams Storage Round Journal Signer.

(** A [Duration] is its number of nanoseconds. *)
Definition NANOS_PER_SEC : N := 1000000000.
Definition DURATION_MAX : N := U64_MAX * NANOS_PER_SEC + 999999999.

(** [u32::checked_shl] *)
Definition checked_shl_u32 (n exponent : N) : option N :=
  if exponent <? 32 then Some (as_u32 (N.shiftl n exponent)) else None.

Definition scaled_block_period (block_period exponent : N) : N :=
  match checked_shl_u32 1 exponent with
  | None => DURATION_MAX
  | Some multiplier => default DURATION_MAX (checked_mul DURATION_MAX block_period multiplier)
  end.

Definition change_view_timeout (block_period new_view : N) : N :=
  scaled_block_period block_period (new_view + 1).

Definition post_proposal_timeout (block_period view : N) : N :=
  let delay := scaled_block_period block_period (view + 1) in
  if view =? 0 then saturating_sub delay block_period else delay.

Definition round_timeout (block_period view : N) (is_primary : bool) : N :=
  if is_primary then (if view =? 0 then block_period else 0)
  else scaled_block_period block_period (view + 1).

Record DbftTimeout : Type := mkDbftTimeout {
  timeout_height : N;
  timeout_view : N;
  timeout_generation : N;
}.

#[export] Instance DbftTimeout_eq_dec : EqDecision DbftTimeout.
Proof. solve_decision. Defined.

(** [sleep] is the task that will deliver a token after a delay. *)
Record DbftTimer : Type := mkDbftTimer {
  block_period : N;
  generation : N;
  armed : option DbftTimeout;
  sleep : option (DbftTimeout * N);
}.
Definition timer_channel (period : N) : DbftTimer := mkDbftTimer period 0 None None.

Definition arm (t : DbftTimer) (height view delay : N) : DbftTimer :=
  let generation := wrapping_add U64_MAX (generation t) 1 in
  let timeout := mkDbftTimeout height view generation in
  mkDbftTimer (block_period t) generation (Some timeout) (Some (timeout, delay)).

Definition disarm (t : DbftTimer) : DbftTimer :=
  mkDbftTimer (block_period t) (wrapping_add U64_MAX (generation t) 1) None None.

Definition consume (t : DbftTimer) (timeout : DbftTimeout) : DbftTimer * bool :=
  if bool_decide (armed t <> Some timeout) then (t, false)
  else (mkDbftTimer (block_period t) (generation t) None None, true).

Definition arm_post_proposal (t : DbftTimer) (height view : N) : DbftTimer :=
  arm t height view (post_proposal_timeout (block_period t) view).
Definition arm_recovery (t : DbftTimer) (height view : N) : DbftTimer :=
  arm t height view (scaled_block_period (block_period t) 1).
Definition arm_contribution (t : DbftTimer) (height view : N) : DbftTimer :=
  arm t height view (block_period t).
Definition arm_change_view (t : DbftTimer) (height view new_view : N) : DbftTimer :=
  arm t height view (change_view_timeout (block_period t) new_view).

Section reset.
Context {K : Secp256k1}.

Definition timer_reset (t : DbftTimer) (round : option DbftRoundState) (signer : option DbftSigner) : DbftTimer :=
  match round, signer with
  | Some round, Some signer =>
      match signer_validator_index signer (rs_validators round) with
      | None => disarm t
      | Some local_index =>
          let view := current_view round in
          let is_primary := local_index =? primary_index round view in
          arm t (rs_height round) view (round_timeout (block_period t) view is_primary)
      end
  | _, _ => disarm t
  end.
End reset.

(** ** Timeout policy *)

Lemma scaled_small p e :
  e < 32 -> scaled_block_period p e = if p * 2 ^ e <=? DURATION_MAX then p * 2 ^ e else DURATION_MAX.
Proof.
  intros He. unfold scaled_block_period, checked_shl_u32. destruct (N.ltb_spec e 32); [|lia].
  assert (Hm : as_u32 (N.shiftl 1 e) = 2 ^ e).
  { unfold as_u32. rewrite N.shiftl_1_l. apply N.mod_small. apply N.pow_lt_mono_r; lia. }
  rewrite Hm. unfold checked_mul. by destruct (N.leb_spec (p * 2 ^ e) DURATION_MAX).
Qed.

Lemma scaled_large p e : 32 <= e -> scaled_block_period p e = DURATION_MAX.
Proof. intros He. unfold scaled_block_period, checked_shl_u32. by destruct (N.ltb_spec e 32); [lia|]. Qed.

Lemma scaled_bounds p e : p <= DURATION_MAX -> p <= scaled_block_period p e <= DURATION_MAX.
Proof.
  intros Hp. destruct (N.lt_ge_cases e 32) as [He|He]; [|rewrite scaled_large; lia].
  rewrite scaled_small by done. destruct (N.leb_spec (p * 2 ^ e) DURATION_MAX); [|lia].
  pose proof (N.pow_nonzero 2 e ltac:(done)). nia.
Qed.

Lemma scaled_mono p e e' : e <= e' -> scaled_block_period p e <= scaled_block_period p e'.
Proof.
  intros Hle. destruct (N.lt_ge_cases e' 32) as [He'|He'].
  - rewrite !scaled_small by lia.
    assert (p * 2 ^ e <= p * 2 ^ e') by (apply N.mul_le_mono_l, N.pow_le_mono_r; lia).
    destruct (N.leb_spec (p * 2 ^ e) DURATION_MAX), (N.leb_spec (p * 2 ^ e') DURATION_MAX); lia.
  - rewrite (scaled_large p e') by done. destruct (N.lt_ge_cases e 32); [|by rewrite scaled_large].
    rewrite scaled_small by done. destruct (N.leb_spec (p * 2 ^ e) DURATION_MAX); lia.
Qed.

Lemma scaled_double p e :
  e + 1 < 32 -> p * 2 ^ (e + 1) <= DURATION_MAX ->
  scaled_block_period p (e + 1) = 2 * scaled_block_period p e.
Proof.
  intros He Hp. rewrite !scaled_small by lia. rewrite N.pow_add_r in *. change (2 ^ 1) with 2 in *.
  destruct (N.leb_spec (p * (2 ^ e * 2)) DURATION_MAX); [|lia].
  destruct (N.leb_spec (p * 2 ^ e) DURATION_MAX); [nia|nia].
Qed.

(** Timeouts leave time to decide: they never pass the largest duration, grow with the
    view, double with each view while representable, give a backup at least twice the
    primary's block period, and a primary that proposed the rest of the backup's time. *)
Theorem timeout_policy p v w :
  p <= DURATION_MAX -> v <= w ->
  (forall primary, round_timeout p w primary <= DURATION_MAX) /\
  round_timeout p v false <= round_timeout p w false /\
  (v + 2 < 32 -> p * 2 ^ (v + 2) <= DURATION_MAX ->
     change_view_timeout p (v + 1) = 2 * round_timeout p v false) /\
  (2 * p <= DURATION_MAX -> 2 * p <= round_timeout p v false) /\
  (v = 0 -> round_timeout p v true + post_proposal_timeout p v = round_timeout p v false).
Proof.
  intros Hp Hle. split_and!.
  - intros primary. unfold round_timeout. destruct primary; [destruct (w =? 0); [done|lia]|].
    by apply scaled_bounds.
  - apply scaled_mono. lia.
  - intros Hv Hd. unfold change_view_timeout, round_timeout.
    apply (scaled_double p (v + 1)); [lia|]. by replace (v + 1 + 1) with (v + 2) by lia.
  - intros H2. unfold round_timeout. etransitivity; [|apply (scaled_mono p 1); lia].
    rewrite scaled_small by lia. change (2 ^ 1) with 2. destruct (N.leb_spec (p * 2) DURATION_MAX); lia.
  - intros ->. unfold round_timeout, post_proposal_timeout, saturating_sub.
    rewrite N.eqb_refl. pose proof (scaled_bounds p (0 + 1) Hp). lia.
Qed.

(** ** Tokens *)

(** The timer with every token ever handed to a sleeping task, the latest first, and the
    number of generations used. An aborted task may already have sent its token. *)
Inductive timer_reachable (p : N) : DbftTimer -> list DbftTimeout -> N -> Prop :=
| reach_channel : timer_reachable p (timer_channel p) [] 0
| reach_arm t l n h v delay :
    timer_reachable p t l n ->
    timer_reachable p (arm t h v delay)
      (mkDbftTimeout h v (wrapping_add U64_MAX (generation t) 1) :: l) (n + 1)
| reach_disarm t l n : timer_reachable p t l n -> timer_reachable p (disarm t) l (n + 1)
| reach_consume t l n token :
    timer_reachable p t l n -> token ∈ l -> timer_reachable p (consume t token).1 l n.

Lemma timer_reachable_inv p t l n :
  timer_reachable p t l n -> n <= U64_MAX ->
  generation t = n /\ Forall (fun token => timeout_generation token <= n) l /\ NoDup l /\
  (forall token, armed t = Some token -> head l = Some token) /\
  (forall token, token ∈ l -> timeout_generation token = n -> head l = Some token).
Proof.
  induction 1 as [|t l n h v delay _ IH|t l n _ IH|t l n token _ IH Hin]; intros Hn.
  - split_and!; try done; [constructor|]. intros token H. by apply not_elem_of_nil in H.
  - destruct IH as (Hg & Hf & Hd & Ha & Hh); [lia|].
    assert (Hw : wrapping_add U64_MAX (generation t) 1 = n + 1)
      by (unfold wrapping_add; rewrite Hg; apply N.mod_small; lia).
    cbn [arm generation armed]. rewrite Hw. split_and!; [done| | |by intros token [= <-]|].
    + constructor; [done|]. eapply Forall_impl; [exact Hf|]. intros x Hx. simpl in Hx. lia.
    + constructor; [|done]. intros H. rewrite Forall_forall in Hf. apply Hf in H. simpl in H. lia.
    + intros token [->|H]%elem_of_cons; [done|]. rewrite Forall_forall in Hf. apply Hf in H. lia.
  - destruct IH as (Hg & Hf & Hd & Ha & Hh); [lia|].
    cbn [disarm generation armed]. split_and!; [|eapply Forall_impl; [exact Hf|]|done|done|].
    + unfold wrapping_add. rewrite Hg. apply N.mod_small. lia.
    + intros x Hx. simpl in Hx. lia.
    + intros token H. rewrite Forall_forall in Hf. apply Hf in H. lia.
  - destruct IH as (Hg & Hf & Hd & Ha & Hh); [done|].
    unfold consume. case_bool_decide; cbn [fst generation armed]; by split_and!.
Qed.

(** Only the newest timeout can fire: while fewer than 2^64 generations were used, a token
    of a superseded or disarmed timer is refused although its task may still deliver it,
    and an accepted token is not accepted again. *)
Theorem timer_latest_only p t latest older n token :
  timer_reachable p t (latest :: older) n -> n <= U64_MAX ->
  token ∈ latest :: older ->
  (token ∈ older -> (consume t token).2 = false) /\
  ((consume t token).2 = true -> token = latest /\ (consume (consume t token).1 token).2 = false) /\
  (consume (disarm t) token).2 = false.
Proof.
  intros Hr Hn Hin. destruct (timer_reachable_inv _ _ _ _ Hr Hn) as (_ & _ & Hd & Ha & _).
  apply NoDup_cons in Hd as [Hnew _]. split_and!.
  - intros Ho. unfold consume. case_bool_decide as E; [done|].
    apply Ha in E. simplify_eq/=. done.
  - unfold consume. case_bool_decide as E; [done|]. intros _.
    apply Ha in E. simplify_eq/=. done.
  - unfold consume. by rewrite bool_decide_eq_true_2.
Qed.

Module TimerWitness.
(** Armed for view 0 and, before it fired, for view 1. *)
Definition rearmed : DbftTimer := arm (arm (timer_channel 5000000000) 9 0 5000000000) 9 1 0.

Lemma timer_latest_only_witness : (consume rearmed (mkDbftTimeout 9 0 1)).2 = false.
Proof.
  apply (timer_latest_only 5000000000 rearmed (mkDbftTimeout 9 1 2) [mkDbftTimeout 9 0 1] 2).
  - apply (reach_arm _ (arm (timer_channel 5000000000) 9 0 5000000000) [mkDbftTimeout 9 0 1] 1).
    apply (reach_arm _ (timer_channel 5000000000) [] 0), reach_channel.
  - by vm_compute.
  - right. by left.
  - by left.
Defined.

Lemma timeout_policy_witness : change_view_timeout 5000000000 1 = 2 * round_timeout 5000000000 0 false.
Proof. apply (timeout_policy 5000000000 0 0); by vm_compute. Defined.

(** A rejected proposal arms a longer timeout than the round had. *)
Example change_view_lengthens : round_timeout 5000000000 0 false < change_view_timeout 5000000000 1.
Proof. by vm_compute. Qed.
End TimerWitness.
