(* ===== verification/AntiMev.v ===== *)
(** Anti-MEV Envelopes: their calldata (crates/neox/antimev/src/envelope.rs), the
    decryption-share packets (crates/neox/antimev/src/precommit.rs), and discovery and
    resolution within a proposal (crates/neox/node/src/antimev.rs). *)

From S2P Require Import Prelude Extern Instances Extra Validation Tpke Wire Payload DkgParams Storage.

(** ** Envelope calldata *)

Definition ENVELOPE_TARGET : Address := [x12; x12] ++ repeat x00 17 ++ [x03].
Definition ENCRYPTED_DATA_PREFIX : bytes := repeat xff 4.
Definition ENCRYPTED_DATA_ROUND_LEN : nat := 4.
Definition ENCRYPTED_DATA_GAS_LEN : nat := 4.
Definition ENCRYPTED_DATA_HASH_LEN : nat := 32.
Definition TPKE_CIPHERTEXT_LEN : nat := 48 + 48 + 96.
Definition MIN_ENCRYPTED_MESSAGE_LEN : nat := 112.
Definition MIN_ENVELOPE_DATA_LEN : nat :=
  length ENCRYPTED_DATA_PREFIX + ENCRYPTED_DATA_ROUND_LEN + ENCRYPTED_DATA_GAS_LEN +
  ENCRYPTED_DATA_HASH_LEN + TPKE_CIPHERTEXT_LEN + MIN_ENCRYPTED_MESSAGE_LEN.
Definition ROUND_OFFSET : nat := length ENCRYPTED_DATA_PREFIX.
Definition GAS_OFFSET : nat := ROUND_OFFSET + ENCRYPTED_DATA_ROUND_LEN.
Definition HASH_OFFSET : nat := GAS_OFFSET + ENCRYPTED_DATA_GAS_LEN.
Definition CIPHERTEXT_OFFSET : nat := HASH_OFFSET + ENCRYPTED_DATA_HASH_LEN.
Definition MESSAGE_OFFSET : nat := CIPHERTEXT_OFFSET + TPKE_CIPHERTEXT_LEN.

Definition TX_TYPE_EIP4844 : N := 3.
Definition TX_TYPE_EIP7702 : N := 4.

Definition is_envelope_data (data : bytes) : bool :=
  (N.of_nat MIN_ENVELOPE_DATA_LEN <=? lenN data) && bool_decide (ENCRYPTED_DATA_PREFIX `prefix_of` data).
Definition is_envelope_policy (target : option Address) (data : bytes) : bool :=
  bool_decide (target = Some ENVELOPE_TARGET) && is_envelope_data data.
Definition is_envelope (tx_type : N) (target : option Address) (data : bytes) : bool :=
  negb (tx_type =? TX_TYPE_EIP4844) && negb (tx_type =? TX_TYPE_EIP7702) &&
  bool_decide (target = Some ENVELOPE_TARGET) && is_envelope_data data.

(** [data[a..b]]; [None] is the panic of a range out of bounds. *)
Definition range (a b : nat) (data : bytes) : option bytes :=
  if bool_decide (a <= b <= length data)%nat then Some (slice a b data) else None.

Definition encrypted_gas (data : bytes) : option N := N_of_be <$> range GAS_OFFSET HASH_OFFSET data.
Definition encrypted_hash (data : bytes) : option B256 := range HASH_OFFSET CIPHERTEXT_OFFSET data.

Inductive EnvelopeDecodeError : Type :=
| NotEnvelope
| ZeroDkgRound
| EnvelopeTpke (error : TpkeError)
| EnvelopePanic.

Record EnvelopeData : Type := mkEnvelopeData {
  ed_round : N;
  ed_gas : N;
  ed_hash : B256;
  ed_key : TpkeCiphertext;
  ed_message : bytes;
}.

Section envelope.
Context {B : Blst}.

Definition envelope_decode (data : bytes) : result EnvelopeDecodeError EnvelopeData :=
  if negb (is_envelope_data data) then Err NotEnvelope
  else
    let? round := ok_or (N_of_be <$> range ROUND_OFFSET GAS_OFFSET data) EnvelopePanic in
    if round =? 0 then Err ZeroDkgRound
    else
      let? gas := ok_or (encrypted_gas data) EnvelopePanic in
      let? hash := ok_or (encrypted_hash data) EnvelopePanic in
      let? key_bytes := ok_or (range CIPHERTEXT_OFFSET MESSAGE_OFFSET data) EnvelopePanic in
      let? key := map_err EnvelopeTpke (ciphertext_decode key_bytes) in
      let? message := ok_or (range MESSAGE_OFFSET (length data) data) EnvelopePanic in
      Ok (mkEnvelopeData round gas hash key message).
End envelope.

(** ** Decryption-share packets *)

Inductive DecryptionShareCodecError : Type :=
| CodecTooShort (actual : N)
| CodecTooManyShares (total : N)
| CodecWrongLength (expected actual : N)
| CodecTpke (error : TpkeError).

Definition SHARE_COUNTS_LEN : N := 8.

Definition encode_decryption_shares (current previous : list bytes)
    : result DecryptionShareCodecError bytes :=
  let? total := ok_or (checked_add USIZE_MAX (lenN current) (lenN previous)) (CodecTooManyShares USIZE_MAX) in
  if MAX_DECRYPTION_SHARES_PER_BLOCK <? total then Err (CodecTooManyShares total)
  else if U32_MAX <? lenN current then Err (CodecTooManyShares total)
  else if U32_MAX <? lenN previous then Err (CodecTooManyShares total)
  else Ok (le_bytes 4 (lenN current) ++ le_bytes 4 (lenN previous) ++ concat (current ++ previous)).

Section shares.
Context {B : Blst}.

(** The closure [take]: [count] shares from [offset]. *)
Fixpoint take_shares (count : nat) (encoded : bytes) : result DecryptionShareCodecError (list bytes * bytes) :=
  match count with
  | O => Ok ([], encoded)
  | S count =>
      let? share := map_err CodecTpke (decryption_share_decode (take (N.to_nat DECRYPTION_SHARE_LEN) encoded)) in
      let? (shares, rest) := take_shares count (drop (N.to_nat DECRYPTION_SHARE_LEN) encoded) in
      Ok (share :: shares, rest)
  end.

Definition decode_decryption_shares (encoded : bytes)
    : result DecryptionShareCodecError (list bytes * list bytes) :=
  if lenN encoded <? SHARE_COUNTS_LEN then Err (CodecTooShort (lenN encoded))
  else
    let current_len := N_of_le (slice 0 4 encoded) in
    let previous_len := N_of_le (slice 4 8 encoded) in
    let? total := ok_or (checked_add USIZE_MAX current_len previous_len) (CodecTooManyShares USIZE_MAX) in
    if MAX_DECRYPTION_SHARES_PER_BLOCK <? total then Err (CodecTooManyShares total)
    else
      let expected := SHARE_COUNTS_LEN + total * DECRYPTION_SHARE_LEN in
      if negb (lenN encoded =? expected) then Err (CodecWrongLength expected (lenN encoded))
      else
        let? (current, rest) := take_shares (N.to_nat current_len) (drop 8 encoded) in
        let? (previous, _) := take_shares (N.to_nat previous_len) rest in
        Ok (current, previous).
End shares.

(** ** Discovery and resolution *)

(** Reth's signed transactions: accessors, signer recovery and EIP-2718 decoding. *)
Class SignedTransactions : Type := {
  eth_tx : Type;
  tx_ty : eth_tx -> N;
  tx_to : eth_tx -> option Address;
  tx_input : eth_tx -> bytes;
  tx_nonce : eth_tx -> N;
  max_fee_per_gas : eth_tx -> N;
  priority_fee_or_price : eth_tx -> N;
  tx_gas_limit : eth_tx -> N;
  recover_signer : eth_tx -> option Address;
  eth_tx_hash : eth_tx -> B256;
  decode_2718_exact : bytes -> option eth_tx;
}.

Inductive EnvelopeDkgEpoch : Type := EpochCurrent | EpochPrevious.

#[export] Instance EnvelopeDkgEpoch_eq_dec : EqDecision EnvelopeDkgEpoch.
Proof. solve_decision. Defined.

Record AntiMevEnvelope : Type := mkAntiMevEnvelope {
  transaction_index : N;
  epoch : EnvelopeDkgEpoch;
  dkg_round : N;
  env_gas : N;
  env_hash : B256;
  encrypted_key : TpkeCiphertext;
  env_message : bytes;
}.

Record AntiMevProposal : Type := mkAntiMevProposal {
  proposal_round : N;
  envelopes : list AntiMevEnvelope;
}.

Inductive AntiMevProposalError : Type :=
| InvalidCiphertext (transaction_index : N) (source : TpkeError).

Definition antimev_len (p : AntiMevProposal) : N := lenN (envelopes p).
Definition antimev_is_empty (p : AntiMevProposal) : bool := bool_decide (envelopes p = []).
Definition ciphertexts (p : AntiMevProposal) (e : EnvelopeDkgEpoch) : list TpkeCiphertext :=
  map encrypted_key (filter (fun v => epoch v = e) (envelopes p)).

Inductive AntiMevFallbackReason : Type :=
| AesDecryption (error : TpkeError)
| TransactionDecoding
| UnsupportedBlobTransaction
| NonceMismatch (expected actual : N)
| Underpriced (minimum actual : Z)
| SenderRecovery
| SenderMismatch (expected actual : Address)
| HashMismatch (expected actual : B256)
| GasMismatch (expected actual : N)
| GasNotAllocated (required allocated : N).

Inductive AntiMevResolutionError : Type :=
| MissingPreviousDkgKey
| ShareAggregation (e : EnvelopeDkgEpoch) (error : TpkeError)
| DkgRoundMismatch (proposal state : N)
| BlockDataLengthMismatch (transactions senders receipts : N)
| EnvelopeIndexOutOfBounds (index transactions : N)
| NonMonotonicCumulativeGas (index previous current : N)
| ResolutionPanic.

Section proposal.
Context {B : Blst} {Y : Symmetric} {X : SignedTransactions}.

(** The loop of [from_transactions] from position [i]. *)
Fixpoint discover (i : N) (transactions : list eth_tx) (current_round : N)
    : result AntiMevProposalError (list AntiMevEnvelope) :=
  match transactions with
  | [] => Ok []
  | t :: rest =>
      if negb (is_envelope (tx_ty t) (tx_to t) (tx_input t)) then discover (i + 1) rest current_round
      else
        match envelope_decode (tx_input t) with
        | Err _ => discover (i + 1) rest current_round
        | Ok d =>
            if (ed_round d =? 0) || (current_round <? ed_round d) then discover (i + 1) rest current_round
            else
              let? _ := map_err (InvalidCiphertext i) (ciphertext_verify (ed_key d)) in
              let e := if ed_round d =? current_round then EpochCurrent else EpochPrevious in
              let? more := discover (i + 1) rest current_round in
              Ok (mkAntiMevEnvelope i e (ed_round d) (ed_gas d) (ed_hash d) (ed_key d) (ed_message d) :: more)
        end
  end.

Definition from_transactions (transactions : list eth_tx) (current_round : N)
    : result AntiMevProposalError AntiMevProposal :=
  let? l := discover 0 transactions current_round in Ok (mkAntiMevProposal current_round l).

Record AntiMevPreBlock : Type := mkAntiMevPreBlock {
  pb_transactions : list eth_tx;
  pb_senders : list Address;
  (** [cumulative_gas_used] of each receipt *)
  pb_receipts : list N;
  pb_parent_base_fee : N;
}.

Inductive AntiMevEnvelopeResolution : Type :=
| Decrypted (transaction_index : N) (transaction : eth_tx)
| Fallback (transaction_index : N) (reason : AntiMevFallbackReason).

Definition signed_effective_tip (t : eth_tx) (base_fee : N) : Z :=
  Z.min (Z.of_N (max_fee_per_gas t) - Z.of_N base_fee) (Z.of_N (priority_fee_or_price t)).

Definition validate_decrypted_transaction (envelope : AntiMevEnvelope) (decrypted outer : eth_tx)
    (outer_sender : Address) (allocated_gas parent_base_fee : N) : result AntiMevFallbackReason unit :=
  if tx_ty decrypted =? TX_TYPE_EIP4844 then Err UnsupportedBlobTransaction
  else if negb (tx_nonce decrypted =? tx_nonce outer)
  then Err (NonceMismatch (tx_nonce outer) (tx_nonce decrypted))
  else
    let minimum := signed_effective_tip outer parent_base_fee in
    let actual := signed_effective_tip decrypted parent_base_fee in
    if (actual <? minimum)%Z then Err (Underpriced minimum actual)
    else
      let? decrypted_sender := ok_or (recover_signer decrypted) SenderRecovery in
      if negb (bool_decide (decrypted_sender = outer_sender))
      then Err (SenderMismatch outer_sender decrypted_sender)
      else if negb (bool_decide (eth_tx_hash decrypted = env_hash envelope))
      then Err (HashMismatch (env_hash envelope) (eth_tx_hash decrypted))
      else if negb (tx_gas_limit decrypted =? env_gas envelope)
      then Err (GasMismatch (env_gas envelope) (tx_gas_limit decrypted))
      else if allocated_gas <? tx_gas_limit decrypted
      then Err (GasNotAllocated (tx_gas_limit decrypted) allocated_gas)
      else Ok tt.

Definition decrypt_transaction (key : bytes) (envelope : AntiMevEnvelope) (strict : bool)
    : result AntiMevFallbackReason eth_tx :=
  let? plaintext := map_err AesDecryption (decrypt_message_with_mode key (env_message envelope) strict) in
  ok_or (decode_2718_exact plaintext) TransactionDecoding.

Definition epoch_shares (e : EnvelopeDkgEpoch) (c : DbftPreCommit) : list bytes :=
  match e with EpochCurrent => current_round c | EpochPrevious => previous_round c end.

Definition decrypt_epoch_keys (p : AntiMevProposal) (e : EnvelopeDkgEpoch) (public_key : option DkgPublicKey)
    (contributions : list (N * DbftPreCommit)) (threshold : N) (params : DkgParameters)
    : result AntiMevResolutionError (list bytes) :=
  if bool_decide (ciphertexts p e = []) then Ok []
  else
    let? public_key := ok_or public_key MissingPreviousDkgKey in
    map_err (ShareAggregation e)
      (aggregate_and_decrypt_keys_with_parameters (ciphertexts p e) (global_public_key public_key)
         (map (fun '(index, c) => (index, epoch_shares e c)) contributions) threshold
         (scaler params) (participants params)).

(** The first envelope whose position is outside the block. *)
Fixpoint check_indexes (count : N) (l : list AntiMevEnvelope) : result AntiMevResolutionError unit :=
  match l with
  | [] => Ok tt
  | e :: rest =>
      if count <=? transaction_index e then Err (EnvelopeIndexOutOfBounds (transaction_index e) count)
      else check_indexes count rest
  end.

Fixpoint gas_allocations (index previous : N) (receipts : list N) : result AntiMevResolutionError (list N) :=
  match receipts with
  | [] => Ok []
  | current :: rest =>
      let? allocated := ok_or (checked_sub current previous) (NonMonotonicCumulativeGas index previous current) in
      let? more := gas_allocations (index + 1) current rest in
      Ok (allocated :: more)
  end.

Definition resolve_envelope (block : AntiMevPreBlock) (gas : list N) (strict : bool)
    (envelope : AntiMevEnvelope) (key : bytes) : option AntiMevEnvelopeResolution :=
  let i := transaction_index envelope in
  match decrypt_transaction key envelope strict with
  | Err reason => Some (Fallback i reason)
  | Ok t =>
      outer ← pb_transactions block !! N.to_nat i;
      sender ← pb_senders block !! N.to_nat i;
      allocated ← gas !! N.to_nat i;
      match validate_decrypted_transaction envelope t outer sender allocated (pb_parent_base_fee block) with
      | Ok _ => Some (Decrypted i t)
      | Err reason => Some (Fallback i reason)
      end
  end.

(** The keys of each epoch are taken in order. *)
Fixpoint resolve_all (block : AntiMevPreBlock) (gas : list N) (strict : bool) (l : list AntiMevEnvelope)
    (current_keys previous_keys : list bytes) : option (list AntiMevEnvelopeResolution) :=
  match l with
  | [] => Some []
  | envelope :: rest =>
      '(key, current_keys, previous_keys) ←
        match epoch envelope with
        | EpochCurrent =>
            match current_keys with k :: ks => Some (k, ks, previous_keys) | [] => None end
        | EpochPrevious =>
            match previous_keys with k :: ks => Some (k, current_keys, ks) | [] => None end
        end;
      resolution ← resolve_envelope block gas strict envelope key;
      more ← resolve_all block gas strict rest current_keys previous_keys;
      Some (resolution :: more)
  end.

Definition decrypt_and_validate_with_mode (p : AntiMevProposal) (contributions : list (N * DbftPreCommit))
    (dkg_state : DkgState) (threshold : N) (block : AntiMevPreBlock) (strict : bool)
    : result AntiMevResolutionError (list AntiMevEnvelopeResolution) :=
  if negb (Storage.round (current dkg_state) =? proposal_round p)
  then Err (DkgRoundMismatch (proposal_round p) (Storage.round (current dkg_state)))
  else if negb (lenN (pb_transactions block) =? lenN (pb_senders block)) ||
          negb (lenN (pb_transactions block) =? lenN (pb_receipts block))
  then Err (BlockDataLengthMismatch (lenN (pb_transactions block)) (lenN (pb_senders block)) (lenN (pb_receipts block)))
  else
    let? _ := check_indexes (lenN (pb_transactions block)) (envelopes p) in
    let? gas := gas_allocations 0 0 (pb_receipts block) in
    let? current_keys :=
      decrypt_epoch_keys p EpochCurrent (Some (current dkg_state)) contributions threshold (parameters dkg_state) in
    let? previous_keys :=
      decrypt_epoch_keys p EpochPrevious (previous dkg_state) contributions threshold (parameters dkg_state) in
    ok_or (resolve_all block gas strict (envelopes p) current_keys previous_keys) ResolutionPanic.

Definition decrypt_and_validate (p : AntiMevProposal) (contributions : list (N * DbftPreCommit))
    (dkg_state : DkgState) (threshold : N) (block : AntiMevPreBlock)
    : result AntiMevResolutionError (list AntiMevEnvelopeResolution) :=
  decrypt_and_validate_with_mode p contributions dkg_state threshold block false.
End proposal.

(** ** Calldata layout *)

Section layout.
Context {B : Blst}.

Definition envelope_bytes (d : EnvelopeData) : bytes :=
  ENCRYPTED_DATA_PREFIX ++ be_bytes 4 (ed_round d) ++ be_bytes 4 (ed_gas d) ++ ed_hash d ++
  ciphertext_to_bytes (ed_key d) ++ ed_message d.

Record envelope_ok (d : EnvelopeData) : Prop := {
  eo_round : 0 < ed_round d < 2 ^ 32;
  eo_gas : ed_gas d < 2 ^ 32;
  eo_hash : length (ed_hash d) = ENCRYPTED_DATA_HASH_LEN;
  eo_key : ciphertext_decode (ciphertext_to_bytes (ed_key d)) = Ok (ed_key d);
  eo_message : (MIN_ENCRYPTED_MESSAGE_LEN <= length (ed_message d))%nat;
}.

Lemma range_Some a b data : (a <= b <= length data)%nat -> range a b data = Some (slice a b data).
Proof. intros H. unfold range. by rewrite bool_decide_eq_true_2. Qed.

Lemma length_slice {A} a b (l : list A) : (a <= b <= length l)%nat -> length (slice a b l) = (b - a)%nat.
Proof. intros H. unfold slice. rewrite length_take, length_drop. lia. Qed.

Lemma slice_app_skip {A} (l k : list A) n a b :
  length l = n -> slice (n + a) (n + b) (l ++ k) = slice a b k.
Proof.
  intros <-. unfold slice. rewrite <- drop_drop, drop_app_length. f_equal. lia.
Qed.

Lemma slices_split {A} (l : list A) a b : (a <= b <= length l)%nat -> drop a l = slice a b l ++ drop b l.
Proof.
  intros H. unfold slice. rewrite <- (take_drop (b - a) (drop a l)) at 1. f_equal.
  rewrite drop_drop. f_equal. lia.
Qed.

Lemma is_envelope_data_spec data :
  is_envelope_data data = true <->
  (MIN_ENVELOPE_DATA_LEN <= length data)%nat /\ take 4 data = ENCRYPTED_DATA_PREFIX.
Proof.
  unfold is_envelope_data. rewrite andb_true_iff, N.leb_le, bool_decide_eq_true. unfold lenN. split.
  - intros [H [k ->]]. split; [lia|]. done.
  - intros [H E]. split; [lia|]. exists (drop 4 data). rewrite <- E. symmetry. apply take_drop.
Qed.


Lemma length_ciphertext c : ciphertext_decode (ciphertext_to_bytes c) = Ok c -> length (ciphertext_to_bytes c) = TPKE_CIPHERTEXT_LEN.
Proof. intros (_ & H & _)%ciphertext_roundtrip. unfold lenN in H. change TPKE_SERIALIZED_LEN with 192 in H. change TPKE_CIPHERTEXT_LEN with 192%nat. lia. Qed.

Lemma envelope_slices data :
  is_envelope_data data = true ->
  data = ENCRYPTED_DATA_PREFIX ++ slice ROUND_OFFSET GAS_OFFSET data ++ slice GAS_OFFSET HASH_OFFSET data ++
    slice HASH_OFFSET CIPHERTEXT_OFFSET data ++ slice CIPHERTEXT_OFFSET MESSAGE_OFFSET data ++ drop MESSAGE_OFFSET data.
Proof.
  intros [Hl Hp]%is_envelope_data_spec. change MIN_ENVELOPE_DATA_LEN with 348%nat in Hl.
  unfold ROUND_OFFSET, GAS_OFFSET, HASH_OFFSET, CIPHERTEXT_OFFSET, MESSAGE_OFFSET.
  cbn [length ENCRYPTED_DATA_PREFIX repeat ENCRYPTED_DATA_ROUND_LEN ENCRYPTED_DATA_GAS_LEN ENCRYPTED_DATA_HASH_LEN Nat.add].
  change (44 + TPKE_CIPHERTEXT_LEN)%nat with 236%nat.
  rewrite <- (take_drop 4 data) at 1. rewrite Hp. f_equal.
  rewrite (slices_split data 4 8) by lia. f_equal. rewrite (slices_split data 8 12) by lia. f_equal.
  rewrite (slices_split data 12 44) by lia. f_equal. rewrite (slices_split data 44 236) by lia. done.
Qed.

Lemma envelope_decode_eq data :
  is_envelope_data data = true ->
  envelope_decode data =
    let round := N_of_be (slice ROUND_OFFSET GAS_OFFSET data) in
    if round =? 0 then Err ZeroDkgRound
    else
      let? key := map_err EnvelopeTpke (ciphertext_decode (slice CIPHERTEXT_OFFSET MESSAGE_OFFSET data)) in
      Ok (mkEnvelopeData round (N_of_be (slice GAS_OFFSET HASH_OFFSET data))
            (slice HASH_OFFSET CIPHERTEXT_OFFSET data) key (drop MESSAGE_OFFSET data)).
Proof.
  intros H. unfold envelope_decode, encrypted_gas, encrypted_hash. rewrite H. cbn [negb].
  apply is_envelope_data_spec in H as [Hl _]. change MIN_ENVELOPE_DATA_LEN with 348%nat in Hl.
  change ROUND_OFFSET with 4%nat. change GAS_OFFSET with 8%nat. change HASH_OFFSET with 12%nat.
  change CIPHERTEXT_OFFSET with 44%nat. change MESSAGE_OFFSET with 236%nat.
  rewrite !range_Some by lia. cbn [fmap option_fmap option_map ok_or result_bind]. cbv zeta.
  destruct (N_of_be (slice 4 8 data) =? 0); [done|].
  destruct (ciphertext_decode (slice 44 236 data)) as [key|e]; [|done]. cbn [map_err result_bind].
  unfold slice at 4. rewrite take_ge by (rewrite length_drop; lia). done.
Qed.

Lemma be_bytes_slice data a b n :
  (a <= b <= length data)%nat -> (b - a)%nat = n -> be_bytes n (N_of_be (slice a b data)) = slice a b data.
Proof. intros H <-. rewrite <- (length_slice a b data) by done. apply be_bytes_of_be. Qed.

Lemma le_bytes_slice data a b n :
  (a <= b <= length data)%nat -> (b - a)%nat = n -> le_bytes n (N_of_le (slice a b data)) = slice a b data.
Proof. intros H <-. rewrite <- (length_slice a b data) by done. apply le_bytes_of_le. Qed.

Lemma N_of_be_bound b : N_of_be b < 256 ^ lenN b.
Proof. unfold N_of_be. pose proof (N_of_le_bound (rev b)) as H. unfold lenN in *. by rewrite length_rev in H. Qed.

Lemma envelope_decode_Ok data d :
  envelope_decode data = Ok d -> data = envelope_bytes d /\ envelope_ok d.
Proof.
  intros H. destruct (is_envelope_data data) eqn:He; [|unfold envelope_decode in H; by rewrite He in H].
  rewrite envelope_decode_eq in H by done. pose proof (envelope_slices data He) as Hs.
  apply is_envelope_data_spec in He as [Hl _]. change MIN_ENVELOPE_DATA_LEN with 348%nat in Hl. cbv zeta in H.
  change ROUND_OFFSET with 4%nat in *. change GAS_OFFSET with 8%nat in *. change HASH_OFFSET with 12%nat in *.
  change CIPHERTEXT_OFFSET with 44%nat in *. change MESSAGE_OFFSET with 236%nat in *.
  destruct (N.eqb_spec (N_of_be (slice 4 8 data)) 0) as [|Hr]; [done|].
  apply result_bind_Ok in H as (key & Hk%map_err_Ok & [= <-]).
  pose proof (ciphertext_roundtrip _ _ Hk) as (Ek & Hkl & Hkd). split.
  - unfold envelope_bytes. cbn [ed_round ed_gas ed_hash ed_key ed_message].
    rewrite Ek, !be_bytes_slice by lia. exact Hs.
  - constructor; cbn [ed_round ed_gas ed_hash ed_key ed_message].
    + pose proof (N_of_be_bound (slice 4 8 data)) as Hb. unfold lenN in Hb.
      rewrite length_slice in Hb by lia. change (256 ^ N.of_nat (8 - 4)) with (2 ^ 32) in Hb. lia.
    + pose proof (N_of_be_bound (slice 8 12 data)) as Hb. unfold lenN in Hb.
      rewrite length_slice in Hb by lia. exact Hb.
    + rewrite length_slice by lia. done.
    + done.
    + rewrite length_drop. unfold MIN_ENCRYPTED_MESSAGE_LEN. lia.
Qed.

Lemma envelope_bytes_slices d :
  envelope_ok d ->
  let data := envelope_bytes d in
  is_envelope_data data = true /\
  slice ROUND_OFFSET GAS_OFFSET data = be_bytes 4 (ed_round d) /\
  slice GAS_OFFSET HASH_OFFSET data = be_bytes 4 (ed_gas d) /\
  slice HASH_OFFSET CIPHERTEXT_OFFSET data = ed_hash d /\
  slice CIPHERTEXT_OFFSET MESSAGE_OFFSET data = ciphertext_to_bytes (ed_key d) /\
  drop MESSAGE_OFFSET data = ed_message d.
Proof.
  intros [H1 H2 H3 H4 H5] data. pose proof (length_ciphertext _ H4) as H6.
  assert (Hr : length (be_bytes 4 (ed_round d)) = 4%nat) by apply length_be_bytes.
  assert (Hg : length (be_bytes 4 (ed_gas d)) = 4%nat) by apply length_be_bytes.
  change ENCRYPTED_DATA_HASH_LEN with 32%nat in H3. change TPKE_CIPHERTEXT_LEN with 192%nat in H6.
  change MIN_ENCRYPTED_MESSAGE_LEN with 112%nat in H5.
  unfold data, envelope_bytes. split_and!.
  - apply is_envelope_data_spec. split; [|done]. rewrite !length_app.
    change MIN_ENVELOPE_DATA_LEN with 348%nat. change (length ENCRYPTED_DATA_PREFIX) with 4%nat. lia.
  - change GAS_OFFSET with (ROUND_OFFSET + 4)%nat. change ROUND_OFFSET with (4 + 0)%nat.
    rewrite <- Nat.add_assoc, slice_app_skip by done. by apply slice_app_here.
  - change HASH_OFFSET with (4 + (4 + 4))%nat. change GAS_OFFSET with (4 + (4 + 0))%nat.
    rewrite !slice_app_skip by done. by apply slice_app_here.
  - change CIPHERTEXT_OFFSET with (4 + (4 + (4 + 32)))%nat. change HASH_OFFSET with (4 + (4 + (4 + 0)))%nat.
    rewrite !slice_app_skip by done. by apply slice_app_here.
  - change MESSAGE_OFFSET with (4 + (4 + (4 + (32 + 192))))%nat.
    change CIPHERTEXT_OFFSET with (4 + (4 + (4 + (32 + 0))))%nat.
    rewrite !slice_app_skip by done. by apply slice_app_here.
  - rewrite !app_assoc. apply drop_app_length'. rewrite !length_app.
    change MESSAGE_OFFSET with 236%nat. change (length ENCRYPTED_DATA_PREFIX) with 4%nat. lia.
Qed.

(** Envelope calldata is canonical: no calldata makes the decoder panic, it accepts exactly
    the layouts of well-formed Envelopes, and returns the Envelope laid out. *)
Theorem envelope_decode_iff data d :
  envelope_decode data <> Err EnvelopePanic /\
  (envelope_decode data = Ok d <-> data = envelope_bytes d /\ envelope_ok d).
Proof.
  split.
  - destruct (is_envelope_data data) eqn:He; [|unfold envelope_decode; by rewrite He].
    rewrite envelope_decode_eq by done. cbv zeta. destruct (_ =? 0); [done|].
    by destruct (ciphertext_decode _).
  - split; [apply envelope_decode_Ok|]. intros [-> Hok].
    destruct (envelope_bytes_slices d Hok) as (E0 & E1 & E2 & E3 & E4 & E5).
    rewrite envelope_decode_eq by done. rewrite E1, E2, E3, E4, E5. cbv zeta.
    destruct Hok as [H1 H2 H3 H4 H5].
    rewrite !N_of_be_bytes by (change (256 ^ N.of_nat 4) with (2 ^ 32); lia).
    destruct (N.eqb_spec (ed_round d) 0); [lia|]. rewrite H4. by destruct d.
Qed.
End layout.

(** ** Share packets *)

Section packets.
Context {B : Blst}.

Lemma encode_pack current previous d :
  encode_decryption_shares current previous = Ok d <->
  d = pack current previous /\ lenN current + lenN previous <= MAX_DECRYPTION_SHARES_PER_BLOCK.
Proof.
  unfold encode_decryption_shares, pack. rewrite concat_app.
  unfold MAX_DECRYPTION_SHARES_PER_BLOCK, checked_add, USIZE_MAX, U64_MAX, U32_MAX.
  destruct (N.leb_spec (lenN current + lenN previous) (2 ^ 64 - 1)); cbn [ok_or result_bind].
  - destruct (N.ltb_spec 1000 (lenN current + lenN previous)); [split; [done|lia]|].
    destruct (N.ltb_spec (2 ^ 32 - 1) (lenN current)); [lia|].
    destruct (N.ltb_spec (2 ^ 32 - 1) (lenN previous)); [lia|]. split; [by intros [= <-]|by intros [-> _]].
  - split; [done|lia].
Qed.

Lemma take_shares_Ok n b shares rest :
  take_shares n b = Ok (shares, rest) <->
  b = concat shares ++ rest /\ length shares = n /\ Forall valid_share shares.
Proof.
  revert b shares rest. induction n as [|n IH]; intros b shares rest; cbn [take_shares].
  - split; [by intros [= <- <-]|]. intros (-> & ->%nil_length_inv & _). done.
  - split.
    + intros H. apply result_bind_Ok in H as (s & Hs%map_err_Ok & H).
      apply result_bind_Ok in H as ([l r] & Hl & [= <- <-]). apply IH in Hl as (E & <- & Hv).
      assert (Hvs : valid_share s /\ s = take (N.to_nat DECRYPTION_SHARE_LEN) b).
      { unfold valid_share, decryption_share_decode in *. destruct (negb _) eqn:En; [done|].
        pose proof Hs as Hs'. apply result_bind_Ok in Hs' as (p & Hp & [= <-]). by rewrite En, Hp. }
      destruct Hvs as [Hvs ->]. split_and!; [|done|by constructor].
      cbn [concat]. rewrite <- app_assoc, <- E. symmetry. apply take_drop.
    + intros (-> & Hl & Hv). destruct shares as [|s shares]; [done|]. inversion_clear Hv as [|? ? Hs Hr].
      cbn [concat]. rewrite <- app_assoc.
      rewrite take_app_length', drop_app_length' by (symmetry; by apply valid_share_length).
      unfold valid_share in Hs. rewrite Hs. cbn [map_err result_bind].
      rewrite (proj2 (IH (concat shares ++ rest) shares rest)) by (split_and!; [done|simpl in Hl; lia|done]).
      done.
Qed.

Lemma decode_shares_pack d current previous :
  decode_decryption_shares d = Ok (current, previous) <->
  d = pack current previous /\ Forall valid_share current /\ Forall valid_share previous /\
  lenN current + lenN previous <= MAX_DECRYPTION_SHARES_PER_BLOCK.
Proof.
  split.
  - unfold decode_decryption_shares. destruct (N.ltb_spec (lenN d) SHARE_COUNTS_LEN) as [|Hl]; [done|].
    intros H. apply checked_add_bind_Ok in H as [_ H].
    destruct (N.ltb_spec MAX_DECRYPTION_SHARES_PER_BLOCK (N_of_le (slice 0 4 d) + N_of_le (slice 4 8 d))) as [|Hm];
      [done|].
    destruct (N.eqb_spec (lenN d) (SHARE_COUNTS_LEN +
      (N_of_le (slice 0 4 d) + N_of_le (slice 4 8 d)) * DECRYPTION_SHARE_LEN)) as [He|]; [|done]. cbn [negb] in H.
    apply result_bind_Ok in H as ([c r] & Hc%take_shares_Ok & H).
    apply result_bind_Ok in H as ([p r'] & Hp%take_shares_Ok & [= <- <-]).
    destruct Hc as (Ec & Lc & Vc), Hp as (-> & Lp & Vp).
    assert (Hcl : forall l, Forall valid_share l -> length (concat l) = (length l * N.to_nat DECRYPTION_SHARE_LEN)%nat).
    { intros l Hv. apply length_concat_const. eapply Forall_impl; [exact Hv|]. apply valid_share_length. }
    assert (Hd : length (drop 8 d) = (length (concat c) + length (concat p) + length r')%nat)
      by (rewrite Ec, !length_app; lia).
    rewrite length_drop, (Hcl c Vc), (Hcl p Vp), Lc, Lp in Hd. unfold lenN in He.
    change SHARE_COUNTS_LEN with 8 in *. unfold lenN in Hl.
    assert (r' = []) as ->. { apply nil_length_inv. clear -Hd He Hl. change DECRYPTION_SHARE_LEN with 48 in *. lia. }
    rewrite app_nil_r in Ec. split_and!; [|done|done|unfold lenN; lia].
    unfold pack, lenN. rewrite Lc, Lp, !N2Nat.id, <- Ec, !le_bytes_slice by lia.
    rewrite <- (slices_split d 4 8) by lia. unfold slice. by rewrite drop_0, take_drop.
  - intros (-> & Vc & Vp & Hm). unfold MAX_DECRYPTION_SHARES_PER_BLOCK in Hm.
    destruct (pack_slices current previous) as (E1 & E2 & E3); [unfold U32_MAX; lia..|].
    unfold decode_decryption_shares. rewrite (lenN_pack _ _ Vc Vp), E1, E2, E3.
    change PRECOMMIT_COUNT_PREFIX_LEN with SHARE_COUNTS_LEN.
    destruct (N.ltb_spec (SHARE_COUNTS_LEN + (lenN current + lenN previous) * DECRYPTION_SHARE_LEN) SHARE_COUNTS_LEN); [lia|].
    unfold checked_add. rewrite (proj2 (N.leb_le _ _)) by (unfold USIZE_MAX, U64_MAX; lia). cbn [ok_or result_bind].
    rewrite (proj2 (N.ltb_ge _ _)) by done. rewrite N.eqb_refl. cbn [negb].
    rewrite (proj2 (take_shares_Ok (N.to_nat (lenN current)) (concat (current ++ previous)) current (concat previous)))
      by (split_and!; [apply concat_app|unfold lenN; lia|done]). cbn [result_bind].
    by rewrite (proj2 (take_shares_Ok (N.to_nat (lenN previous)) (concat previous) previous []))
      by (split_and!; [by rewrite app_nil_r|unfold lenN; lia|done]).
Qed.

(** The two share decoders agree: the codec of the antimev crate accepts a packet exactly
    when the network crate's [DbftPreCommit::from_data] does, with the same shares; and
    what a validator encodes from at most 1000 valid shares decodes in both. *)
Theorem share_decoders_agree d current previous :
  (decode_decryption_shares d = Ok (current, previous) <->
   from_data d = Ok (mkDbftPreCommit current previous d)) /\
  (encode_decryption_shares current previous = Ok d ->
   Forall valid_share current -> Forall valid_share previous ->
   decode_decryption_shares d = Ok (current, previous)).
Proof.
  split.
  - rewrite decode_shares_pack, from_data_Ok. naive_solver.
  - intros [-> Hm]%encode_pack Vc Vp. by apply decode_shares_pack.
Qed.
End packets.

(** ** Resolution *)

Section resolution.
Context {B : Blst} {Y : Symmetric} {X : SignedTransactions}.

(** What may replace an Envelope: a transaction its ciphertext decrypts to, of the same
    sender and nonce, paying no lower tip, with the committed hash and gas, which the
    Envelope already paid for. *)
Definition replaces (block : AntiMevPreBlock) (gas : list N) (strict : bool) (e : AntiMevEnvelope) (t : eth_tx)
    : Prop :=
  exists key outer sender allocated,
    decrypt_transaction key e strict = Ok t /\
    pb_transactions block !! N.to_nat (transaction_index e) = Some outer /\
    pb_senders block !! N.to_nat (transaction_index e) = Some sender /\
    gas !! N.to_nat (transaction_index e) = Some allocated /\
    tx_ty t <> TX_TYPE_EIP4844 /\ tx_nonce t = tx_nonce outer /\ recover_signer t = Some sender /\
    eth_tx_hash t = env_hash e /\ tx_gas_limit t = env_gas e /\ tx_gas_limit t <= allocated /\
    (signed_effective_tip outer (pb_parent_base_fee block) <= signed_effective_tip t (pb_parent_base_fee block))%Z.

Definition resolves (block : AntiMevPreBlock) (gas : list N) (strict : bool) (e : AntiMevEnvelope)
    (r : AntiMevEnvelopeResolution) : Prop :=
  match r with
  | Decrypted i t => i = transaction_index e /\ replaces block gas strict e t
  | Fallback i _ => i = transaction_index e
  end.

Lemma validate_decrypted_Ok e t outer sender allocated fee :
  validate_decrypted_transaction e t outer sender allocated fee = Ok tt ->
  tx_ty t <> TX_TYPE_EIP4844 /\ tx_nonce t = tx_nonce outer /\ recover_signer t = Some sender /\
  eth_tx_hash t = env_hash e /\ tx_gas_limit t = env_gas e /\ tx_gas_limit t <= allocated /\
  (signed_effective_tip outer fee <= signed_effective_tip t fee)%Z.
Proof.
  unfold validate_decrypted_transaction. destruct (N.eqb_spec (tx_ty t) TX_TYPE_EIP4844); [done|].
  destruct (N.eqb_spec (tx_nonce t) (tx_nonce outer)); [|done]. cbn [negb].
  destruct (Z.ltb_spec (signed_effective_tip t fee) (signed_effective_tip outer fee)); [done|].
  destruct (recover_signer t) as [s|]; [|done]. cbn [ok_or result_bind].
  case_bool_decide as Hs; [|done]. case_bool_decide; [|done]. cbn [negb].
  destruct (N.eqb_spec (tx_gas_limit t) (env_gas e)); [|done]. cbn [negb].
  destruct (N.ltb_spec allocated (tx_gas_limit t)); [done|]. subst. do 6 (split; [done|]). done.
Qed.

Lemma check_indexes_Ok count l :
  check_indexes count l = Ok tt -> Forall (fun e => transaction_index e < count) l.
Proof.
  induction l as [|e l IH]; simpl; [constructor|].
  destruct (N.leb_spec count (transaction_index e)); [done|]. intros H'. constructor; [done|by apply IH].
Qed.

Lemma check_indexes_panic count l e : check_indexes count l = Err e -> e <> ResolutionPanic.
Proof. induction l as [|x l IH]; simpl; [done|]. destruct (_ <=? _); [by intros [= <-]|done]. Qed.

Lemma gas_allocations_Ok i p receipts gas : gas_allocations i p receipts = Ok gas -> length gas = length receipts.
Proof.
  revert i p gas. induction receipts as [|c receipts IH]; intros i p gas; simpl; [by intros [= <-]|].
  intros H. apply result_bind_Ok in H as (a & _ & H). apply result_bind_Ok in H as (l & Hl & [= <-]).
  simpl. f_equal. by eapply IH.
Qed.

Lemma gas_allocations_panic i p receipts e : gas_allocations i p receipts = Err e -> e <> ResolutionPanic.
Proof.
  revert i p. induction receipts as [|c receipts IH]; intros i p; simpl; [done|].
  destruct (checked_sub c p); simpl; [|by intros [= <-]].
  destruct (gas_allocations (i + 1) c receipts) eqn:E; simpl; [done|]. intros [= <-]. by eapply IH.
Qed.

(** As many keys as ciphertexts. *)
Lemma epoch_keys_length p e pk contributions threshold params keys :
  decrypt_epoch_keys p e pk contributions threshold params = Ok keys ->
  length keys = length (filter (fun v => epoch v = e) (envelopes p)).
Proof.
  unfold decrypt_epoch_keys, ciphertexts. case_bool_decide as Hn.
  - apply map_eq_nil in Hn. rewrite Hn. by intros [= <-].
  - destruct pk as [pk|]; [|done]. cbn [ok_or result_bind]. intros H%map_err_Ok.
    rewrite <- (length_map encrypted_key). revert H.
    unfold aggregate_and_decrypt_keys_with_parameters, aggregate_and_decrypt_keys_with_limit.
    destruct (map encrypted_key _) as [|c cts]; [done|].
    destruct (_ || _); [done|]. destruct (_ <? _); [done|]. intros H. bind_inv.
    destruct (decode_g1 _ _) as [g|]; [|done]. apply ok_or_Ok, first_some_Some in H as (positions & _ & H).
    by apply decrypt_all_Some in H as [? _].
Qed.

Lemma epoch_keys_panic p e pk contributions threshold params x :
  decrypt_epoch_keys p e pk contributions threshold params = Err x -> x <> ResolutionPanic.
Proof.
  unfold decrypt_epoch_keys. case_bool_decide; [done|]. destruct pk; simpl; [|by intros [= <-]].
  destruct (aggregate_and_decrypt_keys_with_parameters _ _ _ _ _ _); simpl; [done|]. by intros [= <-].
Qed.

Lemma resolve_envelope_ok block gas strict e key :
  transaction_index e < lenN (pb_transactions block) ->
  length (pb_senders block) = length (pb_transactions block) -> length gas = length (pb_transactions block) ->
  exists r, resolve_envelope block gas strict e key = Some r /\ resolves block gas strict e r.
Proof.
  intros Hi Hs Hg. unfold resolve_envelope. destruct (decrypt_transaction key e strict) as [t|reason] eqn:Ed;
    [|by eexists]. unfold lenN in Hi.
  destruct (lookup_lt_is_Some_2 (pb_transactions block) (N.to_nat (transaction_index e))) as [outer Ho]; [lia|].
  destruct (lookup_lt_is_Some_2 (pb_senders block) (N.to_nat (transaction_index e))) as [sender Hse]; [lia|].
  destruct (lookup_lt_is_Some_2 gas (N.to_nat (transaction_index e))) as [allocated Ha]; [lia|].
  rewrite Ho, Hse, Ha. cbn [mbind option_bind].
  destruct (validate_decrypted_transaction _ _ _ _ _ _) as [[]|reason] eqn:Ev; [|by eexists].
  eexists. split; [done|]. split; [done|]. exists key, outer, sender, allocated.
  apply validate_decrypted_Ok in Ev. tauto.
Qed.

Lemma resolve_all_ok block gas strict l current previous :
  Forall (fun e => transaction_index e < lenN (pb_transactions block)) l ->
  length (pb_senders block) = length (pb_transactions block) -> length gas = length (pb_transactions block) ->
  length current = length (filter (fun v => epoch v = EpochCurrent) l) ->
  length previous = length (filter (fun v => epoch v = EpochPrevious) l) ->
  exists rs, resolve_all block gas strict l current previous = Some rs /\ Forall2 (resolves block gas strict) l rs.
Proof.
  intros Hi Hs Hg. revert current previous. induction Hi as [|e l He _ IH]; intros current previous Hc Hp;
    cbn [resolve_all]; [by exists []|]. rewrite !filter_cons in Hc, Hp.
  assert (exists key cur prev,
    match epoch e with
    | EpochCurrent => match current with k :: ks => Some (k, ks, previous) | [] => None end
    | EpochPrevious => match previous with k :: ks => Some (k, current, ks) | [] => None end
    end = Some (key, cur, prev) /\
    length cur = length (filter (fun v => epoch v = EpochCurrent) l) /\
    length prev = length (filter (fun v => epoch v = EpochPrevious) l)) as (key & cur & prev & E & H1 & H2).
  { destruct (epoch e); repeat case_decide; try done.
    - destruct current as [|k ks]; [done|]. exists k, ks, previous. simpl in Hc. split_and!; [done|lia|done].
    - destruct previous as [|k ks]; [done|]. exists k, current, ks. simpl in Hp. split_and!; [done|done|lia]. }
  rewrite E. cbn [mbind option_bind].
  destruct (resolve_envelope_ok block gas strict e key He Hs Hg) as (r & -> & Hr). cbn [mbind option_bind].
  destruct (IH cur prev H1 H2) as (rs & -> & Hrs). cbn [mbind option_bind].
  exists (r :: rs). split; [done|by constructor].
Qed.

(** Envelope resolution is safe: whatever shares, DKG state and pre-block it is given, it
    never indexes out of range, and it resolves every Envelope in order, either to its
    outer transaction or to a transaction that its ciphertext decrypts to and that matches
    the Envelope's sender, nonce, committed hash and committed gas, within the gas the
    Envelope used, at no lower effective tip. *)
Theorem antimev_resolution p contributions dkg_state threshold block strict :
  match decrypt_and_validate_with_mode p contributions dkg_state threshold block strict with
  | Ok rs => exists gas, gas_allocations 0 0 (pb_receipts block) = Ok gas /\
      Forall2 (resolves block gas strict) (envelopes p) rs
  | Err e => e <> ResolutionPanic
  end.
Proof.
  unfold decrypt_and_validate_with_mode. destruct (negb _); [done|].
  destruct (N.eqb_spec (lenN (pb_transactions block)) (lenN (pb_senders block))) as [Hs|]; [|done].
  destruct (N.eqb_spec (lenN (pb_transactions block)) (lenN (pb_receipts block))) as [Hr|]; [|done]. cbn [negb orb].
  destruct (check_indexes _ _) as [[]|] eqn:Ei; cbn [result_bind]; [|by eapply check_indexes_panic].
  destruct (gas_allocations 0 0 _) as [gas|] eqn:Eg; cbn [result_bind]; [|by eapply gas_allocations_panic].
  destruct (decrypt_epoch_keys p EpochCurrent _ _ _ _) as [cur|] eqn:Ec; cbn [result_bind];
    [|by eapply epoch_keys_panic].
  destruct (decrypt_epoch_keys p EpochPrevious _ _ _ _) as [prev|] eqn:Ep; cbn [result_bind];
    [|by eapply epoch_keys_panic].
  apply check_indexes_Ok in Ei. pose proof (gas_allocations_Ok _ _ _ _ Eg).
  apply epoch_keys_length in Ec, Ep. unfold lenN in Hs, Hr.
  destruct (resolve_all_ok block gas strict (envelopes p) cur prev) as (rs & -> & H2); try done; [lia|lia|].
  by exists gas.
Qed.
End resolution.

(** ** Discovery *)

Section discovery.
Context {B : Blst} {Y : Symmetric} {X : SignedTransactions}.

(** The Envelope a transaction at position [i] is, if it is a valid one. *)
Definition envelope_of (current_round i : N) (t : eth_tx) : option AntiMevEnvelope :=
  if is_envelope (tx_ty t) (tx_to t) (tx_input t) then
    match envelope_decode (tx_input t) with
    | Ok d =>
        if (1 <=? ed_round d) && (ed_round d <=? current_round)
        then Some (mkAntiMevEnvelope i (if ed_round d =? current_round then EpochCurrent else EpochPrevious)
                     (ed_round d) (ed_gas d) (ed_hash d) (ed_key d) (ed_message d))
        else None
    | Err _ => None
    end
  else None.

Lemma discover_Ok i txs r l :
  discover i txs r = Ok l ->
  l = omap id (imap (fun k t => envelope_of r (i + N.of_nat k) t) txs) /\
  Forall (fun e => ciphertext_verify (encrypted_key e) = Ok tt) l.
Proof.
  revert i l. induction txs as [|t txs IH]; intros i l; cbn [discover].
  { intros [= <-]. by split. }
  assert (Hrest : forall l', discover (i + 1) txs r = Ok l' ->
    l' = omap id (imap (fun k t => envelope_of r (i + N.of_nat (S k)) t) txs) /\
    Forall (fun e => ciphertext_verify (encrypted_key e) = Ok tt) l').
  { intros l' Hl. apply IH in Hl as [-> Hv]. split; [|done]. f_equal. apply imap_ext. intros k x _.
    f_equal. lia. }
  rewrite imap_cons. cbn [omap list_omap]. unfold id at 1, envelope_of at 1.
  replace (i + N.of_nat 0) with i by lia.
  destruct (is_envelope (tx_ty t) (tx_to t) (tx_input t)); cbn [negb]; [|apply Hrest].
  destruct (envelope_decode (tx_input t)) as [d|]; [|apply Hrest].
  destruct (N.eqb_spec (ed_round d) 0) as [E0|E0]; cbn [orb].
  { rewrite E0. cbn [N.leb N.compare andb]. apply Hrest. }
  destruct (N.leb_spec 1 (ed_round d)); [|lia]. cbn [andb].
  destruct (N.ltb_spec r (ed_round d)), (N.leb_spec (ed_round d) r); try lia; [apply Hrest|].
  intros Hd. apply result_bind_Ok in Hd as ([] & Hv%map_err_Ok & Hd).
  apply result_bind_Ok in Hd as (more & Hm & [= <-]). apply Hrest in Hm as [-> Hf].
  split; [done|]. by constructor.
Qed.

Lemma omap_imap_elem {A C} (f : nat -> A -> option C) l c :
  c ∈ omap id (imap f l) <-> exists k a, l !! k = Some a /\ f k a = Some c.
Proof.
  rewrite list_elem_of_omap. split.
  - intros (o & [k Hk]%list_elem_of_lookup_1 & Ho). unfold id in Ho. subst o. rewrite list_lookup_imap in Hk.
    destruct (l !! k) as [a|] eqn:E; [|done]. injection Hk as Hk. by exists k, a.
  - intros (k & a & E & Hf). exists (Some c). split; [|done].
    apply (list_elem_of_lookup_2 _ k). by rewrite list_lookup_imap, E, <- Hf.
Qed.

Lemma omap_imap_sorted {A C} (f : nat -> A -> option C) (pos : C -> N) l :
  (forall k a c, f k a = Some c -> pos c = N.of_nat k) ->
  StronglySorted N.lt (map pos (omap id (imap f l))).
Proof.
  intros Hf. cut (forall off, (forall k a c, f k a = Some c -> pos c = off + N.of_nat k) ->
    StronglySorted N.lt (map pos (omap id (imap f l))) /\ Forall (fun p => off <= p) (map pos (omap id (imap f l)))).
  { intros Hc. by apply (Hc 0). }
  clear Hf. revert f. induction l as [|a l IH]; intros f off Hf; [by split; constructor|].
  rewrite imap_cons. destruct (IH (f ∘ S) (off + 1)) as [Hs Hp].
  { intros k x c Hc. rewrite (Hf _ _ _ Hc). lia. }
  assert (Hp' : Forall (fun p => off <= p) (map pos (omap id (imap (f ∘ S) l))))
    by (eapply Forall_impl; [exact Hp|]; intros p Hle; simpl in Hle; lia).
  cbn [omap list_omap]. unfold id at 1 3. destruct (f 0%nat a) as [c|] eqn:E; [|by split].
  cbn [map]. pose proof (Hf _ _ _ E). split.
  - constructor; [done|]. eapply Forall_impl; [exact Hp|]. intros p Hle. simpl in Hle. lia.
  - constructor; [lia|done].
Qed.

Lemma envelope_of_index r i t e : envelope_of r i t = Some e -> transaction_index e = i.
Proof. unfold envelope_of. repeat case_match; intros [= <-]; done. Qed.

Lemma epochs_partition (l : list AntiMevEnvelope) :
  (length (filter (fun v => epoch v = EpochCurrent) l) +
    length (filter (fun v => epoch v = EpochPrevious) l))%nat = length l.
Proof.
  induction l as [|e l IH]; [done|]. rewrite !filter_cons. destruct (epoch e); repeat case_decide; try done; simpl; lia.
Qed.

(** Discovery is exact: the Envelopes found are, in block order, exactly the transactions
    that carry well-formed Envelope calldata of a round from 1 to the current one; their
    ciphertexts verify; and the two epochs split them, so that a share for every ciphertext
    of both epochs is one share per Envelope. *)
Theorem antimev_discovery txs round p :
  from_transactions txs round = Ok p ->
  proposal_round p = round /\
  (forall e, e ∈ envelopes p <-> exists k t, txs !! k = Some t /\ envelope_of round (N.of_nat k) t = Some e) /\
  StronglySorted N.lt (map transaction_index (envelopes p)) /\
  Forall (fun e => ciphertext_verify (encrypted_key e) = Ok tt) (envelopes p) /\
  lenN (ciphertexts p EpochCurrent) + lenN (ciphertexts p EpochPrevious) = antimev_len p.
Proof.
  unfold from_transactions. intros H. apply result_bind_Ok in H as (l & Hl & [= <-]).
  apply discover_Ok in Hl as [-> Hv]. cbn [proposal_round envelopes]. split_and!; [done| | |done|].
  - intros e. apply omap_imap_elem.
  - apply omap_imap_sorted. intros k t e He%envelope_of_index. by rewrite He.
  - unfold ciphertexts, antimev_len, lenN. cbn [envelopes]. rewrite !length_map.
    rewrite <- (epochs_partition (omap id _)). lia.
Qed.
End discovery.

(** ** Concrete inputs *)

Module AntiMevWitness.
#[local] Existing Instance model_blst.
#[local] Existing Instance model_symmetric.

(** Dynamic-fee transactions to the Envelope target, given by their calldata. *)
#[local] Instance calldata_transactions : SignedTransactions := {|
  eth_tx := bytes; tx_ty _ := 2; tx_to _ := Some ENVELOPE_TARGET; tx_input d := d; tx_nonce _ := 0;
  max_fee_per_gas _ := 1; priority_fee_or_price _ := 1; tx_gas_limit _ := 21000;
  recover_signer _ := None; eth_tx_hash _ := ZERO_B256; decode_2718_exact _ := None |}.

Definition calldata : eth_tx := repeat xff 4 ++ be_bytes 4 3 ++ be_bytes 4 21000 ++ repeat x00 336.
Definition plain : eth_tx := [].
Definition block : list eth_tx := [plain; calldata].

Lemma antimev_discovery_witness :
  exists p, from_transactions block 3 = Ok p /\
    lenN (ciphertexts p EpochCurrent) + lenN (ciphertexts p EpochPrevious) = antimev_len p.
Proof.
  destruct (from_transactions block 3) as [p|e] eqn:E; [|vm_compute in E; discriminate].
  exists p. split; [done|]. by apply (antimev_discovery block 3 p).
Defined.
End AntiMevWitness.
