(* ===== verification/StaticPool.v ===== *)
(** The reference client's scratch pool (crates/neox/node/src/reconstruction.rs): the
    admission rules every proposal transaction and every reconstructed transaction
    passes, against the parent's header and state. *)

From S2P Require Import Prelude Extern Instances Tpke DkgParams Storage AntiMev.

(** ** What alloy says of a signed transaction *)

(** [alloy_consensus::Transaction] beyond the fields Envelope discovery reads. *)
Class TransactionDetails (X : SignedTransactions) : Type := {
  authorization : Type;
  recover_authority : authorization -> option Address;
  encode_2718_len : eth_tx -> N;
  is_create : eth_tx -> bool;
  max_priority_fee_per_gas : eth_tx -> option N;
  tx_value : eth_tx -> U256;
  (** the number of addresses and of storage keys *)
  access_list : eth_tx -> option (N * N);
  authorization_list : eth_tx -> option (list authorization);
  blob_count : eth_tx -> option N;
  blob_gas_used_by : eth_tx -> option N;
}.

Class TransactionDetailsLaws {X : SignedTransactions} (D : TransactionDetails X) : Prop := {
  (** a transaction without a priority fee pays its gas price *)
  priority_fee_or_price_law t :
    priority_fee_or_price t = default (max_fee_per_gas t) (max_priority_fee_per_gas t);
  (** only blob transactions count blobs or use blob gas *)
  blob_count_law t : is_Some (blob_count t) <-> tx_ty t = TX_TYPE_EIP4844;
  blob_gas_law t : is_Some (blob_gas_used_by t) <-> tx_ty t = TX_TYPE_EIP4844;
}.

(** The Ethereum forks the pool distinguishes. *)
Inductive SpecFork : Type := BERLIN | LONDON | SHANGHAI | PRAGUE | OSAKA | AMSTERDAM.

(** revm: the specification at a header and the intrinsic gas of a transaction. *)
Class Revm : Type := {
  SpecId : Type;
  is_enabled_in : SpecId -> SpecFork -> bool;
  EIP7954_MAX_INITCODE_SIZE : N;
  EIP3860_MAX_INITCODE_SIZE : N;
  TX_GAS_LIMIT_CAP : N;
  (** input, creation, access-list addresses and keys, authorizations, and the value and
      self-transfer flag of EIP-2780; the initial total gas and the floor gas *)
  calculate_initial_tx_gas : SpecId -> bytes -> bool -> N -> N -> N -> option (U256 * bool) -> N * N;
}.

(** [StateProvider] *)
Record Account : Type := mkAccount {
  acct_nonce : N;
  acct_balance : U256;
  has_bytecode : bool;
}.

Record StateProvider : Type := mkStateProvider {
  provider_storage : Address -> B256 -> result string (option U256);
  basic_account : Address -> result string (option Account);
}.

(** ** Static rules *)

Definition STATIC_POOL_MAX_TX_SIZE : N := 4 * 32 * 1024.
Definition STATIC_POOL_MIN_TIP : N := 1.
Definition STATIC_POOL_PRICE_BUMP : N := 10.
Definition MIN_ENCRYPTED_GAS_LIMIT : N := 21000.

(** [PoolPanic] stands for the [expect] of the account preload and for the slice of
    [encrypted_gas]. *)
Inductive StaticPoolRejection : Type :=
| BlobTransaction
| TypeNotActive (ty : N)
| EmptySetCodeAuthorizations
| InitCodeTooLarge (size limit : N)
| GasLimitAboveTxCap (gas_limit : N)
| TipAboveFeeCap
| NonceMax
| IntrinsicGas (gas_limit required : N)
| Oversized (size : N)
| GasLimitAboveParent (gas_limit parent_gas_limit : N)
| TipTooLow (tip : N)
| AlreadyKnown
| NonceTooLow (nonce next : N)
| EnvelopeGasAbovePolicy (gas_limit : N) (maximum_gas : U256)
| EncryptedGasBelowMinimum (inner_gas : N)
| EnvelopeGasBelowEncrypted (gas_limit inner_gas : N)
| TipBelowPolicy (minimum_tip base_fee : U256)
| BlockedSender
| InsufficientFunds (cost balance : U256)
| DelegatedNonceGap (nonce next : N)
| AuthorityReserved (authority : Address)
| ReplaceUnderpriced (nonce : N)
| PoolPanic.

Record StaticPoolHead `{Revm} : Type := mkStaticPoolHead {
  head_gas_limit : N;
  head_spec : SpecId;
}.

Section static.
Context {X : SignedTransactions} {D : TransactionDetails X} {V : Revm}.

Definition reject (b : bool) (e : StaticPoolRejection) : result StaticPoolRejection unit :=
  if b then Err e else Ok tt.

Definition type_active (spec : SpecId) (ty : N) : bool :=
  match ty with
  | 0 => true
  | 1 => is_enabled_in spec BERLIN
  | 2 => is_enabled_in spec LONDON
  | 4 => is_enabled_in spec PRAGUE
  | _ => false
  end.

Definition tip_cap (t : eth_tx) : N := default (max_fee_per_gas t) (max_priority_fee_per_gas t).

(** The larger of the intrinsic gas and the calldata floor. *)
Definition required_gas (spec : SpecId) (t : eth_tx) (sender : Address) : N :=
  let eip2780 :=
    if is_enabled_in spec AMSTERDAM then Some (tx_value t, bool_decide (tx_to t = Some sender)) else None in
  let '(addresses, keys) := default (0, 0) (access_list t) in
  let '(initial_total_gas, floor_gas) :=
    calculate_initial_tx_gas spec (tx_input t) (is_create t) addresses keys
      (lenN (default [] (authorization_list t))) eip2780 in
  N.max initial_total_gas floor_gas.

Definition static_pool_admission (t : eth_tx) (sender : Address) (head : StaticPoolHead)
    : result StaticPoolRejection unit :=
  let spec := head_spec head in
  let? _ := reject (tx_ty t =? TX_TYPE_EIP4844) BlobTransaction in
  let size := encode_2718_len t in
  let? _ := reject (STATIC_POOL_MAX_TX_SIZE <? size) (Oversized size) in
  let? _ := reject (negb (type_active spec (tx_ty t))) (TypeNotActive (tx_ty t)) in
  let? _ :=
    if is_create t && is_enabled_in spec SHANGHAI then
      let limit := if is_enabled_in spec AMSTERDAM then EIP7954_MAX_INITCODE_SIZE else EIP3860_MAX_INITCODE_SIZE in
      let size := lenN (tx_input t) in
      reject (limit <? size) (InitCodeTooLarge size limit)
    else Ok tt in
  let gas_limit := tx_gas_limit t in
  let? _ := reject (is_enabled_in spec OSAKA && negb (is_enabled_in spec AMSTERDAM) && (TX_GAS_LIMIT_CAP <? gas_limit))
              (GasLimitAboveTxCap gas_limit) in
  let? _ := reject (head_gas_limit head <? gas_limit) (GasLimitAboveParent gas_limit (head_gas_limit head)) in
  let tip := tip_cap t in
  let? _ := reject (max_fee_per_gas t <? tip) TipAboveFeeCap in
  let? _ := reject (tx_nonce t =? U64_MAX) NonceMax in
  let required := required_gas spec t sender in
  let? _ := reject (gas_limit <? required) (IntrinsicGas gas_limit required) in
  let? _ := reject (is_enabled_in spec AMSTERDAM && (TX_GAS_LIMIT_CAP <? required)) (GasLimitAboveTxCap required) in
  let? _ := reject (tip <? STATIC_POOL_MIN_TIP) (TipTooLow tip) in
  reject ((tx_ty t =? TX_TYPE_EIP7702) && bool_decide (lenN (default [] (authorization_list t)) = 0))
    EmptySetCodeAuthorizations.
End static.

(** ** The pool *)

Record StaticPoolPolicy : Type := mkStaticPoolPolicy {
  min_gas_tip_cap : U256;
  policy_base_fee : U256;
  envelope_fee : U256;
  max_envelope_gas_limit : U256;
}.

Record ParentAccount : Type := mkParentAccount {
  pa_nonce : N;
  pa_balance : U256;
  pa_has_code : bool;
  blacklisted : bool;
}.

Record QueuedTransaction : Type := mkQueuedTransaction {
  q_hash : B256;
  q_max_fee_per_gas : N;
  q_max_priority_fee_per_gas : N;
  authorities : list Address;
}.

Record StaticPoolAdmission `{Revm} : Type := mkStaticPoolAdmission {
  pool_head : StaticPoolHead;
  policy : StaticPoolPolicy;
  accounts : gmap Address ParentAccount;
  queued : gmap Address (gmap N QueuedTransaction);
  known : gset B256;
}.

Section pool.
Context {C : Crypto} {X : SignedTransactions} {D : TransactionDetails X} {V : Revm}.

Definition policy_slot (state : StateProvider) (slot : N) : result string U256 :=
  let? value := provider_storage state POLICY_PROXY_ADDRESS (u256_bytes (policy_storage_key slot)) in
  Ok (default 0 value).

(** A missing account counts as one with code. *)
Definition load_account (state : StateProvider) (sender : Address) : result string ParentAccount :=
  let? account := basic_account state sender in
  let? blocked := provider_storage state POLICY_PROXY_ADDRESS (u256_bytes (policy_blacklist_storage_key sender)) in
  Ok (mkParentAccount (from_option acct_nonce 0 account) (from_option acct_balance 0 account)
        (from_option has_bytecode true account) (negb (default 0 blocked =? 0))).

Fixpoint load_accounts (state : StateProvider) (senders : list Address) (accounts : gmap Address ParentAccount)
    : result string (gmap Address ParentAccount) :=
  match senders with
  | [] => Ok accounts
  | sender :: rest =>
      match accounts !! sender with
      | Some _ => load_accounts state rest accounts
      | None => let? account := load_account state sender in load_accounts state rest (<[sender := account]> accounts)
      end
  end.

Definition pool_new (state : StateProvider) (head : StaticPoolHead) (senders : list Address)
    : result string StaticPoolAdmission :=
  let? min_gas_tip_cap := policy_slot state POLICY_MIN_GAS_TIP_CAP_SLOT in
  let? base_fee := policy_slot state POLICY_BASE_FEE_SLOT in
  let? envelope_fee := policy_slot state POLICY_ENVELOPE_FEE_SLOT in
  let? max_envelope_gas_limit := policy_slot state POLICY_MAX_ENVELOPE_GAS_LIMIT_SLOT in
  let? accounts := load_accounts state senders ∅ in
  Ok (mkStaticPoolAdmission _ head
        (mkStaticPoolPolicy min_gas_tip_cap base_fee envelope_fee max_envelope_gas_limit) accounts ∅ ∅).

Definition check_policy (policy : StaticPoolPolicy) (t : eth_tx) (account : ParentAccount)
    : result StaticPoolRejection unit :=
  let? minimum_tip :=
    if is_envelope (tx_ty t) (tx_to t) (tx_input t) then
      let gas_limit := tx_gas_limit t in
      let maximum_gas := max_envelope_gas_limit policy in
      let? _ := reject (maximum_gas <? gas_limit) (EnvelopeGasAbovePolicy gas_limit maximum_gas) in
      let? inner_gas := ok_or (encrypted_gas (tx_input t)) PoolPanic in
      let? _ := reject (inner_gas <? MIN_ENCRYPTED_GAS_LIMIT) (EncryptedGasBelowMinimum inner_gas) in
      let? _ := reject (gas_limit <? inner_gas) (EnvelopeGasBelowEncrypted gas_limit inner_gas) in
      Ok (saturating_add U256_MAX (min_gas_tip_cap policy) (envelope_fee policy))
    else Ok (min_gas_tip_cap policy) in
  let below_minimum :=
    match checked_sub (max_fee_per_gas t) (policy_base_fee policy) with
    | Some headroom => N.min headroom (priority_fee_or_price t) <? minimum_tip
    | None => true
    end in
  let? _ := reject below_minimum (TipBelowPolicy minimum_tip (policy_base_fee policy)) in
  reject (blacklisted account) BlockedSender.

Definition bump_threshold (old : N) : N := old * (100 + STATIC_POOL_PRICE_BUMP) / 100.
Definition outbids (old : QueuedTransaction) (max_fee max_priority_fee : N) : bool :=
  (q_max_fee_per_gas old <? max_fee) && (q_max_priority_fee_per_gas old <? max_priority_fee) &&
  (bump_threshold (q_max_fee_per_gas old) <=? max_fee) &&
  (bump_threshold (q_max_priority_fee_per_gas old) <=? max_priority_fee).

Definition push_authority (authorities : list Address) (a : authorization) : list Address :=
  match recover_authority a with
  | Some authority => if bool_decide (authority ∈ authorities) then authorities else authorities ++ [authority]
  | None => authorities
  end.
Definition set_code_authorities (t : eth_tx) : list Address :=
  foldl push_authority [] (default [] (authorization_list t)).

Definition static_pool_max_cost (t : eth_tx) : U256 :=
  match checked_mul U256_MAX (tx_gas_limit t) (max_fee_per_gas t) with
  | Some cost => default U256_MAX (checked_add U256_MAX cost (tx_value t))
  | None => U256_MAX
  end.

(** Some queued transaction names [sender] as an authority. *)
Definition has_queued_authorization (p : StaticPoolAdmission) (sender : Address) : bool :=
  existsb (fun '(_, queue) =>
    existsb (fun '(_, q) => bool_decide (sender ∈ authorities q)) (map_to_list (queue : gmap N QueuedTransaction)))
    (map_to_list (queued p)).

(** The first authority with more than one queued transaction. *)
Definition reserved_authority (p : StaticPoolAdmission) (l : list Address) : option Address :=
  List.find (fun a => from_option (fun queue : gmap N QueuedTransaction => 1 <? N.of_nat (size queue)) false (queued p !! a)) l.

Definition queue_of (p : StaticPoolAdmission) (sender : Address) : gmap N QueuedTransaction :=
  default ∅ (queued p !! sender).

(** The checks of [add], up to the replacement rule. *)
Definition pool_check (p : StaticPoolAdmission) (sender : Address) (t : eth_tx)
    : result StaticPoolRejection unit :=
  let? _ := static_pool_admission t sender (pool_head p) in
  let? _ := reject (bool_decide (eth_tx_hash t ∈ known p)) AlreadyKnown in
  let? account := ok_or (accounts p !! sender) PoolPanic in
  let nonce := tx_nonce t in
  let? _ := reject (nonce <? pa_nonce account) (NonceTooLow nonce (pa_nonce account)) in
  let? _ := check_policy (policy p) t account in
  let cost := static_pool_max_cost t in
  let? _ := reject (pa_balance account <? cost) (InsufficientFunds cost (pa_balance account)) in
  let? _ := reject ((pa_has_code account || has_queued_authorization p sender) && negb (nonce =? pa_nonce account))
              (DelegatedNonceGap nonce (pa_nonce account)) in
  let? _ := match reserved_authority p (set_code_authorities t) with
            | Some authority => Err (AuthorityReserved authority)
            | None => Ok tt
            end in
  match queue_of p sender !! nonce with
  | Some old => reject (negb (outbids old (max_fee_per_gas t) (tip_cap t))) (ReplaceUnderpriced nonce)
  | None => Ok tt
  end.

Definition queue_entry (t : eth_tx) : QueuedTransaction :=
  mkQueuedTransaction (eth_tx_hash t) (max_fee_per_gas t) (tip_cap t) (set_code_authorities t).

Definition pool_insert (p : StaticPoolAdmission) (sender : Address) (t : eth_tx) : StaticPoolAdmission :=
  let queue := queue_of p sender in
  let known := match queue !! tx_nonce t with Some old => known p ∖ {[q_hash old]} | None => known p end in
  mkStaticPoolAdmission _ (pool_head p) (policy p) (accounts p)
    (<[sender := <[tx_nonce t := queue_entry t]> queue]> (queued p)) ({[eth_tx_hash t]} ∪ known).

Definition pool_add (p : StaticPoolAdmission) (sender : Address) (t : eth_tx)
    : StaticPoolAdmission * result StaticPoolRejection unit :=
  match pool_check p sender t with
  | Ok _ => (pool_insert p sender t, Ok tt)
  | Err e => (p, Err e)
  end.

Fixpoint pool_add_all (p : StaticPoolAdmission) (l : list (Address * eth_tx)) : StaticPoolAdmission :=
  match l with [] => p | (sender, t) :: rest => pool_add_all (pool_add p sender t).1 rest end.
End pool.

(** ** What the pool holds *)

Section facts.
Context {C : Crypto} {X : SignedTransactions} {D : TransactionDetails X} {V : Revm}.

Lemma reject_Ok b e u : reject b e = Ok u <-> b = false.
Proof. destruct b, u; naive_solver. Qed.

Lemma envelope_gas_read t : is_envelope (tx_ty t) (tx_to t) (tx_input t) = true -> exists g, encrypted_gas (tx_input t) = Some g.
Proof.
  intros H. unfold is_envelope in H. rewrite !andb_true_iff in H. destruct H as [_ H].
  apply is_envelope_data_spec in H as [Hl _]. change MIN_ENVELOPE_DATA_LEN with 348%nat in Hl.
  unfold encrypted_gas. change GAS_OFFSET with 8%nat. change HASH_OFFSET with 12%nat.
  rewrite range_Some by lia. by eexists.
Qed.

(** The least tip the Policy asks of a transaction. *)
Definition minimum_tip (p : StaticPoolPolicy) (t : eth_tx) : U256 :=
  if is_envelope (tx_ty t) (tx_to t) (tx_input t)
  then saturating_add U256_MAX (min_gas_tip_cap p) (envelope_fee p) else min_gas_tip_cap p.

(** An Envelope's gas covers the transaction inside, within the Policy maximum. *)
Definition envelope_gas_ok (maximum_gas : U256) (t : eth_tx) : Prop :=
  exists g, encrypted_gas (tx_input t) = Some g /\
    MIN_ENCRYPTED_GAS_LIMIT <= g /\ g <= tx_gas_limit t /\ tx_gas_limit t <= maximum_gas.

Definition policy_admits (p : StaticPoolPolicy) (t : eth_tx) (account : ParentAccount) : Prop :=
  blacklisted account = false /\ policy_base_fee p <= max_fee_per_gas t /\
  minimum_tip p t <= N.min (max_fee_per_gas t - policy_base_fee p) (priority_fee_or_price t) /\
  (is_envelope (tx_ty t) (tx_to t) (tx_input t) = true -> envelope_gas_ok (max_envelope_gas_limit p) t).

Lemma check_policy_Ok p t account : check_policy p t account = Ok tt <-> policy_admits p t account.
Proof.
  unfold check_policy, policy_admits, minimum_tip, envelope_gas_ok.
  assert (Htail : forall m,
    (let? _ := reject match checked_sub (max_fee_per_gas t) (policy_base_fee p) with
       | Some headroom => N.min headroom (priority_fee_or_price t) <? m | None => true end
       (TipBelowPolicy m (policy_base_fee p)) in reject (blacklisted account) BlockedSender) = Ok tt <->
    blacklisted account = false /\ policy_base_fee p <= max_fee_per_gas t /\
    m <= N.min (max_fee_per_gas t - policy_base_fee p) (priority_fee_or_price t)).
  { intros m. unfold checked_sub. destruct (N.leb_spec (policy_base_fee p) (max_fee_per_gas t)); cbn [reject result_bind].
    - destruct (N.ltb_spec (N.min (max_fee_per_gas t - policy_base_fee p) (priority_fee_or_price t)) m);
        cbn [reject result_bind]; rewrite ?reject_Ok; naive_solver lia.
    - naive_solver lia. }
  destruct (is_envelope _ _ _) eqn:E; cbn [result_bind]; [|rewrite Htail; naive_solver].
  destruct (envelope_gas_read t E) as [g Hg]. rewrite Hg. cbn [ok_or].
  destruct (N.ltb_spec (max_envelope_gas_limit p) (tx_gas_limit t)); cbn [reject result_bind]; [naive_solver lia|].
  destruct (N.ltb_spec g MIN_ENCRYPTED_GAS_LIMIT); cbn [reject result_bind]; [naive_solver lia|].
  destruct (N.ltb_spec (tx_gas_limit t) g); cbn [reject result_bind]; [naive_solver lia|].
  rewrite Htail. naive_solver.
Qed.

(** What a transaction must satisfy whatever is queued. *)
Definition admissible (head : StaticPoolHead) (p : StaticPoolPolicy) (account : ParentAccount) (sender : Address)
    (t : eth_tx) : Prop :=
  static_pool_admission t sender head = Ok tt /\ pa_nonce account <= tx_nonce t /\
  policy_admits p t account /\ static_pool_max_cost t <= pa_balance account.

Lemma reject_bind {B} b e (k : result StaticPoolRejection B) r :
  (let? _ := reject b e in k) = Ok r <-> b = false /\ k = Ok r.
Proof. destruct b; cbn; naive_solver. Qed.

Lemma pool_check_Ok p sender t :
  pool_check p sender t = Ok tt ->
  eth_tx_hash t ∉ known p /\
  (exists account, accounts p !! sender = Some account /\ admissible (pool_head p) (policy p) account sender t /\
     (pa_has_code account || has_queued_authorization p sender = true -> tx_nonce t = pa_nonce account)) /\
  reserved_authority p (set_code_authorities t) = None /\
  (forall old, queue_of p sender !! tx_nonce t = Some old -> outbids old (max_fee_per_gas t) (tip_cap t) = true).
Proof.
  unfold pool_check, admissible. intros H. apply result_bind_Ok in H as ([] & Hs & H).
  apply reject_bind in H as [Hk%bool_decide_eq_false H]. apply result_bind_Ok in H as (account & Ha%ok_or_Ok & H).
  apply reject_bind in H as [Hn%N.ltb_ge H]. apply result_bind_Ok in H as ([] & Hp%check_policy_Ok & H).
  apply reject_bind in H as [Hc%N.ltb_ge H]. apply reject_bind in H as [Hd H].
  destruct (reserved_authority _ _); [done|]. cbn [result_bind] in H.
  split_and!; [done| |done|].
  - exists account. split_and!; try done. intros Hor. rewrite Hor in Hd. by destruct (N.eqb_spec (tx_nonce t) (pa_nonce account)).
  - intros old Ho. rewrite Ho in H. by apply reject_Ok, negb_false_iff in H.
Qed.

Lemma queue_of_insert p sender t a :
  queue_of (pool_insert p sender t) a =
  if bool_decide (a = sender) then <[tx_nonce t := queue_entry t]> (queue_of p sender) else queue_of p a.
Proof.
  unfold queue_of at 1, pool_insert. cbn [queued]. case_bool_decide as E; [subst; by rewrite lookup_insert_eq|].
  by rewrite lookup_insert_ne.
Qed.

Lemma lookup_queue_insert p sender t a n :
  queue_of (pool_insert p sender t) a !! n =
  if bool_decide (a = sender /\ n = tx_nonce t) then Some (queue_entry t) else queue_of p a !! n.
Proof.
  rewrite queue_of_insert. destruct (decide (a = sender)) as [->|Ha].
  - rewrite bool_decide_eq_true_2 by done. destruct (decide (n = tx_nonce t)) as [->|Hn].
    + rewrite bool_decide_eq_true_2 by done. by rewrite lookup_insert_eq.
    + rewrite bool_decide_eq_false_2 by naive_solver. by rewrite lookup_insert_ne.
  - by rewrite !bool_decide_eq_false_2 by naive_solver.
Qed.

(** The pool against the transactions offered to it so far. *)
Record pool_ok (p : StaticPoolAdmission) (offered : list (Address * eth_tx)) : Prop := {
  pool_entries a n q : queue_of p a !! n = Some q ->
    exists t account, (a, t) ∈ offered /\ n = tx_nonce t /\ q = queue_entry t /\ accounts p !! a = Some account /\
      admissible (pool_head p) (policy p) account a t /\ (pa_has_code account = true -> n = pa_nonce account);
  pool_known h : h ∈ known p <-> exists a n q, queue_of p a !! n = Some q /\ q_hash q = h;
  pool_unique a n q a' n' q' : queue_of p a !! n = Some q -> queue_of p a' !! n' = Some q' ->
    q_hash q = q_hash q' -> a = a' /\ n = n';
}.

Lemma pool_ok_weaken p l k : pool_ok p l -> l ⊆ k -> pool_ok p k.
Proof.
  intros [He Hk Hu] Hs. split; [|done|done]. intros a n q Hq.
  destruct (He _ _ _ Hq) as (t & account & Ht & Hr). exists t, account. split; [by apply Hs|done].
Qed.

Lemma pool_insert_ok p sender t l :
  pool_ok p l -> pool_check p sender t = Ok tt -> pool_ok (pool_insert p sender t) ((sender, t) :: l).
Proof.
  intros [He Hk Hu] (Hnew & (account & Ha & Had & Hcode) & _ & _)%pool_check_Ok.
  assert (Hfresh : forall a n q, queue_of p a !! n = Some q -> q_hash q <> eth_tx_hash t).
  { intros a n q Hq Hh. apply Hnew, Hk. by exists a, n, q. }
  split.
  - intros a n q. rewrite lookup_queue_insert. case_bool_decide as E.
    + destruct E as [-> ->]. intros [= <-]. exists t, account. split_and!; try done; [by left|].
      intros Hc. apply Hcode. by rewrite Hc.
    + intros Hq. destruct (He _ _ _ Hq) as (u & acc & Hin & Hr). exists u, acc. split; [by right|done].
  - intros h. assert (Hkn : h ∈ known (pool_insert p sender t) <-> h = eth_tx_hash t \/
      (h ∈ known p /\ forall old, queue_of p sender !! tx_nonce t = Some old -> h <> q_hash old)).
    { unfold pool_insert. cbn [known]. destruct (queue_of p sender !! tx_nonce t) as [old|]; set_solver. }
    rewrite Hkn, Hk. split.
    + intros [->|[(a & n & q & Hq & <-) Hold]].
      * exists sender, (tx_nonce t), (queue_entry t). by rewrite lookup_queue_insert, bool_decide_eq_true_2.
      * exists a, n, q. rewrite lookup_queue_insert, bool_decide_eq_false_2; [done|].
        intros [-> ->]. by apply (Hold _ Hq).
    + intros (a & n & q & Hq & Hh). rewrite lookup_queue_insert in Hq. case_bool_decide as E.
      * injection Hq as <-. by left.
      * right. split; [by exists a, n, q|]. intros old Ho Hoh. apply E. subst h.
        destruct (Hu _ _ _ _ _ _ Hq Ho Hoh). done.
  - intros a n q a' n' q'. rewrite !lookup_queue_insert. do 2 case_bool_decide; naive_solver.
Qed.

Lemma pool_frame p sender t :
  accounts (pool_add p sender t).1 = accounts p /\ policy (pool_add p sender t).1 = policy p /\
  pool_head (pool_add p sender t).1 = pool_head p.
Proof. unfold pool_add. by destruct (pool_check p sender t). Qed.

Lemma pool_add_ok p sender t l : pool_ok p l -> pool_ok (pool_add p sender t).1 ((sender, t) :: l).
Proof.
  intros Hp. unfold pool_add. destruct (pool_check p sender t) as [[]|] eqn:E; [by apply pool_insert_ok|].
  apply (pool_ok_weaken _ l); [done|set_solver].
Qed.

Lemma pool_add_all_ok p l k : pool_ok p k -> pool_ok (pool_add_all p l) (rev l ++ k).
Proof.
  revert p k. induction l as [|[sender t] l IH]; intros p k Hp; [done|]. cbn [pool_add_all rev].
  rewrite <- app_assoc. by apply IH, pool_add_ok.
Qed.

Lemma load_accounts_lookup state l m m' a :
  load_accounts state l m = Ok m' ->
  m' !! a = match m !! a with
            | Some account => Some account
            | None => if bool_decide (a ∈ l) then result_ok (load_account state a) else None
            end /\ (a ∈ l -> is_Some (m' !! a)).
Proof.
  revert m. induction l as [|x l IH]; intros m H; cbn [load_accounts] in H.
  - injection H as <-. split; [by destruct (m !! a)|set_solver].
  - destruct (m !! x) as [y|] eqn:Ex.
    + destruct (IH _ H) as [E1 E2]. destruct (decide (a = x)) as [->|Hx].
      * rewrite Ex in *. split; [done|]. intros _. rewrite E1. by eexists.
      * split; [|set_solver]. rewrite E1. destruct (m !! a); [done|]. case_bool_decide; [by rewrite bool_decide_eq_true_2 by set_solver|].
        by rewrite bool_decide_eq_false_2 by set_solver.
    + apply result_bind_Ok in H as (y & Hy & H). destruct (IH _ H) as [E1 E2].
      destruct (decide (a = x)) as [->|Hx].
      * rewrite lookup_insert_eq in E1. rewrite Ex, bool_decide_eq_true_2 by set_solver. rewrite Hy.
        split; [done|]. intros _. rewrite E1. by eexists.
      * rewrite lookup_insert_ne in E1 by done. split; [|set_solver]. rewrite E1. destruct (m !! a); [done|].
        case_bool_decide; [by rewrite bool_decide_eq_true_2 by set_solver|]. by rewrite bool_decide_eq_false_2 by set_solver.
Qed.

Lemma pool_new_inv state head senders p :
  pool_new state head senders = Ok p ->
  pool_head p = head /\ pool_ok p [] /\ load_accounts state senders ∅ = Ok (accounts p) /\
  policy_slot state POLICY_MIN_GAS_TIP_CAP_SLOT = Ok (min_gas_tip_cap (policy p)) /\
  policy_slot state POLICY_BASE_FEE_SLOT = Ok (policy_base_fee (policy p)) /\
  policy_slot state POLICY_ENVELOPE_FEE_SLOT = Ok (envelope_fee (policy p)) /\
  policy_slot state POLICY_MAX_ENVELOPE_GAS_LIMIT_SLOT = Ok (max_envelope_gas_limit (policy p)).
Proof.
  unfold pool_new. intros H. apply result_bind_Ok in H as (m & Hm & H). apply result_bind_Ok in H as (b & Hb & H).
  apply result_bind_Ok in H as (e & He & H). apply result_bind_Ok in H as (g & Hg & H).
  apply result_bind_Ok in H as (accs & Ha & [= <-]). split_and!; try done.
  split; [done|set_solver|done].
Qed.

Lemma pool_add_all_frame p l :
  accounts (pool_add_all p l) = accounts p /\ policy (pool_add_all p l) = policy p /\
  pool_head (pool_add_all p l) = pool_head p.
Proof.
  revert p. induction l as [|[a t] l IH]; intros p; [done|]. cbn [pool_add_all].
  destruct (IH (pool_add p a t).1) as (-> & -> & ->). apply pool_frame.
Qed.

Lemma loaded_account state senders accs a account :
  load_accounts state senders ∅ = Ok accs -> accs !! a = Some account -> load_account state a = Ok account.
Proof.
  intros Hl Ha. destruct (load_accounts_lookup _ _ _ _ a Hl) as [E _]. rewrite lookup_empty, Ha in E.
  case_bool_decide; [|done]. destruct (load_account state a); by simplify_eq/=.
Qed.

Lemma static_pool_no_panic t sender head : static_pool_admission t sender head <> Err PoolPanic.
Proof.
  unfold static_pool_admission, reject.
  repeat match goal with |- context [if ?b then _ else _] => destruct b; cbn [result_bind]; try done end.
Qed.

Lemma pool_check_no_panic p sender t : is_Some (accounts p !! sender) -> pool_check p sender t <> Err PoolPanic.
Proof.
  intros [account Ha]. unfold pool_check. destruct (static_pool_admission _ _ _) as [[]|e] eqn:E; cbn [result_bind];
    [|intros [= ->]; by apply static_pool_no_panic in E].
  rewrite Ha. cbn [ok_or]. case_bool_decide; cbn [reject result_bind]; [done|].
  destruct (_ <? _); cbn [reject result_bind]; [done|].
  destruct (check_policy _ _ _) as [[]|e] eqn:Ep; cbn [result_bind].
  - destruct (_ <? _); cbn [reject result_bind]; [done|]. destruct (_ && _); cbn [reject result_bind]; [done|].
    destruct (reserved_authority _ _); cbn [result_bind]; [done|].
    destruct (queue_of p sender !! tx_nonce t) as [old|]; [|done]. by destruct (outbids _ _ _).
  - intros [= ->]. unfold check_policy in Ep. destruct (is_envelope _ _ _) eqn:Ee.
    + destruct (envelope_gas_read t Ee) as [g Hg]. rewrite Hg in Ep. cbn [ok_or] in Ep.
      repeat (destruct (_ <? _) in Ep; cbn [reject result_bind] in Ep; [done|]).
      destruct (checked_sub _ _); [destruct (_ <? _) in Ep|]; cbn [reject result_bind] in Ep; try done; by destruct (blacklisted account).
    + cbn [result_bind] in Ep. destruct (checked_sub _ _); [destruct (_ <? _) in Ep|]; cbn [reject result_bind] in Ep; try done; by destruct (blacklisted account).
Qed.

(** The scratch pool is sound: whatever is offered, each queued entry is one of the offered
    transactions of that sender, passed the static rules of the parent header, has at
    least the sender's parent nonce, meets the Policy read from the parent state, and is
    affordable from the parent balance; a sender with code has at most its parent nonce
    queued; the known hashes are exactly those queued, each once; and no offer of a
    transaction of the given senders panics. *)
Theorem static_pool_sound state head senders p0 l :
  pool_new state head senders = Ok p0 ->
  let p := pool_add_all p0 l in
  (forall a n q, queue_of p a !! n = Some q ->
     exists t account, (a, t) ∈ l /\ n = tx_nonce t /\ q = queue_entry t /\ load_account state a = Ok account /\
       admissible head (policy p0) account a t /\ (pa_has_code account = true -> n = pa_nonce account)) /\
  (forall h, h ∈ known p <-> exists a n q, queue_of p a !! n = Some q /\ q_hash q = h) /\
  (forall a n q a' n' q', queue_of p a !! n = Some q -> queue_of p a' !! n' = Some q' ->
     q_hash q = q_hash q' -> a = a' /\ n = n') /\
  (forall a t, a ∈ senders -> (pool_add p a t).2 <> Err PoolPanic).
Proof.
  intros Hn p. destruct (pool_new_inv _ _ _ _ Hn) as (Hh & H0 & Hl & _).
  destruct (pool_add_all_frame p0 l) as (Ea & Ep & Eh). pose proof (pool_add_all_ok p0 l [] H0) as [He Hk Hu].
  rewrite Ea, Ep, Eh, Hh in He. split_and!; [|done|done|].
  - intros a n q Hq. destruct (He a n q Hq) as (t & account & Hin & Hr & Hq' & Hacc & Hadm & Hcode).
    exists t, account. split_and!; try done; [by rewrite app_nil_r, list_elem_of_In, <- in_rev, <- list_elem_of_In in Hin|by eapply loaded_account].
  - intros a t Hin. unfold pool_add. destruct (pool_check p a t) eqn:E; [done|]. cbn. intros [= ->].
    apply pool_check_no_panic in E; [done|]. unfold p. rewrite Ea.
    by apply (load_accounts_lookup _ _ _ _ a Hl).
Qed.
End facts.
