(* ===== verification/DkgRuntime.v ===== *)
(** The validator's key-generation service (bin/neox-rs/src/dkg_runtime.rs, with the pool
    insertion of crates/neox/node/src/dkg_submit.rs): one heartbeat for each canonical event
    reconciles the key store and the signer with the contract and drives the task pipeline.

    The chain, the pool, the prover jobs, the key-store file and the entropy answer by the
    time of the call; the clock of the service counts its calls. *)

From S2P Require Import Prelude Extern Instances Tpke DkgParams Dkg DkgState Storage DkgStorage Journal Signer.
From S2P Require Import DkgReplay DkgSettled DkgTask DkgExecutor DkgMaterial DkgTransaction StaticPool.

Inductive RuntimeError : Type :=
| CanonicalHeadChanged
| RuntimeProvider (error : string)
| RuntimeGovernance (error : GovernanceError)
| RuntimeSchedule (error : DkgScheduleStateError)
| RuntimeStorage (error : DkgStorageError)
| RuntimeReplay (error : DkgReplayError)
| RuntimeTaskState (error : TaskStateError)
| RuntimeZk (error : DkgZkVersionStateError)
| RuntimeSettled (error : SettledError)
| RuntimeKeystore (error : string)
| RuntimeSigner (error : DbftSignerError)
| RuntimeParameters (error : DkgMaterialError)
| RuntimeMaterial (error : PreparationError)
| RuntimePlan (error : DkgTaskPlanError)
| RuntimeExecutor (error : DkgExecutorError)
| RuntimeBuild (error : DkgTransactionBuildError)
| RuntimePool (error : string)
(** [eyre::bail!] *)
| RuntimeMessage (message : string)
(** [expect], and a search that did not end within its fuel *)
| RuntimePanicked
| RuntimeFuel.

#[export] Instance stored_contribution_eq : EqDecision DkgStoredContribution.
Proof. solve_decision. Defined.
#[export] Instance stored_recovery_eq : EqDecision DkgStoredRecovery.
Proof. solve_decision. Defined.
#[export] Instance canonical_round_eq : EqDecision DkgCanonicalRound.
Proof. solve_decision. Defined.
#[export] Instance canonical_recovery_eq : EqDecision DkgCanonicalRecovery.
Proof. solve_decision. Defined.
#[export] Instance schedule_eq : EqDecision DkgSchedule.
Proof. solve_decision. Defined.

(** ** The machine *)

Record DkgTaskInputSnapshot : Type := mkDkgTaskInputSnapshot {
  input_pending : list Address;
  input_message_public_keys : list bytes;
}.

#[export] Instance task_inputs_eq : EqDecision DkgTaskInputSnapshot.
Proof. solve_decision. Defined.

(** A prover job; what it proves stands for the spawned task. *)
Record DkgPreparationHandle : Type := mkDkgPreparationHandle {
  source_head : B256;
  handle_inputs : DkgTaskInputSnapshot;
  handle_material : DkgTaskMaterial;
}.

Record DkgRuntimeMachine : Type := mkDkgRuntimeMachine {
  machine_head : option (N * B256);
  machine_epoch : option (DkgSchedule * N);
  membership : option (option N * option N);
  signer_installation : option (N * option N * B256);
  settled_canonical : option DkgSettledCanonical;
  active_canonical : option DkgCanonicalRound;
  recovery_canonical : option DkgCanonicalRecovery;
  planner : DkgTaskPlanner;
  executor : DkgTaskExecutor;
  transactions : DkgTransactionBuilder;
  preparations : gmap DkgTaskId DkgPreparationHandle;
  task_inputs : option DkgTaskInputSnapshot;
  canonical_tasks : gset DkgTaskId;
  owned_transactions : gmap DkgTaskId (list B256);
  pending_transaction_releases : gset DkgTaskId;
}.

Section setters.
Variable m : DkgRuntimeMachine.
Let make h e mb si s a r p x t pr i c o pe := mkDkgRuntimeMachine h e mb si s a r p x t pr i c o pe.

Definition set_head h := make h (machine_epoch m) (membership m) (signer_installation m) (settled_canonical m)
  (active_canonical m) (recovery_canonical m) (planner m) (executor m) (transactions m) (preparations m) (task_inputs m)
  (canonical_tasks m) (owned_transactions m) (pending_transaction_releases m).
Definition set_epoch e mb := make (machine_head m) e mb (signer_installation m) (settled_canonical m)
  (active_canonical m) (recovery_canonical m) (planner m) (executor m) (transactions m) (preparations m) (task_inputs m)
  (canonical_tasks m) (owned_transactions m) (pending_transaction_releases m).
Definition set_installation si := make (machine_head m) (machine_epoch m) (membership m) si (settled_canonical m)
  (active_canonical m) (recovery_canonical m) (planner m) (executor m) (transactions m) (preparations m) (task_inputs m)
  (canonical_tasks m) (owned_transactions m) (pending_transaction_releases m).
Definition set_settled s mb := make (machine_head m) (machine_epoch m) mb (signer_installation m) s
  (active_canonical m) (recovery_canonical m) (planner m) (executor m) (transactions m) (preparations m) (task_inputs m)
  (canonical_tasks m) (owned_transactions m) (pending_transaction_releases m).
Definition set_canonical a r := make (machine_head m) (machine_epoch m) (membership m) (signer_installation m) (settled_canonical m)
  a r (planner m) (executor m) (transactions m) (preparations m) (task_inputs m)
  (canonical_tasks m) (owned_transactions m) (pending_transaction_releases m).
Definition set_inputs i c := make (machine_head m) (machine_epoch m) (membership m) (signer_installation m) (settled_canonical m)
  (active_canonical m) (recovery_canonical m) (planner m) (executor m) (transactions m) (preparations m) i
  c (owned_transactions m) (pending_transaction_releases m).
Definition set_work p x pr := make (machine_head m) (machine_epoch m) (membership m) (signer_installation m) (settled_canonical m)
  (active_canonical m) (recovery_canonical m) p x (transactions m) pr (task_inputs m)
  (canonical_tasks m) (owned_transactions m) (pending_transaction_releases m).
Definition set_transactions t := make (machine_head m) (machine_epoch m) (membership m) (signer_installation m) (settled_canonical m)
  (active_canonical m) (recovery_canonical m) (planner m) (executor m) t (preparations m) (task_inputs m)
  (canonical_tasks m) (owned_transactions m) (pending_transaction_releases m).
Definition set_owned o pe := make (machine_head m) (machine_epoch m) (membership m) (signer_installation m) (settled_canonical m)
  (active_canonical m) (recovery_canonical m) (planner m) (executor m) (transactions m) (preparations m) (task_inputs m)
  (canonical_tasks m) o pe.
End setters.

Definition set_executor (m : DkgRuntimeMachine) (x : DkgTaskExecutor) : DkgRuntimeMachine :=
  set_work m (planner m) x (preparations m).
Definition set_preparations (m : DkgRuntimeMachine) (pr : gmap DkgTaskId DkgPreparationHandle) : DkgRuntimeMachine :=
  set_work m (planner m) (executor m) pr.

(** [DkgRuntimeMachine::new] *)
Definition machine_new (chain_id : N) : result DkgTransactionBuildError DkgRuntimeMachine :=
  let? b := builder_new chain_id in
  Ok (mkDkgRuntimeMachine None None None None None None None planner_default executor_default b ∅ None ∅ ∅ ∅).

Definition reset_task_work (m : DkgRuntimeMachine) (chain_id : N) : DkgRuntimeMachine * result DkgTransactionBuildError unit :=
  let m := set_work m planner_default executor_default ∅ in
  match builder_new chain_id with
  | Ok b => (set_transactions m b, Ok tt)
  | Err e => (m, Err e)
  end.

Definition drain_owned_transactions (m : DkgRuntimeMachine) : DkgRuntimeMachine * list B256 :=
  (set_owned m ∅ ∅, concat (map snd (map_to_list (owned_transactions m)))).

Definition stage_transaction_release (m : DkgRuntimeMachine) (id : DkgTaskId) : DkgRuntimeMachine * bool :=
  let tracked :=
    bool_decide (is_Some (reservation (transactions m) id)) || bool_decide (is_Some (owned_transactions m !! id)) in
  (set_owned m (owned_transactions m) ({[id]} ∪ pending_transaction_releases m), tracked).

Definition reset_epoch_task_work (m : DkgRuntimeMachine) (chain_id : N) (epoch : option (DkgSchedule * N))
    (mb : option N * option N) : DkgRuntimeMachine * result DkgTransactionBuildError unit :=
  let '(m, r) := reset_task_work m chain_id in
  match r with
  | Err e => (m, Err e)
  | Ok _ => (set_inputs (set_canonical (set_epoch m epoch (Some mb)) None None) None ∅, Ok tt)
  end.

Definition suspend_task_work (m : DkgRuntimeMachine) (chain_id : N) : DkgRuntimeMachine * result DkgTransactionBuildError unit :=
  let '(m, r) := reset_task_work m chain_id in
  match r with
  | Err e => (m, Err e)
  | Ok _ => (set_inputs (set_canonical m None None) None ∅, Ok tt)
  end.

Definition invalidate_head_work (m : DkgRuntimeMachine) (chain_id : N) : DkgRuntimeMachine * result DkgTransactionBuildError unit :=
  let '(m, r) := reset_task_work m chain_id in
  match r with
  | Err e => (m, Err e)
  | Ok _ => (set_inputs (set_canonical (set_installation (set_head m None) None) None None) None ∅, Ok tt)
  end.

(** ** Comparisons of canonical material *)

Definition validator_index (validators : list Address) (account : Address) : option N :=
  (fun '(i, _) => N.of_nat i + 1) <$> list_find (fun v => v = account) validators.

Definition signer_installation_needed (installed : option (N * option N * B256)) (round : N) (index : option N) (digest : B256) : bool :=
  negb (bool_decide (installed = Some (round, index, digest))).

Definition recovery_plan_inputs_detached (planned canonical : list N) : bool :=
  negb (bool_decide (planned = [])) && negb (bool_decide (planned = canonical)).

Definition canonical_round_regressed (prior current : DkgCanonicalRound) : bool :=
  negb (canonical_round prior =? canonical_round current) ||
  existsb (fun c => negb (bool_decide (c ∈ round_shares current))) (round_shares prior) ||
  existsb (fun c => negb (bool_decide (c ∈ round_reshares current))) (round_reshares prior).

Definition canonical_recovery_regressed (prior current : DkgCanonicalRecovery) : bool :=
  negb (canonical_recovery_round prior =? canonical_recovery_round current) ||
  negb (recipient_index prior =? recipient_index current) ||
  negb (bool_decide (source_share prior = source_share current)) ||
  existsb (fun m => negb (bool_decide (m ∈ recovery_messages current))) (recovery_messages prior).

Definition recovery_replay_requires_persistence (recovery_changed replay_store_changed : bool) : bool :=
  recovery_changed || replay_store_changed.

(** Some contribution of the list comes from the validator at [index]. *)
Definition has_contributed (index : option N) (l : list DkgStoredContribution) : option N :=
  i ← index; if existsb (fun c => contribution_sender c =? i) l then Some i else None.

Definition local_task (round : N) (method : DkgContractMethod) (index : option N) : gset DkgTaskId :=
  match index with Some i => {[mkDkgTaskId round method i]} | None => ∅ end.

Definition canonical_contribution_tasks (current_index pending_index : option N) (r : DkgCanonicalRound) : gset DkgTaskId :=
  local_task (canonical_round r) MethodShare (has_contributed pending_index (round_shares r)) ∪
  local_task (canonical_round r) MethodReshare (has_contributed current_index (round_reshares r)) ∪
  local_task (canonical_round r) MethodReshareRecovered (has_contributed pending_index (round_reshares r)).

Definition check_dkg_zk_version (configured : N) (canonical : result DkgZkVersionStateError N) : result RuntimeError unit :=
  let? canonical := map_err RuntimeZk canonical in
  if negb (canonical =? configured) then Err (RuntimeMessage "configured ZK version does not match the contract") else Ok tt.

Definition check_pending_message_key (pending_index : option N) (keys : list bytes) (local : option bytes) : result RuntimeError unit :=
  match pending_index with
  | None => Ok tt
  | Some index =>
      let? position := ok_or (checked_sub index 1) (RuntimeMessage "invalid pending validator index") in
      let? canonical := ok_or (keys !! N.to_nat position) (RuntimeMessage "no canonical message key") in
      let? local := ok_or local RuntimePanicked in
      if negb (bool_decide (canonical = local)) then Err (RuntimeMessage "local message key does not match the canonical key") else Ok tt
  end.

Section reads.
Context {C : Crypto} {Z : Ecies}.

(** [read_dkg_current_round] *)
Definition read_dkg_current_round (state : StateProvider) : result RuntimeError N :=
  let? word := map_err RuntimeProvider (provider_storage state KEY_MANAGEMENT_PROXY_ADDRESS (u256_bytes KEY_MANAGEMENT_ROUND_NUMBER_SLOT)) in
  if U64_MAX <? default 0 word then Err (RuntimeMessage "round number exceeds u64") else Ok (default 0 word).

Definition read_policy_u128 (state : StateProvider) (slot : N) : result RuntimeError N :=
  let? word := map_err RuntimeProvider (provider_storage state POLICY_PROXY_ADDRESS (u256_bytes (policy_storage_key slot))) in
  if U128_MAX <? default 0 word then Err (RuntimeMessage "Policy slot exceeds u128") else Ok (default 0 word).

(** The storage of one contract, with the errors of its reader. *)
Definition contract_storage {E} (provider : string -> E) (address : Address) (state : StateProvider) (key : B256)
    : result E (option U256) := map_err provider (provider_storage state address key).
Definition key_storage : StateProvider -> B256 -> result DkgStorageError (option U256) :=
  contract_storage DkgStorageError.Provider KEY_MANAGEMENT_PROXY_ADDRESS.

(** [DkgTaskInputSnapshot::read] *)
Definition inputs_read (state : StateProvider) (pending : list Address) : result RuntimeError DkgTaskInputSnapshot :=
  let? keys :=
    map_err RuntimeTaskState
      (read_dkg_message_public_keys (contract_storage TaskStateError.Provider KEY_MANAGEMENT_PROXY_ADDRESS state) pending) in
  Ok (mkDkgTaskInputSnapshot pending keys).

(** Whether every recipient already has the sender's recovery message. *)
Fixpoint recovery_complete (state : StateProvider) (round sender : N) (parameters : DkgParameters) (recipients : list N)
    : result RuntimeError bool :=
  match recipients with
  | [] => Ok true
  | recipient :: rest =>
      let? messages :=
        map_err RuntimeStorage (read_dkg_recovery_messages_with_parameters (key_storage state) round recipient parameters) in
      if existsb (fun m => recovery_sender m =? sender) messages then recovery_complete state round sender parameters rest
      else Ok false
  end.

Definition canonical_local_tasks (state : StateProvider) (c : DkgTaskContext) (r : DkgCanonicalRound) : result RuntimeError (gset DkgTaskId) :=
  let tasks := canonical_contribution_tasks (current_index c) (pending_index c) r in
  let limit := saturating_sub (participants (context_parameters c)) (threshold (context_parameters c)) in
  let recoverable :=
    bool_decide (context_recovery_indices c = []) ||
    (context_share_ready c && (1 <=? lenN (context_recovery_indices c)) && (lenN (context_recovery_indices c) <=? limit)) in
  match current_index c with
  | Some sender =>
      if (recover_start (context_schedule c) <=? current_height c) && recoverable then
        let? complete := recovery_complete state (canonical_round r) sender (context_parameters c) (context_recovery_indices c) in
        Ok (if complete then {[mkDkgTaskId (canonical_round r) MethodRecover sender]} ∪ tasks else tasks)
      else Ok tasks
  | None => Ok tasks
  end.

Definition recipients_for_plan (plan : DkgTaskPlan) (keys : list bytes) : result RuntimeError (list DkgRecipient) :=
  let? parameters := map_err RuntimeParameters (dkg_parameters_new (lenN keys)) in
  let indices :=
    match plan_method plan with MethodRecover => plan_recovery_indices plan | _ => map N.of_nat (seq 1 (length keys)) end in
  collect_result (fun index =>
      if index =? 0 then Err RuntimePanicked
      else
        let? key := ok_or (keys !! N.to_nat (index - 1)) (RuntimeMessage "missing recipient key") in
        map_err RuntimeMaterial (recipient_new index key parameters)) indices.
End reads.

(** ** The service and its surroundings *)

(** A save either replaces the file or not, and may fail after it did. *)
Inductive SaveOutcome : Type := Saved | SavedThenFailed (error : string) | SaveFailed (error : string).

Record DkgRuntimeConfig : Type := mkDkgRuntimeConfig {
  cfg_chain_id : N;
  cfg_zk_version : N;
  cfg_artifacts : option DkgProverArtifacts;
}.

(** What answers the service's calls, each at its time. The state of a block hash does not
    change; it may be unavailable. *)
Class DkgHost : Type := {
  config : DkgRuntimeConfig;
  latest_header : nat -> result string (option (N * B256));
  block_hash : nat -> N -> result string (option B256);
  state_of : B256 -> StateProvider;
  state_available : nat -> B256 -> result string unit;
  receipt_by_hash : nat -> B256 -> result string (option bool);
  (** the result of the contract's version getter at a block *)
  zk_getter : B256 -> result string GetterResult;
  nonce_occupied : nat -> N -> bool;
  signature_hash : DkgTransactionRequest -> bytes;
  (** conversion for the pool, and the hash of the pooled transaction *)
  try_from_consensus : DkgTransactionRequest * bytes -> Address -> result string B256;
  add_transaction : nat -> B256 -> result string unit;
  (** whether a prover job has ended, and the panic or cancellation it ended with *)
  job_finished : nat -> DkgTaskId -> option (option string);
  save_outcome : nat -> SaveOutcome;
  load_outcome : nat -> result string unit;
  entropy : nat -> Draws;
  (** the turns that the searches for a polynomial and for a nonce are run for *)
  search_fuel : nat;
  (** [to_string] *)
  error_text : RuntimeError -> string;
}.

Section runtime.
Context {C : Crypto} {K : Secp256k1} {B : Blst} {Z : Ecies} {Sy : Symmetric} {A : SolAbi} {P : ProverHost} {H : DkgHost}.

(** [rt_file] is what the encrypted file holds; [rt_pool] the hashes the service put into
    the pool and has not removed. *)
Record Runtime : Type := mkRuntime {
  rt_signer : DbftSigner;
  rt_store : DkgKeyStore;
  rt_file : DkgKeyStore;
  rt_machine : DkgRuntimeMachine;
  rt_pool : gset B256;
  rt_clock : nat;
}.

Definition with_signer (rt : Runtime) s := mkRuntime s (rt_store rt) (rt_file rt) (rt_machine rt) (rt_pool rt) (rt_clock rt).
Definition with_store (rt : Runtime) s := mkRuntime (rt_signer rt) s (rt_file rt) (rt_machine rt) (rt_pool rt) (rt_clock rt).
Definition with_file (rt : Runtime) f := mkRuntime (rt_signer rt) (rt_store rt) f (rt_machine rt) (rt_pool rt) (rt_clock rt).
Definition with_machine (rt : Runtime) m := mkRuntime (rt_signer rt) (rt_store rt) (rt_file rt) m (rt_pool rt) (rt_clock rt).
Definition with_pool (rt : Runtime) p := mkRuntime (rt_signer rt) (rt_store rt) (rt_file rt) (rt_machine rt) p (rt_clock rt).
Definition tick (rt : Runtime) := mkRuntime (rt_signer rt) (rt_store rt) (rt_file rt) (rt_machine rt) (rt_pool rt) (S (rt_clock rt)).

(** *** Effects: state, and errors that keep the state reached *)

Definition Eff (T : Type) : Type := Runtime -> Runtime * result RuntimeError T.
Definition ret {T} (x : T) : Eff T := fun rt => (rt, Ok x).
Definition throw {T} (e : RuntimeError) : Eff T := fun rt => (rt, Err e).
Definition lift {T} (r : result RuntimeError T) : Eff T := fun rt => (rt, r).
Definition then_do {T U} (m : Eff T) (k : T -> Eff U) : Eff U :=
  fun rt => let '(rt, r) := m rt in match r with Ok x => k x rt | Err e => (rt, Err e) end.
Definition attempt {T} (m : Eff T) : Eff (result RuntimeError T) := fun rt => let '(rt, r) := m rt in (rt, Ok r).
Definition get : Eff Runtime := fun rt => (rt, Ok rt).
Definition modify (f : Runtime -> Runtime) : Eff unit := fun rt => (f rt, Ok tt).
Definition call {T} (f : nat -> T) : Eff T := fun rt => (tick rt, Ok (f (rt_clock rt))).

Local Notation "'let!' x ':=' m 'in' k" := (then_do m (fun x => k)) (at level 200, x pattern, m at level 100, k at level 200).

Definition machine_do {E T} (error : E -> RuntimeError) (f : DkgRuntimeMachine -> DkgRuntimeMachine * result E T) : Eff T :=
  fun rt => let '(m, r) := f (rt_machine rt) in (with_machine rt m, map_err error r).
Definition store_do {E T} (error : E -> RuntimeError) (f : DkgKeyStore -> DkgKeyStore * result E T) : Eff T :=
  fun rt => let '(s, r) := f (rt_store rt) in (with_store rt s, map_err error r).
Definition machine_set (f : DkgRuntimeMachine -> DkgRuntimeMachine) : Eff unit := modify (fun rt => with_machine rt (f (rt_machine rt))).
Definition machine : Eff DkgRuntimeMachine := fun rt => (rt, Ok (rt_machine rt)).
Definition when (b : bool) (m : Eff unit) : Eff unit := if b then m else ret tt.
Fixpoint for_each {T} (l : list T) (f : T -> Eff unit) : Eff unit :=
  match l with [] => ret tt | x :: rest => let! _ := f x in for_each rest f end.

Definition provided {T} (f : nat -> result string T) : Eff T := let! r := call f in lift (map_err RuntimeProvider r).

(** *** The file, the signer and the pool *)

Definition save_encrypted (s : DkgKeyStore) : Eff unit :=
  let! o := call save_outcome in
  match o with
  | Saved => modify (fun rt => with_file rt s)
  | SavedThenFailed e => let! _ := modify (fun rt => with_file rt s) in throw (RuntimeKeystore e)
  | SaveFailed e => throw (RuntimeKeystore e)
  end.

Definition persist : Eff unit := let! rt := get in save_encrypted (rt_store rt).

Definition load_encrypted : Eff DkgKeyStore :=
  let! r := call load_outcome in
  let! _ := lift (map_err RuntimeKeystore r) in
  let! rt := get in ret (rt_file rt).

(** A share of the store with the epoch it is installed for. *)
Definition share_with_epoch (share : option bytes) (round : result RuntimeError N) (key : option bytes) (head : B256)
    : result RuntimeError (option (bytes * DkgShareEpoch)) :=
  match share with
  | None => Ok None
  | Some share =>
      let? round := round in
      let? key := ok_or key (RuntimeMessage "a settled share has no global public key") in
      Ok (Some (share, mkDkgShareEpoch round key head))
  end.

Definition install_signer_shares (head : B256) : Eff unit :=
  fun rt =>
    let s := rt_store rt in
    match
      (let? current := share_with_epoch (current_private_share s) (Ok (store_round s)) (current_global_public_key s) head in
       let? previous :=
         share_with_epoch (previous_private_share s)
           (ok_or (checked_sub (store_round s) 1) (RuntimeMessage "previous DKG share exists before round one"))
           (previous_global_public_key s) head in
       map_err RuntimeSigner (replace_canonical_dkg_private_shares (rt_signer rt) current previous))
    with
    | Ok signer => (with_signer rt signer, Ok tt)
    | Err e => (rt, Err e)
    end.

(** [replace_optional_dkg_private_shares(None, None)] *)
Definition clear_signer_shares : Eff unit :=
  fun rt =>
    match replace_optional_dkg_private_shares (rt_signer rt) None None with
    | Ok signer => (with_signer rt signer, Ok tt)
    | Err e => (rt, Err (RuntimeSigner e))
    end.

Definition remove_transactions (hashes : list B256) : Eff unit :=
  modify (fun rt => with_pool rt (rt_pool rt ∖ list_to_set hashes)).

Definition discard_owned_pool_transactions : Eff unit :=
  fun rt => let '(m, hashes) := drain_owned_transactions (rt_machine rt) in remove_transactions hashes (with_machine rt m).

(** The loop over the staged releases. *)
Definition commit_release (id : DkgTaskId) : Eff unit :=
  let! m := machine in
  let! _ := match owned_transactions m !! id with Some hashes => remove_transactions hashes | None => ret tt end in
  machine_set (fun m =>
    set_transactions (set_owned m (delete id (owned_transactions m)) (pending_transaction_releases m))
      (release_reservation (transactions m) id).1).

Definition commit_transaction_releases : Eff unit :=
  let! m := machine in
  let! _ := machine_set (fun m => set_owned m (owned_transactions m) ∅) in
  for_each (elements (pending_transaction_releases m)) commit_release.

Definition submit_dkg_pool_transaction (request : DkgTransactionRequest) : Eff B256 :=
  let! rt := get in
  let! transaction := lift (map_err RuntimeSigner (sign_dkg_transaction signature_hash (rt_signer rt) request)) in
  let! hash := lift (map_err RuntimePool (try_from_consensus transaction (account (rt_signer rt)))) in
  let! added := call (fun t => add_transaction t hash) in
  let! _ := lift (map_err RuntimePool added) in
  let! _ := modify (fun rt => with_pool rt ({[hash]} ∪ rt_pool rt)) in
  ret hash.

(** *** The canonical head *)

Definition ensure_canonical_head (expected : B256) : Eff unit :=
  let! header := provided latest_header in
  match header with
  | None => throw CanonicalHeadChanged
  | Some (number, actual) =>
      if negb (bool_decide (actual = expected)) then throw CanonicalHeadChanged
      else
        let! mapped := provided (fun t => block_hash t number) in
        if negb (bool_decide (mapped = Some actual)) then throw CanonicalHeadChanged else ret tt
  end.

Definition state_by_block_hash (hash : B256) : Eff StateProvider :=
  let! _ := provided (fun t => state_available t hash) in ret (state_of hash).

Definition suspend_task_work_at_head (height : N) (head : B256) : Eff unit :=
  let! _ := discard_owned_pool_transactions in
  let! _ := machine_do RuntimeBuild (fun m => suspend_task_work m (cfg_chain_id config)) in
  let! _ := ensure_canonical_head head in
  machine_set (fun m => set_head m (Some (height, head))).

(** Both operations are attempted; the first error wins. *)
Definition invalidate_canonical_attempt : Eff unit :=
  let! cleared := attempt clear_signer_shares in
  let! _ := discard_owned_pool_transactions in
  let! invalidated := attempt (machine_do RuntimeBuild (fun m => invalidate_head_work m (cfg_chain_id config))) in
  let! _ := lift cleared in
  lift invalidated.

(** The reset that follows a change of canonical inputs. *)
Definition discard_and_reset : Eff unit :=
  let! _ := discard_owned_pool_transactions in
  machine_do RuntimeBuild (fun m => reset_task_work m (cfg_chain_id config)).
End runtime.

Notation "'let!' x ':=' m 'in' k" := (then_do m (fun x => k)) (at level 200, x pattern, m at level 100, k at level 200).

Section heartbeat.
Context {C : Crypto} {K : Secp256k1} {B : Blst} {Z : Ecies} {Sy : Symmetric} {A : SolAbi} {P : ProverHost} {H : DkgHost}.

(** ** The settled round *)

(** The rebuilt store: of the baseline before the first round, else of the canonical round. *)
Definition rebuild_settled (head : B256) (c : DkgSettledCanonical) : Eff DkgKeyStore :=
  let! rt := get in
  if settled_round c =? 0 then ret (detached_replay_baseline (rt_store rt) 0)
  else
    let! state := state_by_block_hash head in
    let! contributions :=
      lift (map_err RuntimeReplay
              (read_dkg_canonical_round_with_parameters (key_storage state) (settled_round c) (store_parameters (rt_store rt)))) in
    let! epoch := lift (ok_or (settled_epoch c) RuntimePanicked) in
    let! rng := call entropy in
    lift (map_err RuntimeReplay
            (rebuild_dkg_canonical_store (rt_store rt) search_fuel (cfg_chain_id config) rng (settled_index c) contributions epoch)).

Definition reconcile_settled_round (head : B256) (c : DkgSettledCanonical) : Eff unit :=
  let installed := Some (settled_round c, settled_index c, settled_canonical_digest c) in
  let! rt := get in
  if (store_round (rt_store rt) =? settled_round c) && is_ok (validate_settled_store (rt_store rt) c) then
    when (signer_installation_needed (signer_installation (rt_machine rt)) (settled_round c) (settled_index c) (settled_canonical_digest c))
      (let! _ := ensure_canonical_head head in
       let! _ := install_signer_shares head in
       machine_set (fun m => set_installation m installed))
  else
    let! _ := clear_signer_shares in
    let! _ := machine_set (fun m => set_installation m None) in
    let! rebuilt := rebuild_settled head c in
    let! _ := save_encrypted rebuilt in
    let! _ := ensure_canonical_head head in
    let! _ := modify (fun rt => with_store rt rebuilt) in
    let! _ := install_signer_shares head in
    machine_set (fun m => set_installation m installed).

(** ** Tasks *)

Definition record_preparation (id : DkgTaskId) (r : result string bytes) : Eff unit :=
  let! _ := machine_do RuntimeExecutor (fun m => let '(x, o) := record_prepared (executor m) id r in (set_executor m x, o)) in ret tt.

(** A finished job's result: what the prover returned, or how the job ended. *)
Definition job_result (handle : DkgPreparationHandle) (ended : option string) : result string bytes :=
  match ended with
  | None => map_err (fun e => error_text (RuntimeMaterial e)) (prove_dkg_task_material (cfg_artifacts config) (cfg_zk_version config) (handle_material handle))
  | Some error => Err error
  end.

Definition poll_preparation (t : nat) (inputs : DkgTaskInputSnapshot) (id : DkgTaskId) : Eff unit :=
  let! m := machine in
  match preparations m !! id, job_finished t id with
  | Some handle, Some ended =>
      let! _ := machine_set (fun m => set_preparations m (delete id (preparations m))) in
      let r := job_result handle ended in
      record_preparation id
        (if negb (bool_decide (handle_inputs handle = inputs)) then Err "canonical inputs changed after proving"%string else r)
  | _, _ => throw RuntimePanicked
  end.

Definition poll_preparations (inputs : DkgTaskInputSnapshot) : Eff unit :=
  let! t := call id in
  let! m := machine in
  for_each (filter (fun id => is_Some (job_finished t id)) (map fst (map_to_list (preparations m)))) (poll_preparation t inputs).

Definition prepare_task_material (keys : list bytes) (plan : DkgTaskPlan) : Eff DkgTaskMaterial :=
  let! recipients := lift (recipients_for_plan plan keys) in
  let! rng := call entropy in
  let! rng' := call entropy in
  let! rt := get in
  store_do RuntimeMaterial (fun s =>
    generate_dkg_task_material s search_fuel rng rng' (account (rt_signer rt)) (cfg_chain_id config) plan recipients).

Definition start_preparation (inputs : DkgTaskInputSnapshot) (head : B256) (id : DkgTaskId) (plan : DkgTaskPlan) : Eff unit :=
  let! prepared := attempt (prepare_task_material (input_message_public_keys inputs) plan) in
  match prepared with
  | Err error => record_preparation id (Err (error_text error))
  | Ok material =>
      let! saved := attempt (when (must_persist_store material) persist) in
      match saved with
      | Err error => record_preparation id (Err (error_text error))
      | Ok _ =>
          machine_set (fun m => set_preparations m (<[id := mkDkgPreparationHandle head inputs material]> (preparations m)))
      end
  end.

Definition read_transaction_inputs (head : B256) : Eff DkgTransactionInputs :=
  let! state := state_by_block_hash head in
  let! rt := get in
  let! found := lift (map_err RuntimeProvider (basic_account state (account (rt_signer rt)))) in
  let! base_fee := lift (read_policy_u128 state POLICY_BASE_FEE_SLOT) in
  let! tip := lift (read_policy_u128 state POLICY_MIN_GAS_TIP_CAP_SLOT) in
  ret (mkDkgTransactionInputs (default 0 (acct_nonce <$> found)) base_fee tip).

(** The request of a task: a bumped one when its nonce is reserved, else a new one. *)
Definition next_request (id : DkgTaskId) (calldata : bytes) (inputs : DkgTransactionInputs) : Eff DkgTransactionRequest :=
  let! m := machine in
  if bool_decide (is_Some (reservation (transactions m) id)) then
    machine_do RuntimeBuild (fun m => let '(b, r) := bump (transactions m) id calldata inputs in (set_transactions m b, r))
  else
    let! occupied := call nonce_occupied in
    match build (transactions m) search_fuel id calldata inputs occupied with
    | None => throw RuntimeFuel
    | Some (b, r) => machine_do RuntimeBuild (fun m => (set_transactions m b, r))
    end.

Definition push_owned (id : DkgTaskId) (hash : B256) (m : DkgRuntimeMachine) : DkgRuntimeMachine :=
  set_owned m (<[id := default [] (owned_transactions m !! id) ++ [hash]]> (owned_transactions m)) (pending_transaction_releases m).

Definition build_and_submit (head : B256) (id : DkgTaskId) (calldata : bytes) : Eff B256 :=
  let! inputs := read_transaction_inputs head in
  let! request := next_request id calldata inputs in
  let! hash := submit_dkg_pool_transaction request in
  let! _ := machine_set (push_owned id hash) in
  let! checked := attempt (ensure_canonical_head head) in
  match checked with
  | Ok _ => ret hash
  | Err error => let! _ := remove_transactions [hash] in throw error
  end.

Definition record_submission (id : DkgTaskId) (height : N) (r : result string B256) : Eff unit :=
  let! _ := machine_do RuntimeExecutor (fun m => let '(x, o) := record_submitted (executor m) id height r in (set_executor m x, o)) in ret tt.

Definition is_confirmed (o : DkgExecutorOutcome) : bool := match o with DkgExecutorOutcome.Confirmed _ _ => true | _ => false end.

Definition receipt_state (r : option bool) : DkgReceiptState :=
  match r with Some true => Storage.Succeeded | Some false => Storage.Failed | None => Storage.Missing end.

Definition handle_action (head : B256) (height : N) (action : DkgExecutorAction) : Eff unit :=
  match action with
  | DkgExecutorAction.Prepare _ _ => throw (RuntimeMessage "prepare action was not scheduled through the prover worker")
  | DkgExecutorAction.Submit id _ calldata =>
      let! checked := attempt (ensure_canonical_head head) in
      match checked with
      | Err error =>
          let! _ := record_submission id height (Err (error_text error)) in throw error
      | Ok _ =>
          let! r := attempt (build_and_submit head id calldata) in
          let! recorded := attempt (record_submission id height (map_err error_text r)) in
          match recorded with
          | Ok _ => ret tt
          | Err error =>
              let! _ := match r with Ok hash => remove_transactions [hash] | Err _ => ret tt end in throw error
          end
      end
  | DkgExecutorAction.CheckReceipt id hash =>
      let! receipt := call (fun t => receipt_by_hash t hash) in
      let! outcome :=
        machine_do RuntimeExecutor (fun m =>
          let '(x, o) := record_receipt (executor m) id (let? r := receipt in Ok (receipt_state r)) in (set_executor m x, o)) in
      when (is_confirmed outcome) (machine_set (fun m => (stage_transaction_release m id).1))
  | DkgExecutorAction.Expire id =>
      machine_set (fun m => (stage_transaction_release (set_preparations m (delete id (preparations m))) id).1)
  end.

Definition perform_action (inputs : option DkgTaskInputSnapshot) (head : B256) (height : N) (action : DkgExecutorAction) : Eff unit :=
  match action with
  | DkgExecutorAction.Prepare id plan =>
      match inputs with
      | Some inputs => start_preparation inputs head id plan
      | None => throw (RuntimeMessage "preparation outside an active round")
      end
  | action => handle_action head height action
  end.

Definition retire_canonical_task (id : DkgTaskId) : Eff unit :=
  machine_set (fun m =>
    let m := set_work m (planner m) (retire (executor m) id).1 (delete id (preparations m)) in
    (stage_transaction_release m id).1).

Definition reconcile_canonical_local_tasks (canonical : gset DkgTaskId) : Eff unit :=
  let! m := machine in
  let! _ := when (negb (bool_decide (canonical_tasks m ⊆ canonical))) discard_and_reset in
  let! _ := for_each (elements (canonical ∖ canonical_tasks m)) retire_canonical_task in
  machine_set (fun m => set_inputs m (task_inputs m) canonical).
(** ** The heartbeat *)

Definition governance_storage (state : StateProvider) : B256 -> result GovernanceError (option U256) :=
  contract_storage GovernanceProvider GOVERNANCE_PROXY_ADDRESS state.

(** The latest header, when the number mapping has it. *)
Definition canonical_header : Eff (N * B256) :=
  let! header := provided latest_header in
  match header with
  | None => throw CanonicalHeadChanged
  | Some (height, head) =>
      let! mapped := provided (fun t => block_hash t height) in
      if negb (bool_decide (mapped = Some head)) then throw CanonicalHeadChanged else ret (height, head)
  end.

Definition canonical_discontinuity (height : N) : Eff bool :=
  let! m := machine in
  match machine_head m with
  | Some (previous_height, previous_hash) =>
      if height <? previous_height then ret true
      else
        let! mapped := provided (fun t => block_hash t previous_height) in
        ret (negb (bool_decide (mapped = Some previous_hash)))
  | None => ret false
  end.

(** The state of the head; a detached state is a change of head. *)
Definition state_of_head (head : B256) : Eff StateProvider :=
  let! state := attempt (state_by_block_hash head) in
  match state with
  | Ok state => ret state
  | Err error =>
      let! header := provided latest_header in
      match header with
      | Some (_, actual) => if negb (bool_decide (actual = head)) then throw CanonicalHeadChanged else throw error
      | None => throw error
      end
  end.

(** A failure below this point suspends the task work of the head. *)
Definition suspending {T} (height : N) (head : B256) (m : Eff T) (k : T -> Eff unit) : Eff unit :=
  let! r := attempt m in
  match r with Ok x => k x | Err _ => suspend_task_work_at_head height head end.

Definition persist_if (b : bool) : Eff unit := when b persist.

(** The key store follows the recovery messages of the active round. *)
Definition replay_recovery (state : StateProvider) (round pending_index : N) : Eff unit :=
  let! rt := get in
  let! recovery :=
    lift (map_err RuntimeReplay
            (read_dkg_canonical_recovery_with_parameters (key_storage state) round pending_index (store_parameters (rt_store rt)))) in
  let! m := machine in
  let changed := negb (bool_decide (recovery_canonical m = Some recovery)) in
  let regressed := match recovery_canonical m with Some prior => canonical_recovery_regressed prior recovery | None => false end in
  let! _ := when regressed discard_and_reset in
  let! _ := when changed (modify (fun rt => with_store rt (on_recover_period_start (rt_store rt)))) in
  let! outcome := store_do RuntimeReplay (fun s => apply_dkg_canonical_recovery s recovery) in
  let! _ := persist_if (recovery_replay_requires_persistence changed (store_changed outcome)) in
  machine_set (fun m => set_canonical m (active_canonical m) (Some recovery)).

(** The key store follows the contributions of the active round; [rebuild] when what was
    replayed before may not be canonical any more. *)
Definition replay_round (state : StateProvider) (pending_index : option N) (next_round : N) (rebuild : bool) : Eff DkgCanonicalRound :=
  let! rt := get in
  let! active_round := lift (ok_or (checked_add U64_MAX (store_round (rt_store rt)) 1) (RuntimeMessage "round exceeds u64")) in
  if negb (active_round =? next_round) then throw (RuntimeMessage "reconciled keystore expects another round")
  else
    let! canonical :=
      lift (map_err RuntimeReplay
              (read_dkg_canonical_round_with_parameters (key_storage state) active_round (store_parameters (rt_store rt)))) in
    let! m := machine in
    let changed := negb (bool_decide (active_canonical m = Some canonical)) in
    let regressed := match active_canonical m with Some prior => canonical_round_regressed prior canonical | None => false end in
    let! _ := when regressed discard_and_reset in
    let! rng := call entropy in
    let! outcome :=
      store_do RuntimeReplay (fun s =>
        if rebuild || changed || negb (is_sharing s)
        then rebuild_dkg_canonical_round s search_fuel (cfg_chain_id config) rng pending_index canonical
        else apply_dkg_canonical_round s pending_index canonical) in
    let! _ := persist_if (store_changed outcome) in
    let! _ := machine_set (fun m => set_canonical m (Some canonical) (recovery_canonical m)) in
    ret canonical.

Definition replay_recoveries (state : StateProvider) (height : N) (schedule : DkgSchedule) (contract : DkgTaskContractState)
    (pending_index : option N) (round : N) : Eff unit :=
  let! rt := get in
  let d := store_parameters (rt_store rt) in
  let limit := saturating_sub (participants d) (threshold d) in
  let indices := recovery_indices contract in
  let recoverable := share_ready contract && (1 <=? lenN indices) && (lenN indices <=? limit) in
  when ((recover_start schedule <=? height) && recoverable)
    (let! _ :=
       when (negb (is_recovering (rt_store rt)))
         (let! _ := modify (fun rt => with_store rt (on_recover_period_start (rt_store rt))) in persist) in
     match pending_index with
     | Some index =>
         when ((recover_check schedule <=? height) && bool_decide (index ∈ indices)) (replay_recovery state round index)
     | None => ret tt
     end).

(** The inputs of the active round and the replay of what the contract has of it. *)
Definition active_round (state : StateProvider) (height : N) (head : B256) (schedule : DkgSchedule) (contract : DkgTaskContractState)
    (current_index : option N) (rebuild : bool) (k : list Address -> option N -> option DkgCanonicalRound -> Eff unit) : Eff unit :=
  let suspending {T} := @suspending T height head in
  suspending (lift (check_dkg_zk_version (cfg_zk_version config) (read_dkg_zk_version_at_state (zk_getter head)))) (fun _ =>
  suspending (lift (map_err RuntimeGovernance (read_governance_pending_validators_from_storage (governance_storage state)))) (fun pending =>
  let! rt := get in
  let pending_index := validator_index pending (account (rt_signer rt)) in
  let m := rt_machine rt in
  let pending_changed :=
    match membership m with Some (_, previous) => negb (bool_decide (previous = pending_index)) | None => false end ||
    match task_inputs m with Some inputs => negb (bool_decide (input_pending inputs = pending)) | None => false end in
  let! _ :=
    when pending_changed
      (let! _ := discard_and_reset in
       machine_set (fun m => set_inputs (set_canonical m (active_canonical m) None) None (canonical_tasks m))) in
  let! _ := machine_set (fun m => set_epoch m (machine_epoch m) (Some (current_index, pending_index))) in
  suspending
    (let! canonical := replay_round state pending_index (next_round contract) (rebuild || pending_changed) in
     let! _ := replay_recoveries state height schedule contract pending_index (canonical_round canonical) in
     ret canonical)
    (fun canonical => k pending pending_index (Some canonical)))).

(** Outside of its window an unfinished round is given up, in the file first. *)
Definition abandon_round (height : N) (head : B256) (epoch : DkgSchedule * N) (current_index : option N) (k : Eff unit) : Eff unit :=
  suspending height head load_encrypted (fun loaded =>
  let reverted := revert_round loaded in
  suspending height head (save_encrypted reverted) (fun _ =>
  let! _ := modify (fun rt => with_store rt reverted) in
  let! _ := discard_owned_pool_transactions in
  let! _ := machine_do RuntimeBuild (fun m => reset_epoch_task_work m (cfg_chain_id config) (Some epoch) (current_index, None)) in
  k)).

(** What the contract already has of this validator's tasks, and the recipients' keys. *)
Definition local_inputs (state : StateProvider) (height : N) (head : B256) (c : DkgTaskContext) (pending : list Address)
    (active : option DkgCanonicalRound) (k : option DkgTaskInputSnapshot -> Eff unit) : Eff unit :=
  match active with
  | Some canonical =>
      suspending height head (lift (canonical_local_tasks state c canonical)) (fun tasks =>
      let! _ := reconcile_canonical_local_tasks tasks in
      suspending height head (lift (inputs_read state pending)) (fun inputs =>
      let! rt := get in
      suspending height head
        (lift (check_pending_message_key (pending_index c) (input_message_public_keys inputs) (message_public_key (rt_store rt)))) (fun _ =>
      let! m := machine in
      let changed := match task_inputs m with Some prior => negb (bool_decide (prior = inputs)) | None => false end in
      let! _ := when changed discard_and_reset in
      let! _ := machine_set (fun m => set_inputs m (Some inputs) (canonical_tasks m)) in
      k (Some inputs))))
  | None =>
      let! _ := machine_set (fun m => set_inputs m None ∅) in
      k None
  end.

(** New tasks are queued unless the contract has them. *)
Definition queue_tasks (c : DkgTaskContext) : Eff unit :=
  let! tasks :=
    machine_do RuntimePlan (fun m => let '(p, r) := take_tasks (planner m) c in (set_work m p (executor m) (preparations m), r)) in
  machine_set (fun m =>
    set_executor m (enqueue (executor m) (filter (fun plan => task_id plan ∉ canonical_tasks m) tasks) 0).1).

(** The actions that are due; new ones move their tasks at once. *)
Definition take_actions (height : N) : Eff (list DkgExecutorAction) :=
  let! m := machine in
  let limit := if bool_decide (preparations m = ∅) then 1 else 0 in
  match actions_with_preparation_limit (executor m) height limit with
  | Some (x, actions) => let! _ := machine_set (fun m => set_executor m x) in ret actions
  | None => throw RuntimePanicked
  end.

Definition run_tasks (height : N) (head : B256) (c : DkgTaskContext) (inputs : option DkgTaskInputSnapshot) : Eff unit :=
  let! _ := queue_tasks c in
  let! _ := match inputs with Some inputs => poll_preparations inputs | None => ret tt end in
  let! actions := take_actions height in
  let! _ := for_each actions (perform_action inputs head height) in
  let! _ := ensure_canonical_head head in
  let! _ := commit_transaction_releases in
  machine_set (fun m => set_head m (Some (height, head))).

(** The settled part: the signer's shares follow the contract at the head. *)
Definition reconcile_head (reorg : bool) : Eff (N * B256 * StateProvider * bool * N * option N * option (option N * option N)) :=
  let! (height, head) := canonical_header in
  let! discontinuity := canonical_discontinuity height in
  let reset := reorg || discontinuity in
  let! _ := when reset (let! _ := clear_signer_shares in machine_set (fun m => set_installation m None)) in
  let! state := state_of_head head in
  let! round := lift (read_dkg_current_round state) in
  let! current := lift (map_err RuntimeGovernance (read_governance_validator_set_from_storage (governance_storage state))) in
  let! rt := get in
  let current_index := validator_index (original current) (account (rt_signer rt)) in
  let previous_membership := membership (rt_machine rt) in
  let! settled :=
    lift (map_err RuntimeReplay (settled_read (key_storage state) round current_index (store_parameters (rt_store rt)))) in
  let changed := match settled_canonical (rt_machine rt) with Some prior => negb (bool_decide (prior = settled)) | None => false end in
  let! _ := when changed discard_and_reset in
  let! _ := reconcile_settled_round head settled in
  let! _ := machine_set (fun m => set_settled m (Some settled) (Some (current_index, previous_membership ≫= snd))) in
  ret (height, head, state, reset, round, current_index, previous_membership).

(** The task part: everything below the settled round. *)
Definition drive_tasks (reconciled : N * B256 * StateProvider * bool * N * option N * option (option N * option N)) : Eff unit :=
  let '(height, head, state, reset, round, current_index, previous_membership) := reconciled in
  let current_membership_changed :=
    match previous_membership with Some (previous, _) => negb (bool_decide (previous = current_index)) | None => false end in
  suspending height head
    (lift (map_err RuntimeSchedule (read_dkg_schedule_from_storage (contract_storage ScheduleProvider GOVERNANCE_PROXY_ADDRESS state)))) (fun schedule =>
  let! rt := get in
  suspending height head
    (lift (map_err RuntimeTaskState
             (read_dkg_task_contract_state_from_storage (contract_storage TaskStateError.Provider KEY_MANAGEMENT_PROXY_ADDRESS state)
                (store_parameters (rt_store rt))))) (fun contract =>
  if negb (DkgStorage.current_round contract =? round) then suspend_task_work_at_head height head
  else
    let epoch := (schedule, next_round contract) in
    let! _ :=
      when (reset || negb (bool_decide (machine_epoch (rt_machine rt) = Some epoch)) ||
            bool_decide (previous_membership = None) || current_membership_changed)
        (let! _ := discard_owned_pool_transactions in
         machine_do RuntimeBuild (fun m => reset_epoch_task_work m (cfg_chain_id config) (Some epoch) (current_index, None))) in
    let! m := machine in
    let! _ := when (recovery_plan_inputs_detached (planner_recovery_indices (planner m)) (recovery_indices contract)) discard_and_reset in
    let continue (pending : list Address) (pending_index : option N) (active : option DkgCanonicalRound) :=
      let! rt := get in
      let c :=
        mkDkgTaskContext (store_parameters (rt_store rt)) schedule height (next_round contract) current_index pending_index
          (share_ready contract) (recovery_indices contract) in
      local_inputs state height head c pending active (run_tasks height head c) in
    let! rt := get in
    if (share_start schedule <=? height) && (height <? target schedule) then
      active_round state height head schedule contract current_index (reset || current_membership_changed) continue
    else if is_sharing (rt_store rt) then abandon_round height head epoch current_index (continue [] None None)
    else continue [] None None)).

Definition heartbeat (reorg : bool) : Eff unit := let! reconciled := reconcile_head reorg in drive_tasks reconciled.
End heartbeat.

(** ** The service loop ([run_dkg_runtime]) *)

Section service.
Context {C : Crypto} {K : Secp256k1} {B : Blst} {Z : Ecies} {Sy : Symmetric} {A : SolAbi} {P : ProverHost} {H : DkgHost}.

Inductive ServicePhase : Type := Starting | Running | Stopped.

Record Service : Type := mkService {
  phase : ServicePhase;
  runtime : Runtime;
}.

(** What wakes the service: a canonical event or the timer, with the flag of a reorganisation;
    an event at which no header can be read; the end of the notifications. In between, the
    signer journals duties for consensus. *)
Inductive ServiceEvent : Type :=
| EventHeartbeat (reorg : bool)
| EventNoHeader
| EventClosed
| EventDuty (journal : option DutyJournal).

(** A failed cleanup ends the service. *)
Definition invalidated (phase : ServicePhase) (rt : Runtime) : Service :=
  let '(rt, r) := invalidate_canonical_attempt rt in
  mkService (match r with Ok _ => phase | Err _ => Stopped end) rt.

(** The initial reconciliation invalidates on every failure; the main loop keeps the work of a
    heartbeat whose head changed. *)
Definition serve (s : Service) (e : ServiceEvent) : Service :=
  match phase s, e with
  | Stopped, _ => s
  | Starting, EventHeartbeat reorg =>
      let '(rt, r) := heartbeat reorg (runtime s) in
      match r with Ok _ => mkService Running rt | Err _ => invalidated Starting rt end
  | Running, EventHeartbeat reorg =>
      let '(rt, r) := heartbeat reorg (runtime s) in
      match r with
      | Ok _ | Err CanonicalHeadChanged => mkService Running rt
      | Err _ => invalidated Running rt
      end
  | phase, EventNoHeader => invalidated phase (runtime s)
  | Starting, EventClosed => mkService Stopped (runtime s)
  | Running, EventClosed => let '(rt, _) := invalidate_canonical_attempt (runtime s) in mkService Stopped rt
  | phase, EventDuty journal =>
      let signer := rt_signer (runtime s) in
      mkService phase
        (with_signer (runtime s) (mkDbftSigner (key signer) (account signer) (current_share signer) (previous_share signer) journal))
  end.

Definition serve_all (s : Service) (events : list ServiceEvent) : Service := foldl serve s events.

(** The service as it starts: a fresh machine, and a signer that was given no key-generation
    share. *)
Definition service_start (signer : DbftSigner) (store : DkgKeyStore) (s : Service) : Prop :=
  exists m, machine_new (cfg_chain_id config) = Ok m /\ current_share signer = None /\ previous_share signer = None /\
    s = mkService Starting (mkRuntime signer store store m ∅ 0).
End service.
