(* ===== verification/DkgService.v ===== *)
(** What the key-generation service of DkgRuntime.v guarantees: the signer's shares follow the
    settled round of the canonical head, the task queue, the prover jobs and the pool agree,
    and where the loop gives up more than it means to. *)

From S2P Require Import Prelude Extern Instances Tpke DkgParams Lagrange Dkg Pvss Threshold DkgState Storage DkgStorage Journal Signer.
From S2P Require Import DkgReplay DkgSettled DkgTask DkgExecutor DkgMaterial DkgTransaction StaticPool DkgRuntime.

Create HintDb service.

(** ** The identity of the key store *)

Section identity.
Context {B : Blst} {Z : Ecies} {Sy : Symmetric}.

Lemma receive_share_identity s i from messages pvss : identity (receive_share s i from messages pvss).1 = identity s.
Proof.
  unfold receive_share. destruct (sharing s); [|done]. destruct (decrypt_received_share _ _ _ _); [|done]. by destruct (store_received _ _ _).
Qed.

Lemma receive_reshare_identity s i from messages pvss : identity (receive_reshare s i from messages pvss).1 = identity s.
Proof.
  unfold receive_reshare. destruct (resharing s); [|done]. destruct (decrypt_received_share _ _ _ _); [|done]. by destruct (store_received _ _ _).
Qed.

Lemma receive_recovery_identity s from message pvss : identity (receive_recovery s from message pvss).1 = identity s.
Proof.
  unfold receive_recovery. destruct (recovering s); [|done]. destruct (let? _ := _ in _); [|done]. by destruct (store_received _ _ _).
Qed.

Lemma receive_all_identity {T} (receive : DkgKeyStore -> T -> DkgKeyStore * result KeyStoreError bool) l :
  (forall s x, identity (receive s x).1 = identity s) -> forall s n, identity (receive_all receive s l n).1 = identity s.
Proof.
  intros Hr. induction l as [|x l IH]; intros s n; [done|]. cbn [receive_all]. specialize (Hr s x).
  destruct (receive s x) as [s' [fresh|]]; [|done]. cbn in Hr. by rewrite IH.
Qed.

Lemma apply_round_identity s i r : identity (apply_dkg_canonical_round s i r).1 = identity s.
Proof.
  unfold apply_dkg_canonical_round. cbv zeta. destruct (let? _ := _ in _) as [[j|]|]; [|done..].
  pose proof (receive_all_identity (receive_share_from j) (round_shares r) (fun s x => receive_share_identity s _ _ _ _) s 0) as H1.
  destruct (receive_all _ s _ _) as [s1 [n|]]; [|done]. cbn in H1.
  pose proof (receive_all_identity (receive_reshare_from j) (round_reshares r) (fun s x => receive_reshare_identity s _ _ _ _) s1 0) as H2.
  destruct (receive_all _ s1 _ _) as [s2 [k|]]; cbn in H2 |- *; by rewrite H2.
Qed.

Lemma prepare_share_identity s fuel chain_id rng : identity (prepare_share s fuel chain_id rng).1 = identity s.
Proof. unfold prepare_share. cbv zeta. by destruct (let? _ := _ in _) as [[[? ?] ?]|]. Qed.

Lemma prepare_recovered_identity s rng rng' : identity (prepare_recovered_reshare s rng rng').1 = identity s.
Proof. unfold prepare_recovered_reshare. cbv zeta. by destruct (let? _ := _ in _) as [[[? ?] ?]|]. Qed.

Lemma rebuild_inner_identity s fuel chain_id rng i r force :
  identity (rebuild_dkg_canonical_round_inner s fuel chain_id rng i r force).1 = identity s.
Proof.
  unfold rebuild_dkg_canonical_round_inner. cbv zeta. destruct (let? _ := _ in _); [|done].
  assert (Ha : forall s0, identity s0 = identity s -> identity (let '(s1, o) := apply_dkg_canonical_round s0 i r in
    (s1, let? outcome := o in Ok (mkDkgReplayOutcome (shares_received outcome) (reshares_received outcome) (recoveries_received outcome) true))).1 = identity s).
  { intros s0 <-. pose proof (apply_round_identity s0 i r). by destruct (apply_dkg_canonical_round s0 i r). }
  destruct i as [i|]; [|by apply Ha].
  pose proof (prepare_share_identity (on_share_period_start s force) fuel chain_id rng) as Hp.
  destruct (prepare_share _ _ _ _) as [s1 [m|]]; cbn in Hp; [|done]. by apply Ha.
Qed.

Lemma rebuild_round_identity s fuel chain_id rng i r : identity (rebuild_dkg_canonical_round s fuel chain_id rng i r).1 = identity s.
Proof. apply rebuild_inner_identity. Qed.

Lemma rebuild_store_identity s fuel chain_id rng i r e s' : rebuild_dkg_canonical_store s fuel chain_id rng i r e = Ok s' -> identity s' = identity s.
Proof.
  unfold rebuild_dkg_canonical_store. destruct (_ =? 0); [done|]. destruct (negb _); [done|]. cbv zeta.
  pose proof (rebuild_inner_identity (detached_replay_baseline s (canonical_round r - 1)) fuel chain_id rng i r (1 <? canonical_round r)) as H1.
  destruct (rebuild_dkg_canonical_round_inner _ _ _ _ _ _ _) as [s1 [o|]]; [|done]. cbn in H1 |- *.
  unfold apply_dkg_canonical_epoch. destruct (validate_store_round _ _); [|done]. destruct (_ && _); [done|].
  pose proof (epoch_identity s1 (default [] (self_pvss e)) (default [] (aggregated_commitment e)) (default [] (previous_commitment e))
    (bool_decide (is_Some i))) as H2.
  destruct (on_epoch_change _ _ _ _ _) as [s2 [[|round]|]]; cbn in H2 |- *; try done.
  destruct (_ =? _); [|done]. intros [= <-]. by rewrite H2, H1.
Qed.

Lemma apply_recovery_identity s r : identity (apply_dkg_canonical_recovery s r).1 = identity s.
Proof.
  unfold apply_dkg_canonical_recovery. cbv zeta. destruct (let? _ := _ in _); [|done].
  match goal with |- context [receive_all ?f s ?l 0] =>
    pose proof (receive_all_identity f l (fun s x => receive_recovery_identity s _ _ _) s 0) as Hi end.
  by destruct (receive_all _ s _ _).
Qed.

Lemma generate_identity s fuel rng rng' sender chain_id plan recipients :
  identity (generate_dkg_task_material s fuel rng rng' sender chain_id plan recipients).1 = identity s.
Proof.
  unfold generate_dkg_task_material. cbv zeta. destruct (validate_task _ _ _ _); [|done]. destruct (plan_method plan); [|done|done|].
  - pose proof (prepare_share_identity s fuel chain_id rng). by destruct (prepare_share _ _ _ _).
  - pose proof (prepare_recovered_identity s rng rng'). by destruct (prepare_recovered_reshare _ _ _).
Qed.
End identity.

(** ** Effects that keep an invariant, errors included *)

Section effects.
Context {C : Crypto} {K : Secp256k1} {B : Blst} {Z : Ecies} {Sy : Symmetric} {A : SolAbi} {P : ProverHost} {H : DkgHost}.

Definition keeps {T} (I : Runtime -> Prop) (m : Eff T) : Prop := forall rt, I rt -> I (m rt).1.

(** An invariant that does not depend on the time. *)
Class Timeless (I : Runtime -> Prop) : Prop := timeless rt : I rt -> I (tick rt).

Section keeps.
Context (I : Runtime -> Prop) {TI : Timeless I}.

Lemma keeps_ret {T} (x : T) : keeps I (ret x).
Proof. intros rt Hi. exact Hi. Qed.
Lemma keeps_throw {T} e : keeps I (throw (T := T) e).
Proof. intros rt Hi. exact Hi. Qed.
Lemma keeps_lift {T} (r : result RuntimeError T) : keeps I (lift r).
Proof. intros rt Hi. exact Hi. Qed.
Lemma keeps_get : keeps I get.
Proof. intros rt Hi. exact Hi. Qed.
Lemma keeps_machine : keeps I machine.
Proof. intros rt Hi. exact Hi. Qed.
Lemma keeps_call {T} (f : nat -> T) : keeps I (call f).
Proof. intros rt. apply timeless. Qed.

Lemma keeps_then {T U} (m : Eff T) (k : T -> Eff U) : keeps I m -> (forall x, keeps I (k x)) -> keeps I (then_do m k).
Proof. intros Hm Hk rt Hi. apply Hm in Hi. unfold then_do. destruct (m rt) as [rt' [x|]]; cbn in *; [by apply Hk|done]. Qed.

Lemma keeps_attempt {T} (m : Eff T) : keeps I m -> keeps I (attempt m).
Proof. intros Hm rt Hi. apply Hm in Hi. unfold attempt. by destruct (m rt). Qed.

Lemma keeps_modify f : (forall rt, I rt -> I (f rt)) -> keeps I (modify f).
Proof. intros Hf rt. apply Hf. Qed.

Lemma keeps_machine_set f : (forall rt, I rt -> I (with_machine rt (f (rt_machine rt)))) -> keeps I (machine_set f).
Proof. intros Hf rt. apply Hf. Qed.

Lemma keeps_machine_do {E T} (error : E -> RuntimeError) (f : DkgRuntimeMachine -> DkgRuntimeMachine * result E T) :
  (forall rt, I rt -> I (with_machine rt (f (rt_machine rt)).1)) -> keeps I (machine_do error f).
Proof. intros Hf rt Hi. apply Hf in Hi. unfold machine_do. by destruct (f _). Qed.

Lemma keeps_store_do {E T} (error : E -> RuntimeError) (f : DkgKeyStore -> DkgKeyStore * result E T) :
  (forall rt, I rt -> I (with_store rt (f (rt_store rt)).1)) -> keeps I (store_do error f).
Proof. intros Hf rt Hi. apply Hf in Hi. unfold store_do. by destruct (f _). Qed.

Lemma keeps_when b m : keeps I m -> keeps I (when b m).
Proof. intros Hm. destruct b; [exact Hm|apply keeps_ret]. Qed.

Lemma keeps_for_each {T} (l : list T) f : (forall x, x ∈ l -> keeps I (f x)) -> keeps I (for_each l f).
Proof.
  induction l as [|x l IH]; intros Hf; [intros rt Hi; exact Hi|]. apply keeps_then; [apply Hf; set_solver|]. intros _. apply IH. set_solver.
Qed.

Lemma keeps_provided {T} (f : nat -> result string T) : keeps I (provided f).
Proof. apply keeps_then; [apply keeps_call|]. intros x. apply keeps_lift. Qed.
End keeps.
End effects.

#[export] Hint Resolve keeps_ret keeps_throw keeps_lift keeps_get keeps_machine keeps_call keeps_provided : service.
#[export] Hint Extern 0 (Timeless _) => apply _ : service.

(** Follow the structure of an effect down to the steps that change the state. *)
Ltac keeping :=
  repeat (intros;
    first
      [ solve [eauto with service]
      | apply keeps_then | apply keeps_attempt | apply keeps_when | apply keeps_for_each
      | match goal with
        | |- keeps _ (match ?x with _ => _ end) => destruct x
        | |- keeps _ (let _ := _ in _) => cbv zeta
        end ]).

Section heads.
Context {C : Crypto} {K : Secp256k1} {B : Blst} {Z : Ecies} {Sy : Symmetric} {A : SolAbi} {P : ProverHost} {H : DkgHost}.
Context (I : Runtime -> Prop) {TI : Timeless I}.

Lemma keeps_ensure head : keeps I (ensure_canonical_head head).
Proof. unfold ensure_canonical_head. keeping. Qed.
Lemma keeps_state head : keeps I (state_by_block_hash head).
Proof. unfold state_by_block_hash. keeping. Qed.
Lemma keeps_header : keeps I canonical_header.
Proof. unfold canonical_header. keeping. Qed.
Lemma keeps_discontinuity height : keeps I (canonical_discontinuity height).
Proof. unfold canonical_discontinuity. keeping. Qed.
End heads.
#[export] Hint Resolve keeps_ensure keeps_state keeps_header keeps_discontinuity : service.

Section state_of_head.
Context {C : Crypto} {K : Secp256k1} {B : Blst} {Z : Ecies} {Sy : Symmetric} {A : SolAbi} {P : ProverHost} {H : DkgHost}.
Context (I : Runtime -> Prop) {TI : Timeless I}.
Lemma keeps_state_of_head head : keeps I (state_of_head head).
Proof. unfold state_of_head. keeping. Qed.
Lemma keeps_load : keeps I load_encrypted.
Proof. unfold load_encrypted. keeping. Qed.
Lemma keeps_inputs head : keeps I (read_transaction_inputs head).
Proof. unfold read_transaction_inputs. keeping. Qed.
End state_of_head.
#[export] Hint Resolve keeps_state_of_head keeps_load keeps_inputs : service.

Section service.
Context {C : Crypto} {K : Secp256k1} {B : Blst} {Z : Ecies} {Sy : Symmetric} {A : SolAbi} {P : ProverHost} {H : DkgHost}.

(** ** The work of a heartbeat after the settled round

    [i] is the identity of the key store, which the service never changes. *)

Section work.
Variable i : DkgParameters * option Address * bytes.

(** Machines that differ in the head, the epoch, the planner and the canonical material only. *)
Definition same_work (m m' : DkgRuntimeMachine) : Prop :=
  signer_installation m' = signer_installation m /\ executor m' = executor m /\ transactions m' = transactions m /\
  preparations m' = preparations m /\ canonical_tasks m' = canonical_tasks m /\ owned_transactions m' = owned_transactions m /\
  pending_transaction_releases m' = pending_transaction_releases m.

Class WorkInvariant (I : Runtime -> Prop) : Prop := {
  work_timeless :: Timeless I;
  work_identity rt : I rt -> identity (rt_store rt) = i /\ identity (rt_file rt) = i;
  work_store rt s : I rt -> identity s = i -> I (with_store rt s);
  work_file rt s : I rt -> identity s = i -> I (with_file rt s);
  work_discard : keeps I discard_owned_pool_transactions;
  work_reset rt : I rt -> I (with_machine rt (reset_task_work (rt_machine rt) (cfg_chain_id config)).1);
  work_same rt m : I rt -> same_work (rt_machine rt) m -> I (with_machine rt m);
  work_clear rt inputs : I rt -> I (with_machine rt (set_inputs (rt_machine rt) inputs ∅));
  work_reconcile tasks : keeps I (reconcile_canonical_local_tasks tasks);
  work_run height head c inputs : keeps I (run_tasks height head c inputs);
}.

Context (I : Runtime -> Prop) {W : WorkInvariant I}.

Lemma keeps_then_ok {T U} (Q : T -> Prop) (m : Eff T) (k : T -> Eff U) :
  (forall rt, I rt -> I (m rt).1 /\ forall x, (m rt).2 = Ok x -> Q x) -> (forall x, Q x -> keeps I (k x)) -> keeps I (then_do m k).
Proof.
  intros Hm Hk rt Hi. destruct (Hm rt Hi) as [Hi' Hq]. unfold then_do. destruct (m rt) as [rt' [x|]]; cbn in *; [|done].
  apply Hk; [by apply Hq|done].
Qed.

Lemma keeps_same f : (forall m, same_work m (f m)) -> keeps I (machine_set f).
Proof. intros Hf. apply keeps_machine_set. intros rt Hi. by apply work_same. Qed.

Lemma keeps_store_step {E T} (error : E -> RuntimeError) (f : DkgKeyStore -> DkgKeyStore * result E T) :
  (forall s, identity (f s).1 = identity s) -> keeps I (store_do error f).
Proof. intros Hf. apply keeps_store_do. intros rt Hi. apply work_store; [done|]. rewrite Hf. by apply work_identity. Qed.

Lemma keeps_save s : identity s = i -> keeps I (save_encrypted s).
Proof.
  intros Hs. unfold save_encrypted. apply keeps_then; [apply keeps_call, _|]. intros o.
  assert (Hf : keeps I (modify (fun rt => with_file rt s))) by (apply keeps_modify; intros; by apply work_file).
  destruct o; [done| |apply keeps_throw]. apply keeps_then; [done|]. intros _. apply keeps_throw.
Qed.

Lemma keeps_persist : keeps I persist.
Proof.
  unfold persist. apply (keeps_then_ok (fun rt => identity (rt_store rt) = i)); [|intros x Hx; by apply keeps_save].
  intros rt Hi. split; [done|]. intros x [= <-]. by apply work_identity.
Qed.

Lemma keeps_discard_and_reset : keeps I discard_and_reset.
Proof.
  unfold discard_and_reset. apply keeps_then; [apply work_discard|]. intros _. apply keeps_machine_do. intros rt Hi. by apply work_reset.
Qed.

(** The resets after [reset_task_work] only forget. *)
Lemma reset_then (f : DkgRuntimeMachine -> DkgRuntimeMachine) inputs : (forall m, same_work m (f m)) ->
  keeps I (machine_do RuntimeBuild (fun m =>
    let '(m, r) := reset_task_work m (cfg_chain_id config) in
    match r with Err e => (m, Err e) | Ok _ => (set_inputs (f m) inputs ∅, Ok tt) end)).
Proof.
  intros Hf. apply keeps_machine_do. intros rt Hi. apply work_reset in Hi.
  destruct (reset_task_work (rt_machine rt) _) as [m [[]|]]; cbn in Hi |- *; [|done].
  apply (work_same _ (f m)) in Hi; [|apply Hf]. by apply (work_clear _ inputs) in Hi.
Qed.

Lemma keeps_suspend height head : keeps I (suspend_task_work_at_head height head).
Proof.
  unfold suspend_task_work_at_head. apply keeps_then; [apply work_discard|]. intros _.
  apply keeps_then; [apply (reset_then (fun m => set_canonical m None None) None); by intros []|]. intros _.
  apply keeps_then; [apply keeps_ensure, _|]. intros _. apply keeps_same. by intros [].
Qed.

Lemma keeps_suspending {T} height head (m : Eff T) k : keeps I m -> (forall x, keeps I (k x)) -> keeps I (suspending height head m k).
Proof.
  intros Hm Hk. unfold suspending. apply keeps_then; [by apply keeps_attempt|]. intros [x|e]; [apply Hk|apply keeps_suspend].
Qed.

Lemma keeps_suspending_ok {T} (Q : T -> Prop) height head (m : Eff T) k :
  (forall rt, I rt -> I (m rt).1 /\ forall x, (m rt).2 = Ok x -> Q x) -> (forall x, Q x -> keeps I (k x)) ->
  keeps I (suspending height head m k).
Proof.
  intros Hm Hk. unfold suspending. apply (keeps_then_ok (fun r => forall x, r = Ok x -> Q x)).
  - intros rt Hi. destruct (Hm rt Hi) as [Hi' Hq]. unfold attempt. destruct (m rt) as [rt' r]. split; [done|]. by intros x [= <-].
  - intros [x|e] Hq; [by apply Hk, Hq|apply keeps_suspend].
Qed.

Hint Resolve keeps_persist keeps_discard_and_reset keeps_suspend : service.
Hint Extern 1 (keeps _ (machine_set _)) => apply keeps_same; intros []; done : service.

Lemma keeps_replay_recovery state round index : keeps I (replay_recovery state round index).
Proof.
  unfold replay_recovery, persist_if. keeping.
  - apply keeps_modify. intros rt Hi. apply work_store; [done|]. by apply work_identity.
  - apply keeps_store_step. intros s. apply apply_recovery_identity.
Qed.

Lemma keeps_replay_round state index next rebuild : keeps I (replay_round state index next rebuild).
Proof.
  unfold replay_round, persist_if. keeping. apply keeps_store_step. intros s.
  destruct (_ || _); [apply rebuild_round_identity|apply apply_round_identity].
Qed.

Lemma keeps_replay_recoveries state height schedule contract index round :
  keeps I (replay_recoveries state height schedule contract index round).
Proof.
  pose proof (keeps_replay_recovery state round) as Hr. unfold replay_recoveries. keeping.
  apply keeps_modify. intros rt Hi. apply work_store; [done|]. by apply work_identity.
Qed.
Hint Resolve keeps_replay_round keeps_replay_recoveries : service.

Lemma keeps_active_round state height head schedule contract index rebuild k :
  (forall a b c, keeps I (k a b c)) -> keeps I (active_round state height head schedule contract index rebuild k).
Proof.
  intros Hk. unfold active_round. apply keeps_suspending; [keeping|]. intros _. apply keeps_suspending; [keeping|]. intros pending.
  apply keeps_then; [keeping|]. intros rt. cbv zeta. apply keeps_then; [keeping|]. intros _. apply keeps_then; [keeping|]. intros _.
  apply keeps_suspending; [keeping|]. intros c. apply Hk.
Qed.

Lemma keeps_abandon_round height head epoch index k : keeps I k -> keeps I (abandon_round height head epoch index k).
Proof.
  intros Hk. unfold abandon_round. apply (keeps_suspending_ok (fun s => identity s = i)).
  { intros rt Hi. split; [apply keeps_load; [apply _|done]|]. unfold load_encrypted, then_do, call, lift, get, ret. cbn.
    destruct (load_outcome _); cbn; [|done]. intros x [= <-]. by apply work_identity. }
  intros loaded Hl. cbv zeta. apply keeps_suspending; [by apply keeps_save|]. intros _.
  apply keeps_then; [apply keeps_modify; intros rt Hi; by apply work_store|]. intros _.
  apply keeps_then; [apply work_discard|]. intros _.
  apply keeps_then; [|intros _; exact Hk].
  apply (reset_then (fun m => set_canonical (set_epoch m (Some epoch) (Some (index, None))) None None) None). by intros [].
Qed.

Lemma keeps_local_inputs state height head c pending active k : (forall x, keeps I (k x)) ->
  keeps I (local_inputs state height head c pending active k).
Proof.
  intros Hk. unfold local_inputs. destruct active as [canonical|].
  - apply keeps_suspending; [keeping|]. intros tasks. apply keeps_then; [apply work_reconcile|]. intros _.
    apply keeps_suspending; [keeping|]. intros inputs. apply keeps_then; [keeping|]. intros rt.
    apply keeps_suspending; [keeping|]. intros _. keeping.
  - apply keeps_then; [|intros _; apply Hk]. apply keeps_machine_set. intros rt Hi. by apply work_clear.
Qed.

Lemma keeps_drive x : keeps I (drive_tasks x).
Proof.
  destruct x as [[[[[[height head] state] reset] round] index] previous]. unfold drive_tasks.
  apply keeps_suspending; [keeping|]. intros schedule. apply keeps_then; [keeping|]. intros rt.
  apply keeps_suspending; [keeping|]. intros contract. destruct (negb _); [keeping|]. cbv zeta.
  apply keeps_then.
  { apply keeps_when, keeps_then; [apply work_discard|]. intros _.
    apply (reset_then (fun m => set_canonical (set_epoch m (Some (schedule, next_round contract)) (Some (index, None))) None None) None).
    by intros []. }
  intros _. apply keeps_then; [keeping|]. intros m. apply keeps_then; [keeping|]. intros _. apply keeps_then; [keeping|]. intros rt'.
  assert (Hc : forall pending pending_index active,
    keeps I (let! rt := get in
      local_inputs state height head
        (mkDkgTaskContext (store_parameters (rt_store rt)) schedule height (next_round contract) index pending_index
           (share_ready contract) (recovery_indices contract)) pending active
        (run_tasks height head
           (mkDkgTaskContext (store_parameters (rt_store rt)) schedule height (next_round contract) index pending_index
              (share_ready contract) (recovery_indices contract))))).
  { intros. apply keeps_then; [keeping|]. intros rt0. apply keeps_local_inputs. intros. apply work_run. }
  destruct (_ && _); [by apply keeps_active_round|]. destruct (is_sharing _); [apply keeps_abandon_round|]; apply Hc.
Qed.
End work.

(** ** The signer during the task part *)

Section frame.
Variable i : DkgParameters * option Address * bytes.
Variable signer : DbftSigner.
Variable marker : option (N * option N * B256).

Definition framed (rt : Runtime) : Prop :=
  rt_signer rt = signer /\ signer_installation (rt_machine rt) = marker /\ identity (rt_store rt) = i /\ identity (rt_file rt) = i.

#[local] Instance framed_timeless : Timeless framed.
Proof. intros rt Hi. exact Hi. Qed.

Lemma framed_machine rt m : framed rt -> signer_installation m = signer_installation (rt_machine rt) -> framed (with_machine rt m).
Proof. intros (? & Hm & ? & ?) E. unfold framed. cbn. by rewrite E, Hm. Qed.

Lemma framed_set f : (forall m, signer_installation (f m) = signer_installation m) -> keeps framed (machine_set f).
Proof. intros Hf. apply keeps_machine_set. intros rt Hi. by apply framed_machine. Qed.

Lemma framed_do {E T} (error : E -> RuntimeError) (f : DkgRuntimeMachine -> DkgRuntimeMachine * result E T) :
  (forall m, signer_installation (f m).1 = signer_installation m) -> keeps framed (machine_do error f).
Proof. intros Hf. apply keeps_machine_do. intros rt Hi. by apply framed_machine. Qed.

Lemma framed_remove hashes : keeps framed (remove_transactions hashes).
Proof. apply keeps_modify. intros rt Hi. exact Hi. Qed.

Lemma framed_discard : keeps framed discard_owned_pool_transactions.
Proof. intros rt Hi. exact Hi. Qed.

Lemma framed_persist : keeps framed persist.
Proof.
  intros rt Hi. pose proof Hi as (_ & _ & H1 & H2). unfold persist, then_do, get, save_encrypted, call. cbn.
  destruct (save_outcome _); cbn; destruct Hi as (? & ? & ? & ?); unfold framed; cbn; by split_and!.
Qed.

Hint Resolve framed_remove framed_discard framed_persist : service.
Hint Extern 1 (keeps _ (machine_set _)) => apply framed_set; intros []; done : service.

Lemma framed_record_preparation id r : keeps framed (record_preparation id r).
Proof. unfold record_preparation. keeping. apply framed_do. intros m. by destruct (record_prepared _ _ _). Qed.
Lemma framed_record_submission id height r : keeps framed (record_submission id height r).
Proof. unfold record_submission. keeping. apply framed_do. intros m. by destruct (record_submitted _ _ _ _). Qed.
Hint Resolve framed_record_preparation framed_record_submission : service.

Lemma framed_start inputs head id plan : keeps framed (start_preparation inputs head id plan).
Proof.
  unfold start_preparation, prepare_task_material. keeping. intros rt0. apply keeps_store_do. intros rt (? & ? & Hs & ?). unfold framed. cbn. by rewrite generate_identity.
Qed.

Lemma framed_submit head id calldata : keeps framed (build_and_submit head id calldata).
Proof.
  unfold build_and_submit, next_request, submit_dkg_pool_transaction. keeping.
  apply framed_do. intros m. by destruct (bump _ _ _ _).
Qed.
Hint Resolve framed_start framed_submit : service.

Lemma framed_perform inputs head height action : keeps framed (perform_action inputs head height action).
Proof.
  unfold perform_action, handle_action. destruct action; keeping. apply framed_do. intros m. by destruct (record_receipt _ _ _).
Qed.
Hint Resolve framed_perform : service.

Lemma framed_run height head c inputs : keeps framed (run_tasks height head c inputs).
Proof.
  unfold run_tasks, queue_tasks, poll_preparations, poll_preparation, take_actions, commit_transaction_releases, commit_release. keeping.
  apply framed_do. intros m. by destruct (take_tasks _ _).
Qed.

Lemma framed_reset rt : framed rt -> framed (with_machine rt (reset_task_work (rt_machine rt) (cfg_chain_id config)).1).
Proof. intros Hi. apply framed_machine; [done|]. unfold reset_task_work. by destruct (builder_new _). Qed.

Lemma framed_reconcile tasks : keeps framed (reconcile_canonical_local_tasks tasks).
Proof.
  unfold reconcile_canonical_local_tasks, retire_canonical_task, discard_and_reset. keeping.
  intros _. apply keeps_machine_do. intros rt Hi. by apply framed_reset.
Qed.

#[local] Instance framed_work : WorkInvariant i framed.
Proof.
  split.
  - apply _.
  - by intros rt (? & ? & ? & ?).
  - intros rt s (? & ? & ? & ?) ?. unfold framed; cbn; by split_and!.
  - intros rt s (? & ? & ? & ?) ?. unfold framed; cbn; by split_and!.
  - apply framed_discard.
  - apply framed_reset.
  - intros rt m Hi (? & _). by apply framed_machine.
  - intros rt inputs Hi. by apply framed_machine.
  - apply framed_reconcile.
  - apply framed_run.
Qed.

Lemma framed_drive x : keeps framed (drive_tasks x).
Proof. apply (keeps_drive i). apply _. Qed.
End frame.

(** ** The signer follows the settled round *)

(** What an effect does: [Post] after success, [Exc] after an error. *)
Definition triple {T} (Pre : Runtime -> Prop) (m : Eff T) (Post : T -> Runtime -> Prop) (Exc : Runtime -> Prop) : Prop :=
  forall rt, Pre rt -> match m rt with (rt', Ok x) => Post x rt' | (rt', Err _) => Exc rt' end.

Lemma triple_then {T U} Pre (m : Eff T) Mid (k : T -> Eff U) Post Exc :
  triple Pre m Mid Exc -> (forall x, triple (Mid x) (k x) Post Exc) -> triple Pre (then_do m k) Post Exc.
Proof. intros Hm Hk rt Hp. specialize (Hm rt Hp). unfold then_do. destruct (m rt) as [rt' [x|]]; [by apply Hk|done]. Qed.

Lemma triple_keeps {T} I (m : Eff T) : keeps I m -> triple I m (fun _ => I) I.
Proof. intros Hm rt Hi. apply Hm in Hi. by destruct (m rt) as [rt' [x|]]. Qed.

Lemma triple_weaken {T} (Pre Pre' : Runtime -> Prop) (m : Eff T) (Post Post' : T -> Runtime -> Prop) (Exc Exc' : Runtime -> Prop) :
  triple Pre' m Post' Exc' -> (forall rt, Pre rt -> Pre' rt) -> (forall x rt, Post' x rt -> Post x rt) -> (forall rt, Exc' rt -> Exc rt) ->
  triple Pre m Post Exc.
Proof. intros Hm H1 H2 H3 rt Hp. specialize (Hm rt (H1 rt Hp)). destruct (m rt) as [rt' [x|]]; auto. Qed.

Lemma triple_run {T} Pre (m : Eff T) Post Exc rt rt' x : triple Pre m Post Exc -> Pre rt -> m rt = (rt', Ok x) -> Post x rt'.
Proof. intros Hm Hp E. specialize (Hm rt Hp). by rewrite E in Hm. Qed.

Definition share_secret (o : option DkgPrivateShare) : option bytes := secret <$> o.
Definition share_key (o : option DkgPrivateShare) : option bytes := epoch_public_key <$> (o ≫= share_epoch).
Definition share_round (o : option DkgPrivateShare) : option N := Signer.epoch_round <$> (o ≫= share_epoch).

(** The signer's shares are those of the settled material, for its round and the one before. *)
Definition signer_holds (d : DkgParameters) (s : DbftSigner) (c : DkgSettledCanonical) : Prop :=
  shares_of_settled d c (share_secret (current_share s)) (share_key (current_share s))
    (share_secret (previous_share s)) (share_key (previous_share s)) /\
  (is_Some (current_share s) -> share_round (current_share s) = Some (settled_round c)) /\
  (is_Some (previous_share s) -> share_round (previous_share s) = Some (settled_round c - 1)).

(** The settled material of a block, for the validator with an account. *)
Definition settled_at (d : DkgParameters) (account : Address) (head : B256) (c : DkgSettledCanonical) : Prop :=
  exists round current, read_dkg_current_round (state_of head) = Ok round /\
    read_governance_validator_set_from_storage (governance_storage (state_of head)) = Ok current /\
    settled_read (key_storage (state_of head)) round (validator_index (original current) account) d = Ok c.

Definition mark (c : DkgSettledCanonical) : N * option N * B256 := (settled_round c, settled_index c, settled_canonical_digest c).

Lemma shares_of_settled_installed d c share key previous previous_key : shares_of_settled d c share key previous previous_key ->
  shares_of_settled d c share (if share then key else None) previous (if previous then previous_key else None).
Proof.
  assert (Hc : forall index pvsses commitment x y, canonical_share d index pvsses commitment x y ->
    canonical_share d index pvsses commitment x (if x then y else None)).
  { intros [i|] pvsses commitment x y; [|done]. by intros (c0 & x0 & y0 & ? & -> & ? & ? & ?); exists c0, x0, y0. }
  unfold shares_of_settled. destruct (settled_pvss c), (settled_epoch c); [|done..]. intros [? ?]. split; by apply Hc.
Qed.

Lemma share_with_epoch_Ok share round key head o : share_with_epoch share round key head = Ok o ->
  share_secret (option_map (fun '(x, e) => managed x e) o) = share /\
  share_key (option_map (fun '(x, e) => managed x e) o) = (if share then key else None) /\
  (is_Some o -> exists r, round = Ok r /\ share_round (option_map (fun '(x, e) => managed x e) o) = Some r).
Proof.
  unfold share_with_epoch. destruct share as [x|]; [|intros [= <-]; split_and!; [done..|by intros []]].
  intros Hs. apply result_bind_Ok in Hs as (r & -> & Hs). apply result_bind_Ok in Hs as (y & Hy & [= <-]).
  apply ok_or_Ok in Hy as ->. split_and!; [done..|]. intros _. by exists r.
Qed.

Lemma installed_holds head rt rt' c : holds_settled (rt_store rt) c -> install_signer_shares head rt = (rt', Ok tt) ->
  rt' = with_signer rt (rt_signer rt') /\ account (rt_signer rt') = account (rt_signer rt) /\
  signer_holds (store_parameters (rt_store rt)) (rt_signer rt') c.
Proof.
  intros [Hr Hs] E. unfold install_signer_shares in E. destruct (let? current := _ in _) as [signer|] eqn:Ei; [|done].
  injection E as <-. cbn. apply result_bind_Ok in Ei as (current & Hc & Ei). apply result_bind_Ok in Ei as (previous & Hp & Ei).
  apply map_err_Ok in Ei. unfold replace_canonical_dkg_private_shares in Ei. apply result_bind_Ok in Ei as (? & _ & [= <-]).
  split_and!; [done..|]. apply share_with_epoch_Ok in Hc as (C1 & C2 & C3), Hp as (P1 & P2 & P3).
  unfold signer_holds, set_shares. cbn [current_share previous_share]. rewrite C1, C2, P1, P2. split_and!.
  - by apply shares_of_settled_installed.
  - intros [z Hx]. destruct current as [y|]; [|done]. destruct C3 as (r & [= <-] & ->); [done|]. by rewrite Hr.
  - intros [z Hx]. destruct previous as [y|]; [|done]. destruct P3 as (r & Hok & ->); [done|]. apply ok_or_Ok in Hok.
    unfold checked_sub in Hok. rewrite Hr in Hok. destruct (_ <=? _); [|done]. by injection Hok as <-.
Qed.

Section signer.
Context {L : FieldLaws B} {G : GroupLaws B}.
Variable i : DkgParameters * option Address * bytes.
Variable account : Address.
Let d := i.1.1.
Variable n : N.
Hypothesis committee : dkg_parameters_new n = Ok d.

Record signer_ok (rt : Runtime) : Prop := {
  ok_store : identity (rt_store rt) = i;
  ok_file : identity (rt_file rt) = i;
  ok_account : Signer.account (rt_signer rt) = account;
  ok_marker :
    match signer_installation (rt_machine rt) with
    | Some marker => exists head c, settled_at d account head c /\ marker = mark c /\ signer_holds d (rt_signer rt) c
    | None => current_share (rt_signer rt) = None /\ previous_share (rt_signer rt) = None
    end;
}.

#[local] Instance signer_ok_timeless : Timeless signer_ok.
Proof. intros rt []. by split. Qed.

Lemma store_parameters_of rt : signer_ok rt -> store_parameters (rt_store rt) = d.
Proof. intros Hi. exact (f_equal (fun x => x.1.1) (ok_store _ Hi)). Qed.

(** Ready for installation: the store holds the shares of the material. *)
Definition ready (c : DkgSettledCanonical) (rt : Runtime) : Prop := signer_ok rt /\ holds_settled (rt_store rt) c.
#[local] Instance ready_timeless c : Timeless (ready c).
Proof. intros rt [Hi Hs]. split; [by apply timeless|done]. Qed.

Lemma install_marks head c : settled_at d account head c ->
  triple (ready c)
    (let! _ := install_signer_shares head in machine_set (fun m => set_installation m (Some (mark c))))
    (fun _ rt => signer_ok rt /\ signer_installation (rt_machine rt) = Some (mark c)) signer_ok.
Proof.
  intros Hc rt [Hi Hs]. unfold then_do. destruct (install_signer_shares head rt) as [rt' [[]|]] eqn:E.
  - apply (installed_holds head rt rt' c Hs) in E as (-> & Ha & Hh). cbn in Ha, Hh |- *. split; [|done]. destruct Hi as [H1 H2 H3 H4].
    split; cbn; [done|done|by rewrite Ha|]. exists head, c. split_and!; [done..|]. unfold d. rewrite <- H1. exact Hh.
  - unfold install_signer_shares in E. destruct (let? current := _ in _); [done|]. by injection E as <- _.
Qed.

Lemma settled_at_shaped head c : settled_at d account head c -> settled_shaped c.
Proof. intros (round & current & _ & _ & Hr). by eapply settled_read_shaped. Qed.

Lemma rebuild_holds head c : settled_at d account head c ->
  triple signer_ok (rebuild_settled head c) (fun s rt => signer_ok rt /\ holds_settled s c /\ identity s = i) signer_ok.
Proof.
  intros Hc rt Hi. pose proof (settled_at_shaped _ _ Hc) as Hsh. destruct Hc as (round & current & _ & _ & Hr).
  destruct (settled_read_fields _ _ _ _ _ Hr) as [Hround Hindex].
  pose proof (store_parameters_of _ Hi) as Hd. unfold rebuild_settled, then_do, get. cbn.
  destruct (N.eqb_spec (settled_round c) 0) as [E|E].
  { cbn. split; [done|]. destruct (Hsh E) as [E1 _]. unfold holds_settled, shares_of_settled. rewrite E1. cbn. split; [by rewrite E|apply Hi]. }
  unfold state_by_block_hash, provided, then_do, call, lift, ret. cbn. destruct (state_available _ head); cbn; [|by apply timeless].
  destruct (read_dkg_canonical_round_with_parameters _ _ _) as [r|] eqn:Er; cbn; [|by apply timeless].
  destruct (settled_epoch c) as [e|] eqn:Ee; cbn; [|by apply timeless].
  destruct (rebuild_dkg_canonical_store _ _ _ _ _ _ _) as [s|] eqn:Es; cbn; [|by do 2 apply timeless].
  split; [by do 2 apply timeless|]. rewrite <- (ok_store _ Hi). rewrite Hround in Er. rewrite Hindex in Es.
  eapply rebuilt_holds; [by rewrite Hd|by rewrite Hd|exact Ee|exact Er|exact Es].
Qed.

Lemma keeps_signer_file s : identity s = i -> keeps signer_ok (save_encrypted s).
Proof.
  intros Hs rt [H1 H2 H3 H4]. unfold save_encrypted, then_do, call, modify, throw. by destruct (save_outcome _); split.
Qed.

Lemma clear_signer_ok : triple signer_ok
  (let! _ := clear_signer_shares in machine_set (fun m => set_installation m None))
  (fun _ rt => signer_ok rt /\ signer_installation (rt_machine rt) = None) signer_ok.
Proof. intros rt [H1 H2 H3 H4]. cbn. by split. Qed.

Lemma reconcile_ok head c : settled_at d account head c ->
  triple signer_ok (reconcile_settled_round head c)
    (fun _ rt => signer_ok rt /\ signer_installation (rt_machine rt) = Some (mark c)) signer_ok.
Proof.
  intros Hc. unfold reconcile_settled_round. intros rt Hi. unfold then_do at 1, get.
  destruct ((_ =? _) && _) eqn:Ev.
  - apply andb_true_iff in Ev as [_ Ev]. destruct (validate_settled_store _ c) as [[]|] eqn:E; [|done].
    apply validated_holds in E; [|by eapply settled_at_shaped].
    unfold signer_installation_needed. case_bool_decide as Hm; cbn [negb when]; [by split|].
    assert (Ht : triple (ready c) (let! _ := ensure_canonical_head head in
      let! _ := install_signer_shares head in machine_set (fun m => set_installation m (Some (mark c))))
      (fun _ rt => signer_ok rt /\ signer_installation (rt_machine rt) = Some (mark c)) signer_ok).
    { eapply triple_then; [eapply triple_weaken; [apply triple_keeps, keeps_ensure, _|done|intros ? ? Hx; exact Hx|by intros ? []]|].
      intros ?. by apply install_marks. }
    by apply Ht.
  - clear Ev.
    assert (Ht : triple signer_ok (let! _ := (let! _ := clear_signer_shares in machine_set (fun m => set_installation m None)) in
      let! rebuilt := rebuild_settled head c in let! _ := save_encrypted rebuilt in let! _ := ensure_canonical_head head in
      let! _ := modify (fun rt => with_store rt rebuilt) in
      let! _ := install_signer_shares head in machine_set (fun m => set_installation m (Some (mark c))))
      (fun _ rt => signer_ok rt /\ signer_installation (rt_machine rt) = Some (mark c)) signer_ok).
    { eapply triple_then; [apply clear_signer_ok|]. intros ?.
      eapply triple_then; [eapply triple_weaken; [by apply rebuild_holds|by intros ? []|intros ? ? Hx; exact Hx|done]|]. intros s. cbn.
      intros rt0 (H1 & Hs & Hid).
      assert (Ht : triple signer_ok (let! _ := save_encrypted s in let! _ := ensure_canonical_head head in
        let! _ := modify (fun rt => with_store rt s) in
        let! _ := install_signer_shares head in machine_set (fun m => set_installation m (Some (mark c))))
        (fun _ rt => signer_ok rt /\ signer_installation (rt_machine rt) = Some (mark c)) signer_ok).
      { eapply triple_then; [by apply triple_keeps, keeps_signer_file|]. intros ?.
        eapply triple_then; [apply triple_keeps, keeps_ensure, _|]. intros ?.
        apply (triple_then _ _ (fun _ => ready c)); [|intros ?; by apply install_marks].
        intros rt1 [X1 X2 X3 X4]. cbn. split; [by split|done]. }
      by apply Ht. }
    by apply Ht.
Qed.

Lemma triple_lift {T} I (r : result RuntimeError T) : triple I (lift r) (fun x rt => I rt /\ r = Ok x) I.
Proof. intros rt Hi. unfold lift. by destruct r. Qed.

Lemma signer_ok_machine rt m : signer_ok rt -> signer_installation m = signer_installation (rt_machine rt) -> signer_ok (with_machine rt m).
Proof. intros [H1 H2 H3 H4] E. split; cbn; [done..|]. by rewrite E. Qed.

Lemma keeps_signer_reset : keeps signer_ok discard_and_reset.
Proof.
  apply keeps_then; [intros rt [H1 H2 H3 H4]; by split|]. intros _. apply keeps_machine_do.
  intros rt Hi. apply signer_ok_machine; [done|]. unfold reset_task_work. by destruct (builder_new _).
Qed.

Lemma keeps_signer_clear : keeps signer_ok (let! _ := clear_signer_shares in machine_set (fun m => set_installation m None)).
Proof. intros rt Hi. by destruct (clear_signer_ok rt Hi). Qed.

Lemma state_of_head_is head : triple signer_ok (state_of_head head) (fun s rt => signer_ok rt /\ s = state_of head) signer_ok.
Proof.
  intros rt Hi. assert (Hk : keeps signer_ok (state_of_head head)) by (apply keeps_state_of_head, _). specialize (Hk rt Hi).
  destruct (state_of_head head rt) as [rt' [s|]] eqn:E; [|done]. split; [done|].
  unfold state_of_head, attempt, state_by_block_hash, provided, then_do, call, lift, ret in E. cbn in E.
  destruct (state_available _ head); cbn in E; [by injection E as _ <-|].
  destruct (latest_header _) as [[[number actual]|]|]; cbn in E; [by destruct (negb _)|done..].
Qed.

(** After the settled part, the marker is the one of the head's material. *)
Definition reconciled (x : N * B256 * StateProvider * bool * N * option N * option (option N * option N)) (rt : Runtime) : Prop :=
  signer_ok rt /\ exists c, settled_at d account x.1.1.1.1.1.2 c /\ signer_installation (rt_machine rt) = Some (mark c).

Lemma reconcile_head_ok reorg : triple signer_ok (reconcile_head reorg) reconciled signer_ok.
Proof.
  unfold reconcile_head. eapply triple_then; [apply triple_keeps, keeps_header, _|]. intros [height head]. cbv beta.
  eapply triple_then; [apply triple_keeps, keeps_discontinuity, _|]. intros discontinuity. cbv beta zeta.
  eapply triple_then; [apply triple_keeps, keeps_when, keeps_signer_clear|]. intros ?. cbv beta.
  eapply triple_then; [apply state_of_head_is|]. intros state. cbv beta.
  eapply triple_then; [eapply triple_weaken; [apply (triple_lift (fun rt => signer_ok rt /\ state = state_of head))|done|by intros ? ? ?; eassumption|by intros ? []]|].
  intros round. cbv beta.
  eapply triple_then; [eapply triple_weaken; [apply (triple_lift (fun rt => (signer_ok rt /\ state = state_of head) /\ read_dkg_current_round state = Ok round))|done|by intros ? ? ?; eassumption|by intros ? [[] ?]]|].
  intros current. cbv beta. intros rt [[[Hi ->] Hr] Hg]. apply map_err_Ok in Hg. unfold then_do at 1, get. cbv zeta.
  unfold then_do at 1, lift at 1. destruct (map_err RuntimeReplay (settled_read _ _ _ _)) as [c|] eqn:Ec; [|done].
  apply map_err_Ok in Ec. rewrite (store_parameters_of _ Hi), (ok_account _ Hi) in Ec.
  assert (Hc : settled_at d account head c) by (by exists round, current). clear Ec.
  match goal with |- context [when ?b discard_and_reset] => set (changed := b); clearbody changed end.
  match goal with |- context [machine_set ?f] => assert (Hf : forall m, signer_installation (f m) = signer_installation m) by (by intros []);
    set (settle_machine := f) in * end.
  match goal with |- context [ret ?x] => set (answer := x); assert (Ha : answer.1.1.1.1.1.2 = head) by done end.
  assert (Ht : triple signer_ok (let! _ := when changed discard_and_reset in let! _ := reconcile_settled_round head c in
    let! _ := machine_set settle_machine in ret answer) reconciled signer_ok).
  { eapply triple_then; [apply triple_keeps, keeps_when, keeps_signer_reset|]. intros ?. cbv beta.
    eapply triple_then; [by apply reconcile_ok|]. intros ? rt0 [H0 H1]. cbn [then_do machine_set modify ret]. split.
    - apply signer_ok_machine; [done|apply Hf].
    - exists c. rewrite Ha. split; [done|].
      change (signer_installation (settle_machine (rt_machine rt0)) = Some (mark c)). by rewrite Hf. }
  by apply Ht.
Qed.

(** ** Where a heartbeat ends *)

Definition ends_at (height : N) (head : B256) (m : Eff unit) : Prop :=
  forall rt rt', m rt = (rt', Ok tt) -> machine_head (rt_machine rt') = Some (height, head).

Lemma ends_then {T} height head (m : Eff T) k : (forall x, ends_at height head (k x)) -> ends_at height head (then_do m k).
Proof. intros Hk rt rt' E. unfold then_do in E. destruct (m rt) as [rt0 [x|]]; [by eapply Hk|done]. Qed.

Lemma ends_set height head : ends_at height head (machine_set (fun m => set_head m (Some (height, head)))).
Proof. by intros rt rt' [= <-]. Qed.

Lemma ends_suspend height head : ends_at height head (suspend_task_work_at_head height head).
Proof. unfold suspend_task_work_at_head. repeat (apply ends_then; intros ?). apply ends_set. Qed.

Lemma ends_suspending {T} height head (m : Eff T) k : (forall x, ends_at height head (k x)) -> ends_at height head (suspending height head m k).
Proof. intros Hk. unfold suspending. apply ends_then. intros [x|]; [apply Hk|apply ends_suspend]. Qed.

Lemma ends_run height head c inputs : ends_at height head (run_tasks height head c inputs).
Proof. unfold run_tasks. repeat (apply ends_then; intros ?). apply ends_set. Qed.

Lemma ends_local_inputs state height head c pending active k : (forall x, ends_at height head (k x)) ->
  ends_at height head (local_inputs state height head c pending active k).
Proof.
  intros Hk. unfold local_inputs.
  destruct active; repeat first [apply ends_suspending; intros ? | apply ends_then; intros ?]; apply Hk.
Qed.

Lemma ends_drive height head state reset round index previous :
  ends_at height head (drive_tasks (height, head, state, reset, round, index, previous)).
Proof.
  unfold drive_tasks. apply ends_suspending. intros schedule. apply ends_then. intros rt. apply ends_suspending. intros contract.
  destruct (negb _); [apply ends_suspend|]. cbv zeta. repeat (apply ends_then; intros ?).
  assert (Hl : forall c pending active, ends_at height head (local_inputs state height head c pending active (run_tasks height head c))).
  { intros. apply ends_local_inputs. intros. apply ends_run. }
  destruct (_ && _); [|destruct (is_sharing _)].
  - unfold active_round. repeat first [apply Hl | apply ends_suspending; intros ? | apply ends_then; intros ?].
  - unfold abandon_round. repeat first [apply Hl | apply ends_suspending; intros ? | apply ends_then; intros ?].
  - apply ends_then. intros ?. apply Hl.
Qed.

Lemma framed_signer_ok rt rt' : signer_ok rt -> framed i (rt_signer rt) (signer_installation (rt_machine rt)) rt' -> signer_ok rt'.
Proof. intros [H1 H2 H3 H4] (E0 & E & ? & ?). split; [done..|by rewrite E0|]. by rewrite E, E0. Qed.

Lemma heartbeat_signer reorg : triple signer_ok (heartbeat reorg)
  (fun _ rt => signer_ok rt /\ exists height head c, machine_head (rt_machine rt) = Some (height, head) /\
     settled_at d account head c /\ signer_installation (rt_machine rt) = Some (mark c)) signer_ok.
Proof.
  unfold heartbeat. eapply triple_then; [apply reconcile_head_ok|]. intros x rt [Hi (c & Hc & Hm)].
  pose proof (framed_drive i (rt_signer rt) (signer_installation (rt_machine rt)) x rt) as Hf.
  destruct Hf as (F1 & F2 & F3 & F4); [by destruct Hi|].
  assert (Hi' : signer_ok (drive_tasks x rt).1) by (eapply framed_signer_ok; [exact Hi|by split_and!]).
  destruct (drive_tasks x rt) as [rt' [[]|]] eqn:E; [|done]. cbn in F2, Hi'. split; [done|].
  destruct x as [[[[[[height head] state] reset] round] index] previous]. exists height, head, c. cbn in Hc.
  split_and!; [by eapply ends_drive|done|by rewrite F2].
Qed.

Variable builder : DkgTransactionBuilder.
Hypothesis chain_ok : builder_new (cfg_chain_id config) = Ok builder.

Lemma invalidate_signer rt : signer_ok rt -> signer_ok (invalidate_canonical_attempt rt).1 /\
  current_share (rt_signer (invalidate_canonical_attempt rt).1) = None.
Proof.
  intros [H1 H2 H3 H4]. unfold invalidate_canonical_attempt, then_do, attempt, clear_signer_shares, machine_do, lift. cbn.
  unfold invalidate_head_work, reset_task_work. rewrite chain_ok. by repeat split.
Qed.

Lemma serve_signer s e : signer_ok (runtime s) -> signer_ok (runtime (serve s e)).
Proof.
  intros Hi.
  assert (Hinv : forall ph rt, signer_ok rt -> signer_ok (runtime (invalidated ph rt))).
  { intros ph rt H0. apply invalidate_signer in H0 as [H0 _]. unfold invalidated. by destruct (invalidate_canonical_attempt rt). }
  assert (Hduty : forall journal, signer_ok (with_signer (runtime s) (mkDbftSigner (key (rt_signer (runtime s)))
    (Signer.account (rt_signer (runtime s))) (current_share (rt_signer (runtime s))) (previous_share (rt_signer (runtime s))) journal)))
    by (intros journal; by destruct Hi).
  unfold serve. destruct (phase s), e as [reorg| | |journal]; try done; try (by apply Hinv); try (by apply Hduty).
  - pose proof (heartbeat_signer reorg _ Hi) as Hh. destruct (heartbeat reorg (runtime s)) as [rt [[]|]]; [by destruct Hh|by apply Hinv].
  - pose proof (heartbeat_signer reorg _ Hi) as Hh.
    destruct (heartbeat reorg (runtime s)) as [rt [[]|[]]]; first [by destruct Hh | exact Hh | by apply Hinv].
  - apply invalidate_signer in Hi as [Hi _]. by destruct (invalidate_canonical_attempt (runtime s)).
Qed.

Lemma serve_all_signer s events : signer_ok (runtime s) -> signer_ok (runtime (serve_all s events)).
Proof. revert s. induction events as [|e events IH]; intros s Hi; [done|]. apply IH. by apply serve_signer. Qed.
End signer.

(** *** The theorem *)

(** No two blocks have different settled material with one digest. *)
Definition collision_free (d : DkgParameters) (account : Address) : Prop :=
  forall head head' c c', settled_at d account head c -> settled_at d account head' c' ->
    settled_canonical_digest c = settled_canonical_digest c' -> settled_buffer c = settled_buffer c'.

Lemma validator_index_bound vs account i : validator_index vs account = Some i -> 1 <= i <= lenN vs.
Proof.
  unfold validator_index. intros Hi. apply fmap_Some in Hi as ([k v] & Hf & ->). apply list_find_Some in Hf as (Hk & _).
  apply lookup_lt_Some in Hk. unfold lenN. lia.
Qed.

Lemma settled_at_wf n d account head c : dkg_parameters_new n = Ok d -> settled_at d account head c -> settled_wf c.
Proof.
  intros Hd (round & current & Hr & Hg & Hc). eapply settled_read_wf; [exact Hd| | |exact Hc].
  - unfold read_dkg_current_round in Hr. apply result_bind_Ok in Hr as (word & _ & Hr).
    destruct (N.ltb_spec U64_MAX (default 0 word)); [done|]. by injection Hr as <-.
  - intros i Hi%validator_index_bound. unfold read_governance_validator_set_from_storage in Hg.
    apply result_bind_Ok in Hg as (vs & Hv & [= <-]). apply read_array_Ok in Hv as ((_ & Hl) & _). cbn in Hi.
    unfold MAX_VALIDATOR_COUNT in Hl. assert (256 < U64_MAX) by (by vm_compute). lia.
Qed.

Lemma start_signer_ok signer store s : service_start signer store s ->
  signer_ok (identity store) (account signer) (runtime s) /\ exists b, builder_new (cfg_chain_id config) = Ok b.
Proof.
  intros (m & Hm & Hc & Hp & ->). unfold machine_new in Hm. apply result_bind_Ok in Hm as (b & Hb & [= <-]).
  split; [by split|by exists b].
Qed.

(** C20. The signer never holds a key-generation share that is not, under the settled round of some
    block, this validator's share of the block's announcements and of the round's committee
    key; and after a heartbeat that succeeds the block is the head that the heartbeat
    recorded, even when it found its shares installed already. *)
Theorem signer_follows_canonical {L : FieldLaws B} {G : GroupLaws B} n signer store s events :
  dkg_parameters_new n = Ok (store_parameters store) -> service_start signer store s ->
  collision_free (store_parameters store) (account signer) ->
  let rt := runtime (serve_all s events) in
  (current_share (rt_signer rt) = None /\ previous_share (rt_signer rt) = None \/
   exists head c, settled_at (store_parameters store) (account signer) head c /\ signer_holds (store_parameters store) (rt_signer rt) c) /\
  forall reorg rt', heartbeat reorg rt = (rt', Ok tt) ->
    exists height head c, machine_head (rt_machine rt') = Some (height, head) /\
      settled_at (store_parameters store) (account signer) head c /\ signer_holds (store_parameters store) (rt_signer rt') c.
Proof.
  intros Hd Hs Hcol rt. apply start_signer_ok in Hs as [Hi [b Hb]].
  assert (Hrt : signer_ok (identity store) (account signer) rt) by (by eapply serve_all_signer). split.
  - pose proof (ok_marker _ _ _ Hrt) as Hm. destruct (signer_installation _) as [marker|]; [right|by left].
    destruct Hm as (head & c & Hc & _ & Hh). by exists head, c.
  - intros reorg rt' E.
    destruct (triple_run _ _ _ _ _ _ _ (heartbeat_signer (identity store) (account signer) n Hd reorg) Hrt E)
      as [Hok (height & head & c & Hhead & Hc & Hm)].
    exists height, head, c. split_and!; [done|done|]. pose proof (ok_marker _ _ _ Hok) as Hmk. rewrite Hm in Hmk.
    destruct Hmk as (head' & c' & Hc' & Hmark & Hh). injection Hmark as _ _ Hdig.
    assert (c = c') as -> by (eapply settled_buffer_inj; [by eapply settled_at_wf..|by eapply Hcol]). exact Hh.
Qed.
End service.
