(* ===== verification/DkgWork.v ===== *)
(** The work of the key-generation service of DkgRuntime.v: the task queue, the prover job, the
    transactions in the pool and the tasks the contract already has agree after every event;
    and where the loop gives up more than it means to. *)

From S2P Require Import Prelude Extern Instances Tpke DkgParams Dkg DkgState Storage DkgStorage Journal Signer.
From S2P Require Import DkgReplay DkgSettled DkgTask DkgExecutor DkgMaterial DkgTransaction StaticPool DkgRuntime DkgService.

(** ** The queue *)

(** The queue has a log that explains it. *)
Definition logged (x : DkgTaskExecutor) : Prop := exists h, task_executor_ok x h /\ log_ok h.

Definition preparing_in (ts : gmap DkgTaskId DkgExecutionTask) (id : DkgTaskId) : Prop :=
  exists task, ts !! id = Some task /\ task_state task = DkgExecutionState.Preparing.

Definition prepares (l : list DkgExecutorAction) : nat := length (filter (fun a => is_prepare a = true) l).

Definition expires (a : DkgExecutorAction) : Prop := match a with DkgExecutorAction.Expire _ => True | _ => False end.

Lemma logged_op x op x' : logged x -> (forall h, exists h', exec_op x h op = Some (x', h')) -> logged x'.
Proof.
  intros (h & Hx & Hh) E. destruct (exec_op_ok x h op Hx Hh) as (x0 & h0 & E0 & ? & ?). destruct (E h) as [h' E1].
  rewrite E1 in E0. injection E0 as -> ->. by exists h0.
Qed.

Lemma logged_default : logged executor_default.
Proof. exists []. split; [apply executor_default_ok|done]. Qed.

Lemma logged_prepared x id r : logged x -> logged (record_prepared x id r).1.
Proof. intros Hx. apply (logged_op x (OpPrepared id r)); [done|]. intros h. cbn [exec_op]. destruct (record_prepared x id r). by eexists. Qed.
Lemma logged_submitted x id height r : logged x -> logged (record_submitted x id height r).1.
Proof. intros Hx. apply (logged_op x (OpSubmitted id height r)); [done|]. intros h. cbn [exec_op]. destruct (record_submitted x id height r). by eexists. Qed.
Lemma logged_receipt x id r : logged x -> logged (record_receipt x id r).1.
Proof. intros Hx. apply (logged_op x (OpReceipt id r)); [done|]. intros h. cbn [exec_op]. destruct (record_receipt x id r). by eexists. Qed.
Lemma logged_retire x id : logged x -> logged (retire x id).1.
Proof. intros Hx. apply (logged_op x (OpRetire id)); [done|]. intros h. cbn [exec_op]. destruct (retire x id). by eexists. Qed.

Lemma enqueue_step x plan plans n : exists n', enqueue x (plan :: plans) n = enqueue (enqueue x [plan] 0).1 plans n'.
Proof. cbn [enqueue]. cbv zeta. destruct (tasks x !! task_id plan); by eexists. Qed.

Lemma logged_enqueue plans : forall x n, logged x -> logged (enqueue x plans n).1.
Proof.
  induction plans as [|plan plans IH]; intros x n Hx; [done|]. destruct (enqueue_step x plan plans n) as [n' ->]. apply IH.
  apply (logged_op x (OpEnqueue plan)); [done|]. intros h. cbn [exec_op]. destruct (enqueue x [plan] 0). by eexists.
Qed.

Lemma logged_actions x height limit : logged x ->
  exists x' l, actions_with_preparation_limit x height limit = Some (x', l) /\ logged x'.
Proof. intros (h & Hx & Hh). destruct (actions_ok x h height limit Hx Hh) as (x' & l & E & ? & ?). exists x', l. split; [done|by eexists]. Qed.

(** What each operation leaves of a task that is being prepared, and of one that is not queued. *)
Lemma preparing_set x id task state id' : id' <> id \/ state = DkgExecutionState.Preparing -> preparing_in (tasks x) id' ->
  preparing_in (tasks (set_task x id task state)) id'.
Proof.
  intros Hc Hp. unfold preparing_in. cbn. destruct (decide (id = id')) as [<-|Hne].
  - rewrite lookup_insert, decide_True by done. destruct Hc as [|Hc]; [done|]. by eexists.
  - by rewrite lookup_insert_ne.
Qed.

Lemma in_state_preparing x id expected task id' : task_in_state x id expected = Ok task -> expected DkgExecutionState.Preparing = false ->
  preparing_in (tasks x) id' -> id' <> id.
Proof. intros [E Hs]%task_in_state_Ok He (t & Et & Hp) ->. rewrite E in Et. injection Et as ->. congruence. Qed.

Lemma preparing_prepared x id r id' : id' <> id -> preparing_in (tasks x) id' -> preparing_in (tasks (record_prepared x id r).1) id'.
Proof.
  intros Hne Hp. unfold record_prepared. destruct (task_in_state _ _ _); [|done].
  destruct r as [calldata|]; [destruct (4 <=? lenN calldata)|]; cbn [fst]; by apply preparing_set; [left|].
Qed.

Lemma preparing_submitted x id height r id' : preparing_in (tasks x) id' -> preparing_in (tasks (record_submitted x id height r).1) id'.
Proof.
  intros Hp. unfold record_submitted. destruct (task_in_state _ _ _) as [task|] eqn:E; [|done].
  pose proof (in_state_preparing _ _ _ _ _ E eq_refl Hp) as Hne.
  destruct (submitting_calldata _); [|done]. destruct r; cbn [fst]; by apply preparing_set; [left|].
Qed.

Lemma preparing_remove x id id' : id' <> id -> preparing_in (tasks x) id' -> preparing_in (tasks (remove_task x id)) id'.
Proof. intros Hne Hp. unfold preparing_in. cbn. by rewrite lookup_delete_ne. Qed.

Lemma preparing_receipt x id r id' : preparing_in (tasks x) id' -> preparing_in (tasks (record_receipt x id r).1) id'.
Proof.
  intros Hp. unfold record_receipt. destruct (task_in_state _ _ _) as [task|] eqn:E; [|done].
  pose proof (in_state_preparing _ _ _ _ _ E eq_refl Hp) as Hne. destruct (checking_submission _) as [[calldata hash]|]; [|done].
  destruct r as [[]|]; cbn [fst]; first [by apply preparing_set; [left|] | by apply preparing_remove].
Qed.

Lemma absent_set x id task state id' : tasks x !! id = Some task -> tasks x !! id' = None -> tasks (set_task x id task state) !! id' = None.
Proof. intros E Hn. cbn. rewrite lookup_insert_ne; [done|]. intros ->. congruence. Qed.

Lemma absent_remove x id id' : tasks x !! id' = None -> tasks (remove_task x id) !! id' = None.
Proof. intros Hn. cbn. apply lookup_delete_None. by right. Qed.

Lemma absent_prepared x id r id' : tasks x !! id' = None -> tasks (record_prepared x id r).1 !! id' = None.
Proof.
  intros Hn. unfold record_prepared. destruct (task_in_state _ _ _) as [task|] eqn:E; [|done]. apply task_in_state_Ok in E as [E _].
  destruct r as [calldata|]; [destruct (4 <=? lenN calldata)|]; cbn [fst]; by apply absent_set.
Qed.

Lemma absent_submitted x id height r id' : tasks x !! id' = None -> tasks (record_submitted x id height r).1 !! id' = None.
Proof.
  intros Hn. unfold record_submitted. destruct (task_in_state _ _ _) as [task|] eqn:E; [|done]. apply task_in_state_Ok in E as [E _].
  destruct (submitting_calldata _); [|done]. destruct r; cbn [fst]; by apply absent_set.
Qed.

Lemma absent_receipt x id r id' : tasks x !! id' = None -> tasks (record_receipt x id r).1 !! id' = None.
Proof.
  intros Hn. unfold record_receipt. destruct (task_in_state _ _ _) as [task|] eqn:E; [|done]. apply task_in_state_Ok in E as [E _].
  destruct (checking_submission _) as [[calldata hash]|]; [|done].
  destruct r as [[]|]; cbn [fst]; first [by apply absent_set | by apply absent_remove].
Qed.

Lemma enqueue_lookup plans : forall x n id,
  tasks (enqueue x plans n).1 !! id = tasks x !! id \/ tasks x !! id = None /\ id ∈ map task_id plans.
Proof.
  induction plans as [|plan plans IH]; intros x n id; [by left|]. cbn [enqueue map]. cbv zeta. rewrite elem_of_cons.
  destruct (tasks x !! task_id plan) as [task|] eqn:E.
  - destruct (IH x n id) as [?|[? ?]]; [by left|right; by split; [|right]].
  - destruct (decide (task_id plan = id)) as [<-|Hne]; [right; by split; [|left]|].
    destruct (IH (mkDkgTaskExecutor (<[task_id plan := mkDkgExecutionTask plan DkgExecutionState.Unprepared]> (tasks x)) (order x ++ [task_id plan]))
      (n + 1) id) as [He|[He ?]]; cbn [tasks] in He; rewrite lookup_insert_ne in He by done; [by left|right; by split; [|right]].
Qed.

Lemma enqueue_preparing x plans n id : preparing_in (tasks x) id -> preparing_in (tasks (enqueue x plans n).1) id.
Proof. intros Hp. unfold preparing_in. destruct (enqueue_lookup plans x n id) as [->|[E _]]; [done|]. destruct Hp as (? & ? & _). congruence. Qed.

(** The actions that are due: at most [limit] of them start a prover, on a task that is then
    being prepared; a task that was being prepared still is, or expires. *)
Lemma start_actions_preparing height limit ids : forall ts n ts' l, start_actions ts height limit n ids = Some (ts', l) ->
  (forall id, preparing_in ts id -> preparing_in ts' id) /\ (forall id, ts !! id = None -> ts' !! id = None) /\
  (forall id plan, DkgExecutorAction.Prepare id plan ∈ l -> preparing_in ts' id) /\
  (n <= limit -> n + N.of_nat (prepares l) <= limit) /\ Forall (fun a => ~ expires a) l.
Proof.
  induction ids as [|id ids IH]; intros ts n ts' l E; cbn [start_actions] in E.
  { injection E as <- <-. cbn. split_and!; [done..| |lia|done]. intros id plan Hin. by apply elem_of_nil in Hin. }
  destruct (ts !! id) as [task|] eqn:Et; [|done]. cbn [mbind option_bind] in E.
  destruct (task_action id task height _) as [[state action]|] eqn:Ea; [|by apply IH].
  destruct (start_actions (<[id := _]> ts) _ _ _ _) as [[ts0 l0]|] eqn:E0; [|done]. cbn in E. injection E as <- <-.
  apply IH in E0 as (H1 & H2 & H3 & H4 & H5). unfold task_action in Ea.
  assert (Hs : task_state task <> DkgExecutionState.Preparing) by (intros Hs; by rewrite Hs in Ea).
  assert (Ha : is_prepare action = true /\ state = DkgExecutionState.Preparing /\ action_id action = id /\ n < limit \/ is_prepare action = false /\ ~ expires action).
  { destruct (task_state task); try done; try (by injection Ea as <- <-; right; split; [|intros Hx; exact Hx]).
    - destruct (N.ltb_spec n limit); [|done]. injection Ea as <- <-. by left.
    - destruct (_ <=? _); [|done]. injection Ea as <- <-. by right; split; [|intros Hx; exact Hx]. }
  assert (Hid : is_prepare action = true -> preparing_in ts0 (action_id action)).
  { intros Hp. destruct Ha as [(_ & -> & -> & _)|[Hn _]]; [|congruence]. apply H1. unfold preparing_in.
    rewrite lookup_insert, decide_True by done. by eexists. }
  split_and!.
  - intros i Hp. apply H1. destruct Hp as (t & Hi & Hp). exists t. split; [|done]. rewrite lookup_insert_ne; [done|]. intros <-. congruence.
  - intros i Hn. apply H2. rewrite lookup_insert_ne; [done|]. intros <-. congruence.
  - intros i plan [<-|Hin]%elem_of_cons; [by apply Hid|by eapply H3].
  - intros Hn. unfold prepares in *. rewrite filter_cons. destruct Ha as [(Ep & _ & _ & Hlt)|[Ep _]]; rewrite Ep in H4 |- *.
    + rewrite decide_True by done. cbn [length]. lia.
    + rewrite decide_False by done. lia.
  - constructor; [|done]. destruct Ha as [(Ep & _)|[_ ?]]; [|done]. destruct action; cbn in Ep |- *; [tauto|congruence..].
Qed.

Lemma actions_preparing x height limit x' l : actions_with_preparation_limit x height limit = Some (x', l) ->
  (forall id, tasks x !! id = None -> tasks x' !! id = None) /\
  exists expired l', l = map DkgExecutorAction.Expire expired ++ l' /\ Forall (fun a => ~ expires a) l' /\
    (forall id, preparing_in (tasks x) id -> preparing_in (tasks x') id \/ id ∈ expired) /\
    (forall id plan, DkgExecutorAction.Prepare id plan ∈ l' -> preparing_in (tasks x') id) /\ N.of_nat (prepares l') <= limit.
Proof.
  unfold actions_with_preparation_limit. cbv zeta. set (expired := filter (fun id => is_expired (tasks x) height id = true) (order x)). set (ts := foldl _ _ _).
  destruct (start_actions ts _ _ _ _) as [[ts' l']|] eqn:E; [|done]. intros [= <- <-]. cbn [tasks].
  apply start_actions_preparing in E as (H1 & H2 & H3 & H4 & H5). split.
  - intros id Hn. apply H2. unfold ts. rewrite lookup_deletes. by case_bool_decide.
  - exists expired, l'. split_and!; [done..| |done|lia]. intros id Hp. destruct (decide (id ∈ expired)); [by right|left].
    apply H1. unfold preparing_in, ts. by rewrite lookup_deletes, bool_decide_eq_false_2.
Qed.

(** A task that is being prepared or submitted is due for nothing but its expiry. *)
Lemma waiting_start id task height limit ids : (forall may, task_action id task height may = None) ->
  forall ts n ts' l, start_actions ts height limit n ids = Some (ts', l) -> ts !! id = Some task ->
  ts' !! id = Some task /\ Forall (fun a => action_id a <> id) l.
Proof.
  intros Hw. induction ids as [|id' ids IH]; intros ts n ts' l E Hi; cbn [start_actions] in E; [by injection E as <- <-|].
  destruct (ts !! id') as [task'|] eqn:Et; [|done]. cbn [mbind option_bind] in E.
  destruct (task_action id' task' height _) as [[state action]|] eqn:Ea; [|by eapply IH].
  destruct (start_actions (<[id' := _]> ts) _ _ _ _) as [[ts0 l0]|] eqn:E0; [|done]. cbn in E. injection E as <- <-.
  assert (Hne : id' <> id) by (intros ->; rewrite Hi in Et; injection Et as <-; by rewrite Hw in Ea).
  apply IH in E0 as [H1 H2]; [|by rewrite lookup_insert_ne]. split; [done|]. constructor; [|done].
  unfold task_action in Ea. destruct (task_state task'); try done; try (by injection Ea as _ <-);
    match type of Ea with (if ?b then _ else _) = _ => destruct b; [|done] end; by injection Ea as _ <-.
Qed.

(** The state that an action leaves its task in. *)
Lemma start_actions_state height limit ids : forall ts n ts' l, start_actions ts height limit n ids = Some (ts', l) ->
  (forall id plan, DkgExecutorAction.Prepare id plan ∈ l -> ts' !! id = Some (mkDkgExecutionTask plan DkgExecutionState.Preparing)) /\
  (forall id to calldata, DkgExecutorAction.Submit id to calldata ∈ l ->
     exists plan, ts' !! id = Some (mkDkgExecutionTask plan (DkgExecutionState.Submitting calldata))).
Proof.
  induction ids as [|id ids IH]; intros ts n ts' l E; cbn [start_actions] in E.
  { injection E as <- <-. split; intros * Hin; by apply elem_of_nil in Hin. }
  destruct (ts !! id) as [task|] eqn:Et; [|done]. cbn [mbind option_bind] in E.
  destruct (task_action id task height _) as [[state action]|] eqn:Ea; [|by apply IH in E].
  destruct (start_actions (<[id := _]> ts) _ _ _ _) as [[ts0 l0]|] eqn:E0; [|done]. cbn in E. injection E as <- <-.
  pose proof (fun Hw => proj1 (waiting_start id (mkDkgExecutionTask (task_plan task) state) height limit ids Hw _ _ _ _ E0
    ltac:(by rewrite lookup_insert, decide_True))) as Hst.
  apply IH in E0 as [H1 H2]. unfold task_action in Ea.
  split; [intros id' plan [<-|Hin]%elem_of_cons; [|by apply H1]|intros id' to calldata [<-|Hin]%elem_of_cons; [|by eapply H2]].
  - destruct (task_state task); try done; [|by destruct (_ <=? _)]. destruct (_ <? _); [|done]. injection Ea as <- <- <-. by apply Hst.
  - destruct (task_state task); try done; [by destruct (_ <? _)| |by destruct (_ <=? _)].
    injection Ea as <- <- _ <-. exists (task_plan task). by apply Hst.
Qed.

(** ** The invariant

    [pend] are the actions taken from the queue and not yet performed. *)

Section service.
Context {C : Crypto} {K : Secp256k1} {B : Blst} {Z : Ecies} {Sy : Symmetric} {A : SolAbi} {P : ProverHost} {H : DkgHost}.

Section invariant.
Variable i : DkgParameters * option Address * bytes.

(** Every transaction of the service in the pool is recorded for its removal. *)
Definition pool_owned (pool : gset B256) (owned : gmap DkgTaskId (list B256)) : Prop :=
  forall hash, hash ∈ pool -> exists id hashes, owned !! id = Some hashes /\ hash ∈ hashes.

Record work_ok (pend : list DkgExecutorAction) (rt : Runtime) : Prop := {
  w_store : identity (rt_store rt) = i;
  w_file : identity (rt_file rt) = i;
  w_logged : logged (executor (rt_machine rt));
  w_jobs : forall id, is_Some (preparations (rt_machine rt) !! id) ->
    preparing_in (tasks (executor (rt_machine rt))) id \/ DkgExecutorAction.Expire id ∈ pend;
  w_single : (size (preparations (rt_machine rt)) + prepares pend <= 1)%nat;
  w_canonical : forall id, id ∈ canonical_tasks (rt_machine rt) -> tasks (executor (rt_machine rt)) !! id = None;
  w_pool : pool_owned (rt_pool rt) (owned_transactions (rt_machine rt));
  w_starts : forall id plan, DkgExecutorAction.Prepare id plan ∈ pend -> preparing_in (tasks (executor (rt_machine rt))) id;
}.

#[local] Instance work_ok_timeless pend : Timeless (work_ok pend).
Proof. intros rt Hi. destruct Hi. by split. Qed.

(** The parts of the machine that the invariant is about. *)
Definition same_queue (m m' : DkgRuntimeMachine) : Prop :=
  executor m' = executor m /\ preparations m' = preparations m /\ canonical_tasks m' = canonical_tasks m /\
  owned_transactions m' = owned_transactions m.

Lemma work_ok_machine pend rt m : work_ok pend rt -> same_queue (rt_machine rt) m -> work_ok pend (with_machine rt m).
Proof. intros [? ? ? ? ? ? ? ?] (E1 & E2 & E3 & E4). split; cbn; rewrite ?E1, ?E2, ?E3, ?E4; done. Qed.

Lemma work_ok_executor pend rt x : work_ok pend rt -> logged x ->
  (forall id, preparing_in (tasks (executor (rt_machine rt))) id -> preparing_in (tasks x) id) ->
  (forall id, tasks (executor (rt_machine rt)) !! id = None -> tasks x !! id = None) ->
  work_ok pend (with_machine rt (set_executor (rt_machine rt) x)).
Proof.
  intros [? ? ? Hj ? Hc ? Hs] Hx Hp Hn. split; cbn; try done.
  - intros id Hid. destruct (Hj id Hid); [left; by apply Hp|by right].
  - intros id Hid. by apply Hn, Hc.
  - intros id plan Hin. by eapply Hp, Hs.
Qed.

Lemma work_ok_pool pend rt pool : work_ok pend rt -> pool ⊆ rt_pool rt -> work_ok pend (with_pool rt pool).
Proof. intros [? ? ? ? ? ? Hp ?] Hs. split; try done. cbn. intros hash Hin. apply Hp. set_solver. Qed.

(** Actions that are left, without an expiry among them. *)
Lemma work_ok_leave pend pend' rt : work_ok pend rt -> Forall (fun a => ~ expires a) pend -> (forall a, a ∈ pend' -> a ∈ pend) ->
  (prepares pend' <= prepares pend)%nat -> work_ok pend' rt.
Proof.
  intros [? ? ? Hj Hs ? ? Hst] Hf Hin Hle. split; try done.
  - intros id Hid. destruct (Hj id Hid) as [|He]; [by left|]. rewrite Forall_forall in Hf. by destruct (Hf _ He).
  - lia.
  - intros id plan Hp. by eapply Hst, Hin.
Qed.

Lemma work_ok_nil pend rt : work_ok pend rt -> Forall (fun a => ~ expires a) pend -> work_ok [] rt.
Proof. intros Hi Hf. eapply work_ok_leave; [done..| |cbn; lia]. intros a Ha. by apply elem_of_nil in Ha. Qed.

Lemma keeps_work_set pend f : (forall m, same_queue m (f m)) -> keeps (work_ok pend) (machine_set f).
Proof. intros Hf. apply keeps_machine_set. intros rt Hi. by apply work_ok_machine. Qed.

Lemma keeps_work_do pend {E T} (error : E -> RuntimeError) (f : DkgRuntimeMachine -> DkgRuntimeMachine * result E T) :
  (forall m, same_queue m (f m).1) -> keeps (work_ok pend) (machine_do error f).
Proof. intros Hf. apply keeps_machine_do. intros rt Hi. by apply work_ok_machine. Qed.

Lemma keeps_work_remove pend hashes : keeps (work_ok pend) (remove_transactions hashes).
Proof. apply keeps_modify. intros rt Hi. apply work_ok_pool; [done|]. set_solver. Qed.

Lemma keeps_work_persist pend : keeps (work_ok pend) persist.
Proof.
  intros rt Hi. unfold persist, then_do, get, save_encrypted, call. destruct Hi. cbn.
  destruct (save_outcome _); cbn; split; cbn; done.
Qed.

(** A report to the queue that leaves what is being prepared and adds no task. *)
Lemma keeps_work_record pend {T} (f : DkgTaskExecutor -> DkgTaskExecutor * result DkgExecutorError T) :
  (forall x, logged x -> logged (f x).1) -> (forall x id, preparing_in (tasks x) id -> preparing_in (tasks (f x).1) id) ->
  (forall x id, tasks x !! id = None -> tasks (f x).1 !! id = None) ->
  keeps (work_ok pend) (machine_do RuntimeExecutor (fun m => let '(x, o) := f (executor m) in (set_executor m x, o))).
Proof.
  intros Hl Hp Hn. apply keeps_machine_do. intros rt Hi.
  pose proof (work_ok_executor pend rt (f (executor (rt_machine rt))).1 Hi (Hl _ (w_logged _ _ Hi)) (Hp _) (Hn _)) as Hx.
  by destruct (f (executor (rt_machine rt))).
Qed.

Lemma keeps_work_submission pend id height r : keeps (work_ok pend) (record_submission id height r).
Proof.
  unfold record_submission. apply keeps_then; [|intros ?; apply keeps_ret].
  apply (keeps_work_record pend (fun x => record_submitted x id height r)); intros.
  - by apply logged_submitted.
  - by apply preparing_submitted.
  - by apply absent_submitted.
Qed.

Lemma work_preparation pend id r rt : work_ok pend rt -> preparations (rt_machine rt) !! id = None ->
  (forall plan, DkgExecutorAction.Prepare id plan ∉ pend) -> work_ok pend (record_preparation id r rt).1.
Proof.
  intros [? ? Hl Hj ? Hc ? Hs] Hno Hp. unfold record_preparation, then_do, machine_do, ret.
  pose proof (logged_prepared _ id r Hl) as Hl'. pose proof (fun i => preparing_prepared (executor (rt_machine rt)) id r i) as Hpr.
  pose proof (fun i => absent_prepared (executor (rt_machine rt)) id r i) as Hab.
  destruct (record_prepared (executor (rt_machine rt)) id r) as [x o]. cbn in Hl', Hpr, Hab.
  assert (Hw : work_ok pend (with_machine rt (set_executor (rt_machine rt) x))); [|by destruct o].
  split; cbn; try done.
  - intros id' Hid. destruct (decide (id' = id)) as [->|Hne]; [rewrite Hno in Hid; by destruct Hid|].
    destruct (Hj id' Hid); [left; by apply Hpr|by right].
  - intros id' Hid. by apply Hab, Hc.
  - intros id' plan Hin. apply Hpr; [|by eapply Hs]. intros ->. by apply (Hp plan).
Qed.

(** ** The actions *)

Lemma work_no_job pend id plan rt : work_ok pend rt -> DkgExecutorAction.Prepare id plan ∈ pend -> preparations (rt_machine rt) = ∅.
Proof.
  intros Hi Hin. pose proof (w_single _ _ Hi) as Hs. assert (1 <= prepares pend)%nat.
  { unfold prepares. apply list_elem_of_split in Hin as (l1 & l2 & ->). rewrite filter_app, filter_cons_True, length_app by done. cbn. lia. }
  apply map_size_empty_inv. lia.
Qed.

Lemma prepares_cons a pend : prepares (a :: pend) = ((if is_prepare a then 1 else 0) + prepares pend)%nat.
Proof. unfold prepares. rewrite filter_cons. by destruct (is_prepare a). Qed.

(** A preparation that is not started anew leaves no second one. *)
Lemma work_ok_tail a pend rt : work_ok (a :: pend) rt -> Forall (fun a => ~ expires a) (a :: pend) -> work_ok pend rt.
Proof. intros Hi Hf. eapply work_ok_leave; [done..|set_solver|]. rewrite prepares_cons. lia. Qed.

Lemma no_second id plan pend rt : work_ok (DkgExecutorAction.Prepare id plan :: pend) rt -> forall id' plan', DkgExecutorAction.Prepare id' plan' ∉ pend.
Proof.
  intros Hi id' plan' Hin. pose proof (w_single _ _ Hi) as Hs. rewrite prepares_cons in Hs. cbn in Hs.
  apply list_elem_of_split in Hin as (l1 & l2 & ->). unfold prepares in Hs.
  rewrite filter_app, filter_cons_True, length_app in Hs by done. cbn in Hs. lia.
Qed.

Lemma keeps_work_material pend keys plan : keeps (work_ok pend) (prepare_task_material keys plan).
Proof.
  unfold prepare_task_material. keeping. intros rt0. apply keeps_store_do. intros rt [Hs ? ? ? ? ? ? ?]. split; cbn; try done.
  by rewrite generate_identity.
Qed.

Lemma work_start inputs head id plan pend rt :
  work_ok (DkgExecutorAction.Prepare id plan :: pend) rt -> Forall (fun a => ~ expires a) pend ->
  work_ok pend (start_preparation inputs head id plan rt).1.
Proof.
  intros Hi Hf.
  assert (Hfail : forall rt r, work_ok (DkgExecutorAction.Prepare id plan :: pend) rt -> work_ok pend (record_preparation id r rt).1).
  { intros rt0 r H0. apply work_preparation; [eapply work_ok_tail; [done|by constructor; [intros Hx; exact Hx|]]| |].
    - rewrite (work_no_job _ id plan _ H0) by set_solver. apply lookup_empty.
    - by apply (no_second _ _ _ _ H0). }
  unfold start_preparation, then_do at 1, attempt at 1.
  pose proof (keeps_work_material _ (input_message_public_keys inputs) plan rt Hi) as H1.
  destruct (prepare_task_material _ _ rt) as [rt1 [material|error]]; [|by apply Hfail]. cbn [fst] in H1.
  unfold then_do at 1, attempt at 1.
  pose proof (keeps_when _ (must_persist_store material) persist (keeps_work_persist _) rt1 H1) as H2.
  destruct (when _ _ rt1) as [rt2 [[]|error]]; [|by apply Hfail]. cbn [fst] in H2. cbn.
  pose proof (work_no_job _ id plan _ H2 ltac:(set_solver)) as He. pose proof (no_second _ _ _ _ H2) as Hno.
  destruct H2 as [? ? ? Hj Hs ? ? Hst]. rewrite prepares_cons in Hs. cbn in Hs. split; cbn; try done.
  - intros id' Hid. destruct (decide (id' = id)) as [->|Hne]; [left; apply (Hst id plan); set_solver|].
    rewrite lookup_insert_ne in Hid by done. destruct (Hj id' Hid) as [|Hx]; [by left|right; set_solver].
  - rewrite He, map_size_insert_None, map_size_empty by apply lookup_empty. lia.
  - intros id' plan' Hin. apply (Hst id' plan'). set_solver.
Qed.

#[local] Hint Resolve keeps_work_remove keeps_work_persist keeps_work_submission : service.
#[local] Hint Extern 1 (keeps _ (machine_set _)) => apply keeps_work_set; intros []; done : service.

(** The pool has the new transaction until it is recorded. *)
Lemma submit_owned pend id request : triple (work_ok pend) (submit_dkg_pool_transaction request)
  (fun hash rt => work_ok pend (with_machine rt (push_owned id hash (rt_machine rt)))) (work_ok pend).
Proof.
  intros rt Hi. unfold submit_dkg_pool_transaction, then_do, get, lift, call, modify, ret. cbn.
  destruct (map_err _ (sign_dkg_transaction _ _ _)) as [transaction|]; [|done].
  destruct (map_err _ (try_from_consensus _ _)) as [hash|]; [|done]. cbn.
  destruct (map_err _ (add_transaction _ _)) as [[]|]; [|by apply timeless]. destruct Hi as [? ? ? ? ? ? Hp ?]. split; cbn; try done.
  set (owned := owned_transactions (rt_machine rt)) in *. intros h [->%elem_of_singleton|Hin]%elem_of_union.
  - exists id, (default [] (owned !! id) ++ [hash]). rewrite lookup_insert, decide_True by done. split; [done|set_solver].
  - destruct (Hp h Hin) as (id' & hs & E & Hh). destruct (decide (id' = id)) as [->|Hne].
    + exists id, (default [] (owned !! id) ++ [hash]). rewrite lookup_insert, decide_True by done. split; [done|]. rewrite E. set_solver.
    + exists id', hs. by rewrite lookup_insert_ne.
Qed.

Lemma keeps_work_request pend id calldata inputs : keeps (work_ok pend) (next_request id calldata inputs).
Proof.
  unfold next_request. keeping.
  - apply keeps_work_do. intros m. by destruct (bump _ _ _ _).
  - by apply keeps_work_do.
Qed.

Lemma keeps_triple {T} (I : Runtime -> Prop) (m : Eff T) Post : triple I m Post I -> (forall x rt, Post x rt -> I rt) -> keeps I m.
Proof. intros Ht Hp rt Hi. specialize (Ht rt Hi). destruct (m rt) as [rt' [x|]]; [by eapply Hp|done]. Qed.

Lemma keeps_work_submit pend head id calldata : keeps (work_ok pend) (build_and_submit head id calldata).
Proof.
  unfold build_and_submit. apply keeps_then; [keeping|]. intros inputs. apply keeps_then; [apply keeps_work_request|]. intros request.
  eapply keeps_triple; [|by intros ? ? Hi; exact Hi]. eapply triple_then; [apply (submit_owned pend id)|]. intros hash rt Hi.
  unfold then_do at 1. cbn [machine_set modify]. change (fun _ => work_ok pend) with (fun _ : B256 => work_ok pend).
  apply (triple_keeps (work_ok pend)); [|exact Hi]. keeping.
Qed.

Lemma keeps_work_receipt pend id r : keeps (work_ok pend)
  (machine_do RuntimeExecutor (fun m => let '(x, o) := record_receipt (executor m) id r in (set_executor m x, o))).
Proof.
  apply (keeps_work_record pend (fun x => record_receipt x id r)); intros.
  - by apply logged_receipt.
  - by apply preparing_receipt.
  - by apply absent_receipt.
Qed.
#[local] Hint Resolve keeps_work_submit keeps_work_receipt : service.

(** One action; an expiry does not fail. *)
Lemma work_perform inputs head height a pend rt : work_ok (a :: pend) rt -> Forall (fun a => ~ expires a) (a :: pend) ->
  work_ok pend (perform_action inputs head height a rt).1.
Proof.
  intros Hi Hf. pose proof Hf as [Ha Hr]%Forall_cons.
  assert (Hk : keeps (work_ok pend) (handle_action head height a)).
  { unfold handle_action. destruct a; try (by destruct Ha); keeping. }
  destruct a; try (by destruct Ha); [|by apply Hk; eapply work_ok_tail..]. cbn [perform_action].
  destruct inputs; [by eapply work_start|]. by eapply work_ok_tail.
Qed.

Lemma work_expire inputs head height id pend rt : work_ok (DkgExecutorAction.Expire id :: pend) rt ->
  exists rt', perform_action inputs head height (DkgExecutorAction.Expire id) rt = (rt', Ok tt) /\ work_ok pend rt'.
Proof.
  intros [? ? ? Hj Hs ? ? Hst]. eexists. split; [reflexivity|]. rewrite prepares_cons in Hs. split; cbn; try done.
  - intros id' Hid. destruct (decide (id' = id)) as [->|Hne].
    + rewrite lookup_delete, decide_True in Hid by done. by destruct Hid.
    + rewrite lookup_delete_ne in Hid by done. destruct (Hj id' Hid) as [|Hx]; [by left|right]. set_solver.
  - cbn in Hs. rewrite map_size_delete. destruct (preparations (rt_machine rt) !! id); unfold Datatypes.id; lia.
  - intros id' plan Hin. apply (Hst id' plan). set_solver.
Qed.

Lemma work_actions inputs head height expired l rt : work_ok (map DkgExecutorAction.Expire expired ++ l) rt ->
  Forall (fun a => ~ expires a) l ->
  work_ok [] (for_each (map DkgExecutorAction.Expire expired ++ l) (perform_action inputs head height) rt).1.
Proof.
  revert rt. induction expired as [|id expired IH]; intros rt Hi Hf; cbn [map app for_each] in *.
  - revert rt Hi. induction l as [|a l IHl]; intros rt Hi; cbn [for_each]; [done|].
    pose proof (work_perform inputs head height a l rt Hi Hf) as Hp. apply Forall_cons in Hf as [Ha Hf].
    unfold then_do. destruct (perform_action _ _ _ a rt) as [rt' [[]|]]; cbn in Hp; [by apply IHl|]. by eapply work_ok_nil.
  - destruct (work_expire inputs head height id _ rt Hi) as (rt' & E & Hi'). unfold then_do. rewrite E. by apply IH.
Qed.

Lemma work_take height rt : work_ok [] rt ->
  exists rt' expired l, take_actions height rt = (rt', Ok (map DkgExecutorAction.Expire expired ++ l)) /\
    work_ok (map DkgExecutorAction.Expire expired ++ l) rt' /\ Forall (fun a => ~ expires a) l.
Proof.
  intros [? ? Hl Hj Hs Hc ? _]. unfold take_actions. cbn [then_do machine].
  set (limit := if bool_decide _ then 1 else 0).
  destruct (logged_actions _ height limit Hl) as (x & l0 & E & Hx). rewrite E. cbn.
  destruct (actions_preparing _ _ _ _ _ E) as (Hn & expired & l & -> & Hf & Hp & Hst & Hle).
  eexists _, expired, l. split; [reflexivity|]. split; [|done].
  assert (Hzero : prepares (map DkgExecutorAction.Expire expired ++ l) = prepares l).
  { unfold prepares. rewrite filter_app, length_app. replace (filter _ (map _ expired)) with (@nil DkgExecutorAction); [done|].
    clear. induction expired; [done|]. cbn [map]. by rewrite filter_cons_False. }
  assert (Hin : forall id plan, DkgExecutorAction.Prepare id plan ∈ map DkgExecutorAction.Expire expired ++ l -> DkgExecutorAction.Prepare id plan ∈ l).
  { intros id plan [Hin|]%elem_of_app; [|done]. apply list_elem_of_fmap in Hin as (? & ? & _). done. }
  split; cbn; try done.
  - intros id Hid. destruct (Hj id Hid) as [Hq|Hq]; [|by apply elem_of_nil in Hq]. destruct (Hp id Hq); [by left|right].
    apply elem_of_app. left. by apply list_elem_of_fmap_2.
  - rewrite Hzero. unfold limit in Hle. case_bool_decide as He.
    + rewrite He, map_size_empty. lia.
    + unfold prepares in Hs at 1. cbn in Hs. lia.
  - intros id Hid. by apply Hn, Hc.
  - intros id plan Hq. by eapply Hst, Hin.
Qed.

(** ** A run of the tasks *)

Lemma keeps_work_queue c : keeps (work_ok []) (queue_tasks c).
Proof.
  unfold queue_tasks. apply keeps_then; [apply keeps_work_do; intros m; by destruct (take_tasks _ _)|]. intros plans.
  apply keeps_machine_set. intros rt [? ? Hl Hj ? Hc ? Hs]. split; cbn; try done.
  - by apply logged_enqueue.
  - intros id Hid. destruct (Hj id Hid); [left; by apply enqueue_preparing|by right].
  - intros id Hid. match goal with |- tasks (enqueue ?x ?l ?n).1 !! _ = _ => destruct (enqueue_lookup l x n id) as [->|[_ Hin]] end; [by apply Hc|].
    apply list_elem_of_fmap in Hin as (plan & -> & [Hin _]%list_elem_of_filter). done.
  - intros id plan Hin. by apply elem_of_nil in Hin.
Qed.

Lemma keeps_work_poll t inputs id : keeps (work_ok []) (poll_preparation t inputs id).
Proof.
  intros rt Hi. unfold poll_preparation. cbn [then_do machine].
  destruct (preparations (rt_machine rt) !! id) as [handle|] eqn:E; [|done]. destruct (job_finished t id); [|done].
  cbn [then_do machine_set modify]. apply work_preparation.
  - destruct Hi as [? ? ? Hj Hs ? ? Hst]. split; cbn; try done.
    + intros id' Hid. apply Hj. destruct (decide (id' = id)) as [->|Hne]; [by rewrite E|]. by rewrite lookup_delete_ne in Hid.
    + rewrite map_size_delete, E. lia.
  - cbn. by rewrite lookup_delete, decide_True.
  - intros plan. apply not_elem_of_nil.
Qed.

Lemma keeps_work_release id : keeps (work_ok []) (commit_release id).
Proof.
  intros rt Hi. unfold commit_release. cbn [then_do machine]. set (owned := owned_transactions (rt_machine rt)).
  assert (Hrest : forall rt', work_ok [] rt' -> owned_transactions (rt_machine rt') = owned ->
    (forall h hs, owned !! id = Some hs -> h ∈ hs -> h ∉ rt_pool rt') ->
    work_ok [] (machine_set (fun m => set_transactions (set_owned m (delete id (owned_transactions m)) (pending_transaction_releases m))
      (release_reservation (transactions m) id).1) rt').1).
  { intros rt' [? ? ? ? ? ? Hp ?] Eo Hno. split; cbn; try done. intros h Hin. rewrite Eo. destruct (Hp h Hin) as (id' & hs & E & Hx).
    rewrite Eo in E. exists id', hs. split; [|done]. rewrite lookup_delete_ne; [done|]. intros <-. by eapply Hno. }
  destruct (owned !! id) as [hs|] eqn:E.
  - apply Hrest; [by apply keeps_work_remove|done|]. intros h hs' [= <-] Hin. cbn. rewrite elem_of_difference, elem_of_list_to_set. tauto.
  - apply Hrest; done.
Qed.
#[local] Hint Resolve keeps_work_queue keeps_work_poll keeps_work_release : service.

Lemma keeps_work_run height head c inputs : keeps (work_ok []) (run_tasks height head c inputs).
Proof.
  unfold run_tasks. apply keeps_then; [keeping|]. intros _. apply keeps_then; [unfold poll_preparations; keeping|]. intros _.
  assert (Hrest : keeps (work_ok []) (let! _ := ensure_canonical_head head in let! _ := commit_transaction_releases in
    machine_set (fun m => set_head m (Some (height, head))))) by (unfold commit_transaction_releases; keeping).
  intros rt Hi. destruct (work_take height rt Hi) as (rt' & expired & l & E & Hi' & Hf). unfold then_do at 1. rewrite E.
  unfold then_do at 1. pose proof (work_actions inputs head height expired l rt' Hi' Hf) as Ha.
  destruct (for_each _ _ rt') as [rt0 [x|]]; [by apply Hrest|done].
Qed.

(** ** The other steps of a heartbeat *)

Lemma work_machine_reset rt : work_ok [] rt -> work_ok [] (with_machine rt (reset_task_work (rt_machine rt) (cfg_chain_id config)).1).
Proof.
  intros [? ? ? ? ? ? ? ?]. unfold reset_task_work.
  destruct (builder_new _); split; cbn; try done; try apply logged_default; try (intros id Hid; apply lookup_empty);
    try (intros id plan Hin; by apply elem_of_nil in Hin); try (rewrite map_size_empty; cbn; lia);
    intros id Hid; rewrite lookup_empty in Hid; by destruct Hid.
Qed.

Lemma discard_empties rt : work_ok [] rt -> rt_pool (discard_owned_pool_transactions rt).1 = ∅.
Proof.
  intros Hi. cbn. apply set_eq. intros h. split; [|set_solver]. intros [Hin Hn]%elem_of_difference. exfalso. apply Hn.
  destruct (w_pool _ _ Hi h Hin) as (id & hs & E & Hh). apply elem_of_list_to_set, list_elem_of_In, in_concat. exists hs.
  split; [|by apply list_elem_of_In]. apply in_map_iff. exists (id, hs). split; [done|]. by apply list_elem_of_In, elem_of_map_to_list.
Qed.

Lemma keeps_work_discard : keeps (work_ok []) discard_owned_pool_transactions.
Proof.
  intros rt Hi. pose proof (discard_empties rt Hi) as He. destruct Hi. cbn in He |- *. split; cbn; try done.
  intros h Hin. rewrite He in Hin. by apply elem_of_empty in Hin.
Qed.

Lemma retire_absent x id : tasks (retire x id).1 !! id = None.
Proof. unfold retire. destruct (tasks x !! id) eqn:E; [|done]. cbn. by rewrite lookup_delete, decide_True. Qed.

Lemma retire_other x id id' : id' <> id -> tasks (retire x id).1 !! id' = tasks x !! id'.
Proof. intros Hne. unfold retire. destruct (tasks x !! id); [|done]. cbn. by rewrite lookup_delete_ne. Qed.

Lemma keeps_work_retire id : keeps (work_ok []) (retire_canonical_task id).
Proof.
  apply keeps_machine_set. intros rt [? ? ? Hj Hs Hc ? Hst]. split; cbn; try done.
  - by apply logged_retire.
  - intros id' Hid. destruct (decide (id' = id)) as [->|Hne]; [rewrite lookup_delete, decide_True in Hid by done; by destruct Hid|].
    rewrite lookup_delete_ne in Hid by done. destruct (Hj id' Hid) as [Hq|]; [left|by right]. unfold preparing_in. by rewrite retire_other.
  - rewrite map_size_delete. destruct (preparations (rt_machine rt) !! id); unfold Datatypes.id; lia.
  - intros id' Hid. destruct (decide (id' = id)) as [->|Hne]; [apply retire_absent|]. rewrite retire_other by done. by apply Hc.
  - intros id' plan Hin. by apply elem_of_nil in Hin.
Qed.

Lemma keeps_work_reset : keeps (work_ok []) discard_and_reset.
Proof.
  unfold discard_and_reset. apply keeps_then; [apply keeps_work_discard|]. intros _. apply keeps_machine_do. apply work_machine_reset.
Qed.

Lemma retire_all l : forall rt, work_ok [] rt -> exists rt', for_each l retire_canonical_task rt = (rt', Ok tt) /\ work_ok [] rt' /\
  forall id, id ∈ l \/ tasks (executor (rt_machine rt)) !! id = None -> tasks (executor (rt_machine rt')) !! id = None.
Proof.
  induction l as [|id l IH]; intros rt Hi.
  { exists rt. split_and!; [done..|]. intros id [Hin|]; [by apply elem_of_nil in Hin|done]. }
  pose proof (keeps_work_retire id rt Hi) as Hi'. cbn [for_each]. unfold then_do at 1.
  destruct (IH _ Hi') as (rt' & E & Hr & Hn). exists rt'. split_and!; [exact E|done|]. intros id' Hid. apply Hn. cbn.
  destruct (decide (id' = id)) as [->|Hne]; [right; apply retire_absent|]. rewrite retire_other by done. set_solver.
Qed.

Lemma keeps_work_reconcile tasks : keeps (work_ok []) (reconcile_canonical_local_tasks tasks).
Proof.
  intros rt Hi. unfold reconcile_canonical_local_tasks. cbn [then_do machine]. set (old := canonical_tasks (rt_machine rt)).
  assert (Hw : match when (negb (bool_decide (old ⊆ tasks))) discard_and_reset rt with
    | (rt', Ok _) => work_ok [] rt' /\ canonical_tasks (rt_machine rt') = old | (rt', Err _) => work_ok [] rt' end).
  { destruct (negb _); cbn [when]; [|by split]. pose proof (keeps_work_reset rt Hi) as Hr. unfold discard_and_reset, machine_do, then_do in Hr |- *.
    cbn in Hr |- *. unfold reset_task_work in Hr |- *. destruct (builder_new _); cbn in Hr |- *; done. }
  unfold then_do at 1. destruct (when _ _ rt) as [rt1 [[]|]]; [|done]. destruct Hw as [H1 E1].
  destruct (retire_all (elements (tasks ∖ old)) rt1 H1) as (rt2 & E2 & H2 & Hn). unfold then_do at 1. rewrite E2.
  cbn [machine_set modify]. destruct H2. split; cbn; try done. intros id Hid. apply Hn.
  destruct (decide (id ∈ old)) as [Ho|Ho]; [right; apply (w_canonical _ _ H1); by rewrite E1|left]. apply elem_of_elements. set_solver.
Qed.

#[local] Instance work_ok_invariant : WorkInvariant i (work_ok []).
Proof.
  split.
  - apply _.
  - by intros rt [].
  - intros rt s [] ?. by split.
  - intros rt s [] ?. by split.
  - apply keeps_work_discard.
  - apply work_machine_reset.
  - intros rt m Hi (_ & E1 & _ & E2 & E3 & E4 & _). by apply work_ok_machine.
  - intros rt inputs [? ? ? ? ? ? ? ?]. by split.
  - apply keeps_work_reconcile.
  - apply keeps_work_run.
Qed.

(** ** The settled round and the events of the service *)

Lemma work_signer rt signer : work_ok [] rt -> work_ok [] (with_signer rt signer).
Proof. intros []. by split. Qed.

Lemma keeps_work_clear : keeps (work_ok []) clear_signer_shares.
Proof. intros rt Hi. unfold clear_signer_shares. destruct (replace_optional_dkg_private_shares _ _ _); [by apply work_signer|done]. Qed.

Lemma keeps_work_install head : keeps (work_ok []) (install_signer_shares head).
Proof. intros rt Hi. unfold install_signer_shares. destruct (let? _ := _ in _); [by apply work_signer|done]. Qed.
#[local] Hint Resolve keeps_work_clear keeps_work_install keeps_work_reset : service.

Lemma rebuild_settled_work head c rt : work_ok [] rt ->
  work_ok [] (rebuild_settled head c rt).1 /\ forall s, (rebuild_settled head c rt).2 = Ok s -> identity s = i.
Proof.
  intros Hi. split.
  - assert (Hk : keeps (work_ok []) (rebuild_settled head c)) by (unfold rebuild_settled; keeping). by apply Hk.
  - intros s. pose proof (w_store _ _ Hi) as Hs. unfold rebuild_settled, state_by_block_hash, provided, then_do, get, call, lift, ret. cbn.
    destruct (settled_round c =? 0); cbn; [by intros [= <-]|].
    destruct (state_available _ head); cbn; [|done]. destruct (read_dkg_canonical_round_with_parameters _ _ _); cbn; [|done].
    destruct (settled_epoch c); cbn; [|done]. intros E%map_err_Ok%rebuild_store_identity. by rewrite E.
Qed.

Lemma keeps_work_settled head c : keeps (work_ok []) (reconcile_settled_round head c).
Proof.
  unfold reconcile_settled_round. apply keeps_then; [keeping|]. intros rt0. destruct (_ && _); [keeping|].
  apply keeps_then; [keeping|]. intros _. apply keeps_then; [keeping|]. intros _.
  apply (keeps_then_ok (work_ok []) (fun s => identity s = i)); [apply rebuild_settled_work|]. intros s Hs.
  apply keeps_then; [exact (keeps_save i (work_ok []) s Hs)|]. intros _. keeping. apply keeps_modify. intros rt []. by split.
Qed.
#[local] Hint Resolve keeps_work_settled : service.

Lemma keeps_work_heartbeat reorg : keeps (work_ok []) (heartbeat reorg).
Proof.
  unfold heartbeat. apply keeps_then; [|intros x; apply (keeps_drive i), _]. unfold reconcile_head. keeping.
Qed.

Lemma keeps_work_invalidate : keeps (work_ok []) invalidate_canonical_attempt.
Proof.
  unfold invalidate_canonical_attempt. apply keeps_then; [keeping|]. intros cleared.
  apply keeps_then; [apply keeps_work_discard|]. intros _. apply keeps_then; [apply keeps_attempt|keeping].
  apply keeps_machine_do. intros rt Hi. apply work_machine_reset in Hi. unfold invalidate_head_work.
  destruct (reset_task_work (rt_machine rt) _) as [m [[]|]]; cbn in Hi |- *; [|done]. destruct Hi. by split.
Qed.

Lemma invalidate_empties rt : work_ok [] rt -> rt_pool (invalidate_canonical_attempt rt).1 = ∅.
Proof.
  intros Hi. unfold invalidate_canonical_attempt. unfold then_do at 1, attempt at 1.
  pose proof (keeps_work_clear rt Hi) as H1. destruct (clear_signer_shares rt) as [rt1 r1]. cbn [fst] in H1.
  pose proof (discard_empties rt1 H1) as He. unfold then_do at 1. cbn in He |- *. unfold attempt, then_do, machine_do, lift.
  destruct (invalidate_head_work _ _) as [m [[]|]]; cbn; destruct r1; exact He.
Qed.

Lemma serve_work s e : work_ok [] (runtime s) -> work_ok [] (runtime (serve s e)).
Proof.
  intros Hi.
  assert (Hinv : forall ph rt, work_ok [] rt -> work_ok [] (runtime (invalidated ph rt))).
  { intros ph rt H0. apply keeps_work_invalidate in H0. unfold invalidated. by destruct (invalidate_canonical_attempt rt). }
  unfold serve. destruct (phase s), e as [reorg| | |journal]; try done; try (by apply Hinv); try (by apply work_signer).
  - pose proof (keeps_work_heartbeat reorg _ Hi) as Hh. destruct (heartbeat reorg (runtime s)) as [rt [[]|]]; [done|by apply Hinv].
  - pose proof (keeps_work_heartbeat reorg _ Hi) as Hh.
    destruct (heartbeat reorg (runtime s)) as [rt [[]|[]]]; first [done | by apply Hinv].
  - apply keeps_work_invalidate in Hi. by destruct (invalidate_canonical_attempt (runtime s)).
Qed.

Lemma serve_all_work events : forall s, work_ok [] (runtime s) -> work_ok [] (runtime (serve_all s events)).
Proof. induction events as [|e events IH]; intros s Hi; [done|]. apply IH. by apply serve_work. Qed.
End invariant.

Lemma start_work signer store s : service_start signer store s -> work_ok (identity store) [] (runtime s).
Proof.
  intros (m & Hm & _ & _ & ->). unfold machine_new in Hm. apply result_bind_Ok in Hm as (b & _ & [= <-]).
  split; cbn; try done; try apply logged_default; try (intros id plan Hin; by apply elem_of_nil in Hin); try (rewrite map_size_empty; cbn; lia);
    intros id Hid; rewrite lookup_empty in Hid; by destruct Hid.
Qed.

(** C21. After any events the task queue is explained by a log of its operations, at most one prover
    job runs and its task is being prepared, no queued task is one that the contract already
    has, and every transaction of the service in the pool is recorded, so that the cleanup of
    an invalidated head leaves none. *)
Theorem service_work_sound signer store s events : service_start signer store s ->
  let rt := runtime (serve_all s events) in
  let m := rt_machine rt in
  (exists h, task_executor_ok (executor m) h /\ log_ok h) /\
  (size (preparations m) <= 1)%nat /\
  (forall id handle, preparations m !! id = Some handle ->
     exists task, tasks (executor m) !! id = Some task /\ task_state task = DkgExecutionState.Preparing) /\
  (forall id, id ∈ canonical_tasks m -> tasks (executor m) !! id = None) /\
  (forall hash, hash ∈ rt_pool rt -> exists id hashes, owned_transactions m !! id = Some hashes /\ hash ∈ hashes) /\
  rt_pool (invalidate_canonical_attempt rt).1 = ∅.
Proof.
  intros Hs rt m. assert (Hi : work_ok (identity store) [] rt) by (by apply serve_all_work, start_work with signer). split_and!.
  - apply (w_logged _ _ _ Hi).
  - pose proof (w_single _ _ _ Hi) as H1. cbn in H1. unfold m. lia.
  - intros id handle E. destruct (w_jobs _ _ _ Hi id) as [|Hx]; [by exists handle|done|by apply elem_of_nil in Hx].
  - apply (w_canonical _ _ _ Hi).
  - apply (w_pool _ _ _ Hi).
  - apply (invalidate_empties _ _ Hi).
Qed.

(** ** A change of head in the middle of the actions *)

(** A task that is being prepared without a prover job. *)
Definition stranded (id : DkgTaskId) (plan : DkgTaskPlan) (rt : Runtime) : Prop :=
  tasks (executor (rt_machine rt)) !! id = Some (mkDkgExecutionTask plan DkgExecutionState.Preparing) /\ preparations (rt_machine rt) !! id = None.

#[local] Instance stranded_timeless id plan : Timeless (stranded id plan).
Proof. intros rt Hi. exact Hi. Qed.

Section stranded.
Variables (id : DkgTaskId) (plan : DkgTaskPlan).
Let idle := mkDkgExecutionTask plan DkgExecutionState.Preparing.

Lemma stranded_machine f : (forall m, executor (f m) = executor m /\ preparations (f m) = preparations m) -> keeps (stranded id plan) (machine_set f).
Proof. intros Hf. apply keeps_machine_set. intros rt [H1 H2]. destruct (Hf (rt_machine rt)) as [E1 E2]. unfold stranded. cbn. by rewrite E1, E2. Qed.

Lemma stranded_do {E T} (error : E -> RuntimeError) (f : DkgRuntimeMachine -> DkgRuntimeMachine * result E T) :
  (forall m, executor (f m).1 = executor m /\ preparations (f m).1 = preparations m) -> keeps (stranded id plan) (machine_do error f).
Proof. intros Hf. apply keeps_machine_do. intros rt [H1 H2]. destruct (Hf (rt_machine rt)) as [E1 E2]. unfold stranded. cbn. by rewrite E1, E2. Qed.

(** Reports on another task, and reports that do not fit the state of this one. *)
Lemma set_task_other x id' task state : id' <> id -> tasks (set_task x id' task state) !! id = tasks x !! id.
Proof. intros Hne. cbn. by rewrite lookup_insert_ne. Qed.

Lemma idle_prepared x id' r : id' <> id -> tasks x !! id = Some idle -> tasks (record_prepared x id' r).1 !! id = Some idle.
Proof.
  intros Hne Hi. unfold record_prepared. destruct (task_in_state _ _ _); [|done].
  destruct r as [calldata|]; [destruct (4 <=? lenN calldata)|]; cbn [fst]; by rewrite set_task_other.
Qed.

Lemma idle_not x id' expected task : task_in_state x id' expected = Ok task -> expected DkgExecutionState.Preparing = false ->
  tasks x !! id = Some idle -> id' <> id.
Proof. intros [E Hs]%task_in_state_Ok He Hi ->. rewrite Hi in E. injection E as <-. cbn in Hs. congruence. Qed.

Lemma idle_submitted x id' height r : tasks x !! id = Some idle -> tasks (record_submitted x id' height r).1 !! id = Some idle.
Proof.
  intros Hi. unfold record_submitted. destruct (task_in_state _ _ _) as [task|] eqn:E; [|done]. pose proof (idle_not _ _ _ _ E eq_refl Hi) as Hne.
  destruct (submitting_calldata _); [|done]. destruct r; cbn [fst]; by rewrite set_task_other.
Qed.

Lemma idle_receipt x id' r : tasks x !! id = Some idle -> tasks (record_receipt x id' r).1 !! id = Some idle.
Proof.
  intros Hi. unfold record_receipt. destruct (task_in_state _ _ _) as [task|] eqn:E; [|done]. pose proof (idle_not _ _ _ _ E eq_refl Hi) as Hne.
  destruct (checking_submission _) as [[calldata hash]|]; [|done].
  destruct r as [[]|]; cbn [fst]; try (by rewrite set_task_other). cbn. by rewrite lookup_delete_ne.
Qed.

Lemma stranded_record {T} (f : DkgTaskExecutor -> DkgTaskExecutor * result DkgExecutorError T) :
  (forall x, tasks x !! id = Some idle -> tasks (f x).1 !! id = Some idle) ->
  keeps (stranded id plan) (machine_do RuntimeExecutor (fun m => let '(x, o) := f (executor m) in (set_executor m x, o))).
Proof.
  intros Hf. apply keeps_machine_do. intros rt [H1 H2]. apply Hf in H1. unfold stranded. by destruct (f (executor (rt_machine rt))).
Qed.

Lemma stranded_preparation id' r : id' <> id -> keeps (stranded id plan) (record_preparation id' r).
Proof.
  intros Hne. unfold record_preparation. keeping. apply (stranded_record (fun x => record_prepared x id' r)). intros x. by apply idle_prepared.
Qed.

Lemma stranded_submission id' height r : keeps (stranded id plan) (record_submission id' height r).
Proof. unfold record_submission. keeping. apply (stranded_record (fun x => record_submitted x id' height r)). intros x. apply idle_submitted. Qed.

Lemma stranded_persist : keeps (stranded id plan) persist.
Proof. intros rt Hi. unfold persist, then_do, get, save_encrypted, call. cbn. by destruct (save_outcome _). Qed.

Lemma stranded_remove hashes : keeps (stranded id plan) (remove_transactions hashes).
Proof. apply keeps_modify. intros rt Hi. exact Hi. Qed.

#[local] Hint Resolve stranded_submission stranded_persist stranded_remove : service.
#[local] Hint Extern 1 (keeps _ (machine_set _)) => apply stranded_machine; intros []; done : service.

Lemma stranded_perform inputs head height a : action_id a <> id -> keeps (stranded id plan) (perform_action inputs head height a).
Proof.
  intros Hne. unfold perform_action, handle_action, start_preparation, prepare_task_material, build_and_submit, next_request, submit_dkg_pool_transaction.
  destruct a as [id' p|id' to calldata|id' hash|id']; cbn in Hne; pose proof (fun r => stranded_preparation id' r Hne) as Hp; keeping.
  - intros rt. by apply keeps_store_do.
  - apply keeps_machine_set. intros rt [H1 H2]. split; cbn; [done|]. by rewrite lookup_insert_ne.
  - apply stranded_do. intros m. by destruct (bump _ _ _ _).
  - apply (stranded_record (fun x => record_receipt x id' _)). intros x0. apply idle_receipt.
  - apply keeps_machine_set. intros rt [H1 H2]. split; cbn; [done|]. by rewrite lookup_delete_ne.
Qed.

Lemma idle_actions x height limit x' l : actions_with_preparation_limit x height limit = Some (x', l) -> tasks x !! id = Some idle ->
  height < plan_end_height plan -> tasks x' !! id = Some idle /\ Forall (fun a => action_id a <> id) l.
Proof.
  intros E Hi Hh. unfold actions_with_preparation_limit in E. cbv zeta in E.
  set (expired := filter (fun id => is_expired (tasks x) height id = true) (order x)) in E.
  destruct (start_actions _ _ _ _ _) as [[ts' l']|] eqn:Es in E; [|done]. cbn in E. injection E as <- <-. cbn [tasks].
  assert (Hne : id ∉ expired).
  { intros [He _]%list_elem_of_filter. unfold is_expired in He. rewrite Hi in He. apply N.leb_le in He. cbn in He. lia. }
  apply (waiting_start id idle) in Es as [H1 H2]; [|done|by rewrite lookup_deletes, bool_decide_eq_false_2]. split; [done|].
  apply Forall_app. split; [|done]. apply Forall_forall. intros a (id' & -> & Hin)%list_elem_of_fmap. cbn. by intros ->.
Qed.

Lemma stranded_poll t inputs id' : keeps (stranded id plan) (poll_preparation t inputs id').
Proof.
  intros rt [H1 H2]. unfold poll_preparation. cbn [then_do machine]. destruct (decide (id' = id)) as [->|Hne]; [by rewrite H2|].
  destruct (preparations (rt_machine rt) !! id'); [|done]. destruct (job_finished _ id'); [|done]. cbn [then_do machine_set modify].
  apply stranded_preparation; [done|]. split; cbn; [done|]. by rewrite lookup_delete_ne.
Qed.

Lemma stranded_run height head c inputs : height < plan_end_height plan -> keeps (stranded id plan) (run_tasks height head c inputs).
Proof.
  intros Hh. unfold run_tasks. apply keeps_then.
  { unfold queue_tasks. apply keeps_then; [apply stranded_do; intros m; by destruct (take_tasks _ _)|]. intros plans.
    apply keeps_machine_set. intros rt [H1 H2]. split; [|done]. cbn.
    match goal with |- tasks (enqueue ?x ?l ?n).1 !! _ = _ => destruct (enqueue_lookup l x n id) as [->|[E _]] end; [done|congruence]. }
  intros _. apply keeps_then.
  { unfold poll_preparations. pose proof stranded_poll as Hp. keeping. }
  intros _ rt [H1 H2]. unfold take_actions, then_do at 1. cbn [then_do machine].
  destruct (actions_with_preparation_limit _ height _) as [[x l]|] eqn:E; [|done]. destruct (idle_actions _ _ _ _ _ E H1 Hh) as [H3 H4].
  cbn [then_do machine_set modify ret].
  match goal with |- stranded id plan (?m ?rt).1 => apply (keeps_then (stranded id plan) (for_each l (perform_action inputs head height))) end.
  - apply keeps_for_each; [apply _|]. intros a Ha. apply stranded_perform. rewrite Forall_forall in H4. by apply H4.
  - intros _. unfold commit_transaction_releases, commit_release. keeping.
  - by split.
Qed.
End stranded.

Lemma taken_state height rt rt' l : take_actions height rt = (rt', Ok l) ->
  (forall id plan, DkgExecutorAction.Prepare id plan ∈ l ->
     tasks (executor (rt_machine rt')) !! id = Some (mkDkgExecutionTask plan DkgExecutionState.Preparing) /\ preparations (rt_machine rt') = ∅) /\
  (forall id to calldata, DkgExecutorAction.Submit id to calldata ∈ l ->
     exists plan, tasks (executor (rt_machine rt')) !! id = Some (mkDkgExecutionTask plan (DkgExecutionState.Submitting calldata))).
Proof.
  unfold take_actions. cbn [then_do machine]. set (limit := if bool_decide _ then 1 else 0).
  destruct (actions_with_preparation_limit _ height limit) as [[x l0]|] eqn:E; [|done]. intros [= <- <-]. cbn.
  destruct (actions_preparing _ _ _ _ _ E) as (_ & expired & l & El & _ & _ & _ & Hle).
  unfold actions_with_preparation_limit in E. cbv zeta in E. destruct (start_actions _ _ _ _ _) as [[ts' l']|] eqn:Es in E; [|done].
  injection E as <- <-. apply start_actions_state in Es as [H1 H2]. cbn [tasks].
  assert (Hin : forall a, ~ expires a -> a ∈ map DkgExecutorAction.Expire (filter (fun id => is_expired (tasks (executor (rt_machine rt))) height id = true)
    (order (executor (rt_machine rt)))) ++ l' -> a ∈ l').
  { intros a Ha [(? & -> & _)%list_elem_of_fmap|]%elem_of_app; [by destruct (Ha I)|done]. }
  split; [|intros id to calldata Hs; eapply H2, Hin; [|exact Hs]; by intros Hx].
  intros id plan Hp. pose proof Hp as Hp'. apply Hin in Hp; [|by intros Hx]. split; [by apply H1|].
  unfold limit in Hle. case_bool_decide as He; [done|]. exfalso. rewrite El in Hp'.
  apply elem_of_app in Hp' as [(? & ? & _)%list_elem_of_fmap|Hp']; [done|].
  apply list_elem_of_split in Hp' as (l1 & l2 & ->). unfold prepares in Hle. rewrite filter_app, filter_cons_True, length_app in Hle by done. cbn in Hle. lia.
Qed.

(** C38. When the head changes under a submission, the actions after it are dropped although their
    tasks have moved: a task whose proving was due stays marked as being prepared without a
    prover job, through every later run before its deadline. *)
Theorem head_change_strands rt rt1 inputs head height id to calldata rest id' plan runs :
  take_actions height rt = (rt1, Ok (DkgExecutorAction.Submit id to calldata :: rest)) ->
  DkgExecutorAction.Prepare id' plan ∈ rest ->
  (ensure_canonical_head head rt1).2 = Err CanonicalHeadChanged ->
  Forall (fun run : N * B256 * DkgTaskContext * option DkgTaskInputSnapshot => run.1.1.1 < plan_end_height plan) runs ->
  let '(rt2, r) := (let! actions := take_actions height in for_each actions (perform_action inputs head height)) rt in
  r = Err CanonicalHeadChanged /\ stranded id' plan rt2 /\
  stranded id' plan (foldl (fun rt '(height, head, c, inputs) => (run_tasks height head c inputs rt).1) rt2 runs).
Proof.
  intros E Hp Hc Hr. unfold then_do at 1. rewrite E. cbn [for_each perform_action handle_action].
  destruct (taken_state _ _ _ _ E) as [Hprep Hsub]. destruct (Hprep id' plan) as [H1 H2]; [set_solver|].
  destruct (Hsub id to calldata) as [plan' H3]; [set_solver|]. clear Hprep Hsub E.
  assert (Hst : stranded id' plan rt1) by (split; [done|by rewrite H2]).
  pose proof (keeps_ensure (stranded id' plan) head rt1 Hst) as Hst1.
  assert (Hx : executor (rt_machine (ensure_canonical_head head rt1).1) = executor (rt_machine rt1)).
  { clear. unfold ensure_canonical_head, provided, then_do, call, lift, throw, ret. cbn.
    repeat first [done | match goal with |- context [match ?x with _ => _ end] => destruct x; cbn end]. }
  unfold then_do at 1, then_do at 1, attempt at 1. destruct (ensure_canonical_head head rt1) as [rt2 r]. cbn in Hc, Hst1, Hx. subst r.
  unfold then_do at 1. pose proof (stranded_submission id' plan id height (Err (error_text CanonicalHeadChanged)) rt2 Hst1) as Hst2.
  unfold record_submission, record_submitted, task_in_state, machine_do, then_do in Hst2 |- *. cbn in Hst2 |- *.
  rewrite Hx, H3 in Hst2 |- *. cbn in Hst2 |- *. split_and!; [done|exact Hst2|].
  revert Hst2. generalize (with_machine rt2 (set_executor (rt_machine rt2) (set_task (executor (rt_machine rt1)) id
    (mkDkgExecutionTask plan' (DkgExecutionState.Submitting calldata)) (DkgExecutionState.Ready calldata)))).
  induction runs as [|[[[h hd] c] ins] runs IH]; intros rt0 H0; [done|]. apply Forall_cons in Hr as [Hh Hr]. cbn [foldl].
  apply IH; [done|]. by apply stranded_run.
Qed.

(** ** A settled round that the store does not have *)

Lemma contributions_need_messages (storage : B256 -> result DkgStorageError (option U256)) round d sender e :
  read_dkg_share_contribution_with_parameters storage round sender d = Err e ->
  forall senders shares reshares, sender ∈ senders -> is_ok (read_contributions storage round d senders shares reshares) = false.
Proof.
  intros He. induction senders as [|i senders IH]; intros shares reshares Hin; [by apply elem_of_nil in Hin|]. cbn [read_contributions].
  destruct (decide (i = sender)) as [->|Hne]; [by rewrite He|].
  destruct (map_err _ (read_dkg_share_contribution_with_parameters _ _ _ _)) as [share|]; [|done].
  destruct (map_err _ (read_dkg_reshare_contribution_with_parameters _ _ _ _)) as [reshare|]; [|done]. apply IH. set_solver.
Qed.

(** C37. The store of a validator follows a settlement only by a rebuild from the encrypted messages
    of the settled round. Once the contract has cleared those of one member, keeping the
    announcement, the rebuild fails for every validator, member or not: the signer is left
    without shares and the store in its old round. *)
Theorem settled_round_unrebuildable rt head c sender pvss :
  let storage := key_storage (state_of head) in
  let d := store_parameters (rt_store rt) in
  words_bounded storage -> store_round (rt_store rt) <> settled_round c -> 0 < settled_round c ->
  index_valid d sender = true -> lenN pvss = pvss_len d -> pvss_len d <= USIZE_MAX -> participants d <= USIZE_MAX ->
  stores_bytes storage (share_pvss_slot (settled_round c) sender) pvss ->
  stores_array storage (share_messages_slot (settled_round c) sender) [] ->
  read_dkg_share_pvss_with_parameters storage (settled_round c) sender d = Ok (Some pvss) /\
  let '(rt', r) := reconcile_settled_round head c rt in
  is_ok r = false /\ current_share (rt_signer rt') = None /\ previous_share (rt_signer rt') = None /\
  signer_installation (rt_machine rt') = None /\ rt_store rt' = rt_store rt /\ rt_file rt' = rt_file rt.
Proof.
  intros storage d Hb Hround Hpos Hi Hl Hm Hp Hs Ha.
  destruct (cleared_contribution storage Hb d (settled_round c) sender pvss) as [H1 H2]; [done..|]. split; [done|].
  assert (Hread : is_ok (read_dkg_canonical_round_with_parameters storage (settled_round c) d) = false).
  { unfold read_dkg_canonical_round_with_parameters.
    pose proof (contributions_need_messages _ _ _ _ _ H2 (indices_of d) [] []) as Hn.
    destruct (read_contributions _ _ _ _ _ _) as [[]|]; [|done]. cbn in Hn. apply Hn. unfold indices_of.
    unfold index_valid in Hi. apply andb_true_iff in Hi as [X1%N.leb_le X2%N.leb_le]. apply list_elem_of_fmap.
    exists (N.to_nat sender). split; [lia|]. apply elem_of_seq. lia. }
  unfold reconcile_settled_round. cbn [then_do get]. destruct (N.eqb_spec (store_round (rt_store rt)) (settled_round c)); [done|]. cbn [andb].
  unfold clear_signer_shares, rebuild_settled, state_by_block_hash, provided, then_do, get, call, lift, ret, machine_set, modify. cbn.
  destruct (N.eqb_spec (settled_round c) 0); [lia|]. cbn. destruct (state_available _ head); cbn; [|done].
  fold storage d. by destruct (read_dkg_canonical_round_with_parameters storage _ d).
Qed.
End service.
