(* ===== verification/ModelRuntime.v ===== *)
(** A validator of the committee of ModelThreshold.v that runs the key-generation service over
    the contract's storage after the second round: the theorems of DkgService.v and DkgWork.v at
    concrete inputs. *)

From S2P Require Import Prelude Extern Instances Tpke DkgParams Lagrange Dkg Pvss Threshold ModelThreshold DkgState Storage DkgStorage Journal Signer.
From S2P Require Import DkgReplay ModelDkg DkgSettled DkgTask DkgExecutor DkgMaterial DkgTransaction StaticPool DkgRuntime DkgService DkgWork.

Module Validator.
Import Committee Member.
#[local] Existing Instance field_blst.
#[local] Existing Instance field_laws.
#[local] Existing Instance field_groups.
#[local] Existing Instance model_symmetric.
#[local] Existing Instance model_ecies.
#[local] Existing Instance model_secp256k1.
#[local] Existing Instance MaterialWitness.model_abi.
#[local] Existing Instance MaterialWitness.model_host.

(** A hash that keeps neighbouring slots apart. *)
Definition spread (b : bytes) : B256 :=
  be_bytes 32 (foldl (fun acc x => N.land ((acc + Byte.to_N x + 1) * 11400714819323198485) (N.ones 64)) 0 b).
#[local] Instance spread_crypto : Crypto := {| keccak256 := spread; recover_address_from_prehash raw _ _ := Some (take ADDRESS_LEN raw) |}.

(** ** The storage of the contracts *)

(** A long byte string in its slots. *)
Definition laid_out (slot : U256) (b : bytes) : list (N * N) :=
  (slot, 2 * lenN b + 1) ::
  map (fun i => (wrapping_add U256_MAX (N_of_be (keccak256 (u256_bytes slot))) (N.of_nat i), N_of_be (take 32 (drop (32 * i) (b ++ repeat x00 31)))))
    (seq 0 (N.to_nat (div_ceil (lenN b) 32))).

Definition pvss_words (kind : DkgContributionKind) : list (N * N) :=
  concat (map (fun k => laid_out (nested_uint_mapping_storage_key (kind_slots kind).1 [2; N.of_nat k + 1]) (nth k transcript [])) (seq 0 4)).

(** Two settled rounds; the announcements of the second are kept. *)
Definition management_words : gmap N N := Eval vm_compute in list_to_map
  ((KEY_MANAGEMENT_ROUND_NUMBER_SLOT, 2) ::
   laid_out (uint_mapping_storage_key KEY_MANAGEMENT_AGGREGATED_COMMITMENTS_SLOT 1) commitment ++
   laid_out (uint_mapping_storage_key KEY_MANAGEMENT_AGGREGATED_COMMITMENTS_SLOT 2) commitment ++
   pvss_words ShareKind ++ pvss_words ReshareKind).

Definition validators : list N := [7; 5; 9; 8].
Definition governance_words : gmap N N := Eval vm_compute in list_to_map
  ((GOVERNANCE_CURRENT_CONSENSUS_SLOT, 4) ::
   map (fun i => (N_of_be (keccak256 (u256_bytes GOVERNANCE_CURRENT_CONSENSUS_SLOT)) + N.of_nat i, nth i validators 0)) (seq 0 4)).

Definition storage_of (a : Address) (k : B256) : result string (option U256) :=
  if bool_decide (a = KEY_MANAGEMENT_PROXY_ADDRESS) then Ok (management_words !! N_of_be k)
  else if bool_decide (a = GOVERNANCE_PROXY_ADDRESS) then Ok (governance_words !! N_of_be k)
  else Ok None.

(** ** The host *)

Definition head : B256 := repeat x77 32.

(** Every block has the same state; the head changes at call [reorg_at]. *)
Definition host (state : B256 -> StateProvider) (reorg_at : nat) : DkgHost := {|
  config := mkDkgRuntimeConfig 47763 0 None;
  latest_header t := Ok (Some (100, if Nat.ltb t reorg_at then head else repeat x88 32));
  block_hash _ _ := Ok (Some head);
  state_of := state;
  state_available _ _ := Ok tt;
  receipt_by_hash _ _ := Ok None;
  zk_getter _ := Err "unavailable"%string;
  nonce_occupied _ _ := false;
  signature_hash _ := repeat x01 32;
  try_from_consensus _ _ := Ok (repeat xaa 32);
  add_transaction _ _ := Ok tt;
  job_finished _ _ := None;
  save_outcome _ := Saved;
  load_outcome _ := Ok tt;
  entropy _ := rng;
  search_fuel := 3;
  error_text _ := "error"%string;
|}.

Definition signer : DbftSigner := signer_new (7 : signing_key).
Definition machine_start : DkgRuntimeMachine :=
  mkDkgRuntimeMachine None None None None None None None planner_default executor_default
    (mkDkgTransactionBuilder 47763 DEFAULT_DKG_TRANSACTION_GAS_LIMIT ∅) ∅ None ∅ ∅ ∅.

(** ** The shares of the second round are installed *)

Definition settled_state : StateProvider := mkStateProvider storage_of (fun _ => Ok None).
#[local] Instance settled_host : DkgHost := host (fun _ => settled_state) 1000.

Definition started : Service := mkService Starting (mkRuntime signer rebuilt rebuilt machine_start ∅ 0).

Lemma started_start : service_start signer rebuilt started.
Proof. exists machine_start. split; [by_vm|]. by repeat split. Qed.

Definition after : Service := serve started (EventHeartbeat false).

Example heartbeat_installs :
  (phase after, share_secret (current_share (rt_signer (runtime after))), share_round (current_share (rt_signer (runtime after))),
   machine_head (rt_machine (runtime after))) = (Running, Some (private 1), Some 2, Some (100, head)).
Proof. by_vm. Qed.

(** All blocks have one state, so their settled material agrees. *)
Lemma one_state : collision_free parameters (account signer).
Proof.
  intros hd hd' c c' (round & current & Hr & Hc & Hs) (round' & current' & Hr' & Hc' & Hs') _.
  cbn in Hr, Hc, Hs, Hr', Hc', Hs'. rewrite Hr in Hr'. injection Hr' as <-. rewrite Hc in Hc'. injection Hc' as <-.
  rewrite Hs in Hs'. by injection Hs' as <-.
Qed.

Lemma signer_follows_canonical_witness : exists hd c, settled_at parameters (account signer) hd c /\
  signer_holds parameters (rt_signer (runtime (serve_all started [EventHeartbeat false]))) c.
Proof.
  destruct (signer_follows_canonical 4 signer rebuilt started [EventHeartbeat false] parameters_new started_start one_state) as [[[H1 _]|H1] _].
  - exfalso. pose proof heartbeat_installs as H2. unfold after in H2. change (serve started (EventHeartbeat false)) with
      (serve_all started [EventHeartbeat false]) in H2. apply (f_equal (fun x => x.1.1.2)) in H2. cbn [fst snd] in H2. rewrite H1 in H2. discriminate H2.
  - exact H1.
Defined.

Definition ended : Runtime := runtime (serve_all started [EventHeartbeat false; EventNoHeader; EventClosed]).

Lemma service_work_sound_witness :
  (size (preparations (rt_machine ended)) <= 1)%nat /\ rt_pool (invalidate_canonical_attempt ended).1 = ∅.
Proof.
  destruct (service_work_sound signer rebuilt started [EventHeartbeat false; EventNoHeader; EventClosed] started_start) as (_ & H1 & _ & _ & _ & H2).
  split; [exact H1|exact H2].
Defined.

(** ** A settlement that the store has not followed *)

Definition behind : Runtime := mkRuntime signer (detached_replay_baseline stale 1) stale machine_start ∅ 0.
Definition settled : DkgSettledCanonical := Eval vm_compute in
  match settled_read (key_storage settled_state) 2 (Some 1) parameters with Ok c => c | Err _ => mkDkgSettledCanonical 0 None None None end.

Lemma words_small : words_bounded (key_storage settled_state).
Proof.
  assert (H : map_Forall (fun _ w => w <= U256_MAX) management_words).
  { apply (bool_decide_eq_true_1 (map_Forall (fun _ w => w <= U256_MAX) management_words)). by_vm. }
  intros k w E. apply (H (N_of_be k)). unfold key_storage, contract_storage in E. cbn in E. by injection E.
Qed.

Definition kept_test (i : N) : bool :=
  match key_storage settled_state (u256_bytes (wrapping_add U256_MAX (N_of_be (keccak256 (u256_bytes (share_pvss_slot 2 1)))) i)) with
  | Ok word => bool_decide (u256_bytes (default 0 word) = kept_word i)
  | Err _ => false
  end.

Lemma announcement_tested : forallb kept_test (map N.of_nat (seq 0 40)) = true.
Proof. by_vm. Qed.

Lemma announcement_kept : stores_bytes (key_storage settled_state) (share_pvss_slot 2 1) kept.
Proof.
  unfold stores_bytes. rewrite kept_long, kept_count. split; [exists (2 * lenN kept + 1); split; [by_vm|reflexivity]|].
  intros i Hi. pose proof announcement_tested as H. rewrite forallb_forall in H.
  assert (Hin : In i (map N.of_nat (seq 0 40))) by (apply in_map_iff; exists (N.to_nat i); split; [lia|apply in_seq; lia]).
  specialize (H i Hin). unfold kept_test in H. destruct (key_storage settled_state _) as [word|] eqn:E; [|discriminate H].
  apply bool_decide_eq_true in H. exists word. split; [exact E|exact H].
Qed.

Lemma settled_round_unrebuildable_witness :
  let '(rt', r) := reconcile_settled_round head settled behind in
  is_ok r = false /\ current_share (rt_signer rt') = None /\ store_round (rt_store rt') = 1.
Proof.
  destruct (settled_round_unrebuildable behind head settled 1 kept) as [_ H].
  - exact words_small.
  - by vm_compute.
  - by vm_compute.
  - by_vm.
  - by_vm.
  - by vm_compute.
  - by vm_compute.
  - exact announcement_kept.
  - split; [exists None; split; [by_vm|reflexivity]|]. intros i b E. by rewrite lookup_nil in E.
  - destruct (reconcile_settled_round head settled behind) as [rt' r]. destruct H as (H1 & H2 & _ & _ & H3 & _).
    split_and!; [exact H1|exact H2|]. rewrite H3. reflexivity.
Defined.
End Validator.

(** ** A head that changes under a submission *)

Module Stranded.
Import Committee Member Validator.
#[local] Existing Instance field_blst.
#[local] Existing Instance model_symmetric.
#[local] Existing Instance model_crypto.
#[local] Existing Instance model_ecies.
#[local] Existing Instance model_secp256k1.
#[local] Existing Instance MaterialWitness.model_abi.
#[local] Existing Instance MaterialWitness.model_host.
#[local] Instance moving_host : DkgHost := host (fun _ => settled_state) 0.

Definition share_plan : DkgTaskPlan := mkDkgTaskPlan 3 MethodShare 1 81 120 [].
Definition reshare_plan : DkgTaskPlan := mkDkgTaskPlan 3 MethodReshare 1 81 120 [].
Definition call_data : bytes := [x01; x02; x03; x04].

(** The member's reshare is ready to be sent, its share is to be proved. *)
Definition queue : DkgTaskExecutor := Eval vm_compute in
  match exec_ops executor_default [] [OpEnqueue reshare_plan; OpActions 90 1; OpPrepared (task_id reshare_plan) (Ok call_data); OpEnqueue share_plan] with
  | Some (x, _) => x
  | None => executor_default
  end.
Definition due : Runtime := mkRuntime signer rebuilt rebuilt (set_executor machine_start queue) ∅ 0.
Definition moved : Runtime := Eval vm_compute in (take_actions 100 due).1.
Definition later : DkgTaskContext := mkDkgTaskContext parameters (mkDkgSchedule 0 80 100 110 120) 110 3 (Some 1) (Some 1) false [].

Lemma head_change_strands_witness :
  let '(rt, r) := (let! actions := take_actions 100 in for_each actions (perform_action None head 100)) due in
  r = Err CanonicalHeadChanged /\ stranded (task_id share_plan) share_plan (run_tasks 110 head later None rt).1.
Proof.
  pose proof (head_change_strands due moved None head 100 (task_id reshare_plan) KEY_MANAGEMENT_PROXY_ADDRESS call_data
    [DkgExecutorAction.Prepare (task_id share_plan) share_plan] (task_id share_plan) share_plan [(110, head, later, None)]) as H.
  destruct ((let! actions := take_actions 100 in for_each actions (perform_action None head 100)) due) as [rt r].
  destruct H as (H1 & _ & H2); [by_vm|by apply list_elem_of_singleton|by_vm|repeat constructor|]. split; [exact H1|exact H2].
Defined.
End Stranded.
