(* ===== verification/Execution.v ===== *)
(** Neo X block execution (crates/neox/evm/src/executor.rs, config.rs, factory.rs) over
    alloy's Ethereum executor: the Policy checks, the Envelope count, the persistence
    calls, and the execution of a whole block (crates/evm/evm/src/execute.rs). *)

From S2P Require Import Prelude Extern Instances ChainSpec Tpke DkgParams Storage AntiMev StaticPool.

(** ** The Ethereum executor *)

Record BlockEnv : Type := mkBlockEnv {
  env_number : N;
  env_beneficiary : Address;
  env_timestamp : N;
  env_gas_limit : N;
  env_basefee : N;
  env_difficulty : N;
  env_prevrandao : option B256;
  env_excess_blob_gas : option N;
}.

Record EvmEnv `{Revm} : Type := mkEvmEnv {
  block_env : BlockEnv;
  cfg_spec : SpecId;
}.

(** The transaction fields the Policy checks read. *)
Record TxEnv : Type := mkTxEnv {
  te_tx_type : N;
  te_caller : Address;
  te_to : option Address;
  te_data : bytes;
  te_gas_limit : N;
  te_gas_price : N;
  te_gas_priority_fee : option N;
}.

Record EthBlockExecutionCtx : Type := mkEthBlockExecutionCtx {
  ctx_parent_hash : B256;
  ctx_parent_beacon_block_root : option B256;
  (** Neo X blocks carry no withdrawals; whether the field is there at all *)
  ctx_withdrawals : bool;
  ctx_extra_data : bytes;
  ctx_slot_number : option N;
}.

(** alloy-evm and revm: [evm] is an executor with its database and receipts. A call or
    transaction that is not committed leaves it as it was. *)
Class EthExecutor (X : SignedTransactions) (V : Revm) : Type := {
  evm : Type;
  receipt : Type;
  requests : Type;
  tx_result : Type;
  system_result : Type;
  state_bundle : Type;
  for_eth_block : Header -> EvmEnv;
  tx_env : eth_tx -> Address -> TxEnv;
  (** over a state, with the DKG rules of [NeoXEvmFactory] or not *)
  new_evm : StateProvider -> bool -> EvmEnv -> EthBlockExecutionCtx -> evm;
  evm_block : evm -> BlockEnv;
  evm_storage : evm -> Address -> U256 -> result string U256;
  eth_apply_pre_execution_changes : evm -> result string evm;
  eth_execute_transaction : evm -> TxEnv -> eth_tx -> result string tx_result;
  eth_commit_transaction : evm -> tx_result -> evm;
  (** whether the call succeeded, and its state changes *)
  transact_system_call : evm -> Address -> Address -> bytes -> result string (bool * system_result);
  commit_system_call : evm -> system_result -> evm;
  no_requests : requests;
  append_post_execution_changes : evm -> result string (evm * requests);
  evm_receipts : evm -> list receipt;
  enable_amsterdam_eip8037 : evm -> bool;
  max_block_gas_used : evm -> N;
  cumulative_tx_gas_used : evm -> N;
  evm_blob_gas_used : evm -> N;
  take_bundle : evm -> state_bundle;
  (** [BlockExecutionOutput::storage] *)
  bundle_storage : state_bundle -> Address -> U256 -> option U256;
}.

Class EthExecutorLaws {X : SignedTransactions} {D : TransactionDetails X} {V : Revm} (E : EthExecutor X V) : Prop := {
  (** [TxEnv::from_recovered_tx] copies the fields of the transaction *)
  tx_env_law t sender :
    tx_env t sender = mkTxEnv (tx_ty t) sender (tx_to t) (tx_input t) (tx_gas_limit t) (max_fee_per_gas t)
                        (max_priority_fee_per_gas t);
  (** the block environment is fixed for the block *)
  commit_block e r : evm_block (eth_commit_transaction e r) = evm_block e;
  pre_execution_block e e' : eth_apply_pre_execution_changes e = Ok e' -> evm_block e' = evm_block e;
  system_call_block e r : evm_block (commit_system_call e r) = evm_block e;
  (** [EvmEnv::for_eth_block] takes the block's number, beneficiary, time, gas limit and fees
      from the header, and the specification from its number and time *)
  for_eth_block_env h :
    let b := block_env (for_eth_block h) in
    env_number b = number h /\ env_beneficiary b = beneficiary h /\ env_timestamp b = timestamp h /\
    env_gas_limit b = gas_limit h /\ env_basefee b = default 0 (base_fee_per_gas h) /\
    env_excess_blob_gas b = excess_blob_gas h;
  for_eth_block_spec h h' :
    number h = number h' -> timestamp h = timestamp h' -> cfg_spec (for_eth_block h) = cfg_spec (for_eth_block h');
  (** the context's extra data is only read when a block is assembled *)
  new_evm_extra state dkg env ctx x :
    new_evm state dkg env (mkEthBlockExecutionCtx (ctx_parent_hash ctx) (ctx_parent_beacon_block_root ctx)
                             (ctx_withdrawals ctx) x (ctx_slot_number ctx)) = new_evm state dkg env ctx;
}.

(** ** Policy *)

Inductive NeoXExecutionError : Type :=
| InvalidPolicyBaseFee (expected : U256) (actual : U256)
| EnvelopeNumberLimitReached (limit : N)
| PolicyEnvelopeGasAbove (gas_limit : N) (maximum_gas : U256)
| PolicyEncryptedGasBelowMinimum (inner_gas : N)
| PolicyEnvelopeGasBelowEncrypted (gas_limit inner_gas : N)
| PolicyBlockedSender (sender : Address)
| GasTipBelowPolicy (sender : Address) (effective_tip : N) (minimum_tip : U256)
| SystemCallEvm (contract : Address) (error : string)
| SystemCallFailed (contract : Address)
| StateRead (error : string)
| EvmFailure (error : string)
| ExecutionPanic.

Section execution.
Context {C : Crypto} {X : SignedTransactions} {V : Revm} {E : EthExecutor X V}.

Record NeoXBlockExecutor : Type := mkNeoXBlockExecutor {
  inner_evm : evm;
  ex_dkg_block : N;
  ex_anti_mev_block : N;
  envelope_count : N;
  envelope_limit : N;
}.

Definition executor_new (e : evm) (dkg_block anti_mev_block : N) : NeoXBlockExecutor :=
  mkNeoXBlockExecutor e dkg_block anti_mev_block 0 0.

Definition read_policy_storage (e : evm) (key : U256) : result NeoXExecutionError U256 :=
  map_err StateRead (evm_storage e POLICY_PROXY_ADDRESS key).

Definition validate_policy_base_fee (e : evm) : result NeoXExecutionError unit :=
  let? expected := read_policy_storage e (policy_storage_key POLICY_BASE_FEE_SLOT) in
  let actual := env_basefee (evm_block e) in
  if actual =? expected then Ok tt else Err (InvalidPolicyBaseFee expected actual).

(** [value.as_limbs()[0]] *)
Definition envelope_limit_from_policy (value : U256) : N := value mod 2 ^ 64.

Definition enforce_envelope_count (count limit : N) : result NeoXExecutionError N :=
  if limit <=? count then Err (EnvelopeNumberLimitReached limit) else Ok (count + 1).

Definition validate_policy (e : evm) (tx : TxEnv) : result NeoXExecutionError unit :=
  let? blocked := read_policy_storage e (policy_blacklist_storage_key (te_caller tx)) in
  if negb (blocked =? 0) then Err (PolicyBlockedSender (te_caller tx))
  else
    let? minimum_tip := read_policy_storage e (policy_storage_key POLICY_MIN_GAS_TIP_CAP_SLOT) in
    let? minimum_tip :=
      if is_envelope_policy (te_to tx) (te_data tx) then
        let? maximum_gas := read_policy_storage e (policy_storage_key POLICY_MAX_ENVELOPE_GAS_LIMIT_SLOT) in
        if maximum_gas <? te_gas_limit tx then Err (PolicyEnvelopeGasAbove (te_gas_limit tx) maximum_gas)
        else
          let? inner_gas := ok_or (encrypted_gas (te_data tx)) ExecutionPanic in
          if inner_gas <? MIN_ENCRYPTED_GAS_LIMIT then Err (PolicyEncryptedGasBelowMinimum inner_gas)
          else if te_gas_limit tx <? inner_gas
          then Err (PolicyEnvelopeGasBelowEncrypted (te_gas_limit tx) inner_gas)
          else
            let? envelope_fee := read_policy_storage e (policy_storage_key POLICY_ENVELOPE_FEE_SLOT) in
            Ok (saturating_add U256_MAX minimum_tip envelope_fee)
      else Ok minimum_tip in
    let fee_cap_tip := saturating_sub (te_gas_price tx) (env_basefee (evm_block e)) in
    let effective_tip := N.min fee_cap_tip (default (te_gas_price tx) (te_gas_priority_fee tx)) in
    if effective_tip <? minimum_tip then Err (GasTipBelowPolicy (te_caller tx) effective_tip minimum_tip) else Ok tt.

(** ** Persistence calls *)

Definition apply_system_call (e : evm) (contract : Address) (selector : bytes) : result NeoXExecutionError evm :=
  let? outcome := map_err (SystemCallEvm contract) (transact_system_call e SYSTEM_ADDRESS contract selector) in
  let (success, state) := outcome : bool * system_result in
  if success then Ok (commit_system_call e state) else Err (SystemCallFailed contract).

Definition apply_on_persist_calls (e : evm) (dkg_active : bool) : result NeoXExecutionError evm :=
  let? e := if dkg_active then apply_system_call e KEY_MANAGEMENT_PROXY_ADDRESS on_persist_v2_selector else Ok e in
  apply_system_call e GOVERNANCE_PROXY_ADDRESS
    (if dkg_active then on_persist_v2_selector else governance_on_persist_selector).

(** ** The executor *)

Definition apply_pre_execution_changes (x : NeoXBlockExecutor) : result NeoXExecutionError NeoXBlockExecutor :=
  let? _ := validate_policy_base_fee (inner_evm x) in
  let? e := map_err EvmFailure (eth_apply_pre_execution_changes (inner_evm x)) in
  let block_number := env_number (evm_block e) in
  let? limit :=
    if ex_anti_mev_block x <=? block_number then
      let? value := read_policy_storage e (policy_storage_key POLICY_MAX_ENVELOPES_PER_BLOCK_SLOT) in
      Ok (envelope_limit_from_policy value)
    else Ok (envelope_limit x) in
  let? e := apply_on_persist_calls e (ex_dkg_block x <=? block_number) in
  Ok (mkNeoXBlockExecutor e (ex_dkg_block x) (ex_anti_mev_block x) (envelope_count x) limit).

Definition with_envelope_count (x : NeoXBlockExecutor) (count : N) : NeoXBlockExecutor :=
  mkNeoXBlockExecutor (inner_evm x) (ex_dkg_block x) (ex_anti_mev_block x) count (envelope_limit x).

Definition execute_transaction_without_commit (x : NeoXBlockExecutor) (t : eth_tx) (sender : Address)
    : NeoXBlockExecutor * result NeoXExecutionError tx_result :=
  let tx := tx_env t sender in
  let envelope := is_envelope (te_tx_type tx) (te_to tx) (te_data tx) in
  let counted :=
    if envelope && (ex_anti_mev_block x <=? env_number (evm_block (inner_evm x)))
    then enforce_envelope_count (envelope_count x) (envelope_limit x) else Ok (envelope_count x) in
  match counted with
  | Err e => (x, Err e)
  | Ok count =>
      let result :=
        let? _ := validate_policy (inner_evm x) tx in
        map_err EvmFailure (eth_execute_transaction (inner_evm x) tx t) in
      let count := if negb (is_ok result) && envelope then saturating_sub count 1 else count in
      (with_envelope_count x count, result)
  end.

Definition commit_transaction (x : NeoXBlockExecutor) (output : tx_result) : NeoXBlockExecutor :=
  mkNeoXBlockExecutor (eth_commit_transaction (inner_evm x) output) (ex_dkg_block x) (ex_anti_mev_block x)
    (envelope_count x) (envelope_limit x).

(** [execute_transaction] *)
Definition execute_transaction (x : NeoXBlockExecutor) (t : eth_tx) (sender : Address)
    : NeoXBlockExecutor * result NeoXExecutionError unit :=
  match execute_transaction_without_commit x t sender with
  | (x, Ok output) => (commit_transaction x output, Ok tt)
  | (x, Err e) => (x, Err e)
  end.

Record BlockExecutionResult : Type := mkBlockExecutionResult {
  result_receipts : list receipt;
  result_requests : requests;
  result_gas_used : N;
  result_blob_gas_used : N;
}.

(** [prague] says whether the fork is active at the block's timestamp. *)
Definition executor_finish (prague : bool) (x : NeoXBlockExecutor)
    : result NeoXExecutionError (evm * BlockExecutionResult) :=
  let? outcome :=
    if prague then map_err EvmFailure (append_post_execution_changes (inner_evm x)) else Ok (inner_evm x, no_requests) in
  let (e, requests) := outcome : evm * requests in
  let gas_used := if enable_amsterdam_eip8037 e then max_block_gas_used e else cumulative_tx_gas_used e in
  Ok (e, mkBlockExecutionResult (evm_receipts e) requests gas_used (evm_blob_gas_used e)).
End execution.

(** ** Executing a block *)

Section block.
Context {C : Crypto} {X : SignedTransactions} {V : Revm} {E : EthExecutor X V} {S : BlobSchedule}.

(** [NeoXEvmConfig::evm_env]: the mix hash commits to the next consensus, so the EVM sees
    no randomness. *)
Definition evm_env (header : Header) : EvmEnv :=
  let env := for_eth_block header in
  let b := block_env env in
  mkEvmEnv _ (mkBlockEnv (env_number b) (env_beneficiary b) (env_timestamp b) (env_gas_limit b) (env_basefee b)
                (difficulty header) (Some ZERO_B256) (env_excess_blob_gas b)) (cfg_spec env).

Definition context_for_block (header : Header) (withdrawals : bool) : EthBlockExecutionCtx :=
  mkEthBlockExecutionCtx (parent_hash header) (parent_beacon_block_root header) withdrawals (extra_data header)
    (slot_number header).

Definition dkg_active (spec : NeoXChainSpec) (b : BlockEnv) : bool := dkg_block (neox spec) <=? env_number b.

Definition executor_for_block (spec : NeoXChainSpec) (state : StateProvider) (header : Header) (withdrawals : bool)
    : NeoXBlockExecutor :=
  let env := evm_env header in
  executor_new (new_evm state (dkg_active spec (block_env env)) env (context_for_block header withdrawals))
    (dkg_block (neox spec)) (anti_mev_block (neox spec)).

Fixpoint execute_transactions (x : NeoXBlockExecutor) (l : list (eth_tx * Address))
    : result NeoXExecutionError NeoXBlockExecutor :=
  match l with
  | [] => Ok x
  | (t, sender) :: rest =>
      match execute_transaction x t sender with
      | (x, Ok _) => execute_transactions x rest
      | (_, Err e) => Err e
      end
  end.

(** [BasicBlockExecutor::execute]: the state changes and the result. *)
Definition execute_block (spec : NeoXChainSpec) (state : StateProvider) (header : Header) (withdrawals : bool)
    (l : list (eth_tx * Address)) : result NeoXExecutionError (state_bundle * BlockExecutionResult) :=
  let? x := apply_pre_execution_changes (executor_for_block spec state header withdrawals) in
  let? x := execute_transactions x l in
  let? (e, result) := executor_finish (is_prague_active_at_timestamp (inner spec) (timestamp header)) x in
  Ok (take_bundle e, result).
End block.

(** ** What execution guarantees *)

(** Transactions tried one after the other; the ones that failed are left out. *)
Inductive runs {X : SignedTransactions} {St Fault : Type} (execute : St -> eth_tx -> Address -> St * result Fault unit)
    : St -> list (eth_tx * Address) -> St -> Prop :=
| runs_done x : runs execute x [] x
| runs_included x t sender x' l x'' :
    execute x t sender = (x', Ok tt) -> runs execute x' l x'' -> runs execute x ((t, sender) :: l) x''
| runs_refused x t sender x' e l x'' :
    execute x t sender = (x', Err e) -> runs execute x' l x'' -> runs execute x l x''.

Lemma runs_app {X : SignedTransactions} {St Fault} (execute : St -> eth_tx -> Address -> St * result Fault unit) x l y k z :
  runs execute x l y -> runs execute y k z -> runs execute x (l ++ k) z.
Proof. induction 1; [done| |]; intros; [eapply runs_included|eapply runs_refused]; eauto. Qed.

Section facts.
Context {C : Crypto} {X : SignedTransactions} {D : TransactionDetails X} {V : Revm} {E : EthExecutor X V}.
Context {L : EthExecutorLaws E}.

Definition envelope_tx (p : eth_tx * Address) : bool := is_envelope (tx_ty p.1) (tx_to p.1) (tx_input p.1).
Definition envelopes_in (l : list (eth_tx * Address)) : N := lenN (List.filter envelope_tx l).
Definition counting (x : NeoXBlockExecutor) : bool := ex_anti_mev_block x <=? env_number (evm_block (inner_evm x)).

(** The tip and the Envelope gas the Policy asks for, as the state [e] has it. *)
Definition policy_asks (e : evm) (t : eth_tx) (m : U256) : Prop :=
  exists tip, read_policy_storage e (policy_storage_key POLICY_MIN_GAS_TIP_CAP_SLOT) = Ok tip /\
    if is_envelope_policy (tx_to t) (tx_input t) then
      exists maximum_gas fee,
        read_policy_storage e (policy_storage_key POLICY_MAX_ENVELOPE_GAS_LIMIT_SLOT) = Ok maximum_gas /\
        read_policy_storage e (policy_storage_key POLICY_ENVELOPE_FEE_SLOT) = Ok fee /\
        envelope_gas_ok maximum_gas t /\ m = saturating_add U256_MAX tip fee
    else m = tip.

Definition policy_holds (e : evm) (t : eth_tx) (sender : Address) : Prop :=
  read_policy_storage e (policy_blacklist_storage_key sender) = Ok 0 /\
  exists m, policy_asks e t m /\ m <= N.min (max_fee_per_gas t - env_basefee (evm_block e)) (tip_cap t).

Lemma validate_policy_Ok e t sender : validate_policy e (tx_env t sender) = Ok tt <-> policy_holds e t sender.
Proof.
  rewrite tx_env_law. unfold validate_policy, policy_holds, policy_asks, envelope_gas_ok.
  cbn [te_caller te_to te_data te_gas_limit te_gas_price te_gas_priority_fee].
  change (default (max_fee_per_gas t) (max_priority_fee_per_gas t)) with (tip_cap t). unfold saturating_sub.
  set (eff := N.min _ _). split.
  - intros H. apply result_bind_Ok in H as (b & Hb & H). destruct (N.eqb_spec b 0) as [->|]; [|done]. cbn [negb] in H.
    apply result_bind_Ok in H as (tip & Ht & H). apply result_bind_Ok in H as (m & Hm & H).
    destruct (N.ltb_spec eff m) as [|Hle]; [done|]. clear H. split; [done|]. exists m. split; [|done]. exists tip. split; [done|].
    destruct (is_envelope_policy _ _); [|by injection Hm].
    apply result_bind_Ok in Hm as (g & Hg & Hm). destruct (N.ltb_spec g (tx_gas_limit t)); [done|].
    apply result_bind_Ok in Hm as (ig & Hig%ok_or_Ok & Hm). destruct (N.ltb_spec ig MIN_ENCRYPTED_GAS_LIMIT); [done|].
    destruct (N.ltb_spec (tx_gas_limit t) ig); [done|]. apply result_bind_Ok in Hm as (fee & Hf & [= <-]).
    exists g, fee. split_and!; try done. by exists ig.
  - intros (-> & m & (tip & Ht & Hm) & Hle). cbn [result_bind]. rewrite N.eqb_refl. cbn [negb]. rewrite Ht. cbn [result_bind].
    destruct (is_envelope_policy _ _).
    + destruct Hm as (g & fee & Hg & Hf & (ig & Hig & H1 & H2 & H3) & ->). rewrite Hg. cbn [result_bind].
      rewrite (proj2 (N.ltb_ge _ _)) by done. rewrite Hig. cbn [ok_or result_bind].
      rewrite !(proj2 (N.ltb_ge _ _)) by done. rewrite Hf. cbn [result_bind]. by rewrite (proj2 (N.ltb_ge _ _)).
    + subst m. cbn [result_bind]. by rewrite (proj2 (N.ltb_ge _ _)).
Qed.

(** The pool and the executor apply one Policy: on a state whose Policy words are the ones
    the pool was built from, in a block with the Policy's base fee, a transaction of an
    ordinary type passes the executor's checks if and only if it passes the pool's, or
    its fee cap is below the base fee and the Policy asks for no tip. *)
Lemma pool_policy_matches {DL : TransactionDetailsLaws D} e p account t sender :
  read_policy_storage e (policy_storage_key POLICY_MIN_GAS_TIP_CAP_SLOT) = Ok (min_gas_tip_cap p) ->
  read_policy_storage e (policy_storage_key POLICY_ENVELOPE_FEE_SLOT) = Ok (StaticPool.envelope_fee p) ->
  read_policy_storage e (policy_storage_key POLICY_MAX_ENVELOPE_GAS_LIMIT_SLOT) = Ok (max_envelope_gas_limit p) ->
  (exists b, read_policy_storage e (policy_blacklist_storage_key sender) = Ok b /\ blacklisted account = negb (b =? 0)) ->
  env_basefee (evm_block e) = policy_base_fee p -> tx_ty t <> TX_TYPE_EIP4844 -> tx_ty t <> TX_TYPE_EIP7702 ->
  policy_base_fee p <= max_fee_per_gas t ->
  (check_policy p t account = Ok tt <-> validate_policy e (tx_env t sender) = Ok tt).
Proof.
  intros Ht Hf Hg (b & Hb & Hbl) Hbase T3 T4 Hcap. rewrite check_policy_Ok, validate_policy_Ok.
  unfold policy_admits, policy_holds, policy_asks, minimum_tip. rewrite Ht, Hf, Hg, Hb, Hbl, Hbase, priority_fee_or_price_law.
  change (default (max_fee_per_gas t) (max_priority_fee_per_gas t)) with (tip_cap t).
  assert (He : is_envelope (tx_ty t) (tx_to t) (tx_input t) = is_envelope_policy (tx_to t) (tx_input t)).
  { unfold is_envelope, is_envelope_policy. rewrite !(proj2 (N.eqb_neq _ _)) by done. done. }
  rewrite He. destruct (N.eqb_spec b 0) as [->|Hb0]; cbn [negb].
  - destruct (is_envelope_policy _ _); naive_solver.
  - split; [naive_solver|]. intros ([= ->] & _). done.
Qed.

(** ** Envelopes in a block *)

Definition executor_ok (x : NeoXBlockExecutor) : Prop := counting x = false -> envelope_count x = 0.

(** One transaction, by cases. *)
Lemma execute_transaction_eq x t sender :
  execute_transaction x t sender =
  match (if envelope_tx (t, sender) && counting x
         then enforce_envelope_count (envelope_count x) (envelope_limit x) else Ok (envelope_count x)) with
  | Err e => (x, Err e)
  | Ok count =>
      match validate_policy (inner_evm x) (tx_env t sender) with
      | Err e => (with_envelope_count x (if envelope_tx (t, sender) then count - 1 else count), Err e)
      | Ok _ =>
          match eth_execute_transaction (inner_evm x) (tx_env t sender) t with
          | Ok output => (commit_transaction (with_envelope_count x count) output, Ok tt)
          | Err e => (with_envelope_count x (if envelope_tx (t, sender) then count - 1 else count), Err (EvmFailure e))
          end
      end
  end.
Proof.
  unfold execute_transaction, execute_transaction_without_commit, envelope_tx. fold (counting x). cbn [fst].
  replace (te_tx_type (tx_env t sender)) with (tx_ty t) by (by rewrite tx_env_law).
  replace (te_to (tx_env t sender)) with (tx_to t) by (by rewrite tx_env_law).
  replace (te_data (tx_env t sender)) with (tx_input t) by (by rewrite tx_env_law).
  destruct (if is_envelope _ _ _ && _ then _ else _); [|done].
  destruct (validate_policy _ _) as [[]|]; cbn [result_bind is_ok negb andb]; [|done].
  by destruct (eth_execute_transaction _ _ _).
Qed.

Lemma with_envelope_count_id x : with_envelope_count x (envelope_count x) = x.
Proof. by destruct x. Qed.

(** A transaction that fails leaves the executor as it was. *)
Lemma execute_Err x t sender x' e :
  executor_ok x -> execute_transaction x t sender = (x', Err e) -> x' = x.
Proof.
  intros Hx. rewrite execute_transaction_eq.
  assert (Hback : forall count, (if envelope_tx (t, sender) && counting x
    then enforce_envelope_count (envelope_count x) (envelope_limit x) else Ok (envelope_count x)) = Ok count ->
    with_envelope_count x (if envelope_tx (t, sender) then count - 1 else count) = x).
  { intros count. destruct (envelope_tx _), (counting x) eqn:Ec; cbn [andb].
    - unfold enforce_envelope_count. destruct (_ <=? _); [done|]. intros [= <-].
      replace (envelope_count x + 1 - 1) with (envelope_count x) by lia. apply with_envelope_count_id.
    - intros [= <-]. specialize (Hx Ec). replace (envelope_count x - 1) with (envelope_count x) by lia. apply with_envelope_count_id.
    - intros [= <-]. apply with_envelope_count_id.
    - intros [= <-]. apply with_envelope_count_id. }
  destruct (if envelope_tx _ && _ then _ else _) as [count|]; [|by intros [= <- _]]. specialize (Hback _ eq_refl).
  destruct (validate_policy _ _) as [[]|]; [|by intros [= <- _]].
  destruct (eth_execute_transaction _ _ _); [done|by intros [= <- _]].
Qed.

(** One that succeeds is counted if it is an Envelope, and met the Policy. *)
Lemma execute_Ok x t sender x' :
  execute_transaction x t sender = (x', Ok tt) ->
  policy_holds (inner_evm x) t sender /\ evm_block (inner_evm x') = evm_block (inner_evm x) /\
  ex_anti_mev_block x' = ex_anti_mev_block x /\ envelope_limit x' = envelope_limit x /\
  envelope_count x' = envelope_count x + (if envelope_tx (t, sender) && counting x then 1 else 0) /\
  (envelope_tx (t, sender) && counting x = true -> envelope_count x < envelope_limit x).
Proof.
  rewrite execute_transaction_eq. destruct (if envelope_tx _ && _ then _ else _) as [count|] eqn:Ec; [|done].
  destruct (validate_policy _ _) as [[]|] eqn:Ep; [|done]. apply validate_policy_Ok in Ep.
  destruct (eth_execute_transaction _ _ _) as [output|]; [|done]. intros [= <-]. cbn.
  rewrite commit_block. destruct (envelope_tx (t, sender) && counting x).
  - unfold enforce_envelope_count in Ec. destruct (N.leb_spec (envelope_limit x) (envelope_count x)); [done|].
    injection Ec as <-. by split_and!.
  - injection Ec as <-. split_and!; try done. lia.
Qed.

(** Every included transaction met the Policy where it ran. *)
Definition all_met (b : BlockEnv) (l : list (eth_tx * Address)) : Prop :=
  Forall (fun p => exists e, evm_block e = b /\ policy_holds e p.1 p.2) l.

Lemma executes_spec x l x' :
  runs execute_transaction x l x' -> executor_ok x ->
  executor_ok x' /\ evm_block (inner_evm x') = evm_block (inner_evm x) /\ envelope_limit x' = envelope_limit x /\
  envelope_count x' = envelope_count x + (if counting x then envelopes_in l else 0) /\
  (counting x = true -> envelope_count x <= envelope_limit x -> envelope_count x' <= envelope_limit x) /\
  all_met (evm_block (inner_evm x)) l.
Proof.
  unfold executor_ok, counting, envelopes_in. induction 1 as [x|x t sender x1 l x2 H1 H2 IH|x t sender x1 e l x2 H1 H2 IH]; intros Hx.
  - split_and!; try done; [|constructor]. cbn [List.filter]. rewrite lenN_nil. destruct (_ <=? _); lia.
  - apply execute_Ok in H1 as (Hp & Hb & Ha & Hl & Hc & Hlt). unfold counting in Hc, Hlt. rewrite Hb, Ha, Hl, Hc in IH.
    destruct (ex_anti_mev_block x <=? env_number (evm_block (inner_evm x))) eqn:Ec.
    + destruct IH as (I1 & I2 & I3 & I4 & I5 & I6); [done|]. split_and!; try done.
      * rewrite I4. cbn [List.filter]. destruct (envelope_tx (t, sender)); cbn [andb]; unfold lenN; cbn [length]; lia.
      * intros _ Hle. apply I5; [done|]. destruct (envelope_tx (t, sender)); cbn [andb] in *; [specialize (Hlt eq_refl)|]; lia.
      * constructor; [by exists (inner_evm x)|done].
    + rewrite andb_false_r, N.add_0_r in IH. destruct IH as (I1 & I2 & I3 & I4 & I5 & I6); [done|]. split_and!; try done.
      constructor; [by exists (inner_evm x)|done].
  - apply execute_Err in H1 as ->; [by apply IH|done].
Qed.

Lemma on_persist_block e active e' : apply_on_persist_calls e active = Ok e' -> evm_block e' = evm_block e.
Proof.
  assert (Hcall : forall e c sel e', apply_system_call e c sel = Ok e' -> evm_block e' = evm_block e).
  { intros f c sel f' H. unfold apply_system_call in H. apply result_bind_Ok in H as ([[] r] & _ & H); [|done].
    injection H as <-. apply system_call_block. }
  unfold apply_on_persist_calls. intros H. apply result_bind_Ok in H as (f & Hf & H). apply Hcall in H as ->.
  destruct active; [by apply Hcall in Hf|by injection Hf as <-].
Qed.

(** What the start of a block fixes. *)
Lemma pre_execution_inv e dkg anti_mev x :
  apply_pre_execution_changes (executor_new e dkg anti_mev) = Ok x ->
  read_policy_storage e (policy_storage_key POLICY_BASE_FEE_SLOT) = Ok (env_basefee (evm_block e)) /\
  evm_block (inner_evm x) = evm_block e /\ ex_anti_mev_block x = anti_mev /\ envelope_count x = 0 /\
  (counting x = true -> exists started value, eth_apply_pre_execution_changes e = Ok started /\
     read_policy_storage started (policy_storage_key POLICY_MAX_ENVELOPES_PER_BLOCK_SLOT) = Ok value /\
     envelope_limit x = value mod 2 ^ 64).
Proof.
  unfold apply_pre_execution_changes, executor_new.
  cbn [inner_evm ex_dkg_block ex_anti_mev_block envelope_count envelope_limit]. intros H.
  apply result_bind_Ok in H as ([] & Hb & H). apply result_bind_Ok in H as (s & Hs%map_err_Ok & H).
  apply result_bind_Ok in H as (limit & Hl & H). apply result_bind_Ok in H as (f & Hf & [= <-]).
  apply on_persist_block in Hf as Ef. apply pre_execution_block in Hs as Es.
  unfold counting. cbn [inner_evm ex_anti_mev_block envelope_count envelope_limit]. rewrite Ef.
  split_and!; try done.
  - unfold validate_policy_base_fee in Hb. apply result_bind_Ok in Hb as (b & Hb & H).
    by destruct (N.eqb_spec (env_basefee (evm_block e)) b) as [->|].
  - intros Hc. rewrite Hc in Hl. apply result_bind_Ok in Hl as (value & Hv & [= <-]). by exists s, value.
Qed.


Lemma executes_transactions x l x' :
  runs execute_transaction x l x' -> executor_ok x -> execute_transactions x l = Ok x'.
Proof.
  induction 1 as [|x t sender x1 l x2 H1 H2 IH|x t sender x1 e l x2 H1 H2 IH]; intros Hx; [done| |].
  - cbn [execute_transactions]. rewrite H1. apply IH.
    apply execute_Ok in H1 as (_ & Hb & Ha & _ & Hc & _). unfold executor_ok, counting in *. rewrite Hb, Ha. intros E0.
    rewrite Hc, E0, andb_false_r, Hx; done.
  - apply execute_Err in H1 as ->; [by apply IH|done].
Qed.

(** Execution reads nothing of a header that execution determines. *)
Definition same_environment (h h' : Header) : Prop :=
  parent_hash h = parent_hash h' /\ beneficiary h = beneficiary h' /\ difficulty h = difficulty h' /\
  number h = number h' /\ gas_limit h = gas_limit h' /\ timestamp h = timestamp h' /\
  base_fee_per_gas h = base_fee_per_gas h' /\ excess_blob_gas h = excess_blob_gas h' /\
  parent_beacon_block_root h = parent_beacon_block_root h' /\ slot_number h = slot_number h'.

Lemma same_evm_env h h' : same_environment h h' -> evm_env h = evm_env h'.
Proof.
  intros (_ & Hb & Hd & Hn & Hg & Ht & Hf & Hx & _). unfold evm_env.
  destruct (for_eth_block_env h) as (-> & -> & -> & -> & -> & ->).
  destruct (for_eth_block_env h') as (-> & -> & -> & -> & -> & ->).
  by rewrite (for_eth_block_spec h h' Hn Ht), Hb, Hd, Hn, Hg, Ht, Hf, Hx.
Qed.

Lemma same_executor {S : BlobSchedule} (spec : NeoXChainSpec) state h h' w :
  same_environment h h' -> executor_for_block spec state h w = executor_for_block spec state h' w.
Proof.
  intros Hs. unfold executor_for_block. rewrite (same_evm_env h h' Hs). f_equal.
  destruct Hs as (Hp & _ & _ & _ & _ & _ & _ & _ & Hr & Hsl).
  rewrite <- (new_evm_extra state _ _ (context_for_block h w) []), <- (new_evm_extra state _ _ (context_for_block h' w) []).
  unfold context_for_block. cbn. by rewrite Hp, Hr, Hsl.
Qed.
End facts.
