(* ===== verification/Reconstruction.v ===== *)
(** The final Anti-MEV block (crates/neox/node/src/reconstruction.rs): the outer
    transactions replayed in order, Envelopes replaced by what they decrypt to, through
    the scratch pool and the executor. *)

From S2P Require Import Prelude Extern Instances Extra ChainSpec Tpke DkgParams Storage AntiMev StaticPool Execution.

(** ** Decisions *)

(** [Fault] is the executor's error, whose text the source keeps. *)
Inductive AntiMevReplacementFallback (Fault : Type) : Type :=
| StaticFallback (reason : AntiMevFallbackReason)
| PoolFallback (rejection : StaticPoolRejection)
| ExecutionFallback (error : Fault).

Inductive AntiMevDropReason (Fault : Type) : Type :=
| PriorSenderFailure
| OuterExecution (error : Fault)
| FallbackExecution (replacement : AntiMevReplacementFallback Fault) (outer_error : Fault)
| PoolDrop (rejection : StaticPoolRejection).

Inductive AntiMevTransactionDecision (Fault : Type) : Type :=
| IncludedOriginal (transaction_index : N)
| IncludedDecrypted (transaction_index : N)
| IncludedFallback (transaction_index : N) (reason : AntiMevReplacementFallback Fault)
| Dropped (transaction_index : N) (reason : AntiMevDropReason Fault).

Arguments StaticFallback {Fault}.
Arguments PoolFallback {Fault}.
Arguments ExecutionFallback {Fault}.
Arguments PriorSenderFailure {Fault}.
Arguments OuterExecution {Fault}.
Arguments FallbackExecution {Fault}.
Arguments PoolDrop {Fault}.
Arguments IncludedOriginal {Fault}.
Arguments IncludedDecrypted {Fault}.
Arguments IncludedFallback {Fault}.
Arguments Dropped {Fault}.

Inductive AntiMevReconstructionError : Type :=
| MissingMetadata
| ResolutionCount (expected actual : N)
| DuplicateEnvelope (index : N)
| DuplicateResolution (index : N)
| UnexpectedResolution (index : N)
| ReconstructionProvider (error : string)
| ReconstructionExecution (error : NeoXExecutionError)
| ReconstructionGovernance (error : GovernanceError)
| ReconstructionDkg (error : DkgStateError)
| ReconstructionExtra (error : DbftExtraError)
| ReconstructionHeightOverflow
| BlobSidecarCount (expected actual : N)
| MissingBlobSidecar (hash : B256).

(** ** Indexing the resolutions *)

Section indexing.
Context {X : SignedTransactions}.

Definition resolution_index (r : AntiMevEnvelopeResolution) : N :=
  match r with Decrypted i _ | Fallback i _ => i end.

Fixpoint envelope_set (seen : gset N) (l : list N) : result AntiMevReconstructionError (gset N) :=
  match l with
  | [] => Ok seen
  | i :: rest => if bool_decide (i ∈ seen) then Err (DuplicateEnvelope i) else envelope_set ({[i]} ∪ seen) rest
  end.

Fixpoint index_each (envelopes : gset N) (rs : list AntiMevEnvelopeResolution)
    (indexed : gmap N AntiMevEnvelopeResolution) : result AntiMevReconstructionError (gmap N AntiMevEnvelopeResolution) :=
  match rs with
  | [] => Ok indexed
  | r :: rest =>
      let i := resolution_index r in
      if negb (bool_decide (i ∈ envelopes)) then Err (UnexpectedResolution i)
      else match indexed !! i with
           | Some _ => Err (DuplicateResolution i)
           | None => index_each envelopes rest (<[i := r]> indexed)
           end
  end.

Definition index_resolutions (p : AntiMevProposal) (rs : list AntiMevEnvelopeResolution)
    : result AntiMevReconstructionError (gmap N AntiMevEnvelopeResolution) :=
  if negb (lenN rs =? lenN (envelopes p)) then Err (ResolutionCount (lenN (envelopes p)) (lenN rs))
  else
    let? envelope_indices := envelope_set ∅ (map transaction_index (envelopes p)) in
    index_each envelope_indices rs ∅.
End indexing.

(** ** The sequence *)

Section sequence.
Context {C : Crypto} {X : SignedTransactions} {D : TransactionDetails X} {V : Revm}.
(** The executor behind the source's [execute] closure. *)
Context {St Fault : Type} (execute : St -> eth_tx -> Address -> St * result Fault unit).

Record ReconstructedSequence : Type := mkReconstructedSequence {
  seq_transactions : list eth_tx;
  seq_senders : list Address;
  decisions : list (AntiMevTransactionDecision Fault);
  failed_senders : gset Address;
}.

Definition sequence_empty : ReconstructedSequence := mkReconstructedSequence [] [] [] ∅.

Definition include (q : ReconstructedSequence) (t : eth_tx) (sender : Address) (d : AntiMevTransactionDecision Fault)
    : ReconstructedSequence :=
  mkReconstructedSequence (seq_transactions q ++ [t]) (seq_senders q ++ [sender]) (decisions q ++ [d])
    (failed_senders q).

Definition drop_tx (q : ReconstructedSequence) (i : N) (reason : AntiMevDropReason Fault) : ReconstructedSequence :=
  mkReconstructedSequence (seq_transactions q) (seq_senders q) (decisions q ++ [Dropped i reason]) (failed_senders q).

Definition fail_sender (q : ReconstructedSequence) (sender : Address) : ReconstructedSequence :=
  mkReconstructedSequence (seq_transactions q) (seq_senders q) (decisions q) ({[sender]} ∪ failed_senders q).

(** The sequence, the scratch pool and the executor. *)
Record ReplayState : Type := mkReplayState {
  replay : ReconstructedSequence;
  replay_pool : StaticPoolAdmission;
  replay_exec : St;
}.

Definition include_fallback (s : ReplayState) (i : N) (outer : eth_tx) (sender : Address)
    (replacement : AntiMevReplacementFallback Fault) : ReplayState :=
  match pool_add (replay_pool s) sender outer with
  | (pool, Err rejection) => mkReplayState (drop_tx (fail_sender (replay s) sender) i (PoolDrop rejection)) pool (replay_exec s)
  | (pool, Ok _) =>
      match execute (replay_exec s) outer sender with
      | (x, Ok _) => mkReplayState (include (replay s) outer sender (IncludedFallback i replacement)) pool x
      | (x, Err error) =>
          mkReplayState (drop_tx (fail_sender (replay s) sender) i (FallbackExecution replacement error)) pool x
      end
  end.

Definition include_decrypted (s : ReplayState) (i : N) (inner outer : eth_tx) (sender : Address) : ReplayState :=
  match pool_add (replay_pool s) sender inner with
  | (pool, Err rejection) =>
      include_fallback (mkReplayState (replay s) pool (replay_exec s)) i outer sender (PoolFallback rejection)
  | (pool, Ok _) =>
      match execute (replay_exec s) inner sender with
      | (x, Ok _) => mkReplayState (include (replay s) inner sender (IncludedDecrypted i)) pool x
      | (x, Err error) => include_fallback (mkReplayState (replay s) pool x) i outer sender (ExecutionFallback error)
      end
  end.

Definition include_original (s : ReplayState) (i : N) (outer : eth_tx) (sender : Address) : ReplayState :=
  match pool_add (replay_pool s) sender outer with
  | (pool, Err rejection) => mkReplayState (drop_tx (fail_sender (replay s) sender) i (PoolDrop rejection)) pool (replay_exec s)
  | (pool, Ok _) =>
      match execute (replay_exec s) outer sender with
      | (x, Ok _) => mkReplayState (include (replay s) outer sender (IncludedOriginal i)) pool x
      | (x, Err error) => mkReplayState (drop_tx (fail_sender (replay s) sender) i (OuterExecution error)) pool x
      end
  end.

(** The loop of [execute_sequence] from position [i], with the cursor into the Envelope
    positions that remain. *)
Fixpoint execute_from (i : N) (outer : list (eth_tx * Address)) (envelope_indices : list N)
    (resolutions : gmap N AntiMevEnvelopeResolution) (s : ReplayState) : ReplayState :=
  match outer with
  | [] => s
  | (t, sender) :: rest =>
      if bool_decide (sender ∈ failed_senders (replay s))
      then execute_from (i + 1) rest envelope_indices resolutions
             (mkReplayState (drop_tx (replay s) i PriorSenderFailure) (replay_pool s) (replay_exec s))
      else if bool_decide (head envelope_indices = Some i) then
        let s :=
          match resolutions !! i with
          | Some (Decrypted _ inner) => include_decrypted s i inner t sender
          | Some (Fallback _ reason) => include_fallback s i t sender (StaticFallback reason)
          | None => include_original s i t sender
          end in
        execute_from (i + 1) rest (tail envelope_indices) (delete i resolutions) s
      else execute_from (i + 1) rest envelope_indices resolutions (include_original s i t sender)
  end.

Definition execute_sequence (outer : list (eth_tx * Address)) (envelope_indices : list N)
    (pool : StaticPoolAdmission) (resolutions : gmap N AntiMevEnvelopeResolution) (x : St) : ReplayState :=
  execute_from 0 outer envelope_indices resolutions (mkReplayState sequence_empty pool x).
End sequence.

(** ** What the sequence is *)

Section sequence_facts.
Context {C : Crypto} {X : SignedTransactions} {D : TransactionDetails X} {V : Revm}.
Context {St Fault : Type} (execute : St -> eth_tx -> Address -> St * result Fault unit).

(** How a transaction at position [i] may be decided, given its resolution, and what it
    adds to the block. *)
Inductive decided (i : N) (outer : eth_tx) : option AntiMevEnvelopeResolution -> AntiMevTransactionDecision Fault ->
    option eth_tx -> Prop :=
| decided_original : decided i outer None (IncludedOriginal i) (Some outer)
| decided_decrypted j inner : decided i outer (Some (Decrypted j inner)) (IncludedDecrypted i) (Some inner)
| decided_fallback r reason : decided i outer (Some r) (IncludedFallback i reason) (Some outer)
| decided_dropped r reason : reason <> PriorSenderFailure -> decided i outer r (Dropped i reason) None.

Definition added (o : option eth_tx) (sender : Address) : list (eth_tx * Address) :=
  match o with Some t => [(t, sender)] | None => [] end.

Definition admitted (head : StaticPoolHead) (p : eth_tx * Address) : Prop :=
  static_pool_admission p.1 p.2 head = Ok tt.

(** One turn of the loop. *)
Record stepped (s s' : ReplayState) (sender : Address) (d : AntiMevTransactionDecision Fault) (o : option eth_tx) : Prop := {
  st_decisions : decisions (replay s') = decisions (replay s) ++ [d];
  st_transactions : seq_transactions (replay s') = seq_transactions (replay s) ++ (added o sender).*1;
  st_senders : seq_senders (replay s') = seq_senders (replay s) ++ (added o sender).*2;
  st_failed : failed_senders (replay s') =
    match o with Some _ => failed_senders (replay s) | None => {[sender]} ∪ failed_senders (replay s) end;
  st_head : pool_head (replay_pool s') = pool_head (replay_pool s);
  st_admitted : Forall (admitted (pool_head (replay_pool s))) (added o sender);
  st_runs : runs execute (replay_exec s) (added o sender) (replay_exec s');
}.

Lemma pool_add_Ok p sender t p' :
  pool_add p sender t = (p', Ok tt) -> admitted (pool_head p) (t, sender) /\ pool_head p' = pool_head p.
Proof.
  unfold pool_add. destruct (pool_check p sender t) as [[]|] eqn:Ec; [|done]. intros [= <-]. split; [|done].
  by apply pool_check_Ok in Ec as (_ & (account & _ & (Hs & _) & _) & _).
Qed.

Lemma pool_add_Err p sender t p' e : pool_add p sender t = (p', Err e) -> p' = p.
Proof. unfold pool_add. destruct (pool_check p sender t); [done|]. by intros [= <- _]. Qed.

Ltac step_parts := split; cbn; rewrite ?app_nil_r; try done.

Lemma original_step s i t sender : exists d o,
  decided i t None d o /\ stepped s (include_original execute s i t sender) sender d o.
Proof.
  unfold include_original. destruct (pool_add _ _ _) as [p [[]|e]] eqn:Ep.
  - apply pool_add_Ok in Ep as [Ha Hh]. destruct (execute _ _ _) as [x [[]|e]] eqn:Ex.
    + exists (IncludedOriginal i), (Some t). split; [constructor|]. step_parts; [by constructor|by eapply runs_included; [|constructor]].
    + exists (Dropped i (OuterExecution e)), None. split; [by constructor|]. step_parts. by eapply runs_refused; [|constructor].
  - apply pool_add_Err in Ep as ->. exists (Dropped i (PoolDrop e)), None. split; [by constructor|]. step_parts. constructor.
Qed.

Lemma fallback_step s i t sender r replacement : exists d o,
  decided i t (Some r) d o /\ stepped s (include_fallback execute s i t sender replacement) sender d o.
Proof.
  unfold include_fallback. destruct (pool_add _ _ _) as [p [[]|e]] eqn:Ep.
  - apply pool_add_Ok in Ep as [Ha Hh]. destruct (execute _ _ _) as [x [[]|e]] eqn:Ex.
    + exists (IncludedFallback i replacement), (Some t). split; [constructor|]. step_parts; [by constructor|by eapply runs_included; [|constructor]].
    + exists (Dropped i (FallbackExecution replacement e)), None. split; [by constructor|]. step_parts. by eapply runs_refused; [|constructor].
  - apply pool_add_Err in Ep as ->. exists (Dropped i (PoolDrop e)), None. split; [by constructor|]. step_parts. constructor.
Qed.

Lemma decrypted_step s i j inner t sender : exists d o,
  decided i t (Some (Decrypted j inner)) d o /\ stepped s (include_decrypted execute s i inner t sender) sender d o.
Proof.
  unfold include_decrypted. destruct (pool_add _ _ _) as [p [[]|e]] eqn:Ep.
  - apply pool_add_Ok in Ep as [Ha Hh]. destruct (execute _ _ _) as [x [[]|e]] eqn:Ex.
    + exists (IncludedDecrypted i), (Some inner). split; [constructor|]. step_parts; [by constructor|by eapply runs_included; [|constructor]].
    + destruct (fallback_step (mkReplayState (replay s) p x) i t sender (Decrypted j inner) (ExecutionFallback e)) as (d & o & Hd & Hs).
      exists d, o. split; [done|]. destruct Hs as [H1 H2 H3 H4 H5 H6 H7]. cbn in *. split; try done; [by rewrite H5|by rewrite <- Hh|].
      by eapply runs_refused.
  - apply pool_add_Err in Ep as ->.
    destruct (fallback_step (mkReplayState (replay s) (replay_pool s) (replay_exec s)) i t sender (Decrypted j inner) (PoolFallback e)) as (d & o & Hd & Hs).
    exists d, o. by destruct s.
Qed.

(** The replay without the pool and the executor: which decisions and which final
    transactions a run of the loop may give. *)
Inductive replays : N -> list N -> gmap N AntiMevEnvelopeResolution -> gset Address -> list (eth_tx * Address) ->
    list (AntiMevTransactionDecision Fault) -> list (eth_tx * Address) -> Prop :=
| replays_done i idx rs failed : replays i idx rs failed [] [] []
| replays_prior i idx rs failed t sender rest ds inc :
    sender ∈ failed -> replays (i + 1) idx rs failed rest ds inc ->
    replays i idx rs failed ((t, sender) :: rest) (Dropped i PriorSenderFailure :: ds) inc
| replays_envelope i idx rs failed t sender rest d o ds inc :
    sender ∉ failed -> decided i t (rs !! i) d o ->
    replays (i + 1) idx (delete i rs) (match o with Some _ => failed | None => {[sender]} ∪ failed end) rest ds inc ->
    replays i (i :: idx) rs failed ((t, sender) :: rest) (d :: ds) (added o sender ++ inc)
| replays_ordinary i idx rs failed t sender rest d o ds inc :
    sender ∉ failed -> head idx <> Some i -> decided i t None d o ->
    replays (i + 1) idx rs (match o with Some _ => failed | None => {[sender]} ∪ failed end) rest ds inc ->
    replays i idx rs failed ((t, sender) :: rest) (d :: ds) (added o sender ++ inc).

Lemma execute_from_spec outer : forall i idx rs s, exists ds inc,
  let s' := execute_from execute i outer idx rs s in
  replays i idx rs (failed_senders (replay s)) outer ds inc /\
  decisions (replay s') = decisions (replay s) ++ ds /\
  seq_transactions (replay s') = seq_transactions (replay s) ++ inc.*1 /\
  seq_senders (replay s') = seq_senders (replay s) ++ inc.*2 /\
  Forall (admitted (pool_head (replay_pool s))) inc /\ runs execute (replay_exec s) inc (replay_exec s').
Proof.
  induction outer as [|[t sender] outer IH]; intros i idx rs s.
  { exists [], []. cbn. rewrite !app_nil_r. split_and!; try done; constructor. }
  cbn [execute_from]. case_bool_decide as Hf.
  { destruct (IH (i + 1) idx rs (mkReplayState (drop_tx (replay s) i PriorSenderFailure) (replay_pool s) (replay_exec s)))
      as (ds & inc & H1 & H2 & H3 & H4 & H5 & H6). cbn in H1, H2, H3, H4, H5, H6.
    exists (Dropped i PriorSenderFailure :: ds), inc. cbn zeta.
    split_and!; [by constructor|by rewrite H2, <- app_assoc|done..]. }
  assert (Hgo : forall s1 d o idx' rs', stepped s s1 sender d o ->
    exists ds inc, replays (i + 1) idx' rs' (match o with Some _ => failed_senders (replay s) | None => {[sender]} ∪ failed_senders (replay s) end) outer ds inc /\
      decisions (replay (execute_from execute (i + 1) outer idx' rs' s1)) = decisions (replay s) ++ (d :: ds) /\
      seq_transactions (replay (execute_from execute (i + 1) outer idx' rs' s1)) = seq_transactions (replay s) ++ (added o sender ++ inc).*1 /\
      seq_senders (replay (execute_from execute (i + 1) outer idx' rs' s1)) = seq_senders (replay s) ++ (added o sender ++ inc).*2 /\
      Forall (admitted (pool_head (replay_pool s))) (added o sender ++ inc) /\
      runs execute (replay_exec s) (added o sender ++ inc) (replay_exec (execute_from execute (i + 1) outer idx' rs' s1))).
  { intros s1 d o idx' rs' [Q1 Q2 Q3 Q4 Q5 Q6 Q7]. destruct (IH (i + 1) idx' rs' s1) as (ds & inc & H1 & H2 & H3 & H4 & H5 & H6).
    exists ds, inc. rewrite Q4 in H1. rewrite Q5 in H5. rewrite H2, H3, H4, Q1, Q2, Q3, !fmap_app, <- !app_assoc.
    split_and!; try done; [by apply Forall_app|by eapply runs_app]. }
  case_bool_decide as Hi.
  - destruct idx as [|j idx]; [done|]. injection Hi as ->. cbn [tail].
    assert (Hstep : exists d o, decided i t (rs !! i) d o /\ stepped s
      match rs !! i with
      | Some (Decrypted _ inner) => include_decrypted execute s i inner t sender
      | Some (Fallback _ reason) => include_fallback execute s i t sender (StaticFallback reason)
      | None => include_original execute s i t sender
      end sender d o).
    { destruct (rs !! i) as [[j inner|j reason]|]; [apply decrypted_step|apply fallback_step|apply original_step]. }
    destruct Hstep as (d & o & Hd & Hs). destruct (Hgo _ _ _ idx (delete i rs) Hs) as (ds & inc & H1 & Hr).
    exists (d :: ds), (added o sender ++ inc). split; [by constructor|done].
  - destruct (original_step s i t sender) as (d & o & Hd & Hs). destruct (Hgo _ _ _ idx rs Hs) as (ds & inc & H1 & Hr).
    exists (d :: ds), (added o sender ++ inc). split; [by apply replays_ordinary|done].
Qed.

(** Position [j] of a list that starts at position [i]. *)
Definition position {A} (i : N) (l : list A) (j : N) : option A := if j <? i then None else l !! N.to_nat (j - i).

Lemma position_cons {A} i (x : A) l j :
  position i (x :: l) j = if j =? i then Some x else position (i + 1) l j.
Proof.
  unfold position. destruct (N.ltb_spec j i), (N.eqb_spec j i), (N.ltb_spec j (i + 1)); try lia; try done.
  - subst. by rewrite N.sub_diag.
  - replace (N.to_nat (j - i)) with (1 + N.to_nat (j - (i + 1)))%nat by lia. done.
Qed.

Lemma position_before {A} i (l : list A) j : j < i -> position i l j = None.
Proof. intros H. unfold position. by rewrite (proj2 (N.ltb_lt _ _) H). Qed.

Lemma position_0 {A} (l : list A) j : position 0 l j = l !! N.to_nat j.
Proof. unfold position. rewrite (proj2 (N.ltb_ge _ _)) by lia. by rewrite N.sub_0_r. Qed.

(** The final transaction of a decided outer transaction. *)
Definition final_tx (rs : gmap N AntiMevEnvelopeResolution)
    (p : AntiMevTransactionDecision Fault * (eth_tx * Address)) : option (eth_tx * Address) :=
  let '(d, (t, sender)) := p in
  match d with
  | IncludedOriginal _ | IncludedFallback _ _ => Some (t, sender)
  | IncludedDecrypted i => match rs !! i with Some (Decrypted _ inner) => Some (inner, sender) | _ => None end
  | Dropped _ _ => None
  end.

Definition decision_index (d : AntiMevTransactionDecision Fault) : N :=
  match d with IncludedOriginal i | IncludedDecrypted i | IncludedFallback i _ | Dropped i _ => i end.

(** An Envelope whose resolution was looked up. *)
Definition recognized (d : AntiMevTransactionDecision Fault) : bool :=
  match d with IncludedDecrypted _ | IncludedFallback _ _ => true | _ => false end.

Lemma decided_final i t r rs d o sender :
  decided i t r d o -> (r = None \/ r = rs !! i) ->
  final_tx rs (d, (t, sender)) = (fun u => (u, sender)) <$> o /\ decision_index d = i /\
  (recognized d = true -> is_Some r) /\ d <> Dropped i PriorSenderFailure /\ (o = None <-> exists reason, d = Dropped i reason) /\
  (is_Some r -> d <> IncludedOriginal i).
Proof. destruct 1; intros [Hr|Hr]; simplify_eq/=; rewrite <- ?Hr; split_and!; try done; naive_solver. Qed.

Lemma replays_final i idx rs failed outer ds inc rs0 :
  replays i idx rs failed outer ds inc -> (forall j, i <= j -> rs !! j = rs0 !! j) ->
  length ds = length outer /\ inc = omap (final_tx rs0) (zip ds outer) /\
  (forall j d, position i ds j = Some d -> decision_index d = j).
Proof.
  intros H. revert rs0. induction H as [|i idx rs failed t sender rest ds inc Hf H IH|i idx rs failed t sender rest d o ds inc Hf Hd H IH|i idx rs failed t sender rest d o ds inc Hf Hi Hd H IH];
    intros rs0 Hrs.
  - split_and!; try done. intros j d. unfold position. by destruct (_ <? _).
  - destruct (IH rs0) as (L & F & P); [intros; apply Hrs; lia|]. cbn. split_and!; [by rewrite L|done|].
    intros j d. rewrite position_cons. destruct (N.eqb_spec j i) as [->|]; [by intros [= <-]|apply P].
  - destruct (IH rs0) as (L & F & P); [intros j Hj; rewrite lookup_delete_ne by lia; apply Hrs; lia|].
    rewrite Hrs in Hd by lia. destruct (decided_final i t _ rs0 d o sender Hd) as (Ef & Ed & _); [by right|].
    cbn [length zip zip_with omap list_omap]. rewrite Ef, L, F. split_and!; [done|by destruct o|].
    intros j d'. rewrite position_cons. destruct (N.eqb_spec j i) as [->|]; [by intros [= <-]|apply P].
  - destruct (IH rs0) as (L & F & P); [intros; apply Hrs; lia|].
    destruct (decided_final i t _ rs0 d o sender Hd) as (Ef & Ed & _); [by left|].
    cbn [length zip zip_with omap list_omap]. rewrite Ef, L, F. split_and!; [done|by destruct o|].
    intros j d'. rewrite position_cons. destruct (N.eqb_spec j i) as [->|]; [by intros [= <-]|apply P].
Qed.

(** A sender that failed is dropped from then on. *)
Definition stays_dropped (i : N) (failed : gset Address) (outer : list (eth_tx * Address))
    (ds : list (AntiMevTransactionDecision Fault)) : Prop :=
  (forall j t sender, position i outer j = Some (t, sender) -> sender ∈ failed ->
     position i ds j = Some (Dropped j PriorSenderFailure)) /\
  (forall j k t t' sender reason, j < k -> position i outer j = Some (t, sender) -> position i outer k = Some (t', sender) ->
     position i ds j = Some (Dropped j reason) -> position i ds k = Some (Dropped k PriorSenderFailure)).

Lemma stays_dropped_cons i failed t sender rest d (o : option eth_tx) ds :
  (d = Dropped i PriorSenderFailure \/ sender ∉ failed) ->
  ((exists reason, d = Dropped i reason) -> o = None \/ sender ∈ failed) ->
  stays_dropped (i + 1) (match o with Some _ => failed | None => {[sender]} ∪ failed end) rest ds ->
  stays_dropped i failed ((t, sender) :: rest) (d :: ds).
Proof.
  intros Hd Ho [I1 I2]. split.
  - intros j t' s'. rewrite !position_cons. destruct (N.eqb_spec j i) as [->|].
    + intros [= <- <-] Hin. by destruct Hd as [->|].
    + intros Hp Hin. apply (I1 _ _ _ Hp). destruct o; set_solver.
  - intros j k t1 t2 s reason Hjk. rewrite !position_cons.
    destruct (N.eqb_spec j i) as [->|Hj], (N.eqb_spec k i) as [->|Hk]; try lia.
    + intros [= <- <-] Hp [= ->]. apply (I1 _ _ _ Hp). destruct Ho as [->|]; [by eauto|set_solver|destruct o; set_solver].
    + intros Hp. by rewrite position_before in Hp by lia.
    + eauto.
Qed.

Lemma replays_failed i idx rs failed outer ds inc :
  replays i idx rs failed outer ds inc -> stays_dropped i failed outer ds.
Proof.
  induction 1 as [|i idx rs failed t sender rest ds inc Hf H IH|i idx rs failed t sender rest d o ds inc Hf Hd H IH|i idx rs failed t sender rest d o ds inc Hf Hi Hd H IH].
  - unfold position. split; unfold position; intros; by destruct (_ <? i).
  - apply (stays_dropped_cons i failed t sender rest _ (Some t)); [by left|by right|done].
  - apply (stays_dropped_cons i failed t sender rest d o); [by right| |done]. left.
    by apply (decided_final i t _ rs d o sender Hd); [right|].
  - apply (stays_dropped_cons i failed t sender rest d o); [by right| |done]. left.
    by apply (decided_final i t _ rs d o sender Hd); [left|].
Qed.

(** Behind its cursor the loop recognizes no Envelope. *)
Lemma replays_parked i idx rs failed outer ds inc j :
  replays i idx rs failed outer ds inc -> head idx = Some j -> j < i -> Forall (fun d => recognized d = false) ds.
Proof.
  intros H. revert j. induction H as [|i idx rs failed t sender rest ds inc Hf H IH|i idx rs failed t sender rest d o ds inc Hf Hd H IH|i idx rs failed t sender rest d o ds inc Hf Hi Hd H IH];
    intros j Hj Hlt; [constructor| |by injection Hj as ->; lia|].
  - constructor; [done|]. apply (IH j); [done|lia].
  - constructor; [|apply (IH j); [done|lia]].
    destruct (decided_final i t _ rs d o sender Hd) as (_ & _ & Hr & _); [by left|].
    destruct (recognized d); [|done]. by destruct Hr.
Qed.

(** Which Envelopes are recognized. *)
Definition cursor_rule (i : N) (idx : list N) (rs : gmap N AntiMevEnvelopeResolution)
    (ds : list (AntiMevTransactionDecision Fault)) : Prop :=
  let reached k := forall j, j ∈ idx -> j <= k -> position i ds j <> Some (Dropped j PriorSenderFailure) in
  (forall k d, position i ds k = Some d -> recognized d = true -> k ∈ idx /\ reached k) /\
  (forall k, k ∈ idx -> is_Some (rs !! k) -> reached k -> position i ds k <> Some (IncludedOriginal k)).

Lemma cursor_skip i idx rs d ds :
  recognized d = false -> Forall (fun j => i + 1 <= j) idx -> cursor_rule (i + 1) idx rs ds -> cursor_rule i idx rs (d :: ds).
Proof.
  intros Hd Hge [I1 I2]. assert (Hne : forall j, j ∈ idx -> j <> i).
  { intros j Hj ->. apply (Forall_forall _ _) with (x := i) in Hge; [lia|done]. }
  split.
  - intros k d'. rewrite position_cons. destruct (N.eqb_spec k i) as [->|]; [intros [= <-]; congruence|].
    intros Hk Hr. destruct (I1 _ _ Hk Hr) as [Hin Hreach]. split; [done|]. intros j Hj Hle. rewrite position_cons.
    destruct (N.eqb_spec j i) as [->|]; [by apply Hne in Hj|by apply Hreach].
  - intros k Hk Hr Hreach. rewrite position_cons. destruct (N.eqb_spec k i) as [->|]; [by apply Hne in Hk|].
    apply I2; try done. intros j Hj Hle Hp. apply (Hreach j Hj Hle). rewrite position_cons.
    destruct (N.eqb_spec j i) as [->|]; [by apply Hne in Hj|done].
Qed.

Lemma cursor_hit i idx rs d ds :
  d <> Dropped i PriorSenderFailure -> (is_Some (rs !! i) -> d <> IncludedOriginal i) -> Forall (N.lt i) idx ->
  cursor_rule (i + 1) idx (delete i rs) ds -> cursor_rule i (i :: idx) rs (d :: ds).
Proof.
  intros Hnp Hno Hlt [I1 I2]. assert (Hne : forall j, j ∈ idx -> i < j) by (by apply Forall_forall).
  split.
  - intros k d'. rewrite position_cons. destruct (N.eqb_spec k i) as [->|Hki].
    + intros [= <-] Hr. split; [by left|]. intros j Hj Hle. rewrite position_cons.
      destruct (N.eqb_spec j i) as [->|Hji]; [by intros [= ?]|]. apply elem_of_cons in Hj as [->|Hj%Hne]; [done|lia].
    + intros Hk Hr. destruct (I1 _ _ Hk Hr) as [Hin Hreach]. split; [by right|]. intros j Hj Hle. rewrite position_cons.
      destruct (N.eqb_spec j i) as [->|Hji]; [by intros [= ?]|]. apply elem_of_cons in Hj as [->|Hj]; [done|by apply Hreach].
  - intros k Hk Hr Hreach. rewrite position_cons. destruct (N.eqb_spec k i) as [->|Hki]; [intros [= ->]; by apply Hno|].
    apply elem_of_cons in Hk as [->|Hk]; [done|]. apply I2; [done|by rewrite lookup_delete_ne by done|].
    intros j Hj Hle Hp. apply (Hreach j); [by right|done|]. rewrite position_cons.
    destruct (N.eqb_spec j i) as [->|]; [apply Hne in Hj; lia|done].
Qed.

(** The cursor is parked at an Envelope that was skipped. *)
Lemma cursor_parked i idx rs ds :
  Forall (fun d => recognized d = false) ds -> Forall (N.lt i) idx -> cursor_rule i (i :: idx) rs (Dropped i PriorSenderFailure :: ds).
Proof.
  intros Hp Hlt. split.
  - intros k d. rewrite position_cons. destruct (N.eqb_spec k i) as [->|]; [by intros [= <-]|].
    unfold position. destruct (_ <? _); [done|]. intros Hk%(Forall_lookup_1 _ _ _ _ Hp). congruence.
  - intros k Hk _ Hreach. exfalso. apply (Hreach i); [by left| |by rewrite position_cons, N.eqb_refl].
    apply elem_of_cons in Hk as [->|Hk]; [done|]. apply (Forall_forall _ _) with (x := k) in Hlt; [lia|done].
Qed.

Lemma replays_cursor i idx rs failed outer ds inc :
  replays i idx rs failed outer ds inc -> StronglySorted N.lt idx -> Forall (fun j => i <= j) idx -> cursor_rule i idx rs ds.
Proof.
  assert (Hnext : forall i idx, StronglySorted N.lt idx -> Forall (fun j => i <= j) idx -> head idx <> Some i ->
    Forall (fun j => i + 1 <= j) idx).
  { intros i' [|j idx'] Hs Hge Hh; [constructor|]. inversion Hge; subst. inversion Hs as [|?? _ Hlt]; subst.
    assert (j <> i') by (intros ->; done). constructor; [lia|]. eapply Forall_impl; [exact Hlt|]. cbn. lia. }
  intros H. induction H as [i idx rs failed|i idx rs failed t sender rest ds inc Hf H IH|i idx rs failed t sender rest d o ds inc Hf Hd H IH|i idx rs failed t sender rest d o ds inc Hf Hi Hd H IH];
    intros Hs Hge.
  - split; unfold position; intros k; by destruct (_ <? i).
  - destruct (decide (head idx = Some i)) as [Hh|Hh]; [|by apply cursor_skip; auto].
    destruct idx as [|i' idx]; [done|]. injection Hh as ->. inversion Hs; subst. apply cursor_parked; [|done].
    eapply (replays_parked _ _ _ _ _ _ _ i H); [done|lia].
  - inversion Hs as [|?? Hss Hlt]; subst.
    destruct (decided_final i t _ rs d o sender Hd) as (_ & _ & _ & Hnp & _ & Hno); [by right|].
    apply cursor_hit; try done. apply IH; [done|]. eapply Forall_impl; [exact Hlt|]. cbn. lia.
  - destruct (decided_final i t _ rs d o sender Hd) as (_ & _ & Hrec & _); [by left|].
    apply cursor_skip; auto. destruct (recognized d); [by destruct Hrec|done].
Qed.

Lemma zip_fst_snd {A B} (l : list (A * B)) : zip l.*1 l.*2 = l.
Proof. induction l as [|[a b] l IH]; cbn; [done|by rewrite IH]. Qed.

Lemma admitted_no_blob head p : admitted head p -> tx_ty p.1 <> TX_TYPE_EIP4844.
Proof. unfold admitted, static_pool_admission. by destruct (N.eqb_spec (tx_ty p.1) TX_TYPE_EIP4844). Qed.

End sequence_facts.
