(* ===== verification/TxSync.v ===== *)
(** Recovery of a proposal's transactions from beacon peers
    (crates/neox/node/src/proposal.rs, [ProposalTransactionSync]; its use by
    crates/neox/node/src/sync/proposal_recovery.rs). *)

From S2P Require Import Prelude Extern Instances Extra Wire Payload.

Definition MAX_PROPOSAL_TRANSACTIONS : N := 100000.
(** In nanoseconds. *)
Definition PROPOSAL_TRANSACTION_REQUEST_TIMEOUT : N := 5000000000.

Notation PeerId := bytes (only parsing).

(** Reth's pooled transactions: the hash, the conversion to a consensus transaction and
    the sidecar of a blob transaction. *)
Class PooledTransactions : Type := {
  pooled_tx : Type;
  signed_tx : Type;
  blob_sidecar : Type;
  tx_hash : pooled_tx -> B256;
  into_signed : pooled_tx -> signed_tx;
  eip4844_sidecar : pooled_tx -> option blob_sidecar;
}.

Inductive TxSyncError : Type :=
| TooManyTransactions (count : N)
| DuplicateTransaction (hash : B256)
| UnknownTransactionResponse (request_id : N)
| EmptyTransactionResponse (request_id : N)
| WrongTransactionPeer (request_id : N) (expected actual : PeerId)
| UnexpectedTransaction (hash : B256)
| TxSyncPanic.

Definition ProposalKey : Type := N * B256.

Record ActiveTransactionRequest : Type := mkActiveTransactionRequest {
  request_id : N;
  active_peer : PeerId;
  requested_at : N;
}.

Section txsync.
Context {T : PooledTransactions}.

Inductive ProposalTransactionAction : Type :=
| ActionRequest (peer_id : PeerId) (request_id : N) (hashes : list B256)
| ActionReady (view : N) (proposal_hash : B256) (request : DbftPrepareRequest)
    (transactions : list signed_tx) (sidecars : list blob_sidecar)
| ActionWaiting (view : N) (proposal_hash : B256).

Record PendingProposalTransactions : Type := mkPending {
  pp_view : N;
  pp_hash : B256;
  pp_request : DbftPrepareRequest;
  pp_transactions : list (option pooled_tx);
  pp_candidates : list PeerId;
  pp_attempted : gset PeerId;
  pp_active : option ActiveTransactionRequest;
}.

Record ProposalTransactionSync : Type := mkTxSync {
  next_request_id : N;
  pending : gmap ProposalKey PendingProposalTransactions;
  requests : gmap N ProposalKey;
}.
Definition txsync_default : ProposalTransactionSync := mkTxSync 0 ∅ ∅.

Definition pp_key (p : PendingProposalTransactions) : ProposalKey := (pp_view p, pp_hash p).
Definition set_active (p : PendingProposalTransactions) (a : option ActiveTransactionRequest)
    : PendingProposalTransactions :=
  mkPending (pp_view p) (pp_hash p) (pp_request p) (pp_transactions p) (pp_candidates p) (pp_attempted p) a.
Definition set_transactions (p : PendingProposalTransactions) (l : list (option pooled_tx))
    : PendingProposalTransactions :=
  mkPending (pp_view p) (pp_hash p) (pp_request p) l (pp_candidates p) (pp_attempted p) (pp_active p).
Definition set_candidates (p : PendingProposalTransactions) (l : list PeerId) (attempted : gset PeerId)
    : PendingProposalTransactions :=
  mkPending (pp_view p) (pp_hash p) (pp_request p) (pp_transactions p) l attempted (pp_active p).
Definition set_pending (s : ProposalTransactionSync) (m : gmap ProposalKey PendingProposalTransactions)
    : ProposalTransactionSync := mkTxSync (next_request_id s) m (requests s).
Definition set_requests (s : ProposalTransactionSync) (m : gmap N ProposalKey)
    : ProposalTransactionSync := mkTxSync (next_request_id s) (pending s) m.

Fixpoint unique_hashes (unique : gset B256) (hashes : list B256) : result TxSyncError unit :=
  match hashes with
  | [] => Ok tt
  | h :: rest =>
      if bool_decide (h ∈ unique) then Err (DuplicateTransaction h) else unique_hashes ({[h]} ∪ unique) rest
  end.
Definition validate_proposal_hash_set (hashes : list B256) : result TxSyncError unit :=
  if MAX_PROPOSAL_TRANSACTIONS <? lenN hashes then Err (TooManyTransactions (lenN hashes))
  else unique_hashes ∅ hashes.

(** [loop { next_request_id = next_request_id.wrapping_add(1).max(1); .. }], a turn per
    outstanding request. *)
Fixpoint allocate_loop (fuel : nat) (next : N) (reqs : gmap N ProposalKey) : option N :=
  match fuel with
  | O => None
  | S fuel =>
      let next := N.max (wrapping_add U64_MAX next 1) 1 in
      if bool_decide (is_Some (reqs !! next)) then allocate_loop fuel next reqs else Some next
  end.
Definition allocate_request_id (s : ProposalTransactionSync) : option (ProposalTransactionSync * N) :=
  id ← allocate_loop (S (base.size (requests s))) (next_request_id s) (requests s);
  Some (mkTxSync id (pending s) (requests s), id).

(** The hashes whose transactions are still missing. *)
Definition missing_hashes (p : PendingProposalTransactions) : list B256 :=
  omap (fun '(h, o) => match o with None => Some h | Some _ => None end)
    (zip (transaction_hashes (pp_request p)) (pp_transactions p)).

Definition ready (p : PendingProposalTransactions) (txs : list pooled_tx) : ProposalTransactionAction :=
  ActionReady (pp_view p) (pp_hash p) (pp_request p) (map into_signed txs) (omap eip4844_sidecar txs).

(** [transaction.expect("missing transactions checked above")] for each one. *)
Definition all_present (l : list (option pooled_tx)) : option (list pooled_tx) := mapM id l.

Definition find_candidate (p : PendingProposalTransactions) : option PeerId :=
  head (filter (fun c => c ∉ pp_attempted p) (pp_candidates p)).

(** [None] is a panic of an [expect] or of the identifier search. *)
Definition next_action (s : ProposalTransactionSync) (key : ProposalKey) (retry_cycle : bool) (now : N)
    : option (ProposalTransactionSync * ProposalTransactionAction) :=
  match pending s !! key with
  | None =>
      if retry_cycle then None else Some (s, ActionWaiting key.1 key.2)
  | Some p =>
      match all_present (pp_transactions p) with
      | Some txs => Some (set_pending s (delete key (pending s)), ready p txs)
      | None =>
          let '(p, candidate) :=
            match find_candidate p with
            | Some c => (p, Some c)
            | None =>
                if retry_cycle then (set_candidates p (pp_candidates p) ∅, head (pp_candidates p)) else (p, None)
            end in
          let s := set_pending s (<[key := p]> (pending s)) in
          match candidate with
          | None => Some (s, ActionWaiting key.1 key.2)
          | Some peer_id =>
              '(s, id) ← allocate_request_id s;
              let p := set_active (set_candidates p (pp_candidates p) ({[peer_id]} ∪ pp_attempted p))
                         (Some (mkActiveTransactionRequest id peer_id now)) in
              Some (mkTxSync (next_request_id s) (<[key := p]> (pending s)) (<[id := key]> (requests s)),
                    ActionRequest peer_id id (missing_hashes p))
          end
      end
  end.

Definition dedup_step (candidates : list PeerId) (c : PeerId) : list PeerId :=
  if bool_decide (c ∈ candidates) then candidates else candidates ++ [c].
Definition dedup_peers (peers : list PeerId) : list PeerId := foldl dedup_step [] peers.

(** [candidates.swap(0, index)] when the peer is a candidate. *)
Definition prefer (peer_id : PeerId) (candidates : list PeerId) : list PeerId :=
  match list_find (fun c => c = peer_id) candidates with
  | Some (index, c) =>
      match candidates with
      | first :: _ => <[0%nat := c]> (<[index := first]> candidates)
      | [] => candidates
      end
  | None => candidates
  end.

Definition finish_or_request (s : ProposalTransactionSync) (p : PendingProposalTransactions) (now : N)
    : option (ProposalTransactionSync * ProposalTransactionAction) :=
  match missing_hashes p with
  | [] => txs ← all_present (pp_transactions p); Some (s, ready p txs)
  | _ => next_action (set_pending s (<[pp_key p := p]> (pending s))) (pp_key p) false now
  end.

(** [local] is the transaction pool. *)
Definition begin_with_peers (s : ProposalTransactionSync) (peer_id : PeerId) (view : N) (proposal_hash : B256)
    (request : DbftPrepareRequest) (peers : list PeerId) (local : B256 -> option pooled_tx) (now : N)
    : result TxSyncError (ProposalTransactionSync * ProposalTransactionAction) :=
  let? _ := validate_proposal_hash_set (transaction_hashes request) in
  let transactions :=
    map (fun h => match local h with
                  | Some t => if bool_decide (tx_hash t = h) then Some t else None
                  | None => None end) (transaction_hashes request) in
  ok_or (finish_or_request s
    (mkPending view proposal_hash request transactions (prefer peer_id (dedup_peers peers)) ∅ None) now) TxSyncPanic.

Definition begin_txsync (s : ProposalTransactionSync) (peer_id : PeerId) (view : N) (proposal_hash : B256)
    (request : DbftPrepareRequest) (local : B256 -> option pooled_tx) (now : N)
    : result TxSyncError (ProposalTransactionSync * ProposalTransactionAction) :=
  begin_with_peers s peer_id view proposal_hash request [peer_id] local now.

(** [HashMap] from missing hash to position, later pairs winning. *)
Definition missing_map (p : PendingProposalTransactions) : gmap B256 nat :=
  foldl (fun m '(h, i) => <[h := i]> m) ∅
    (omap (fun '(i, (h, o)) => match o with None => Some (h, i) | Some _ => None end)
       (imap pair (zip (transaction_hashes (pp_request p)) (pp_transactions p)))).

Fixpoint collect_updates (missing : gmap B256 nat) (supplied : gset B256) (txs : list pooled_tx)
    : result TxSyncError (list (nat * pooled_tx)) :=
  match txs with
  | [] => Ok []
  | t :: rest =>
      match missing !! tx_hash t with
      | None => Err (UnexpectedTransaction (tx_hash t))
      | Some index =>
          if bool_decide (tx_hash t ∈ supplied) then Err (DuplicateTransaction (tx_hash t))
          else let? updates := collect_updates missing ({[tx_hash t]} ∪ supplied) rest in
               Ok ((index, t) :: updates)
      end
  end.

Definition supply (s : ProposalTransactionSync) (peer_id : PeerId) (id : N) (txs : list pooled_tx) (now : N)
    : result TxSyncError (ProposalTransactionSync * ProposalTransactionAction) :=
  let? key := ok_or (requests s !! id) (UnknownTransactionResponse id) in
  let? p := ok_or (pending s !! key) TxSyncPanic in
  let? active := ok_or (pp_active p) TxSyncPanic in
  if bool_decide (active_peer active <> peer_id)
  then Err (WrongTransactionPeer id (active_peer active) peer_id)
  else
    let? updates := collect_updates (missing_map p) ∅ txs in
    if bool_decide (updates = []) then Err (EmptyTransactionResponse id)
    else
      let p := set_transactions (set_active p None)
                 (foldl (fun l '(i, t) => <[i := Some t]> l) (pp_transactions p) updates) in
      ok_or (next_action (mkTxSync (next_request_id s) (<[key := p]> (pending s)) (delete id (requests s)))
               key false now) TxSyncPanic.

Definition add_candidate (p : PendingProposalTransactions) (peer_id : PeerId) : PendingProposalTransactions :=
  if bool_decide (peer_id ∈ pp_candidates p) then p
  else set_candidates p (pp_candidates p ++ [peer_id]) (pp_attempted p).

Definition add_source (s : ProposalTransactionSync) (peer_id : PeerId) (view : N) (proposal_hash : B256) (now : N)
    : option (ProposalTransactionSync * option ProposalTransactionAction) :=
  let key : ProposalKey := (view, proposal_hash) in
  match pending s !! key with
  | None => Some (s, None)
  | Some p =>
      let p := add_candidate p peer_id in
      let s := set_pending s (<[key := p]> (pending s)) in
      match pp_active p with
      | Some _ => Some (s, None)
      | None => '(s, a) ← next_action s key false now; Some (s, Some a)
      end
  end.

(** [into_iter().map(|key| self.next_action(key, retry_cycle)).collect()] *)
Fixpoint next_actions (s : ProposalTransactionSync) (keys : list ProposalKey) (retry_cycle : bool) (now : N)
    : option (ProposalTransactionSync * list ProposalTransactionAction) :=
  match keys with
  | [] => Some (s, [])
  | key :: rest =>
      '(s, a) ← next_action s key retry_cycle now;
      '(s, l) ← next_actions s rest retry_cycle now;
      Some (s, a :: l)
  end.

(** [order] is the iteration order of the pending map. *)
Definition idle (s : ProposalTransactionSync) (key : ProposalKey) : Prop :=
  (pending s !! key ≫= pp_active) = None.
#[export] Instance idle_dec s key : Decision (idle s key) := ltac:(unfold idle; apply _).

Definition add_peer (s : ProposalTransactionSync) (order : list ProposalKey) (peer_id : PeerId) (now : N)
    : option (ProposalTransactionSync * list ProposalTransactionAction) :=
  let s := set_pending s ((fun p => add_candidate p peer_id) <$> pending s) in
  next_actions s (filter (idle s) order) false now.

Definition retry_request (s : ProposalTransactionSync) (id : N) (retry_cycle : bool) (now : N)
    : option (ProposalTransactionSync * option ProposalTransactionAction) :=
  match requests s !! id with
  | None => Some (s, None)
  | Some key =>
      let s := set_requests s (delete id (requests s)) in
      match pending s !! key with
      | None => Some (s, None)
      | Some p =>
          let p := match pp_active p with
                   | Some a => if request_id a =? id then set_active p None else p
                   | None => p
                   end in
          '(s, a) ← next_action (set_pending s (<[key := p]> (pending s))) key retry_cycle now; Some (s, Some a)
      end
  end.

(** [failed.into_iter().filter_map(..).collect()] *)
Fixpoint retry_requests (s : ProposalTransactionSync) (ids : list N) (now : N)
    : option (ProposalTransactionSync * list ProposalTransactionAction) :=
  match ids with
  | [] => Some (s, [])
  | id :: rest =>
      '(s, a) ← retry_request s id false now;
      '(s, l) ← retry_requests s rest now;
      Some (s, match a with Some a => a :: l | None => l end)
  end.

Definition assigned_to (s : ProposalTransactionSync) (peer_id : PeerId) (key : ProposalKey) : option N :=
  match pending s !! key ≫= pp_active with
  | Some a => if bool_decide (active_peer a = peer_id) then Some (request_id a) else None
  | None => None
  end.

Definition drop_candidate (peer_id : PeerId) (p : PendingProposalTransactions) : PendingProposalTransactions :=
  set_candidates p (filter (fun c => c <> peer_id) (pp_candidates p)) (pp_attempted p ∖ {[peer_id]}).

Definition remove_peer (s : ProposalTransactionSync) (order : list ProposalKey) (peer_id : PeerId) (now : N)
    : option (ProposalTransactionSync * list ProposalTransactionAction) :=
  retry_requests (set_pending s (drop_candidate peer_id <$> pending s)) (omap (assigned_to s peer_id) order) now.

(** [Some None] for an idle proposal, [Some (Some id)] for a request that timed out. *)
Definition expired (s : ProposalTransactionSync) (now : N) (key : ProposalKey) : option (ProposalKey * option N) :=
  match pending s !! key with
  | None => None
  | Some p =>
      match pp_active p with
      | Some a =>
          if PROPOSAL_TRANSACTION_REQUEST_TIMEOUT <=? saturating_sub now (requested_at a)
          then Some (key, Some (request_id a)) else None
      | None => Some (key, None)
      end
  end.

Fixpoint expire_each (s : ProposalTransactionSync) (l : list (ProposalKey * option N)) (now : N)
    : option (ProposalTransactionSync * list ProposalTransactionAction) :=
  match l with
  | [] => Some (s, [])
  | (key, id) :: rest =>
      s ← match id with
          | None => Some s
          | Some id =>
              p ← pending s !! key;
              Some (mkTxSync (next_request_id s) (<[key := set_active p None]> (pending s))
                      (delete id (requests s)))
          end;
      '(s, a) ← next_action s key true now;
      '(s, l) ← expire_each s rest now;
      Some (s, a :: l)
  end.

Definition expire_requests_at (s : ProposalTransactionSync) (order : list ProposalKey) (now : N)
    : option (ProposalTransactionSync * list ProposalTransactionAction) :=
  expire_each s (omap (expired s now) order) now.

Definition pending_count (s : ProposalTransactionSync) : N := N.of_nat (base.size (pending s)).
Definition is_waiting_for (s : ProposalTransactionSync) (view : N) (proposal_hash : B256) : bool :=
  bool_decide (is_Some (pending s !! (view, proposal_hash))).
Definition txsync_clear (s : ProposalTransactionSync) : ProposalTransactionSync :=
  mkTxSync (next_request_id s) ∅ ∅.
End txsync.

(** ** Request identifiers *)

(** The [k]-th identifier tried after [x]. *)
Definition nth_id (x k : N) : N := (x + k - 1) mod U64_MAX + 1.

Lemma nth_id_step x : x <= U64_MAX -> N.max (wrapping_add U64_MAX x 1) 1 = nth_id x 1.
Proof.
  intros Hx. unfold wrapping_add, nth_id. replace (x + 1 - 1) with x by lia.
  destruct (N.eq_dec x U64_MAX) as [->|Hne].
  - by vm_compute.
  - rewrite (N.mod_small (x + 1)), (N.mod_small x) by lia. lia.
Qed.

Lemma nth_id_bound x k : 1 <= nth_id x k <= U64_MAX.
Proof.
  unfold nth_id. pose proof (N.mod_lt (x + k - 1) U64_MAX ltac:(done)) as H. revert H.
  generalize ((x + k - 1) mod U64_MAX). lia.
Qed.

Lemma nth_id_succ x k : 1 <= k -> nth_id (nth_id x 1) k = nth_id x (k + 1).
Proof.
  intros Hk. unfold nth_id. replace (x + 1 - 1) with x by lia. f_equal.
  replace (x mod U64_MAX + 1 + k - 1) with (x mod U64_MAX + k) by (generalize (x mod U64_MAX); lia).
  replace (x + (k + 1) - 1) with (x + k) by lia.
  by rewrite N.Div0.add_mod_idemp_l.
Qed.

Lemma nth_id_inj x j k : 1 <= j <= U64_MAX -> 1 <= k <= U64_MAX -> nth_id x j = nth_id x k -> j = k.
Proof.
  intros Hj Hk H. unfold nth_id in H. apply N.add_cancel_r in H.
  assert (Hpos : U64_MAX <> 0) by done. revert H Hpos Hj Hk. generalize U64_MAX as M. intros M H Hpos Hj Hk.
  pose proof (N.div_mod (x + j - 1) M Hpos) as E1. pose proof (N.div_mod (x + k - 1) M Hpos) as E2.
  pose proof (N.mod_lt (x + j - 1) M Hpos). rewrite H in E1.
  set (a := (x + j - 1) / M) in *. set (b := (x + k - 1) / M) in *.
  destruct (N.lt_trichotomy a b) as [Hlt|[Heq|Hlt]]; [nia| |nia].
  rewrite Heq in E1. lia.
Qed.

Lemma allocate_loop_None fuel x reqs :
  x <= U64_MAX -> allocate_loop fuel x reqs = None ->
  forall k, 1 <= k <= N.of_nat fuel -> is_Some (reqs !! nth_id x k).
Proof.
  revert x. induction fuel as [|fuel IH]; intros x Hx H k Hk; [lia|]. cbn [allocate_loop] in H.
  rewrite nth_id_step in H by done. case_bool_decide as Hs; [|done].
  destruct (N.eq_dec k 1) as [->|Hne]; [done|].
  specialize (IH (nth_id x 1) ltac:(apply nth_id_bound) H (k - 1) ltac:(lia)).
  rewrite nth_id_succ in IH by lia. by replace (k - 1 + 1) with k in IH by lia.
Qed.

Lemma allocate_loop_Some fuel x reqs id :
  x <= U64_MAX -> allocate_loop fuel x reqs = Some id -> 1 <= id <= U64_MAX /\ reqs !! id = None.
Proof.
  revert x. induction fuel as [|fuel IH]; intros x Hx H; [done|]. cbn [allocate_loop] in H.
  rewrite nth_id_step in H by done. case_bool_decide as Hs.
  - apply (IH (nth_id x 1)); [apply nth_id_bound|done].
  - injection H as <-. split; [apply nth_id_bound|]. by apply eq_None_not_Some.
Qed.

Lemma allocate_loop_total x (reqs : gmap N ProposalKey) :
  x <= U64_MAX -> N.of_nat (base.size reqs) < U64_MAX ->
  is_Some (allocate_loop (S (base.size reqs)) x reqs).
Proof.
  intros Hx Hs. destruct (allocate_loop _ x reqs) as [id|] eqn:E; [by eexists|exfalso].
  assert (Hall := allocate_loop_None _ _ _ Hx E).
  set (ids := map (fun k => nth_id x (N.of_nat k)) (seq 1 (S (base.size reqs)))).
  assert (Hnd : NoDup ids).
  { apply NoDup_fmap_2_strong; [|apply NoDup_seq].
    intros a b Ha%elem_of_seq Hb%elem_of_seq Hab. apply nth_id_inj in Hab; lia. }
  assert (Hin : forall id, id ∈ ids -> id ∈ (map_to_list reqs).*1).
  { intros id (k & -> & Hk%elem_of_seq)%list_elem_of_fmap.
    destruct (Hall (N.of_nat k) ltac:(lia)) as [key Hkey].
    apply list_elem_of_fmap. exists (nth_id x (N.of_nat k), key).
    split; [done|by apply elem_of_map_to_list]. }
  apply (NoDup_submseteq _ _ Hnd), submseteq_length in Hin.
  rewrite length_fmap, length_map_to_list in Hin. unfold ids in Hin. rewrite length_map, length_seq in Hin. lia.
Qed.

(** ** Correlation invariant *)

Section correlation.
Context {T : PooledTransactions}.

(** A pending proposal holds, at the position of each recovered hash, a transaction with
    that hash. *)
Record pending_ok (key : ProposalKey) (p : PendingProposalTransactions) : Prop := {
  po_key : key = pp_key p;
  po_len : length (pp_transactions p) = length (transaction_hashes (pp_request p));
  po_nodup : NoDup (transaction_hashes (pp_request p));
  po_located : forall i t, pp_transactions p !! i = Some (Some t) ->
    transaction_hashes (pp_request p) !! i = Some (tx_hash t);
}.

(** Requests and active proposals name each other. *)
Record txsync_wf (s : ProposalTransactionSync) : Prop := {
  wf_pending : forall key p, pending s !! key = Some p -> pending_ok key p;
  wf_active : forall key p a, pending s !! key = Some p -> pp_active p = Some a ->
    requests s !! request_id a = Some key;
  wf_requests : forall id key, requests s !! id = Some key ->
    exists p a, pending s !! key = Some p /\ pp_active p = Some a /\ request_id a = id;
  wf_next : next_request_id s <= U64_MAX;
}.

Definition incomplete (s : ProposalTransactionSync) (key : ProposalKey) : Prop :=
  forall p, pending s !! key = Some p -> None ∈ pp_transactions p.

Record txsync_ok (s : ProposalTransactionSync) : Prop := {
  ok_wf : txsync_wf s;
  ok_incomplete : forall key, incomplete s key;
}.

(** A completed proposal carries exactly the transactions the primary signed, in order. *)
Definition action_exact (a : ProposalTransactionAction) : Prop :=
  match a with
  | ActionReady _ _ request txs sidecars =>
      exists pooled, map tx_hash pooled = transaction_hashes request /\
        txs = map into_signed pooled /\ sidecars = omap eip4844_sidecar pooled
  | ActionRequest _ _ hashes => hashes <> []
  | ActionWaiting _ _ => True
  end.

(** Fewer proposals than request identifiers. *)
Definition few (s : ProposalTransactionSync) : Prop := N.of_nat (base.size (pending s)) < U64_MAX.

Lemma txsync_default_ok : txsync_ok txsync_default.
Proof. split; [split|]; try done; intros key p H; by apply lookup_empty_Some in H. Qed.

Lemma txsync_clear_ok s : txsync_ok s -> txsync_ok (txsync_clear s).
Proof.
  intros [[_ _ _ Hn] _]. split; [split|]; simpl; try done; intros key p H; by apply lookup_empty_Some in H.
Qed.

(** Every request has its own proposal. *)
Lemma requests_le s : txsync_wf s -> (base.size (requests s) <= base.size (pending s))%nat.
Proof.
  intros Hwf.
  assert (Hsub : (map_to_list (requests s)).*2 ⊆+ (map_to_list (pending s)).*1).
  { apply NoDup_submseteq.
    - apply NoDup_fmap_2_strong; [|apply NoDup_map_to_list].
      intros [i k] [j k'] Hi%elem_of_map_to_list Hj%elem_of_map_to_list E. simpl in E. subst k'.
      destruct (wf_requests s Hwf _ _ Hi) as (p & a & Hp & Ha & <-).
      destruct (wf_requests s Hwf _ _ Hj) as (p' & a' & Hp' & Ha' & <-). congruence.
    - intros k ([i k'] & -> & Hi%elem_of_map_to_list)%list_elem_of_fmap.
      destruct (wf_requests s Hwf _ _ Hi) as (p & a & Hp & _).
      apply list_elem_of_fmap. exists (k', p). split; [done|by apply elem_of_map_to_list]. }
  apply submseteq_length in Hsub. by rewrite !length_fmap, !length_map_to_list in Hsub.
Qed.

Lemma all_present_Some (l : list (option pooled_tx)) txs : all_present l = Some txs -> l = map Some txs.
Proof.
  unfold all_present. rewrite mapM_Some. induction 1 as [|o t l txs Ho _ IH]; [done|]. simpl. by f_equal.
Qed.

Lemma all_present_None (l : list (option pooled_tx)) : all_present l = None -> None ∈ l.
Proof.
  unfold all_present. induction l as [|[t|] l IH]; simpl; [done| |intros _; by left].
  destruct (mapM id l) as [txs|]; [done|]. intros _. right. by apply IH.
Qed.

Lemma ready_exact key p txs :
  pending_ok key p -> all_present (pp_transactions p) = Some txs -> action_exact (ready p txs).
Proof.
  intros [_ Hl _ Hloc] Htxs%all_present_Some. exists txs. split_and!; try done.
  rewrite Htxs in Hl, Hloc. rewrite length_map in Hl. apply list_eq_same_length with (length txs);
    [done|by rewrite length_map|]. intros i h h' Hi Hh Hh'.
  rewrite list_lookup_fmap in Hh. destruct (txs !! i) as [t|] eqn:E; [|done]. injection Hh as <-.
  specialize (Hloc i t). rewrite list_lookup_fmap, E in Hloc. specialize (Hloc eq_refl). congruence.
Qed.

Lemma missing_nonempty key p :
  pending_ok key p -> None ∈ pp_transactions p -> missing_hashes p <> [].
Proof.
  intros [_ Hl _ _] [i Hi]%list_elem_of_lookup_1 E.
  destruct (lookup_lt_is_Some_2 (transaction_hashes (pp_request p)) i) as [h Hh].
  { rewrite <- Hl. by eapply lookup_lt_Some. }
  apply (not_elem_of_nil h). rewrite <- E. unfold missing_hashes. apply list_elem_of_omap.
  exists (h, None). split; [|done]. apply (list_elem_of_lookup_2 _ i), lookup_zip_with_Some.
  by exists h, None.
Qed.

(** Three changes of an idle proposal: its contents, its removal, its next request. *)
Definition idle_at (s : ProposalTransactionSync) (key : ProposalKey) : Prop :=
  forall p, pending s !! key = Some p -> pp_active p = None.

Lemma wf_put_idle s key p :
  txsync_wf s -> idle_at s key -> pending_ok key p -> pp_active p = None ->
  txsync_wf (set_pending s (<[key := p]> (pending s))).
Proof.
  intros [H1 H2 H3 H4] Hi Hp Ha. split; cbn [set_pending pending requests next_request_id]; [| | |done].
  - intros k q. rewrite lookup_insert_Some. intros [[<- <-]|[_ Hq]]; [done|by apply H1].
  - intros k q a. rewrite lookup_insert_Some. intros [[<- <-]|[_ Hq]] Ha'; [congruence|by eapply H2].
  - intros id k Hid. destruct (H3 _ _ Hid) as (q & a & Hq & Hqa & Ea). exists q, a.
    split_and!; try done. rewrite lookup_insert_ne; [done|]. intros ->. apply Hi in Hq. congruence.
Qed.

Lemma wf_delete_idle s key :
  txsync_wf s -> idle_at s key -> txsync_wf (set_pending s (delete key (pending s))).
Proof.
  intros [H1 H2 H3 H4] Hi. split; cbn [set_pending pending requests next_request_id]; [| | |done].
  - intros k q [_ Hq]%lookup_delete_Some. by apply H1.
  - intros k q a [_ Hq]%lookup_delete_Some. by apply H2.
  - intros id k Hid. destruct (H3 _ _ Hid) as (q & a & Hq & Hqa & Ea). exists q, a.
    split_and!; try done. rewrite lookup_delete_ne; [done|]. intros ->. apply Hi in Hq. congruence.
Qed.

Lemma wf_activate s key p a :
  txsync_wf s -> idle_at s key -> pending_ok key p -> pp_active p = Some a ->
  requests s !! request_id a = None -> request_id a <= U64_MAX ->
  txsync_wf (mkTxSync (request_id a) (<[key := p]> (pending s)) (<[request_id a := key]> (requests s))).
Proof.
  intros [H1 H2 H3 H4] Hi Hp Ha Hf Hb. split; cbn [pending requests next_request_id]; [| | |done].
  - intros k q. rewrite lookup_insert_Some. intros [[<- <-]|[_ Hq]]; [done|by apply H1].
  - intros k q b. rewrite lookup_insert_Some. intros [[<- <-]|[Hne Hq]] Hb'.
    + rewrite Ha in Hb'. injection Hb' as <-. apply lookup_insert_eq.
    + pose proof (H2 _ _ _ Hq Hb') as Hr. rewrite lookup_insert_ne; [done|]. intros E. congruence.
  - intros id k. rewrite lookup_insert_Some. intros [[<- <-]|[Hne Hid]].
    + exists p, a. split_and!; try done. apply lookup_insert_eq.
    + destruct (H3 _ _ Hid) as (q & b & Hq & Hqb & Eb). exists q, b.
      split_and!; try done. rewrite lookup_insert_ne; [done|]. intros ->. apply Hi in Hq. congruence.
Qed.

Lemma wf_release s id key p :
  txsync_wf s -> requests s !! id = Some key -> pending s !! key = Some p ->
  txsync_wf (mkTxSync (next_request_id s) (<[key := set_active p None]> (pending s)) (delete id (requests s))).
Proof.
  intros Hwf Hid Hp. destruct (wf_requests s Hwf _ _ Hid) as (p' & a & Hp' & Ha & <-).
  rewrite Hp in Hp'. injection Hp' as <-. pose proof Hwf as [H1 H2 H3 H4].
  split; cbn [pending requests next_request_id]; [| | |done].
  - intros k q. rewrite lookup_insert_Some. intros [[<- <-]|[_ Hq]]; [|by apply H1].
    destruct (H1 _ _ Hp). by constructor.
  - intros k q b. rewrite lookup_insert_Some. intros [[<- <-]|[Hne Hq]] Hb; [done|].
    pose proof (H2 _ _ _ Hq Hb) as Hr. rewrite lookup_delete_ne; [done|]. intros E. congruence.
  - intros id k. rewrite lookup_delete_Some. intros [Hne Hk].
    destruct (H3 _ _ Hk) as (q & b & Hq & Hqb & Eb). exists q, b. split_and!; try done.
    rewrite lookup_insert_ne; [done|]. intros ->. congruence.
Qed.

Lemma pending_ok_candidates key p l attempted a :
  pending_ok key p -> pending_ok key (set_active (set_candidates p l attempted) a).
Proof. intros []. by constructor. Qed.

Lemma insert_incomplete s key p n r :
  (forall k, k <> key -> incomplete s k) -> None ∈ pp_transactions p ->
  forall k, incomplete (mkTxSync n (<[key := p]> (pending s)) r) k.
Proof.
  intros Ho Hp k q. cbn [pending]. rewrite lookup_insert_Some. intros [[<- <-]|[Hne Hq]]; [done|].
  by apply (Ho k).
Qed.

(** [next_action] on an idle proposal never panics, and completes it exactly or keeps it
    correlated. *)
Lemma next_action_ok s key retry now :
  txsync_wf s -> (forall k, k <> key -> incomplete s k) -> idle_at s key -> few s ->
  (retry = true -> is_Some (pending s !! key)) ->
  exists s' a, next_action s key retry now = Some (s', a) /\ txsync_ok s' /\ action_exact a /\
    (forall k, is_Some (pending s' !! k) -> is_Some (pending s !! k)) /\
    (forall k, k <> key -> pending s' !! k = pending s !! k) /\
    (base.size (pending s') <= base.size (pending s))%nat.
Proof.
  intros Hwf Ho Hi Hfew Hr. unfold next_action.
  destruct (pending s !! key) as [p|] eqn:Ep.
  2:{ destruct retry; [by destruct (Hr eq_refl)|]. exists s. eexists. split_and!; try done.
      split; [done|]. intros k q Hq. destruct (decide (k = key)) as [->|]; [congruence|by eapply Ho]. }
  pose proof (wf_pending s Hwf _ _ Ep) as Hp. pose proof (Hi _ Ep) as Ha.
  destruct (all_present (pp_transactions p)) as [txs|] eqn:Et.
  { eexists _, _. split_and!; [reflexivity| |by eapply ready_exact| | |].
    - split; [by apply wf_delete_idle|]. intros k q. cbn [set_pending pending].
      intros [Hne Hq]%lookup_delete_Some. by apply (Ho k).
    - cbn [set_pending pending]. intros k [q [_ Hq]%lookup_delete_Some]. by eexists.
    - intros k Hk. by apply lookup_delete_ne.
    - apply map_subseteq_size, delete_subseteq. }
  apply all_present_None in Et.
  set (choice := match find_candidate p with
    | Some c => (p, Some c)
    | None => if retry then (set_candidates p (pp_candidates p) ∅, head (pp_candidates p)) else (p, None) end).
  assert (Hc : pending_ok key choice.1 /\ pp_active choice.1 = None /\ pp_transactions choice.1 = pp_transactions p).
  { unfold choice. destruct (find_candidate p); [done|]. destruct retry; [|done].
    split_and!; try done. destruct Hp. by constructor. }
  destruct choice as [q candidate]. cbn [fst] in Hc. destruct Hc as (Hq & Hqa & Hqt).
  assert (Hs1 := wf_put_idle s key q Hwf Hi Hq Hqa). rewrite <- Hqt in Et.
  assert (Hsz : forall x, base.size (<[key := x]> (pending s)) = base.size (pending s))
    by (intros x; rewrite map_size_insert, Ep; done).
  destruct candidate as [peer|].
  2:{ eexists _, _. split_and!; [reflexivity| |done| | |].
      - split; [done|]. by apply insert_incomplete.
      - cbn [set_pending pending]. intros k [r Hr']. apply lookup_insert_Some in Hr' as [[<- _]|[_ Hr']]; by eexists.
      - intros k Hk. by apply lookup_insert_ne.
      - cbn [set_pending pending]. rewrite Hsz. done. }
  unfold allocate_request_id. cbn [set_pending requests next_request_id pending].
  destruct (allocate_loop_total (next_request_id s) (requests s)) as [id Hid].
  { apply Hwf. } { pose proof (requests_le s Hwf). unfold few in Hfew. lia. }
  rewrite Hid. cbn [mbind option_bind]. cbn [pending requests next_request_id].
  apply allocate_loop_Some in Hid as [Hb Hfree]; [|apply Hwf].
  set (r := set_active _ _). rewrite insert_insert_eq.
  assert (Hr' : pending_ok key r) by by apply pending_ok_candidates.
  eexists _, _. split_and!; [reflexivity| | | | |].
  - split; [apply (wf_activate s key r (mkActiveTransactionRequest id peer now)); try done; apply Hb|].
    by apply insert_incomplete.
  - by eapply missing_nonempty.
  - cbn [pending]. intros k [x Hx]. apply lookup_insert_Some in Hx as [[<- _]|[_ Hx]]; by eexists.
  - intros k Hk. by apply lookup_insert_ne.
  - cbn [pending]. rewrite Hsz. done.
Qed.
End correlation.

(** ** Operations *)

Section operations.
Context {T : PooledTransactions}.

(** What every operation guarantees of the state and actions it returns. *)
Definition good (s s' : ProposalTransactionSync) (l : list ProposalTransactionAction) : Prop :=
  txsync_ok s' /\ Forall action_exact l /\ (base.size (pending s') <= base.size (pending s))%nat.

Lemma good_next s key retry now :
  txsync_wf s -> (forall k, k <> key -> incomplete s k) -> idle_at s key -> few s ->
  (retry = true -> is_Some (pending s !! key)) ->
  exists s' a, next_action s key retry now = Some (s', a) /\ good s s' [a] /\
    forall k, k <> key -> pending s' !! k = pending s !! k.
Proof.
  intros H1 H2 H3 H4 H5. destruct (next_action_ok s key retry now H1 H2 H3 H4 H5)
    as (s' & a & E & Hok & Ha & _ & Hk & Hs).
  exists s', a. split; [done|]. split; [|done]. split_and!; [done|by constructor|done].
Qed.

Lemma unique_hashes_NoDup unique hashes :
  unique_hashes unique hashes = Ok tt -> NoDup hashes /\ forall h, h ∈ hashes -> h ∉ unique.
Proof.
  revert unique. induction hashes as [|h hashes IH]; intros unique H; simpl in H.
  - split; [constructor|]. intros h Hh. by apply not_elem_of_nil in Hh.
  - case_bool_decide as Hin; [done|]. apply IH in H as [Hn Hu]. split.
    + constructor; [|done]. intros Hh. apply (Hu h Hh). set_solver.
    + intros x [->|Hx]%elem_of_cons; [done|]. specialize (Hu x Hx). set_solver.
Qed.

Lemma unique_hashes_panic unique hashes e :
  unique_hashes unique hashes = Err e -> e <> TxSyncPanic.
Proof.
  revert unique. induction hashes as [|h hashes IH]; intros unique H; simpl in H; [done|].
  case_bool_decide; [by injection H as <-|by eapply IH].
Qed.

Lemma all_present_missing p :
  length (pp_transactions p) = length (transaction_hashes (pp_request p)) ->
  missing_hashes p = [] -> is_Some (all_present (pp_transactions p)).
Proof.
  intros Hl Hm. destruct (all_present (pp_transactions p)) as [txs|] eqn:E; [by eexists|].
  apply all_present_None, list_elem_of_lookup_1 in E as [i Hi].
  destruct (lookup_lt_is_Some_2 (transaction_hashes (pp_request p)) i) as [h Hh].
  { rewrite <- Hl. by eapply lookup_lt_Some. }
  destruct (not_elem_of_nil h). rewrite <- Hm. apply list_elem_of_omap. exists (h, None). split; [|done].
  apply (list_elem_of_lookup_2 _ i), lookup_zip_with_Some. by exists h, None.
Qed.

Lemma fresh_pending_ok view hash request (local : B256 -> option pooled_tx) candidates :
  NoDup (transaction_hashes request) ->
  pending_ok (view, hash) (mkPending view hash request
    (map (fun h => match local h with
                   | Some t => if bool_decide (tx_hash t = h) then Some t else None
                   | None => None end) (transaction_hashes request)) candidates ∅ None).
Proof.
  intros Hn. constructor; cbn [pp_transactions pp_request pp_key pp_view pp_hash]; [done|apply length_map|done|].
  intros i t. rewrite list_lookup_fmap. destruct (transaction_hashes request !! i) as [h|]; [|done].
  intros [= Ht]. destruct (local h) as [t'|]; [|done]. case_bool_decide; [|done]. congruence.
Qed.

Lemma begin_ok s peer view hash request peers local now :
  txsync_ok s -> pending s !! (view, hash) = None -> N.of_nat (base.size (pending s)) + 1 < U64_MAX ->
  match begin_with_peers s peer view hash request peers local now with
  | Ok (s', a) => txsync_ok s' /\ action_exact a /\ (base.size (pending s') <= S (base.size (pending s)))%nat
  | Err e => e <> TxSyncPanic
  end.
Proof.
  intros [Hwf Hinc] Hfresh Hfew. unfold begin_with_peers, validate_proposal_hash_set.
  destruct (MAX_PROPOSAL_TRANSACTIONS <? lenN (transaction_hashes request)); [done|].
  destruct (unique_hashes ∅ (transaction_hashes request)) as [[]|e] eqn:Eu; cbn [result_bind];
    [|by eapply unique_hashes_panic].
  apply unique_hashes_NoDup in Eu as [Hn _].
  assert (Hp := fresh_pending_ok view hash request local (prefer peer (dedup_peers peers)) Hn).
  set (p := mkPending _ _ _ _ _ _ _) in *. change (pending s !! pp_key p = None) in Hfresh.
  unfold finish_or_request.
  destruct (missing_hashes p) as [|m l] eqn:Em.
  - destruct (all_present_missing p) as [txs Htxs]; [apply Hp|done|]. rewrite Htxs.
    split_and!; [done|exact (ready_exact _ p txs Hp Htxs)|lia].
  - destruct (good_next (set_pending s (<[pp_key p := p]> (pending s))) (pp_key p) false now)
      as (s' & a & -> & (Hok & Ha & Hsz) & _).
    + apply wf_put_idle; [done| |done|done]. intros q Hq. congruence.
    + intros k Hk q. cbn [set_pending pending]. rewrite lookup_insert_ne by done. apply Hinc.
    + intros q. cbn [set_pending pending]. rewrite lookup_insert_eq. by intros [= <-].
    + unfold few. cbn [set_pending pending]. rewrite map_size_insert, Hfresh. lia.
    + done.
    + inversion_clear Ha. cbn [ok_or]. split_and!; [done|done|].
      cbn [set_pending pending] in Hsz. by rewrite map_size_insert, Hfresh in Hsz.
Qed.

Lemma foldl_insert_elem (l : list (B256 * nat)) (m : gmap B256 nat) h i :
  foldl (fun m '(h, i) => <[h := i]> m) m l !! h = Some i -> (h, i) ∈ l \/ m !! h = Some i.
Proof.
  revert m. induction l as [|[h' i'] l IH]; intros m H; [by right|]. simpl in H.
  apply IH in H as [H|H]; [left; by right|].
  apply lookup_insert_Some in H as [[-> ->]|[_ H]]; [left; by left|by right].
Qed.

Lemma missing_map_located p h i :
  missing_map p !! h = Some i -> transaction_hashes (pp_request p) !! i = Some h.
Proof.
  intros [H|H]%foldl_insert_elem; [|by apply lookup_empty_Some in H].
  apply list_elem_of_omap in H as ([j [h' [t|]]] & Hin & E); [done|]. injection E as -> ->.
  apply list_elem_of_lookup_1 in Hin as [k Hk]. rewrite list_lookup_imap in Hk.
  destruct (zip _ _ !! k) as [[a b]|] eqn:Ez; [|done]. simpl in Hk. simplify_eq.
  apply lookup_zip_with_Some in Ez as (x & y & E & Hx & _). by simplify_eq.
Qed.

Lemma collect_updates_Ok missing supplied txs updates :
  collect_updates missing supplied txs = Ok updates ->
  Forall (fun '(i, t) => missing !! tx_hash t = Some i) updates.
Proof.
  revert supplied updates. induction txs as [|t txs IH]; intros supplied updates H; simpl in H.
  - injection H as <-. constructor.
  - destruct (missing !! tx_hash t) as [i|] eqn:E; [|done]. case_bool_decide; [done|].
    apply result_bind_Ok in H as (us & Hu & [= <-]). constructor; [done|by eapply IH].
Qed.

Lemma collect_updates_panic missing supplied txs e :
  collect_updates missing supplied txs = Err e -> e <> TxSyncPanic.
Proof.
  revert supplied e. induction txs as [|t txs IH]; intros supplied e H; simpl in H; [done|].
  destruct (missing !! tx_hash t); [|by injection H as <-]. case_bool_decide; [by injection H as <-|].
  destruct (collect_updates _ _ txs) eqn:E; simpl in H; [done|]. injection H as <-. by eapply IH.
Qed.

Lemma updates_pending_ok key p updates :
  pending_ok key p -> Forall (fun '(i, t) => missing_map p !! tx_hash t = Some i) updates ->
  pending_ok key (set_transactions p (foldl (fun l '(i, t) => <[i := Some t]> l) (pp_transactions p) updates)).
Proof.
  intros [H1 H2 H3 H4] Hu.
  assert (Hl : forall l, length l = length (transaction_hashes (pp_request p)) ->
    (forall i t, l !! i = Some (Some t) -> transaction_hashes (pp_request p) !! i = Some (tx_hash t)) ->
    length (foldl (fun l '(i, t) => <[i := Some t]> l) l updates) = length (transaction_hashes (pp_request p)) /\
    forall i t, foldl (fun l '(i, t) => <[i := Some t]> l) l updates !! i = Some (Some t) ->
      transaction_hashes (pp_request p) !! i = Some (tx_hash t)).
  { induction Hu as [|[i t] us Hi _ IH]; intros l Hlen Hloc; [done|]. apply IH.
    - by rewrite length_insert.
    - intros j t' Hj. apply list_lookup_insert_Some in Hj as [(<- & [= <-] & _)|[_ Hj]]; [|by apply Hloc].
      by apply missing_map_located. }
  destruct (Hl (pp_transactions p) H2 H4) as [Hlen Hloc]. by constructor.
Qed.

Lemma supply_ok s peer id txs now :
  txsync_ok s -> few s ->
  match supply s peer id txs now with Ok (s', a) => good s s' [a] | Err e => e <> TxSyncPanic end.
Proof.
  intros [Hwf Hinc] Hfew. unfold supply.
  destruct (requests s !! id) as [key|] eqn:Eid; cbn [ok_or result_bind]; [|done].
  destruct (wf_requests s Hwf _ _ Eid) as (p & a & Ep & Ea & Hida). rewrite Ep. cbn [ok_or result_bind].
  rewrite Ea. cbn [ok_or result_bind]. case_bool_decide; [done|].
  destruct (collect_updates (missing_map p) ∅ txs) as [us|e] eqn:Eu; cbn [result_bind];
    [|by eapply collect_updates_panic].
  case_bool_decide; [done|]. apply collect_updates_Ok in Eu.
  set (q := set_transactions _ _). pose proof (wf_release s id key p Hwf Eid Ep) as Hrel.
  assert (Hq : pending_ok key q).
  { apply (updates_pending_ok key (set_active p None)); [|done]. destruct (wf_pending s Hwf _ _ Ep). by constructor. }
  assert (Hsz : base.size (<[key := q]> (pending s)) = base.size (pending s)) by by rewrite map_size_insert, Ep.
  assert (Hput : txsync_wf (mkTxSync (next_request_id s) (<[key := q]> (pending s)) (delete id (requests s)))).
  { pose proof (wf_put_idle _ key q Hrel) as Hx. unfold set_pending in Hx. cbn [pending requests next_request_id] in Hx.
    rewrite insert_insert_eq in Hx. apply Hx; [|done|done]. intros x. cbn [pending].
    rewrite lookup_insert_eq. by intros [= <-]. }
  destruct (good_next _ key false now Hput) as (s' & act & -> & (Hok & Ha & Hs) & _).
  - intros k Hk x. cbn [pending]. rewrite lookup_insert_ne by done. apply Hinc.
  - intros x. cbn [pending]. rewrite lookup_insert_eq. by intros [= <-].
  - unfold few in *. cbn [pending]. by rewrite Hsz.
  - done.
  - cbn [ok_or]. split_and!; [done|done|]. cbn [pending] in Hs. by rewrite Hsz in Hs.
Qed.

Lemma retry_ok s id now :
  txsync_ok s -> few s ->
  exists s' o, retry_request s id false now = Some (s', o) /\ good s s' (option_list o).
Proof.
  intros [Hwf Hinc] Hfew. unfold retry_request.
  destruct (requests s !! id) as [key|] eqn:Eid; [|exists s, None; split; [done|split_and!; [done|constructor|done]]].
  destruct (wf_requests s Hwf _ _ Eid) as (p & a & Ep & Ea & Hida). cbn [set_requests pending].
  rewrite Ep, Ea, Hida, N.eqb_refl. unfold set_pending. cbn [set_requests pending requests next_request_id].
  assert (Hsz : base.size (<[key := set_active p None]> (pending s)) = base.size (pending s))
    by by rewrite map_size_insert, Ep.
  destruct (good_next _ key false now (wf_release s id key p Hwf Eid Ep))
    as (s' & act & -> & (Hok & Ha & Hs) & _).
  - intros k Hk x. cbn [pending]. rewrite lookup_insert_ne by done. apply Hinc.
  - intros x. cbn [pending]. rewrite lookup_insert_eq. by intros [= <-].
  - unfold few in *. cbn [pending]. by rewrite Hsz.
  - done.
  - exists s', (Some act). split; [done|]. split_and!; [done|done|]. cbn [pending] in Hs. by rewrite Hsz in Hs.
Qed.

Lemma good_app s s' s'' l k : good s s' l -> good s' s'' k -> good s s'' (l ++ k).
Proof. intros (H1 & H2 & H3) (H4 & H5 & H6). split_and!; [done|by apply Forall_app|lia]. Qed.

Lemma few_good s s' l : few s -> good s s' l -> few s'.
Proof. unfold few. intros Hf (_ & _ & Hs). lia. Qed.

Lemma retry_requests_ok s ids now :
  txsync_ok s -> few s -> exists s' l, retry_requests s ids now = Some (s', l) /\ good s s' l.
Proof.
  revert s. induction ids as [|id ids IH]; intros s Hok Hfew; cbn [retry_requests].
  - exists s, []. split; [done|]. split_and!; [done|constructor|done].
  - destruct (retry_ok s id now Hok Hfew) as (s1 & o & -> & Hg). cbn [mbind option_bind].
    destruct (IH s1) as (s2 & l & -> & Hg2); [apply Hg|by eapply few_good|]. cbn [mbind option_bind].
    exists s2. eexists. split; [reflexivity|]. pose proof (good_app _ _ _ _ _ Hg Hg2) as Hall.
    by destruct o.
Qed.

(** Changes of the candidates keep the correlation. *)
Lemma map_pending_ok (f : PendingProposalTransactions -> PendingProposalTransactions) s :
  (forall key p, pending_ok key p -> pending_ok key (f p)) ->
  (forall p, pp_active (f p) = pp_active p) -> (forall p, pp_transactions (f p) = pp_transactions p) ->
  txsync_ok s -> txsync_ok (set_pending s (f <$> pending s)).
Proof.
  intros Hf Ha Ht [[H1 H2 H3 H4] Hinc].
  assert (Hl : forall k q, (f <$> pending s) !! k = Some q -> exists p, pending s !! k = Some p /\ q = f p).
  { intros k q. rewrite lookup_fmap_Some. intros (p & <- & Hp). by exists p. }
  split; [split|]; cbn [set_pending pending requests next_request_id]; try done.
  - intros k q (p & Hp & ->)%Hl. by apply Hf, H1.
  - intros k q a (p & Hp & ->)%Hl. rewrite Ha. by apply H2.
  - intros id k Hid. destruct (H3 _ _ Hid) as (p & a & Hp & Hpa & Ea). exists (f p), a.
    rewrite lookup_fmap, Hp, Ha. done.
  - intros k q (p & Hp & ->)%Hl. rewrite Ht. by apply (Hinc k).
Qed.

Lemma add_candidate_ok p peer :
  (forall key, pending_ok key p -> pending_ok key (add_candidate p peer)) /\
  pp_active (add_candidate p peer) = pp_active p /\ pp_transactions (add_candidate p peer) = pp_transactions p.
Proof. unfold add_candidate. case_bool_decide; [done|]. split_and!; try done. intros key []. by constructor. Qed.

Lemma next_actions_ok s keys retry now :
  txsync_ok s -> few s -> NoDup keys -> (forall k, k ∈ keys -> idle_at s k /\ is_Some (pending s !! k)) ->
  exists s' l, next_actions s keys retry now = Some (s', l) /\ good s s' l.
Proof.
  revert s. induction keys as [|key keys IH]; intros s Hok Hfew Hn Hidle; cbn [next_actions].
  - exists s, []. split; [done|]. split_and!; [done|constructor|done].
  - apply NoDup_cons in Hn as [Hnew Hn]. destruct (Hidle key) as [Hi Hs]; [by left|].
    destruct (good_next s key retry now) as (s1 & a & -> & Hg & Hk); try done; [apply Hok|intros k _; apply Hok|].
    cbn [mbind option_bind]. destruct (IH s1) as (s2 & l & -> & Hg2);
      [apply Hg|by eapply few_good|done| |].
    + intros k Hin. assert (Hne : k <> key) by (intros ->; done).
      unfold idle_at. rewrite (Hk k Hne). apply Hidle. by right.
    + cbn [mbind option_bind]. exists s2, (a :: l). split; [done|]. exact (good_app _ _ _ _ _ Hg Hg2).
Qed.

Lemma add_peer_ok s order peer now :
  txsync_ok s -> few s -> NoDup order -> (forall k, k ∈ order -> is_Some (pending s !! k)) ->
  exists s' l, add_peer s order peer now = Some (s', l) /\ good s s' l.
Proof.
  intros Hok Hfew Hn Hin. unfold add_peer. set (s1 := set_pending s _).
  assert (Hok1 : txsync_ok s1).
  { apply (map_pending_ok (fun p => add_candidate p peer)); try done; intros; by apply add_candidate_ok. }
  assert (Hsz : base.size (pending s1) = base.size (pending s)) by apply map_size_fmap.
  destruct (next_actions_ok s1 (filter (idle s1) order) false now) as (s2 & l & -> & Hok2 & Ha & Hs);
    [done|unfold few; by rewrite Hsz|by apply NoDup_filter| |].
  - intros k [Hi Hk]%list_elem_of_filter. split.
    + intros p Hp. unfold idle in Hi. rewrite Hp in Hi. done.
    + destruct (Hin k Hk) as [p Hp]. unfold s1. cbn [set_pending pending]. rewrite lookup_fmap, Hp. by eexists.
  - exists s2, l. split; [done|]. split_and!; [done|done|by rewrite Hsz in Hs].
Qed.

Lemma remove_peer_ok s order peer now :
  txsync_ok s -> few s -> exists s' l, remove_peer s order peer now = Some (s', l) /\ good s s' l.
Proof.
  intros Hok Hfew. unfold remove_peer. set (s1 := set_pending s _).
  assert (Hok1 : txsync_ok s1).
  { apply (map_pending_ok (drop_candidate peer)); try done. intros key p []. by constructor. }
  assert (Hsz : base.size (pending s1) = base.size (pending s)) by apply map_size_fmap.
  destruct (retry_requests_ok s1 (omap (assigned_to s peer) order) now) as (s2 & l & -> & Hok2 & Ha & Hs);
    [done|unfold few; by rewrite Hsz|].
  exists s2, l. split; [done|]. split_and!; [done|done|by rewrite Hsz in Hs].
Qed.

Lemma add_source_ok s peer view hash now :
  txsync_ok s -> few s ->
  exists s' o, add_source s peer view hash now = Some (s', o) /\ good s s' (option_list o).
Proof.
  intros [Hwf Hinc] Hfew. unfold add_source. set (key := (view, hash) : ProposalKey). cbv zeta.
  destruct (pending s !! key) as [p|] eqn:Ep;
    [|exists s, None; split; [done|split_and!; [done|constructor|done]]].
  destruct (add_candidate_ok p peer) as (Hq & Ha & Ht). set (q := add_candidate p peer) in *.
  specialize (Hq _ (wf_pending s Hwf _ _ Ep)).
  assert (Hsz : base.size (<[key := q]> (pending s)) = base.size (pending s))
    by by rewrite map_size_insert, Ep.
  rewrite Ha. destruct (pp_active p) as [a|] eqn:Ea.
  - exists (set_pending s (<[key := q]> (pending s))), None. split; [done|].
    split_and!; [|constructor|cbn [set_pending pending]; by rewrite Hsz].
    pose proof Hwf as [H1 H2 H3 H4]. split; [split|]; cbn [set_pending pending requests next_request_id]; try done.
    + intros k x. rewrite lookup_insert_Some. intros [[<- <-]|[_ Hx]]; [done|by apply H1].
    + intros k x b. rewrite lookup_insert_Some. intros [[<- <-]|[_ Hx]] Hb; [|by eapply H2].
      eapply H2; [done|congruence].
    + intros id k Hid. destruct (H3 _ _ Hid) as (x & b & Hx & Hb & Eb).
      destruct (decide (k = key)) as [->|Hne].
      * exists q, b. rewrite lookup_insert_eq. split_and!; try done. congruence.
      * exists x, b. by rewrite lookup_insert_ne.
    + apply insert_incomplete; [intros; apply Hinc|]. rewrite Ht. by apply (Hinc key).
  - destruct (good_next (set_pending s (<[key := q]> (pending s))) key false now)
      as (s1 & act & -> & (Hok & Hact & Hs) & _).
    + apply wf_put_idle; [done| |done|congruence]. intros x Hx. congruence.
    + intros k Hk x. cbn [set_pending pending]. rewrite lookup_insert_ne by done. apply Hinc.
    + intros x. cbn [set_pending pending]. rewrite lookup_insert_eq. intros [= <-]. congruence.
    + unfold few in *. cbn [set_pending pending]. by rewrite Hsz.
    + done.
    + exists s1, (Some act). split; [done|]. split_and!; [done|done|].
      cbn [set_pending pending] in Hs. by rewrite Hsz in Hs.
Qed.

Definition expirable (s : ProposalTransactionSync) (e : ProposalKey * option N) : Prop :=
  exists p, pending s !! e.1 = Some p /\ request_id <$> pp_active p = e.2.

Lemma expire_each_ok s l now :
  txsync_ok s -> few s -> NoDup l.*1 -> Forall (expirable s) l ->
  exists s' acts, expire_each s l now = Some (s', acts) /\ good s s' acts.
Proof.
  revert s. induction l as [|[key o] l IH]; intros s Hok Hfew Hn Hl; cbn [expire_each].
  - exists s, []. split; [done|]. split_and!; [done|constructor|done].
  - apply NoDup_cons in Hn as [Hnew Hn]. inversion_clear Hl as [|? ? (p & Hp & Ho) Hrest]. cbn [fst snd] in Hp, Ho.
    set (s1 := match o with
      | None => s
      | Some id => mkTxSync (next_request_id s) (<[key := set_active p None]> (pending s)) (delete id (requests s))
      end).
    assert (Hstep : match o with None => Some s | Some id => p ← pending s !! key;
      Some (mkTxSync (next_request_id s) (<[key := set_active p None]> (pending s)) (delete id (requests s))) end = Some s1).
    { unfold s1. destruct o; [|done]. by rewrite Hp. }
    rewrite Hstep. cbn [mbind option_bind].
    assert (Hs1 : txsync_wf s1 /\ (forall k, k <> key -> pending s1 !! k = pending s !! k) /\ idle_at s1 key /\
      is_Some (pending s1 !! key) /\ base.size (pending s1) = base.size (pending s)).
    { unfold s1. destruct o as [id|].
      - destruct (pp_active p) as [a|] eqn:Ea; [|done]. injection Ho as <-. split_and!.
        + apply wf_release; [apply Hok|exact (wf_active s (ok_wf s Hok) key p a Hp Ea)|done].
        + intros k Hk. cbn [pending]. by apply lookup_insert_ne.
        + intros q. cbn [pending]. rewrite lookup_insert_eq. by intros [= <-].
        + cbn [pending]. rewrite lookup_insert_eq. by eexists.
        + cbn [pending]. by rewrite map_size_insert, Hp.
      - split_and!; [apply Hok|done| |by eexists|done]. intros q Hq. rewrite Hp in Hq. injection Hq as <-.
        by destruct (pp_active p). }
    destruct Hs1 as (Hwf1 & Hk1 & Hi1 & Hin1 & Hsz1).
    destruct (good_next s1 key true now) as (s2 & a & -> & Hg & Hk2); try done.
    { intros k Hk q. rewrite Hk1 by done. apply Hok. } { unfold few. by rewrite Hsz1. }
    cbn [mbind option_bind].
    assert (Hg' : good s s2 [a]) by (destruct Hg as (? & ? & ?); split_and!; [done|done|lia]).
    destruct (IH s2) as (s3 & acts & -> & Hg3); [apply Hg|by eapply few_good|done| |].
    + apply Forall_forall. intros [k o'] Hin. rewrite Forall_forall in Hrest.
      assert (Hne : k <> key). { intros ->. apply Hnew. apply list_elem_of_fmap. by exists (key, o'). }
      destruct (Hrest _ Hin) as (q & Hq & Hqo). exists q. cbn [fst] in *. split; [|done].
      rewrite Hk2, Hk1 by done. done.
    + cbn [mbind option_bind]. exists s3, (a :: acts). split; [done|]. exact (good_app _ _ _ _ _ Hg' Hg3).
Qed.

Lemma expire_ok s order now :
  txsync_ok s -> few s -> NoDup order ->
  exists s' l, expire_requests_at s order now = Some (s', l) /\ good s s' l.
Proof.
  intros Hok Hfew Hn. apply expire_each_ok; try done.
  - induction order as [|k order IH]; [constructor|]. apply NoDup_cons in Hn as [Hk Hn].
    assert (Hsub : forall l x, x ∈ (omap (expired s now) l).*1 -> x ∈ l).
    { intros l x ([y o] & -> & (z & Hz & Ez)%list_elem_of_omap)%list_elem_of_fmap.
      unfold expired in Ez. repeat case_match; by simplify_eq. }
    simpl. destruct (expired s now k) as [[k' o]|] eqn:E; [|by apply IH]. simpl.
    assert (k' = k) as -> by (unfold expired in E; repeat case_match; by simplify_eq).
    constructor; [|by apply IH]. intros Hin. by apply Hk, Hsub.
  - apply Forall_forall. intros [k o] (z & _ & E)%list_elem_of_omap. unfold expired in E.
    destruct (pending s !! z) as [p|] eqn:Ep; [|done]. exists p.
    destruct (pp_active p) as [a|] eqn:Ea.
    + case_match; [|done]. injection E as <- <-. done.
    + injection E as <- <-. done.
Qed.

(** Any use of the recovery: a proposal is begun once while pending; responses, peers and
    the clock are arbitrary, maps iterate in any order. *)
Inductive txsync_step : ProposalTransactionSync -> ProposalTransactionSync -> list ProposalTransactionAction -> Prop :=
| step_begin s peer view hash request peers local now s' a :
    pending s !! (view, hash) = None ->
    begin_with_peers s peer view hash request peers local now = Ok (s', a) -> txsync_step s s' [a]
| step_supply s peer id txs now s' a :
    supply s peer id txs now = Ok (s', a) -> txsync_step s s' [a]
| step_source s peer view hash now s' o :
    add_source s peer view hash now = Some (s', o) -> txsync_step s s' (option_list o)
| step_add_peer s order peer now s' l :
    order ≡ₚ (map_to_list (pending s)).*1 -> add_peer s order peer now = Some (s', l) -> txsync_step s s' l
| step_remove_peer s order peer now s' l :
    remove_peer s order peer now = Some (s', l) -> txsync_step s s' l
| step_retry s id now s' o :
    retry_request s id false now = Some (s', o) -> txsync_step s s' (option_list o)
| step_expire s order now s' l :
    order ≡ₚ (map_to_list (pending s)).*1 -> expire_requests_at s order now = Some (s', l) -> txsync_step s s' l
| step_clear s : txsync_step s (txsync_clear s) [].

Inductive txsync_reachable : ProposalTransactionSync -> Prop :=
| txsync_start : txsync_reachable txsync_default
| txsync_more s s' l :
    txsync_reachable s -> N.of_nat (base.size (pending s)) + 1 < U64_MAX ->
    txsync_step s s' l -> txsync_reachable s'.

Lemma order_keys s order :
  order ≡ₚ (map_to_list (pending s)).*1 -> NoDup order /\ forall k, k ∈ order -> is_Some (pending s !! k).
Proof.
  intros Hp. split; [rewrite Hp; apply NoDup_fst_map_to_list|]. intros k.
  rewrite Hp. intros ([k' p] & -> & Hk%elem_of_map_to_list)%list_elem_of_fmap. by eexists.
Qed.

Lemma txsync_step_ok s s' l :
  txsync_ok s -> N.of_nat (base.size (pending s)) + 1 < U64_MAX -> txsync_step s s' l ->
  txsync_ok s' /\ Forall action_exact l.
Proof.
  intros Hok Hb Hs. assert (Hfew : few s) by (unfold few; lia).
  destruct Hs as [s peer view hash request peers local now s' a Hf E|s peer id txs now s' a E
    |s peer view hash now s' o E|s order peer now s' l Ho E|s order peer now s' l E|s id now s' o E
    |s order now s' l Ho E|s].
  - pose proof (begin_ok s peer view hash request peers local now Hok Hf Hb) as H. rewrite E in H.
    destruct H as (? & ? & _). split; [done|by constructor].
  - pose proof (supply_ok s peer id txs now Hok Hfew) as H. rewrite E in H. by destruct H as (? & ? & _).
  - destruct (add_source_ok s peer view hash now Hok Hfew) as (? & ? & E' & ? & ? & _). by simplify_eq.
  - destruct (order_keys s order Ho) as [Hn Hin].
    destruct (add_peer_ok s order peer now Hok Hfew Hn Hin) as (? & ? & E' & ? & ? & _). by simplify_eq.
  - destruct (remove_peer_ok s order peer now Hok Hfew) as (? & ? & E' & ? & ? & _). by simplify_eq.
  - destruct (retry_ok s id now Hok Hfew) as (? & ? & E' & ? & ? & _). by simplify_eq.
  - destruct (order_keys s order Ho) as [Hn _].
    destruct (expire_ok s order now Hok Hfew Hn) as (? & ? & E' & ? & ? & _). by simplify_eq.
  - split; [by apply txsync_clear_ok|constructor].
Qed.

Lemma txsync_reachable_ok s : txsync_reachable s -> txsync_ok s.
Proof.
  induction 1 as [|s s' l _ IH Hb Hs]; [apply txsync_default_ok|]. by eapply txsync_step_ok.
Qed.


(** Transaction recovery never panics: in every reachable state each operation returns,
    the correlated-request [expect]s hold whatever request identifier a peer answers, and
    the search for a free identifier ends. *)
Theorem txsync_never_panics s peer id txs view hash request peers local order now :
  txsync_reachable s -> N.of_nat (base.size (pending s)) + 1 < U64_MAX ->
  order ≡ₚ (map_to_list (pending s)).*1 ->
  supply s peer id txs now <> Err TxSyncPanic /\
  (pending s !! (view, hash) = None ->
     begin_with_peers s peer view hash request peers local now <> Err TxSyncPanic) /\
  is_Some (add_source s peer view hash now) /\ is_Some (add_peer s order peer now) /\
  is_Some (remove_peer s order peer now) /\ is_Some (retry_request s id false now) /\
  is_Some (expire_requests_at s order now).
Proof.
  intros Hok%txsync_reachable_ok Hb Ho. assert (Hfew : few s) by (unfold few; lia).
  destruct (order_keys s order Ho) as [Hn Hin]. split_and!.
  - intros E. pose proof (supply_ok s peer id txs now Hok Hfew) as H. by rewrite E in H.
  - intros Hf E. pose proof (begin_ok s peer view hash request peers local now Hok Hf Hb) as H. by rewrite E in H.
  - destruct (add_source_ok s peer view hash now Hok Hfew) as (? & ? & -> & _). by eexists.
  - destruct (add_peer_ok s order peer now Hok Hfew Hn Hin) as (? & ? & -> & _). by eexists.
  - destruct (remove_peer_ok s order peer now Hok Hfew) as (? & ? & -> & _). by eexists.
  - destruct (retry_ok s id now Hok Hfew) as (? & ? & -> & _). by eexists.
  - destruct (expire_ok s order now Hok Hfew Hn) as (? & ? & -> & _). by eexists.
Qed.
End operations.

(** ** Failover *)

Section failover.
Context {T : PooledTransactions}.

(** Candidates of a proposal not asked in this cycle. *)
Definition untried (p : PendingProposalTransactions) : nat :=
  length (filter (fun c => c ∉ pp_attempted p) (pp_candidates p)).
Definition untried_for (s : ProposalTransactionSync) (a : ProposalTransactionAction) : nat :=
  match a with
  | ActionRequest _ id _ =>
      match requests s !! id ≫= (pending s !!.) with Some p => untried p | None => O end
  | _ => O
  end.

Lemma untried_less p peer :
  peer ∈ pp_candidates p -> peer ∉ pp_attempted p ->
  forall a, (untried (set_active (set_candidates p (pp_candidates p) ({[peer]} ∪ pp_attempted p)) a) < untried p)%nat.
Proof.
  intros Hin Hnot a. unfold untried. cbn [set_active set_candidates pp_attempted pp_candidates].
  revert Hin. generalize (pp_candidates p). intros l Hin.
  assert (Hle : forall l : list PeerId, (length (filter (fun c => c ∉ {[peer]} ∪ pp_attempted p) l)
    <= length (filter (fun c => c ∉ pp_attempted p) l))%nat).
  { induction l0 as [|c l0 IH]; [done|]. rewrite !filter_cons. repeat case_decide; simpl; set_solver by lia. }
  induction l as [|c l IH]; [by apply not_elem_of_nil in Hin|]. rewrite !filter_cons.
  destruct (decide (c = peer)) as [->|Hne].
  - rewrite decide_False, decide_True by set_solver. simpl. specialize (Hle l). lia.
  - apply elem_of_cons in Hin as [->|Hin]; [done|]. specialize (IH Hin).
    repeat case_decide; simpl; first [lia|set_solver].
Qed.

Lemma find_candidate_Some p c : find_candidate p = Some c -> c ∈ pp_candidates p /\ c ∉ pp_attempted p.
Proof.
  unfold find_candidate. intros H%head_Some_elem_of. apply list_elem_of_filter in H. tauto.
Qed.

(** A request that fails over goes to a peer not tried yet. *)
Lemma next_action_untried s key now s' a p :
  pending s !! key = Some p -> next_action s key false now = Some (s', a) ->
  match a with ActionRequest _ _ _ => (untried_for s' a < untried p)%nat | _ => True end.
Proof.
  intros Hp. unfold next_action. rewrite Hp.
  destruct (all_present (pp_transactions p)); [by intros [= <- <-]|].
  destruct (find_candidate p) as [c|] eqn:Ec; [|by intros [= <- <-]].
  unfold allocate_request_id. cbn [set_pending requests next_request_id pending].
  destruct (allocate_loop _ _ _) as [id|]; [|done]. cbn [mbind option_bind pending requests next_request_id].
  intros [= <- <-]. unfold untried_for. cbn [requests pending]. rewrite lookup_insert_eq. cbn [mbind option_bind].
  rewrite insert_insert_eq, lookup_insert_eq. apply find_candidate_Some in Ec as [H1 H2]. by apply untried_less.
Qed.

Lemma retry_untried s id now s' a :
  txsync_ok s -> retry_request s id false now = Some (s', Some a) ->
  match a with
  | ActionRequest _ _ _ =>
      exists key p, requests s !! id = Some key /\ pending s !! key = Some p /\ (untried_for s' a < untried p)%nat
  | _ => True
  end.
Proof.
  intros [Hwf _]. unfold retry_request. destruct (requests s !! id) as [key|] eqn:Eid; [|done].
  destruct (wf_requests s Hwf _ _ Eid) as (p & act & Hp & Ha & Hida). cbn [set_requests pending].
  rewrite Hp, Ha, Hida, N.eqb_refl. set (s1 := set_pending _ _).
  destruct (next_action s1 key false now) as [[s2 b]|] eqn:En; [|done]. cbn [mbind option_bind].
  intros [= <- <-]. apply (next_action_untried s1 key now s2 b (set_active p None)) in En.
  - destruct b; [|done|done]. exists key, p. done.
  - unfold s1. cbn [set_pending pending]. apply lookup_insert_eq.
Qed.
End failover.

(** ** Concrete inputs *)

Module TxSyncWitness.
(** A transaction is its hash. *)
#[local] Instance plain_transactions : PooledTransactions := {|
  pooled_tx := B256; signed_tx := B256; blob_sidecar := unit;
  tx_hash t := t; into_signed t := t; eip4844_sidecar _ := None |}.

Definition hash (b : byte) : B256 := repeat b 32.
Definition local_pool : B256 -> option pooled_tx :=
  fun h : B256 => if bool_decide (h = hash x01) then Some h else None.
Definition second : pooled_tx := hash x02.
Definition request : DbftPrepareRequest :=
  mkDbftPrepareRequest (model_header 9 0 2 ZERO_B256 []) [hash x01; hash x02] None None.

(** The pool has the first transaction; the second is asked of peer 7. *)
Definition begun : ProposalTransactionSync :=
  match begin_with_peers txsync_default [x07] 0 (hash xaa) request [[x08]; [x07]]
          local_pool 0 with
  | Ok (s, _) => s
  | Err _ => txsync_default
  end.
Definition answered : result TxSyncError (ProposalTransactionSync * ProposalTransactionAction) :=
  supply begun [x07] 1 [second] 0.

Lemma begun_reachable : txsync_reachable begun.
Proof.
  apply (txsync_more txsync_default begun [ActionRequest [x07] 1 [hash x02]]); [constructor|by vm_compute|].
  apply (step_begin txsync_default [x07] 0 (hash xaa) request [[x08]; [x07]]
    local_pool 0); [done|].
  vm_compute. reflexivity.
Qed.


Lemma txsync_never_panics_witness : supply begun [x08] 1 [second] 0 <> Err TxSyncPanic.
Proof.
  apply (txsync_never_panics begun [x08] 1 [second] 0 (hash xaa) request [] (fun _ => None)
    ((map_to_list (pending begun)).*1) 0 begun_reachable); [by vm_compute|done].
Defined.
End TxSyncWitness.
