(* ===== verification/ProposalRecovery.v ===== *)
(** Scheduling of proposal recovery and verification
    (crates/neox/node/src/sync/proposal_recovery.rs) and of Anti-MEV reconstruction
    (crates/neox/node/src/sync/anti_mev.rs). *)

From S2P Require Import Prelude Extern Instances Extra Validation Tpke Wire Payload Recovery Cache.
From S2P Require Import DkgParams Storage Round AntiMev TxSync.

Section recovery.
Context {R : AlloyRlp} {C : Crypto} {T : PooledTransactions}.

(** What the driver starts outside itself: a beacon request, a verification task. *)
Inductive RecoveryTask : Type :=
| TaskGetTransactions (peer_id : PeerId) (request_id : N) (hashes : list B256)
| TaskVerifyProposal (view : N) (proposal_hash : B256) (request : DbftPrepareRequest)
    (transactions : list signed_tx) (sidecars : list blob_sidecar) (expected_primary : N).

Record ProposalRecovery : Type := mkProposalRecovery {
  transactions : ProposalTransactionSync;
  beacon_peers : gset PeerId;
}.
Definition recovery_channel : ProposalRecovery := mkProposalRecovery txsync_default ∅.

Definition set_sync (r : ProposalRecovery) (t : ProposalTransactionSync) : ProposalRecovery :=
  mkProposalRecovery t (beacon_peers r).
Definition recovery_clear (r : ProposalRecovery) : ProposalRecovery :=
  set_sync r (txsync_clear (transactions r)).
Definition recovery_is_waiting_for (r : ProposalRecovery) (view : N) (proposal_hash : B256) : bool :=
  is_waiting_for (transactions r) view proposal_hash.

(** The round still proposes [proposal_hash] in its current view. *)
Definition proposal_current (round : DbftRoundState) (view : N) (proposal_hash : B256) : bool :=
  (current_view round =? view) &&
  bool_decide (message_hash <$> round_proposal round view = Some proposal_hash).

(** [send] tells whether the beacon protocol has a live connection to take a request;
    [None] is a panic. One turn per candidate peer. *)
Fixpoint dispatch (fuel : nat) (send : PeerId -> N -> bool) (r : ProposalRecovery)
    (action : ProposalTransactionAction) (round : DbftRoundState) (now : N)
    : option (ProposalRecovery * list RecoveryTask) :=
  match fuel with
  | O => None
  | S fuel =>
      match action with
      | ActionRequest peer_id id hashes =>
          if send peer_id id then Some (r, [TaskGetTransactions peer_id id hashes])
          else
            '(t, next) ← retry_request (transactions r) id false now;
            match next with
            | Some action => dispatch fuel send (set_sync r t) action round now
            | None => Some (set_sync r t, [])
            end
      | ActionReady view proposal_hash request txs sidecars =>
          if negb (proposal_current round view proposal_hash) then Some (r, [])
          else
            let primary := primary_index round view in
            if primary <=? U8_MAX
            then Some (r, [TaskVerifyProposal view proposal_hash request txs sidecars primary])
            else Some (r, [])
      | ActionWaiting _ _ => Some (r, [])
      end
  end.

(** Enough turns for every candidate of the request. *)
Definition dispatch_all (send : PeerId -> N -> bool) (r : ProposalRecovery)
    (action : ProposalTransactionAction) (round : DbftRoundState) (now : N)
    : option (ProposalRecovery * list RecoveryTask) :=
  dispatch (S (S (untried_for (transactions r) action))) send r action round now.

Fixpoint dispatch_each (send : PeerId -> N -> bool) (r : ProposalRecovery)
    (actions : list ProposalTransactionAction) (round : DbftRoundState) (now : N)
    : option (ProposalRecovery * list RecoveryTask) :=
  match actions with
  | [] => Some (r, [])
  | a :: rest =>
      '(r, tasks) ← dispatch_all send r a round now;
      '(r, more) ← dispatch_each send r rest round now;
      Some (r, tasks ++ more)
  end.

Definition connect_peer (send : PeerId -> N -> bool) (r : ProposalRecovery) (order : list ProposalKey)
    (peer_id : PeerId) (v2 : bool) (round : option DbftRoundState) (now : N)
    : option (ProposalRecovery * list RecoveryTask) :=
  if negb v2 || bool_decide (peer_id ∈ beacon_peers r) then Some (r, [])
  else
    '(t, actions) ← add_peer (transactions r) order peer_id now;
    let r := mkProposalRecovery t ({[peer_id]} ∪ beacon_peers r) in
    match round with
    | Some round => dispatch_each send r actions round now
    | None => Some (r, [])
    end.

(** [peers] is the iteration order of [beacon_peers]; [local] the transaction pool. *)
Definition recovery_begin (send : PeerId -> N -> bool) (r : ProposalRecovery) (peers : list PeerId)
    (peer_id : PeerId) (view : N) (proposal_hash : B256) (request : DbftPrepareRequest)
    (round : DbftRoundState) (local : B256 -> option pooled_tx) (now : N)
    : result TxSyncError (ProposalRecovery * list RecoveryTask) :=
  let? (t, action) :=
    begin_with_peers (transactions r) peer_id view proposal_hash request peers local now in
  ok_or (dispatch_all send (set_sync r t) action round now) TxSyncPanic.

Definition recovery_supply (send : PeerId -> N -> bool) (r : ProposalRecovery) (peer_id : PeerId) (id : N)
    (txs : list pooled_tx) (round : option DbftRoundState) (now : N)
    : option (ProposalRecovery * list RecoveryTask) :=
  match supply (transactions r) peer_id id txs now, round with
  | Ok (t, action), Some round => dispatch_all send (set_sync r t) action round now
  | Ok (t, _), None => Some (recovery_clear (set_sync r t), [])
  | Err TxSyncPanic, _ => None
  | Err (UnknownTransactionResponse _), _ => Some (r, [])
  | Err (WrongTransactionPeer _ _ _), _ => Some (r, [])
  | Err _, Some round =>
      '(t, next) ← retry_request (transactions r) id false now;
      match next with
      | Some action => dispatch_all send (set_sync r t) action round now
      | None => Some (set_sync r t, [])
      end
  | Err _, None => Some (r, [])
  end.

Definition observe_source (send : PeerId -> N -> bool) (r : ProposalRecovery) (peer_id : PeerId) (view : N)
    (proposal_hash : B256) (round : DbftRoundState) (now : N)
    : option (ProposalRecovery * list RecoveryTask) :=
  if negb (bool_decide (peer_id ∈ beacon_peers r)) then Some (r, [])
  else
    '(t, next) ← add_source (transactions r) peer_id view proposal_hash now;
    match next with
    | Some action => dispatch_all send (set_sync r t) action round now
    | None => Some (set_sync r t, [])
    end.

Definition disconnect_peer (send : PeerId -> N -> bool) (r : ProposalRecovery) (order : list ProposalKey)
    (peer_id : PeerId) (round : option DbftRoundState) (now : N)
    : option (ProposalRecovery * list RecoveryTask) :=
  let r := mkProposalRecovery (transactions r) (beacon_peers r ∖ {[peer_id]}) in
  match round with
  | None => Some (recovery_clear r, [])
  | Some round =>
      '(t, actions) ← remove_peer (transactions r) order peer_id now;
      dispatch_each send (set_sync r t) actions round now
  end.

Definition recovery_expire_requests (send : PeerId -> N -> bool) (r : ProposalRecovery)
    (order : list ProposalKey) (round : option DbftRoundState) (now : N)
    : option (ProposalRecovery * list RecoveryTask) :=
  match round with
  | None => Some (recovery_clear r, [])
  | Some round =>
      '(t, actions) ← expire_requests_at (transactions r) order now;
      dispatch_each send (set_sync r t) actions round now
  end.

Definition verify_local (send : PeerId -> N -> bool) (r : ProposalRecovery) (round : DbftRoundState) (view : N)
    (proposal_hash : B256) (request : DbftPrepareRequest) (txs : list signed_tx) (sidecars : list blob_sidecar)
    (now : N) : option (ProposalRecovery * list RecoveryTask) :=
  dispatch_all send r (ActionReady view proposal_hash request txs sidecars) round now.
End recovery.

Section recovery_facts.
Context {R : AlloyRlp} {C : Crypto} {T : PooledTransactions}.

(** A verification task is for the proposal of the round's current view, with exactly the
    transactions it signs. *)
Definition task_ok (round : DbftRoundState) (t : RecoveryTask) : Prop :=
  match t with
  | TaskGetTransactions _ _ hashes => hashes <> []
  | TaskVerifyProposal view hash request txs sidecars primary =>
      current_view round = view /\ message_hash <$> round_proposal round view = Some hash /\
      primary = primary_index round view /\ primary <= U8_MAX /\
      exists pooled, map tx_hash pooled = transaction_hashes request /\
        txs = map into_signed pooled /\ sidecars = omap eip4844_sidecar pooled
  end.

Definition recovery_ok (r : ProposalRecovery) : Prop := txsync_ok (transactions r) /\ few (transactions r).

Definition dispatched (r : ProposalRecovery) (round : DbftRoundState)
    (o : option (ProposalRecovery * list RecoveryTask)) : Prop :=
  exists r' tasks, o = Some (r', tasks) /\ recovery_ok r' /\ Forall (task_ok round) tasks /\
    (base.size (pending (transactions r')) <= base.size (pending (transactions r)))%nat.

Lemma proposal_current_spec round view hash :
  proposal_current round view hash = true ->
  current_view round = view /\ message_hash <$> round_proposal round view = Some hash.
Proof. unfold proposal_current. rewrite andb_true_iff, N.eqb_eq, bool_decide_eq_true. done. Qed.

Lemma dispatched_at r r' round tasks :
  recovery_ok r' -> Forall (task_ok round) tasks ->
  (base.size (pending (transactions r')) <= base.size (pending (transactions r)))%nat ->
  dispatched r round (Some (r', tasks)).
Proof. intros H1 H2 H3. by exists r', tasks. Qed.

(** Turns the loop takes at most. *)
Definition turns (t : ProposalTransactionSync) (a : ProposalTransactionAction) : nat :=
  match a with ActionRequest _ _ _ => untried_for t a + 2 | _ => 1 end.

Lemma dispatch_ok fuel send r action round now :
  recovery_ok r -> action_exact action -> (turns (transactions r) action <= fuel)%nat ->
  dispatched r round (dispatch fuel send r action round now).
Proof.
  revert r action. induction fuel as [|fuel IH]; intros r action [Hok Hfew] Ha Hf;
    [destruct action; simpl in Hf; lia|]. cbn [dispatch].
  destruct action as [peer id hashes|view hash request txs sidecars|view hash].
  - destruct (send peer id).
    { apply dispatched_at; [done|constructor; [done|constructor]|done]. }
    destruct (retry_ok (transactions r) id now Hok Hfew) as (t & o & E & Hg). rewrite E. cbn [mbind option_bind].
    pose proof (few_good _ _ _ Hfew Hg) as Hfew'. destruct Hg as (Hok' & Hex & Hsz).
    destruct o as [action|]; [|apply dispatched_at; [done|constructor|done]].
    assert (Hu := retry_untried _ _ _ _ _ Hok E).
    destruct (IH (set_sync r t) action) as (r' & tasks & Hd & H1 & H2 & H3);
      [done|by inversion Hex| |].
    + unfold turns in Hf |- *. destruct action as [p' id' h'|? ? ? ? ?|? ?]; [|lia|lia].
      destruct Hu as (key & p & Hk & Hp & Hlt). cbn [set_sync transactions].
      unfold untried_for at 1 in Hf. rewrite Hk in Hf. cbn [mbind option_bind] in Hf. rewrite Hp in Hf. lia.
    + rewrite Hd. apply dispatched_at; [done|done|]. cbn [set_sync transactions] in H3. lia.
  - destruct (proposal_current round view hash) eqn:Ec; cbn [negb];
      [|apply dispatched_at; [done|constructor|done]].
    destruct (N.leb_spec (primary_index round view) U8_MAX);
      (apply dispatched_at; [done| |done]); [|constructor].
    constructor; [|constructor]. apply proposal_current_spec in Ec as [? ?]. by split_and!.
  - apply dispatched_at; [done|constructor|done].
Qed.

Lemma dispatch_all_ok send r action round now :
  recovery_ok r -> action_exact action -> dispatched r round (dispatch_all send r action round now).
Proof. intros Hr Ha. apply dispatch_ok; [done|done|]. destruct action; simpl; lia. Qed.

Lemma dispatch_each_ok send r actions round now :
  recovery_ok r -> Forall action_exact actions -> dispatched r round (dispatch_each send r actions round now).
Proof.
  intros Hr Ha. revert r Hr. induction Ha as [|a actions Ha _ IH]; intros r Hr; cbn [dispatch_each].
  - by apply dispatched_at; [|constructor|].
  - destruct (dispatch_all_ok send r a round now Hr Ha) as (r1 & tasks & -> & H1 & H2 & H3).
    cbn [mbind option_bind]. destruct (IH r1 H1) as (r2 & more & -> & H4 & H5 & H6). cbn [mbind option_bind].
    apply dispatched_at; [done|by apply Forall_app|lia].
Qed.

Lemma dispatched_le r r' round o :
  (base.size (pending (transactions r')) <= base.size (pending (transactions r)))%nat ->
  dispatched r' round o -> dispatched r round o.
Proof. intros Hle (x & tasks & -> & H1 & H2 & H3). apply dispatched_at; [done|done|lia]. Qed.

Lemma recovery_clear_ok r : recovery_ok r -> recovery_ok (recovery_clear r).
Proof. intros [Hok Hf]. split; [by apply txsync_clear_ok|by vm_compute]. Qed.

(** What each entry point promises: [begin] for a proposal not pending, the others always. *)
Lemma recovery_begin_ok send r peers peer view hash request round local now :
  recovery_ok r -> pending (transactions r) !! (view, hash) = None ->
  N.of_nat (base.size (pending (transactions r))) + 1 < U64_MAX ->
  match recovery_begin send r peers peer view hash request round local now with
  | Ok (r', tasks) => recovery_ok r' /\ Forall (task_ok round) tasks
  | Err e => e <> TxSyncPanic
  end.
Proof.
  intros [Hok Hf] Hfresh Hb. unfold recovery_begin.
  pose proof (begin_ok (transactions r) peer view hash request peers local now Hok Hfresh Hb) as Hbeg.
  destruct (begin_with_peers _ _ _ _ _ _ _ _) as [[t action]|e]; cbn [result_bind]; [|done].
  destruct Hbeg as (H1 & H2 & H3).
  destruct (dispatch_all_ok send (set_sync r t) action round now) as (r' & tasks & -> & H4 & H5 & H6); try done.
  split; [done|]. unfold few. cbn [set_sync transactions]. lia.
Qed.

Lemma observe_source_ok send r peer view hash round now :
  recovery_ok r -> dispatched r round (observe_source send r peer view hash round now).
Proof.
  intros [Hok Hf]. unfold observe_source. case_bool_decide; cbn [negb];
    [|apply dispatched_at; [done|constructor|done]].
  destruct (add_source_ok (transactions r) peer view hash now Hok Hf) as (t & o & -> & Hg). cbn [mbind option_bind].
  pose proof (few_good _ _ _ Hf Hg). destruct Hg as (H1 & H2 & H3). destruct o as [a|].
  - apply (dispatched_le r (set_sync r t)); [done|]. apply dispatch_all_ok; [done|]. by inversion H2.
  - apply dispatched_at; [done|constructor|done].
Qed.

Lemma recovery_supply_ok send r peer id txs round now :
  recovery_ok r -> dispatched r round (recovery_supply send r peer id txs (Some round) now).
Proof.
  intros [Hok Hf]. unfold recovery_supply.
  pose proof (supply_ok (transactions r) peer id txs now Hok Hf) as Hs.
  assert (Hretry : dispatched r round
    ('(t, next) ← retry_request (transactions r) id false now;
     match next with
     | Some action => dispatch_all send (set_sync r t) action round now
     | None => Some (set_sync r t, [])
     end)).
  { destruct (retry_ok (transactions r) id now Hok Hf) as (t & o & -> & Hg). cbn [mbind option_bind].
    pose proof (few_good _ _ _ Hf Hg). destruct Hg as (H1 & H2 & H3). destruct o as [a|].
    - apply (dispatched_le r (set_sync r t)); [done|]. apply dispatch_all_ok; [done|]. by inversion H2.
    - apply dispatched_at; [done|constructor|done]. }
  assert (Hnone : dispatched r round (Some (r, []))).
  { apply dispatched_at; [done|constructor|done]. }
  destruct (supply _ _ _ _ _) as [[t action]|e].
  - pose proof (few_good _ _ _ Hf Hs). destruct Hs as (H1 & H2 & H3).
    apply (dispatched_le r (set_sync r t)); [done|]. apply dispatch_all_ok; [done|]. by inversion H2.
  - by destruct e.
Qed.

Lemma disconnect_peer_ok send r order peer round now :
  recovery_ok r -> dispatched r round (disconnect_peer send r order peer (Some round) now).
Proof.
  intros [Hok Hf]. unfold disconnect_peer. cbn [transactions].
  destruct (remove_peer_ok (transactions r) order peer now Hok Hf) as (t & l & -> & Hg). cbn [mbind option_bind].
  pose proof (few_good _ _ _ Hf Hg). destruct Hg as (H1 & H2 & H3).
  eapply dispatched_le; [|apply dispatch_each_ok]; cbn [set_sync transactions]; done.
Qed.

Lemma expire_requests_ok send r order round now :
  recovery_ok r -> NoDup order -> dispatched r round (recovery_expire_requests send r order (Some round) now).
Proof.
  intros [Hok Hf] Hn. unfold recovery_expire_requests.
  destruct (expire_ok (transactions r) order now Hok Hf Hn) as (t & l & -> & Hg). cbn [mbind option_bind].
  pose proof (few_good _ _ _ Hf Hg). destruct Hg as (H1 & H2 & H3).
  eapply dispatched_le; [|apply dispatch_each_ok]; cbn [set_sync transactions]; done.
Qed.

Lemma connect_peer_ok send r order peer v2 round now :
  recovery_ok r -> order ≡ₚ (map_to_list (pending (transactions r))).*1 ->
  dispatched r round (connect_peer send r order peer v2 (Some round) now).
Proof.
  intros [Hok Hf] Ho. unfold connect_peer. destruct (negb v2 || _);
    [apply dispatched_at; [done|constructor|done]|].
  destruct (order_keys _ _ Ho) as [Hn Hin].
  destruct (add_peer_ok (transactions r) order peer now Hok Hf Hn Hin) as (t & l & -> & Hg). cbn [mbind option_bind].
  pose proof (few_good _ _ _ Hf Hg). destruct Hg as (H1 & H2 & H3).
  eapply dispatched_le; [|apply dispatch_each_ok]; cbn [transactions]; done.
Qed.
End recovery_facts.

(** ** Which proposals are pending *)

Section recovery_keys.
Context {R : AlloyRlp} {C : Crypto} {T : PooledTransactions}.

Definition keys (t : ProposalTransactionSync) : gset ProposalKey := dom (pending t).
Definition recovery_keys (r : ProposalRecovery) : gset ProposalKey := keys (transactions r).

Lemma keys_put t k p q : pending t !! k = Some p -> keys (set_pending t (<[k := q]> (pending t))) = keys t.
Proof.
  intros H. unfold keys. cbn [set_pending pending]. rewrite dom_insert_L.
  apply (elem_of_dom_2 (D := gset ProposalKey)) in H. set_solver.
Qed.

Lemma keys_next t key retry now t' a : next_action t key retry now = Some (t', a) -> keys t' ⊆ keys t.
Proof.
  unfold next_action. destruct (pending t !! key) as [p|] eqn:E; [|destruct retry; [done|by intros [= <- _]]].
  pose proof (elem_of_dom_2 (D := gset ProposalKey) _ _ _ E) as Hin.
  destruct (all_present _).
  { intros [= <- _]. unfold keys. cbn [set_pending pending]. rewrite dom_delete_L. set_solver. }
  assert (Hput : forall q, keys (set_pending t (<[key := q]> (pending t))) ⊆ keys t)
    by (intros q; by rewrite (keys_put t key p q E)).
  set (choice := match find_candidate p with Some c => _ | None => _ end). destruct choice as [q [peer|]]; [|].
  - unfold allocate_request_id. destruct (allocate_loop _ _ _); [|done]. cbn [mbind option_bind].
    intros [= <- _]. unfold keys in *. cbn [set_pending pending]. rewrite !dom_insert_L. set_solver.
  - intros [= <- _]. apply Hput.
Qed.

Lemma keys_retry t id retry now t' o : retry_request t id retry now = Some (t', o) -> keys t' ⊆ keys t.
Proof.
  unfold retry_request. destruct (requests t !! id) as [key|]; [|by intros [= <- _]]. cbn [set_requests pending].
  destruct (pending t !! key) as [p|] eqn:E; [|by intros [= <- _]]. intros H.
  apply bind_Some in H as ([t1 a] & H & [= <- _]). apply keys_next in H. etransitivity; [done|].
  unfold keys. cbn [set_pending set_requests pending]. rewrite dom_insert_L.
  apply (elem_of_dom_2 (D := gset ProposalKey)) in E. set_solver.
Qed.

Lemma keys_retries t ids now t' l : retry_requests t ids now = Some (t', l) -> keys t' ⊆ keys t.
Proof.
  revert t l. induction ids as [|id ids IH]; intros t l; cbn [retry_requests]; [by intros [= <- _]|].
  intros ([t1 a] & H1 & H)%bind_Some. apply bind_Some in H as ([t2 k] & H2 & [= <- _]).
  apply keys_retry in H1. apply IH in H2. set_solver.
Qed.

Lemma keys_next_actions t ks retry now t' l : next_actions t ks retry now = Some (t', l) -> keys t' ⊆ keys t.
Proof.
  revert t l. induction ks as [|key ks IH]; intros t l; cbn [next_actions]; [by intros [= <- _]|].
  intros ([t1 a] & H1 & H)%bind_Some. apply bind_Some in H as ([t2 k] & H2 & [= <- _]).
  apply keys_next in H1. apply IH in H2. set_solver.
Qed.

Lemma keys_expire t l now t' acts : expire_each t l now = Some (t', acts) -> keys t' ⊆ keys t.
Proof.
  revert t acts. induction l as [|[key id] l IH]; intros t acts; cbn [expire_each]; [by intros [= <- _]|].
  intros (t0 & H0 & H)%bind_Some. apply bind_Some in H as ([t1 a] & H1 & H).
  apply bind_Some in H as ([t2 k] & H2 & [= <- _]). apply keys_next in H1. apply IH in H2.
  assert (keys t0 ⊆ keys t); [|set_solver]. destruct id; [|by injection H0 as <-].
  apply bind_Some in H0 as (p & E & [= <-]). unfold keys. cbn [pending]. rewrite dom_insert_L.
  apply (elem_of_dom_2 (D := gset ProposalKey)) in E. set_solver.
Qed.

Lemma keys_dispatch fuel send r action rnd now r' tasks :
  dispatch fuel send r action rnd now = Some (r', tasks) -> recovery_keys r' ⊆ recovery_keys r.
Proof.
  revert r action. induction fuel as [|fuel IH]; intros r action; [done|]. cbn [dispatch].
  destruct action as [peer id hashes|? ? ? ? ?|? ?].
  - destruct (send peer id); [by intros [= <- _]|]. intros ([t next] & H1 & H)%bind_Some.
    apply keys_retry in H1. destruct next as [a|]; [|by injection H as <- _].
    apply IH in H. unfold recovery_keys in *. cbn [set_sync transactions] in *. set_solver.
  - destruct (negb _); [by intros [= <- _]|]. cbv zeta. destruct (_ <=? _); by intros [= <- _].
  - by intros [= <- _].
Qed.

Lemma keys_dispatch_each send r actions rnd now r' tasks :
  dispatch_each send r actions rnd now = Some (r', tasks) -> recovery_keys r' ⊆ recovery_keys r.
Proof.
  revert r tasks. induction actions as [|a actions IH]; intros r tasks; cbn [dispatch_each]; [by intros [= <- _]|].
  intros ([r1 t1] & H1 & H)%bind_Some. apply bind_Some in H as ([r2 t2] & H2 & [= <- _]).
  apply keys_dispatch in H1. apply IH in H2. set_solver.
Qed.

Lemma keys_clear r : recovery_keys (recovery_clear r) = ∅.
Proof. unfold recovery_keys, keys. cbn [recovery_clear set_sync transactions txsync_clear pending]. by rewrite dom_empty_L. Qed.

Lemma keys_begin send r peers peer view hash request rnd local now r' tasks :
  recovery_begin send r peers peer view hash request rnd local now = Ok (r', tasks) ->
  recovery_keys r' ⊆ {[(view, hash)]} ∪ recovery_keys r.
Proof.
  unfold recovery_begin. intros ([t a] & H1 & H)%result_bind_Ok. apply ok_or_Ok in H.
  apply keys_dispatch in H. unfold recovery_keys in *. cbn [set_sync transactions] in H.
  etransitivity; [exact H|]. unfold begin_with_peers in H1. apply result_bind_Ok in H1 as (u & _ & H1).
  apply ok_or_Ok in H1. unfold finish_or_request in H1. set (p := mkPending _ _ _ _ _ _ _) in *.
  destruct (missing_hashes p).
  - apply bind_Some in H1 as (txs & _ & [= <- _]). set_solver.
  - apply keys_next in H1. unfold keys in *. cbn [set_pending pending] in *. rewrite dom_insert_L in H1. exact H1.
Qed.

Lemma keys_observe send r peer view hash rnd now r' tasks :
  observe_source send r peer view hash rnd now = Some (r', tasks) -> recovery_keys r' ⊆ recovery_keys r.
Proof.
  unfold observe_source. destruct (negb _); [by intros [= <- _]|]. intros ([t next] & H1 & H)%bind_Some.
  assert (keys t ⊆ recovery_keys r).
  { unfold add_source in H1. destruct (pending _ !! _) as [p|] eqn:E; [|by injection H1 as <- _].
    destruct (pp_active _).
    - injection H1 as <- _. by rewrite (keys_put _ _ _ _ E).
    - apply bind_Some in H1 as ([t1 a] & H1 & [= <- _]). apply keys_next in H1. by rewrite (keys_put _ _ _ _ E) in H1. }
  destruct next as [a|]; [|by injection H as <- _]. apply keys_dispatch in H.
  unfold recovery_keys in *. cbn [set_sync transactions] in H. set_solver.
Qed.

Lemma keys_supply send r peer id txs round now r' tasks :
  recovery_supply send r peer id txs round now = Some (r', tasks) -> recovery_keys r' ⊆ recovery_keys r.
Proof.
  unfold recovery_supply. destruct (supply _ _ _ _ _) as [[t a]|e] eqn:E.
  - assert (keys t ⊆ recovery_keys r).
    { unfold supply in E. apply result_bind_Ok in E as (key & _ & E). apply result_bind_Ok in E as (p & Hp & E).
      apply ok_or_Ok in Hp. apply result_bind_Ok in E as (act & _ & E). destruct (bool_decide _); [done|].
      apply result_bind_Ok in E as (u & _ & E). destruct (bool_decide _); [done|]. apply ok_or_Ok, keys_next in E.
      etransitivity; [exact E|]. unfold recovery_keys, keys. cbn [pending]. rewrite dom_insert_L.
      apply (elem_of_dom_2 (D := gset ProposalKey)) in Hp. set_solver. }
    destruct round as [rnd|]; [|intros [= <- _]; rewrite keys_clear; set_solver].
    intros H1%keys_dispatch. unfold recovery_keys in *. cbn [set_sync transactions] in H1. set_solver.
  - intros H1. destruct e, round as [rnd|]; try (by injection H1 as <- _); try done;
      apply bind_Some in H1 as ([t [a|]] & H1 & H2); apply keys_retry in H1;
      first [apply keys_dispatch in H2|injection H2 as <- _];
      unfold recovery_keys in *; cbn [set_sync transactions] in *; set_solver.
Qed.

Lemma keys_disconnect send r order peer round now r' tasks :
  disconnect_peer send r order peer round now = Some (r', tasks) -> recovery_keys r' ⊆ recovery_keys r.
Proof.
  unfold disconnect_peer. destruct round as [rnd|]; [|intros [= <- _]; rewrite keys_clear; set_solver].
  intros ([t l] & H1 & H)%bind_Some. unfold remove_peer in H1. apply keys_retries in H1.
  apply keys_dispatch_each in H. unfold recovery_keys, keys in *.
  cbn [set_sync transactions set_pending pending] in *. rewrite dom_fmap_L in H1. set_solver.
Qed.

Lemma keys_expire_requests send r order round now r' tasks :
  recovery_expire_requests send r order round now = Some (r', tasks) -> recovery_keys r' ⊆ recovery_keys r.
Proof.
  unfold recovery_expire_requests. destruct round as [rnd|]; [|intros [= <- _]; rewrite keys_clear; set_solver].
  intros ([t l] & H1 & H)%bind_Some. unfold expire_requests_at in H1. apply keys_expire in H1.
  apply keys_dispatch_each in H. unfold recovery_keys in *. cbn [set_sync transactions] in *. set_solver.
Qed.

Lemma keys_connect send r order peer v2 round now r' tasks :
  connect_peer send r order peer v2 round now = Some (r', tasks) -> recovery_keys r' ⊆ recovery_keys r.
Proof.
  unfold connect_peer. destruct (_ || _); [by intros [= <- _]|]. intros ([t l] & H1 & H)%bind_Some.
  assert (keys t ⊆ recovery_keys r).
  { unfold add_peer in H1. apply keys_next_actions in H1. unfold recovery_keys, keys in *.
    cbn [set_pending pending] in H1. by rewrite dom_fmap_L in H1. }
  destruct round as [rnd|]; [|by injection H as <- _]. apply keys_dispatch_each in H.
  unfold recovery_keys in *. cbn [transactions] in H. set_solver.
Qed.
End recovery_keys.

(** ** Anti-MEV reconstruction attempts *)

Definition MAX_TRANSIENT_RETRIES : N := 5.
(** In nanoseconds. *)
Definition TRANSIENT_RETRY_BACKOFF : N := 250000000.

(** A verified proposal: its header, the parent whose state it was executed on, its
    Envelopes, and the rest (body, receipts, sidecars, parent witness) as a value the
    driver only passes on. *)
Class BlockContents : Type := { block_contents : Type }.
Section verified.
Context {V : BlockContents}.
Record VerifiedProposal : Type := mkVerifiedProposal {
  vp_header : Header;
  parent_state_hash : B256;
  vp_anti_mev : option AntiMevProposal;
  vp_contents : block_contents;
}.
End verified.

Record AntiMevReconstructionAttempt : Type := mkAttempt {
  attempted_contributions : N;
  in_flight : bool;
  retryable : bool;
  transient_retries : N;
  retry_at : option N;
}.
Definition attempt_default : AntiMevReconstructionAttempt := mkAttempt 0 false false 0 None.

Definition attempt_begin (a : AntiMevReconstructionAttempt) (contribution_count now : N)
    : AntiMevReconstructionAttempt * bool :=
  if in_flight a then (a, false)
  else if attempted_contributions a <? contribution_count
  then (mkAttempt contribution_count true false 0 None, true)
  else if retryable a && (transient_retries a <? MAX_TRANSIENT_RETRIES) &&
          match retry_at a with Some at_ => at_ <=? now | None => true end
  then (mkAttempt (attempted_contributions a) true false (transient_retries a + 1) (retry_at a), true)
  else (a, false).

Definition attempt_finish (a : AntiMevReconstructionAttempt) : AntiMevReconstructionAttempt :=
  mkAttempt (attempted_contributions a) false (retryable a) (transient_retries a) (retry_at a).

Definition finished_transient (a : AntiMevReconstructionAttempt) (transient : bool) (now : N)
    : AntiMevReconstructionAttempt :=
  mkAttempt (attempted_contributions a) (in_flight a) transient (transient_retries a)
    (if transient then Some (now + TRANSIENT_RETRY_BACKOFF * 2 ^ N.min (transient_retries a) 5) else None).

Definition Attempts : Type := gmap B256 AntiMevReconstructionAttempt.

Definition reconstructor_finish (m : Attempts) (proposal_hash : B256) (transient : bool) (now : N) : Attempts :=
  match m !! proposal_hash with
  | Some a => <[proposal_hash := finished_transient (attempt_finish a) transient now]> m
  | None => m
  end.
Definition reconstructor_attempted (m : Attempts) (proposal_hash : B256) : N :=
  match m !! proposal_hash with Some a => attempted_contributions a | None => 0 end.
Definition reconstructor_discard (m : Attempts) (proposal_hash : B256) : Attempts := delete proposal_hash m.
Definition reconstructor_clear (m : Attempts) : Attempts := ∅.

(** A reconstruction task started in the background. *)
Section tasks.
Context {V : BlockContents}.
Record ReconstructionTask : Type := mkReconstructionTask {
  task_view : N;
  task_hash : B256;
  task_contributions : list (N * DbftPreCommit);
  task_dkg : DkgState;
  task_threshold : N;
  task_verified : VerifiedProposal;
}.
End tasks.

Section reconstruction.
Context {R : AlloyRlp} {C : Crypto} {B : Blst} {V : BlockContents}.

Definition reconstructor_schedule (m : Attempts) (round : DbftRoundState) (view : N)
    (verified_proposals : gmap B256 VerifiedProposal) (now : N) : Attempts * option ReconstructionTask :=
  if negb (anti_mev round) || bool_decide (is_Some (round_final_header round view)) then (m, None)
  else
    match progress round view with
    | PreCommitted _ _ =>
        match message_hash <$> round_proposal round view with
        | None => (m, None)
        | Some proposal_hash =>
            match rs_dkg_state round with
            | None => (m, None)
            | Some dkg_state =>
                let contributions := round_pre_commits round view in
                if lenN contributions <? quorum round then (m, None)
                else
                  match verified_proposals !! proposal_hash with
                  | None => (m, None)
                  | Some verified =>
                      let attempt := default attempt_default (m !! proposal_hash) in
                      match attempt_begin attempt (lenN contributions) now with
                      | (attempt, false) => (<[proposal_hash := attempt]> m, None)
                      | (attempt, true) =>
                          (<[proposal_hash := attempt]> m,
                           Some (mkReconstructionTask view proposal_hash contributions dkg_state
                                   (quorum round) verified))
                      end
                  end
            end
        end
    | _ => (m, None)
    end.
End reconstruction.

(** ** Bounded retries *)

(** What happens to one proposal's attempt: the scheduler asks to start it with the
    contributions at hand, or a running task reports. *)
Inductive AttemptEvent : Type :=
| Start (count now : N)
| Report (transient : bool) (now : N).

Definition attempt_step (s : AntiMevReconstructionAttempt * N) (e : AttemptEvent)
    : AntiMevReconstructionAttempt * N :=
  match e with
  | Start count now => let '(a, started) := attempt_begin s.1 count now in (a, if started then s.2 + 1 else s.2)
  | Report transient now => (finished_transient (attempt_finish s.1) transient now, s.2)
  end.

Lemma attempt_begin_cases a count now a' b :
  attempt_begin a count now = (a', b) ->
  (b = false /\ a' = a) \/
  (b = true /\ in_flight a = false /\ attempted_contributions a < count /\ a' = mkAttempt count true false 0 None) \/
  (b = true /\ in_flight a = false /\ retryable a = true /\ transient_retries a < MAX_TRANSIENT_RETRIES /\
   count <= attempted_contributions a /\
   a' = mkAttempt (attempted_contributions a) true false (transient_retries a + 1) (retry_at a)).
Proof.
  unfold attempt_begin. destruct (in_flight a); [intros [= <- <-]; by left|].
  destruct (N.ltb_spec (attempted_contributions a) count); [intros [= <- <-]; right; by left|].
  destruct (retryable a); cbn [andb]; [|intros [= <- <-]; by left].
  destruct (N.ltb_spec (transient_retries a) MAX_TRANSIENT_RETRIES); cbn [andb]; [|intros [= <- <-]; by left].
  destruct (match retry_at a with Some at_ => at_ <=? now | None => true end); intros [= <- <-];
    [|by left]. by right; right.
Qed.

(** Six attempts per contribution. *)
Definition started_bound (s : AntiMevReconstructionAttempt * N) : Prop :=
  transient_retries s.1 <= MAX_TRANSIENT_RETRIES /\
  s.2 <= (MAX_TRANSIENT_RETRIES + 1) * attempted_contributions s.1 + transient_retries s.1.

(** Reconstruction cannot spin: however the scheduler and the state service behave, one
    proposal with at most [n] contributions starts at most 6 n + 5 attempts, and an attempt
    in flight is never started again before it reports. *)
Theorem reconstruction_bounded n es :
  Forall (fun e => match e with Start count _ => count <= n | Report _ _ => True end) es ->
  let s := foldl attempt_step (attempt_default, 0) es in
  attempted_contributions s.1 <= n /\ s.2 <= (MAX_TRANSIENT_RETRIES + 1) * n + MAX_TRANSIENT_RETRIES /\
  (in_flight s.1 = true -> forall count now, attempt_step s (Start count now) = s).
Proof.
  intros Hes s. assert (Hinv : started_bound s /\ attempted_contributions s.1 <= n).
  { unfold s. assert (H0 : started_bound (attempt_default, 0) /\ attempted_contributions (attempt_default, 0).1 <= n)
      by (unfold started_bound; simpl; lia).
    clear s. revert H0. generalize (attempt_default, 0). induction Hes as [|e es He _ IH]; intros [a k] H0; [done|].
    cbn [foldl]. apply IH. destruct H0 as [[H1 H2] H3]. unfold started_bound in *. cbn [fst snd] in *.
    destruct e as [count now|transient now]; cbn [attempt_step fst snd] in *; [|done].
    destruct (attempt_begin a count now) as [a' b] eqn:E. cbn [fst snd].
    destruct (attempt_begin_cases _ _ _ _ _ E) as [(-> & ->)|[(-> & _ & Hlt & ->)|(-> & _ & _ & Hr & _ & ->)]];
      unfold MAX_TRANSIENT_RETRIES in *; cbn [attempted_contributions transient_retries fst snd] in *; lia. }
  destruct Hinv as [[H1 H2] H3]. split_and!; [done|nia|].
  intros Hf count now. unfold attempt_step, attempt_begin. rewrite Hf. by destruct s.
Qed.

Module ReconstructionWitness.
(** Five contributions, a transient failure, a retry after the backoff. *)
Lemma reconstruction_bounded_witness :
  (foldl attempt_step (attempt_default, 0) [Start 5 0; Report true 0; Start 5 250000000]).2 <= 6 * 5 + 5.
Proof.
  apply (reconstruction_bounded 5 [Start 5 0; Report true 0; Start 5 250000000]).
  repeat constructor; done.
Defined.
End ReconstructionWitness.
