(* ===== verification/Driver.v ===== *)
(** The validator driver (crates/neox/node/src/sync.rs): the handlers that move the active
    round with the local signer, the network service, the timer, the early-message cache
    and the background tasks, composed as the event loop composes them. *)

From S2P Require Import Prelude Extern Instances Extra Validation ChainSpec Tpke Wire Payload Recovery Cache.
From S2P Require Import Protocol DkgParams Storage Round Sealing Journal Signer FutureMessages Timer.
From S2P Require Import AntiMev TxSync ProposalRecovery.

(** Why a proposal was refused; the payload of an error only goes to the log. *)
Inductive DbftProposalError : Type :=
| ErrInvalidExtra | ErrUnexpectedExtraVersion | ErrThresholdBeforeAntiMev | ErrGenesisProposal
| ErrMissingCanonicalParent | ErrGenesisParentMismatch | ErrMissingParentSealHash | ErrMissingParentExtra
| ErrMissingGrandparent | ErrParentWitness | ErrHeader | ErrProvider | ErrHeightOverflow
| ErrTransactions (error : TxSyncError)
| ErrPoolRejection | ErrTransactionCount | ErrTransactionHash | ErrSidecarCount | ErrInvalidSidecar
| ErrAntiMevProposal | ErrPreExecution | ErrSenderRecovery | ErrExecution | ErrPostExecution | ErrStateRoot
| ErrGovernance | ErrDkg | ErrFallbackNextConsensus | ErrNextConsensus.

Definition proposal_rejection_reason (e : DbftProposalError) : DbftChangeViewReason :=
  match e with
  | ErrInvalidExtra | ErrUnexpectedExtraVersion | ErrThresholdBeforeAntiMev | ErrGenesisProposal
  | ErrMissingCanonicalParent | ErrGenesisParentMismatch | ErrMissingParentSealHash | ErrMissingParentExtra
  | ErrMissingGrandparent | ErrParentWitness | ErrHeader | ErrProvider | ErrHeightOverflow =>
      BlockRejectedByPolicy
  | _ => TransactionInvalid
  end.

Definition is_stale_dbft_transition (e : DbftStateError) : bool :=
  match e with WrongHeight expected _ end_ => end_ <? expected | _ => false end.
Definition is_future_dbft_message (round_height message_height : N) : bool := round_height <? message_height.
Definition is_future_view_dbft_transition (e : DbftStateError) : bool :=
  match e with WrongView expected actual => expected <? actual | _ => false end.

Definition recovery_response_allowed (validator_count requester local_index : N) (committed : bool) : bool :=
  if committed then true
  else if (validator_count =? 0) || (validator_count <=? requester) || (validator_count <=? local_index)
  then false
  else
    (local_index + validator_count - requester + validator_count - 1) mod validator_count
      <=? saturating_sub validator_count 1 / 3.

Section driver.
Context {R : AlloyRlp} {C : Crypto} {K : Secp256k1} {B : Blst} {T : PooledTransactions} {V : BlockContents}.

(** ** State *)

(** What the driver starts in the background. *)
Inductive DriverTask : Type :=
| TaskRecovery (t : RecoveryTask)
| TaskReconstruct (t : ReconstructionTask)
| TaskBuildProposal (height view : N) (scheme : SignatureScheme) (rnd : DbftRoundState)
| TaskImport (sealed : Header) (verified : VerifiedProposal).

(** A header handed to the signer: the round it was decided in, and its view. *)
Record SealRequest : Type := mkSealRequest {
  seal_round : DbftRoundState;
  seal_view : N;
  seal_header : Header;
}.

(** [d_writes] are the outcomes of the signer's journal writes to come, one per signature;
    [d_tasks] and [d_seals] record what was started and sealed, the latest first. *)
Record Driver : Type := mkDriver {
  d_round : option DbftRoundState;
  d_signer : option DbftSigner;
  d_dbft : DbftProtocol;
  d_verified : gmap B256 VerifiedProposal;
  d_timer : DbftTimer;
  d_future : FutureDbftMessages;
  d_recovery : ProposalRecovery;
  d_attempts : Attempts;
  d_builds : gset (N * N);
  d_writes : list WriteOutcome;
  d_tasks : list DriverTask;
  d_seals : list SealRequest;
}.

Definition put_round (d : Driver) (r : option DbftRoundState) : Driver :=
  mkDriver r (d_signer d) (d_dbft d) (d_verified d) (d_timer d) (d_future d) (d_recovery d) (d_attempts d)
    (d_builds d) (d_writes d) (d_tasks d) (d_seals d).
Definition put_signer (d : Driver) (s : DbftSigner) : Driver :=
  mkDriver (d_round d) (Some s) (d_dbft d) (d_verified d) (d_timer d) (d_future d) (d_recovery d) (d_attempts d)
    (d_builds d) (tail (d_writes d)) (d_tasks d) (d_seals d).
(** The DKG shares are replaced by the task that runs the key generation. *)
Definition put_shares (d : Driver) (current previous : option DkgPrivateShare) : Driver :=
  mkDriver (d_round d) ((fun s => set_shares s current previous) <$> d_signer d) (d_dbft d) (d_verified d)
    (d_timer d) (d_future d) (d_recovery d) (d_attempts d) (d_builds d) (d_writes d) (d_tasks d) (d_seals d).
Definition put_dbft (d : Driver) (p : DbftProtocol) : Driver :=
  mkDriver (d_round d) (d_signer d) p (d_verified d) (d_timer d) (d_future d) (d_recovery d) (d_attempts d)
    (d_builds d) (d_writes d) (d_tasks d) (d_seals d).
Definition put_verified (d : Driver) (v : gmap B256 VerifiedProposal) : Driver :=
  mkDriver (d_round d) (d_signer d) (d_dbft d) v (d_timer d) (d_future d) (d_recovery d) (d_attempts d)
    (d_builds d) (d_writes d) (d_tasks d) (d_seals d).
Definition put_timer (d : Driver) (t : DbftTimer) : Driver :=
  mkDriver (d_round d) (d_signer d) (d_dbft d) (d_verified d) t (d_future d) (d_recovery d) (d_attempts d)
    (d_builds d) (d_writes d) (d_tasks d) (d_seals d).
Definition put_future (d : Driver) (f : FutureDbftMessages) : Driver :=
  mkDriver (d_round d) (d_signer d) (d_dbft d) (d_verified d) (d_timer d) f (d_recovery d) (d_attempts d)
    (d_builds d) (d_writes d) (d_tasks d) (d_seals d).
Definition put_recovery (d : Driver) (r : ProposalRecovery) (tasks : list RecoveryTask) : Driver :=
  mkDriver (d_round d) (d_signer d) (d_dbft d) (d_verified d) (d_timer d) (d_future d) r (d_attempts d)
    (d_builds d) (d_writes d) (map TaskRecovery tasks ++ d_tasks d) (d_seals d).
Definition put_attempts (d : Driver) (a : Attempts) (task : option ReconstructionTask) : Driver :=
  mkDriver (d_round d) (d_signer d) (d_dbft d) (d_verified d) (d_timer d) (d_future d) (d_recovery d) a
    (d_builds d) (d_writes d) (map TaskReconstruct (option_list task) ++ d_tasks d) (d_seals d).
Definition put_builds (d : Driver) (b : gset (N * N)) (tasks : list DriverTask) : Driver :=
  mkDriver (d_round d) (d_signer d) (d_dbft d) (d_verified d) (d_timer d) (d_future d) (d_recovery d) (d_attempts d)
    b (d_writes d) (tasks ++ d_tasks d) (d_seals d).
Definition put_seal (d : Driver) (s : SealRequest) : Driver :=
  mkDriver (d_round d) (d_signer d) (d_dbft d) (d_verified d) (d_timer d) (d_future d) (d_recovery d) (d_attempts d)
    (d_builds d) (d_writes d) (d_tasks d) (s :: d_seals d).

(** What a handler reads of the outside: the clocks, the chain specification, the beacon
    connections, the pool, and the iteration orders of hash maps. *)
Record DriverEnv : Type := mkDriverEnv {
  env_now : N;
  unix_timestamp_ns : N;
  is_anti_mev_active_at_block : N -> bool;
  env_send : PeerId -> N -> bool;
  env_local : B256 -> option pooled_tx;
  env_iter : gmap slot_key DbftMessage -> list (slot_key * DbftMessage);
  env_peers : gset PeerId -> list PeerId;
  env_keys : gmap ProposalKey PendingProposalTransactions -> list ProposalKey;
}.

(** The canonical state a round is activated from: the Governance and KeyManagement slots. *)
Record ActivationState : Type := mkActivationState {
  governance_storage : B256 -> result GovernanceError (option U256);
  key_management_storage : B256 -> result DkgStateError (option U256);
}.

(** ** Signing and publishing *)

Definition next_write (d : Driver) : WriteOutcome := default Synced (head (d_writes d)).

Definition sign (d : Driver) (signer : DbftSigner) (h i v : N) (t : DbftMessageType) (payload : bytes)
    : Driver * result DbftSignerError DbftMessage :=
  let '(signer, r) := sign_message signer (next_write d) h i v t payload in (put_signer d signer, r).

Definition publish_message (d : Driver) (m : DbftMessage) : Driver :=
  put_dbft d (publish (d_dbft d) m).1.

(** [round.process(..)], then [dbft.publish(..)] unless the round refused it or had it. *)
Definition record_and_publish (d : Driver) (rnd : DbftRoundState) (m : DbftMessage)
    : Driver * option DbftRoundProgress :=
  match process rnd m with
  | (rnd, Ok DuplicateMessage) => (put_round d (Some rnd), None)
  | (rnd, Ok p) => (publish_message (put_round d (Some rnd)) m, Some p)
  | (rnd, Err _) => (put_round d (Some rnd), None)
  end.

Definition share_epoch_of (k : DkgPublicKey) (head : B256) : DkgShareEpoch :=
  mkDkgShareEpoch (Storage.round k) (global_public_key k) head.

(** The shares for the Envelopes of one epoch, [None] when the pre-commit must wait. *)
Definition epoch_decryption_shares (signer : DbftSigner) (current_epoch : bool) (key : option DkgPublicKey)
    (head : B256) (cts : list TpkeCiphertext) : option (list bytes) :=
  match cts with
  | [] => Some []
  | _ =>
      key ← key;
      result_ok
        (if current_epoch then current_decryption_shares_at signer (Some (share_epoch_of key head)) cts
         else previous_decryption_shares_at signer (Some (share_epoch_of key head)) cts)
  end.

Definition maybe_publish_antimev_precommit (d : Driver) (p : DbftRoundProgress) : Driver :=
  match p with
  | Prepared view _ _ | PreCommitted view _ =>
      match d_round d, d_signer d with
      | Some rnd, Some signer =>
          match signer_validator_index signer (rs_validators rnd) with
          | None => d
          | Some local_index =>
              if has_pre_commit rnd view local_index then d
              else
                match
                  (hash ← message_hash <$> round_proposal rnd view;
                   verified ← d_verified d !! hash;
                   proposal ← vp_anti_mev verified;
                   dkg ← rs_dkg_state rnd;
                   shares ← epoch_decryption_shares signer true (Some (current dkg))
                     (parent_state_hash verified) (ciphertexts proposal EpochCurrent);
                   previous_shares ← epoch_decryption_shares signer false (previous dkg)
                     (parent_state_hash verified) (ciphertexts proposal EpochPrevious);
                   encoded ← result_ok (encode_decryption_shares shares previous_shares);
                   result_ok (from_data encoded))
                with
                | None => d
                | Some pre_commit =>
                    match sign d signer (rs_height rnd) local_index view PreCommit (enc pre_commit_codec pre_commit) with
                    | (d, Err _) => d
                    | (d, Ok m) => (record_and_publish d rnd m).1
                    end
                end
          end
      | _, _ => d
      end
  | _ => d
  end.

(** [signer.commit_for_header_at(header, epoch)], then the signed Commit message. *)
Definition seal_and_publish (d : Driver) (rnd : DbftRoundState) (signer : DbftSigner) (local_index view : N)
    (header : Header) (head : B256) : Driver :=
  let epoch := (fun s => share_epoch_of (current s) head) <$> rs_dkg_state rnd in
  let d := put_seal d (mkSealRequest rnd view header) in
  match commit_for_header_at signer (next_write d) header epoch with
  | (signer, Err _) => put_signer d signer
  | (signer, Ok commit) =>
      let d := put_signer d signer in
      match sign d signer (rs_height rnd) local_index view Commit (enc commit_codec commit) with
      | (d, Err _) => d
      | (d, Ok m) => (record_and_publish d rnd m).1
      end
  end.

Definition maybe_publish_antimev_commit (d : Driver) (p : DbftRoundProgress) : Driver :=
  match p with
  | PreCommitted view _ =>
      match d_round d, d_signer d with
      | Some rnd, Some signer =>
          match signer_validator_index signer (rs_validators rnd) with
          | None => d
          | Some local_index =>
              if has_commit rnd view local_index then d
              else
                match
                  (header ← round_final_header rnd view;
                   m ← round_proposal rnd view;
                   verified ← d_verified d !! message_hash m;
                   Some (header, verified))
                with
                | None => d
                | Some (header, verified) =>
                    seal_and_publish d rnd signer local_index view header (parent_state_hash verified)
                end
          end
      | _, _ => d
      end
  | _ => d
  end.

Definition maybe_publish_pre_antimev_commit (d : Driver) (p : DbftRoundProgress) : Driver :=
  match p with
  | Prepared view proposal_hash _ =>
      match d_round d, d_signer d with
      | Some rnd, Some signer =>
          if anti_mev rnd then d
          else
            match signer_validator_index signer (rs_validators rnd), d_verified d !! proposal_hash with
            | Some local_index, Some verified =>
                seal_and_publish d rnd signer local_index view (vp_header verified) (parent_state_hash verified)
            | _, _ => d
            end
      | _, _ => d
      end
  | _ => d
  end.

Definition contributed (rnd : DbftRoundState) (index : N) : bool :=
  has_any_pre_commit rnd index || has_any_commit rnd index.
Definition local_index_of (d : Driver) : option N :=
  rnd ← d_round d; signer ← d_signer d; signer_validator_index signer (rs_validators rnd).

Definition maybe_publish_consensus_contribution (d : Driver) (p : DbftRoundProgress) : Driver :=
  match d_round d with
  | None => d
  | Some rnd =>
      let local_index := local_index_of d in
      let contributed_before := match local_index with Some i => contributed rnd i | None => false end in
      let d :=
        if anti_mev rnd
        then maybe_publish_antimev_commit (maybe_publish_antimev_precommit d p) p
        else maybe_publish_pre_antimev_commit d p in
      if contributed_before then d
      else
        match local_index, d_round d with
        | Some index, Some rnd =>
            if contributed rnd index
            then put_timer d (arm_contribution (d_timer d) (rs_height rnd) (current_view rnd)) else d
        | _, _ => d
        end
  end.

(** ** Background work *)

Definition anti_mev_schedule (env : DriverEnv) (d : Driver) (rnd : DbftRoundState) (view : N) : Driver :=
  let '(attempts, task) := reconstructor_schedule (d_attempts d) rnd view (d_verified d) (env_now env) in
  put_attempts d attempts task.

(** The import itself runs in the background; the result tells whether it was started. *)
Definition schedule_committed_proposal (d : Driver) (rnd : DbftRoundState) (view : N) : Driver * bool :=
  match progress rnd view with
  | Committed _ _ =>
      match message_hash <$> round_proposal rnd view with
      | None => (d, false)
      | Some proposal_hash =>
          match sealed_header rnd view with
          | Err _ => (d, false)
          | Ok sealed =>
              match d_verified d !! proposal_hash with
              | None => (d, false)
              | Some verified =>
                  (put_builds (put_verified d (delete proposal_hash (d_verified d))) (d_builds d)
                     [TaskImport sealed verified], true)
              end
          end
      end
  | _ => (d, false)
  end.

Definition maybe_schedule_primary_proposal (d : Driver) : Driver :=
  match d_round d, d_signer d with
  | Some rnd, Some signer =>
      let view := current_view rnd in
      match signer_validator_index signer (rs_validators rnd) with
      | None => d
      | Some local_index =>
          if negb (local_index =? primary_index rnd view) || bool_decide (is_Some (round_proposal rnd view))
          then d
          else
            let key := (rs_height rnd, view) in
            if bool_decide (key ∈ d_builds d) then d
            else
              put_builds d ({[key]} ∪ d_builds d)
                [TaskBuildProposal (rs_height rnd) view (if anti_mev rnd then Threshold else Ecdsa) rnd]
      end
  | _, _ => d
  end.

(** ** Recovery and view changes *)

Definition publish_recovery_message (env : DriverEnv) (d : Driver) (rnd : DbftRoundState) (signer : DbftSigner)
    : Driver :=
  match signer_validator_index signer (rs_validators rnd) with
  | None => d
  | Some local_index =>
      match recovery_message rnd (env_iter env (rs_messages rnd)) local_index with
      | Err _ => d
      | Ok recovery =>
          match sign d signer (rs_height rnd) local_index (current_view rnd) RecoveryMessage
                  (enc recovery_message_codec recovery) with
          | (d, Err _) => d
          | (d, Ok m) => publish_message d m
          end
      end
  end.

Definition publish_recovery_request (env : DriverEnv) (d : Driver) (rnd : DbftRoundState) (signer : DbftSigner)
    (local_index : N) : Driver :=
  match sign d signer (rs_height rnd) local_index (current_view rnd) RecoveryRequest
          (enc recovery_request_codec (mkDbftRecoveryRequest (unix_timestamp_ns env))) with
  | (d, Err _) => d
  | (d, Ok m) => publish_message d m
  end.

Definition maybe_respond_to_recovery_request (env : DriverEnv) (d : Driver) (rnd : DbftRoundState)
    (request : DbftMessage) : Driver :=
  match d_signer d with
  | None => d
  | Some signer =>
      match consensus_data request with
      | Err _ => d
      | Ok data =>
          if negb (bool_decide (message_type data = RecoveryRequest)) || (current_view rnd <? view_number data)
          then d
          else
            match signer_validator_index signer (rs_validators rnd) with
            | None => d
            | Some local_index =>
                if recovery_response_allowed (lenN (rs_validators rnd)) (validator_index data) local_index
                     (contributed rnd local_index)
                then publish_recovery_message env d rnd signer else d
            end
      end
  end.

Record LocalChangeViewOutcome : Type := mkOutcome { requested : bool; changed_view : bool }.

Definition publish_local_change_view (env : DriverEnv) (d : Driver) (rnd : DbftRoundState)
    (reason : DbftChangeViewReason) : Driver * LocalChangeViewOutcome :=
  match d_signer d with
  | None => (d, mkOutcome false false)
  | Some signer =>
      match signer_validator_index signer (rs_validators rnd) with
      | None => (d, mkOutcome false false)
      | Some local_index =>
          let height := rs_height rnd in
          let view := current_view rnd in
          match checked_add U8_MAX view 1 with
          | None => (d, mkOutcome false false)
          | Some next_view =>
              match rs_messages rnd !! (view, ChangeView, local_index) with
              | Some m =>
                  let d := publish_message d m in
                  (put_timer d (arm_change_view (d_timer d) height view next_view), mkOutcome true false)
              | None =>
                  match sign d signer height local_index view ChangeView
                          (enc change_view_codec (change_view_new (unix_timestamp_ns env) reason)) with
                  | (d, Err _) => (d, mkOutcome false false)
                  | (d, Ok m) =>
                      match process rnd m with
                      | (rnd, Err _) => (put_round d (Some rnd), mkOutcome false false)
                      | (rnd, Ok _) =>
                          let d := publish_message (put_round d (Some rnd)) m in
                          let changed := negb (current_view rnd =? view) in
                          (put_timer d
                             (if changed then timer_reset (d_timer d) (Some rnd) (d_signer d)
                              else arm_change_view (d_timer d) height view next_view),
                           mkOutcome true changed)
                      end
                  end
              end
          end
      end
  end.

Definition clear_recovery (d : Driver) : Driver := put_recovery d (recovery_clear (d_recovery d)) [].

(** A rejected proposal: forget it and ask for the next view. *)
Definition reject_proposal (env : DriverEnv) (d : Driver) (rnd : DbftRoundState) (reason : DbftChangeViewReason)
    : Driver * LocalChangeViewOutcome :=
  publish_local_change_view env (clear_recovery d) rnd reason.

(** ** Handlers

    [None] is a panic of a component or a loop out of turns. *)

Definition cache_message_for_later (d : Driver) (peer_id : PeerId) (m : DbftMessage) : Driver :=
  put_future d (cache_future_dbft_message (d_future d) peer_id m).1.

Definition drain (d : Driver) (height : N) : Driver * list CachedEntry :=
  let '(future, replayed) := drain_cached_dbft_messages (d_future d) height in (put_future d future, replayed).

(** What follows every transition the round accepted. *)
Definition follow_progress (env : DriverEnv) (d : Driver) (p : DbftRoundProgress) : Driver :=
  let d := maybe_publish_consensus_contribution d p in
  match d_round d with
  | None => d
  | Some rnd =>
      let import_view := match p with Committed view _ => view | _ => current_view rnd end in
      (schedule_committed_proposal (anti_mev_schedule env d rnd import_view) rnd import_view).1
  end.

Definition enter_view (d : Driver) (rnd : DbftRoundState) : Driver * list CachedEntry :=
  let d := put_attempts (put_verified (clear_recovery d) ∅) (reconstructor_clear (d_attempts d)) None in
  let d := put_timer d (timer_reset (d_timer d) (Some rnd) (d_signer d)) in
  drain (maybe_schedule_primary_proposal d) (rs_height rnd).

Definition accepted_request (proposal : DbftMessage) : option DbftPrepareRequest :=
  match (data ← result_ok (consensus_data proposal); result_ok (decoded_payload data)) with
  | Some (DecodedPrepareRequest request) => Some request
  | _ => None
  end.

(** Recover and verify the proposal of the current view; [previous] is the one already known
    in this view. A refused commitment may change the view and replay messages. *)
Definition recover_proposal (env : DriverEnv) (d : Driver) (rnd : DbftRoundState) (peer_id : PeerId)
    (previous : option B256) : option (Driver * list CachedEntry) :=
  let active_view := current_view rnd in
  match round_proposal rnd active_view with
  | None => Some (d, [])
  | Some proposal =>
      let proposal_hash := message_hash proposal in
      if bool_decide (previous = Some proposal_hash)
      then
        '(r, tasks) ← observe_source (env_send env) (d_recovery d) peer_id active_view proposal_hash
           rnd (env_now env);
        Some (put_recovery d r tasks, [])
      else
        match accepted_request proposal with
        | None => Some (d, [])
        | Some request =>
            match recovery_begin (env_send env) (d_recovery d)
                    (env_peers env (beacon_peers (d_recovery d))) peer_id active_view proposal_hash
                    request rnd (env_local env) (env_now env) with
            | Ok (r, tasks) => Some (put_recovery d r tasks, [])
            | Err TxSyncPanic => None
            | Err e =>
                let '(d, outcome) :=
                  reject_proposal env d rnd (proposal_rejection_reason (ErrTransactions e)) in
                Some (if changed_view outcome then drain d (rs_height rnd) else (d, []))
            end
        end
  end.

(** One turn of the loop: the driver and the messages to replay after those pending. *)
Definition process_dbft_message (env : DriverEnv) (d : Driver) (rnd : DbftRoundState) (peer_id : PeerId)
    (m : DbftMessage) : option (Driver * list CachedEntry) :=
  if is_future_dbft_message (rs_height rnd) (valid_block_end m)
  then Some (cache_message_for_later d peer_id m, [])
  else
    let previous_view := current_view rnd in
    let previous_proposal := message_hash <$> round_proposal rnd previous_view in
    match process rnd m with
    | (rnd, Err e) =>
        let d := put_round d (Some rnd) in
        Some (if is_future_view_dbft_transition e then cache_message_for_later d peer_id m else d, [])
    | (rnd, Ok p) =>
        let d := follow_progress env (put_round d (Some rnd)) p in
        rnd ← d_round d;
        let d := maybe_respond_to_recovery_request env d rnd m in
        let same_view := current_view rnd =? previous_view in
        let '(d, replayed) := if same_view then (d, []) else enter_view d rnd in
        '(d, more) ← recover_proposal env d rnd peer_id (if same_view then previous_proposal else None);
        Some (d, replayed ++ more)
    end.

(** The loop; it takes one turn per message, and a view change replays at most one cached
    message per slot of the height. *)
Fixpoint process_pending (fuel : nat) (env : DriverEnv) (d : Driver) (pending : list CachedEntry)
    : option Driver :=
  match pending with
  | [] => Some d
  | (peer_id, m) :: pending =>
      match fuel with
      | O => None
      | S fuel =>
          rnd ← d_round d;
          '(d, replayed) ← process_dbft_message env d rnd peer_id m;
          process_pending fuel env d (pending ++ replayed)
      end
  end.

Definition CACHED_SLOTS : N := CACHED_MESSAGE_KINDS * NEOX_MAX_VALIDATOR_COUNT.
Definition loop_turns (rnd : DbftRoundState) (pending : list CachedEntry) : nat :=
  length pending + N.to_nat ((U8_MAX - current_view rnd) * CACHED_SLOTS).

Definition process_dbft_messages (env : DriverEnv) (d : Driver) (pending : list CachedEntry) : option Driver :=
  match d_round d with
  | None => Some (foldl (fun d '(peer_id, m) => cache_message_for_later d peer_id m) d pending)
  | Some rnd => process_pending (loop_turns rnd pending) env d pending
  end.

Definition replay_cached_dbft_messages (env : DriverEnv) (d : Driver) : option Driver :=
  match d_round d with
  | None => Some d
  | Some rnd =>
      let d := put_future d (prune_through (d_future d) (saturating_sub (rs_height rnd) 1)) in
      let '(d, replayed) := drain d (rs_height rnd) in
      match replayed with [] => Some d | _ => process_dbft_messages env d replayed end
  end.

(** Publish the contribution the progress allows, then reconstruct or import [view]. *)
Definition follow_verified (env : DriverEnv) (d : Driver) (view : N) (p : DbftRoundProgress) : Driver * bool :=
  let d := maybe_publish_consensus_contribution d p in
  match d_round d with
  | None => (d, false)
  | Some rnd => schedule_committed_proposal (anti_mev_schedule env d rnd view) rnd view
  end.

(** A backup answers the proposal it verified. *)
Definition publish_prepare_response (env : DriverEnv) (d : Driver) (view : N) (proposal_hash : B256) : Driver :=
  match d_round d, d_signer d with
  | Some rnd, Some signer =>
      match signer_validator_index signer (rs_validators rnd) with
      | None => d
      | Some local_index =>
          if local_index =? primary_index rnd view then d
          else
            match sign d signer (rs_height rnd) local_index view PrepareResponse
                    (enc prepare_response_codec (mkDbftPrepareResponse proposal_hash)) with
            | (d, Err _) => d
            | (d, Ok m) =>
                match record_and_publish d rnd m with
                | (d, None) => d
                | (d, Some p) => (follow_verified env d view p).1
                end
            end
      end
  | _, _ => d
  end.

Definition handle_proposal_verification (env : DriverEnv) (d : Driver) (view : N) (proposal_hash : B256)
    (r : result DbftProposalError VerifiedProposal) : Driver :=
  match d_round d with
  | None => d
  | Some rnd =>
      if negb (proposal_current rnd view proposal_hash) then d
      else
        match r with
        | Err e => (reject_proposal env d rnd (proposal_rejection_reason e)).1
        | Ok verified =>
            if anti_mev rnd && bool_decide (vp_anti_mev verified = None)
            then (reject_proposal env d rnd TransactionInvalid).1
            else
              match
                (if anti_mev rnd
                 then finalize_pre_block rnd view (vp_header verified)
                        (default 0 (antimev_len <$> vp_anti_mev verified))
                 else finalize_proposal rnd view (vp_header verified))
              with
              | (rnd, Err _) => (reject_proposal env (put_round d (Some rnd)) rnd TransactionInvalid).1
              | (rnd, Ok p) =>
                  let d := put_verified (put_round d (Some rnd)) (<[proposal_hash := verified]> (d_verified d)) in
                  let '(d, imported) := follow_verified env d view p in
                  if imported then d else publish_prepare_response env d view proposal_hash
              end
        end
  end.

(** [r] is the reconstructed proposal, or whether the failure was transient. *)
Definition handle_antimev_reconstruction (env : DriverEnv) (d : Driver) (view : N) (proposal_hash : B256)
    (r : result bool VerifiedProposal) : Driver :=
  let transient := match r with Err transient => transient | Ok _ => false end in
  let d := put_attempts d (reconstructor_finish (d_attempts d) proposal_hash transient (env_now env)) None in
  let discard d := put_attempts d (reconstructor_discard (d_attempts d) proposal_hash) None in
  match d_round d with
  | None => discard d
  | Some rnd =>
      if negb (proposal_current rnd view proposal_hash) then discard d
      else
        match r with
        | Err _ => anti_mev_schedule env d rnd view
        | Ok proposal =>
            match finalize_proposal rnd view (vp_header proposal) with
            | (rnd, Err _) => anti_mev_schedule env (put_round d (Some rnd)) rnd view
            | (rnd, Ok p) =>
                let d := discard (put_round d (Some rnd)) in
                let d := put_verified d (<[proposal_hash := proposal]> (d_verified d)) in
                let d := maybe_publish_consensus_contribution d p in
                match d_round d with
                | None => d
                | Some rnd => (schedule_committed_proposal d rnd view).1
                end
            end
        end
  end.

Definition handle_dbft_timeout (env : DriverEnv) (d : Driver) (timeout : DbftTimeout) : Driver * bool :=
  let '(timer, due) := consume (d_timer d) timeout in
  let d := put_timer d timer in
  if negb due then (d, false)
  else
    match d_round d, d_signer d with
    | Some rnd, Some signer =>
        let height := timeout_height timeout in
        let view := timeout_view timeout in
        if negb (rs_height rnd =? height) || negb (current_view rnd =? view) then (d, false)
        else
          match signer_validator_index signer (rs_validators rnd) with
          | None => (d, false)
          | Some local_index =>
              if (local_index =? primary_index rnd view) && bool_decide (round_proposal rnd view = None)
              then (put_timer d (arm_post_proposal (d_timer d) height view), false)
              else if has_pre_commit rnd view local_index || has_commit rnd view local_index
              then
                let d := publish_recovery_message env d rnd signer in
                (put_timer d (arm_recovery (d_timer d) height view), false)
              else
                match checked_add U8_MAX view 1 with
                | None => (d, false)
                | Some next_view =>
                    if more_than_f_committed_or_failed rnd view local_index
                    then
                      let d := publish_recovery_request env d rnd signer local_index in
                      (put_timer d (arm_change_view (d_timer d) height view next_view), false)
                    else
                      let missing_transactions :=
                        match round_proposal rnd view with
                        | Some proposal => recovery_is_waiting_for (d_recovery d) view (message_hash proposal)
                        | None => false
                        end in
                      let reason := if missing_transactions then TransactionNotFound else Timeout in
                      let '(d, outcome) := publish_local_change_view env d rnd reason in
                      (if requested outcome then clear_recovery d else d, changed_view outcome)
                end
          end
    | _, _ => (d, false)
    end.

(** A proposal built for the local primary. *)
Record PrimaryProposal : Type := mkPrimaryProposal {
  pp_request : DbftPrepareRequest;
  pp_transactions : list signed_tx;
  pp_sidecars : list blob_sidecar;
}.

Definition handle_primary_proposal (env : DriverEnv) (d : Driver) (height view : N)
    (r : option PrimaryProposal) : option Driver :=
  let d := put_builds d (d_builds d ∖ {[(height, view)]}) [] in
  match d_round d, d_signer d with
  | Some rnd, Some signer =>
      if negb (rs_height rnd =? height) || negb (current_view rnd =? view) then Some d
      else
        match signer_validator_index signer (rs_validators rnd) with
        | None => Some d
        | Some local_index =>
            if negb (local_index =? primary_index rnd view) || bool_decide (is_Some (round_proposal rnd view))
            then Some d
            else
              match r with
              | None => Some d
              | Some proposal =>
                  match sign d signer height local_index view PrepareRequest
                          (enc prepare_request_codec (pp_request proposal)) with
                  | (d, Err _) => Some d
                  | (d, Ok m) =>
                      match process rnd m with
                      | (rnd, Err _) => Some (put_round d (Some rnd))
                      | (rnd, Ok _) =>
                          let d := put_round d (Some rnd) in
                          match publish (d_dbft d) m with
                          | (dbft, Err _) => Some (put_dbft d dbft)
                          | (dbft, Ok _) =>
                              let d := put_dbft d dbft in
                              let d := put_timer d (arm_post_proposal (d_timer d) height view) in
                              '(r, tasks) ← verify_local (env_send env) (d_recovery d) rnd view (message_hash m)
                                 (pp_request proposal) (pp_transactions proposal) (pp_sidecars proposal) (env_now env);
                              Some (put_recovery d r tasks)
                          end
                      end
                  end
              end
        end
  | _, _ => Some d
  end.

(** ** Activation *)

(** The round of the block after [canonical_height], from Governance and DKG state. *)
Definition activated_round (env : DriverEnv) (next_height : N) (set : GovernanceValidatorSet)
    (st : ActivationState) : option DbftRoundState :=
  let anti_mev := is_anti_mev_active_at_block env next_height in
  rnd ← result_ok (round_new next_height (Storage.sorted set) anti_mev);
  if anti_mev then
    parameters ← result_ok (dkg_parameters_new (lenN (Storage.sorted set)));
    dkg_state ← result_ok (read_dkg_state_from_storage (key_management_storage st) parameters);
    match install_dkg_state rnd (Storage.dkg_indices set) dkg_state with
    | (rnd, Ok _) => Some rnd
    | (_, Err _) => None
    end
  else Some rnd.

(** [st] is the provider's answer for the canonical block. *)
Definition activate_dbft_round (env : DriverEnv) (d : Driver) (canonical_height : N)
    (st : option ActivationState) : Driver :=
  let fail d := put_round (put_dbft d (deactivate (d_dbft d))) None in
  match checked_add U64_MAX canonical_height 1 with
  | None => fail d
  | Some next_height =>
      match st with
      | None => fail d
      | Some st =>
          match read_governance_validator_set_from_storage (governance_storage st) with
          | Err _ => fail d
          | Ok set =>
              match activate (d_dbft d) canonical_height (Storage.sorted set) with
              | (dbft, Err _) => fail (put_dbft d dbft)
              | (dbft, Ok _) =>
                  let d := put_dbft d dbft in
                  match activated_round env next_height set st with
                  | None => fail d
                  | Some rnd => put_round d (Some rnd)
                  end
              end
          end
      end
  end.

Definition reset_timer (d : Driver) : Driver := put_timer d (timer_reset (d_timer d) (d_round d) (d_signer d)).

(** A new canonical head: nothing of the old round is kept. *)
Definition canonical_update (env : DriverEnv) (d : Driver) (number : N) (st : option ActivationState) : Driver :=
  let d := put_attempts (put_verified (clear_recovery d) ∅) (reconstructor_clear (d_attempts d)) None in
  let d := put_builds d ∅ [] in
  let d := put_dbft d (update_height (d_dbft d) number) in
  reset_timer (activate_dbft_round env d number st).

(** ** The event loop *)

(** What the loop selects on, as far as the round is concerned. *)
Inductive DriverEvent : Type :=
| EvMessage (peer_id : PeerId) (m : DbftMessage)
| EvTimeout (timeout : DbftTimeout)
| EvMaintenance (reconciled : option (N * option ActivationState))
| EvPrimary (height view : N) (r : option PrimaryProposal)
| EvVerified (view : N) (proposal_hash : B256) (r : result DbftProposalError VerifiedProposal)
| EvReconstructed (view : N) (proposal_hash : B256) (r : result bool VerifiedProposal)
| EvCanonical (number : N) (st : option ActivationState)
| EvEstablished (peer_id : PeerId) (v2 : bool) (head_number : N) (st : option ActivationState)
| EvTransactions (peer_id : PeerId) (request_id : N) (txs : list pooled_tx)
| EvDisconnected (peer_id : PeerId).

Definition pending_order (env : DriverEnv) (d : Driver) : list ProposalKey :=
  env_keys env (pending (transactions (d_recovery d))).

Definition handle_event (env : DriverEnv) (d : Driver) (e : DriverEvent) : option Driver :=
  match e with
  | EvMessage peer_id m => process_dbft_messages env d [(peer_id, m)]
  | EvTimeout timeout =>
      let '(d, changed) := handle_dbft_timeout env d timeout in
      Some (maybe_schedule_primary_proposal (if changed then clear_recovery d else d))
  | EvMaintenance reconciled =>
      '(r, tasks) ← recovery_expire_requests (env_send env) (d_recovery d) (pending_order env d) (d_round d)
         (env_now env);
      let d := put_recovery d r tasks in
      let d := match reconciled with Some (number, st) => canonical_update env d number st | None => d end in
      Some (match d_round d with Some rnd => anti_mev_schedule env d rnd (current_view rnd) | None => d end)
  | EvPrimary height view r => handle_primary_proposal env d height view r
  | EvVerified view proposal_hash r =>
      Some (maybe_schedule_primary_proposal (handle_proposal_verification env d view proposal_hash r))
  | EvReconstructed view proposal_hash r => Some (handle_antimev_reconstruction env d view proposal_hash r)
  | EvCanonical number st => Some (canonical_update env d number st)
  | EvEstablished peer_id v2 head_number st =>
      '(r, tasks) ← connect_peer (env_send env) (d_recovery d) (pending_order env d) peer_id v2 (d_round d)
         (env_now env);
      let d := put_recovery d r tasks in
      Some (match d_round d with
            | Some _ => d
            | None => reset_timer (activate_dbft_round env d head_number st)
            end)
  | EvTransactions peer_id id txs =>
      '(r, tasks) ← recovery_supply (env_send env) (d_recovery d) peer_id id txs (d_round d) (env_now env);
      Some (put_recovery d r tasks)
  | EvDisconnected peer_id =>
      '(r, tasks) ← disconnect_peer (env_send env) (d_recovery d) (pending_order env d) peer_id (d_round d)
         (env_now env);
      Some (put_recovery d r tasks)
  end.

Definition round_epoch (d : Driver) : option (N * N) :=
  (fun rnd => (rs_height rnd, current_view rnd)) <$> d_round d.

(** One iteration of the loop. *)
Definition driver_step (env : DriverEnv) (d : Driver) (e : DriverEvent) : option Driver :=
  d' ← handle_event env d e;
  if bool_decide (round_epoch d' = round_epoch d) then Some d' else replay_cached_dbft_messages env d'.

(** Startup: the first activation, and the primary's immediate proposal. [seals] are those
    of earlier runs. *)
Definition driver_start (env : DriverEnv) (signer : option DbftSigner) (dbft : DbftProtocol) (block_period : N)
    (writes : list WriteOutcome) (seals : list SealRequest) (head_number : N) (st : option ActivationState)
    : Driver :=
  let d := mkDriver None signer (update_height dbft head_number) ∅ (timer_channel block_period)
             future_default recovery_channel ∅ ∅ writes [] seals in
  maybe_schedule_primary_proposal (reset_timer (activate_dbft_round env d head_number st)).
End driver.
