(* ===== verification/Proposal.v ===== *)
(** Verification of a proposal (crates/neox/node/src/proposal.rs): the header against its
    parent, the transactions through the scratch pool and the executor, and the
    commitments to the next consensus, with Reth's block checks
    (crates/consensus/common/src/validation.rs, crates/ethereum/consensus/src/validation.rs). *)

From S2P Require Import Prelude Extern Instances Extra Validation ChainSpec Consensus.
From S2P Require Import Tpke Wire Payload DkgParams Storage AntiMev StaticPool Execution ProposalRecovery Driver.

(** ** Blocks *)

(** Trie roots, blooms and lengths computed by alloy, and the post-state root of Reth's
    database. *)
Class BlockRoots {X : SignedTransactions} {V : Revm} (E : EthExecutor X V) : Type := {
  calculate_tx_root : list eth_tx -> B256;
  (** of no ommers and of no withdrawals *)
  no_ommers_root : B256;
  no_withdrawals_root : B256;
  calculate_receipt_root : list receipt -> B256;
  (** the union of the blooms of the receipts *)
  logs_bloom_of : list receipt -> bytes;
  requests_hash_of : requests -> B256;
  block_rlp_length : Header -> list eth_tx -> N;
  MAX_RLP_BLOCK_SIZE : N;
  state_root_of : StateProvider -> state_bundle -> result string B256;
}.

(** Blob sidecars and their KZG validation. *)
Class BlobSidecars (X : SignedTransactions) : Type := {
  beacon_sidecar : Type;
  blob_versioned_hashes : eth_tx -> list B256;
  validate_sidecar : beacon_sidecar -> list B256 -> bool;
}.

Inductive BlockError : Type :=
| BodyOmmersHashDiff
| BodyWithdrawalsMissing | BodyWithdrawalsUnexpected | BodyWithdrawalsRootMissing | BodyWithdrawalsRootDiff
| BodyBlobGasUsedMissing | BlobGasUsedDiff (got expected : N)
| BlockTooLarge (rlp_length : N)
| BodyTransactionRootDiff
| BlockGasUsed (got expected : N)
| BodyReceiptRootDiff | BodyBloomLogDiff
| BodyRequestsHashMissing | BodyRequestsHashDiff
| BodyBlockAccessListHashMissing.

Section blocks.
Context {X : SignedTransactions} {D : TransactionDetails X} {V : Revm} {E : EthExecutor X V} {Q : BlockRoots E} {S : BlobSchedule}.

(** The sum wraps in a release build. *)
Definition block_blob_gas_used (l : list eth_tx) : N :=
  foldr (fun t total => wrapping_add U64_MAX (default 0 (blob_gas_used_by t)) total) 0 l.

Definition validate_cancun_gas (header : Header) (l : list eth_tx) : result BlockError unit :=
  let? used := ok_or (blob_gas_used header) BodyBlobGasUsedMissing in
  let total := block_blob_gas_used l in
  if total =? used then Ok tt else Err (BlobGasUsedDiff used total).

(** [withdrawals]: whether the body has the field; a Neo X body has no entries in it. *)
Definition validate_shanghai_withdrawals (header : Header) (withdrawals : bool) : result BlockError unit :=
  if negb withdrawals then Err BodyWithdrawalsMissing
  else
    let? root := ok_or (withdrawals_root header) BodyWithdrawalsRootMissing in
    if bool_decide (root = no_withdrawals_root) then Ok tt else Err BodyWithdrawalsRootDiff.

Definition post_merge_hardfork_fields (spec : EthChainSpec) (header : Header) (l : list eth_tx) (withdrawals : bool)
    : result BlockError unit :=
  if negb (bool_decide (ommers_hash header = no_ommers_root)) then Err BodyOmmersHashDiff
  else
    let? _ :=
      if is_shanghai_active_at_timestamp spec (timestamp header) then validate_shanghai_withdrawals header withdrawals
      else if withdrawals then Err BodyWithdrawalsUnexpected else Ok tt in
    let? _ :=
      if is_cancun_active_at_timestamp spec (timestamp header) then validate_cancun_gas header l else Ok tt in
    if is_osaka_active_at_timestamp spec (timestamp header) && (MAX_RLP_BLOCK_SIZE <? block_rlp_length header l)
    then Err (BlockTooLarge (block_rlp_length header l)) else Ok tt.

Definition validate_block_pre_execution (spec : EthChainSpec) (header : Header) (l : list eth_tx) (withdrawals : bool)
    : result BlockError unit :=
  let? _ := post_merge_hardfork_fields spec header l withdrawals in
  if bool_decide (calculate_tx_root l = transactions_root header) then Ok tt else Err BodyTransactionRootDiff.

Definition compare_receipts_root_and_logs_bloom (receipts_root : B256) (bloom : bytes) (header : Header)
    : result BlockError unit :=
  if negb (bool_decide (receipts_root = Extern.receipts_root header)) then Err BodyReceiptRootDiff
  else if negb (bool_decide (bloom = logs_bloom header)) then Err BodyBloomLogDiff
  else Ok tt.

(** Without a precomputed receipts root or access-list hash, as the proposal path calls it. *)
Definition validate_block_post_execution (spec : EthChainSpec) (header : Header) (r : BlockExecutionResult)
    : result BlockError unit :=
  if negb (gas_used header =? result_gas_used r) then Err (BlockGasUsed (result_gas_used r) (gas_used header))
  else
    let? _ :=
      if is_byzantium_active_at_block spec (number header)
      then compare_receipts_root_and_logs_bloom (calculate_receipt_root (result_receipts r))
             (logs_bloom_of (result_receipts r)) header
      else Ok tt in
    let? _ :=
      if is_prague_active_at_timestamp spec (timestamp header) then
        let? hash := ok_or (requests_hash header) BodyRequestsHashMissing in
        if bool_decide (requests_hash_of (result_requests r) = hash) then Ok tt else Err BodyRequestsHashDiff
      else Ok tt in
    if is_amsterdam_active_at_timestamp spec (timestamp header) then Err BodyBlockAccessListHashMissing else Ok tt.
End blocks.

(** ** Commitments to the next consensus *)

Section commitments.
Context {C : Crypto} {B : Blst} {X : SignedTransactions} {V : Revm} {E : EthExecutor X V} {S : BlobSchedule}.

(** A word of the post-state: the block's own changes first, then the parent state. *)
Definition post_storage (bundle : state_bundle) (state : StateProvider) (address : Address) (key : B256)
    : result string (option U256) :=
  match bundle_storage bundle address (N_of_be key) with
  | Some value => Ok (Some value)
  | None => provider_storage state address key
  end.

Definition post_governance (bundle : state_bundle) (state : StateProvider) : result GovernanceError GovernanceValidatorSet :=
  read_governance_validator_set_from_storage (fun key =>
    map_err GovernanceProvider (post_storage bundle state GOVERNANCE_PROXY_ADDRESS key)).

Definition read_next_dkg_or_fallback (anti_mev_active : bool) (parameters : DkgParameters)
    (storage : B256 -> result DkgStateError (option U256)) : option DkgState :=
  if anti_mev_active then result_ok (read_dkg_state_from_storage storage parameters) else None.

Definition post_dkg (spec : NeoXChainSpec) (next_height : N) (parameters : DkgParameters) (bundle : state_bundle)
    (state : StateProvider) : option DkgState :=
  read_next_dkg_or_fallback (anti_mev_active_at_block spec next_height) parameters (fun key =>
    map_err DkgProvider (post_storage bundle state KEY_MANAGEMENT_PROXY_ADDRESS key)).

Definition dkg_key (dkg : option DkgState) : option bytes := (fun s => global_public_key (current s)) <$> dkg.

(** The header fields of producer.rs's [apply_next_consensus_commitments]. *)
Definition with_commitments (header : Header) (extra : bytes) (mix : B256) : Header :=
  {| parent_hash := parent_hash header; ommers_hash := ommers_hash header; beneficiary := beneficiary header;
     state_root := state_root header; transactions_root := transactions_root header;
     receipts_root := receipts_root header; logs_bloom := logs_bloom header; difficulty := difficulty header;
     number := number header; gas_limit := gas_limit header; gas_used := gas_used header;
     timestamp := timestamp header; extra_data := extra; mix_hash := mix; nonce := nonce header;
     base_fee_per_gas := base_fee_per_gas header; withdrawals_root := withdrawals_root header;
     blob_gas_used := blob_gas_used header; excess_blob_gas := excess_blob_gas header;
     parent_beacon_block_root := parent_beacon_block_root header; requests_hash := requests_hash header;
     block_access_list_hash := block_access_list_hash header; slot_number := slot_number header |}.

Definition apply_next_consensus_commitments (spec : NeoXChainSpec) (header : Header) (scheme : SignatureScheme)
    (next_validators : GovernanceValidatorSet) (next_dkg_public_key : option bytes) : result DbftExtraError Header :=
  let fallback_next_consensus := next_consensus_hash (Storage.sorted next_validators) in
  let version := extra_version_at_block spec (number header) in
  let fallback := match version with V0 => None | V1 | V2 => Some fallback_next_consensus end in
  let? prefix := DbftExtraPrefix.new version scheme fallback in
  let? extra := DbftExtraPrefix.encode prefix in
  let mix :=
    match next_dkg_public_key with
    | Some key => keccak256 key
    | None =>
        if anti_mev_active_at_block spec (saturating_add U64_MAX (number header) 1) then ZERO_B256
        else fallback_next_consensus
    end in
  Ok (with_commitments header extra mix).
End commitments.

(** ** Verification *)

Section providers.
Context {X : SignedTransactions} {V : Revm} {E : EthExecutor X V}.

(** [StateProviderFactory] and [HeaderProvider] *)
Record ChainProvider : Type := mkChainProvider {
  sealed_header_at : N -> result string (option Header);
  sealed_header_by_hash : B256 -> result string (option Header);
  state_by_block_hash : B256 -> result string StateProvider;
}.
End providers.

(** The parts of a verified proposal beside its header, its parent and its Envelopes. *)
Record VerifiedBlock {X : SignedTransactions} {V : Revm} (E : EthExecutor X V) (Y : BlobSidecars X) : Type := mkVerifiedBlock {
  vb_transactions : list eth_tx;
  vb_senders : list Address;
  vb_withdrawals : bool;
  vb_sidecars : list beacon_sidecar;
  vb_parent_base_fee : N;
  vb_parent_gas_limit : N;
  vb_parent_spec : SpecId;
  vb_parent_reseal : option Header;
  vb_bundle : state_bundle;
  vb_result : BlockExecutionResult;
  vb_next_validators : GovernanceValidatorSet;
  vb_next_dkg : option DkgState;
}.
Arguments vb_transactions {X V E Y}.
Arguments vb_senders {X V E Y}.
Arguments vb_withdrawals {X V E Y}.
Arguments vb_sidecars {X V E Y}.
Arguments vb_parent_base_fee {X V E Y}.
Arguments vb_parent_gas_limit {X V E Y}.
Arguments vb_parent_spec {X V E Y}.
Arguments vb_parent_reseal {X V E Y}.
Arguments vb_bundle {X V E Y}.
Arguments vb_result {X V E Y}.
Arguments vb_next_validators {X V E Y}.
Arguments vb_next_dkg {X V E Y}.

#[export] Instance executed_contents {X : SignedTransactions} {V : Revm} (E : EthExecutor X V) (Y : BlobSidecars X)
    : BlockContents := {| block_contents := VerifiedBlock E Y |}.

Section verify.
Context {R : AlloyRlp} {C : Crypto} {B : Blst} {Sy : Symmetric} {K : EthConstants} {S : BlobSchedule}.
Context {X : SignedTransactions} {D : TransactionDetails X} {V : Revm} {E : EthExecutor X V} {Q : BlockRoots E} {Y : BlobSidecars X}.

Definition validate_transaction_hashes (request : DbftPrepareRequest) (l : list eth_tx) : result DbftProposalError unit :=
  if negb (lenN (transaction_hashes request) =? lenN l) then Err ErrTransactionCount
  else if bool_decide (transaction_hashes request = map eth_tx_hash l) then Ok tt else Err ErrTransactionHash.

(** The blob hashes of the transactions that carry any. *)
Definition blob_hash_lists (l : list eth_tx) : list (list B256) :=
  filter (fun hashes => hashes <> []) (map blob_versioned_hashes (filter (fun t => tx_ty t = TX_TYPE_EIP4844) l)).

Definition validate_proposal_sidecars (l : list eth_tx) (sidecars : list beacon_sidecar) : result DbftProposalError unit :=
  let blob_hashes := blob_hash_lists l in
  if negb (lenN blob_hashes =? lenN sidecars) then Err ErrSidecarCount
  else if forallb (fun '(hashes, sidecar) => validate_sidecar sidecar hashes) (zip blob_hashes sidecars)
  then Ok tt else Err ErrInvalidSidecar.

Record ResolvedProposalParent : Type := mkResolvedProposalParent {
  rp_header : Header;
  rp_state_hash : B256;
  rp_reseal : option Header;
}.

(** [now] and [eth_now] are the clock readings of the witness's header checks. *)
Definition resolve_proposal_parent (spec : NeoXChainSpec) (now eth_now : option N) (request : DbftPrepareRequest)
    (provider : ChainProvider) : result DbftProposalError ResolvedProposalParent :=
  let? parent_number := ok_or (checked_sub (number (sealing_proposal request)) 1) ErrGenesisProposal in
  let? found := map_err (fun _ => ErrProvider) (sealed_header_at provider parent_number) in
  let? canonical_parent := ok_or found ErrMissingCanonicalParent in
  let state_hash := hash_slow canonical_parent in
  let proposed := parent_hash (sealing_proposal request) in
  if bool_decide (proposed = state_hash) then Ok (mkResolvedProposalParent canonical_parent state_hash None)
  else if parent_number =? 0 then Err ErrGenesisParentMismatch
  else
    let? parent_seal_hash := ok_or (parent_seal_hash_v0 request) ErrMissingParentSealHash in
    let? parent_extra := ok_or (parent_extra request) ErrMissingParentExtra in
    let? found := map_err (fun _ => ErrProvider) (sealed_header_by_hash provider (parent_hash canonical_parent)) in
    let? grandparent := ok_or found ErrMissingGrandparent in
    let? resealed :=
      map_err (fun _ => ErrParentWitness)
        (validate_parent_reseal spec now eth_now canonical_parent grandparent parent_seal_hash parent_extra proposed) in
    Ok (mkResolvedProposalParent resealed state_hash (Some resealed)).

(** Every transaction but the blob transactions goes through the scratch pool. *)
Fixpoint admit_all (p : StaticPoolAdmission) (l : list (eth_tx * Address)) : result DbftProposalError unit :=
  match l with
  | [] => Ok tt
  | (t, sender) :: rest =>
      if tx_ty t =? TX_TYPE_EIP4844 then admit_all p rest
      else match pool_add p sender t with
           | (p, Ok _) => admit_all p rest
           | (_, Err _) => Err ErrPoolRejection
           end
  end.

Definition validate_proposal_pool_admission (l : list (eth_tx * Address)) (head : StaticPoolHead) (state : StateProvider)
    : result DbftProposalError unit :=
  let? p := map_err (fun _ => ErrProvider) (pool_new state head l.*2) in admit_all p l.

(** The Envelopes of the proposal, at the DKG round of the parent state. *)
Definition discover_envelopes (spec : NeoXChainSpec) (header : Header) (l : list eth_tx) (state : StateProvider)
    : result DbftProposalError (option AntiMevProposal) :=
  if anti_mev_active_at_block spec (number header) then
    let? current_validators := map_err (fun _ => ErrGovernance)
      (read_governance_validator_set_from_storage (fun key =>
         map_err GovernanceProvider (provider_storage state GOVERNANCE_PROXY_ADDRESS key))) in
    let? parameters := map_err (fun _ => ErrDkg) (dkg_parameters_new (lenN (Storage.sorted current_validators))) in
    let? dkg_state := map_err (fun _ => ErrDkg)
      (read_dkg_state_from_storage (fun key =>
         map_err DkgProvider (provider_storage state KEY_MANAGEMENT_PROXY_ADDRESS key)) parameters) in
    let? proposal := map_err (fun _ => ErrAntiMevProposal) (from_transactions l (round (current dkg_state))) in
    Ok (Some proposal)
  else Ok None.

(** The next validators and the next DKG state, committed to in the header. *)
Definition verify_commitments (spec : NeoXChainSpec) (header : Header) (prefix : DbftExtraPrefix.t)
    (bundle : state_bundle) (state : StateProvider)
    : result DbftProposalError (GovernanceValidatorSet * option DkgState) :=
  let? next_validators := map_err (fun _ => ErrGovernance) (post_governance bundle state) in
  let fallback_next_consensus := next_consensus_hash (Storage.sorted next_validators) in
  if negb (bool_decide (DbftExtraPrefix.version prefix = V0)) &&
     negb (bool_decide (DbftExtraPrefix.fallback_next_consensus prefix = Some fallback_next_consensus))
  then Err ErrFallbackNextConsensus
  else
    let? next_height := ok_or (checked_add U64_MAX (number header) 1) ErrHeightOverflow in
    let? parameters := map_err (fun _ => ErrDkg) (dkg_parameters_new (lenN (Storage.sorted next_validators))) in
    let next_dkg := post_dkg spec next_height parameters bundle state in
    let expected_next_consensus :=
      match next_dkg with
      | Some dkg => keccak256 (global_public_key (current dkg))
      | None => if anti_mev_active_at_block spec next_height then ZERO_B256 else fallback_next_consensus
      end in
    if bool_decide (mix_hash header = expected_next_consensus) then Ok (next_validators, next_dkg)
    else Err ErrNextConsensus.

Definition verify_proposal (spec : NeoXChainSpec) (now eth_now : option N) (provider : ChainProvider)
    (request : DbftPrepareRequest) (transactions : list eth_tx) (sidecars : list beacon_sidecar) (expected_primary : N)
    : result DbftProposalError VerifiedProposal :=
  let? _ := validate_transaction_hashes request transactions in
  let? _ := validate_proposal_sidecars transactions sidecars in
  let header := sealing_proposal request in
  let? prefix := map_err (fun _ => ErrInvalidExtra) (DbftExtraPrefix.decode (extra_data header)) in
  if negb (bool_decide (DbftExtraPrefix.version prefix = extra_version_at_block spec (number header)))
  then Err ErrUnexpectedExtraVersion
  else if negb (anti_mev_active_at_block spec (number header)) &&
          bool_decide (DbftExtraPrefix.signature_scheme prefix = Threshold)
  then Err ErrThresholdBeforeAntiMev
  else
    let withdrawals := is_shanghai_active_at_timestamp (inner spec) (timestamp header) in
    let? parent := resolve_proposal_parent spec now eth_now request provider in
    let? _ := map_err (fun _ => ErrHeader) (engine_validate_proposal_header spec header (rp_header parent) expected_primary) in
    let? _ := map_err (fun _ => ErrPreExecution) (validate_block_pre_execution (inner spec) header transactions withdrawals) in
    let? senders := ok_or (mapM AntiMev.recover_signer transactions) ErrSenderRecovery in
    let? state := map_err (fun _ => ErrProvider) (state_by_block_hash provider (rp_state_hash parent)) in
    let parent_spec := cfg_spec (evm_env (rp_header parent)) in
    let block := zip transactions senders in
    let? _ := validate_proposal_pool_admission block (mkStaticPoolHead _ (gas_limit (rp_header parent)) parent_spec) state in
    let? anti_mev := discover_envelopes spec header transactions state in
    let? (bundle, result) := map_err (fun _ => ErrExecution) (execute_block spec state header withdrawals block) in
    let? _ := map_err (fun _ => ErrPostExecution) (validate_block_post_execution (inner spec) header result) in
    let? root := map_err (fun _ => ErrProvider) (state_root_of state bundle) in
    if negb (bool_decide (root = state_root header)) then Err ErrStateRoot
    else
      let? (next_validators, next_dkg) := verify_commitments spec header prefix bundle state in
      Ok (mkVerifiedProposal header (rp_state_hash parent) anti_mev
            (mkVerifiedBlock _ _ _ _ transactions senders withdrawals sidecars
               (default 0 (base_fee_per_gas (rp_header parent))) (gas_limit (rp_header parent)) parent_spec
               (rp_reseal parent) bundle result next_validators next_dkg)).
End verify.

(** ** What verification establishes *)

Section facts.
Context {R : AlloyRlp} {C : Crypto} {B : Blst} {Sy : Symmetric} {K : EthConstants} {S : BlobSchedule}.
Context {X : SignedTransactions} {D : TransactionDetails X} {V : Revm} {E : EthExecutor X V} {Q : BlockRoots E} {Y : BlobSidecars X}.

(** The parent a proposal is verified against: the canonical block of the height below or
    the same block under a witness that passes the checks of header validation. *)
Definition parent_resolved (spec : NeoXChainSpec) (provider : ChainProvider) (request : DbftPrepareRequest)
    (parent : Header) (state_hash : B256) : Prop :=
  exists canonical, sealed_header_at provider (number (sealing_proposal request) - 1) = Ok (Some canonical) /\
    0 < number (sealing_proposal request) /\ state_hash = hash_slow canonical /\
    (parent = canonical \/
     exists grandparent now eth_now seal_hash extra,
       sealed_header_by_hash provider (parent_hash canonical) = Ok (Some grandparent) /\
       validate_parent_reseal spec now eth_now canonical grandparent seal_hash extra
         (parent_hash (sealing_proposal request)) = Ok parent).

Record verified (spec : NeoXChainSpec) (provider : ChainProvider) (request : DbftPrepareRequest)
    (transactions : list eth_tx) (primary : N) (v : VerifiedProposal) (parent : Header) (state : StateProvider)
    (prefix : DbftExtraPrefix.t) : Prop := {
  vf_header : vp_header v = sealing_proposal request;
  vf_hashes : transaction_hashes request = map eth_tx_hash transactions;
  vf_transactions : vb_transactions (vp_contents v) = transactions;
  vf_senders : mapM AntiMev.recover_signer transactions = Some (vb_senders (vp_contents v));
  vf_prefix : DbftExtraPrefix.decode (extra_data (vp_header v)) = Ok prefix;
  vf_version : DbftExtraPrefix.version prefix = extra_version_at_block spec (number (vp_header v));
  vf_parent : parent_resolved spec provider request parent (parent_state_hash v);
  vf_checked : engine_validate_proposal_header spec (vp_header v) parent primary = Ok tt;
  vf_body : validate_block_pre_execution (inner spec) (vp_header v) transactions (vb_withdrawals (vp_contents v)) = Ok tt;
  vf_withdrawals : vb_withdrawals (vp_contents v) = is_shanghai_active_at_timestamp (inner spec) (timestamp (vp_header v));
  vf_state : state_by_block_hash provider (parent_state_hash v) = Ok state;
  vf_parent_gas_limit : vb_parent_gas_limit (vp_contents v) = gas_limit parent;
  vf_parent_spec : vb_parent_spec (vp_contents v) = cfg_spec (evm_env parent);
  vf_pool : validate_proposal_pool_admission (zip transactions (vb_senders (vp_contents v)))
              (mkStaticPoolHead _ (gas_limit parent) (cfg_spec (evm_env parent))) state = Ok tt;
  vf_envelopes : discover_envelopes spec (vp_header v) transactions state = Ok (vp_anti_mev v);
  vf_executed : execute_block spec state (vp_header v) (vb_withdrawals (vp_contents v))
                  (zip transactions (vb_senders (vp_contents v))) = Ok (vb_bundle (vp_contents v), vb_result (vp_contents v));
  vf_result : validate_block_post_execution (inner spec) (vp_header v) (vb_result (vp_contents v)) = Ok tt;
  vf_root : state_root_of state (vb_bundle (vp_contents v)) = Ok (state_root (vp_header v));
  vf_commitments : verify_commitments spec (vp_header v) prefix (vb_bundle (vp_contents v)) state =
    Ok (vb_next_validators (vp_contents v), vb_next_dkg (vp_contents v));
}.

Lemma resolve_parent_Ok spec now eth_now request provider p :
  resolve_proposal_parent spec now eth_now request provider = Ok p ->
  parent_resolved spec provider request (rp_header p) (rp_state_hash p).
Proof.
  unfold resolve_proposal_parent, parent_resolved, checked_sub. intros H.
  apply result_bind_Ok in H as (n & Hn%ok_or_Ok & H). destruct (N.leb_spec 1 (number (sealing_proposal request))); [|done].
  injection Hn as <-. apply result_bind_Ok in H as (found & Hf%map_err_Ok & H).
  apply result_bind_Ok in H as (canonical & ->%ok_or_Ok & H). exists canonical.
  case_bool_decide; [injection H as <-; split_and!; [done|lia|done|by left]|].
  destruct (_ =? 0); [done|]. apply result_bind_Ok in H as (sh & _ & H). apply result_bind_Ok in H as (extra & _ & H).
  apply result_bind_Ok in H as (g & Hg%map_err_Ok & H). apply result_bind_Ok in H as (gp & ->%ok_or_Ok & H).
  apply result_bind_Ok in H as (r & Hr%map_err_Ok & [= <-]). split_and!; [done|lia|done|]. right. by exists gp, now, eth_now, sh, extra.
Qed.

Lemma verify_proposal_Ok spec now eth_now provider request transactions sidecars primary v :
  verify_proposal spec now eth_now provider request transactions sidecars primary = Ok v ->
  exists parent state prefix, verified spec provider request transactions primary v parent state prefix.
Proof.
  unfold verify_proposal. intros H. apply result_bind_Ok in H as ([] & Hh & H). apply result_bind_Ok in H as ([] & Hs & H).
  apply result_bind_Ok in H as (prefix & Hp%map_err_Ok & H). case_bool_decide as Hv; [|done]. cbn [negb] in H.
  destruct (negb _ && _); [done|]. apply result_bind_Ok in H as (p & Hpar & H).
  apply result_bind_Ok in H as ([] & Hc%map_err_Ok & H). apply result_bind_Ok in H as ([] & Hb%map_err_Ok & H).
  apply result_bind_Ok in H as (senders & Hsn%ok_or_Ok & H). apply result_bind_Ok in H as (state & Hst%map_err_Ok & H).
  apply result_bind_Ok in H as ([] & Hpool & H). apply result_bind_Ok in H as (am & Ham & H).
  apply result_bind_Ok in H as ([bundle r] & Hx%map_err_Ok & H). apply result_bind_Ok in H as ([] & Hr%map_err_Ok & H).
  apply result_bind_Ok in H as (root & Hroot%map_err_Ok & H). case_bool_decide as Er; [|done]. cbn [negb] in H.
  apply result_bind_Ok in H as ([nv nd] & Hcom & [= <-]). apply resolve_parent_Ok in Hpar.
  exists (rp_header p), state, prefix. split; try done; [|cbn; by rewrite Hroot, Er].
  unfold validate_transaction_hashes in Hh. destruct (negb _); [done|]. by case_bool_decide.
Qed.

(** A proposal's extra data is exactly its prefix. *)
Lemma proposal_extra spec header parent primary prefix :
  engine_validate_proposal_header spec header parent primary = Ok tt ->
  DbftExtraPrefix.decode (extra_data header) = Ok prefix -> DbftExtraPrefix.encode prefix = Ok (extra_data header).
Proof.
  unfold engine_validate_proposal_header. intros H Hd. apply result_bind_Ok in H as ([] & _ & H).
  apply result_bind_Ok in H as ([] & H & _). unfold validate_neox_proposal_header in H. rewrite Hd in H. cbn [map_err result_bind] in H.
  fold (prefix_len (DbftExtraPrefix.version prefix)) in H.
  destruct (N.eqb_spec (lenN (extra_data header)) (prefix_len (DbftExtraPrefix.version prefix))) as [Hl|]; [|done].
  apply prefix_decode_inv in Hd as (pre & rest & Er & He & Hpl & _). rewrite Er, lenN_app, Hpl in Hl.
  assert (rest = []) as -> by (destruct rest; [done|unfold lenN in Hl; cbn in Hl; lia]). by rewrite Er, app_nil_r.
Qed.

Lemma with_commitments_id header : with_commitments header (extra_data header) (mix_hash header) = header.
Proof. by destruct header. Qed.

(** Recomputing the commitments of a verified proposal changes nothing. *)
Lemma commitments_stable spec header parent primary prefix bundle state nv nd :
  engine_validate_proposal_header spec header parent primary = Ok tt ->
  DbftExtraPrefix.decode (extra_data header) = Ok prefix ->
  DbftExtraPrefix.version prefix = extra_version_at_block spec (number header) ->
  verify_commitments spec header prefix bundle state = Ok (nv, nd) ->
  apply_next_consensus_commitments spec header (DbftExtraPrefix.signature_scheme prefix) nv (dkg_key nd) = Ok header.
Proof.
  intros Hc Hd Hv H. pose proof (proposal_extra _ _ _ _ _ Hc Hd) as He. unfold verify_commitments in H.
  apply result_bind_Ok in H as (nv' & _ & H). destruct (negb _ && negb _) eqn:Ef; [done|].
  apply result_bind_Ok in H as (m & Hm%ok_or_Ok & H). apply checked_add_Some in Hm as [-> Hm].
  apply result_bind_Ok in H as (params & _ & H). case_bool_decide as Emix; [|done]. injection H as -> <-.
  unfold apply_next_consensus_commitments. rewrite <- Hv.
  replace (saturating_add U64_MAX (number header) 1) with (number header + 1) by (unfold saturating_add; lia).
  apply prefix_decode_inv in Hd as (_ & _ & _ & _ & _ & Hcase). destruct prefix as [ver sc fb]. cbn in *.
  assert (Hnew : DbftExtraPrefix.new ver sc match ver with V0 => None | V1 | V2 => Some (next_consensus_hash (Storage.sorted nv)) end
    = Ok (DbftExtraPrefix.mk ver sc fb)).
  { destruct ver; [by destruct Hcase as [-> ->]|..]; cbn in Ef; apply negb_false_iff, bool_decide_eq_true in Ef as ->; done. }
  rewrite Hnew. cbn [result_bind]. rewrite He. cbn [result_bind].
  replace (match dkg_key _ with Some key => _ | None => _ end) with (mix_hash header);
    [by rewrite with_commitments_id|]. rewrite Emix. by destruct (post_dkg _ _ _ _ _).
Qed.

(** What applying the commitments writes. *)
Lemma commitments_applied {CL : CryptoLaws C} spec header sc nv key header' :
  apply_next_consensus_commitments spec header sc nv key = Ok header' ->
  exists prefix, header' = with_commitments header (extra_data header') (mix_hash header') /\
    DbftExtraPrefix.decode (extra_data header') = Ok prefix /\ DbftExtraPrefix.encode prefix = Ok (extra_data header') /\
    DbftExtraPrefix.version prefix = extra_version_at_block spec (number header) /\
    DbftExtraPrefix.signature_scheme prefix = sc /\
    (DbftExtraPrefix.version prefix <> V0 ->
       DbftExtraPrefix.fallback_next_consensus prefix = Some (next_consensus_hash (Storage.sorted nv))) /\
    mix_hash header' = match key with
                       | Some k => keccak256 k
                       | None => if anti_mev_active_at_block spec (saturating_add U64_MAX (number header) 1) then ZERO_B256
                                 else next_consensus_hash (Storage.sorted nv)
                       end.
Proof.
  unfold apply_next_consensus_commitments. intros H. apply result_bind_Ok in H as (p & Hp & H).
  apply result_bind_Ok in H as (extra & He & [= <-]). exists p. cbn [extra_data mix_hash with_commitments].
  destruct (prefix_encode_decode p extra [] He) as (Hd & _ & _).
  { destruct (extra_version_at_block spec (number header)); unfold DbftExtraPrefix.new in Hp.
    - destruct sc; [|done]. by injection Hp as <-.
    - injection Hp as <-. eexists. split; [done|]. apply keccak256_len.
    - injection Hp as <-. eexists. split; [done|]. apply keccak256_len. }
  rewrite app_nil_r in Hd. split_and!; try done;
    destruct (extra_version_at_block spec (number header)); unfold DbftExtraPrefix.new in Hp;
    (destruct sc; [|try done]); by injection Hp as <-.
Qed.

(** Applied commitments verify. *)
Lemma commitments_verify {CL : CryptoLaws C} spec header sc nv params bundle state header' :
  number header < U64_MAX -> post_governance bundle state = Ok nv ->
  dkg_parameters_new (lenN (Storage.sorted nv)) = Ok params ->
  let nd := post_dkg spec (number header + 1) params bundle state in
  apply_next_consensus_commitments spec header sc nv (dkg_key nd) = Ok header' ->
  exists prefix, DbftExtraPrefix.decode (extra_data header') = Ok prefix /\
    DbftExtraPrefix.version prefix = extra_version_at_block spec (number header') /\
    DbftExtraPrefix.signature_scheme prefix = sc /\ DbftExtraPrefix.encode prefix = Ok (extra_data header') /\
    verify_commitments spec header' prefix bundle state = Ok (nv, nd).
Proof.
  intros Hn Hg Hpar nd H. destruct (commitments_applied _ _ _ _ _ _ H) as (prefix & Eh & Hd & He & Hv & Hs & Hf & Hm).
  assert (En : number header' = number header) by (rewrite Eh; done). exists prefix. rewrite En. split_and!; try done.
  unfold verify_commitments. rewrite Hg. cbn [map_err result_bind].
  destruct (negb _ && negb _) eqn:Ef.
  { apply andb_true_iff in Ef as [E1%negb_true_iff%bool_decide_eq_false E2%negb_true_iff%bool_decide_eq_false].
    by apply Hf in E1. }
  unfold checked_add. rewrite En, (proj2 (N.leb_le _ _)) by lia. cbn [ok_or result_bind]. rewrite Hpar. cbn [map_err result_bind].
  fold nd. replace (saturating_add U64_MAX (number header) 1) with (number header + 1) in Hm by (unfold saturating_add; lia).
  rewrite bool_decide_eq_true_2; [done|]. rewrite Hm. by destruct nd.
Qed.
End facts.
