(* ===== verification/Pool.v ===== *)
(** Admission to the node's transaction pool (crates/neox/node/src/pool.rs): the Envelope
    ciphertext and the Policy, checked on one pinned state after Reth's own validation.
    The Policy is implemented three times: here, in the scratch pool of proposals and in
    the block executor. *)

From S2P Require Import Prelude Extern Instances ChainSpec Tpke DkgParams Storage AntiMev StaticPool Execution.

(** ** Errors *)

Inductive NeoXPoolPolicyError : Type :=
| PoolProvider (error : string)
| PoolBlockedSender (sender : Address)
| BaseFeeOutOfRange (base_fee : U256)
| PoolEnvelopeGasAbovePolicy (gas_limit : N) (maximum_gas : U256)
| PoolEncryptedGasBelowMinimum (inner_gas : N)
| PoolEnvelopeGasBelowEncrypted (gas_limit inner_gas : N)
| InvalidEnvelopeCiphertext (error : TpkeError)
| FeeCapBelowPolicyBaseFee (fee_cap base_fee : N)
| PoolTipBelowPolicy (effective_tip : N) (minimum_tip base_fee : U256)
| PoolPolicyPanic.

(** [PoolTransactionError::is_bad_transaction] *)
Definition is_bad_transaction (e : NeoXPoolPolicyError) : bool :=
  match e with InvalidEnvelopeCiphertext _ => true | _ => false end.

(** alloy: what a pool asks of a transaction beyond its fields. *)
Class PoolTransactions (X : SignedTransactions) : Type := {
  effective_tip_per_gas : eth_tx -> N -> option N;
  max_fee_per_blob_gas : eth_tx -> option N;
}.

Class PoolTransactionsLaws {X : SignedTransactions} (D : TransactionDetails X) (P : PoolTransactions X) : Prop := {
  (** the tip left by the base fee, within the priority fee; none if the fee cap is below it *)
  effective_tip_law t base_fee :
    effective_tip_per_gas t base_fee =
      (headroom ← checked_sub (max_fee_per_gas t) base_fee;
       Some (N.min headroom (default headroom (max_priority_fee_per_gas t))));
}.

(** ** Reth's validator *)

Inductive TransactionOrigin : Type := Local | External | Private.

Section outcome.
Context {X : SignedTransactions}.

(** An [EthPooledTransaction]: a transaction and its recovered sender. *)
Notation pooled := (eth_tx * Address)%type.

(** The kinds of [InvalidPoolTransactionError] the Neo X code raises or reads; Reth's own
    are kept as the text they render to. *)
Inductive InvalidPoolTransactionError : Type :=
| ExceedsGasLimit (gas_limit available : N)
| TooManyEip4844Blobs (have permitted : N)
| MissingEip4844BlobSidecar
| UnexpectedEip4844SidecarAfterOsaka
| UnexpectedEip7594SidecarBeforeOsaka
| NoEip4844Blobs
| Underpriced
| TxTypeNotSupported
| NeoXPolicy (e : NeoXPoolPolicyError)
| RethRejection (error : string).

(** [details]: the balance, nonce, code hash, propagation flag and authorities. *)
Inductive TransactionValidationOutcome (details : Type) : Type :=
| Valid (d : details) (t : pooled)
| Invalid (t : pooled) (e : InvalidPoolTransactionError)
| OutcomeError (hash : B256) (e : NeoXPoolPolicyError).
End outcome.
Arguments Valid {X details}.
Arguments Invalid {X details}.
Arguments OutcomeError {X details}.

(** [EthTransactionValidator] *)
Class EthTransactionValidator (X : SignedTransactions) : Type := {
  valid_details : Type;
  validate_stateless : TransactionOrigin -> eth_tx * Address -> result InvalidPoolTransactionError unit;
  validate_stateful : TransactionOrigin -> eth_tx * Address -> StateProvider -> TransactionValidationOutcome valid_details;
}.

(** ** Neo X checks *)

Section pool.
Context {C : Crypto} {B : Blst} {X : SignedTransactions} {P : PoolTransactions X}.

(** Calldata that does not decode is an ordinary transaction. *)
Definition validate_envelope_ciphertext (tx_type : N) (target : option Address) (input : bytes)
    : result InvalidPoolTransactionError unit :=
  if negb (is_envelope tx_type target input) then Ok tt
  else
    match envelope_decode input with
    | Err _ => Ok tt
    | Ok envelope => map_err (fun e => NeoXPolicy (InvalidEnvelopeCiphertext e)) (ciphertext_verify (ed_key envelope))
    end.

Definition read_policy_slot (state : StateProvider) (slot : N) : result InvalidPoolTransactionError U256 :=
  let? value :=
    map_err (fun e => NeoXPolicy (PoolProvider e))
      (provider_storage state POLICY_PROXY_ADDRESS (u256_bytes (policy_storage_key slot))) in
  Ok (default 0 value).

Definition pool_validate_policy (t : eth_tx) (sender : Address) (state : StateProvider)
    : result InvalidPoolTransactionError unit :=
  let? word :=
    map_err (fun e => NeoXPolicy (PoolProvider e))
      (provider_storage state POLICY_PROXY_ADDRESS (u256_bytes (policy_blacklist_storage_key sender))) in
  if negb (default 0 word =? 0) then Err (NeoXPolicy (PoolBlockedSender sender))
  else
    let? base_fee := read_policy_slot state POLICY_BASE_FEE_SLOT in
    if U64_MAX <? base_fee then Err (NeoXPolicy (BaseFeeOutOfRange base_fee))
    else
      let? minimum_tip := read_policy_slot state POLICY_MIN_GAS_TIP_CAP_SLOT in
      let? minimum_tip :=
        if is_envelope (tx_ty t) (tx_to t) (tx_input t) then
          let? maximum_gas := read_policy_slot state POLICY_MAX_ENVELOPE_GAS_LIMIT_SLOT in
          if maximum_gas <? tx_gas_limit t
          then Err (NeoXPolicy (PoolEnvelopeGasAbovePolicy (tx_gas_limit t) maximum_gas))
          else
            let? inner_gas := ok_or (encrypted_gas (tx_input t)) (NeoXPolicy PoolPolicyPanic) in
            if inner_gas <? MIN_ENCRYPTED_GAS_LIMIT then Err (NeoXPolicy (PoolEncryptedGasBelowMinimum inner_gas))
            else if tx_gas_limit t <? inner_gas
            then Err (NeoXPolicy (PoolEnvelopeGasBelowEncrypted (tx_gas_limit t) inner_gas))
            else
              let? fee := read_policy_slot state POLICY_ENVELOPE_FEE_SLOT in
              Ok (saturating_add U256_MAX minimum_tip fee)
        else Ok minimum_tip in
      let? effective_tip :=
        ok_or (effective_tip_per_gas t base_fee)
          (NeoXPolicy (FeeCapBelowPolicyBaseFee (max_fee_per_gas t) base_fee)) in
      if effective_tip <? minimum_tip
      then Err (NeoXPolicy (PoolTipBelowPolicy effective_tip minimum_tip base_fee)) else Ok tt.

Context {V : EthTransactionValidator X}.

Definition validate_stateful_with_neox (origin : TransactionOrigin) (p : eth_tx * Address) (state : StateProvider)
    : TransactionValidationOutcome valid_details :=
  match validate_stateful origin p state with
  | Valid d (t, sender) =>
      match (let? _ := validate_envelope_ciphertext (tx_ty t) (tx_to t) (tx_input t) in
             pool_validate_policy t sender state) with
      | Ok _ => Valid d (t, sender)
      | Err e => Invalid (t, sender) e
      end
  | outcome => outcome
  end.

Definition provider_error (p : eth_tx * Address) (error : string) : TransactionValidationOutcome valid_details :=
  OutcomeError (eth_tx_hash p.1) (PoolProvider error).

(** [latest] is what reading the latest state returns. *)
Definition validate_transaction (latest : result string StateProvider) (origin : TransactionOrigin)
    (p : eth_tx * Address) : TransactionValidationOutcome valid_details :=
  match validate_stateless origin p with
  | Err e => Invalid p e
  | Ok _ =>
      match latest with
      | Ok state => validate_stateful_with_neox origin p state
      | Err error => provider_error p error
      end
  end.

(** One batch: [pinned] is the state read for its first transaction that passes the
    stateless checks, [n] the number of readings so far, [latest n] the next one. *)
Fixpoint validate_batch (latest : nat -> result string StateProvider) (pinned : option (result string StateProvider))
    (n : nat) (l : list (TransactionOrigin * (eth_tx * Address)))
    : list (TransactionValidationOutcome valid_details) * nat :=
  match l with
  | [] => ([], n)
  | (origin, p) :: rest =>
      match validate_stateless origin p with
      | Err e =>
          let (outcomes, n) := validate_batch latest pinned n rest in (Invalid p e :: outcomes, n)
      | Ok _ =>
          let '(state, n) := match pinned with Some state => (state, n) | None => (latest n, S n) end in
          let outcome :=
            match state with
            | Ok state => validate_stateful_with_neox origin p state
            | Err error => provider_error p error
            end in
          let (outcomes, n) := validate_batch latest (Some state) n rest in (outcome :: outcomes, n)
      end
  end.

Definition validate_transactions (latest : nat -> result string StateProvider) (n : nat)
    (l : list (TransactionOrigin * (eth_tx * Address))) : list (TransactionValidationOutcome valid_details) * nat :=
  validate_batch latest None n l.

Definition validate_transactions_with_origin (latest : nat -> result string StateProvider) (n : nat)
    (origin : TransactionOrigin) (l : list (eth_tx * Address)) : list (TransactionValidationOutcome valid_details) * nat :=
  validate_transactions latest n (map (fun p => (origin, p)) l).
End pool.

(** ** What the checks guarantee *)

Section facts.
Context {C : Crypto} {B : Blst} {X : SignedTransactions} {P : PoolTransactions X} {D : TransactionDetails X}.

Lemma read_policy_slot_Ok state slot v : read_policy_slot state slot = Ok v <-> policy_slot state slot = Ok v.
Proof. unfold read_policy_slot, policy_slot. destruct (provider_storage _ _ _); cbn [map_err result_bind]; naive_solver. Qed.

Lemma effective_tip_Some {PL : PoolTransactionsLaws D P} {DL : TransactionDetailsLaws D} t base_fee tip :
  effective_tip_per_gas t base_fee = Some tip <->
  base_fee <= max_fee_per_gas t /\ tip = N.min (max_fee_per_gas t - base_fee) (priority_fee_or_price t).
Proof.
  rewrite effective_tip_law, priority_fee_or_price_law. unfold checked_sub. destruct (N.leb_spec base_fee (max_fee_per_gas t)); cbn.
  - assert (E : N.min (max_fee_per_gas t - base_fee) (default (max_fee_per_gas t - base_fee) (max_priority_fee_per_gas t)) =
      N.min (max_fee_per_gas t - base_fee) (default (max_fee_per_gas t) (max_priority_fee_per_gas t)))
      by (destruct (max_priority_fee_per_gas t); cbn; lia).
    rewrite E. split; [by intros [= <-]|]. by intros [_ ->].
  - split; [done|]. lia.
Qed.

(** [p] is the Policy stored in [state]. *)
Definition policy_of (state : StateProvider) (p : StaticPoolPolicy) : Prop :=
  policy_slot state POLICY_MIN_GAS_TIP_CAP_SLOT = Ok (min_gas_tip_cap p) /\
  policy_slot state POLICY_BASE_FEE_SLOT = Ok (policy_base_fee p) /\
  policy_slot state POLICY_ENVELOPE_FEE_SLOT = Ok (StaticPool.envelope_fee p) /\
  policy_slot state POLICY_MAX_ENVELOPE_GAS_LIMIT_SLOT = Ok (max_envelope_gas_limit p).

Context {PL : PoolTransactionsLaws D P} {DL : TransactionDetailsLaws D}.

Lemma pool_policy_Ok state p account t sender :
  policy_of state p -> load_account state sender = Ok account -> policy_base_fee p <= U64_MAX ->
  (pool_validate_policy t sender state = Ok tt <-> policy_admits p t account).
Proof.
  intros (Ht & Hb & Hf & Hg) Ha Hle. apply read_policy_slot_Ok in Ht, Hb, Hf, Hg.
  unfold load_account in Ha. apply result_bind_Ok in Ha as (acc & _ & Ha). apply result_bind_Ok in Ha as (blocked & Hbl & [= <-]).
  unfold pool_validate_policy, policy_admits, minimum_tip, envelope_gas_ok. rewrite Hbl, Hb, Ht, Hf, Hg.
  cbn [map_err result_bind blacklisted]. rewrite (proj2 (N.ltb_ge _ _)) by done.
  assert (Htail : forall m,
    (let? tip := ok_or (effective_tip_per_gas t (policy_base_fee p))
       (NeoXPolicy (FeeCapBelowPolicyBaseFee (max_fee_per_gas t) (policy_base_fee p))) in
     if tip <? m then Err (NeoXPolicy (PoolTipBelowPolicy tip m (policy_base_fee p))) else Ok tt) = Ok tt <->
    policy_base_fee p <= max_fee_per_gas t /\ m <= N.min (max_fee_per_gas t - policy_base_fee p) (priority_fee_or_price t)).
  { intros m. destruct (effective_tip_per_gas t (policy_base_fee p)) as [tip|] eqn:Et; cbn [ok_or result_bind].
    - apply effective_tip_Some in Et as [H1 ->]. destruct (N.ltb_spec (N.min (max_fee_per_gas t - policy_base_fee p) (priority_fee_or_price t)) m); naive_solver lia.
    - split; [done|]. intros [H1 _]. pose proof (proj2 (effective_tip_Some t _ _) (conj H1 eq_refl)). congruence. }
  destruct (_ =? 0); cbn [negb]; [|naive_solver].
  destruct (is_envelope _ _ _) eqn:E; cbn [result_bind]; [|rewrite Htail; naive_solver].
  destruct (envelope_gas_read t E) as [g Hr]. rewrite Hr. cbn [ok_or result_bind].
  destruct (N.ltb_spec (max_envelope_gas_limit p) (tx_gas_limit t)); cbn [result_bind]; [naive_solver lia|].
  destruct (N.ltb_spec g MIN_ENCRYPTED_GAS_LIMIT); cbn [result_bind]; [naive_solver lia|].
  destruct (N.ltb_spec (tx_gas_limit t) g); cbn [result_bind]; [naive_solver lia|].
  rewrite Htail. naive_solver.
Qed.


(** A transaction that passed the ciphertext check never makes Envelope discovery fail. *)
Lemma checked_discover l i round :
  Forall (fun t => validate_envelope_ciphertext (tx_ty t) (tx_to t) (tx_input t) = Ok tt) l ->
  exists es, discover i l round = Ok es.
Proof.
  intros H. revert i. induction H as [|t l Ht _ IH]; intros i; [by eexists|]. cbn [discover].
  unfold validate_envelope_ciphertext in Ht. destruct (is_envelope _ _ _); cbn [negb] in *; [|apply IH].
  destruct (envelope_decode _) as [d|]; [|apply IH]. destruct (_ || _); [apply IH|].
  apply map_err_Ok in Ht. rewrite Ht. cbn [map_err result_bind]. destruct (IH (i + 1)) as [es ->]. by eexists.
Qed.

Context {V : EthTransactionValidator X}.

Lemma batch_pinned latest s l : forall n,
  validate_batch latest (Some s) n l = (map (fun '(origin, p) => validate_transaction s origin p) l, n).
Proof.
  induction l as [|[origin p] l IH]; intros n; [done|]. cbn [validate_batch map]. unfold validate_transaction at 1.
  destruct (validate_stateless origin p); by rewrite IH.
Qed.

(** A batch is validated on one state: its outcomes are those of its transactions validated
    one by one on the first state read, however the latest state changes meanwhile, and
    it reads the latest state at most once. *)
Theorem batch_on_one_state latest n l :
  (validate_transactions latest n l).1 = map (fun '(origin, p) => validate_transaction (latest n) origin p) l /\
  ((validate_transactions latest n l).2 <= S n)%nat.
Proof.
  unfold validate_transactions. induction l as [|[origin p] l IH]; [split; [done|cbn; lia]|].
  cbn [validate_batch map]. unfold validate_transaction at 1. destruct (validate_stateless origin p).
  - rewrite batch_pinned. cbn [fst snd]. split; [done|lia].
  - destruct (validate_batch latest None n l) as [os m]. cbn [fst snd] in *. destruct IH as [-> Hm]. done.
Qed.
End facts.
