(* ===== verification/Candidates.v ===== *)
(** The candidates of a block: the transaction pool's iterator over the transactions that
    can run on the current state (crates/transaction-pool/src/pool/best.rs, with the order
    of pool/pending.rs and ordering.rs), by descending priority and ascending nonce. *)

From S2P Require Import Prelude Extern Instances ChainSpec Tpke DkgParams Storage AntiMev StaticPool Execution Pool.

(** ** Transactions of the pool *)

(** [SenderId] and nonce. *)
Record TransactionId : Type := mkTransactionId {
  id_sender : N;
  id_nonce : N;
}.

#[export] Instance transaction_id_eq_dec : EqDecision TransactionId.
Proof. solve_decision. Defined.
#[export] Instance transaction_id_countable : Countable TransactionId.
Proof.
  refine (inj_countable' (fun i => (id_sender i, id_nonce i)) (fun '(s, n) => mkTransactionId s n) _). by intros [].
Defined.

(** The addition wraps in a release build. *)
Definition descendant (i : TransactionId) : TransactionId :=
  mkTransactionId (id_sender i) (wrapping_add U64_MAX (id_nonce i) 1).
Definition unchecked_ancestor (i : TransactionId) : option TransactionId :=
  if id_nonce i =? 0 then None else Some (mkTransactionId (id_sender i) (id_nonce i - 1)).

(** [Priority]: a missing priority ranks lowest. *)
Definition priority_cmp (a b : option N) : comparison :=
  match a, b with
  | Some a, Some b => a ?= b
  | Some _, None => Gt
  | None, Some _ => Lt
  | None, None => Eq
  end.

Section candidates.
Context {X : SignedTransactions} {P : PoolTransactions X}.

Record ValidPoolTransaction : Type := mkValidPoolTransaction {
  pt_transaction : eth_tx;
  pt_sender : Address;
  transaction_id : TransactionId;
}.

Record PendingTransaction : Type := mkPendingTransaction {
  submission_id : N;
  pending_transaction : ValidPoolTransaction;
  pending_priority : option N;
}.

Definition pending_id (p : PendingTransaction) : TransactionId := transaction_id (pending_transaction p).
Definition unlocks (p : PendingTransaction) : TransactionId := descendant (pending_id p).

(** Among equal priorities the earlier submission ranks higher. *)
Definition pending_cmp (a b : PendingTransaction) : comparison :=
  match priority_cmp (pending_priority a) (pending_priority b) with
  | Eq => submission_id b ?= submission_id a
  | c => c
  end.

(** A [BTreeSet] is the list of its elements in ascending order. *)
Fixpoint btree_insert (p : PendingTransaction) (l : list PendingTransaction) : list PendingTransaction :=
  match l with
  | [] => [p]
  | q :: rest =>
      match pending_cmp p q with
      | Lt => p :: q :: rest
      | Eq => q :: rest
      | Gt => q :: btree_insert p rest
      end
  end.
Fixpoint pop_last (l : list PendingTransaction) : option (PendingTransaction * list PendingTransaction) :=
  match l with
  | [] => None
  | [p] => Some (p, [])
  | p :: rest => '(last, rest) ← pop_last rest; Some (last, p :: rest)
  end.

(** ** The iterator *)

Record BestTransactions : Type := mkBestTransactions {
  all : gmap TransactionId PendingTransaction;
  independent : list PendingTransaction;
  invalid : gset N;
  (** what the subscription to new transactions holds *)
  new_transaction_receiver : option (list PendingTransaction);
  last_priority : option (option N);
  best_skip_blobs : bool;
  allow_updates_out_of_order : bool;
}.

Definition with_sets (b : BestTransactions) (all : gmap TransactionId PendingTransaction)
    (independent : list PendingTransaction) : BestTransactions :=
  mkBestTransactions all independent (invalid b) (new_transaction_receiver b) (last_priority b) (best_skip_blobs b)
    (allow_updates_out_of_order b).

(** The kind of the failure is not kept. *)
Definition best_mark_invalid (b : BestTransactions) (t : ValidPoolTransaction) (kind : InvalidPoolTransactionError)
    : BestTransactions :=
  mkBestTransactions (all b) (independent b) ({[id_sender (transaction_id t)]} ∪ invalid b) (new_transaction_receiver b)
    (last_priority b) (best_skip_blobs b) (allow_updates_out_of_order b).

Definition best_no_updates (b : BestTransactions) : BestTransactions :=
  mkBestTransactions (all b) (independent b) (invalid b) None None (best_skip_blobs b) (allow_updates_out_of_order b).

Definition set_skip_blobs (b : BestTransactions) (skip : bool) : BestTransactions :=
  mkBestTransactions (all b) (independent b) (invalid b) (new_transaction_receiver b) (last_priority b) skip
    (allow_updates_out_of_order b).

Definition ancestor (b : BestTransactions) (i : TransactionId) : option PendingTransaction :=
  i ← unchecked_ancestor i; all b !! i.

Inductive IncomingTransaction : Type :=
| Process (p : PendingTransaction)
| Stash (p : PendingTransaction).

Definition try_recv (b : BestTransactions) : option (IncomingTransaction * BestTransactions) :=
  match new_transaction_receiver b with
  | Some (p :: rest) =>
      let b := mkBestTransactions (all b) (independent b) (invalid b) (Some rest) (last_priority b) (best_skip_blobs b)
                 (allow_updates_out_of_order b) in
      let late :=
        match last_priority b with
        | Some last => bool_decide (priority_cmp (pending_priority p) last = Gt)
        | None => false
        end in
      Some (if negb (allow_updates_out_of_order b) && late then Stash p else Process p, b)
  | _ => None
  end.

Definition MAX_NEW_TRANSACTIONS_PER_BATCH : nat := 16.

Fixpoint add_new (rounds : nat) (b : BestTransactions) : BestTransactions :=
  match rounds with
  | O => b
  | S rounds =>
      match try_recv b with
      | Some (Process p, b) =>
          let independent :=
            match ancestor b (pending_id p) with None => btree_insert p (independent b) | Some _ => independent b end in
          add_new rounds (with_sets b (<[pending_id p := p]> (all b)) independent)
      | Some (Stash p, b) => add_new rounds (with_sets b (<[pending_id p := p]> (all b)) (independent b))
      | None => b
      end
  end.
Definition add_new_transactions (b : BestTransactions) : BestTransactions := add_new MAX_NEW_TRANSACTIONS_PER_BATCH b.

Definition pop_best (b : BestTransactions) : option (PendingTransaction * BestTransactions) :=
  '(p, rest) ← pop_last (independent b); Some (p, with_sets b (delete (pending_id p) (all b)) rest).

Definition is_blob_transaction (t : eth_tx) : bool := tx_ty t =? TX_TYPE_EIP4844.

(** [next_tx_and_priority]; [None] when the fuel runs out. *)
Fixpoint next_tx_and_priority (fuel : nat) (b : BestTransactions)
    : option (BestTransactions * option (ValidPoolTransaction * option N)) :=
  match fuel with
  | O => None
  | S fuel =>
      let b := add_new_transactions b in
      match pop_best b with
      | None => Some (b, None)
      | Some (best, b) =>
          let t := pending_transaction best in
          if bool_decide (id_sender (transaction_id t) ∈ invalid b) then next_tx_and_priority fuel b
          else
            let b :=
              match all b !! unlocks best with
              | Some unlocked => with_sets b (all b) (btree_insert unlocked (independent b))
              | None => b
              end in
            if best_skip_blobs b && is_blob_transaction (pt_transaction t)
            then next_tx_and_priority fuel (best_mark_invalid b t NoEip4844Blobs)
            else
              let last :=
                match new_transaction_receiver b with Some _ => Some (pending_priority best) | None => last_priority b end in
              Some (mkBestTransactions (all b) (independent b) (invalid b) (new_transaction_receiver b) last
                      (best_skip_blobs b) (allow_updates_out_of_order b), Some (t, pending_priority best))
      end
  end.

(** One removal from [all] per round, when every independent transaction is in it. *)
Definition best_fuel (b : BestTransactions) : nat := S (size (all b)).

(** ** With the fees of the block *)

(** The boxed iterator a producer drains: [BestTransactions], or [BestTransactionsWithFees]
    with a base fee and a blob fee. *)
Record BestCandidates : Type := mkBestCandidates {
  best : BestTransactions;
  fees : option (N * N);
}.

Definition mark_invalid (c : BestCandidates) (t : ValidPoolTransaction) (kind : InvalidPoolTransactionError) : BestCandidates :=
  mkBestCandidates (best_mark_invalid (best c) t kind) (fees c).
Definition no_updates (c : BestCandidates) : BestCandidates := mkBestCandidates (best_no_updates (best c)) (fees c).
Definition skip_blobs (c : BestCandidates) : BestCandidates := mkBestCandidates (set_skip_blobs (best c) true) (fees c).

Definition pays (t : eth_tx) (base_fee blob_fee : N) : bool :=
  (base_fee <=? max_fee_per_gas t) && from_option (fun fee => blob_fee <=? fee) true (max_fee_per_blob_gas t).

Fixpoint next_paying (fuel : nat) (base_fee blob_fee : N) (b : BestTransactions)
    : option (BestTransactions * option ValidPoolTransaction) :=
  match fuel with
  | O => None
  | S fuel =>
      match next_tx_and_priority (best_fuel b) b with
      | None => None
      | Some (b, None) => Some (b, None)
      | Some (b, Some (t, _)) =>
          if pays (pt_transaction t) base_fee blob_fee then Some (b, Some t)
          else next_paying fuel base_fee blob_fee (best_mark_invalid b t Underpriced)
      end
  end.

(** [Iterator::next] *)
Definition next (c : BestCandidates) : option (BestCandidates * option ValidPoolTransaction) :=
  match fees c with
  | None =>
      match next_tx_and_priority (best_fuel (best c)) (best c) with
      | Some (b, Some (t, _)) => Some (mkBestCandidates b None, Some t)
      | Some (b, None) => Some (mkBestCandidates b None, None)
      | None => None
      end
  | Some (base_fee, blob_fee) =>
      match next_paying (best_fuel (best c)) base_fee blob_fee (best c) with
      | Some (b, t) => Some (mkBestCandidates b (Some (base_fee, blob_fee)), t)
      | None => None
      end
  end.
End candidates.

(** ** What draining the iterator yields *)

Section facts.
Context {X : SignedTransactions} {P : PoolTransactions X}.

Definition pending_sender (p : PendingTransaction) : N := id_sender (pending_id p).

(** No updates arrive; transactions are filed under their own identifier, and at most one
    transaction of a sender is ready. *)
Record candidates_ok (b : BestTransactions) : Prop := {
  co_quiet : new_transaction_receiver b = None;
  co_keys : forall i p, all b !! i = Some p -> pending_id p = i;
  co_independent : forall p, p ∈ independent b -> all b !! pending_id p = Some p;
  co_heads : NoDup (map pending_sender (independent b));
}.

Lemma pop_last_Some l p rest : pop_last l = Some (p, rest) -> l = rest ++ [p].
Proof.
  revert rest. induction l as [|q l IH]; intros rest; [done|]. destruct l as [|r l]; [by intros [= <- <-]|].
  change (pop_last (q :: r :: l)) with ('(last, rest) ← pop_last (r :: l); Some (last, q :: rest)).
  destruct (pop_last (r :: l)) as [[last k]|]; [|done]. cbn. intros [= <- <-]. by rewrite (IH k eq_refl).
Qed.

Lemma pop_last_None l : pop_last l = None -> l = [].
Proof.
  induction l as [|q l IH]; [done|]. destruct l as [|r l]; [done|].
  change (pop_last (q :: r :: l)) with ('(last, rest) ← pop_last (r :: l); Some (last, q :: rest)).
  destruct (pop_last (r :: l)) as [[last k]|]; [done|]. by specialize (IH eq_refl).
Qed.

Lemma btree_insert_elem p l q : q ∈ btree_insert p l -> q = p \/ q ∈ l.
Proof.
  induction l as [|r l IH]; cbn [btree_insert]; [set_solver|]. destruct (pending_cmp p r); set_solver.
Qed.

Lemma btree_insert_heads p l :
  NoDup (map pending_sender l) -> pending_sender p ∉ map pending_sender l -> NoDup (map pending_sender (btree_insert p l)).
Proof.
  induction l as [|r l IH]; cbn [btree_insert map]; intros Hl Hp; [repeat constructor; set_solver|].
  apply NoDup_cons in Hl as [Hr Hl]. destruct (pending_cmp p r); cbn [map].
  - by constructor.
  - constructor; [set_solver|]. by constructor.
  - constructor; [|apply IH; set_solver]. intros (q & E & Hq)%list_elem_of_fmap_1.
    apply btree_insert_elem in Hq as [->|Hq]; [set_solver|]. apply Hr. rewrite E. by apply list_elem_of_fmap_2.
Qed.

Lemma add_new_quiet b : new_transaction_receiver b = None -> add_new_transactions b = b.
Proof.
  intros H. assert (E : try_recv b = None) by (unfold try_recv; by rewrite H).
  unfold add_new_transactions. generalize MAX_NEW_TRANSACTIONS_PER_BATCH. intros [|n]; [done|]. cbn [add_new]. by rewrite E.
Qed.

Lemma pop_best_Some b p b' :
  candidates_ok b -> pop_best b = Some (p, b') ->
  candidates_ok b' /\ p ∈ independent b /\ all b !! pending_id p = Some p /\ all b' = delete (pending_id p) (all b) /\
  independent b = independent b' ++ [p] /\ pending_sender p ∉ map pending_sender (independent b') /\
  invalid b' = invalid b /\ best_skip_blobs b' = best_skip_blobs b.
Proof.
  intros [Hq Hk Hi Hh]. unfold pop_best. destruct (pop_last (independent b)) as [[q rest]|] eqn:El; [|done].
  intros [= <- <-]. apply pop_last_Some in El. cbn [all independent invalid best_skip_blobs with_sets].
  assert (Hin : q ∈ independent b) by (rewrite El; set_solver).
  assert (Hn : pending_sender q ∉ map pending_sender rest).
  { rewrite El, map_app in Hh. apply NoDup_app in Hh as (_ & Hd & _). intros Hm. apply (Hd _ Hm). cbn. set_solver. }
  split_and!; try done; [|by apply Hi]. split; cbn [new_transaction_receiver all independent with_sets]; [done| | |].
  - intros i r [_ Hr]%lookup_delete_Some. by apply Hk.
  - intros r Hr. rewrite lookup_delete_ne; [apply Hi; rewrite El; set_solver|]. intros E. apply Hn.
    unfold pending_sender. rewrite E. apply (list_elem_of_fmap_2 pending_sender _ _ Hr).
  - rewrite El, map_app in Hh. by apply NoDup_app in Hh as (? & _ & _).
Qed.

Lemma unlock_ok b u :
  candidates_ok b -> all b !! pending_id u = Some u -> pending_sender u ∉ map pending_sender (independent b) ->
  candidates_ok (with_sets b (all b) (btree_insert u (independent b))).
Proof.
  intros [Hq Hk Hi Hh] Hu Hs. split; cbn [new_transaction_receiver all independent with_sets]; try done.
  - intros p [->|Hp]%btree_insert_elem; [done|]. by apply Hi.
  - by apply btree_insert_heads.
Qed.

(** Transactions dropped on the way to the next one: no ready transaction of a valid sender
    is added. *)
Record drops (b b' : BestTransactions) : Prop := {
  dr_ok : candidates_ok b';
  dr_smaller : (size (all b') <= size (all b))%nat;
  dr_all : all b' ⊆ all b;
  dr_invalid : invalid b ⊆ invalid b';
  dr_skip : best_skip_blobs b' = best_skip_blobs b;
  dr_ready : forall q, q ∈ independent b' -> pending_sender q ∉ invalid b' -> q ∈ independent b;
}.

(** The next transaction was ready and of a valid sender; the transaction of the following
    nonce takes its place. *)
Record yields (b b' : BestTransactions) (p : PendingTransaction) : Prop := {
  yi_ok : candidates_ok b';
  yi_smaller : (size (all b') < size (all b))%nat;
  yi_all : all b' ⊆ all b;
  yi_from : p ∈ independent b;
  yi_valid : pending_sender p ∉ invalid b;
  yi_invalid : invalid b ⊆ invalid b';
  yi_skip : best_skip_blobs b' = best_skip_blobs b;
  yi_ready : forall q, q ∈ independent b' -> pending_sender q ∉ invalid b' ->
    (q ∈ independent b /\ pending_sender q <> pending_sender p) \/ pending_id q = unlocks p;
}.

Lemma drops_refl b : candidates_ok b -> drops b b.
Proof. by split. Qed.

Lemma drops_trans b b1 b2 : drops b b1 -> drops b1 b2 -> drops b b2.
Proof.
  intros [H1 H2 H3 H4 H5 H6] [G1 G2 G3 G4 G5 G6]. split; [done|lia|by etrans|by etrans|congruence|].
  intros q Hq Hv. apply H6; [by apply G6|set_solver].
Qed.

Lemma drops_yields b b1 b2 p : drops b b1 -> yields b1 b2 p -> yields b b2 p.
Proof.
  intros [H1 H2 H3 H4 H5 H6] [G1 G2 G3 G4 G5 G6 G7 G8].
  split; [done|lia|by etrans|by apply H6|set_solver|by etrans|congruence|].
  intros q Hq Hv. destruct (G8 q Hq Hv) as [[Hi Hs]|E]; [left|by right]. split; [|done]. apply H6; [done|set_solver].
Qed.

(** A yielded transaction whose sender is then ruled out is dropped. *)
Lemma yields_marked b b' p kind : yields b b' p -> drops b (best_mark_invalid b' (pending_transaction p) kind).
Proof.
  intros [[Q K I N] G2 G3 G4 G5 G6 G7 G8]. split; cbn [all invalid best_skip_blobs independent best_mark_invalid];
    [by split|lia|done|set_solver|done|].
  intros q Hq Hv. fold (pending_sender p) in Hv. destruct (G8 q Hq) as [[Hi _]|E]; [set_solver|done|].
  exfalso. apply Hv. unfold pending_sender at 1. rewrite E. cbn. fold (pending_sender p). set_solver.
Qed.

Definition skips (b : BestTransactions) (t : ValidPoolTransaction) : bool :=
  best_skip_blobs b && is_blob_transaction (pt_transaction t).

(** What the iterator does with the transaction it popped. *)
Definition popped (p : PendingTransaction) (b : BestTransactions) : BestTransactions :=
  match all b !! unlocks p with
  | Some unlocked => with_sets b (all b) (btree_insert unlocked (independent b))
  | None => b
  end.

Lemma pop_drops b p b1 : candidates_ok b -> pop_best b = Some (p, b1) -> drops b b1 /\ (size (all b1) < size (all b))%nat.
Proof.
  intros Hb Hpop. destruct (pop_best_Some _ _ _ Hb Hpop) as (H1 & Hin & Hl & Ha & Hi & Hs & Hiv & Hsk).
  assert (Hsize : (size (all b1) < size (all b))%nat).
  { rewrite Ha, map_size_delete, Hl. cbn. assert (size (all b) <> 0)%nat; [|lia].
    intros E%map_size_empty_iff. by rewrite E, lookup_empty in Hl. }
  split; [|done]. split; [done|lia|rewrite Ha; apply delete_subseteq|by rewrite Hiv|done|]. intros q Hq _. rewrite Hi. set_solver.
Qed.

Lemma popped_yields b p b1 :
  candidates_ok b -> pop_best b = Some (p, b1) -> pending_sender p ∉ invalid b1 -> yields b (popped p b1) p.
Proof.
  intros Hb Hpop Hv. destruct (pop_best_Some _ _ _ Hb Hpop) as (H1 & Hin & Hl & Ha & Hi & Hs & Hiv & Hsk).
  pose proof (pop_drops _ _ _ Hb Hpop) as [_ Hsize].
  assert (Hsub : all b1 ⊆ all b) by (rewrite Ha; apply delete_subseteq).
  assert (Hold : forall q, q ∈ independent b1 -> q ∈ independent b /\ pending_sender q <> pending_sender p).
  { intros q Hq. split; [rewrite Hi; set_solver|]. intros E. apply Hs. rewrite <- E. by apply (list_elem_of_fmap_2 pending_sender). }
  unfold popped. destruct (all b1 !! unlocks p) as [u|] eqn:Eu.
  - destruct H1 as [Q K I N]. pose proof (K _ _ Eu) as Eid.
    assert (Es : pending_sender u = pending_sender p) by (unfold pending_sender; by rewrite Eid).
    split; cbn [all independent invalid best_skip_blobs with_sets]; try done; [|by rewrite <- Hiv|by rewrite Hiv|].
    + apply unlock_ok; [done|by rewrite Eid|by rewrite Es].
    + intros q [->|Hq]%btree_insert_elem _; [by right|]. left. by apply Hold.
  - split; try done; [by rewrite <- Hiv|by rewrite Hiv|]. intros q Hq _. left. by apply Hold.
Qed.

(** With as much fuel as there are transactions, the iterator answers. *)
Lemma next_tx_spec fuel b :
  candidates_ok b -> (size (all b) < fuel)%nat ->
  exists b' o, next_tx_and_priority fuel b = Some (b', o) /\
    match o with
    | None => drops b b'
    | Some (t, priority) =>
        exists p, yields b b' p /\ t = pending_transaction p /\ priority = pending_priority p /\ skips b t = false
    end.
Proof.
  revert b. induction fuel as [|fuel IH]; intros b Hb Hf; [lia|]. cbn [next_tx_and_priority].
  rewrite add_new_quiet by apply Hb. destruct (pop_best b) as [[p b1]|] eqn:Epop; [|exists b, None; split; [done|by apply drops_refl]].
  destruct (pop_drops _ _ _ Hb Epop) as [Hd Hsize]. fold (pending_sender p). fold (popped p b1). case_bool_decide as Hv.
  - destruct (IH b1) as (b' & o & E & Ho); [apply Hd|lia|]. exists b', o. split; [done|].
    destruct o as [[t pr]|]; [|by eapply drops_trans]. destruct Ho as (q & Hy & -> & -> & Hsk).
    exists q. split_and!; try done; [by eapply drops_yields|]. unfold skips in *. by rewrite <- (dr_skip _ _ Hd).
  - pose proof (popped_yields _ _ _ Hb Epop Hv) as Hy.
    assert (Esk : best_skip_blobs (popped p b1) = best_skip_blobs b) by apply Hy. rewrite Esk.
    fold (skips b (pending_transaction p)). destruct (skips b (pending_transaction p)) eqn:Esk'.
    + pose proof (yields_marked _ _ _ NoEip4844Blobs Hy) as Hd2.
      destruct (IH (best_mark_invalid (popped p b1) (pending_transaction p) NoEip4844Blobs)) as (b' & o & E & Ho);
        [apply Hd2|pose proof (yi_smaller _ _ _ Hy); cbn; lia|]. exists b', o. split; [done|].
      destruct o as [[t pr]|]; [|by eapply drops_trans]. destruct Ho as (q & Hy2 & -> & -> & Hsk).
      exists q. split_and!; try done; [by eapply drops_yields|]. unfold skips in *. by rewrite <- (dr_skip _ _ Hd2).
    + do 2 eexists. split; [reflexivity|]. exists p. split_and!; try done.
      destruct Hy as [[Q K I N] ? ? ? ? ? ? ?]. by split; try done.
Qed.

Lemma next_paying_spec fuel base_fee blob_fee b :
  candidates_ok b -> (size (all b) < fuel)%nat ->
  exists b' o, next_paying fuel base_fee blob_fee b = Some (b', o) /\
    match o with
    | None => drops b b'
    | Some t => exists p, yields b b' p /\ t = pending_transaction p /\ skips b t = false /\
                  pays (pt_transaction t) base_fee blob_fee = true
    end.
Proof.
  revert b. induction fuel as [|fuel IH]; intros b Hb Hf; [lia|]. cbn [next_paying].
  destruct (next_tx_spec (best_fuel b) b Hb) as (b1 & o & E & Ho); [unfold best_fuel; lia|]. rewrite E.
  destruct o as [[t pr]|]; [|by exists b1, None]. destruct Ho as (p & Hy & -> & _ & Hsk).
  destruct (pays _ _ _) eqn:Ep; [exists b1, (Some (pending_transaction p)); split; [done|by exists p]|].
  pose proof (yields_marked _ _ _ Underpriced Hy) as Hd.
  destruct (IH (best_mark_invalid b1 (pending_transaction p) Underpriced)) as (b' & o & E' & Ho);
    [apply Hd|pose proof (yi_smaller _ _ _ Hy); cbn; lia|]. exists b', o. split; [done|].
  destruct o as [t|]; [|by eapply drops_trans]. destruct Ho as (q & Hy2 & -> & Hsk2 & Hp).
  exists q. split_and!; try done; [by eapply drops_yields|]. unfold skips in *. by rewrite <- (dr_skip _ _ Hd).
Qed.

Lemma next_spec c :
  candidates_ok (best c) ->
  exists c' o, next c = Some (c', o) /\ fees c' = fees c /\
    match o with
    | None => drops (best c) (best c')
    | Some t => exists p, yields (best c) (best c') p /\ t = pending_transaction p /\ skips (best c) t = false /\
                  (forall base_fee blob_fee, fees c = Some (base_fee, blob_fee) -> pays (pt_transaction t) base_fee blob_fee = true)
    end.
Proof.
  intros Hc. unfold next. destruct (fees c) as [[base_fee blob_fee]|].
  - destruct (next_paying_spec (best_fuel (best c)) base_fee blob_fee _ Hc) as (b' & o & -> & Ho); [unfold best_fuel; lia|].
    do 2 eexists. split_and!; [done|done|]. destruct o as [t|]; [|done]. destruct Ho as (p & Hy & Ht & Hs & Hp).
    exists p. split_and!; try done. by intros ? ? [= <- <-].
  - destruct (next_tx_spec (best_fuel (best c)) _ Hc) as (b' & o & -> & Ho); [unfold best_fuel; lia|].
    destruct o as [[t pr]|]; do 2 eexists; (split_and!; [done|done|]); [|done]. destruct Ho as (p & Hy & Ht & _ & Hs).
    by exists p.
Qed.
End facts.
