(* ===== verification/Producer.v ===== *)
(** Construction of a primary's proposal (crates/neox/node/src/producer.rs) on Reth's block
    builder (crates/evm/evm/src/execute.rs, crates/ethereum/evm/src/build.rs) with the
    environment of crates/neox/evm/src/config.rs: the pool's candidates executed over the
    parent state, and the header completed with the commitments a backup checks. *)

From S2P Require Import Prelude Extern Instances Extra Validation ChainSpec Consensus.
From S2P Require Import Tpke Wire Payload DkgParams Storage Round AntiMev StaticPool Execution Reconstruction.
From S2P Require Import ProposalRecovery Driver Proposal Pool Candidates.

(** ** The code around the producer *)

Record NextBlockEnvAttributes : Type := mkNextBlockEnvAttributes {
  na_timestamp : N;
  na_suggested_fee_recipient : Address;
  na_prev_randao : B256;
  na_gas_limit : N;
  na_parent_beacon_block_root : option B256;
  (** whether there is a list of withdrawals; it has no entries *)
  na_withdrawals : bool;
  na_extra_data : bytes;
  na_slot_number : option N;
}.

Record NextEvmEnvAttributes : Type := mkNextEvmEnvAttributes {
  ne_timestamp : N;
  ne_suggested_fee_recipient : Address;
  ne_prev_randao : B256;
  ne_gas_limit : N;
  ne_slot_number : option N;
}.

(** alloy and revm, where blocks are built. *)
Class BlockProduction {X : SignedTransactions} {V : Revm} (E : EthExecutor X V) (S : BlobSchedule) : Type := {
  (** [EvmEnv::for_eth_next_block] of a parent, attributes, a base fee and blob parameters *)
  for_eth_next_block : Header -> NextEvmEnvAttributes -> N -> option blob_params -> EvmEnv;
  (** towards the desired limit, by less than the bound on a change *)
  calculate_block_gas_limit : N -> N -> N;
  maybe_next_block_excess_blob_gas : Header -> option blob_params -> option N;
  blob_gasprice : BlockEnv -> option N;
  max_blob_count : blob_params -> N;
  (** whether an error of the Ethereum executor is a [BlockValidationError], and the gas that
      was left when the reason is the gas limit of the transaction *)
  is_validation_error : string -> bool;
  gas_limit_error : string -> option N;
}.

(** Reth's transaction pool and its blob store. *)
Class TransactionPool (X : SignedTransactions) (Y : BlobSidecars X) : Type := {
  tx_pool : Type;
  blob_sidecar : Type;
  is_eip4844 : blob_sidecar -> bool;
  is_eip7594 : blob_sidecar -> bool;
  beacon_sidecar_from : blob_sidecar -> beacon_sidecar;
  best_transactions_with_attributes : tx_pool -> N -> option N -> BestCandidates;
  get_blob : tx_pool -> B256 -> result string (option blob_sidecar);
  (** the pool without the transaction, and whether it was there *)
  remove_transaction : tx_pool -> B256 -> tx_pool * bool;
}.

Definition DEFAULT_PRIMARY_GAS_LIMIT : N := 60000000.

Record PrimaryProposalAttributes : Type := mkPrimaryProposalAttributes {
  pa_view : N;
  pa_timestamp : N;
  pa_signature_scheme : SignatureScheme;
  desired_gas_limit : N;
}.

Definition primary_attributes_new (view timestamp : N) (scheme : SignatureScheme) : PrimaryProposalAttributes :=
  mkPrimaryProposalAttributes view timestamp scheme DEFAULT_PRIMARY_GAS_LIMIT.

(** [Execution] of the source renders an error of the executor or of the state root; they are
    kept apart here. [ProducerFuel] is not an error of the source; it is proved never to
    be returned. *)
Inductive PrimaryProposalError : Type :=
| StaleView (expected actual : N)
| ProposalThresholdBeforeAntiMev
| GenesisHeight
| PrimaryHeightOverflow
| PrimaryIndexOverflow
| MissingParent (number : N)
| PrimaryProvider (error : string)
| PolicyBaseFeeOverflow (base_fee : U256)
| BlobStore (error : string)
| PrimaryExecution (error : NeoXExecutionError)
| PrimaryStateRoot (error : string)
| PrimaryGovernance (error : GovernanceError)
| PrimaryDkg
| PrimaryExtra (error : DbftExtraError)
| ProducerFuel.

Definition primary_difficulty (height primary validator_count : N) : N :=
  if (0 <? validator_count) && (height mod validator_count =? primary) then DIFFICULTY_IN_TURN else DIFFICULTY_OUT_OF_TURN.

(** [BEACON_NONCE] *)
Definition BEACON_NONCE : bytes := repeat x00 8.

(** ** Building a block *)

Section assembler.
Context {R : AlloyRlp} {C : Crypto} {K : EthConstants} {S : BlobSchedule}.
Context {X : SignedTransactions} {V : Revm} {E : EthExecutor X V} {Q : BlockRoots E} {G : BlockProduction E S}.

(** [NeoXEvmConfig::next_evm_env] *)
Definition next_evm_env (spec : NeoXChainSpec) (parent : Header) (a : NextBlockEnvAttributes) : EvmEnv :=
  let env :=
    for_eth_next_block parent
      (mkNextEvmEnvAttributes (na_timestamp a) (na_suggested_fee_recipient a) ZERO_B256 (na_gas_limit a) (na_slot_number a))
      (default 0 (base_fee_per_gas parent)) (blob_params_at_timestamp (inner spec) (na_timestamp a)) in
  let b := block_env env in
  mkEvmEnv _ (mkBlockEnv (env_number b) (coinbase (dbft (neox spec))) (env_timestamp b) (env_gas_limit b) (env_basefee b)
                2 (Some ZERO_B256) (env_excess_blob_gas b)) (cfg_spec env).

Definition context_for_next_block (parent : Header) (a : NextBlockEnvAttributes) : EthBlockExecutionCtx :=
  mkEthBlockExecutionCtx (hash_slow parent) (na_parent_beacon_block_root a) (na_withdrawals a) (na_extra_data a)
    (na_slot_number a).

(** [EthBlockAssembler::assemble_block], without precomputed roots: the header, and whether
    the body has withdrawals. The builder records no block access list. *)
Definition assemble_block (spec : NeoXChainSpec) (b : BlockEnv) (ctx : EthBlockExecutionCtx) (parent : Header)
    (transactions : list eth_tx) (output : BlockExecutionResult) (root : B256) : Header * bool :=
  let time := env_timestamp b in
  let withdrawals := is_shanghai_active_at_timestamp (inner spec) time in
  let cancun := is_cancun_active_at_timestamp (inner spec) time in
  let header := {|
    parent_hash := ctx_parent_hash ctx;
    ommers_hash := EMPTY_OMMER_ROOT_HASH;
    beneficiary := env_beneficiary b;
    state_root := root;
    transactions_root := calculate_tx_root transactions;
    receipts_root := calculate_receipt_root (result_receipts output);
    logs_bloom := logs_bloom_of (result_receipts output);
    difficulty := env_difficulty b;
    number := env_number b;
    gas_limit := env_gas_limit b;
    gas_used := result_gas_used output;
    timestamp := time;
    extra_data := ctx_extra_data ctx;
    mix_hash := default ZERO_B256 (env_prevrandao b);
    nonce := BEACON_NONCE;
    base_fee_per_gas := if is_london_active_at_block (inner spec) (env_number b) then Some (env_basefee b) else None;
    withdrawals_root := if withdrawals then Some no_withdrawals_root else None;
    blob_gas_used := if cancun then Some (result_blob_gas_used output) else None;
    excess_blob_gas :=
      if cancun then
        if is_cancun_active_at_timestamp (inner spec) (timestamp parent)
        then maybe_next_block_excess_blob_gas parent (blob_params_at_timestamp (inner spec) time)
        else Some (next_block_excess_blob_gas_osaka cancun_params 0 0 0)
      else None;
    parent_beacon_block_root := ctx_parent_beacon_block_root ctx;
    requests_hash :=
      if is_prague_active_at_timestamp (inner spec) time then Some (requests_hash_of (result_requests output)) else None;
    block_access_list_hash := None;
    slot_number := ctx_slot_number ctx |} in
  (header, withdrawals).

(** [BasicBlockBuilder::finish]: the assembled header. *)
Definition builder_finish (spec : NeoXChainSpec) (state : StateProvider) (parent : Header) (ctx : EthBlockExecutionCtx)
    (x : NeoXBlockExecutor) (transactions : list eth_tx) : result PrimaryProposalError Header :=
  let prague := is_prague_active_at_timestamp (inner spec) (env_timestamp (evm_block (inner_evm x))) in
  let? (e, output) := map_err PrimaryExecution (executor_finish prague x) in
  let? root := map_err PrimaryStateRoot (state_root_of state (take_bundle e)) in
  Ok (assemble_block spec (evm_block e) ctx parent transactions output root).1.
End assembler.

(** ** Selecting transactions *)

(** How the producer treats a failed transaction. *)
Inductive FailureKind : Type :=
| GasUnavailable (block_available_gas : N)
| ValidationFailure
| FatalFailure.

Section selection.
Context {C : Crypto} {B : Blst} {Bs : BlobSchedule}.
Context {X : SignedTransactions} {D : TransactionDetails X} {P : PoolTransactions X} {V : Revm} {E : EthExecutor X V}.
Context {Y : BlobSidecars X} {T : TransactionPool X Y} {G : BlockProduction E Bs}.

(** The Policy's refusals are [BlockValidationError]s; failed reads and system calls are not. *)
Definition failure_kind (e : NeoXExecutionError) : FailureKind :=
  match e with
  | EvmFailure error =>
      match gas_limit_error error with
      | Some available => GasUnavailable available
      | None => if is_validation_error error then ValidationFailure else FatalFailure
      end
  | StateRead _ | SystemCallEvm _ _ | ExecutionPanic => FatalFailure
  | _ => ValidationFailure
  end.

Record Selection : Type := mkSelection {
  sel_pool : tx_pool;
  sel_best : BestCandidates;
  sel_executor : NeoXBlockExecutor;
  sel_transactions : list (eth_tx * Address);
  block_blob_count : N;
  sel_sidecars : list beacon_sidecar;
}.

Definition set_candidates (s : Selection) (pool : tx_pool) (c : BestCandidates) : Selection :=
  mkSelection pool c (sel_executor s) (sel_transactions s) (block_blob_count s) (sel_sidecars s).
Definition skip_candidate (s : Selection) (t : ValidPoolTransaction) (kind : InvalidPoolTransactionError) : Selection :=
  set_candidates s (sel_pool s) (mark_invalid (sel_best s) t kind).

(** An Envelope with an invalid ciphertext is skipped and leaves the pool. *)
Definition reject_invalid_envelope_candidate (s : Selection) (t : ValidPoolTransaction) : Selection * bool :=
  let tx := pt_transaction t in
  match validate_envelope_ciphertext (tx_ty tx) (tx_to tx) (tx_input tx) with
  | Ok _ => (s, false)
  | Err error =>
      (set_candidates s (remove_transaction (sel_pool s) (eth_tx_hash tx)).1 (mark_invalid (sel_best s) t error), true)
  end.

(** The sidecar of a candidate, or the reason to skip it. *)
Definition candidate_sidecar (s : Selection) (maximum_blob_count : N) (is_osaka : bool) (tx : eth_tx)
    : result PrimaryProposalError (result InvalidPoolTransactionError (option blob_sidecar)) :=
  match blob_count tx with
  | None => Ok (Ok None)
  | Some count =>
      if maximum_blob_count <? block_blob_count s + count
      then Ok (Err (TooManyEip4844Blobs (block_blob_count s + count) maximum_blob_count))
      else
        let? found := map_err BlobStore (get_blob (sel_pool s) (eth_tx_hash tx)) in
        match found with
        | None => Ok (Err MissingEip4844BlobSidecar)
        | Some sidecar =>
            if is_osaka && negb (is_eip7594 sidecar) then Ok (Err UnexpectedEip4844SidecarAfterOsaka)
            else if negb is_osaka && negb (is_eip4844 sidecar) then Ok (Err UnexpectedEip7594SidecarBeforeOsaka)
            else Ok (Ok (Some sidecar))
        end
  end.

(** The executed candidate [t] joins the block. *)
Definition include (s : Selection) (maximum_blob_count : N) (x : NeoXBlockExecutor) (t : ValidPoolTransaction)
    (sidecar : option blob_sidecar) : Selection :=
  let tx := pt_transaction t in
  let count := match blob_count tx with Some n => block_blob_count s + n | None => block_blob_count s end in
  let c :=
    match blob_count tx with
    | Some _ => if count =? maximum_blob_count then skip_blobs (sel_best s) else sel_best s
    | None => sel_best s
    end in
  let sidecars := match sidecar with Some b => sel_sidecars s ++ [beacon_sidecar_from b] | None => sel_sidecars s end in
  mkSelection (sel_pool s) c x (sel_transactions s ++ [(tx, pt_sender t)]) count sidecars.

(** The loop body for the candidate [t]. *)
Definition try_candidate (maximum_blob_count : N) (is_osaka : bool) (s : Selection) (t : ValidPoolTransaction)
    : Selection * result PrimaryProposalError unit :=
  let (s, rejected) := reject_invalid_envelope_candidate s t in
  if rejected then (s, Ok tt)
  else
    match candidate_sidecar s maximum_blob_count is_osaka (pt_transaction t) with
    | Err e => (s, Err e)
    | Ok (Err kind) => (skip_candidate s t kind, Ok tt)
    | Ok (Ok sidecar) =>
        match execute_transaction (sel_executor s) (pt_transaction t) (pt_sender t) with
        | (x, Ok _) => (include s maximum_blob_count x t sidecar, Ok tt)
        | (x, Err e) =>
            let s := mkSelection (sel_pool s) (sel_best s) x (sel_transactions s) (block_blob_count s) (sel_sidecars s) in
            match failure_kind e with
            | GasUnavailable available =>
                (skip_candidate s t (ExceedsGasLimit (tx_gas_limit (pt_transaction t)) available), Ok tt)
            | ValidationFailure => (skip_candidate s t TxTypeNotSupported, Ok tt)
            | FatalFailure => (s, Err (PrimaryExecution e))
            end
        end
    end.

Fixpoint select_transactions (fuel : nat) (maximum_blob_count : N) (is_osaka : bool) (s : Selection)
    : Selection * result PrimaryProposalError unit :=
  match fuel with
  | O => (s, Err ProducerFuel)
  | S fuel =>
      match next (sel_best s) with
      | None => (s, Err ProducerFuel)
      | Some (c, None) => (set_candidates s (sel_pool s) c, Ok tt)
      | Some (c, Some t) =>
          match try_candidate maximum_blob_count is_osaka (set_candidates s (sel_pool s) c) t with
          | (s, Ok _) => select_transactions fuel maximum_blob_count is_osaka s
          | (s, Err e) => (s, Err e)
          end
      end
  end.
End selection.

(** ** The proposal *)

Section producer.
Context {R : AlloyRlp} {C : Crypto} {B : Blst} {K : EthConstants} {Bs : BlobSchedule}.
Context {X : SignedTransactions} {D : TransactionDetails X} {P : PoolTransactions X} {V : Revm} {E : EthExecutor X V}.
Context {Q : BlockRoots E} {Y : BlobSidecars X} {T : TransactionPool X Y} {G : BlockProduction E Bs}.

Record PrimaryProposal : Type := mkPrimaryProposal {
  pp_request : DbftPrepareRequest;
  pp_transactions : list eth_tx;
  pp_sidecars : list beacon_sidecar;
}.

(** A word of the state the block leaves, read from the executor's database. *)
Definition primary_post_storage (e : evm) (address : Address) (key : B256) : result string (option U256) :=
  let? word := evm_storage e address (N_of_be key) in Ok (Some word).

(** [PrimaryHeaderFinalization::apply] *)
Definition with_primary (header : Header) (primary difficulty : N) : Header :=
  {| parent_hash := parent_hash header; ommers_hash := ommers_hash header; beneficiary := beneficiary header;
     state_root := state_root header; transactions_root := transactions_root header;
     receipts_root := receipts_root header; logs_bloom := logs_bloom header; difficulty := difficulty;
     number := number header; gas_limit := gas_limit header; gas_used := gas_used header;
     timestamp := timestamp header; extra_data := extra_data header; mix_hash := mix_hash header;
     nonce := be_bytes 8 primary;
     base_fee_per_gas := base_fee_per_gas header; withdrawals_root := withdrawals_root header;
     blob_gas_used := blob_gas_used header; excess_blob_gas := excess_blob_gas header;
     parent_beacon_block_root := parent_beacon_block_root header; requests_hash := requests_hash header;
     block_access_list_hash := block_access_list_hash header; slot_number := slot_number header |}.

Definition finalize_primary_header (spec : NeoXChainSpec) (primary difficulty : N) (scheme : SignatureScheme)
    (next_validators : GovernanceValidatorSet) (next_dkg_public_key : option bytes) (header : Header)
    : result PrimaryProposalError Header :=
  let? header := map_err PrimaryExtra
    (apply_next_consensus_commitments spec header scheme next_validators next_dkg_public_key) in
  Ok (with_primary header primary difficulty).

(** An ECDSA parent is published with the witness it was built on. *)
Definition parent_reseal_witness (parent : Header) : result DbftExtraError (option B256 * option bytes) :=
  match DbftExtraPrefix.decode (extra_data parent) with
  | Ok prefix =>
      match DbftExtraPrefix.signature_scheme prefix with
      | Ecdsa => let? hash := ecdsa_seal_hash parent in Ok (Some hash, Some (extra_data parent))
      | Threshold => Ok (None, None)
      end
  | Err _ => Ok (None, None)
  end.

(** The attributes of the block after [parent]. *)
Definition primary_block_attributes (spec : NeoXChainSpec) (a : PrimaryProposalAttributes) (parent : Header)
    : NextBlockEnvAttributes :=
  let time := N.max (pa_timestamp a) (timestamp parent) in
  mkNextBlockEnvAttributes time GOVERNANCE_REWARD_PROXY_ADDRESS ZERO_B256
    (calculate_block_gas_limit (gas_limit parent) (desired_gas_limit a))
    (if is_cancun_active_at_timestamp (inner spec) time then Some EMPTY_ROOT_HASH else None)
    (is_shanghai_active_at_timestamp (inner spec) time) [] None.

(** The environment the block runs in: the Policy's base fee and the dBFT difficulty. *)
Definition primary_evm_env (spec : NeoXChainSpec) (parent : Header) (a : NextBlockEnvAttributes) (base_fee difficulty : N)
    : EvmEnv :=
  let env := next_evm_env spec parent a in
  let b := block_env env in
  mkEvmEnv _ (mkBlockEnv (env_number b) (env_beneficiary b) (env_timestamp b) (env_gas_limit b) base_fee difficulty
                (env_prevrandao b) (env_excess_blob_gas b)) (cfg_spec env).

(** The next validators and the next DKG state, read where the transactions left it. *)
Definition read_next_consensus (spec : NeoXChainSpec) (height : N) (e : evm)
    : result PrimaryProposalError (GovernanceValidatorSet * option DkgState) :=
  let? next_validators := map_err PrimaryGovernance
    (read_governance_validator_set_from_storage (fun key =>
       map_err GovernanceProvider (primary_post_storage e GOVERNANCE_PROXY_ADDRESS key))) in
  let? next_height := ok_or (checked_add U64_MAX height 1) PrimaryHeightOverflow in
  if anti_mev_active_at_block spec next_height then
    let? parameters := map_err (fun _ => PrimaryDkg) (dkg_parameters_new (lenN (Storage.sorted next_validators))) in
    Ok (next_validators, read_next_dkg_or_fallback true parameters (fun key =>
          map_err DkgProvider (primary_post_storage e KEY_MANAGEMENT_PROXY_ADDRESS key)))
  else Ok (next_validators, None).

Definition policy_base_fee_of (state : StateProvider) : result PrimaryProposalError N :=
  let? word := map_err PrimaryProvider
    (provider_storage state POLICY_PROXY_ADDRESS (u256_bytes (policy_storage_key POLICY_BASE_FEE_SLOT))) in
  let base_fee := default 0 word in
  if U64_MAX <? base_fee then Err (PolicyBaseFeeOverflow base_fee) else Ok base_fee.

(** The part of a build that needs no candidates: the parent, its state, the primary's index
    and difficulty, the attributes and the started executor. *)
Record PrimaryStart : Type := mkPrimaryStart {
  st_parent : Header;
  st_state : StateProvider;
  st_base_fee : N;
  st_primary : N;
  st_difficulty : N;
  st_attributes : NextBlockEnvAttributes;
  st_executor : NeoXBlockExecutor;
}.

Definition start_primary (spec : NeoXChainSpec) (provider : ChainProvider) (s : DbftRoundState) (a : PrimaryProposalAttributes)
    : result PrimaryProposalError PrimaryStart :=
  if negb (pa_view a =? current_view s) then Err (StaleView (current_view s) (pa_view a))
  else if bool_decide (pa_signature_scheme a = Threshold) && negb (anti_mev s) then Err ProposalThresholdBeforeAntiMev
  else
    let? parent_number := ok_or (checked_sub (rs_height s) 1) GenesisHeight in
    let? found := map_err PrimaryProvider (sealed_header_at provider parent_number) in
    let? parent := ok_or found (MissingParent parent_number) in
    let? state := map_err PrimaryProvider (state_by_block_hash provider (hash_slow parent)) in
    let? base_fee := policy_base_fee_of state in
    let primary := primary_index s (pa_view a) in
    if U8_MAX <? primary then Err PrimaryIndexOverflow
    else
      let difficulty := primary_difficulty (rs_height s) primary (lenN (rs_validators s)) in
      let attributes := primary_block_attributes spec a parent in
      let env := primary_evm_env spec parent attributes base_fee difficulty in
      let x := executor_new (new_evm state (dkg_active spec (block_env env)) env (context_for_next_block parent attributes))
                 (dkg_block (neox spec)) (anti_mev_block (neox spec)) in
      let? x := map_err PrimaryExecution (apply_pre_execution_changes x) in
      Ok (mkPrimaryStart parent state base_fee primary difficulty attributes x).

(** The rest of a build, once the candidates are drained. *)
Definition finish_primary (spec : NeoXChainSpec) (s : DbftRoundState) (a : PrimaryProposalAttributes) (start : PrimaryStart)
    (selected : Selection) : result PrimaryProposalError PrimaryProposal :=
  let parent := st_parent start in
  let x := sel_executor selected in
  let transactions := (sel_transactions selected).*1 in
  let? (next_validators, next_dkg) := read_next_consensus spec (rs_height s) (inner_evm x) in
  let? header := builder_finish spec (st_state start) parent (context_for_next_block parent (st_attributes start)) x transactions in
  let? header := finalize_primary_header spec (st_primary start) (st_difficulty start) (pa_signature_scheme a)
                   next_validators (dkg_key next_dkg) header in
  let? (seal_hash, extra) := map_err PrimaryExtra (parent_reseal_witness parent) in
  Ok (mkPrimaryProposal (mkDbftPrepareRequest header (map eth_tx_hash transactions) seal_hash extra)
        transactions (sel_sidecars selected)).

(** The pool as the build leaves it, and the proposal. *)
Definition build_primary_proposal (spec : NeoXChainSpec) (provider : ChainProvider) (s : DbftRoundState)
    (a : PrimaryProposalAttributes) (pool : tx_pool) : tx_pool * result PrimaryProposalError PrimaryProposal :=
  match start_primary spec provider s a with
  | Err e => (pool, Err e)
  | Ok start =>
      let time := na_timestamp (st_attributes start) in
      let blob_fee := (fun price => price mod 2 ^ 64) <$> blob_gasprice (evm_block (inner_evm (st_executor start))) in
      let candidates := no_updates (best_transactions_with_attributes pool (st_base_fee start) blob_fee) in
      let maximum_blob_count :=
        from_option max_blob_count 0 (blob_params_at_timestamp (inner spec) time) in
      let '(selected, drained) :=
        select_transactions (best_fuel (best candidates)) maximum_blob_count
          (is_osaka_active_at_timestamp (inner spec) time)
          (mkSelection pool candidates (st_executor start) [] 0 []) in
      (sel_pool selected, let? _ := drained in finish_primary spec s a start selected)
  end.
End producer.

(** ** Documented behaviour of the code around the producer *)

(** The pool recovers the sender of every transaction, and stores a sidecar only once it is
    validated against the blob hashes of its transaction. *)
Class TransactionPoolLaws {X : SignedTransactions} {Y : BlobSidecars X} (T : TransactionPool X Y) : Prop := {
  candidates_ready pool base_fee blob_fee :
    candidates_ok (best_no_updates (best (best_transactions_with_attributes pool base_fee blob_fee)));
  candidates_signed pool base_fee blob_fee i p :
    all (best (best_transactions_with_attributes pool base_fee blob_fee)) !! i = Some p ->
    AntiMev.recover_signer (pt_transaction (pending_transaction p)) = Some (pt_sender (pending_transaction p));
  (** an identifier is the nonce of the transaction and a number for its sender *)
  candidates_named pool base_fee blob_fee i p :
    all (best (best_transactions_with_attributes pool base_fee blob_fee)) !! i = Some p ->
    id_nonce i = tx_nonce (pt_transaction (pending_transaction p)) /\
    forall j q, all (best (best_transactions_with_attributes pool base_fee blob_fee)) !! j = Some q ->
      id_sender i = id_sender j <-> pt_sender (pending_transaction p) = pt_sender (pending_transaction q);
  sidecars_validated pool t sidecar :
    get_blob pool (eth_tx_hash t) = Ok (Some sidecar) -> tx_ty t = TX_TYPE_EIP4844 ->
    blob_versioned_hashes t <> [] /\ validate_sidecar (beacon_sidecar_from sidecar) (blob_versioned_hashes t) = true;
}.

(** The state an executor's changes are on top of. *)
Class ExecutorDatabase {X : SignedTransactions} {V : Revm} (E : EthExecutor X V) : Type := {
  evm_database : evm -> StateProvider;
}.

(** A step that runs no transaction of the block. *)
Definition same_accounts {X : SignedTransactions} {V : Revm} {E : EthExecutor X V} {Db : ExecutorDatabase E} (e e' : evm) : Prop :=
  evm_database e' = evm_database e /\ cumulative_tx_gas_used e' = cumulative_tx_gas_used e /\
  max_block_gas_used e' = max_block_gas_used e /\ evm_blob_gas_used e' = evm_blob_gas_used e.

(** alloy-evm's executor: its accounts of gas and its reads. *)
Class ExecutorAccountsLaws {X : SignedTransactions} {D : TransactionDetails X} {V : Revm} (E : EthExecutor X V)
    (Db : ExecutorDatabase E) : Prop := {
  new_evm_fresh state dkg env ctx :
    let e := new_evm state dkg env ctx in
    evm_block e = block_env env /\ evm_database e = state /\
    cumulative_tx_gas_used e = 0 /\ max_block_gas_used e = 0 /\ evm_blob_gas_used e = 0;
  pre_execution_accounts e e' : eth_apply_pre_execution_changes e = Ok e' -> same_accounts e e';
  system_call_accounts e r : same_accounts e (commit_system_call e r);
  (** a transaction runs only in the gas that is left *)
  transaction_accounts e tx t r :
    eth_execute_transaction e tx t = Ok r ->
    let e' := eth_commit_transaction e r in
    evm_database e' = evm_database e /\ cumulative_tx_gas_used e' <= env_gas_limit (evm_block e) /\
    max_block_gas_used e' <= env_gas_limit (evm_block e) /\
    evm_blob_gas_used e' = saturating_add U64_MAX (evm_blob_gas_used e) (default 0 (blob_gas_used_by t));
  (** the Prague queue contracts do not exist on Neo X: calling them changes no other account
      and returns no requests *)
  post_execution_accounts e e' r :
    append_post_execution_changes e = Ok (e', r) ->
    same_accounts e e' /\ evm_block e' = evm_block e /\ r = no_requests /\
    forall a key, a ∈ [GOVERNANCE_PROXY_ADDRESS; KEY_MANAGEMENT_PROXY_ADDRESS] -> evm_storage e' a key = evm_storage e a key;
  (** a read sees the block's own changes first, then the state below *)
  evm_storage_bundle e a key :
    evm_storage e a key =
    match bundle_storage (take_bundle e) a key with
    | Some word => Ok word
    | None => let? word := provider_storage (evm_database e) a (u256_bytes key) in Ok (default 0 word)
    end;
}.

(** alloy's block environment, gas limit, blob schedule and empty roots. *)
Class BlockProductionLaws {X : SignedTransactions} {D : TransactionDetails X} {V : Revm} {E : EthExecutor X V}
    {Bs : BlobSchedule} {K : EthConstants} (Q : BlockRoots E) (G : BlockProduction E Bs) (spec : NeoXChainSpec) : Prop := {
  next_block_env parent a base_fee params :
    let b := block_env (for_eth_next_block parent a base_fee params) in
    env_number b = number parent + 1 /\ env_timestamp b = ne_timestamp a /\ env_gas_limit b = ne_gas_limit a;
  next_block_spec parent a base_fee params h :
    number h = number parent + 1 -> timestamp h = ne_timestamp a ->
    cfg_spec (for_eth_next_block parent a base_fee params) = cfg_spec (for_eth_block h);
  next_block_excess parent a base_fee params x :
    maybe_next_block_excess_blob_gas parent params = Some x ->
    env_excess_blob_gas (block_env (for_eth_next_block parent a base_fee params)) = Some x;
  next_block_no_excess parent a base_fee :
    is_cancun_active_at_timestamp (inner spec) (ne_timestamp a) = false ->
    env_excess_blob_gas (block_env (for_eth_next_block parent a base_fee None)) = None;
  next_excess_law parent params excess used base_fee :
    excess_blob_gas parent = Some excess -> blob_gas_used parent = Some used -> base_fee_per_gas parent = Some base_fee ->
    maybe_next_block_excess_blob_gas parent (Some params) = Some (next_block_excess_blob_gas_osaka params excess used base_fee);
  block_gas_limit_law parent desired :
    GAS_LIMIT_BOUND_DIVISOR <= parent ->
    let limit := calculate_block_gas_limit parent desired in
    N.min parent desired <= limit <= N.max parent desired /\
    limit < parent + parent / GAS_LIMIT_BOUND_DIVISOR /\ parent < limit + parent / GAS_LIMIT_BOUND_DIVISOR;
  blob_gas_of_count t : blob_gas_used_by t = (fun n => n * DATA_GAS_PER_BLOB) <$> blob_count t;
  max_blob_gas_law params :
    max_blob_gas_per_block params = max_blob_count params * DATA_GAS_PER_BLOB /\ max_blob_gas_per_block params <= U64_MAX;
  blob_gas_nonzero : DATA_GAS_PER_BLOB <> 0;
  empty_ommers : no_ommers_root = EMPTY_OMMER_ROOT_HASH;
  empty_withdrawals : no_withdrawals_root = EMPTY_ROOT_HASH;
  empty_requests : requests_hash_of no_requests = EMPTY_REQUESTS_HASH;
  gas_divisor_small : 0 < GAS_LIMIT_BOUND_DIVISOR <= MINIMUM_GAS_LIMIT;
}.

(** ** Selection *)

Section selected.
Context {C : Crypto} {B : Blst} {Bs : BlobSchedule}.
Context {X : SignedTransactions} {D : TransactionDetails X} {DL : TransactionDetailsLaws D} {P : PoolTransactions X}.
Context {V : Revm} {E : EthExecutor X V} {Y : BlobSidecars X} {T : TransactionPool X Y} {TL : TransactionPoolLaws T}.
Context {G : BlockProduction E Bs}.

Definition blobs_in (l : list (eth_tx * Address)) : N := foldr (fun p total => default 0 (blob_count p.1) + total) 0 l.

Lemma blobs_in_app l k : blobs_in (l ++ k) = blobs_in l + blobs_in k.
Proof. unfold blobs_in. induction l as [|p l IH]; cbn [app foldr]; [lia|]. rewrite IH. lia. Qed.

Definition ciphertext_checked (t : eth_tx) : Prop := validate_envelope_ciphertext (tx_ty t) (tx_to t) (tx_input t) = Ok tt.
Definition sidecar_valid (hashes : list B256) (sidecar : beacon_sidecar) : Prop := validate_sidecar sidecar hashes = true.

(** What holds of the transactions selected so far, from an executor [x0]. *)
Record selecting (maximum : N) (x0 : NeoXBlockExecutor) (s : Selection) : Prop := {
  se_runs : runs execute_transaction x0 (sel_transactions s) (sel_executor s);
  se_senders : Forall (fun p => AntiMev.recover_signer p.1 = Some p.2) (sel_transactions s);
  se_envelopes : Forall (fun p => ciphertext_checked p.1) (sel_transactions s);
  se_blobs : block_blob_count s = blobs_in (sel_transactions s) /\ block_blob_count s <= maximum;
  se_sidecars : Forall2 sidecar_valid (blob_hash_lists (sel_transactions s).*1) (sel_sidecars s);
  se_candidates : candidates_ok (best (sel_best s));
  se_signed : forall i p, all (best (sel_best s)) !! i = Some p ->
    AntiMev.recover_signer (pt_transaction (pending_transaction p)) = Some (pt_sender (pending_transaction p));
}.

Lemma selecting_start maximum x pool base_fee blob_fee :
  selecting maximum x (mkSelection pool (no_updates (best_transactions_with_attributes pool base_fee blob_fee)) x [] 0 []).
Proof.
  split; try done; [constructor|split; [done|apply N.le_0_l]|apply candidates_ready|]. intros i q. apply candidates_signed.
Qed.

Lemma blob_hash_lists_app l k : blob_hash_lists (l ++ k) = blob_hash_lists l ++ blob_hash_lists k.
Proof. unfold blob_hash_lists. by rewrite filter_app, map_app, filter_app. Qed.

Lemma candidates_ok_marked b t kind : candidates_ok b -> candidates_ok (best_mark_invalid b t kind).
Proof. intros []. by split. Qed.
Lemma candidates_ok_skip b skip : candidates_ok b -> candidates_ok (set_skip_blobs b skip).
Proof. intros []. by split. Qed.

(** Skipping a candidate, or dropping one from the pool, changes nothing selected. *)
Lemma selecting_skip maximum x0 s pool t kind :
  selecting maximum x0 s -> selecting maximum x0 (set_candidates s pool (mark_invalid (sel_best s) t kind)).
Proof. intros []. split; try done. by apply candidates_ok_marked. Qed.

Lemma selecting_failed maximum x0 s t x e :
  selecting maximum x0 s -> execute_transaction (sel_executor s) (pt_transaction t) (pt_sender t) = (x, Err e) ->
  selecting maximum x0 (mkSelection (sel_pool s) (sel_best s) x (sel_transactions s) (block_blob_count s) (sel_sidecars s)).
Proof.
  intros [] He. split; try done. rewrite <- (app_nil_r (sel_transactions s)). eapply runs_app; [done|].
  eapply runs_refused; [exact He|constructor].
Qed.

Lemma candidate_sidecar_Ok s maximum is_osaka t sidecar :
  block_blob_count s <= maximum -> candidate_sidecar s maximum is_osaka t = Ok (Ok sidecar) ->
  block_blob_count s + default 0 (blob_count t) <= maximum /\
  Forall2 sidecar_valid (blob_hash_lists [t]) (match sidecar with Some b => [beacon_sidecar_from b] | None => [] end).
Proof.
  intros Hmax. unfold candidate_sidecar, blob_hash_lists. pose proof (blob_count_law t) as Hty. rewrite filter_cons.
  destruct (blob_count t) as [n|] eqn:En.
  - destruct (N.ltb_spec maximum (block_blob_count s + n)); [done|]. intros H0. apply result_bind_Ok in H0 as (found & Hf%map_err_Ok & H0).
    destruct found as [sc|]; [|done]. assert (sidecar = Some sc) as ->.
    { destruct (is_osaka && _); [done|]. destruct (negb is_osaka && _); [done|]. by injection H0. }
    assert (E3 : tx_ty t = TX_TYPE_EIP4844) by (apply Hty; by eexists). destruct (sidecars_validated _ _ _ Hf E3) as [Hne Hv].
    rewrite decide_True by done. rewrite filter_nil. cbn [map]. rewrite filter_cons_True by done. rewrite filter_nil.
    split; [done|]. by constructor.
  - intros [= <-]. rewrite decide_False; [|intros E3; by destruct (proj2 Hty E3)]. split; [cbn; lia|]. constructor.
Qed.

Lemma selecting_include maximum is_osaka x0 s t x sidecar :
  selecting maximum x0 s ->
  AntiMev.recover_signer (pt_transaction t) = Some (pt_sender t) -> ciphertext_checked (pt_transaction t) ->
  candidate_sidecar s maximum is_osaka (pt_transaction t) = Ok (Ok sidecar) ->
  execute_transaction (sel_executor s) (pt_transaction t) (pt_sender t) = (x, Ok tt) ->
  selecting maximum x0 (include s maximum x t sidecar).
Proof.
  intros [Hr Hs He [Hb Hm] Hsc Hc Hsg] Hsig Hciph Hside Hx.
  destruct (candidate_sidecar_Ok _ _ _ _ _ Hm Hside) as [Hmax Hval].
  split; cbn [include sel_transactions sel_executor sel_best block_blob_count sel_sidecars].
  - eapply runs_app; [done|]. eapply runs_included; [exact Hx|constructor].
  - apply Forall_app. split; [done|]. by constructor.
  - apply Forall_app. split; [done|]. by constructor.
  - rewrite blobs_in_app. cbn [blobs_in foldr fst]. destruct (blob_count (pt_transaction t)); cbn in *; lia.
  - rewrite fmap_app, blob_hash_lists_app. cbn [fmap list_fmap fst].
    replace (match sidecar with Some b => sel_sidecars s ++ [beacon_sidecar_from b] | None => sel_sidecars s end)
      with (sel_sidecars s ++ match sidecar with Some b => [beacon_sidecar_from b] | None => [] end)
      by (destruct sidecar; [done|apply app_nil_r]).
    by apply Forall2_app.
  - destruct (blob_count _); [|done]. destruct (_ =? _); [|done]. by apply candidates_ok_skip.
  - intros i p. destruct (blob_count _); [|apply Hsg]. destruct (_ =? _); apply Hsg.
Qed.

(** The loop body keeps what holds of the selection, and the candidates that are left. *)
Lemma try_candidate_ok maximum is_osaka x0 s t :
  selecting maximum x0 s -> AntiMev.recover_signer (pt_transaction t) = Some (pt_sender t) ->
  selecting maximum x0 (try_candidate maximum is_osaka s t).1 /\
  all (best (sel_best (try_candidate maximum is_osaka s t).1)) = all (best (sel_best s)) /\
  (try_candidate maximum is_osaka s t).2 <> Err ProducerFuel.
Proof.
  intros Hs Hsig. unfold try_candidate, reject_invalid_envelope_candidate.
  destruct (validate_envelope_ciphertext _ _ _) as [[]|error] eqn:Ec; [|split_and!; [by apply selecting_skip|done|done]].
  destruct (candidate_sidecar _ _ _ _) as [[sidecar|kind]|e] eqn:Eb.
  - destruct (execute_transaction _ _ _) as [x [[]|e]] eqn:Ex.
    + split_and!; [by eapply selecting_include| |done]. cbn. destruct (blob_count _); [|done]. by destruct (_ =? _).
    + pose proof (selecting_failed _ _ _ _ _ _ Hs Ex) as Hf. destruct (failure_kind e); split_and!; try done;
        exact (selecting_skip _ _ _ _ t _ Hf).
  - split_and!; [by apply selecting_skip|done|done].
  - split_and!; [done|done|]. intros [= ->]. unfold candidate_sidecar in Eb. destruct (blob_count _); [|done].
    destruct (_ <? _); [done|]. destruct (get_blob _ _) as [[sc|]|]; [|done|done]. cbn [map_err result_bind] in Eb.
    destruct (is_osaka && _); [done|]. by destruct (negb is_osaka && _).
Qed.

Lemma try_candidate_best maximum is_osaka s t :
  candidates_ok (best (sel_best s)) ->
  candidates_ok (best (sel_best (try_candidate maximum is_osaka s t).1)) /\
  all (best (sel_best (try_candidate maximum is_osaka s t).1)) = all (best (sel_best s)).
Proof.
  intros Hc. pose proof (candidates_ok_marked _ t Underpriced Hc) as Hm. unfold try_candidate, reject_invalid_envelope_candidate.
  destruct (validate_envelope_ciphertext _ _ _); [|done]. destruct (candidate_sidecar _ _ _ _) as [[sidecar|kind]|]; [|done|done].
  destruct (execute_transaction _ _ _) as [x [[]|e]]; [|by destruct (failure_kind e)]. cbn. destruct (blob_count _); [|done].
  destruct (_ =? _); [|done]. split; [by apply candidates_ok_skip|done].
Qed.

(** Draining the candidates terminates, within one round per candidate. *)
Lemma select_spec fuel maximum is_osaka x0 s :
  selecting maximum x0 s -> (size (all (best (sel_best s))) < fuel)%nat ->
  selecting maximum x0 (select_transactions fuel maximum is_osaka s).1 /\
  (select_transactions fuel maximum is_osaka s).2 <> Err ProducerFuel.
Proof.
  revert s. induction fuel as [|fuel IH]; intros s Hs Hf; [lia|]. cbn [select_transactions].
  destruct (next_spec (sel_best s) (se_candidates _ _ _ Hs)) as (c & o & -> & _ & Ho). destruct Hs as [Hr Hsn He Hb Hsc Hc Hsg].
  destruct o as [t|].
  - destruct Ho as (p & Hy & -> & _ & _).
    assert (Hs1 : selecting maximum x0 (set_candidates s (sel_pool s) c)).
    { split; try done; [apply Hy|]. intros i q Hq. apply (Hsg i). eapply lookup_weaken; [exact Hq|apply Hy]. }
    assert (Hsig : AntiMev.recover_signer (pt_transaction (pending_transaction p)) = Some (pt_sender (pending_transaction p))).
    { apply (Hsg (pending_id p)), (co_independent _ Hc), Hy. }
    destruct (try_candidate_ok maximum is_osaka x0 _ _ Hs1 Hsig) as (Hs2 & Ha & Hfu).
    destruct (try_candidate _ _ _ _) as [s2 [[]|e]]; [|done]. apply IH; [done|]. cbn in Ha. rewrite Ha.
    pose proof (yi_smaller _ _ _ Hy). cbn. lia.
  - split; [|done]. split; try done; [apply Ho|]. intros i q Hq. apply (Hsg i). eapply lookup_weaken; [exact Hq|apply Ho].
Qed.

(** ** The order of a sender's transactions *)

Definition nonces_of (sender : Address) (l : list (eth_tx * Address)) : list N :=
  map (fun p => tx_nonce p.1) (filter (fun p => p.2 = sender) l).

Definition consecutive (l : list N) : Prop :=
  forall i m n, l !! i = Some m -> l !! S i = Some n -> n = wrapping_add U64_MAX m 1.

Lemma consecutive_snoc l n :
  consecutive l -> (forall m, last l = Some m -> n = wrapping_add U64_MAX m 1) -> consecutive (l ++ [n]).
Proof.
  intros Hl Hn i m k Hm Hk. apply lookup_app_Some in Hk as [Hk|[Hle Hk]].
  - apply (Hl i); [|done]. apply lookup_lt_Some in Hk. by rewrite lookup_app_l in Hm by lia.
  - destruct (S i - length l)%nat as [|j] eqn:Ej; [|by destruct j]. injection Hk as <-. apply Hn. rewrite last_lookup.
    rewrite lookup_app_l in Hm by lia. by replace (pred (length l)) with i by lia.
Qed.

Lemma nonces_of_snoc sender l t a :
  nonces_of sender (l ++ [(t, a)]) = if bool_decide (a = sender) then nonces_of sender l ++ [tx_nonce t] else nonces_of sender l.
Proof.
  unfold nonces_of. rewrite filter_app, map_app, filter_cons, filter_nil. cbn [snd]. case_bool_decide; case_decide; try done.
  by rewrite app_nil_r.
Qed.

(** Among the candidates [b], identifiers are nonces and senders. *)
Definition named (b : BestTransactions) : Prop :=
  forall i p, all b !! i = Some p -> id_nonce i = tx_nonce (pt_transaction (pending_transaction p)) /\
    forall j q, all b !! j = Some q ->
      id_sender i = id_sender j <-> pt_sender (pending_transaction p) = pt_sender (pending_transaction q).

(** The next transaction of a sender continues the selected ones. *)
Definition continues (b : BestTransactions) (l : list (eth_tx * Address)) : Prop :=
  forall q n, q ∈ independent b -> pending_sender q ∉ invalid b ->
    last (nonces_of (pt_sender (pending_transaction q)) l) = Some n -> id_nonce (pending_id q) = wrapping_add U64_MAX n 1.

Lemma named_weaken b b' : all b' ⊆ all b -> named b -> named b'.
Proof.
  intros Hsub Hn i p Hp. destruct (Hn i p) as [H1 H2]; [by eapply lookup_weaken|]. split; [done|].
  intros j q Hq. apply H2. by eapply lookup_weaken.
Qed.

Lemma drops_continues b b' l : drops b b' -> continues b l -> continues b' l.
Proof. intros Hd Hc q n Hq Hv. apply Hc; [by apply Hd|]. pose proof (dr_invalid _ _ Hd). set_solver. Qed.

(** After a yielded transaction is selected, the transaction of the following nonce is next. *)
Lemma yields_continues b b' p l :
  candidates_ok b -> named b -> yields b b' p -> continues b l ->
  (forall m, last (nonces_of (pt_sender (pending_transaction p)) l) = Some m ->
     tx_nonce (pt_transaction (pending_transaction p)) = wrapping_add U64_MAX m 1) /\
  continues b' (l ++ [(pt_transaction (pending_transaction p), pt_sender (pending_transaction p))]).
Proof.
  intros Hb Hn Hy Hc. pose proof (co_independent _ Hb _ (yi_from _ _ _ Hy)) as Hp. destruct (Hn _ _ Hp) as [Enonce Hsame].
  split; [intros m Hm; rewrite <- Enonce; apply Hc; [apply Hy|apply Hy|done]|].
  intros q n Hq Hv. pose proof (co_independent _ (yi_ok _ _ _ Hy) _ Hq) as Hqa.
  assert (Hqb : all b !! pending_id q = Some q) by (eapply lookup_weaken; [exact Hqa|apply Hy]). rewrite nonces_of_snoc.
  pose proof (Hsame _ _ Hqb) as Hs. unfold pending_sender in *. destruct (yi_ready _ _ _ Hy q Hq Hv) as [[Hi Hne]|Eid].
  - rewrite bool_decide_eq_false_2; [|intros Es; apply Hne; symmetry; by apply Hs]. apply Hc; [done|].
    pose proof (yi_invalid _ _ _ Hy). set_solver.
  - rewrite bool_decide_eq_true_2; [|apply Hs; by rewrite Eid]. rewrite last_snoc. intros [= <-]. by rewrite Eid, <- Enonce.
Qed.

Definition in_order (l : list (eth_tx * Address)) : Prop := forall sender, consecutive (nonces_of sender l).

Lemma in_order_snoc l t a :
  in_order l -> (forall m, last (nonces_of a l) = Some m -> tx_nonce t = wrapping_add U64_MAX m 1) -> in_order (l ++ [(t, a)]).
Proof.
  intros Hl Hn sender. rewrite nonces_of_snoc. case_bool_decide as Ea; [subst|done]. by apply consecutive_snoc.
Qed.

(** The loop body selects the candidate or rules its sender out. *)
Lemma try_candidate_order maximum is_osaka b s p :
  candidates_ok b -> named b -> yields b (best (sel_best s)) p -> in_order (sel_transactions s) -> continues b (sel_transactions s) ->
  let s' := (try_candidate maximum is_osaka s (pending_transaction p)).1 in
  (try_candidate maximum is_osaka s (pending_transaction p)).2 = Ok tt ->
  in_order (sel_transactions s') /\ continues (best (sel_best s')) (sel_transactions s').
Proof.
  intros Hb Hn Hy Ho Hc. destruct (yields_continues _ _ _ _ Hb Hn Hy Hc) as [Hnext Hc'].
  assert (Hskip : forall pool kind, let s' := set_candidates s pool (mark_invalid (sel_best s) (pending_transaction p) kind) in
    in_order (sel_transactions s') /\ continues (best (sel_best s')) (sel_transactions s')).
  { intros pool kind. split; [done|]. exact (drops_continues _ _ _ (yields_marked _ _ _ kind Hy) Hc). }
  unfold try_candidate, reject_invalid_envelope_candidate.
  destruct (validate_envelope_ciphertext _ _ _) as [[]|error]; [|intros _; apply Hskip].
  destruct (candidate_sidecar _ _ _ _) as [[sidecar|kind]|e]; [|intros _; apply Hskip|done].
  destruct (execute_transaction _ _ _) as [x [[]|e]].
  - intros _. split; [by apply in_order_snoc|]. unfold include. cbn [fst sel_best sel_transactions]. destruct (blob_count _); [|done].
    destruct (_ =? _); done.
  - destruct (failure_kind e); [intros _; exact (Hskip (sel_pool s) _)..|done].
Qed.

Lemma select_order fuel maximum is_osaka s :
  candidates_ok (best (sel_best s)) -> named (best (sel_best s)) -> in_order (sel_transactions s) ->
  continues (best (sel_best s)) (sel_transactions s) ->
  (select_transactions fuel maximum is_osaka s).2 = Ok tt ->
  in_order (sel_transactions (select_transactions fuel maximum is_osaka s).1).
Proof.
  revert s. induction fuel as [|fuel IH]; intros s Hb Hn Ho Hc; [done|]. cbn [select_transactions].
  destruct (next_spec (sel_best s) Hb) as (c & o & -> & _ & Hy). destruct o as [t|]; [|done]. destruct Hy as (p & Hy & -> & _).
  pose proof (try_candidate_order maximum is_osaka (best (sel_best s)) (set_candidates s (sel_pool s) c) p Hb Hn Hy Ho Hc) as Htry.
  assert (Hall : forall s', s' = (try_candidate maximum is_osaka (set_candidates s (sel_pool s) c) (pending_transaction p)).1 ->
    candidates_ok (best (sel_best s')) /\ all (best (sel_best s')) = all (best c)).
  { intros s' ->. apply try_candidate_best, Hy. }
  destruct (try_candidate _ _ _ _) as [s2 [[]|e]]; [|done]. destruct (Htry eq_refl) as [Ho2 Hc2]. destruct (Hall s2 eq_refl) as [Hb2 Ha2].
  apply IH; try done. eapply named_weaken; [|exact Hn]. rewrite Ha2. apply Hy.
Qed.
End selected.

(** ** Execution of the selection *)

Section executed.
Context {C : Crypto} {X : SignedTransactions} {D : TransactionDetails X} {V : Revm} {E : EthExecutor X V} {L : EthExecutorLaws E}.
Context {Db : ExecutorDatabase E} {A : ExecutorAccountsLaws E Db}.

Definition blob_gas_in (l : list (eth_tx * Address)) : N :=
  foldr (fun p total => default 0 (blob_gas_used_by p.1) + total) 0 l.

(** The accounts of an executor over [state] that ran [l]. *)
Record accounted (state : StateProvider) (e : evm) (l : list (eth_tx * Address)) : Prop := {
  ac_database : evm_database e = state;
  ac_gas : cumulative_tx_gas_used e <= env_gas_limit (evm_block e) /\ max_block_gas_used e <= env_gas_limit (evm_block e);
  ac_blobs : blob_gas_in l <= U64_MAX -> evm_blob_gas_used e = blob_gas_in l;
}.

Lemma accounted_same state e e' l :
  same_accounts e e' -> evm_block e' = evm_block e -> accounted state e l -> accounted state e' l.
Proof. intros (H1 & H2 & H3 & H4) Hb [G1 G2 G3]. split; [congruence|by rewrite Hb, H2, H3|by rewrite H4]. Qed.

Lemma blob_gas_in_app l k : blob_gas_in (l ++ k) = blob_gas_in l + blob_gas_in k.
Proof. unfold blob_gas_in. induction l as [|p l IH]; cbn [app foldr]; [lia|]. rewrite IH. lia. Qed.

Lemma system_call_accounted state e contract selector e' l :
  apply_system_call e contract selector = Ok e' -> accounted state e l -> accounted state e' l.
Proof.
  unfold apply_system_call. intros H. apply result_bind_Ok in H as ([[] r] & _ & H); [|done]. injection H as <-.
  apply accounted_same; [apply system_call_accounts|apply system_call_block].
Qed.

Lemma pre_execution_accounted state dkg env ctx dkg_block anti_mev_block x :
  apply_pre_execution_changes (executor_new (new_evm state dkg env ctx) dkg_block anti_mev_block) = Ok x ->
  accounted state (inner_evm x) [] /\ evm_block (inner_evm x) = block_env env.
Proof.
  intros H. pose proof (pre_execution_inv _ _ _ _ H) as (_ & Hb & _).
  destruct (new_evm_fresh state dkg env ctx) as (Fb & Fd & Fc & Fm & Fbl). split; [|congruence].
  unfold apply_pre_execution_changes in H. cbn [inner_evm executor_new] in H.
  apply result_bind_Ok in H as ([] & _ & H). apply result_bind_Ok in H as (s & Hs%map_err_Ok & H).
  apply result_bind_Ok in H as (limit & _ & H). apply result_bind_Ok in H as (f & Hf & [= <-]). cbn [inner_evm].
  assert (H0 : accounted state (new_evm state dkg env ctx) []).
  { split; [done|rewrite Fc, Fm; lia|]. by rewrite Fbl. }
  apply (accounted_same _ _ _ _ (pre_execution_accounts _ _ Hs) (pre_execution_block _ _ Hs)) in H0.
  unfold apply_on_persist_calls in Hf. apply result_bind_Ok in Hf as (g & Hg & Hf).
  eapply system_call_accounted; [exact Hf|]. destruct (_ <=? _); [by eapply system_call_accounted|by injection Hg as <-].
Qed.

Lemma execute_commits x t sender x' :
  execute_transaction x t sender = (x', Ok tt) ->
  exists output, eth_execute_transaction (inner_evm x) (tx_env t sender) t = Ok output /\
    inner_evm x' = eth_commit_transaction (inner_evm x) output.
Proof.
  rewrite execute_transaction_eq. destruct (if _ && _ then _ else _); [|done]. destruct (validate_policy _ _); [|done].
  destruct (eth_execute_transaction _ _ _) as [output|]; [|done]. intros [= <-]. by exists output.
Qed.

Lemma runs_accounted state x l x' k :
  runs execute_transaction x l x' -> executor_ok x -> accounted state (inner_evm x) k ->
  accounted state (inner_evm x') (k ++ l) /\ evm_block (inner_evm x') = evm_block (inner_evm x).
Proof.
  intros Hr. revert k. induction Hr as [x|x t sender x1 l x2 H1 H2 IH|x t sender x1 e l x2 H1 H2 IH]; intros k Hx Ha.
  - by rewrite app_nil_r.
  - assert (Hx1 : executor_ok x1).
    { destruct (executes_spec x [(t, sender)] x1) as (? & _); [by eapply runs_included; [done|constructor]|done|done]. }
    destruct (execute_commits _ _ _ _ H1) as (output & Ho & Ec).
    apply execute_Ok in H1 as (_ & Hb & _). destruct (transaction_accounts _ _ _ _ Ho) as (T1 & T2 & T3 & T4).
    destruct (IH (k ++ [(t, sender)])) as [Ha' Hb']; [done| |rewrite <- app_assoc in Ha'; split; [done|congruence]].
    destruct Ha as [G1 G2 G3]. split; [rewrite Ec; congruence|rewrite Hb, Ec; by split|].
    rewrite blob_gas_in_app, Ec, T4. cbn [blob_gas_in foldr fst]. intros Hle. rewrite G3 by lia. unfold saturating_add. lia.
  - apply execute_Err in H1 as ->; [|done]. by apply IH.
Qed.

(** The end of a block, for an executor that ran [l] over [state]. *)
Lemma finish_accounted state prague x l e output :
  executor_finish prague x = Ok (e, output) -> accounted state (inner_evm x) l ->
  accounted state e l /\ evm_block e = evm_block (inner_evm x) /\ result_gas_used output <= env_gas_limit (evm_block e) /\
  result_blob_gas_used output = evm_blob_gas_used e /\ result_requests output = no_requests /\
  forall a key, a ∈ [GOVERNANCE_PROXY_ADDRESS; KEY_MANAGEMENT_PROXY_ADDRESS] ->
    evm_storage e a key = evm_storage (inner_evm x) a key.
Proof.
  unfold executor_finish. intros H Ha. apply result_bind_Ok in H as ([f r] & Hf & [= <- <-]).
  cbn [result_gas_used result_blob_gas_used result_requests].
  assert (Hend : accounted state f l /\ evm_block f = evm_block (inner_evm x) /\ r = no_requests /\
    forall a key, a ∈ [GOVERNANCE_PROXY_ADDRESS; KEY_MANAGEMENT_PROXY_ADDRESS] -> evm_storage f a key = evm_storage (inner_evm x) a key).
  { destruct prague; [|by injection Hf as <- <-]. apply map_err_Ok in Hf.
    destruct (post_execution_accounts _ _ _ Hf) as (Hs & Hb & Hr & Hst). split_and!; try done. by eapply accounted_same. }
  destruct Hend as (Hacc & Hb & -> & Hst). split_and!; try done. destruct Hacc as [_ [G1 G2] _]. by destruct (enable_amsterdam_eip8037 f).
Qed.
End executed.

(** ** Reads of the post-state *)

(** The readers of Governance and KeyManagement do not tell an absent word from a zero one. *)
Definition defaulted {F} (storage : B256 -> result F (option U256)) (key : B256) : result F (option U256) :=
  let? word := storage key in Ok (Some (default 0 word)).

Section reads.
Context {C : Crypto} {B : Blst}.

Lemma collect_result_ext {F I O} (f g : I -> result F O) l : (forall x, f x = g x) -> collect_result f l = collect_result g l.
Proof. intros H. induction l as [|x l IH]; [done|]. cbn [collect_result]. by rewrite H, IH. Qed.

Lemma read_governance_defaulted f g :
  (forall n, f (u256_bytes n) = defaulted g (u256_bytes n)) ->
  read_governance_validator_set_from_storage f = read_governance_validator_set_from_storage g.
Proof.
  intros H. unfold read_governance_validator_set_from_storage, read_governance_address_array. rewrite H. unfold defaulted at 1.
  destruct (g _) as [word|]; [|done]. cbn [result_bind default]. destruct (_ <? _); [done|]. destruct (false && _); [done|].
  destruct (_ || _); [done|]. f_equal. f_equal. apply collect_result_ext. intros i. unfold read_validator. rewrite H. unfold defaulted.
  destruct (g _) as [[v|]|]; cbn [result_bind ok_or default]; [done| |done].
  rewrite bool_decide_eq_true_2; [done|]. vm_compute. reflexivity.
Qed.

Lemma read_word_defaulted {F} (f g : B256 -> result F (option U256)) key :
  (forall n, f (u256_bytes n) = defaulted g (u256_bytes n)) -> read_word f key = read_word g key.
Proof. intros H. unfold read_word. rewrite H. unfold defaulted. by destruct (g _). Qed.

Lemma read_bytes_defaulted f g slot :
  (forall n, f (u256_bytes n) = defaulted g (u256_bytes n)) -> read_solidity_bytes f slot = read_solidity_bytes g slot.
Proof.
  intros H. unfold read_solidity_bytes. rewrite H. unfold defaulted at 1. destruct (g _) as [word|]; [|done].
  cbn [result_bind default]. destruct (N.testbit _ 0); [|done]. destruct (_ <? _); [done|]. destruct (_ <? _); [done|].
  f_equal. apply collect_result_ext. intros i. by apply read_word_defaulted.
Qed.

Lemma read_dkg_defaulted f g parameters :
  (forall n, f (u256_bytes n) = defaulted g (u256_bytes n)) ->
  read_dkg_state_from_storage f parameters = read_dkg_state_from_storage g parameters.
Proof.
  intros H. assert (Hk : forall round, read_public_key f round parameters = read_public_key g round parameters).
  { intros round. unfold read_public_key. by rewrite (read_bytes_defaulted f g). }
  unfold read_dkg_state_from_storage. rewrite H. unfold defaulted at 1. destruct (g _) as [word|]; [|done].
  cbn [result_bind default]. by rewrite !Hk.
Qed.
End reads.

Section post_state.
Context {C : Crypto} {B : Blst} {S : BlobSchedule} {X : SignedTransactions} {D : TransactionDetails X} {V : Revm} {E : EthExecutor X V}.
Context {Db : ExecutorDatabase E} {A : ExecutorAccountsLaws E Db}.

(** The primary reads the executor's database before the block ends; a backup reads the
    bundle of the ended block over the parent state. *)
Lemma post_storage_agrees state e l e' a n :
  accounted state e' l -> evm_storage e' a (N_of_be (u256_bytes n)) = evm_storage e a (N_of_be (u256_bytes n)) ->
  primary_post_storage e a (u256_bytes n) = defaulted (post_storage (take_bundle e') state a) (u256_bytes n).
Proof.
  intros [Hd _ _] Hs. unfold primary_post_storage, defaulted, post_storage. rewrite <- Hs, evm_storage_bundle, Hd.
  destruct (bundle_storage _ _ _); [done|]. rewrite u256_bytes_of_be by apply u256_bytes_length.
  by destruct (provider_storage _ _ _).
Qed.

Lemma read_next_consensus_agrees spec state height e l e' nv nd :
  accounted state e' l ->
  (forall a key, a ∈ [GOVERNANCE_PROXY_ADDRESS; KEY_MANAGEMENT_PROXY_ADDRESS] -> evm_storage e' a key = evm_storage e a key) ->
  read_next_consensus spec height e = Ok (nv, nd) ->
  height < U64_MAX /\ post_governance (take_bundle e') state = Ok nv /\
  (anti_mev_active_at_block spec (height + 1) = true -> is_ok (dkg_parameters_new (lenN (Storage.sorted nv))) = true) /\
  (forall params, dkg_parameters_new (lenN (Storage.sorted nv)) = Ok params ->
     nd = post_dkg spec (height + 1) params (take_bundle e') state).
Proof.
  intros Ha Hs H. unfold read_next_consensus in H. apply result_bind_Ok in H as (nv' & Hg%map_err_Ok & H).
  apply result_bind_Ok in H as (m & Hm%ok_or_Ok & H). apply checked_add_Some in Hm as [-> Hm].
  assert (Hgov : post_governance (take_bundle e') state = Ok nv').
  { rewrite <- Hg. symmetry. apply read_governance_defaulted. intros n.
    rewrite (post_storage_agrees state e l e') by (done || (apply Hs; set_solver)). unfold defaulted. by destruct (post_storage _ _ _ _). }
  destruct (anti_mev_active_at_block spec (height + 1)) eqn:Eam.
  - apply result_bind_Ok in H as (params & Hp%map_err_Ok & [= <- <-]). split_and!; [lia|done|by rewrite Hp|].
    intros params' Hp'. rewrite Hp in Hp'. injection Hp' as <-. unfold post_dkg, read_next_dkg_or_fallback. rewrite Eam. f_equal.
    apply read_dkg_defaulted. intros n.
    rewrite (post_storage_agrees state e l e') by (done || (apply Hs; set_solver)). unfold defaulted. by destruct (post_storage _ _ _ _).
  - injection H as <- <-. split_and!; [lia|done|done|]. intros params _. unfold post_dkg, read_next_dkg_or_fallback. by rewrite Eam.
Qed.
End post_state.

(** ** A finished build *)

Section built.
Context {R : AlloyRlp} {C : Crypto} {CL : CryptoLaws C} {B : Blst} {Sy : Symmetric} {K : EthConstants} {Bs : BlobSchedule}.
Context {X : SignedTransactions} {D : TransactionDetails X} {DL : TransactionDetailsLaws D} {P : PoolTransactions X}.
Context {V : Revm} {E : EthExecutor X V} {L : EthExecutorLaws E} {Q : BlockRoots E} {Y : BlobSidecars X}.
Context {T : TransactionPool X Y} {TL : TransactionPoolLaws T} {G : BlockProduction E Bs}.
Context {Db : ExecutorDatabase E} {A : ExecutorAccountsLaws E Db}.

#[local] Set Implicit Arguments.
(** The steps of a build that returned [p]. *)
Record built (spec : NeoXChainSpec) (provider : ChainProvider) (s : DbftRoundState) (a : PrimaryProposalAttributes)
    (p : PrimaryProposal) (parent : Header) (state : StateProvider) (base_fee : N) (x0 : NeoXBlockExecutor) (selected : Selection)
    (e : evm) (output : BlockExecutionResult) (root : B256) (nv : GovernanceValidatorSet) (nd : option DkgState) (h1 : Header)
    : Prop := {
  bu_scheme : pa_signature_scheme a = Threshold -> anti_mev s = true;
  bu_view : pa_view a = current_view s;
  bu_height : 0 < rs_height s;
  bu_parent : sealed_header_at provider (rs_height s - 1) = Ok (Some parent);
  bu_state : state_by_block_hash provider (hash_slow parent) = Ok state;
  bu_primary : primary_index s (pa_view a) <= U8_MAX;
  bu_started :
    let attributes := primary_block_attributes spec a parent in
    let env := primary_evm_env spec parent attributes base_fee
                 (primary_difficulty (rs_height s) (primary_index s (pa_view a)) (lenN (rs_validators s))) in
    apply_pre_execution_changes
      (executor_new (new_evm state (dkg_active spec (block_env env)) env (context_for_next_block parent attributes))
         (dkg_block (neox spec)) (anti_mev_block (neox spec))) = Ok x0;
  bu_selected :
    selecting (from_option max_blob_count 0 (blob_params_at_timestamp (inner spec) (N.max (pa_timestamp a) (timestamp parent))))
      x0 selected;
  bu_order : in_order (sel_transactions selected);
  bu_finished :
    executor_finish (is_prague_active_at_timestamp (inner spec) (env_timestamp (evm_block (inner_evm (sel_executor selected)))))
      (sel_executor selected) = Ok (e, output);
  bu_root : state_root_of state (take_bundle e) = Ok root;
  bu_consensus : read_next_consensus spec (rs_height s) (inner_evm (sel_executor selected)) = Ok (nv, nd);
  bu_commitments :
    apply_next_consensus_commitments spec
      (assemble_block spec (evm_block e) (context_for_next_block parent (primary_block_attributes spec a parent)) parent
         (sel_transactions selected).*1 output root).1
      (pa_signature_scheme a) nv (dkg_key nd) = Ok h1;
  bu_header : sealing_proposal (pp_request p) = with_primary h1 (primary_index s (pa_view a))
    (primary_difficulty (rs_height s) (primary_index s (pa_view a)) (lenN (rs_validators s)));
  bu_hashes : transaction_hashes (pp_request p) = map eth_tx_hash (pp_transactions p);
  bu_transactions : pp_transactions p = (sel_transactions selected).*1;
  bu_sidecars : pp_sidecars p = sel_sidecars selected;
  bu_witness : parent_reseal_witness parent = Ok (parent_seal_hash_v0 (pp_request p), parent_extra (pp_request p));
}.
#[local] Unset Implicit Arguments.

Lemma build_Ok spec provider s a pool pool' p :
  build_primary_proposal spec provider s a pool = (pool', Ok p) ->
  exists parent state base_fee x0 selected e output root nv nd h1,
    built spec provider s a p parent state base_fee x0 selected e output root nv nd h1.
Proof.
  unfold build_primary_proposal. destruct (start_primary spec provider s a) as [start|] eqn:Es; [|done].
  unfold start_primary in Es. destruct (N.eqb_spec (pa_view a) (current_view s)) as [Ev|]; [|done]. cbn [negb] in Es.
  destruct (bool_decide _ && _) eqn:Eth; [done|]. apply result_bind_Ok in Es as (pn & Hpn%ok_or_Ok & Es).
  unfold checked_sub in Hpn. destruct (N.leb_spec 1 (rs_height s)); [|done]. injection Hpn as <-.
  apply result_bind_Ok in Es as (found & Hf%map_err_Ok & Es). apply result_bind_Ok in Es as (parent & ->%ok_or_Ok & Es).
  apply result_bind_Ok in Es as (state & Hst%map_err_Ok & Es). apply result_bind_Ok in Es as (base_fee & _ & Es).
  destruct (N.ltb_spec U8_MAX (primary_index s (pa_view a))); [done|].
  apply result_bind_Ok in Es as (x0 & Hx0%map_err_Ok & [= <-]). cbn [st_attributes st_executor st_base_fee na_timestamp primary_block_attributes].
  set (maximum := from_option max_blob_count 0 _). set (candidates := no_updates _). set (s0 := mkSelection _ _ _ _ _ _).
  assert (Hs0 : selecting maximum x0 s0) by apply selecting_start.
  destruct (select_spec (best_fuel (best candidates)) maximum (is_osaka_active_at_timestamp (inner spec) (N.max (pa_timestamp a) (timestamp parent)))
    x0 s0 Hs0 ltac:(unfold best_fuel; cbn; lia)) as [Hsel _].
  pose proof (select_order (best_fuel (best candidates)) maximum (is_osaka_active_at_timestamp (inner spec) (N.max (pa_timestamp a) (timestamp parent)))
    s0 (se_candidates _ _ _ Hs0)) as Hord.
  destruct (select_transactions _ _ _ _) as [selected drained]. intros [= _ Hp]. apply result_bind_Ok in Hp as ([] & Hdr & Hp).
  specialize (Hord ltac:(intros i q; apply candidates_named) ltac:(by intros sender i m n) ltac:(by intros q n) Hdr).
  unfold finish_primary in Hp. cbn [st_parent st_state st_attributes st_primary st_difficulty] in Hp.
  apply result_bind_Ok in Hp as ([nv nd] & Hn & Hp). apply result_bind_Ok in Hp as (h0 & Hh0 & Hp).
  apply result_bind_Ok in Hp as (h & Hh & Hp). apply result_bind_Ok in Hp as ([sh ex] & Hw%map_err_Ok & [= <-]).
  unfold builder_finish in Hh0. apply result_bind_Ok in Hh0 as ([e output] & Hfin%map_err_Ok & Hh0).
  apply result_bind_Ok in Hh0 as (root & Hroot%map_err_Ok & [= <-]). unfold finalize_primary_header in Hh.
  apply result_bind_Ok in Hh as (h1 & Hh1%map_err_Ok & [= <-]).
  exists parent, state, base_fee, x0, selected, e, output, root, nv, nd, h1. cbn in Hsel. split; try done; [|lia].
  intros Ht. destruct (anti_mev s); [done|]. by rewrite bool_decide_eq_true_2 in Eth.
Qed.

(** ** The header of a produced proposal *)

Context {spec : NeoXChainSpec} {GL : BlockProductionLaws Q G spec}.

Definition block_time (a : PrimaryProposalAttributes) (parent : Header) : N := N.max (pa_timestamp a) (timestamp parent).

#[local] Set Implicit Arguments.
(** What the chain and the round must satisfy: the parent is the block below the round's
    height, its gas limit and the target are within the bounds of consensus, the committee
    has the size of the chain's, forks only become active, and the blob schedule covers
    Cancun, which is active for parent and child alike. *)
Record producible (s : DbftRoundState) (a : PrimaryProposalAttributes) (parent : Header) : Prop := {
  pr_number : number parent + 1 = rs_height s;
  pr_validators : lenN (rs_validators s) = standby_count spec /\ 0 < standby_count spec;
  pr_anti_mev : anti_mev s = true -> anti_mev_active_at_block spec (rs_height s) = true;
  pr_london : is_london_active_at_block (inner spec) (number parent) = true /\
    is_london_active_at_block (inner spec) (rs_height s) = true;
  pr_amsterdam : is_amsterdam_active_at_timestamp (inner spec) (block_time a parent) = false;
  pr_gas : MINIMUM_GAS_LIMIT <= gas_limit parent <= MAXIMUM_GAS_LIMIT_BLOCK /\
    MINIMUM_GAS_LIMIT <= desired_gas_limit a <= MAXIMUM_GAS_LIMIT_BLOCK;
  pr_cancun :
    if is_cancun_active_at_timestamp (inner spec) (block_time a parent) then
      is_cancun_active_at_timestamp (inner spec) (timestamp parent) = true /\
      is_Some (blob_params_at_timestamp (inner spec) (block_time a parent)) /\
      is_Some (excess_blob_gas parent) /\ is_Some (blob_gas_used parent) /\ is_Some (base_fee_per_gas parent)
    else blob_params_at_timestamp (inner spec) (block_time a parent) = None;
}.
#[local] Unset Implicit Arguments.

(** The committee and the DKG key of a state can be read. *)
Definition dkg_readable (state : StateProvider) : Prop :=
  exists current parameters dkg,
    read_governance_validator_set_from_storage (fun key =>
      map_err GovernanceProvider (provider_storage state GOVERNANCE_PROXY_ADDRESS key)) = Ok current /\
    dkg_parameters_new (lenN (Storage.sorted current)) = Ok parameters /\
    read_dkg_state_from_storage (fun key =>
      map_err DkgProvider (provider_storage state KEY_MANAGEMENT_PROXY_ADDRESS key)) parameters = Ok dkg.

#[local] Set Implicit Arguments.
(** What the producer leaves to the pool and to the chain: the transactions pass the scratch
    pool a backup puts them through, the block is within the size limit, the DKG key of the
    parent state can be read, and the next committee has a size the key generation supports. *)
Record admissible_block (p : PrimaryProposal) (parent : Header) (state : StateProvider) : Prop := {
  ab_pool : forall senders, mapM AntiMev.recover_signer (pp_transactions p) = Some senders ->
    validate_proposal_pool_admission (zip (pp_transactions p) senders)
      (mkStaticPoolHead _ (gas_limit parent) (cfg_spec (evm_env parent))) state = Ok tt;
  ab_size : is_osaka_active_at_timestamp (inner spec) (timestamp (sealing_proposal (pp_request p))) = true ->
    block_rlp_length (sealing_proposal (pp_request p)) (pp_transactions p) <= MAX_RLP_BLOCK_SIZE;
  ab_dkg : anti_mev_active_at_block spec (number (sealing_proposal (pp_request p))) = true -> dkg_readable state;
  ab_committee : forall senders bundle output nv,
    mapM AntiMev.recover_signer (pp_transactions p) = Some senders ->
    execute_block spec state (sealing_proposal (pp_request p))
      (is_shanghai_active_at_timestamp (inner spec) (timestamp (sealing_proposal (pp_request p))))
      (zip (pp_transactions p) senders) = Ok (bundle, output) ->
    post_governance bundle state = Ok nv -> is_ok (dkg_parameters_new (lenN (Storage.sorted nv))) = true;
}.
#[local] Unset Implicit Arguments.

(** The parent under another witness: a block sealed by another quorum of the same committee,
    which differs in its extra data alone and passes the checks of header validation. *)
Record other_witness (backup : ChainProvider) (now eth_now : option N) (canonical parent : Header) : Prop := {
  ow_block : parent = with_extra_data canonical (extra_data parent);
  ow_number : 0 < number parent;
  ow_hash : hash_slow parent <> hash_slow canonical;
  ow_canonical : exists extra, DbftExtra.decode (extra_data canonical) (standby_count spec) = Ok extra /\
    DbftExtra.signature_scheme extra = Ecdsa;
  ow_parent : exists prefix, DbftExtraPrefix.decode (extra_data parent) = Ok prefix /\ DbftExtraPrefix.signature_scheme prefix = Ecdsa;
  ow_seal : ecdsa_seal_hash canonical = ecdsa_seal_hash parent;
  ow_valid : exists grandparent, sealed_header_by_hash backup (parent_hash canonical) = Ok (Some grandparent) /\
    engine_validate_header spec now eth_now parent = Ok tt /\ engine_validate_header_against_parent spec parent grandparent = Ok tt;
}.

(** A backup's own version of the parent of a proposal for [height]. *)
Definition holds_parent (backup : ChainProvider) (now eth_now : option N) (height : N) (canonical parent : Header) : Prop :=
  sealed_header_at backup (height - 1) = Ok (Some canonical) /\
  (canonical = parent \/ other_witness backup now eth_now canonical parent).

Section header.
Context (provider : ChainProvider) (s : DbftRoundState) (a : PrimaryProposalAttributes) (p : PrimaryProposal).
Context (parent : Header) (state : StateProvider) (base_fee : N) (x0 : NeoXBlockExecutor) (selected : Selection).
Context (e : evm) (output : BlockExecutionResult) (root : B256) (nv : GovernanceValidatorSet) (nd : option DkgState) (h1 : Header).
Hypothesis (Hb : built spec provider s a p parent state base_fee x0 selected e output root nv nd h1).
Hypothesis (Hp : producible s a parent).

Let primary : N := primary_index s (pa_view a).
Let in_turn : N := primary_difficulty (rs_height s) primary (lenN (rs_validators s)).
Let time : N := block_time a parent.
Let h : Header := sealing_proposal (pp_request p).
Let txs : list eth_tx := (sel_transactions selected).*1.

(** The excess blob gas the header carries. *)
Let excess : option N :=
  if is_cancun_active_at_timestamp (inner spec) time
  then maybe_next_block_excess_blob_gas parent (blob_params_at_timestamp (inner spec) time) else None.

Lemma built_accounts :
  executor_ok x0 /\ accounted state e (sel_transactions selected) /\
  evm_block e = block_env (primary_evm_env spec parent (primary_block_attributes spec a parent) base_fee in_turn) /\
  result_gas_used output <= env_gas_limit (evm_block e) /\ result_blob_gas_used output = evm_blob_gas_used e /\
  result_requests output = no_requests /\
  forall addr key, addr ∈ [GOVERNANCE_PROXY_ADDRESS; KEY_MANAGEMENT_PROXY_ADDRESS] ->
    evm_storage e addr key = evm_storage (inner_evm (sel_executor selected)) addr key.
Proof.
  destruct (pre_execution_accounted _ _ _ _ _ _ _ (bu_started Hb)) as [Ha0 Hb0].
  assert (Hx0 : executor_ok x0).
  { destruct (pre_execution_inv _ _ _ _ (bu_started Hb)) as (_ & _ & _ & Hc & _). by intros _. }
  destruct (runs_accounted _ _ _ _ [] (se_runs _ _ _ (bu_selected Hb)) Hx0 Ha0) as [Ha Hb1].
  destruct (finish_accounted _ _ _ _ _ _ (bu_finished Hb) Ha) as (Ha2 & Hb2 & Hg & Hbg & Hr & Hst).
  split_and!; try done. by rewrite Hb2, Hb1, Hb0.
Qed.

Lemma built_block :
  env_number (evm_block e) = rs_height s /\ env_beneficiary (evm_block e) = coinbase (dbft (neox spec)) /\
  env_timestamp (evm_block e) = time /\
  env_gas_limit (evm_block e) = calculate_block_gas_limit (gas_limit parent) (desired_gas_limit a) /\
  env_basefee (evm_block e) = base_fee /\ env_difficulty (evm_block e) = in_turn /\
  env_prevrandao (evm_block e) = Some ZERO_B256 /\ env_excess_blob_gas (evm_block e) = excess.
Proof.
  destruct built_accounts as (_ & _ & -> & _).
  unfold primary_evm_env, next_evm_env. cbn [block_env env_number env_beneficiary env_timestamp env_gas_limit env_basefee
    env_difficulty env_prevrandao env_excess_blob_gas].
  set (attributes := mkNextEvmEnvAttributes _ _ _ _ _).
  destruct (next_block_env parent attributes (default 0 (base_fee_per_gas parent))
    (blob_params_at_timestamp (inner spec) (na_timestamp (primary_block_attributes spec a parent)))) as (-> & -> & ->).
  split_and!; try done; [apply Hp|]. unfold excess.
  change (na_timestamp (primary_block_attributes spec a parent)) with time. pose proof (pr_cancun Hp) as Hc. fold time in Hc.
  destruct (is_cancun_active_at_timestamp (inner spec) time) eqn:Ec.
  - destruct Hc as (_ & [params Hpar] & [ex Hex] & [used Hus] & [fee Hfee]). rewrite Hpar, (next_excess_law _ params ex used fee) by done.
    apply next_block_excess. by apply next_excess_law.
  - rewrite Hc. by apply next_block_no_excess.
Qed.

Record produced_fields : Prop := {
  pf_parent : parent_hash h = hash_slow parent;
  pf_ommers : ommers_hash h = EMPTY_OMMER_ROOT_HASH;
  pf_beneficiary : beneficiary h = coinbase (dbft (neox spec));
  pf_root : state_root h = root;
  pf_transactions : transactions_root h = calculate_tx_root txs;
  pf_receipts : receipts_root h = calculate_receipt_root (result_receipts output);
  pf_bloom : logs_bloom h = logs_bloom_of (result_receipts output);
  pf_difficulty : difficulty h = in_turn;
  pf_number : number h = rs_height s;
  pf_gas_limit : gas_limit h = calculate_block_gas_limit (gas_limit parent) (desired_gas_limit a);
  pf_gas_used : gas_used h = result_gas_used output;
  pf_time : timestamp h = time;
  pf_nonce : nonce h = be_bytes 8 primary;
  pf_base_fee : base_fee_per_gas h = Some base_fee;
  pf_withdrawals : withdrawals_root h = if is_shanghai_active_at_timestamp (inner spec) time then Some EMPTY_ROOT_HASH else None;
  pf_blob_gas : blob_gas_used h = if is_cancun_active_at_timestamp (inner spec) time then Some (result_blob_gas_used output) else None;
  pf_excess : excess_blob_gas h = excess;
  pf_beacon : parent_beacon_block_root h = if is_cancun_active_at_timestamp (inner spec) time then Some EMPTY_ROOT_HASH else None;
  pf_requests : requests_hash h = if is_prague_active_at_timestamp (inner spec) time then Some EMPTY_REQUESTS_HASH else None;
  pf_access : block_access_list_hash h = None;
  pf_slot : slot_number h = None;
}.

Lemma built_fields : produced_fields.
Proof.
  destruct built_block as (En & Ec & Et & Eg & Ef & Ed & _ & Ex). destruct built_accounts as (_ & _ & _ & _ & _ & Er & _).
  destruct (commitments_applied _ _ _ _ _ _ (bu_commitments Hb)) as (prefix & E1 & _).
  assert (Eh : h = with_primary h1 primary in_turn) by exact (bu_header Hb).
  rewrite E1 in Eh. pose proof (pr_cancun Hp) as Hc. fold time in Hc.
  split; rewrite Eh; cbn [with_primary with_commitments assemble_block fst parent_hash ommers_hash beneficiary state_root transactions_root
    receipts_root logs_bloom difficulty number gas_limit gas_used timestamp nonce base_fee_per_gas withdrawals_root
    blob_gas_used excess_blob_gas parent_beacon_block_root requests_hash block_access_list_hash slot_number
    context_for_next_block ctx_parent_hash ctx_parent_beacon_block_root ctx_slot_number primary_block_attributes
    na_parent_beacon_block_root na_slot_number]; try done.
  - rewrite En, (proj2 (pr_london Hp)). by rewrite Ef.
  - by rewrite Et, empty_withdrawals.
  - by rewrite Et.
  - rewrite Et. unfold excess. destruct (is_cancun_active_at_timestamp (inner spec) time); [|done]. by destruct Hc as [-> _].
  - by rewrite Et, Er, empty_requests.
Qed.

Lemma built_commitments params :
  dkg_parameters_new (lenN (Storage.sorted nv)) = Ok params ->
  exists prefix, DbftExtraPrefix.decode (extra_data h) = Ok prefix /\
    DbftExtraPrefix.version prefix = extra_version_at_block spec (rs_height s) /\
    DbftExtraPrefix.signature_scheme prefix = pa_signature_scheme a /\ DbftExtraPrefix.encode prefix = Ok (extra_data h) /\
    verify_commitments spec h prefix (take_bundle e) state = Ok (nv, nd).
Proof.
  intros Hpar. destruct built_accounts as (_ & Ha & _ & _ & _ & _ & Hst). destruct built_block as (En & _).
  destruct (read_next_consensus_agrees _ _ _ _ _ _ _ _ Ha Hst (bu_consensus Hb)) as (Hlt & Hg & _ & Hnd).
  pose proof (bu_commitments Hb) as Hc. rewrite (Hnd params Hpar) in Hc. rewrite <- En in Hlt, Hc.
  set (h0 := (assemble_block _ _ _ _ _ _ _).1) in Hc.
  destruct (commitments_verify spec h0 _ nv params (take_bundle e) state h1 Hlt Hg Hpar Hc) as (prefix & Hd & Hv & Hs & Hen & Hver).
  assert (Eh : h = with_primary h1 primary in_turn) by exact (bu_header Hb).
  assert (En1 : number h1 = rs_height s) by (rewrite <- (pf_number built_fields); by rewrite Eh).
  exists prefix. rewrite Eh. split_and!; try done; [by rewrite Hv, En1|].
  unfold verify_commitments in *. cbn [with_primary number mix_hash]. change (number h0) with (env_number (evm_block e)) in Hver. rewrite En in Hver.
  by rewrite (Hnd params Hpar).
Qed.

Lemma blob_gas_counts l : blob_gas_in l = blobs_in l * DATA_GAS_PER_BLOB.
Proof.
  induction l as [|q l IH]; [done|]. cbn [blob_gas_in blobs_in foldr]. fold (blob_gas_in l) (blobs_in l).
  rewrite blob_gas_of_count, IH. destruct (blob_count q.1); cbn; lia.
Qed.

(** The blob gas of a produced block: that of its transactions, within the schedule. *)
Lemma built_blob_gas :
  result_blob_gas_used output = blob_gas_in (sel_transactions selected) /\
  result_blob_gas_used output = blobs_in (sel_transactions selected) * DATA_GAS_PER_BLOB /\
  blob_gas_in (sel_transactions selected) <= U64_MAX /\
  forall params, blob_params_at_timestamp (inner spec) time = Some params ->
    result_blob_gas_used output <= max_blob_gas_per_block params.
Proof.
  destruct built_accounts as (_ & Ha & _ & _ & -> & _).
  destruct (se_blobs _ _ _ (bu_selected Hb)) as [Hn Hmax].
  change (N.max (pa_timestamp a) (timestamp parent)) with time in Hmax. rewrite Hn in Hmax.
  assert (Hle : blob_gas_in (sel_transactions selected) <= U64_MAX /\
    forall params, blob_params_at_timestamp (inner spec) time = Some params ->
      blob_gas_in (sel_transactions selected) <= max_blob_gas_per_block params).
  { rewrite blob_gas_counts. destruct (blob_params_at_timestamp (inner spec) time) as [params|]; cbn [from_option] in Hmax.
    - destruct (max_blob_gas_law params) as [-> Hu]. split; [nia|]. intros ? [= <-]. destruct (max_blob_gas_law params). nia.
    - split; [|done]. assert (E0 : blobs_in (sel_transactions selected) = 0) by lia. rewrite E0. unfold U64_MAX. lia. }
  destruct Hle as [Hu Hle]. rewrite (ac_blobs _ _ _ Ha Hu). split_and!; try done. apply blob_gas_counts.
Qed.

Lemma built_gas_limit :
  let limit := calculate_block_gas_limit (gas_limit parent) (desired_gas_limit a) in
  MINIMUM_GAS_LIMIT <= limit <= MAXIMUM_GAS_LIMIT_BLOCK /\
  limit < gas_limit parent + gas_limit parent / GAS_LIMIT_BOUND_DIVISOR /\
  gas_limit parent < limit + gas_limit parent / GAS_LIMIT_BOUND_DIVISOR.
Proof.
  intros limit. pose proof (pr_gas Hp). pose proof gas_divisor_small.
  destruct (block_gas_limit_law (gas_limit parent) (desired_gas_limit a)) as (H1 & H2 & H3); [lia|]. fold limit in H1, H2, H3. lia.
Qed.


Lemma bind_unit {F} (r k : result F unit) : r = Ok tt -> k = Ok tt -> (let? _ := r in k) = Ok tt.
Proof. by intros -> ->. Qed.

Ltac bind_units := repeat match goal with |- result_bind _ _ = Ok tt => apply bind_unit end.

Lemma built_blob_fields :
  is_cancun_active_at_timestamp (inner spec) time = true ->
  exists params, blob_params_at_timestamp (inner spec) time = Some params /\
    validate_4844_header_standalone h params = Ok tt /\ validate_against_parent_4844 h parent params = Ok tt.
Proof.
  intros Ec. pose proof (pr_cancun Hp) as Hc. fold time in Hc. rewrite Ec in Hc.
  destruct Hc as (_ & [params Hpar] & [ex Hex] & [used Hus] & [fee Hfee]). exists params. split; [done|].
  destruct built_blob_gas as (_ & Eg & _ & Hmax). specialize (Hmax params Hpar).
  unfold validate_4844_header_standalone, validate_against_parent_4844.
  rewrite (pf_blob_gas built_fields), (pf_beacon built_fields), (pf_excess built_fields), Ec. unfold excess. rewrite Ec, Hpar.
  rewrite (next_excess_law parent params ex used fee) by done. rewrite Hex, Hus, Hfee. cbn [ok_or result_bind default].
  rewrite bool_decide_eq_false_2 by done. rewrite N.eqb_refl. split; [|done].
  rewrite Eg at 1. rewrite N.Div0.mod_mul, N.eqb_refl. cbn [negb]. by rewrite (proj2 (N.ltb_ge _ _)).
Qed.

Lemma built_fork_fields : validate_fork_fields h (inner spec) = Ok tt.
Proof.
  unfold validate_fork_fields. rewrite (pf_time built_fields).
  pose proof (pr_amsterdam Hp) as Ham. fold time in Ham. rewrite Ham. bind_units.
  - rewrite (pf_withdrawals built_fields). by destruct (is_shanghai_active_at_timestamp _ _).
  - pose proof built_blob_fields as Hblob.
    rewrite (pf_blob_gas built_fields), (pf_excess built_fields), (pf_beacon built_fields). unfold excess.
    destruct (is_cancun_active_at_timestamp (inner spec) time); [|done]. by destruct (Hblob eq_refl) as (params & -> & H4 & _).
  - rewrite (pf_requests built_fields). by destruct (is_prague_active_at_timestamp _ _).
  - by rewrite (pf_access built_fields).
  - by rewrite (pf_slot built_fields).
Qed.

Lemma built_neox_fields : validate_neox_header_fields spec h false = Ok tt.
Proof.
  unfold validate_neox_header_fields, check. rewrite (pf_time built_fields), (pf_ommers built_fields), (pf_difficulty built_fields),
    (pf_withdrawals built_fields), (pf_beacon built_fields), (pf_requests built_fields). cbn [andb].
  rewrite bool_decide_eq_true_2 by done. cbn [negb].
  assert (Ed : in_turn = DIFFICULTY_OUT_OF_TURN \/ in_turn = DIFFICULTY_IN_TURN).
  { unfold in_turn, primary_difficulty. destruct (_ && _); auto. }
  replace ((0 <? number h) && negb (in_turn =? DIFFICULTY_OUT_OF_TURN) && negb (in_turn =? DIFFICULTY_IN_TURN)) with false
    by (destruct Ed as [-> | ->]; destruct (0 <? number h); done).
  apply bind_unit; [by destruct (is_shanghai_active_at_timestamp _ _); rewrite bool_decide_eq_true_2|].
  destruct (is_cancun_active_at_timestamp _ _); cbn [andb];
    [rewrite bool_decide_eq_true_2 by done; cbn [negb]|];
    (destruct (is_prague_active_at_timestamp _ _); cbn [andb]; [rewrite bool_decide_eq_true_2 by done|]; done).
Qed.

Lemma built_against_parent : validate_neox_header_against_parent_fields spec h parent = Ok tt.
Proof.
  destruct (read_next_consensus_agrees spec state (rs_height s) _ _ e nv nd (proj1 (proj2 built_accounts))
    (proj2 (proj2 (proj2 (proj2 (proj2 (proj2 built_accounts)))))) (bu_consensus Hb)) as (Hlt & _).
  pose proof (pr_number Hp) as Hn. unfold validate_neox_header_against_parent_fields. bind_units.
  - unfold validate_against_parent_hash_number, checked_add.
    rewrite (pf_parent built_fields), bool_decide_eq_true_2, (pf_number built_fields) by done. cbn [negb].
    rewrite (proj2 (N.leb_le _ _)) by lia. by rewrite Hn, N.eqb_refl.
  - unfold validate_neox_parent_timestamp. rewrite (pf_time built_fields). unfold time, block_time. by rewrite (proj2 (N.ltb_ge _ _)) by lia.
  - unfold validate_against_parent_gas_limit, check. rewrite (pf_gas_limit built_fields), (pf_number built_fields).
    destruct (pr_london Hp) as [-> ->]. cbn [negb andb]. destruct built_gas_limit as (H1 & H2 & H3). apply bind_unit.
    + destruct (N.ltb_spec (gas_limit parent) (calculate_block_gas_limit (gas_limit parent) (desired_gas_limit a)));
        rewrite (proj2 (N.ltb_lt _ _)) by lia; done.
    + by rewrite (proj2 (N.ltb_ge _ _)) by lia.
  - rewrite (pf_time built_fields). pose proof built_blob_fields as Hblob. pose proof (pr_cancun Hp) as Hc. fold time in Hc.
    destruct (is_cancun_active_at_timestamp (inner spec) time); [|by rewrite Hc]. by destruct (Hblob eq_refl) as (params & -> & _ & H4).
  - rewrite (pf_beneficiary built_fields). by rewrite bool_decide_eq_true_2.
Qed.

Lemma built_header_valid params :
  dkg_parameters_new (lenN (Storage.sorted nv)) = Ok params -> engine_validate_proposal_header spec h parent primary = Ok tt.
Proof.
  intros Hpar. destruct (built_commitments params Hpar) as (prefix & Hd & Hv & Hs & Hen & _).
  assert (Hl : lenN (extra_data h) = prefix_len (DbftExtraPrefix.version prefix)).
  { destruct (prefix_decode_inv _ _ Hd) as (pre & rest & _ & He & Hpl & _). rewrite Hen in He. by injection He as <-. }
  destruct built_accounts as (_ & _ & _ & Hg & _). destruct built_block as (_ & _ & _ & Eg & _). rewrite Eg in Hg.
  unfold engine_validate_proposal_header. bind_units.
  - unfold validate_ethereum_proposal_header. bind_units.
    + unfold validate_header_extra_data, max_dbft_extra_data_size. rewrite Hl, (proj2 (N.ltb_ge _ _)); [done|].
      unfold prefix_len, HASHABLE_EXTRA_V0_LEN, HASHABLE_EXTRA_V1_LEN. destruct (DbftExtraPrefix.version prefix); lia.
    + unfold validate_header_gas. rewrite (pf_gas_used built_fields), (pf_gas_limit built_fields).
      destruct built_gas_limit as (H1 & _). by rewrite !(proj2 (N.ltb_ge _ _)) by lia.
    + unfold validate_header_base_fee. rewrite (pf_base_fee built_fields). by rewrite andb_false_r.
    + apply built_fork_fields.
  - unfold validate_neox_proposal_header. rewrite Hd. cbn [map_err result_bind]. fold (prefix_len (DbftExtraPrefix.version prefix)).
    rewrite Hl, N.eqb_refl. cbn [negb]. apply bind_unit; [|apply built_neox_fields].
    unfold validate_extra_activation. rewrite Hv, (pf_number built_fields), bool_decide_eq_true_2, Hs by done. cbn [negb].
    destruct (anti_mev_active_at_block spec (rs_height s)) eqn:Ea; [done|]. rewrite bool_decide_eq_false_2; [done|].
    intros Ht%(bu_scheme Hb)%(pr_anti_mev Hp). by rewrite Ea in Ht.
  - apply built_against_parent.
  - unfold validate_proposal_primary. pose proof (bu_primary Hb) as Hu. fold primary in Hu.
    rewrite (pf_nonce built_fields), N_of_be_bytes, N.eqb_refl by (unfold U8_MAX in Hu; change (256 ^ N.of_nat 8) with (2 ^ 64); lia).
    cbn [negb]. unfold validate_expected_difficulty. destruct (pr_validators Hp) as [Ev Hpos].
    destruct (N.eqb_spec (standby_count spec) 0); [lia|]. rewrite (pf_difficulty built_fields), (pf_number built_fields).
    unfold in_turn, primary_difficulty. rewrite Ev, (proj2 (N.ltb_lt _ _)) by lia. cbn [andb]. by rewrite N.eqb_refl.
Qed.

(** A backup executes the proposal in the environment the primary built it in. *)
Lemma built_environment :
  evm_env h = primary_evm_env spec parent (primary_block_attributes spec a parent) base_fee in_turn.
Proof.
  destruct built_accounts as (_ & _ & Ee & _). destruct built_block as (B1 & B2 & B3 & B4 & B5 & B6 & B7 & B8).
  assert (Espec : cfg_spec (evm_env h) = cfg_spec (primary_evm_env spec parent (primary_block_attributes spec a parent) base_fee in_turn)).
  { symmetry. apply next_block_spec; [by rewrite (pf_number built_fields), (pr_number Hp)|by rewrite (pf_time built_fields)]. }
  assert (Eblock : block_env (evm_env h) = evm_block e).
  { unfold evm_env. destruct (for_eth_block_env h) as (-> & -> & -> & -> & -> & ->).
    rewrite (pf_number built_fields), (pf_beneficiary built_fields), (pf_time built_fields), (pf_gas_limit built_fields),
      (pf_base_fee built_fields), (pf_difficulty built_fields), (pf_excess built_fields).
    destruct (evm_block e). cbn in *. congruence. }
  rewrite Ee in Eblock. destruct (evm_env h), (primary_evm_env _ _ _ _ _). cbn in *. congruence.
Qed.

Lemma built_executes :
  execute_block spec state h (is_shanghai_active_at_timestamp (inner spec) time) (sel_transactions selected) =
    Ok (take_bundle e, output).
Proof.
  destruct built_accounts as (Hx0 & Ha & Ee & _). destruct built_block as (_ & _ & B3 & _).
  assert (Est : apply_pre_execution_changes (executor_for_block spec state h (is_shanghai_active_at_timestamp (inner spec) time)) = Ok x0).
  { rewrite <- (bu_started Hb). unfold executor_for_block. rewrite built_environment. f_equal. f_equal.
    rewrite <- (new_evm_extra state _ _ (context_for_block h _) []). unfold context_for_block, context_for_next_block.
    cbn [ctx_parent_hash ctx_parent_beacon_block_root ctx_withdrawals ctx_slot_number].
    by rewrite (pf_parent built_fields), (pf_beacon built_fields), (pf_slot built_fields). }
  unfold execute_block. rewrite Est. cbn [result_bind].
  rewrite (executes_transactions _ _ _ (se_runs _ _ _ (bu_selected Hb)) Hx0). cbn [result_bind].
  pose proof (bu_finished Hb) as Hf.
  assert (Et : env_timestamp (evm_block (inner_evm (sel_executor selected))) = timestamp h).
  { rewrite (pf_time built_fields), <- B3. f_equal. rewrite Ee.
    destruct (executes_spec _ _ _ (se_runs _ _ _ (bu_selected Hb)) Hx0) as (_ & -> & _).
    by destruct (pre_execution_accounted _ _ _ _ _ _ _ (bu_started Hb)) as [_ ->]. }
  rewrite Et in Hf. rewrite Hf. done.
Qed.

Lemma block_blob_gas_sum l :
  blob_gas_in l <= U64_MAX -> block_blob_gas_used l.*1 = blob_gas_in l.
Proof.
  induction l as [|q l IH]; [done|]. cbn [blob_gas_in foldr]. fold (blob_gas_in l). intros Hle. cbn [fmap list_fmap block_blob_gas_used foldr].
  fold (block_blob_gas_used l.*1). rewrite IH by lia. unfold wrapping_add. apply N.mod_small. lia.
Qed.

Lemma built_pre_execution :
  (is_osaka_active_at_timestamp (inner spec) time = true -> block_rlp_length h txs <= MAX_RLP_BLOCK_SIZE) ->
  validate_block_pre_execution (inner spec) h txs (is_shanghai_active_at_timestamp (inner spec) time) = Ok tt.
Proof.
  intros Hsize. unfold validate_block_pre_execution, post_merge_hardfork_fields, validate_shanghai_withdrawals, validate_cancun_gas.
  rewrite (pf_time built_fields), (pf_ommers built_fields), (pf_transactions built_fields), (pf_withdrawals built_fields),
    (pf_blob_gas built_fields), empty_ommers, empty_withdrawals.
  rewrite (bool_decide_eq_true_2 (EMPTY_OMMER_ROOT_HASH = _)), (bool_decide_eq_true_2 (calculate_tx_root txs = _)) by done. cbn [negb].
  destruct built_blob_gas as (Eg & _ & Hu & _). bind_units; [| | |done].
  - destruct (is_shanghai_active_at_timestamp _ _); [|done]. cbn [negb ok_or result_bind]. by rewrite bool_decide_eq_true_2.
  - destruct (is_cancun_active_at_timestamp _ _); [|done]. cbn [ok_or result_bind].
    rewrite Eg. unfold txs. by rewrite (block_blob_gas_sum _ Hu), N.eqb_refl.
  - destruct (is_osaka_active_at_timestamp _ _); [|done]. cbn [andb]. by rewrite (proj2 (N.ltb_ge _ _)) by auto.
Qed.

Lemma built_post_execution : validate_block_post_execution (inner spec) h output = Ok tt.
Proof.
  unfold validate_block_post_execution, compare_receipts_root_and_logs_bloom.
  rewrite (pf_gas_used built_fields), N.eqb_refl, (pf_receipts built_fields), (pf_bloom built_fields), (pf_time built_fields),
    (pf_requests built_fields). pose proof (pr_amsterdam Hp) as Ham. fold time in Ham. rewrite Ham. cbn [negb].
  destruct built_accounts as (_ & _ & _ & _ & _ & Er & _). bind_units; [| |done].
  - rewrite !bool_decide_eq_true_2 by done. by destruct (is_byzantium_active_at_block _ _).
  - destruct (is_prague_active_at_timestamp _ _); [|done]. cbn [ok_or result_bind]. by rewrite Er, empty_requests, bool_decide_eq_true_2.
Qed.

Lemma built_senders : mapM AntiMev.recover_signer txs = Some (sel_transactions selected).*2.
Proof.
  apply mapM_Some. unfold txs. pose proof (se_senders _ _ _ (bu_selected Hb)) as Hs.
  induction Hs as [|q l Hq _ IH]; cbn; by constructor.
Qed.

Lemma built_sidecars : validate_proposal_sidecars txs (sel_sidecars selected) = Ok tt.
Proof.
  pose proof (se_sidecars _ _ _ (bu_selected Hb)) as Hs. fold txs in Hs.
  unfold validate_proposal_sidecars, lenN. rewrite (Forall2_length _ _ _ Hs), N.eqb_refl. cbn [negb].
  assert (Hall : forallb (fun '(hashes, sidecar) => validate_sidecar sidecar hashes) (zip (blob_hash_lists txs) (sel_sidecars selected)) = true);
    [|by rewrite Hall].
  induction Hs as [|hashes sidecar l k Hv _ IH]; [done|]. cbn. unfold sidecar_valid in Hv. by rewrite Hv.
Qed.

Lemma built_discover (r : N) : exists am, from_transactions txs r = Ok am.
Proof.
  unfold from_transactions. destruct (checked_discover txs 0 r) as [es ->]; [|by eexists].
  pose proof (se_envelopes _ _ _ (bu_selected Hb)) as He.
  unfold txs. induction He as [|q l Hq _ IH]; cbn; by constructor.
Qed.

(** What the post-state of the primary's execution commits to. *)
Lemma built_next_consensus :
  post_governance (take_bundle e) state = Ok nv /\ rs_height s < U64_MAX.
Proof.
  destruct built_accounts as (_ & Ha & _ & _ & _ & _ & Hst).
  destruct (read_next_consensus_agrees _ _ _ _ _ _ _ _ Ha Hst (bu_consensus Hb)) as (Hlt & Hg & _). done.
Qed.

Lemma built_parameters : admissible_block p parent state -> exists params, dkg_parameters_new (lenN (Storage.sorted nv)) = Ok params.
Proof.
  intros Hadm. pose proof (ab_committee Hadm) as Hcom. rewrite (bu_transactions Hb) in Hcom.
  specialize (Hcom _ (take_bundle e) output nv built_senders). fold h in Hcom. rewrite (pf_time built_fields), zip_fst_snd in Hcom.
  specialize (Hcom built_executes (proj1 built_next_consensus)). destruct (dkg_parameters_new _) as [params|]; [by exists params|done].
Qed.

Lemma built_envelopes : admissible_block p parent state -> exists am, discover_envelopes spec h txs state = Ok am.
Proof.
  intros Hadm. pose proof (ab_dkg Hadm) as Hdkg. fold h in Hdkg. unfold discover_envelopes.
  destruct (anti_mev_active_at_block spec (number h)); [|by eexists].
  destruct (Hdkg eq_refl) as (current & parameters & dkg & -> & Hpar & Hd). cbn [map_err result_bind]. rewrite Hpar. cbn [map_err result_bind].
  rewrite Hd. cbn [map_err result_bind]. destruct (built_discover (round (Storage.current dkg))) as [am ->]. by eexists.
Qed.

(** The proposal carries what a backup needs to find its parent. *)
Lemma built_resolves backup now eth_now canonical :
  holds_parent backup now eth_now (rs_height s) canonical parent ->
  exists reseal, resolve_proposal_parent spec now eth_now (pp_request p) backup =
    Ok (mkResolvedProposalParent parent (hash_slow canonical) reseal).
Proof.
  intros [Hc Hw]. unfold resolve_proposal_parent, checked_sub. fold h. rewrite (pf_number built_fields).
  pose proof (bu_height Hb) as Hpos. rewrite (proj2 (N.leb_le _ _)) by lia. cbn [ok_or result_bind].
  rewrite Hc. cbn [map_err ok_or result_bind]. rewrite (pf_parent built_fields). destruct Hw as [->|[W1 W2 W3 W4 W5 W6 W7]].
  { rewrite bool_decide_eq_true_2 by done. by eexists. }
  rewrite bool_decide_eq_false_2 by done. pose proof (pr_number Hp). destruct (N.eqb_spec (rs_height s - 1) 0); [lia|].
  destruct W5 as (prefix & Hd & Hs). destruct W4 as (extra & Hde & Hse). destruct W7 as (grandparent & Hg & V1 & V2).
  pose proof (bu_witness Hb) as Hwit. unfold parent_reseal_witness in Hwit. rewrite Hd, Hs in Hwit.
  apply result_bind_Ok in Hwit as (seal & Hseal & [= <- <-]). cbn [ok_or result_bind].
  rewrite Hg. cbn [map_err ok_or result_bind]. unfold validate_parent_reseal. rewrite Hde. cbn [map_err result_bind].
  rewrite Hse, bool_decide_eq_true_2 by done. cbn [negb]. rewrite W6, Hseal. cbn [map_err result_bind].
  rewrite bool_decide_eq_true_2 by done. cbn [negb]. rewrite <- W1, bool_decide_eq_true_2 by done. cbn [negb].
  rewrite V1. cbn [result_bind]. rewrite V2. cbn [map_err result_bind]. by eexists.
Qed.

Lemma built_verifies backup now eth_now canonical :
  holds_parent backup now eth_now (rs_height s) canonical parent -> state_by_block_hash backup (hash_slow canonical) = Ok state ->
  admissible_block p parent state ->
  exists v, verify_proposal spec now eth_now backup (pp_request p) (pp_transactions p) (pp_sidecars p) primary = Ok v /\
    vp_header v = h /\ vb_transactions (vp_contents v) = pp_transactions p /\ vb_sidecars (vp_contents v) = pp_sidecars p.
Proof.
  intros Hpar Hst Hadm. destruct (built_parameters Hadm) as [params Hparams]. destruct (built_envelopes Hadm) as [am Ham].
  destruct (built_commitments params Hparams) as (prefix & Hd & Hv & Hs & Hen & Hver). destruct (built_resolves _ _ _ _ Hpar) as [reseal Hr].
  pose proof (ab_pool Hadm) as Hpool. pose proof (ab_size Hadm) as Hsize. fold h in Hsize.
  rewrite (bu_transactions Hb) in Hpool, Hsize |- *. fold txs in Hpool, Hsize |- *.
  rewrite (pf_time built_fields) in Hsize. specialize (Hpool _ built_senders). unfold verify_proposal. fold h.
  assert (Hh : validate_transaction_hashes (pp_request p) txs = Ok tt).
  { unfold validate_transaction_hashes. rewrite (bu_hashes Hb), (bu_transactions Hb).
    fold txs. unfold lenN. rewrite length_map, N.eqb_refl. cbn [negb]. by rewrite bool_decide_eq_true_2. }
  rewrite Hh. cbn [result_bind]. rewrite (bu_sidecars Hb), built_sidecars. cbn [result_bind].
  rewrite Hd. cbn [map_err result_bind]. rewrite Hv, (pf_number built_fields), bool_decide_eq_true_2 by done. cbn [negb].
  assert (Hthr : negb (anti_mev_active_at_block spec (rs_height s)) && bool_decide (DbftExtraPrefix.signature_scheme prefix = Threshold) = false).
  { rewrite Hs. destruct (anti_mev_active_at_block spec (rs_height s)) eqn:Ea; [done|]. cbn [negb andb]. apply bool_decide_eq_false_2.
    intros Ht%(bu_scheme Hb)%(pr_anti_mev Hp). by rewrite Ea in Ht. }
  rewrite Hthr, Hr. cbn [result_bind rp_header rp_state_hash rp_reseal].
  rewrite (built_header_valid params Hparams). cbn [map_err result_bind].
  rewrite (pf_time built_fields), (built_pre_execution Hsize). cbn [map_err result_bind]. rewrite built_senders. cbn [ok_or result_bind].
  rewrite Hst. cbn [map_err result_bind]. rewrite Hpool. cbn [result_bind]. rewrite Ham. cbn [result_bind]. unfold txs at 1. rewrite zip_fst_snd.
  rewrite built_executes. cbn [map_err result_bind]. rewrite built_post_execution. cbn [map_err result_bind].
  rewrite (bu_root Hb). cbn [map_err result_bind].
  rewrite (pf_root built_fields), bool_decide_eq_true_2 by done. cbn [negb]. rewrite Hver. cbn [result_bind]. eexists. split; [done|]. done.
Qed.
End header.


(** C18. What a primary puts in a proposal: transactions whose senders are recovered from their
    signatures, with consecutive nonces for each sender; no Envelope with an invalid
    ciphertext; and blobs within the schedule, each with a sidecar that matches. *)
Theorem proposal_contents provider s a pool pool' p parent :
  build_primary_proposal spec provider s a pool = (pool', Ok p) ->
  sealed_header_at provider (rs_height s - 1) = Ok (Some parent) ->
  exists senders, mapM AntiMev.recover_signer (pp_transactions p) = Some senders /\
    in_order (zip (pp_transactions p) senders) /\ Forall ciphertext_checked (pp_transactions p) /\
    blobs_in (zip (pp_transactions p) senders) <=
      from_option max_blob_count 0 (blob_params_at_timestamp (inner spec) (block_time a parent)) /\
    Forall2 sidecar_valid (blob_hash_lists (pp_transactions p)) (pp_sidecars p).
Proof.
  intros Hbuild Hpar.
  destruct (build_Ok _ _ _ _ _ _ _ Hbuild) as (parent' & state & base_fee & x0 & selected & e & output & root & nv & nd & h1 & Hb).
  assert (parent' = parent) as -> by (pose proof (bu_parent Hb); congruence).
  exists (sel_transactions selected).*2. rewrite (bu_transactions Hb), (bu_sidecars Hb), zip_fst_snd.
  destruct (bu_selected Hb) as [_ _ Henv [Hn Hmax] Hsc _ _]. split_and!; [by eapply built_senders|apply Hb| |by rewrite Hn in Hmax|done].
  apply Forall_fmap. exact Henv.
Qed.

(** ** The scratch pool *)

Lemma admit_all_static pool l t sender :
  admit_all pool l = Ok tt -> (t, sender) ∈ l -> tx_ty t <> TX_TYPE_EIP4844 -> static_pool_admission t sender (pool_head pool) = Ok tt.
Proof.
  revert pool. induction l as [|[t' a'] l IH]; intros pool; [set_solver|]. cbn [admit_all]. intros Hl Hin Hty.
  apply elem_of_cons in Hin as [[= <- <-]|Hin].
  - rewrite (proj2 (N.eqb_neq _ _)) in Hl by done. unfold pool_add in Hl. destruct (pool_check pool sender t) as [[]|] eqn:Ec; [|done].
    apply pool_check_Ok in Ec as (_ & (account & _ & [Hs _] & _) & _). done.
  - destruct (tx_ty t' =? TX_TYPE_EIP4844); [by apply IH|]. pose proof (pool_frame pool a' t') as (_ & _ & Hh).
    destruct (pool_add pool a' t') as [pool' [[]|]]; [|done]. cbn [fst] in Hh. rewrite <- Hh. by apply IH.
Qed.

Lemma static_pool_tip t sender head : static_pool_admission t sender head = Ok tt -> STATIC_POOL_MIN_TIP <= tip_cap t.
Proof.
  unfold static_pool_admission. intros H. do 3 apply reject_bind in H as [_ H]. apply result_bind_Ok in H as ([] & _ & H).
  do 6 apply reject_bind in H as [_ H]. apply reject_bind in H as [Ht%N.ltb_ge _]. done.
Qed.

(** C36. The producer does not apply the scratch pool of a backup: a proposal with an ordinary
    transaction that offers no tip, which a Policy without a minimum tip lets the primary
    include, is refused by every backup. *)
Theorem untipped_proposal_refused provider s a pool pool' p t :
  build_primary_proposal spec provider s a pool = (pool', Ok p) ->
  t ∈ pp_transactions p -> tx_ty t <> TX_TYPE_EIP4844 -> tip_cap t = 0 ->
  forall backup now eth_now primary v,
    verify_proposal spec now eth_now backup (pp_request p) (pp_transactions p) (pp_sidecars p) primary <> Ok v.
Proof.
  intros _ Hin Hty Htip backup now eth_now primary v Hv. destruct (verify_proposal_Ok _ _ _ _ _ _ _ _ _ Hv) as (parent & state & prefix & Hf).
  pose proof (vf_senders _ _ _ _ _ _ _ _ _ Hf) as Hs. pose proof (vf_pool _ _ _ _ _ _ _ _ _ Hf) as Hp.
  apply list_elem_of_lookup in Hin as [n Hn]. apply mapM_Some in Hs.
  destruct (Forall2_lookup_l _ _ _ _ _ Hs Hn) as (sender & Hsn & _).
  assert (Hz : (t, sender) ∈ zip (pp_transactions p) (vb_senders (vp_contents v))).
  { apply list_elem_of_lookup. exists n. by apply lookup_zip_Some. }
  unfold validate_proposal_pool_admission in Hp. apply result_bind_Ok in Hp as (q & _ & Hq).
  pose proof (static_pool_tip _ _ _ (admit_all_static _ _ _ _ Hq Hz Hty)) as Hle. rewrite Htip in Hle. done.
Qed.

(** ** Termination *)

Lemma bind_not_err {F I O} (r : result F I) (k : I -> result F O) x :
  r <> Err x -> (forall a, k a <> Err x) -> result_bind r k <> Err x.
Proof. intros Hr Hk. destruct r; [apply Hk|]. intros [= ->]. done. Qed.

Lemma map_err_not {F F' O} (f : F -> F') (r : result F O) x : (forall e, f e <> x) -> map_err f r <> Err x.
Proof. intros Hf. destruct r; [done|]. intros [= Ef]. by eapply Hf. Qed.

Ltac not_err :=
  repeat match goal with
  | |- result_bind _ _ <> _ => apply bind_not_err; [|let x := fresh "x" in intros x; try destruct x]
  | |- map_err _ _ <> _ => apply map_err_not; intros ?; discriminate
  | |- ok_or ?o _ <> _ => destruct o; discriminate
  | |- Ok _ <> _ => discriminate
  | |- Err _ <> _ => discriminate
  | |- (if ?b then _ else _) <> _ => destruct b
  end.

Lemma start_no_fuel provider s a : start_primary spec provider s a <> Err ProducerFuel.
Proof. unfold start_primary, policy_base_fee_of. not_err. Qed.

Lemma finish_no_fuel s a start selected : finish_primary spec s a start selected <> Err ProducerFuel.
Proof. unfold finish_primary, read_next_consensus, builder_finish, finalize_primary_header. not_err. Qed.

(** C19. Building a proposal ends: the candidates are drained in at most as many rounds as there
    are, and the build returns a proposal or one of the errors of the source. *)
Theorem build_terminates provider s a pool : (build_primary_proposal spec provider s a pool).2 <> Err ProducerFuel.
Proof.
  unfold build_primary_proposal. pose proof (start_no_fuel provider s a) as Hstart.
  destruct (start_primary spec provider s a) as [start|error]; [|intros [= ->]; done].
  set (maximum := from_option max_blob_count 0 _). set (candidates := no_updates _). set (osaka := is_osaka_active_at_timestamp _ _).
  set (s0 := mkSelection _ _ _ _ _ _).
  assert (Hs0 : selecting maximum (st_executor start) s0) by apply selecting_start.
  destruct (select_spec (best_fuel (best candidates)) maximum osaka (st_executor start) s0 Hs0) as [_ Hne]; [unfold best_fuel; cbn; lia|].
  destruct (select_transactions _ _ _ _) as [selected drained]. cbn [snd] in *. apply bind_not_err; [exact Hne|]. intros _. apply finish_no_fuel.
Qed.
End built.
