(* ===== verification/Rebuild.v ===== *)
(** The reconstructed Anti-MEV proposal (crates/neox/node/src/reconstruction.rs,
    [reconstruct_antimev_proposal]): the final transactions executed over the parent
    state, the header completed from the result, and the commitments to the next
    consensus recomputed. *)

From S2P Require Import Prelude Extern Instances Extra Validation ChainSpec Consensus.
From S2P Require Import Tpke Wire Payload DkgParams Storage Round AntiMev StaticPool Execution Reconstruction.
From S2P Require Import ProposalRecovery Driver Proposal.

Section rebuild.
Context {R : AlloyRlp} {C : Crypto} {B : Blst} {Sy : Symmetric} {S : BlobSchedule}.
Context {X : SignedTransactions} {D : TransactionDetails X} {V : Revm} {E : EthExecutor X V} {Q : BlockRoots E} {Y : BlobSidecars X}.

(** ** Sidecars *)

Definition blob_hashes (l : list eth_tx) : list B256 :=
  map eth_tx_hash (filter (fun t => is_Some (blob_count t)) l).

(** Each retained blob transaction takes its sidecar out of the map. *)
Fixpoint take_sidecars (m : gmap B256 beacon_sidecar) (hashes : list B256)
    : result AntiMevReconstructionError (list beacon_sidecar) :=
  match hashes with
  | [] => Ok []
  | hash :: rest =>
      let? sidecar := ok_or (m !! hash) (MissingBlobSidecar hash) in
      let? more := take_sidecars (delete hash m) rest in
      Ok (sidecar :: more)
  end.

Definition retain_blob_sidecars (outer final : list eth_tx) (sidecars : list beacon_sidecar)
    : result AntiMevReconstructionError (list beacon_sidecar) :=
  let outer_blob_hashes := blob_hashes outer in
  if negb (lenN outer_blob_hashes =? lenN sidecars)
  then Err (BlobSidecarCount (lenN outer_blob_hashes) (lenN sidecars))
  else take_sidecars (foldl (fun m '(hash, sidecar) => <[hash := sidecar]> m) ∅ (zip outer_blob_hashes sidecars))
         (blob_hashes final).

(** ** The header *)

(** The fields execution determines; the blob gas only where the header has the field. *)
Definition with_results (header : Header) (root tx_root receipts_root : B256) (bloom : bytes) (gas : N) (blob_gas : N)
    : Header :=
  {| parent_hash := parent_hash header; ommers_hash := ommers_hash header; beneficiary := beneficiary header;
     state_root := root; transactions_root := tx_root; receipts_root := receipts_root; logs_bloom := bloom;
     difficulty := difficulty header; number := number header; gas_limit := gas_limit header; gas_used := gas;
     timestamp := timestamp header; extra_data := extra_data header; mix_hash := mix_hash header; nonce := nonce header;
     base_fee_per_gas := base_fee_per_gas header; withdrawals_root := withdrawals_root header;
     blob_gas_used := (match blob_gas_used header with Some _ => Some blob_gas | None => None end);
     excess_blob_gas := excess_blob_gas header; parent_beacon_block_root := parent_beacon_block_root header;
     requests_hash := requests_hash header; block_access_list_hash := block_access_list_hash header;
     slot_number := slot_number header |}.

Definition recompute_next_consensus (spec : NeoXChainSpec) (header : Header) (bundle : state_bundle) (state : StateProvider)
    : result AntiMevReconstructionError (Header * GovernanceValidatorSet * option DkgState) :=
  let? next_validators := map_err ReconstructionGovernance (post_governance bundle state) in
  let? next_height := ok_or (checked_add U64_MAX (number header) 1) ReconstructionHeightOverflow in
  let? parameters := map_err (fun _ => ReconstructionDkg (DkgProvider "committee size"))
    (dkg_parameters_new (lenN (Storage.sorted next_validators))) in
  let next_dkg := post_dkg spec next_height parameters bundle state in
  let? prefix := map_err ReconstructionExtra (DbftExtraPrefix.decode (extra_data header)) in
  let? header := map_err ReconstructionExtra
    (apply_next_consensus_commitments spec header (DbftExtraPrefix.signature_scheme prefix) next_validators (dkg_key next_dkg)) in
  Ok (header, next_validators, next_dkg).

(** ** Reconstruction *)

Record AntiMevReconstruction : Type := mkAntiMevReconstruction {
  rec_proposal : VerifiedProposal;
  rec_decisions : list (AntiMevTransactionDecision NeoXExecutionError);
}.

Definition reconstruct_antimev_proposal (spec : NeoXChainSpec) (provider : ChainProvider) (v : VerifiedProposal)
    (resolutions : list AntiMevEnvelopeResolution) : result AntiMevReconstructionError AntiMevReconstruction :=
  let b : VerifiedBlock E Y := vp_contents v in
  let header := vp_header v in
  let? anti_mev := ok_or (vp_anti_mev v) MissingMetadata in
  let envelope_indices := map transaction_index (envelopes anti_mev) in
  let? indexed := index_resolutions anti_mev resolutions in
  let? state := map_err ReconstructionProvider (state_by_block_hash provider (parent_state_hash v)) in
  let? pool := map_err ReconstructionProvider
    (pool_new state (mkStaticPoolHead _ (vb_parent_gas_limit b) (vb_parent_spec b)) (vb_senders b)) in
  let? x := map_err ReconstructionExecution
    (apply_pre_execution_changes (executor_for_block spec state header (vb_withdrawals b))) in
  let s := execute_sequence execute_transaction (zip (vb_transactions b) (vb_senders b)) envelope_indices pool indexed x in
  let? (e, result) := map_err ReconstructionExecution
    (executor_finish (is_prague_active_at_timestamp (inner spec) (timestamp header)) (replay_exec s)) in
  let bundle := take_bundle e in
  let? root := map_err ReconstructionProvider (state_root_of state bundle) in
  let transactions := seq_transactions (replay s) in
  let? sidecars := retain_blob_sidecars (vb_transactions b) transactions (vb_sidecars b) in
  let header := with_results header root (calculate_tx_root transactions)
    (calculate_receipt_root (result_receipts result)) (logs_bloom_of (result_receipts result))
    (result_gas_used result) (block_blob_gas_used transactions) in
  let? (commitments, next_dkg) := recompute_next_consensus spec header bundle state in
  let (header, next_validators) := commitments : Header * GovernanceValidatorSet in
  Ok (mkAntiMevReconstruction
        (mkVerifiedProposal header (parent_state_hash v) (vp_anti_mev v)
           (mkVerifiedBlock _ _ _ _ transactions (seq_senders (replay s)) (vb_withdrawals b) sidecars
              (vb_parent_base_fee b) (vb_parent_gas_limit b) (vb_parent_spec b) (vb_parent_reseal b)
              bundle result next_validators next_dkg))
        (decisions (replay s))).

(** [AntiMevReconstructionTaskError::is_transient], of a reconstruction error. *)
Definition reconstruction_is_transient (e : AntiMevReconstructionError) : bool :=
  match e with
  | ReconstructionProvider _ => true
  | ReconstructionGovernance (GovernanceProvider _) => true
  | ReconstructionDkg (DkgProvider _) => true
  | _ => false
  end.
End rebuild.

(** ** What reconstruction establishes *)

Section facts.
Context {R : AlloyRlp} {C : Crypto} {CL : CryptoLaws C} {B : Blst} {Sy : Symmetric} {K : EthConstants} {S : BlobSchedule}.
Context {X : SignedTransactions} {D : TransactionDetails X} {DL : TransactionDetailsLaws D}.
Context {V : Revm} {E : EthExecutor X V} {L : EthExecutorLaws E}.
Context {Q : BlockRoots E} {Y : BlobSidecars X}.

(** The pieces a reconstruction is made of. *)
Record rebuilt (spec : NeoXChainSpec) (provider : ChainProvider) (v : VerifiedProposal) (r : AntiMevReconstruction)
    (state : StateProvider) (indexed : gmap N AntiMevEnvelopeResolution) (s : ReplayState) : Prop := {
  rb_state : state_by_block_hash provider (parent_state_hash v) = Ok state;
  rb_sequence : exists am pool x, vp_anti_mev v = Some am /\
    pool_new state (mkStaticPoolHead _ (vb_parent_gas_limit (vp_contents v)) (vb_parent_spec (vp_contents v)))
      (vb_senders (vp_contents v)) = Ok pool /\
    apply_pre_execution_changes (executor_for_block spec state (vp_header v) (vb_withdrawals (vp_contents v))) = Ok x /\
    s = execute_sequence execute_transaction (zip (vb_transactions (vp_contents v)) (vb_senders (vp_contents v)))
          (map transaction_index (envelopes am)) pool indexed x;
  rb_finish : exists e, executor_finish (is_prague_active_at_timestamp (inner spec) (timestamp (vp_header v))) (replay_exec s)
      = Ok (e, vb_result (vp_contents (rec_proposal r))) /\ vb_bundle (vp_contents (rec_proposal r)) = take_bundle e;
  rb_header : exists root,
    state_root_of state (vb_bundle (vp_contents (rec_proposal r))) = Ok root /\
    recompute_next_consensus spec
      (with_results (vp_header v) root (calculate_tx_root (seq_transactions (replay s)))
         (calculate_receipt_root (result_receipts (vb_result (vp_contents (rec_proposal r)))))
         (logs_bloom_of (result_receipts (vb_result (vp_contents (rec_proposal r)))))
         (result_gas_used (vb_result (vp_contents (rec_proposal r)))) (block_blob_gas_used (seq_transactions (replay s))))
      (vb_bundle (vp_contents (rec_proposal r))) state =
    Ok (vp_header (rec_proposal r), vb_next_validators (vp_contents (rec_proposal r)), vb_next_dkg (vp_contents (rec_proposal r)));
  rb_transactions : vb_transactions (vp_contents (rec_proposal r)) = seq_transactions (replay s);
  rb_senders : vb_senders (vp_contents (rec_proposal r)) = seq_senders (replay s);
  rb_withdrawals : vb_withdrawals (vp_contents (rec_proposal r)) = vb_withdrawals (vp_contents v);
  rb_decisions : rec_decisions r = decisions (replay s);
}.

Lemma reconstruct_Ok spec provider v rs r :
  reconstruct_antimev_proposal spec provider v rs = Ok r ->
  exists state indexed s, rebuilt spec provider v r state indexed s.
Proof.
  unfold reconstruct_antimev_proposal. intros H. apply result_bind_Ok in H as (am & Ham%ok_or_Ok & H).
  apply result_bind_Ok in H as (indexed & _ & H). apply result_bind_Ok in H as (state & Hst%map_err_Ok & H).
  apply result_bind_Ok in H as (pool & Hp%map_err_Ok & H). apply result_bind_Ok in H as (x & Hx%map_err_Ok & H).
  set (s := execute_sequence _ _ _ _ _ _) in H. apply result_bind_Ok in H as ([e res] & Hf%map_err_Ok & H).
  apply result_bind_Ok in H as (root & Hr%map_err_Ok & H). apply result_bind_Ok in H as (sc & _ & H).
  apply result_bind_Ok in H as ([[h nv] nd] & Hc & [= <-]). exists state, indexed, s.
  split; try done; [by exists am, pool, x|by exists e|by exists root].
Qed.

Lemma recompute_Ok spec header bundle state h nv nd :
  recompute_next_consensus spec header bundle state = Ok (h, nv, nd) ->
  exists prefix, h = with_commitments header (extra_data h) (mix_hash h) /\
    DbftExtraPrefix.decode (extra_data h) = Ok prefix /\ DbftExtraPrefix.encode prefix = Ok (extra_data h) /\
    DbftExtraPrefix.version prefix = extra_version_at_block spec (number h) /\
    verify_commitments spec h prefix bundle state = Ok (nv, nd) /\
    exists prefix0, DbftExtraPrefix.decode (extra_data header) = Ok prefix0 /\
      DbftExtraPrefix.signature_scheme prefix = DbftExtraPrefix.signature_scheme prefix0 /\
      apply_next_consensus_commitments spec header (DbftExtraPrefix.signature_scheme prefix0) nv (dkg_key nd) = Ok h.
Proof.
  unfold recompute_next_consensus. intros H. apply result_bind_Ok in H as (nv' & Hg%map_err_Ok & H).
  apply result_bind_Ok in H as (m & Hm%ok_or_Ok & H). apply checked_add_Some in Hm as [-> Hm].
  apply result_bind_Ok in H as (params & Hp%map_err_Ok & H). apply result_bind_Ok in H as (prefix0 & H0%map_err_Ok & H).
  apply result_bind_Ok in H as (h' & Ha%map_err_Ok & [= <- <- <-]).
  destruct (commitments_applied _ _ _ _ _ _ Ha) as (p & Eh & _).
  destruct (commitments_verify spec header _ nv' params bundle state h' ltac:(lia) Hg Hp Ha) as (prefix & Hd & Hv & Hs & He & Hver).
  exists prefix. split_and!; try done. by exists prefix0.
Qed.

Lemma rebuilt_runs spec provider v r state indexed s :
  rebuilt spec provider v r state indexed s ->
  exists x, apply_pre_execution_changes (executor_for_block spec state (vp_header v) (vb_withdrawals (vp_contents v))) = Ok x /\
    runs execute_transaction x (zip (seq_transactions (replay s)) (seq_senders (replay s))) (replay_exec s) /\
    Forall (fun p => tx_ty p.1 <> TX_TYPE_EIP4844) (zip (seq_transactions (replay s)) (seq_senders (replay s))) /\
    length (seq_transactions (replay s)) = length (seq_senders (replay s)).
Proof.
  intros [_ (am & pool & x & _ & _ & Hx & ->) _ _ _ _ _ _]. exists x. split; [done|].
  destruct (execute_from_spec execute_transaction (zip (vb_transactions (vp_contents v)) (vb_senders (vp_contents v))) 0
    (map transaction_index (envelopes am)) indexed (mkReplayState sequence_empty pool x)) as (ds & inc & _ & _ & Ht & Hs & Ha & Hr).
  unfold execute_sequence. rewrite Ht, Hs. cbn [sequence_empty replay seq_transactions seq_senders app].
  rewrite zip_fst_snd, !length_fmap. split_and!; try done. eapply Forall_impl; [exact Ha|]. intros p. apply admitted_no_blob.
Qed.

(** C6. A reconstructed block is an ordinary block: executing its transactions from the parent
    state, as every importing node does, succeeds with the result and the state changes
    the reconstruction reports, and its header commits to exactly these: the roots, the
    bloom, the gas, the blob gas and the next consensus read from the new post-state. *)
Theorem reconstruction_reexecutes spec provider v rs r :
  reconstruct_antimev_proposal spec provider v rs = Ok r ->
  let h := vp_header (rec_proposal r) in
  let b := vp_contents (rec_proposal r) in
  exists state prefix, state_by_block_hash provider (parent_state_hash v) = Ok state /\
    execute_block spec state h (vb_withdrawals b) (zip (vb_transactions b) (vb_senders b)) = Ok (vb_bundle b, vb_result b) /\
    state_root_of state (vb_bundle b) = Ok (state_root h) /\
    transactions_root h = calculate_tx_root (vb_transactions b) /\
    receipts_root h = calculate_receipt_root (result_receipts (vb_result b)) /\
    logs_bloom h = logs_bloom_of (result_receipts (vb_result b)) /\
    gas_used h = result_gas_used (vb_result b) /\
    (forall g, blob_gas_used h = Some g -> g = block_blob_gas_used (vb_transactions b)) /\
    DbftExtraPrefix.decode (extra_data h) = Ok prefix /\
    verify_commitments spec h prefix (vb_bundle b) state = Ok (vb_next_validators b, vb_next_dkg b).
Proof.
  intros H h b. destruct (reconstruct_Ok _ _ _ _ _ H) as (state & indexed & s & Hb).
  destruct (rebuilt_runs _ _ _ _ _ _ _ Hb) as (x & Hx & Hruns & _).
  destruct Hb as [Hst _ (e & Hf & He) (root & Hroot & Hc) Ht Hs Hw _].
  destruct (recompute_Ok _ _ _ _ _ _ _ Hc) as (prefix & Eh & Hd & _ & _ & Hver & _).
  fold h in Eh, Hd, Hver, Hc |- *. fold b in Hf, He, Hroot, Ht, Hs, Hw, Hver, Eh |- *.
  assert (Hsame : same_environment (vp_header v) h) by (rewrite Eh; done).
  exists state, prefix. split_and!; try done; try (by rewrite Eh; cbn).
  - unfold execute_block. rewrite Hw, <- (same_executor spec state _ _ _ Hsame), Hx. cbn [result_bind].
    rewrite Ht, Hs, (executes_transactions _ _ _ Hruns).
    + cbn [result_bind]. replace (timestamp h) with (timestamp (vp_header v)) by (rewrite Eh; done).
      rewrite Hf. cbn [result_bind]. by rewrite <- He.
    + apply pre_execution_inv in Hx as (_ & _ & _ & Hcount & _). by intros _.
  - by rewrite Eh, Ht.
  - intros g. rewrite Eh, Ht. cbn. destruct (blob_gas_used (vp_header v)); naive_solver.
Qed.

(** ** The reconstructed header against the proposal *)

Lemma no_blob_gas l : Forall (fun t => tx_ty t <> TX_TYPE_EIP4844) l -> block_blob_gas_used l = 0.
Proof.
  induction 1 as [|t l Ht _ IH]; [done|]. cbn [block_blob_gas_used foldr]. fold (block_blob_gas_used l).
  destruct (blob_gas_used_by t) eqn:Eg; [by destruct Ht; apply blob_gas_law; rewrite Eg|]. by rewrite IH.
Qed.

Lemma rebuilt_no_blobs spec provider v r state indexed s :
  rebuilt spec provider v r state indexed s -> block_blob_gas_used (seq_transactions (replay s)) = 0.
Proof.
  intros (x & _ & _ & Hz & Hl)%rebuilt_runs. apply no_blob_gas. apply (Forall_fmap fst (fun t => tx_ty t <> TX_TYPE_EIP4844)) in Hz.
  rewrite fst_zip in Hz; [exact Hz|lia].
Qed.

Lemma whole_prefix extra prefix :
  DbftExtraPrefix.decode extra = Ok prefix -> DbftExtraPrefix.encode prefix = Ok extra ->
  DbftExtra.hashable_prefix extra = Ok extra.
Proof.
  intros (_ & _ & _ & _ & _ & Hc)%prefix_decode_inv He.
  destruct (prefix_encode_decode prefix _ [] He Hc) as (_ & Hh & _). by rewrite app_nil_r in Hh.
Qed.

Lemma verified_prefix spec provider request txs primary v parent state prefix :
  verified spec provider request txs primary v parent state prefix ->
  DbftExtra.hashable_prefix (extra_data (vp_header v)) = Ok (extra_data (vp_header v)).
Proof.
  intros Hv. eapply whole_prefix; [apply Hv|]. eapply proposal_extra; apply Hv.
Qed.

Lemma same_commitments spec h root tx_root receipts_root bloom gas blob_gas sc nv key h' :
  apply_next_consensus_commitments spec h sc nv key = Ok h ->
  apply_next_consensus_commitments spec (with_results h root tx_root receipts_root bloom gas blob_gas) sc nv key = Ok h' ->
  h' = with_results h root tx_root receipts_root bloom gas blob_gas.
Proof.
  unfold apply_next_consensus_commitments. cbn [with_results number]. intros H H'.
  apply result_bind_Ok in H as (p & Hp & H). rewrite Hp in H'. cbn [result_bind] in H'.
  apply result_bind_Ok in H as (e & He & [= H]). rewrite He in H'. injection H' as <-.
  pose proof (f_equal extra_data H) as H1. pose proof (f_equal mix_hash H) as H2. cbn [with_commitments extra_data mix_hash] in H1, H2.
  rewrite H1, H2. done.
Qed.

(** The round a request was received in, at a view. *)
Definition requested (s : DbftRoundState) (view : N) (request : DbftPrepareRequest) : Prop :=
  rs_height s = number (sealing_proposal request) /\
  exists m d, round_proposal s view = Some m /\ consensus_data m = Ok d /\ decoded_payload d = Ok (DecodedPrepareRequest request).

Lemma requested_header s view request h :
  requested s view request -> number h = number (sealing_proposal request) ->
  validate_proposal_header s view h =
    (let? matches := proposal_header_matches (sealing_proposal request) h in
     if negb matches then Err (FinalHeaderMismatch view) else Ok tt).
Proof.
  intros (Hh & m & d & Hm & Hd & Hp) Hn. unfold validate_proposal_header. rewrite Hh, Hn, N.eqb_refl, Hm. cbn [negb ok_or result_bind].
  rewrite Hd. cbn [map_err result_bind]. rewrite Hp. by cbn [map_err result_bind].
Qed.

(** A verified proposal without blob gas, reconstructed to a block that keeps the next
    committee and its public key, is finalized: the rebuilt header differs from the proposed one
    only in the fields execution determines, so the round accepts it for its request. *)
Theorem reconstruction_finalizes spec now eth_now provider request txs sidecars primary v rs r s view :
  verify_proposal spec now eth_now provider request txs sidecars primary = Ok v ->
  reconstruct_antimev_proposal spec provider v rs = Ok r ->
  default 0 (blob_gas_used (vp_header v)) = 0 ->
  vb_next_validators (vp_contents (rec_proposal r)) = vb_next_validators (vp_contents v) ->
  dkg_key (vb_next_dkg (vp_contents (rec_proposal r))) = dkg_key (vb_next_dkg (vp_contents v)) ->
  requested s view request ->
  validate_proposal_header s view (vp_header (rec_proposal r)) = Ok tt.
Proof.
  intros (parent & state0 & prefix & Hv)%verify_proposal_Ok (state & indexed & st & Hb)%reconstruct_Ok Hg Env End Hreq.
  pose proof (rebuilt_no_blobs _ _ _ _ _ _ _ Hb) as Hz. destruct Hb as [_ _ _ (root & _ & Hc) _ _ _ _]. rewrite Hz in Hc.
  destruct (recompute_Ok _ _ _ _ _ _ _ Hc) as (prefix' & _ & _ & _ & _ & _ & prefix0 & H0 & _ & Ha).
  pose proof (verified_prefix _ _ _ _ _ _ _ _ _ Hv) as Hh. destruct Hv as [Eh _ _ _ Hd Hver _ Hck _ _ _ _ _ _ _ _ _ _ Hcom].
  change (extra_data (with_results _ _ _ _ _ _ _)) with (extra_data (vp_header v)) in H0. rewrite Hd in H0. injection H0 as <-.
  rewrite Env, End in Ha. pose proof (commitments_stable _ _ _ _ _ _ _ _ _ Hck Hd Hver Hcom) as Hs.
  apply (same_commitments _ _ _ _ _ _ _ _ _ _ _ _ Hs) in Ha as Er.
  rewrite Er, (requested_header _ _ request); [|done|by cbn; rewrite Eh].
  rewrite <- Eh. unfold proposal_header_matches. cbn [with_results extra_data]. rewrite Hh. cbn [map_err result_bind].
  rewrite bool_decide_true; [done|]. unfold with_extra_data, with_results. destruct (vp_header v) as [];  cbn in *. f_equal.
  by destruct blob_gas_used as [g|]; cbn in *; subst.
Qed.

(** C35. Reconstruction keeps no blob transaction, and the round compares the blob gas: a verified
    proposal that uses blob gas is never finalized, whatever the Envelopes resolve to. *)
Theorem blob_proposal_never_finalizes spec now eth_now provider request txs sidecars primary v rs r s view g :
  verify_proposal spec now eth_now provider request txs sidecars primary = Ok v ->
  reconstruct_antimev_proposal spec provider v rs = Ok r ->
  blob_gas_used (vp_header v) = Some g -> g <> 0 ->
  requested s view request ->
  finalize_proposal s view (vp_header (rec_proposal r)) = (s, Err (FinalHeaderMismatch view)).
Proof.
  intros (parent & state0 & prefix & Hv)%verify_proposal_Ok (state & indexed & st & Hb)%reconstruct_Ok Eg Hg Hreq.
  pose proof (rebuilt_no_blobs _ _ _ _ _ _ _ Hb) as Hz. destruct Hb as [_ _ _ (root & _ & Hc) _ _ _ _]. rewrite Hz in Hc.
  destruct (recompute_Ok _ _ _ _ _ _ _ Hc) as (prefix' & Er & Hd' & He' & _).
  pose proof (vf_header _ _ _ _ _ _ _ _ _ Hv) as Eh. apply verified_prefix in Hv. rewrite Eh in Hv, Eg, Er.
  unfold finalize_proposal. rewrite (requested_header _ _ request); [|done|by rewrite Er].
  unfold proposal_header_matches. rewrite Hv, (whole_prefix _ _ Hd' He'). cbn [map_err result_bind].
  rewrite bool_decide_false; [done|]. intros H%(f_equal blob_gas_used). rewrite Er in H.
  cbn [with_extra_data with_commitments with_results blob_gas_used] in H. rewrite Eg in H. by injection H.
Qed.
End facts.
