(* ===== verification/Chain.v ===== *)
(** From one block to the next: the header a round seals over a checked proposal is one
    every node imports (crates/neox/consensus-engine/src/lib.rs), because the parent committed to
    the committee and the threshold key that the round was opened with. *)

From S2P Require Import Prelude Extern Instances Extra Validation ChainSpec Consensus.
From S2P Require Import Tpke Wire Payload DkgParams Storage Round Sealing AntiMev StaticPool Execution Reconstruction.
From S2P Require Import ProposalRecovery Driver Proposal.

Section seals.
Context {R : AlloyRlp} {C : Crypto} {B : Blst} {K : EthConstants} {S : BlobSchedule}.

(** ** The length and the first byte of a seal *)

Lemma concat_width k (l : list bytes) : Forall (fun x => length x = N.to_nat k) l -> lenN (concat l) = lenN l * k.
Proof.
  unfold lenN. induction 1 as [|x l Hx _ IH]; [done|]. cbn [concat length]. rewrite length_app. lia.
Qed.

Definition seal_len (extra : DbftExtra.t) : N :=
  match extra with
  | DbftExtra.EcdsaSeal v _ vs ss => prefix_len v + lenN vs * ADDRESS_LEN_BYTES + lenN ss * ECDSA_SIGNATURE_LEN
  | DbftExtra.ThresholdSeal v _ _ _ => prefix_len v + THRESHOLD_PUBLIC_KEY_LEN + THRESHOLD_SIGNATURE_LEN
  end.

Lemma seal_length extra raw : widths_ok extra -> DbftExtra.try_encode extra = Ok raw -> lenN raw = seal_len extra.
Proof.
  destruct extra as [v f vs ss|v f pk sg]; cbn [widths_ok DbftExtra.try_encode seal_len].
  - intros (Hf & Hv & Hs) H. apply result_bind_Ok in H as ([] & Hvf & H). case_bool_decide; [done|].
    destruct (negb _); [done|]. apply result_bind_Ok in H as (pre & Hp & [= <-]).
    rewrite !lenN_app, (concat_width _ _ Hv), (concat_width _ _ Hs).
    assert (lenN pre = prefix_len v) as ->; [|lia].
    destruct v, f as [f|]; try done; injection Hp as <-; [done|..]; unfold lenN; cbn; by rewrite (Hf _ eq_refl).
  - intros (Hf & Hk & Hs). destruct v; [done|..]; intros [= <-]; unfold lenN; cbn [length prefix_len];
      rewrite !length_app, Hf, Hk, Hs; unfold B256_LEN, HASHABLE_EXTRA_V1_LEN, THRESHOLD_PUBLIC_KEY_LEN, THRESHOLD_SIGNATURE_LEN; lia.
Qed.

Lemma seal_fits n extra :
  (forall vs, DbftExtra.validators extra = Some vs -> lenN vs = n) ->
  (forall ss, DbftExtra.signatures extra = Some ss -> lenN ss = bft_honest_node_count n) ->
  (DbftExtra.signature_scheme extra = Threshold -> 2 <= n) ->
  seal_len extra <= max_dbft_extra_data_size n.
Proof.
  intros Hv Hs Ht. unfold max_dbft_extra_data_size. assert (Hp : forall v, prefix_len v <= HASHABLE_EXTRA_V1_LEN) by (by intros []).
  destruct extra as [v f vs ss|v f pk sg]; cbn [seal_len]; specialize (Hp v).
  - rewrite (Hv _ eq_refl), (Hs _ eq_refl). unfold ADDRESS_LEN_BYTES. lia.
  - specialize (Ht eq_refl). unfold bft_honest_node_count, saturating_sub, THRESHOLD_PUBLIC_KEY_LEN, THRESHOLD_SIGNATURE_LEN, ECDSA_SIGNATURE_LEN.
    pose proof (N.Div0.mul_div_le (n - 1) 3). lia.
Qed.

Lemma max_size_bound n : n <= MAX_VALIDATOR_COUNT -> max_dbft_extra_data_size n <= USIZE_MAX.
Proof.
  unfold max_dbft_extra_data_size, MAX_VALIDATOR_COUNT, HASHABLE_EXTRA_V1_LEN, ECDSA_SIGNATURE_LEN. intros Hn.
  assert (bft_honest_node_count n <= n) by apply N.le_sub_l.
  change USIZE_MAX with 18446744073709551615. lia.
Qed.

Lemma seal_first_byte extra raw : DbftExtra.try_encode extra = Ok raw ->
  head raw = Some (extra_version_as_u8 (DbftExtra.version extra)).
Proof.
  destruct extra as [v f vs ss|v f pk sg]; cbn [DbftExtra.try_encode DbftExtra.version].
  - intros H. apply result_bind_Ok in H as ([] & Hvf & H). case_bool_decide; [done|].
    destruct (negb _); [done|]. apply result_bind_Ok in H as (pre & Hp & [= <-]).
    destruct v, f as [f|]; try done; by injection Hp as <-.
  - by destruct v; [|intros [= <-]..].
Qed.

(** ** A sealed header against the header rules *)

Definition reached (now : option N) (time : N) : Prop := exists present, now = Some present /\ time <= present.

Lemma sealed_eth_fields spec final raw present max :
  validate_ethereum_proposal_header spec final = Ok tt ->
  lenN raw <= max_dbft_extra_data_size (standby_count spec) ->
  max = max_dbft_extra_data_size (standby_count spec) ->
  is_paris_active_at_block (inner spec) (number final) = false -> timestamp final <= present ->
  eth_validate_header (inner spec) max (Some present) (with_extra_data final raw) = Ok tt.
Proof.
  intros H Hl -> Hp Ht. unfold validate_ethereum_proposal_header in H. apply result_bind_Ok in H as ([] & _ & H).
  unfold eth_validate_header. change (number (with_extra_data final raw)) with (number final). rewrite Hp.
  change (timestamp (with_extra_data final raw)) with (timestamp final).
  destruct (N.ltb_spec (present + ALLOWED_FUTURE_BLOCK_TIME_SECONDS) (timestamp final)); [lia|]. cbn [result_bind].
  unfold validate_header_extra_data. cbn [extra_data with_extra_data].
  destruct (N.ltb_spec (max_dbft_extra_data_size (standby_count spec)) (lenN raw)); [lia|]. exact H.
Qed.

Lemma sealed_neox_fields spec final raw extra :
  validate_neox_proposal_header spec final = Ok tt ->
  DbftExtraPrefix.decode (extra_data final) = Ok (prefix_of extra) ->
  DbftExtra.decode raw (standby_count spec) = Ok extra ->
  head raw = Some (extra_version_as_u8 (DbftExtra.version extra)) ->
  (DbftExtra.version extra = V0 -> mix_hash final <> ZERO_B256) ->
  validate_neox_header spec (with_extra_data final raw) = Ok tt.
Proof.
  unfold validate_neox_proposal_header, validate_neox_header. intros H Hp Hd Hb Hm. rewrite Hp in H. cbn [map_err result_bind] in H.
  cbn [extra_data with_extra_data number]. rewrite Hd. cbn [map_err result_bind]. destruct (negb _); [done|].
  apply result_bind_Ok in H as ([] & Ha & H). change (DbftExtraPrefix.version (prefix_of extra)) with (DbftExtra.version extra) in Ha.
  change (DbftExtraPrefix.signature_scheme (prefix_of extra)) with (DbftExtra.signature_scheme extra) in Ha.
  rewrite Ha. cbn [result_bind]. unfold validate_neox_header_fields in *. cbn [andb] in H |- *.
  cbn [extra_data with_extra_data mix_hash]. rewrite Hb.
  assert (bool_decide (Some (extra_version_as_u8 (DbftExtra.version extra)) = Some (extra_version_as_u8 V0)) &&
    bool_decide (mix_hash final = ZERO_B256) = false) as ->; [|exact H].
  clear H. case_bool_decide as E; [|done]. cbn [andb]. apply bool_decide_eq_false. apply Hm. by destruct (DbftExtra.version extra).
Qed.

(** A checked proposal with a decodable seal of its own prefix passes the checks a node
    makes of a header alone and of its fields against the parent's. *)
Lemma sealed_checked spec now eth_now final header parent primary extra :
  engine_validate_proposal_header spec final parent primary = Ok tt -> primary <= U8_MAX ->
  sealed_by final header extra -> DbftExtra.decode (extra_data header) (standby_count spec) = Ok extra ->
  seal_len extra <= max_dbft_extra_data_size (standby_count spec) ->
  (DbftExtra.version extra = V0 -> mix_hash final <> ZERO_B256) ->
  is_paris_active_at_block (inner spec) (number final) = false ->
  reached now (timestamp final) -> reached eth_now (timestamp final) ->
  engine_validate_header spec now eth_now header = Ok tt /\
  validate_neox_header_against_parent_fields spec header parent = Ok tt /\
  validate_difficulty header (standby_count spec) = Ok tt.
Proof.
  intros H Hprim (Eh & Hw & Henc & Hpre) Hdec Hlen Hmix Hparis (p & -> & Hp) (ep & -> & Hep).
  pose proof (seal_length _ _ Hw Henc) as Hl. pose proof (seal_first_byte _ _ Henc) as Hb.
  unfold engine_validate_proposal_header in H. apply result_bind_Ok in H as ([] & Heth & H).
  apply result_bind_Ok in H as ([] & Hneox & H). apply result_bind_Ok in H as ([] & Hfields & Hdiff%map_err_Ok).
  revert Hdec Hl Hb. set (raw := extra_data header) in *. rewrite Eh. intros Hdec Hl Hb. split_and!.
  - unfold engine_validate_header, validate_timestamp_at. cbn [ok_or result_bind with_extra_data timestamp].
    destruct (N.ltb_spec p (timestamp final)); [lia|]. cbn [result_bind].
    rewrite (sealed_eth_fields _ _ _ _ _ Heth) by (done || lia). cbn [result_bind].
    by apply (sealed_neox_fields _ _ _ extra).
  - exact Hfields.
  - unfold validate_proposal_primary in Hdiff. destruct (N.eqb_spec (N_of_be (nonce final)) primary) as [En|]; [|done].
    unfold validate_difficulty. cbn [with_extra_data nonce]. rewrite En. unfold as_u8. rewrite N.mod_small by (unfold U8_MAX in *; lia).
    exact Hdiff.
Qed.
End seals.

Section chain.
Context {R : AlloyRlp} {C : Crypto} {B : Blst} {Sy : Symmetric} {K : EthConstants} {S : BlobSchedule}.
Context {X : SignedTransactions} {D : TransactionDetails X} {V : Revm} {E : EthExecutor X V} {Q : BlockRoots E}.

(** ** The parent's commitments *)

(** A parent that committed, in its header, to the committee and the DKG state its own
    post-state holds (as [verify_proposal] and reconstruction make sure), and the round
    opened from them. *)
Record opened (spec : NeoXChainSpec) (parent : Header) (parent_extra : DbftExtra.t) (nv : GovernanceValidatorSet)
    (nd : option DkgState) (s : DbftRoundState) : Prop := {
  op_extra : DbftExtra.decode (extra_data parent) (standby_count spec) = Ok parent_extra;
  op_version : DbftExtra.version parent_extra = extra_version_at_block spec (number parent);
  op_commitments : exists bundle state,
    verify_commitments spec parent (prefix_of parent_extra) bundle state = Ok (nv, nd);
  op_validators : rs_validators s = Storage.sorted nv;
  op_dkg : rs_dkg_state s = nd;
  op_count : lenN (Storage.sorted nv) = standby_count spec;
}.

Lemma verify_commitments_Ok spec header prefix bundle state nv nd :
  verify_commitments spec header prefix bundle state = Ok (nv, nd) ->
  number header < U64_MAX /\
  read_governance_validator_set_from_storage
    (fun key => map_err GovernanceProvider (post_storage bundle state GOVERNANCE_PROXY_ADDRESS key)) = Ok nv /\
  (DbftExtraPrefix.version prefix <> V0 ->
     DbftExtraPrefix.fallback_next_consensus prefix = Some (next_consensus_hash (Storage.sorted nv))) /\
  (anti_mev_active_at_block spec (number header + 1) = false -> mix_hash header = next_consensus_hash (Storage.sorted nv)) /\
  (forall st, nd = Some st -> mix_hash header = keccak256 (global_public_key (current st))).
Proof.
  unfold verify_commitments. intros H. apply result_bind_Ok in H as (nv' & Hg%map_err_Ok & H).
  destruct (negb _ && negb _) eqn:Ef; [done|]. apply result_bind_Ok in H as (m & Hm%ok_or_Ok & H).
  apply checked_add_Some in Hm as [-> Hm]. apply result_bind_Ok in H as (params & _ & H).
  case_bool_decide as Emix; [|done]. injection H as -> <-. split_and!; [lia|exact Hg| | |].
  - intros Hv. rewrite bool_decide_eq_false_2 in Ef by done. cbn in Ef. by apply negb_false_iff, bool_decide_eq_true in Ef.
  - intros Ha. unfold post_dkg in Emix. rewrite Ha in Emix. exact Emix.
  - intros st Est. by rewrite Est in Emix.
Qed.

Lemma committee_ok storage nv :
  read_governance_validator_set_from_storage storage = Ok nv ->
  Forall (fun a => length a = ADDRESS_LEN) (Storage.sorted nv) /\ ZERO_ADDRESS ∉ Storage.sorted nv /\
  lenN (Storage.sorted nv) <= MAX_VALIDATOR_COUNT.
Proof.
  unfold read_governance_validator_set_from_storage. intros H. apply result_bind_Ok in H as (vs & Hv & [= <-]).
  apply read_array_Ok in Hv as (Hl & _ & Hz & _ & Hw). rewrite sorted_is_sort, lenN_sort_bytes, sort_bytes_elem.
  split_and!; [|done|lia]. rewrite sort_bytes_perm. apply Forall_forall. intros a Ha.
  apply list_elem_of_lookup in Ha as [i Hi]. destruct (Hw _ _ Hi) as (word & <- & _).
  by rewrite length_drop, u256_bytes_length.
Qed.

Lemma v0_no_anti_mev spec n : extra_version_at_block spec n = V0 -> anti_mev_active_at_block spec n = false.
Proof.
  unfold extra_version_at_block, anti_mev_active_at_block. destruct (is_fork_active_at_block spec ForkAntiMev n); [|done].
  by destruct (_ || _).
Qed.

Lemma ecdsa_parent_consensus spec parent parent_extra nv nd s version fallback signatures :
  opened spec parent parent_extra nv nd s -> version = extra_version_at_block spec (number parent + 1) ->
  validate_parent_consensus (DbftExtra.EcdsaSeal version fallback (rs_validators s) signatures) parent_extra (mix_hash parent) = Ok tt.
Proof.
  intros [_ Hv (bundle & state & Hc) Es _ _] Hver. apply verify_commitments_Ok in Hc as (Hn & _ & Hf & Hm & _).
  unfold validate_parent_consensus. cbn [DbftExtra.signature_scheme DbftExtra.validators DbftExtra.version ok_or result_bind].
  destruct (bool_decide (version = V0) || bool_decide (DbftExtra.version parent_extra = V0)) eqn:E0.
  - cbn [result_bind]. rewrite Es, Hm; [by rewrite bool_decide_eq_true_2|].
    apply orb_true_iff in E0 as [E0|E0]; apply bool_decide_eq_true in E0.
    + apply v0_no_anti_mev. by rewrite <- Hver.
    + apply extra_v0_next_ecdsa; [done|by rewrite <- Hv].
  - apply orb_false_iff in E0 as [_ E0%bool_decide_eq_false].
    change (DbftExtra.fallback_next_consensus parent_extra) with (DbftExtraPrefix.fallback_next_consensus (prefix_of parent_extra)).
    rewrite Hf by done. cbn [ok_or result_bind]. by rewrite Es, bool_decide_eq_true_2.
Qed.

(** ** Importing the sealed block *)

(** A view whose final header is a proposal checked against the parent. *)
Record ready (spec : NeoXChainSpec) (parent : Header) (s : DbftRoundState) (view : N) (final : Header) : Prop := {
  rd_final : round_final_header s view = Some final;
  rd_checked : engine_validate_proposal_header spec final parent (primary_index s view) = Ok tt;
  rd_paris : is_paris_active_at_block (inner spec) (number final) = false;
  rd_committed : extra_version_at_block spec (number final) = V0 -> mix_hash final <> ZERO_B256;
}.

Lemma checked_version spec final parent primary extra :
  engine_validate_proposal_header spec final parent primary = Ok tt ->
  DbftExtraPrefix.decode (extra_data final) = Ok (prefix_of extra) ->
  DbftExtra.version extra = extra_version_at_block spec (number final) /\
  number final = number parent + 1.
Proof.
  unfold engine_validate_proposal_header, validate_neox_proposal_header, validate_extra_activation. intros H Hd.
  apply result_bind_Ok in H as ([] & _ & H). rewrite Hd in H. cbn [map_err result_bind] in H.
  apply result_bind_Ok in H as ([] & Hv & H). apply result_bind_Ok in H as ([] & Hf & _). split.
  - destruct (negb _); [done|]. apply result_bind_Ok in Hv as ([] & Hv & _).
    destruct (negb (bool_decide _)) eqn:Eb; [done|]. by apply negb_false_iff, bool_decide_eq_true in Eb.
  - clear Hv. unfold validate_neox_header_against_parent_fields, validate_against_parent_hash_number in Hf.
    apply result_bind_Ok in Hf as ([] & Hn & _). destruct (negb _); [done|].
    destruct (checked_add _ _ _) as [m|] eqn:Em; [|done]. apply checked_add_Some in Em as [-> _].
    destruct (negb _) eqn:Eb; [done|]. apply negb_false_iff, N.eqb_eq in Eb. lia.
Qed.

Definition seal_verifies (header : Header) (extra : DbftExtra.t) : Prop :=
  match DbftExtra.signature_scheme extra with
  | Ecdsa => exists h signers, ecdsa_seal_hash header = Ok h /\ verify_ecdsa_signatures h extra = Ok signers
  | Threshold => verify_threshold_signature header extra = Ok tt
  end.

Lemma sealed_imports spec now eth_now parent parent_extra nv nd s view final header extra :
  base_ok s -> opened spec parent parent_extra nv nd s -> ready spec parent s view final ->
  sealed_by final header extra ->
  (forall vs, DbftExtra.validators extra = Some vs -> lenN vs = standby_count spec) ->
  seal_len extra <= max_dbft_extra_data_size (standby_count spec) ->
  validate_parent_consensus extra parent_extra (mix_hash parent) = Ok tt -> seal_verifies header extra ->
  reached now (timestamp final) -> reached eth_now (timestamp final) ->
  engine_validate_header spec now eth_now header = Ok tt /\
  engine_validate_header_against_parent spec header parent = Ok tt.
Proof.
  intros Hb Ho [Hf Hck Hparis Hz] Hsb Hvs Hfit Hlink Hseal Hnow Heth.
  destruct (op_commitments _ _ _ _ _ _ Ho) as (bundle & state & (_ & Hg & _)%verify_commitments_Ok).
  destruct (committee_ok _ _ Hg) as (_ & _ & Hmax). pose proof (op_count _ _ _ _ _ _ Ho) as Hn. rewrite Hn in Hmax.
  assert (Hlen : lenN (extra_data header) <= USIZE_MAX).
  { destruct Hsb as (_ & Hwo & Henc & _). rewrite (seal_length _ _ Hwo Henc). etransitivity; [exact Hfit|].
    by apply max_size_bound. }
  assert (Hdec : DbftExtra.decode (extra_data header) (standby_count spec) = Ok extra) by (by apply encode_decodes; try apply Hsb).
  destruct (checked_version _ _ _ _ extra Hck ltac:(apply Hsb)) as [Hver Hnum].
  destruct (primary_index_eq s view Hb) as [Hprim _]. rewrite (op_validators _ _ _ _ _ _ Ho), Hn in Hprim.
  destruct (sealed_checked spec now eth_now final header parent _ extra Hck ltac:(unfold MAX_VALIDATOR_COUNT, U8_MAX in *; lia)
    Hsb Hdec Hfit ltac:(by rewrite Hver) Hparis Hnow Heth) as (H1 & H2 & H3).
  split; [done|]. unfold engine_validate_header_against_parent. rewrite H2. cbn [result_bind].
  unfold validate_header, validate_header_against_parent. rewrite Hdec, (op_extra _ _ _ _ _ _ Ho). cbn [map_err result_bind].
  rewrite Hlink. cbn [result_bind]. rewrite H3. cbn [result_bind]. unfold seal_verifies in Hseal.
  destruct (DbftExtra.signature_scheme extra); [|by rewrite Hseal].
  destruct Hseal as (h & signers & Hh & Hv). rewrite Hh. cbn [map_err result_bind]. by rewrite Hv.
Qed.

(** C5. An ECDSA block is imported: a reachable round opened from the parent's commitments,
    with a verified quorum on a checked proposal, seals a header that every node accepts, alone
    and against the parent, as soon as its clock has reached the block's timestamp. *)
Theorem ecdsa_block_imports spec now eth_now parent parent_extra nv nd s view final signatures :
  round_reachable s -> opened spec parent parent_extra nv nd s -> ready spec parent s view final ->
  verified_commit_seal s view = Some (EcdsaCommitSeal signatures) ->
  reached now (timestamp final) -> reached eth_now (timestamp final) ->
  exists header, sealed_header s view = Ok header /\
    engine_validate_header spec now eth_now header = Ok tt /\
    engine_validate_header_against_parent spec header parent = Ok tt.
Proof.
  intros Hr Ho Hrd Hseal Hnow Heth. pose proof (op_validators _ _ _ _ _ _ Ho) as Es.
  destruct (op_commitments _ _ _ _ _ _ Ho) as (bundle & state & (_ & Hg & _)%verify_commitments_Ok).
  destruct (committee_ok _ _ Hg) as (Hw & Hz & _). rewrite <- Es in Hw, Hz.
  destruct (ecdsa_commit_sealed s view signatures Hr Hw Hz Hseal)
    as (final' & header & version & fallback & h & signers & Hf & Hs & _ & _ & Hh & _ & Hcert & Hq & Hsb).
  rewrite (rd_final _ _ _ _ _ Hrd) in Hf. injection Hf as <-. set (extra := DbftExtra.EcdsaSeal _ _ _ _) in *.
  pose proof (op_count _ _ _ _ _ _ Ho) as Hn. rewrite <- Es in Hn.
  destruct (checked_version _ _ _ _ extra (rd_checked _ _ _ _ _ Hrd) ltac:(apply Hsb)) as [Hver Hnum].
  exists header. split; [done|]. apply (sealed_imports spec now eth_now parent parent_extra nv nd s view final header extra); try done.
  - apply ri_base. by apply round_reachable_inv.
  - by intros vs [= <-].
  - apply seal_fits; [by intros vs [= <-]| |done]. intros ss [= <-].
    destruct Hcert as (_ & _ & _ & _ & rec & H2 & ->). rewrite <- Hn, <- Hq, lenN_sort_bytes. unfold lenN. by rewrite (Forall2_length _ _ _ H2).
  - apply (ecdsa_parent_consensus spec parent parent_extra nv nd s); [done|]. by rewrite <- Hnum.
  - exists h, signers. split; [done|]. by apply (verify_ecdsa_signatures_Ok h extra (rs_validators s) signatures).
Qed.

(** C8. A threshold block is imported, likewise: the parent's mix hash is the hash of the key the
    round's DKG state holds. With a single validator the seal would be longer than the
    header rules allow. *)
Theorem threshold_block_imports spec now eth_now parent parent_extra nv nd s view s' final signature :
  (forall point, length (p2_affine_compress point) = N.to_nat THRESHOLD_SIGNATURE_LEN) ->
  (forall st, nd = Some st -> length (global_public_key (current st)) = N.to_nat THRESHOLD_PUBLIC_KEY_LEN) ->
  round_reachable s -> opened spec parent parent_extra nv nd s -> 2 <= standby_count spec ->
  refresh_verified_seal s view = (s', Ok tt) -> ready spec parent s' view final ->
  verified_commit_seal s' view = Some (ThresholdCommitSeal signature) ->
  reached now (timestamp final) -> reached eth_now (timestamp final) ->
  exists header, sealed_header s' view = Ok header /\
    engine_validate_header spec now eth_now header = Ok tt /\
    engine_validate_header_against_parent spec header parent = Ok tt.
Proof.
  intros Hsig Hkey Hr Ho H2 Href Hrd Hseal Hnow Heth. rewrite <- (op_dkg _ _ _ _ _ _ Ho) in Hkey.
  destruct (threshold_commit_sealed s view s' signature Hsig Hkey Href Hseal)
    as (final' & header & version & fallback & key & Hf & Hs & Hk & _ & _ & _ & Hver & Hsb).
  rewrite (rd_final _ _ _ _ _ Hrd) in Hf. injection Hf as <-. set (extra := DbftExtra.ThresholdSeal _ _ _ _) in *.
  assert (Hsame : rs_validators s' = rs_validators s /\ rs_dkg_state s' = rs_dkg_state s /\ base_ok s').
  { apply round_reachable_inv in Hr as Hi. pose proof (ri_base _ Hi) as Hb. unfold refresh_verified_seal in Href.
    destruct (verify_commit_quorum s view) as [seal|]; [|done]. injection Href as <-.
    by destruct (views s !! view); cbn. }
  destruct Hsame as (Ev & Ed & Hb').
  assert (Ho' : opened spec parent parent_extra nv nd s') by (destruct Ho; split; congruence).
  exists header. split; [done|].
  apply (sealed_imports spec now eth_now parent parent_extra nv nd s' view final header extra); try done.
  - apply seal_fits; by intros.
  - destruct (op_commitments _ _ _ _ _ _ Ho) as (bundle & state & (_ & _ & _ & _ & Hm)%verify_commitments_Ok).
    rewrite (op_dkg _ _ _ _ _ _ Ho) in Hk. destruct nd as [st|]; [|done]. injection Hk as <-.
    unfold validate_parent_consensus. cbn. by rewrite (Hm _ eq_refl), bool_decide_eq_true_2.
Qed.
End chain.
