(* ===== verification/ModelChain.v ===== *)
(** A small chain on which the block-level definitions run: stand-ins for alloy's transactions,
    the EVM and the trie roots that satisfy the laws stated of them, one Anti-MEV block over
    a genesis block, and the witnesses of the block-level theorems. *)

From S2P Require Import Prelude Extern Instances Extra Validation ChainSpec Consensus.
From S2P Require Import Tpke Wire Payload Recovery DkgParams Storage Round Sealing AntiMev StaticPool Execution Reconstruction.
From S2P Require Import ProposalRecovery Driver Proposal Rebuild Chain.

Module Ledger.
Import RlpInstance RecoveryWitness.

(** ** Stand-ins *)

Record transaction : Type := mkTransaction {
  m_ty : N;
  m_id : N;
  m_sender : Address;
  m_nonce : N;
  m_gas : N;
  m_input : bytes;
}.

#[export] Instance transactions : SignedTransactions := {|
  eth_tx := transaction; tx_ty := m_ty; tx_to _ := Some ENVELOPE_TARGET; tx_input := m_input; tx_nonce := m_nonce;
  max_fee_per_gas _ := 5; priority_fee_or_price _ := 5; tx_gas_limit := m_gas;
  recover_signer t := Some (m_sender t); eth_tx_hash t := be_bytes 32 (m_id t); decode_2718_exact _ := None |}.

#[export] Instance details : TransactionDetails transactions := {|
  authorization := Empty_set; recover_authority _ := None; encode_2718_len t := 100 + lenN (m_input t); is_create _ := false;
  max_priority_fee_per_gas _ := Some 5; tx_value _ := 0; access_list _ := None; authorization_list _ := None;
  blob_count t := if m_ty t =? TX_TYPE_EIP4844 then Some 1 else None;
  blob_gas_used_by t := if m_ty t =? TX_TYPE_EIP4844 then Some 131072 else None |}.

#[export] Instance details_laws : TransactionDetailsLaws details.
Proof.
  split; intros t; cbn; [done|..]; destruct (N.eqb_spec (m_ty t) TX_TYPE_EIP4844); split; intros H; try done; by destruct H.
Qed.

#[export] Instance revm : Revm := {|
  SpecId := unit; is_enabled_in _ f := match f with BERLIN | LONDON => true | _ => false end;
  EIP7954_MAX_INITCODE_SIZE := 65536; EIP3860_MAX_INITCODE_SIZE := 49152; TX_GAS_LIMIT_CAP := 16777216;
  calculate_initial_tx_gas _ input _ _ _ _ _ := (21000 + 16 * lenN input, 21000) |}.

(** Every transaction succeeds and uses its gas limit; the database is the parent state. *)
Record machine : Type := mkMachine {
  ma_state : StateProvider;
  ma_block : BlockEnv;
  ma_used : list N;
}.

#[export] Instance executor : EthExecutor transactions revm := {|
  evm := machine; receipt := N; requests := unit; tx_result := N; system_result := unit; state_bundle := unit;
  for_eth_block h := mkEvmEnv _ (mkBlockEnv (number h) (beneficiary h) (timestamp h) (gas_limit h)
    (default 0 (base_fee_per_gas h)) (difficulty h) None (excess_blob_gas h)) tt;
  tx_env t sender := mkTxEnv (m_ty t) sender (Some ENVELOPE_TARGET) (m_input t) (m_gas t) 5 (Some 5);
  new_evm state _ env _ := mkMachine state (block_env env) [];
  evm_block := ma_block;
  evm_storage e a key := let? w := provider_storage (ma_state e) a (u256_bytes key) in Ok (default 0 w);
  eth_apply_pre_execution_changes e := Ok e;
  eth_execute_transaction _ _ t := Ok (m_gas t);
  eth_commit_transaction e gas := mkMachine (ma_state e) (ma_block e) (ma_used e ++ [gas]);
  transact_system_call _ _ _ _ := Ok (true, tt);
  commit_system_call e _ := e;
  no_requests := tt;
  append_post_execution_changes e := Ok (e, tt);
  evm_receipts := ma_used;
  enable_amsterdam_eip8037 _ := false;
  max_block_gas_used _ := 0;
  cumulative_tx_gas_used e := foldr N.add 0 (ma_used e);
  evm_blob_gas_used _ := 0;
  take_bundle _ := tt;
  bundle_storage _ _ _ := None |}.

#[export] Instance executor_laws : EthExecutorLaws executor.
Proof. split; try done. by intros e e' [= <-]. Qed.

#[export] Instance roots : BlockRoots executor := {|
  calculate_tx_root l := be_bytes 32 (lenN l); no_ommers_root := repeat x1d 32; no_withdrawals_root := repeat x56 32;
  calculate_receipt_root l := be_bytes 32 (foldr N.add 0 l); logs_bloom_of _ := repeat x00 256; requests_hash_of _ := repeat xe3 32;
  block_rlp_length _ l := lenN l; MAX_RLP_BLOCK_SIZE := 8388608; state_root_of _ _ := Ok ZERO_B256 |}.

#[export] Instance sidecars : BlobSidecars transactions := {|
  beacon_sidecar := unit; blob_versioned_hashes _ := [ZERO_B256]; validate_sidecar _ _ := true |}.

#[export] Existing Instance alloy_rlp.
#[export] Existing Instance alloy_rlp_laws.
#[export] Existing Instance model_crypto.
#[export] Existing Instance model_crypto_laws.
#[export] Existing Instance model_blst.
#[export] Existing Instance model_symmetric.
#[export] Existing Instance model_constants.
#[export] Existing Instance model_blob_schedule.

(** ** State *)

(** Two validators; a threshold key of round 1; a Policy with no fees and ten Envelopes a
    block; rich accounts. *)
Definition storage (a : Address) (key : B256) : result string (option U256) :=
  if bool_decide (a = GOVERNANCE_PROXY_ADDRESS) then
    Ok (if bool_decide (key = u256_bytes GOVERNANCE_CURRENT_CONSENSUS_SLOT) then Some 2
        else if bool_decide (key = u256_bytes (governance_current_consensus_storage_key 0)) then Some (N_of_be (validator x02))
        else Some (N_of_be (validator x01)))
  else if bool_decide (a = KEY_MANAGEMENT_PROXY_ADDRESS) then
    Ok (if bool_decide (key = u256_bytes KEY_MANAGEMENT_ROUND_NUMBER_SLOT) then Some 1
        else if bool_decide (key = u256_bytes (uint_mapping_storage_key KEY_MANAGEMENT_AGGREGATED_COMMITMENTS_SLOT 1))
        then Some 257 else Some 0)
  else Ok (if bool_decide (key = u256_bytes (policy_storage_key POLICY_MAX_ENVELOPES_PER_BLOCK_SLOT)) then Some 10
           else if bool_decide (key = u256_bytes (policy_storage_key POLICY_MAX_ENVELOPE_GAS_LIMIT_SLOT)) then Some 1000000
           else Some 0).
Definition state : StateProvider := mkStateProvider storage (fun _ => Ok (Some (mkAccount 0 (10 ^ 18) false))).

(** ** Blocks *)

(** The forks up to Cancun, and the Anti-MEV fork from block 1 on. *)
Definition ethereum : EthChainSpec := {|
  is_london_active_at_block _ := false; is_paris_active_at_block _ := false;
  is_shanghai_active_at_timestamp _ := true; is_cancun_active_at_timestamp _ := true;
  is_prague_active_at_timestamp _ := false; is_amsterdam_active_at_timestamp _ := false;
  is_osaka_active_at_timestamp _ := false; is_byzantium_active_at_block _ := true;
  blob_params_at_timestamp _ := Some tt; elasticity_multiplier _ := 2 |}.
Definition spec : NeoXChainSpec :=
  mkNeoXChainSpec _ ethereum (mkGenesis (Some (model_config validators 1)) [] ZERO_B256) (model_config validators 1).

Definition block (n : N) (parent : B256) (mix : B256) (extra : bytes) (txs gas blob_gas : N) : Header :=
  {| parent_hash := parent; ommers_hash := EMPTY_OMMER_ROOT_HASH; beneficiary := repeat x12 20;
     state_root := ZERO_B256; transactions_root := be_bytes 32 txs; receipts_root := be_bytes 32 gas;
     logs_bloom := repeat x00 256; difficulty := DIFFICULTY_IN_TURN; number := n; gas_limit := 30000000; gas_used := gas;
     timestamp := n; extra_data := extra; mix_hash := mix; nonce := be_bytes 8 1;
     base_fee_per_gas := None; withdrawals_root := Some EMPTY_ROOT_HASH; blob_gas_used := Some blob_gas;
     excess_blob_gas := Some 0; parent_beacon_block_root := Some EMPTY_ROOT_HASH; requests_hash := None;
     block_access_list_hash := None; slot_number := None |}.

Definition genesis_block : Header := block 0 ZERO_B256 ZERO_B256 [x00] 0 0 0.
Definition provider : ChainProvider :=
  mkChainProvider (fun _ => Ok (Some genesis_block)) (fun _ => Ok None) (fun _ => Ok state).

Definition next_key : bytes :=
  default [] (dkg_key (post_dkg spec 2 (default canonical (result_ok (dkg_parameters_new 2))) (tt : state_bundle) state)).
Definition extra : bytes := x01 :: signature_scheme_as_u8 Threshold :: next_consensus_hash validators.
Definition proposal (l : list transaction) (gas blob_gas : N) : DbftPrepareRequest :=
  mkDbftPrepareRequest (block 1 (hash_slow genesis_block) (keccak256 next_key) extra (lenN l) gas blob_gas)
    (map eth_tx_hash l) None None.

Definition envelope_data : bytes := repeat xff 4 ++ be_bytes 4 1 ++ be_bytes 4 30000 ++ repeat x00 336.
Definition plain : transaction := mkTransaction 2 1 (validator x05) 0 21000 [].
Definition envelope : transaction := mkTransaction 2 2 (validator x06) 0 60000 envelope_data.
Definition blob : transaction := mkTransaction 3 3 (validator x07) 0 21000 [].
(** What [envelope] decrypts to. *)
Definition inner_transaction : transaction := mkTransaction 2 4 (validator x06) 0 30000 [].

Definition verify (r : DbftPrepareRequest) (l : list transaction) (sidecars : list unit) : result DbftProposalError VerifiedProposal :=
  verify_proposal spec (Some 10) (Some 10) provider r l sidecars 1.
Definition nothing : VerifiedProposal :=
  mkVerifiedProposal genesis_block ZERO_B256 None
    (mkVerifiedBlock _ _ _ _ [] [] true [] 0 0 tt None tt (mkBlockExecutionResult [] tt 0 0) (mkGovernanceValidatorSet [] [] []) None).
Definition verified_block (r : DbftPrepareRequest) (l : list transaction) (sidecars : list unit) : VerifiedProposal :=
  default nothing (result_ok (verify r l sidecars)).
Definition rebuild (v : VerifiedProposal) (rs : list AntiMevEnvelopeResolution) : AntiMevReconstruction :=
  default (mkAntiMevReconstruction nothing []) (result_ok (reconstruct_antimev_proposal spec provider v rs)).

Definition resolutions : list AntiMevEnvelopeResolution := [Decrypted 1 inner_transaction].

(** An Anti-MEV block with an Envelope, and one with a blob transaction. *)
Definition secret_request : DbftPrepareRequest := Eval vm_compute in proposal [plain; envelope] 81000 0.
Definition secret : VerifiedProposal := Eval vm_compute in verified_block secret_request [plain; envelope] [].
Definition opened_secret : AntiMevReconstruction := Eval vm_compute in rebuild secret resolutions.
Definition blob_request : DbftPrepareRequest := Eval vm_compute in proposal [plain; blob] 42000 131072.
Definition blobs : VerifiedProposal := Eval vm_compute in verified_block blob_request [plain; blob] [tt].
Definition opened_blobs : AntiMevReconstruction := Eval vm_compute in rebuild blobs [].

Lemma secret_verified :
  verify_proposal spec (Some 10) (Some 10) provider secret_request [plain; envelope] [] 1 = Ok secret.
Proof. by_vm. Qed.
Lemma secret_opened : reconstruct_antimev_proposal spec provider secret resolutions = Ok opened_secret.
Proof. by_vm. Qed.
Lemma blobs_verified :
  verify_proposal spec (Some 10) (Some 10) provider blob_request [plain; blob] [tt] 1 = Ok blobs.
Proof. by_vm. Qed.
Lemma blobs_opened : reconstruct_antimev_proposal spec provider blobs [] = Ok opened_blobs.
Proof. by_vm. Qed.

(** The round at height 1 that received a request. *)
Definition requested_round (r : DbftPrepareRequest) : DbftRoundState :=
  (process (mkDbftRoundState 1 validators 2 true 0 {[0 := view_default]} ∅ ∅ ∅ None None)
     (entry_message 1 validators 0 [] (ERequest (enc prepare_request_codec r) (script x02)))).1.

Ltac solve_requested :=
  split; [vm_compute; reflexivity|do 2 eexists; split_and!; [vm_compute; reflexivity|vm_compute; reflexivity|vm_compute; reflexivity]].

Lemma secret_requested : requested (requested_round secret_request) 0 secret_request.
Proof. solve_requested. Qed.
Lemma blobs_requested : requested (requested_round blob_request) 0 blob_request.
Proof. solve_requested. Qed.

Lemma reconstruction_finalizes_witness :
  validate_proposal_header (requested_round secret_request) 0 (vp_header (rec_proposal opened_secret)) = Ok tt.
Proof.
  apply (reconstruction_finalizes (X := transactions) (E := executor) (Y := sidecars) spec (Some 10) (Some 10) provider secret_request [plain; envelope] [] 1 secret
    resolutions opened_secret);
    [exact secret_verified|exact secret_opened|reflexivity|reflexivity|reflexivity|exact secret_requested].
Defined.

Lemma blob_proposal_never_finalizes_witness :
  finalize_proposal (requested_round blob_request) 0 (vp_header (rec_proposal opened_blobs)) =
    (requested_round blob_request, Err (FinalHeaderMismatch 0)).
Proof.
  apply (blob_proposal_never_finalizes (X := transactions) (E := executor) (Y := sidecars) spec (Some 10) (Some 10) provider blob_request [plain; blob] [tt] 1 blobs
    [] opened_blobs (requested_round blob_request) 0 131072);
    [exact blobs_verified|exact blobs_opened|reflexivity|discriminate|exact blobs_requested].
Defined.

Lemma reconstruction_reexecutes_witness :
  vb_transactions (vp_contents (rec_proposal opened_secret)) = [plain; inner_transaction] /\
  transactions_root (vp_header (rec_proposal opened_secret)) = calculate_tx_root [plain; inner_transaction].
Proof.
  split; [reflexivity|].
  destruct (reconstruction_reexecutes (X := transactions) (E := executor) (Y := sidecars) spec provider secret resolutions opened_secret secret_opened)
    as (st & prefix & _ & _ & _ & Ht & _). exact Ht.
Defined.

(** ** The scratch pool, the executor and the replay *)

Definition head : StaticPoolHead := mkStaticPoolHead _ 30000000 (tt : SpecId).
Definition offers : list (Address * eth_tx) := [(validator x05, plain); (validator x06, envelope); (validator x07, blob)].

Lemma result_is_ok {E A} (r : result E A) : bool_decide (is_Some (result_ok r)) = true -> exists a, r = Ok a.
Proof. destruct r; [by eexists|]. by intros H%bool_decide_eq_true%is_Some_None. Qed.

Lemma pool_opens : exists p, pool_new state head (map fst offers) = Ok p.
Proof. apply result_is_ok. vm_compute. reflexivity. Qed.

Lemma static_pool_sound_witness :
  exists p0, pool_new state head (map fst offers) = Ok p0 /\
    forall q, queue_of (pool_add_all p0 offers) (validator x06) !! 0 = Some q ->
      exists t account, (validator x06, t) ∈ offers /\ load_account state (validator x06) = Ok account /\
        admissible head (policy p0) account (validator x06) t.
Proof.
  destruct pool_opens as [p0 Ep]. exists p0. split; [exact Ep|]. intros q Hq.
  destruct (static_pool_sound state head (map fst offers) p0 offers Ep) as (H & _).
  destruct (H _ _ _ Hq) as (t & account & Hin & _ & _ & Hl & Ha & _). exists t, account. split_and!; assumption.
Defined.

Definition machine0 : machine := new_evm state true (evm_env (vp_header secret)) (context_for_block (vp_header secret) true).
Definition started : NeoXBlockExecutor :=
  default (executor_new machine0 1 1) (result_ok (apply_pre_execution_changes (executor_new machine0 1 1))).
Definition ran1 : NeoXBlockExecutor := (execute_transaction started plain (validator x05)).1.
Definition ran2 : NeoXBlockExecutor := (execute_transaction ran1 envelope (validator x06)).1.

Lemma started_Ok : apply_pre_execution_changes (executor_new machine0 1 1) = Ok started.
Proof. by_vm. Qed.
Lemma ran1_Ok : execute_transaction started plain (validator x05) = (ran1, Ok tt).
Proof. by_vm. Qed.
Lemma ran2_Ok : execute_transaction ran1 envelope (validator x06) = (ran2, Ok tt).
Proof. by_vm. Qed.

Definition included : list (eth_tx * Address) := [(plain, validator x05); (envelope, validator x06)].

Lemma included_runs : runs execute_transaction started included ran2.
Proof.
  unfold included. apply (runs_included (X := transactions) execute_transaction started plain (validator x05) ran1); [exact ran1_Ok|]. apply (runs_included (X := transactions) execute_transaction ran1 envelope (validator x06) ran2); [exact ran2_Ok|]. exact (runs_done (X := transactions) execute_transaction ran2).
Qed.


Definition decrypted : gmap N AntiMevEnvelopeResolution := {[1 := Decrypted 1 inner_transaction]}.


(** ** Two sealed blocks *)

Definition committee : GovernanceValidatorSet := mkGovernanceValidatorSet [validator x02; validator x01] validators [2; 1].

(** A block of version 0 on a chain without the Anti-MEV fork. *)
Definition old_spec : NeoXChainSpec :=
  mkNeoXChainSpec _ ethereum (mkGenesis None [] ZERO_B256) (model_config validators NEOX_FORK_NEVER).
Definition old_extra : DbftExtra.t := DbftExtra.genesis_v0 validators.
Definition old_parent : Header :=
  block 0 ZERO_B256 (next_consensus_hash validators) (default [] (result_ok (DbftExtra.try_encode old_extra))) 0 0 0.
Definition old_final : Header := Eval vm_compute in block 1 (hash_slow old_parent) (next_consensus_hash validators) [x00] 0 0 0.
Definition old_round : DbftRoundState :=
  RoundWitness.run
    (RoundWitness.finalized
       (RoundWitness.run RoundWitness.start
          [entry_message 1 validators 0 []
             (ERequest (enc prepare_request_codec (mkDbftPrepareRequest old_final [] None None)) (script x02))]) old_final)
    (RoundWitness.commits script).

Lemma old_opened : opened old_spec old_parent old_extra committee None old_round.
Proof.
  split; [by_vm|by_vm| |by_vm|by_vm|by_vm].
  exists (tt : @state_bundle _ _ executor), state. by_vm.
Qed.

Lemma old_ready : ready old_spec old_parent old_round 0 old_final.
Proof. split; [by_vm|by_vm|by_vm|]. intros _. vm_compute. discriminate. Qed.

Lemma reached_10 t : t <= 10 -> reached (Some 10) t.
Proof. intros H. by exists 10. Qed.

Lemma ecdsa_block_imports_witness :
  exists header, sealed_header old_round 0 = Ok header /\
    engine_validate_header old_spec (Some 10) (Some 10) header = Ok tt /\
    engine_validate_header_against_parent old_spec header old_parent = Ok tt.
Proof.
  apply (ecdsa_block_imports (E := executor) old_spec (Some 10) (Some 10) old_parent old_extra committee None old_round 0 old_final
    [script x01; script x02]).
  - apply RoundWitness.run_reachable, RoundWitness.finalized_reachable, RoundWitness.run_reachable, RoundWitness.round_start_reachable.
  - exact old_opened.
  - exact old_ready.
  - by_vm.
  - apply reached_10. vm_compute. discriminate.
  - apply reached_10. vm_compute. discriminate.
Defined.

(** An Anti-MEV block sealed with the threshold key of its parent's post-state. *)
Definition dkg : DkgState := Eval vm_compute in
  default RoundWitness.some_dkg_state
    (post_dkg spec 1 (default canonical (result_ok (dkg_parameters_new 2))) (tt : @state_bundle _ _ executor) state).
Definition new_extra : DbftExtra.t :=
  DbftExtra.EcdsaSeal V1 (Some (next_consensus_hash validators)) validators [repeat x00 65; repeat x00 65].
Definition new_parent : Header :=
  block 0 ZERO_B256 (keccak256 (global_public_key (current dkg))) (default [] (result_ok (DbftExtra.try_encode new_extra))) 0 0 0.
Definition new_final : Header := Eval vm_compute in
  block 1 (hash_slow new_parent) (keccak256 (global_public_key (current dkg))) extra 0 0 0.
Definition new_start : DbftRoundState :=
  mkDbftRoundState 1 validators 2 true 0 {[0 := view_default]} ∅ ∅ ∅ None None.
Definition share : bytes := x21 :: repeat x00 95.
Definition new_round : DbftRoundState :=
  RoundWitness.run
    (RoundWitness.finalized
       (RoundWitness.run (install_dkg_state new_start [2; 1] dkg).1
          [entry_message 1 validators 0 []
             (ERequest (enc prepare_request_codec (mkDbftPrepareRequest new_final [] None None)) (script x02))]) new_final)
    (RoundWitness.commits (fun _ => share)).

Lemma new_opened : opened spec new_parent new_extra committee (Some dkg) new_round.
Proof.
  split; [by_vm|by_vm| |by_vm|by_vm|by_vm].
  exists (tt : @state_bundle _ _ executor), state. by_vm.
Qed.

Lemma new_ready : ready spec new_parent new_round 0 new_final.
Proof. split; [by_vm|by_vm|by_vm|]. vm_compute. discriminate. Qed.

Lemma new_reachable : round_reachable new_round.
Proof.
  apply RoundWitness.run_reachable, RoundWitness.finalized_reachable, RoundWitness.run_reachable.
  apply (reach_install 1 validators true new_start [2; 1] dkg); by_vm.
Qed.

Lemma threshold_block_imports_witness :
  exists header, sealed_header new_round 0 = Ok header /\
    engine_validate_header spec (Some 10) (Some 10) header = Ok tt /\
    engine_validate_header_against_parent spec header new_parent = Ok tt.
Proof.
  apply (threshold_block_imports (E := executor) spec (Some 10) (Some 10) new_parent new_extra committee (Some dkg) new_round 0 new_round
    new_final share).
  - intros point. cbn [p2_affine_compress model_blst].
    rewrite length_take, length_app, repeat_length. change (N.to_nat THRESHOLD_SIGNATURE_LEN) with 96%nat. lia.
  - intros st [= <-]. reflexivity.
  - exact new_reachable.
  - exact new_opened.
  - vm_compute. discriminate.
  - by_vm.
  - exact new_ready.
  - by_vm.
  - apply reached_10. vm_compute. discriminate.
  - apply reached_10. vm_compute. discriminate.
Defined.
End Ledger.
