(* ===== verification/ModelProducer.v ===== *)
(** A primary on which the construction of proposals runs: stand-ins for the pool, the EVM and
    alloy's block environment that satisfy the laws stated of them, and the witnesses of
    the theorems about the pool and the producer. *)

From S2P Require Import Prelude Extern Instances Extra Validation ChainSpec Consensus.
From S2P Require Import Tpke Wire Payload Recovery DkgParams Storage Round AntiMev StaticPool Execution Reconstruction.
From S2P Require Import ProposalRecovery Driver Proposal Pool Candidates Producer Rebuild Chain ModelChain.

Module Primary.
Import RlpInstance RecoveryWitness.

(** ** Stand-ins *)

#[export] Existing Instance Ledger.revm.

Record transaction : Type := mkTransaction {
  m_ty : N;
  m_id : N;
  m_sender : Address;
  m_nonce : N;
  m_gas : N;
  m_fee : N;
  m_tip : N;
  m_input : bytes;
}.

#[export] Instance transaction_eq_dec : EqDecision transaction.
Proof. solve_decision. Defined.

#[export] Instance transactions : SignedTransactions := {|
  eth_tx := transaction; tx_ty := m_ty; tx_to _ := Some ENVELOPE_TARGET; tx_input := m_input; tx_nonce := m_nonce;
  max_fee_per_gas := m_fee; priority_fee_or_price := m_tip; tx_gas_limit := m_gas;
  recover_signer t := Some (m_sender t); eth_tx_hash t := be_bytes 32 (m_id t); decode_2718_exact _ := None |}.

#[export] Instance details : TransactionDetails transactions := {|
  authorization := Empty_set; recover_authority _ := None; encode_2718_len t := 100 + lenN (m_input t); is_create _ := false;
  max_priority_fee_per_gas t := Some (m_tip t); tx_value _ := 0; access_list _ := None; authorization_list _ := None;
  blob_count t := if m_ty t =? TX_TYPE_EIP4844 then Some 1 else None;
  blob_gas_used_by t := if m_ty t =? TX_TYPE_EIP4844 then Some 131072 else None |}.

#[export] Instance details_laws : TransactionDetailsLaws details.
Proof.
  split; intros t; cbn; [done|..]; destruct (N.eqb_spec (m_ty t) TX_TYPE_EIP4844); split; intros H; try done; by destruct H.
Qed.

#[export] Instance pool_transactions : PoolTransactions transactions := {|
  effective_tip_per_gas t base_fee := if base_fee <=? m_fee t then Some (N.min (m_fee t - base_fee) (m_tip t)) else None;
  max_fee_per_blob_gas t := if m_ty t =? TX_TYPE_EIP4844 then Some 100 else None |}.

#[export] Instance pool_transactions_laws : PoolTransactionsLaws details pool_transactions.
Proof. split. intros t base_fee. cbn. unfold checked_sub. by destruct (base_fee <=? m_fee t). Qed.

(** A transaction uses its gas limit, within the block's; the database is the parent state. *)
Record machine : Type := mkMachine {
  ma_state : StateProvider;
  ma_block : BlockEnv;
  ma_used : list N;
  ma_blob_gas : N;
}.
Definition used (e : machine) : N := foldr N.add 0 (ma_used e).

#[export] Instance executor : EthExecutor transactions Ledger.revm := {|
  evm := machine; receipt := N; requests := unit; tx_result := transaction; system_result := unit; state_bundle := unit;
  for_eth_block h := mkEvmEnv _ (mkBlockEnv (number h) (beneficiary h) (timestamp h) (gas_limit h)
    (default 0 (base_fee_per_gas h)) (difficulty h) None (excess_blob_gas h)) tt;
  tx_env t sender := mkTxEnv (m_ty t) sender (Some ENVELOPE_TARGET) (m_input t) (m_gas t) (m_fee t) (Some (m_tip t));
  new_evm state _ env _ := mkMachine state (block_env env) [] 0;
  evm_block := ma_block;
  evm_storage e a key := let? w := provider_storage (ma_state e) a (u256_bytes key) in Ok (default 0 w);
  eth_apply_pre_execution_changes e := Ok e;
  eth_execute_transaction e _ t :=
    if m_gas t + used e <=? env_gas_limit (ma_block e) then Ok t else Err "gas"%string;
  eth_commit_transaction e t :=
    mkMachine (ma_state e) (ma_block e) (m_gas t :: ma_used e)
      (saturating_add U64_MAX (ma_blob_gas e) (default 0 (blob_gas_used_by (t : eth_tx))));
  transact_system_call _ _ _ _ := Ok (true, tt);
  commit_system_call e _ := e;
  no_requests := tt;
  append_post_execution_changes e := Ok (e, tt);
  evm_receipts := ma_used;
  enable_amsterdam_eip8037 _ := false;
  max_block_gas_used := used;
  cumulative_tx_gas_used := used;
  evm_blob_gas_used := ma_blob_gas;
  take_bundle _ := tt;
  bundle_storage _ _ _ := None |}.

#[export] Instance executor_laws : EthExecutorLaws executor.
Proof. split; try done. by intros e e' [= <-]. Qed.

#[export] Instance database : ExecutorDatabase executor := {| evm_database := ma_state |}.

#[export] Instance accounts_laws : ExecutorAccountsLaws executor database.
Proof.
  split.
  - intros state dkg env ctx. by split_and!.
  - by intros e e' [= <-].
  - done.
  - intros e tx t r. cbn. destruct (N.leb_spec (m_gas t + used e) (env_gas_limit (ma_block e))); [|done]. intros [= <-]. by split_and!.
  - intros e e' r [= <- <-]. by split_and!.
  - done.
Qed.

#[export] Instance roots : BlockRoots executor := {|
  calculate_tx_root l := be_bytes 32 (lenN l); no_ommers_root := repeat x1d 32; no_withdrawals_root := repeat x56 32;
  calculate_receipt_root l := be_bytes 32 (foldr N.add 0 l); logs_bloom_of _ := repeat x00 256; requests_hash_of _ := repeat xe3 32;
  block_rlp_length _ l := lenN l; MAX_RLP_BLOCK_SIZE := 8388608; state_root_of _ _ := Ok ZERO_B256 |}.

(** A sidecar is the number of its transaction. *)
#[export] Instance sidecars : BlobSidecars transactions := {|
  beacon_sidecar := N; blob_versioned_hashes t := [be_bytes 32 (m_id t)];
  validate_sidecar sidecar hashes := bool_decide (hashes = [be_bytes 32 sidecar]) |}.

#[export] Existing Instance alloy_rlp.
#[export] Existing Instance alloy_rlp_laws.
#[export] Existing Instance model_crypto.
#[export] Existing Instance model_crypto_laws.
#[export] Existing Instance model_blst.
#[export] Existing Instance model_symmetric.
#[export] Existing Instance model_constants.
#[export] Existing Instance model_blob_schedule.

(** The excess of a block whose parent has the blob fields. *)
Definition excess_after (parent : Header) (params : option unit) : option N :=
  match params, excess_blob_gas parent, blob_gas_used parent, base_fee_per_gas parent with
  | Some p, Some excess, Some used, Some fee => Some (next_block_excess_blob_gas_osaka (p : blob_params) excess used fee)
  | _, _, _, _ => None
  end.

#[export] Instance production : BlockProduction executor model_blob_schedule := {|
  for_eth_next_block parent a base_fee params :=
    mkEvmEnv _ (mkBlockEnv (number parent + 1) (ne_suggested_fee_recipient a) (ne_timestamp a) (ne_gas_limit a) base_fee 0 None
                  (excess_after parent params)) tt;
  calculate_block_gas_limit parent desired :=
    let delta := parent / 1024 - 1 in N.max (parent - delta) (N.min (parent + delta) desired);
  maybe_next_block_excess_blob_gas := excess_after;
  blob_gasprice b := (fun _ => 1) <$> env_excess_blob_gas b;
  max_blob_count _ := 6;
  is_validation_error _ := true;
  gas_limit_error error := if bool_decide (error = "gas"%string) then Some 0 else None |}.

(** The forks up to Prague, and the Anti-MEV fork from block 1 on. *)
Definition ethereum : EthChainSpec := {|
  is_london_active_at_block _ := true; is_paris_active_at_block _ := false;
  is_shanghai_active_at_timestamp _ := true; is_cancun_active_at_timestamp _ := true;
  is_prague_active_at_timestamp _ := true; is_amsterdam_active_at_timestamp _ := false;
  is_osaka_active_at_timestamp _ := false; is_byzantium_active_at_block _ := true;
  blob_params_at_timestamp _ := Some tt; elasticity_multiplier _ := 2 |}.
Definition spec : NeoXChainSpec :=
  mkNeoXChainSpec _ ethereum (mkGenesis (Some (model_config validators 1)) [] ZERO_B256) (model_config validators 1).

#[export] Instance production_laws : BlockProductionLaws roots production spec.
Proof.
  split; try done.
  - intros parent params excess used fee E1 E2 E3. cbn. unfold excess_after. by rewrite E1, E2, E3.
  - intros parent desired Hle limit. subst limit. cbn [calculate_block_gas_limit production].
    change GAS_LIMIT_BOUND_DIVISOR with 1024 in *. div_facts parent 1024.
    assert (1 <= parent / 1024) by (apply N.div_le_lower_bound; lia). lia.
  - intros t. cbn. by destruct (m_ty t =? TX_TYPE_EIP4844).
Qed.

(** ** A pool *)

Definition plain : transaction := mkTransaction 2 1 (validator x05) 0 21000 5 5 [].
Definition second : transaction := mkTransaction 2 2 (validator x05) 1 21000 5 4 [].
Definition envelope : transaction := mkTransaction 2 3 (validator x06) 0 60000 5 5 Ledger.envelope_data.
Definition blob : transaction := mkTransaction 3 4 (validator x07) 0 21000 5 3 [].
(** more gas than a block has, and the transaction after it *)
Definition heavy : transaction := mkTransaction 2 5 (validator x08) 0 40000000 5 5 [].
Definition after_heavy : transaction := mkTransaction 2 6 (validator x08) 1 21000 5 5 [].
Definition untipped : transaction := mkTransaction 2 7 (validator x09) 0 21000 5 0 [].

Definition pending (t : transaction) : PendingTransaction :=
  mkPendingTransaction (m_id t) (mkValidPoolTransaction t (m_sender t) (mkTransactionId (N_of_be (m_sender t)) (m_nonce t)))
    (Some (m_tip t)).

Definition best_of (l : list transaction) : BestTransactions :=
  let ps := map pending l in
  mkBestTransactions (list_to_map (map (fun p => (pending_id p, p)) ps))
    (foldr btree_insert [] (filter (fun p => id_nonce (pending_id p) = 0) ps)) ∅ (Some []) None false false.

(** A pool offers the ordinary transactions or the one without a tip. *)
Inductive offers : Type := Ordinary | Untipped.
Definition offered (pool : offers) : list transaction :=
  match pool with Ordinary => [plain; second; envelope; blob; heavy; after_heavy] | Untipped => [untipped] end.

#[export] Instance pool : TransactionPool transactions sidecars := {|
  tx_pool := offers; blob_sidecar := N; is_eip4844 _ := true; is_eip7594 _ := false; beacon_sidecar_from n := n;
  best_transactions_with_attributes pool base_fee blob_fee :=
    mkBestCandidates (best_of (offered pool)) (Some (base_fee, default 0 blob_fee));
  get_blob _ hash := Ok (Some (N_of_be hash));
  remove_transaction pool _ := (pool, true) |}.

#[local] Instance valid_pool_transaction_eq_dec : EqDecision ValidPoolTransaction.
Proof. solve_decision. Defined.
#[local] Instance pending_eq_dec : EqDecision PendingTransaction.
Proof. solve_decision. Defined.

(** What the laws ask of the candidates, in a form that computes. *)
Definition ready (b : BestTransactions) : bool :=
  bool_decide (map_Forall (fun i p => pending_id p = i) (all b)) &&
  bool_decide (Forall (fun p => all b !! pending_id p = Some p) (independent b)) &&
  bool_decide (NoDup (map pending_sender (independent b))).

Lemma ready_ok b : ready b = true -> candidates_ok (best_no_updates b).
Proof.
  unfold ready. rewrite !andb_true_iff, !bool_decide_eq_true. intros [[Hk Hi] Hn]. split; cbn; try done.
  intros p Hp. by rewrite Forall_forall in Hi; apply Hi.
Qed.

Definition well_named (b : BestTransactions) : bool :=
  bool_decide (map_Forall (fun i p => id_nonce i = m_nonce (pt_transaction (pending_transaction p)) /\
    id_sender i = N_of_be (pt_sender (pending_transaction p)) /\ length (pt_sender (pending_transaction p)) = 20%nat /\
    pt_sender (pending_transaction p) = m_sender (pt_transaction (pending_transaction p))) (all b)).

Lemma offered_ready p : ready (best_of (offered p)) = true /\ well_named (best_of (offered p)) = true.
Proof. destruct p; vm_compute; split; reflexivity. Qed.

Lemma be_bytes_stable n : be_bytes 32 (N_of_be (be_bytes 32 n)) = be_bytes 32 n.
Proof. pose proof (be_bytes_of_be (be_bytes 32 n)) as H. by rewrite length_be_bytes in H. Qed.

#[export] Instance pool_laws : TransactionPoolLaws pool.
Proof.
  split.
  - intros p base_fee blob_fee. apply ready_ok, offered_ready.
  - intros p base_fee blob_fee i q Hq. destruct (offered_ready p) as [_ H]. apply bool_decide_eq_true in H. destruct (H i q Hq) as (_ & _ & _ & E).
    cbn. by rewrite E.
  - intros p base_fee blob_fee i q Hq. destruct (offered_ready p) as [_ H]. apply bool_decide_eq_true in H.
    destruct (H i q Hq) as (E1 & E2 & L1 & _). split; [done|]. intros j r Hr. destruct (H j r Hr) as (_ & E3 & L2 & _). rewrite E2, E3.
    split; [|by intros ->]. intros E4. rewrite <- (be_bytes_of_be (pt_sender (pending_transaction q))), <- (be_bytes_of_be (pt_sender (pending_transaction r))).
    by rewrite E4, L1, L2.
  - intros p t sidecar [= <-] _. split; [done|]. apply bool_decide_eq_true_2. apply (f_equal (fun h => [h])). symmetry. apply be_bytes_stable.
Qed.

(** ** A build *)

Definition parent : Header :=
  {| parent_hash := ZERO_B256; ommers_hash := EMPTY_OMMER_ROOT_HASH; beneficiary := repeat x12 20;
     state_root := ZERO_B256; transactions_root := be_bytes 32 0; receipts_root := be_bytes 32 0;
     logs_bloom := repeat x00 256; difficulty := DIFFICULTY_IN_TURN; number := 0; gas_limit := 30000000; gas_used := 0;
     timestamp := 0; extra_data := [x00]; mix_hash := ZERO_B256; nonce := be_bytes 8 1;
     base_fee_per_gas := Some 0; withdrawals_root := Some EMPTY_ROOT_HASH; blob_gas_used := Some 0;
     excess_blob_gas := Some 0; parent_beacon_block_root := Some EMPTY_ROOT_HASH; requests_hash := Some EMPTY_REQUESTS_HASH;
     block_access_list_hash := None; slot_number := None |}.
Definition provider : ChainProvider :=
  mkChainProvider (fun _ => Ok (Some parent)) (fun _ => Ok None) (fun _ => Ok Ledger.state).
Definition round_one : DbftRoundState := mkDbftRoundState 1 validators 2 true 0 {[0 := view_default]} ∅ ∅ ∅ None None.
Definition attributes : PrimaryProposalAttributes := primary_attributes_new 0 7 Threshold.

Definition build (p : offers) : tx_pool * result PrimaryProposalError PrimaryProposal :=
  build_primary_proposal spec provider round_one attributes (p : tx_pool).
Definition no_proposal : PrimaryProposal := mkPrimaryProposal (mkDbftPrepareRequest parent [] None None) [] [].
Definition proposal : PrimaryProposal := Eval vm_compute in default no_proposal (result_ok (build Ordinary).2).
Definition bare_proposal : PrimaryProposal := Eval vm_compute in default no_proposal (result_ok (build Untipped).2).

Lemma proposal_built : build_primary_proposal spec provider round_one attributes (Ordinary : tx_pool) = (Ordinary, Ok proposal).
Proof. by_vm. Qed.
Lemma bare_built : build_primary_proposal spec provider round_one attributes (Untipped : tx_pool) = (Untipped, Ok bare_proposal).
Proof. by_vm. Qed.

(** ** What the laws leave to the chain: the committee and the key of the ledger *)

Definition read_committee : result GovernanceError GovernanceValidatorSet :=
  read_governance_validator_set_from_storage (fun key => map_err GovernanceProvider (provider_storage Ledger.state GOVERNANCE_PROXY_ADDRESS key)).
Definition committee : GovernanceValidatorSet := Eval vm_compute in default (mkGovernanceValidatorSet [] [] []) (result_ok read_committee).
Definition committee_parameters : DkgParameters := mkDkgParameters 2 2 1.
Definition read_key : result DkgStateError DkgState :=
  read_dkg_state_from_storage (fun key => map_err DkgProvider (provider_storage Ledger.state KEY_MANAGEMENT_PROXY_ADDRESS key)) committee_parameters.

Lemma committee_read : read_committee = Ok committee.
Proof. by_vm. Qed.
Lemma committee_posted bundle : post_governance bundle Ledger.state = Ok committee.
Proof. by_vm. Qed.
Lemma committee_sized : dkg_parameters_new (lenN (Storage.sorted committee)) = Ok committee_parameters.
Proof. by_vm. Qed.
Lemma key_read : is_ok read_key = true.
Proof. by_vm. Qed.

Lemma ledger_readable : dkg_readable Ledger.state.
Proof.
  pose proof key_read as H. destruct read_key as [dkg|] eqn:Ek; [|done].
  exists committee, committee_parameters, dkg. exact (conj committee_read (conj committee_sized Ek)).
Qed.

Lemma round_producible : producible (spec := spec) round_one attributes parent.
Proof.
  split; [by_vm|split; [by_vm|apply N.ltb_lt; by_vm]|intros _; by_vm|split; by_vm|by_vm|repeat split; apply N.leb_le; by_vm|].
  vm_compute. repeat split; eauto.
Qed.

Lemma proposal_admissible : admissible_block (spec := spec) proposal parent Ledger.state.
Proof.
  split.
  - intros senders Hs. vm_compute in Hs. injection Hs as <-. by_vm.
  - intros _. apply N.leb_le. by_vm.
  - intros _. exact ledger_readable.
  - intros senders bundle output nv _ _ Hg. rewrite committee_posted in Hg. injection Hg as <-. by rewrite committee_sized.
Qed.

(** ** Witnesses *)

Lemma parent_held : sealed_header_at provider (rs_height round_one - 1) = Ok (Some parent).
Proof. by_vm. Qed.
Lemma parent_state hash : state_by_block_hash provider hash = Ok Ledger.state.
Proof. exact eq_refl. Qed.
Lemma proposal_transactions : pp_transactions proposal = [plain; envelope; second; blob].
Proof. by_vm. Qed.
Lemma bare_transactions : pp_transactions bare_proposal = [untipped].
Proof. by_vm. Qed.
Lemma untipped_listed : untipped ∈ pp_transactions bare_proposal.
Proof. rewrite bare_transactions. constructor. Qed.
Lemma untipped_ty : tx_ty untipped <> TX_TYPE_EIP4844.
Proof. done. Qed.
Lemma untipped_tip : tip_cap untipped = 0.
Proof. by_vm. Qed.


Lemma proposal_contents_witness :
  exists senders, mapM AntiMev.recover_signer (pp_transactions proposal) = Some senders /\ in_order (zip (pp_transactions proposal) senders).
Proof.
  destruct (proposal_contents (spec := spec) provider round_one attributes _ _ proposal parent proposal_built parent_held)
    as (senders & Hs & Ho & _). exists senders. split; [exact Hs|exact Ho].
Defined.

Lemma untipped_proposal_refused_witness :
  pp_transactions bare_proposal = [untipped] /\
  forall v, verify_proposal spec (Some 10) (Some 10) provider (pp_request bare_proposal) (pp_transactions bare_proposal)
    (pp_sidecars bare_proposal) (primary_index round_one (pa_view attributes)) <> Ok v.
Proof.
  split; [exact bare_transactions|].
  exact (untipped_proposal_refused (spec := spec) provider round_one attributes _ _ bare_proposal untipped bare_built
    untipped_listed untipped_ty untipped_tip provider (Some 10) (Some 10) _).
Defined.

Lemma build_terminates_witness : (build Ordinary).2 <> Err ProducerFuel.
Proof. exact (build_terminates (spec := spec) provider round_one attributes _). Defined.

(** The Policy of the ledger, an account, and an executor over the ledger at its base fee. *)
Definition ledger_word (slot : N) : N := default 0 (result_ok (policy_slot Ledger.state slot)).
Definition ledger_policy : StaticPoolPolicy := Eval vm_compute in
  mkStaticPoolPolicy (ledger_word POLICY_MIN_GAS_TIP_CAP_SLOT) (ledger_word POLICY_BASE_FEE_SLOT)
    (ledger_word POLICY_ENVELOPE_FEE_SLOT) (ledger_word POLICY_MAX_ENVELOPE_GAS_LIMIT_SLOT).
Definition payer : ParentAccount := Eval vm_compute in default (mkParentAccount 0 0 false false) (result_ok (load_account Ledger.state (validator x06))).
Definition ledger_machine : machine :=
  mkMachine Ledger.state (mkBlockEnv 1 (repeat x12 20) 10 30000000 (policy_base_fee ledger_policy) 2 None None) [] 0.

Lemma ledger_policy_read : policy_of Ledger.state ledger_policy.
Proof. split_and!; by_vm. Qed.
Lemma payer_read : load_account Ledger.state (validator x06) = Ok payer.
Proof. by_vm. Qed.
Lemma envelope_accepted : validate_policy ledger_machine (tx_env envelope (validator x06)) = Ok tt.
Proof. by_vm. Qed.
Lemma ledger_bounded : policy_base_fee ledger_policy <= U64_MAX.
Proof. apply N.leb_le. by_vm. Qed.
Lemma machine_reads key :
  read_policy_storage ledger_machine key =
  map_err StateRead (let? w := provider_storage Ledger.state POLICY_PROXY_ADDRESS (u256_bytes key) in Ok (default 0 w)).
Proof. exact eq_refl. Qed.
Lemma envelope_ty : tx_ty envelope <> TX_TYPE_EIP4844 /\ tx_ty envelope <> TX_TYPE_EIP7702.
Proof. done. Qed.
Lemma envelope_cap : policy_base_fee ledger_policy <= max_fee_per_gas envelope.
Proof. done. Qed.

End Primary.
