(* ===== verification/DriverSafety.v ===== *)
(** Safety and totality of the validator driver: every handler of Driver.v is a sequence of
    small justified steps, which keep the components' invariants; no handler panics and
    the message loop ends; what the node seals and imports is certified. *)

From S2P Require Import Prelude Extern Instances Extra Validation ChainSpec Tpke Wire Payload Recovery Cache.
From S2P Require Import Protocol DkgParams Storage Round RoundProgress Sealing Journal Signer.
From S2P Require Import FutureMessages Timer AntiMev TxSync ProposalRecovery Driver.

Section safety.
Context {R : AlloyRlp} {RL : AlloyRlpLaws R} {C : Crypto} {K : Secp256k1} {B : Blst}
  {T : PooledTransactions} {V : BlockContents}.

(** ** Justified output *)

Definition seal_justified (s : SealRequest) : Prop :=
  round_reachable (seal_round s) /\ exists m, certified (seal_round s) (seal_view s) m (seal_header s).

(** An import is the sealed header of a committed view, with a verified proposal of the
    same hash. *)
Definition import_justified (sealed : Header) (verified : VerifiedProposal) : Prop :=
  exists s view final m m', round_reachable s /\ round_final_header s view = Some final /\
    sealed_header s view = Ok sealed /\ round_proposal s view = Some m /\ certified s view m final /\
    vouched (rs_height s) (rs_validators s) m' (vp_header verified) /\ message_hash m' = message_hash m.

(** A proposal is verified while it is the one of the current view, as by its primary. *)
Definition task_current (s : DbftRoundState) (t : RecoveryTask) : Prop :=
  match t with
  | TaskGetTransactions _ _ hashes => hashes <> []
  | TaskVerifyProposal view hash _ _ _ primary =>
      current_view s = view /\ message_hash <$> round_proposal s view = Some hash /\
      primary = primary_index s view
  end.

Definition task_justified (t : DriverTask) : Prop :=
  match t with
  | TaskRecovery t => exists s, round_reachable s /\ task_current s t
  | TaskReconstruct t =>
      exists s, round_reachable s /\ (exists n, progress s (task_view t) = PreCommitted (task_view t) n) /\
        message_hash <$> round_proposal s (task_view t) = Some (task_hash t) /\
        task_contributions t = round_pre_commits s (task_view t) /\ quorum s <= lenN (task_contributions t) /\
        task_threshold t = quorum s
  | TaskBuildProposal height view scheme s =>
      round_reachable s /\ rs_height s = height /\ current_view s = view /\ round_proposal s view = None /\
      scheme = (if anti_mev s then Threshold else Ecdsa)
  | TaskImport sealed verified => import_justified sealed verified
  end.

(** ** The driver's invariant *)

(** A verified proposal is for a signed proposal the round still has. *)
Definition verified_for (s : DbftRoundState) (hash : B256) (v : VerifiedProposal) : Prop :=
  exists m, message_hash m = hash /\ vouched (rs_height s) (rs_validators s) m (vp_header v).

(** Transactions are being recovered for a proposal the round has recorded. *)
Definition pending_for (s : DbftRoundState) (key : ProposalKey) : Prop :=
  message_hash <$> round_proposal s key.1 = Some key.2.

Record driver_ok (d : Driver) : Prop := {
  ok_round s : d_round d = Some s -> round_reachable s;
  ok_future : future_ok (d_future d);
  ok_recovery : recovery_ok (d_recovery d);
  ok_pending key : key ∈ recovery_keys (d_recovery d) -> exists s, d_round d = Some s /\ pending_for s key;
  ok_verified hash v : d_verified d !! hash = Some v -> exists s, d_round d = Some s /\ verified_for s hash v;
  ok_seals : Forall seal_justified (d_seals d);
  ok_tasks : Forall task_justified (d_tasks d);
}.

(** ** Small steps *)

(** Steps that leave the caches alone: a transition of the round, a signature, a seal, a
    published message, the timer, forgetting verified proposals, background tasks. *)
Inductive work : Driver -> Driver -> Prop :=
| work_round d s s' : d_round d = Some s -> round_step s s' -> work d (put_round d (Some s'))
| work_sign d s h i v t payload :
    d_signer d = Some s -> work d (put_signer d (sign_message s (next_write d) h i v t payload).1)
| work_seal d rnd s view header epoch :
    d_round d = Some rnd -> d_signer d = Some s -> seal_justified (mkSealRequest rnd view header) ->
    work d (put_signer (put_seal d (mkSealRequest rnd view header))
              (commit_for_header_at s (next_write d) header epoch).1)
| work_publish d m : work d (put_dbft d (publish (d_dbft d) m).1)
| work_timer d t : work d (put_timer d t)
| work_verified d v : v ⊆ d_verified d -> work d (put_verified d v)
| work_attempts d a task :
    Forall task_justified (map TaskReconstruct (option_list task)) -> work d (put_attempts d a task)
| work_builds d b tasks : Forall task_justified tasks -> work d (put_builds d b tasks).

Definition works : Driver -> Driver -> Prop := rtc work.

Lemma works_refl d : works d d.
Proof. apply rtc_refl. Qed.
Lemma works_trans d1 d2 d3 : works d1 d2 -> works d2 d3 -> works d1 d3.
Proof. intros H1 H2. by transitivity d2. Qed.

(** What steps keep of the round and the caches. *)
Record frame (d d' : Driver) : Prop := {
  frame_recovery : d_recovery d' = d_recovery d;
  frame_future : d_future d' = d_future d;
  frame_none : d_round d = None -> d_round d' = None;
  frame_round s : d_round d = Some s -> round_inv s ->
    exists s', d_round d' = Some s' /\ round_inv s' /\ extends s s' /\ kept s s';
  frame_signer : is_Some (d_signer d) <-> is_Some (d_signer d');
}.

Lemma work_frame d d' : work d d' -> frame d d'.
Proof.
  intros H. assert (Hk : forall s, d_round d = Some s -> round_inv s ->
    exists s', d_round d = Some s' /\ round_inv s' /\ extends s s' /\ kept s s').
  { intros s Hs Hi. exists s. split; [done|]. split; [done|]. split; [apply extends_refl|apply kept_refl]. }
  destruct H as [d s s' Hs Hst|d s ? ? ? ? ? Hs|d ? s ? ? ? ? Hs| | | | |]; constructor; try done.
  - cbn. congruence.
  - cbn. intros s0 Hs0 Hi. assert (s0 = s) as -> by congruence. exists s'. split; [done|].
    destruct (round_step_inv s s' Hi Hst). split; [done|]. split; [done|]. by apply round_step_kept.
Qed.

Lemma works_frame d d' : works d d' -> frame d d'.
Proof.
  induction 1 as [d|d1 d2 d3 H%work_frame _ IH].
  - constructor; try done. intros s Hs Hi. exists s. split; [done|]. split; [done|].
    split; [apply extends_refl|apply kept_refl].
  - destruct H as [A1 A2 A3 A4 A5], IH as [B1 B2 B3 B4 B5]. constructor; try congruence; [by auto| |by rewrite A5].
    intros s Hs Hi. destruct (A4 s Hs Hi) as (s1 & Hs1 & Hi1 & He1 & Hk1).
    destruct (B4 s1 Hs1 Hi1) as (s2 & Hs2 & Hi2 & He2 & Hk2). exists s2. split; [done|]. split; [done|].
    split; [by eapply extends_trans|by eapply kept_trans].
Qed.

(** *** Steps keep the invariant *)

Lemma pending_later s s' key : kept s s' -> pending_for s key -> pending_for s' key.
Proof.
  intros [Hk _] H. unfold pending_for in *. apply fmap_Some in H as (m & Hm & ->). by rewrite (Hk _ _ Hm).
Qed.

Lemma verified_later s s' hash v : extends s s' -> verified_for s hash v -> verified_for s' hash v.
Proof. intros He (m & Hm & Hv). destruct (same_round_votes s s' He) as (E1 & E2 & _). exists m. by rewrite <- E1, <- E2. Qed.

Lemma put_round_ok d s s' :
  driver_ok d -> d_round d = Some s -> round_reachable s' -> extends s s' -> kept s s' ->
  driver_ok (put_round d (Some s')).
Proof.
  intros [H1 H2 H3 H4 H5 H6 H7] Hs Hr He Hk. constructor; try done.
  - cbn. by intros ? [= <-].
  - cbn. intros key Hin. destruct (H4 key Hin) as (s0 & Hs0 & Hp). assert (s0 = s) as -> by congruence.
    exists s'. split; [done|]. by eapply pending_later.
  - cbn. intros hash v Hv. destruct (H5 hash v Hv) as (s0 & Hs0 & Hp). assert (s0 = s) as -> by congruence.
    exists s'. split; [done|]. by eapply verified_later.
Qed.

Lemma work_ok d d' : driver_ok d -> work d d' -> driver_ok d'.
Proof.
  intros Hok H. pose proof Hok as [H1 H2 H3 H4 H5 H6 H7].
  destruct H as [d s s' Hs Hst|d s h i v t payload Hs|d rnd s view header epoch Hr Hs Hj|d m|d t|d v Hv|d a task Ht|d b tasks Ht].
  - pose proof (H1 s Hs) as Hr. destruct (round_step_inv s s' (round_reachable_inv s Hr) Hst) as [_ He].
    apply (put_round_ok d s s'); try done; [by eapply reach_step|].
    apply round_step_kept; [by apply round_reachable_inv|done].
  - by constructor.
  - constructor; try done. cbn. by constructor.
  - by constructor.
  - by constructor.
  - constructor; try done. cbn. intros hash w Hw. apply H5. by eapply lookup_weaken.
  - constructor; try done. cbn [put_attempts d_tasks]. by apply Forall_app.
  - constructor; try done. cbn [put_builds d_tasks]. by apply Forall_app.
Qed.

Lemma works_ok d d' : driver_ok d -> works d d' -> driver_ok d'.
Proof. intros Hok H. induction H as [|d1 d2 d3 H _ IH]; [done|]. apply IH. by eapply work_ok. Qed.

(** ** Contributions are small steps *)

Lemma works_one d d' : work d d' -> works d d'.
Proof. apply rtc_once. Qed.
Lemma works_snoc d d1 d2 : works d d1 -> work d1 d2 -> works d d2.
Proof. intros H1 H2. eapply works_trans; [exact H1|by apply works_one]. Qed.

Lemma sign_works d s h i v t payload d' r :
  d_signer d = Some s -> sign d s h i v t payload = (d', r) -> works d d' /\ d_round d' = d_round d.
Proof.
  intros Hs. unfold sign. pose proof (work_sign d s h i v t payload Hs) as Hw.
  destruct (sign_message s (next_write d) h i v t payload) as [s' r']. intros [= <- <-].
  split; [by apply works_one|done].
Qed.

Lemma publish_works d m : works d (publish_message d m).
Proof. apply works_one, work_publish. Qed.

Lemma process_works d rnd m :
  driver_ok d -> d_round d = Some rnd ->
  works d (put_round d (Some (process rnd m).1)) /\
  match (process rnd m).2 with Ok p => claim (process rnd m).1 p | Err _ => True end.
Proof.
  intros Hok Hr. split; [apply works_one; by eapply work_round; [|apply step_process]|].
  apply process_answered, round_reachable_inv. by eapply ok_round.
Qed.

Lemma record_works d rnd m d' o :
  driver_ok d -> d_round d = Some rnd -> record_and_publish d rnd m = (d', o) ->
  works d d' /\ forall p, o = Some p -> exists s, d_round d' = Some s /\ claim s p.
Proof.
  intros Hok Hr. destruct (process_works d rnd m Hok Hr) as [Hw Hc]. unfold record_and_publish.
  destruct (process rnd m) as [rnd' [p|e]]; cbn [fst snd] in *; [|by intros [= <- <-]].
  destruct p; intros [= <- <-];
    first [split; [done|by intros ? [=]]
          |split; [eapply works_trans; [exact Hw|apply publish_works]|intros ? [= <-]; by exists rnd']].
Qed.

(** A local message: signed, processed, published. *)
Lemma sign_record_works d s rnd h i v t payload :
  driver_ok d -> d_round d = Some rnd -> d_signer d = Some s ->
  works d match sign d s h i v t payload with
          | (d, Err _) => d
          | (d, Ok m) => (record_and_publish d rnd m).1
          end.
Proof.
  intros Hok Hr Hs. destruct (sign d s h i v t payload) as [d1 r] eqn:E.
  destruct (sign_works _ _ _ _ _ _ _ _ _ Hs E) as [Hw Hr1]. destruct r as [m|e]; [|done].
  destruct (record_and_publish d1 rnd m) as [d2 o] eqn:E2. cbn [fst].
  destruct (record_works d1 rnd m d2 o) as [Hw2 _]; [by eapply works_ok|by rewrite Hr1|done|].
  by eapply works_trans.
Qed.

Lemma precommit_works d rnd p :
  driver_ok d -> d_round d = Some rnd -> works d (maybe_publish_antimev_precommit d p).
Proof.
  intros Hok Hr. unfold maybe_publish_antimev_precommit. rewrite Hr.
  destruct p as [| |view h n|view n|view n|view n]; try apply works_refl;
    (destruct (d_signer d) as [s|] eqn:Hs; [|apply works_refl]);
    (destruct (signer_validator_index s (rs_validators rnd)) as [i|]; [|apply works_refl]);
    (destruct (has_pre_commit rnd view i); [apply works_refl|]);
    match goal with |- works _ (match ?o with _ => _ end) => destruct o as [pc|]; [|apply works_refl] end;
    by apply sign_record_works.
Qed.

Lemma seal_works d rnd s i view header head :
  driver_ok d -> d_round d = Some rnd -> d_signer d = Some s -> seal_justified (mkSealRequest rnd view header) ->
  works d (seal_and_publish d rnd s i view header head).
Proof.
  intros Hok Hr Hs Hj. unfold seal_and_publish.
  set (epoch := (fun st => share_epoch_of (current st) head) <$> rs_dkg_state rnd).
  pose proof (work_seal d rnd s view header epoch Hr Hs Hj) as Hw.
  change (next_write (put_seal d (mkSealRequest rnd view header))) with (next_write d).
  destruct (commit_for_header_at s (next_write d) header epoch) as [s' [c|e]]; cbn [fst] in Hw;
    [|by apply works_one].
  eapply works_trans; [by apply works_one|].
  apply sign_record_works; [eapply work_ok; [exact Hok|exact Hw]|done|done].
Qed.

Lemma pre_commit_seal_justified d rnd view n header :
  driver_ok d -> d_round d = Some rnd -> claim rnd (PreCommitted view n) ->
  round_final_header rnd view = Some header -> seal_justified (mkSealRequest rnd view header).
Proof.
  intros Hok Hr Hc Hf. pose proof (ok_round d Hok rnd Hr) as Hreach. split; [done|].
  cbn [seal_round seal_view seal_header].
  destruct (final_header_proposal rnd view header (round_reachable_inv rnd Hreach) Hf) as (m & Hm & Hv).
  destruct (claim_pre_committed rnd view n Hc) as (m' & l & count & k & Hm' & Hl & Hk).
  assert (m' = m) as -> by congruence. exists m. split; [done|]. split; [by exists l|]. intros _. by exists count, k.
Qed.

Lemma antimev_commit_works d rnd p :
  driver_ok d -> d_round d = Some rnd -> claim rnd p -> works d (maybe_publish_antimev_commit d p).
Proof.
  intros Hok Hr Hc. unfold maybe_publish_antimev_commit. rewrite Hr.
  destruct p as [| | |view n| |]; try apply works_refl. destruct (d_signer d) as [s|] eqn:Hs; [|apply works_refl].
  destruct (signer_validator_index s (rs_validators rnd)) as [i|]; [|apply works_refl].
  destruct (has_commit rnd view i); [apply works_refl|].
  destruct (round_final_header rnd view) as [header|] eqn:Hf; cbn [mbind option_bind]; [|apply works_refl].
  destruct (round_proposal rnd view) as [m|] eqn:Hm; [|apply works_refl]. cbn [mbind option_bind].
  destruct (d_verified d !! message_hash m) as [verified|]; [|apply works_refl]. cbn [mbind option_bind].
  apply seal_works; try done. by eapply pre_commit_seal_justified.
Qed.

Lemma pre_antimev_commit_works d rnd p :
  driver_ok d -> d_round d = Some rnd -> claim rnd p -> works d (maybe_publish_pre_antimev_commit d p).
Proof.
  intros Hok Hr Hc. unfold maybe_publish_pre_antimev_commit. rewrite Hr.
  destruct p as [| |view hash n| | |]; try apply works_refl. destruct (d_signer d) as [s|] eqn:Hs; [|apply works_refl].
  destruct (anti_mev rnd) eqn:Ha; [apply works_refl|].
  destruct (signer_validator_index s (rs_validators rnd)) as [i|]; [|apply works_refl].
  destruct (d_verified d !! hash) as [verified|] eqn:Hv; [|apply works_refl]. apply seal_works; try done.
  destruct (ok_verified d Hok hash verified Hv) as (rnd' & Hr' & m & <- & Hm).
  assert (rnd' = rnd) as -> by congruence. split; [by apply (ok_round d Hok)|]. exists m.
  split; [done|]. split; [by apply (claim_prepared _ _ _ n)|]. cbn. congruence.
Qed.

Lemma works_round d d' rnd :
  driver_ok d -> d_round d = Some rnd -> works d d' ->
  exists rnd', d_round d' = Some rnd' /\ extends rnd rnd' /\ kept rnd rnd'.
Proof.
  intros Hok Hr Hw. pose proof (round_reachable_inv rnd (ok_round d Hok rnd Hr)) as Hi.
  destruct (frame_round d d' (works_frame d d' Hw) rnd Hr Hi) as (s' & ? & _ & ? & ?). by exists s'.
Qed.

Lemma contribution_works d rnd p :
  driver_ok d -> d_round d = Some rnd -> claim rnd p -> works d (maybe_publish_consensus_contribution d p).
Proof.
  intros Hok Hr Hc. unfold maybe_publish_consensus_contribution. rewrite Hr. cbv zeta.
  set (d1 := if anti_mev rnd then _ else _).
  assert (Hw : works d d1).
  { subst d1. destruct (anti_mev rnd); [|by eapply pre_antimev_commit_works].
    pose proof (precommit_works d rnd p Hok Hr) as Hw. eapply works_trans; [exact Hw|].
    destruct (works_round d _ rnd Hok Hr Hw) as (rnd' & Hr' & He & Hk).
    eapply antimev_commit_works; [by eapply works_ok|exact Hr'|by eapply claim_later]. }
  destruct (match local_index_of d with Some i => contributed rnd i | None => false end); [done|].
  destruct (local_index_of d) as [i|]; [|done]. destruct (d_round d1) as [rnd'|]; [|done].
  destruct (contributed rnd' i); [|done]. eapply works_snoc; [exact Hw|apply work_timer].
Qed.

(** ** Background work is justified *)

Lemma schedule_works env d rnd view :
  driver_ok d -> d_round d = Some rnd -> works d (anti_mev_schedule env d rnd view).
Proof.
  intros Hok Hr. unfold anti_mev_schedule.
  destruct (reconstructor_schedule (d_attempts d) rnd view (d_verified d) (env_now env)) as [a task] eqn:E.
  apply works_one, work_attempts. destruct task as [t|]; [|constructor]. constructor; [|constructor].
  unfold reconstructor_schedule in E. destruct (_ || _); [done|].
  pose proof (progress_view rnd view) as Hv. destruct (progress rnd view) as [| | |w n| |] eqn:Ep; try done. subst w.
  destruct (message_hash <$> round_proposal rnd view) as [hash|] eqn:Eh; [|done].
  destruct (rs_dkg_state rnd) as [st|]; [|done].
  destruct (N.ltb_spec (lenN (round_pre_commits rnd view)) (quorum rnd)); [done|].
  destruct (d_verified d !! hash) as [v|]; [|done].
  destruct (attempt_begin _ _ _) as [a' []]; [injection E as _ <-|done].
  exists rnd. cbn. split; [by apply (ok_round d Hok)|]. split; [by exists n|]. by split_and!.
Qed.

Lemma import_works d rnd view :
  driver_ok d -> d_round d = Some rnd -> works d (schedule_committed_proposal d rnd view).1.
Proof.
  intros Hok Hr. unfold schedule_committed_proposal. pose proof (progress_view rnd view) as Hv.
  destruct (progress rnd view) as [| | | |w n|] eqn:Ep; try apply works_refl. subst w.
  destruct (round_proposal rnd view) as [m|] eqn:Em; cbn [fmap option_fmap option_map]; [|apply works_refl].
  destruct (sealed_header rnd view) as [sealed|] eqn:Es; [|apply works_refl].
  destruct (d_verified d !! message_hash m) as [verified|] eqn:Ev; [|apply works_refl]. cbn [fst].
  eapply works_snoc; [apply works_one, work_verified, delete_subseteq|].
  apply (work_builds (put_verified d _) (d_builds d)). constructor; [|constructor].
  destruct (ok_verified d Hok _ _ Ev) as (rnd' & Hr' & m' & Hh & Hm'). assert (rnd' = rnd) as -> by congruence.
  pose proof (ok_round d Hok rnd Hr) as Hreach.
  assert (exists final, round_final_header rnd view = Some final) as [final Hf].
  { unfold sealed_header in Es. apply result_bind_Ok in Es as (v & Hv & Es). apply ok_or_Ok in Hv.
    apply result_bind_Ok in Es as (h & Hh' & _). apply ok_or_Ok in Hh'. exists h.
    unfold round_final_header. by rewrite Hv. }
  destruct (committed_certified rnd view final (round_reachable_inv rnd Hreach) ltac:(by exists n) Hf) as (m0 & Hm0 & Hcert).
  assert (m0 = m) as -> by congruence. exists rnd, view, final, m, m'. by split_and!.
Qed.

Lemma primary_works d : driver_ok d -> works d (maybe_schedule_primary_proposal d).
Proof.
  intros Hok. unfold maybe_schedule_primary_proposal. destruct (d_round d) as [rnd|] eqn:Hr; [|apply works_refl].
  destruct (d_signer d) as [s|]; [|apply works_refl].
  destruct (signer_validator_index s (rs_validators rnd)) as [i|]; [|apply works_refl].
  destruct (negb _); [apply works_refl|]. cbn [orb]. case_bool_decide as Hp; [apply works_refl|].
  cbv zeta. case_bool_decide; [apply works_refl|]. apply works_one, work_builds. constructor; [|constructor].
  split; [by apply (ok_round d Hok)|]. split; [done|]. split; [done|]. split; [|done]. by apply eq_None_not_Some.
Qed.

Lemma schedule_round env d rnd view : d_round (anti_mev_schedule env d rnd view) = d_round d.
Proof. unfold anti_mev_schedule. by destruct (reconstructor_schedule _ _ _ _ _). Qed.

Lemma follow_verified_works env d rnd view p :
  driver_ok d -> d_round d = Some rnd -> claim rnd p -> works d (follow_verified env d view p).1.
Proof.
  intros Hok Hr Hc. unfold follow_verified. pose proof (contribution_works d rnd p Hok Hr Hc) as Hw.
  set (d1 := maybe_publish_consensus_contribution d p) in *. pose proof (works_ok _ _ Hok Hw) as Hok1.
  destruct (d_round d1) as [rnd1|] eqn:Hr1; [|done].
  pose proof (schedule_works env d1 rnd1 view Hok1 Hr1) as Hw1. eapply works_trans; [exact Hw|].
  eapply works_trans; [exact Hw1|]. apply import_works; [by eapply works_ok|by rewrite schedule_round].
Qed.

Lemma follow_progress_works env d rnd p :
  driver_ok d -> d_round d = Some rnd -> claim rnd p -> works d (follow_progress env d p).
Proof.
  intros Hok Hr Hc. unfold follow_progress.
  destruct (d_round (maybe_publish_consensus_contribution d p)) as [rnd1|] eqn:Hr1; [|by eapply contribution_works].
  set (view := match p with Committed view _ => view | _ => current_view rnd1 end).
  pose proof (follow_verified_works env d rnd view p Hok Hr Hc) as H. unfold follow_verified in H. by rewrite Hr1 in H.
Qed.

(** ** Recovery and view changes are small steps *)

Lemma recovery_message_works env d rnd s :
  d_signer d = Some s -> works d (publish_recovery_message env d rnd s).
Proof.
  intros Hs. unfold publish_recovery_message.
  destruct (signer_validator_index s (rs_validators rnd)) as [i|]; [|apply works_refl].
  destruct (recovery_message rnd _ i) as [r|]; [|apply works_refl].
  destruct (sign d s _ _ _ _ _) as [d1 [m|e]] eqn:E; destruct (sign_works _ _ _ _ _ _ _ _ _ Hs E) as [Hw _]; [|done].
  eapply works_trans; [exact Hw|apply publish_works].
Qed.

Lemma recovery_request_works env d rnd s i :
  d_signer d = Some s -> works d (publish_recovery_request env d rnd s i).
Proof.
  intros Hs. unfold publish_recovery_request.
  destruct (sign d s _ _ _ _ _) as [d1 [m|e]] eqn:E; destruct (sign_works _ _ _ _ _ _ _ _ _ Hs E) as [Hw _]; [|done].
  eapply works_trans; [exact Hw|apply publish_works].
Qed.

Lemma respond_works env d rnd m : works d (maybe_respond_to_recovery_request env d rnd m).
Proof.
  unfold maybe_respond_to_recovery_request. destruct (d_signer d) as [s|] eqn:Hs; [|apply works_refl].
  destruct (consensus_data m) as [data|]; [|apply works_refl]. destruct (_ || _); [apply works_refl|].
  destruct (signer_validator_index s (rs_validators rnd)) as [i|]; [|apply works_refl].
  destruct (recovery_response_allowed _ _ _ _); [by apply recovery_message_works|apply works_refl].
Qed.

Lemma respond_round env d rnd m : d_round (maybe_respond_to_recovery_request env d rnd m) = d_round d.
Proof.
  unfold maybe_respond_to_recovery_request. destruct (d_signer d) as [s|]; [|done].
  destruct (consensus_data m) as [data|]; [|done]. destruct (_ || _); [done|].
  unfold publish_recovery_message. destruct (signer_validator_index s (rs_validators rnd)) as [i|]; [|done].
  destruct (recovery_response_allowed _ _ _ _); [|done]. destruct (recovery_message rnd _ i); [|done].
  unfold sign. by destruct (sign_message _ _ _ _ _ _ _) as [? [|]].
Qed.

(** The outcome tells whether the view moved, and it only moves up. *)
Lemma change_view_works env d rnd reason d' outcome :
  driver_ok d -> d_round d = Some rnd -> publish_local_change_view env d rnd reason = (d', outcome) ->
  works d d' /\ exists rnd', d_round d' = Some rnd' /\
    (changed_view outcome = true -> current_view rnd < current_view rnd').
Proof.
  intros Hok Hr. assert (Hsame : works d d /\ exists rnd', d_round d = Some rnd' /\
    (false = true -> current_view rnd < current_view rnd')) by (split; [apply works_refl|by exists rnd]).
  unfold publish_local_change_view. destruct (d_signer d) as [s|] eqn:Hs; [|by intros [= <- <-]].
  destruct (signer_validator_index s (rs_validators rnd)) as [i|]; [|by intros [= <- <-]]. cbv zeta.
  destruct (checked_add U8_MAX (current_view rnd) 1) as [next|]; [|by intros [= <- <-]].
  destruct (rs_messages rnd !! _) as [m|].
  { intros [= <- <-]. split; [|by exists rnd]. eapply works_snoc; [apply publish_works|apply work_timer]. }
  destruct (sign d s _ _ _ _ _) as [d1 [m|e]] eqn:E; destruct (sign_works _ _ _ _ _ _ _ _ _ Hs E) as [Hw Hr1];
    [|intros [= <- <-]; split; [done|]; exists rnd; split; [congruence|done]].
  assert (Hok1 : driver_ok d1) by (by eapply works_ok). assert (Hr1' : d_round d1 = Some rnd) by congruence.
  destruct (process_works d1 rnd m Hok1 Hr1') as [Hw1 _].
  pose proof (process_fuel_inv 2 rnd m (round_reachable_inv rnd (ok_round d Hok rnd Hr))) as [_ (_ & Hle & _)].
  change (process_fuel 2) with process in Hle.
  destruct (process rnd m) as [rnd' [p|e]]; cbn [fst] in *; intros [= <- <-].
  - split; [|exists rnd'; split; [done|]; cbn [changed_view]].
    + eapply works_trans; [exact Hw|]. eapply works_trans; [exact Hw1|].
      eapply works_snoc; [apply publish_works|apply work_timer].
    + intros Hne%negb_true_iff%N.eqb_neq. lia.
  - split; [by eapply works_trans|]. by exists rnd'.
Qed.

(** ** Steps that touch the caches *)

Inductive move : Driver -> Driver -> Prop :=
| move_work d d' : work d d' -> move d d'
| move_future d f : future_ok f -> move d (put_future d f)
| move_recovery d r tasks :
    recovery_ok r ->
    (forall key, key ∈ recovery_keys r -> exists s, d_round d = Some s /\ pending_for s key) ->
    Forall task_justified (map TaskRecovery tasks) -> move d (put_recovery d r tasks)
| move_verified d s hash v :
    d_round d = Some s -> verified_for s hash v -> move d (put_verified d (<[hash := v]> (d_verified d)))
| move_activate env d number st (update : bool) :
    number <= U64_MAX -> d_verified d = ∅ -> recovery_keys (d_recovery d) = ∅ ->
    move d (activate_dbft_round env
              (if update then put_dbft d (update_height (d_dbft d) number) else d) number st).

Definition moves : Driver -> Driver -> Prop := rtc move.

Lemma moves_refl d : moves d d.
Proof. apply rtc_refl. Qed.
Lemma moves_trans d1 d2 d3 : moves d1 d2 -> moves d2 d3 -> moves d1 d3.
Proof. intros H1 H2. by transitivity d2. Qed.
Lemma moves_one d d' : move d d' -> moves d d'.
Proof. apply rtc_once. Qed.
Lemma works_moves d d' : works d d' -> moves d d'.
Proof. induction 1 as [|d1 d2 d3 H _ IH]; [apply moves_refl|]. eapply rtc_l; [by apply move_work|done]. Qed.

(** What an activation leaves: another round, or none. *)
Lemma activate_frame env d number st :
  exists o dbft, activate_dbft_round env d number st = put_round (put_dbft d dbft) o /\
    forall s, o = Some s -> round_reachable s.
Proof.
  unfold activate_dbft_round.
  assert (Hfail : forall dbft, exists o dbft', put_round (put_dbft (put_dbft d dbft) (deactivate dbft)) None
    = put_round (put_dbft d dbft') o /\ forall s, o = Some s -> round_reachable s)
    by (intros dbft; exists None, (deactivate dbft); done).
  destruct (checked_add U64_MAX number 1) as [next|]; [|by exists None, (deactivate (d_dbft d))].
  destruct st as [st|]; [|by exists None, (deactivate (d_dbft d))].
  destruct (read_governance_validator_set_from_storage _) as [set|]; [|by exists None, (deactivate (d_dbft d))].
  destruct (activate (d_dbft d) number (Storage.sorted set)) as [dbft [u|e]]; [|apply Hfail].
  destruct (activated_round env next set st) as [rnd|] eqn:E; [|apply Hfail].
  exists (Some rnd), dbft. split; [done|]. intros s [= <-]. unfold activated_round in E.
  apply bind_Some in E as (r0 & H0 & E).
  assert (H0' : round_new next (Storage.sorted set) (is_anti_mev_active_at_block env next) = Ok r0)
    by (destruct (round_new _ _ _); simplify_eq/=; done).
  destruct (is_anti_mev_active_at_block env next); [|injection E as <-; by eapply reach_new].
  apply bind_Some in E as (ps & _ & E). apply bind_Some in E as (dkg & _ & E).
  destruct (install_dkg_state r0 _ dkg) as [r1 [[]|]] eqn:Ei; [|done]. injection E as <-. by eapply reach_install.
Qed.

Lemma move_ok d d' : driver_ok d -> move d d' -> driver_ok d'.
Proof.
  intros Hok H. destruct H as [d d' Hw|d f Hf|d r tasks Hr Hp Ht|d s hash v Hs Hv|env d number st update _ Hv Hk].
  - by eapply work_ok.
  - destruct Hok. by constructor.
  - destruct Hok. constructor; try done. cbn [put_recovery d_tasks]. by apply Forall_app.
  - destruct Hok as [H1 H2 H3 H4 H5 H6 H7]. constructor; try done. cbn. intros h w Hw.
    destruct (decide (hash = h)) as [<-|Hne]; [rewrite lookup_insert_eq in Hw; injection Hw as <-; by exists s|].
    rewrite lookup_insert_ne in Hw by done. by apply H5.
  - set (d0 := if update then _ else _). destruct (activate_frame env d0 number st) as (o & dbft & -> & Hreach).
    assert (E : put_round (put_dbft d0 dbft) o = put_round (put_dbft d dbft) o) by (by destruct update).
    rewrite E. destruct Hok as [H1 H2 H3 H4 H5 H6 H7]. constructor; try done; cbn.
    + intros key. rewrite Hk. set_solver.
    + intros hash w. rewrite Hv. by rewrite lookup_empty.
Qed.

Lemma moves_ok d d' : driver_ok d -> moves d d' -> driver_ok d'.
Proof. intros Hok H. induction H as [|d1 d2 d3 H _ IH]; [done|]. apply IH. by eapply move_ok. Qed.

(** ** The pieces of the handlers *)

Lemma clear_moves d : driver_ok d -> moves d (clear_recovery d) /\ recovery_keys (d_recovery (clear_recovery d)) = ∅.
Proof.
  intros Hok. split; [|apply keys_clear]. apply moves_one, move_recovery; [by apply recovery_clear_ok, ok_recovery| |constructor].
  intros key. rewrite keys_clear. set_solver.
Qed.

Lemma later_moves d peer m : driver_ok d -> moves d (cache_message_for_later d peer m).
Proof.
  intros Hok. apply moves_one, move_future. destruct (cache_future_dbft_message (d_future d) peer m) as [f b] eqn:E.
  apply (cache_future_spec (d_future d) peer m f b) in E; [by destruct E|by apply ok_future].
Qed.

Lemma concat_length {A} (l : list (list A)) n :
  Forall (fun row => lenN row = n) l -> lenN (concat l) = lenN l * n.
Proof.
  induction 1 as [|row l Hr _ IH]; [done|]. cbn [concat]. unfold lenN in *. rewrite length_app. cbn [length]. lia.
Qed.

Lemma length_omap_le {A A'} (g : A -> option A') l : (length (omap g l) <= length l)%nat.
Proof. induction l as [|x l IH]; [done|]. cbn. destruct (g x); cbn; lia. Qed.

Lemma drained_length f height :
  future_ok f -> (length (drain_cached_dbft_messages f height).2 <= N.to_nat CACHED_SLOTS)%nat.
Proof.
  intros Hok. unfold drain_cached_dbft_messages, take_height.
  destruct (heights f !! height) as [b|] eqn:E; cbn [snd]; [|cbn; lia].
  destruct (future_buckets f Hok _ _ E) as [Hr Hc _]. pose proof (concat_length b _ Hc) as Hl.
  rewrite Hr in Hl. pose proof (length_omap_le id (concat b)) as Hle. unfold bucket_entries, lenN, CACHED_SLOTS in *. lia.
Qed.

Lemma drain_moves d height d' l :
  driver_ok d -> drain d height = (d', l) ->
  moves d d' /\ d_round d' = d_round d /\ d_recovery d' = d_recovery d /\ (length l <= N.to_nat CACHED_SLOTS)%nat.
Proof.
  intros Hok. unfold drain. pose proof (drained_length (d_future d) height (ok_future d Hok)) as Hl.
  pose proof (drain_spec (d_future d) height (ok_future d Hok)) as (Hf & _).
  destruct (drain_cached_dbft_messages (d_future d) height) as [f k]. intros [= <- <-].
  split; [by apply moves_one, move_future|done].
Qed.

(** ** How much is pending *)

Lemma consensus_view_bound m d : consensus_data m = Ok d -> view_number d <= U8_MAX.
Proof.
  unfold consensus_data. intros (d' & H & Hd)%result_bind_Ok.
  assert (d' = d) as -> by (destruct (negb _); [done|by injection Hd]). clear Hd.
  unfold decode_exact in H. apply result_bind_Ok in H as ([d'' rest] & H & Hd).
  assert (d'' = d) as -> by (destruct rest; [by injection Hd|done]). clear Hd.
  cbn [dec consensus_data_codec] in H. unfold consensus_data_decode in H.
  do 5 (apply result_bind_Ok in H as ([? ?] & ? & H)). apply result_bind_Ok in H as ([? p] & ? & H).
  destruct p; [|done]. apply result_bind_Ok in H as (t & _ & [= <- _]). cbn [view_number].
  by eapply rlp_u8_bound.
Qed.

Lemma proposal_view_bound s view m : round_inv s -> round_proposal s view = Some m -> view <= U8_MAX.
Proof.
  intros Hi Hm. unfold round_proposal in Hm. destruct (views s !! view) as [v|] eqn:Hv; [|done].
  pose proof (vo_proposal s view v (ri_views s Hi _ _ Hv) m Hm) as Hr.
  destruct (ri_retained s Hi _ _ Hr) as (d & p & (_ & _ & _ & Hd & _) & Hk). injection Hk as <- _ _.
  by eapply consensus_view_bound.
Qed.

(** One proposal per view. *)
Lemma pending_few d :
  driver_ok d -> (base.size (pending (transactions (d_recovery d))) <= 256)%nat.
Proof.
  intros Hok. rewrite <- (size_dom (D := gset ProposalKey)). change (dom _) with (recovery_keys (d_recovery d)).
  destruct (d_round d) as [s|] eqn:Hr.
  - set (hash v := default [] (message_hash <$> round_proposal s v)).
    set (l := map (fun v => (N.of_nat v, hash (N.of_nat v)) : ProposalKey) (seq 0 256)).
    transitivity (base.size (list_to_set l : gset ProposalKey)).
    + apply subseteq_size. intros [v h] Hin. apply elem_of_list_to_set, list_elem_of_fmap.
      destruct (ok_pending d Hok _ Hin) as (s' & Hs' & Hp). assert (s' = s) as -> by congruence.
      unfold pending_for in Hp. cbn [fst snd] in Hp. exists (N.to_nat v). rewrite N2Nat.id.
      apply fmap_Some in Hp as (m & Hm & ->). split; [by unfold hash; rewrite Hm|]. apply elem_of_seq.
      pose proof (proposal_view_bound s v m (round_reachable_inv s (ok_round d Hok s Hr)) Hm). unfold U8_MAX in *. lia.
    + subst l. generalize (seq 0 256) as l, (eq_refl : length (seq 0 256) = 256%nat). intros l <-.
      induction l as [|x l IH]; [done|]. cbn [map list_to_set length].
      pose proof (size_union_alt ({[((N.of_nat x, hash (N.of_nat x)) : ProposalKey)]} : gset ProposalKey)
        (list_to_set (map (fun v => (N.of_nat v, hash (N.of_nat v)) : ProposalKey) l))) as E. rewrite E.
      rewrite size_singleton. etransitivity; [|apply le_n_S, IH]. apply le_n_S, subseteq_size. set_solver.
  - assert (recovery_keys (d_recovery d) = ∅) as ->; [|rewrite size_empty; lia].
    apply set_eq. intros key. split; [|set_solver]. intros Hin.
    destruct (ok_pending d Hok key Hin) as (s & ? & _). congruence.
Qed.

(** ** The message loop *)

Lemma tasks_justified rnd tasks :
  round_reachable rnd -> Forall (task_ok rnd) tasks -> Forall task_justified (map TaskRecovery tasks).
Proof.
  intros Hr Ht. apply Forall_fmap. eapply Forall_impl; [exact Ht|]. intros t Hok. exists rnd. split; [done|].
  destruct t as [|view hash request txs sidecars primary]; [done|]. by destruct Hok as (? & ? & ? & _).
Qed.

Lemma dispatched_moves d rnd o :
  driver_ok d -> d_round d = Some rnd -> dispatched (d_recovery d) rnd o ->
  (forall r tasks, o = Some (r, tasks) -> recovery_keys r ⊆ recovery_keys (d_recovery d)) ->
  exists r tasks, o = Some (r, tasks) /\ moves d (put_recovery d r tasks).
Proof.
  intros Hok Hr (r & tasks & -> & Hrok & Ht & _) Hk. exists r, tasks. split; [done|].
  apply moves_one, move_recovery; [done| |].
  - intros key Hin. apply (ok_pending d Hok). by apply (Hk r tasks).
  - apply (tasks_justified rnd); [by apply (ok_round d Hok)|done].
Qed.

Lemma primary_frame d :
  d_round (maybe_schedule_primary_proposal d) = d_round d /\
  d_recovery (maybe_schedule_primary_proposal d) = d_recovery d.
Proof.
  unfold maybe_schedule_primary_proposal. destruct (d_round d) as [rnd|] eqn:E; [|done].
  destruct (d_signer d) as [s|]; [|done]. destruct (signer_validator_index s (rs_validators rnd)); [|done].
  destruct (_ || _); [done|]. cbv zeta. by case_bool_decide.
Qed.

Lemma enter_view_moves d rnd d' l :
  driver_ok d -> enter_view d rnd = (d', l) ->
  moves d d' /\ d_round d' = d_round d /\ recovery_keys (d_recovery d') = ∅ /\
  (length l <= N.to_nat CACHED_SLOTS)%nat.
Proof.
  intros Hok. unfold enter_view. destruct (clear_moves d Hok) as [Hm Hk].
  set (d1 := put_attempts (put_verified (clear_recovery d) ∅) (reconstructor_clear (d_attempts d)) None).
  set (d2 := put_timer d1 _).
  assert (Hw : works (clear_recovery d) d2).
  { eapply works_snoc; [|apply work_timer]. eapply works_snoc; [apply works_one, work_verified, map_empty_subseteq|].
    by apply work_attempts. }
  pose proof (moves_ok _ _ Hok Hm) as Hok1. pose proof (works_ok _ _ Hok1 Hw) as Hok2.
  pose proof (primary_works d2 Hok2) as Hw2. destruct (primary_frame d2) as [E1 E2].
  intros (Hm3 & Er & Ek & Hl)%drain_moves; [|by eapply works_ok].
  split; [|rewrite Er, Ek, E1, E2; done].
  eapply moves_trans; [exact Hm|]. eapply moves_trans; [by apply works_moves|].
  eapply moves_trans; [by apply works_moves|exact Hm3].
Qed.

Lemma reject_moves env d rnd reason d' outcome :
  driver_ok d -> d_round d = Some rnd -> reject_proposal env d rnd reason = (d', outcome) ->
  moves d d' /\ exists rnd', d_round d' = Some rnd' /\ current_view rnd <= current_view rnd' /\
    (changed_view outcome = true -> current_view rnd < current_view rnd').
Proof.
  intros Hok Hr H. unfold reject_proposal in H. destruct (clear_moves d Hok) as [Hm _].
  pose proof (moves_ok _ _ Hok Hm) as Hok1.
  destruct (change_view_works _ (clear_recovery d) rnd _ _ _ Hok1 Hr H) as (Hw & rnd' & Hr' & Hlt).
  split; [eapply moves_trans; [exact Hm|by apply works_moves]|]. exists rnd'. split; [done|]. split; [|done].
  destruct (works_round _ _ rnd Hok1 Hr Hw) as (rnd'' & Hr'' & (_ & Hle & _) & _).
  assert (rnd'' = rnd') as -> by congruence. done.
Qed.

(** Messages replayed are paid for by the views passed. *)
Definition paid (rnd rnd' : DbftRoundState) (l : list CachedEntry) : Prop :=
  current_view rnd <= current_view rnd' /\
  (length l <= N.to_nat ((current_view rnd' - current_view rnd) * CACHED_SLOTS))%nat.

Lemma paid_nil rnd rnd' : current_view rnd <= current_view rnd' -> paid rnd rnd' [].
Proof. intros H. split; [done|]. apply Nat.le_0_l. Qed.

Lemma paid_app r1 r2 r3 l k : paid r1 r2 l -> paid r2 r3 k -> paid r1 r3 (l ++ k).
Proof.
  intros [H1 H2] [H3 H4]. split; [by etransitivity|]. rewrite length_app.
  replace (current_view r3 - current_view r1)
    with (current_view r2 - current_view r1 + (current_view r3 - current_view r2)) by lia.
  rewrite N.mul_add_distr_r, N2Nat.inj_add. lia.
Qed.

Lemma paid_once rnd rnd' l :
  current_view rnd < current_view rnd' -> (length l <= N.to_nat CACHED_SLOTS)%nat -> paid rnd rnd' l.
Proof.
  intros H Hl. split; [lia|]. etransitivity; [exact Hl|]. generalize CACHED_SLOTS. intros n. nia.
Qed.

Lemma recover_proposal_total env d rnd peer previous :
  driver_ok d -> d_round d = Some rnd ->
  (forall hash, previous <> Some hash -> (current_view rnd, hash) ∈ recovery_keys (d_recovery d) ->
     message_hash <$> round_proposal rnd (current_view rnd) <> Some hash) ->
  exists d' l rnd', recover_proposal env d rnd peer previous = Some (d', l) /\ moves d d' /\
    d_round d' = Some rnd' /\ paid rnd rnd' l.
Proof.
  intros Hok Hr Hfresh. unfold recover_proposal.
  assert (Hnil : paid rnd rnd []) by (by apply paid_nil). cbv zeta.
  destruct (round_proposal rnd (current_view rnd)) as [m|] eqn:Em;
    [|exists d, [], rnd; by split_and!; [|apply moves_refl| |]].
  case_bool_decide as Hprev.
  - destruct (dispatched_moves d rnd _ Hok Hr (observe_source_ok (env_send env) (d_recovery d) peer
      (current_view rnd) (message_hash m) rnd (env_now env) (ok_recovery d Hok))) as (r & tasks & -> & Hm).
    { intros r tasks. apply keys_observe. }
    exists (put_recovery d r tasks), [], rnd. by split_and!.
  - destruct (accepted_request m) as [request|]; [|exists d, [], rnd; by split_and!; [|apply moves_refl| |]].
    set (peers := env_peers env _).
    pose proof (recovery_begin_ok (env_send env) (d_recovery d) peers peer (current_view rnd) (message_hash m)
      request rnd (env_local env) (env_now env) (ok_recovery d Hok)) as Hb.
    pose proof (pending_few d Hok) as Hfew.
    specialize (Hb ltac:(apply not_elem_of_dom; intros Hin; by apply (Hfresh (message_hash m) Hprev Hin))
      ltac:(unfold U64_MAX; lia)).
    destruct (recovery_begin _ _ _ _ _ _ _ _ _ _) as [[r tasks]|e] eqn:E.
    + destruct Hb as [Hrok Ht]. exists (put_recovery d r tasks), [], rnd. split; [done|]. split; [|done].
      apply moves_one, move_recovery; [done| |apply (tasks_justified rnd); [by apply (ok_round d Hok)|done]].
      intros key Hin. apply keys_begin in E. apply E, elem_of_union in Hin as [->%elem_of_singleton|Hin];
        [|by apply (ok_pending d Hok)]. exists rnd. split; [done|]. unfold pending_for. cbn. by rewrite Em.
    + destruct e; try done;
        (destruct (reject_proposal env d rnd _) as [d1 outcome] eqn:Erej;
         destruct (reject_moves _ _ _ _ _ _ Hok Hr Erej) as (Hm & rnd' & Hr' & Hle & Hlt);
         destruct (changed_view outcome);
         [destruct (drain d1 (rs_height rnd)) as [d2 l] eqn:Ed;
          destruct (drain_moves d1 _ d2 l ltac:(by eapply moves_ok) Ed) as (Hm2 & Hr2 & _ & Hl);
          exists d2, l, rnd'; split; [done|]; split; [by eapply moves_trans|]; split; [congruence|];
          apply paid_once; [by apply Hlt|done]
         |exists d1, [], rnd'; split; [done|]; split; [done|]; split; [done|]; by apply paid_nil]).
Qed.

Lemma message_total env d rnd peer m :
  driver_ok d -> d_round d = Some rnd ->
  exists d' l rnd', process_dbft_message env d rnd peer m = Some (d', l) /\ moves d d' /\
    d_round d' = Some rnd' /\ paid rnd rnd' l.
Proof.
  intros Hok Hr. unfold process_dbft_message.
  destruct (is_future_dbft_message _ _).
  { exists (cache_message_for_later d peer m), [], rnd. split; [done|]. split; [by apply later_moves|].
    split; [done|by apply paid_nil]. }
  cbv zeta. destruct (process_works d rnd m Hok Hr) as [Hw Hc].
  pose proof (round_reachable_inv rnd (ok_round d Hok rnd Hr)) as Hi.
  pose proof (process_fuel_inv 2 rnd m Hi) as [_ (_ & Hle & _)].
  pose proof (process_fuel_answered 2 rnd m Hi) as [Hkept _]. change (process_fuel 2) with process in Hle, Hkept.
  pose proof (works_ok _ _ Hok Hw) as Hok1.
  destruct (process rnd m) as [rnd1 [p|e]]; cbn [fst snd] in *.
  2:{ exists (if is_future_view_dbft_transition e then cache_message_for_later (put_round d (Some rnd1)) peer m
        else put_round d (Some rnd1)), [], rnd1. split; [done|].
      split; [|split; [by destruct (is_future_view_dbft_transition e)|by apply paid_nil]].
      eapply moves_trans; [by apply works_moves|].
      destruct (is_future_view_dbft_transition e); [by apply later_moves|apply moves_refl]. }
  set (d1 := put_round d (Some rnd1)) in *.
  pose proof (follow_progress_works env d1 rnd1 p Hok1 eq_refl Hc) as Hw2.
  destruct (works_round d1 _ rnd1 Hok1 eq_refl Hw2) as (rnd2 & Hr2 & (_ & Hle2 & _) & Hkept2).
  set (d2 := follow_progress env d1 p) in *. rewrite Hr2. cbn [mbind option_bind].
  pose proof (respond_works env d2 rnd2 m) as Hw3. pose proof (respond_round env d2 rnd2 m) as Hr3.
  set (d3 := maybe_respond_to_recovery_request env d2 rnd2 m) in *.
  assert (Hw13 : works d d3) by (eapply works_trans; [exact Hw|]; by eapply works_trans).
  pose proof (works_ok _ _ Hok Hw13) as Hok3. rewrite Hr2 in Hr3.
  destruct (N.eqb_spec (current_view rnd2) (current_view rnd)) as [Ev|Ev].
  - destruct (recover_proposal_total env d3 rnd2 peer (message_hash <$> round_proposal rnd (current_view rnd)) Hok3 Hr3)
      as (d' & l & rnd' & -> & Hm & Hr' & Hp).
    { intros hash Hne Hin _. rewrite (frame_recovery _ _ (works_frame _ _ Hw13)) in Hin.
      destruct (ok_pending d Hok _ Hin) as (s & Hs & Hpend). assert (s = rnd) as -> by congruence.
      unfold pending_for in Hpend. cbn [fst snd] in Hpend. rewrite Ev in Hpend. done. }
    cbn [mbind option_bind]. exists d', ([] ++ l), rnd'. split; [done|].
    split; [eapply moves_trans; [by apply works_moves|exact Hm]|]. split; [done|].
    eapply paid_app; [|exact Hp]. apply paid_nil. lia.
  - destruct (enter_view d3 rnd2) as [d4 replayed] eqn:Ee.
    destruct (enter_view_moves d3 rnd2 d4 replayed Hok3 Ee) as (Hm4 & Hr4 & Hk4 & Hl4).
    destruct (recover_proposal_total env d4 rnd2 peer None) as (d' & l & rnd' & -> & Hm & Hr' & Hp);
      [by eapply moves_ok|congruence|intros hash _; rewrite Hk4; set_solver|].
    cbn [mbind option_bind]. exists d', (replayed ++ l), rnd'. split; [done|]. split.
    + eapply moves_trans; [by apply works_moves|]. by eapply moves_trans.
    + split; [done|]. eapply paid_app; [|exact Hp]. apply paid_once; [lia|done].
Qed.

Lemma pending_total fuel env d rnd l :
  driver_ok d -> d_round d = Some rnd -> (loop_turns rnd l <= fuel)%nat ->
  exists d', process_pending fuel env d l = Some d' /\ moves d d'.
Proof.
  revert d rnd l. induction fuel as [|fuel IH]; intros d rnd l Hok Hr Hf;
    (destruct l as [|[peer m] l]; [exists d; split; [done|apply moves_refl]|]).
  { by apply Nat.nle_succ_0 in Hf. }
  cbn [process_pending]. rewrite Hr. cbn [mbind option_bind].
  destruct (message_total env d rnd peer m Hok Hr) as (d1 & replayed & rnd1 & -> & Hm & Hr1 & Hle & Hl).
  cbn [mbind option_bind]. destruct (IH d1 rnd1 (l ++ replayed)) as (d' & -> & Hm'); [by eapply moves_ok|done| |].
  - pose proof (round_view_bound rnd1 (ok_round d1 (moves_ok _ _ Hok Hm) rnd1 Hr1)) as Hb.
    unfold loop_turns in *. rewrite length_app. cbn [length] in Hf.
    replace (U8_MAX - current_view rnd)
      with (U8_MAX - current_view rnd1 + (current_view rnd1 - current_view rnd)) in Hf by lia.
    rewrite N.mul_add_distr_r, N2Nat.inj_add in Hf. revert Hf Hl.
    generalize (N.to_nat ((U8_MAX - current_view rnd1) * CACHED_SLOTS)),
      (N.to_nat ((current_view rnd1 - current_view rnd) * CACHED_SLOTS)). lia.
  - exists d'. split; [done|]. by eapply moves_trans.
Qed.

(** More turns change nothing. *)
Lemma pending_stable fuel n env d l d' :
  process_pending fuel env d l = Some d' -> process_pending (n + fuel) env d l = Some d'.
Proof.
  revert d l. induction fuel as [|fuel IH]; intros d l; destruct l as [|[peer m] l]; try done;
    [by destruct n|by rewrite Nat.add_comm|].
  rewrite Nat.add_succ_r. cbn [process_pending]. destruct (d_round d) as [rnd|]; [|done]. cbn [mbind option_bind].
  destruct (process_dbft_message env d rnd peer m) as [[d1 r]|]; [|done]. cbn [mbind option_bind]. apply IH.
Qed.

Lemma cache_all_moves d l :
  driver_ok d -> moves d (foldl (fun d '(peer_id, m) => cache_message_for_later d peer_id m) d l).
Proof.
  revert d. induction l as [|[peer m] l IH]; intros d Hok; [apply moves_refl|]. cbn [foldl].
  pose proof (later_moves d peer m Hok) as Hm. eapply moves_trans; [exact Hm|]. apply IH. by eapply moves_ok.
Qed.

Lemma messages_total env d l :
  driver_ok d -> exists d', process_dbft_messages env d l = Some d' /\ moves d d'.
Proof.
  intros Hok. unfold process_dbft_messages. destruct (d_round d) as [rnd|] eqn:Hr.
  - by apply (pending_total _ env d rnd).
  - eexists. split; [done|]. by apply cache_all_moves.
Qed.

Lemma replay_total env d : driver_ok d -> exists d', replay_cached_dbft_messages env d = Some d' /\ moves d d'.
Proof.
  intros Hok. unfold replay_cached_dbft_messages. destruct (d_round d) as [rnd|] eqn:Hr;
    [|exists d; split; [done|apply moves_refl]].
  set (d1 := put_future d _). assert (Hm : moves d d1)
    by (apply moves_one, move_future, prune_through_spec, ok_future, Hok).
  pose proof (moves_ok _ _ Hok Hm) as Hok1. destruct (drain d1 (rs_height rnd)) as [d2 l] eqn:E.
  destruct (drain_moves d1 _ d2 l Hok1 E) as (Hm2 & _). pose proof (moves_trans _ _ _ Hm Hm2) as H2.
  destruct l as [|x l]; [by exists d2|].
  destruct (messages_total env d2 (x :: l)) as (d' & -> & Hm3); [by eapply moves_ok|].
  exists d'. split; [done|]. by eapply moves_trans.
Qed.

(** ** The other handlers *)

(** A round accepts a final header or a pre-block only for its signed proposal. *)
Lemma finalized_for rnd view hash rnd' v u :
  round_inv rnd -> proposal_current rnd view hash = true ->
  validate_proposal_header rnd view (vp_header v) = Ok u -> extends rnd rnd' -> verified_for rnd' hash v.
Proof.
  intros Hi [_ Hp]%proposal_current_spec (m & Hm & Hh)%validate_proposal_header_Ok He.
  rewrite Hm in Hp. injection Hp as <-. apply (verified_later rnd rnd'); [done|]. exists m. split; [done|].
  by eapply header_vouched.
Qed.

Lemma finalize_proposal_validated rnd view header rnd' p :
  finalize_proposal rnd view header = (rnd', Ok p) -> exists u, validate_proposal_header rnd view header = Ok u.
Proof. unfold finalize_proposal. destruct (validate_proposal_header rnd view header); [by eexists|done]. Qed.

Lemma finalize_pre_block_validated rnd view header n rnd' p :
  finalize_pre_block rnd view header n = (rnd', Ok p) -> exists u, validate_proposal_header rnd view header = Ok u.
Proof.
  unfold finalize_pre_block. destruct (negb _); [done|].
  destruct (validate_proposal_header rnd view header); [by eexists|done].
Qed.

(** Finalizing and recording the verified proposal. *)
Lemma record_verified_moves d rnd view hash v rnd' :
  driver_ok d -> d_round d = Some rnd -> proposal_current rnd view hash = true ->
  round_step rnd rnd' -> (exists u, validate_proposal_header rnd view (vp_header v) = Ok u) ->
  moves d (put_verified (put_round d (Some rnd')) (<[hash := v]> (d_verified d))).
Proof.
  intros Hok Hr Hp Hst [u Hu]. pose proof (round_reachable_inv rnd (ok_round d Hok rnd Hr)) as Hi.
  destruct (round_step_inv rnd rnd' Hi Hst) as [_ He].
  eapply moves_trans; [apply moves_one, move_work; by eapply work_round|].
  apply moves_one, (move_verified (put_round d (Some rnd')) rnd'); [done|]. by eapply finalized_for.
Qed.

Lemma response_works env d view hash : driver_ok d -> works d (publish_prepare_response env d view hash).
Proof.
  intros Hok. unfold publish_prepare_response. destruct (d_round d) as [rnd|] eqn:Hr; [|apply works_refl].
  destruct (d_signer d) as [s|] eqn:Hs; [|apply works_refl].
  destruct (signer_validator_index s (rs_validators rnd)) as [i|]; [|apply works_refl].
  destruct (_ =? _); [apply works_refl|].
  destruct (sign d s _ _ _ _ _) as [d1 [m|e]] eqn:E; destruct (sign_works _ _ _ _ _ _ _ _ _ Hs E) as [Hw Hr1]; [|done].
  pose proof (works_ok _ _ Hok Hw) as Hok1. rewrite Hr in Hr1.
  destruct (record_and_publish d1 rnd m) as [d2 o] eqn:E2.
  destruct (record_works d1 rnd m d2 o Hok1 Hr1 E2) as [Hw2 Hc]. pose proof (works_trans _ _ _ Hw Hw2) as H2.
  destruct o as [p|]; [|done]. destruct (Hc p eq_refl) as (rnd2 & Hr2 & Hclaim).
  eapply works_trans; [exact H2|]. eapply follow_verified_works; [by eapply works_ok|done|done].
Qed.

Lemma reject_moves_1 env d rnd reason :
  driver_ok d -> d_round d = Some rnd -> moves d (reject_proposal env d rnd reason).1.
Proof.
  intros Hok Hr. destruct (reject_proposal env d rnd reason) as [d' o] eqn:E. by eapply reject_moves.
Qed.

(** After a verified proposal is recorded. *)
Lemma verified_follow_moves env d rnd view hash p :
  driver_ok d -> d_round d = Some rnd -> claim rnd p ->
  moves d (let '(d, imported) := follow_verified env d view p in
           if imported then d else publish_prepare_response env d view hash).
Proof.
  intros Hok Hr Hc. pose proof (follow_verified_works env d rnd view p Hok Hr Hc) as Hw.
  destruct (follow_verified env d view p) as [d1 []]; cbn [fst] in Hw; [by apply works_moves|].
  apply works_moves. eapply works_trans; [exact Hw|]. apply response_works. by eapply works_ok.
Qed.

Lemma verification_moves env d view hash r :
  driver_ok d -> moves d (handle_proposal_verification env d view hash r).
Proof.
  intros Hok. unfold handle_proposal_verification. destruct (d_round d) as [rnd|] eqn:Hr; [|apply moves_refl].
  destruct (proposal_current rnd view hash) eqn:Hp; cbn [negb]; [|apply moves_refl].
  destruct r as [v|e]; [|by apply reject_moves_1].
  pose proof (round_reachable_inv rnd (ok_round d Hok rnd Hr)) as Hi.
  destruct (anti_mev rnd && bool_decide (vp_anti_mev v = None)); [by apply reject_moves_1|].
  assert (Hfin : forall rnd' o, round_step rnd rnd' -> answered rnd rnd' o ->
    (forall p, o = Ok p -> exists u, validate_proposal_header rnd view (vp_header v) = Ok u) ->
    moves d match o with
            | Err _ => (reject_proposal env (put_round d (Some rnd')) rnd' TransactionInvalid).1
            | Ok p =>
                let '(d, imported) := follow_verified env
                  (put_verified (put_round d (Some rnd')) (<[hash := v]> (d_verified d))) view p in
                if imported then d else publish_prepare_response env d view hash
            end).
  { intros rnd' o Hst [_ Hc] Hval. destruct o as [p|e].
    - pose proof (record_verified_moves d rnd view hash v rnd' Hok Hr Hp Hst (Hval p eq_refl)) as Hm.
      eapply moves_trans; [exact Hm|]. apply (verified_follow_moves env _ rnd'); [by eapply moves_ok|done|done].
    - assert (Hw : work d (put_round d (Some rnd'))) by (by eapply work_round).
      eapply moves_trans; [by apply moves_one, move_work|]. apply reject_moves_1; [by eapply work_ok|done]. }
  destruct (anti_mev rnd).
  - set (n := default 0 _). pose proof (finalize_pre_block_answered rnd view (vp_header v) n Hi) as Ha.
    pose proof (step_finalize_pre_block rnd view (vp_header v) n) as Hst.
    destruct (finalize_pre_block rnd view (vp_header v) n) as [rnd' o] eqn:E. cbn [fst snd] in *.
    specialize (Hfin rnd' o Hst Ha). destruct o; apply Hfin; intros p' Hp'; [|done].
    by eapply finalize_pre_block_validated.
  - pose proof (finalize_proposal_answered rnd view (vp_header v) Hi) as Ha.
    pose proof (step_finalize_proposal rnd view (vp_header v)) as Hst.
    destruct (finalize_proposal rnd view (vp_header v)) as [rnd' o] eqn:E. cbn [fst snd] in *.
    specialize (Hfin rnd' o Hst Ha). destruct o; apply Hfin; intros p' Hp'; [|done].
    by eapply finalize_proposal_validated.
Qed.

Lemma attempts_work d a : work d (put_attempts d a None).
Proof. by apply work_attempts. Qed.

Lemma reconstruction_moves env d view hash r :
  driver_ok d -> moves d (handle_antimev_reconstruction env d view hash r).
Proof.
  intros Hok. unfold handle_antimev_reconstruction.
  set (d1 := put_attempts d (reconstructor_finish _ _ _ _) None).
  assert (Hw : work d d1) by apply attempts_work. pose proof (work_ok _ _ Hok Hw) as Hok1.
  eapply moves_trans; [by apply moves_one, move_work|]. clearbody d1. clear Hw Hok d. rename d1 into d, Hok1 into Hok.
  assert (Hd : moves d (put_attempts d (reconstructor_discard (d_attempts d) hash) None))
    by apply moves_one, move_work, attempts_work.
  destruct (d_round d) as [rnd|] eqn:Hr; [|done].
  destruct (proposal_current rnd view hash) eqn:Hp; cbn [negb]; [|done].
  destruct r as [v|e]; [|by apply works_moves, schedule_works].
  pose proof (round_reachable_inv rnd (ok_round d Hok rnd Hr)) as Hi.
  pose proof (finalize_proposal_answered rnd view (vp_header v) Hi) as [_ Hc].
  pose proof (step_finalize_proposal rnd view (vp_header v)) as Hst.
  destruct (finalize_proposal rnd view (vp_header v)) as [rnd' [p|e]] eqn:E; cbn [fst snd] in *.
  - set (d1 := put_attempts (put_round d (Some rnd')) _ None).
    set (d2 := put_verified d1 _). assert (Hm : moves d d2).
    { pose proof (record_verified_moves d rnd view hash v rnd' Hok Hr Hp Hst) as Hm.
      eapply moves_trans; [apply Hm; by eapply finalize_proposal_validated|].
      apply moves_one, move_work. change d2 with (put_attempts (put_verified (put_round d (Some rnd'))
        (<[hash := v]> (d_verified d))) (reconstructor_discard (d_attempts d) hash) None). apply attempts_work. }
    pose proof (moves_ok _ _ Hok Hm) as Hok2. eapply moves_trans; [exact Hm|].
    pose proof (contribution_works d2 rnd' p Hok2 eq_refl Hc) as Hw.
    set (d3 := maybe_publish_consensus_contribution d2 p) in *. eapply moves_trans; [by apply works_moves|].
    destruct (d_round d3) as [rnd3|] eqn:Hr3; [|apply moves_refl].
    apply works_moves, import_works; [by eapply works_ok|done].
  - assert (Hw : work d (put_round d (Some rnd'))) by (by eapply work_round).
    eapply moves_trans; [by apply moves_one, move_work|].
    apply works_moves, schedule_works; [by eapply work_ok|done].
Qed.

Lemma clear_works d d' : driver_ok d -> works d d' -> moves d (clear_recovery d').
Proof.
  intros Hok Hw. eapply moves_trans; [by apply works_moves|]. apply clear_moves. by eapply works_ok.
Qed.

Lemma timeout_moves env d timeout d' b :
  driver_ok d -> handle_dbft_timeout env d timeout = (d', b) -> moves d d'.
Proof.
  intros Hok. unfold handle_dbft_timeout. destruct (consume (d_timer d) timeout) as [timer due].
  set (d1 := put_timer d timer). assert (Hw : works d d1) by apply works_one, work_timer.
  pose proof (works_ok _ _ Hok Hw) as Hok1. destruct due; cbn [negb]; [|intros [= <- _]; by apply works_moves].
  destruct (d_round d1) as [rnd|] eqn:Hr; [|intros [= <- _]; by apply works_moves].
  destruct (d_signer d1) as [s|] eqn:Hs; [|intros [= <- _]; by apply works_moves]. cbv zeta.
  destruct (_ || _); [intros [= <- _]; by apply works_moves|].
  destruct (signer_validator_index s (rs_validators rnd)) as [i|]; [|intros [= <- _]; by apply works_moves].
  destruct (_ && _).
  { intros [= <- _]. apply works_moves. eapply works_snoc; [exact Hw|apply work_timer]. }
  destruct (_ || _).
  { intros [= <- _]. apply works_moves. eapply works_trans; [exact Hw|].
    eapply works_snoc; [by apply recovery_message_works|apply work_timer]. }
  destruct (checked_add U8_MAX _ 1) as [next|]; [|intros [= <- _]; by apply works_moves].
  destruct (more_than_f_committed_or_failed _ _ _).
  { intros [= <- _]. apply works_moves. eapply works_trans; [exact Hw|].
    eapply works_snoc; [by apply recovery_request_works|apply work_timer]. }
  destruct (publish_local_change_view env d1 rnd _) as [d2 outcome] eqn:E. intros [= <- _].
  destruct (change_view_works _ _ _ _ _ _ Hok1 Hr E) as [Hw2 _]. pose proof (works_trans _ _ _ Hw Hw2) as Hw3.
  destruct (requested outcome); [by apply clear_works|by apply works_moves].
Qed.

Lemma verify_local_spec send r rnd view hash request txs sidecars now :
  exists tasks, verify_local send r rnd view hash request txs sidecars now = Some (r, tasks) /\
    Forall (task_current rnd) tasks.
Proof.
  unfold verify_local, dispatch_all. cbn [dispatch].
  destruct (proposal_current rnd view hash) eqn:Hp; cbn [negb]; [|by exists []].
  cbv zeta. destruct (_ <=? _); [|by exists []]. eexists. split; [done|]. constructor; [|constructor].
  by apply proposal_current_spec in Hp as [? ?].
Qed.

Lemma primary_total env d height view r :
  driver_ok d -> exists d', handle_primary_proposal env d height view r = Some d' /\ moves d d'.
Proof.
  intros Hok. unfold handle_primary_proposal. set (d1 := put_builds d _ []).
  assert (Hw : works d d1) by (apply works_one, work_builds; constructor).
  pose proof (works_ok _ _ Hok Hw) as Hok1.
  assert (Hsame : exists d', Some d1 = Some d' /\ moves d d') by (exists d1; split; [done|by apply works_moves]).
  destruct (d_round d1) as [rnd|] eqn:Hr; [|done]. destruct (d_signer d1) as [s|] eqn:Hs; [|done].
  destruct (_ || _); [done|]. destruct (signer_validator_index s (rs_validators rnd)) as [i|]; [|done].
  destruct (_ || _); [done|]. destruct r as [proposal|]; [|done].
  destruct (sign d1 s _ _ _ _ _) as [d2 [m|e]] eqn:E; destruct (sign_works _ _ _ _ _ _ _ _ _ Hs E) as [Hw2 Hr2];
    [|exists d2; split; [done|]; apply works_moves; by eapply works_trans].
  pose proof (works_ok _ _ Hok1 Hw2) as Hok2. rewrite Hr in Hr2.
  destruct (process_works d2 rnd m Hok2 Hr2) as [Hw3 _]. pose proof (works_trans _ _ _ Hw (works_trans _ _ _ Hw2 Hw3)) as Hw4.
  destruct (process rnd m) as [rnd' [p|e]]; cbn [fst] in *; [|eexists; split; [done|by apply works_moves]].
  set (d3 := put_round d2 (Some rnd')) in *. pose proof (work_publish d3 m) as Hpub.
  destruct (publish (d_dbft d3) m) as [dbft [b|e]]; cbn [fst] in Hpub;
    [|eexists; split; [done|]; apply works_moves; by eapply works_snoc].
  set (d5 := put_timer (put_dbft d3 dbft) _).
  assert (Hw5 : works d d5) by (eapply works_snoc; [by eapply works_snoc|apply work_timer]).
  destruct (verify_local_spec (env_send env) (d_recovery d5) rnd' view (message_hash m) (pp_request proposal)
    (pp_transactions proposal) (pp_sidecars proposal) (env_now env)) as (tasks & -> & Ht). cbn [mbind option_bind].
  exists (put_recovery d5 (d_recovery d5) tasks). split; [done|].
  pose proof (works_ok _ _ Hok Hw5) as Hok5. eapply moves_trans; [by apply works_moves|].
  apply moves_one, move_recovery; [by apply ok_recovery|intros key; by apply ok_pending|].
  apply Forall_fmap. eapply Forall_impl; [exact Ht|]. intros t Hc. exists rnd'. split; [|done].
  by apply (ok_round d5 Hok5).
Qed.

Lemma canonical_moves env d number st :
  driver_ok d -> number <= U64_MAX -> moves d (canonical_update env d number st).
Proof.
  intros Hok Hn. unfold canonical_update. destruct (clear_moves d Hok) as [Hm Hk].
  set (d1 := put_attempts (put_verified (clear_recovery d) ∅) (reconstructor_clear (d_attempts d)) None).
  set (d2 := put_builds d1 ∅ []).
  assert (Hw : works (clear_recovery d) d2).
  { eapply works_snoc; [|apply work_builds; constructor].
    eapply works_snoc; [apply works_one, work_verified, map_empty_subseteq|apply attempts_work]. }
  eapply moves_trans; [exact Hm|]. eapply moves_trans; [by apply works_moves|].
  eapply moves_trans; [apply moves_one, (move_activate env d2 number st true); [done|done|exact Hk]|].
  apply moves_one, move_work, work_timer.
Qed.

(** ** Every event is handled *)

(** Iteration orders enumerate the maps; block numbers are 64-bit. *)
Definition env_ok (env : DriverEnv) : Prop :=
  forall m, env_keys env m ≡ₚ (map_to_list m).*1.
Definition event_ok (e : DriverEvent) : Prop :=
  match e with
  | EvMaintenance (Some (number, _)) | EvCanonical number _ | EvEstablished _ _ number _ => number <= U64_MAX
  | _ => True
  end.

Lemma keys_none d : driver_ok d -> d_round d = None -> recovery_keys (d_recovery d) = ∅ /\ d_verified d = ∅.
Proof.
  intros Hok Hr. split.
  - apply set_eq. intros key. split; [|set_solver]. intros Hin.
    destruct (ok_pending d Hok key Hin) as (s & ? & _). congruence.
  - apply map_eq. intros hash. rewrite lookup_empty. destruct (d_verified d !! hash) as [v|] eqn:E; [|done].
    destruct (ok_verified d Hok hash v E) as (s & ? & _). congruence.
Qed.

(** Without a round nothing is dispatched. *)
Lemma idle_moves d o :
  driver_ok d -> d_round d = None ->
  (exists r, o = Some (r, []) /\ recovery_ok r) ->
  (forall r tasks, o = Some (r, tasks) -> recovery_keys r ⊆ recovery_keys (d_recovery d)) ->
  exists r tasks, o = Some (r, tasks) /\ moves d (put_recovery d r tasks).
Proof.
  intros Hok Hr (r & -> & Hrok) Hk. exists r, []. split; [done|]. apply moves_one, move_recovery; [done| |constructor].
  intros key Hin. apply (ok_pending d Hok). by apply (Hk r []).
Qed.

Lemma expire_total env d :
  env_ok env -> driver_ok d ->
  exists r tasks, recovery_expire_requests (env_send env) (d_recovery d) (pending_order env d) (d_round d)
    (env_now env) = Some (r, tasks) /\ moves d (put_recovery d r tasks).
Proof.
  intros Henv Hok. destruct (d_round d) as [rnd|] eqn:Hr.
  - apply (dispatched_moves d rnd); [done|done| |intros r tasks; apply keys_expire_requests].
    apply expire_requests_ok; [by apply ok_recovery|]. unfold pending_order. rewrite (Henv _).
    apply NoDup_fst_map_to_list.
  - apply idle_moves; [done|done| |intros r tasks; apply keys_expire_requests].
    eexists. split; [done|]. by apply recovery_clear_ok, ok_recovery.
Qed.

Lemma disconnect_total env d peer :
  driver_ok d ->
  exists r tasks, disconnect_peer (env_send env) (d_recovery d) (pending_order env d) peer (d_round d)
    (env_now env) = Some (r, tasks) /\ moves d (put_recovery d r tasks).
Proof.
  intros Hok. destruct (d_round d) as [rnd|] eqn:Hr.
  - apply (dispatched_moves d rnd); [done|done| |intros r tasks; apply keys_disconnect].
    apply disconnect_peer_ok. by apply ok_recovery.
  - apply idle_moves; [done|done| |intros r tasks; apply keys_disconnect].
    eexists. split; [done|]. apply recovery_clear_ok. exact (ok_recovery d Hok).
Qed.

Lemma supply_total env d peer id txs :
  driver_ok d ->
  exists r tasks, recovery_supply (env_send env) (d_recovery d) peer id txs (d_round d)
    (env_now env) = Some (r, tasks) /\ moves d (put_recovery d r tasks).
Proof.
  intros Hok. pose proof (ok_recovery d Hok) as Hrok. destruct (d_round d) as [rnd|] eqn:Hr.
  - apply (dispatched_moves d rnd); [done|done| |intros r tasks; apply keys_supply].
    by apply recovery_supply_ok.
  - apply idle_moves; [done|done| |intros r tasks; apply keys_supply].
    pose proof Hrok as [Htx Hfew]. unfold recovery_supply.
    pose proof (supply_ok _ peer id txs (env_now env) Htx Hfew) as Hs.
    destruct (supply _ _ _ _ _) as [[t a]|e].
    + eexists. split; [done|]. apply recovery_clear_ok. split; [apply Hs|]. by eapply few_good.
    + exists (d_recovery d). by destruct e.
Qed.

Lemma connect_total env d peer v2 :
  env_ok env -> driver_ok d ->
  exists r tasks, connect_peer (env_send env) (d_recovery d) (pending_order env d) peer v2 (d_round d)
    (env_now env) = Some (r, tasks) /\ moves d (put_recovery d r tasks).
Proof.
  intros Henv Hok. pose proof (ok_recovery d Hok) as Hrok. destruct (d_round d) as [rnd|] eqn:Hr.
  - apply (dispatched_moves d rnd); [done|done| |intros r tasks; apply keys_connect].
    apply connect_peer_ok; [done|]. apply Henv.
  - apply idle_moves; [done|done| |intros r tasks; apply keys_connect]. unfold connect_peer.
    destruct (_ || _); [by exists (d_recovery d)|]. destruct Hrok as [Htx Hfew].
    destruct (order_keys _ _ (Henv (pending (transactions (d_recovery d))))) as [Hn Hin].
    destruct (add_peer_ok _ (pending_order env d) peer (env_now env) Htx Hfew Hn Hin) as (t & l & -> & Hg).
    cbn [mbind option_bind]. eexists. split; [done|]. split; [apply Hg|]. by eapply few_good.
Qed.

Lemma event_total env d e :
  env_ok env -> event_ok e -> driver_ok d -> exists d', handle_event env d e = Some d' /\ moves d d'.
Proof.
  intros Henv He Hok. destruct e; cbn [handle_event].
  - by apply messages_total.
  - destruct (handle_dbft_timeout env d timeout) as [d1 b] eqn:E. pose proof (timeout_moves _ _ _ _ _ Hok E) as Hm.
    pose proof (moves_ok _ _ Hok Hm) as Hok1. set (d2 := if b then clear_recovery d1 else d1).
    assert (Hm2 : moves d1 d2) by (destruct b; [by apply clear_moves|apply moves_refl]).
    eexists. split; [done|]. eapply moves_trans; [exact Hm|]. eapply moves_trans; [exact Hm2|].
    apply works_moves, primary_works. by eapply moves_ok.
  - destruct (expire_total env d Henv Hok) as (r & tasks & -> & Hm). cbn [mbind option_bind].
    set (d1 := put_recovery d r tasks) in *. pose proof (moves_ok _ _ Hok Hm) as Hok1.
    set (d2 := match reconciled with Some _ => _ | None => _ end).
    assert (Hm2 : moves d1 d2).
    { subst d2. destruct reconciled as [[number st]|]; [by apply canonical_moves|apply moves_refl]. }
    eexists. split; [done|]. eapply moves_trans; [exact Hm|]. eapply moves_trans; [exact Hm2|].
    destruct (d_round d2) as [rnd|] eqn:Hr; [|apply moves_refl]. apply works_moves, schedule_works; [|done].
    by eapply moves_ok.
  - by apply primary_total.
  - eexists. split; [done|]. pose proof (verification_moves env d view proposal_hash r Hok) as Hm.
    eapply moves_trans; [exact Hm|]. apply works_moves, primary_works. by eapply moves_ok.
  - eexists. split; [done|]. by apply reconstruction_moves.
  - eexists. split; [done|]. by apply canonical_moves.
  - destruct (connect_total env d peer_id v2 Henv Hok) as (r & tasks & -> & Hm). cbn [mbind option_bind].
    set (d1 := put_recovery d r tasks) in *. eexists. split; [done|]. eapply moves_trans; [exact Hm|].
    destruct (d_round d1) as [rnd|] eqn:Hr; [apply moves_refl|].
    destruct (keys_none d1 (moves_ok _ _ Hok Hm) Hr) as [Hk Hv].
    eapply moves_trans; [by apply moves_one, (move_activate env d1 head_number st false)|].
    apply moves_one, move_work, work_timer.
  - destruct (supply_total env d peer_id request_id txs Hok) as (r & tasks & -> & Hm). by eexists.
  - destruct (disconnect_total env d peer_id Hok) as (r & tasks & -> & Hm). by eexists.
Qed.

Lemma step_total env d e :
  env_ok env -> event_ok e -> driver_ok d -> exists d', driver_step env d e = Some d' /\ moves d d'.
Proof.
  intros Henv He Hok. destruct (event_total env d e Henv He Hok) as (d1 & E & Hm). unfold driver_step. rewrite E.
  cbn [mbind option_bind]. case_bool_decide; [by exists d1|].
  destruct (replay_total env d1) as (d2 & -> & Hm2); [by eapply moves_ok|]. exists d2. split; [done|].
  by eapply moves_trans.
Qed.

Lemma start_moves env signer dbft period writes seals number st :
  Forall seal_justified seals -> number <= U64_MAX ->
  let d0 := mkDriver None signer dbft ∅ (timer_channel period) future_default recovery_channel ∅ ∅ writes [] seals in
  driver_ok d0 /\ moves d0 (driver_start env signer dbft period writes seals number st).
Proof.
  intros Hs Hn d0. assert (Hok : driver_ok d0).
  { by constructor. }
  split; [done|]. unfold driver_start.
  assert (Hm : moves d0 (activate_dbft_round env (put_dbft d0 (update_height dbft number)) number st)).
  { by apply moves_one, (move_activate env d0 number st true). }
  pose proof (moves_ok _ _ Hok Hm) as Hok1. eapply moves_trans; [exact Hm|].
  pose proof (work_timer (activate_dbft_round env (put_dbft d0 (update_height dbft number)) number st)
    (timer_reset (d_timer (activate_dbft_round env (put_dbft d0 (update_height dbft number)) number st))
       (d_round (activate_dbft_round env (put_dbft d0 (update_height dbft number)) number st))
       (d_signer (activate_dbft_round env (put_dbft d0 (update_height dbft number)) number st)))) as Hw.
  eapply moves_trans; [apply moves_one, move_work; exact Hw|].
  apply works_moves, primary_works. by eapply work_ok.
Qed.
End safety.
