(* ===== verification/Node.v ===== *)
(** A running validator node: the driver's event loop, the dBFT network service and its
    connections, and the journaled signer across restarts. The theorems hold of every
    node that receives any events and messages in any order. *)

From S2P Require Import Prelude Extern Instances Extra Validation ChainSpec Tpke Wire Payload Recovery Cache.
From S2P Require Import Protocol DkgParams Storage Round RoundProgress Sealing Journal Signer Agreement.
From S2P Require Import FutureMessages Timer AntiMev TxSync ProposalRecovery Driver DriverSafety.

Section node.
Context {R : AlloyRlp} {RL : AlloyRlpLaws R} {C : Crypto} {CL : CryptoLaws C} {K : Secp256k1}
  {KL : Secp256k1Laws C K} {B : Blst} {T : PooledTransactions} {V : BlockContents}.

(** What a journal write that is not synced may do. *)
Variable allowed : WriteOutcome -> Prop.
Definition write_ok (io : WriteOutcome) : Prop := io = Synced \/ allowed io.

(** A validator's first signer, on an empty journal. *)
Definition first_signer (k : signing_key) : DbftSigner := (signer_history k []).1.
(** The signer after a restart, on the journal left behind. *)
Definition restarted (s : DbftSigner) : DbftSigner := (signer_step (s, []) RestartEvent).1.

(** The states of one node: started, given events, the network service advancing on its
    own (it does not touch the admission), new DKG shares, and restarts, which lose
    everything but the journal. *)
Inductive node_reachable (k : signing_key) : Driver -> gmap ConnId DbftConnection -> Prop :=
| node_start env (validator : bool) dbft cs period writes number st :
    sys_reachable (mkSystem dbft cs) -> number <= U64_MAX -> Forall write_ok writes ->
    node_reachable k (driver_start env (if validator then Some (first_signer k) else None) dbft period
                        writes [] number st) cs
| node_event env d cs e d' :
    node_reachable k d cs -> env_ok env -> event_ok e -> driver_step env d e = Some d' ->
    node_reachable k d' cs
| node_network d cs p cs' :
    node_reachable k d cs -> sys_step (mkSystem (d_dbft d) cs) (mkSystem p cs') ->
    admission p = admission (d_dbft d) -> node_reachable k (put_dbft d p) cs'
| node_shares d cs current previous :
    node_reachable k d cs -> node_reachable k (put_shares d current previous) cs
| node_restart env d cs dbft cs' period writes number st :
    node_reachable k d cs -> sys_reachable (mkSystem dbft cs') -> number <= U64_MAX -> Forall write_ok writes ->
    node_reachable k (driver_start env (restarted <$> d_signer d) dbft period writes (d_seals d) number st) cs'.

(** ** The network follows the round *)

Definition agrees (d : Driver) : Prop :=
  match d_round d with
  | None => validators (admission (d_dbft d)) = None
  | Some s => validators (admission (d_dbft d)) = Some (rs_validators s) /\
              checked_add U64_MAX (height (admission (d_dbft d))) 1 = Some (rs_height s)
  end.

Lemma publish_admission p m : admission (publish p m).1 = admission p.
Proof.
  unfold publish. destruct (result_bind (validate_message m) _) as [[hash d]|]; [|done].
  unfold cache_message. destruct (result_bind (validate_height _ _) _); [|done].
  destruct (negb _); [done|]. destruct (insert_cached (cache p) hash m) as [c [[]|]]; try done. cbn [map_err fst].
  by destruct (broadcast_core (set_cache p c) (CmdAnnounce hash)) as (-> & _).
Qed.

Lemma activate_agrees env d number st : agrees (activate_dbft_round env d number st).
Proof.
  unfold activate_dbft_round. assert (Hfail : forall d, agrees (put_round (put_dbft d (deactivate (d_dbft d))) None)) by done.
  destruct (checked_add U64_MAX number 1) as [next|] eqn:En; [|apply Hfail].
  destruct st as [st|]; [|apply Hfail]. destruct (read_governance_validator_set_from_storage _) as [set|]; [|apply Hfail].
  destruct (activate (d_dbft d) number (Storage.sorted set)) as [dbft [u|e]] eqn:Ea; [|apply Hfail].
  destruct (activated_round env next set st) as [rnd|] eqn:E; [|apply Hfail].
  assert (Hadm : admission dbft = mkDbftAdmission number (Some (sort_bytes (Storage.sorted set)))).
  { unfold activate in Ea. destruct (Storage.sorted set) as [|a l]; [done|]. destruct (adjacent_repeat _); [done|].
    by injection Ea as <- _. }
  assert (Hr : rs_height rnd = next /\ rs_validators rnd = sort_bytes (Storage.sorted set)).
  { unfold activated_round in E. apply bind_Some in E as (r0 & H0 & E).
    destruct (round_new next _ _) as [r0'|] eqn:Hn; simplify_eq/=.
    apply round_new_Ok in Hn as (_ & _ & ->). destruct (is_anti_mev_active_at_block env next); [|by injection E as <-].
    apply bind_Some in E as (ps & _ & E). apply bind_Some in E as (dkg & _ & E).
    destruct (install_dkg_state _ _ dkg) as [r1 [[]|]] eqn:Ei; [|done]. injection E as <-.
    by apply install_dkg_state_Ok in Ei as (_ & _ & ->). }
  destruct Hr as [Hh Hv]. unfold agrees. cbn [put_round put_dbft d_round d_dbft]. rewrite Hadm, Hh, Hv. done.
Qed.

Lemma move_agrees d d' : driver_ok d -> agrees d -> move d d' -> agrees d'.
Proof.
  intros Hok Ha H. destruct H as [d d' Hw|d f Hf|d r tasks Hr Hp Ht|d s hash v Hs Hv|env d number st update _ Hv Hk];
    [|done|done|done|apply activate_agrees].
  destruct Hw as [d s s' Hs Hst|d s h i v t payload Hs|d rnd s view header epoch Hr Hs Hj|d m|d t|d v Hv|d a task Ht|d b tasks Ht];
    try done.
  - unfold agrees in *. rewrite Hs in Ha. cbn [put_round d_round d_dbft].
    destruct (round_step_inv s s' (round_reachable_inv s (ok_round d Hok s Hs)) Hst) as [_ He].
    destruct (same_round_votes s s' He) as (<- & <- & _). done.
  - unfold agrees in *. cbn [put_dbft d_round d_dbft]. by rewrite publish_admission.
Qed.

Lemma moves_agrees d d' : driver_ok d -> agrees d -> moves d d' -> agrees d'.
Proof.
  intros Hok Ha H. induction H as [|d1 d2 d3 H _ IH]; [done|]. apply IH; [by eapply move_ok|by eapply move_agrees].
Qed.

(** *** What the driver does to the service are steps of the network system *)

Lemma activate_network env d cs number st :
  number <= U64_MAX -> sys_reachable (mkSystem (d_dbft d) cs) ->
  sys_reachable (mkSystem (d_dbft (activate_dbft_round env d number st)) cs).
Proof.
  intros Hn Hr. assert (Hdown : forall p, sys_reachable (mkSystem p cs) -> sys_reachable (mkSystem (deactivate p) cs))
    by (intros p Hp; eapply Protocol.reach_step; [exact Hp|apply (step_deactivate (mkSystem p cs))]).
  unfold activate_dbft_round. destruct (checked_add U64_MAX number 1) as [next|]; [|by apply Hdown].
  destruct st as [st|]; [|by apply Hdown].
  destruct (read_governance_validator_set_from_storage _) as [set|]; [|by apply Hdown].
  assert (Hup : sys_reachable (mkSystem (activate (d_dbft d) number (Storage.sorted set)).1 cs))
    by (eapply Protocol.reach_step; [exact Hr|by apply (step_activate (mkSystem (d_dbft d) cs))]).
  destruct (activate (d_dbft d) number (Storage.sorted set)) as [dbft [u|e]]; cbn [fst] in Hup; [|by apply Hdown].
  destruct (activated_round env next set st); [done|by apply Hdown].
Qed.

Lemma move_network d d' cs :
  move d d' -> sys_reachable (mkSystem (d_dbft d) cs) -> sys_reachable (mkSystem (d_dbft d') cs).
Proof.
  intros H Hr. destruct H as [d d' Hw|d f Hf|d r tasks Hr' Hp Ht|d s hash v Hs Hv|env d number st update Hn Hv Hk];
    try done.
  - destruct Hw; try done. eapply Protocol.reach_step; [exact Hr|apply (step_publish (mkSystem (d_dbft d) cs))].
  - apply activate_network; [done|]. destruct update; [|done].
    eapply Protocol.reach_step; [exact Hr|by apply (step_update_height (mkSystem (d_dbft d) cs))].
Qed.

Lemma moves_network d d' cs :
  moves d d' -> sys_reachable (mkSystem (d_dbft d) cs) -> sys_reachable (mkSystem (d_dbft d') cs).
Proof. intros H. induction H as [|d1 d2 d3 H _ IH]; [done|]. intros Hr. apply IH. by eapply move_network. Qed.

(** ** The signer seals only what the driver justified *)

Definition event_write (e : SignerEvent) : Prop :=
  match e with SignEvent io _ _ _ _ _ | CommitEvent io _ _ => write_ok io | _ => True end.

(** The signer is in a history of its key, and each seal it gave out was requested. *)
Definition seals_requested (k : signing_key) (d : Driver) : Prop :=
  Forall write_ok (d_writes d) /\
  forall s, d_signer d = Some s -> exists es outs, signer_history k es = (s, outs) /\ Forall event_write es /\
    forall o, o ∈ outs -> out_kind o = HEADER_COMMIT_DUTY ->
      exists sr prefix, sr ∈ d_seals d /\ out_block o = number (seal_header sr) /\
        seal_identity (seal_header sr) = Ok (prefix, out_payload o).

Lemma history_snoc k es e : signer_history k (es ++ [e]) = signer_step (signer_history k es) e.
Proof. unfold signer_history. by rewrite foldl_app. Qed.

Lemma message_type_not_seal t : message_type_as_u8 t <> HEADER_COMMIT_DUTY.
Proof. by destruct t. Qed.

(** An event with no new seal. *)
Lemma requested_step k d d' s e s' :
  seals_requested k d -> d_signer d = Some s -> d_signer d' = Some s' -> d_seals d ⊆ d_seals d' ->
  Forall write_ok (d_writes d') -> event_write e ->
  (forall outs, exists more, signer_step (s, outs) e = (s', more ++ outs) /\
     forall o, o ∈ more -> out_kind o = HEADER_COMMIT_DUTY ->
       exists sr prefix, sr ∈ d_seals d' /\ out_block o = number (seal_header sr) /\
         seal_identity (seal_header sr) = Ok (prefix, out_payload o)) ->
  seals_requested k d'.
Proof.
  intros [_ Hq] Hs Hs' Hsub Hws Hwe He. split; [done|]. intros s0 Hs0. assert (s0 = s') as -> by congruence.
  destruct (Hq s Hs) as (es & outs & Eh & Hes & Ho). destruct (He outs) as (more & Es & Hm).
  exists (es ++ [e]), (more ++ outs). rewrite history_snoc, Eh. split; [done|].
  split; [apply Forall_app; by split; [|constructor]|].
  intros o [Hin|Hin]%elem_of_app Hk; [by apply Hm|].
  destruct (Ho o Hin Hk) as (sr & prefix & Hsr & H). exists sr, prefix. split; [by apply Hsub|done].
Qed.

Lemma next_write_ok k d : seals_requested k d -> write_ok (next_write d) /\ Forall write_ok (tail (d_writes d)).
Proof.
  intros [Hw _]. unfold next_write. destruct Hw as [|io l Hio Hl]; [by split; [left|]|done].
Qed.

Lemma work_requested k d d' : seals_requested k d -> work d d' -> seals_requested k d'.
Proof.
  intros Hq H. destruct (next_write_ok k d Hq) as [Hio Htl].
  destruct H as [d s s' Hs Hst|d s h i v t payload Hs|d rnd s view header epoch Hr Hs Hj|d m|d t|d v Hv|d a task Ht|d b tasks Ht];
    try done.
  - eapply (requested_step k d _ s (SignEvent (next_write d) h i v t payload)); [done|done|done|done|done|done|].
    intros outs. cbn [signer_step fst snd]. destruct (sign_message s _ _ _ _ _ _) as [s1 [m|e]]; cbn [fst].
    + destruct (journaled t); [|exists []; split; [done|]; by intros o ?%not_elem_of_nil].
      eexists [_]. split; [done|]. intros o ->%list_elem_of_singleton Hk. cbn in Hk. by apply message_type_not_seal in Hk.
    + exists []. split; [done|]. by intros o ?%not_elem_of_nil.
  - eapply (requested_step k d _ s (CommitEvent (next_write d) header epoch)); [done|done|done|cbn; set_solver|done|done|].
    intros outs. cbn [signer_step fst snd]. destruct (commit_for_header_at s _ header epoch) as [s1 [c|e]]; cbn [fst];
      [|exists []; split; [done|]; by intros o ?%not_elem_of_nil].
    destruct (seal_identity header) as [[prefix identity]|] eqn:Ei; [|exists []; split; [done|]; by intros o ?%not_elem_of_nil].
    eexists [_]. split; [done|]. intros o ->%list_elem_of_singleton _. cbn.
    exists (mkSealRequest rnd view header), prefix. split; [by left|]. done.
Qed.

Lemma move_requested k d d' : seals_requested k d -> move d d' -> seals_requested k d'.
Proof.
  intros Hq H. destruct H as [d d' Hw|d f Hf|d r tasks Hr Hp Ht|d s hash v Hs Hv|env d number st update Hn Hv Hk];
    [by eapply work_requested|done|done|done|].
  destruct (activate_frame env (if update then put_dbft d (update_height (d_dbft d) number) else d) number st)
    as (o & dbft & -> & _). by destruct update.
Qed.

Lemma moves_requested k d d' : seals_requested k d -> moves d d' -> seals_requested k d'.
Proof. intros Hq H. induction H as [|d1 d2 d3 H _ IH]; [done|]. apply IH. by eapply move_requested. Qed.

(** ** The invariant of a node *)

Record node_ok (k : signing_key) (d : Driver) (cs : gmap ConnId DbftConnection) : Prop := {
  no_driver : driver_ok d;
  no_network : sys_reachable (mkSystem (d_dbft d) cs);
  no_agrees : agrees d;
  no_seals : seals_requested k d;
}.

Lemma start_agrees env signer dbft period writes seals number st :
  agrees (driver_start env signer dbft period writes seals number st).
Proof.
  unfold driver_start. set (d0 := mkDriver _ _ _ _ _ _ _ _ _ _ _ _).
  pose proof (activate_agrees env d0 number st) as Ha. set (d1 := activate_dbft_round env d0 number st) in *.
  assert (E : forall d, d_round (maybe_schedule_primary_proposal d) = d_round d /\
    d_dbft (maybe_schedule_primary_proposal d) = d_dbft d).
  { intros d. unfold maybe_schedule_primary_proposal. destruct (d_round d) as [rnd|] eqn:Hr; [|done].
    destruct (d_signer d) as [s|]; [|done]. destruct (signer_validator_index s (rs_validators rnd)); [|done].
    destruct (_ || _); [done|]. cbv zeta. by case_bool_decide. }
  destruct (E (reset_timer d1)) as [E1 E2]. unfold agrees. by rewrite E1, E2.
Qed.

Lemma start_ok k env signer dbft cs period writes seals number st :
  sys_reachable (mkSystem dbft cs) -> number <= U64_MAX -> Forall seal_justified seals ->
  seals_requested k (mkDriver None signer dbft ∅ (timer_channel period) future_default recovery_channel ∅ ∅ writes [] seals) ->
  node_ok k (driver_start env signer dbft period writes seals number st) cs.
Proof.
  intros Hr Hn Hs Hq. destruct (start_moves env signer dbft period writes seals number st Hs Hn) as [Hok Hm].
  constructor; [by eapply moves_ok|by eapply moves_network in Hm|apply start_agrees|by eapply moves_requested].
Qed.

Lemma node_reachable_ok k d cs : node_reachable k d cs -> node_ok k d cs.
Proof.
  induction 1 as [env validator dbft cs period writes number st Hr Hn Hw|env d cs e d' _ IH Henv He Hd
    |d cs p cs' _ [I1 I2 I3 I4] Hs Ha|d cs current previous _ [I1 I2 I3 I4]|env d cs dbft cs' period writes number st _ [I1 I2 I3 I4] Hr Hn Hw].
  - apply start_ok; [done|done|constructor|]. split; [done|]. cbn. intros s Hs. destruct validator; [|done].
    injection Hs as <-. exists [], []. split; [done|]. split; [constructor|]. by intros o ?%not_elem_of_nil.
  - destruct IH as [I1 I2 I3 I4]. destruct (step_total env d e Henv He I1) as (d1 & E & Hm).
    assert (d1 = d') as -> by congruence.
    constructor; [by eapply moves_ok|by eapply moves_network|by eapply moves_agrees|by eapply moves_requested].
  - constructor; [by destruct I1|by eapply Protocol.reach_step|unfold agrees in *; cbn; by rewrite Ha|done].
  - constructor; [by destruct I1|done|done|]. destruct (d_signer d) as [s|] eqn:Hs.
    + eapply (requested_step k d _ s (SharesEvent current previous)); [done|done|cbn; by rewrite Hs|done|apply I4|done|].
      intros outs. exists []. split; [done|]. by intros o ?%not_elem_of_nil.
    + split; [apply I4|]. cbn. by rewrite Hs.
  - apply start_ok; [done|done|by apply ok_seals|]. split; [done|]. cbn. intros s Hs.
    apply fmap_Some in Hs as (s0 & Hs0 & ->). destruct I4 as [_ Hq]. destruct (Hq s0 Hs0) as (es & outs & Eh & Hes & Ho).
    exists (es ++ [RestartEvent]), outs. rewrite history_snoc, Eh. split.
    + unfold restarted. cbn [signer_step fst snd]. destruct (duty_journal s0) as [j|]; [|done].
      by destruct (with_duty_journal _ _).
    + split; [apply Forall_app; by split; [|repeat constructor]|done].
Qed.
End node.

Section theorems.
Context {R : AlloyRlp} {RL : AlloyRlpLaws R} {C : Crypto} {CL : CryptoLaws C} {K : Secp256k1}
  {KL : Secp256k1Laws C K} {B : Blst} {T : PooledTransactions} {V : BlockContents}.

(** C12. The event loop never stops: in every state a node can get to, after any messages and
    restarts, each event is handled to the end. No component panics, and the message
    loop, which may replay cached messages at each view change, ends within
    [loop_turns] turns, so more turns change nothing. *)
Theorem node_total allowed k d cs env e :
  node_reachable allowed k d cs -> env_ok env -> event_ok e ->
  (exists d', driver_step env d e = Some d') /\
  forall n rnd l, d_round d = Some rnd ->
    exists d', process_pending (n + loop_turns rnd l) env d l = Some d' /\ process_dbft_messages env d l = Some d'.
Proof.
  intros [Hok _ _ _]%node_reachable_ok Henv He. split.
  - destruct (step_total env d e Henv He Hok) as (d' & E & _). by exists d'.
  - intros n rnd l Hr. destruct (pending_total (loop_turns rnd l) env d rnd l Hok Hr) as (d' & E & _); [done|].
    exists d'. split; [by apply pending_stable|]. unfold process_dbft_messages. by rewrite Hr.
Qed.

(** ** Seals *)

(** Failed journal writes leave nothing behind. *)
Definition no_partial_line (io : WriteOutcome) : Prop := io = Failed 0.

Lemma event_write_clean e : event_write no_partial_line e -> Forall whole_lines (journal_events e).
Proof.
  assert (Hio : forall io b v n payload, write_ok no_partial_line io -> whole_lines (Attempt io b v n (keccak256 payload))).
  { intros io b v n payload [->| ->]; (split; [apply keccak256_len|]); [done|by left]. }
  destruct e; cbn; intros H; [|destruct (seal_identity header) as [[prefix identity]|]|constructor|by repeat constructor].
  - destruct (journaled t); constructor; [by apply Hio|constructor].
  - constructor; [by apply Hio|constructor].
  - constructor.
Qed.

Lemma events_clean es : Forall (event_write no_partial_line) es -> clean_history es.
Proof.
  unfold clean_history. induction 1 as [|e es He _ IH]; [constructor|]. cbn [flat_map].
  apply Forall_app. split; [by apply event_write_clean|done].
Qed.


(** ** Imports *)

(** What a sealed header carries verifies. *)
Lemma sealed_header_Ok s view sealed :
  sealed_header s view = Ok sealed ->
  exists final extra, round_final_header s view = Some final /\
    sealed = with_extra_data final (extra_data sealed) /\ DbftExtra.try_encode extra = Ok (extra_data sealed) /\
    match extra with
    | DbftExtra.EcdsaSeal _ _ vs _ =>
        vs = rs_validators s /\
        exists hash signers, ecdsa_seal_hash sealed = Ok hash /\ verify_ecdsa_signatures hash extra = Ok signers
    | DbftExtra.ThresholdSeal _ _ key _ =>
        option_map (fun st => global_public_key (current st)) (rs_dkg_state s) = Some key /\
        verify_threshold_signature sealed extra = Ok tt
    end.
Proof.
  unfold sealed_header. intros H. apply result_bind_Ok in H as (v & Hv & H). apply ok_or_Ok in Hv.
  apply result_bind_Ok in H as (final & Hf & H). apply ok_or_Ok in Hf.
  apply result_bind_Ok in H as (seal & Hs & H). apply result_bind_Ok in H as (p & Hp & H).
  apply result_bind_Ok in H as (extra & He & H). apply result_bind_Ok in H as (raw & Hraw & H).
  apply map_err_Ok in Hraw. apply result_bind_Ok in H as (u & Hver & [= <-]).
  exists final, extra. split; [unfold round_final_header; by rewrite Hv|]. split; [done|]. split; [done|].
  destruct (DbftExtraPrefix.signature_scheme p), seal as [sigs|sg]; try done.
  - injection He as <-. split; [done|]. apply result_bind_Ok in Hver as (hash & Hh & Hver). apply map_err_Ok in Hh.
    apply result_bind_Ok in Hver as (signers & Hsig & _). apply map_err_Ok in Hsig. by exists hash, signers.
  - apply result_bind_Ok in He as (st & Hst & He). apply ok_or_Ok in Hst.
    apply result_bind_Ok in He as (fb & _ & [= <-]). rewrite Hst. split; [done|]. destruct u. by apply map_err_Ok in Hver.
Qed.

(** C2. What a node imports as committed is final: the block's header is the header of a
    proposal signed by a validator of that height, with a quorum of preparations (and with
    Anti-MEV of pre-commits), under a seal of exactly the round's validators, or of the
    DKG key, that verifies; and the verified contents it is imported with are for a
    proposal of the same hash. *)
Theorem node_imports_certified allowed k d cs sealed verified :
  node_reachable allowed k d cs -> TaskImport sealed verified ∈ d_tasks d ->
  exists s view m m' final extra, round_reachable s /\ certified s view m final /\
    vouched (rs_height s) (rs_validators s) m' (vp_header verified) /\ message_hash m' = message_hash m /\
    sealed = with_extra_data final (extra_data sealed) /\ DbftExtra.try_encode extra = Ok (extra_data sealed) /\
    match extra with
    | DbftExtra.EcdsaSeal _ _ vs _ =>
        vs = rs_validators s /\
        exists hash signers, ecdsa_seal_hash sealed = Ok hash /\ verify_ecdsa_signatures hash extra = Ok signers
    | DbftExtra.ThresholdSeal _ _ key _ =>
        option_map (fun st => global_public_key (current st)) (rs_dkg_state s) = Some key /\
        verify_threshold_signature sealed extra = Ok tt
    end.
Proof.
  intros [Hok _ _ _]%node_reachable_ok Hin. pose proof (ok_tasks d Hok) as Ht. rewrite Forall_forall in Ht.
  destruct (Ht _ Hin) as (s & view & final & m & m' & Hr & Hf & Hs & Hm & Hc & Hv & Hh).
  destruct (sealed_header_Ok s view sealed Hs) as (final' & extra & Hf' & Hw & He & Hver).
  assert (final' = final) as -> by congruence. exists s, view, m, m', final, extra.
  split; [done|]. split; [done|]. split; [done|]. split; [done|]. split; [done|]. by split.
Qed.

(** ** Publishing *)

(** The service takes an authentic message for its next height. *)
Lemma publish_admitted p vs m d payload :
  admission_inv (admission p) (cache p) -> validators (admission p) = Some vs ->
  checked_add U64_MAX (height (admission p)) 1 = Some (valid_block_end m) ->
  authenticated (valid_block_end m) vs m d payload -> valid_block_start m < valid_block_end m ->
  message_length m <= DBFT_MAX_MESSAGE_SIZE ->
  exists inserted, (publish p m).2 = Ok inserted /\
    is_Some (messages (cache (publish p m).1) !! message_hash m).
Proof.
  intros Hadm Hv Hh (Hw & _ & _ & Hd & Hp & Hi) Hstart Hlen. pose proof Hh as [Eh _]%checked_add_Some.
  assert (Hheight : validate_height (height (admission p)) m = Ok tt).
  { unfold validate_height. destruct (N.ltb_spec (height (admission p)) (valid_block_start m)); [lia|].
    by destruct (N.ltb_spec (valid_block_end m) (height (admission p))); [lia|]. }
  pose proof (proj2 (validate_sender_against_Ok vs m d tt) Hi) as Hidx.
  assert (Hin : sender m ∈ vs) by (by eapply list_elem_of_lookup_2).
  unfold publish, validate_message. destruct (N.ltb_spec DBFT_MAX_MESSAGE_SIZE (message_length m)); [lia|].
  rewrite Hw. cbn [result_bind]. unfold validate_sender, validate_validator_index, validate_payload.
  rewrite Hheight, Hv, Hd. cbn [ok_or result_bind map_err]. rewrite bool_decide_eq_true_2 by done.
  cbn [negb result_bind]. rewrite Hidx, Hp. cbn [result_bind]. unfold cache_message.
  rewrite Hheight, Hv. cbn [ok_or result_bind]. rewrite Hidx.
  unfold is_next_height_message. rewrite bool_decide_eq_true_2 by done. cbn [negb].
  destruct (cache_insert_spec (cache p) (message_hash m) m (proj1 Hadm)) as (c & r & Ei & _ & Hr).
  unfold insert_cached. rewrite Ei. cbn [default id from_option]. destruct r as [[]|size]; cbn [map_err fst snd id]; try done.
  - exists true. split; [done|]. destruct (broadcast_core (set_cache p c) (CmdAnnounce (message_hash m))) as (_ & -> & _).
    destruct Hr as (_ & Hg & _). apply fmap_Some in Hg as (cm & Hcm & _).
    by exists cm.
  - destruct Hr as [-> Hs]. by exists false.
  - destruct Hr as (_ & -> & Hbig). unfold DBFT_MAX_MESSAGE_SIZE, DBFT_MESSAGE_CACHE_BYTE_CAPACITY in *. lia.
Qed.

(** The round and the network service agree: in every reachable node the service admits
    exactly the round's height and validators (none without a round), so a message the
    round accepts, valid from before that height and not above the size limit, is never
    refused when published, and the service then serves it to its peers. *)
Theorem node_publishes_accepted allowed k d cs rnd m d' p :
  node_reachable allowed k d cs -> d_round d = Some rnd -> check_message rnd m = Ok (d', p) ->
  valid_block_start m < rs_height rnd -> message_length m <= DBFT_MAX_MESSAGE_SIZE ->
  validators (admission (d_dbft d)) = Some (rs_validators rnd) /\
  exists inserted, (publish (d_dbft d) m).2 = Ok inserted /\
    is_Some (messages (cache (publish (d_dbft d) m).1) !! message_hash m).
Proof.
  intros [Hok Hnet Ha _]%node_reachable_ok Hr Hc Hstart Hlen. unfold agrees in Ha. rewrite Hr in Ha.
  destruct Ha as [Hv Hh]. split; [done|]. apply check_message_Ok in Hc as [Hauth _].
  pose proof Hauth as (_ & E & _). rewrite <- E in *. apply sys_reachable_inv in Hnet as [[Hadm _] _].
  by apply (publish_admitted _ (rs_validators rnd) m d' p).
Qed.
End theorems.

(** ** A committee of one

    One validator starts after block 0, proposes block 1, verifies it, seals it and
    imports it. *)

Module NodeWitness.
#[local] Existing Instance alloy_rlp.
#[local] Existing Instance RlpInstance.alloy_rlp_laws.
#[local] Existing Instance model_crypto.
#[local] Existing Instance model_crypto_laws.
#[local] Existing Instance model_secp256k1.
#[local] Existing Instance model_secp256k1_laws.
#[local] Existing Instance model_blst.
(** A transaction is its hash, a block body is nothing. *)
#[local] Instance plain_transactions : PooledTransactions := {|
  pooled_tx := B256; signed_tx := B256; blob_sidecar := unit;
  tx_hash t := t; into_signed t := t; eip4844_sidecar _ := None |}.
#[local] Instance plain_contents : BlockContents := {| block_contents := unit |}.

Definition secret : signing_key := 7.
Definition storage (key : B256) : result GovernanceError (option U256) :=
  if bool_decide (key = u256_bytes GOVERNANCE_CURRENT_CONSENSUS_SLOT) then Ok (Some 1)
  else Ok (Some (N_of_be (key_account secret))).
Definition genesis : ActivationState := mkActivationState storage (fun _ => Ok None).
Definition env : DriverEnv :=
  mkDriverEnv 0 0 (fun _ => false) (fun _ _ => false) (fun _ => None) map_to_list elements
    (fun m => (map_to_list m).*1).

Definition block : Header := model_header 1 0 2 ZERO_B256 [x00].
Definition contents : block_contents := tt.
Definition request : DbftPrepareRequest := mkDbftPrepareRequest block [] None None.
Definition verified : VerifiedProposal := mkVerifiedProposal block ZERO_B256 None contents.
Definition started : Driver :=
  driver_start env (Some (first_signer secret)) (protocol_new 0) 5000000000 [] [] 0 (Some genesis).
Definition stepped (d : Driver) (e : DriverEvent) : Driver := default d (driver_step env d e).
Definition proposed : Driver := stepped started (EvPrimary 1 0 (Some (mkPrimaryProposal request [] []))).
Definition proposal_hash : B256 :=
  default ZERO_B256 (rnd ← d_round proposed; message_hash <$> round_proposal rnd 0).
Definition sealed : Driver := stepped proposed (EvVerified 0 proposal_hash (Ok verified)).


Lemma env_fine : env_ok env.
Proof. intros m. reflexivity. Qed.

Lemma stepped_reachable allowed d cs e :
  node_reachable allowed secret d cs -> event_ok e -> node_reachable allowed secret (stepped d e) cs.
Proof.
  intros Hr He. unfold stepped. destruct (driver_step env d e) as [d'|] eqn:E; [|done].
  apply (node_event allowed secret env d cs e); [exact Hr|apply env_fine|exact He|exact E].
Qed.

Lemma started_reachable allowed : node_reachable allowed secret started ∅.
Proof.
  apply (node_start allowed secret env true (protocol_new 0) ∅ 5000000000 [] 0 (Some genesis)).
  - apply (Protocol.reach_new 0). discriminate.
  - discriminate.
  - constructor.
Qed.

Lemma proposed_reachable allowed : node_reachable allowed secret proposed ∅.
Proof. apply stepped_reachable; [apply started_reachable|exact I]. Qed.

Lemma sealed_reachable allowed : node_reachable allowed secret sealed ∅.
Proof. apply stepped_reachable; [apply proposed_reachable|exact I]. Qed.

Lemma node_total_witness : exists d', driver_step env sealed (EvMaintenance (Some (1, Some genesis))) = Some d'.
Proof.
  apply (node_total no_partial_line secret sealed ∅ env (EvMaintenance (Some (1, Some genesis))));
    [apply sealed_reachable|apply env_fine|vm_compute; discriminate].
Defined.

Definition is_some {A} (o : option A) : bool := match o with Some _ => true | None => false end.
Lemma is_some_spec {A} (o : option A) : is_some o = true -> exists x, o = Some x.
Proof. destruct o; [by eexists|done]. Qed.


Definition imported (t : DriverTask) : option (Header * VerifiedProposal) :=
  match t with TaskImport h v => Some (h, v) | _ => None end.
Lemma imported_task t x : imported t = Some x -> t = TaskImport x.1 x.2.
Proof. destruct t; try done. by intros [= <-]. Qed.

Lemma node_imports_certified_witness :
  exists header v rnd view m final, TaskImport header v ∈ d_tasks sealed /\ certified rnd view m final /\
    header = with_extra_data final (extra_data header).
Proof.
  destruct (is_some_spec (head (omap imported (d_tasks sealed)))) as [[header v] Hx]; [vm_compute; reflexivity|].
  assert (Hin : TaskImport header v ∈ d_tasks sealed).
  { assert (Hx' : (header, v) ∈ omap imported (d_tasks sealed)) by (by apply head_Some_elem_of).
    apply list_elem_of_omap in Hx' as (t & Ht & ->%imported_task). exact Ht. }
  destruct (node_imports_certified no_partial_line secret sealed ∅ header v (sealed_reachable _) Hin)
    as (rnd & view & m & m' & final & extra & _ & Hc & _ & _ & Hw & _).
  exists header, v, rnd, view, m, final. split; [exact Hin|split; [exact Hc|exact Hw]].
Defined.

Definition publishable (rnd : DbftRoundState) (m : DbftMessage) : bool :=
  is_ok (check_message rnd m) && (valid_block_start m <? rs_height rnd) &&
  (message_length m <=? DBFT_MAX_MESSAGE_SIZE).

Lemma node_publishes_accepted_witness :
  exists rnd m inserted, d_round proposed = Some rnd /\ (publish (d_dbft proposed) m).2 = Ok inserted.
Proof.
  assert (H : match d_round proposed with
              | Some rnd => match round_proposal rnd 0 with Some m => publishable rnd m | None => false end
              | None => false
              end = true) by (vm_compute; reflexivity).
  destruct (d_round proposed) as [rnd|] eqn:Hr; [|discriminate].
  destruct (round_proposal rnd 0) as [m|]; [|discriminate].
  apply andb_prop in H as [H H3]. apply andb_prop in H as [H1 H2].
  destruct (check_message rnd m) as [[dt p]|e] eqn:Hc; [|discriminate].
  destruct (node_publishes_accepted no_partial_line secret proposed ∅ rnd m dt p (proposed_reachable _) Hr Hc)
    as (_ & inserted & Hp & _); [by apply N.ltb_lt|by apply N.leb_le|].
  exists rnd, m, inserted. split; [reflexivity|exact Hp].
Defined.
End NodeWitness.

(** ** No way back from a view change

    Four honest validators. The last one asks for view 1, then its proposal verifies and
    it seals the block of view 0; when the view changes it can never seal the block of
    view 1. *)

Module StallWitness.
#[local] Existing Instance alloy_rlp.
#[local] Existing Instance RlpInstance.alloy_rlp_laws.
#[local] Existing Instance model_crypto.
#[local] Existing Instance model_crypto_laws.
#[local] Existing Instance model_secp256k1.
#[local] Existing Instance model_secp256k1_laws.
#[local] Existing Instance model_blst.
#[local] Existing Instance NodeWitness.plain_transactions.
#[local] Existing Instance NodeWitness.plain_contents.

Definition key (i : N) : signing_key := i + 1.
Definition storage (slot : B256) : result GovernanceError (option U256) :=
  if bool_decide (slot = u256_bytes GOVERNANCE_CURRENT_CONSENSUS_SLOT) then Ok (Some 4)
  else if bool_decide (slot = u256_bytes (governance_current_consensus_storage_key 0)) then Ok (Some 1)
  else if bool_decide (slot = u256_bytes (governance_current_consensus_storage_key 1)) then Ok (Some 2)
  else if bool_decide (slot = u256_bytes (governance_current_consensus_storage_key 2)) then Ok (Some 3)
  else Ok (Some 4).
Definition genesis : ActivationState := mkActivationState storage (fun _ => Ok None).

(** The proposals of view 0 and view 1, which differ in their primaries. *)
Definition block (view : N) : Header := model_header 1 (1 - view) 2 ZERO_B256 [x00].
Definition proposal (view : N) : VerifiedProposal :=
  mkVerifiedProposal (block view) ZERO_B256 None NodeWitness.contents.

(** What validator [i] sends. *)
Definition sent (i view : N) (t : DbftMessageType) (payload : bytes) : option DbftMessage :=
  result_ok (sign_message (signer_new (key i)) Synced 1 i view t payload).2.
Definition request (i view : N) : option DbftMessage :=
  sent i view PrepareRequest (enc prepare_request_codec (mkDbftPrepareRequest (block view) [] None None)).
Definition request_hash (i view : N) : B256 := default ZERO_B256 (message_hash <$> request i view).
Definition response (i view primary : N) : option DbftMessage :=
  sent i view PrepareResponse (enc prepare_response_codec (mkDbftPrepareResponse (request_hash primary view))).
Definition change_view (i : N) : option DbftMessage :=
  sent i 0 ChangeView (enc change_view_codec (change_view_new 0 Timeout)).

Definition receive (d : Driver) (m : option DbftMessage) : Driver :=
  match m with Some m => NodeWitness.stepped d (EvMessage [x01] m) | None => d end.
Definition verified (d : Driver) (view primary : N) : Driver :=
  NodeWitness.stepped d (EvVerified view (request_hash primary view) (Ok (proposal view))).

Definition started : Driver :=
  driver_start NodeWitness.env (Some (first_signer (key 3))) (protocol_new 0) 5000000000 [] [] 0 (Some genesis).
(** The proposal and one response arrive, then the timer fires. *)
Definition waiting : Driver := receive (receive started (request 1 0)) (response 2 0 1).
Definition asked : Driver :=
  NodeWitness.stepped waiting (EvTimeout (default (mkDbftTimeout 0 0 0) (armed (d_timer waiting)))).
Definition committed : Driver := verified asked 0 1.
(** Two more requests complete the view change; the next proposal is prepared. *)
Definition moved : Driver := receive (receive committed (change_view 0)) (change_view 2).
Definition stuck : Driver := verified (receive (receive moved (request 0 1)) (response 2 1 0)) 1 0.

(** Of a driver: its view; whether the validator asked for a view change, and committed, in
    view 0; whether it committed in view 1; whether view 1 is prepared. *)
Definition summary (d : Driver) : option (N * bool * bool * bool * bool) :=
  rnd ← d_round d;
  Some (current_view rnd, has_change_view rnd 0 3, has_commit rnd 0 3, has_commit rnd 1 3,
        match progress rnd 1 with Prepared _ _ _ => true | _ => false end).
Definition refuses (d : Driver) (header : Header) : bool :=
  match d_signer d with
  | Some s =>
      match (commit_for_header_at s Synced header None).2 with
      | Err (JournalRefused (ConflictingDuty _ _ _)) => true
      | _ => false
      end
  | None => false
  end.

End StallWitness.
